(* ===== verification/_CoqProject ===== *)
-Q . S2P
Prelude.v
GoStd.v
GoStrings.v
Topology.v
TopologyFenwick.v
TopologyGraph.v
TopologyModels.v
TopologyAttach.v
TopologyGenerate.v
TopologyProps.v
WorkQueue.v
WorkQueueProps.v
Distribution.v
Network.v
NetworkProps.v
Netem.v
NetemProps.v
PeerNetwork.v
Attacks.v
PeerScore.v
PeerScoreProps.v
GossipSubConfig.v
PeerGossipSub.v
KademliaConfig.v
NodeConfig.v
NodeConfigProps.v
NodeConfigSafe.v
NodeConfigBuild.v
ProfileSchedule.v
Trace.v
SequenceRanges.v
SessionWindow.v
SessionWindowProps.v
Bandwidth.v
BandwidthProps.v
RunMetrics.v
RunMetricsProps.v
Bytes.v
FileSystem.v
TelemetrySpool.v
FileSystemProps.v
TelemetrySpoolProps.v
TelemetrySpoolInv.v
TelemetrySpoolOps.v
TelemetrySpoolAppend.v
TelemetrySpoolAck.v
TelemetrySpoolDisk.v
TelemetrySpoolRecover.v
TelemetrySpoolWindow.v
TelemetrySpoolTheorems.v
ProfileScheduleProps.v
PeerProfile.v
PeerProfileProps.v
Scenario.v
ScenarioProps.v
PhaseJobs.v
PhaseJobsProps.v
Runner.v
RunnerInv.v
RunnerProps.v
GoFloat.v
AgentModel.v
Inventory.v
InventoryInv.v
InventoryOrder.v
InventoryProps.v
CreateNode.v
CreateNodeProps.v
AgentPrepare.v
AgentProcess.v
AgentStatus.v
AgentServer.v
AgentThreads.v
AgentInv.v
AgentCalm.v
AgentWorld.v
AgentAdmission.v
AgentStops.v
AgentReach.v
AgentProps.v
