(* ===== verification/Prelude.v ===== *)
(** * K-P2PLab v3: a verification library

    K-P2PLab runs experiments on peer-to-peer networks.  A Controller validates a
    scenario, queues the run, places Peers on the hosts' Agents and drives them
    phase by phase; an Agent starts the Peers' containers and forwards their
    telemetry; a Peer runs libp2p, GossipSub and Kademlia under configured
    network conditions and attacks; the Controller measures each run from the
    telemetry events.  The program is Go, under [src/internal]; this library is a
    shallow embedding of the parts that decide, with the theorems that make them
    correct.

    ** Conventions

    A fallible function returns [res A]: [Ok], [Err] with the message (its format
    arguments dropped) or [Panic] for a run-time panic of the language, so "never
    panics" is a theorem.  Stateful code is a computation of the monad [GoM S],
    in which an error keeps the state reached.  [int] and counters are [Z], with
    the wrap-around written ([i64], [u64]) where a value can leave its range;
    [float64] is IEEE binary64 with one NaN, computed by the kernel; durations
    are nanoseconds, parsed as [time.ParseDuration] does.  A pointer to a setting
    is an option; a map is a finite map (or, for a literal the code ranges over,
    the list of its entries), and a slice that may be nil an option of a list.
    Where the code shares or mutates an object (queue slots and batches, spool
    segments, the adjacency under construction) the model has a heap and
    addresses.  Names are the source's.

    ** Parts, files and sources

    Common.  [Prelude]: results, the monad with its program logic [run], the hint
    database [safe], list and option lemmas.  [GoStd], [GoStrings], [Bytes],
    [FileSystem]: what is used of Go's library (integers, floats, durations,
    UTF-8 text, bytes, and a directory whose calls fail or lose a suffix of a
    write, which also models a crash at any call).

    Configuration ([internal/model], package [model]).  [Distribution]
    ([internal/distribution]), [Network] ([network.go], [network_schedule.go]),
    [Attacks] ([attacks.go]), [PeerScore] ([score_config.go] and its conversion
    in [internal/peer/score_config.go]), [GossipSubConfig], [KademliaConfig],
    [NodeConfig] ([config.go]: presets, overlay, defaults, validation) and
    [PeerGossipSub] ([internal/peer/gossipsub_config.go],
    [gossipsub_policies.go]: the options a Peer builds from it and the checks of
    the library that receives them).  [NodeConfigProps], [NodeConfigSafe] and
    [NodeConfigBuild] prove that defaults are idempotent, that validation never
    panics, and that what the Controller accepts the Peer can build;
    [PeerScoreProps] the same for scoring, [NetworkProps] that every state of an
    accepted network schedule is within the kernel's limits.

    Scenario ([internal/scenario]).  [Scenario] is the whole of [Validate] after
    the YAML decoder.  [ScenarioProps]: every phase fits the phases before it
    (jobs, names, complete configurations), and in every generation scheduled
    changes apply to the joins they select and attack targets exist.

    Changes of running Peers.  [ProfileSchedule] ([profile_schedule.go]): the
    patches, their application and the check of acknowledgements;
    [PeerProfile] ([internal/peer/profile_update.go]): the two-stage protocol on
    the Peer.  [ProfileScheduleProps]: an honest acknowledgement is accepted and
    an accepted one holds the requested values; [PeerProfileProps]: the
    reachable states of a Peer, updates interleaved with its network schedule, what
    an application commits, and that a retry is harmless.

    Network conditions.  [Netem] ([internal/netem]) and [PeerNetwork]
    ([internal/peer/network_schedule.go]); [NetemProps]: an installation leaves
    all devices configured or rolls them all back.

    Topology.  [Topology] ([internal/topology/generate.go],
    [internal/model/topology.go]); [TopologyFenwick], [TopologyGraph],
    [TopologyModels], [TopologyAttach], [TopologyGenerate], [TopologyProps]: the
    generator returns a simple graph of the requested model with the planned
    number of edges, or the context's error.

    Work queue.  [WorkQueue] ([internal/controller/work_queue.go] with the
    admission part of [experiment_queue.go], [repeat.go] and
    [run_integrity.go]) as a step relation over shared slots; [WorkQueueProps]:
    only the head of the queue is released, nobody is forgotten, nothing panics.

    The run of an experiment.  [PhaseJobs] ([internal/controller/jobs.go]) is the
    registry of background phases; [Runner] ([runScenario] and [runPhase] of
    [runner.go]) the transition system of a run: one step per blocking operation
    or critical section, the main goroutine and the jobs interleaved in any order.
    [PhaseJobsProps], [RunnerInv] and [RunnerProps]: for every accepted scenario
    the registry never refuses the runner, no wakeup is lost and every run ends,
    Peers are removed after their producers stopped, and a run reported as
    completed accounts for every background phase.

    Inventory, placement and creation.  [AgentModel] ([internal/model]: the
    records), [Inventory] ([state.go], placement in [runner.go],
    [agent_capacity.go], [agent_availability.go], [host_availability.go]): every
    operation on the Controller's Agents, Peers and reservations.
    [InventoryInv] and [InventoryProps]: the invariant of every reachable
    inventory, that a Peer's life cycle never runs backwards, that limits wait
    for the Agent's acknowledgement, what a placement guarantees;
    [InventoryOrder] and [GoFloat]: the preference of Agents is a strict total
    order, so Go's map order does not matter.  [CreateNode] ([createReservedNode]
    and [createOnAgent], [create_retry.go]) is the creation of one Peer among the
    other users of the inventory; [CreateNodeProps]: at most one Agent can have
    created it, and its place is accounted for.

    Peers on the Agent ([internal/agent]).  [AgentPrepare], [AgentProcess] and
    [AgentStatus] are the functions of one creation, one process record and one
    status report ([agent.go], [network_status.go], [profile_update.go],
    [attack_status.go]); [AgentServer] the shared state and its critical sections
    ([agent.go], [container.go], [create_replay.go], [history.go],
    [history_store.go], [heartbeat.go], [experiment_network.go]); [AgentThreads]
    the handlers and goroutines as threads whose steps interleave in any order
    ([docker.go] and [api.go] included), with a log of what happened.
    [AgentInv] states the invariant and each thread's assertion, [AgentCalm] what
    the elementary changes keep, [AgentWorld] the counting of threads (who carries
    a process, who announces an admission, who holds [fencingAll]) and what the
    threads leave alone, [AgentAdmission], [AgentStops] and [AgentReach] every step,
    with a second layer for the experiment network (who holds [networkMu], what runs
    while [docker ps] is asked) and for stops (a marked process is cancelled).
    [AgentProps]: one container per Peer, fences hold and are never lost, an
    acknowledged removal is final, a network is reset only when nothing is left,
    capacity is respected, acknowledged creations exist, retired Peers leave their
    evidence, exits are evidenced once, failed removals can be retried, no wakeup is
    lost, and every stop cancels its processes, which then come to their end.

    Telemetry on the Agent.  [TelemetrySpool] ([internal/agent/telemetry_spool.go],
    [telemetry_log.go], the encoding half of [telemetry_window.go]) over
    [FileSystem]; [TelemetrySpoolProps] to [TelemetrySpoolTheorems]: whatever
    call fails and whenever the process crashes, an accepted event is delivered
    or still pending.

    Measurement on the Controller.  [Trace] (the events), [SequenceRanges],
    [SessionWindow] ([run_metrics_window.go]), [Bandwidth] ([bandwidth.go]) and
    [RunMetrics] ([run_metrics.go]), with their [Props]: events count once
    however they are retried, the sweep computes the definition of an active
    session, totals are exact and bounded, the cached summary is the exact one.

    ** How the parts interact

    [Scenario.Validate] resolves each join through [NodeConfig] and checks each
    schedule through [ProfileSchedule.Apply]; the node it accepts is the one
    [PeerGossipSub] builds from, [Netem] installs and [PeerProfile] patches, so
    [accepted_pubsub_builds], [accepted_phases_sound],
    [accepted_generations_served], [honest_acknowledgement] and
    [apply_commits_prepared] chain from the declaration to the running Peer.
    Events flow from [Trace] through [TelemetrySpool] (at least once) into
    [RunMetrics] (exactly once).

    ** Parameters and their laws

    Code outside [src/] is a parameter.  [PeerCodec] (libp2p peer IDs; law: the
    text of a decoded ID decodes to it), [CIDRs] ([net.ParseCIDR]),
    [PubSubLib] (regular expressions, base64, multiaddresses, keys), [JSON] with
    [JSONLaws] (an encoded event holds no newline, is valid and decodes to its run,
    its texts being valid UTF-8 as those of decoded requests are),
    [ParseFloat], [Pow] and the transcendental functions of [math],
    [rand.Rand] (law: [Intn n] is below [n]), the [tc] runner, clocks and
    contexts.  For the Agent: [Encoding] (JSON texts, times and request hashes)
    and [StatusCodec] (decoding of a report); the answers of Docker, files and
    the database are the [input] of a step, any answer being possible.  The wait for
    a container may never be answered; the other operations return, as their contexts
    have deadlines.  The one thing relied on is that a successful [docker rm] has
    removed the container, and a creation whose removal succeeded left none.  The
    containers that the daemon lists beside those (of interrupted creations that
    committed late, of earlier instances) are an input of [fenceListing].  Witnesses instantiate the
    parameters with concrete functions.

    ** Fuel

    Loops without structural recursion run on fuel, shown to suffice:
    the generations of a scenario and the loop over the journal's frames use the
    length of the list they consume, [acknowledge] the number of events (each
    round commits at least one), trimming the length of the string, network
    validation two levels (a change holds no schedule), the timeline 64 widenings
    of 361 buckets (a width doubles, a run's nanoseconds fit 64 bits), the
    rejection samplers any number of attempts ([Sample_returns] says which one
    succeeds).

    ** Not modelled

    HTTP, JSON decoding of requests, Swarm orchestration (master, experiment
    networks), the host reboot protocol (privileged system calls), the Web UI,
    result archives and the offline analyses; of the Agent its start-up, metrics
    and sampling, telemetry requests, the proxies of profile updates and
    publications, and the replay of retired history after a registration; the libp2p
    router itself (third-party code; only the checks of its options are
    translated); the YAML decoder; telemetry and log side effects of the modelled
    operations.  The operations of a run on its Agents (joining, publishing,
    readiness barriers, profile changes) are outcomes chosen by the environment
    of [Runner]; of them only the creation of a Peer has a model of its own. *)

From Stdlib Require Export ZArith Lia.
From stdpp Require Export base tactics list strings gmap sorting option.

#[global] Set Default Goal Selector "!".

Declare Scope go_scope.
Delimit Scope go_scope with go.

(** ** Results of Go calls

    [Ok v] is a nil error, [Err e] a non-nil one (the message with its format
    arguments dropped) and [Panic] a run-time panic of the language. *)
Inductive res (A : Type) : Type :=
  | Ok (a : A)
  | Err (e : string)
  | Panic.
Arguments Ok {A} _.
Arguments Err {A} _%_string.
Arguments Panic {A}.

#[export] Instance res_ret : MRet res := λ A a, Ok a.
#[export] Instance res_bind : MBind res := λ A B f m,
  match m with Ok a => f a | Err e => Err e | Panic => Panic end.

#[export] Instance res_eq_dec `{EqDecision A} : EqDecision (res A).
Proof. solve_decision. Defined.

(** [fmt.Errorf("prefix: %w", err)] *)
Definition wrap {A} (prefix : string) (r : res A) : res A :=
  match r with Err e => Err (prefix +:+ ": " +:+ e) | _ => r end.

(** [if cond { return fmt.Errorf(e) }] *)
Definition fail_if (c : bool) (e : string) : res unit :=
  if c then Err e else Ok tt.

Definition is_ok {A} (r : res A) : bool :=
  match r with Ok _ => true | _ => false end.

Lemma bind_ok {A B} (f : A → res B) (m : res A) b :
  m ≫= f = Ok b ↔ ∃ a, m = Ok a ∧ f a = Ok b.
Proof. destruct m; naive_solver. Qed.

Lemma fail_if_ok c e u : fail_if c e = Ok u ↔ c = false.
Proof. destruct u, c; naive_solver. Qed.

Lemma fail_if_seq_ok {B} c e (k : res B) b :
  (fail_if c e;; k) = Ok b ↔ c = false ∧ k = Ok b.
Proof. destruct c; naive_solver. Qed.

Lemma wrap_ok {A} p (r : res A) a : wrap p r = Ok a ↔ r = Ok a.
Proof. destruct r; naive_solver. Qed.

(** [*p]: dereferencing a nil pointer panics. *)
Definition deref {A} (p : option A) : res A :=
  match p with Some a => Ok a | None => Panic end.

(** [for _, x := range l { if err := check(x); err != nil { return err } }] *)
Fixpoint checkAll {A} (check : A → res unit) (l : list A) : res unit :=
  match l with
  | [] => Ok tt
  | x :: l => check x;; checkAll check l
  end.

Lemma checkAll_ok {A} (check : A → res unit) l u :
  checkAll check l = Ok u ↔ Forall (λ x, check x = Ok tt) l.
Proof.
  destruct u. induction l as [|x l IH]; [by rewrite list.Forall_nil|].
  rewrite list.Forall_cons, <- IH. cbn. destruct (check x) as [[]| |]; naive_solver.
Qed.

(** *** Successful checks, as propositions *)
Lemma seq_ok {B} (m : res unit) (k : res B) b : (m;; k) = Ok b ↔ m = Ok tt ∧ k = Ok b.
Proof. destruct m as [[]| |]; naive_solver. Qed.

(** Take a successful sequence of checks apart, ... *)
Ltac check_inv :=
  repeat match goal with
  | H : Ok _ = Ok _ |- _ => clear H
  | H : Err _ = Ok _ |- _ => discriminate H
  | H : mbind (λ _ : unit, _) _ = Ok _ |- _ => apply seq_ok in H as [? H]
  | H : fail_if _ _ = Ok _ |- _ => apply fail_if_ok in H
  | H : wrap _ _ = Ok _ |- _ => apply wrap_ok in H
  | H : (if ?b then _ else _) = Ok _ |- _ => destruct b
  end.

(** ... and put one together. *)
Ltac check_goal :=
  repeat match goal with
  | |- Ok ?a = Ok ?a => reflexivity
  | |- mbind (λ _ : unit, _) _ = Ok _ => apply seq_ok; split
  | |- fail_if _ _ = Ok _ => apply fail_if_ok
  | |- wrap _ _ = Ok _ => apply wrap_ok
  | |- (if ?b then _ else _) = Ok _ => destruct b
  end.

(** *** Code that never panics *)
Definition safe {A} (r : res A) : Prop := r ≠ Panic.

Create HintDb safe.

Lemma safe_ok {A} (a : A) : safe (Ok a).
Proof. done. Qed.
Lemma safe_err {A} e : safe (Err e : res A).
Proof. done. Qed.
Lemma safe_fail_if c e : safe (fail_if c e).
Proof. by destruct c. Qed.
Lemma safe_wrap {A} p (r : res A) : safe r → safe (wrap p r).
Proof. by destruct r. Qed.
Lemma safe_bind {A B} (f : A → res B) m :
  safe m → (∀ a, m = Ok a → safe (f a)) → safe (m ≫= f).
Proof. destruct m; [eauto|done|done]. Qed.
Lemma safe_deref {A} (p : option A) : p ≠ None → safe (deref p).
Proof. by destruct p. Qed.
Lemma safe_checkAll {A} (check : A → res unit) l :
  (∀ x, safe (check x)) → safe (checkAll check l).
Proof. intros H. induction l as [|x l IH]; [done|]. cbn. by apply safe_bind. Qed.

#[export] Hint Resolve safe_ok safe_err safe_fail_if safe_wrap safe_deref safe_checkAll : safe.

(** One step per construct of the code: sequencing, tests and loops. *)
Ltac safe_step :=
  match goal with
  | |- safe (_ ≫= _) => apply safe_bind; [|intros ??]
  | |- safe (checkAll _ _) => apply safe_checkAll; intros ?
  | |- safe (wrap _ _) => apply safe_wrap
  | |- safe (match ?x with _ => _ end) => destruct x eqn:?
  | |- safe _ => solve [auto with safe]
  end.
Ltac safe_solve := repeat safe_step.

(** ** Stateful code: a state that survives errors *)
Definition GoM (S A : Type) : Type := S → res A * S.

#[export] Instance gom_ret {S} : MRet (GoM S) := λ A a s, (Ok a, s).
#[export] Instance gom_bind {S} : MBind (GoM S) := λ A B f m s,
  match m s with
  | (Ok a, s') => f a s'
  | (Err e, s') => (Err e, s')
  | (Panic, s') => (Panic, s')
  end.

Definition get {S} : GoM S S := λ s, (Ok s, s).
Definition put {S} (s : S) : GoM S unit := λ _, (Ok tt, s).
Definition modify {S} (f : S → S) : GoM S unit := λ s, (Ok tt, f s).
Definition throw {S A} (e : string) : GoM S A := λ s, (Err e, s).
Definition panic {S A} : GoM S A := λ s, (Panic, s).
Definition lift_res {S A} (r : res A) : GoM S A := λ s, (r, s).

(** [for _, x := range l { body }] *)
Fixpoint miter {S A} (body : A → GoM S unit) (l : list A) : GoM S unit :=
  match l with
  | [] => mret tt
  | x :: l => body x;; miter body l
  end.

(** The same loop carrying the local variables [acc] that its body updates. *)
Fixpoint mfold {S A B} (body : B → A → GoM S B) (l : list A) (acc : B) : GoM S B :=
  match l with
  | [] => mret acc
  | x :: l => acc ← body acc x; mfold body l acc
  end.

Lemma gom_bind_ok {S A B} (f : A → GoM S B) (m : GoM S A) s b s' :
  (m ≫= f) s = (Ok b, s') ↔ ∃ a s1, m s = (Ok a, s1) ∧ f a s1 = (Ok b, s').
Proof.
  unfold mbind, gom_bind. destruct (m s) as [[a|e|] s1]; naive_solver.
Qed.

Lemma gom_bind_panic {S A B} (f : A → GoM S B) (m : GoM S A) s s' :
  (m ≫= f) s = (Panic, s') ↔
  m s = (Panic, s') ∨ ∃ a s1, m s = (Ok a, s1) ∧ f a s1 = (Panic, s').
Proof.
  unfold mbind, gom_bind. destruct (m s) as [[a|e|] s1]; naive_solver.
Qed.

(** *** A program logic for the stateful code

    [run m P Q E]: started in a state of [P], [m] never panics; if it returns a
    value the final state is in [Q], and an error satisfies [E]. *)
Definition run {S A} (P : S → Prop) (m : GoM S A) (Q : A → S → Prop)
    (E : string → S → Prop) : Prop :=
  ∀ s, P s → match m s with
             | (Ok a, s') => Q a s'
             | (Err e, s') => E e s'
             | (Panic, _) => False
             end.

Lemma run_conseq {S A} (P P' : S → Prop) (m : GoM S A) (Q Q' : A → S → Prop)
    (E E' : string → S → Prop) :
  run P m Q E → (∀ s, P' s → P s) → (∀ a s, Q a s → Q' a s) →
  (∀ e s, E e s → E' e s) → run P' m Q' E'.
Proof.
  intros H HP HQ HE s Hs. specialize (H s (HP s Hs)).
  destruct (m s) as [[a|e|] s']; eauto.
Qed.

Lemma run_ret {S A} (P : S → Prop) (a : A) (Q : A → S → Prop) E :
  (∀ s, P s → Q a s) → run P (mret a) Q E.
Proof. intros H s Hs. by apply H. Qed.

Lemma run_bind {S A B} (P : S → Prop) (m : GoM S A) (R : A → S → Prop)
    (f : A → GoM S B) (Q : B → S → Prop) E :
  run P m R E → (∀ a, run (R a) (f a) Q E) → run P (m ≫= f) Q E.
Proof.
  intros Hm Hf s Hs. specialize (Hm s Hs). unfold mbind, gom_bind.
  destruct (m s) as [[a|e|] s']; [by apply Hf|done..].
Qed.

Lemma run_bind_assoc {S A B C} (P : S → Prop) (m : GoM S A) (f : A → GoM S B)
    (g : B → GoM S C) (Q : C → S → Prop) (E : string → S → Prop) :
  run P (m ≫= λ a, f a ≫= g) Q E → run P ((m ≫= f) ≫= g) Q E.
Proof.
  intros Hm s Hs. specialize (Hm s Hs). unfold mbind, gom_bind in *.
  by destruct (m s) as [[a|e|] s'].
Qed.

Lemma run_throw {S A} (P : S → Prop) e (Q : A → S → Prop) (E : string → S → Prop) :
  (∀ s, P s → E e s) → run P (throw e) Q E.
Proof. intros H s Hs. by apply H. Qed.

Lemma run_get {S} (P : S → Prop) (Q : S → S → Prop) E :
  (∀ s, P s → Q s s) → run P get Q E.
Proof. intros H s Hs. by apply H. Qed.

Lemma run_modify {S} (P : S → Prop) f (Q : unit → S → Prop) E :
  (∀ s, P s → Q tt (f s)) → run P (modify f) Q E.
Proof. intros H s Hs. by apply H. Qed.

(** The loop rule: the invariant is indexed by what has been visited. *)
Lemma run_miter {S A} (I : list A → S → Prop) (body : A → GoM S unit) l
    (E : string → S → Prop) :
  (∀ pre x post, l = pre ++ x :: post →
     run (I pre) (body x) (λ _, I (pre ++ [x])) E) →
  run (I []) (miter body l) (λ _, I l) E.
Proof.
  intros Hbody.
  enough (∀ pre post, l = pre ++ post →
    run (I pre) (miter body post) (λ _, I l) E) as Hgen by by apply (Hgen []).
  intros pre post. revert pre.
  induction post as [|x post IH]; intros pre Hl.
  - apply run_ret. intros s. by rewrite Hl, app_nil_r.
  - cbn. eapply run_bind; [by eapply Hbody|]. intros []. apply IH.
    by rewrite <- app_assoc.
Qed.

Lemma run_mfold {S A B} (I : list A → B → S → Prop) (body : B → A → GoM S B) l acc
    (E : string → S → Prop) :
  (∀ pre x post acc, l = pre ++ x :: post →
     run (I pre acc) (body acc x) (λ acc', I (pre ++ [x]) acc') E) →
  run (I [] acc) (mfold body l acc) (λ acc', I l acc') E.
Proof.
  intros Hbody.
  enough (∀ pre post acc, l = pre ++ post →
    run (I pre acc) (mfold body post acc) (λ acc', I l acc') E) as Hgen
    by by apply (Hgen []).
  intros pre post. revert pre.
  induction post as [|x post IH]; intros pre acc' Hl.
  - apply run_ret. intros s. by rewrite Hl, app_nil_r.
  - cbn. eapply run_bind; [by eapply Hbody|]. intros a. apply IH.
    by rewrite <- app_assoc.
Qed.

Lemma seq_split a len pre x post :
  seq a len = pre ++ x :: post → x = a + length pre ∧ length pre < len.
Proof.
  intros Hs. assert (seq a len !! length pre = Some x) as Hl.
  { rewrite Hs. by apply list_lookup_middle. }
  by apply lookup_seq in Hl.
Qed.

(** [for i := a; i < a + len; i++ { body }] *)
Lemma run_for {S} (I : nat → S → Prop) (body : nat → GoM S unit) a len
    (E : string → S → Prop) :
  (∀ i, i < len → run (I i) (body (a + i)) (λ _, I (Datatypes.S i)) E) →
  run (I 0) (miter body (seq a len)) (λ _, I len) E.
Proof.
  intros Hbody.
  pose proof (run_miter (λ pre, I (length pre)) body (seq a len) E) as Hrule.
  cbv beta in Hrule. rewrite length_seq in Hrule. apply Hrule. intros pre x post Hs.
  apply seq_split in Hs as [-> Hlt].
  eapply run_conseq; [by apply Hbody|done| |done].
  intros []. by rewrite length_app, Nat.add_1_r.
Qed.

Lemma run_mfor {S B} (I : nat → B → S → Prop) (body : B → nat → GoM S B) a len acc
    (E : string → S → Prop) :
  (∀ i acc, i < len → run (I i acc) (body acc (a + i)) (λ acc', I (Datatypes.S i) acc') E) →
  run (I 0 acc) (mfold body (seq a len) acc) (λ acc', I len acc') E.
Proof.
  intros Hbody.
  pose proof (run_mfold (λ pre, I (length pre)) body (seq a len) acc E) as Hrule.
  cbv beta in Hrule. rewrite length_seq in Hrule. apply Hrule. intros pre x post acc' Hs.
  apply seq_split in Hs as [-> Hlt].
  eapply run_conseq; [by apply Hbody|done| |done].
  intros a'. by rewrite length_app, Nat.add_1_r.
Qed.

(** [m; return a, nil] *)
Lemma run_seq_ret {S A B} (P Q : S → Prop) (m : GoM S A) (b : B)
    (E : string → S → Prop) :
  run P m (λ _, Q) E → run P (m;; mret b) (λ _, Q) E.
Proof. intros Hm. eapply run_bind; [exact Hm|]. intros a. by apply run_ret. Qed.

Lemma run_lift_ok {S A B} (P : S → Prop) (a : A) (f : A → GoM S B) (Q : B → S → Prop)
    (E : string → S → Prop) :
  run P (f a) Q E → run P (lift_res (Ok a) ≫= f) Q E.
Proof. done. Qed.

Lemma run_lift {S A} (P : S → Prop) (r : res A) (Q : A → S → Prop) (E : string → S → Prop) :
  r ≠ Panic → (∀ a s, r = Ok a → P s → Q a s) → (∀ e s, r = Err e → P s → E e s) →
  run P (lift_res r) Q E.
Proof. intros Hp HQ HE s Hs. unfold lift_res. destruct r; naive_solver. Qed.

(** ** Booleans *)

(** Turn the boolean tests of the code into the propositions they decide. *)
Ltac bool_props :=
  repeat match goal with
  | H : _ && _ = true |- _ => apply andb_true_iff in H; destruct H
  | H : _ || _ = false |- _ => apply orb_false_iff in H; destruct H
  | H : negb _ = true |- _ => apply negb_true_iff in H
  | H : negb _ = false |- _ => apply negb_false_iff in H
  | H : (_ <? _)%Z = true |- _ => apply Z.ltb_lt in H
  | H : (_ <? _)%Z = false |- _ => apply Z.ltb_ge in H
  | H : (_ <=? _)%Z = true |- _ => apply Z.leb_le in H
  | H : (_ <=? _)%Z = false |- _ => apply Z.leb_gt in H
  | H : (_ =? _)%Z = true |- _ => apply Z.eqb_eq in H
  | H : (_ =? _)%Z = false |- _ => apply Z.eqb_neq in H
  | H : bool_decide _ = true |- _ => apply bool_decide_eq_true in H
  | H : bool_decide _ = false |- _ => apply bool_decide_eq_false in H
  end.
