(* ===== verification/GoStd.v ===== *)
(** * The parts of Go and its standard library the program uses

    Fixed-width integers, IEEE binary64 arithmetic (the kernel's executable
    [SpecFloat] at precision 53), [time.ParseDuration] and the few [strings]
    helpers.  Nothing in this file models code of the repository. *)
From Stdlib Require Import ZArith Lia Floats.SpecFloat Ascii.
From stdpp Require Import strings list pretty.
From S2P Require Import Prelude.
Open Scope Z_scope.

(** ** Machine integers *)

(** Two's complement wrap-around of [int64] (Go's [int] on the 64-bit targets)
    and [uint64]. *)
Definition i64 (z : Z) : Z := (z + 2^63) mod 2^64 - 2^63.
Definition u64 (z : Z) : Z := z mod 2^64.

Definition MaxInt64 : Z := 2^63 - 1.
Definition MaxInt32 : Z := 2^31 - 1.
Definition MaxUint32 : Z := 2^32 - 1.

Lemma i64_id z : - 2^63 ≤ z < 2^63 → i64 z = z.
Proof. intros H. unfold i64. rewrite Z.mod_small; lia. Qed.

Lemma i64_range z : - 2^63 ≤ i64 z < 2^63.
Proof. unfold i64. pose proof (Z.mod_pos_bound (z + 2^63) (2^64)). lia. Qed.

Lemma u64_id z : 0 ≤ z < 2^64 → u64 z = z.
Proof. intros H. by apply Z.mod_small. Qed.

Lemma u64_range z : 0 ≤ u64 z < 2^64.
Proof. by apply Z.mod_pos_bound. Qed.

(** ** [float64] *)
Abbreviation float := spec_float.
Module F64.

Definition prec : Z := 53.
Definition emax : Z := 1024.

Definition add : float → float → float := SFadd prec emax.
Definition sub : float → float → float := SFsub prec emax.
Definition mul : float → float → float := SFmul prec emax.
Definition div : float → float → float := SFdiv prec emax.
Definition sqrt : float → float := SFsqrt prec emax.
Definition abs : float → float := SFabs.
Definition opp : float → float := SFopp.

(** Comparison of the represented reals: both are integers once scaled by the
    smaller exponent.  [None] when an operand is NaN. *)
Definition exponent (x : float) : Z := match x with S754_finite _ _ e => e | _ => 0 end.
Definition scaled (e0 : Z) (x : float) : Z :=
  match x with
  | S754_finite s m e => let n := Z.pos m * 2 ^ (e - e0) in if s then - n else n
  | _ => 0
  end.
Definition compare (x y : float) : option comparison :=
  match x, y with
  | S754_nan, _ | _, S754_nan => None
  | S754_infinity s, S754_infinity t =>
      Some (match s, t with true, false => Lt | false, true => Gt | _, _ => Eq end)
  | S754_infinity s, _ => Some (if s then Lt else Gt)
  | _, S754_infinity t => Some (if t then Gt else Lt)
  | _, _ => let e0 := Z.min (exponent x) (exponent y) in Some (scaled e0 x ?= scaled e0 y)
  end.
(** Go's [==], [<] and [<=]: all false on NaN. *)
Definition eqb (x y : float) : bool := match compare x y with Some Eq => true | _ => false end.
Definition ltb (x y : float) : bool := match compare x y with Some Lt => true | _ => false end.
Definition leb (x y : float) : bool :=
  match compare x y with Some (Lt | Eq) => true | _ => false end.

Definition isNaN (x : float) : bool := match x with S754_nan => true | _ => false end.
(** [math.IsInf(x, 0)] and [math.IsInf(x, 1)] *)
Definition isInf (x : float) : bool :=
  match x with S754_infinity _ => true | _ => false end.
Definition isInfPos (x : float) : bool :=
  match x with S754_infinity false => true | _ => false end.

Definition zero : float := S754_zero false.
(** [float64(z)]: round to nearest even. *)
Definition of_Z (z : Z) : float := binary_normalize prec emax z 0 false.
(** The constant [m * 2^e], exactly when it is representable. *)
Definition pow2 (m e : Z) : float := binary_normalize prec emax m e false.
Definition one : float := of_Z 1.

(** [int64(x)] for a value in range: truncation toward zero.  Out-of-range
    conversions are implementation-defined in Go; the callers modelled here
    guard them. *)
Definition trunc (x : float) : Z :=
  match x with
  | S754_finite s m e =>
      let n := if 0 <=? e then Z.pos m * 2 ^ e else Z.pos m / 2 ^ (- e) in
      if s then - n else n
  | _ => 0
  end.

(** [max] and [math.Max]: NaN wins, [+0 > -0]. *)
Definition max (x y : float) : float :=
  if isNaN x || isNaN y then S754_nan
  else if ltb x y then y
  else match x, y with S754_zero true, S754_zero _ => y | _, _ => x end.

(** [min]: NaN wins, [-0 < +0]. *)
Definition min (x y : float) : float :=
  if isNaN x || isNaN y then S754_nan
  else if ltb y x then y
  else match x, y with S754_zero _, S754_zero true => y | _, _ => x end.

(** [math.Hypot] (the portable algorithm). *)
Definition hypot (p q : float) : float :=
  let p := abs p in let q := abs q in
  if isInf p || isInf q then S754_infinity false
  else if isNaN p || isNaN q then S754_nan
  else
    let '(p, q) := if ltb p q then (q, p) else (p, q) in
    if eqb p zero then zero
    else let q := div q p in mul p (sqrt (add one (mul q q))).

(** [math.Floor] *)
Definition floor (x : float) : float :=
  match x with
  | S754_finite s m e =>
      if 0 <=? e then x
      else let n := (if s then - Z.pos m else Z.pos m) / 2 ^ (- e) in
           if (n =? 0) then S754_zero s else of_Z n
  | _ => x
  end.

(** [math.Ceil] *)
Definition ceil (x : float) : float := opp (floor (opp x)).

Definition finite (x : float) : bool := negb (isNaN x) && negb (isInf x).

Example trunc_half : trunc (div (of_Z 7) (of_Z 2)) = 3.
Proof. reflexivity. Qed.

Example floor_neg : map floor [div (of_Z (-7)) (of_Z 2); div (of_Z 7) (of_Z 2); of_Z 3]
  = [of_Z (-4); of_Z 3; of_Z 3].
Proof. vm_compute. reflexivity. Qed.

(** A positive number below the positive [m * 2^e] truncates below its floor. *)
Lemma trunc_lt x m e :
  ltb zero x = true → ltb x (S754_finite false m e) = true → 0 ≤ e →
  0 ≤ trunc x < Z.pos m * 2 ^ e.
Proof.
  intros H0 Hlt He. destruct x as [sx|sx| |sx mx ex];
    [discriminate|destruct sx; discriminate|discriminate|].
  assert (sx = false) as ->.
  { destruct sx; [|done]. unfold ltb, compare, exponent, scaled, zero in H0.
    assert (0 < 2 ^ (ex - Z.min 0 ex)) by (apply Z.pow_pos_nonneg; lia).
    destruct (Z.compare_spec 0 (- (Z.pos mx * 2 ^ (ex - Z.min 0 ex)))); [done|lia|done]. }
  unfold ltb, compare, exponent, scaled in Hlt.
  destruct (Z.compare_spec (Z.pos mx * 2 ^ (ex - Z.min ex e)) (Z.pos m * 2 ^ (e - Z.min ex e)))
    as [|Hc|]; [done| |done].
  cbn [trunc]. destruct (Z.leb_spec 0 ex) as [Hex|Hex].
  - split; [apply Z.mul_nonneg_nonneg; lia|].
    replace ex with (ex - Z.min ex e + Z.min ex e) by lia.
    replace e with (e - Z.min ex e + Z.min ex e) at 3 by lia.
    rewrite !Z.pow_add_r, !Z.mul_assoc by lia. apply Z.mul_lt_mono_pos_r; [|done].
    apply Z.pow_pos_nonneg; lia.
  - rewrite Z.min_l in Hc by lia. split; [apply Z.div_pos; [lia|apply Z.pow_pos_nonneg; lia]|].
    apply Z.div_lt_upper_bound; [apply Z.pow_pos_nonneg; lia|].
    replace (2 ^ (- ex) * (Z.pos m * 2 ^ e)) with (Z.pos m * 2 ^ (e - ex)).
    + replace (ex - ex) with 0 in Hc by lia. lia.
    + replace (e - ex) with (- ex + e) by lia. rewrite Z.pow_add_r by lia. lia.
Qed.

Example hypot_345 : hypot (of_Z 3) (opp (of_Z 4)) = of_Z 5.
Proof. vm_compute. reflexivity. Qed.

End F64.

(** ** [time.ParseDuration]

    A duration is its count of nanoseconds, an [int64]. *)
Module Duration.

Definition ns : Z := 1.
Definition Microsecond : Z := 1000.
Definition Millisecond : Z := 1000000.
Definition Second : Z := 1000000000.
Definition Minute : Z := 60 * Second.
Definition Hour : Z := 60 * Minute.

Definition digit (c : ascii) : option Z :=
  let n := Z.of_N (N_of_ascii c) in
  if (48 <=? n) && (n <=? 57) then Some (n - 48) else None.

Definition is_digit (c : ascii) : bool := bool_decide (is_Some (digit c)).

(** [leadingInt]: the value of the leading digits, or overflow. *)
Fixpoint leadingInt (x : Z) (s : list ascii) : option (Z * list ascii) :=
  match s with
  | c :: s' =>
      match digit c with
      | Some k =>
          if 2^63 / 10 <? x then None
          else let x := x * 10 + k in
               if 2^63 <? x then None else leadingInt x s'
      | None => Some (x, s)
      end
  | [] => Some (x, s)
  end.

(** [leadingFraction]: digits past the precision are skipped. *)
Fixpoint leadingFraction (x : Z) (scale : float) (overflow : bool)
    (s : list ascii) : Z * float * list ascii :=
  match s with
  | c :: s' =>
      match digit c with
      | Some k =>
          if overflow then leadingFraction x scale true s'
          else if (2^63 - 1) / 10 <? x then leadingFraction x scale true s'
          else let y := x * 10 + k in
               if 2^63 <? y then leadingFraction x scale true s'
               else leadingFraction y (F64.mul scale (F64.of_Z 10)) false s'
      | None => (x, scale, s)
      end
  | [] => (x, scale, s)
  end.

Fixpoint unitName (s : list ascii) : list ascii * list ascii :=
  match s with
  | c :: s' =>
      if bool_decide (c = "."%char) || is_digit c then ([], s)
      else let '(u, r) := unitName s' in (c :: u, r)
  | [] => ([], [])
  end.

Definition unitMap (u : list ascii) : option Z :=
  let u := String.string_of_list_ascii u in
  if String.eqb u "ns" then Some ns
  else if String.eqb u "us" || String.eqb u "µs" || String.eqb u "μs"
  then Some Microsecond
  else if String.eqb u "ms" then Some Millisecond
  else if String.eqb u "s" then Some Second
  else if String.eqb u "m" then Some Minute
  else if String.eqb u "h" then Some Hour
  else None.

(** [d.Seconds()] *)
Definition Seconds (d : Z) : float :=
  F64.add (F64.of_Z (Z.quot d Second))
    (F64.div (F64.of_Z (Z.rem d Second)) (F64.of_Z Second)).

(** One [(digits)(.digits)(unit)] group: its value and the rest. *)
Definition parseGroup (s : list ascii) : option (Z * list ascii) :=
  match s with
  | c :: _ =>
      if negb (bool_decide (c = "."%char) || is_digit c) then None
      else
        '(v, s1) ← leadingInt 0 s;
        let pre := negb (bool_decide (length s1 = length s)) in
        let '(f, scale, s2, post) :=
          match s1 with
          | d :: s1' =>
              if bool_decide (d = "."%char) then
                let '(f, scale, s2) := leadingFraction 0 F64.one false s1' in
                (f, scale, s2, negb (bool_decide (length s2 = length s1')))
              else (0, F64.one, s1, false)
          | [] => (0, F64.one, s1, false)
          end in
        if negb pre && negb post then None
        else
          let '(u, s3) := unitName s2 in
          match u with
          | [] => None
          | _ =>
            unit ← unitMap u;
            if 2^63 / unit <? v then None
            else
              let v := v * unit in
              if 0 <? f then
                let v := u64 (v + F64.trunc (F64.mul (F64.of_Z f)
                                         (F64.div (F64.of_Z unit) scale))) in
                if 2^63 <? v then None else Some (v, s3)
              else Some (v, s3)
          end
  | [] => None
  end.

(** The groups are summed in a [uint64]; each consumes at least one byte, so
    the length of the text is enough fuel. *)
Fixpoint parseGroups (fuel : nat) (d : Z) (s : list ascii) : option Z :=
  match s with
  | [] => Some d
  | _ =>
      match fuel with
      | O => None
      | S fuel =>
          '(v, s') ← parseGroup s;
          let d := u64 (d + v) in
          if 2^63 <? d then None else parseGroups fuel d s'
      end
  end.

Definition parse_list (s : list ascii) : option Z :=
  let '(neg, s) := match s with
    | c :: s' => if bool_decide (c = "-"%char) then (true, s')
                 else if bool_decide (c = "+"%char) then (false, s')
                 else (false, s)
    | [] => (false, s)
    end in
  match s with
  | [] => None
  | _ =>
    if bool_decide (s = ["0"%char]) then Some 0
    else
      d ← parseGroups (length s) 0 s;
      if (neg : bool) then Some (i64 (- d))
      else if MaxInt64 <? d then None else Some d
  end.

(** [time.ParseDuration]: [None] is the error. *)
Definition parse (s : string) : option Z := parse_list (String.list_ascii_of_string s).

(** [fmtFrac]: the fraction of [v / 10^prec] without trailing zeros. *)
Fixpoint fmtFrac (prec : nat) (v : Z) (print : bool) (acc : string) : string * Z :=
  match prec with
  | O => ((if print then "." +:+ acc else acc)%string, v)
  | S prec =>
      let digit := v mod 10 in
      let print := print || negb (digit =? 0) in
      fmtFrac prec (v / 10) print (if print then pretty (Z.to_N digit) +:+ acc else acc)
  end.

Definition fmtInt (v : Z) : string := pretty (Z.to_N v).

(** [d.String()] *)
Definition String (d : Z) : string :=
  let u := Z.abs d in
  let body :=
    if u <? Second then
      if u =? 0 then "0s"%string
      else
        let '(prec, unit) :=
          if u <? Microsecond then (0%nat, "ns"%string)
          else if u <? Millisecond then (3%nat, "µs"%string) else (6%nat, "ms"%string) in
        let '(f, v) := fmtFrac prec u false "" in
        fmtInt v +:+ f +:+ unit
    else
      let '(f, s) := fmtFrac 9 u false "" in
      let secs := fmtInt (s mod 60) +:+ f +:+ "s" in
      let m := s / 60 in
      if 0 <? m then
        let mins := fmtInt (m mod 60) +:+ "m" +:+ secs in
        let h := m / 60 in
        if 0 <? h then fmtInt h +:+ "h" +:+ mins else mins
      else secs in
  if d <? 0 then "-" +:+ body else body.

Example string_1 : map String [0; 1; 1100; 2200000; 3300000000; 4*60*Second + 5*Second;
    5*Hour + 6*Minute + 7*Second + 1000000; -1500000000; MaxInt64]
  = ["0s"; "1ns"; "1.1µs"; "2.2ms"; "3.3s"; "4m5s"; "5h6m7.001s"; "-1.5s";
     "2562047h47m16.854775807s"]%string.
Proof. vm_compute. reflexivity. Qed.
Example string_parse : map (λ d, parse (String d)) [0; 17; 1234567; 98765432109876; MaxInt64]
  = map Some [0; 17; 1234567; 98765432109876; MaxInt64].
Proof. vm_compute. reflexivity. Qed.

Example parse_1 : parse "1h15m30.918s" = Some 4530918000000.
Proof. vm_compute. reflexivity. Qed.
Example parse_2 : parse "-1.5h" = Some (-5400000000000).
Proof. vm_compute. reflexivity. Qed.
Example parse_3 : map parse ["0"; "+0"; ""; "3"; "1x"; ".s"; "5.s"; "2µs"; "100ms"]%string
  = [Some 0; Some 0; None; None; None; None; Some 5000000000; Some 2000; Some 100000000].
Proof. vm_compute. reflexivity. Qed.
Example parse_4 : map parse ["9223372036854775807ns"; "9223372036854775808ns";
    "-9223372036854775808ns"; "9223372036854775.808us"]%string
  = [Some MaxInt64; None; Some (- 2^63); None].
Proof. vm_compute. reflexivity. Qed.

End Duration.

(** ** Instants

    A [time.Time] is its count of nanoseconds since the zero time. *)
Definition Time := Z.
Definition IsZero (t : Time) : bool := t =? 0.
(** [t.Sub(u)] saturates. *)
Definition SubTime (t u : Time) : Z := Z.max (- 2^63) (Z.min MaxInt64 (t - u)).

(** ** [sort.Search] *)
Fixpoint searchLoop (fuel : nat) (f : nat → bool) (i j : nat) : nat :=
  match fuel with
  | O => i
  | S fuel =>
      if (i <? j)%nat then
        let h := ((i + j) / 2)%nat in
        if f h then searchLoop fuel f i h else searchLoop fuel f (S h) j
      else i
  end.
Definition search (n : nat) (f : nat → bool) : nat := searchLoop n f 0 n.

Lemma searchLoop_spec fuel f i j n :
  (j - i ≤ fuel)%nat → (i ≤ j ≤ n)%nat →
  (∀ a b, (a ≤ b)%nat → (b < n)%nat → f a = true → f b = true) →
  (∀ a, (a < i)%nat → f a = false) → (∀ a, (j ≤ a < n)%nat → f a = true) →
  let k := searchLoop fuel f i j in
  (k ≤ n)%nat ∧ (∀ a, (a < k)%nat → f a = false) ∧ ∀ a, (k ≤ a < n)%nat → f a = true.
Proof.
  revert i j. induction fuel as [|fuel IH]; intros i j Hf Hij Hmono Hlo Hhi; cbn [searchLoop].
  { assert (i = j) as -> by lia. split_and!; [lia|done|done]. }
  destruct (Nat.ltb_spec i j) as [Hlt|Hge].
  2: { assert (i = j) as -> by lia. split_and!; [lia|done|done]. }
  assert (i ≤ (i + j) / 2 < j)%nat as Hh.
  { split; [apply Nat.div_le_lower_bound; lia|apply Nat.div_lt_upper_bound; lia]. }
  set (h := ((i + j) / 2)%nat) in *. clearbody h. destruct (f h) eqn:Hfh.
  - apply IH; [lia|lia|done|done|]. intros a Ha. apply (Hmono h); [lia|lia|done].
  - apply IH; [lia|lia|done| |done]. intros a Ha. destruct (f a) eqn:Hfa; [|done].
    rewrite (Hmono a h) in Hfh; [done|lia|lia|done].
Qed.

(** For a monotone predicate: the first index that satisfies it, or [n]. *)
Lemma search_spec n f :
  (∀ a b, (a ≤ b)%nat → (b < n)%nat → f a = true → f b = true) →
  (search n f ≤ n)%nat ∧ (∀ a, (a < search n f)%nat → f a = false) ∧
  ∀ a, (search n f ≤ a < n)%nat → f a = true.
Proof. intros Hm. apply (searchLoop_spec n f 0 n n); [lia|lia|done|lia|lia]. Qed.
