(* ===== verification/GoStrings.v ===== *)
(** * Go's [strings] functions on UTF-8 text

    [strings.TrimSpace], [strings.ToLower], [strings.IndexFunc] and
    [strings.ContainsAny] as the configuration uses them.  A Go string is its
    bytes.  No byte of one rune's encoding starts another rune, so a rune is
    decoded at a position exactly when its encoding stands there.  Nothing in
    this file models code of the repository. *)
From Stdlib Require Import ZArith Lia Ascii.
From stdpp Require Import strings list.
From S2P Require Import Prelude.

Definition byte (n : nat) : ascii := ascii_of_nat n.

(** The UTF-8 encodings of the runes of [unicode.IsSpace]. *)
Definition spaceRunes : list (list ascii) :=
  map (λ n, [byte n]) [9; 10; 11; 12; 13; 32] ++
  map (map byte) ([[0xC2; 0x85]; [0xC2; 0xA0]; [0xE1; 0x9A; 0x80]] ++
    map (λ n, [0xE2; 0x80; n]) (seq 0x80 11) ++
    [[0xE2; 0x80; 0xA8]; [0xE2; 0x80; 0xA9]; [0xE2; 0x80; 0xAF]; [0xE2; 0x81; 0x9F];
     [0xE3; 0x80; 0x80]]).

(** The encodings of the runes of [unicode.IsControl]. *)
Definition controlRunes : list (list ascii) :=
  map (λ n, [byte n]) (seq 0 32 ++ [127]) ++ map (λ n, [byte 0xC2; byte n]) (seq 0x80 32).

Fixpoint stripPrefix (p s : list ascii) : option (list ascii) :=
  match p, s with
  | [], _ => Some s
  | a :: p, b :: s => if bool_decide (a = b) then stripPrefix p s else None
  | _ :: _, [] => None
  end.

Definition stripAny (runes : list (list ascii)) (s : list ascii) : option (list ascii) :=
  foldr (λ r k, match stripPrefix r s with Some s' => Some s' | None => k end) None runes.

(** Each trimmed rune has a byte, so the length of the text is enough fuel. *)
Fixpoint trimLeft (runes : list (list ascii)) (fuel : nat) (s : list ascii) : list ascii :=
  match fuel with
  | O => s
  | S fuel =>
      match stripAny runes s with
      | Some s' => trimLeft runes fuel s'
      | None => s
      end
  end.

(** [strings.TrimSpace] *)
Definition TrimSpace (s : string) : string :=
  let b := String.list_ascii_of_string s in
  let b := trimLeft spaceRunes (length b) b in
  String.string_of_list_ascii
    (reverse (trimLeft (map reverse spaceRunes) (length b) (reverse b))).

(** [strings.IndexFunc(s, f) >= 0] for the runes of [f]. *)
Fixpoint containsRune (runes : list (list ascii)) (s : list ascii) : bool :=
  match s with
  | [] => false
  | _ :: s' =>
      match stripAny runes s with Some _ => true | None => containsRune runes s' end
  end.
Definition hasSpaceOrControl (s : string) : bool :=
  containsRune (spaceRunes ++ controlRunes) (String.list_ascii_of_string s).

(** [strings.ContainsAny(s, chars)] for ASCII [chars]. *)
Definition ContainsAny (s chars : string) : bool :=
  existsb (λ c, bool_decide (c ∈ String.list_ascii_of_string chars))
    (String.list_ascii_of_string s).

(** [strings.HasPrefix(s, prefix)] *)
Definition HasPrefix (s prefix : string) : bool := String.prefix prefix s.

(** [strings.ToLower], exact wherever its result is ASCII: besides the ASCII
    capitals, the Kelvin sign and the dotted capital I are the runes with an
    ASCII lower case.  Other runes are left as they are; their lower case is
    not ASCII either, so a comparison with an ASCII literal is unaffected. *)
Fixpoint toLower (fuel : nat) (s : list ascii) : list ascii :=
  match fuel, s with
  | S fuel, c :: s' =>
      match stripPrefix [byte 0xE2; byte 0x84; byte 0xAA] s,
            stripPrefix [byte 0xC4; byte 0xB0] s with
      | Some s'', _ => byte 107 :: toLower fuel s''
      | _, Some s'' => byte 105 :: toLower fuel s''
      | _, _ =>
          let n := nat_of_ascii c in
          (if (65 <=? n) && (n <=? 90) then byte (n + 32) else c) :: toLower fuel s'
      end
  | _, _ => []
  end.
Definition ToLower (s : string) : string :=
  let b := String.list_ascii_of_string s in
  String.string_of_list_ascii (toLower (length b) b).

(** An ideographic space, [x], a blank; a newline and a tab. *)
Example TrimSpace_1 :
  map TrimSpace [""; "  a b "; "a"; String.string_of_list_ascii (map byte [227;128;128;120;32]%nat);
                 String.string_of_list_ascii (map byte [10;9]%nat)]%string
  = [""; "a b"; "a"; "x"; ""]%string.
Proof. vm_compute. reflexivity. Qed.
Example ToLower_1 : map ToLower ["FuLL"; "worKer"; "DHT-ONLY9"; ""]%string
  = ["full"; "worker"; "dht-only9"; ""]%string.
Proof. vm_compute. reflexivity. Qed.
(** The last two: a C1 control character and an accented letter. *)
Example control_1 :
  map hasSpaceOrControl ["QmYyQ"; "a b"; String.string_of_list_ascii (map byte [194;133]%nat);
                         String.string_of_list_ascii (map byte [195;169]%nat); ""]%string
  = [false; true; true; false; false].
Proof. vm_compute. reflexivity. Qed.
Example ContainsAny_1 : map (λ s, ContainsAny s "/\?#") ["ab"; "a\b"; "a#"]%string
  = [false; true; true].
Proof. vm_compute. reflexivity. Qed.

(** ** Slices and maps that may be nil

    A configuration tells a nil slice from an empty one. *)
Definition slice (A : Type) := option (list A).
Definition elems {A} (s : slice A) : list A := default [] s.

(** [append([]A(nil), s...)] *)
Definition cloneNil {A} (s : slice A) : slice A :=
  match elems s with [] => None | l => Some l end.

Lemma elems_cloneNil {A} (s : slice A) : elems (cloneNil s) = elems s.
Proof. by destruct s as [[|]|]. Qed.
Lemma cloneNil_idemp {A} (s : slice A) : cloneNil (cloneNil s) = cloneNil s.
Proof. by destruct s as [[|]|]. Qed.

(** [slices.Contains(s, x)] *)
Definition Contains (s : list string) (x : string) : bool := bool_decide (x ∈ s).
