(* ===== verification/Topology.v ===== *)
(** * Seeded graph generation ([src/internal/topology/generate.go]) and its
      configuration ([src/internal/model/topology.go])

    The builder's adjacency maps are a list of finite sets; the random source
    and the cancellation context are parameters.  [Fenwick] is the degree tree,
    [Graphs] the builder's invariant, and the last sections the edge counts of
    the models. *)
From Stdlib Require Import ZArith Lia Floats.SpecFloat.
From stdpp Require Import base tactics gmap sets list strings sorting.
From S2P Require Import Prelude.
From S2P Require Import GoStd.
Open Scope Z_scope.

Definition MaxTopologyNodes : Z := 10000.
Definition MaxTopologyEdges : Z := 1000000.
Definition MaxNodes : Z := MaxTopologyNodes.
Definition MaxEdges : Z := MaxTopologyEdges.

Record TopologyConfig := {
  Model : string;
  Seed : option Z;
  P : option float;
  K : option Z;
  M : option Z;
  Radius : option float;
  Alpha : option float;
  Beta : option float;
  Rows : option Z;
  Columns : option Z;
}.

Definition FiniteScore (value : float) : bool := F64.finite value.

(** The [allowed] map filled by the switch on the model; [None] is its default
    case. *)
Definition allowedFields (model : string) : option (list string) :=
  if String.eqb model "er" then Some ["p"]
  else if String.eqb model "ws" then Some ["p"; "k"]
  else if String.eqb model "ba" then Some ["m"]
  else if String.eqb model "rgg" then Some ["radius"]
  else if String.eqb model "waxman" then Some ["alpha"; "beta"]
  else if String.eqb model "grid" || String.eqb model "triangular"
  then Some ["rows"; "columns"]
  else None%string.

Definition presentFields (c : TopologyConfig) : list (string * bool) :=
  [("p", bool_decide (is_Some (P c))); ("k", bool_decide (is_Some (K c)));
   ("m", bool_decide (is_Some (M c))); ("radius", bool_decide (is_Some (Radius c)));
   ("alpha", bool_decide (is_Some (Alpha c))); ("beta", bool_decide (is_Some (Beta c)));
   ("rows", bool_decide (is_Some (Rows c))); ("columns", bool_decide (is_Some (Columns c)))]%string.

Fixpoint checkFields (allowed : list string) (fields : list (string * bool)) : res unit :=
  match fields with
  | [] => Ok tt
  | (name, present) :: rest =>
      fail_if (present && negb (bool_decide (name ∈ allowed)))
        "topology model does not support field";;
      fail_if (negb present && bool_decide (name ∈ allowed))
        "topology model requires field";;
      checkFields allowed rest
  end.

(** [value != nil && bad(value)] *)
Definition opt_test {A} (bad : A → bool) (value : option A) : bool :=
  match value with Some v => bad v | None => false end.

Definition checkGrid (c : TopologyConfig) (n : Z) : res unit :=
  match Rows c with
  | None => Ok tt
  | Some rows =>
      columns ← deref (Columns c);
      fail_if ((rows <? 1) || (columns <? 1) || (MaxTopologyNodes <? rows)
               || (MaxTopologyNodes <? columns) || (MaxTopologyNodes / columns <? rows))
        "topology rows and columns must be positive with bounded product";;
      fail_if ((0 <? n) && negb (i64 (rows * columns) =? n))
        "topology rows * columns must equal selected node count"
  end.

(** The known edge count of a model over [n] nodes, zero when unknown. *)
Definition plannedEdges (c : TopologyConfig) (n : Z) : res Z :=
  if 0 <? n then
    if String.eqb (Model c) "ws" then
      k ← deref (K c); Ok (Z.quot (i64 (n * k)) 2)
    else if String.eqb (Model c) "ba" then
      m ← deref (M c); Ok (i64 (m * (i64 (n - m))))
    else if String.eqb (Model c) "er" then
      p ← deref (P c);
      Ok (if F64.eqb p F64.one then Z.quot (i64 (n * (n - 1))) 2 else 0)
    else if String.eqb (Model c) "rgg" then
      r ← deref (Radius c);
      Ok (if F64.leb (F64.sqrt (F64.of_Z 2)) r then Z.quot (i64 (n * (n - 1))) 2 else 0)
    else Ok 0
  else Ok 0.

(** Only the constant [math.Sqrt2] is a float here; it is the correctly rounded
    square root of two, which is what [F64.sqrt] computes. *)
Definition Validate (c : TopologyConfig) (n : Z) : res unit :=
  fail_if ((n <? 0) || (MaxTopologyNodes <? n)) "topology node count out of range";;
  match allowedFields (Model c) with
  | None => Err "topology model must be er, ws, ba, rgg, waxman, grid, or triangular"
  | Some allowed =>
      checkFields allowed (presentFields c);;
      fail_if (opt_test (λ p, negb (FiniteScore p) || F64.ltb p F64.zero || F64.ltb F64.one p) (P c))
        "topology p must be finite and in [0, 1]";;
      fail_if (opt_test (λ k, (k <? 2) || negb (Z.rem k 2 =? 0) || (MaxTopologyNodes <=? k)
                              || (0 <? n) && (n <=? k)) (K c))
        "topology ws k must be even, at least 2, and smaller than the node count";;
      fail_if (opt_test (λ m, (m <? 1) || (MaxTopologyNodes <=? m) || (0 <? n) && (n <=? m)) (M c))
        "topology ba m must be at least 1 and smaller than the node count";;
      fail_if (opt_test (λ r, negb (FiniteScore r) || F64.ltb r F64.zero) (Radius c))
        "topology radius must be finite and non-negative";;
      fail_if (opt_test (λ v, negb (FiniteScore v) || F64.leb v F64.zero || F64.ltb F64.one v) (Alpha c))
        "topology alpha must be finite and in (0, 1]";;
      fail_if (opt_test (λ v, negb (FiniteScore v) || F64.leb v F64.zero || F64.ltb F64.one v) (Beta c))
        "topology beta must be finite and in (0, 1]";;
      checkGrid c n;;
      edges ← plannedEdges c n;
      fail_if (MaxTopologyEdges <? edges) "topology exceeds the limit of undirected edges"
  end.

(** ** The degree tree *)
Module Fenwick.

Record degreeTree := { tree : list Z; total : Z }.

Definition lowbit (i : Z) : Z := Z.land i (- i).

(** [for i := index + 1; i < len(t.tree); i += i & -i { t.tree[i] += delta }].
    [i] grows at each turn, so [len(t.tree)] turns are enough. *)
Fixpoint addLoop (fuel : nat) (t : list Z) (i delta : Z) : list Z :=
  match fuel with
  | O => t
  | S fuel =>
      if i <? Z.of_nat (length t) then
        let t := alter (λ x, x + delta) (Z.to_nat i) t in
        addLoop fuel t (i + lowbit i) delta
      else t
  end.

Definition add (t : degreeTree) (index delta : Z) : degreeTree :=
  {| tree := addLoop (length (tree t)) (tree t) (index + 1) delta;
     total := total t + delta |}.

(** [for step < len(t.tree) { step <<= 1 }] *)
Fixpoint growStep (fuel : nat) (step len : Z) : Z :=
  match fuel with
  | O => step
  | S fuel => if step <? len then growStep fuel (Z.shiftl step 1) len else step
  end.

(** [for step >>= 1; step > 0; step >>= 1 { ... }] *)
Fixpoint descend (fuel : nat) (t : list Z) (index step ticket : Z) : Z :=
  match fuel with
  | O => index
  | S fuel =>
      if 0 <? step then
        let next := index + step in
        match t !! Z.to_nat next with
        | Some x =>
            if x <=? ticket then descend fuel t next (Z.shiftr step 1) (ticket - x)
            else descend fuel t index (Z.shiftr step 1) ticket
        | None => descend fuel t index (Z.shiftr step 1) ticket
        end
      else index
  end.

Definition choose (t : degreeTree) (ticket : Z) : Z :=
  let step := growStep (length (tree t)) 1 (Z.of_nat (length (tree t))) in
  descend (S (length (tree t))) (tree t) 0 (Z.shiftr step 1) ticket.

Definition make (n : nat) : degreeTree := {| tree := replicate n 0; total := 0 |}.

Example choose_ex :
  let t := add (add (add (make 6) 0 3) 2 2) 4 1 in
  map (choose t) [0; 1; 2; 3; 4; 5] = [0; 0; 0; 2; 2; 4].
Proof. vm_compute. reflexivity. Qed.

End Fenwick.

(** ** The builder *)

(** [math/rand.Rand], by the operations the generator draws from it. *)
Class Rand (R : Type) := {
  NewSource : Z → R;
  Float64 : R → float * R;
  Intn : Z → R → Z * R;
}.

(** Documented behaviour of [rand.Intn]: a value in [[0, n)] for positive [n]. *)
Class RandOk (R : Type) `{Rand R} : Prop :=
  intn_range : ∀ n (r : R), 0 < n → 0 ≤ (Intn n r).1 < n.

Record Position := { X : float; Y : float }.

Record Graph := {
  Neighbors : list (list nat);
  Positions : list Position;
}.

Definition EdgeCount (g : Graph) : Z :=
  Z.quot (foldl (λ count l, count + Z.of_nat (length l)) 0 (Neighbors g)) 2.

Record builder := {
  neighbors : list (gset nat);
  edges : Z;
  steps : Z;
  polls : nat; (* how often ctx.Err() has been consulted *)
}.

(** What [Generate] mutates: the builder, the random source and the captured
    [longest] of the Waxman closure. *)
Record world (R : Type) := { bld : builder; rng : R; longest : float }.
Arguments bld {R} _.
Arguments rng {R} _.
Arguments longest {R} _.
Arguments Build_world {R} _ _ _.

Section Generate.
Context {R : Type} `{Rand R}.
(** The context's error at its [i]-th consultation. *)
Context (ctx : nat → option string).
(** [math.Exp], whose assembly implementation is not modelled. *)
Context (math_Exp : float → float).

Abbreviation G := (GoM (world R)).

Definition setBuilder (f : builder → builder) : G unit :=
  modify (λ w, {| bld := f (bld w); rng := rng w; longest := longest w |}).

Definition ctxErr : G unit :=
  w ← get;
  setBuilder (λ b, {| neighbors := neighbors b; edges := edges b; steps := steps b;
                      polls := S (polls b) |});;
  match ctx (polls (bld w)) with Some e => throw e | None => mret tt end.

Definition step : G unit :=
  setBuilder (λ b, {| neighbors := neighbors b; edges := edges b;
                      steps := u64 (steps b + 1); polls := polls b |});;
  w ← get;
  if Z.land (steps (bld w)) 1023 =? 0 then ctxErr else mret tt.

Definition drawFloat64 : G float := λ w,
  let '(x, r) := Float64 (rng w) in
  (Ok x, {| bld := bld w; rng := r; longest := longest w |}).

(** [rng.Intn(n)] panics on a non-positive bound. *)
Definition drawIntn (n : Z) : G Z := λ w,
  if n <=? 0 then (Panic, w)
  else let '(x, r) := Intn n (rng w) in
       (Ok x, {| bld := bld w; rng := r; longest := longest w |}).

(** [b.neighbors[u]] *)
Definition neighborsOf (u : nat) : G (gset nat) :=
  w ← get; lift_res (deref (neighbors (bld w) !! u)).

Definition setNeighbors (ns : list (gset nat)) (e : Z) : G unit :=
  setBuilder (λ b, {| neighbors := ns; edges := e; steps := steps b; polls := polls b |}).

Definition add (u v : nat) : G unit :=
  if bool_decide (u = v) then throw "topology cannot contain a self edge"
  else
    nu ← neighborsOf u;
    if bool_decide (v ∈ nu) then mret tt
    else
      w ← get;
      if MaxEdges <=? edges (bld w)
      then throw "topology exceeds the limit of undirected edges"
      else
        nv ← neighborsOf v;
        setNeighbors (<[v := {[u]} ∪ nv]> (<[u := {[v]} ∪ nu]> (neighbors (bld w))))
          (edges (bld w) + 1).

Definition pairs (include : nat → nat → G bool) : G unit :=
  w ← get;
  let n := length (neighbors (bld w)) in
  miter (λ u,
    miter (λ v,
      step;;
      yes ← include u v;
      if yes : bool then add u v else mret tt)
      (seq (S u) (n - S u)))
    (seq 0 n).

(** *** Watts-Strogatz *)

(** Up to sixteen draws for an unlinked target. *)
Fixpoint attempts (fuel : nat) (n u : nat) : G (option nat) :=
  match fuel with
  | O => mret None
  | S fuel =>
      c ← drawIntn (Z.of_nat n);
      let candidate := Z.to_nat c in
      nu ← neighborsOf u;
      if negb (bool_decide (candidate = u)) && negb (bool_decide (candidate ∈ nu))
      then mret (Some candidate)
      else attempts fuel n u
  end.

(** The [rank]-th unlinked target in index order. *)
Fixpoint scanRank (u : nat) (rank : Z) (candidates : list nat) : G (option nat) :=
  match candidates with
  | [] => mret None
  | candidate :: rest =>
      step;;
      nu ← neighborsOf u;
      if negb (bool_decide (candidate = u)) && negb (bool_decide (candidate ∈ nu))
      then if rank =? 0 then mret (Some candidate) else scanRank u (rank - 1) rest
      else scanRank u rank rest
  end.

Definition removeEdge (u v : nat) : G unit :=
  nu ← neighborsOf u;
  w ← get;
  setNeighbors (<[u := nu ∖ {[v]}]> (neighbors (bld w))) (edges (bld w));;
  nv ← neighborsOf v;
  w ← get;
  setNeighbors (<[v := nv ∖ {[u]}]> (neighbors (bld w))) (edges (bld w) - 1).

Definition rewire (n : nat) (probability : float) (offset u : nat) : G unit :=
  step;;
  x ← drawFloat64;
  if F64.leb probability x then mret tt
  else
    nu ← neighborsOf u;
    if bool_decide (size nu = n - 1)%nat then mret tt
    else
      w ← attempts 16 n u;
      w ← match w with
          | Some c => mret (Some c)
          | None =>
              nu ← neighborsOf u;
              rank ← drawIntn (Z.of_nat n - 1 - Z.of_nat (size nu));
              scanRank u rank (seq 0 n)
          end;
      removeEdge u ((u + offset) mod n)%nat;;
      match w with
      | Some w => add u w
      | None => panic (* b.neighbors[-1] *)
      end.

Definition ring (k2 n : nat) : G unit :=
  miter (λ offset,
    miter (λ u, step;; add u ((u + offset) mod n)%nat) (seq 0 n)) (seq 1 k2).

Definition wattsStrogatz (k : Z) (probability : float) : G unit :=
  w ← get;
  let n := length (neighbors (bld w)) in
  let k2 := Z.to_nat (Z.quot k 2) in
  ring k2 n;;
  miter (λ offset, miter (λ u, rewire n probability offset u) (seq 0 n)) (seq 1 k2).

(** *** Barabasi-Albert *)

Definition degree (v : nat) : G Z := nv ← neighborsOf v; mret (Z.of_nat (size nv)).

(** [m] distinct targets, each drawn by degree and then zeroed in the tree. *)
Definition chooseTargets (m : nat) (weights : Fenwick.degreeTree)
    : G (Fenwick.degreeTree * list nat) :=
  mfold (λ '(weights, targets) _,
    step;;
    ticket ← drawIntn (Fenwick.total weights);
    let target := Z.to_nat (Fenwick.choose weights ticket) in
    d ← degree target;
    mret (Fenwick.add weights (Z.of_nat target) (- d), targets ++ [target]))
    (seq 0 m) (weights, []).

Definition attach (m v : nat) (weights : Fenwick.degreeTree) : G Fenwick.degreeTree :=
  '(weights, targets) ← chooseTargets m weights;
  weights ← mfold (λ weights target,
      add v target;;
      d ← degree target;
      mret (Fenwick.add weights (Z.of_nat target) d)) targets weights;
  mret (Fenwick.add weights (Z.of_nat v) (Z.of_nat m)).

Definition barabasiAlbert (m : nat) : G unit :=
  w ← get;
  let n := length (neighbors (bld w)) in
  miter (λ v, step;; add 0 v) (seq 1 m);;
  weights ← mfold (λ weights v,
      d ← degree v; mret (Fenwick.add weights (Z.of_nat v) d))
    (seq 0 (S m)) (Fenwick.make (S n));
  mfold (λ weights v, attach m v weights) (seq (S m) (n - S m)) weights;;
  mret tt.

(** *** Lattices *)

Definition latticePosition (row column : nat) (triangular : bool) : Position :=
  let x := F64.of_Z (Z.of_nat column) in
  let y := F64.of_Z (Z.of_nat row) in
  if triangular then
    {| X := F64.add x (F64.div (F64.of_Z (Z.of_nat (row mod 2))) (F64.of_Z 2));
       Y := F64.mul y (F64.div (F64.sqrt (F64.of_Z 3)) (F64.of_Z 2)) |}
  else {| X := x; Y := y |}.

Definition latticeCell (rows columns : nat) (triangular : bool) (row column : nat)
    : G unit :=
  let u := (row * columns + column)%nat in
  (if bool_decide (column + 1 < columns)%nat then add u (u + 1)%nat else mret tt);;
  if bool_decide (row + 1 < rows)%nat then
    add u (u + columns)%nat;;
    if triangular then
      let next := if bool_decide (row mod 2 = 1)%nat then Z.of_nat column + 1
                  else Z.of_nat column - 1 in
      if (0 <=? next) && (next <? Z.of_nat columns)
      then add u ((row + 1) * columns + Z.to_nat next)%nat
      else mret tt
    else mret tt
  else mret tt.

Definition lattice (rows columns : nat) (triangular : bool) : G (list Position) :=
  w ← get;
  let positions := replicate (length (neighbors (bld w))) {| X := F64.zero; Y := F64.zero |} in
  mfold (λ positions row,
    mfold (λ positions column,
      step;;
      let u := (row * columns + column)%nat in
      _ ← lift_res (deref (positions !! u));
      latticeCell rows columns triangular row column;;
      mret (<[u := latticePosition row column triangular]> positions))
      (seq 0 columns) positions)
    (seq 0 rows) positions.

(** *** Generate *)

Definition distance (a b : Position) : float :=
  F64.hypot (F64.sub (X a) (X b)) (F64.sub (Y a) (Y b)).

Definition drawPositions (n : nat) : G (list Position) :=
  mfold (λ positions _,
    x ← drawFloat64; y ← drawFloat64; mret (positions ++ [{| X := x; Y := y |}]))
    (seq 0 n) [].

Definition distanceOf (positions : list Position) (u v : nat) : G float :=
  pu ← lift_res (deref (positions !! u));
  pv ← lift_res (deref (positions !! v));
  mret (distance pu pv).

Definition waxman (positions : list Position) (alpha beta : float) : G unit :=
  pairs (λ u v,
    d ← distanceOf positions u v;
    modify (λ w, {| bld := bld w; rng := rng w; longest := F64.max (longest w) d |});;
    mret false);;
  pairs (λ u v,
    w ← get;
    d ← distanceOf positions u v;
    let chance :=
      if F64.ltb F64.zero (longest w)
      then F64.mul beta (math_Exp (F64.div (F64.opp d) (F64.mul alpha (longest w))))
      else beta in
    x ← drawFloat64;
    mret (F64.ltb x chance)).

Definition build (config : TopologyConfig) (n : nat) : G (list Position) :=
  let model := Model config in
  if String.eqb model "er" then
    p ← lift_res (deref (P config));
    pairs (λ _ _, x ← drawFloat64; mret (F64.ltb x p));; mret []
  else if String.eqb model "ws" then
    k ← lift_res (deref (K config));
    p ← lift_res (deref (P config));
    wattsStrogatz k p;; mret []
  else if String.eqb model "ba" then
    m ← lift_res (deref (M config));
    barabasiAlbert (Z.to_nat m);; mret []
  else if String.eqb model "rgg" then
    positions ← drawPositions n;
    r ← lift_res (deref (Radius config));
    pairs (λ u v, d ← distanceOf positions u v; mret (F64.leb d r));; mret positions
  else if String.eqb model "waxman" then
    positions ← drawPositions n;
    a ← lift_res (deref (Alpha config));
    b ← lift_res (deref (Beta config));
    waxman positions a b;; mret positions
  else if String.eqb model "grid" || String.eqb model "triangular" then
    rows ← lift_res (deref (Rows config));
    columns ← lift_res (deref (Columns config));
    lattice (Z.to_nat rows) (Z.to_nat columns) (String.eqb model "triangular")
  else mret [].

(** [sort.Ints] over a set: the ascending list of its elements. *)
Definition sortedElements (s : gset nat) : list nat := merge_sort (≤)%nat (elements s).

Definition collect : G (list (list nat)) :=
  w ← get;
  mfold (λ ls s, ctxErr;; mret (ls ++ [sortedElements s])) (neighbors (bld w)) [].

Definition GenerateM (config : TopologyConfig) (n : nat) : G Graph :=
  positions ← build config n;
  ls ← collect;
  mret {| Neighbors := ls; Positions := positions |}.

(** [n] is non-negative here: a negative count fails like zero. *)
Definition Generate (config : TopologyConfig) (n : nat) (seed : Z) : res Graph :=
  match ctx 0%nat with
  | Some e => Err e
  | None =>
    if bool_decide (n = 0)%nat then Err "topology requires at least one node"
    else
      Validate config (Z.of_nat n);;
      let seed := default seed (Seed config) in
      (GenerateM config n
         {| bld := {| neighbors := replicate n ∅; edges := 0; steps := 0; polls := 1 |};
            rng := NewSource seed; longest := F64.zero |}).1
  end.

End Generate.
