(* ===== verification/TopologyFenwick.v ===== *)
(** * The degree tree samples exactly: facts on [Topology.Fenwick]

    [fen ws t] relates a tree to the list of weights it stands for; [add]
    updates one weight and [choose] returns the unique index whose interval of
    cumulated weights contains the ticket. *)
From Stdlib Require Import ZArith Lia.
From stdpp Require Import base tactics list.
From S2P Require Import Prelude.
From S2P Require Import GoStd.
From S2P Require Import Topology.
Import Fenwick.
Open Scope Z_scope.

(** ** The lowest set bit *)

Lemma odd_decomp i : 0 < i → ∃ k a, 0 ≤ k ∧ 0 ≤ a ∧ i = 2^k * (2 * a + 1).
Proof.
  intros Hi. assert (0 ≤ i) as Hge by lia. revert Hi.
  apply (Z_lt_induction (λ i, 0 < i → ∃ k a, 0 ≤ k ∧ 0 ≤ a ∧ i = 2^k * (2 * a + 1)));
    [|done]. clear. intros i IH Hi.
  destruct (Z.Even_or_Odd i) as [[j ->]|[j ->]].
  - destruct (IH j) as (k & a & Hk & Ha & Hj); [lia..|].
    exists (k + 1), a. rewrite Z.pow_add_r by lia. lia.
  - exists 0, j. lia.
Qed.

Lemma testbit_pow_odd k a n : 0 ≤ k → 0 ≤ n →
  Z.testbit (2^k * (2 * a + 1)) n =
    if decide (n < k) then false
    else if decide (n = k) then true else Z.testbit a (n - k - 1).
Proof.
  intros Hk Hn. rewrite Z.mul_comm, <- Z.shiftl_mul_pow2 by done.
  rewrite Z.shiftl_spec by done. repeat case_decide.
  - apply Z.testbit_neg_r. lia.
  - subst. rewrite Z.sub_diag. apply Z.testbit_odd_0.
  - replace (n - k) with (Z.succ (n - k - 1)) at 1 by lia.
    by rewrite Z.testbit_odd_succ by lia.
Qed.

Lemma testbit_pow_odd_pred k a n : 0 ≤ k → 0 ≤ n →
  Z.testbit (2^k * (2 * a + 1) - 1) n =
    if decide (n < k) then true
    else if decide (n = k) then false else Z.testbit a (n - k - 1).
Proof.
  intros Hk Hn.
  assert (2^k * (2 * a + 1) - 1 = 2^k * (2 * a) + (2^k - 1)) as -> by lia.
  assert (0 < 2^k) by (apply Z.pow_pos_nonneg; lia).
  case_decide.
  - rewrite <- (Z.mod_pow2_bits_low _ k) by lia.
    rewrite (Z.mul_comm (2^k)), Z.add_comm, Z.mod_add by lia.
    rewrite Z.mod_small by lia.
    replace (2^k - 1) with (Z.ones k) by (rewrite Z.ones_equiv; lia).
    apply Z.ones_spec_low. lia.
  - replace n with ((n - k) + k) at 1 by lia.
    rewrite <- Z.div_pow2_bits by lia.
    rewrite (Z.mul_comm (2^k)), Z.div_add_l, (Z.div_small (2^k - 1)), Z.add_0_r by lia.
    case_decide.
    + subst. rewrite Z.sub_diag. apply Z.testbit_even_0.
    + replace (n - k) with (Z.succ (n - k - 1)) at 1 by lia.
      by rewrite Z.testbit_even_succ by lia.
Qed.

Lemma lowbit_pow_odd k a : 0 ≤ k → lowbit (2^k * (2 * a + 1)) = 2^k.
Proof.
  intros Hk. unfold lowbit.
  replace (- (2^k * (2 * a + 1))) with (Z.lnot (2^k * (2 * a + 1) - 1))
    by (unfold Z.lnot; lia).
  rewrite <- Z.ldiff_land. apply Z.bits_inj'. intros n Hn.
  rewrite Z.ldiff_spec, testbit_pow_odd, testbit_pow_odd_pred by done.
  rewrite Z.pow2_bits_eqb by done.
  repeat case_decide; subst; rewrite ?Z.eqb_refl; try done.
  - by rewrite (proj2 (Z.eqb_neq _ _)) by lia.
  - rewrite andb_negb_r. by rewrite (proj2 (Z.eqb_neq _ _)) by lia.
Qed.

(** [covers i p]: the cell [i] sums an interval containing position [p]. *)
Definition covers (i p : Z) : Prop := i - lowbit i < p ≤ i.

#[export] Instance covers_dec i p : Decision (covers i p).
Proof. unfold covers. apply _. Defined.

Lemma pow2_le_split j k : 0 ≤ j → j ≤ k → ∃ d, 0 < d ∧ 2^k = 2^j * d.
Proof.
  intros Hj Hjk. exists (2^(k - j)). split; [apply Z.pow_pos_nonneg; lia|].
  rewrite <- Z.pow_add_r by lia. f_equal. lia.
Qed.

(** The next cell visited covers exactly the remaining cells. *)
Lemma covers_next i p : 0 < i → 0 < p →
  covers i p ↔ i = p ∨ covers i (p + lowbit p).
Proof.
  intros Hi Hp.
  destruct (odd_decomp i Hi) as (j & b & Hj & Hb & ->).
  destruct (odd_decomp p Hp) as (k & a & Hk & Ha & ->).
  unfold covers. rewrite !lowbit_pow_odd by done.
  assert (0 < 2^j) by (apply Z.pow_pos_nonneg; lia).
  assert (0 < 2^k) by (apply Z.pow_pos_nonneg; lia).
  destruct (Z.le_gt_cases j k) as [Hjk|Hjk].
  - destruct (pow2_le_split j k Hj Hjk) as (d & Hd & Hk2). rewrite Hk2 in *.
    split; [|intros [Heq|]].
    + intros [H1 H2]. left.
      assert (d * (2 * a + 1) = 2 * b + 1) by nia. nia.
    + rewrite <- Heq. lia.
    + exfalso.
      assert (2 * b < d * (2 * (a + 1)) ≤ 2 * b + 1) by nia. nia.
  - destruct (pow2_le_split (k + 1) j) as (d & Hd & Hj2); [lia..|].
    rewrite Z.pow_add_r in Hj2 by lia. rewrite Hj2 in *.
    split; [|intros [Heq|]].
    + intros [H1 H2]. right.
      assert (2 * d * (2 * b) < 2 * a + 1 ≤ 2 * d * (2 * b + 1)) by nia. nia.
    + exfalso. assert (2 * d * (2 * b + 1) = 2 * a + 1) by nia. nia.
    + assert (2 * d * (2 * b) < 2 * (a + 1) ≤ 2 * d * (2 * b + 1)) by nia. nia.
Qed.

Lemma lowbit_pos i : 0 < i → 0 < lowbit i ≤ i.
Proof.
  intros Hi. destruct (odd_decomp i Hi) as (k & a & Hk & Ha & ->).
  rewrite lowbit_pow_odd by done.
  assert (0 < 2^k) by (apply Z.pow_pos_nonneg; lia). nia.
Qed.

Lemma length_addLoop fuel t i delta : length (addLoop fuel t i delta) = length t.
Proof.
  revert t i. induction fuel as [|fuel IH]; intros t i; [done|]. simpl.
  destruct (_ <? _); [|done]. by rewrite IH, length_alter.
Qed.

(** Every cell covering the position gains [delta], no other cell changes. *)
Lemma lookup_addLoop fuel t p delta i : 0 < p → 0 < i →
  Z.of_nat (length t) - p ≤ Z.of_nat fuel →
  addLoop fuel t p delta !! Z.to_nat i =
    (λ x, if decide (covers i p) then x + delta else x) <$> t !! Z.to_nat i.
Proof.
  revert t p. induction fuel as [|fuel IH]; intros t p Hp Hi Hf.
  - simpl. destruct (t !! Z.to_nat i) eqn:E; [|done]. simpl.
    apply lookup_lt_Some in E. rewrite decide_False; [done|]. unfold covers. lia.
  - simpl. destruct (Z.ltb_spec p (Z.of_nat (length t))) as [Hlt|Hge].
    + pose proof (lowbit_pos p Hp).
      rewrite IH; [|lia..|rewrite length_alter; lia].
      destruct (decide (i = p)) as [->|Hne].
      * rewrite list_lookup_alter_eq. destruct (t !! Z.to_nat p); [|done]. simpl.
        rewrite decide_False by (unfold covers; lia).
        rewrite decide_True by (unfold covers; lia). done.
      * rewrite list_lookup_alter_ne by lia.
        destruct (t !! Z.to_nat i); [|done]. simpl. f_equal.
        pose proof (covers_next i p Hi Hp).
        repeat case_decide; naive_solver lia.
    + destruct (t !! Z.to_nat i) eqn:E; [|done]. simpl.
      apply lookup_lt_Some in E. rewrite decide_False; [done|]. unfold covers. lia.
Qed.

(** ** The abstraction: a tree stands for a list of weights *)

Definition sumZ (l : list Z) : Z := foldr Z.add 0 l.

(** The sum of the first [i] weights. *)
Definition prefix (ws : list Z) (i : Z) : Z := sumZ (take (Z.to_nat i) ws).

Definition fen (ws : list Z) (t : degreeTree) : Prop :=
  length (tree t) = S (length ws) ∧ total t = sumZ ws ∧
  ∀ i, 0 < i ≤ Z.of_nat (length ws) →
    tree t !! Z.to_nat i = Some (prefix ws i - prefix ws (i - lowbit i)).

Lemma sumZ_app l k : sumZ (l ++ k) = sumZ l + sumZ k.
Proof. induction l; simpl; lia. Qed.

Lemma prefix_alter ws i delta p : 0 ≤ p < Z.of_nat (length ws) → 0 ≤ i →
  prefix (alter (λ x, x + delta) (Z.to_nat p) ws) i =
    prefix ws i + (if decide (p < i) then delta else 0).
Proof.
  intros Hp Hi. unfold prefix.
  remember (Z.to_nat p) as q. remember (Z.to_nat i) as j.
  assert ((if decide (p < i) then delta else 0) =
          (if decide (q < j)%nat then delta else 0)) as ->.
  { repeat case_decide; lia. }
  assert (q < length ws)%nat as Hq by lia. clear -Hq.
  revert j q Hq. unfold alter.
  induction ws as [|w ws IH]; intros j q Hq; simpl in *; [lia|].
  destruct q as [|q], j as [|j]; simpl; try (repeat case_decide; lia).
  rewrite IH by lia. repeat case_decide; lia.
Qed.

Lemma sumZ_alter ws delta q : (q < length ws)%nat →
  sumZ (alter (λ x, x + delta) q ws) = sumZ ws + delta.
Proof.
  revert q. unfold alter.
  induction ws as [|w ws IH]; intros [|q]; simpl; intros; try lia.
  rewrite IH; lia.
Qed.


Lemma prefix_0 ws : prefix ws 0 = 0.
Proof. done. Qed.

Lemma prefix_all ws i : Z.of_nat (length ws) ≤ i → prefix ws i = sumZ ws.
Proof. intros H. unfold prefix. by rewrite take_ge by lia. Qed.

Lemma prefix_succ ws (i : nat) w :
  ws !! i = Some w → prefix ws (Z.of_nat i + 1) = prefix ws (Z.of_nat i) + w.
Proof.
  intros H. unfold prefix. rewrite Z2Nat.inj_add, !Nat2Z.id, Nat.add_1_r by lia.
  rewrite (take_S_r _ _ _ H), sumZ_app. simpl. lia.
Qed.

Lemma sumZ_replicate_0 n : sumZ (replicate n 0) = 0.
Proof. induction n; simpl; lia. Qed.

Lemma fen_make n : fen (replicate n 0) (make (S n)).
Proof.
  unfold fen, make, tree, total. rewrite !length_replicate, sumZ_replicate_0.
  split_and!; [done..|]. intros i Hi.
  rewrite lookup_replicate_2 by lia. unfold prefix.
  by rewrite !take_replicate, !sumZ_replicate_0.
Qed.

Lemma fen_add ws t index delta :
  fen ws t → 0 ≤ index < Z.of_nat (length ws) →
  fen (alter (λ x, x + delta) (Z.to_nat index) ws) (add t index delta).
Proof.
  intros (Hlen & Htot & Hcell) Hidx. unfold fen, add; simpl.
  rewrite length_addLoop, length_alter. split_and!; [done| |].
  { rewrite sumZ_alter; lia. }
  intros i Hi. rewrite lookup_addLoop by lia. rewrite (Hcell i Hi). simpl. f_equal.
  pose proof (lowbit_pos i). rewrite !prefix_alter by lia.
  unfold covers. repeat case_decide; lia.
Qed.

(** ** Sampling *)

Lemma growStep_pow fuel k len : 0 ≤ k → len ≤ 2^(k + Z.of_nat fuel) →
  ∃ j, k ≤ j ≤ k + Z.of_nat fuel ∧ growStep fuel (2^k) len = 2^j ∧ len ≤ 2^j.
Proof.
  revert k. induction fuel as [|fuel IH]; intros k Hk Hlen; cbn [growStep].
  - exists k. rewrite Z.add_0_r in Hlen. split_and!; [lia..|done|done].
  - destruct (Z.ltb_spec (2^k) len).
    + replace (Z.shiftl (2^k) 1) with (2^(k + 1))
        by (rewrite Z.shiftl_mul_pow2, Z.pow_add_r by lia; lia).
      destruct (IH (k + 1)) as (j & Hj & -> & Hl); [lia| |].
      { replace (k + 1 + Z.of_nat fuel) with (k + Z.of_nat (S fuel)) by lia. done. }
      exists j. split_and!; [lia..|done|done].
    + exists k. split_and!; [lia..|done|lia].
Qed.

Lemma le_pow2_nat (n : nat) : Z.of_nat n ≤ 2^(Z.of_nat n).
Proof.
  induction n as [|n IH]; [done|].
  rewrite Nat2Z.inj_succ, Z.pow_succ_r by lia.
  assert (0 < 2^Z.of_nat n) by (apply Z.pow_pos_nonneg; lia). lia.
Qed.

(** The descent keeps [index] a multiple of twice the step, with the ticket in
    the interval of the next [2 * step] positions. *)
Lemma descend_spec ws t fuel (k : Z) index T :
  fen ws t → -1 ≤ k → k + 1 < Z.of_nat fuel →
  0 ≤ index ≤ Z.of_nat (length ws) →
  (∃ q, index = 2^(k + 1) * q) →
  prefix ws index ≤ T < sumZ ws → T < prefix ws (index + 2^(k + 1)) →
  let c := descend fuel (tree t) index (if decide (k = -1) then 0 else 2^k)
                   (T - prefix ws index) in
  0 ≤ c < Z.of_nat (length ws) ∧ prefix ws c ≤ T < prefix ws (c + 1).
Proof.
  intros (Hlen & Htot & Hcell). revert k index.
  induction fuel as [|fuel IH]; intros k index Hk Hf Hidx [q Hq] HT Hup; [lia|].
  cbn [descend]. destruct (decide (k = -1)) as [->|Hk1].
  { change (2^(-1 + 1)) with 1 in Hup. change (0 <? 0) with false. cbv beta zeta iota.
    split; [|split; [|done]; lia]. destruct (decide (index = Z.of_nat (length ws))) as [He|]; [|lia].
    rewrite (prefix_all ws index) in HT by lia. lia. }
  assert (0 < 2^k) by (apply Z.pow_pos_nonneg; lia).
  rewrite (proj2 (Z.ltb_lt _ _)) by lia.
  rewrite Z.pow_add_r in Hq, Hup by lia. change (2^1) with 2 in *.
  assert (Z.shiftr (2^k) 1 = if decide (k - 1 = -1) then 0 else 2^(k - 1)) as ->.
  { case_decide; [by replace k with 0 by lia|].
    rewrite Z.shiftr_div_pow2 by lia.
    replace k with (k - 1 + 1) at 1 by lia. rewrite Z.pow_add_r by lia.
    by rewrite Z.div_mul. }
  assert (Z.of_nat (length ws) < index + 2^k →
    T < prefix ws (index + 2^k)) as Hbeyond.
  { intros. rewrite prefix_all; lia. }
  assert (∃ q', index = 2^(k - 1 + 1) * q') as Hq1.
  { exists (2 * q). replace (k - 1 + 1) with k by lia. lia. }
  destruct (tree t !! Z.to_nat (index + 2^k)) as [x|] eqn:Hx.
  - assert (index + 2^k ≤ Z.of_nat (length ws)).
    { apply lookup_lt_Some in Hx. lia. }
    rewrite Hcell in Hx by lia.
    assert (lowbit (index + 2^k) = 2^k) as Hlow.
    { replace (index + 2^k) with (2^k * (2 * q + 1)) by lia.
      apply lowbit_pow_odd. lia. }
    rewrite Hlow in Hx. replace (index + 2^k - 2^k) with index in Hx by lia.
    injection Hx as <-.
    destruct (Z.leb_spec (prefix ws (index + 2^k) - prefix ws index) (T - prefix ws index)).
    + replace (T - prefix ws index - (prefix ws (index + 2^k) - prefix ws index))
        with (T - prefix ws (index + 2^k)) by lia.
      apply IH; try lia.
      * exists (2 * q + 1). replace (k - 1 + 1) with k by lia. lia.
      * replace (k - 1 + 1) with k by lia.
        by replace (index + 2^k + 2^k) with (index + 2^k * 2) by lia.
    + apply IH; try lia; [done|]. replace (k - 1 + 1) with k by lia. lia.
  - apply lookup_ge_None in Hx.
    apply IH; try lia; [done|]. replace (k - 1 + 1) with k by lia.
    apply Hbeyond. lia.
Qed.

Lemma choose_spec ws t ticket :
  fen ws t → 0 ≤ ticket < total t →
  let c := choose t ticket in
  0 ≤ c < Z.of_nat (length ws) ∧ prefix ws c ≤ ticket < prefix ws (c + 1).
Proof.
  intros Hfen HT. pose proof Hfen as (Hlen & Htot & Hcell). unfold choose.
  destruct (growStep_pow (length (tree t)) 0 (Z.of_nat (length (tree t))))
    as (j & Hj & Hg & Hl); [done|apply le_pow2_nat|].
  change (2^0) with 1 in Hg. rewrite Hg.
  assert (Z.shiftr (2^j) 1 = if decide (j - 1 = -1) then 0 else 2^(j - 1)) as ->.
  { case_decide; [by replace j with 0 by lia|].
    rewrite Z.shiftr_div_pow2 by lia.
    replace j with (j - 1 + 1) at 1 by lia. rewrite Z.pow_add_r by lia.
    by rewrite Z.div_mul. }
  pose proof (descend_spec ws t (S (length (tree t))) (j - 1) 0 ticket Hfen) as Hd.
  rewrite prefix_0, Z.sub_0_r in Hd. apply Hd; try lia.
  - exists 0. lia.
  - rewrite prefix_all; [lia|]. replace (j - 1 + 1) with j by lia. lia.
Qed.
