(* ===== verification/TopologyGraph.v ===== *)
(** * The graph builder keeps a simple graph

    Pure facts on adjacency lists ([link], [unlink]), then one rule per builder
    operation of [Topology] in the program logic of the prelude. *)
From Stdlib Require Import ZArith Lia.
From stdpp Require Import base tactics gmap sets list strings sorting.
From S2P Require Import Prelude.
From S2P Require Import GoStd.
From S2P Require Import Topology.
From S2P Require Import TopologyFenwick.
Open Scope Z_scope.

(** ** Adjacency *)

Definition adj (ns : list (gset nat)) (u v : nat) : Prop :=
  ∃ s, ns !! u = Some s ∧ v ∈ s.

Definition link (ns : list (gset nat)) (u v : nat) : list (gset nat) :=
  alter (λ s, {[u]} ∪ s) v (alter (λ s, {[v]} ∪ s) u ns).

Definition unlink (ns : list (gset nat)) (u v : nat) : list (gset nat) :=
  alter (λ s, s ∖ {[u]}) v (alter (λ s, s ∖ {[v]}) u ns).

Definition degrees (ns : list (gset nat)) : list Z := map (λ s, Z.of_nat (size s)) ns.

(** A simple undirected graph on [n] nodes with [e] edges. *)
Record simple (n : nat) (ns : list (gset nat)) (e : Z) : Prop := {
  simple_length : length ns = n;
  simple_sym : ∀ u v, adj ns u v → adj ns v u;
  simple_irrefl : ∀ u, ¬ adj ns u u;
  simple_edges : 2 * e = sumZ (degrees ns);
  simple_max : e ≤ MaxEdges;
}.

Lemma adj_lt ns u v : adj ns u v → (u < length ns)%nat.
Proof. intros (s & Hs & _). by apply lookup_lt_Some in Hs. Qed.

Lemma adj_alter f i ns u v :
  adj (alter f i ns) u v ↔
    ∃ s, ns !! u = Some s ∧ v ∈ (if decide (u = i) then f s else s).
Proof.
  unfold adj. rewrite list_lookup_alter.
  destruct (decide (i = u)), (decide (u = i)); subst; try congruence; [|done].
  destruct (ns !! u) as [s|]; naive_solver.
Qed.

Lemma ex_some {A} (a : A) (Q : A → Prop) : (∃ s, Some a = Some s ∧ Q s) ↔ Q a.
Proof. naive_solver. Qed.

Lemma ex_none {A} (Q : A → Prop) : (∃ s, None = Some s ∧ Q s) ↔ False.
Proof. naive_solver. Qed.

Lemma adj_link ns u v x y : u ≠ v → (u < length ns)%nat → (v < length ns)%nat →
  adj (link ns u v) x y ↔ adj ns x y ∨ (x = u ∧ y = v) ∨ (x = v ∧ y = u).
Proof.
  intros Hne Hu Hv. unfold link. rewrite adj_alter, list_lookup_alter.
  apply lookup_lt_is_Some in Hu as [su Hsu], Hv as [sv Hsv]. unfold adj.
  destruct (decide (x = v)), (decide (u = x)); subst; try congruence;
    rewrite ?Hsu, ?Hsv; simpl;
    rewrite ?ex_some, ?elem_of_union, ?elem_of_singleton; naive_solver.
Qed.

Lemma adj_unlink ns u v x y : u ≠ v →
  adj (unlink ns u v) x y ↔ adj ns x y ∧ ¬ ((x = u ∧ y = v) ∨ (x = v ∧ y = u)).
Proof.
  intros Hne. unfold unlink. rewrite adj_alter, list_lookup_alter. unfold adj.
  destruct (ns !! x) as [s|] eqn:Hs;
    destruct (decide (x = v)), (decide (u = x)); subst; try congruence;
    rewrite ?Hs; simpl;
    rewrite ?ex_some, ?ex_none, ?elem_of_difference, ?elem_of_singleton; naive_solver.
Qed.

Lemma length_link ns u v : length (link ns u v) = length ns.
Proof. unfold link. by rewrite !length_alter. Qed.

Lemma length_unlink ns u v : length (unlink ns u v) = length ns.
Proof. unfold unlink. by rewrite !length_alter. Qed.

Lemma length_degrees ns : length (degrees ns) = length ns.
Proof. apply length_map. Qed.

Lemma degrees_alter f i ns s delta : ns !! i = Some s →
  Z.of_nat (size (f s)) = Z.of_nat (size s) + delta →
  degrees (alter f i ns) = alter (λ x, x + delta) i (degrees ns).
Proof.
  intros Hs Hd. apply list_eq. intros j.
  unfold degrees. rewrite list_lookup_fmap, !list_lookup_alter, list_lookup_fmap.
  case_decide; subst; [|by rewrite list_lookup_fmap].
  rewrite Hs. simpl. by rewrite Hd.
Qed.

Lemma degrees_link ns u v : u ≠ v → (u < length ns)%nat → (v < length ns)%nat →
  ¬ adj ns u v → ¬ adj ns v u →
  degrees (link ns u v) = alter (λ x, x + 1) v (alter (λ x, x + 1) u (degrees ns)).
Proof.
  intros Hne Hu Hv Huv Hvu. unfold link.
  apply lookup_lt_is_Some in Hu as [su Hsu], Hv as [sv Hsv].
  rewrite (degrees_alter _ v _ sv 1), (degrees_alter _ u _ su 1); [done|done| | |].
  - rewrite size_union, size_singleton; [lia|].
    assert (v ∉ su) by (intros ?; apply Huv; by exists su). set_solver.
  - by rewrite list_lookup_alter_ne.
  - rewrite size_union, size_singleton; [lia|].
    assert (u ∉ sv) by (intros ?; apply Hvu; by exists sv). set_solver.
Qed.

Lemma degrees_unlink ns u v : u ≠ v → adj ns u v → adj ns v u →
  degrees (unlink ns u v) = alter (λ x, x + -1) v (alter (λ x, x + -1) u (degrees ns)).
Proof.
  intros Hne (su & Hsu & Hv) (sv & Hsv & Hu). unfold unlink.
  rewrite (degrees_alter _ v _ sv (-1)), (degrees_alter _ u _ su (-1)); [done|done| | |].
  - rewrite size_difference, size_singleton by set_solver.
    assert (size su ≠ 0)%nat; [|lia]. rewrite size_non_empty_iff. set_solver.
  - by rewrite list_lookup_alter_ne.
  - rewrite size_difference, size_singleton by set_solver.
    assert (size sv ≠ 0)%nat; [|lia]. rewrite size_non_empty_iff. set_solver.
Qed.

Lemma simple_link n ns e u v :
  simple n ns e → u ≠ v → (u < n)%nat → (v < n)%nat → ¬ adj ns u v → e < MaxEdges →
  simple n (link ns u v) (e + 1).
Proof.
  intros [Hlen Hsym Hirr He Hmax] Hne Hu Hv Huv Hlt.
  assert (¬ adj ns v u) by (intros ?; by apply Huv, Hsym).
  assert (∀ x y, adj (link ns u v) x y ↔
    adj ns x y ∨ (x = u ∧ y = v) ∨ (x = v ∧ y = u)) as Hadj.
  { intros. apply adj_link; lia. }
  split.
  - by rewrite length_link.
  - intros x y. rewrite !Hadj. naive_solver.
  - intros x. rewrite Hadj. naive_solver.
  - rewrite degrees_link by (done || lia).
    rewrite !sumZ_alter by (rewrite ?length_alter, length_degrees; lia). lia.
  - lia.
Qed.

Lemma simple_unlink n ns e u v :
  simple n ns e → adj ns u v → simple n (unlink ns u v) (e - 1).
Proof.
  intros [Hlen Hsym Hirr He Hmax] Huv.
  assert (u ≠ v) as Hne by (intros ->; by apply (Hirr v)).
  pose proof (adj_lt _ _ _ Huv). pose proof (adj_lt _ _ _ (Hsym _ _ Huv)).
  assert (∀ x y, adj (unlink ns u v) x y ↔
    adj ns x y ∧ ¬ ((x = u ∧ y = v) ∨ (x = v ∧ y = u))) as Hadj.
  { intros. by apply adj_unlink. }
  split.
  - by rewrite length_unlink.
  - intros x y. rewrite !Hadj. naive_solver.
  - intros x. rewrite Hadj. naive_solver.
  - rewrite degrees_unlink by auto.
    rewrite !sumZ_alter by (rewrite ?length_alter, length_degrees; lia). lia.
  - lia.
Qed.

Lemma simple_empty n : simple n (replicate n ∅) 0.
Proof.
  assert (∀ u v, ¬ adj (replicate n ∅) u v) as Hno.
  { intros u v (s & Hs & Hv). apply lookup_replicate in Hs as [-> _]. set_solver. }
  split; [by rewrite length_replicate|naive_solver|naive_solver| |done].
  unfold degrees. change (map ?f ?l) with (f <$> l). rewrite fmap_replicate.
    by rewrite size_empty, sumZ_replicate_0.
Qed.

(** ** Rules for the builder's operations *)
Section Rules.
Context {R : Type} {HRand : Rand R} {HR : RandOk R}.

(** A predicate on the graph alone: cancellation checks and random draws keep
    it. *)
Definition on (Φ : list (gset nat) → Z → Prop) (w : world R) : Prop :=
  Φ (neighbors (bld w)) (edges (bld w)).

(** The errors of the context. *)
Definition ctxError (ctx : nat → option string) (e : string) : Prop := ∃ i, ctx i = Some e.

Definition limitError (e : string) : Prop :=
  e = "topology exceeds the limit of undirected edges"%string.

Lemma run_ctxErr ctx Φ (E : string → world R → Prop) :
  (∀ e w, ctxError ctx e → E e w) → run (on Φ) (ctxErr ctx) (λ _, on Φ) E.
Proof.
  intros HE w Hw. unfold ctxErr, get, setBuilder, modify, mbind, gom_bind; simpl.
  destruct (ctx (polls (bld w))) as [e|] eqn:He; simpl; [|done].
  apply HE. by exists (polls (bld w)).
Qed.

Lemma run_step ctx Φ (E : string → world R → Prop) :
  (∀ e w, ctxError ctx e → E e w) → run (on Φ) (step ctx) (λ _, on Φ) E.
Proof.
  intros HE. unfold step. eapply (run_bind _ _ (λ _, on Φ)); [by apply run_modify|]. intros [].
  eapply (run_bind _ _ (λ _, on Φ)); [by apply run_get|]. intros w.
  destruct (_ =? _); [by apply run_ctxErr|by apply run_ret].
Qed.

Lemma run_drawFloat64 Φ (E : string → world R → Prop) :
  run (on Φ) drawFloat64 (λ _, on Φ) E.
Proof. intros w Hw. unfold drawFloat64. by destruct (Float64 _). Qed.

Lemma run_drawIntn Φ n (E : string → world R → Prop) :
  (∀ ns e, Φ ns e → 0 < n) →
  run (on Φ) (drawIntn n) (λ x, on (λ ns e, Φ ns e ∧ 0 ≤ x < n)) E.
Proof.
  intros Hn w Hw. unfold drawIntn. pose proof (Hn _ _ Hw) as Hpos.
  rewrite (proj2 (Z.leb_gt _ _)) by lia.
  pose proof (intn_range n (rng w) Hpos) as Hr. by destruct (Intn n (rng w)).
Qed.

Lemma run_neighborsOf Φ u (E : string → world R → Prop) :
  (∀ ns e, Φ ns e → (u < length ns)%nat) →
  run (on Φ) (neighborsOf u) (λ s, on (λ ns e, Φ ns e ∧ ns !! u = Some s)) E.
Proof.
  intros Hu w Hw. unfold neighborsOf, get, lift_res, mbind, gom_bind; simpl.
  destruct (lookup_lt_is_Some_2 _ _ (Hu _ _ Hw)) as [s Hs].
  rewrite Hs. simpl. done.
Qed.

Lemma run_add Φ (Ψ : list (gset nat) → Z → Prop) u v (E : string → world R → Prop) :
  (∀ ns e, Φ ns e → u ≠ v ∧ (u < length ns)%nat ∧ (v < length ns)%nat ∧
     (adj ns u v → Ψ ns e) ∧ (¬ adj ns u v → e < MaxEdges → Ψ (link ns u v) (e + 1))) →
  (∀ e w, limitError e → on (λ ns e, Φ ns e ∧ ¬ adj ns u v ∧ MaxEdges ≤ e) w → E e w) →
  run (on Φ) (add u v) (λ _, on Ψ) E.
Proof.
  intros H HE w Hw. destruct (H _ _ Hw) as (Hne & Hu & Hv & Hin & Hout).
  unfold add. rewrite bool_decide_false by done.
  unfold neighborsOf, get, lift_res, throw, mbind, gom_bind; simpl.
  destruct (lookup_lt_is_Some_2 _ _ Hu) as [su Hsu].
  destruct (lookup_lt_is_Some_2 _ _ Hv) as [sv Hsv].
  rewrite Hsu; simpl. case_bool_decide as Hd.
  { apply Hin. by exists su. }
  assert (¬ adj (neighbors (bld w)) u v) as Hadj by (intros (s & ? & ?); congruence).
  destruct (Z.leb_spec MaxEdges (edges (bld w))).
  - apply HE; done.
  - rewrite Hsv. unfold setNeighbors, setBuilder, modify, on; simpl.
    replace (<[v:={[u]} ∪ sv]> (<[u:={[v]} ∪ su]> (neighbors (bld w))))
      with (link (neighbors (bld w)) u v); [by apply Hout|].
    unfold link. apply list_eq. intros j.
    rewrite !list_lookup_alter, !list_lookup_insert, length_insert.
    repeat case_decide; subst; rewrite ?Hsu, ?Hsv; naive_solver.
Qed.

(** Adding an absent edge within range to a graph below the edge limit. *)
Lemma run_add_new Φ (Ψ : list (gset nat) → Z → Prop) u v (E : string → world R → Prop) :
  (∀ ns e, Φ ns e → u ≠ v ∧ (u < length ns)%nat ∧ (v < length ns)%nat ∧
     ¬ adj ns u v ∧ e < MaxEdges ∧ Ψ (link ns u v) (e + 1)) →
  run (on Φ) (add u v) (λ _, on Ψ) E.
Proof.
  intros H. apply run_add; [naive_solver|].
  intros e w _ (Hw & ? & ?). destruct (H _ _ Hw). lia.
Qed.

Lemma run_removeEdge Φ (Ψ : list (gset nat) → Z → Prop) u v (E : string → world R → Prop) :
  (∀ ns e, Φ ns e → u ≠ v ∧ (u < length ns)%nat ∧ (v < length ns)%nat ∧
     Ψ (unlink ns u v) (e - 1)) →
  run (on Φ) (removeEdge u v) (λ _, on Ψ) E.
Proof.
  intros H w Hw. destruct (H _ _ Hw) as (Hne & Hu & Hv & HΨ).
  unfold removeEdge, neighborsOf, setNeighbors, setBuilder, get, lift_res, modify,
    mbind, gom_bind; simpl.
  destruct (lookup_lt_is_Some_2 _ _ Hu) as [su Hsu].
  destruct (lookup_lt_is_Some_2 _ _ Hv) as [sv Hsv].
  rewrite Hsu; simpl. rewrite list_lookup_insert_ne, Hsv by done; simpl.
  unfold on; simpl.
  replace (<[v:=sv ∖ {[u]}]> (<[u:=su ∖ {[v]}]> (neighbors (bld w))))
    with (unlink (neighbors (bld w)) u v); [done|].
  unfold unlink. apply list_eq. intros j.
  rewrite !list_lookup_alter, !list_lookup_insert, length_insert.
  repeat case_decide; subst; rewrite ?Hsu, ?Hsv; naive_solver.
Qed.

Lemma run_weaken {A} Φ Φ' (m : GoM (world R) A) Q E :
  (∀ ns e, Φ' ns e → Φ ns e) → run (on Φ) m Q E → run (on Φ') m Q E.
Proof. intros HΦ Hm w Hw. apply Hm. by apply HΦ. Qed.

Lemma run_get_on {B} Φ (f : world R → GoM (world R) B) Q E :
  (∀ w, on Φ w → run (λ w', w' = w) (f w) Q E) → run (on Φ) (get ≫= f) Q E.
Proof. intros H w Hw. exact (H w Hw w eq_refl). Qed.

End Rules.
