(* ===== verification/TopologyModels.v ===== *)
(** * What each graph model builds

    Every model keeps the builder's graph simple; Watts-Strogatz and
    Barabasi-Albert reach their exact edge counts and, like the lattices, can
    only be stopped by the context. *)
From Stdlib Require Import ZArith Lia.
From stdpp Require Import base tactics gmap sets list strings sorting.
From S2P Require Import Prelude.
From S2P Require Import GoStd.
From S2P Require Import Topology.
From S2P Require Import TopologyFenwick.
From S2P Require Import TopologyGraph.
Open Scope Z_scope.

Section Models.
Context {R : Type} {HRand : Rand R} {HR : RandOk R}.
Context (ctx : nat → option string).

Abbreviation G := (GoM (world R)).

(** Errors of the models that may reach the edge limit, and of those that may
    not. *)
Definition Elimit (e : string) (_ : world R) : Prop := ctxError ctx e ∨ limitError e.
Definition Ectx (e : string) (_ : world R) : Prop := ctxError ctx e.

Lemma run_add_simple n u v : u ≠ v → (u < n)%nat → (v < n)%nat →
  run (on (simple n)) (add u v) (λ _, on (simple n)) Elimit.
Proof.
  intros Hne Hu Hv. apply run_add.
  - intros ns e Hs. pose proof (simple_length _ _ _ Hs).
    split_and!; [done|lia|lia|done|]. intros ? ?. by apply simple_link.
  - intros e w ? _. by right.
Qed.

(** Reading the node count at the start of an operation. *)
Lemma run_get_length {B} n Φ (f : nat → G B) Q E :
  (∀ ns e, Φ ns e → length ns = n) →
  run (on Φ) (f n) Q E →
  run (on Φ) (w ← get; f (length (neighbors (bld w)))) Q E.
Proof.
  intros HΦ Hf. apply run_get_on. intros w Hw.
  rewrite (HΦ _ _ Hw). intros w' ->. by apply Hf.
Qed.

Lemma run_pairs n include :
  (∀ u v, (u < n)%nat → (v < n)%nat →
     run (on (simple n)) (include u v) (λ _, on (simple n)) Elimit) →
  run (on (simple n)) (pairs ctx include) (λ _, on (simple n)) Elimit.
Proof.
  intros Hinc. unfold pairs.
  apply (run_get_length n _ (λ n, miter (λ u, miter (λ v,
      step ctx;; yes ← include u v; if yes : bool then add u v else mret tt)
    (seq (S u) (n - S u))) (seq 0 n))).
  { apply simple_length. }
  apply (run_for (λ _, on (simple n))). intros u Hu.
  apply (run_for (λ _, on (simple n))). intros i Hi. rewrite Nat.add_0_l.
  eapply run_bind; [apply run_step; by left|]. intros [].
  eapply run_bind; [apply Hinc; lia|]. intros [|].
  - apply run_add_simple; lia.
  - by apply run_ret.
Qed.

(** ** Watts-Strogatz *)

Lemma mod_step n u o : (u < n)%nat → (o <= n)%nat →
  ((u + o) mod n = if decide (u + o < n) then u + o else u + o - n)%nat.
Proof.
  intros Hu Ho. case_decide.
  - by apply Nat.mod_small.
  - replace (u + o)%nat with (u + o - n + 1 * n)%nat at 1 by lia.
    rewrite Nat.Div0.mod_add. apply Nat.mod_small. lia.
Qed.

(** The edges of the ring are pairwise distinct, even undirected. *)
Lemma ring_distinct n k2 u o u' o' :
  (2 * k2 < n)%nat → (u < n)%nat → (u' < n)%nat → (1 <= o <= k2)%nat →
  (1 <= o' <= k2)%nat →
  (u = u' ∧ (u + o) mod n = (u' + o') mod n ∨
   u = (u' + o') mod n ∧ (u + o) mod n = u')%nat → u = u' ∧ o = o'.
Proof.
  intros Hn Hu Hu' Ho Ho'. rewrite !mod_step by lia.
  repeat case_decide; intros [[]|[]]; lia.
Qed.

Lemma ring_range n k2 u o :
  (2 * k2 < n)%nat → (u < n)%nat → (1 <= o <= k2)%nat →
  ((u + o) mod n < n ∧ u ≠ (u + o) mod n)%nat.
Proof. intros Hn Hu Ho. rewrite mod_step by lia. case_decide; lia. Qed.

(** The ring edges handled once [j] whole offsets and [i] nodes of the next one
    are done. *)
Definition processed (n j i o u : nat) : Prop :=
  ((1 <= o <= j)%nat ∧ (u < n)%nat) ∨ (o = S j ∧ (u < i)%nat).

Definition ringInv (n j i : nat) (ns : list (gset nat)) (e : Z) : Prop :=
  simple n ns e ∧ e = Z.of_nat (j * n + i) ∧
  ∀ x y, adj ns x y ↔ ∃ o u, processed n j i o u ∧
    ((x = u ∧ y = (u + o) mod n)%nat ∨ (x = (u + o) mod n ∧ y = u)%nat).

Lemma ringInv_next_offset n j ns e :
  ringInv n j n ns e ↔ ringInv n (S j) 0 ns e.
Proof.
  unfold ringInv. assert (∀ o u, processed n j n o u ↔ processed n (S j) 0 o u) as Hp.
  { intros o u. unfold processed. lia. }
  setoid_rewrite Hp. replace (S j * n + 0)%nat with (j * n + n)%nat by lia. done.
Qed.

Lemma ringInv_link n k2 j i ns e :
  (2 * k2 < n)%nat → (i < n)%nat → (j < k2)%nat →
  Z.of_nat (k2 * n) ≤ MaxEdges →
  ringInv n j i ns e →
  let v := ((i + S j) mod n)%nat in
  i ≠ v ∧ (i < length ns)%nat ∧ (v < length ns)%nat ∧ ¬ adj ns i v ∧ e < MaxEdges ∧
  ringInv n j (S i) (link ns i v) (e + 1).
Proof.
  intros Hn Hi Hj Hmax (Hs & He & Hadj) v.
  destruct (ring_range n k2 i (S j)) as [Hv Hiv]; [lia..|].
  pose proof (simple_length _ _ _ Hs) as Hlen.
  assert (¬ adj ns i v) as Hno.
  { rewrite Hadj. intros (o & u & Hp & Hx).
    destruct (ring_distinct n k2 i (S j) u o); unfold processed in Hp; lia. }
  assert (e < MaxEdges) by nia.
  split_and!; [done|lia|lia|done|done|]. split_and!.
  - by apply simple_link.
  - lia.
  - intros x y. rewrite adj_link by lia. rewrite Hadj. split.
    + intros [(o & u & Hp & Hx)|Hx].
      * exists o, u. split; [unfold processed in *; lia|done].
      * exists (S j), i. split; [unfold processed; lia|]. naive_solver.
    + intros (o & u & Hp & Hx).
      destruct (decide (o = S j ∧ u = i)) as [[-> ->]|Hne].
      * right. naive_solver.
      * left. exists o, u. split; [unfold processed in *; lia|done].
Qed.

Lemma run_ring n k2 :
  (2 * k2 < n)%nat → Z.of_nat (k2 * n) ≤ MaxEdges →
  run (on (ringInv n 0 0)) (ring ctx k2 n) (λ _, on (ringInv n k2 0)) Ectx.
Proof.
  intros Hn Hmax. unfold ring.
  apply (run_for (λ j, on (ringInv n j 0))). intros j Hj.
  eapply run_conseq; [|done| |done].
  - apply (run_for (λ i, on (ringInv n j i))). intros i Hi. rewrite Nat.add_0_l.
    eapply run_bind; [by apply run_step|]. intros [].
    apply run_add_new. intros ns e HI. by apply (ringInv_link n k2).
  - intros [] w Hw. by apply ringInv_next_offset.
Qed.

Definition rewireInv (n k2 j i : nat) (ns : list (gset nat)) (e : Z) : Prop :=
  simple n ns e ∧ e = Z.of_nat (k2 * n) ∧
  ∀ o u, (1 <= o <= k2)%nat → (u < n)%nat → ¬ processed n j i o u →
    adj ns u ((u + o) mod n)%nat.

Lemma rewireInv_skip n k2 j i ns e :
  rewireInv n k2 j i ns e → rewireInv n k2 j (S i) ns e.
Proof.
  intros (Hs & He & Hadj). split_and!; [done..|]. intros o u Ho Hu Hp.
  apply Hadj; [done..|]. unfold processed in *. lia.
Qed.

Lemma rewireInv_next_offset n k2 j ns e :
  rewireInv n k2 j n ns e → rewireInv n k2 (S j) 0 ns e.
Proof.
  intros (Hs & He & Hadj). split_and!; [done..|]. intros o u Ho Hu Hp.
  apply Hadj; [done..|]. unfold processed in *. lia.
Qed.

Lemma rewireInv_start n k2 ns e : ringInv n k2 0 ns e → rewireInv n k2 0 0 ns e.
Proof.
  intros (Hs & He & Hadj). split_and!; [done|lia|]. intros o u Ho Hu _.
  apply Hadj. exists o, u. split; [left; lia|by left].
Qed.

(** Replacing the edge being rewired by one to an unlinked node. *)
Lemma rewireInv_replace n k2 j i c ns e :
  (2 * k2 < n)%nat → (i < n)%nat → (j < k2)%nat →
  rewireInv n k2 j i ns e → (c < n)%nat → c ≠ i → ¬ adj ns i c →
  Z.of_nat (k2 * n) ≤ MaxEdges →
  let v := ((i + S j) mod n)%nat in
  i ≠ v ∧ adj ns i v ∧ ¬ adj (unlink ns i v) i c ∧ e - 1 < MaxEdges ∧
  rewireInv n k2 j (S i) (link (unlink ns i v) i c) (e - 1 + 1).
Proof.
  intros Hn Hi Hj (Hs & He & Hadj) Hc Hci Hnc Hmax v.
  destruct (ring_range n k2 i (S j)) as [Hv Hiv]; [lia..|].
  assert (adj ns i v) as Hiv'. { apply Hadj; [lia..|]. unfold processed. lia. }
  pose proof (simple_length _ _ _ Hs) as Hlen.
  assert (¬ adj (unlink ns i v) i c) as Hnc2.
  { rewrite adj_unlink by done. naive_solver. }
  split_and!; [done..|lia|]. split_and!.
  - apply simple_link; [by apply simple_unlink|done..|lia].
  - lia.
  - intros o u Ho Hu Hp. rewrite adj_link by (rewrite ?length_unlink; done || lia).
    left. rewrite adj_unlink by done. split.
    + apply Hadj; [done..|]. unfold processed in *. lia.
    + intros Hx. destruct (ring_distinct n k2 u o i (S j)) as [-> ->];
        [lia..|unfold v in Hx; tauto|]. unfold processed in Hp. lia.
Qed.


(** A target found for [u]: in range, other than [u] and unlinked. *)
Definition targetOk (n u : nat) (ns : list (gset nat)) (r : option nat) : Prop :=
  match r with Some c => (c < n)%nat ∧ c ≠ u ∧ ¬ adj ns u c | None => True end.

Lemma not_adj ns u s c : ns !! u = Some s → c ∉ s → ¬ adj ns u c.
Proof. intros Hs Hc (s' & Hs' & ?). congruence. Qed.

Lemma run_attempts Φ fuel n u :
  (∀ ns e, Φ ns e → (u < length ns)%nat ∧ (0 < n)%nat) →
  run (on Φ) (attempts fuel n u)
    (λ r, on (λ ns e, Φ ns e ∧ targetOk n u ns r)) Ectx.
Proof.
  intros HΦ. induction fuel as [|fuel IH].
  { apply run_ret. intros w Hw. done. }
  cbn [attempts]. eapply run_bind.
  { apply run_drawIntn. intros ns e H. destruct (HΦ _ _ H). lia. }
  intros c. eapply run_bind.
  { apply run_neighborsOf. intros ns e [H _]. by destruct (HΦ _ _ H). }
  intros s. destruct (_ && _) eqn:Hc; bool_props.
  - apply run_ret. intros w ((Hw & Hr) & Hs). split; [done|].
    split_and!; [lia|done|]. by eapply not_adj.
  - eapply run_weaken; [|exact IH]. by intros ns e ((? & _) & _).
Qed.

(** The candidates still eligible in a list. *)
Definition eligible (u : nat) (s : gset nat) (cs : list nat) : list nat :=
  filter (λ c, c ≠ u ∧ c ∉ s) cs.

Lemma run_scanRank Φ n u s rank cs :
  (∀ ns e, Φ ns e → ns !! u = Some s) →
  (∀ c, c ∈ cs → (c < n)%nat) →
  0 ≤ rank < Z.of_nat (length (eligible u s cs)) →
  run (on Φ) (scanRank ctx u rank cs)
    (λ r, on (λ ns e, Φ ns e ∧ targetOk n u ns r ∧ is_Some r)) Ectx.
Proof.
  intros HΦ. revert rank. induction cs as [|c cs IH]; intros rank Hcs Hrank.
  { simpl in Hrank. lia. }
  assert (∀ c, c ∈ cs → (c < n)%nat) as Hcs'.
  { intros c' ?. apply Hcs. by constructor. }
  cbn [scanRank]. eapply run_bind; [by apply run_step|]. intros [].
  eapply run_bind.
  { apply run_neighborsOf. intros ns e H. eapply lookup_lt_Some, HΦ, H. }
  intros s'. unfold eligible in Hrank. rewrite filter_cons in Hrank.
  intros w [Hw Hs']. pose proof (HΦ _ _ Hw) as Hs.
  assert (s' = s) as -> by congruence. revert w Hw Hs' Hs.
  enough (run (on Φ) (if negb (bool_decide (c = u)) && negb (bool_decide (c ∈ s))
      then if rank =? 0 then mret (Some c) else scanRank ctx u (rank - 1) cs
      else scanRank ctx u rank cs)
    (λ r, on (λ ns e, Φ ns e ∧ targetOk n u ns r ∧ is_Some r)) Ectx) as Hrun
    by by intros w Hw _ _; apply Hrun.
  destruct (_ && _) eqn:Hc; bool_props.
  - rewrite decide_True in Hrank by done. simpl in Hrank.
    destruct (Z.eqb_spec rank 0).
    + apply run_ret. intros w Hw. split; [done|]. split; [|done].
      split_and!; [apply Hcs; by constructor|done|].
      eapply not_adj; [eapply HΦ, Hw|done].
    + apply IH; [done|]. unfold eligible. lia.
  - apply andb_false_iff in Hc. rewrite decide_False in Hrank.
    + by apply IH.
    + destruct Hc; bool_props; naive_solver.
Qed.

Lemma length_eligible n u s :
  (u < n)%nat → u ∉ s → (∀ c, c ∈ s → (c < n)%nat) →
  length (eligible u s (seq 0 n)) = (n - 1 - size s)%nat.
Proof.
  intros Hu Hus Hs. unfold eligible.
  assert (list_to_set (C := gset nat) (filter (λ c, c ≠ u ∧ c ∉ s) (seq 0 n)) =
    set_seq 0 n ∖ ({[u]} ∪ s)) as Hset.
  { apply set_eq. intros c. rewrite elem_of_list_to_set, list_elem_of_filter,
      elem_of_seq, elem_of_difference, elem_of_set_seq, not_elem_of_union,
      not_elem_of_singleton. naive_solver. }
  rewrite <- (size_list_to_set (C := gset nat)) by (apply list.NoDup_filter, list.NoDup_seq).
  rewrite Hset, size_difference.
  - rewrite size_set_seq, size_union, size_singleton by set_solver. lia.
  - intros c. rewrite elem_of_union, elem_of_singleton, elem_of_set_seq.
    intros [->|Hc]; [lia|]. apply Hs in Hc. lia.
Qed.

Lemma simple_size_lt n ns e u s : simple n ns e → ns !! u = Some s →
  (u < n)%nat ∧ u ∉ s ∧ (∀ c, c ∈ s → (c < n)%nat) ∧ (size s ≤ n - 1)%nat.
Proof.
  intros Hs Hu. pose proof (simple_length _ _ _ Hs) as Hlen.
  assert (u < n)%nat by (apply lookup_lt_Some in Hu; lia).
  assert (u ∉ s) by (intros ?; apply (simple_irrefl _ _ _ Hs u); by exists s).
  assert (∀ c, c ∈ s → (c < n)%nat) as Hr.
  { intros c Hc. rewrite <- Hlen. eapply adj_lt, (simple_sym _ _ _ Hs). by exists s. }
  split_and!; [done..|].
  assert (s ⊆ set_seq 0 n ∖ {[u]}) as Hsub.
  { intros c Hc. rewrite elem_of_difference, elem_of_set_seq, elem_of_singleton.
    split; [apply Hr in Hc; lia|]. by intros ->. }
  apply subseteq_size in Hsub. rewrite size_difference in Hsub.
  - rewrite size_set_seq, size_singleton in Hsub. lia.
  - intros c. rewrite elem_of_singleton, elem_of_set_seq. lia.
Qed.

Lemma run_rewire n k2 j i probability :
  (2 * k2 < n)%nat → (i < n)%nat → (j < k2)%nat → Z.of_nat (k2 * n) ≤ MaxEdges →
  run (on (rewireInv n k2 j i)) (rewire ctx n probability (S j) i)
    (λ _, on (rewireInv n k2 j (S i))) Ectx.
Proof.
  intros Hn Hi Hj Hmax. unfold rewire.
  assert (∀ ns e, rewireInv n k2 j i ns e → (i < length ns)%nat) as Hlt.
  { intros ns e (Hs & _). by rewrite (simple_length _ _ _ Hs). }
  eapply run_bind; [by apply run_step|]. intros [].
  eapply run_bind; [by apply run_drawFloat64|]. intros x.
  destruct (F64.leb _ _).
  { apply run_ret. intros w. apply rewireInv_skip. }
  eapply run_bind; [by apply run_neighborsOf|]. intros s.
  case_bool_decide as Hsize.
  { apply run_ret. intros w [Hw _]. by apply rewireInv_skip. }
  eapply run_bind.
  { apply run_attempts. intros ns e [HI _]. split; [by eapply Hlt|lia]. }
  intros r0. eapply (run_bind _ _ (λ r, on (λ ns e,
    rewireInv n k2 j i ns e ∧ targetOk n i ns r ∧ is_Some r))).
  { destruct r0 as [c|].
    - apply run_ret. intros w ((Hw & _) & Hc). by split.
    - eapply run_bind.
      { apply run_neighborsOf. intros ns e ((HI & _) & _). by eapply Hlt. }
      intros s2. eapply run_bind.
      { apply run_drawIntn. intros ns e (((HI & Hs) & _) & Hs2).
        destruct (simple_size_lt _ _ _ _ _ (proj1 HI) Hs2) as (? & ? & ? & ?).
        assert (s2 = s) as -> by congruence. lia. }
      intros rank w ((((HI & Hs) & _) & Hs2) & Hrank).
      pose proof (simple_size_lt _ _ _ _ _ (proj1 HI) Hs2) as (? & ? & ? & ?).
      assert (run (on (λ ns e, rewireInv n k2 j i ns e ∧ ns !! i = Some s2))
        (scanRank ctx i rank (seq 0 n))
        (λ r, on (λ ns e, rewireInv n k2 j i ns e ∧ targetOk n i ns r ∧ is_Some r))
        Ectx) as Hscan; [|by apply Hscan].
      eapply run_conseq.
      + apply (run_scanRank (λ ns e, rewireInv n k2 j i ns e ∧ ns !! i = Some s2) n i s2);
          [by intros ns e []|intros c ?%elem_of_seq; lia|].
        rewrite length_eligible by done. lia.
      + done.
      + by intros r w' ((? & _) & ?).
      + done. }
  intros [c|]; [|intros w (_ & _ & [? ?]); done].
  eapply (run_bind _ _ (λ _, on (λ ns e, ¬ adj ns i c ∧ (i < length ns)%nat ∧
    (c < length ns)%nat ∧ e < MaxEdges ∧ i ≠ c ∧
    rewireInv n k2 j (S i) (link ns i c) (e + 1)))).
  - apply run_removeEdge. intros ns e (HI & (Hc & Hci & Hnc) & _).
    destruct (rewireInv_replace n k2 j i c ns e) as (Hne & Hv & Hno & He & HI'); try done.
    pose proof (simple_length _ _ _ (proj1 HI)).
    destruct (ring_range n k2 i (S j)); [lia..|].
    rewrite length_unlink. split_and!; done || lia.
  - intros []. apply run_add_new. naive_solver.
Qed.

Lemma run_wattsStrogatz n k probability :
  Z.rem k 2 = 0 → 2 ≤ k < Z.of_nat n → Z.of_nat n * k / 2 ≤ MaxEdges →
  run (on (λ ns e, ns = replicate n ∅ ∧ e = 0)) (wattsStrogatz ctx k probability)
    (λ _, on (λ ns e, simple n ns e ∧ e = Z.of_nat n * k / 2)) Ectx.
Proof.
  intros Hrem Hk Hmax. unfold wattsStrogatz.
  remember (Z.to_nat (Z.quot k 2)) as k2 eqn:Hk2.
  assert (k = 2 * Z.of_nat k2) as ->.
  { subst. rewrite Z2Nat.id by (apply Z.quot_pos; lia).
    pose proof (Z.quot_rem k 2). lia. }
  replace (Z.of_nat n * (2 * Z.of_nat k2)) with (Z.of_nat (k2 * n) * 2) in * by lia.
  rewrite Z.div_mul in * by lia.
  apply (run_get_length n _ (λ n, ring ctx k2 n;;
    miter (λ offset, miter (λ u, rewire ctx n probability offset u) (seq 0 n)) (seq 1 k2))).
  { intros ns e [-> _]. by rewrite length_replicate. }
  eapply run_bind.
  - eapply run_weaken; [|apply run_ring; lia].
    intros ns e [-> ->]. split_and!; [apply simple_empty|lia|].
    intros x y. split.
    + intros (s & Hs & ?). apply lookup_replicate in Hs as [-> _]. set_solver.
    + intros (o & u & Hp & _). unfold processed in Hp. lia.
  - intros []. eapply run_conseq.
    + apply (run_for (λ j, on (rewireInv n k2 j 0))). intros j Hj.
      eapply run_conseq; [|done| |done].
      * apply (run_for (λ i, on (rewireInv n k2 j i))). intros i Hi.
        apply run_rewire; lia.
      * intros [] w Hw. by apply rewireInv_next_offset.
    + intros w Hw. by apply rewireInv_start.
    + intros [] w (Hs & He & _). done.
    + done.
Qed.

End Models.
