(* ===== verification/TopologyAttach.v ===== *)
(** * Barabasi-Albert attachment

    The degree tree always stands for the degrees of the graph with the nodes
    already chosen masked out, so every draw succeeds and hits a fresh node. *)
From Stdlib Require Import ZArith Lia.
From stdpp Require Import base tactics gmap sets list strings sorting.
From S2P Require Import Prelude.
From S2P Require Import GoStd.
From S2P Require Import Topology.
From S2P Require Import TopologyFenwick.
From S2P Require Import TopologyGraph.
From S2P Require Import TopologyModels.
Open Scope Z_scope.

(** ** Weights with some positions masked *)

Definition masked (M : list nat) (ds : list Z) : list Z :=
  imap (λ i d, if decide (i ∈ M) then 0 else d) ds.

Lemma length_masked M ds : length (masked M ds) = length ds.
Proof. apply length_imap. Qed.

Lemma lookup_masked M ds i :
  masked M ds !! i = (λ d, if decide (i ∈ M) then 0 else d) <$> ds !! i.
Proof. apply list_lookup_imap. Qed.

Lemma masked_nil ds : masked [] ds = ds.
Proof.
  apply list_eq. intros i. rewrite lookup_masked. by destruct (ds !! i).
Qed.

Lemma masked_ext M M' ds ds' :
  length ds = length ds' →
  (∀ i d d', ds !! i = Some d → ds' !! i = Some d' →
     (if decide (i ∈ M) then 0 else d) = (if decide (i ∈ M') then 0 else d')) →
  masked M ds = masked M' ds'.
Proof.
  intros Hlen H. apply list_eq. intros i. rewrite !lookup_masked.
  destruct (ds !! i) as [d|] eqn:Hd, (ds' !! i) as [d'|] eqn:Hd'; simpl.
  - f_equal. by eapply H.
  - apply lookup_lt_Some in Hd. apply lookup_ge_None in Hd'. lia.
  - apply lookup_ge_None in Hd. apply lookup_lt_Some in Hd'. lia.
  - done.
Qed.

Lemma masked_mask M x d ds : ds !! x = Some d → x ∉ M →
  alter (λ y, y + - d) x (masked M ds) = masked (M ++ [x]) ds.
Proof.
  intros Hd Hx. apply list_eq. intros i.
  rewrite list_lookup_alter, !lookup_masked. case_decide as Hxi; [subst i|].
  - rewrite Hd. simpl. rewrite decide_False by done.
    rewrite decide_True by set_solver. f_equal. lia.
  - destruct (ds !! i); [|done]. simpl. f_equal. repeat case_decide; set_solver.
Qed.

Lemma masked_unmask M x d ds : ds !! x = Some d → x ∉ M →
  alter (λ y, y + d) x (masked (x :: M) ds) = masked M ds.
Proof.
  intros Hd Hx. apply list_eq. intros i.
  rewrite list_lookup_alter, !lookup_masked. case_decide as Hxi; [subst i|].
  - rewrite Hd. simpl. rewrite decide_True by set_solver.
    by rewrite decide_False by done.
  - destruct (ds !! i); [|done]. simpl. f_equal. repeat case_decide; set_solver.
Qed.

Lemma sumZ_nonneg l : (∀ x, x ∈ l → 0 ≤ x) → 0 ≤ sumZ l.
Proof.
  induction l as [|a l IH]; intros H; simpl; [lia|].
  assert (0 ≤ a) by (apply H; by left). assert (0 ≤ sumZ l); [|lia].
  apply IH. intros x Hx. apply H. by right.
Qed.

Lemma sumZ_ge_elem l i x : (∀ x, x ∈ l → 0 ≤ x) → l !! i = Some x → x ≤ sumZ l.
Proof.
  revert i. induction l as [|a l IH]; intros i H Hi; [done|].
  assert (∀ x, x ∈ l → 0 ≤ x) as Hl by (intros; apply H; by right).
  assert (0 ≤ a) by (apply H; by left). destruct i as [|i]; simpl in *.
  - injection Hi as ->. pose proof (sumZ_nonneg l Hl). lia.
  - pose proof (IH i Hl Hi). lia.
Qed.

Lemma lookup_degrees ns i :
  degrees ns !! i = (λ s : gset nat, Z.of_nat (size s)) <$> ns !! i.
Proof. apply list_lookup_fmap. Qed.

Lemma fresh_below (T : list nat) v : (length T < v)%nat → ∃ i, (i < v)%nat ∧ i ∉ T.
Proof.
  intros Hlen. destruct (decide (Forall (λ i, i ∈ T) (seq 0 v))) as [Hall|Hno].
  - exfalso. assert (seq 0 v ⊆+ T) as Hsub.
    { apply NoDup_submseteq; [apply list.NoDup_seq|]. by apply list.Forall_forall. }
    apply submseteq_length in Hsub. rewrite length_seq in Hsub. lia.
  - apply not_Forall_Exists, list.Exists_exists in Hno as (i & Hi & HT); [|apply _].
    exists i. apply elem_of_seq in Hi. split; [lia|done].
Qed.

(** ** The invariant between attachments *)
Section Attach.
Context {R : Type} {HRand : Rand R} {HR : RandOk R}.
Context (ctx : nat → option string).

Abbreviation G := (GoM (world R)).

(** Nodes below [v] are connected, the others isolated. *)
Definition grown (n v : nat) (ns : list (gset nat)) : Prop :=
  (∀ i s, (i < v)%nat → ns !! i = Some s → (1 <= size s)%nat) ∧
  (∀ i s, (v <= i)%nat → ns !! i = Some s → s = ∅).

Definition baInv (n m v : nat) (ns : list (gset nat)) (e : Z) : Prop :=
  simple n ns e ∧ e = Z.of_nat m + Z.of_nat (v - m - 1) * Z.of_nat m ∧ grown n v ns.

Lemma run_degree Φ v (E : string → world R → Prop) :
  (∀ ns e, Φ ns e → (v < length ns)%nat) →
  run (on Φ) (degree v)
    (λ d, on (λ ns e, Φ ns e ∧ degrees ns !! v = Some d)) E.
Proof.
  intros H. unfold degree. eapply run_bind; [by apply run_neighborsOf|].
  intros s. apply run_ret. intros w [Hw Hs]. split; [done|].
  by rewrite lookup_degrees, Hs.
Qed.

(** The masked weights still sum to something: a draw never panics. *)
Lemma masked_total_pos n v T ns weights :
  grown n v ns → length ns = n → (v <= n)%nat → (length T < v)%nat →
  fen (masked T (degrees ns)) weights → 0 < Fenwick.total weights.
Proof.
  intros [Hlow _] Hlen Hv HT (_ & -> & _).
  destruct (fresh_below T v HT) as (i & Hi & HiT).
  destruct (lookup_lt_is_Some_2 ns i) as [s Hs]; [lia|].
  pose proof (Hlow i s Hi Hs).
  assert (Z.of_nat (size s) ≤ sumZ (masked T (degrees ns))); [|lia].
  apply (sumZ_ge_elem _ i).
  - intros x Hx. apply list_elem_of_lookup in Hx as [j Hj].
    rewrite lookup_masked, lookup_degrees in Hj.
    destruct (ns !! j); simplify_eq/=. case_decide; lia.
  - rewrite lookup_masked, lookup_degrees, Hs. simpl. by rewrite decide_False.
Qed.

(** A draw within the total lands on an unmasked node below [v]. *)
Lemma choose_fresh n v T ns weights ticket :
  grown n v ns → fen (masked T (degrees ns)) weights →
  0 ≤ ticket < Fenwick.total weights →
  let c := Z.to_nat (Fenwick.choose weights ticket) in
  (c < v)%nat ∧ c ∉ T ∧ (c < length ns)%nat.
Proof.
  intros [_ Hhigh] Hfen Ht c.
  destruct (choose_spec _ _ _ Hfen Ht) as [Hr Hp]. fold c in Hp.
  rewrite length_masked, length_degrees in Hr.
  assert (c < length ns)%nat as Hc by lia.
  destruct (lookup_lt_is_Some_2 ns c Hc) as [s Hs].
  assert (masked T (degrees ns) !! c =
    Some (if decide (c ∈ T) then 0 else Z.of_nat (size s))) as Hw.
  { by rewrite lookup_masked, lookup_degrees, Hs. }
  replace (Fenwick.choose weights ticket) with (Z.of_nat c) in Hp by lia.
  rewrite (prefix_succ _ _ _ Hw) in Hp.
  case_decide; [lia|]. split_and!; [|done|done].
  destruct (decide (c < v)%nat); [done|].
  rewrite (Hhigh c s) in Hp by (done || lia). rewrite size_empty in Hp. lia.
Qed.

Definition targetsInv (n m v : nat) (T : list nat) (weights : Fenwick.degreeTree)
    (ns : list (gset nat)) (e : Z) : Prop :=
  baInv n m v ns e ∧ fen (masked T (degrees ns)) weights ∧
  NoDup T ∧ (∀ t, t ∈ T → (t < v)%nat).

Lemma run_chooseTargets n m v weights :
  (m < v)%nat → (v < n)%nat →
  run (on (λ ns e, baInv n m v ns e ∧ fen (degrees ns) weights))
    (chooseTargets ctx m weights)
    (λ '(weights, T), on (λ ns e, targetsInv n m v T weights ns e ∧ length T = m))
    (Ectx ctx).
Proof.
  intros Hm Hv. unfold chooseTargets. eapply (run_conseq _ _ _ _ _ (Ectx ctx)).
  - apply (run_mfor (λ i '(weights, T),
      on (λ ns e, targetsInv n m v T weights ns e ∧ length T = i))).
    intros i [ws T] Hi. cbv beta iota. eapply run_bind; [by apply run_step|]. intros [].
    eapply run_bind.
    { apply run_drawIntn. intros ns e [((Hs & _ & Hg) & Hfen & _) HT].
      eapply masked_total_pos; [exact Hg|by eapply simple_length|lia| |done]. lia. }
    intros ticket. set (c := Z.to_nat (Fenwick.choose ws ticket)).
    eapply run_bind.
    { apply run_degree. intros ns e [[((_ & _ & Hg) & Hfen & _) _] Ht].
      by destruct (choose_fresh n v T ns ws ticket) as (_ & _ & ?). }
    intros d. apply run_ret.
    intros w ([[(HI & Hfen & Hnd & HTv) HTi] Ht] & Hd).
    pose proof HI as (Hs & _ & Hg).
    destruct (choose_fresh n v T (neighbors (bld w)) ws ticket Hg Hfen Ht)
      as (Hcv & HcT & Hcn). fold c in Hcv, HcT, Hcn.
    split; [split_and!|].
    + exact HI.
    + rewrite <- (masked_mask T c d) by done.
      pose proof (fen_add _ _ (Z.of_nat c) (- d) Hfen) as Hadd.
      rewrite Nat2Z.id in Hadd. apply Hadd.
      rewrite length_masked, length_degrees. lia.
    + apply list.NoDup_app. split_and!; [done| |apply list.NoDup_singleton]. set_solver.
    + set_solver.
    + rewrite length_app; simpl. lia.
  - intros w [HI Hfen]. split; [|done]. split_and!; [done|rewrite masked_nil; exact Hfen| |].
    + apply NoDup_nil_2.
    + set_solver.
  - by intros [weights' T] w.
  - done.
Qed.

(** While the targets are linked, [pre] are done and [rest] remain masked. *)
Definition attachInv (n m v : nat) (T pre : list nat) (weights : Fenwick.degreeTree)
    (ns : list (gset nat)) (e : Z) : Prop :=
  ∃ rest, T = pre ++ rest ∧
  simple n ns e ∧ e = Z.of_nat m + Z.of_nat (v - m - 1) * Z.of_nat m + Z.of_nat (length pre) ∧
  (∀ y, adj ns v y ↔ y ∈ pre) ∧
  (∀ i s, (i < v)%nat → ns !! i = Some s → (1 <= size s)%nat) ∧
  (∀ i s, (v < i)%nat → ns !! i = Some s → s = ∅) ∧
  fen (masked (rest ++ [v]) (degrees ns)) weights.

Lemma attachInv_start n m v T weights ns e :
  (v < n)%nat → targetsInv n m v T weights ns e → attachInv n m v T [] weights ns e.
Proof.
  intros Hv ((Hs & He & Hlow & Hhigh) & Hfen & Hnd & HT). exists T.
  assert (ns !! v = Some ∅) as Hempty.
  { destruct (lookup_lt_is_Some_2 ns v) as [s Hsv].
    - by rewrite (simple_length _ _ _ Hs).
    - by rewrite Hsv, (Hhigh v s). }
  split_and!; [done|done|simpl; lia| |done| |].
  - intros y. unfold adj. rewrite Hempty, ex_some. set_solver.
  - intros i s Hi. apply Hhigh. lia.
  - replace (masked (T ++ [v]) (degrees ns)) with (masked T (degrees ns)); [done|].
    apply masked_ext; [done|]. intros i d d' Hd Hd'. simplify_eq.
    destruct (decide (i = v)) as [->|].
    + rewrite lookup_degrees, Hempty in Hd. simpl in Hd. simplify_eq.
      repeat case_decide; done.
    + repeat case_decide; set_solver.
Qed.

(** Linking the next target and giving its new degree back to the tree. *)
Lemma attachInv_link n m v T pre x rest weights ns e :
  (v < n)%nat → T = pre ++ x :: rest → NoDup T → (∀ t, t ∈ T → (t < v)%nat) →
  e < MaxEdges → attachInv n m v T pre weights ns e →
  ¬ adj ns v x ∧
  ∃ s, link ns v x !! x = Some s ∧
    attachInv n m v T (pre ++ [x]) (Fenwick.add weights (Z.of_nat x) (Z.of_nat (size s)))
      (link ns v x) (e + 1).
Proof.
  intros Hv HT Hnd HTv Hmax (rest' & HT' & Hs & He & Hadj & Hlow & Hhigh & Hfen).
  assert (rest' = x :: rest) as -> by (rewrite HT in HT'; by simplify_list_eq).
  assert (x < v)%nat as Hxv by (apply HTv; subst; set_solver).
  assert (x ∉ pre ∧ x ∉ rest) as [Hpre Hrest].
  { subst T. apply list.NoDup_app in Hnd as (_ & Hdisj & Hnd%list.NoDup_cons). set_solver. }
  pose proof (simple_length _ _ _ Hs) as Hlen.
  assert (¬ adj ns v x) as Hno by (by rewrite Hadj).
  assert (¬ adj ns x v) as Hno' by (intros ?; by apply Hno, (simple_sym _ _ _ Hs)).
  split; [done|].
  destruct (lookup_lt_is_Some_2 (link ns v x) x) as [s Hsx];
    [rewrite length_link; lia|].
  exists s. split; [done|]. exists rest. split_and!.
  - by rewrite <- app_assoc.
  - apply simple_link; done || lia.
  - rewrite length_app; simpl. lia.
  - intros y. rewrite adj_link by lia. rewrite Hadj. set_solver by lia.
  - intros i s' Hi Hs'. unfold link in Hs'. destruct (decide (i = x)) as [->|Hix].
    + rewrite list_lookup_alter_eq, list_lookup_alter_ne in Hs' by lia.
      destruct (ns !! x) as [sx|] eqn:Ex; simplify_eq/=. apply Hlow in Ex; [|done].
      etrans; [exact Ex|]. apply subseteq_size. set_solver.
    + rewrite !list_lookup_alter_ne in Hs' by lia. by eapply Hlow.
  - intros i s' Hi. unfold link. rewrite !list_lookup_alter_ne by lia. by apply Hhigh.
  - pose proof (fen_add _ _ (Z.of_nat x) (Z.of_nat (size s)) Hfen) as Hadd.
    rewrite Nat2Z.id, length_masked, length_degrees in Hadd.
    replace (masked (rest ++ [v]) (degrees (link ns v x))) with
      (alter (λ y, y + Z.of_nat (size s)) x (masked ((x :: rest) ++ [v]) (degrees ns)));
      [apply Hadd; lia|].
    replace (masked ((x :: rest) ++ [v]) (degrees ns)) with
      (masked (x :: rest ++ [v]) (degrees (link ns v x))).
    + apply masked_unmask; [by rewrite lookup_degrees, Hsx|set_solver by lia].
    + rewrite degrees_link by (done || lia).
      apply masked_ext; [by rewrite !length_alter|].
      intros i d d'. rewrite !list_lookup_alter.
      repeat case_decide; subst; intros; simplify_eq/=; try done; set_solver.
Qed.

Lemma attachInv_end n m v T weights ns e :
  (m < v)%nat → (v < n)%nat → length T = m → NoDup T → (1 <= m)%nat →
  attachInv n m v T T weights ns e →
  baInv n m (S v) ns e ∧ fen (degrees ns) (Fenwick.add weights (Z.of_nat v) (Z.of_nat m)).
Proof.
  intros Hm Hv HT Hnd Hm1 (rest & HT' & Hs & He & Hadj & Hlow & Hhigh & Hfen).
  assert (rest = []) as -> by (apply (f_equal length) in HT';
    rewrite length_app in HT'; apply length_zero_iff_nil; lia).
  pose proof (simple_length _ _ _ Hs) as Hlen.
  destruct (lookup_lt_is_Some_2 ns v) as [s Hsv]; [lia|].
  assert (size s = m) as Hsize.
  { rewrite <- HT, <- (size_list_to_set (C := gset nat)) by done. f_equal.
    apply set_eq. intros y. rewrite elem_of_list_to_set, <- Hadj.
    unfold adj. by rewrite Hsv, ex_some. }
  split; [split_and!; [done| |split]|].
  - rewrite He, HT. replace (S v - m - 1)%nat with (S (v - m - 1)) by lia. lia.
  - intros i s' Hi Hs'. destruct (decide (i = v)) as [->|].
    + simplify_eq. lia.
    + eapply Hlow; [|done]. lia.
  - intros i s' Hi Hs'. eapply Hhigh; [|done]. lia.
  - pose proof (fen_add _ _ (Z.of_nat v) (Z.of_nat m) Hfen) as Hadd.
    rewrite Nat2Z.id, length_masked, length_degrees in Hadd. simpl in Hadd.
    rewrite (masked_unmask [] v (Z.of_nat m)) in Hadd.
    + rewrite masked_nil in Hadd. apply Hadd. lia.
    + by rewrite lookup_degrees, Hsv, <- Hsize.
    + set_solver.
Qed.

Lemma run_attach n m v weights :
  (1 <= m < v)%nat → (v < n)%nat →
  Z.of_nat m * (Z.of_nat n - Z.of_nat m) ≤ MaxEdges →
  run (on (λ ns e, baInv n m v ns e ∧ fen (degrees ns) weights))
    (attach ctx m v weights)
    (λ weights, on (λ ns e, baInv n m (S v) ns e ∧ fen (degrees ns) weights))
    (Ectx ctx).
Proof.
  intros Hm Hv Hmax. unfold attach.
  eapply run_bind; [apply run_chooseTargets; lia|]. intros [ws T]. cbv beta iota.
  apply (λ H1 H2, run_bind _ _ (λ ws, on (λ ns e,
    attachInv n m v T T ws ns e ∧ NoDup T ∧ length T = m)) _ _ _ H1 H2).
  - intros w [HI HTm]. pose proof HI as (_ & _ & Hnd & HTv). revert w HI.
    enough (run (on (targetsInv n m v T ws))
      (mfold (λ weights target, add v target;; d ← degree target;
         mret (Fenwick.add weights (Z.of_nat target) d)) T ws)
      (λ ws, on (λ ns e, attachInv n m v T T ws ns e ∧ NoDup T ∧ length T = m))
      (Ectx ctx)) as Hrun by exact Hrun.
    eapply run_conseq.
    + apply (run_mfold (λ pre ws, on (attachInv n m v T pre ws))).
      intros pre x rest ws' HT.
      eapply (run_bind _ _ (λ _, on (λ ns e, ∃ s, ns !! x = Some s ∧
        attachInv n m v T (pre ++ [x]) (Fenwick.add ws' (Z.of_nat x) (Z.of_nat (size s))) ns e))).
      * apply run_add_new. intros ns e HI.
        pose proof HI as (rest' & HT' & Hs & He & _).
        pose proof (simple_length _ _ _ Hs).
        assert (x < v)%nat by (apply HTv; subst; set_solver).
        assert (length pre < m)%nat.
        { rewrite <- HTm, HT, length_app. simpl. lia. }
        assert (e < MaxEdges) by nia.
        destruct (attachInv_link n m v T pre x rest ws' ns e) as [? ?]; try done.
        split_and!; done || lia.
      * intros []. eapply run_bind.
        { apply run_degree. intros ns e (s & Hs & _). by apply lookup_lt_Some in Hs. }
        intros d. apply run_ret. intros w [(s & Hs & HI) Hd].
        rewrite lookup_degrees, Hs in Hd. simplify_eq/=. exact HI.
    + intros w HI. by apply attachInv_start.
    + done.
    + done.
  - intros ws'. apply run_ret. intros w (HI & Hnd & HTm).
    apply (attachInv_end n m v T); done || lia.
Qed.

(** ** The initial star and the whole run *)

Definition star (n i : nat) (ns : list (gset nat)) (e : Z) : Prop :=
  simple n ns e ∧ e = Z.of_nat i ∧
  ∀ x y, adj ns x y ↔ (x = 0%nat ∧ 1 <= y <= i)%nat ∨ (y = 0%nat ∧ 1 <= x <= i)%nat.

Lemma star_link n i ns e :
  (S i < n)%nat → e < MaxEdges → star n i ns e →
  ¬ adj ns 0 (S i) ∧ star n (S i) (link ns 0 (S i)) (e + 1).
Proof.
  intros Hi Hmax (Hs & He & Hadj). pose proof (simple_length _ _ _ Hs) as Hlen.
  assert (¬ adj ns 0 (S i)) as Hno by (rewrite Hadj; lia).
  split; [done|]. split_and!.
  - apply simple_link; done || lia.
  - lia.
  - intros x y. rewrite adj_link by lia. rewrite Hadj. lia.
Qed.

Lemma star_grown n m ns e :
  (1 <= m)%nat → star n m ns e → grown n (S m) ns.
Proof.
  intros Hm (Hs & _ & Hadj). split.
  - intros i s Hi His. assert (size s ≠ 0)%nat; [|lia].
    rewrite size_non_empty_iff. set (y := if decide (i = 0)%nat then 1%nat else 0%nat).
    assert (adj ns i y) as (s' & Hs' & Hy); [|set_solver].
    apply Hadj. unfold y. case_decide; lia.
  - intros i s Hi His. apply set_eq. intros y. split; [|set_solver].
    intros Hy. assert (adj ns i y) as Hiy by by exists s.
    apply Hadj in Hiy. lia.
Qed.

(** The degrees of the first [i] nodes, entered one at a time. *)
Lemma masked_seq_next ns (n i : nat) d :
  degrees ns !! i = Some d → (i < n)%nat →
  alter (λ y, y + d) i (masked (seq i (n - i)) (degrees ns)) =
  masked (seq (S i) (n - S i)) (degrees ns).
Proof.
  intros Hd Hi. replace (n - i)%nat with (S (n - S i)) by lia.
  apply masked_unmask; [done|]. rewrite elem_of_seq. lia.
Qed.

Lemma run_barabasiAlbert n (m : nat) :
  (1 <= m < n)%nat → Z.of_nat m * (Z.of_nat n - Z.of_nat m) ≤ MaxEdges →
  run (on (λ ns e, ns = replicate n ∅ ∧ e = 0)) (barabasiAlbert ctx m)
    (λ _, on (λ ns e, simple n ns e ∧ e = Z.of_nat m * (Z.of_nat n - Z.of_nat m)))
    (Ectx ctx).
Proof.
  intros Hm Hmax. unfold barabasiAlbert.
  apply (run_get_length n _ (λ n,
    miter (λ v, step ctx;; add 0 v) (seq 1 m);;
    weights ← mfold (λ weights v,
        d ← degree v; mret (Fenwick.add weights (Z.of_nat v) d))
      (seq 0 (S m)) (Fenwick.make (S n));
    mfold (λ weights v, attach ctx m v weights) (seq (S m) (n - S m)) weights;;
    mret tt)).
  { intros ns e [-> _]. by rewrite length_replicate. }
  eapply (run_bind _ _ (λ _, on (star n m))).
  { eapply run_weaken; [|apply (run_for (λ i, on (star n i)))].
    - intros ns e [-> ->]. split_and!; [apply simple_empty|done|].
      intros x y. split; [|lia]. intros (s & Hs & ?).
      apply lookup_replicate in Hs as [-> _]. set_solver.
    - intros i Hi. eapply run_bind; [by apply run_step|]. intros [].
      apply run_add_new. intros ns e HI. pose proof HI as (Hs & He & _).
      assert (e < MaxEdges) by nia. rewrite (simple_length _ _ _ Hs).
      destruct (star_link n i ns e); [lia|done|done|].
      split_and!; done || lia. }
  intros []. eapply (run_bind _ _ (λ ws, on (λ ns e, star n m ns e ∧
    fen (masked (seq (S m) (n - S m)) (degrees ns)) ws))).
  { eapply run_weaken; [|apply (run_mfor (λ i ws, on (λ ns e, star n m ns e ∧
      fen (masked (seq i (n - i)) (degrees ns)) ws)))].
    - intros ns e HI. split; [done|].
      replace (masked (seq 0 (n - 0)) (degrees ns)) with (replicate n 0); [apply fen_make|].
      pose proof (simple_length _ _ _ (proj1 HI)) as Hlen.
      apply list_eq. intros i. rewrite lookup_masked. destruct (degrees ns !! i) eqn:Hd.
      + apply lookup_lt_Some in Hd. rewrite length_degrees in Hd. simpl.
        rewrite decide_True by (apply elem_of_seq; lia). apply lookup_replicate. lia.
      + apply lookup_ge_None in Hd. rewrite length_degrees in Hd.
        apply lookup_ge_None. rewrite length_replicate. lia.
    - intros i ws Hi. eapply run_bind.
      { apply run_degree. intros ns e [(Hs & _) _]. rewrite (simple_length _ _ _ Hs). lia. }
      intros d. apply run_ret. intros w [[HI Hfen] Hd]. split; [done|].
      rewrite <- (masked_seq_next _ n i d) by (done || lia).
      pose proof (fen_add _ _ (Z.of_nat i) d Hfen) as Hadd.
      rewrite Nat2Z.id, length_masked, length_degrees in Hadd.
      apply Hadd. apply lookup_lt_Some in Hd. rewrite length_degrees in Hd. lia. }
  intros ws. eapply (run_bind _ _ (λ ws, on (λ ns e, baInv n m n ns e ∧
    fen (degrees ns) ws))).
  - eapply run_weaken; [|eapply run_conseq; [|done| |done]].
    2: { apply (run_mfor (λ i ws, on (λ ns e, baInv n m (S m + i) ns e ∧
           fen (degrees ns) ws))).
         intros i ws' Hi. replace (S m + S i)%nat with (S (S m + i)) by lia.
         apply run_attach; lia. }
    + intros ns e [HI Hfen]. pose proof HI as (Hs & He & _).
      rewrite Nat.add_0_r. split; [split_and!|].
      * done.
      * rewrite He. replace (S m - m - 1)%nat with 0%nat by lia. lia.
      * by apply (star_grown n m ns e); [lia|].
      * replace (degrees ns) with (masked (seq (S m) (n - S m)) (degrees ns)); [done|].
        rewrite <- (masked_nil (degrees ns)) at 2.
        apply masked_ext; [done|]. intros i d d' Hd Hd'. simplify_eq.
        destruct (star_grown n m ns _ ltac:(lia) HI) as [_ Hhigh].
        rewrite lookup_degrees in Hd. destruct (ns !! i) eqn:Ei; simplify_eq/=.
        case_decide as Hin; [|done]. apply elem_of_seq in Hin.
        rewrite (Hhigh i _) by (done || lia). by rewrite size_empty.
    + intros ws' w. by replace (S m + (n - S m))%nat with n by lia.
  - intros ws'. apply run_ret. intros w [(Hs & He & _) _]. split; [done|].
    rewrite He. nia.
Qed.
End Attach.
