(* ===== verification/TopologyGenerate.v ===== *)
(** * [Generate] returns a simple graph of the requested model

    Lattices, geometric models and the assembly of the result; the properties
    of the component come last. *)
From Stdlib Require Import ZArith Lia.
From stdpp Require Import base tactics gmap sets list strings sorting.
From S2P Require Import Prelude.
From S2P Require Import GoStd.
From S2P Require Import Topology.
From S2P Require Import TopologyFenwick.
From S2P Require Import TopologyGraph.
From S2P Require Import TopologyModels.
From S2P Require Import TopologyAttach.
Open Scope Z_scope.

(** ** Lattices *)

(** The edges a cell adds, by the coordinates of its index. *)
Definition latticeEdge (rows columns : nat) (triangular : bool) (x y : nat) : Prop :=
  let row := (x / columns)%nat in
  let column := (x mod columns)%nat in
  ((column + 1 < columns ∧ y = x + 1)%nat ∨
   (row + 1 < rows ∧
    (y = x + columns ∨
     (triangular = true ∧
      ((row mod 2 = 1 ∧ column + 1 < columns ∧ y = x + columns + 1) ∨
       (row mod 2 = 0 ∧ 1 <= column ∧ y = x + columns - 1)))))%nat).

Section Lattice.
Context {R : Type} {HRand : Rand R}.
Context (ctx : nat → option string).

(** The graph's adjacency is [D] and it has at most [b] edges. *)
Definition latInv (n : nat) (D : nat → nat → Prop) (b : Z) (ns : list (gset nat)) (e : Z) : Prop :=
  simple n ns e ∧ e ≤ b ∧ ∀ x y, adj ns x y ↔ D x y.

Lemma latInv_weaken n (D D' : nat → nat → Prop) b b' ns e :
  (∀ x y, D x y ↔ D' x y) → b ≤ b' → latInv n D b ns e → latInv n D' b' ns e.
Proof.
  intros HD Hb (Hs & He & Hadj). split_and!; [done|lia|].
  intros x y. by rewrite Hadj, HD.
Qed.

Lemma run_add_lat n D b u v :
  u ≠ v → (u < n)%nat → (v < n)%nat → b < MaxEdges →
  run (on (latInv n D b)) (add u v)
    (λ _, on (latInv n (λ x y, D x y ∨ (x = u ∧ y = v) ∨ (x = v ∧ y = u)) (b + 1)))
    (Ectx (R := R) ctx).
Proof.
  intros Hne Hu Hv Hb. apply run_add.
  - intros ns e (Hs & He & Hadj). pose proof (simple_length _ _ _ Hs) as Hlen.
    split_and!; [done|lia|lia| |].
    + intros Huv. split_and!; [done|lia|]. intros x y. rewrite Hadj.
      pose proof (simple_sym _ _ _ Hs _ _ Huv) as Hvu.
      apply Hadj in Huv, Hvu. naive_solver.
    + intros Huv Hlt. split_and!; [by apply simple_link|lia|].
      intros x y. rewrite adj_link by lia. by rewrite Hadj.
  - intros e w _ ((_ & ? & _) & _ & ?). lia.
Qed.

Lemma run_add_lat_to n D D' b b' u v :
  u ≠ v → (u < n)%nat → (v < n)%nat → b < MaxEdges → b + 1 ≤ b' →
  (∀ x y, D x y ∨ (x = u ∧ y = v) ∨ (x = v ∧ y = u) ↔ D' x y) →
  run (on (R := R) (latInv n D b)) (add u v) (λ _, on (latInv n D' b')) (Ectx ctx).
Proof.
  intros Hne Hu Hv Hb Hb' HD.
  eapply run_conseq; [by apply (run_add_lat n D b)|done| |done].
  intros [] w. by apply latInv_weaken.
Qed.

Lemma run_when (c : bool) (P Q : list (gset nat) → Z → Prop) (m : GoM (world R) unit) E :
  (c = true → run (on P) m (λ _, on Q) E) → (c = false → ∀ ns e, P ns e → Q ns e) →
  run (on P) (if c then m else mret tt) (λ _, on Q) E.
Proof.
  intros Ht Hf. destruct c; [by apply Ht|]. apply run_ret. intros w. by apply Hf.
Qed.

(** What a cell contributes to the adjacency. *)
Definition cellAdj (rows columns : nat) (tri : bool) (D : nat → nat → Prop) (u x y : nat) : Prop :=
  D x y ∨ (x = u ∧ latticeEdge rows columns tri u y) ∨ (y = u ∧ latticeEdge rows columns tri u x).

Lemma cell_coords columns row column :
  (column < columns)%nat →
  ((row * columns + column) / columns = row ∧ (row * columns + column) mod columns = column)%nat.
Proof.
  intros Hc. split.
  - rewrite Nat.div_add_l, Nat.div_small by lia. lia.
  - rewrite Nat.add_comm, Nat.Div0.mod_add. by apply Nat.mod_small.
Qed.

Lemma run_latticeCell n rows columns tri row column D b :
  n = (rows * columns)%nat → (row < rows)%nat → (column < columns)%nat →
  b + 3 ≤ MaxEdges →
  run (on (R := R) (latInv n D b)) (latticeCell rows columns tri row column)
    (λ _, on (latInv n (cellAdj rows columns tri D (row * columns + column)) (b + 3)))
    (Ectx (R := R) ctx).
Proof.
  intros Hn Hrow Hcol Hb. unfold latticeCell, cellAdj, latticeEdge.
  destruct (cell_coords columns row column Hcol) as [-> ->].
  set (u := (row * columns + column)%nat).
  assert (u < n)%nat as Hu by (subst u n; nia).
  set (D1 := λ x y, D x y ∨ ((column + 1 < columns)%nat ∧
    ((x = u ∧ y = u + 1)%nat ∨ (x = u + 1 ∧ y = u)%nat))).
  eapply (run_bind _ _ (λ _, on (R := R) (latInv n D1 (b + 1)))).
  { apply run_when; intros Hc; bool_props.
    - assert (u + 1 < n)%nat by (subst u n; nia).
      apply run_add_lat_to; [lia..|]. unfold D1. intros x y. intuition lia.
    - intros ns e. apply latInv_weaken; [|lia]. unfold D1. intros x y. intuition lia. }
  intros []. apply run_when; intros Hr; bool_props.
  - assert (u + columns < n)%nat by (subst u n; nia).
    eapply run_bind; [apply run_add_lat; lia|]. intros [].
    destruct tri.
    2:{ apply run_ret. intros w. apply latInv_weaken; [|lia].
        unfold D1. intros x y. intuition lia. }
    assert (row mod 2 = 0 ∨ row mod 2 = 1)%nat as Hpar.
    { pose proof (Nat.mod_upper_bound row 2). lia. }
    apply run_when; intros Hnext.
    + case_bool_decide as Hodd; apply andb_true_iff in Hnext as [H1 H2]; bool_props.
      * replace ((row + 1) * columns + Z.to_nat (Z.of_nat column + 1))%nat
          with (u + columns + 1)%nat by (subst u; nia).
        assert (u + columns + 1 < n)%nat by (subst u n; nia).
        apply run_add_lat_to; [lia..|]. unfold D1. intros x y.
        intuition lia.
      * replace ((row + 1) * columns + Z.to_nat (Z.of_nat column - 1))%nat
          with (u + columns - 1)%nat by (subst u; nia).
        assert (u + columns - 1 < n)%nat by (subst u n; nia).
        apply run_add_lat_to; [lia..|]. unfold D1. intros x y.
        intuition lia.
    + intros ns e. apply latInv_weaken; [|lia]. unfold D1. intros x y.
      case_bool_decide as Hodd; apply andb_false_iff in Hnext as [H1|H1]; bool_props;
        intuition lia.
  - intros ns e. apply latInv_weaken; [|lia]. unfold D1. intros x y. intuition lia.
Qed.

(** The adjacency once the cells below [k] are done. *)
Definition cellsBelow (rows columns : nat) (tri : bool) (k x y : nat) : Prop :=
  ((x < k)%nat ∧ latticeEdge rows columns tri x y) ∨
  ((y < k)%nat ∧ latticeEdge rows columns tri y x).

Lemma run_lattice n rows columns tri :
  n = (rows * columns)%nat → 3 * Z.of_nat n ≤ MaxEdges →
  run (on (λ ns e, ns = replicate n ∅ ∧ e = 0)) (lattice ctx rows columns tri)
    (λ ps, on (λ ns e, latInv n (cellsBelow rows columns tri n) (3 * Z.of_nat n) ns e
                       ∧ length ps = n))
    (Ectx (R := R) ctx).
Proof.
  intros Hn Hmax. unfold lattice.
  apply (run_get_length n _ (λ n, mfold (λ positions row,
    mfold (λ positions column,
      step ctx;;
      let u := (row * columns + column)%nat in
      _ ← lift_res (deref (positions !! u));
      latticeCell rows columns tri row column;;
      mret (<[u := latticePosition row column tri]> positions))
      (seq 0 columns) positions)
    (seq 0 rows) (replicate n {| X := F64.zero; Y := F64.zero |}))).
  { intros ns e [-> _]. by rewrite length_replicate. }
  set (I := λ k (ps : list Position), on (R := R) (λ ns e,
    latInv n (cellsBelow rows columns tri k) (3 * Z.of_nat k) ns e ∧ length ps = n)).
  eapply (run_conseq (I 0%nat (replicate n {| X := F64.zero; Y := F64.zero |})) _ _
    (I (rows * columns)%nat) _ (Ectx ctx)).
  - change (0%nat) with (0 * columns)%nat at 1.
    apply (run_mfor (λ row, I (row * columns)%nat)). intros row ps Hrow.
    rewrite Nat.add_0_l.
    replace (S row * columns)%nat with (row * columns + columns)%nat by lia.
    replace (row * columns)%nat with (row * columns + 0)%nat at 1 by lia.
    apply (run_mfor (λ column, I (row * columns + column)%nat)).
    intros column ps' Hcol. rewrite Nat.add_0_l. set (u := (row * columns + column)%nat).
    assert (u < n)%nat by (subst u n; nia).
    eapply run_bind; [by apply run_step|]. intros [].
    intros w [HI Hps]. destruct (lookup_lt_is_Some_2 ps' u) as [p Hp]; [lia|].
    unfold lift_res, mbind, gom_bind; rewrite Hp; simpl.
    assert (run (on (R := R) (latInv n (cellsBelow rows columns tri u) (3 * Z.of_nat u)))
      (latticeCell rows columns tri row column)
      (λ _, on (latInv n (cellsBelow rows columns tri (S u)) (3 * Z.of_nat (S u))))
      (Ectx ctx)) as Hcell.
    { eapply run_conseq.
      { apply (run_latticeCell n rows columns tri row column
          (cellsBelow rows columns tri u) (3 * Z.of_nat u)); done || lia. }
      1: done. 2: done.
      intros [] w'. apply latInv_weaken; [|lia]. intros x y.
      unfold cellAdj, cellsBelow. fold u. split.
      - intros [[[]|[]]|[[-> ?]|[-> ?]]]; [left|right|left|right]; split; done || lia.
      - intros [[Hx ?]|[Hy ?]].
        + destruct (decide (x = u)) as [->|]; [right; by left|].
          left. left. split; [lia|done].
        + destruct (decide (y = u)) as [->|]; [right; by right|].
          left. right. split; [lia|done]. }
    specialize (Hcell w HI). destruct (latticeCell _ _ _ _ _ w) as [[[]|e|] w'];
      [|done..]. simpl. replace (row * columns + S column)%nat with (S u) by lia.
    split; [done|]. by rewrite length_insert.
  - intros w [Hns He]. unfold I, on. rewrite Hns, He. split; [|by rewrite length_replicate].
    split_and!; [apply simple_empty|done|]. intros x y. unfold cellsBelow.
    split; [|lia]. intros (s & Hs & ?). apply lookup_replicate in Hs as [-> _]. set_solver.
  - intros ps w. by rewrite <- Hn.
  - done.
Qed.
End Lattice.

(** ** The result *)
Section Result.
Context {R : Type} {HRand : Rand R} {HR : RandOk R}.
Context (ctx : nat → option string) (math_Exp : float → float).

Lemma run_collect (Φ : list (gset nat) → Z → Prop) :
  run (on (R := R) Φ) (collect ctx)
    (λ ls, on (λ ns e, Φ ns e ∧ ls = map sortedElements ns)) (Ectx ctx).
Proof.
  unfold collect. apply run_get_on. intros w Hw w' ->.
  assert (run (on (λ ns e, ns = neighbors (bld w) ∧ e = edges (bld w)))
    (mfold (λ ls s, ctxErr (R := R) ctx;; mret (ls ++ [sortedElements s])) (neighbors (bld w)) [])
    (λ ls, on (λ ns e, Φ ns e ∧ ls = map sortedElements ns)) (Ectx ctx)) as Hrun;
    [|by apply Hrun].
  eapply (run_conseq _ _ _ _ _ (Ectx ctx)).
  - apply (run_mfold (λ pre ls, on (λ ns e, (ns = neighbors (bld w) ∧ e = edges (bld w)) ∧
      ls = map sortedElements pre))).
    intros pre s post ls Hl. eapply run_bind; [by apply (run_ctxErr ctx)|].
    intros []. apply run_ret. intros w2 [Hw2 ->]. split; [done|]. by rewrite map_app.
  - intros w2 H2. by split.
  - intros ls w2 [[Hn He] ->]. unfold on. rewrite Hn, He. done.
  - done.
Qed.

Lemma run_distanceOf n ps u v (E : string → world R → Prop) :
  length ps = n → (u < n)%nat → (v < n)%nat →
  run (on (simple n)) (distanceOf ps u v) (λ _, on (simple n)) E.
Proof.
  intros Hps Hu Hv. unfold distanceOf.
  destruct (lookup_lt_is_Some_2 ps u) as [pu Hpu]; [lia|].
  destruct (lookup_lt_is_Some_2 ps v) as [pv Hpv]; [lia|].
  rewrite Hpu, Hpv. by intros w Hw.
Qed.

Lemma run_drawPositions Φ n :
  run (on (R := R) Φ) (drawPositions n) (λ ps, on (λ ns e, Φ ns e ∧ length ps = n)) (Elimit ctx).
Proof.
  unfold drawPositions. eapply (run_conseq _ _ _ _ _ (Elimit ctx)).
  - apply (run_mfor (λ i ps, on (λ ns e, Φ ns e ∧ length ps = i))). intros i ps Hi.
    eapply run_bind; [apply run_drawFloat64|]. intros x.
    eapply run_bind; [apply run_drawFloat64|]. intros y.
    apply run_ret. intros w [Hw Hl]. split; [done|]. rewrite length_app. simpl. lia.
  - intros w Hw. by split.
  - done.
  - done.
Qed.

End Result.

(** The edge count a model promises, and the models that may hit the limit. *)
Definition plan (c : TopologyConfig) (n : nat) (e : Z) : Prop :=
  match Model c with
  | "ws" => ∃ k, K c = Some k ∧ e = Z.of_nat n * k / 2
  | "ba" => ∃ m, M c = Some m ∧ e = m * (Z.of_nat n - m)
  | _ => True
  end%string.

Definition unplanned (model : string) : Prop :=
  model = "er"%string ∨ model = "rgg"%string ∨ model = "waxman"%string.

Definition latticeAdj (c : TopologyConfig) (ns : list (gset nat)) : Prop :=
  ∀ rows columns, (Model c = "grid" ∨ Model c = "triangular")%string →
    Rows c = Some rows → Columns c = Some columns →
    ∀ x y, adj ns x y ↔
      cellsBelow (Z.to_nat rows) (Z.to_nat columns) (String.eqb (Model c) "triangular")
        (length ns) x y.

(** What [Validate] establishes for the model at hand. *)
Inductive validFor (c : TopologyConfig) (n : nat) : Prop :=
  | valid_er p : Model c = "er"%string → P c = Some p → validFor c n
  | valid_ws p k : Model c = "ws"%string → P c = Some p → K c = Some k →
      2 ≤ k < Z.of_nat n → Z.rem k 2 = 0 → Z.of_nat n * k / 2 ≤ MaxEdges → validFor c n
  | valid_ba m : Model c = "ba"%string → M c = Some m →
      1 ≤ m < Z.of_nat n → m * (Z.of_nat n - m) ≤ MaxEdges → validFor c n
  | valid_rgg r : Model c = "rgg"%string → Radius c = Some r → validFor c n
  | valid_waxman a b : Model c = "waxman"%string → Alpha c = Some a → Beta c = Some b →
      validFor c n
  | valid_lattice rows columns : Model c = "grid"%string ∨ Model c = "triangular"%string →
      Rows c = Some rows → Columns c = Some columns → 1 ≤ rows → 1 ≤ columns →
      Z.of_nat n = rows * columns → Z.of_nat n ≤ MaxNodes → validFor c n.

Lemma checkFields_ok allowed fields u :
  checkFields allowed fields = Ok u →
  ∀ name present, (name, present) ∈ fields → present = bool_decide (name ∈ allowed).
Proof.
  induction fields as [|[nm pr] fields IH]; intros H name present Hin; [set_solver|].
  cbn [checkFields] in H. rewrite !fail_if_seq_ok in H. destruct H as (H1 & H2 & H).
  apply elem_of_cons in Hin as [[= -> ->]|Hin]; [|by eapply IH].
  destruct pr, (bool_decide (nm ∈ allowed)); done.
Qed.

Lemma presentFields_all c :
  ("p", bool_decide (is_Some (P c)))%string ∈ presentFields c ∧
  ("k", bool_decide (is_Some (K c)))%string ∈ presentFields c ∧
  ("m", bool_decide (is_Some (M c)))%string ∈ presentFields c ∧
  ("radius", bool_decide (is_Some (Radius c)))%string ∈ presentFields c ∧
  ("alpha", bool_decide (is_Some (Alpha c)))%string ∈ presentFields c ∧
  ("beta", bool_decide (is_Some (Beta c)))%string ∈ presentFields c ∧
  ("rows", bool_decide (is_Some (Rows c)))%string ∈ presentFields c ∧
  ("columns", bool_decide (is_Some (Columns c)))%string ∈ presentFields c.
Proof. unfold presentFields. split_and!; rewrite !elem_of_cons; tauto. Qed.

Lemma present_some {A} (o : option A) b : bool_decide (is_Some o) = b →
  if b then ∃ a, o = Some a else o = None.
Proof. intros <-. destruct o; simpl; eauto. Qed.

(** Every required field is present once the field check has passed. *)
Lemma allowed_present c allowed u :
  checkFields allowed (presentFields c) = Ok u →
  (if bool_decide ("p"%string ∈ allowed) then ∃ a, P c = Some a else P c = None) ∧
  (if bool_decide ("k"%string ∈ allowed) then ∃ a, K c = Some a else K c = None) ∧
  (if bool_decide ("m"%string ∈ allowed) then ∃ a, M c = Some a else M c = None) ∧
  (if bool_decide ("radius"%string ∈ allowed) then ∃ a, Radius c = Some a else Radius c = None) ∧
  (if bool_decide ("alpha"%string ∈ allowed) then ∃ a, Alpha c = Some a else Alpha c = None) ∧
  (if bool_decide ("beta"%string ∈ allowed) then ∃ a, Beta c = Some a else Beta c = None) ∧
  (if bool_decide ("rows"%string ∈ allowed) then ∃ a, Rows c = Some a else Rows c = None) ∧
  (if bool_decide ("columns"%string ∈ allowed) then ∃ a, Columns c = Some a else Columns c = None).
Proof.
  intros H. pose proof (presentFields_all c) as (?&?&?&?&?&?&?&?).
  split_and!; apply present_some; by eapply checkFields_ok.
Qed.

Lemma allowedFields_cases model allowed :
  allowedFields model = Some allowed →
  (model = "er" ∧ allowed = ["p"]) ∨ (model = "ws" ∧ allowed = ["p"; "k"]) ∨
  (model = "ba" ∧ allowed = ["m"]) ∨ (model = "rgg" ∧ allowed = ["radius"]) ∨
  (model = "waxman" ∧ allowed = ["alpha"; "beta"]) ∨
  ((model = "grid" ∨ model = "triangular") ∧ allowed = ["rows"; "columns"])%string.
Proof.
  unfold allowedFields.
  repeat (match goal with
    | |- context [String.eqb model ?s] =>
        destruct (String.eqb_spec model s); simpl; [intros [= <-]; subst; auto 10|]
    end).
  done.
Qed.

Lemma Validate_valid c n u :
  Validate c (Z.of_nat n) = Ok u → (1 <= n)%nat → validFor c n.
Proof.
  intros H Hn. unfold Validate in H. rewrite fail_if_seq_ok in H.
  destruct H as [Hrange H]. bool_props.
  destruct (allowedFields (Model c)) as [allowed|] eqn:Hall; [|done].
  apply bind_ok in H as ([] & Hfields & H).
  rewrite !fail_if_seq_ok in H. destruct H as (HP & HK & HM & HR' & HA & HB & H).
  apply bind_ok in H as ([] & Hgrid & H). apply bind_ok in H as (planned & Hplan & H).
  apply fail_if_ok in H. bool_props.
  assert ((0 <? Z.of_nat n) = true) as Hpos by (apply Z.ltb_lt; lia).
  unfold plannedEdges in Hplan. rewrite Hpos in *. simpl andb in *.
  unfold MaxTopologyNodes, MaxTopologyEdges in *.
  pose proof (allowed_present _ _ _ Hfields) as Hp. clear Hfields.
  apply allowedFields_cases in Hall as
    [[Hm ->]|[[Hm ->]|[[Hm ->]|[[Hm ->]|[[Hm ->]|[Hm ->]]]]]];
    vm_compute bool_decide in Hp; cbn in Hp; destruct Hp as (Hp1&Hp2&Hp3&Hp4&Hp5&Hp6&Hp7&Hp8).
  - destruct Hp1 as [p Hp1]. by eapply valid_er.
  - destruct Hp1 as [p Hp1], Hp2 as [k Hk]. rewrite Hm, Hk in *. simpl in *. bool_props.
    assert (0 ≤ Z.of_nat n * k ≤ 10000 * 10000) by nia.
    rewrite i64_id in Hplan by lia. injection Hplan as <-.
    rewrite Z.quot_div_nonneg in * by lia.
    eapply valid_ws; [done|done|done|lia|done|]. unfold MaxEdges, MaxTopologyEdges. lia.
  - destruct Hp3 as [m Hk]. rewrite Hm, Hk in *. simpl in *. bool_props.
    assert (0 ≤ m * (Z.of_nat n - m) ≤ 10000 * 10000) by nia.
    rewrite (i64_id (Z.of_nat n - m)), i64_id in Hplan by lia. injection Hplan as <-.
    eapply valid_ba; [done|done|lia|]. unfold MaxEdges, MaxTopologyEdges. lia.
  - destruct Hp4 as [r Hr]. by eapply valid_rgg.
  - destruct Hp5 as [a Ha], Hp6 as [b Hb]. by eapply valid_waxman.
  - destruct Hp7 as [r Hr], Hp8 as [k Hk]. unfold checkGrid in Hgrid.
    rewrite Hr, Hk in Hgrid. cbn [deref mbind res_bind] in Hgrid.
    rewrite fail_if_seq_ok, Hpos in Hgrid.
    destruct Hgrid as [Hb Heq%fail_if_ok]. unfold MaxTopologyNodes in *. bool_props.
    simpl andb in Heq. bool_props.
    assert (r * k ≤ 10000).
    { pose proof (Z.mul_div_le 10000 k). nia. }
    assert (0 ≤ r * k) by nia. rewrite i64_id in Heq by lia.
    eapply valid_lattice; [done|done|done|lia..|]. unfold MaxNodes, MaxTopologyNodes. lia.
Qed.

Definition fresh (n : nat) (ns : list (gset nat)) (e : Z) : Prop :=
  ns = replicate n ∅ ∧ e = 0.

Lemma fresh_simple n ns e : fresh n ns e → simple n ns e.
Proof. intros [-> ->]. apply simple_empty. Qed.

(** ** From the builder's sets to the returned lists *)

Lemma elem_of_sortedElements s v : v ∈ sortedElements s ↔ v ∈ s.
Proof.
  unfold sortedElements. rewrite (merge_sort_Permutation (≤)%nat).
  apply elem_of_elements.
Qed.

Lemma length_sortedElements s : length (sortedElements s) = size s.
Proof. unfold sortedElements. by rewrite (merge_sort_Permutation (≤)%nat). Qed.

Lemma sortedElements_sorted s : StronglySorted lt (sortedElements s).
Proof.
  assert (StronglySorted le (sortedElements s)) as Hle.
  { apply (StronglySorted_merge_sort _). }
  assert (NoDup (sortedElements s)) as Hnd.
  { unfold sortedElements. rewrite (merge_sort_Permutation (≤)%nat). apply NoDup_elements. }
  induction Hle as [|a l Hl IH Ha]; [constructor|].
  apply list.NoDup_cons in Hnd as [Hal Hnd]. constructor; [by apply IH|].
  apply list.Forall_forall. intros x Hx. apply list.Forall_forall with (x := x) in Ha; [|done].
  assert (a ≠ x) by (by intros ->). lia.
Qed.

Lemma EdgeCount_degrees ns ps e :
  2 * e = sumZ (degrees ns) →
  EdgeCount {| Neighbors := map sortedElements ns; Positions := ps |} = e.
Proof.
  intros He. unfold EdgeCount; simpl.
  assert (∀ a, foldl (λ count l, count + Z.of_nat (length l)) a (map sortedElements ns) =
    a + sumZ (degrees ns)) as ->.
  { clear. induction ns as [|s ns IH]; intros a; simpl; [lia|].
    rewrite IH, length_sortedElements. lia. }
  rewrite Z.add_0_l, <- He, Z.mul_comm. by apply Z.quot_mul.
Qed.

Section Build.
Context {R : Type} {HRand : Rand R} {HR : RandOk R}.
Context (ctx : nat → option string) (math_Exp : float → float).

(** The errors left to a validated model. *)
Definition Ebuild (c : TopologyConfig) (e : string) (_ : world R) : Prop :=
  ctxError ctx e ∨ (limitError e ∧ unplanned (Model c)).

Definition built (c : TopologyConfig) (n : nat) (ns : list (gset nat)) (e : Z) : Prop :=
  simple n ns e ∧ plan c n e ∧ latticeAdj c ns.

Lemma run_build_pairs c n (ps : list Position) Φ (include : nat → nat → GoM (world R) bool) :
  unplanned (Model c) → (∀ ns e, Φ ns e → simple n ns e) →
  (∀ u v, (u < n)%nat → (v < n)%nat →
     run (on (simple n)) (include u v) (λ _, on (simple n)) (Elimit ctx)) →
  run (on Φ) (pairs ctx include;; mret ps) (λ _, on (built c n)) (Ebuild c).
Proof.
  intros Hun HΦ Hinc.
  apply (run_conseq (on (simple n)) _ _ (λ _, on (simple n)) _ (Elimit ctx) _).
  - eapply run_bind; [by apply (run_pairs ctx)|]. intros []. by apply run_ret.
  - intros w. apply HΦ.
  - intros ps' w Hs. split; [done|]. unfold plan, latticeAdj.
    destruct Hun as [-> | [-> | ->]]; split; naive_solver.
  - intros e w [?|?]; [by left|right; done].
Qed.

Lemma run_include_distance n ps u v (f : float → bool) :
  length ps = n → (u < n)%nat → (v < n)%nat →
  run (on (R := R) (simple n)) (d ← distanceOf ps u v; mret (f d)) (λ _, on (simple n)) (Elimit ctx).
Proof.
  intros. eapply run_bind; [by apply run_distanceOf|]. intros d. by apply run_ret.
Qed.

Lemma run_pure {A} Φ (φ : Prop) (m : GoM (world R) A) Q E :
  (φ → run (on Φ) m Q E) → run (on (λ ns e, Φ ns e ∧ φ)) m Q E.
Proof. intros Hm w [Hw Hφ]. by apply Hm. Qed.

Lemma run_build c n :
  validFor c n → run (on (fresh n)) (build ctx math_Exp c n) (λ _, on (built c n)) (Ebuild c).
Proof.
  intros Hv. unfold build. destruct Hv as
    [p Hm HP|p k Hm HP HK Hk Hrem Hmax|m Hm HM Hr Hmax|r Hm Hr|a b Hm HA HB
    |rows columns Hm Hr Hc Hr1 Hc1 Hn Hmax].
  - rewrite Hm, HP. simpl. apply run_lift_ok. apply (run_build_pairs c n).
    + by left.
    + apply fresh_simple.
    + intros u v _ _. eapply run_bind; [apply run_drawFloat64|]. intros x. by apply run_ret.
  - rewrite Hm, HP, HK. simpl. do 2 apply run_lift_ok.
    eapply (run_conseq _ _ _ _ _ (Ectx ctx)); 
      [by apply run_seq_ret, (run_wattsStrogatz ctx n k p)| | |].
    + done.
    + intros ps w [Hs He]. split; [done|]. unfold plan, latticeAdj. rewrite Hm.
      split; [by exists k|naive_solver].
    + intros e w ?. by left.
  - rewrite Hm, HM. simpl. apply run_lift_ok.
    eapply (run_conseq _ _ _ _ _ (Ectx ctx));
      [apply run_seq_ret, (run_barabasiAlbert ctx n (Z.to_nat m)); lia| | |].
    + done.
    + intros ps w [Hs He]. split; [done|]. unfold plan, latticeAdj. rewrite Hm.
      split; [exists m; split; [done|lia]|naive_solver].
    + intros e w ?. by left.
  - rewrite Hm, Hr. simpl. eapply run_bind.
    { eapply run_conseq; [apply (run_drawPositions ctx (fresh n))|done|done|].
      intros e w [?|?]; [by left|right; split; [done|]]. rewrite Hm. right; by left. }
    intros ps. apply run_pure. intros Hps. apply run_lift_ok. apply (run_build_pairs c n); [right; by left|apply fresh_simple|].
    intros u v Hu Hv. by apply run_include_distance.
  - rewrite Hm, HA, HB. simpl. eapply run_bind.
    { eapply run_conseq; [apply (run_drawPositions ctx (fresh n))|done|done|].
      intros e w [?|?]; [by left|right; split; [done|]]. rewrite Hm. right; by right. }
    intros ps. apply run_pure. intros Hps. do 2 apply run_lift_ok. unfold waxman. apply run_bind_assoc.
    eapply (run_bind _ _ (λ _, on (simple n))).
    + eapply run_conseq; [apply (run_pairs ctx n)| | |].
      * intros u v Hu Hv. eapply run_bind; [by apply (run_distanceOf n)|]. intros d.
        eapply (run_bind _ _ (λ _, on (simple n))); [by apply run_modify|]. intros [].
        by apply run_ret.
      * intros w. apply fresh_simple.
      * done.
      * intros e w [?|?]; [by left|right; split; [done|]]. rewrite Hm. right; by right.
    + intros []. apply (run_build_pairs c n); [right; by right|done|].
      intros u v Hu Hv. apply run_get_on. intros w Hw.
      apply (run_conseq (on (simple n)) _ _ (λ _, on (simple n)) _ (Elimit ctx) _);
        [|by intros ? ->|done|done].
      eapply run_bind; [by apply (run_distanceOf n)|]. intros d.
      eapply run_bind; [apply run_drawFloat64|]. intros x. by apply run_ret.
  - rewrite Hr, Hc. simpl.
    assert (String.eqb (Model c) "er" = false ∧ String.eqb (Model c) "ws" = false ∧
      String.eqb (Model c) "ba" = false ∧ String.eqb (Model c) "rgg" = false ∧
      String.eqb (Model c) "waxman" = false ∧
      (String.eqb (Model c) "grid" || String.eqb (Model c) "triangular") = true)
      as (-> & -> & -> & -> & -> & ->) by by destruct Hm as [-> | ->].
    do 2 apply run_lift_ok.
    eapply run_conseq; [apply (run_lattice ctx n); [nia|unfold MaxEdges, MaxTopologyEdges, MaxNodes, MaxTopologyNodes in *; lia]| | |].
    + done.
    + intros ps w [(Hs & _ & Hadj) _]. split; [done|]. unfold plan, latticeAdj.
      split; [by destruct Hm as [-> | ->]|].
      intros r2 c2 _ Hr2 Hc2 x y. simplify_eq. rewrite Hadj.
      by rewrite (simple_length _ _ _ Hs).
    + intros e w ?. by left.
Qed.

(** The outcome of [Generate] on a validated configuration. *)
Lemma Generate_outcome c n seed :
  match Generate ctx math_Exp c n seed with
  | Ok g => ∃ ns e, built c n ns e ∧ Neighbors g = map sortedElements ns ∧ EdgeCount g = e
  | Err e => ctxError ctx e ∨ n = 0%nat ∨ (∃ e', Validate c (Z.of_nat n) = Err e') ∨
             (limitError e ∧ unplanned (Model c))
  | Panic => Validate c (Z.of_nat n) = Panic
  end.
Proof.
  unfold Generate. destruct (ctx 0%nat) as [e|] eqn:Hctx.
  { left. by exists 0%nat. }
  case_bool_decide; [by right; left|].
  destruct (Validate c (Z.of_nat n)) as [u|e|] eqn:HV; simpl; [|by eauto|done].
  apply Validate_valid in HV; [|lia].
  set (w0 := {| bld := _; rng := _; longest := _ |}).
  assert (run (on (fresh n)) (GenerateM ctx math_Exp c n)
    (λ g _, ∃ ns e, built c n ns e ∧ Neighbors g = map sortedElements ns ∧ EdgeCount g = e)
    (Ebuild c)) as Hrun.
  { unfold GenerateM. eapply run_bind; [by apply run_build|]. intros ps.
    eapply run_bind.
    { eapply run_conseq; [apply (run_collect ctx)|done|done|]. intros e w ?. by left. }
    intros ls. apply run_ret. intros w [HB ->].
    exists (neighbors (bld w)), (edges (bld w)). split_and!; [done..|].
    apply EdgeCount_degrees. by destruct HB as [[] _]. }
  specialize (Hrun w0 (conj eq_refl eq_refl)).
  destruct (GenerateM ctx math_Exp c n w0) as [[g|e|] w']; simpl; [done| |done].
  destruct Hrun; [by left|by do 3 right].
Qed.
End Build.
