(* ===== verification/TopologyProps.v ===== *)
(** * Properties of the topology generator

    The theorems the generator is relied on for, over any random source that
    keeps [rand.Intn] in range and any context. *)
From Stdlib Require Import ZArith Lia Floats.SpecFloat.
From stdpp Require Import base tactics gmap sets list strings sorting.
From S2P Require Import Prelude.
From S2P Require Import GoStd.
From S2P Require Import Topology.
From S2P Require Import TopologyFenwick.
From S2P Require Import TopologyGraph.
From S2P Require Import TopologyModels.
From S2P Require Import TopologyAttach.
From S2P Require Import TopologyGenerate.
Open Scope Z_scope.

(** ** Vocabulary *)

Definition linked (g : Graph) (u v : nat) : Prop :=
  ∃ l, Neighbors g !! u = Some l ∧ v ∈ l.

(** A returned graph: every neighbour list ascending, every edge in both lists,
    no loop, nothing out of range, and the edge limit kept. *)
Record simpleGraph (n : nat) (g : Graph) : Prop := {
  sg_length : length (Neighbors g) = n;
  sg_sorted : ∀ u l, Neighbors g !! u = Some l → StronglySorted lt l;
  sg_sym : ∀ u v, linked g u v → linked g v u;
  sg_irrefl : ∀ u, ¬ linked g u u;
  sg_range : ∀ u v, linked g u v → (u < n ∧ v < n)%nat;
  sg_max : EdgeCount g ≤ MaxEdges;
}.

Lemma linked_adj g ns u v :
  Neighbors g = map sortedElements ns → linked g u v ↔ adj ns u v.
Proof.
  intros Hg. unfold linked, adj. rewrite Hg, list_lookup_fmap.
  destruct (ns !! u) as [s|]; simpl; [|naive_solver].
  rewrite !ex_some. apply elem_of_sortedElements.
Qed.

Lemma Validate_no_panic c n : Validate c n ≠ Panic.
Proof.
  assert (∀ cond e (k : res unit), k ≠ Panic → (fail_if cond e;; k) ≠ Panic) as Hf.
  { intros [] e k; [done|]. by intros Hk. }
  assert (∀ allowed fields, checkFields allowed fields ≠ Panic) as Hc.
  { intros allowed fields. induction fields as [|[]]; [done|]. cbn [checkFields].
    by do 2 apply Hf. }
  unfold Validate. apply Hf.
  destruct (allowedFields (Model c)) as [allowed|] eqn:Hall; [|done].
  destruct (checkFields allowed (presentFields c)) as [u|e|] eqn:Hfields;
    [|done|by apply Hc in Hfields]. cbn [mbind res_bind]. do 6 apply Hf.
  pose proof (allowed_present _ _ _ Hfields) as Hp. clear Hfields.
  assert (∃ r, checkGrid c n = r ∧ r ≠ Panic) as (r & -> & Hr).
  { eexists. split; [done|]. unfold checkGrid. destruct (Rows c) eqn:Hrows; [|done].
    apply allowedFields_cases in Hall as
      [[Hm ->]|[[Hm ->]|[[Hm ->]|[[Hm ->]|[[Hm ->]|[Hm ->]]]]]];
      vm_compute bool_decide in Hp; cbn in Hp; destruct Hp as (?&?&?&?&?&?&?&Hcol);
      try congruence. destruct Hcol as [k ->]. cbn [deref mbind res_bind].
    repeat (apply Hf || case_match); by destruct (_ && _). }
  assert (∃ r, plannedEdges c n = r ∧ r ≠ Panic) as (r2 & -> & Hr2).
  { eexists. split; [done|]. unfold plannedEdges. destruct (0 <? n); [|done].
    apply allowedFields_cases in Hall as
      [[Hm ->]|[[Hm ->]|[[Hm ->]|[[Hm ->]|[[Hm ->]|[[Hm|Hm] ->]]]]]];
      vm_compute bool_decide in Hp; cbn in Hp; destruct Hp as (HP1&HP2&HP3&HP4&HP5&HP6&HP7&HP8);
      rewrite Hm; simpl; try done.
    - by destruct HP1 as [? ->].
    - by destruct HP2 as [? ->].
    - by destruct HP3 as [? ->].
    - by destruct HP4 as [? ->]. }
  destruct r, r2; simpl; try done. by destruct (_ <? _).
Qed.

(** A source for the examples: a linear congruential generator. *)
#[export] Instance lcg : Rand Z := {
  NewSource seed := Z.modulo seed (2^31);
  Float64 r := (F64.div (F64.of_Z r) (F64.of_Z (2^31)), Z.modulo (1103515245 * r + 12345) (2^31));
  Intn n r := (Z.modulo (Z.div r 65536) n, Z.modulo (1103515245 * r + 12345) (2^31));
}.

#[export] Instance lcg_ok : RandOk Z.
Proof. intros n r Hn. simpl. by apply Z.mod_pos_bound. Qed.

Definition background : nat → option string := λ _, None.

Definition wsConfig : TopologyConfig :=
  {| Model := "ws"; Seed := Some 7; P := Some (F64.div F64.one (F64.of_Z 2)); K := Some 4;
     M := None; Radius := None; Alpha := None; Beta := None; Rows := None; Columns := None |}.
Definition baConfig : TopologyConfig :=
  {| Model := "ba"; Seed := None; P := None; K := None;
     M := Some 2; Radius := None; Alpha := None; Beta := None; Rows := None; Columns := None |}.
Definition gridConfig : TopologyConfig :=
  {| Model := "grid"; Seed := None; P := None; K := None;
     M := None; Radius := None; Alpha := None; Beta := None; Rows := Some 2; Columns := Some 3 |}.

(** ** Generated graphs *)

(** C31: whatever the model, the random source and the context, a graph that
    [Generate] returns is simple and undirected on exactly [n] nodes, with
    ascending neighbour lists and no more than [MaxEdges] edges. *)
Theorem Generate_simple {R} `{RandOk R} ctx math_Exp c n seed g :
  Generate (R := R) ctx math_Exp c n seed = Ok g → simpleGraph n g.
Proof.
  intros Hg. pose proof (Generate_outcome ctx math_Exp c n seed) as Ho. rewrite Hg in Ho.
  destruct Ho as (ns & e & (Hs & _ & _) & Hns & He).
  assert (∀ u v, linked g u v ↔ adj ns u v) as Hl by (intros; by apply linked_adj).
  split.
  - by rewrite Hns, length_map, (simple_length _ _ _ Hs).
  - intros u l Hu. rewrite Hns, list_lookup_fmap in Hu.
    destruct (ns !! u); simplify_eq/=. apply sortedElements_sorted.
  - intros u v. rewrite !Hl. apply (simple_sym _ _ _ Hs).
  - intros u. rewrite Hl. apply (simple_irrefl _ _ _ Hs).
  - intros u v. rewrite Hl. intros Huv. rewrite <- (simple_length _ _ _ Hs).
    split; eapply adj_lt; [done|]. by apply (simple_sym _ _ _ Hs).
  - rewrite He. apply (simple_max _ _ _ Hs).
Qed.

Lemma Generate_simple_witness :
  ∃ g, Generate (R := Z) background F64.abs wsConfig 7 1 = Ok g ∧ simpleGraph 7 g.
Proof.
  eexists. split; [vm_compute; reflexivity|].
  apply (Generate_simple (R := Z) background F64.abs wsConfig 7 1). vm_compute. reflexivity.
Defined.

(** Watts-Strogatz rewiring preserves the edge count of the ring, [n * k / 2],
    and Barabasi-Albert attachment adds exactly [m] edges per later node,
    [m * (n - m)] in all - for every seed. *)
Theorem Generate_planned_edges {R} `{RandOk R} ctx math_Exp c n seed g :
  Generate (R := R) ctx math_Exp c n seed = Ok g →
  (Model c = "ws"%string → ∃ k, K c = Some k ∧ EdgeCount g = Z.of_nat n * k / 2) ∧
  (Model c = "ba"%string → ∃ m, M c = Some m ∧ EdgeCount g = m * (Z.of_nat n - m)).
Proof.
  intros Hg. pose proof (Generate_outcome ctx math_Exp c n seed) as Ho. rewrite Hg in Ho.
  destruct Ho as (ns & e & (_ & Hp & _) & _ & <-). unfold plan in Hp.
  split; intros Hm; by rewrite Hm in Hp.
Qed.

Lemma Generate_planned_edges_witness :
  ∃ g, Generate (R := Z) background F64.abs baConfig 7 1 = Ok g ∧
    ((Model baConfig = "ws"%string → ∃ k, K baConfig = Some k ∧ EdgeCount g = 7 * k / 2) ∧
     (Model baConfig = "ba"%string → ∃ m, M baConfig = Some m ∧ EdgeCount g = m * (7 - m))).
Proof.
  eexists. split; [vm_compute; reflexivity|].
  apply (Generate_planned_edges (R := Z) background F64.abs baConfig 7 1). vm_compute. reflexivity.
Defined.

(** C37: on a validated configuration and a context that is never cancelled,
    [Generate] never panics and never stops half way: it returns a graph, or the
    edge-limit error for one of the three models whose edge count is random. *)
Theorem Generate_total {R} `{RandOk R} math_Exp c n seed :
  Validate c (Z.of_nat n) = Ok tt → (1 <= n)%nat →
  (∃ g, Generate (R := R) background math_Exp c n seed = Ok g) ∨
  ((Model c = "er" ∨ Model c = "rgg" ∨ Model c = "waxman")%string ∧
   Generate (R := R) background math_Exp c n seed =
     Err "topology exceeds the limit of undirected edges").
Proof.
  intros HV Hn. pose proof (Generate_outcome (R := R) background math_Exp c n seed) as Ho.
  destruct (Generate _ _ _ _ _) as [g|e|]; [by eauto| |by rewrite HV in Ho].
  destruct Ho as [[i Hi]|[Hz|[[e' He]|[Hl Hu]]]]; [done|lia|by rewrite HV in He|].
  right. rewrite Hl. done.
Qed.

Lemma Generate_total_witness :
  Validate gridConfig 6 = Ok tt ∧
  ((∃ g, Generate (R := Z) background F64.abs gridConfig 6 3 = Ok g) ∨
   ((Model gridConfig = "er" ∨ Model gridConfig = "rgg" ∨ Model gridConfig = "waxman")%string ∧
    Generate (R := Z) background F64.abs gridConfig 6 3 =
      Err "topology exceeds the limit of undirected edges")).
Proof.
  split; [vm_compute; reflexivity|].
  apply (Generate_total (R := Z) F64.abs gridConfig 6 3); [vm_compute; reflexivity|lia].
Defined.

(** Two cells of a grid side by side or one above the other. *)
Definition gridNeighbours (columns x y : nat) : Prop :=
  ((x / columns = y / columns ∧
    (y mod columns = x mod columns + 1 ∨ x mod columns = y mod columns + 1)) ∨
   (x mod columns = y mod columns ∧
    (y / columns = x / columns + 1 ∨ x / columns = y / columns + 1)))%nat.

Lemma grid_edge rows columns x y : (0 < columns)%nat → (x < rows * columns)%nat →
  latticeEdge rows columns false x y ↔ (y < rows * columns ∧
    ((x / columns = y / columns ∧ y mod columns = x mod columns + 1) ∨
     (x mod columns = y mod columns ∧ y / columns = x / columns + 1)))%nat.
Proof.
  intros Hc Hx. unfold latticeEdge.
  pose proof (Nat.div_mod_eq x columns) as Hxe. pose proof (Nat.mod_upper_bound x columns).
  assert (x / columns < rows)%nat by (apply Nat.Div0.div_lt_upper_bound; lia).
  split.
  - intros [[H1 ->]|(H1 & [->|[]])]; [| |done].
    + destruct (cell_coords columns (x / columns) (x mod columns + 1)) as [H2 H3]; [lia|].
      replace (x / columns * columns + (x mod columns + 1))%nat with (x + 1)%nat in H2, H3 by lia.
      split; [nia|]. left. lia.
    + destruct (cell_coords columns (x / columns + 1) (x mod columns)) as [H2 H3]; [lia|].
      replace ((x / columns + 1) * columns + x mod columns)%nat with (x + columns)%nat in H2, H3 by lia.
      split; [nia|]. right. lia.
  - intros [Hy Hxy]. pose proof (Nat.div_mod_eq y columns) as Hye.
    pose proof (Nat.mod_upper_bound y columns).
    assert (y / columns < rows)%nat by (apply Nat.Div0.div_lt_upper_bound; lia).
    destruct Hxy as [[He Hm]|[He Hm]]; [left; rewrite <- He in Hye; lia|right].
    rewrite Hm in Hye. split; [lia|left; lia].
Qed.

(** In a generated grid, two nodes are linked exactly when their cells, in
    row-major order, are horizontally or vertically adjacent. *)
Theorem Generate_grid_adjacency {R} `{RandOk R} ctx math_Exp c n seed g rows columns :
  Generate (R := R) ctx math_Exp c n seed = Ok g →
  Model c = "grid"%string → Rows c = Some rows → Columns c = Some columns →
  ∀ x y, linked g x y ↔
    (x < n ∧ y < n)%nat ∧ gridNeighbours (Z.to_nat columns) x y.
Proof.
  intros Hg Hm Hr Hc x y. pose proof (Generate_outcome ctx math_Exp c n seed) as Ho.
  pose proof Hg as Hv. rewrite Hg in Ho.
  destruct Ho as (ns & e & (Hs & _ & Hl) & Hns & _).
  rewrite (linked_adj _ _ _ _ Hns), (Hl rows columns) by eauto.
  rewrite Hm, (simple_length _ _ _ Hs). simpl String.eqb. unfold cellsBelow.
  assert (validFor c n) as HV.
  { unfold Generate in Hv. destruct (ctx 0%nat); [done|]. case_bool_decide; [done|].
    destruct (Validate c (Z.of_nat n)) as [u| |] eqn:HV; [|done..].
    apply (Validate_valid _ _ _ HV). lia. }
  destruct HV; try congruence. simplify_eq.
  assert (n = Z.to_nat rows * Z.to_nat columns)%nat as -> by lia.
  split.
  - intros [[Hx He]|[Hy He]]; apply grid_edge in He; try lia; unfold gridNeighbours; lia.
  - intros [[Hx Hy] Hn]. rewrite !grid_edge by lia. unfold gridNeighbours in Hn. lia.
Qed.

Lemma Generate_grid_adjacency_witness :
  ∃ g, Generate (R := Z) background F64.abs gridConfig 6 1 = Ok g ∧
    ∀ x y, linked g x y ↔ (x < 6 ∧ y < 6)%nat ∧ gridNeighbours 3 x y.
Proof.
  eexists. split; [vm_compute; reflexivity|].
  apply (Generate_grid_adjacency (R := Z) background F64.abs gridConfig 6 1 _ 2 3);
    [vm_compute; reflexivity|reflexivity..].
Defined.

(** ** Degree-weighted sampling *)

(** The tree obtained by entering the weights one after the other. *)
Definition treeOf (ws : list Z) : Fenwick.degreeTree :=
  foldl (λ t '(i, w), Fenwick.add t (Z.of_nat i) w) (Fenwick.make (S (length ws)))
    (zip (seq 0 (length ws)) ws).

Lemma fen_treeOf ws : fen ws (treeOf ws).
Proof.
  unfold treeOf.
  enough (∀ dn rest t, fen (dn ++ replicate (length rest) 0) t →
    fen (dn ++ rest) (foldl (λ t '(i, w), Fenwick.add t (Z.of_nat i) w) t
      (zip (seq (length dn) (length rest)) rest))) as Hgen.
  { apply (Hgen []). simpl. apply fen_make. }
  intros dn rest. revert dn. induction rest as [|w rest IH]; intros dn t Ht; [done|].
  simpl. specialize (IH (dn ++ [w])). rewrite length_app, Nat.add_1_r, <- !app_assoc in IH.
  apply IH. clear IH. pose proof (fen_add _ _ (Z.of_nat (length dn)) w Ht) as Hadd.
  rewrite Nat2Z.id, length_app in Hadd. simpl in Hadd.
  rewrite list.alter_app_r_alt, Nat.sub_diag in Hadd by done.
  apply Hadd. lia.
Qed.

(** The Fenwick tree samples exactly: for every ticket below the total,
    [choose] returns the one index whose interval of cumulated weights contains
    the ticket, however the weights were then updated by [add]. *)
Theorem choose_exact ws index delta ticket :
  0 ≤ index < Z.of_nat (length ws) →
  let ws' := alter (λ w, w + delta) (Z.to_nat index) ws in
  let t := Fenwick.add (treeOf ws) index delta in
  0 ≤ ticket < Fenwick.total t →
  Fenwick.total t = sumZ ws' ∧
  0 ≤ Fenwick.choose t ticket < Z.of_nat (length ws') ∧
  prefix ws' (Fenwick.choose t ticket) ≤ ticket < prefix ws' (Fenwick.choose t ticket + 1).
Proof.
  intros Hi ws' t Ht. pose proof (fen_add _ _ index delta (fen_treeOf ws) Hi) as Hfen.
  fold ws' t in Hfen. split; [by destruct Hfen as (_ & ? & _)|].
  by apply choose_spec.
Qed.

Lemma choose_exact_witness :
  let ws' := alter (λ w, w + 4) 2%nat [3; 0; 1; 5; 2] in
  let t := Fenwick.add (treeOf [3; 0; 1; 5; 2]) 2 4 in
  Fenwick.total t = sumZ ws' ∧
  0 ≤ Fenwick.choose t 8 < Z.of_nat (length ws') ∧
  prefix ws' (Fenwick.choose t 8) ≤ 8 < prefix ws' (Fenwick.choose t 8 + 1).
Proof.
  apply (choose_exact [3; 0; 1; 5; 2] 2 4 8); [simpl; lia|].
  split; [lia|vm_compute; reflexivity].
Defined.
