(* ===== verification/WorkQueue.v ===== *)
(** * The Controller's work queue

    [internal/controller/work_queue.go], the admission and retirement part of
    [experiment_queue.go], [repeat.go]'s cancellation and
    [run_integrity.go]'s stop request.  [Server] holds the fields these
    functions share; [*workSlot] and [*repeatBatch] are addresses in the heaps
    [slots] and [batches], a context is an address in [canceled] once it is
    done, and a closed [ready] channel is the flag [readyClosed].  Every
    operation runs under [cancelMu], so it is one atomic step of the queue.
    The operations, then the step relation; the invariant and its consequences
    are in WorkQueueProps. *)
From Stdlib Require Import ZArith.
From stdpp Require Import strings list gmap.
From S2P Require Import Prelude.
From S2P Require Import GoStd.
Open Scope Z_scope.

(** ** Data *)

(** [model.WorkQueueItem]; times are instants in nanoseconds. *)
Record WorkQueueItem := mkItem {
  ID : string; Kind : string; Name : string; RunID : string; BatchID : string;
  OperationID : string; State : string; Position : Z; CreatedAt : Z;
  StartedAt : option Z; Phase : string; Progress : float }.

(** The fields of [model.Experiment] the queue reads or writes. *)
Record Experiment := mkExperiment {
  ExpID : string; ExecutionID : string; ExpName : string; ExpBatchID : string;
  ExpState : string; StopRequested : bool; QueuePosition : Z }.

Definition zeroExperiment : Experiment :=
  mkExperiment "" "" "" "" "" false 0.

Record workSlot := mkSlot {
  id : string; item : WorkQueueItem; ctx : nat; cancel : option nat;
  readyClosed : bool; opened : bool; finished : bool; batch : option nat }.

Record repeatBatch := mkBatch {
  executionID : string; bcancel : nat; repetitions : Z; members : list string;
  cleanupRuns : list string; slot : option nat; queuedIDs : list string }.

Record Server := mkServer {
  slots : gmap nat workSlot;
  batches : gmap nat repeatBatch;
  workSlots : gmap string nat;
  experimentQueue : list nat;
  workWorkers : Z;
  runs : Z;
  workQueue : list WorkQueueItem;
  experiments : gmap string Experiment;
  repeatBatches : gmap string nat;
  cancels : gmap string nat;
  recentWorkCancels : list string;
  queueCleanup : list string;
  canceled : gset nat }.

(** ** Assignments to one field *)
Definition set_slots f s := mkServer (f (slots s)) (batches s) (workSlots s)
  (experimentQueue s) (workWorkers s) (runs s) (workQueue s) (experiments s)
  (repeatBatches s) (cancels s) (recentWorkCancels s) (queueCleanup s) (canceled s).
Definition set_batches f s := mkServer (slots s) (f (batches s)) (workSlots s)
  (experimentQueue s) (workWorkers s) (runs s) (workQueue s) (experiments s)
  (repeatBatches s) (cancels s) (recentWorkCancels s) (queueCleanup s) (canceled s).
Definition set_workSlots f s := mkServer (slots s) (batches s) (f (workSlots s))
  (experimentQueue s) (workWorkers s) (runs s) (workQueue s) (experiments s)
  (repeatBatches s) (cancels s) (recentWorkCancels s) (queueCleanup s) (canceled s).
Definition set_experimentQueue f s := mkServer (slots s) (batches s) (workSlots s)
  (f (experimentQueue s)) (workWorkers s) (runs s) (workQueue s) (experiments s)
  (repeatBatches s) (cancels s) (recentWorkCancels s) (queueCleanup s) (canceled s).
Definition set_workWorkers f s := mkServer (slots s) (batches s) (workSlots s)
  (experimentQueue s) (f (workWorkers s)) (runs s) (workQueue s) (experiments s)
  (repeatBatches s) (cancels s) (recentWorkCancels s) (queueCleanup s) (canceled s).
Definition set_runs f s := mkServer (slots s) (batches s) (workSlots s)
  (experimentQueue s) (workWorkers s) (f (runs s)) (workQueue s) (experiments s)
  (repeatBatches s) (cancels s) (recentWorkCancels s) (queueCleanup s) (canceled s).
Definition set_workQueue f s := mkServer (slots s) (batches s) (workSlots s)
  (experimentQueue s) (workWorkers s) (runs s) (f (workQueue s)) (experiments s)
  (repeatBatches s) (cancels s) (recentWorkCancels s) (queueCleanup s) (canceled s).
Definition set_experiments f s := mkServer (slots s) (batches s) (workSlots s)
  (experimentQueue s) (workWorkers s) (runs s) (workQueue s) (f (experiments s))
  (repeatBatches s) (cancels s) (recentWorkCancels s) (queueCleanup s) (canceled s).
Definition set_recentWorkCancels f s := mkServer (slots s) (batches s) (workSlots s)
  (experimentQueue s) (workWorkers s) (runs s) (workQueue s) (experiments s)
  (repeatBatches s) (cancels s) (f (recentWorkCancels s)) (queueCleanup s) (canceled s).
Definition set_queueCleanup f s := mkServer (slots s) (batches s) (workSlots s)
  (experimentQueue s) (workWorkers s) (runs s) (workQueue s) (experiments s)
  (repeatBatches s) (cancels s) (recentWorkCancels s) (f (queueCleanup s)) (canceled s).
Definition set_canceled f s := mkServer (slots s) (batches s) (workSlots s)
  (experimentQueue s) (workWorkers s) (runs s) (workQueue s) (experiments s)
  (repeatBatches s) (cancels s) (recentWorkCancels s) (queueCleanup s) (f (canceled s)).

Definition with_position (x : Z) (i : WorkQueueItem) : WorkQueueItem :=
  mkItem (ID i) (Kind i) (Name i) (RunID i) (BatchID i) (OperationID i) (State i) x
    (CreatedAt i) (StartedAt i) (Phase i) (Progress i).
Definition with_state (x : string) (i : WorkQueueItem) : WorkQueueItem :=
  mkItem (ID i) (Kind i) (Name i) (RunID i) (BatchID i) (OperationID i) x (Position i)
    (CreatedAt i) (StartedAt i) (Phase i) (Progress i).
Definition with_startedAt (x : option Z) (i : WorkQueueItem) : WorkQueueItem :=
  mkItem (ID i) (Kind i) (Name i) (RunID i) (BatchID i) (OperationID i) (State i)
    (Position i) (CreatedAt i) x (Phase i) (Progress i).
Definition with_progress (phase : string) (p : float) (i : WorkQueueItem) : WorkQueueItem :=
  mkItem (ID i) (Kind i) (Name i) (RunID i) (BatchID i) (OperationID i) (State i)
    (Position i) (CreatedAt i) (StartedAt i) phase p.

Definition with_item (x : WorkQueueItem) (sl : workSlot) : workSlot :=
  mkSlot (id sl) x (ctx sl) (cancel sl) (readyClosed sl) (opened sl) (finished sl) (batch sl).
Definition with_opened (sl : workSlot) : workSlot :=
  mkSlot (id sl) (item sl) (ctx sl) (cancel sl) (readyClosed sl) true (finished sl) (batch sl).
Definition with_closed (sl : workSlot) : workSlot :=
  mkSlot (id sl) (item sl) (ctx sl) (cancel sl) true (opened sl) (finished sl) (batch sl).
Definition with_finished (sl : workSlot) : workSlot :=
  mkSlot (id sl) (item sl) (ctx sl) (cancel sl) (readyClosed sl) (opened sl) true (batch sl).
Definition with_batch (b : nat) (sl : workSlot) : workSlot :=
  mkSlot (id sl) (item sl) (ctx sl) (cancel sl) (readyClosed sl) (opened sl)
    (finished sl) (Some b).

Definition with_queuePosition (x : Z) (e : Experiment) : Experiment :=
  mkExperiment (ExpID e) (ExecutionID e) (ExpName e) (ExpBatchID e) (ExpState e)
    (StopRequested e) x.
Definition with_stopRequested (e : Experiment) : Experiment :=
  mkExperiment (ExpID e) (ExecutionID e) (ExpName e) (ExpBatchID e) (ExpState e)
    true (QueuePosition e).

Definition with_queuedIDs (x : list string) (b : repeatBatch) : repeatBatch :=
  mkBatch (executionID b) (bcancel b) (repetitions b) (members b) (cleanupRuns b)
    (slot b) x.
Definition with_slot (p : nat) (b : repeatBatch) : repeatBatch :=
  mkBatch (executionID b) (bcancel b) (repetitions b) (members b) (cleanupRuns b)
    (Some p) (queuedIDs b).

(** ** Pointers, channels, wait groups *)
Definition loadSlot (p : nat) : GoM Server workSlot :=
  s ← get; lift_res (deref (slots s !! p)).
Definition storeSlot (p : nat) (sl : workSlot) : GoM Server unit :=
  modify (set_slots <[p := sl]>).
Definition loadBatch (b : nat) : GoM Server repeatBatch :=
  s ← get; lift_res (deref (batches s !! b)).
Definition storeBatch (b : nat) (x : repeatBatch) : GoM Server unit :=
  modify (set_batches <[b := x]>).

(** [close(slot.ready)]: closing a closed channel panics. *)
Definition closeReady (p : nat) : GoM Server unit :=
  sl ← loadSlot p;
  if readyClosed sl then panic else storeSlot p (with_closed sl).

(** [s.workWorkers.Done()]: a negative wait group counter panics. *)
Definition workersDone : GoM Server unit :=
  s ← get;
  if workWorkers s - 1 <? 0 then panic else modify (set_workWorkers (λ n, n - 1)).

(** [cancel()] *)
Definition cancelContext (c : nat) : GoM Server unit :=
  modify (set_canceled (λ cs, {[c]} ∪ cs)).

(** ** Positions *)

(** [for _, id := range slot.batch.queuedIDs { run.QueuePosition = position }] *)
Definition positionRuns (position : Z) (ids : list string) (m : gmap string Experiment) :
    gmap string Experiment :=
  foldl (λ m id, alter (with_queuePosition position) id m) m ids.

Definition batchRuns (sl : workSlot) (position : Z) : GoM Server unit :=
  match batch sl with
  | Some b => x ← loadBatch b;
              modify (set_experiments (positionRuns position (queuedIDs x)))
  | None => mret tt
  end.

(** The item of the slot at [position]: the head is running. *)
Definition positionItem (now position : Z) (it : WorkQueueItem) : WorkQueueItem :=
  let it := with_state "queued" (with_position position it) in
  if position =? 0 then
    let it := with_state "running" it in
    match StartedAt it with
    | None => with_startedAt (Some now) it
    | Some _ => it
    end
  else it.

(** [item.Phase, item.Progress = old.Phase, old.Progress] *)
Definition carryProgress (previous : gmap string WorkQueueItem) (it : WorkQueueItem) :
    WorkQueueItem :=
  match previous !! ID it with
  | Some old => with_progress (Phase old) (Progress old) it
  | None => it
  end.

(** The loop over [s.experimentQueue]. *)
Fixpoint positionLoop (now : Z) (previous : gmap string WorkQueueItem) (position : Z)
    (l : list nat) (queue : list WorkQueueItem) : GoM Server (list WorkQueueItem) :=
  match l with
  | [] => mret queue
  | p :: l =>
      sl ← loadSlot p;
      let it := positionItem now position (item sl) in
      storeSlot p (with_item it sl);;
      batchRuns sl position;;
      positionLoop now previous (position + 1) l (queue ++ [carryProgress previous it])
  end.

Definition previousItems (q : list WorkQueueItem) : gmap string WorkQueueItem :=
  foldl (λ m it, <[ID it := it]> m) ∅ q.

(** [if len(s.experimentQueue) > 0 && !s.experimentQueue[0].opened] *)
Definition openHead : GoM Server unit :=
  s ← get;
  match experimentQueue s with
  | [] => mret tt
  | h :: _ =>
      sl ← loadSlot h;
      if opened sl then mret tt
      else storeSlot h (with_opened sl);; closeReady h
  end.

Definition updateQueuePositionsLocked (now : Z) : GoM Server unit :=
  s ← get;
  let previous := previousItems (workQueue s) in
  queue ← positionLoop now previous 0 (experimentQueue s) [];
  modify (set_workQueue (λ _, queue));;
  openHead.

(** ** Admission *)

(** [rand.Text()] gives [id]; the new slot gets an unused address. *)
Definition enqueueWorkLocked (c : nat) (it : WorkQueueItem) (cancelf : option nat)
    (wid : string) (now : Z) : GoM Server nat :=
  s ← get;
  let it := mkItem wid (Kind it) (Name it) (RunID it) (BatchID it) (OperationID it)
              "queued" (Position it) now None "" F64.zero in
  let p := fresh (dom (slots s)) in
  storeSlot p (mkSlot wid it c cancelf false false false None);;
  modify (set_workSlots <[wid := p]>);;
  modify (set_workWorkers (λ n, n + 1));;
  modify (set_experimentQueue (λ q, q ++ [p]));;
  updateQueuePositionsLocked now;;
  mret p.

(** [batch.queuedIDs = append(batch.queuedIDs, run.ID)] *)
Definition queueID (b : nat) (r : Experiment) : GoM Server unit :=
  x ← loadBatch b; storeBatch b (with_queuedIDs (queuedIDs x ++ [ExpID r]) x).

Definition enqueueExperimentsLocked (c : nat) (b : nat) (rs : list Experiment)
    (wid : string) (now now' : Z) : GoM Server unit :=
  miter (queueID b) rs;;
  r0 ← lift_res (deref (head rs));
  x ← loadBatch b;
  p ← enqueueWorkLocked c
        (mkItem "" "experiment" (ExpName r0) (ExpID r0) (ExpBatchID r0) "" "" 0 0 None ""
           F64.zero) (Some (bcancel x)) wid now;
  storeBatch b (with_slot p x);;
  sl ← loadSlot p;
  storeSlot p (with_batch b sl);;
  updateQueuePositionsLocked now';;
  modify (set_runs (λ n, n + 1)).

(** ** Removal and retirement *)
Definition queueIndex (p : nat) (s : Server) : option nat :=
  fst <$> list_find (eq p) (experimentQueue s).

Definition removeWorkLocked (p : nat) (now : Z) : GoM Server unit :=
  s ← get;
  match queueIndex p s with
  | None => mret tt
  | Some index =>
      modify (set_experimentQueue (delete index));;
      sl ← loadSlot p;
      batchRuns sl 0;;
      updateQueuePositionsLocked now
  end.

Definition finishWorkLocked (slot : option nat) (now : Z) : GoM Server unit :=
  match slot with
  | None => mret tt
  | Some p =>
      sl ← loadSlot p;
      if finished sl then mret tt
      else
        storeSlot p (with_finished sl);;
        removeWorkLocked p now;;
        modify (set_workSlots (delete (id sl)));;
        workersDone
  end.

Definition finishWork : option nat → Z → GoM Server unit := finishWorkLocked.

Definition finishQueuedExperimentsLocked (b : nat) (now : Z) : GoM Server unit :=
  x ← loadBatch b; finishWorkLocked (slot x) now.

(** [waitWork]'s [select]: its [case <-ctx.Done()], in which a canceled waiter
    gives up its place ... *)
Definition waitDone (p : nat) (now : Z) : GoM Server unit :=
  s ← get;
  match queueIndex p s with
  | Some (S _) => removeWorkLocked p now
  | _ => mret tt
  end;;
  throw "context canceled".

(** ... and its [case <-slot.ready], which can be chosen once the channel is
    closed; the context is looked at again. *)
Definition waitReady (p : nat) : GoM Server unit :=
  s ← get;
  sl ← loadSlot p;
  if bool_decide (ctx sl ∈ canceled s) then throw "context canceled" else mret tt.

(** ** Status and cancellation *)
Definition clampProgress (progress : float) : float :=
  F64.min (F64.of_Z 100) (F64.max F64.zero progress).

Definition statusItem (phase : string) (progress : float) (it : WorkQueueItem) :
    WorkQueueItem :=
  with_progress phase
    (if bool_decide (phase = "Stopping") then Progress it else clampProgress progress) it.

(** The first item of that id that is not stopping. *)
Fixpoint statusLoop (wid phase : string) (progress : float) (q : list WorkQueueItem) :
    list WorkQueueItem :=
  match q with
  | [] => []
  | it :: q =>
      if bool_decide (ID it = wid) && negb (bool_decide (Phase it = "Stopping"))
      then statusItem phase progress it :: q
      else it :: statusLoop wid phase progress q
  end.

Definition updateWorkStatus (wid phase : string) (progress : float) : GoM Server unit :=
  let progress := if F64.isNaN progress || F64.isInf progress then F64.zero else progress in
  modify (set_workQueue (statusLoop wid phase progress)).

Definition workPosition (wid : string) (s : Server) : Z * bool :=
  match list_find (λ it, ID it = wid) (workQueue s) with
  | Some (_, it) => (Position it, true)
  | None => (0, false)
  end.

Definition markStopRequestedLocked (rid execution : string) : GoM Server unit :=
  modify (set_experiments (map_imap (λ key run,
    Some (if (negb (bool_decide (execution = "")) && bool_decide (ExecutionID run = execution))
             || (bool_decide (execution = "") && bool_decide (key = rid))
          then if bool_decide (ExpState run = "running") || bool_decide (ExpState run = "queued")
               then with_stopRequested run else run
          else run)))).

Definition cancelRepeatLocked (runID : string) : GoM Server bool :=
  s ← get;
  match repeatBatches s !! runID with
  | None => mret false
  | Some b =>
      x ← loadBatch b;
      let run := default zeroExperiment (experiments s !! runID) in
      if negb (bool_decide (executionID x = "")) && negb (bool_decide (ExecutionID run = executionID x))
      then mret false
      else if (repetitions x <=? 1) && bool_decide (cancels s !! runID = None)
      then mret false
      else
        markStopRequestedLocked runID (executionID x);;
        match slot x with
        | Some p => sl ← loadSlot p; updateWorkStatus (id sl) "Stopping" F64.zero
        | None => mret tt
        end;;
        cancelContext (bcancel x);;
        mret true
  end.

Definition rememberCancel (wid : string) (l : list string) : list string :=
  let l := l ++ [wid] in
  if (128 <? length l)%nat then drop (length l - 128) l else l.

Definition cancelWork (wid : string) (now : Z) : GoM Server unit :=
  s ← get;
  if bool_decide (wid ∈ recentWorkCancels s) then mret tt
  else
    match workSlots s !! wid with
    | None => throw "queued work not found or already finished"
    | Some p =>
        sl ← loadSlot p;
        match batch sl with
        | Some b =>
            x ← loadBatch b;
            rid ← lift_res (deref (head (queuedIDs x)));
            stopped ← cancelRepeatLocked rid;
            if stopped : bool then mret tt else throw "execution changed"
        | None =>
            match cancel sl with
            | Some c => cancelContext c
            | None => mret tt
            end
        end;;
        modify (set_recentWorkCancels (rememberCancel wid));;
        s ← get;
        match queueIndex p s with
        | Some (S _) => removeWorkLocked p now
        | _ => updateWorkStatus wid "Stopping" (Progress (item sl))
        end
    end.

(** Shutdown cancels every registered slot. *)
Definition cancelRegistered (wp : string * nat) : GoM Server unit :=
  sl ← loadSlot (snd wp);
  match cancel sl with Some c => cancelContext c | None => mret tt end.

Definition cancelWorkQueueLocked : GoM Server unit :=
  s ← get; miter cancelRegistered (map_to_list (workSlots s)).

(** ** Pending Peer cleanup *)
Definition rememberQueueCleanupLocked (rid : string) : GoM Server unit :=
  modify (set_queueCleanup (λ q,
    if negb (bool_decide (rid = "")) && negb (bool_decide (rid ∈ q)) then q ++ [rid] else q)).

(** [durable]: clearing the markers on disk. *)
Definition completeQueueCleanup (ids : list string) (durable : res unit) : GoM Server unit :=
  lift_res durable;;
  modify (set_queueCleanup (filter (λ rid, rid ∉ ids))).

(** ** The steps of the queue *)
Inductive op :=
  | OpEnqueue (c : nat) (it : WorkQueueItem) (cancelf : option nat) (wid : string) (now : Z)
  | OpEnqueueExperiments (c b : nat) (rs : list Experiment) (wid : string) (now now' : Z)
  | OpFinish (p : nat) (now : Z)
  | OpFinishExperiments (b : nat) (now : Z)
  | OpWaitReady (p : nat)
  | OpWaitDone (p : nat) (now : Z)
  | OpStatus (wid phase : string) (progress : float)
  | OpCancel (wid : string) (now : Z)
  | OpShutdown
  | OpCancelContext (c : nat)
  | OpRememberCleanup (rid : string)
  | OpCompleteCleanup (ids : list string) (durable : res unit).

Definition exec (o : op) : GoM Server unit :=
  match o with
  | OpEnqueue c it cancelf wid now => enqueueWorkLocked c it cancelf wid now;; mret tt
  | OpEnqueueExperiments c b rs wid now now' => enqueueExperimentsLocked c b rs wid now now'
  | OpFinish p now => finishWork (Some p) now
  | OpFinishExperiments b now => finishQueuedExperimentsLocked b now
  | OpWaitReady p => waitReady p
  | OpWaitDone p now => waitDone p now
  | OpStatus wid phase progress => updateWorkStatus wid phase progress
  | OpCancel wid now => cancelWork wid now
  | OpShutdown => cancelWorkQueueLocked
  | OpCancelContext c => cancelContext c
  | OpRememberCleanup rid => rememberQueueCleanupLocked rid
  | OpCompleteCleanup ids durable => completeQueueCleanup ids durable
  end.

(** The runs a slot's batch still lists. *)
Definition idsOf (s : Server) (p : nat) : list string :=
  match sl ← slots s !! p; b ← batch sl; batches s !! b with
  | Some x => queuedIDs x
  | None => []
  end.

(** What the callers guarantee: an identifier never drawn before, pointers of
    their own, a batch that is queued once with runs no queued batch lists. *)
Definition allowed (s : Server) (o : op) : Prop :=
  match o with
  | OpEnqueue _ _ _ wid _ => ∀ p sl, slots s !! p = Some sl → id sl ≠ wid
  | OpEnqueueExperiments _ b rs wid _ _ =>
      (∀ p sl, slots s !! p = Some sl → id sl ≠ wid) ∧ rs ≠ [] ∧
      (∃ x, batches s !! b = Some x ∧ slot x = None ∧ queuedIDs x = []) ∧
      (∀ p r, p ∈ experimentQueue s → r ∈ rs → ExpID r ∉ idsOf s p)
  | OpFinish p _ => is_Some (slots s !! p)
  | OpFinishExperiments b _ => is_Some (batches s !! b)
  | OpWaitReady p => ∃ sl, slots s !! p = Some sl ∧ readyClosed sl = true
  | OpWaitDone p _ => ∃ sl, slots s !! p = Some sl ∧ ctx sl ∈ canceled s
  | OpCompleteCleanup _ durable => durable ≠ Panic
  | _ => True
  end.

(** The rest of the Controller between two such steps: it creates batches and
    runs, registers and retires their cancellation handles and changes run
    records, but not the queue, the slots or the positions of queued runs. *)
Record interleaves (s s' : Server) : Prop := {
  il_slots : slots s' = slots s;
  il_batches : ∀ b x, batches s !! b = Some x → batches s' !! b = Some x;
  il_new : ∀ b x, batches s' !! b = Some x → batches s !! b = None →
    slot x = None ∧ queuedIDs x = [];
  il_workSlots : workSlots s' = workSlots s;
  il_queue : experimentQueue s' = experimentQueue s;
  il_workers : workWorkers s' = workWorkers s;
  il_published : workQueue s' = workQueue s;
  il_recent : recentWorkCancels s' = recentWorkCancels s;
  il_repeat : ∀ rid b, repeatBatches s' !! rid = Some b → is_Some (batches s' !! b);
  il_experiments : ∀ p rid run', p ∈ experimentQueue s → rid ∈ idsOf s p →
    experiments s' !! rid = Some run' →
    ∃ run, experiments s !! rid = Some run ∧ QueuePosition run' = QueuePosition run }.

Inductive step (s : Server) : Server → Prop :=
  | step_op o r s' : allowed s o → exec o s = (r, s') → step s s'
  | step_other s' : interleaves s s' → step s s'.

Definition init : Server :=
  mkServer ∅ ∅ ∅ [] 0 0 [] ∅ ∅ ∅ [] [] ∅.

Inductive reachable : Server → Prop :=
  | reachable_init : reachable init
  | reachable_step s s' : reachable s → step s s' → reachable s'.
