(* ===== verification/WorkQueueProps.v ===== *)
(** * Correctness of the work queue

    The invariant of [WorkQueue.step] and what it gives: the head, and only the
    head, of the FIFO is released; no operation panics; the published queue is
    the queue; the wait group counts the unfinished slots; order is kept; and a
    waiter is released once the slots ahead of it finish. *)
From Stdlib Require Import ZArith Lia.
From stdpp Require Import strings list gmap.
From S2P Require Import Prelude.
From S2P Require Import GoStd.
From S2P Require Import WorkQueue.
Open Scope Z_scope.

(** ** Positions of runs *)
Lemma positionRuns_lookup z ids m rid :
  positionRuns z ids m !! rid =
  if bool_decide (rid ∈ ids) then with_queuePosition z <$> m !! rid else m !! rid.
Proof.
  unfold positionRuns. revert m. induction ids as [|k ids IH]; intros m; [done|].
  cbn. rewrite IH. destruct (decide (rid = k)) as [->|Hne].
  - rewrite lookup_alter_eq, (bool_decide_eq_true_2 (k ∈ k :: ids)) by set_solver.
    case_bool_decide; [|done]. by destruct (m !! k).
  - rewrite lookup_alter_ne by done.
    rewrite (bool_decide_ext (rid ∈ k :: ids) (rid ∈ ids)) by set_solver. done.
Qed.

(** ** The positions loop in closed form *)
Fixpoint loopSlots (now pos : Z) (l : list nat) (H : gmap nat workSlot) :=
  match l with
  | [] => H
  | p :: l => loopSlots now (pos + 1) l
      (alter (λ sl, with_item (positionItem now pos (item sl)) sl) p H)
  end.

Fixpoint loopRuns (ids : nat → list string) (pos : Z) (l : list nat)
    (m : gmap string Experiment) :=
  match l with
  | [] => m
  | p :: l => loopRuns ids (pos + 1) l (positionRuns pos (ids p) m)
  end.

Lemma positionRuns_nil z m : positionRuns z [] m = m.
Proof. done. Qed.

Lemma batchRuns_eq sl p z s :
  slots s !! p = Some sl →
  (∀ b, batch sl = Some b → is_Some (batches s !! b)) →
  batchRuns sl z s = (Ok tt, set_experiments (positionRuns z (idsOf s p)) s).
Proof.
  intros Hp Hb. unfold batchRuns, idsOf. rewrite Hp. cbn.
  destruct (batch sl) as [b|].
  - destruct (Hb b) as [x Hx]; [done|]. unfold loadBatch, mbind, gom_bind, get, lift_res. cbn.
    by rewrite Hx.
  - unfold set_experiments. rewrite positionRuns_nil. by destruct s.
Qed.

Definition valid (s : Server) (p : nat) : Prop :=
  ∃ sl, slots s !! p = Some sl ∧ ∀ b, batch sl = Some b → is_Some (batches s !! b).

Lemma loopRuns_ext f g pos l m :
  (∀ p, p ∈ l → f p = g p) → loopRuns f pos l m = loopRuns g pos l m.
Proof.
  revert pos m. induction l as [|p l IH]; intros pos m Hfg; [done|]. cbn.
  rewrite Hfg by set_solver. apply IH. set_solver.
Qed.

Lemma positionLoop_eq now prev l pos acc s :
  NoDup l → Forall (valid s) l →
  ∃ q, positionLoop now prev pos l acc s =
    (Ok (acc ++ q),
     set_experiments (loopRuns (idsOf s) pos l) (set_slots (loopSlots now pos l) s)) ∧
  length q = length l ∧
  ∀ i p sl, l !! i = Some p → slots s !! p = Some sl →
    q !! i = Some (carryProgress prev (positionItem now (pos + Z.of_nat i) (item sl))).
Proof.
  revert pos acc s. induction l as [|p l IH]; intros pos acc s Hnd Hv.
  - exists []. rewrite app_nil_r. split_and!; [by destruct s|done|]. by intros i p sl.
  - apply list.NoDup_cons in Hnd as [Hp Hnd]. apply list.Forall_cons in Hv as [[sl [Hsl Hb]] Hv].
    cbn [positionLoop]. set (it := positionItem now pos (item sl)).
    set (s1 := set_slots <[p := with_item it sl]> s).
    set (s2 := set_experiments (positionRuns pos (idsOf s p)) s1).
    assert (Hne : ∀ p', p' ∈ l → slots s2 !! p' = slots s !! p').
    { intros p' Hp'. cbn. apply lookup_insert_ne. set_solver. }
    assert (Hids : ∀ p', idsOf s2 p' = idsOf s p').
    { intros p'. unfold idsOf. cbn. destruct (decide (p' = p)) as [->|Hn].
      - by rewrite lookup_insert_eq, Hsl.
      - by rewrite lookup_insert_ne. }
    destruct (IH (pos + 1) (acc ++ [carryProgress prev it]) s2) as (q & Hq & Hlen & Hitems).
    { done. }
    { rewrite list.Forall_forall in Hv |- *. intros p' Hp'. destruct (Hv p' Hp') as [sl' [? ?]].
      exists sl'. split; [by rewrite Hne|done]. }
    assert (Hbr : batchRuns sl pos s1 = (Ok tt, s2)).
    { unfold s2. assert (idsOf s p = idsOf s1 p) as ->.
      { specialize (Hids p). unfold idsOf in *. by cbn in *. }
      rewrite <- (batchRuns_eq (with_item it sl)); [done| |done].
      by apply lookup_insert_eq. }
    exists (carryProgress prev it :: q). split_and!.
    + unfold loadSlot, mbind, gom_bind, get, lift_res. cbn. rewrite Hsl. cbn.
      fold it. fold s1. rewrite Hbr. rewrite Hq, <- app_assoc. cbn. f_equal.
      unfold s2, s1, set_experiments, set_slots. cbn. f_equal.
      * f_equal. apply map_eq. intros k.
        destruct (decide (k = p)) as [->|]; [|by rewrite lookup_insert_ne, lookup_alter_ne].
        by rewrite lookup_insert_eq, lookup_alter_eq, Hsl.
      * apply loopRuns_ext. intros p' _. apply Hids.
    + cbn. lia.
    + intros [|i] p' sl' Hi Hsl'; cbn in Hi |- *.
      * simplify_eq. unfold it. by rewrite Z.add_0_r.
      * etrans; [apply (Hitems i p' sl' Hi)|].
        -- rewrite Hne; [done|]. by eapply list_elem_of_lookup_2.
        -- do 3 f_equal. lia.
Qed.

Lemma loopSlots_other now pos l H p : p ∉ l → loopSlots now pos l H !! p = H !! p.
Proof.
  revert pos H. induction l as [|p' l IH]; intros pos H Hp; [done|]. cbn.
  rewrite IH by set_solver. apply lookup_alter_ne. set_solver.
Qed.

Lemma loopSlots_lookup now pos l H i p :
  NoDup l → l !! i = Some p →
  loopSlots now pos l H !! p =
  (λ sl, with_item (positionItem now (pos + Z.of_nat i) (item sl)) sl) <$> H !! p.
Proof.
  revert pos H i. induction l as [|p' l IH]; intros pos H i Hnd Hi; [done|].
  apply list.NoDup_cons in Hnd as [Hp' Hnd]. cbn. destruct i as [|i]; cbn in Hi.
  - simplify_eq. rewrite loopSlots_other by done. rewrite lookup_alter_eq.
    by rewrite Z.add_0_r.
  - rewrite (IH _ _ i) by done. rewrite lookup_alter_ne.
    + f_equal. replace (pos + 1 + Z.of_nat i) with (pos + Z.of_nat (S i)) by lia. done.
    + intros ->. apply Hp'. by eapply list_elem_of_lookup_2.
Qed.

Lemma loopRuns_other ids pos l m rid :
  (∀ p, p ∈ l → rid ∉ ids p) → loopRuns ids pos l m !! rid = m !! rid.
Proof.
  revert pos m. induction l as [|p l IH]; intros pos m Hl; [done|]. cbn.
  rewrite IH by set_solver. rewrite positionRuns_lookup, bool_decide_eq_false_2; [done|].
  set_solver.
Qed.

Lemma loopRuns_lookup ids pos l m i p rid :
  NoDup l → l !! i = Some p → rid ∈ ids p →
  (∀ p', p' ∈ l → p' ≠ p → rid ∉ ids p') →
  loopRuns ids pos l m !! rid = with_queuePosition (pos + Z.of_nat i) <$> m !! rid.
Proof.
  revert pos m i. induction l as [|p' l IH]; intros pos m i Hnd Hi Hrid Hdis; [done|].
  apply list.NoDup_cons in Hnd as [Hp' Hnd]. cbn. destruct i as [|i]; cbn in Hi.
  - simplify_eq. rewrite loopRuns_other.
    + by rewrite positionRuns_lookup, bool_decide_eq_true_2, Z.add_0_r.
    + intros q Hq. apply Hdis; set_solver.
  - rewrite (IH _ _ i); [|done..|set_solver].
    rewrite positionRuns_lookup, bool_decide_eq_false_2.
    + f_equal. f_equal. lia.
    + apply Hdis; [set_solver|]. intros ->. apply Hp'. by eapply list_elem_of_lookup_2.
Qed.

(** ** Invariants *)

(** The part every operation keeps, also half way through. *)
Record Base (s : Server) : Prop := {
  b_nodup : NoDup (experimentQueue s);
  b_queue : ∀ p, p ∈ experimentQueue s → ∃ sl, slots s !! p = Some sl ∧ finished sl = false;
  b_itemid : ∀ p sl, slots s !! p = Some sl → ID (item sl) = id sl;
  b_ready : ∀ p sl, slots s !! p = Some sl → readyClosed sl = opened sl;
  b_opened : ∀ p sl, slots s !! p = Some sl → finished sl = false → opened sl = true →
    head (experimentQueue s) = Some p;
  b_batch : ∀ p sl b, slots s !! p = Some sl → batch sl = Some b →
    ∃ x, batches s !! b = Some x ∧ slot x = Some p ∧ queuedIDs x ≠ [];
  b_disjoint : ∀ p p' rid, p ∈ experimentQueue s → p' ∈ experimentQueue s → p ≠ p' →
    rid ∈ idsOf s p → rid ∈ idsOf s p' → False }.

(** What [updateQueuePositionsLocked] publishes. *)
Definition published (s : Server) (i : nat) (p : nat) (it : WorkQueueItem) : Prop :=
  ∃ sl, slots s !! p = Some sl ∧ ID it = id sl ∧ Position it = Z.of_nat i ∧
    State it = (if bool_decide (i = 0%nat) then "running" else "queued")%string ∧
    (i = 0%nat → is_Some (StartedAt it)).

Record Queue (s : Server) : Prop := {
  q_base : Base s;
  q_head : ∀ p, head (experimentQueue s) = Some p →
    ∃ sl, slots s !! p = Some sl ∧ opened sl = true;
  q_length : length (workQueue s) = length (experimentQueue s);
  q_published : ∀ i p it, experimentQueue s !! i = Some p → workQueue s !! i = Some it →
    published s i p it;
  q_positions : ∀ i p rid run, experimentQueue s !! i = Some p → rid ∈ idsOf s p →
    experiments s !! rid = Some run → QueuePosition run = Z.of_nat i }.

(** The registration of slots, batches and workers. *)
Record Registry (s : Server) : Prop := {
  r_workSlots : ∀ wid p, workSlots s !! wid = Some p ↔
    ∃ sl, slots s !! p = Some sl ∧ id sl = wid ∧ finished sl = false;
  r_workers : workWorkers s = Z.of_nat (size (workSlots s));
  r_repeat : ∀ rid b, repeatBatches s !! rid = Some b → is_Some (batches s !! b);
  r_slot : ∀ b x p, batches s !! b = Some x → slot x = Some p → is_Some (slots s !! p) }.

Definition Inv (s : Server) : Prop := Queue s ∧ Registry s.

(** What an update of the positions leaves alone. *)
Definition core (sl sl' : workSlot) : Prop :=
  id sl' = id sl ∧ ctx sl' = ctx sl ∧ cancel sl' = cancel sl ∧ finished sl' = finished sl ∧
  batch sl' = batch sl.

Record frame (s s' : Server) : Prop := {
  f_slots : ∀ p, option_Forall2 core (slots s !! p) (slots s' !! p);
  f_batches : batches s' = batches s;
  f_workSlots : workSlots s' = workSlots s;
  f_queue : experimentQueue s' = experimentQueue s;
  f_workers : workWorkers s' = workWorkers s;
  f_runs : runs s' = runs s;
  f_repeat : repeatBatches s' = repeatBatches s;
  f_cancels : cancels s' = cancels s;
  f_recent : recentWorkCancels s' = recentWorkCancels s;
  f_cleanup : queueCleanup s' = queueCleanup s;
  f_canceled : canceled s' = canceled s }.

Lemma core_refl sl : core sl sl.
Proof. by split_and!. Qed.

Lemma frame_some s s' p sl :
  frame s s' → slots s !! p = Some sl → ∃ sl', slots s' !! p = Some sl' ∧ core sl sl'.
Proof.
  intros Hf Hp. pose proof (f_slots _ _ Hf p) as Hs. rewrite Hp in Hs.
  inversion Hs; subst. eauto.
Qed.

Lemma frame_some' s s' p sl' :
  frame s s' → slots s' !! p = Some sl' → ∃ sl, slots s !! p = Some sl ∧ core sl sl'.
Proof.
  intros Hf Hp. pose proof (f_slots _ _ Hf p) as Hs. rewrite Hp in Hs.
  inversion Hs; subst. eauto.
Qed.

Lemma frame_ids s s' p : frame s s' → idsOf s' p = idsOf s p.
Proof.
  intros Hf. unfold idsOf. rewrite (f_batches _ _ Hf).
  pose proof (f_slots _ _ Hf p) as Hs.
  inversion Hs as [sl sl' Hc H1 H2|H1 H2]; [|done].
  cbn. by destruct Hc as (_ & _ & _ & _ & ->).
Qed.

(** ** [updateQueuePositionsLocked] re-establishes the whole invariant *)
Lemma positionItem_facts now i it :
  let it' := positionItem now (Z.of_nat i) it in
  ID it' = ID it ∧ Position it' = Z.of_nat i ∧
  State it' = (if bool_decide (i = 0%nat) then "running" else "queued")%string ∧
  (i = 0%nat → is_Some (StartedAt it')).
Proof.
  unfold positionItem. destruct (Z.eqb_spec (Z.of_nat i) 0) as [Hi|Hi].
  - rewrite bool_decide_eq_true_2 by lia. cbn. destruct (StartedAt it) eqn:Hs; cbn;
      split_and!; try done; intros _; try rewrite Hs; eauto.
  - rewrite bool_decide_eq_false_2 by lia. cbn. split_and!; try done. lia.
Qed.

Lemma carryProgress_facts prev it :
  let it' := carryProgress prev it in
  ID it' = ID it ∧ Position it' = Position it ∧ State it' = State it ∧
  StartedAt it' = StartedAt it.
Proof. unfold carryProgress. by destruct (prev !! ID it). Qed.

Lemma base_valid s p : Base s → p ∈ experimentQueue s → valid s p.
Proof.
  intros HB Hp. destruct (b_queue _ HB p Hp) as (sl & Hsl & _). exists sl. split; [done|].
  intros b Hb. destruct (b_batch _ HB p sl b Hsl Hb) as (x & Hx & _). eauto.
Qed.

Lemma closeReady_eq p s sl :
  slots s !! p = Some sl → readyClosed sl = false →
  closeReady p s = (Ok tt, set_slots <[p := with_closed sl]> s).
Proof.
  intros Hp Hr. unfold closeReady, loadSlot, mbind, gom_bind, get, lift_res. cbn.
  by rewrite Hp; cbn; rewrite Hr.
Qed.

(** The slots after the loop and the opening of the head. *)
Definition openSlots (q : list nat) (H : gmap nat workSlot) : gmap nat workSlot :=
  match q with
  | [] => H
  | h :: _ => alter (λ sl, with_closed (with_opened sl)) h H
  end.

Lemma openHead_eq s :
  (∀ p, p ∈ experimentQueue s → is_Some (slots s !! p)) →
  (∀ p sl, slots s !! p = Some sl → readyClosed sl = opened sl) →
  openHead s = (Ok tt, set_slots (openSlots (experimentQueue s)) s).
Proof.
  intros Hq Hr. unfold openHead, mbind, gom_bind, get. cbn.
  destruct (experimentQueue s) as [|h t] eqn:Hqs; [by destruct s|].
  destruct (Hq h) as [sl Hsl]; [set_solver|]. unfold loadSlot, mbind, gom_bind, get, lift_res.
  cbn. rewrite Hsl. cbn. destruct (opened sl) eqn:Ho.
  - cbn. f_equal. destruct s as [H]. cbn in *. unfold set_slots. cbn. f_equal.
    apply map_eq. intros k. destruct (decide (k = h)) as [->|]; [|by rewrite lookup_alter_ne].
    rewrite lookup_alter_eq, Hsl. cbn. pose proof (Hr _ _ Hsl) as Hrc. f_equal.
    destruct sl. cbn in *. by subst.
  - rewrite (closeReady_eq _ _ (with_opened sl)).
    + f_equal. unfold set_slots. cbn. f_equal. apply map_eq. intros k.
      destruct (decide (k = h)) as [->|].
      * by rewrite lookup_insert_eq, lookup_alter_eq, Hsl.
      * by rewrite !lookup_insert_ne, lookup_alter_ne.
    + apply lookup_insert_eq.
    + cbn. by rewrite (Hr _ _ Hsl).
Qed.

Lemma update_eq now s :
  Base s →
  ∃ q,
  updateQueuePositionsLocked now s =
    (Ok tt, set_workQueue (λ _, q)
      (set_experiments (loopRuns (idsOf s) 0 (experimentQueue s))
        (set_slots (λ H, openSlots (experimentQueue s)
                           (loopSlots now 0 (experimentQueue s) H)) s))) ∧
  length q = length (experimentQueue s) ∧
  ∀ i p sl, experimentQueue s !! i = Some p → slots s !! p = Some sl →
    ∃ it, q !! i = Some it ∧ ID it = ID (item sl) ∧ Position it = Z.of_nat i ∧
      State it = (if bool_decide (i = 0%nat) then "running" else "queued")%string ∧
      (i = 0%nat → is_Some (StartedAt it)).
Proof.
  intros HB.
  destruct (positionLoop_eq now (previousItems (workQueue s)) (experimentQueue s) 0 [] s)
    as (q & Hq & Hlen & Hits).
  { apply HB. }
  { apply list.Forall_forall. intros p Hp. by apply base_valid. }
  exists q. split_and!; [|done|].
  - unfold updateQueuePositionsLocked, mbind, gom_bind, get in *. rewrite Hq. cbn [modify].
    rewrite openHead_eq.
    + reflexivity.
    + cbn. intros p Hp. destruct (list_elem_of_lookup_1 _ _ Hp) as [i Hi].
      rewrite (loopSlots_lookup _ _ _ _ i); [|apply HB|done].
      destruct (b_queue _ HB p Hp) as (sl & -> & _). by eexists.
    + cbn. intros p sl Hp. destruct (decide (p ∈ experimentQueue s)) as [Hin|Hnin].
      * destruct (list_elem_of_lookup_1 _ _ Hin) as [i Hi].
        rewrite (loopSlots_lookup _ _ _ _ i) in Hp; [|apply HB|done].
        apply fmap_Some in Hp as (sl0 & Hsl0 & ->). cbn. by eapply b_ready.
      * rewrite loopSlots_other in Hp by done. by eapply b_ready.
  - intros i p sl Hi Hsl. eexists. split; [by apply (Hits i p sl)|].
    pose proof (positionItem_facts now i (item sl)) as (? & ? & ? & ?).
    pose proof (carryProgress_facts (previousItems (workQueue s))
                  (positionItem now (Z.of_nat i) (item sl))) as (E1 & E2 & E3 & E4).
    rewrite Z.add_0_l, E1, E2, E3, E4. done.
Qed.

Lemma openSlots_lookup q H p :
  openSlots q H !! p =
  if bool_decide (head q = Some p) then (λ sl, with_closed (with_opened sl)) <$> H !! p
  else H !! p.
Proof.
  destruct q as [|h t]; cbn; [done|]. destruct (decide (h = p)) as [->|Hne].
  - by rewrite lookup_alter_eq, bool_decide_eq_true_2.
  - rewrite lookup_alter_ne, bool_decide_eq_false_2; [done|congruence|done].
Qed.

(** The slot at [p] after an update of the positions. *)
Lemma updated_slot now s p sl' :
  Base s →
  openSlots (experimentQueue s) (loopSlots now 0 (experimentQueue s) (slots s)) !! p
    = Some sl' →
  ∃ sl, slots s !! p = Some sl ∧ core sl sl' ∧ ID (item sl') = ID (item sl) ∧
    readyClosed sl' = opened sl' ∧
    (if bool_decide (head (experimentQueue s) = Some p) then opened sl' = true
     else opened sl' = opened sl).
Proof.
  intros HB. rewrite openSlots_lookup.
  assert (∃ f : workSlot → workSlot,
    loopSlots now 0 (experimentQueue s) (slots s) !! p = f <$> slots s !! p ∧
    ∀ sl, core sl (f sl) ∧ ID (item (f sl)) = ID (item sl) ∧
      readyClosed (f sl) = readyClosed sl ∧ opened (f sl) = opened sl) as (f & -> & Hf).
  { destruct (decide (p ∈ experimentQueue s)) as [Hin|Hnin].
    - destruct (list_elem_of_lookup_1 _ _ Hin) as [i Hi].
      rewrite (loopSlots_lookup _ _ _ _ i); [|apply HB|done].
      eexists. split; [done|]. intros sl. cbn. split_and!; try done.
      apply positionItem_facts.
    - rewrite loopSlots_other by done. exists (λ sl, sl). by destruct (slots s !! p). }
  intros Hsl'. case_bool_decide as Hh.
  - rewrite <- option_fmap_compose in Hsl'. apply fmap_Some in Hsl' as (sl & Hsl & ->).
    destruct (Hf sl) as ((?&?&?&?&?) & ? & ? & ?). exists sl. by split_and!.
  - apply fmap_Some in Hsl' as (sl & Hsl & ->).
    destruct (Hf sl) as (? & ? & Hr & Ho). exists sl. split_and!; try done.
    rewrite Hr, Ho. by eapply b_ready.
Qed.

Lemma updated_frame now s q m :
  Base s →
  frame s (set_workQueue q (set_experiments m
    (set_slots (λ H, openSlots (experimentQueue s)
                       (loopSlots now 0 (experimentQueue s) H)) s))).
Proof.
  intros HB. split; try done. intros p. cbn.
  destruct (openSlots _ _ !! p) as [sl'|] eqn:Hp.
  - destruct (updated_slot _ _ _ _ HB Hp) as (sl & -> & Hc & _). by constructor.
  - rewrite openSlots_lookup in Hp.
    assert (loopSlots now 0 (experimentQueue s) (slots s) !! p = None) as Hl.
    { case_bool_decide; [|done]. by apply fmap_None in Hp. }
    destruct (decide (p ∈ experimentQueue s)) as [Hin|Hnin].
    + destruct (list_elem_of_lookup_1 _ _ Hin) as [i Hi].
      rewrite (loopSlots_lookup _ _ _ _ i) in Hl; [|apply HB|done].
      apply fmap_None in Hl. rewrite Hl. constructor.
    + rewrite loopSlots_other in Hl by done. rewrite Hl. constructor.
Qed.

Lemma update_spec now s :
  Base s → ∃ s', updateQueuePositionsLocked now s = (Ok tt, s') ∧ Queue s' ∧ frame s s'.
Proof.
  intros HB. destruct (update_eq now s HB) as (q & -> & Hlen & Hits).
  eexists. split; [done|]. pose proof (updated_frame now s (λ _, q)
    (loopRuns (idsOf s) 0 (experimentQueue s)) HB) as Hf.
  split; [|done]. set (s' := set_workQueue _ _) in *.
  assert (Hsl : ∀ p sl', slots s' !! p = Some sl' → ∃ sl, slots s !! p = Some sl ∧
    core sl sl' ∧ ID (item sl') = ID (item sl) ∧ readyClosed sl' = opened sl' ∧
    (if bool_decide (head (experimentQueue s) = Some p) then opened sl' = true
     else opened sl' = opened sl)) by (intros p sl'; by apply updated_slot).
  split; [split| | | |].
  - apply HB.
  - intros p Hp. destruct (b_queue _ HB p Hp) as (sl & Hs & Hfin).
    destruct (frame_some _ _ _ _ Hf Hs) as (sl' & ? & (_ & _ & _ & Hc & _)).
    exists sl'. by rewrite Hc.
  - intros p sl' Hp. destruct (Hsl _ _ Hp) as (sl & Hs & (Hc & _) & -> & _).
    rewrite Hc. by eapply b_itemid.
  - intros p sl' Hp. by destruct (Hsl _ _ Hp) as (sl & _ & _ & _ & ? & _).
  - intros p sl' Hp Hfin Ho.
    destruct (Hsl _ _ Hp) as (sl & Hs & (_ & _ & _ & Hc & _) & _ & _ & Hop).
    case_bool_decide; [done|]. eapply (b_opened _ HB); [done|congruence|congruence].
  - intros p sl' b Hp Hb.
    destruct (Hsl _ _ Hp) as (sl & Hs & (_ & _ & _ & _ & Hc) & _).
    eapply (b_batch _ HB); [done|congruence].
  - intros p p' rid Hp Hp' Hne. rewrite !(frame_ids _ _ _ Hf).
    by apply (b_disjoint _ HB).
  - intros p Hh. destruct (list_elem_of_lookup_1 (experimentQueue s) p) as [i Hi].
    { cbn in Hh. destruct (experimentQueue s); set_solver. }
    destruct (b_queue _ HB p) as (sl & Hs & _); [by eapply list_elem_of_lookup_2|].
    destruct (frame_some _ _ _ _ Hf Hs) as (sl' & Hs' & _).
    exists sl'. split; [done|]. destruct (Hsl _ _ Hs') as (? & _ & _ & _ & _ & Hop).
    by rewrite bool_decide_eq_true_2 in Hop.
  - done.
  - intros i p it Hi Hit. cbn in Hi, Hit.
    destruct (b_queue _ HB p) as (sl & Hs & _); [by eapply list_elem_of_lookup_2|].
    destruct (Hits i p sl Hi Hs) as (it' & Hit' & Hid & Hrest). simplify_eq.
    destruct (frame_some _ _ _ _ Hf Hs) as (sl' & Hs' & (Hc & _)).
    exists sl'. split_and!; [done| |apply Hrest..].
    rewrite Hc, Hid. by eapply b_itemid.
  - intros i p rid run Hi. rewrite (frame_ids _ _ _ Hf). cbn. intros Hrid Hrun.
    erewrite loopRuns_lookup in Hrun; [|apply HB|exact Hi|exact Hrid|].
    + apply fmap_Some in Hrun as (run0 & _ & ->). cbn. lia.
    + intros p' Hp' Hne Hrid'. eapply (b_disjoint _ HB); [..|exact Hrid|exact Hrid'];
        [by eapply list_elem_of_lookup_2|done|congruence].
Qed.

Lemma frame_trans s1 s2 s3 : frame s1 s2 → frame s2 s3 → frame s1 s3.
Proof.
  intros H12 H23. destruct H12 as [Hs12], H23 as [Hs23]. split; try congruence.
  intros p. specialize (Hs12 p). specialize (Hs23 p).
  inversion Hs12 as [a b Hab E1 E2|E1 E2].
  - rewrite <- E2 in Hs23. inversion Hs23 as [b' c Hbc E3 E4|]; subst.
    constructor. unfold core in *. naive_solver congruence.
  - rewrite <- E2 in Hs23. inversion Hs23. constructor.
Qed.

(** ** Removing a slot *)
Lemma queueIndex_Some p s i :
  queueIndex p s = Some i →
  experimentQueue s !! i = Some p ∧ (∀ j, experimentQueue s !! j = Some p → (i ≤ j)%nat).
Proof.
  unfold queueIndex. intros Hf. apply fmap_Some in Hf as ([j q] & Hf & ->).
  apply list_find_Some in Hf as (Hj & <- & Hmin). split; [done|]. cbn. intros k Hk.
  destruct (decide (k < j)%nat) as [Hlt|]; [|lia]. by destruct (Hmin k p Hk Hlt).
Qed.

Lemma queueIndex_None p s : queueIndex p s = None ↔ p ∉ experimentQueue s.
Proof.
  unfold queueIndex. split.
  - intros Hf Hp. apply fmap_None in Hf. apply list_find_None in Hf.
    rewrite list.Forall_forall in Hf. by apply (Hf p Hp).
  - intros Hp. destruct (list_find _ _) as [[j q]|] eqn:Hf; [|done].
    apply list_find_Some in Hf as (Hj & <- & _).
    destruct Hp. by eapply list_elem_of_lookup_2.
Qed.

Lemma filter_absent (l : list nat) p : p ∉ l → filter (λ q, q ≠ p) l = l.
Proof.
  induction l as [|x l IH]; intros Hp; [done|].
  rewrite filter_cons_True by set_solver. rewrite IH by set_solver. done.
Qed.

Lemma delete_filter (l : list nat) i p :
  NoDup l → l !! i = Some p → delete i l = filter (λ q, q ≠ p) l.
Proof.
  revert i. induction l as [|x l IH]; intros i Hnd Hi; [done|].
  apply list.NoDup_cons in Hnd as [Hx Hnd]. destruct i as [|i]; cbn in Hi.
  - simplify_eq. rewrite filter_cons_False by (intros Hn; by destruct Hn).
    cbn. by rewrite filter_absent.
  - rewrite filter_cons_True.
    + change (x :: delete i l = x :: filter (λ q, q ≠ p) l). by rewrite IH.
    + intros ->. apply Hx. by eapply list_elem_of_lookup_2.
Qed.

Definition without (p : nat) (s : Server) : Server :=
  set_experimentQueue (filter (λ q, q ≠ p)) s.

Lemma without_absent p s : p ∉ experimentQueue s → without p s = s.
Proof.
  intros Hp. unfold without, set_experimentQueue. destruct s. cbn in *. f_equal.
  by apply filter_absent.
Qed.

Lemma Base_experiments f s : Base s → Base (set_experiments f s).
Proof. intros []. by split. Qed.

Lemma remove_spec p now s :
  NoDup (experimentQueue s) → valid s p → Base (without p s) →
  (p ∉ experimentQueue s → Queue s) →
  ∃ s', removeWorkLocked p now s = (Ok tt, s') ∧ Queue s' ∧ frame (without p s) s'.
Proof.
  intros Hnd [sl [Hsl Hb]] HB HQ. unfold removeWorkLocked, get, mbind, gom_bind at 1.
  destruct (queueIndex p s) as [i|] eqn:Hi.
  - apply queueIndex_Some in Hi as [Hi _].
    set (s1 := without p s).
    assert (modify (set_experimentQueue (delete i)) s = (Ok tt, s1)) as Hm.
    { unfold modify, s1, without, set_experimentQueue. do 2 f_equal. by apply delete_filter. }
    assert (Hbr : batchRuns sl 0 s1 = (Ok tt, set_experiments (positionRuns 0 (idsOf s1 p)) s1)).
    { by apply batchRuns_eq. }
    destruct (update_spec now (set_experiments (positionRuns 0 (idsOf s1 p)) s1))
      as (s' & Hu & HQ' & Hf).
    { by apply Base_experiments. }
    exists s'. split_and!; [|done|].
    + unfold mbind, gom_bind. rewrite Hm. unfold loadSlot, mbind, gom_bind, get, lift_res.
      change (slots s1 !! p) with (slots s !! p). rewrite Hsl. cbn [deref]. by rewrite Hbr, Hu.
    + eapply frame_trans; [|done]. split; try done. intros q.
      destruct (slots _ !! q); by repeat constructor.
  - apply queueIndex_None in Hi. exists s. split_and!; [done|by apply HQ|].
    rewrite (without_absent p s Hi). split; try done. intros q.
    destruct (slots s !! q); by repeat constructor.
Qed.

Lemma frame_refl s : frame s s.
Proof. split; try done. intros q. destruct (slots s !! q); by repeat constructor. Qed.

Lemma Registry_frame s s' : Registry s → frame s s' → Registry s'.
Proof.
  intros HR Hf. split.
  - intros wid p. rewrite (f_workSlots _ _ Hf), (r_workSlots _ HR). split.
    + intros (sl & Hs & Hid & Hfin). destruct (frame_some _ _ _ _ Hf Hs) as (sl' & ? & Hc).
      exists sl'. destruct Hc as (-> & _ & _ & -> & _). done.
    + intros (sl' & Hs & Hid & Hfin). destruct (frame_some' _ _ _ _ Hf Hs) as (sl & ? & Hc).
      exists sl. destruct Hc as (<- & _ & _ & <- & _). done.
  - rewrite (f_workers _ _ Hf), (f_workSlots _ _ Hf). apply HR.
  - rewrite (f_repeat _ _ Hf), (f_batches _ _ Hf). apply HR.
  - rewrite (f_batches _ _ Hf). intros b x p Hb Hx.
    destruct (r_slot _ HR b x p Hb Hx) as [sl Hs].
    destruct (frame_some _ _ _ _ Hf Hs) as (sl' & ? & _). eauto.
Qed.

Lemma head_filter (l : list nat) p q :
  head l = Some q → q ≠ p → head (filter (λ r, r ≠ p) l) = Some q.
Proof.
  destruct l as [|h t]; intros Hh Hne; [done|]. cbn in Hh. simplify_eq.
  by rewrite filter_cons_True.
Qed.

(** A waiter's place can be removed without touching the head. *)
Lemma Base_without p s :
  Base s → head (experimentQueue s) ≠ Some p → Base (without p s).
Proof.
  intros HB Hh. split; try apply HB; cbn.
  - apply list.NoDup_filter, HB.
  - intros q Hq. apply list_elem_of_filter in Hq as [_ Hq]. by apply HB.
  - intros q sl Hs Hfin Ho. pose proof (b_opened _ HB q sl Hs Hfin Ho) as Hq.
    apply head_filter; congruence.
  - intros q q' rid Hq Hq'. apply list_elem_of_filter in Hq as [_ Hq].
    apply list_elem_of_filter in Hq' as [_ Hq']. by apply (b_disjoint _ HB).
Qed.

Lemma Registry_without p s : Registry s → Registry (without p s).
Proof. intros []. by split. Qed.

Definition finishSlot (p : nat) (sl : workSlot) (s : Server) : Server :=
  set_slots <[p := with_finished sl]> s.

Lemma idsOf_finishSlot p sl s q :
  slots s !! p = Some sl → idsOf (finishSlot p sl s) q = idsOf s q.
Proof.
  intros Hp. unfold idsOf. cbn. destruct (decide (q = p)) as [->|].
  - by rewrite lookup_insert_eq, Hp.
  - by rewrite lookup_insert_ne.
Qed.

Lemma lookup_finishSlot p sl s q sl' :
  slots s !! p = Some sl → slots (finishSlot p sl s) !! q = Some sl' →
  (q = p ∧ sl' = with_finished sl) ∨ (q ≠ p ∧ slots s !! q = Some sl').
Proof.
  intros Hp. cbn. destruct (decide (q = p)) as [->|].
  - rewrite lookup_insert_eq. naive_solver.
  - rewrite lookup_insert_ne by done. naive_solver.
Qed.

Lemma Base_finish p sl s :
  Base s → slots s !! p = Some sl → finished sl = false →
  Base (without p (finishSlot p sl s)).
Proof.
  intros HB Hp Hfin. split; cbn [without set_experimentQueue experimentQueue
    finishSlot set_slots].
  - apply list.NoDup_filter, HB.
  - intros q Hq. apply list_elem_of_filter in Hq as [Hne Hq].
    cbn. rewrite lookup_insert_ne by done. by apply HB.
  - intros q sl' Hq. destruct (lookup_finishSlot _ _ _ _ _ Hp Hq) as [[-> ->]|[? ?]];
      cbn; by eapply HB.
  - intros q sl' Hq. destruct (lookup_finishSlot _ _ _ _ _ Hp Hq) as [[-> ->]|[? ?]];
      cbn; by eapply HB.
  - intros q sl' Hq Hf Ho.
    destruct (lookup_finishSlot _ _ _ _ _ Hp Hq) as [[-> ->]|[Hne Hq']]; [done|].
    apply head_filter; [|done]. by eapply b_opened.
  - intros q sl' b Hq Hb. destruct (lookup_finishSlot _ _ _ _ _ Hp Hq) as [[-> ->]|[? ?]];
      cbn; by eapply HB.
  - intros q q' rid Hq Hq'. apply list_elem_of_filter in Hq as [_ Hq].
    apply list_elem_of_filter in Hq' as [_ Hq'].
    intros Hne H1 H2. eapply (b_disjoint _ HB q q' rid); try done.
    + by rewrite <- (idsOf_finishSlot p sl s q Hp).
    + by rewrite <- (idsOf_finishSlot p sl s q' Hp).
Qed.

Lemma Queue_finish_absent p sl s :
  Queue s → slots s !! p = Some sl → p ∉ experimentQueue s → Queue (finishSlot p sl s).
Proof.
  intros HQ Hp Hin. assert (Hb : Base (finishSlot p sl s)).
  { destruct (finished sl) eqn:Hfin.
    - assert (finishSlot p sl s = s) as ->; [|apply HQ].
      unfold finishSlot, set_slots. destruct s. cbn in *. f_equal.
      apply insert_id. rewrite Hp. f_equal. destruct sl. cbn in *. by subst.
    - rewrite <- (without_absent p (finishSlot p sl s)) by done.
      apply Base_finish; [apply HQ|done..]. }
  split; [done| | | |]; cbn [experimentQueue workQueue finishSlot set_slots experiments].
  - intros q Hq. destruct (q_head _ HQ q Hq) as (sl' & Hs & Ho). exists sl'. cbn.
    rewrite lookup_insert_ne; [done|]. intros ->.
    destruct (experimentQueue s); set_solver.
  - apply HQ.
  - intros i q it Hi Hit. destruct (q_published _ HQ i q it Hi Hit) as (sl' & Hs & Hrest).
    exists sl'. split; [|done]. cbn. rewrite lookup_insert_ne; [done|].
    intros ->. apply Hin. by eapply list_elem_of_lookup_2.
  - intros i q rid run Hi Hrid. rewrite (idsOf_finishSlot _ _ _ _ Hp) in Hrid.
    by eapply HQ.
Qed.

(** Retiring a slot: it leaves the queue, the registry and the wait group. *)
Lemma finish_spec p sl now s :
  Inv s → slots s !! p = Some sl → finished sl = false →
  ∃ s', finishWork (Some p) now s = (Ok tt, s') ∧ Inv s' ∧
    experimentQueue s' = filter (λ q, q ≠ p) (experimentQueue s) ∧
    workWorkers s' = workWorkers s - 1 ∧
    workSlots s' = delete (id sl) (workSlots s) ∧
    dom (slots s') = dom (slots s) ∧
    recentWorkCancels s' = recentWorkCancels s ∧
    (∀ q sq, q ≠ p → slots s !! q = Some sq → ∃ sq', slots s' !! q = Some sq' ∧ core sq sq') ∧
    ∃ sl', slots s' !! p = Some sl' ∧ finished sl' = true.
Proof.
  intros [HQ HR] Hp Hfin. set (s1 := finishSlot p sl s).
  assert (Hreg : workSlots s !! id sl = Some p) by (apply (r_workSlots _ HR); eauto).
  destruct (remove_spec p now s1) as (s2 & Hrem & HQ2 & Hf2).
  { apply HQ. }
  { exists (with_finished sl). split; [apply lookup_insert_eq|].
    intros b Hb. destruct (b_batch _ (q_base _ HQ) p sl b Hp Hb) as (x & Hx & _). eauto. }
  { by apply Base_finish; [apply HQ| |]. }
  { intros Hin. by apply Queue_finish_absent. }
  set (s3 := set_workSlots (delete (id sl)) s2).
  assert (Hsize : Z.of_nat (size (workSlots s3)) = workWorkers s2 - 1).
  { cbn. rewrite (f_workers _ _ Hf2), (f_workSlots _ _ Hf2). cbn.
    rewrite (r_workers _ HR). rewrite map_size_delete, Hreg.
    assert (size (workSlots s) ≠ 0%nat); [|lia].
    apply map_size_ne_0_lookup. eauto. }
  exists (set_workWorkers (λ n, n - 1) s3). split_and!.
  - unfold finishWork, finishWorkLocked, loadSlot, mbind, gom_bind, get, lift_res. cbn.
    rewrite Hp. cbn. rewrite Hfin. cbn. change (set_slots _ s) with s1. rewrite Hrem. cbn.
    unfold workersDone, mbind, gom_bind, get. cbn.
    destruct (Z.ltb_spec (workWorkers s2 - 1) 0); [lia|done].
  - split.
    + destruct HQ2 as [[] ? ? ? ?]. by split.
    + split; cbn.
      * intros wid q. rewrite lookup_delete_Some, (f_workSlots _ _ Hf2). cbn.
        rewrite (r_workSlots _ HR). split.
        -- intros [Hne (sq & Hq & Hid & Hfq)]. destruct (frame_some _ _ q sq Hf2) as (sq' & ? & Hc).
           { cbn. rewrite lookup_insert_ne; [done|]. intros <-. congruence. }
           exists sq'. destruct Hc as (-> & _ & _ & -> & _). done.
        -- intros (sq' & Hq & Hid & Hfq).
           destruct (frame_some' _ _ _ _ Hf2 Hq) as (sq & Hsq & Hc).
           destruct Hc as (Hid' & _ & _ & Hf' & _).
           destruct (lookup_finishSlot _ _ _ _ _ Hp Hsq) as [[-> ->]|[Hne Hsq']].
           { cbn in Hf'. congruence. }
           split; [|exists sq; by split_and!; congruence].
           intros Heq. assert (workSlots s !! id sq = Some q) as Hrq.
           { apply (r_workSlots _ HR). exists sq. by split_and!; congruence. }
           congruence.
      * cbn in Hsize. lia.
      * rewrite (f_repeat _ _ Hf2), (f_batches _ _ Hf2). apply HR.
      * rewrite (f_batches _ _ Hf2). intros b x q Hb Hx.
        destruct (r_slot _ HR b x q Hb Hx) as [sq Hq].
        destruct (decide (q = p)) as [->|Hne].
        -- destruct (frame_some _ _ p (with_finished sl) Hf2) as (? & ? & _); [|eauto].
           apply lookup_insert_eq.
        -- destruct (frame_some _ _ q sq Hf2) as (? & ? & _); [|eauto].
           cbn. by rewrite lookup_insert_ne.
  - cbn. by rewrite (f_queue _ _ Hf2).
  - cbn. by rewrite (f_workers _ _ Hf2).
  - cbn. by rewrite (f_workSlots _ _ Hf2).
  - cbn. apply set_eq. intros q. rewrite !elem_of_dom.
    pose proof (f_slots _ _ Hf2 q) as Hs. cbn in Hs. destruct (decide (q = p)) as [->|Hne].
    + rewrite lookup_insert_eq in Hs. inversion Hs. rewrite Hp. split; eauto.
    + rewrite lookup_insert_ne in Hs by done. inversion Hs; split; eauto; by intros [].
  - apply (f_recent _ _ Hf2).
  - intros q sq Hne Hq. cbn. apply (frame_some _ _ _ _ Hf2). cbn. by rewrite lookup_insert_ne.
  - destruct (frame_some _ _ p (with_finished sl) Hf2) as (sl' & ? & Hc).
    { apply lookup_insert_eq. }
    exists sl'. split; [done|]. by destruct Hc as (_ & _ & _ & -> & _).
Qed.

(** ** Changes the invariant does not see *)
Definition same_public (it it' : WorkQueueItem) : Prop :=
  ID it' = ID it ∧ Position it' = Position it ∧ State it' = State it ∧
  StartedAt it' = StartedAt it.

Record quiet (s s' : Server) : Prop := {
  qu_slots : slots s' = slots s;
  qu_batches : ∀ p sl b x, slots s !! p = Some sl → batch sl = Some b →
    batches s !! b = Some x → batches s' !! b = Some x;
  qu_slot : ∀ b x p, batches s' !! b = Some x → slot x = Some p → is_Some (slots s !! p);
  qu_workSlots : workSlots s' = workSlots s;
  qu_queue : experimentQueue s' = experimentQueue s;
  qu_workers : workWorkers s' = workWorkers s;
  qu_published : Forall2 same_public (workQueue s) (workQueue s');
  qu_repeat : ∀ rid b, repeatBatches s' !! rid = Some b → is_Some (batches s' !! b);
  qu_experiments : ∀ p rid run', p ∈ experimentQueue s → rid ∈ idsOf s p →
    experiments s' !! rid = Some run' →
    ∃ run, experiments s !! rid = Some run ∧ QueuePosition run' = QueuePosition run }.

Lemma quiet_ids s s' p : Base s → quiet s s' → idsOf s' p = idsOf s p.
Proof.
  intros HB Hq. unfold idsOf. rewrite (qu_slots _ _ Hq).
  destruct (slots s !! p) as [sl|] eqn:Hp; [|done]. cbn.
  destruct (batch sl) as [b|] eqn:Hb; [|done]. cbn.
  destruct (b_batch _ HB p sl b Hp Hb) as (x & Hx & _).
  by rewrite Hx, (qu_batches _ _ Hq _ _ _ _ Hp Hb Hx).
Qed.

Lemma Base_quiet s s' : Base s → quiet s s' → Base s'.
Proof.
  intros HB Hq. split; try (rewrite ?(qu_slots _ _ Hq), ?(qu_queue _ _ Hq); by apply HB).
  - intros p sl b. rewrite (qu_slots _ _ Hq). intros Hp Hb.
    destruct (b_batch _ HB p sl b Hp Hb) as (x & Hx & Hr). exists x. split; [|done].
    by eapply (qu_batches _ _ Hq).
  - intros p p' rid. rewrite (qu_queue _ _ Hq), !(quiet_ids s s') by done. by apply HB.
Qed.

Lemma Inv_quiet s s' : Inv s → quiet s s' → Inv s'.
Proof.
  intros [HQ HR] Hq. pose proof (qu_slots _ _ Hq) as Hsl.
  pose proof (qu_queue _ _ Hq) as Heq. split; split.
  - apply (Base_quiet s); [apply HQ|done].
  - rewrite Hsl, Heq. apply (q_head _ HQ).
  - rewrite Heq. rewrite <- (list.Forall2_length _ _ _ (qu_published _ _ Hq)). apply HQ.
  - intros i p it'. rewrite Heq. intros Hi Hit.
    destruct (Forall2_lookup_r _ _ _ _ _ (qu_published _ _ Hq) Hit) as (it & Hit0 & E).
    destruct (q_published _ HQ i p it Hi Hit0) as (sl & Hs & ? & ? & ? & ?).
    destruct E as (E1 & E2 & E3 & E4). exists sl. rewrite Hsl, E1, E2, E3, E4. done.
  - intros i p rid run'. rewrite Heq, (quiet_ids s s') by (done || apply HQ).
    intros Hi Hrid Hrun.
    destruct (qu_experiments _ _ Hq p rid run') as (run & Hr & ->); try done.
    + by eapply list_elem_of_lookup_2.
    + by eapply HQ.
  - rewrite (qu_workSlots _ _ Hq), Hsl. apply HR.
  - rewrite (qu_workers _ _ Hq), (qu_workSlots _ _ Hq). apply HR.
  - apply (qu_repeat _ _ Hq).
  - intros b x p Hb Hx. rewrite Hsl. by eapply (qu_slot _ _ Hq).
Qed.

Lemma same_public_refl q : Forall2 same_public q q.
Proof. induction q; by constructor. Qed.

Lemma Inv_interleaves s s' : Inv s → interleaves s s' → Inv s'.
Proof.
  intros HI Hil. apply (Inv_quiet s); [done|]. destruct HI as [HQ HR].
  split; try apply Hil.
  - intros p sl b x _ _. apply Hil.
  - intros b x p Hb Hx. destruct (batches s !! b) as [x0|] eqn:Hb0.
    + pose proof (il_batches _ _ Hil b x0 Hb0). simplify_eq. by eapply HR.
    + destruct (il_new _ _ Hil b x Hb Hb0). congruence.
  - rewrite (il_published _ _ Hil). apply same_public_refl.
Qed.

(** [quiet] changes of a state that keep the batches. *)
Lemma quiet_intro s s' :
  Inv s → slots s' = slots s → batches s' = batches s → workSlots s' = workSlots s →
  experimentQueue s' = experimentQueue s → workWorkers s' = workWorkers s →
  Forall2 same_public (workQueue s) (workQueue s') → repeatBatches s' = repeatBatches s →
  (∀ rid run', experiments s' !! rid = Some run' →
    ∃ run, experiments s !! rid = Some run ∧ QueuePosition run' = QueuePosition run) →
  quiet s s'.
Proof.
  intros [HQ HR] Hs Hb Hw Hq Hn Hp Hr He. split; try done; rewrite ?Hb, ?Hr; try apply HR.
  - done.
  - intros p rid run' _ _. apply He.
Qed.

Lemma experiments_id (m : gmap string Experiment) rid run' :
  m !! rid = Some run' →
  ∃ run, m !! rid = Some run ∧ QueuePosition run' = QueuePosition run.
Proof. eauto. Qed.

Lemma quiet_trans_inv s1 s2 s3 : Inv s1 → quiet s1 s2 → (Inv s2 → quiet s2 s3) → Inv s3.
Proof. intros H1 H12 H23. apply (Inv_quiet s2); eauto using Inv_quiet. Qed.

Lemma statusLoop_public wid phase progress q :
  Forall2 same_public q (statusLoop wid phase progress q).
Proof.
  induction q as [|it q IH]; cbn; [constructor|].
  case_match; constructor; try done; by apply same_public_refl.
Qed.

Lemma Inv_status wid phase progress s :
  Inv s → Inv (snd (updateWorkStatus wid phase progress s)).
Proof.
  intros HI. eapply Inv_quiet; [done|]. apply quiet_intro; try done.
  - apply statusLoop_public.
  - apply experiments_id.
Qed.

Lemma Inv_cancelContext c s : Inv s → Inv (snd (cancelContext c s)).
Proof.
  intros HI. eapply Inv_quiet; [done|]. apply quiet_intro; try done.
  - apply same_public_refl.
  - apply experiments_id.
Qed.

Lemma Inv_recent f s : Inv s → Inv (set_recentWorkCancels f s).
Proof.
  intros HI. eapply Inv_quiet; [done|]. apply quiet_intro; try done.
  - apply same_public_refl.
  - apply experiments_id.
Qed.

Lemma Inv_cleanup f s : Inv s → Inv (set_queueCleanup f s).
Proof.
  intros HI. eapply Inv_quiet; [done|]. apply quiet_intro; try done.
  - apply same_public_refl.
  - apply experiments_id.
Qed.

Lemma Inv_runs f s : Inv s → Inv (set_runs f s).
Proof.
  intros HI. eapply Inv_quiet; [done|]. apply quiet_intro; try done.
  - apply same_public_refl.
  - apply experiments_id.
Qed.

Lemma Inv_stopRequested rid execution s :
  Inv s → Inv (snd (markStopRequestedLocked rid execution s)).
Proof.
  intros HI. eapply Inv_quiet; [done|]. apply quiet_intro; try done.
  - apply same_public_refl.
  - cbn. intros k run'. rewrite map_lookup_imap. destruct (experiments s !! k) as [run|]; [|done].
    cbn. intros [= <-]. exists run. split; [done|]. by repeat case_match.
Qed.

(** ** Admission *)
Definition newSlot (c : nat) (it : WorkQueueItem) (cancelf : option nat) (wid : string)
    (now : Z) : workSlot :=
  mkSlot wid (mkItem wid (Kind it) (Name it) (RunID it) (BatchID it) (OperationID it)
              "queued" (Position it) now None "" F64.zero) c cancelf false false false None.

(** The queue just before the positions are updated. *)
Definition pushed (p : nat) (sl : workSlot) (s : Server) : Server :=
  set_experimentQueue (λ q, q ++ [p])
    (set_workWorkers (λ n, n + 1)
      (set_workSlots <[id sl := p]> (set_slots <[p := sl]> s))).

Lemma lookup_insert_slot p sl (m : gmap nat workSlot) q sl' :
  <[p := sl]> m !! q = Some sl' → (q = p ∧ sl' = sl) ∨ (q ≠ p ∧ m !! q = Some sl').
Proof.
  destruct (decide (q = p)) as [->|].
  - rewrite lookup_insert_eq. naive_solver.
  - rewrite lookup_insert_ne by done. naive_solver.
Qed.

Lemma head_app_some {A} (l : list A) k h : head l = Some h → head (l ++ k) = Some h.
Proof. by destruct l. Qed.

Lemma idsOf_insert_ne s p sl q :
  q ≠ p → idsOf (set_slots <[p := sl]> s) q = idsOf s q.
Proof. intros Hne. unfold idsOf. cbn. by rewrite lookup_insert_ne. Qed.

Lemma Base_push p sl s :
  Base s → slots s !! p = None → ID (item sl) = id sl → finished sl = false →
  opened sl = false → readyClosed sl = false → batch sl = None →
  Base (pushed p sl s).
Proof.
  intros HB Hp Hid Hfin Ho Hr Hb.
  assert (Hnin : p ∉ experimentQueue s).
  { intros Hin. destruct (b_queue _ HB p Hin) as (? & ? & _). congruence. }
  assert (Hnone : idsOf (pushed p sl s) p = []).
  { unfold idsOf. cbn. rewrite lookup_insert_eq. cbn. by rewrite Hb. }
  split; cbn [pushed set_experimentQueue set_workWorkers set_workSlots set_slots
              experimentQueue slots batches].
  - apply list.NoDup_app. split_and!; [apply HB|set_solver|apply NoDup_singleton].
  - intros q Hq. destruct (decide (q = p)) as [->|Hne].
    + rewrite lookup_insert_eq. eauto.
    + rewrite lookup_insert_ne by done. apply HB. set_solver.
  - intros q sl' Hq. destruct (lookup_insert_slot _ _ _ _ _ Hq) as [[-> ->]|[? ?]];
      [done|by eapply HB].
  - intros q sl' Hq. destruct (lookup_insert_slot _ _ _ _ _ Hq) as [[-> ->]|[? ?]];
      [congruence|by eapply HB].
  - intros q sl' Hq Hf Hop. destruct (lookup_insert_slot _ _ _ _ _ Hq) as [[-> ->]|[? ?]];
      [congruence|]. apply head_app_some. by eapply HB.
  - intros q sl' b Hq Hb'. destruct (lookup_insert_slot _ _ _ _ _ Hq) as [[-> ->]|[? ?]];
      [congruence|by eapply HB].
  - intros q q' rid Hq Hq' Hne H1 H2.
    destruct (decide (q = p)) as [->|Hqp]; [by rewrite Hnone in H1; set_solver|].
    destruct (decide (q' = p)) as [->|Hqp']; [by rewrite Hnone in H2; set_solver|].
    apply (b_disjoint _ HB q q' rid); [set_solver..|done| |].
    + by rewrite <- (idsOf_insert_ne s p sl q).
    + by rewrite <- (idsOf_insert_ne s p sl q').
Qed.

Lemma Registry_push p sl s :
  Registry s → slots s !! p = None → finished sl = false →
  (∀ q sq, slots s !! q = Some sq → id sq ≠ id sl) →
  Registry (pushed p sl s).
Proof.
  intros HR Hp Hfin Hfresh.
  assert (Hnone : workSlots s !! id sl = None).
  { apply eq_None_not_Some. intros [q Hq]. apply (r_workSlots _ HR) in Hq as (sq & Hs & Hid & _).
    by apply (Hfresh q sq). }
  split; cbn.
  - intros wid q. rewrite lookup_insert_Some. split.
    + intros [[<- <-]|[Hne Hq]].
      * exists sl. by rewrite lookup_insert_eq.
      * apply (r_workSlots _ HR) in Hq as (sq & Hs & Hrest). exists sq.
        rewrite lookup_insert_ne; [done|congruence].
    + intros (sq & Hq & Hid & Hf). destruct (lookup_insert_slot _ _ _ _ _ Hq) as [[-> ->]|[Hne Hs]].
      * by left.
      * right. split; [|by apply (r_workSlots _ HR); eauto].
        intros Heq. apply (Hfresh q sq Hs). congruence.
  - rewrite map_size_insert_None by done. rewrite (r_workers _ HR). lia.
  - apply HR.
  - intros b x q Hb Hx. destruct (decide (q = p)) as [->|].
    + rewrite lookup_insert_eq. eauto.
    + rewrite lookup_insert_ne by done. by eapply HR.
Qed.

Lemma enqueue_spec c it cancelf wid now s :
  Inv s → (∀ q sq, slots s !! q = Some sq → id sq ≠ wid) →
  let p := fresh (dom (slots s)) in
  ∃ s', enqueueWorkLocked c it cancelf wid now s = (Ok p, s') ∧ Inv s' ∧
    frame (pushed p (newSlot c it cancelf wid now) s) s'.
Proof.
  intros [HQ HR] Hfresh p.
  assert (Hp : slots s !! p = None).
  { apply not_elem_of_dom, is_fresh. }
  destruct (update_spec now (pushed p (newSlot c it cancelf wid now) s)) as (s' & Hu & HQ' & Hf).
  { apply Base_push; try done. apply HQ. }
  exists s'. split_and!.
  - unfold enqueueWorkLocked, mbind, gom_bind, get. cbn. fold p.
    change (set_experimentQueue _ _) with (pushed p (newSlot c it cancelf wid now) s).
    by rewrite Hu.
  - split; [done|]. eapply Registry_frame; [|done]. by apply Registry_push.
  - done.
Qed.

(** A slot's batch is attached, and its runs get their positions. *)
Definition attached (p b : nat) (sl : workSlot) (x : repeatBatch) (s : Server) : Server :=
  set_slots <[p := with_batch b sl]> (set_batches <[b := with_slot p x]> s).

Lemma attached_ids p b sl x s q :
  Base s → slots s !! p = Some sl → batches s !! b = Some x → slot x = None →
  idsOf (attached p b sl x s) q = if bool_decide (q = p) then queuedIDs x else idsOf s q.
Proof.
  intros HB Hp Hb Hx. unfold idsOf. cbn. case_bool_decide as Hqp.
  - subst. rewrite lookup_insert_eq. cbn. by rewrite lookup_insert_eq.
  - rewrite lookup_insert_ne by done. destruct (slots s !! q) as [sq|] eqn:Hq; [|done]. cbn.
    destruct (batch sq) as [b'|] eqn:Hb'; [|done]. cbn. rewrite lookup_insert_ne; [done|].
    intros ->. destruct (b_batch _ HB q sq b' Hq Hb') as (x' & ? & ? & _). congruence.
Qed.

Lemma attach_inv p b sl x now s :
  Inv s → slots s !! p = Some sl → batch sl = None → batches s !! b = Some x →
  slot x = None → queuedIDs x ≠ [] →
  (∀ q rid, q ∈ experimentQueue s → q ≠ p → rid ∈ queuedIDs x → rid ∉ idsOf s q) →
  ∃ s', updateQueuePositionsLocked now (attached p b sl x s) = (Ok tt, s') ∧ Inv s' ∧
    frame (attached p b sl x s) s'.
Proof.
  intros [HQ HR] Hp Hsb Hb Hx Hne Hdis. pose proof (q_base _ HQ) as HB.
  pose proof (λ q, attached_ids p b sl x s q HB Hp Hb Hx) as Hids.
  assert (Hsl : ∀ q sq, slots (attached p b sl x s) !! q = Some sq →
    (q = p ∧ sq = with_batch b sl) ∨ (q ≠ p ∧ slots s !! q = Some sq)).
  { intros q sq. apply lookup_insert_slot. }
  assert (HB' : Base (attached p b sl x s)).
  { split; try apply HB.
    - intros q Hq. destruct (b_queue _ HB q Hq) as (sq & Hs & Hf). cbn.
      destruct (decide (q = p)) as [->|].
      + rewrite lookup_insert_eq. eexists. split; [done|]. cbn. congruence.
      + rewrite lookup_insert_ne by done. eauto.
    - intros q sq Hq. destruct (Hsl _ _ Hq) as [[-> ->]|[? ?]]; cbn; by eapply HB.
    - intros q sq Hq. destruct (Hsl _ _ Hq) as [[-> ->]|[? ?]]; cbn; by eapply HB.
    - intros q sq Hq Hf Ho. destruct (Hsl _ _ Hq) as [[-> ->]|[? ?]]; cbn; by eapply HB.
    - intros q sq b' Hq Hb'. cbn. destruct (Hsl _ _ Hq) as [[-> ->]|[Hqp Hs]].
      + cbn in Hb'. simplify_eq. rewrite lookup_insert_eq. eauto.
      + destruct (b_batch _ HB q sq b' Hs Hb') as (x' & Hx' & Hx'' & ?).
        rewrite lookup_insert_ne by congruence. eauto.
    - intros q q' rid Hq Hq' Hqq. rewrite !Hids. repeat case_bool_decide; subst; try done.
      + intros H1 H2. by eapply (Hdis q' rid).
      + intros H1 H2. by eapply (Hdis q rid).
      + by apply HB. }
  destruct (update_spec now _ HB') as (s' & Hu & HQ' & Hf). exists s'. split_and!; [done| |done].
  split; [done|]. eapply Registry_frame; [|done]. split; cbn.
  - intros wid q. rewrite (r_workSlots _ HR). destruct (decide (q = p)) as [->|].
    + rewrite lookup_insert_eq, Hp. split; intros (? & [= <-] & ?); eexists; by split.
    + by rewrite lookup_insert_ne.
  - apply HR.
  - intros rid b' Hr. destruct (decide (b' = b)) as [->|].
    + rewrite lookup_insert_eq. eauto.
    + rewrite lookup_insert_ne by done. by eapply HR.
  - intros b' x' q. intros Hb' Hx'. destruct (decide (q = p)) as [->|].
    + rewrite lookup_insert_eq. eauto.
    + rewrite lookup_insert_ne by done. destruct (decide (b' = b)) as [->|].
      * rewrite lookup_insert_eq in Hb'. simplify_eq. cbn in Hx'. congruence.
      * rewrite lookup_insert_ne in Hb' by done. by eapply HR.
Qed.

Lemma set_batches_twice b x y s :
  set_batches <[b := y]> (set_batches <[b := x]> s) = set_batches <[b := y]> s.
Proof. unfold set_batches. cbn. by rewrite insert_insert_eq. Qed.

Lemma queueIDs_eq b rs x s :
  batches s !! b = Some x →
  miter (queueID b) rs s
  = (Ok tt, set_batches <[b := with_queuedIDs (queuedIDs x ++ map ExpID rs) x]> s).
Proof.
  revert x s. induction rs as [|r rs IH]; intros x s Hb.
  - cbn. rewrite app_nil_r. unfold set_batches. rewrite insert_id; [by destruct s|].
    rewrite Hb. by destruct x.
  - set (x1 := with_queuedIDs (queuedIDs x ++ [ExpID r]) x).
    assert (queueID b r s = (Ok tt, set_batches <[b := x1]> s)) as Hr.
    { unfold queueID, loadBatch, mbind, gom_bind, get, lift_res. by rewrite Hb. }
    cbn [miter]. unfold mbind, gom_bind. rewrite Hr, (IH x1).
    + rewrite set_batches_twice. unfold x1. cbn. by rewrite <- app_assoc.
    + apply lookup_insert_eq.
Qed.

Lemma Inv_store_batch b x x' s :
  Inv s → batches s !! b = Some x → slot x = None → slot x' = None →
  Inv (set_batches <[b := x']> s).
Proof.
  intros HI Hb Hx Hx'. apply (Inv_quiet s); [done|]. destruct HI as [HQ HR].
  split; try done; cbn.
  - intros p sl b' y Hp Hb' Hy. rewrite lookup_insert_ne; [done|]. intros <-.
    destruct (b_batch _ (q_base _ HQ) p sl b Hp Hb') as (y' & ? & ? & _). congruence.
  - intros b' y p Hb' Hy. destruct (decide (b' = b)) as [->|].
    + rewrite lookup_insert_eq in Hb'. congruence.
    + rewrite lookup_insert_ne in Hb' by done. by eapply HR.
  - apply same_public_refl.
  - intros rid b' Hr. destruct (decide (b' = b)) as [->|].
    + rewrite lookup_insert_eq. eauto.
    + rewrite lookup_insert_ne by done. by eapply HR.
  - intros p rid run' _ _. apply experiments_id.
Qed.

Lemma enqueueExperiments_spec c b rs wid now now' s :
  Inv s → allowed s (OpEnqueueExperiments c b rs wid now now') →
  let p := fresh (dom (slots s)) in
  ∃ s', enqueueExperimentsLocked c b rs wid now now' s = (Ok tt, s') ∧ Inv s' ∧
    experimentQueue s' = experimentQueue s ++ [p] ∧ idsOf s' p = map ExpID rs ∧
    (∀ q sq, slots s !! q = Some sq → ∃ sq', slots s' !! q = Some sq' ∧ core sq sq') ∧
    recentWorkCancels s' = recentWorkCancels s.
Proof.
  intros HI (Hfresh & Hrs & (x & Hb & Hx & Hxq) & Hdis) p.
  destruct rs as [|r0 rs]; [done|].
  set (x1 := with_queuedIDs (queuedIDs x ++ map ExpID (r0 :: rs)) x).
  set (s1 := set_batches <[b := x1]> s).
  assert (HI1 : Inv s1) by (by eapply Inv_store_batch).
  assert (Hids1 : ∀ q, idsOf s1 q = idsOf s q).
  { intros q. unfold idsOf. cbn. destruct (slots s !! q) as [sq|] eqn:Hq; [|done]. cbn.
    destruct (batch sq) as [b'|] eqn:Hb'; [|done]. cbn. rewrite lookup_insert_ne; [done|].
    intros <-. destruct (b_batch _ (q_base _ (proj1 HI)) q sq b Hq Hb') as (y & ? & ? & _).
    congruence. }
  set (it := mkItem "" "experiment" (ExpName r0) (ExpID r0) (ExpBatchID r0) "" "" 0 0 None ""
           F64.zero).
  destruct (enqueue_spec c it (Some (bcancel x1)) wid now s1 HI1 Hfresh) as (s2 & He & HI2 & Hf2).
  change (fresh (dom (slots s1))) with p in He, Hf2.
  set (sl := newSlot c it (Some (bcancel x1)) wid now) in *.
  assert (Hpn : slots s !! p = None) by apply not_elem_of_dom, is_fresh.
  destruct (frame_some _ _ p sl Hf2) as (sl2 & Hsl2 & (_ & _ & _ & _ & Hc)).
  { cbn. apply lookup_insert_eq. }
  assert (Hq2 : experimentQueue s2 = experimentQueue s ++ [p]) by apply (f_queue _ _ Hf2).
  assert (Hids2 : ∀ q, q ≠ p → idsOf s2 q = idsOf s q).
  { intros q Hq. rewrite (frame_ids _ _ _ Hf2), <- Hids1.
    by apply (idsOf_insert_ne s1). }
  destruct (attach_inv p b sl2 x1 now' s2) as (s3 & Hu & HI3 & Hf3); try done.
  { rewrite (f_batches _ _ Hf2). cbn. apply lookup_insert_eq. }
  { cbn. by rewrite Hxq. }
  { intros q rid Hq Hne Hrid. rewrite Hids2 by done. cbn in Hrid. rewrite Hxq in Hrid.
    change (rid ∈ map ExpID (r0 :: rs)) in Hrid.
    apply list_elem_of_fmap in Hrid as (r & -> & Hr). apply Hdis; [|done].
    rewrite Hq2 in Hq. set_solver. }
  exists (set_runs (λ n, n + 1) s3). split_and!.
  - unfold enqueueExperimentsLocked, mbind, gom_bind.
    rewrite (queueIDs_eq b (r0 :: rs) x s Hb). fold x1 s1. cbn [head deref lift_res].
    assert (Hload : loadBatch b s1 = (Ok x1, s1)).
    { unfold loadBatch, mbind, gom_bind, get, lift_res. cbn. by rewrite lookup_insert_eq. }
    rewrite Hload. fold it. rewrite He. cbn [storeBatch modify].
    unfold loadSlot, mbind, gom_bind, get, lift_res. cbn [slots set_batches]. rewrite Hsl2.
    cbn [deref storeSlot modify]. change (set_slots _ _) with (attached p b sl2 x1 s2).
    by rewrite Hu.
  - by apply Inv_runs.
  - cbn. by rewrite (f_queue _ _ Hf3).
  - change (idsOf s3 p = map ExpID (r0 :: rs)). rewrite (frame_ids _ _ _ Hf3).
    rewrite attached_ids; [|apply HI2|done| |done].
    + rewrite bool_decide_eq_true_2 by done. cbn. by rewrite Hxq.
    + rewrite (f_batches _ _ Hf2). cbn. apply lookup_insert_eq.
  - intros q sq Hq. assert (Hne : q ≠ p) by (intros ->; congruence).
    destruct (frame_some _ _ q sq Hf2) as (sq2 & Hs2 & H2).
    { cbn. by rewrite lookup_insert_ne. }
    destruct (frame_some _ _ q sq2 Hf3) as (sq3 & Hs3 & H3).
    { cbn. by rewrite lookup_insert_ne. }
    exists sq3. split; [done|]. unfold core in *. naive_solver congruence.
  - cbn. rewrite (f_recent _ _ Hf3). cbn. by rewrite (f_recent _ _ Hf2).
Qed.

(** ** Waiting and cancellation *)
Lemma remove_waiter p now i s :
  Inv s → queueIndex p s = Some (S i) →
  ∃ s', removeWorkLocked p now s = (Ok tt, s') ∧ Inv s' ∧ frame (without p s) s'.
Proof.
  intros [HQ HR] Hi. apply queueIndex_Some in Hi as [Hi Hmin]. pose proof (q_base _ HQ) as HB.
  assert (Hin : p ∈ experimentQueue s) by by eapply list_elem_of_lookup_2.
  destruct (remove_spec p now s) as (s' & Hr & HQ' & Hf).
  - apply HB.
  - by apply base_valid.
  - apply Base_without; [done|]. intros Hh.
    assert (experimentQueue s !! 0%nat = Some p) as H0 by by destruct (experimentQueue s).
    specialize (Hmin 0%nat H0). lia.
  - done.
  - exists s'. split_and!; [done| |done]. split; [done|].
    eapply Registry_frame; [|done]. by apply Registry_without.
Qed.

(** What a canceled waiter or a cancellation does to the queue. *)
Definition dropped (p : nat) (s s' : Server) : Prop :=
  experimentQueue s' =
    match queueIndex p s with
    | Some (S _) => filter (λ q, q ≠ p) (experimentQueue s)
    | _ => experimentQueue s
    end.

Lemma waitDone_spec p now s :
  Inv s → ∃ s', waitDone p now s = (Err "context canceled", s') ∧ Inv s' ∧ dropped p s s'.
Proof.
  intros HI. unfold waitDone, dropped, mbind, gom_bind, get.
  destruct (queueIndex p s) as [[|i]|] eqn:Hi; [by exists s| |by exists s].
  destruct (remove_waiter p now i s HI Hi) as (s' & -> & ? & Hf).
  exists s'. split_and!; [done..|]. apply (f_queue _ _ Hf).
Qed.

Definition kept (s s' : Server) : Prop :=
  Inv s' ∧ slots s' = slots s ∧ batches s' = batches s ∧ workSlots s' = workSlots s ∧
  experimentQueue s' = experimentQueue s ∧ recentWorkCancels s' = recentWorkCancels s.

Lemma cancelRepeat_kept rid s :
  Inv s → ∃ b s', cancelRepeatLocked rid s = (Ok b, s') ∧ kept s s'.
Proof.
  intros HI. unfold cancelRepeatLocked, mbind, gom_bind, get.
  destruct (repeatBatches s !! rid) as [b|] eqn:Hb.
  2: { exists false, s. by split_and!. }
  destruct (r_repeat _ (proj2 HI) rid b Hb) as [x Hx].
  unfold loadBatch, mbind, gom_bind, get, lift_res. rewrite Hx. cbn [deref].
  case_match; [by exists false, s; split_and!|].
  case_match; [by exists false, s; split_and!|].
  set (s1 := snd (markStopRequestedLocked rid (executionID x) s)).
  change (markStopRequestedLocked rid (executionID x) s) with (@Ok unit tt, s1).
  pose proof (Inv_stopRequested rid (executionID x) s HI : Inv s1) as HI1.
  destruct (slot x) as [p|] eqn:Hp.
  - destruct (r_slot _ (proj2 HI) b x p Hx Hp) as [sl Hsl].
    unfold loadSlot, mbind, gom_bind, get, lift_res. change (slots s1) with (slots s).
    rewrite Hsl. cbn [deref].
    pose proof (Inv_status (id sl) "Stopping" F64.zero s1 HI1) as HI2.
    eexists true, _. split; [done|]. split; [|done]. exact (Inv_cancelContext (bcancel x) _ HI2).
  - eexists true, _. split; [done|]. split; [|done]. exact (Inv_cancelContext (bcancel x) _ HI1).
Qed.

Lemma kept_refl s : Inv s → kept s s.
Proof. intros HI. by split_and!. Qed.

Lemma registered_slot wid p s :
  Inv s → workSlots s !! wid = Some p →
  ∃ sl, slots s !! p = Some sl ∧ id sl = wid ∧ finished sl = false ∧
    ∀ b, batch sl = Some b → ∃ x rid, batches s !! b = Some x ∧ head (queuedIDs x) = Some rid.
Proof.
  intros HI Hw. apply (r_workSlots _ (proj2 HI)) in Hw as (sl & Hsl & Hid & Hf).
  exists sl. split_and!; try done. intros b Hb.
  destruct (b_batch _ (q_base _ (proj1 HI)) p sl b Hsl Hb) as (x & Hx & _ & Hne).
  destruct (queuedIDs x) as [|rid l] eqn:Hq; [done|]. exists x, rid. by rewrite Hq.
Qed.

(** The cancellation part of [cancelWork]. *)
Definition cancelSlot (sl : workSlot) : GoM Server unit :=
  match batch sl with
  | Some b =>
      x ← loadBatch b;
      rid ← lift_res (deref (head (queuedIDs x)));
      stopped ← cancelRepeatLocked rid;
      if stopped : bool then mret tt else throw "execution changed"
  | None => match cancel sl with Some c => cancelContext c | None => mret tt end
  end.

Lemma cancelSlot_kept wid p sl s :
  Inv s → workSlots s !! wid = Some p → slots s !! p = Some sl →
  ∃ r s', cancelSlot sl s = (r, s') ∧ kept s s' ∧
    (r = Ok tt ∨ r = Err "execution changed" ∧ is_Some (batch sl)).
Proof.
  intros HI Hw Hsl. destruct (registered_slot wid p s HI Hw) as (sl' & ? & _ & _ & Hb).
  simplify_eq. unfold cancelSlot. destruct (batch sl) as [b|].
  - destruct (Hb b eq_refl) as (x & rid & Hx & Hrid).
    unfold loadBatch, mbind, gom_bind, get, lift_res. rewrite Hx. cbn [deref]. rewrite Hrid.
    cbn [deref]. destruct (cancelRepeat_kept rid s HI) as ([] & s' & -> & Hk).
    + exists (Ok tt), s'. eauto.
    + exists (Err "execution changed"), s'. eauto 6.
  - destruct (cancel sl) as [c|].
    + exists (Ok tt), (snd (cancelContext c s)). split_and!; [done| |by left].
      split_and!; try done. by apply Inv_cancelContext.
    + exists (Ok tt), s. split_and!; [done|by apply kept_refl|by left].
Qed.

Lemma cancelWork_unfold wid now s p sl :
  wid ∉ recentWorkCancels s → workSlots s !! wid = Some p → slots s !! p = Some sl →
  cancelWork wid now s =
  (cancelSlot sl;;
   modify (set_recentWorkCancels (rememberCancel wid));;
   s ← get;
   match queueIndex p s with
   | Some (S _) => removeWorkLocked p now
   | _ => updateWorkStatus wid "Stopping" (Progress (item sl))
   end) s.
Proof.
  intros Hr Hw Hs. unfold cancelWork, mbind, gom_bind at 1, get.
  rewrite bool_decide_eq_false_2, Hw by done.
  unfold loadSlot, mbind, gom_bind, get, lift_res. rewrite Hs. done.
Qed.

(** [cancelWork] either reports why it did nothing, or records the request and
    takes a waiter out of the queue. *)
Lemma cancelWork_spec wid now s :
  Inv s → ∃ r s', cancelWork wid now s = (r, s') ∧ Inv s' ∧
    ((wid ∈ recentWorkCancels s ∧ r = Ok tt ∧ s' = s) ∨
     (wid ∉ recentWorkCancels s ∧ workSlots s !! wid = None ∧ s' = s ∧
      r = Err "queued work not found or already finished") ∨
     (wid ∉ recentWorkCancels s ∧ ∃ p, workSlots s !! wid = Some p ∧
      ((r = Err "execution changed" ∧ kept s s') ∨
       (r = Ok tt ∧ dropped p s s' ∧
        recentWorkCancels s' = rememberCancel wid (recentWorkCancels s))))).
Proof.
  intros HI. destruct (decide (wid ∈ recentWorkCancels s)) as [Hin|Hnin].
  { exists (Ok tt), s. split_and!; [|done|by left].
    unfold cancelWork, mbind, gom_bind, get. by rewrite bool_decide_eq_true_2. }
  destruct (workSlots s !! wid) as [p|] eqn:Hw.
  2: { eexists _, s. split_and!; [|done|by right; left].
       unfold cancelWork, mbind, gom_bind, get. by rewrite bool_decide_eq_false_2, Hw. }
  destruct (registered_slot wid p s HI Hw) as (sl & Hsl & _).
  rewrite (cancelWork_unfold _ _ _ p sl) by done.
  destruct (cancelSlot_kept wid p sl s HI Hw Hsl) as (r & s1 & Hc & Hk & Hr).
  unfold mbind, gom_bind. rewrite Hc.
  destruct Hr as [-> | [-> _]].
  2: { eexists _, s1. split_and!; [done|apply Hk|]. right. right. split; [done|].
       exists p. split; [done|]. by left. }
  set (s2 := set_recentWorkCancels (rememberCancel wid) s1).
  assert (HI2 : Inv s2) by apply Inv_recent, Hk.
  assert (Hqi : queueIndex p s2 = queueIndex p s).
  { unfold queueIndex. cbn. by destruct Hk as (_ & _ & _ & _ & -> & _). }
  assert (Hrec : recentWorkCancels s2 = rememberCancel wid (recentWorkCancels s)).
  { cbn. by destruct Hk as (_ & _ & _ & _ & _ & ->). }
  assert (Hq2 : experimentQueue s2 = experimentQueue s) by apply Hk.
  cbn [modify get]. fold s2. rewrite Hqi.
  assert (∃ s', (match queueIndex p s with
     | Some (S _) => removeWorkLocked p now
     | _ => updateWorkStatus wid "Stopping" (Progress (item sl)) end) s2 = (Ok tt, s') ∧
     Inv s' ∧ dropped p s s' ∧ recentWorkCancels s' = recentWorkCancels s2)
    as (s' & -> & HI' & Hd & Hr').
  { unfold dropped. destruct (queueIndex p s) as [[|i]|] eqn:Hi.
    - eexists. split_and!; [done|by apply Inv_status|done..].
    - destruct (remove_waiter p now i s2 HI2) as (s' & -> & HI' & Hf); [by rewrite Hqi|].
      exists s'. split_and!; [done..| |].
      + rewrite (f_queue _ _ Hf). cbn. by rewrite <- Hq2.
      + apply (f_recent _ _ Hf).
    - eexists. split_and!; [done|by apply Inv_status|done..]. }
  exists (Ok tt), s'. split_and!; [done|done|]. right. right. split; [done|].
  exists p. split; [done|]. right. split_and!; [done..|]. by rewrite Hr', Hrec.
Qed.

(** ** Every step keeps the invariant *)

(** The queue after an operation: some slots left, then possibly a new one. *)
Definition ordered (s s' : Server) : Prop :=
  ∃ old new, experimentQueue s' = old ++ new ∧ old `sublist_of` experimentQueue s ∧
    ∀ p, p ∈ new → slots s !! p = None.

Lemma ordered_same s s' : experimentQueue s' = experimentQueue s → ordered s s'.
Proof. unfold ordered. intros ->. exists (experimentQueue s), []. rewrite app_nil_r. set_solver. Qed.

Lemma filter_sublist (p : nat) l : filter (λ q, q ≠ p) l `sublist_of` l.
Proof.
  induction l as [|x l IH]; [constructor|]. destruct (decide (x = p)) as [->|].
  - rewrite filter_cons_False by (intros Hn; by destruct Hn). by apply sublist_cons.
  - rewrite filter_cons_True by done. by apply sublist_skip.
Qed.

Lemma ordered_filter p s s' :
  experimentQueue s' = filter (λ q, q ≠ p) (experimentQueue s) → ordered s s'.
Proof.
  unfold ordered. intros ->. exists (filter (λ q, q ≠ p) (experimentQueue s)), [].
  rewrite app_nil_r. split_and!; [done|apply filter_sublist|set_solver].
Qed.

Lemma ordered_dropped p s s' : dropped p s s' → ordered s s'.
Proof.
  unfold dropped. destruct (queueIndex p s) as [[|i]|]; intros H;
    [by apply ordered_same|by eapply ordered_filter|by apply ordered_same].
Qed.

Lemma ordered_push s s' :
  experimentQueue s' = experimentQueue s ++ [fresh (dom (slots s))] → ordered s s'.
Proof.
  unfold ordered. intros ->. exists (experimentQueue s), [fresh (dom (slots s))]. split_and!; [done..|].
  intros p ->%list_elem_of_singleton. apply not_elem_of_dom, is_fresh.
Qed.

Lemma finish_cases slot now s :
  Inv s → (∀ p, slot = Some p → is_Some (slots s !! p)) →
  ∃ s', finishWork slot now s = (Ok tt, s') ∧ Inv s' ∧ ordered s s' ∧
    recentWorkCancels s' = recentWorkCancels s.
Proof.
  intros HI Hp. destruct slot as [p|].
  2: { exists s. split_and!; try done. by apply ordered_same. }
  destruct (Hp p eq_refl) as [sl Hsl]. destruct (finished sl) eqn:Hfin.
  - exists s. split_and!; try done; [|by apply ordered_same].
    unfold finishWork, finishWorkLocked, loadSlot, mbind, gom_bind, get, lift_res.
    rewrite Hsl. cbn. by rewrite Hfin.
  - destruct (finish_spec p sl now s HI Hsl Hfin) as (s' & ? & ? & ? & _ & _ & _ & ? & _).
    exists s'. split_and!; [done..|by eapply ordered_filter|done].
Qed.

Lemma shutdown_kept (l : list (string * nat)) s :
  Inv s → (∀ w p, (w, p) ∈ l → is_Some (slots s !! p)) →
  ∃ s', miter cancelRegistered l s = (Ok tt, s') ∧ kept s s'.
Proof.
  revert s. induction l as [|[w p] l IH]; intros s HI Hl.
  { exists s. split; [done|]. by apply kept_refl. }
  destruct (Hl w p) as [sl Hsl]; [set_solver|].
  set (s1 := match cancel sl with Some c => snd (cancelContext c s) | None => s end).
  assert (Hk : kept s s1).
  { unfold s1. destruct (cancel sl) as [c|]; [|by apply kept_refl].
    split_and!; try done. by apply Inv_cancelContext. }
  assert (Hs : cancelRegistered (w, p) s = (Ok tt, s1)).
  { unfold cancelRegistered, loadSlot, mbind, gom_bind, get, lift_res. cbn [snd]. rewrite Hsl. cbn [deref].
    unfold s1. by destruct (cancel sl). }
  destruct (IH s1) as (s' & Hm & Hk').
  { apply Hk. }
  { intros w' p' Hin. destruct Hk as (_ & -> & _). apply (Hl w'). set_solver. }
  exists s'. split.
  - cbn [miter]. unfold mbind, gom_bind at 1. rewrite Hs. apply Hm.
  - unfold kept in *. naive_solver congruence.
Qed.

(** Running an allowed operation. *)
Lemma exec_spec o s :
  Inv s → allowed s o →
  ∃ r s', exec o s = (r, s') ∧ r ≠ Panic ∧ Inv s' ∧ ordered s s'.
Proof.
  intros HI Ha. destruct o; cbn [exec allowed] in *.
  - destruct (enqueue_spec c it cancelf wid now s HI Ha) as (s' & He & ? & Hf).
    exists (Ok tt), s'. split_and!; try done.
    + unfold mbind, gom_bind. by rewrite He.
    + apply ordered_push. apply (f_queue _ _ Hf).
  - destruct (enqueueExperiments_spec c b rs wid now now' s HI Ha) as (s' & He & ? & Hq & _).
    exists (Ok tt), s'. split_and!; try done. by apply ordered_push.
  - destruct (finish_cases (Some p) now s HI) as (s' & He & ? & ? & _); [by intros ? [= <-]|].
    exists (Ok tt), s'. by split_and!.
  - destruct Ha as [x Hx].
    destruct (finish_cases (slot x) now s HI) as (s' & He & ? & ? & _).
    { intros p Hp. by eapply (r_slot _ (proj2 HI)). }
    exists (Ok tt), s'. split_and!; try done.
    unfold finishQueuedExperimentsLocked, loadBatch, mbind, gom_bind, get, lift_res.
    rewrite Hx. apply He.
  - destruct Ha as (sl & Hsl & _). unfold waitReady, loadSlot, mbind, gom_bind, get, lift_res.
    rewrite Hsl. cbn [deref].
    case_bool_decide; eexists _, s; split_and!; try done; by apply ordered_same.
  - destruct (waitDone_spec p now s HI) as (s' & He & ? & Hd).
    eexists _, s'. split_and!; try done. by eapply ordered_dropped.
  - eexists _, _. split_and!; [done|done|by apply Inv_status|by apply ordered_same].
  - destruct (cancelWork_spec wid now s HI) as (r & s' & He & HI' & Hcases).
    exists r, s'. split; [done|].
    destruct Hcases as [(_ & -> & ->)|[(_ & _ & -> & ->)|(_ & p & _ & [[-> Hk]|(-> & Hd & _)])]].
    + split_and!; try done. by apply ordered_same.
    + split_and!; try done. by apply ordered_same.
    + split_and!; try done. apply ordered_same, Hk.
    + split_and!; try done. by eapply ordered_dropped.
  - destruct (shutdown_kept (map_to_list (workSlots s)) s HI) as (s' & He & Hk).
    { intros w p Hin%elem_of_map_to_list.
      apply (r_workSlots _ (proj2 HI)) in Hin as (sl & ? & _). eauto. }
    exists (Ok tt), s'. split_and!; [done..| |]; [apply Hk|apply ordered_same, Hk].
  - eexists _, _. split_and!; [done|done|by apply Inv_cancelContext|by apply ordered_same].
  - eexists _, _. split_and!; [done|done|by apply Inv_cleanup|by apply ordered_same].
  - unfold completeQueueCleanup, mbind, gom_bind, lift_res. destruct durable as [[]|e|]; [|..|done].
    + eexists _, _. split_and!; [done|done|by apply Inv_cleanup|by apply ordered_same].
    + eexists _, _. split_and!; [done|done|done|by apply ordered_same].
Qed.

Lemma Inv_init : Inv init.
Proof.
  split; [split; [split|..]|split]; cbn; try done; try set_solver.
  - constructor.
Qed.

Lemma reachable_inv s : reachable s → Inv s.
Proof.
  induction 1 as [|s s' _ IH [o r ? Ha He|? Hil]].
  - apply Inv_init.
  - destruct (exec_spec o s IH Ha) as (r' & s1 & He' & _ & HI & _). congruence.
  - by eapply Inv_interleaves.
Qed.

(** ** Properties *)

(** C20: mutual exclusion and no lost wake-up.  In every reachable state an
    unfinished slot's [ready] channel is closed exactly when the slot is the
    head of the FIFO, so at most one worker runs and a non-empty queue always
    has a released worker. *)
Theorem queue_head_exclusive s p sl :
  reachable s → slots s !! p = Some sl → finished sl = false →
  readyClosed sl = true ↔ head (experimentQueue s) = Some p.
Proof.
  intros HI%reachable_inv Hp Hf. pose proof (q_base _ (proj1 HI)) as HB.
  rewrite (b_ready _ HB p sl Hp). split; [by apply (b_opened _ HB)|].
  intros Hh. destruct (q_head _ (proj1 HI) p Hh) as (sl' & ? & ?). congruence.
Qed.

(** No operation of the queue panics in a reachable state: no channel is
    closed twice, no wait group goes negative, no nil slot or batch is read and
    no empty batch is indexed. *)
Theorem queue_no_panic s o : reachable s → allowed s o → fst (exec o s) ≠ Panic.
Proof.
  intros HI%reachable_inv Ha. destruct (exec_spec o s HI Ha) as (r & s' & -> & ? & _). done.
Qed.

(** What the Controller publishes is the queue.  In every reachable state
    the published list has one item per queued slot, in queue order, with that
    slot's identifier, its index as position, "running" for the head only and a
    start time for the head; and every run of a queued batch carries its slot's
    index as queue position. *)
Theorem queue_published s i p :
  reachable s → experimentQueue s !! i = Some p →
  (∃ it, workQueue s !! i = Some it ∧ published s i p it) ∧
  length (workQueue s) = length (experimentQueue s) ∧
  (∀ rid run, rid ∈ idsOf s p → experiments s !! rid = Some run →
    QueuePosition run = Z.of_nat i).
Proof.
  intros [HQ _]%reachable_inv Hi. split_and!; [|apply HQ|].
  - destruct (lookup_lt_is_Some_2 (workQueue s) i) as [it Hit].
    { rewrite (q_length _ HQ). by eapply lookup_lt_Some. }
    exists it. split; [done|]. by eapply q_published.
  - intros rid run. by apply (q_positions _ HQ).
Qed.

Definition unfinished (s : Server) : gmap nat workSlot :=
  filter (λ psl, finished (snd psl) = false) (slots s).

Lemma registered_size s : Inv s → size (workSlots s) = size (unfinished s).
Proof.
  intros [HQ HR]. rewrite <- !length_map_to_list.
  rewrite <- (length_fmap snd (map_to_list (workSlots s))).
  rewrite <- (length_fmap fst (map_to_list (unfinished s))).
  apply Permutation_length, NoDup_Permutation.
  - apply NoDup_fmap_2_strong; [|apply NoDup_map_to_list].
    intros [w p] [w' p'] Hw Hw' Heq. cbn in Heq. subst.
    apply elem_of_map_to_list, (r_workSlots _ HR) in Hw as (sl & ? & ? & _).
    apply elem_of_map_to_list, (r_workSlots _ HR) in Hw' as (sl' & ? & ? & _). congruence.
  - apply NoDup_fst_map_to_list.
  - intros p. rewrite !list_elem_of_fmap. split.
    + intros ([w q] & -> & Hw%elem_of_map_to_list).
      apply (r_workSlots _ HR) in Hw as (sl & Hs & _ & Hf).
      exists (q, sl). split; [done|]. apply elem_of_map_to_list, map_lookup_filter_Some. done.
    + intros ([q sl] & -> & Hw%elem_of_map_to_list).
      apply map_lookup_filter_Some in Hw as [Hs Hf]. exists (id sl, q). split; [done|].
      apply elem_of_map_to_list, (r_workSlots _ HR). eauto.
Qed.

(** The wait group shutdown waits for counts exactly the unfinished slots,
    and only unfinished slots can be canceled by identifier. *)
Theorem queue_workers s :
  reachable s →
  workWorkers s = Z.of_nat (size (unfinished s)) ∧
  ∀ wid p, workSlots s !! wid = Some p ↔ ∃ sl, unfinished s !! p = Some sl ∧ id sl = wid.
Proof.
  intros HI%reachable_inv. split.
  - rewrite (r_workers _ (proj2 HI)). by rewrite registered_size.
  - intros wid p. rewrite (r_workSlots _ (proj2 HI)). unfold unfinished.
    setoid_rewrite map_lookup_filter_Some. cbn. naive_solver.
Qed.

(** First in, first out.  After any step the queue is a subsequence of the
    old queue followed by slots created in that step: nobody is overtaken and
    nobody re-enters. *)
Theorem queue_fifo s s' :
  reachable s → step s s' →
  ∃ old new, experimentQueue s' = old ++ new ∧ old `sublist_of` experimentQueue s ∧
    ∀ p, p ∈ new → slots s !! p = None.
Proof.
  intros HI%reachable_inv [o r s2 Ha He|s2 Hil].
  - destruct (exec_spec o s HI Ha) as (r' & s1 & He' & _ & _ & Ho). assert (s2 = s1) as -> by congruence. exact Ho.
  - by apply ordered_same, Hil.
Qed.

(** Finishing a list of slots in turn. *)
Lemma finish_all pre post now s :
  Inv s → experimentQueue s = pre ++ post →
  ∃ s', miter (λ p, finishWork (Some p) now) pre s = (Ok tt, s') ∧ Inv s' ∧
    experimentQueue s' = post ∧
    ∀ q sq, q ∈ post → slots s !! q = Some sq → ∃ sq', slots s' !! q = Some sq' ∧ core sq sq'.
Proof.
  revert s. induction pre as [|p pre IH]; intros s HI Hq.
  - exists s. split_and!; try done. eauto using core_refl.
  - pose proof (q_base _ (proj1 HI)) as HB. pose proof (b_nodup _ HB) as Hnd.
    rewrite Hq in Hnd. cbn in Hnd. apply list.NoDup_cons in Hnd as [Hp Hnd].
    destruct (b_queue _ HB p) as (sl & Hsl & Hfin); [rewrite Hq; set_solver|].
    destruct (finish_spec p sl now s HI Hsl Hfin)
      as (s1 & Hf & HI1 & Hq1 & _ & _ & _ & _ & Hcore & _).
    rewrite Hq in Hq1. cbn [app] in Hq1. rewrite filter_cons_False in Hq1 by (by intros []).
    rewrite (filter_absent _ _ Hp) in Hq1.
    destruct (IH s1 HI1 Hq1) as (s' & Hm & HI' & Hq' & Hcore').
    exists s'. split_and!; try done.
    + cbn [miter]. unfold mbind, gom_bind. by rewrite Hf.
    + intros q sq Hin Hs. destruct (Hcore q sq) as (sq1 & Hs1 & H1); [|done|].
      { intros ->. apply Hp. set_solver. }
      destruct (Hcore' q sq1 Hin Hs1) as (sq2 & Hs2 & H2). exists sq2. split; [done|].
      unfold core in *. naive_solver congruence.
Qed.

(** Progress.  From any reachable state, once the slots ahead of a waiter
    finish (in queue order), the waiter is the head and its channel is closed;
    finishing never fails. *)
Theorem queue_progress s pre p post now :
  reachable s → experimentQueue s = pre ++ p :: post →
  ∃ s' sl, miter (λ q, finishWork (Some q) now) pre s = (Ok tt, s') ∧
    experimentQueue s' = p :: post ∧ slots s' !! p = Some sl ∧ readyClosed sl = true.
Proof.
  intros HI%reachable_inv Hq. destruct (finish_all pre (p :: post) now s HI Hq)
    as (s' & Hm & HI' & Hq' & _).
  destruct (q_head _ (proj1 HI') p) as (sl & Hsl & Ho); [by rewrite Hq'|].
  exists s', sl. split_and!; try done. rewrite <- Ho.
  by apply (b_ready _ (q_base _ (proj1 HI'))) with p.
Qed.

Lemma rememberCancel_spec wid l :
  (length l ≤ 128)%nat →
  (length (rememberCancel wid l) ≤ 128)%nat ∧ wid ∈ rememberCancel wid l.
Proof.
  intros Hl. unfold rememberCancel. destruct (Nat.ltb_spec 128 (length (l ++ [wid]))) as [Hlt|Hge].
  - rewrite length_drop. split; [lia|]. rewrite drop_app_le.
    + set_solver.
    + rewrite length_app in *. cbn in *. lia.
  - split; [done|set_solver].
Qed.

(** Cancelling queued work is idempotent and never leaves a waiter behind:
    after a successful cancel the identifier is remembered (at most 128 of
    them), its slot is out of the queue unless it is the running head, and
    cancelling it again succeeds without changing anything. *)
Theorem cancelWork_idempotent s wid now now' p :
  reachable s → workSlots s !! wid = Some p →
  (length (recentWorkCancels s) ≤ 128)%nat → wid ∉ recentWorkCancels s →
  fst (cancelWork wid now s) = Ok tt →
  let s' := snd (cancelWork wid now s) in
  (length (recentWorkCancels s') ≤ 128)%nat ∧
  (p ∈ experimentQueue s' → head (experimentQueue s') = Some p) ∧
  cancelWork wid now' s' = (Ok tt, s').
Proof.
  intros HI%reachable_inv Hw Hlen Hnin Hok s'.
  destruct (cancelWork_spec wid now s HI) as (r & s1 & He & _ & Hcases).
  assert (s' = s1) as -> by (unfold s'; by rewrite He). rewrite He in Hok. cbn in Hok.
  destruct Hcases as [(? & _)|[(_ & ? & _)|(_ & q & Hq & [[? _]|(_ & Hd & Hr)])]];
    [done|congruence|congruence|].
  simplify_eq. destruct (rememberCancel_spec wid _ Hlen) as [Hlen' Hin].
  rewrite <- Hr in Hlen', Hin. split_and!; [done| |].
  - unfold dropped in Hd. destruct (queueIndex p s) as [[|i]|] eqn:Hi; rewrite Hd; intros Hpin.
    + apply queueIndex_Some in Hi as [Hi _]. by destruct (experimentQueue s).
    + by apply list_elem_of_filter in Hpin as [[] _].
    + by apply queueIndex_None in Hi.
  - unfold cancelWork, mbind, gom_bind, get. by rewrite bool_decide_eq_true_2.
Qed.

(** ** Witnesses: two analyses queued one after the other *)
Definition analysisItem (name : string) : WorkQueueItem :=
  mkItem "" "analysis" name "run" "" "" "" 0 0 None "" F64.zero.
Definition demo1 : Server :=
  snd (exec (OpEnqueue 0 (analysisItem "first") (Some 0%nat) "work-1" 10) init).
Definition demo : Server :=
  snd (exec (OpEnqueue 1 (analysisItem "second") (Some 1%nat) "work-2" 20) demo1).

Lemma demo1_reachable : reachable demo1.
Proof.
  eapply reachable_step; [apply reachable_init|].
  eapply (step_op _ (OpEnqueue 0 (analysisItem "first") (Some 0%nat) "work-1" 10));
    [|vm_compute; reflexivity].
  intros p sl. cbn. by rewrite lookup_empty.
Qed.

Lemma demo1_slots : map_to_list ((λ sl, id sl) <$> slots demo1) = [(0%nat, "work-1"%string)].
Proof. vm_compute. reflexivity. Qed.

Lemma demo_reachable : reachable demo.
Proof.
  eapply reachable_step; [apply demo1_reachable|].
  eapply (step_op _ (OpEnqueue 1 (analysisItem "second") (Some 1%nat) "work-2" 20));
    [|vm_compute; reflexivity].
  intros p sl Hp. assert ((p, id sl) ∈ map_to_list ((λ sl, id sl) <$> slots demo1)) as Hin.
  { apply elem_of_map_to_list. by rewrite lookup_fmap, Hp. }
  rewrite demo1_slots in Hin. apply list_elem_of_singleton in Hin. congruence.
Qed.

Lemma demo_queue : experimentQueue demo = [0%nat; 1%nat].
Proof. vm_compute. reflexivity. Qed.

Lemma queue_head_exclusive_witness : ∃ sl,
  slots demo !! 1%nat = Some sl ∧ finished sl = false ∧
  (readyClosed sl = true ↔ head (experimentQueue demo) = Some 1%nat).
Proof.
  eexists. split; [vm_compute; reflexivity|]. split; [vm_compute; reflexivity|].
  apply (queue_head_exclusive demo 1%nat); [apply demo_reachable|vm_compute; reflexivity..].
Defined.

Lemma queue_no_panic_witness : fst (exec (OpFinish 0 30) demo) ≠ Panic.
Proof.
  apply queue_no_panic; [apply demo_reachable|]. eexists. vm_compute. reflexivity.
Defined.

Lemma queue_published_witness :
  (∃ it, workQueue demo !! 1%nat = Some it ∧ published demo 1 1 it) ∧
  length (workQueue demo) = length (experimentQueue demo) ∧
  (∀ rid run, rid ∈ idsOf demo 1 → experiments demo !! rid = Some run →
    QueuePosition run = Z.of_nat 1).
Proof. apply queue_published; [apply demo_reachable|vm_compute; reflexivity]. Defined.

Lemma queue_workers_witness : workWorkers demo = Z.of_nat (size (unfinished demo)).
Proof. apply (queue_workers demo demo_reachable). Defined.

Lemma queue_fifo_witness : ∃ old new, experimentQueue demo = old ++ new ∧
  old `sublist_of` experimentQueue demo1 ∧ ∀ p, p ∈ new → slots demo1 !! p = None.
Proof.
  apply queue_fifo; [apply demo1_reachable|].
  eapply (step_op _ (OpEnqueue 1 (analysisItem "second") (Some 1%nat) "work-2" 20));
    [|vm_compute; reflexivity].
  intros p sl Hp. assert ((p, id sl) ∈ map_to_list ((λ sl, id sl) <$> slots demo1)) as Hin.
  { apply elem_of_map_to_list. by rewrite lookup_fmap, Hp. }
  rewrite demo1_slots in Hin. apply list_elem_of_singleton in Hin. congruence.
Defined.

Lemma queue_progress_witness : ∃ s' sl,
  miter (λ q, finishWork (Some q) 40) [0%nat] demo = (Ok tt, s') ∧
  experimentQueue s' = [1%nat] ∧ slots s' !! 1%nat = Some sl ∧ readyClosed sl = true.
Proof. apply (queue_progress demo [0%nat] 1%nat []); [apply demo_reachable|apply demo_queue]. Defined.

Lemma cancelWork_idempotent_witness :
  let s' := snd (cancelWork "work-2" 50 demo) in
  (length (recentWorkCancels s') ≤ 128)%nat ∧
  (1%nat ∈ experimentQueue s' → head (experimentQueue s') = Some 1%nat) ∧
  cancelWork "work-2" 60 s' = (Ok tt, s').
Proof.
  apply (cancelWork_idempotent demo "work-2" 50 60 1%nat).
  - apply demo_reachable.
  - vm_compute. reflexivity.
  - vm_compute. lia.
  - vm_compute. intros H. inversion H.
  - vm_compute. reflexivity.
Defined.
