(* ===== verification/Distribution.v ===== *)
(** * Seeded duration distributions

    [internal/distribution/distribution.go].  The random source and the
    transcendental functions of package [math] are parameters; a rejection
    sampler runs on a number of attempts and is [None] when none of them is
    accepted. *)
From Stdlib Require Import ZArith Lia Floats.SpecFloat.
From stdpp Require Import strings list.
From S2P Require Import Prelude.
From S2P Require Import GoStd.
Open Scope Z_scope.

(** ** Parameters *)

(** The draws of [*rand.Rand] the samplers use. *)
Class DistRand (R : Type) := {
  RFloat64 : R → float * R;
  NormFloat64 : R → float * R;
  ExpFloat64 : R → float * R;
}.

(** [math.Exp], [math.Log], [math.Pow] and [math.Lgamma]'s first result. *)
Class MathFns := {
  Exp : float → float;
  Log : float → float;
  Pow : float → float → float;
  Lgamma : float → float;
}.

(** ** Configuration *)
Record Distribution := mkDist {
  Model : string; Value : string; Mean : string; Sigma : string; XM : string;
  Alpha : float; Beta : float; Scale : string; Mu : float; LogSigma : float;
  Min : string; Max : string }.

Definition zeroDistribution : Distribution :=
  mkDist "" "" "" "" "" F64.zero F64.zero "" F64.zero F64.zero "" "".

(** Go's [==] on the struct. *)
Definition dist_eqb (d e : Distribution) : bool :=
  bool_decide (Model d = Model e) && bool_decide (Value d = Value e) &&
  bool_decide (Mean d = Mean e) && bool_decide (Sigma d = Sigma e) &&
  bool_decide (XM d = XM e) && F64.eqb (Alpha d) (Alpha e) && F64.eqb (Beta d) (Beta e) &&
  bool_decide (Scale d = Scale e) && F64.eqb (Mu d) (Mu e) &&
  F64.eqb (LogSigma d) (LogSigma e) && bool_decide (Min d = Min e) &&
  bool_decide (Max d = Max e).

Definition finitePositive (v : float) : bool :=
  F64.ltb F64.zero v && negb (F64.isNaN v) && negb (F64.isInf v).

Definition parseDurationOrZero (value : string) : res Z :=
  if bool_decide (value = ""%string) then Ok 0
  else match Duration.parse value with
       | None => Err "invalid duration"
       | Some d => fail_if (d <? 0) "duration cannot be negative";; Ok d
       end.

Definition positiveDuration (value name : string) : res Z :=
  d ← parseDurationOrZero value;
  fail_if (d <=? 0) (name +:+ " must be positive");; Ok d.

Section distribution.
(** [strconv.ParseFloat(s, 64)] *)
Context (ParseFloat : string → option float).

Definition lognormalSigma (d : Distribution) : res float :=
  if bool_decide (Sigma d = ""%string) then Ok (LogSigma d)
  else match ParseFloat (Sigma d) with
       | Some v => Ok v
       | None => Err "lognormal sigma must be a dimensionless number"
       end.

Definition checkModel (d : Distribution) : res unit :=
  if bool_decide (Model d = "fixed"%string) then parseDurationOrZero (Value d);; Ok tt
  else if bool_decide (Model d = "exponential"%string) || bool_decide (Model d = "poisson"%string)
  then positiveDuration (Mean d) "mean";; Ok tt
  else if bool_decide (Model d = "normal"%string) then
    match Duration.parse (Mean d) with
    | Some _ => parseDurationOrZero (Sigma d);; Ok tt
    | None => Err "time: invalid duration"
    end
  else if bool_decide (Model d = "pareto"%string) then
    positiveDuration (XM d) "xm";;
    fail_if (negb (finitePositive (Alpha d))) "alpha must be positive and finite"
  else if bool_decide (Model d = "gamma"%string) then
    fail_if (negb (finitePositive (Alpha d))) "alpha must be positive and finite";;
    if negb (bool_decide (Scale d = ""%string)) && negb (F64.eqb (Beta d) F64.zero)
    then Err "gamma scale and beta are mutually exclusive"
    else if negb (bool_decide (Scale d = ""%string))
    then positiveDuration (Scale d) "scale";; Ok tt
    else fail_if (negb (finitePositive (Beta d)))
           "gamma requires a positive finite beta rate or scale duration"
  else if bool_decide (Model d = "lognormal"%string) then
    if negb (bool_decide (Sigma d = ""%string)) && negb (F64.eqb (LogSigma d) F64.zero)
    then Err "lognormal sigma and logSigma are mutually exclusive"
    else
      logSigma ← lognormalSigma d;
      fail_if (F64.isNaN (Mu d) || F64.isInf (Mu d) || F64.isNaN logSigma ||
               F64.isInf logSigma || F64.ltb logSigma F64.zero)
        "lognormal mu must be finite and sigma must be finite and non-negative"
  else Err "unsupported model".

Definition Validate (d : Distribution) (optional : bool) : res unit :=
  if bool_decide (Model d = ""%string) then
    if optional && dist_eqb d zeroDistribution then Ok tt else Err "model is required"
  else
    checkModel d;;
    minimum ← wrap "min" (parseDurationOrZero (Min d));
    maximum ← wrap "max" (parseDurationOrZero (Max d));
    fail_if (negb (bool_decide (Min d = ""%string)) && negb (bool_decide (Max d = ""%string))
             && (maximum <? minimum)) "min cannot exceed max".

(** ** Conversions *)
Definition maxInt64Float : float := F64.of_Z MaxInt64.

Definition durationFromNanoseconds (value : float) : Z :=
  if F64.isNaN value || F64.leb value F64.zero then 0
  else if F64.isInfPos value || F64.leb maxInt64Float value then MaxInt64
  else F64.trunc value.

Definition durationFromSeconds (value : float) : Z :=
  durationFromNanoseconds (F64.mul value (F64.of_Z Duration.Second)).

(** ** Samplers *)
Context {R : Type} `{DistRand R} `{MathFns}.

(** The decimal constant [n / d]. *)
Definition rat (n d : Z) : float := F64.div (F64.of_Z n) (F64.of_Z d).

Definition smallestNonzero : float := F64.pow2 1 (-1074).

(** One attempt of the loop of [sampleGamma]: a value when it is accepted. *)
Definition gammaAttempt (d c : float) (r : R) : option float * R :=
  let '(x, r) := NormFloat64 r in
  let v := F64.add F64.one (F64.mul c x) in
  if F64.leb v F64.zero then (None, r)
  else
    let v := F64.mul (F64.mul v v) v in
    let '(u, r) := RFloat64 r in
    let x4 := F64.mul (F64.mul (F64.mul (F64.mul (rat 331 10000) x) x) x) x in
    if F64.ltb u (F64.sub F64.one x4) ||
       F64.ltb (Log u)
         (F64.add (F64.mul (F64.mul (rat 1 2) x) x)
            (F64.mul d (F64.add (F64.sub F64.one v) (Log v))))
    then (Some (F64.mul d v), r) else (None, r).

(** [for { ... }] over the attempts. *)
Fixpoint attempts {A} (try : R → option A * R) (fuel : nat) (r : R) : option (A * R) :=
  match fuel with
  | O => None
  | S fuel =>
      match try r with
      | (Some a, r) => Some (a, r)
      | (None, r) => attempts try fuel r
      end
  end.

Definition gammaLarge (fuel : nat) (r : R) (shape : float) : option (float * R) :=
  let d := F64.sub shape (rat 1 3) in
  let c := F64.div F64.one (F64.sqrt (F64.mul (F64.of_Z 9) d)) in
  attempts (gammaAttempt d c) fuel r.

(** The recursion raises the shape by one; a positive shape needs one level. *)
Fixpoint sampleGamma (depth fuel : nat) (r : R) (shape : float) : option (float * R) :=
  if F64.ltb shape F64.one then
    match depth with
    | O => None
    | S depth =>
        let '(u, r) := RFloat64 r in
        let u := F64.max u smallestNonzero in
        '(g, r) ← sampleGamma depth fuel r (F64.add shape F64.one);
        Some (F64.mul g (Pow u (F64.div F64.one shape)), r)
    end
  else gammaLarge fuel r shape.

(** [for product > limit { count++; product *= r.Float64() }] *)
Fixpoint poissonLoop (fuel : nat) (limit product : float) (count : Z) (r : R) :
    option (Z * R) :=
  if negb (F64.ltb limit product) then Some (count, r)
  else match fuel with
       | O => None
       | S fuel => let '(u, r) := RFloat64 r in
                   poissonLoop fuel limit (F64.mul product u) (count + 1) r
       end.

(** One attempt of the transformed-rejection sampler. *)
Definition poissonAttempt (lambda : float) (r : R) : option Z * R :=
  let sqrtLambda := F64.sqrt lambda in
  let b := F64.add (rat 931 1000) (F64.mul (rat 253 100) sqrtLambda) in
  let a := F64.add (rat (-59) 1000) (F64.mul (rat 2483 100000) b) in
  let invAlpha := F64.add (rat 11239 10000) (F64.div (rat 11328 10000) (F64.sub b (rat 34 10))) in
  let vR := F64.sub (rat 9277 10000) (F64.div (rat 36224 10000) (F64.sub b (F64.of_Z 2))) in
  let '(u, r) := RFloat64 r in
  let u := F64.sub u (rat 1 2) in
  let '(v, r) := RFloat64 r in
  let us := F64.sub (rat 1 2) (F64.abs u) in
  let k := F64.floor
    (F64.add (F64.add (F64.mul (F64.add (F64.div (F64.mul (F64.of_Z 2) a) us) b) u) lambda)
             (rat 43 100)) in
  if F64.leb (rat 7 100) us && F64.leb v vR then (Some (F64.trunc k), r)
  else if F64.ltb k F64.zero || (F64.ltb us (rat 13 1000) && F64.ltb us v) then (None, r)
  else
    if F64.leb
         (Log (F64.div (F64.mul v invAlpha) (F64.add (F64.div a (F64.mul us us)) b)))
         (F64.sub (F64.add (F64.opp lambda) (F64.mul k (Log lambda)))
            (Lgamma (F64.add k F64.one)))
    then (Some (F64.trunc k), r) else (None, r).

Definition SamplePoisson (fuel : nat) (r : R) (lambda : float) : option (Z * R) :=
  if F64.ltb lambda (F64.of_Z 30) then
    '(count, r) ← poissonLoop fuel (Exp (F64.opp lambda)) F64.one 0 r;
    Some (count - 1, r)
  else attempts (poissonAttempt lambda) fuel r.

(** The value drawn by the model, before clamping. *)
Definition draw (fuel : nat) (d : Distribution) (r : R) : option (Z * R) :=
  let parsed s := default 0 (Duration.parse s) in
  let model m := bool_decide (Model d = m) in
  if model "fixed"%string then Some (parsed (Value d), r)
  else if model "exponential"%string then
    let '(x, r) := ExpFloat64 r in
    Some (durationFromNanoseconds (F64.mul x (F64.of_Z (parsed (Mean d)))), r)
  else if model "poisson"%string then
    '(n, r) ← SamplePoisson fuel r (Duration.Seconds (parsed (Mean d)));
    Some (durationFromSeconds (F64.of_Z n), r)
  else if model "normal"%string then
    let '(x, r) := NormFloat64 r in
    Some (durationFromNanoseconds
            (F64.add (F64.of_Z (parsed (Mean d))) (F64.mul x (F64.of_Z (parsed (Sigma d))))), r)
  else if model "pareto"%string then
    let '(u, r) := RFloat64 r in
    let u := F64.max u smallestNonzero in
    Some (durationFromNanoseconds
            (F64.div (F64.of_Z (parsed (XM d))) (Pow u (F64.div F64.one (Alpha d)))), r)
  else if model "gamma"%string then
    '(sample, r) ← sampleGamma 1 fuel r (Alpha d);
    if negb (bool_decide (Scale d = ""%string))
    then Some (durationFromNanoseconds (F64.mul sample (F64.of_Z (parsed (Scale d)))), r)
    else Some (durationFromSeconds (F64.div sample (Beta d)), r)
  else if model "lognormal"%string then
    let logSigma := match lognormalSigma d with Ok v => v | _ => F64.zero end in
    let '(x, r) := NormFloat64 r in
    Some (durationFromSeconds (Exp (F64.add (Mu d) (F64.mul logSigma x))), r)
  else Some (0, r).

(** The clamping at the end of [Sample]. *)
Definition clamp (d : Distribution) (value : Z) : Z :=
  let value := if value <? 0 then 0 else value in
  let value :=
    if negb (bool_decide (Min d = ""%string)) then
      let min := default 0 (Duration.parse (Min d)) in
      if value <? min then min else value
    else value in
  if negb (bool_decide (Max d = ""%string)) then
    let max := default 0 (Duration.parse (Max d)) in
    if max <? value then max else value
  else value.

Definition Sample (fuel : nat) (d : Distribution) (r : R) : option (Z * R) :=
  if bool_decide (Model d = ""%string) then Some (0, r)
  else '(value, r) ← draw fuel d r; Some (clamp d value, r).
End distribution.

(** ** Bounds *)

Lemma parseDurationOrZero_ok s v :
  parseDurationOrZero s = Ok v →
  0 ≤ v ∧ (s = ""%string ∧ v = 0 ∨ s ≠ ""%string ∧ Duration.parse s = Some v).
Proof.
  unfold parseDurationOrZero. case_bool_decide as Hs; [naive_solver lia|].
  destruct (Duration.parse s) as [d|]; [|done].
  intros (Hd & [= <-])%fail_if_seq_ok. bool_props. naive_solver.
Qed.

Lemma positiveDuration_ok s n v :
  positiveDuration s n = Ok v → 0 < v ∧ Duration.parse s = Some v.
Proof.
  unfold positiveDuration. intros (d & Hd & (Hp & [= <-])%fail_if_seq_ok)%bind_ok.
  apply parseDurationOrZero_ok in Hd. bool_props. naive_solver lia.
Qed.

(** Parsed durations fit an [int64]. *)
Lemma parseGroups_bound fuel d s v :
  0 ≤ d ≤ 2^63 → Duration.parseGroups fuel d s = Some v → 0 ≤ v ≤ 2^63.
Proof.
  revert d s. induction fuel as [|fuel IH]; intros d s Hd; destruct s as [|c s];
    cbn [Duration.parseGroups]; try (by intros [= <-]).
  destruct (Duration.parseGroup (c :: s)) as [[x s']|]; [|done]. cbn [mbind option_bind].
  destruct (Z.ltb_spec (2^63) (u64 (d + x))); [done|]. apply IH.
  pose proof (u64_range (d + x)). lia.
Qed.

Lemma parse_list_bound s v : Duration.parse_list s = Some v → - 2^63 ≤ v ≤ MaxInt64.
Proof.
  unfold Duration.parse_list, MaxInt64.
  set (ns := match s with [] => (false, s) | c :: s' => _ end).
  destruct ns as [neg s']. destruct s' as [|c s']; [done|].
  case_bool_decide; [intros [= <-]; lia|].
  destruct (Duration.parseGroups _ 0 (c :: s')) as [d|] eqn:Hg; [|done]. cbn [mbind option_bind].
  apply parseGroups_bound in Hg; [|lia]. destruct neg.
  - intros [= <-]. pose proof (i64_range (- d)). lia.
  - unfold MaxInt64. destruct (Z.ltb_spec (2^63 - 1) d); [done|]. intros [= <-]. lia.
Qed.

Lemma parse_bound s v : Duration.parse s = Some v → - 2^63 ≤ v ≤ MaxInt64.
Proof. apply parse_list_bound. Qed.

Lemma maxInt64Float_eq : maxInt64Float = S754_finite false (2^52) 11.
Proof. vm_compute. reflexivity. Qed.

Lemma nan_or_cmp x y :
  F64.isNaN x = false → F64.isNaN y = false → F64.leb x y = false → F64.ltb y x = true.
Proof.
  unfold F64.leb, F64.ltb. intros Hx Hy.
  destruct x as [sx|sx| |sx mx ex], y as [sy|sy| |sy my ey]; try done;
    try (by destruct sx); try (by destruct sy); try (by destruct sx, sy);
    unfold F64.compare; rewrite (Z.min_comm (F64.exponent _)), (Z.compare_antisym (F64.scaled _ _));
    by destruct (_ ?= _).
Qed.

Lemma durationFromNanoseconds_range x : 0 ≤ durationFromNanoseconds x ≤ MaxInt64.
Proof.
  unfold durationFromNanoseconds. destruct (F64.isNaN x) eqn:Hn; [by vm_compute|].
  destruct (F64.leb x F64.zero) eqn:H0; [by vm_compute|]. cbn [orb].
  destruct (F64.isInfPos x) eqn:Hi; [by vm_compute|].
  destruct (F64.leb maxInt64Float x) eqn:Hm; [by vm_compute|]. cbn [orb].
  assert (F64.ltb F64.zero x = true) as Hpos by by apply nan_or_cmp.
  assert (F64.ltb x maxInt64Float = true) as Hlt by by apply nan_or_cmp.
  rewrite maxInt64Float_eq in Hlt. pose proof (F64.trunc_lt _ _ _ Hpos Hlt).
  unfold MaxInt64. change (Z.pos (2^52) * 2^11) with (2^63) in *. lia.
Qed.

Section props.
Context (ParseFloat : string → option float) {R : Type} `{DistRand R} `{MathFns}.

Lemma draw_range fuel d r v r' :
  draw ParseFloat fuel d r = Some (v, r') → - 2^63 ≤ v ≤ MaxInt64.
Proof.
  assert (Hn : ∀ x, - 2^63 ≤ durationFromNanoseconds x ≤ MaxInt64).
  { intros x. pose proof (durationFromNanoseconds_range x). lia. }
  assert (Hs : ∀ x, - 2^63 ≤ durationFromSeconds x ≤ MaxInt64) by (intros x; apply Hn).
  assert (Hzero : - 2^63 ≤ 0 ≤ MaxInt64) by by vm_compute.
  unfold draw. case_bool_decide.
  { intros [= <- <-]. destruct (Duration.parse (Value d)) as [x|] eqn:Hp; cbn [from_option]; unfold id.
    - by eapply parse_bound.
    - done. }
  repeat case_bool_decide.
  - destruct (ExpFloat64 r). by intros [= <- <-].
  - destruct (SamplePoisson _ _ _) as [[]|]; [|done]. by intros [= <- <-].
  - destruct (NormFloat64 r). by intros [= <- <-].
  - destruct (RFloat64 r). by intros [= <- <-].
  - destruct (sampleGamma _ _ _ _) as [[]|]; [|done]. by intros [= <- <-].
  - destruct (sampleGamma _ _ _ _) as [[]|]; [|done]. by intros [= <- <-].
  - destruct (NormFloat64 r). by intros [= <- <-].
  - by intros [= <- <-].
Qed.

(** What a validated distribution says about its bounds. *)
Lemma Validate_bounds d optional :
  Validate ParseFloat d optional = Ok tt → Model d ≠ ""%string →
  (Min d ≠ ""%string → ∃ m, Duration.parse (Min d) = Some m ∧ 0 ≤ m) ∧
  (Max d ≠ ""%string → ∃ m, Duration.parse (Max d) = Some m ∧ 0 ≤ m) ∧
  (∀ a b, Min d ≠ ""%string → Max d ≠ ""%string → Duration.parse (Min d) = Some a →
    Duration.parse (Max d) = Some b → a ≤ b).
Proof.
  unfold Validate. intros Hv Hm. rewrite bool_decide_eq_false_2 in Hv by done.
  apply bind_ok in Hv as (? & _ & Hv). apply bind_ok in Hv as (mn & Hmn & Hv).
  apply bind_ok in Hv as (mx & Hmx & Hv). rewrite wrap_ok in Hmn, Hmx.
  apply parseDurationOrZero_ok in Hmn as [Hmn Emn], Hmx as [Hmx Emx].
  rewrite fail_if_ok in Hv. split_and!; [naive_solver..|].
  intros a b Hna Hnb Ha Hb. destruct Emn as [[? _]|[_ Emn]], Emx as [[? _]|[_ Emx]]; try done.
  rewrite (bool_decide_eq_false_2 (Min d = _)), (bool_decide_eq_false_2 (Max d = _)) in Hv by done.
  cbn in Hv. bool_props. simplify_eq. lia.
Qed.

(** Every sample of a validated distribution is a non-negative [int64] count
    of nanoseconds within the configured [min] and [max], whatever the random
    source and the transcendental functions return (NaN and infinities
    included). *)
Theorem Sample_bounds d optional fuel r v r' :
  Validate ParseFloat d optional = Ok tt →
  Sample ParseFloat fuel d r = Some (v, r') →
  0 ≤ v ≤ MaxInt64 ∧
  (∀ m, Model d ≠ ""%string → Duration.parse (Min d) = Some m → m ≤ v) ∧
  (∀ m, Model d ≠ ""%string → Duration.parse (Max d) = Some m → v ≤ m).
Proof.
  unfold Sample. intros Hv. case_bool_decide as Hm.
  { intros [= <- _]. split_and!; [done|by vm_compute|done|done]. }
  destruct (draw ParseFloat fuel d r) as [[x r1]|] eqn:Hd; [|done].
  intros [= <- <-]. apply draw_range in Hd.
  destruct (Validate_bounds d optional Hv Hm) as (Hmn & Hmx & Hle).
  assert (Hpb : ∀ s m, Duration.parse s = Some m → m ≤ MaxInt64).
  { intros s m Hs. apply parse_bound in Hs. lia. }
  assert (He : Duration.parse "" = None) by reflexivity.
  assert (Hmax : 0 ≤ MaxInt64) by by vm_compute.
  unfold clamp. destruct (decide (Min d = ""%string)) as [E1|E1],
    (decide (Max d = ""%string)) as [E2|E2];
    rewrite ?(bool_decide_eq_true_2 _ E1), ?(bool_decide_eq_false_2 _ E1),
      ?(bool_decide_eq_true_2 _ E2), ?(bool_decide_eq_false_2 _ E2); cbn [negb].
  - rewrite E1, E2, He. destruct (Z.ltb_spec x 0); split_and!; (done || lia || naive_solver).
  - destruct (Hmx E2) as (b & Eb & Hb). rewrite E1, Eb, He. cbn [from_option]; unfold id.
    pose proof (Hpb _ _ Eb).
    repeat case_match; bool_props; split_and!; intros; simplify_eq; lia.
  - destruct (Hmn E1) as (a & Ea & Ha). rewrite E2, Ea, He. cbn [from_option]; unfold id.
    pose proof (Hpb _ _ Ea).
    repeat case_match; bool_props; split_and!; intros; simplify_eq; lia.
  - destruct (Hmn E1) as (a & Ea & Ha), (Hmx E2) as (b & Eb & Hb).
    pose proof (Hle a b E1 E2 Ea Eb). rewrite Ea, Eb. cbn [from_option]; unfold id.
    pose proof (Hpb _ _ Ea). pose proof (Hpb _ _ Eb).
    repeat case_match; bool_props; split_and!; intros; simplify_eq; lia.
Qed.
End props.

(** ** Termination of the samplers *)
Section termination.
Context (ParseFloat : string → option float) {R : Type} `{DistRand R} `{MathFns}.

(** The random source after [n] attempts. *)
Fixpoint skip {A} (try : R → option A * R) (n : nat) (r : R) : R :=
  match n with O => r | S n => skip try n (snd (try r)) end.

Lemma attempts_returns {A} (try : R → option A * R) fuel n r :
  (n < fuel)%nat → is_Some (fst (try (skip try n r))) → is_Some (attempts try fuel r).
Proof.
  revert n r. induction fuel as [|fuel IH]; intros n r Hn Ha; [lia|].
  cbn [attempts]. destruct (try r) as [[a|] r1] eqn:Ht; [by eexists|].
  destruct n as [|n].
  - cbn in Ha. rewrite Ht in Ha. by destruct Ha.
  - cbn in Ha. rewrite Ht in Ha. apply (IH n); [lia|done].
Qed.

Lemma attempts_mono {A} (try : R → option A * R) fuel fuel' r x :
  (fuel ≤ fuel')%nat → attempts try fuel r = Some x → attempts try fuel' r = Some x.
Proof.
  revert fuel' r. induction fuel as [|fuel IH]; intros fuel' r Hle Ha; [done|].
  destruct fuel' as [|fuel']; [lia|]. cbn [attempts] in *.
  destruct (try r) as [[a|] r1]; [done|]. apply IH; [lia|done].
Qed.

Lemma sampleGamma_mono depth fuel fuel' r shape x :
  (fuel ≤ fuel')%nat → sampleGamma depth fuel r shape = Some x →
  sampleGamma depth fuel' r shape = Some x.
Proof.
  revert r shape x. induction depth as [|depth IH]; intros r shape x Hle;
    cbn [sampleGamma]; (case_match; [|by apply attempts_mono]); [done|].
  destruct (RFloat64 r) as [u r1].
  destruct (sampleGamma depth fuel r1 _) as [[g r2]|] eqn:Hg; [|done].
  by rewrite (IH _ _ _ Hle Hg).
Qed.

Lemma poissonLoop_mono fuel fuel' limit product count r x :
  (fuel ≤ fuel')%nat → poissonLoop fuel limit product count r = Some x →
  poissonLoop fuel' limit product count r = Some x.
Proof.
  revert fuel' product count r. induction fuel as [|fuel IH];
    intros fuel' product count r Hle; destruct fuel' as [|fuel']; try lia;
    cbn [poissonLoop]; (case_match; [done|]); try done.
  destruct (RFloat64 r) as [u r1]. apply IH. lia.
Qed.

Lemma SamplePoisson_mono fuel fuel' r lambda x :
  (fuel ≤ fuel')%nat → SamplePoisson fuel r lambda = Some x →
  SamplePoisson fuel' r lambda = Some x.
Proof.
  intros Hle. unfold SamplePoisson. case_match; [|by apply attempts_mono].
  destruct (poissonLoop fuel _ _ _ _) as [[c r1]|] eqn:Hp; [|done].
  by rewrite (poissonLoop_mono _ _ _ _ _ _ _ Hle Hp).
Qed.

Lemma draw_mono fuel fuel' d r x :
  (fuel ≤ fuel')%nat → draw ParseFloat fuel d r = Some x → draw ParseFloat fuel' d r = Some x.
Proof.
  intros Hle. unfold draw. repeat (case_bool_decide; [try done|]); try done.
  - destruct (SamplePoisson fuel r _) as [[n r1]|] eqn:Hs; [|done].
    by rewrite (SamplePoisson_mono _ _ _ _ _ Hle Hs).
  - destruct (sampleGamma 1 fuel r _) as [[n r1]|] eqn:Hs; [|done].
    by rewrite (sampleGamma_mono _ _ _ _ _ _ Hle Hs).
  - destruct (sampleGamma 1 fuel r _) as [[n r1]|] eqn:Hs; [|done].
    by rewrite (sampleGamma_mono _ _ _ _ _ _ Hle Hs).
Qed.

(** [Sample] returns.  Outside the two rejection samplers it returns for
    every random source; a gamma sampler of shape at least one returns as soon
    as one attempt is accepted; and once it returns, more attempts change
    neither the value nor the state of the random source. *)
Theorem Sample_returns d r fuel :
  (Model d ≠ "gamma" → Model d ≠ "poisson" → is_Some (Sample ParseFloat fuel d r))%string ∧
  (Model d = "gamma"%string → F64.ltb (Alpha d) F64.one = false → ∀ n, (n < fuel)%nat →
    let g := F64.sub (Alpha d) (rat 1 3) in
    let c := F64.div F64.one (F64.sqrt (F64.mul (F64.of_Z 9) g)) in
    is_Some (fst (gammaAttempt g c (skip (gammaAttempt g c) n r))) →
    is_Some (Sample ParseFloat fuel d r)) ∧
  (∀ x fuel', (fuel ≤ fuel')%nat → Sample ParseFloat fuel d r = Some x →
    Sample ParseFloat fuel' d r = Some x).
Proof.
  split_and!.
  - intros Hg Hp. unfold Sample, draw. case_bool_decide; [by eexists|].
    rewrite (bool_decide_eq_false_2 _ Hg), (bool_decide_eq_false_2 _ Hp).
    repeat case_bool_decide; repeat case_match; by eexists.
  - intros Hg Ha n Hn g c Hacc. unfold Sample, draw. rewrite Hg. cbn [bool_decide].
    unfold sampleGamma. rewrite Ha. unfold gammaLarge. fold g. fold c.
    destruct (attempts_returns _ fuel n r Hn Hacc) as [[x r1] ->].
    cbn [mbind option_bind]. destruct (negb _); by eexists.
  - intros x fuel' Hle. unfold Sample. case_bool_decide; [done|].
    destruct (draw ParseFloat fuel d r) as [[y r1]|] eqn:Hd; [|done].
    by rewrite (draw_mono _ _ _ _ _ Hle Hd).
Qed.
End termination.

(** ** A concrete source: a counter whose uniform draws cycle through quarters
    and whose normal draws are one *)
#[export] Instance counterRand : DistRand Z := {
  RFloat64 r := (F64.div (F64.of_Z (r mod 4)) (F64.of_Z 4), r + 1);
  NormFloat64 r := (F64.one, r + 1);
  ExpFloat64 r := (F64.one, r + 1);
}.

#[export] Instance counterMath : MathFns := {
  Exp x := F64.one; Log x := F64.zero; Pow x y := x; Lgamma x := F64.zero;
}.

Definition gammaExample : Distribution :=
  mkDist "gamma" "" "" "" "" (F64.of_Z 2) F64.zero "2ms" F64.zero F64.zero "1ms" "3ms".

Lemma gammaExample_valid : Validate (λ _, None) gammaExample false = Ok tt.
Proof. vm_compute. reflexivity. Qed.

Lemma gammaExample_sample : Sample (λ _, None) 5 gammaExample 0 = Some (3000000, 2).
Proof. vm_compute. reflexivity. Qed.

Lemma Sample_bounds_witness :
  0 ≤ 3000000 ≤ MaxInt64 ∧
  (∀ m, Model gammaExample ≠ ""%string → Duration.parse (Min gammaExample) = Some m → m ≤ 3000000) ∧
  (∀ m, Model gammaExample ≠ ""%string → Duration.parse (Max gammaExample) = Some m → 3000000 ≤ m).
Proof.
  exact (Sample_bounds (λ _, None) gammaExample false 5 0 3000000 2
           gammaExample_valid gammaExample_sample).
Defined.

Lemma gammaExample_shape : F64.ltb (Alpha gammaExample) F64.one = false.
Proof. vm_compute. reflexivity. Qed.

Lemma gammaExample_accepted :
  let g := F64.sub (Alpha gammaExample) (rat 1 3) in
  let c := F64.div F64.one (F64.sqrt (F64.mul (F64.of_Z 9) g)) in
  is_Some (fst (gammaAttempt g c (skip (gammaAttempt g c) 0 0))).
Proof. apply (bool_decide_unpack _). vm_compute. exact I. Qed.

Lemma Sample_returns_witness : is_Some (Sample (λ _, None) 1 gammaExample 0).
Proof.
  exact (proj1 (proj2 (Sample_returns (λ _, None) gammaExample 0 1)) eq_refl
           gammaExample_shape 0%nat Nat.lt_0_1 gammaExample_accepted).
Defined.
