(* ===== verification/Network.v ===== *)
(** * Network impairment of a Peer

    [internal/model/network.go] and [internal/model/network_schedule.go]: the
    [NetworkConfig] a profile declares, its validation, the overlay semantics of
    [NodeConfig.Merge] and [mergeNonZero] restricted to the network fields
    ([internal/model/config.go]), the resolution of sampled delays and the
    cumulative schedule of changes.  Pointers to settings are options: none of
    these functions writes through one. *)
From Stdlib Require Import ZArith Lia.
From stdpp Require Import strings list.
From S2P Require Import Prelude.
From S2P Require Import GoStd.
From S2P Require Import Distribution.
Open Scope Z_scope.

(** ** Data *)
Record TBFConfig := mkTBF { TBFRateMbps : float; BurstKbit : float; Latency : string }.

Inductive NetworkConfig := mkNetwork {
  Schedule : option NetworkSchedule;
  Scope : string;
  Delay : string;
  DelayDistribution : option Distribution;
  Jitter : string;
  JitterDistribution : string;
  LossPercent : option float;
  DuplicatePercent : option float;
  CorruptPercent : option float;
  ReorderPercent : option float;
  ReorderCorrelationPercent : option float;
  RateMbps : option float;
  TBF : option TBFConfig;
  QueueLimit : option Z }
with NetworkSchedule := mkSchedule { Reference : string; Changes : list NetworkChange }
with NetworkChange := mkChange { After : string; Set_ : NetworkConfig }.

Definition zeroNetwork : NetworkConfig :=
  mkNetwork None "" "" None "" "" None None None None None None None None.

Definition with_schedule (s : option NetworkSchedule) (c : NetworkConfig) : NetworkConfig :=
  mkNetwork s (Scope c) (Delay c) (DelayDistribution c) (Jitter c) (JitterDistribution c)
    (LossPercent c) (DuplicatePercent c) (CorruptPercent c) (ReorderPercent c)
    (ReorderCorrelationPercent c) (RateMbps c) (TBF c) (QueueLimit c).

Definition with_delay (d : string) (dist : option Distribution) (c : NetworkConfig) :
    NetworkConfig :=
  mkNetwork (Schedule c) (Scope c) d dist (Jitter c) (JitterDistribution c)
    (LossPercent c) (DuplicatePercent c) (CorruptPercent c) (ReorderPercent c)
    (ReorderCorrelationPercent c) (RateMbps c) (TBF c) (QueueLimit c).

Definition with_shaper (rate : option float) (tbf : option TBFConfig) (c : NetworkConfig) :
    NetworkConfig :=
  mkNetwork (Schedule c) (Scope c) (Delay c) (DelayDistribution c) (Jitter c)
    (JitterDistribution c) (LossPercent c) (DuplicatePercent c) (CorruptPercent c)
    (ReorderPercent c) (ReorderCorrelationPercent c) rate tbf (QueueLimit c).

Definition Clock (s : option NetworkSchedule) : string :=
  match s with
  | None => "peer-join"
  | Some s => if bool_decide (Reference s = ""%string) then "peer-join" else Reference s
  end.

Definition Initial (c : NetworkConfig) : NetworkConfig := with_schedule None c.

Definition Scheduled (c : NetworkConfig) : bool :=
  match Schedule c with Some s => (0 <? length (Changes s))%nat | None => false end.

(** ** Overlays *)
Definition nonzero (s d : string) : string :=
  if bool_decide (s = ""%string) then d else s.
Definition nonnil {A} (s d : option A) : option A := match s with Some _ => s | None => d end.

(** [mergeNonZero] on the fields of a [NetworkConfig]. *)
Definition mergeNonZero (dst src : NetworkConfig) : NetworkConfig :=
  mkNetwork (nonnil (Schedule src) (Schedule dst)) (nonzero (Scope src) (Scope dst))
    (nonzero (Delay src) (Delay dst)) (nonnil (DelayDistribution src) (DelayDistribution dst))
    (nonzero (Jitter src) (Jitter dst))
    (nonzero (JitterDistribution src) (JitterDistribution dst))
    (nonnil (LossPercent src) (LossPercent dst))
    (nonnil (DuplicatePercent src) (DuplicatePercent dst))
    (nonnil (CorruptPercent src) (CorruptPercent dst))
    (nonnil (ReorderPercent src) (ReorderPercent dst))
    (nonnil (ReorderCorrelationPercent src) (ReorderCorrelationPercent dst))
    (nonnil (RateMbps src) (RateMbps dst)) (nonnil (TBF src) (TBF dst))
    (nonnil (QueueLimit src) (QueueLimit dst)).

(** The part of [NodeConfig.Merge] that replaces an inherited alternative. *)
Definition switchModes (c overlay : NetworkConfig) : NetworkConfig :=
  let c := if negb (bool_decide (Delay overlay = ""%string)) &&
              bool_decide (DelayDistribution overlay = None)
           then with_delay (Delay c) None c else c in
  let c := match DelayDistribution overlay with
           | Some _ => if bool_decide (Delay overlay = ""%string)
                       then with_delay "" (DelayDistribution c) c else c
           | None => c
           end in
  let c := match TBF overlay, RateMbps overlay with
           | Some _, None => with_shaper None (TBF c) c
           | None, Some _ => with_shaper (RateMbps c) None c
           | _, _ => c
           end in
  c.

Definition Merge (c overlay : NetworkConfig) : NetworkConfig :=
  mergeNonZero (switchModes c overlay) overlay.

(** ** Validation *)
Definition networkPositiveFinite (v : float) : bool :=
  F64.ltb F64.zero v && negb (F64.isNaN v) && negb (F64.isInf v).

Definition networkDuration (name value : string) : res Z :=
  if bool_decide (value = ""%string) then Ok 0
  else match Duration.parse value with
       | Some d => if d <? 0 then Err (name +:+ " must be a non-negative Go duration") else Ok d
       | None => Err (name +:+ " must be a non-negative Go duration")
       end.

(** A test of a non-nil pointer's target. *)
Definition ptr {A} (f : A → bool) (p : option A) : bool :=
  match p with Some v => f v | None => false end.
Definition positive (p : option float) : bool := ptr (F64.ltb F64.zero) p.

Definition badPercent (v : float) : bool :=
  F64.isNaN v || F64.isInf v || F64.ltb v F64.zero || F64.ltb (F64.of_Z 100) v.

Definition checkPercents (c : NetworkConfig) : res unit :=
  foldr (λ '(name, value) k,
           fail_if (ptr badPercent value) (name +:+ " must be finite and between 0 and 100");; k)
    (Ok tt)
    [("lossPercent", LossPercent c); ("duplicatePercent", DuplicatePercent c);
     ("corruptPercent", CorruptPercent c); ("reorderPercent", ReorderPercent c);
     ("reorderCorrelationPercent", ReorderCorrelationPercent c)]%string.

Section network.
Context (ParseFloat : string → option float).

Definition checkDelayDistribution (c : NetworkConfig) (jitter : Z) : res unit :=
  match DelayDistribution c with
  | None => Ok tt
  | Some d =>
      fail_if (negb (bool_decide (Delay c = ""%string)))
        "delay and delayDistribution are mutually exclusive";;
      wrap "delayDistribution" (Distribution.Validate ParseFloat d false);;
      if (0 <? jitter) || positive (ReorderPercent c) then
        fail_if (default 0 (Duration.parse (Min d)) <=? 0)
          "delayDistribution requires a positive min when jitter or reorderPercent is enabled"
      else Ok tt
  end.

Definition checkTBF (c : NetworkConfig) : res unit :=
  match TBF c with
  | None => Ok tt
  | Some t =>
      fail_if (positive (RateMbps c)) "tbf and positive rateMbps are mutually exclusive";;
      fail_if (negb (networkPositiveFinite (TBFRateMbps t)) ||
               negb (networkPositiveFinite (BurstKbit t)))
        "tbf rateMbps and burstKbit must be positive and finite";;
      latency ← networkDuration "tbf latency" (Latency t);
      fail_if ((latency <? Duration.Microsecond) ||
               (MaxUint32 * Duration.Microsecond <? latency))
        "tbf latency must be between 1us and 4294967295us"
  end.

(** The checks before [c.validateSchedule()]. *)
Definition checkSettings (c : NetworkConfig) : res unit :=
  fail_if (negb (bool_decide (Scope c ∈ ["";"p2p";"all"]%string)))
    "scope must be p2p or all";;
  fail_if (negb (bool_decide (JitterDistribution c ∈
                    ["";"uniform";"normal";"pareto";"paretonormal"]%string)))
    "jitterDistribution must be uniform, normal, pareto, or paretonormal";;
  delay ← networkDuration "delay" (Delay c);
  jitter ← networkDuration "jitter" (Jitter c);
  fail_if (MaxInt32 <? jitter) "jitter must not exceed 2147483647ns (Linux netem limit)";;
  checkDelayDistribution c jitter;;
  fail_if ((0 <? jitter) && (delay =? 0) && bool_decide (DelayDistribution c = None))
    "jitter requires a positive delay";;
  checkPercents c;;
  fail_if (positive (ReorderPercent c) && (delay =? 0) &&
           bool_decide (DelayDistribution c = None))
    "reorderPercent requires a positive delay";;
  fail_if (positive (ReorderCorrelationPercent c) &&
           match ReorderPercent c with None => true | Some v => F64.leb v F64.zero end)
    "reorderCorrelationPercent requires a positive reorderPercent";;
  fail_if (ptr (λ v, F64.isNaN v || F64.isInf v || F64.ltb v F64.zero) (RateMbps c))
    "rateMbps must be finite and non-negative (0 disables the limit)";;
  checkTBF c;;
  fail_if (ptr (λ q, (q <=? 0) || (MaxUint32 <? u64 q)) (QueueLimit c))
    "queueLimit must be between 1 and 4294967295 packets".

(** The loop of [validateSchedule]; [validate] is the recursive [Validate]. *)
Fixpoint scheduleLoop (validate : NetworkConfig → res unit) (i : nat) (previous : Z)
    (current : NetworkConfig) (l : list NetworkChange) : res unit :=
  match l with
  | [] => Ok tt
  | change :: l =>
      match Duration.parse (After change) with
      | None => Err "schedule.changes[].after must be a non-negative Go duration"
      | Some after =>
          fail_if (after <? 0) "schedule.changes[].after must be a non-negative Go duration";;
          fail_if ((0 <? i)%nat && (after <=? previous))
            "schedule.changes after times must be strictly increasing";;
          fail_if (match Schedule (Set_ change) with Some _ => true | None => false end)
            "schedule.changes[].set cannot contain another schedule";;
          let current := Merge current (Set_ change) in
          wrap "schedule.changes[].set" (validate current);;
          scheduleLoop validate (S i) after current l
      end
  end.

Definition validateSchedule (validate : NetworkConfig → res unit) (c : NetworkConfig) :
    res unit :=
  match Schedule c with
  | None => Ok tt
  | Some s =>
      fail_if (negb (bool_decide (Clock (Schedule c) ∈ ["peer-join";"experiment-start"]%string)))
        "schedule.reference must be peer-join or experiment-start";;
      fail_if (128 <? length (Changes s))%nat "schedule supports at most 128 changes";;
      scheduleLoop validate 0 0 (Initial c) (Changes s)
  end.

(** The recursion of [Validate] through the schedule: a state of the schedule
    has none itself, so two levels are enough ([validate_fuel]). *)
Fixpoint validate (fuel : nat) (c : NetworkConfig) : res unit :=
  match fuel with
  | O => Panic
  | S fuel => checkSettings c;; validateSchedule (validate fuel) c
  end.
Definition Validate (c : NetworkConfig) : res unit := validate 2 c.

(** ** Enabled *)
Definition enabledSettings (c : NetworkConfig) : bool :=
  negb (default 0 (Duration.parse (Delay c)) =? 0) ||
  negb (default 0 (Duration.parse (Jitter c)) =? 0) ||
  negb (bool_decide (QueueLimit c = None)) ||
  match DelayDistribution c with Some _ => true | None => false end ||
  match TBF c with Some _ => true | None => false end ||
  existsb (ptr (λ v, negb (F64.eqb v F64.zero)))
    [LossPercent c; DuplicatePercent c; CorruptPercent c; ReorderPercent c; RateMbps c].

Fixpoint enabledLoop (enabled : NetworkConfig → bool) (current : NetworkConfig)
    (l : list NetworkChange) : bool :=
  match l with
  | [] => false
  | change :: l =>
      let current := Merge current (Initial (Set_ change)) in
      enabled current || enabledLoop enabled current l
  end.

Fixpoint enabled (fuel : nat) (c : NetworkConfig) : bool :=
  match fuel with
  | O => false
  | S fuel =>
      match Schedule c with
      | Some s => enabledLoop (enabled fuel) (Initial c) (Changes s)
      | None => false
      end || enabledSettings c
  end.
Definition Enabled (c : NetworkConfig) : bool := enabled 2 c.

(** ** Resolution

    [None]: the sampler's attempts ran out.  The random source is nil or the
    state of a generator. *)
Context {R : Type} `{DistRand R} `{MathFns}.
Definition resolved : Type := option (res NetworkConfig * option R).

Definition resolveDelay (fuel : nat) (c : NetworkConfig) (rng : option R) : resolved :=
  match DelayDistribution c, rng with
  | None, _ => Some (Ok c, rng)
  | Some _, None => Some (Err "delayDistribution requires a random source", rng)
  | Some d, Some r =>
      '(v, r) ← Sample ParseFloat fuel d r;
      let c := with_delay (Duration.String v) None c in
      Some ((Validate c;; Ok c), Some r)
  end.

(** The loop of [resolveSchedule]; [resolve] is the recursive [Resolve]. *)
Fixpoint resolveLoop (resolve : NetworkConfig → option R → resolved)
    (current : NetworkConfig) (l : list NetworkChange) (rng : option R) :
    option (res (list NetworkChange) * option R) :=
  match l with
  | [] => Some (Ok [], rng)
  | change :: l =>
      '(r, rng) ← resolve (Merge current (Set_ change)) rng;
      match wrap "schedule.changes[]" r with
      | Ok current =>
          '(r, rng) ← resolveLoop resolve current l rng;
          Some ((rest ← r; Ok (mkChange (After change) current :: rest)), rng)
      | Err e => Some (Err e, rng)
      | Panic => Some (Panic, rng)
      end
  end.

Definition resolveSchedule (resolve : NetworkConfig → option R → resolved)
    (c : NetworkConfig) (s : NetworkSchedule) (rng : option R) : resolved :=
  '(r, rng) ← resolve (Initial c) rng;
  match r with
  | Ok initial =>
      '(r, rng) ← resolveLoop resolve initial (Changes s) rng;
      Some ((changes ← r;
             Ok (with_schedule (Some (mkSchedule (Clock (Schedule c)) changes)) initial)), rng)
  | Err e => Some (Err e, rng)
  | Panic => Some (Panic, rng)
  end.

Fixpoint resolve (depth fuel : nat) (c : NetworkConfig) (rng : option R) : resolved :=
  match depth with
  | O => Some (Panic, rng)
  | S depth =>
      match Validate c with
      | Ok _ =>
          match Schedule c with
          | Some s => resolveSchedule (resolve depth fuel) c s rng
          | None => resolveDelay fuel c rng
          end
      | Err e => Some (Err e, rng)
      | Panic => Some (Panic, rng)
      end
  end.
Definition Resolve (fuel : nat) (c : NetworkConfig) (rng : option R) : resolved :=
  resolve 2 fuel c rng.
End network.
