(* ===== verification/NetworkProps.v ===== *)
(** * Correctness of network configurations

    Every state a validated schedule goes through is within the limits of the
    kernel's netem and TBF; a resolved configuration is concrete, valid, and its
    stored states are reproduced by merging them again; [Enabled] looks at all
    states. *)
From Stdlib Require Import ZArith Lia.
From stdpp Require Import strings list.
From S2P Require Import Prelude.
From S2P Require Import GoStd.
From S2P Require Import Distribution.
From S2P Require Import Network.
Open Scope Z_scope.

(** ** The states of a schedule *)
Fixpoint statesFrom (current : NetworkConfig) (l : list NetworkChange) : list NetworkConfig :=
  match l with
  | [] => []
  | change :: l => Merge current (Set_ change) :: statesFrom (Merge current (Set_ change)) l
  end.

Definition changesOf (c : NetworkConfig) : list NetworkChange :=
  match Schedule c with Some s => Changes s | None => [] end.

(** The settings in force at first and after each change. *)
Definition states (c : NetworkConfig) : list NetworkConfig :=
  Initial c :: statesFrom (Initial c) (changesOf c).

(** The base delay is positive, or sampled with a positive minimum. *)
Definition delayed (c : NetworkConfig) : Prop :=
  match DelayDistribution c with
  | None => ∃ d, Duration.parse (Delay c) = Some d ∧ 0 < d
  | Some dist => ∃ m, Duration.parse (Min dist) = Some m ∧ 0 < m
  end.

Definition percent (p : option float) : Prop :=
  ∀ v, p = Some v → F64.leb F64.zero v = true ∧ F64.leb v (F64.of_Z 100) = true.

(** What Linux [tc] accepts without clamping. *)
Record within (c : NetworkConfig) : Prop := {
  w_scope : Scope c ∈ ["";"p2p";"all"]%string;
  w_jitterDist : JitterDistribution c ∈ ["";"uniform";"normal";"pareto";"paretonormal"]%string;
  w_delay : Delay c ≠ ""%string → DelayDistribution c = None ∧
    ∃ d, Duration.parse (Delay c) = Some d ∧ 0 ≤ d;
  w_jitter : Jitter c ≠ ""%string →
    ∃ j, Duration.parse (Jitter c) = Some j ∧ 0 ≤ j ≤ MaxInt32 ∧ (0 < j → delayed c);
  w_percents : percent (LossPercent c) ∧ percent (DuplicatePercent c) ∧
    percent (CorruptPercent c) ∧ percent (ReorderPercent c) ∧
    percent (ReorderCorrelationPercent c);
  w_reorder : positive (ReorderPercent c) = true → delayed c;
  w_correlation : positive (ReorderCorrelationPercent c) = true →
    positive (ReorderPercent c) = true;
  w_rate : ∀ v, RateMbps c = Some v → F64.finite v = true ∧ F64.leb F64.zero v = true;
  w_tbf : ∀ t, TBF c = Some t → positive (RateMbps c) = false ∧
    networkPositiveFinite (TBFRateMbps t) = true ∧ networkPositiveFinite (BurstKbit t) = true ∧
    ∃ l, Duration.parse (Latency t) = Some l ∧
      Duration.Microsecond ≤ l ≤ MaxUint32 * Duration.Microsecond;
  w_queue : ∀ q, QueueLimit c = Some q → - 2^63 ≤ q < 2^63 → 1 ≤ q ≤ MaxUint32 }.

Lemma networkDuration_ok n s v :
  networkDuration n s = Ok v →
  0 ≤ v ∧ (s = ""%string ∧ v = 0 ∨ s ≠ ""%string ∧ Duration.parse s = Some v).
Proof.
  unfold networkDuration. case_bool_decide as Hs; [naive_solver lia|].
  destruct (Duration.parse s) as [d|]; [|done].
  destruct (Z.ltb_spec d 0); [done|]. intros [= <-]. naive_solver.
Qed.

Lemma not_lt_le x y :
  F64.isNaN x = false → F64.isNaN y = false → F64.ltb x y = false → F64.leb y x = true.
Proof.
  intros Hx Hy Hl. destruct (F64.leb y x) eqn:Hb; [done|].
  by rewrite (nan_or_cmp y x) in Hl.
Qed.

Lemma not_le_lt x y :
  F64.isNaN x = false → F64.isNaN y = false → F64.leb x y = false → F64.ltb y x = true.
Proof. apply nan_or_cmp. Qed.

Lemma badPercent_false v :
  badPercent v = false → F64.leb F64.zero v = true ∧ F64.leb v (F64.of_Z 100) = true.
Proof.
  unfold badPercent. intros Hb. bool_props.
  split; apply not_lt_le; try done; by vm_compute.
Qed.

Lemma checkPercents_ok c :
  checkPercents c = Ok tt →
  percent (LossPercent c) ∧ percent (DuplicatePercent c) ∧ percent (CorruptPercent c) ∧
  percent (ReorderPercent c) ∧ percent (ReorderCorrelationPercent c).
Proof.
  unfold checkPercents. cbn [foldr]. rewrite !fail_if_seq_ok.
  intros (H1 & H2 & H3 & H4 & H5 & _).
  split_and!; intros v Hv; apply badPercent_false;
    [by rewrite Hv in H1|by rewrite Hv in H2|by rewrite Hv in H3|by rewrite Hv in H4|
     by rewrite Hv in H5].
Qed.

Section props.
Context (ParseFloat : string → option float).

Lemma checkTBF_ok c t :
  checkTBF c = Ok tt → TBF c = Some t → positive (RateMbps c) = false ∧
  networkPositiveFinite (TBFRateMbps t) = true ∧ networkPositiveFinite (BurstKbit t) = true ∧
  ∃ l, Duration.parse (Latency t) = Some l ∧
      Duration.Microsecond ≤ l ≤ MaxUint32 * Duration.Microsecond.
Proof.
  unfold checkTBF. intros Hc Ht. rewrite Ht in Hc. rewrite !fail_if_seq_ok in Hc.
  destruct Hc as (Hr & Hp & Hc). apply bind_ok in Hc as (l & Hl & Hc).
  rewrite fail_if_ok in Hc. apply networkDuration_ok in Hl.
  apply orb_false_iff in Hc as [Hlo%Z.ltb_ge Hhi%Z.ltb_ge].
  apply orb_false_iff in Hp as [Hp1%negb_false_iff Hp2%negb_false_iff].
  split_and!; try done. exists l. split; [|lia].
  destruct Hl as [_ [[_ ->]|[_ ?]]]; [|done]. by vm_compute in Hlo.
Qed.

Lemma checkDelayDistribution_ok c jitter d :
  checkDelayDistribution ParseFloat c jitter = Ok tt → DelayDistribution c = Some d →
  Delay c = ""%string ∧ (0 < jitter ∨ positive (ReorderPercent c) = true →
    ∃ m, Duration.parse (Min d) = Some m ∧ 0 < m).
Proof.
  unfold checkDelayDistribution. intros Hc Hd0. rewrite Hd0 in Hc. rewrite fail_if_seq_ok in Hc.
  destruct Hc as (Hd & Hc). apply bind_ok in Hc as (? & _ & Hc). bool_props.
  split; [done|]. intros Hj.
  assert ((0 <? jitter) || positive (ReorderPercent c) = true) as Hb.
  { destruct Hj as [Hj | ->]; [|apply orb_true_r]. apply Z.ltb_lt in Hj. by rewrite Hj. }
  rewrite Hb, fail_if_ok in Hc. bool_props.
  destruct (Duration.parse (Min d)) as [m|] eqn:Hm; cbn in Hc; [|lia]. eauto.
Qed.

Lemma checkSettings_within c : checkSettings ParseFloat c = Ok tt → within c.
Proof.
  unfold checkSettings. rewrite !fail_if_seq_ok. intros (Hsc & Hjd & Hc).
  apply bind_ok in Hc as (delay & Hdel & Hc). apply bind_ok in Hc as (jit & Hjit & Hc).
  rewrite fail_if_seq_ok in Hc. destruct Hc as (Hjm & Hc).
  apply bind_ok in Hc as ([] & Hdist & Hc). rewrite fail_if_seq_ok in Hc.
  destruct Hc as (Hjd' & Hc). apply bind_ok in Hc as ([] & Hperc & Hc).
  rewrite !fail_if_seq_ok in Hc. destruct Hc as (Hre & Hco & Hra & Hc).
  apply bind_ok in Hc as ([] & Htbf & Hc). rewrite fail_if_ok in Hc.
  apply networkDuration_ok in Hdel as [Hdel Edel], Hjit as [Hjit Ejit].
  apply negb_false_iff, bool_decide_eq_true in Hsc, Hjd. apply Z.ltb_ge in Hjm.
  assert (Hdelayed : 0 < jit ∨ positive (ReorderPercent c) = true →
    (DelayDistribution c = None → (delay =? 0) = false) → delayed c).
  { intros Hj Hz. unfold delayed. destruct (DelayDistribution c) as [d|] eqn:Hd.
    - by apply (checkDelayDistribution_ok c jit d Hdist Hd).
    - specialize (Hz eq_refl). apply Z.eqb_neq in Hz. exists delay. split; [|lia].
      destruct Edel as [[_ ->]|[_ ?]]; done. }
  assert (HpN : positive (ReorderPercent c) = true → DelayDistribution c = None →
    (delay =? 0) = false).
  { intros Hp Hn. rewrite Hp, Hn in Hre. cbn in Hre. by destruct (delay =? 0). }
  split; try done.
  - intros Hne. destruct Edel as [[? _]|[_ Edel]]; [done|]. split; [|eauto].
    destruct (DelayDistribution c) as [d|] eqn:Hd; [|done].
    by destruct (checkDelayDistribution_ok c jit d Hdist Hd).
  - intros Hne. destruct Ejit as [[? _]|[_ Ejit]]; [done|]. exists jit. split_and!; try done.
    intros Hj. apply Hdelayed; [by left|]. intros Hn. rewrite Hn in Hjd'.
    assert ((0 <? jit) = true) as Hjt by by apply Z.ltb_lt.
    rewrite Hjt in Hjd'. by destruct (delay =? 0).
  - by apply checkPercents_ok.
  - intros Hp. apply Hdelayed; [by right|]. by apply HpN.
  - intros Hp. rewrite Hp in Hco. unfold positive, ptr.
    destruct (ReorderPercent c) as [v|] eqn:Hv; [|done]. cbn in Hco.
    destruct (checkPercents_ok c Hperc) as (_ & _ & _ & Hrp & _).
    apply not_le_lt; [|done|done].
    destruct (Hrp v Hv) as [Hz _]. by destruct v.
  - intros v Hv. rewrite Hv in Hra. cbn in Hra.
    apply orb_false_iff in Hra as [[Hn Hi]%orb_false_iff Hlt]. split.
    + unfold F64.finite. by rewrite Hn, Hi.
    + by apply not_lt_le.
  - intros t. by apply checkTBF_ok.
  - intros q Hq Hrange. rewrite Hq in Hc. cbn [ptr] in Hc.
    apply orb_false_iff in Hc as [Hlo%Z.leb_gt Hhi%Z.ltb_ge].
    unfold MaxUint32 in *. rewrite u64_id in Hhi; lia.
Qed.

(** ** Schedules *)
Lemma checkSettings_schedule s c :
  checkSettings ParseFloat (with_schedule s c) = checkSettings ParseFloat c.
Proof. done. Qed.

Lemma Schedule_Merge c o :
  Schedule c = None → Schedule o = None → Schedule (Merge c o) = None.
Proof.
  intros Hc Ho. unfold Merge. cbn. rewrite Ho. cbn. unfold switchModes.
  repeat case_match; done.
Qed.

(** A state without schedule is validated by its settings alone. *)
Lemma validate_flat fuel c :
  Schedule c = None → validate ParseFloat (S fuel) c = checkSettings ParseFloat c.
Proof.
  intros Hs. cbn [validate]. unfold validateSchedule. rewrite Hs.
  by destruct (checkSettings ParseFloat c) as [[]| |].
Qed.

(** Offsets of the changes, strictly increasing from [previous]. *)
Fixpoint increasing (previous : option Z) (l : list NetworkChange) : Prop :=
  match l with
  | [] => True
  | change :: l => ∃ after, Duration.parse (After change) = Some after ∧ 0 ≤ after ∧
      match previous with Some p => p < after | None => True end ∧ increasing (Some after) l
  end.

Lemma scheduleLoop_ok fuel i previous current l :
  Schedule current = None →
  scheduleLoop (validate ParseFloat (S fuel)) i previous current l = Ok tt →
  increasing (if (0 <? i)%nat then Some previous else None) l ∧
  Forall (λ ch, Schedule (Set_ ch) = None) l ∧
  Forall (λ st, Schedule st = None ∧ checkSettings ParseFloat st = Ok tt) (statesFrom current l).
Proof.
  revert i previous current. induction l as [|ch l IH]; intros i previous current Hs Hl.
  { split_and!; constructor. }
  cbn [scheduleLoop] in Hl. destruct (Duration.parse (After ch)) as [after|] eqn:Ha; [|done].
  rewrite !fail_if_seq_ok in Hl. destruct Hl as (H0 & Hinc & Hn & Hl).
  apply bind_ok in Hl as ([] & Hv & Hl). rewrite wrap_ok in Hv.
  assert (Hset : Schedule (Set_ ch) = None) by by destruct (Schedule (Set_ ch)).
  pose proof (Schedule_Merge _ _ Hs Hset) as Hm. rewrite validate_flat in Hv by done.
  destruct (IH (S i) after _ Hm Hl) as (Hi & Hf & Hst).
  split_and!; [|by constructor|by constructor].
  exists after. apply Z.ltb_ge in H0. split_and!; try done.
  destruct (0 <? i)%nat; [|done]. cbn in Hinc. by apply Z.leb_gt in Hinc.
Qed.

Lemma scheduleLoop_complete fuel i previous current l :
  Schedule current = None →
  increasing (if (0 <? i)%nat then Some previous else None) l →
  Forall (λ ch, Schedule (Set_ ch) = None) l →
  Forall (λ st, checkSettings ParseFloat st = Ok tt) (statesFrom current l) →
  scheduleLoop (validate ParseFloat (S fuel)) i previous current l = Ok tt.
Proof.
  revert i previous current. induction l as [|ch l IH]; intros i previous current Hs Hi Hf Hst;
    [done|].
  destruct Hi as (after & Ha & H0 & Hinc & Hi). inversion Hf; subst. inversion Hst; subst.
  cbn [scheduleLoop]. rewrite Ha. rewrite !fail_if_seq_ok.
  pose proof (Schedule_Merge current (Set_ ch) Hs) as Hm.
  split; [by apply Z.ltb_ge|]. split.
  { destruct (0 <? i)%nat; [|done]. cbn. by apply Z.leb_gt. }
  split; [by destruct (Schedule (Set_ ch))|].
  apply bind_ok. exists tt. rewrite wrap_ok, validate_flat by auto. split; [done|].
  apply IH; auto.
Qed.

Lemma Validate_ok c :
  Validate ParseFloat c = Ok tt →
  checkSettings ParseFloat c = Ok tt ∧ increasing None (changesOf c) ∧
  Forall (λ ch, Schedule (Set_ ch) = None) (changesOf c) ∧
  Forall (λ st, Schedule st = None ∧ checkSettings ParseFloat st = Ok tt) (states c) ∧
  Clock (Schedule c) ∈ ["peer-join";"experiment-start"]%string ∧
  (length (changesOf c) ≤ 128)%nat.
Proof.
  unfold Validate. cbn [validate]. intros Hv. apply bind_ok in Hv as ([] & Hc & Hv).
  unfold validateSchedule in Hv. unfold states, changesOf.
  destruct (Schedule c) as [s|] eqn:Hs.
  - rewrite !fail_if_seq_ok in Hv. destruct Hv as (Hclk & Hlen & Hl).
    apply negb_false_iff, bool_decide_eq_true in Hclk. apply Nat.ltb_ge in Hlen.
    apply (scheduleLoop_ok 0 0 0 (Initial c)) in Hl as (Hi & Hf & Hst); [|done].
    split_and!; try done. by constructor.
  - split_and!; try done.
    + constructor; [by split|]. constructor.
    + cbn. set_solver.
    + cbn. lia.
Qed.

(** A validated configuration respects the kernel's limits at every moment:
    the initial settings and the cumulative settings after each scheduled change
    are [within] them (jitter fits netem's signed 32-bit nanoseconds and has a
    positive delay, percentages are in [0, 100], the token bucket and the queue
    limit are in range, mutually exclusive modes are not combined), the offsets
    are non-negative and strictly increasing, and no change nests a schedule. *)
Theorem Validate_every_state c :
  Validate ParseFloat c = Ok tt →
  Forall within (states c) ∧ increasing None (changesOf c) ∧
  Forall (λ ch, Schedule (Set_ ch) = None) (changesOf c) ∧
  (length (changesOf c) ≤ 128)%nat.
Proof.
  intros Hv. apply Validate_ok in Hv as (_ & Hi & Hf & Hst & _ & Hlen). split_and!; try done.
  eapply list.Forall_impl; [exact Hst|]. intros st [_ Hc]. by eapply checkSettings_within.
Qed.

Lemma Validate_complete c :
  checkSettings ParseFloat c = Ok tt → increasing None (changesOf c) →
  Forall (λ ch, Schedule (Set_ ch) = None) (changesOf c) →
  Forall (λ st, checkSettings ParseFloat st = Ok tt) (states c) →
  Clock (Schedule c) ∈ ["peer-join";"experiment-start"]%string →
  (length (changesOf c) ≤ 128)%nat →
  Validate ParseFloat c = Ok tt.
Proof.
  intros Hc Hi Hf Hst Hclk Hlen. unfold Validate. cbn [validate]. rewrite Hc. cbn [mbind res_bind].
  unfold validateSchedule, states, changesOf in *. destruct (Schedule c) as [s|] eqn:Hs; [|done].
  rewrite !fail_if_seq_ok. inversion Hst; subst. split_and!.
  - apply negb_false_iff. by apply bool_decide_eq_true.
  - by apply Nat.ltb_ge.
  - by apply (scheduleLoop_complete 0).
Qed.

(** ** Resolution *)
Definition concrete (c : NetworkConfig) : Prop := DelayDistribution c = None.

Lemma String_nonempty d : Duration.String d ≠ ""%string.
Proof.
  assert (Happ : ∀ (s t : string), t ≠ ""%string → (s +:+ t)%string ≠ ""%string).
  { intros s t Ht. by destruct s. }
  unfold Duration.String. destruct (d <? 0); [by destruct (Z.abs d <? _)|].
  destruct (Z.abs d <? Duration.Second).
  - destruct (Z.abs d =? 0); [done|].
    destruct (Z.abs d <? Duration.Microsecond); [|destruct (Z.abs d <? Duration.Millisecond)];
      destruct (Duration.fmtFrac _ _ _ _) as [f v]; by do 2 apply Happ.
  - destruct (Duration.fmtFrac _ _ _ _) as [f v].
    destruct (0 <? v / 60); [destruct (0 <? v / 60 / 60)|]; by repeat apply Happ.
Qed.

Lemma nonzero_idem s d : nonzero (nonzero s d) d = nonzero s d.
Proof. unfold nonzero. repeat case_bool_decide; congruence. Qed.

Lemma nonzero_self d : nonzero d d = d.
Proof. unfold nonzero. by case_bool_decide. Qed.

Lemma nonnil_idem {A} (s d : option A) : nonnil (nonnil s d) d = nonnil s d.
Proof. by destruct s, d. Qed.

Lemma nonzero_twice s d : nonzero (nonzero s d) (nonzero s d) = nonzero s d.
Proof. apply nonzero_self. Qed.

Lemma network_ext a b :
  Schedule a = Schedule b → Scope a = Scope b → Delay a = Delay b →
  DelayDistribution a = DelayDistribution b → Jitter a = Jitter b →
  JitterDistribution a = JitterDistribution b → LossPercent a = LossPercent b →
  DuplicatePercent a = DuplicatePercent b → CorruptPercent a = CorruptPercent b →
  ReorderPercent a = ReorderPercent b →
  ReorderCorrelationPercent a = ReorderCorrelationPercent b → RateMbps a = RateMbps b →
  TBF a = TBF b → QueueLimit a = QueueLimit b → a = b.
Proof. destruct a, b. cbn. intros. by subst. Qed.

(** The fields an overlay can clear. *)
Lemma Merge_delay c o :
  Delay (Merge c o) =
    nonzero (Delay o) (match DelayDistribution o with
                       | Some _ => if bool_decide (Delay o = ""%string) then ""%string else Delay c
                       | None => Delay c end) ∧
  DelayDistribution (Merge c o) =
    nonnil (DelayDistribution o) (if bool_decide (Delay o = ""%string)
                                  then DelayDistribution c else None).
Proof.
  unfold Merge, switchModes, mergeNonZero.
  destruct (DelayDistribution o), (RateMbps o), (TBF o); cbn;
    destruct (decide (Delay o = ""%string)) as [->|Hne]; try done;
    rewrite ?(bool_decide_eq_false_2 _ Hne); by cbn.
Qed.

Lemma Merge_shaper c o :
  RateMbps (Merge c o) =
    nonnil (RateMbps o) (match TBF o with Some _ => None | None => RateMbps c end) ∧
  TBF (Merge c o) =
    nonnil (TBF o) (match RateMbps o with Some _ => None | None => TBF c end).
Proof.
  unfold Merge, switchModes, mergeNonZero.
  destruct (DelayDistribution o), (RateMbps o), (TBF o); cbn;
    destruct (bool_decide (Delay o = ""%string)); cbn; done.
Qed.

(** The other fields. *)
Lemma Merge_rest c o :
  Schedule (Merge c o) = nonnil (Schedule o) (Schedule c) ∧
  Scope (Merge c o) = nonzero (Scope o) (Scope c) ∧
  Jitter (Merge c o) = nonzero (Jitter o) (Jitter c) ∧
  JitterDistribution (Merge c o) = nonzero (JitterDistribution o) (JitterDistribution c) ∧
  LossPercent (Merge c o) = nonnil (LossPercent o) (LossPercent c) ∧
  DuplicatePercent (Merge c o) = nonnil (DuplicatePercent o) (DuplicatePercent c) ∧
  CorruptPercent (Merge c o) = nonnil (CorruptPercent o) (CorruptPercent c) ∧
  ReorderPercent (Merge c o) = nonnil (ReorderPercent o) (ReorderPercent c) ∧
  ReorderCorrelationPercent (Merge c o) =
    nonnil (ReorderCorrelationPercent o) (ReorderCorrelationPercent c) ∧
  QueueLimit (Merge c o) = nonnil (QueueLimit o) (QueueLimit c).
Proof.
  assert (∀ f : NetworkConfig → NetworkConfig, f = (λ x, switchModes x o) →
    Schedule (f c) = Schedule c ∧ Scope (f c) = Scope c ∧ Jitter (f c) = Jitter c ∧
    JitterDistribution (f c) = JitterDistribution c ∧ LossPercent (f c) = LossPercent c ∧
    DuplicatePercent (f c) = DuplicatePercent c ∧ CorruptPercent (f c) = CorruptPercent c ∧
    ReorderPercent (f c) = ReorderPercent c ∧
    ReorderCorrelationPercent (f c) = ReorderCorrelationPercent c ∧
    QueueLimit (f c) = QueueLimit c) as Hsw.
  { intros f ->. unfold switchModes.
    destruct (DelayDistribution o), (RateMbps o), (TBF o); cbn;
      destruct (bool_decide (Delay o = ""%string)); cbn; done. }
  destruct (Hsw _ eq_refl) as (E1&E2&E3&E4&E5&E6&E7&E8&E9&E10).
  unfold Merge, mergeNonZero. cbn. rewrite E1, E2, E3, E4, E5, E6, E7, E8, E9, E10. done.
Qed.

(** A state that already has every setting the merge would inherit. *)
Definition absorbs (c r : NetworkConfig) : Prop :=
  Schedule c = None ∧ Schedule r = None ∧ concrete c ∧ concrete r ∧
  (Scope r = "" → Scope c = "")%string ∧ (Delay r = "" → Delay c = "")%string ∧
  (Jitter r = "" → Jitter c = "")%string ∧
  (JitterDistribution r = "" → JitterDistribution c = "")%string ∧
  (LossPercent r = None → LossPercent c = None) ∧
  (DuplicatePercent r = None → DuplicatePercent c = None) ∧
  (CorruptPercent r = None → CorruptPercent c = None) ∧
  (ReorderPercent r = None → ReorderPercent c = None) ∧
  (ReorderCorrelationPercent r = None → ReorderCorrelationPercent c = None) ∧
  (RateMbps r = None → TBF r = None → RateMbps c = None) ∧
  (TBF r = None → RateMbps r = None → TBF c = None) ∧
  (QueueLimit r = None → QueueLimit c = None).

Lemma nonzero_absorb r c : (r = "" → c = "")%string → nonzero r c = r.
Proof. unfold nonzero. case_bool_decide; [|done]. intros Hc. by rewrite Hc, H. Qed.

Lemma nonnil_absorb {A} (r c : option A) : (r = None → c = None) → nonnil r c = r.
Proof. destruct r; [done|]. intros Hc. by rewrite Hc. Qed.

Lemma absorbs_Merge c r : absorbs c r → Merge c r = r.
Proof.
  intros (A1&A2&A3&A4&A5&A6&A7&A8&A9&A10&A11&A12&A13&A14&A15&A16).
  destruct (Merge_rest c r) as (E1&E2&E3&E4&E5&E6&E7&E8&E9&E10).
  destruct (Merge_delay c r) as (E11&E12), (Merge_shaper c r) as (E13&E14).
  apply network_ext; rewrite ?E1, ?E2, ?E3, ?E4, ?E5, ?E6, ?E7, ?E8, ?E9, ?E10, ?E11, ?E12,
    ?E13, ?E14; try (by apply nonzero_absorb); try (by apply nonnil_absorb).
  - rewrite A4. by apply nonzero_absorb.
  - rewrite A4, A3. by destruct (bool_decide _).
  - apply nonnil_absorb. intros Hr. destruct (TBF r) eqn:?; auto.
  - apply nonnil_absorb. intros Hr. destruct (RateMbps r) eqn:?; auto.
Qed.

Lemma nonzero_empty s d : nonzero s d = ""%string → d = ""%string.
Proof. unfold nonzero. case_bool_decide; naive_solver. Qed.

Lemma nonnil_None {A} (s d : option A) : nonnil s d = None → d = None.
Proof. by destruct s. Qed.

(** Resolving a merged state keeps every inherited setting or replaces it. *)
Lemma Merge_absorb c o v :
  concrete c → Schedule c = None → Schedule o = None →
  let m := Merge c o in
  let r := match DelayDistribution m with
           | None => m
           | Some _ => with_delay (Duration.String v) None m
           end in
  Merge c r = r.
Proof.
  intros Hc Hs Ho m r. apply absorbs_Merge.
  destruct (Merge_rest c o) as (E1&E2&E3&E4&E5&E6&E7&E8&E9&E10).
  destruct (Merge_delay c o) as (E11&E12), (Merge_shaper c o) as (E13&E14).
  fold m in E1, E2, E3, E4, E5, E6, E7, E8, E9, E10, E11, E12, E13, E14. clearbody m.
  assert (Hr : concrete r ∧ (Delay r = "" → Delay c = "")%string).
  { unfold r, concrete. destruct (DelayDistribution m) as [d|] eqn:Hd; cbn.
    - split; [done|]. intros Hv. by destruct (String_nonempty v).
    - split; [done|]. rewrite E11. rewrite E12 in Hd. destruct (DelayDistribution o); [done|].
      apply nonzero_empty. }
  assert (Hrest : Schedule r = Schedule m ∧ Scope r = Scope m ∧ Jitter r = Jitter m ∧
    JitterDistribution r = JitterDistribution m ∧ LossPercent r = LossPercent m ∧
    DuplicatePercent r = DuplicatePercent m ∧ CorruptPercent r = CorruptPercent m ∧
    ReorderPercent r = ReorderPercent m ∧
    ReorderCorrelationPercent r = ReorderCorrelationPercent m ∧ RateMbps r = RateMbps m ∧
    TBF r = TBF m ∧ QueueLimit r = QueueLimit m).
  { unfold r. by destruct (DelayDistribution m). }
  destruct Hr as [Hr1 Hr2]. destruct Hrest as (F1&F2&F3&F4&F5&F6&F7&F8&F9&F10&F11&F12).
  unfold absorbs. rewrite F1, F2, F3, F4, F5, F6, F7, F8, F9, F10, F11, F12.
  rewrite E1, E2, E3, E4, E5, E6, E7, E8, E9, E10, E13, E14, Hs, Ho.
  split_and!; try done; try apply nonzero_empty; try apply nonnil_None.
  - destruct (RateMbps o), (TBF o); cbn; done.
  - destruct (RateMbps o), (TBF o); cbn; done.
Qed.

Context {R : Type} `{DistRand R} `{MathFns}.

Lemma resolve_S depth fuel c rng :
  resolve ParseFloat (S depth) fuel c rng =
  match Validate ParseFloat c with
  | Ok _ => match Schedule c with
            | Some s => resolveSchedule (resolve ParseFloat depth fuel) c s rng
            | None => resolveDelay ParseFloat fuel c rng
            end
  | Err e => Some (Err e, rng)
  | Panic => Some (Panic, rng)
  end.
Proof. done. Qed.

Lemma Clock_again x l :
  x ∈ ["peer-join";"experiment-start"]%string →
  Clock (Some (mkSchedule x l)) ∈ ["peer-join";"experiment-start"]%string.
Proof.
  intros Hx. unfold Clock. cbn [Reference].
  destruct (bool_decide (x = ""%string)); [by left|done].
Qed.

(** What resolving a state without schedule returns. *)
Lemma resolve_flat depth fuel c rng c' rng' :
  Schedule c = None → resolve ParseFloat (S depth) fuel c rng = Some (Ok c', rng') →
  ∃ v, c' = match DelayDistribution c with
            | None => c
            | Some _ => with_delay (Duration.String v) None c
            end ∧ concrete c' ∧ Schedule c' = None ∧ checkSettings ParseFloat c' = Ok tt.
Proof.
  intros Hs Hr. rewrite resolve_S, Hs in Hr.
  destruct (Validate ParseFloat c) as [[]| |] eqn:Hv; [|done..].
  unfold resolveDelay in Hr. unfold Validate in Hv. rewrite validate_flat in Hv by done.
  destruct (DelayDistribution c) as [d|] eqn:Hd.
  - destruct rng as [r|]; [|done].
    destruct (Sample ParseFloat fuel d r) as [[v r1]|]; [|done]. cbn [mbind option_bind] in Hr.
    exists v. set (c1 := with_delay _ _ _) in *.
    destruct (Validate ParseFloat c1) as [[]| |] eqn:Hv1; [|done..].
    cbn [mbind res_bind] in Hr. simplify_eq. unfold Validate in Hv1.
    by rewrite validate_flat in Hv1.
  - simplify_eq. by exists 0.
Qed.

Lemma resolveLoop_ok depth fuel current l rng l' rng' :
  concrete current → Schedule current = None →
  Forall (λ ch, Schedule (Set_ ch) = None) l →
  resolveLoop (resolve ParseFloat (S depth) fuel) current l rng = Some (Ok l', rng') →
  map After l' = map After l ∧ statesFrom current l' = map Set_ l' ∧
  Forall (λ st, concrete st ∧ Schedule st = None ∧ checkSettings ParseFloat st = Ok tt)
    (map Set_ l').
Proof.
  revert current rng l'. induction l as [|ch l IH]; intros current rng l' Hc Hs Hf Hl.
  { cbn in Hl. simplify_eq. split_and!; constructor. }
  inversion Hf as [|? ? Hset Hf']; subst. cbn [resolveLoop] in Hl.
  destruct (resolve ParseFloat (S depth) fuel _ _) as [[r rng1]|] eqn:Hr; [|done].
  cbn [mbind option_bind] in Hl. destruct r as [st|e|]; cbn [wrap] in Hl; [|done..].
  pose proof (Schedule_Merge current (Set_ ch) Hs Hset) as Hm.
  destruct (resolve_flat _ _ _ _ _ _ Hm Hr) as (v & Hst & Hcst & Hsst & Hok).
  assert (Habs : Merge current st = st).
  { rewrite Hst. by apply Merge_absorb. }
  clear Hst.
  destruct (resolveLoop _ st l rng1) as [[r2 rng2]|] eqn:Hrest; [|done].
  cbn [mbind option_bind] in Hl. destruct r2 as [l1|e|]; [|done..].
  cbn [mbind res_bind] in Hl. simplify_eq.
  destruct (IH _ _ _ Hcst Hsst Hf' Hrest) as (Ha & Hsf & Hall).
  split_and!.
  - cbn. by rewrite Ha.
  - cbn [statesFrom map Set_]. by rewrite Habs, Hsf.
  - by constructor.
Qed.

Lemma increasing_After p l l' : map After l' = map After l → increasing p l → increasing p l'.
Proof.
  revert p l'. induction l as [|ch l IH]; intros p [|ch' l'] Heq Hi; try done.
  cbn in Heq. destruct Hi as (after & Ha & H0' & Hp & Hi). simplify_eq.
  exists after. split_and!; try done; [congruence|by apply IH].
Qed.

(** A resolved configuration is the plan a Peer can follow without a random
    source.  Its initial settings and every stored state are concrete and
    within the kernel's limits, it validates again, the offsets are those of
    the declared schedule, and merging the stored states one after the other
    (which is what the Peer does) reproduces exactly these states: no setting a
    later state dropped leaks back in from an earlier one. *)
Theorem Resolve_concrete fuel c rng c' rng' :
  Resolve ParseFloat fuel c rng = Some (Ok c', rng') →
  Forall (λ st, concrete st ∧ within st) (states c') ∧
  Validate ParseFloat c' = Ok tt ∧
  map After (changesOf c') = map After (changesOf c) ∧
  states c' = Initial c' :: map Set_ (changesOf c').
Proof.
  unfold Resolve. intros Hr. destruct (Schedule c) as [s|] eqn:Hs.
  - rewrite resolve_S in Hr. destruct (Validate ParseFloat c) as [[]| |] eqn:Hv; [|done..].
    rewrite Hs in Hr. unfold resolveSchedule in Hr.
    destruct (Validate_ok c Hv) as (_ & Hi & Hf & _ & Hclk & Hlen).
    unfold changesOf in Hi, Hf, Hlen. rewrite Hs in Hi, Hf, Hlen.
    destruct (resolve ParseFloat 1 fuel (Initial c) rng) as [[r1 rng1]|] eqn:Hinit; [|done].
    cbn [mbind option_bind] in Hr. destruct r1 as [init|e|]; [|done..].
    destruct (resolve_flat 0 fuel (Initial c) rng init rng1 eq_refl Hinit)
      as (_ & _ & Hci & Hsi & Hok).
    destruct (resolveLoop _ init _ _) as [[r2 rng2]|] eqn:Hl; [|done].
    cbn [mbind option_bind] in Hr. destruct r2 as [l'|e|]; [|done..].
    cbn [mbind res_bind] in Hr. simplify_eq.
    destruct (resolveLoop_ok 0 fuel init (Changes s) rng1 l' rng' Hci Hsi Hf Hl)
      as (Ha & Hsf & Hall).
    set (c' := with_schedule (Some (mkSchedule (Clock (Some s)) l')) init) in *.
    assert (Hic : Initial c' = init) by (apply network_ext; done).
    assert (Hstates : states c' = init :: map Set_ l').
    { unfold states. rewrite Hic. by rewrite <- Hsf. }
    assert (Hcs : Forall (λ st, concrete st ∧ Schedule st = None ∧
      checkSettings ParseFloat st = Ok tt) (states c')).
    { rewrite Hstates. by constructor. }
    split_and!.
    + eapply list.Forall_impl; [exact Hcs|]. intros st (? & _ & ?). split; [done|].
      by eapply checkSettings_within.
    + apply Validate_complete.
      * exact Hok.
      * by apply (increasing_After None (Changes s)).
      * change (changesOf c') with l'. rewrite List.Forall_map in Hall.
        eapply list.Forall_impl; [exact Hall|]. by intros ch (_ & ? & _).
      * eapply list.Forall_impl; [exact Hcs|]. by intros st (_ & _ & ?).
      * rewrite Hs in Hclk |- *. by apply Clock_again.
      * change (length l' <= 128)%nat. apply (f_equal length) in Ha.
        rewrite !List.length_map in Ha. lia.
    + unfold changesOf at 2. by rewrite Hs.
    + change (states c' = Initial c' :: map Set_ l'). by rewrite Hstates, Hic.
  - destruct (resolve_flat 1 fuel c rng c' rng' Hs Hr) as (v & _ & Hc & Hs' & Hok).
    assert (Hch : changesOf c' = []) by (unfold changesOf; by rewrite Hs').
    assert (Hic : Initial c' = c') by (by apply network_ext).
    assert (Hst : states c' = [c']) by (unfold states; by rewrite Hch, Hic).
    split_and!.
    + rewrite Hst. apply list.Forall_singleton. split; [done|]. by eapply checkSettings_within.
    + unfold Validate. by rewrite validate_flat.
    + unfold changesOf. by rewrite Hs, Hs'.
    + by rewrite Hst, Hch, Hic.
Qed.

(** ** Enabled *)
Lemma enabledLoop_states (en : NetworkConfig → bool) current l :
  Forall (λ ch, Schedule (Set_ ch) = None) l → (∀ st, Schedule st = None → en st = enabledSettings st) →
  Schedule current = None →
  enabledLoop en current l = existsb enabledSettings (statesFrom current l).
Proof.
  intros Hf Hen. revert current. induction Hf as [|ch l Hset Hf IH]; intros current Hs; [done|].
  cbn [enabledLoop statesFrom existsb].
  assert (Initial (Set_ ch) = Set_ ch) as -> by (apply network_ext; done).
  rewrite Hen, IH by by apply Schedule_Merge. done.
Qed.

(** [Enabled] looks at the whole plan: a validated configuration is enabled
    exactly when its initial settings or those after some change contain an
    impairment. *)
Theorem Enabled_states c :
  Validate ParseFloat c = Ok tt →
  Enabled c = true ↔ ∃ st, st ∈ states c ∧ enabledSettings st = true.
Proof.
  intros Hv. destruct (Validate_ok c Hv) as (_ & _ & Hf & _).
  assert (Enabled c = existsb enabledSettings (states c)) as ->.
  { unfold Enabled, states. unfold changesOf in *. cbn [enabled existsb].
    assert (Hi : enabledSettings (Initial c) = enabledSettings c) by done.
    destruct (Schedule c) as [s|] eqn:Hs.
    - rewrite enabledLoop_states; [by rewrite Hi, orb_comm|done| |done].
      intros st Hst. by rewrite Hst.
    - cbn [existsb statesFrom]. by rewrite Hi, orb_false_r. }
  rewrite existsb_exists. setoid_rewrite <- list_elem_of_In. done.
Qed.
End props.

(** ** Witnesses: a fixed delay, then a sampled one, then a token bucket *)
Definition exampleDist : Distribution :=
  mkDist "exponential" "" "5ms" "" "" F64.zero F64.zero "" F64.zero F64.zero "1ms" "".
Definition exampleNetwork : NetworkConfig :=
  mkNetwork
    (Some (mkSchedule ""
      [mkChange "5s" (with_delay "" (Some exampleDist) zeroNetwork);
       mkChange "10s" (with_shaper None (Some (mkTBF (F64.of_Z 8) (F64.of_Z 32) "50ms"))
                         zeroNetwork)]))
    "" "10ms" None "2ms" "" (Some F64.one) None None None None (Some (F64.of_Z 100)) None
    (Some 1000).

Definition noFloats : string → option float := λ _, None.

Lemma exampleNetwork_valid : Validate noFloats exampleNetwork = Ok tt.
Proof. vm_compute. reflexivity. Qed.

Lemma Validate_every_state_witness : Forall within (states exampleNetwork).
Proof. exact (proj1 (Validate_every_state noFloats exampleNetwork exampleNetwork_valid)). Defined.

Definition exampleResolved : NetworkConfig :=
  match Resolve noFloats 1 exampleNetwork (Some 0) with
  | Some (Ok c, _) => c
  | _ => zeroNetwork
  end.

Lemma exampleNetwork_resolved :
  Resolve noFloats 1 exampleNetwork (Some 0) = Some (Ok exampleResolved, Some 1).
Proof. vm_compute. reflexivity. Qed.

Lemma Resolve_concrete_witness :
  Validate noFloats exampleResolved = Ok tt ∧
  states exampleResolved = Initial exampleResolved :: map Set_ (changesOf exampleResolved).
Proof.
  destruct (Resolve_concrete noFloats 1 exampleNetwork (Some 0) exampleResolved (Some 1)
              exampleNetwork_resolved) as (_ & Hv & _ & Hs).
  split; [exact Hv|exact Hs].
Defined.

Lemma Enabled_states_witness :
  Enabled exampleNetwork = true ↔
  ∃ st, st ∈ states exampleNetwork ∧ enabledSettings st = true.
Proof. exact (Enabled_states noFloats exampleNetwork exampleNetwork_valid). Defined.
