(* ===== verification/Netem.v ===== *)
(** * Installing network conditions with [tc]

    [internal/netem/netem.go] and [internal/netem/update.go]: the choice of
    interfaces, the [tc] commands of a configuration, their installation with
    rollback and the update of installed conditions.  Running a command is the
    parameter [run]; formatting a float is the parameter [FormatFloat]. *)
From Stdlib Require Import ZArith Lia String.
From stdpp Require Import strings list pretty sorting.
From S2P Require Import Prelude.
From S2P Require Import GoStd.
From S2P Require Import Distribution.
From S2P Require Import Network.
Open Scope Z_scope.
Open Scope list_scope.

Definition DefaultP2PPort : Z := 20000.

(** ** Interfaces *)

(** [net.IP]: its bytes; nil is empty. *)
Abbreviation IP := (list Z).

Inductive Addr := IPNet (ip : IP) | IPAddr (ip : IP) | OtherAddr.

Record networkInterface := mkInterface {
  iname : string; flagUp : bool; flagLoopback : bool; addresses : list Addr }.

(** [ip.To4()], [ip.IsLoopback()] and [ip.IsUnspecified()] *)
Definition To4 (ip : IP) : option IP :=
  if (length ip =? 4)%nat then Some ip
  else if (length ip =? 16)%nat &&
          bool_decide (take 12 ip = replicate 10 0 ++ [255; 255])
  then Some (drop 12 ip) else None.

Definition IsLoopback (ip : IP) : bool :=
  match To4 ip with
  | Some (b :: _) => b =? 127
  | _ => bool_decide (ip = replicate 15 0 ++ [1])
  end.

Definition IsUnspecified (ip : IP) : bool :=
  bool_decide (To4 ip = Some [0; 0; 0; 0]) || bool_decide (ip = replicate 16 0).

Definition addressIP (a : Addr) : IP :=
  match a with IPNet ip => ip | IPAddr ip => ip | OtherAddr => [] end.

Definition usableIP (ip : IP) : bool :=
  bool_decide (is_Some (To4 ip)) && negb (IsLoopback ip) && negb (IsUnspecified ip).

Definition string_le (a b : string) : Prop := Is_true (String.leb a b).
#[export] Instance string_le_dec : RelDecision string_le.
Proof. intros a b. unfold string_le. apply _. Defined.

Definition sortStrings : list string → list string := merge_sort string_le.

Definition activeIPv4Interfaces (interfaces : list networkInterface) : list string :=
  sortStrings (omap (λ device,
    if negb (flagUp device) || flagLoopback device then None
    else if existsb (λ a, usableIP (addressIP a)) (addresses device)
    then Some (iname device) else None) interfaces).

(** ** Commands *)
Section netem.
Context (ParseFloat : string → option float) (FormatFloat : float → string).

(** [strconv.Itoa] of a non-negative number. *)
Definition Itoa (z : Z) : string := pretty z.

Definition parsed (s : string) : Z := default 0 (Duration.parse s).

Definition percentOption (name : string) (value : option float) : list string :=
  match value with
  | Some v => if F64.ltb F64.zero v then [name; FormatFloat v +:+ "%"] else []
  | None => []
  end.

Definition options (c : NetworkConfig) : list string :=
  let delay := parsed (Delay c) in
  let jitter := parsed (Jitter c) in
  (if 0 <? delay then
     ["delay"; Itoa delay +:+ "ns"] ++
     (if 0 <? jitter then
        [Itoa jitter +:+ "ns"] ++
        (let distribution := if bool_decide (JitterDistribution c = "") then "normal"
                             else JitterDistribution c in
         if bool_decide (distribution = "uniform") then [] else ["distribution"; distribution])
      else [])
   else []) ++
  percentOption "loss" (LossPercent c) ++
  percentOption "duplicate" (DuplicatePercent c) ++
  percentOption "corrupt" (CorruptPercent c) ++
  percentOption "reorder" (ReorderPercent c) ++
  (if positive (ReorderPercent c) then
     match ReorderCorrelationPercent c with Some v => [FormatFloat v +:+ "%"] | None => [] end
   else []) ++
  match RateMbps c with
  | Some r => if F64.ltb F64.zero r then ["rate"; FormatFloat r +:+ "mbit"] else []
  | None => []
  end ++
  match QueueLimit c with Some q => ["limit"; Itoa q] | None => [] end%string.

(** Rounded up to a microsecond. *)
Definition latencyMicros (t : TBFConfig) : Z :=
  Z.quot (i64 (parsed (Latency t) + Duration.Microsecond - 1)) Duration.Microsecond.

Definition tbfCommand (device parent handle : string) (t : TBFConfig) : list string :=
  ["qdisc"; "replace"; "dev"; device; "parent"; parent; "handle"; handle; "tbf";
   "rate"; FormatFloat (TBFRateMbps t) +:+ "mbit";
   "burst"; FormatFloat (BurstKbit t) +:+ "kbit";
   "latency"; Itoa (latencyMicros t) +:+ "us"]%string.

Definition filterCommand (device : string) (p2pPort : Z) (index : Z) (direction : string) :
    list string :=
  ["filter"; "add"; "dev"; device; "protocol"; "ip"; "parent"; "1:"; "prio"; Itoa (index + 1);
   "u32"; "match"; "ip"; "protocol"; "6"; "0xff";
   "match"; "ip"; direction; Itoa p2pPort; "0xffff"; "flowid"; "1:3"]%string.

Definition commands (device : string) (c : NetworkConfig) (p2pPort : Z) : list (list string) :=
  if bool_decide (Scope c = "all"%string) then
    (["qdisc"; "replace"; "dev"; device; "root"; "handle"; "1:"; "netem"]%string ++ options c)
    :: match TBF c with Some t => [tbfCommand device "1:1" "2:" t] | None => [] end
  else
    (["qdisc"; "replace"; "dev"; device; "root"; "handle"; "1:"; "prio"; "bands"; "3";
      "priomap"]%string ++ replicate 16 "0"%string)
    :: (["qdisc"; "replace"; "dev"; device; "parent"; "1:3"; "handle"; "30:"; "netem"]%string ++
        options c)
    :: match TBF c with Some t => [tbfCommand device "30:1" "31:" t] | None => [] end ++
    [filterCommand device p2pPort 0 "sport"; filterCommand device p2pPort 1 "dport"].

Definition deleteCommand (device : string) : list string :=
  ["qdisc"; "del"; "dev"; device; "root"; "handle"; "1:"]%string.

(** ** Installation *)
Context {W : Type} (run : list string → GoM W unit).

(** The inner loop: the remaining commands of one device, from [index]; the
    devices whose root has been replaced are [installed]. *)
Fixpoint runCommands (device : string) (index : nat) (l : list (list string))
    (installed : list string) : W → (bool * list string) * W :=
  match l with
  | [] => λ w, ((true, installed), w)
  | args :: l => λ w,
      match run args w with
      | (Ok _, w) =>
          runCommands device (S index) l
            (if (index =? 0)%nat then installed ++ [device] else installed) w
      | (_, w) => ((false, installed), w)
      end
  end.

(** [rollback]: every failure is collected, none stops the loop. *)
Fixpoint rollback (devices : list string) : W → bool * W :=
  match devices with
  | [] => λ w, (true, w)
  | device :: devices => λ w,
      match run (deleteCommand device) w with
      | (Ok _, w) => rollback devices w
      | (_, w) => let '(_, w) := rollback devices w in (false, w)
      end
  end.

Fixpoint installLoop (c : NetworkConfig) (p2pPort : Z) (devices installed : list string) :
    GoM W unit :=
  match devices with
  | [] => mret tt
  | device :: devices => λ w,
      match runCommands device 0 (commands device c p2pPort) installed w with
      | ((true, installed), w) => installLoop c p2pPort devices installed w
      | ((false, installed), w) =>
          let '(clean, w) := rollback (reverse installed) w in
          (if clean then Err "network impairment: tc"
           else Err "network impairment: tc; remove partial network impairment", w)
      end
  end.

(** The checks [apply] makes before it looks at the interfaces. *)
Definition applyChecks (c : NetworkConfig) : res unit :=
  wrap "network impairment" (Network.Validate ParseFloat c);;
  fail_if (match Schedule c with Some _ => true | None => false end)
    "network impairment: schedule must be resolved to its current state before applying tc";;
  fail_if (match DelayDistribution c with Some _ => true | None => false end)
    "network impairment: delayDistribution must be resolved to a per-peer delay before applying tc".

Definition apply (c : NetworkConfig) (p2pPort : Z) (interfaces : list networkInterface) :
    GoM W unit :=
  lift_res (applyChecks c);;
  if negb (Enabled c) then mret tt
  else
    let p2pPort := if p2pPort =? 0 then DefaultP2PPort else p2pPort in
    lift_res (fail_if ((p2pPort <? 1) || (65535 <? p2pPort))
                "network impairment: P2P port must be between 1 and 65535");;
    let devices := activeIPv4Interfaces interfaces in
    lift_res (fail_if (length devices =? 0)%nat
                "network impairment: no active non-loopback IPv4 interface in the peer container");;
    installLoop c p2pPort devices [].

(** ** Updates *)
Definition validateOne (c : NetworkConfig) : res unit :=
  Network.Validate ParseFloat c;;
  fail_if (match Schedule c with Some _ => true | None => false end ||
           match DelayDistribution c with Some _ => true | None => false end)
    "network update requires concrete settings without a schedule".

Definition validateUpdate (previous next : NetworkConfig) : res unit :=
  validateOne previous;; validateOne next.

Definition opt_eqb {A} (eqb : A → A → bool) (x y : option A) : bool :=
  match x, y with Some a, Some b => eqb a b | None, None => true | _, _ => false end.

Definition tbf_eqb (x y : TBFConfig) : bool :=
  F64.eqb (TBFRateMbps x) (TBFRateMbps y) && F64.eqb (BurstKbit x) (BurstKbit y) &&
  bool_decide (Latency x = Latency y).

(** [reflect.DeepEqual] on configurations without schedule and distribution,
    which [validateUpdate] has rejected. *)
Definition deepEqual (x y : NetworkConfig) : bool :=
  bool_decide (Scope x = Scope y) && bool_decide (Delay x = Delay y) &&
  bool_decide (Jitter x = Jitter y) &&
  bool_decide (JitterDistribution x = JitterDistribution y) &&
  opt_eqb F64.eqb (LossPercent x) (LossPercent y) &&
  opt_eqb F64.eqb (DuplicatePercent x) (DuplicatePercent y) &&
  opt_eqb F64.eqb (CorruptPercent x) (CorruptPercent y) &&
  opt_eqb F64.eqb (ReorderPercent x) (ReorderPercent y) &&
  opt_eqb F64.eqb (ReorderCorrelationPercent x) (ReorderCorrelationPercent y) &&
  opt_eqb F64.eqb (RateMbps x) (RateMbps y) && opt_eqb tbf_eqb (TBF x) (TBF y) &&
  opt_eqb Z.eqb (QueueLimit x) (QueueLimit y).

Definition changeCommand (next : NetworkConfig) (device : string) : list string :=
  (if bool_decide (Scope next = "all"%string)
   then ["qdisc"; "change"; "dev"; device; "root"; "handle"; "1:"; "netem"]%string
   else ["qdisc"; "change"; "dev"; device; "parent"; "1:3"; "handle"; "30:"; "netem"]%string) ++
  options next.

(** [canceled]: [ctx.Err() != nil] on entry. *)
Definition update (canceled : bool) (previous next : NetworkConfig) (port : Z)
    (interfaces : list networkInterface) : GoM W unit :=
  lift_res (validateUpdate previous next);;
  lift_res (fail_if canceled "context canceled");;
  if deepEqual previous next || (negb (Enabled previous) && negb (Enabled next)) then mret tt
  else
    let devices := activeIPv4Interfaces interfaces in
    lift_res (fail_if (length devices =? 0)%nat
                "network update: no active non-loopback IPv4 interface");;
    let comparable := with_delay (Delay next) (DelayDistribution previous) previous in
    if Enabled previous && Enabled next && deepEqual comparable next then
      miter (λ device, run (changeCommand next device)) devices
    else
      (if Enabled previous then miter (λ device, run (deleteCommand device)) devices
       else mret tt);;
      apply next port interfaces.
End netem.
