(* ===== verification/NetemProps.v ===== *)
(** * Correctness of the netem installation

    The commands issued by [Netem.apply] and [Netem.update], for every behaviour
    of [tc]: the runner below logs its commands and fails according to an
    arbitrary predicate. *)
From Stdlib Require Import ZArith Lia.
From stdpp Require Import strings list.
From S2P Require Import Prelude.
From S2P Require Import GoStd.
From S2P Require Import Distribution.
From S2P Require Import Network.
From S2P Require Import NetworkProps.
From S2P Require Import Netem.
Open Scope Z_scope.
Open Scope list_scope.

Abbreviation command := (list string).

Definition logged (fails : list command → command → bool) :
    command → GoM (list command) unit :=
  λ args log, (if fails log args then Err "exit status 2" else Ok tt, log ++ [args]).

Section log.
Context (ParseFloat : string → option float) (FormatFloat : float → string).
Context (fails : list command → command → bool).
Abbreviation run := (logged fails).

Lemma runCommands_log device index l installed log :
  (runCommands run device index l installed log =
     ((true, if (index =? 0)%nat && negb (bool_decide (l = [])) then installed ++ [device]
             else installed), log ++ l)) ∨
  (∃ k, (k < length l)%nat ∧
     runCommands run device index l installed log =
     ((false, if (index =? 0)%nat && (0 <? k)%nat then installed ++ [device] else installed),
      log ++ take (S k) l)).
Proof.
  revert index installed log. induction l as [|args l IH]; intros index installed log.
  - left. cbn. rewrite andb_false_r, app_nil_r. done.
  - cbn [runCommands]. unfold logged at 1 3.
    destruct (fails log args).
    + right. exists 0%nat. split; [cbn; lia|]. cbn. by rewrite andb_false_r.
    + destruct (IH (S index) (if (index =? 0)%nat then installed ++ [device] else installed)
                  (log ++ [args])) as [IHt|(k & Hk & IHf)].
      * left. rewrite IHt. cbn [Nat.eqb andb]. rewrite <- app_assoc.
        rewrite bool_decide_eq_false_2 by done. cbn [negb]. by rewrite andb_true_r.
      * right. exists (S k). split; [cbn; lia|]. rewrite IHf. cbn [Nat.eqb andb Nat.ltb Nat.leb].
        rewrite <- app_assoc. rewrite andb_true_r. done.
Qed.

Lemma rollback_log devices log :
  snd (rollback run devices log) = log ++ map deleteCommand devices.
Proof.
  revert log. induction devices as [|d devices IH]; intros log; cbn [rollback map].
  - by rewrite app_nil_r.
  - unfold logged at 1. destruct (fails log (deleteCommand d)).
    + pose proof (IH (log ++ [deleteCommand d])) as IHd.
      destruct (rollback run devices _) as [b w]. cbn in *. rewrite IHd. by rewrite <- app_assoc.
    + rewrite IH. by rewrite <- app_assoc.
Qed.

Lemma commands_nonempty d c port : commands FormatFloat d c port ≠ [].
Proof. unfold commands. by case_bool_decide. Qed.

(** Installing on [devices] when [installed] are done. *)
Lemma installLoop_log c port devices installed log :
  let r := installLoop FormatFloat run c port devices installed log in
  (fst r = Ok tt ∧ snd r = log ++ flat_map (λ d, commands FormatFloat d c port) devices) ∨
  (∃ pre d post k e, devices = pre ++ d :: post ∧ fst r = Err e ∧
     (k < length (commands FormatFloat d c port))%nat ∧
     snd r = log ++ flat_map (λ d, commands FormatFloat d c port) pre ++
       take (S k) (commands FormatFloat d c port) ++
       map deleteCommand (reverse (installed ++ pre ++ if (0 <? k)%nat then [d] else []))).
Proof.
  revert installed log. induction devices as [|d devices IH]; intros installed log.
  - left. cbn. by rewrite app_nil_r.
  - cbn [installLoop].
    destruct (runCommands_log d 0 (commands FormatFloat d c port) installed log)
      as [Ht|(k & Hk & Hf)].
    + rewrite Ht. cbn [Nat.eqb andb]. rewrite bool_decide_eq_false_2 by apply commands_nonempty.
      cbn [negb]. destruct (IH (installed ++ [d]) (log ++ commands FormatFloat d c port))
        as [[Hr Hs]|(pre & d' & post & k & e & Hd & Hr & Hk & Hs)].
      * left. split; [done|]. rewrite Hs. cbn. by rewrite app_assoc.
      * right. exists (d :: pre), d', post, k, e. split_and!; [by rewrite Hd|done|done|].
        rewrite Hs. cbn [flat_map]. rewrite <- !app_assoc. done.
    + right. rewrite Hf. cbn [Nat.eqb andb].
      set (inst := if (0 <? k)%nat then installed ++ [d] else installed).
      pose proof (rollback_log (reverse inst) (log ++ take (S k) (commands FormatFloat d c port)))
        as Hrb.
      destruct (rollback run (reverse inst) _) as [clean w]. cbn [snd] in Hrb.
      eexists [], d, devices, k, _. split_and!; [done| |done|].
      * instantiate (1 := if clean then _ else _). by destruct clean.
      * cbn [snd flat_map app]. rewrite Hrb, <- app_assoc. do 3 f_equal. unfold inst.
        destruct (0 <? k)%nat; [done|]. by rewrite app_nil_r.
Qed.

(** C32: all or rolled back.  [apply] either rejects the configuration without
    running a command, or installs every command of every active interface in
    order, or stops at the first failing command and then removes, last
    installed first, exactly the root qdiscs it had replaced. *)
Theorem apply_all_or_rolled_back c port interfaces :
  let r := apply ParseFloat FormatFloat run c port interfaces [] in
  let p2p := if port =? 0 then DefaultP2PPort else port in
  let devices := activeIPv4Interfaces interfaces in
  (snd r = [] ∧ (fst r = Ok tt → Enabled c = false)) ∨
  (fst r = Ok tt ∧ snd r = flat_map (λ d, commands FormatFloat d c p2p) devices) ∨
  (∃ pre d post k e, devices = pre ++ d :: post ∧ fst r = Err e ∧
     (k < length (commands FormatFloat d c p2p))%nat ∧
     snd r = flat_map (λ d, commands FormatFloat d c p2p) pre ++
       take (S k) (commands FormatFloat d c p2p) ++
       map deleteCommand (reverse (pre ++ if (0 <? k)%nat then [d] else []))).
Proof.
  intros r p2p devices. subst r.
  unfold apply, mbind, gom_bind. unfold lift_res.
  destruct (applyChecks ParseFloat c) as [[]| |]; [|by left..].
  destruct (Enabled c) eqn:He; cbn [negb]; [|by left].
  fold p2p. destruct (fail_if ((p2p <? 1) || _) _) as [[]| |]; [|by left..].
  fold devices. destruct (fail_if (length devices =? 0)%nat _) as [[]| |]; [|by left..].
  right. apply (installLoop_log c p2p devices [] []).
Qed.
End log.

(** ** What the commands carry *)
Section options.
Context (ParseFloat : string → option float) (FormatFloat : float → string).

Lemma nonneg_positive v :
  F64.leb F64.zero v = true → F64.ltb F64.zero v = negb (F64.eqb v F64.zero).
Proof.
  unfold F64.leb, F64.ltb, F64.eqb.
  destruct v as [s|s| |s m e]; [by destruct s|by destruct s|discriminate|].
  unfold F64.compare. rewrite (Z.min_comm (F64.exponent _) (F64.exponent F64.zero)),
    (Z.compare_antisym (F64.scaled _ F64.zero)).
  by destruct (F64.scaled _ F64.zero ?= _).
Qed.

Lemma positive_iff p :
  percent p → positive p = true ↔ ptr (λ v, negb (F64.eqb v F64.zero)) p = true.
Proof.
  intros Hp. destruct p as [v|]; [|done]. destruct (Hp v eq_refl) as [H0 _].
  cbn. by rewrite nonneg_positive.
Qed.

Lemma parse_empty : Duration.parse "" = None.
Proof. reflexivity. Qed.

(** Nothing is silently dropped, and a disabled configuration changes
    nothing: for validated concrete settings, [Enabled] holds exactly when the
    netem options are not empty or a token bucket is installed. *)
Theorem options_enabled c :
  Network.Validate ParseFloat c = Ok tt → Schedule c = None → DelayDistribution c = None →
  Enabled c = true ↔ options FormatFloat c ≠ [] ∨ TBF c ≠ None.
Proof.
  intros Hv Hs Hd. rewrite (Enabled_states ParseFloat c Hv).
  pose proof (Validate_every_state ParseFloat c Hv) as (Hw & _).
  unfold states, changesOf in *. rewrite Hs in *. cbn [statesFrom] in *.
  rewrite list.Forall_singleton in Hw.
  assert (Hi : Initial c = c) by (by apply network_ext). rewrite Hi in *.
  assert ((∃ st, st ∈ [c] ∧ enabledSettings st = true) ↔ enabledSettings c = true) as ->.
  { setoid_rewrite list_elem_of_singleton. naive_solver. }
  unfold enabledSettings. rewrite Hd. rewrite !orb_true_iff.
  destruct (w_percents _ Hw) as (Hl & Hdu & Hco & Hre & _).
  assert (Hrt : ptr (λ v, negb (F64.eqb v F64.zero)) (RateMbps c) = positive (RateMbps c)).
  { pose proof (w_rate _ Hw) as Hr. destruct (RateMbps c) as [v|]; [|done].
    destruct (Hr v eq_refl) as [_ H0]. cbn. by rewrite nonneg_positive. }
  cbn [existsb]. rewrite !orb_true_iff.
  rewrite <- (positive_iff _ Hl), <- (positive_iff _ Hdu), <- (positive_iff _ Hco),
    <- (positive_iff _ Hre), Hrt.
  assert (Hdelay : negb (default 0 (Duration.parse (Delay c)) =? 0) = true ↔
    0 < parsed (Delay c)).
  { unfold parsed. destruct (decide (Delay c = ""%string)) as [->|Hne]; [done|].
    destruct (w_delay _ Hw Hne) as (_ & d & -> & Hd0). cbn.
    rewrite negb_true_iff, Z.eqb_neq. unfold id. lia. }
  assert (Hjit : negb (default 0 (Duration.parse (Jitter c)) =? 0) = true →
    0 < parsed (Delay c)).
  { destruct (decide (Jitter c = ""%string)) as [->|Hne]; [done|].
    destruct (w_jitter _ Hw Hne) as (j & -> & Hj & Hdj). cbn.
    rewrite negb_true_iff, Z.eqb_neq. unfold id. intros Hj0.
    unfold delayed in Hdj. rewrite Hd in Hdj. destruct Hdj as (d & Hdp & Hd0); [lia|]. unfold parsed. by rewrite Hdp. }
  rewrite Hdelay. unfold options.
  assert (Hp : ∀ n p, percentOption FormatFloat n p ≠ [] ↔ positive p = true).
  { intros n [v|]; cbn; [|done]. by destruct (F64.ltb F64.zero v). }
  set (corr := if positive (ReorderPercent c) then _ else []).
  assert (Hcorr : corr ≠ [] → positive (ReorderPercent c) = true).
  { unfold corr. by destruct (positive (ReorderPercent c)). }
  assert (Hrate : match RateMbps c with
    | Some r => if F64.ltb F64.zero r then ["rate"; FormatFloat r +:+ "mbit"]%string else []
    | None => [] end ≠ [] ↔ positive (RateMbps c) = true).
  { destruct (RateMbps c) as [v|]; cbn; [|done]. by destruct (F64.ltb F64.zero v). }
  assert (Happ : ∀ (a b : list string), a ++ b ≠ [] ↔ a ≠ [] ∨ b ≠ []).
  { intros [|x a] [|y b]; naive_solver. }
  rewrite !Happ, !Hp, Hrate.
  assert (Hq : negb (bool_decide (QueueLimit c = None)) = true ↔ QueueLimit c ≠ None).
  { by rewrite negb_true_iff, bool_decide_eq_false. }
  rewrite Hq. clear Hq.
  destruct (Z.ltb_spec 0 (parsed (Delay c))) as [Hpos|Hneg].
  { split; intros _; [by left; left|by left; left; left; left; left]. }
  assert (Hql : match QueueLimit c with Some q => ["limit"; Itoa q]%string | None => [] end ≠ [] ↔
    QueueLimit c ≠ None) by by destruct (QueueLimit c).
  assert (Htb : match TBF c with Some _ => true | None => false end = true ↔ TBF c ≠ None)
    by by destruct (TBF c).
  assert (Hnil : ([] : list string) ≠ [] ↔ False) by (split; [intros Hn; by apply Hn|done]).
  assert (Hff : false = true ↔ False) by done.
  assert (Hno : ¬ 0 < parsed (Delay c)) by lia.
  rewrite Hql, Htb, Hnil, Hff. clear - Hno Hjit Hcorr. tauto.
Qed.

(** The token bucket's latency is rounded up to the next microsecond and
    fits [tc]'s unsigned 32-bit parser. *)
Theorem latencyMicros_bounds c t l :
  Network.Validate ParseFloat c = Ok tt → TBF c = Some t →
  Duration.parse (Latency t) = Some l →
  1 ≤ latencyMicros t ≤ MaxUint32 ∧
  (latencyMicros t - 1) * Duration.Microsecond < l ≤ latencyMicros t * Duration.Microsecond.
Proof.
  intros Hv Ht Hl. destruct (Validate_ok ParseFloat c Hv) as (Hc & _).
  destruct (checkTBF_ok c t) as (_ & _ & _ & l' & Hl' & Hb); [|done|].
  { revert Hc. unfold checkSettings. intros Hc. rewrite !fail_if_seq_ok in Hc.
    destruct Hc as (_ & _ & Hc). do 2 (apply bind_ok in Hc as (? & _ & Hc)).
    rewrite fail_if_seq_ok in Hc. destruct Hc as [_ Hc]. apply bind_ok in Hc as (? & _ & Hc).
    rewrite fail_if_seq_ok in Hc. destruct Hc as [_ Hc]. apply bind_ok in Hc as (? & _ & Hc).
    rewrite !fail_if_seq_ok in Hc. destruct Hc as (_ & _ & _ & Hc).
    by apply bind_ok in Hc as ([] & Hc & _). }
  assert (l' = l) as -> by congruence. unfold latencyMicros, parsed. rewrite Hl. cbn [from_option].
  unfold id, Duration.Microsecond, MaxUint32 in *. rewrite i64_id by lia.
  rewrite Z.quot_div_nonneg by lia.
  pose proof (Z.div_mod (l + 1000 - 1) 1000 ltac:(lia)).
  pose proof (Z.mod_pos_bound (l + 1000 - 1) 1000 ltac:(lia)). lia.
Qed.
End options.

(** ** Witnesses *)
Definition plainNetwork : NetworkConfig :=
  mkNetwork None "" "10ms" None "2ms" "" (Some F64.one) None None None None None
    (Some (mkTBF (F64.of_Z 8) (F64.of_Z 32) "1500ns")) (Some 1000).

Lemma plainNetwork_valid : Network.Validate noFloats plainNetwork = Ok tt.
Proof. vm_compute. reflexivity. Qed.

Lemma options_enabled_witness :
  Enabled plainNetwork = true ↔
  options (λ _, "1"%string) plainNetwork ≠ [] ∨ TBF plainNetwork ≠ None.
Proof.
  exact (options_enabled noFloats (λ _, "1"%string) plainNetwork plainNetwork_valid
           eq_refl eq_refl).
Defined.

Lemma latencyMicros_bounds_witness :
  latencyMicros (mkTBF (F64.of_Z 8) (F64.of_Z 32) "1500ns") = 2 ∧
  1 ≤ latencyMicros (mkTBF (F64.of_Z 8) (F64.of_Z 32) "1500ns") ≤ MaxUint32.
Proof.
  split; [vm_compute; reflexivity|].
  exact (proj1 (latencyMicros_bounds noFloats plainNetwork _ 1500 plainNetwork_valid
                  eq_refl eq_refl)).
Defined.
