(* ===== verification/PeerNetwork.v ===== *)
(** * The Peer's network schedule

    [internal/peer/network_schedule.go]: the plan a Peer derives from its
    resolved configuration and the loop that applies it.  Instants and durations
    are nanoseconds; the [k]-th call of [time.Now] reads [clock k], the
    Controller's clock estimate and the installation of conditions are
    parameters. *)
From Stdlib Require Import ZArith Lia.
From stdpp Require Import strings list.
From S2P Require Import Prelude.
From S2P Require Import GoStd.
From S2P Require Import Distribution.
From S2P Require Import Network.
From S2P Require Import NetworkProps.
Open Scope Z_scope.

Record peerNetworkStep := mkStep { after : Z; config : NetworkConfig }.

Record peerNetworkSchedule := mkPlan {
  reference : string; base : Z; steps : list peerNetworkStep; initial : NetworkConfig;
  next : nat }.


Section plan.
Context (ParseFloat : string → option float).

(** The loop over the changes. *)
Fixpoint buildSteps (current : NetworkConfig) (l : list NetworkChange) :
    res (list peerNetworkStep) :=
  match l with
  | [] => Ok []
  | change :: l =>
      let current := Merge current (Set_ change) in
      match DelayDistribution current with
      | Some _ => Err "network schedule delayDistribution must be resolved by the Agent"
      | None =>
          rest ← buildSteps current l;
          Ok (mkStep (default 0 (Duration.parse (After change))) current :: rest)
      end
  end.

(** The late-joining loop: the steps due when the clock is read, from reading
    [k] on; [n] is [p.next]. *)
Fixpoint skipDue (clock : nat → Z) (k : nat) (base : Z) (initial : NetworkConfig) (n : nat)
    (l : list peerNetworkStep) : NetworkConfig * nat :=
  match l with
  | [] => (initial, n)
  | step :: l =>
      if clock k <? base + after step then (initial, n)
      else skipDue clock k base (config step) (S n) l
  end.

(** [estimate]: the offset of the Controller's clock. *)
Definition newPeerNetworkSchedule (network : NetworkConfig) (experimentStartedAt : option Z)
    (joinedAt : Z) (estimate : option Z) (clock : nat → Z) : res (option peerNetworkSchedule) :=
  Validate ParseFloat network;;
  if negb (Scheduled network) then Ok None
  else
    let ref := Clock (Schedule network) in
    base ←
      (if bool_decide (ref = "experiment-start"%string) then
         match experimentStartedAt with
         | None => Err "experiment-start network schedule requires experimentStartedAt"
         | Some started =>
             match estimate with
             | None => Err "network schedule needs a synchronized Controller clock"
             | Some offset => Ok (clock 0%nat + SubTime started (clock 0%nat + offset))
             end
         end
       else Ok joinedAt);
    let init := Initial network in
    match DelayDistribution init with
    | Some _ => Err "network schedule delayDistribution must be resolved by the Agent"
    | None =>
        steps ← buildSteps init (changesOf network);
        let '(i, n) := skipDue clock 1 base init 0 steps in
        Ok (Some (mkPlan ref base steps i n))
    end.
End plan.

(** ** Running the plan *)

(** One successful [apply(current, step.config)]: the revision, both
    configurations and the reading of the clock that last found it due. *)
Record applied := mkApplied {
  revision : nat; from : NetworkConfig; to : NetworkConfig; reading : nat }.

Section run.
Context (clock : nat → Z) (base : Z).

(** Catching up: [i] and [step] move on while the next step is due. *)
Fixpoint catchUp (k i : nat) (step : peerNetworkStep) (l : list peerNetworkStep) :
    nat * nat * peerNetworkStep * list peerNetworkStep :=
  match l with
  | next :: l' =>
      if clock k <? base + after next then (S k, i, step, l)
      else catchUp (S k) (S i) next l'
  | [] => (k, i, step, [])
  end.

(** [runNetworkSchedule]: [canceled k] says that the context is done at reading
    [k], [ok] that the installation succeeds.  The result is the log of applied
    changes and whether the loop ran to its end. *)
Fixpoint runSteps (canceled : nat → bool) (ok : NetworkConfig → NetworkConfig → bool)
    (fuel k i : nat) (current : NetworkConfig) (l : list peerNetworkStep) :
    list applied * res unit :=
  match l with
  | [] => ([], Ok tt)
  | step :: l =>
      match fuel with
      | O => ([], Panic)
      | S fuel =>
          if canceled k then ([], Err "context canceled")
          else
            let '(k, i, step, l) := catchUp (S k) i step l in
            if ok current (config step) then
              let '(log, r) := runSteps canceled ok fuel k (S i) (config step) l in
              (mkApplied (S i) current (config step) k :: log, r)
            else ([], Err "network schedule change")
      end
  end.

Definition runNetworkSchedule (canceled : nat → bool)
    (ok : NetworkConfig → NetworkConfig → bool) (p : peerNetworkSchedule) :
    list applied * res unit :=
  let l := drop (next p) (steps p) in
  runSteps canceled ok (length l) 2 (next p) (initial p) l.
End run.

(** ** Properties *)

(** The applied changes form a chain from [c] with growing revisions that are
    indices of steps. *)
Fixpoint chain (all : list peerNetworkStep) (c : NetworkConfig) (lo : nat) (log : list applied) :
    Prop :=
  match log with
  | [] => True
  | a :: log =>
      from a = c ∧ (lo < revision a)%nat ∧
      (∃ st, all !! (revision a - 1)%nat = Some st ∧ config st = to a) ∧
      chain all (to a) (revision a) log
  end.

Definition lastConfig (c : NetworkConfig) (log : list applied) : NetworkConfig :=
  match list.last log with Some a => to a | None => c end.

Lemma catchUp_spec clock base all k i step l k' i' step' l' :
  all !! i = Some step → drop (S i) all = l →
  catchUp clock base k i step l = (k', i', step', l') →
  (i ≤ i')%nat ∧ all !! i' = Some step' ∧ drop (S i') all = l' ∧
  (length l' ≤ length l)%nat.
Proof.
  revert k i step. induction l as [|nx l IH]; intros k i step Hi Hl Hc; cbn [catchUp] in Hc.
  { by simplify_eq. }
  destruct (clock k <? base + after nx); [by simplify_eq|].
  assert (all !! S i = Some nx) as Hnx.
  { rewrite <- (Nat.add_0_r (S i)), <- lookup_drop, Hl. done. }
  assert (drop (S (S i)) all = l) as Hl'.
  { replace (S (S i)) with (S i + 1)%nat by lia. rewrite <- drop_drop, Hl. done. }
  destruct (IH (S k) (S i) nx Hnx Hl' Hc) as (? & ? & ? & ?).
  split_and!; [lia|done|done|cbn; lia].
Qed.

Lemma runSteps_spec clock base canceled ok all fuel k i current l log r :
  drop i all = l → (length l ≤ fuel)%nat →
  runSteps clock base canceled ok fuel k i current l = (log, r) →
  r ≠ Panic ∧ chain all current i log ∧
  (r = Ok tt → l ≠ [] → ∃ st, list.last all = Some st ∧ lastConfig current log = config st).
Proof.
  revert k i current l log. induction fuel as [|fuel IH]; intros k i current l log Hl Hf Hr.
  { destruct l; [|cbn in Hf; lia]. cbn in Hr. by simplify_eq. }
  destruct l as [|step l]; cbn [runSteps] in Hr; [by simplify_eq|].
  destruct (canceled k); [by simplify_eq|].
  destruct (catchUp clock base (S k) i step l) as [[[k' i'] step'] l'] eqn:Hc.
  assert (all !! i = Some step) as Hi.
  { rewrite <- (Nat.add_0_r i), <- lookup_drop, Hl. done. }
  assert (drop (S i) all = l) as Hl1.
  { replace (S i) with (i + 1)%nat by lia. rewrite <- drop_drop, Hl. done. }
  destruct (catchUp_spec _ _ _ _ _ _ _ _ _ _ _ Hi Hl1 Hc) as (Hle & Hst & Hl' & Hlen).
  destruct (ok current (config step')); [|by simplify_eq].
  destruct (runSteps clock base canceled ok fuel k' (S i') (config step') l')
    as [log' r'] eqn:Hrest. simplify_eq.
  assert (Hfuel : (length (drop (S i') all) ≤ fuel)%nat) by (cbn in Hf; lia).
  destruct (IH _ _ _ _ _ eq_refl Hfuel Hrest) as (Hp & Hch & Hlast).
  split_and!; [done| |].
  - cbn. split_and!; [done|lia| |done]. exists step'. by rewrite Nat.sub_0_r.
  - intros -> _. destruct (decide (drop (S i') all = [])) as [Hnil|Hne].
    + rewrite Hnil in Hrest. assert (log' = []) as -> by (destruct fuel; cbn in Hrest; congruence).
      exists step'. split; [|done]. rewrite last_lookup.
      apply (f_equal length) in Hnil. rewrite length_drop in Hnil. cbn in Hnil.
      pose proof (lookup_lt_Some _ _ _ Hst).
      by replace (pred (length all)) with i' by lia.
    + destruct (Hlast eq_refl Hne) as (st & Hs & Hl2). exists st. split; [done|].
      rewrite <- Hl2. unfold lastConfig. rewrite list.last_cons. by destruct (list.last log').
Qed.

(** The schedule loop terminates and every change it applies starts from the
    configuration applied before it, with strictly increasing revisions that
    are the (one-based) indices of the plan's states; when it ends without
    cancellation or failure and a step was left, the conditions in force are
    those of the last step, whatever the clock did. *)
Theorem runNetworkSchedule_chain clock canceled ok p :
  let '(log, r) := runNetworkSchedule clock (base p) canceled ok p in
  r ≠ Panic ∧ chain (steps p) (initial p) (next p) log ∧
  (r = Ok tt → (next p < length (steps p))%nat →
   ∃ st, list.last (steps p) = Some st ∧ lastConfig (initial p) log = config st).
Proof.
  destruct (runNetworkSchedule clock (base p) canceled ok p) as [log r] eqn:Hr.
  unfold runNetworkSchedule in Hr.
  destruct (runSteps_spec _ _ _ _ (steps p) _ _ _ _ _ _ _ eq_refl (Nat.le_refl _) Hr)
    as (Hp & Hc & Hl).
  split_and!; [done..|]. intros Ho Hlt. apply Hl; [done|].
  intros Hnil. apply (f_equal length) in Hnil. rewrite length_drop in Hnil. cbn in Hnil. lia.
Qed.

Section plans.
Context (ParseFloat : string → option float).

Lemma buildSteps_states current l sts :
  buildSteps current l = Ok sts → map config sts = statesFrom current l.
Proof.
  revert current sts. induction l as [|ch l IH]; intros current sts Hb; cbn [buildSteps] in Hb.
  { by simplify_eq. }
  destruct (DelayDistribution _) eqn:Hd; [done|].
  apply bind_ok in Hb as (rest & Hr & [= <-]). cbn. f_equal. by apply IH.
Qed.

Lemma skipDue_spec clock k base init n l i n' :
  skipDue clock k base init n l = (i, n') →
  ∃ m, n' = (n + m)%nat ∧ (m ≤ length l)%nat ∧
    Forall (λ st, base + after st ≤ clock k) (take m l) ∧
    (∀ st, l !! m = Some st → clock k < base + after st) ∧
    i = match list.last (take m l) with Some st => config st | None => init end.
Proof.
  revert init n. induction l as [|st l IH]; intros init n Hs; cbn [skipDue] in Hs.
  { simplify_eq. exists 0%nat. cbn. split_and!; try done; lia. }
  destruct (Z.ltb_spec (clock k) (base + after st)) as [Hlt|Hge].
  { simplify_eq. exists 0%nat. cbn. split_and!; [lia|lia|done| |done].
    intros st' [= <-]. done. }
  destruct (IH _ _ Hs) as (m & -> & Hm & Hf & Hn & ->).
  exists (S m). cbn [take length]. split_and!; [lia|lia|by constructor|done|].
  rewrite list.last_cons. by destruct (list.last (take m l)).
Qed.

(** A Peer's plan holds the states of the declared schedule in order, and a
    late joiner starts directly in the latest state that is already due: every
    skipped step is due at the reading, the first remaining one is not. *)
Theorem newPeerNetworkSchedule_due network started joined estimate clock p :
  newPeerNetworkSchedule ParseFloat network started joined estimate clock = Ok (Some p) →
  map config (steps p) = statesFrom (Initial network) (changesOf network) ∧
  (next p ≤ length (steps p))%nat ∧
  Forall (λ st, base p + after st ≤ clock 1%nat) (take (next p) (steps p)) ∧
  (∀ st, steps p !! next p = Some st → clock 1%nat < base p + after st) ∧
  initial p = match list.last (take (next p) (steps p)) with
              | Some st => config st
              | None => Initial network
              end.
Proof.
  unfold newPeerNetworkSchedule. intros Hp. apply bind_ok in Hp as ([] & _ & Hp).
  destruct (negb (Scheduled network)); [done|]. apply bind_ok in Hp as (b & _ & Hp).
  destruct (DelayDistribution (Initial network)); [done|].
  apply bind_ok in Hp as (sts & Hst & Hp).
  destruct (skipDue clock 1 b (Initial network) 0 sts) as [i n] eqn:Hs.
  injection Hp as <-. cbn [steps next base initial].
  apply buildSteps_states in Hst. apply skipDue_spec in Hs as (m & Hn & Hm & Hf & Hnx & ->).
  cbn in Hn. subst n. split_and!; done.
Qed.
End plans.

(** A Peer that joins seven seconds late starts in the state after the first change. *)
Definition concreteNetwork : NetworkConfig := exampleResolved.

Definition latePlan : peerNetworkSchedule :=
  match newPeerNetworkSchedule noFloats concreteNetwork None 0 None (λ _, 7 * Duration.Second)
  with Ok (Some p) => p | _ => mkPlan "" 0 [] zeroNetwork 0 end.

Lemma latePlan_eq :
  newPeerNetworkSchedule noFloats concreteNetwork None 0 None (λ _, 7 * Duration.Second)
  = Ok (Some latePlan).
Proof. vm_compute. reflexivity. Qed.

Lemma newPeerNetworkSchedule_due_witness :
  next latePlan = 1%nat ∧
  map config (steps latePlan) = statesFrom (Initial concreteNetwork) (changesOf concreteNetwork).
Proof.
  split; [vm_compute; reflexivity|].
  exact (proj1 (newPeerNetworkSchedule_due noFloats concreteNetwork None 0 None
                  (λ _, 7 * Duration.Second) latePlan latePlan_eq)).
Defined.
