(* ===== verification/Attacks.v ===== *)
(** * Attack policies of a node

    [internal/model/attacks.go]: the declared policies, the overlay of one
    declaration on another, their defaults, the syntax checks every layer gets
    and the checks of the effective configuration.  The enclosing
    [NodeConfig] contributes its topics, router, signature policy and connection
    limit; the record [Node] holds what these checks read of it.

    libp2p's peer IDs are not under [src/]: [peer.Decode] and [ID.String] are
    the class [PeerCodec]. *)
From Stdlib Require Import ZArith Lia.
From stdpp Require Import strings list.
From S2P Require Import Prelude.
From S2P Require Import GoStd.
From S2P Require Import GoStrings.
From S2P Require Import Network.
Open Scope Z_scope.

(** [peer.Decode] ([None] is its error) and [peer.ID.String]. *)
Class PeerCodec := {
  peerDecode : string → option string;
  peerString : string → string }.

(** The text of a peer ID decodes to that ID. *)
Class PeerCodecLaws `{PeerCodec} := {
  peerDecode_String id s : peerDecode s = Some id → peerDecode (peerString id) = Some id }.

(** ** [mergeNonZero] on fields

    Zero and nil fields of the overlay leave the base alone; [nonzero] is the
    rule for strings and [nonnil] the one for pointers, slices and maps. *)
Definition nonzeroInt (s d : Z) : Z := if s =? 0 then d else s.

(** [mergeAttack], for a struct whose zero value is [zero] and whose fields are
    merged by [merge dst src]. *)
Definition mergeAttack {T} (zero : T) (merge : T → T → T) (base overlay : option T) : option T :=
  match base, overlay with
  | None, None => None
  | _, _ =>
      let result := match base with Some b => b | None => zero end in
      Some (match overlay with Some o => merge result o | None => result end)
  end.

(** [if p == nil { p = &value }] *)
Definition orElse {A} (p : option A) (value : A) : option A :=
  match p with Some _ => p | None => Some value end.
(** [if s == "" { s = value }] *)
Definition orText (s value : string) : string :=
  if bool_decide (s = ""%string) then value else s.

Lemma orElse_idemp {A} (p : option A) v w : orElse (orElse p v) w = orElse p v.
Proof. by destruct p. Qed.
Lemma orText_idemp s v : orText (orText s v) v = orText s v.
Proof. unfold orText. by repeat case_bool_decide. Qed.

(** [pubsubContains] *)
Definition pubsubContains (values : list string) (needle : string) : bool :=
  existsb (λ v, bool_decide (v = needle)) values.

Definition pubsubDuration (name value : string) (positive : bool) : res unit :=
  if bool_decide (value = ""%string) then Ok tt
  else match Duration.parse value with
       | Some d => fail_if ((d <? 0) || positive && (d =? 0)) (name +:+ " must be a duration")
       | None => Err (name +:+ " must be a duration")
       end.

Module ProbabilityAttack.
Record t := mk { Enabled : option bool; Probability : option float }.
Definition zero : t := mk None None.
Definition merge (d s : t) : t :=
  mk (nonnil (Enabled s) (Enabled d)) (nonnil (Probability s) (Probability d)).

Definition Active (p : option t) : bool :=
  match p with Some p => ptr id (Enabled p) | None => false end.
Definition WithDefaults (p : t) : t :=
  mk (orElse (Enabled p) false) (orElse (Probability p) F64.one).
Definition Validate (p : t) : res unit :=
  fail_if (ptr (λ v, F64.isNaN v || F64.isInf v || F64.ltb v F64.zero || F64.ltb F64.one v)
             (Probability p)) "probability must be finite and in [0, 1]".
End ProbabilityAttack.

Module AttackSelector.
Record t := mk { Groups : slice string; NodeIDs : slice string; PeerIDs : slice string }.

Definition Empty (s : option t) : bool :=
  match s with
  | None => true
  | Some s =>
      (length (elems (Groups s)) + length (elems (NodeIDs s)) + length (elems (PeerIDs s))
       =? 0)%nat
  end.

Definition matchesList (values : slice string) (x : string) : bool :=
  (length (elems values) =? 0)%nat || Contains (elems values) x.
Definition Matches (s : option t) (group nodeID peerID : string) : bool :=
  match s with
  | None => true
  | Some s =>
      matchesList (Groups s) group && matchesList (NodeIDs s) nodeID &&
      matchesList (PeerIDs s) peerID
  end.

Section selector.
Context `{PeerCodec}.

(** The loop over the values of one list, with the set [seen]. *)
Fixpoint values (isPeers : bool) (seen : gset string) (l : list string) : res unit :=
  match l with
  | [] => Ok tt
  | value :: l =>
      fail_if (bool_decide (value = ""%string) ||
               negb (bool_decide (TrimSpace value = value)) || bool_decide (value ∈ seen))
        "must contain distinct nonblank values without surrounding whitespace";;
      fail_if (isPeers && bool_decide (peerDecode value = None)) "invalid attack peerId";;
      values isPeers ({[value]} ∪ seen) l
  end.

Definition Validate (s : option t) : res unit :=
  match s with
  | None => Ok tt
  | Some s =>
      values false ∅ (elems (Groups s));; values false ∅ (elems (NodeIDs s));;
      values true ∅ (elems (PeerIDs s))
  end.

(** [normalizeAttackSelector]: every decodable peer ID in its canonical text. *)
Definition canonical (raw : string) : string :=
  match peerDecode raw with Some id => peerString id | None => raw end.
Definition normalizeAttackSelector (value : option t) : option t :=
  match value with
  | None => None
  | Some s => Some (mk (Groups s) (NodeIDs s) (map canonical <$> PeerIDs s))
  end.
End selector.
End AttackSelector.

(** ** The policies *)
Module ForwardingConfig.
Record t := mk {
  ProbabilityAttack : ProbabilityAttack.t; Topics : slice string;
  Targets : option AttackSelector.t }.
Definition zero : t := mk ProbabilityAttack.zero None None.
Definition merge (d s : t) : t :=
  mk (ProbabilityAttack.merge (ProbabilityAttack d) (ProbabilityAttack s))
    (nonnil (Topics s) (Topics d)) (nonnil (Targets s) (Targets d)).
End ForwardingConfig.

Module IWantWithholdingConfig.
Record t := mk {
  ProbabilityAttack : ProbabilityAttack.t; Topics : slice string;
  Targets : option AttackSelector.t }.
Definition zero : t := mk ProbabilityAttack.zero None None.
Definition merge (d s : t) : t :=
  mk (ProbabilityAttack.merge (ProbabilityAttack d) (ProbabilityAttack s))
    (nonnil (Topics s) (Topics d)) (nonnil (Targets s) (Targets d)).
End IWantWithholdingConfig.

Module CensorshipConfig.
Record t := mk {
  ProbabilityAttack : ProbabilityAttack.t; Topics : slice string;
  Publishers : option AttackSelector.t }.
Definition zero : t := mk ProbabilityAttack.zero None None.
Definition merge (d s : t) : t :=
  mk (ProbabilityAttack.merge (ProbabilityAttack d) (ProbabilityAttack s))
    (nonnil (Topics s) (Topics d)) (nonnil (Publishers s) (Publishers d)).
End CensorshipConfig.

Module MessageDelayConfig.
Record t := mk {
  ProbabilityAttack : ProbabilityAttack.t; Delay : string;
  MaxPendingMessages : option Z; MaxPendingBytes : option Z }.
Definition zero : t := mk ProbabilityAttack.zero "" None None.
Definition merge (d s : t) : t :=
  mk (ProbabilityAttack.merge (ProbabilityAttack d) (ProbabilityAttack s))
    (nonzero (Delay s) (Delay d)) (nonnil (MaxPendingMessages s) (MaxPendingMessages d))
    (nonnil (MaxPendingBytes s) (MaxPendingBytes d)).
Definition WithDefaults (p : t) : t :=
  mk (ProbabilityAttack.WithDefaults (ProbabilityAttack p)) (Delay p)
    (orElse (MaxPendingMessages p) 1024) (orElse (MaxPendingBytes p) (Z.shiftl 16 20)).
End MessageDelayConfig.

Module ConnectionAttackConfig.
Record t := mk {
  Enabled : option bool; Targets : option AttackSelector.t;
  TargetConnections : option Z; RetryInterval : string }.
Definition zero : t := mk None None None "".
Definition merge (d s : t) : t :=
  mk (nonnil (Enabled s) (Enabled d)) (nonnil (Targets s) (Targets d))
    (nonnil (TargetConnections s) (TargetConnections d))
    (nonzero (RetryInterval s) (RetryInterval d)).
Definition WithDefaults (p : t) : t :=
  mk (orElse (Enabled p) false) (Targets p) (orElse (TargetConnections p) 8)
    (orText (RetryInterval p) "1s").
End ConnectionAttackConfig.

Module ControlAttackConfig.
Record t := mk {
  Enabled : option bool; Topics : slice string; Targets : option AttackSelector.t;
  Interval : string }.
Definition zero : t := mk None None None "".
Definition merge (d s : t) : t :=
  mk (nonnil (Enabled s) (Enabled d)) (nonnil (Topics s) (Topics d))
    (nonnil (Targets s) (Targets d)) (nonzero (Interval s) (Interval d)).
(** The closure [defaults] of [defaultAttacks]. *)
Definition WithDefaults (p : t) : t :=
  mk (orElse (Enabled p) false) (Topics p) (Targets p) (orText (Interval p) "1s").
Definition withTargets (f : option AttackSelector.t → option AttackSelector.t) (p : t) : t :=
  mk (Enabled p) (Topics p) (f (Targets p)) (Interval p).
End ControlAttackConfig.

Module GraftFloodConfig.
Record t := mk {
  Control : ControlAttackConfig.t; GraftsPerPeer : option Z; RespectBackoff : option bool }.
Definition zero : t := mk ControlAttackConfig.zero None None.
Definition merge (d s : t) : t :=
  mk (ControlAttackConfig.merge (Control d) (Control s))
    (nonnil (GraftsPerPeer s) (GraftsPerPeer d)) (nonnil (RespectBackoff s) (RespectBackoff d)).
End GraftFloodConfig.

Module IHaveSpamConfig.
Record t := mk {
  Control : ControlAttackConfig.t; IDsPerRPC : option Z; RPCsPerPeer : option Z }.
Definition zero : t := mk ControlAttackConfig.zero None None.
Definition merge (d s : t) : t :=
  mk (ControlAttackConfig.merge (Control d) (Control s))
    (nonnil (IDsPerRPC s) (IDsPerRPC d)) (nonnil (RPCsPerPeer s) (RPCsPerPeer d)).
End IHaveSpamConfig.

Module InvalidMessageConfig.
Record t := mk {
  Control : ControlAttackConfig.t; Mode : string; MessagesPerPeer : option Z;
  PayloadSize : option Z }.
Definition zero : t := mk ControlAttackConfig.zero "" None None.
Definition merge (d s : t) : t :=
  mk (ControlAttackConfig.merge (Control d) (Control s)) (nonzero (Mode s) (Mode d))
    (nonnil (MessagesPerPeer s) (MessagesPerPeer d)) (nonnil (PayloadSize s) (PayloadSize d)).
End InvalidMessageConfig.

(** ** The attack fields of a [NodeConfig] *)
Module Attacks.
Record t := mk {
  Forwarding : option ForwardingConfig.t;
  InvalidMessage : option InvalidMessageConfig.t;
  Sink : option ProbabilityAttack.t;
  Censorship : option CensorshipConfig.t;
  MessageDelay : option MessageDelayConfig.t;
  ConnectionAttack : option ConnectionAttackConfig.t;
  GraftFlood : option GraftFloodConfig.t;
  IHaveSpam : option IHaveSpamConfig.t;
  IWantWithholding : option IWantWithholdingConfig.t }.
Definition zero : t := mk None None None None None None None None None.

(** What the checks of the effective configuration read of the rest of the
    [NodeConfig]: [GossipSub.Topics], [GossipSub.SignaturePolicy],
    [GossipSub.Enabled], [GossipSub.Router], [GossipSub.TopicMode] and
    [Libp2p.ConnectionLimit]. *)
Record Node := mkNode {
  nodeTopics : list string; nodeSignaturePolicy : string; nodeEnabled : option bool;
  nodeRouter : string; nodeTopicMode : string; nodeConnectionLimit : option Z }.

Definition attackEnabled (value : option bool) : bool := ptr id value.

Definition present {A} (p : option A) : bool := match p with Some _ => true | None => false end.

Definition HasAttackOptions (c : t) : bool :=
  present (Forwarding c) || present (InvalidMessage c) || present (Sink c) ||
  present (Censorship c) || present (MessageDelay c) || present (ConnectionAttack c) ||
  present (GraftFlood c) || present (IHaveSpam c) || present (IWantWithholding c).

(** [c.X != nil && c.X.Active()] for the policies that embed a probability. *)
Definition forwardingActive (c : t) : bool :=
  ptr (λ p, ProbabilityAttack.Active (Some (ForwardingConfig.ProbabilityAttack p))) (Forwarding c).
Definition censorshipActive (c : t) : bool :=
  ptr (λ p, ProbabilityAttack.Active (Some (CensorshipConfig.ProbabilityAttack p))) (Censorship c).
Definition messageDelayActive (c : t) : bool :=
  ptr (λ p, ProbabilityAttack.Active (Some (MessageDelayConfig.ProbabilityAttack p)))
    (MessageDelay c).
Definition iwantActive (c : t) : bool :=
  ptr (λ p, ProbabilityAttack.Active (Some (IWantWithholdingConfig.ProbabilityAttack p)))
    (IWantWithholding c).
Definition controlEnabled (p : ControlAttackConfig.t) : bool :=
  attackEnabled (ControlAttackConfig.Enabled p).

Definition HasActiveAttacks (c : t) : bool :=
  forwardingActive c ||
  ptr (controlEnabled ∘ InvalidMessageConfig.Control) (InvalidMessage c) ||
  ProbabilityAttack.Active (Sink c) || censorshipActive c || messageDelayActive c ||
  ptr (attackEnabled ∘ ConnectionAttackConfig.Enabled) (ConnectionAttack c) ||
  ptr (controlEnabled ∘ GraftFloodConfig.Control) (GraftFlood c) ||
  ptr (controlEnabled ∘ IHaveSpamConfig.Control) (IHaveSpam c) || iwantActive c.

(** [append(values, f(p))] when the policy is declared. *)
Definition collect {P A} (f : P → A) (p : option P) : list A :=
  match p with Some p => [f p] | None => [] end.

Definition AttackSelectors (c : t) : list (option AttackSelector.t) :=
  collect ForwardingConfig.Targets (Forwarding c) ++
  collect (ControlAttackConfig.Targets ∘ InvalidMessageConfig.Control) (InvalidMessage c) ++
  collect CensorshipConfig.Publishers (Censorship c) ++
  collect ConnectionAttackConfig.Targets (ConnectionAttack c) ++
  collect (ControlAttackConfig.Targets ∘ GraftFloodConfig.Control) (GraftFlood c) ++
  collect (ControlAttackConfig.Targets ∘ IHaveSpamConfig.Control) (IHaveSpam c) ++
  collect IWantWithholdingConfig.Targets (IWantWithholding c).

Definition ValidateAttackRole (c : t) (role : string) : res unit :=
  fail_if (HasActiveAttacks c && negb (bool_decide (role = "worker"%string)))
    "active attack options require role worker".

Definition mergeAttacks (base overlay : t) : t :=
  mk (mergeAttack ForwardingConfig.zero ForwardingConfig.merge (Forwarding base) (Forwarding overlay))
    (mergeAttack InvalidMessageConfig.zero InvalidMessageConfig.merge
       (InvalidMessage base) (InvalidMessage overlay))
    (mergeAttack ProbabilityAttack.zero ProbabilityAttack.merge (Sink base) (Sink overlay))
    (mergeAttack CensorshipConfig.zero CensorshipConfig.merge (Censorship base) (Censorship overlay))
    (mergeAttack MessageDelayConfig.zero MessageDelayConfig.merge
       (MessageDelay base) (MessageDelay overlay))
    (mergeAttack ConnectionAttackConfig.zero ConnectionAttackConfig.merge
       (ConnectionAttack base) (ConnectionAttack overlay))
    (mergeAttack GraftFloodConfig.zero GraftFloodConfig.merge (GraftFlood base) (GraftFlood overlay))
    (mergeAttack IHaveSpamConfig.zero IHaveSpamConfig.merge (IHaveSpam base) (IHaveSpam overlay))
    (mergeAttack IWantWithholdingConfig.zero IWantWithholdingConfig.merge
       (IWantWithholding base) (IWantWithholding overlay)).

Section attacks.
Context `{PeerCodec}.
Let normalize := AttackSelector.normalizeAttackSelector.

(** [defaultAttacks]: the policies are copied, their selectors made canonical
    and their omitted settings filled in. *)
Definition defaultAttacks (c : t) : t :=
  let c := mergeAttacks c zero in
  mk
    ((λ p, ForwardingConfig.mk
             (ProbabilityAttack.WithDefaults (ForwardingConfig.ProbabilityAttack p))
             (ForwardingConfig.Topics p) (normalize (ForwardingConfig.Targets p)))
       <$> Forwarding c)
    ((λ p, InvalidMessageConfig.mk
             (ControlAttackConfig.WithDefaults
                (ControlAttackConfig.withTargets normalize (InvalidMessageConfig.Control p)))
             (orText (InvalidMessageConfig.Mode p) "invalid-signature")
             (orElse (InvalidMessageConfig.MessagesPerPeer p) 1)
             (orElse (InvalidMessageConfig.PayloadSize p) 256)) <$> InvalidMessage c)
    (ProbabilityAttack.WithDefaults <$> Sink c)
    ((λ p, CensorshipConfig.mk
             (ProbabilityAttack.WithDefaults (CensorshipConfig.ProbabilityAttack p))
             (CensorshipConfig.Topics p) (normalize (CensorshipConfig.Publishers p)))
       <$> Censorship c)
    (MessageDelayConfig.WithDefaults <$> MessageDelay c)
    ((λ p, ConnectionAttackConfig.WithDefaults
             (ConnectionAttackConfig.mk (ConnectionAttackConfig.Enabled p)
                (normalize (ConnectionAttackConfig.Targets p))
                (ConnectionAttackConfig.TargetConnections p)
                (ConnectionAttackConfig.RetryInterval p))) <$> ConnectionAttack c)
    ((λ p, GraftFloodConfig.mk
             (ControlAttackConfig.WithDefaults
                (ControlAttackConfig.withTargets normalize (GraftFloodConfig.Control p)))
             (orElse (GraftFloodConfig.GraftsPerPeer p) 1)
             (orElse (GraftFloodConfig.RespectBackoff p) false)) <$> GraftFlood c)
    ((λ p, IHaveSpamConfig.mk
             (ControlAttackConfig.WithDefaults
                (ControlAttackConfig.withTargets normalize (IHaveSpamConfig.Control p)))
             (orElse (IHaveSpamConfig.IDsPerRPC p) 100)
             (orElse (IHaveSpamConfig.RPCsPerPeer p) 1)) <$> IHaveSpam c)
    ((λ p, IWantWithholdingConfig.mk
             (ProbabilityAttack.WithDefaults (IWantWithholdingConfig.ProbabilityAttack p))
             (IWantWithholdingConfig.Topics p) (normalize (IWantWithholdingConfig.Targets p)))
       <$> IWantWithholding c).

(** *** [ValidateAttackSyntax] *)
(** [if p != nil { if err := check(p); err != nil { return err } }] *)
Definition whenSome {A} (p : option A) (check : A → res unit) : res unit :=
  match p with Some p => check p | None => Ok tt end.

Definition outside (lo hi : Z) (p : option Z) : bool := ptr (λ v, (v <? lo) || (hi <? v)) p.

Definition syntaxForwarding (c : t) : res unit :=
  whenSome (Forwarding c) (λ p,
    wrap "forwarding" (ProbabilityAttack.Validate (ForwardingConfig.ProbabilityAttack p))).

Definition syntaxInvalidMessage (c : t) : res unit :=
  whenSome (InvalidMessage c) (λ p,
    let interval := ControlAttackConfig.Interval (InvalidMessageConfig.Control p) in
    fail_if (negb (bool_decide (InvalidMessageConfig.Mode p ∈
               ["";"invalid-signature";"malformed-protobuf"]%string)))
      "invalidMessage.mode must be invalid-signature or malformed-protobuf";;
    fail_if (outside 1 1024 (InvalidMessageConfig.MessagesPerPeer p))
      "invalidMessage.messagesPerPeer must be in [1, 1024]";;
    fail_if (outside 1 (Z.shiftl 1 20) (InvalidMessageConfig.PayloadSize p))
      "invalidMessage.payloadSize must be in [1, 1048576]";;
    if bool_decide (interval = ""%string) then Ok tt
    else pubsubDuration "invalidMessage.interval" interval true).

Definition topicLists (c : t) : list (slice string) :=
  collect ForwardingConfig.Topics (Forwarding c) ++
  collect (ControlAttackConfig.Topics ∘ InvalidMessageConfig.Control) (InvalidMessage c) ++
  collect CensorshipConfig.Topics (Censorship c) ++
  collect (ControlAttackConfig.Topics ∘ GraftFloodConfig.Control) (GraftFlood c) ++
  collect (ControlAttackConfig.Topics ∘ IHaveSpamConfig.Control) (IHaveSpam c) ++
  collect IWantWithholdingConfig.Topics (IWantWithholding c).

Fixpoint distinctTopics (seen : gset string) (l : list string) : res unit :=
  match l with
  | [] => Ok tt
  | topic :: l =>
      fail_if (bool_decide (topic = ""%string) || bool_decide (topic ∈ seen))
        "attack topics must contain distinct nonblank values";;
      distinctTopics ({[topic]} ∪ seen) l
  end.

(** The embedded probabilities in the order of [policies]. *)
Definition policies (c : t) : list (option ProbabilityAttack.t) :=
  [Sink c] ++
  collect (Some ∘ CensorshipConfig.ProbabilityAttack) (Censorship c) ++
  collect (Some ∘ MessageDelayConfig.ProbabilityAttack) (MessageDelay c) ++
  collect (Some ∘ IWantWithholdingConfig.ProbabilityAttack) (IWantWithholding c).

Definition syntaxDurations (c : t) : list (string * string) :=
  [("messageDelay.delay", from_option MessageDelayConfig.Delay "" (MessageDelay c));
   ("connectionAttack.retryInterval",
      from_option ConnectionAttackConfig.RetryInterval "" (ConnectionAttack c));
   ("graftFlood.interval",
      from_option (ControlAttackConfig.Interval ∘ GraftFloodConfig.Control) "" (GraftFlood c));
   ("ihaveSpam.interval",
      from_option (ControlAttackConfig.Interval ∘ IHaveSpamConfig.Control) "" (IHaveSpam c))]%string.

Definition positiveCounts (c : t) : list (option Z) :=
  match MessageDelay c with
  | Some p => [MessageDelayConfig.MaxPendingBytes p; MessageDelayConfig.MaxPendingMessages p]
  | None => []
  end ++
  collect ConnectionAttackConfig.TargetConnections (ConnectionAttack c) ++
  collect GraftFloodConfig.GraftsPerPeer (GraftFlood c) ++
  match IHaveSpam c with
  | Some p => [IHaveSpamConfig.IDsPerRPC p; IHaveSpamConfig.RPCsPerPeer p]
  | None => []
  end.

Definition ValidateAttackSyntax (c : t) : res unit :=
  syntaxForwarding c;;
  syntaxInvalidMessage c;;
  checkAll (λ topics, distinctTopics ∅ (elems topics)) (topicLists c);;
  whenSome (GraftFlood c) (λ p,
    fail_if (ptr (λ v, 65536 <? v) (GraftFloodConfig.GraftsPerPeer p))
      "graftsPerPeer must not exceed 65536");;
  whenSome (IHaveSpam c) (λ p,
    checkAll (λ v, fail_if (ptr (λ v, 65536 <? v) v) "IHAVE counts must not exceed 65536")
      [IHaveSpamConfig.IDsPerRPC p; IHaveSpamConfig.RPCsPerPeer p]);;
  checkAll (λ p, whenSome p ProbabilityAttack.Validate) (policies c);;
  checkAll AttackSelector.Validate (AttackSelectors c);;
  checkAll (λ '(name, value), if bool_decide (value = ""%string) then Ok tt
                              else pubsubDuration name value true) (syntaxDurations c);;
  checkAll (λ v, fail_if (ptr (λ v, v <=? 0) v)
                   "attack counts and queue limits must be positive") (positiveCounts c).

(** *** [ValidateAttacks] *)
(** The closure [topics]. *)
Definition attackTopics (n : Node) (values : slice string) (required : bool) : res unit :=
  fail_if (required && (length (elems values) =? 0)%nat)
    "active control attack requires explicit topics";;
  checkAll (λ t, fail_if (bool_decide (t = ""%string) || negb (Contains (nodeTopics n) t))
                   "attack topic is not a configured topic") (elems values).

(** The closure [controls]. *)
Definition controls (n : Node) (p : ControlAttackConfig.t) : res unit :=
  attackTopics n (ControlAttackConfig.Topics p) (controlEnabled p);;
  pubsubDuration "control attack interval" (ControlAttackConfig.Interval p) true.

Definition effectiveCensorship (n : Node) (c : t) : res unit :=
  whenSome (Censorship c) (λ p,
    let active := censorshipActive c in
    let publishers := CensorshipConfig.Publishers p in
    attackTopics n (CensorshipConfig.Topics p) false;;
    fail_if (active && (length (elems (CensorshipConfig.Topics p)) =? 0)%nat &&
             AttackSelector.Empty publishers)
      "active censorship requires topics or publishers";;
    fail_if (active && negb (AttackSelector.Empty publishers) &&
             negb (bool_decide (nodeSignaturePolicy n ∈ ["";"strict-sign"]%string)))
      "publisher censorship requires strict-sign").

Definition effectiveMessageDelay (c : t) : res unit :=
  whenSome (MessageDelay c) (λ p,
    (if negb (bool_decide (MessageDelayConfig.Delay p = ""%string)) || messageDelayActive c then
       fail_if (match Duration.parse (MessageDelayConfig.Delay p) with
                | Some d => d <=? 0 | None => true end)
         "messageDelay.delay must be a positive duration"
     else Ok tt);;
    messages ← deref (MessageDelayConfig.MaxPendingMessages p);
    (if messages <=? 0 then Err "messageDelay queue limits must be positive" else
       bytes ← deref (MessageDelayConfig.MaxPendingBytes p);
       fail_if (bytes <=? 0) "messageDelay queue limits must be positive")).

Definition effectiveConnection (n : Node) (c : t) : res unit :=
  whenSome (ConnectionAttack c) (λ p,
    let enabled := attackEnabled (ConnectionAttackConfig.Enabled p) in
    fail_if (match ConnectionAttackConfig.TargetConnections p with
             | Some v => v <=? 0 | None => true end) "targetConnections must be positive";;
    pubsubDuration "connectionAttack.retryInterval" (ConnectionAttackConfig.RetryInterval p) true;;
    fail_if (enabled && AttackSelector.Empty (ConnectionAttackConfig.Targets p))
      "active connectionAttack requires targets";;
    match nodeConnectionLimit n with
    | Some limit =>
        if enabled && (0 <? limit) then
          connections ← deref (ConnectionAttackConfig.TargetConnections p);
          fail_if (limit <? connections) "targetConnections exceeds the libp2p connection limit"
        else Ok tt
    | None => Ok tt
    end).

(** [if *p <= 0 || *p > 65536] *)
Definition badCount (p : option Z) : res bool :=
  v ← deref p; Ok ((v <=? 0) || (65536 <? v)).

Definition effectiveGraftFlood (n : Node) (c : t) : res unit :=
  whenSome (GraftFlood c) (λ p,
    controls n (GraftFloodConfig.Control p);;
    bad ← badCount (GraftFloodConfig.GraftsPerPeer p);
    fail_if bad "graftsPerPeer must be in [1, 65536]").

Definition effectiveIHaveSpam (n : Node) (c : t) : res unit :=
  whenSome (IHaveSpam c) (λ p,
    controls n (IHaveSpamConfig.Control p);;
    bad ← badCount (IHaveSpamConfig.IDsPerRPC p);
    if (bad : bool) then Err "IHAVE counts must be in [1, 65536]" else
      bad ← badCount (IHaveSpamConfig.RPCsPerPeer p);
      fail_if bad "IHAVE counts must be in [1, 65536]").

Definition effectiveRouter (n : Node) (c : t) : res unit :=
  if HasActiveAttacks c then
    fail_if (negb (attackEnabled (nodeEnabled n)) ||
             negb (bool_decide (nodeRouter n = "gossipsub"%string)))
      "active attacks require enabled GossipSub";;
    fail_if ((ProbabilityAttack.Active (Sink c) || censorshipActive c || messageDelayActive c) &&
             negb (bool_decide (nodeTopicMode n ∈ ["subscribe";"relay"]%string)))
      "receive attacks require subscribe or relay topic mode"
  else Ok tt.

Definition ValidateAttacks (n : Node) (c : t) : res unit :=
  ValidateAttackSyntax c;;
  let c := defaultAttacks c in
  checkAll (λ '(name, p), whenSome p (λ p, wrap name (ProbabilityAttack.Validate p)))
    [("sink"%string, Sink c);
     ("censorship"%string, CensorshipConfig.ProbabilityAttack <$> Censorship c);
     ("messageDelay"%string, MessageDelayConfig.ProbabilityAttack <$> MessageDelay c);
     ("iwantWithholding"%string, IWantWithholdingConfig.ProbabilityAttack <$> IWantWithholding c)];;
  checkAll AttackSelector.Validate (AttackSelectors c);;
  effectiveCensorship n c;;
  effectiveMessageDelay c;;
  effectiveConnection n c;;
  effectiveGraftFlood n c;;
  effectiveIHaveSpam n c;;
  whenSome (IWantWithholding c) (λ p, attackTopics n (IWantWithholdingConfig.Topics p) false);;
  whenSome (Forwarding c) (λ p, attackTopics n (ForwardingConfig.Topics p) false);;
  whenSome (InvalidMessage c) (λ p, controls n (InvalidMessageConfig.Control p));;
  effectiveRouter n c.
End attacks.
End Attacks.
