(* ===== verification/PeerScore.v ===== *)
(** * GossipSub peer scoring

    [internal/model/score_config.go]: the declared score parameters, their
    defaults and their validation; [internal/peer/score_config.go]: their
    conversion to the parameters of the router; and the checks the router itself
    makes when it is built
    ([third_party/go-libp2p-pubsub/score_params.go]).  A Go map is a finite map;
    Go visits its keys in any order, which decides only which of several errors
    is reported.  [net.ParseCIDR] is a parameter. *)
From Stdlib Require Import ZArith Lia.
From stdpp Require Import strings list gmap.
From S2P Require Import Prelude.
From S2P Require Import GoStd.
From S2P Require Import GoStrings.
From S2P Require Import Network.
From S2P Require Import Attacks.
Open Scope Z_scope.

(** [net.ParseCIDR]: the network of a CIDR, or an error. *)
Class CIDRs := { IPNet : Type; ParseCIDR : string → option IPNet }.

(** [for k, v := range m { if err := check(k, v); err != nil { return err } }] *)
Definition checkMap {V} (check : string → V → res unit) (m : option (gmap string V)) : res unit :=
  checkAll (λ '(k, v), check k v) (map_to_list (default ∅ m)).

Definition validNumber (value : float) : bool := negb (F64.isNaN value) && negb (F64.isInf value).
Definition validDecay (value : float) : bool :=
  validNumber value && F64.ltb F64.zero value && F64.ltb value F64.one.
Definition finitePositive (value : float) : bool := validNumber value && F64.ltb F64.zero value.
(** [x != 0] *)
Definition nonZero (x : float) : bool := negb (F64.eqb x F64.zero).
(** [x > 0] and [x < 0] *)
Definition pos (x : float) : bool := F64.ltb F64.zero x.
Definition neg (x : float) : bool := F64.ltb x F64.zero.

Definition scoreDuration (name raw : string) : res Z :=
  if bool_decide (raw = ""%string) then Ok 0
  else match Duration.parse raw with
       | Some d => Ok d
       | None => Err (name +:+ ": invalid duration")
       end.

Definition finiteScoreValues (values : list (string * float)) : res unit :=
  checkAll (λ '(name, value), fail_if (negb (validNumber value)) (name +:+ " must be finite")) values.

(** The loop over duration settings that must not be negative. *)
Definition nonNegativeDurations (values : list (string * string)) : res unit :=
  checkAll (λ '(name, raw),
    value ← scoreDuration name raw;
    fail_if (value <? 0) (name +:+ " cannot be negative")) values.

(** ** Data *)
Module AppSpecificScoreConfig.
Record t := mk { Default : float; Peers : option (gmap string float) }.

Section validate.
Context `{PeerCodec}.
(** The loop over [c.Peers] with the set [seen]. *)
Fixpoint peersLoop (weight : float) (seen : gset string) (l : list (string * float)) : res unit :=
  match l with
  | [] => Ok tt
  | (raw, score) :: l =>
      match peerDecode raw with
      | None => Err "appSpecificScore peers key is not a valid peer ID"
      | Some id =>
          fail_if (bool_decide (id ∈ seen)) "appSpecificScore peers keys identify the same peer";;
          fail_if (negb (validNumber score) || negb (validNumber (F64.mul score weight)))
            "appSpecificScore peer and its weighted value must be finite";;
          peersLoop weight ({[id]} ∪ seen) l
      end
  end.
Definition validate (c : t) (weight : float) : res unit :=
  fail_if (negb (validNumber (Default c)) || negb (validNumber (F64.mul (Default c) weight)))
    "appSpecificScore default and its weighted value must be finite";;
  peersLoop weight ∅ (map_to_list (default ∅ (Peers c))).
End validate.
End AppSpecificScoreConfig.

Module PeerScoreThresholdsConfig.
Record t := mk {
  SkipAtomicValidation : bool; GossipThreshold : float; PublishThreshold : float;
  GraylistThreshold : float; AcceptPXThreshold : float; OpportunisticGraftThreshold : float }.

Definition validate (c : t) : res unit :=
  (if negb (SkipAtomicValidation c) || nonZero (PublishThreshold c) ||
      nonZero (GossipThreshold c) || nonZero (GraylistThreshold c) then
     fail_if (negb (validNumber (GossipThreshold c)) || pos (GossipThreshold c))
       "gossipThreshold must be finite and non-positive";;
     fail_if (negb (validNumber (PublishThreshold c)) ||
              F64.ltb (GossipThreshold c) (PublishThreshold c))
       "publishThreshold must be finite and <= gossipThreshold";;
     fail_if (negb (validNumber (GraylistThreshold c)) ||
              F64.ltb (PublishThreshold c) (GraylistThreshold c))
       "graylistThreshold must be finite and <= publishThreshold"
   else Ok tt);;
  (if negb (SkipAtomicValidation c) || nonZero (AcceptPXThreshold c) then
     fail_if (negb (validNumber (AcceptPXThreshold c)) || neg (AcceptPXThreshold c))
       "acceptPXThreshold must be finite and non-negative"
   else Ok tt);;
  (if negb (SkipAtomicValidation c) || nonZero (OpportunisticGraftThreshold c) then
     fail_if (negb (validNumber (OpportunisticGraftThreshold c)) ||
              neg (OpportunisticGraftThreshold c))
       "opportunisticGraftThreshold must be finite and non-negative"
   else Ok tt).
End PeerScoreThresholdsConfig.

Module TopicScoreConfig.
Record t := mk {
  SkipAtomicValidation : bool; TopicWeight : float;
  TimeInMeshWeight : float; TimeInMeshQuantum : string; TimeInMeshCap : float;
  FirstMessageDeliveriesWeight : float; FirstMessageDeliveriesDecay : float;
  FirstMessageDeliveriesCap : float;
  MeshMessageDeliveriesWeight : float; MeshMessageDeliveriesDecay : float;
  MeshMessageDeliveriesThreshold : float; MeshMessageDeliveriesCap : float;
  MeshMessageDeliveriesActivation : string; MeshMessageDeliveriesWindow : string;
  MeshFailurePenaltyWeight : float; MeshFailurePenaltyDecay : float;
  InvalidMessageDeliveriesWeight : float; InvalidMessageDeliveriesDecay : float }.

Definition withTimeInMeshQuantum (q : string) (c : t) : t :=
  mk (SkipAtomicValidation c) (TopicWeight c) (TimeInMeshWeight c) q (TimeInMeshCap c)
    (FirstMessageDeliveriesWeight c) (FirstMessageDeliveriesDecay c) (FirstMessageDeliveriesCap c)
    (MeshMessageDeliveriesWeight c) (MeshMessageDeliveriesDecay c)
    (MeshMessageDeliveriesThreshold c) (MeshMessageDeliveriesCap c)
    (MeshMessageDeliveriesActivation c) (MeshMessageDeliveriesWindow c)
    (MeshFailurePenaltyWeight c) (MeshFailurePenaltyDecay c)
    (InvalidMessageDeliveriesWeight c) (InvalidMessageDeliveriesDecay c).

(** The body of the loop over [c.Topics] in [PeerScoreConfig.WithDefaults]. *)
Definition defaultQuantum (enabled : bool) (params : t) : t :=
  if enabled && SkipAtomicValidation params &&
     bool_decide (TimeInMeshQuantum params = ""%string) &&
     F64.eqb (TimeInMeshWeight params) F64.zero && F64.eqb (TimeInMeshCap params) F64.zero
  then withTimeInMeshQuantum "1s" params else params.

Definition validateSyntax (c : t) : res unit :=
  finiteScoreValues
    [("topicWeight", TopicWeight c); ("timeInMeshWeight", TimeInMeshWeight c);
     ("timeInMeshCap", TimeInMeshCap c);
     ("firstMessageDeliveriesWeight", FirstMessageDeliveriesWeight c);
     ("firstMessageDeliveriesDecay", FirstMessageDeliveriesDecay c);
     ("firstMessageDeliveriesCap", FirstMessageDeliveriesCap c);
     ("meshMessageDeliveriesWeight", MeshMessageDeliveriesWeight c);
     ("meshMessageDeliveriesDecay", MeshMessageDeliveriesDecay c);
     ("meshMessageDeliveriesThreshold", MeshMessageDeliveriesThreshold c);
     ("meshMessageDeliveriesCap", MeshMessageDeliveriesCap c);
     ("meshFailurePenaltyWeight", MeshFailurePenaltyWeight c);
     ("meshFailurePenaltyDecay", MeshFailurePenaltyDecay c);
     ("invalidMessageDeliveriesWeight", InvalidMessageDeliveriesWeight c);
     ("invalidMessageDeliveriesDecay", InvalidMessageDeliveriesDecay c)]%string;;
  nonNegativeDurations
    [("timeInMeshQuantum", TimeInMeshQuantum c);
     ("meshMessageDeliveriesActivation", MeshMessageDeliveriesActivation c);
     ("meshMessageDeliveriesWindow", MeshMessageDeliveriesWindow c)]%string.

(** The five groups of [validate], in order. *)
Definition validateTimeInMesh (c : t) : res unit :=
  timeInMeshQuantum ← scoreDuration "timeInMeshQuantum" (TimeInMeshQuantum c);
  fail_if (timeInMeshQuantum <=? 0) "timeInMeshQuantum must be positive";;
  if negb (SkipAtomicValidation c) || nonZero (TimeInMeshWeight c) ||
     negb (timeInMeshQuantum =? 0) || nonZero (TimeInMeshCap c) then
    fail_if (negb (validNumber (TimeInMeshWeight c)) || neg (TimeInMeshWeight c))
      "timeInMeshWeight must be finite and non-negative";;
    fail_if (nonZero (TimeInMeshWeight c) &&
             ((timeInMeshQuantum <? 0) || negb (finitePositive (TimeInMeshCap c))))
      "enabled time-in-mesh scoring requires a positive quantum and cap"
  else Ok tt.

Definition validateFirstMessage (c : t) : res unit :=
  if negb (SkipAtomicValidation c) || nonZero (FirstMessageDeliveriesWeight c) ||
     nonZero (FirstMessageDeliveriesDecay c) || nonZero (FirstMessageDeliveriesCap c) then
    fail_if (negb (validNumber (FirstMessageDeliveriesWeight c)) ||
             neg (FirstMessageDeliveriesWeight c))
      "firstMessageDeliveriesWeight must be finite and non-negative";;
    fail_if (nonZero (FirstMessageDeliveriesWeight c) &&
             (negb (validDecay (FirstMessageDeliveriesDecay c)) ||
              negb (finitePositive (FirstMessageDeliveriesCap c))))
      "enabled first-message scoring requires decay in (0,1) and a positive cap"
  else Ok tt.

Definition validateMeshMessage (c : t) : res unit :=
  meshActivation ← scoreDuration "meshMessageDeliveriesActivation"
                     (MeshMessageDeliveriesActivation c);
  meshWindow ← scoreDuration "meshMessageDeliveriesWindow" (MeshMessageDeliveriesWindow c);
  if negb (SkipAtomicValidation c) || nonZero (MeshMessageDeliveriesWeight c) ||
     nonZero (MeshMessageDeliveriesDecay c) || nonZero (MeshMessageDeliveriesThreshold c) ||
     nonZero (MeshMessageDeliveriesCap c) || negb (meshActivation =? 0) ||
     negb (meshWindow =? 0) then
    fail_if (negb (validNumber (MeshMessageDeliveriesWeight c)) ||
             pos (MeshMessageDeliveriesWeight c))
      "meshMessageDeliveriesWeight must be finite and non-positive";;
    fail_if (meshWindow <? 0) "meshMessageDeliveriesWindow cannot be negative";;
    fail_if (nonZero (MeshMessageDeliveriesWeight c) &&
             (negb (validDecay (MeshMessageDeliveriesDecay c)) ||
              negb (finitePositive (MeshMessageDeliveriesThreshold c)) ||
              negb (finitePositive (MeshMessageDeliveriesCap c)) ||
              (meshActivation <? Duration.Second)))
      "enabled mesh-message scoring requires decay in (0,1), positive threshold/cap, and activation >= 1s"
  else Ok tt.

Definition validateMeshFailure (c : t) : res unit :=
  if negb (SkipAtomicValidation c) || nonZero (MeshFailurePenaltyWeight c) ||
     nonZero (MeshFailurePenaltyDecay c) then
    fail_if (negb (validNumber (MeshFailurePenaltyWeight c)) || pos (MeshFailurePenaltyWeight c))
      "meshFailurePenaltyWeight must be finite and non-positive";;
    fail_if (nonZero (MeshFailurePenaltyWeight c) && negb (validDecay (MeshFailurePenaltyDecay c)))
      "enabled mesh-failure scoring requires decay in (0,1)"
  else Ok tt.

Definition validateInvalidMessage (c : t) : res unit :=
  if negb (SkipAtomicValidation c) || nonZero (InvalidMessageDeliveriesWeight c) ||
     nonZero (InvalidMessageDeliveriesDecay c) then
    fail_if (negb (validNumber (InvalidMessageDeliveriesWeight c)) ||
             pos (InvalidMessageDeliveriesWeight c))
      "invalidMessageDeliveriesWeight must be finite and non-positive";;
    fail_if (negb (validDecay (InvalidMessageDeliveriesDecay c)))
      "invalidMessageDeliveriesDecay must be between 0 and 1"
  else Ok tt.

Definition validate (c : t) : res unit :=
  validateSyntax c;;
  fail_if (negb (validNumber (TopicWeight c)) || neg (TopicWeight c))
    "topicWeight must be finite and non-negative";;
  validateTimeInMesh c;; validateFirstMessage c;; validateMeshMessage c;;
  validateMeshFailure c;; validateInvalidMessage c.
End TopicScoreConfig.

Module PeerScoreConfig.
Record t := mk {
  Enabled : option bool; SkipAtomicValidation : bool; TopicScoreCap : float;
  AppSpecificScore : option AppSpecificScoreConfig.t; AppSpecificWeight : float;
  IPColocationFactorWeight : float; IPColocationFactorThreshold : Z;
  IPColocationFactorWhitelist : slice string;
  BehaviourPenaltyWeight : float; BehaviourPenaltyThreshold : float;
  BehaviourPenaltyDecay : float;
  DecayInterval : string; DecayToZero : float; RetainScore : string; SeenMessageTTL : string;
  Thresholds : PeerScoreThresholdsConfig.t; Topics : option (gmap string TopicScoreConfig.t) }.

Definition IsEnabled (c : t) : bool := ptr id (Enabled c).

(** 0.01, the nearest binary64 number. *)
Definition centi : float := F64.div F64.one (F64.of_Z 100).

Definition WithDefaults (c : t) : t :=
  let fill := IsEnabled c && SkipAtomicValidation c &&
              bool_decide (DecayInterval c = ""%string) && F64.eqb (DecayToZero c) F64.zero in
  mk (Enabled c) (SkipAtomicValidation c) (TopicScoreCap c) (AppSpecificScore c)
    (AppSpecificWeight c) (IPColocationFactorWeight c) (IPColocationFactorThreshold c)
    (cloneNil (IPColocationFactorWhitelist c))
    (BehaviourPenaltyWeight c) (BehaviourPenaltyThreshold c) (BehaviourPenaltyDecay c)
    (if fill then "1s" else DecayInterval c) (if fill then centi else DecayToZero c)
    (RetainScore c) (SeenMessageTTL c) (Thresholds c)
    ((λ topics : gmap string TopicScoreConfig.t,
        TopicScoreConfig.defaultQuantum (IsEnabled c) <$> topics) <$> Topics c).

Section validate.
Context `{PeerCodec} `{CIDRs}.

Definition validateWhitelist (c : t) : res unit :=
  checkAll (λ raw, fail_if (match ParseCIDR raw with Some _ => false | None => true end)
                     "invalid ipColocationFactorWhitelist entry")
    (elems (IPColocationFactorWhitelist c)).

Definition validateSyntax (c : t) : res unit :=
  finiteScoreValues
    [("topicScoreCap", TopicScoreCap c); ("appSpecificWeight", AppSpecificWeight c);
     ("ipColocationFactorWeight", IPColocationFactorWeight c);
     ("behaviourPenaltyWeight", BehaviourPenaltyWeight c);
     ("behaviourPenaltyThreshold", BehaviourPenaltyThreshold c);
     ("behaviourPenaltyDecay", BehaviourPenaltyDecay c); ("decayToZero", DecayToZero c)]%string;;
  Attacks.whenSome (AppSpecificScore c) (λ p,
    AppSpecificScoreConfig.validate p (if IsEnabled c then AppSpecificWeight c else F64.zero));;
  let t := Thresholds c in
  finiteScoreValues
    [("thresholds.gossipThreshold", PeerScoreThresholdsConfig.GossipThreshold t);
     ("thresholds.publishThreshold", PeerScoreThresholdsConfig.PublishThreshold t);
     ("thresholds.graylistThreshold", PeerScoreThresholdsConfig.GraylistThreshold t);
     ("thresholds.acceptPXThreshold", PeerScoreThresholdsConfig.AcceptPXThreshold t);
     ("thresholds.opportunisticGraftThreshold",
        PeerScoreThresholdsConfig.OpportunisticGraftThreshold t)]%string;;
  nonNegativeDurations
    [("decayInterval", DecayInterval c); ("retainScore", RetainScore c);
     ("seenMessageTTL", SeenMessageTTL c)]%string;;
  validateWhitelist c;;
  checkMap (λ topic params,
    fail_if (bool_decide (TrimSpace topic = ""%string)) "score topic name cannot be empty";;
    wrap "topic" (TopicScoreConfig.validateSyntax params)) (Topics c).

Definition validateColocation (c : t) : res unit :=
  if negb (SkipAtomicValidation c) || nonZero (IPColocationFactorWeight c) then
    fail_if (negb (validNumber (IPColocationFactorWeight c)) || pos (IPColocationFactorWeight c))
      "ipColocationFactorWeight must be finite and non-positive";;
    fail_if (nonZero (IPColocationFactorWeight c) && (IPColocationFactorThreshold c <? 1))
      "ipColocationFactorThreshold must be at least 1 when its weight is enabled"
  else Ok tt.

Definition validateBehaviour (c : t) : res unit :=
  if negb (SkipAtomicValidation c) || nonZero (BehaviourPenaltyWeight c) ||
     nonZero (BehaviourPenaltyThreshold c) then
    fail_if (negb (validNumber (BehaviourPenaltyWeight c)) || pos (BehaviourPenaltyWeight c))
      "behaviourPenaltyWeight must be finite and non-positive";;
    fail_if (nonZero (BehaviourPenaltyWeight c) && negb (validDecay (BehaviourPenaltyDecay c)))
      "behaviourPenaltyDecay must be between 0 and 1 when its weight is enabled";;
    fail_if (negb (validNumber (BehaviourPenaltyThreshold c)) || neg (BehaviourPenaltyThreshold c))
      "behaviourPenaltyThreshold must be finite and non-negative"
  else Ok tt.

Definition validateDecay (c : t) : res unit :=
  decayInterval ← scoreDuration "decayInterval" (DecayInterval c);
  fail_if (decayInterval <? Duration.Second) "decayInterval must be at least 1s";;
  fail_if (negb (validDecay (DecayToZero c))) "decayToZero must be between 0 and 1".

(** [validate], which [Validate] exports. *)
Definition Validate (c : t) : res unit :=
  let c := WithDefaults c in
  validateSyntax c;;
  if negb (IsEnabled c) then Ok tt
  else
    fail_if (negb (validNumber (TopicScoreCap c)) || neg (TopicScoreCap c))
      "topicScoreCap must be finite and non-negative";;
    fail_if (negb (validNumber (AppSpecificWeight c))) "appSpecificWeight must be finite";;
    fail_if (nonZero (AppSpecificWeight c) && negb (Attacks.present (AppSpecificScore c)))
      "appSpecificWeight requires appSpecificScore";;
    validateColocation c;;
    validateWhitelist c;;
    validateBehaviour c;;
    validateDecay c;;
    nonNegativeDurations [("retainScore", RetainScore c); ("seenMessageTTL", SeenMessageTTL c)]%string;;
    wrap "thresholds" (PeerScoreThresholdsConfig.validate (Thresholds c));;
    checkMap (λ topic params,
      fail_if (bool_decide (TrimSpace topic = ""%string)) "score topic name cannot be empty";;
      wrap "topic" (TopicScoreConfig.validate params)) (Topics c).
End validate.
End PeerScoreConfig.

(** ** The parameters of the router

    [PeerScoreParams], [TopicScoreParams] and [PeerScoreThresholds] of the
    library, and its own validation of them. *)
Definition isInvalidNumber (num : float) : bool := F64.isNaN num || F64.isInf num.
(** [d <= 0 || d >= 1 || isInvalidNumber(d)] *)
Definition badDecay (d : float) : bool :=
  F64.leb d F64.zero || F64.leb F64.one d || isInvalidNumber d.
(** [x <= 0 || isInvalidNumber(x)] *)
Definition notPositive (x : float) : bool := F64.leb x F64.zero || isInvalidNumber x.

Module PubSubThresholds.
Record t := mk {
  SkipAtomicValidation : bool; GossipThreshold : float; PublishThreshold : float;
  GraylistThreshold : float; AcceptPXThreshold : float; OpportunisticGraftThreshold : float }.

Definition validate (p : t) : res unit :=
  (if negb (SkipAtomicValidation p) || nonZero (PublishThreshold p) ||
      nonZero (GossipThreshold p) || nonZero (GraylistThreshold p) then
     fail_if (pos (GossipThreshold p) || isInvalidNumber (GossipThreshold p))
       "invalid gossip threshold; it must be <= 0 and a valid number";;
     fail_if (pos (PublishThreshold p) || F64.ltb (GossipThreshold p) (PublishThreshold p) ||
              isInvalidNumber (PublishThreshold p))
       "invalid publish threshold; it must be <= 0 and <= gossip threshold and a valid number";;
     fail_if (pos (GraylistThreshold p) || F64.ltb (PublishThreshold p) (GraylistThreshold p) ||
              isInvalidNumber (GraylistThreshold p))
       "invalid graylist threshold; it must be <= 0 and <= publish threshold and a valid number"
   else Ok tt);;
  (if negb (SkipAtomicValidation p) || nonZero (AcceptPXThreshold p) then
     fail_if (neg (AcceptPXThreshold p) || isInvalidNumber (AcceptPXThreshold p))
       "invalid accept PX threshold; it must be >= 0 and a valid number"
   else Ok tt);;
  (if negb (SkipAtomicValidation p) || nonZero (OpportunisticGraftThreshold p) then
     fail_if (neg (OpportunisticGraftThreshold p) ||
              isInvalidNumber (OpportunisticGraftThreshold p))
       "invalid opportunistic grafting threshold; it must be >= 0 and a valid number"
   else Ok tt).
End PubSubThresholds.

Module TopicScoreParams.
Record t := mk {
  SkipAtomicValidation : bool; TopicWeight : float;
  TimeInMeshWeight : float; TimeInMeshQuantum : Z; TimeInMeshCap : float;
  FirstMessageDeliveriesWeight : float; FirstMessageDeliveriesDecay : float;
  FirstMessageDeliveriesCap : float;
  MeshMessageDeliveriesWeight : float; MeshMessageDeliveriesDecay : float;
  MeshMessageDeliveriesThreshold : float; MeshMessageDeliveriesCap : float;
  MeshMessageDeliveriesActivation : Z; MeshMessageDeliveriesWindow : Z;
  MeshFailurePenaltyWeight : float; MeshFailurePenaltyDecay : float;
  InvalidMessageDeliveriesWeight : float; InvalidMessageDeliveriesDecay : float }.

Definition validateTimeInMeshParams (p : t) : res unit :=
  if SkipAtomicValidation p && F64.eqb (TimeInMeshWeight p) F64.zero &&
     (TimeInMeshQuantum p =? 0) && F64.eqb (TimeInMeshCap p) F64.zero then Ok tt
  else
    fail_if (TimeInMeshQuantum p =? 0) "invalid TimeInMeshQuantum; must be non zero";;
    fail_if (neg (TimeInMeshWeight p) || isInvalidNumber (TimeInMeshWeight p))
      "invalid TimeInMeshWeight; must be positive (or 0 to disable) and a valid number";;
    fail_if (nonZero (TimeInMeshWeight p) && (TimeInMeshQuantum p <=? 0))
      "invalid TimeInMeshQuantum; must be positive";;
    fail_if (nonZero (TimeInMeshWeight p) && notPositive (TimeInMeshCap p))
      "invalid TimeInMeshCap; must be positive and a valid number".

Definition validateMessageDeliveryParams (p : t) : res unit :=
  if SkipAtomicValidation p && F64.eqb (FirstMessageDeliveriesWeight p) F64.zero &&
     F64.eqb (FirstMessageDeliveriesCap p) F64.zero &&
     F64.eqb (FirstMessageDeliveriesDecay p) F64.zero then Ok tt
  else
    fail_if (neg (FirstMessageDeliveriesWeight p) ||
             isInvalidNumber (FirstMessageDeliveriesWeight p))
      "invallid FirstMessageDeliveriesWeight; must be positive (or 0 to disable) and a valid number";;
    fail_if (nonZero (FirstMessageDeliveriesWeight p) && badDecay (FirstMessageDeliveriesDecay p))
      "invalid FirstMessageDeliveriesDecay; must be between 0 and 1";;
    fail_if (nonZero (FirstMessageDeliveriesWeight p) && notPositive (FirstMessageDeliveriesCap p))
      "invalid FirstMessageDeliveriesCap; must be positive and a valid number".

Definition validateMeshMessageDeliveryParams (p : t) : res unit :=
  let weighted := nonZero (MeshMessageDeliveriesWeight p) in
  if SkipAtomicValidation p && F64.eqb (MeshMessageDeliveriesWeight p) F64.zero &&
     F64.eqb (MeshMessageDeliveriesCap p) F64.zero &&
     F64.eqb (MeshMessageDeliveriesDecay p) F64.zero &&
     F64.eqb (MeshMessageDeliveriesThreshold p) F64.zero &&
     (MeshMessageDeliveriesWindow p =? 0) && (MeshMessageDeliveriesActivation p =? 0) then Ok tt
  else
    fail_if (pos (MeshMessageDeliveriesWeight p) ||
             isInvalidNumber (MeshMessageDeliveriesWeight p))
      "invalid MeshMessageDeliveriesWeight; must be negative (or 0 to disable) and a valid number";;
    fail_if (weighted && badDecay (MeshMessageDeliveriesDecay p))
      "invalid MeshMessageDeliveriesDecay; must be between 0 and 1";;
    fail_if (weighted && notPositive (MeshMessageDeliveriesCap p))
      "invalid MeshMessageDeliveriesCap; must be positive and a valid number";;
    fail_if (weighted && notPositive (MeshMessageDeliveriesThreshold p))
      "invalid MeshMessageDeliveriesThreshold; must be positive and a valid number";;
    fail_if (MeshMessageDeliveriesWindow p <? 0)
      "invalid MeshMessageDeliveriesWindow; must be non-negative";;
    fail_if (weighted && (MeshMessageDeliveriesActivation p <? Duration.Second))
      "invalid MeshMessageDeliveriesActivation; must be at least 1s".

Definition validateMessageFailurePenaltyParams (p : t) : res unit :=
  if SkipAtomicValidation p && F64.eqb (MeshFailurePenaltyDecay p) F64.zero &&
     F64.eqb (MeshFailurePenaltyWeight p) F64.zero then Ok tt
  else
    fail_if (pos (MeshFailurePenaltyWeight p) || isInvalidNumber (MeshFailurePenaltyWeight p))
      "invalid MeshFailurePenaltyWeight; must be negative (or 0 to disable) and a valid number";;
    fail_if (nonZero (MeshFailurePenaltyWeight p) && badDecay (MeshFailurePenaltyDecay p))
      "invalid MeshFailurePenaltyDecay; must be between 0 and 1".

Definition validateInvalidMessageDeliveryParams (p : t) : res unit :=
  if SkipAtomicValidation p && F64.eqb (InvalidMessageDeliveriesDecay p) F64.zero &&
     F64.eqb (InvalidMessageDeliveriesWeight p) F64.zero then Ok tt
  else
    fail_if (pos (InvalidMessageDeliveriesWeight p) ||
             isInvalidNumber (InvalidMessageDeliveriesWeight p))
      "invalid InvalidMessageDeliveriesWeight; must be negative (or 0 to disable) and a valid number";;
    fail_if (badDecay (InvalidMessageDeliveriesDecay p))
      "invalid InvalidMessageDeliveriesDecay; must be between 0 and 1".

Definition validate (p : t) : res unit :=
  fail_if (neg (TopicWeight p) || isInvalidNumber (TopicWeight p))
    "invalid topic weight; must be >= 0 and a valid number";;
  validateTimeInMeshParams p;; validateMessageDeliveryParams p;;
  validateMeshMessageDeliveryParams p;; validateMessageFailurePenaltyParams p;;
  validateInvalidMessageDeliveryParams p.
End TopicScoreParams.

Module PeerScoreParams.
Record t `{CIDRs} := mk {
  SkipAtomicValidation : bool; Topics : gmap string TopicScoreParams.t; TopicScoreCap : float;
  (** nil, or the score of a peer ID *)
  AppSpecificScore : option (string → float); AppSpecificWeight : float;
  IPColocationFactorWeight : float; IPColocationFactorThreshold : Z;
  IPColocationFactorWhitelist : list IPNet;
  BehaviourPenaltyWeight : float; BehaviourPenaltyThreshold : float;
  BehaviourPenaltyDecay : float;
  DecayInterval : Z; DecayToZero : float; RetainScore : Z; SeenMsgTTL : Z }.

Section validate.
Context `{CIDRs}.
Definition validate (p : t) : res unit :=
  checkAll (λ '(_, params), wrap "invalid score parameters for topic"
                              (TopicScoreParams.validate params)) (map_to_list (Topics p));;
  (if negb (SkipAtomicValidation p) || nonZero (TopicScoreCap p) then
     fail_if (neg (TopicScoreCap p) || isInvalidNumber (TopicScoreCap p))
       "invalid topic score cap; must be positive (or 0 for no cap) and a valid number"
   else Ok tt);;
  fail_if (negb (Attacks.present (AppSpecificScore p)) && negb (SkipAtomicValidation p))
    "missing application specific score function";;
  (if negb (SkipAtomicValidation p) || nonZero (IPColocationFactorWeight p) then
     fail_if (pos (IPColocationFactorWeight p) || isInvalidNumber (IPColocationFactorWeight p))
       "invalid IPColocationFactorWeight; must be negative (or 0 to disable) and a valid number";;
     fail_if (nonZero (IPColocationFactorWeight p) && (IPColocationFactorThreshold p <? 1))
       "invalid IPColocationFactorThreshold; must be at least 1"
   else Ok tt);;
  (if negb (SkipAtomicValidation p) || nonZero (BehaviourPenaltyWeight p) ||
      nonZero (BehaviourPenaltyThreshold p) then
     fail_if (pos (BehaviourPenaltyWeight p) || isInvalidNumber (BehaviourPenaltyWeight p))
       "invalid BehaviourPenaltyWeight; must be negative (or 0 to disable) and a valid number";;
     fail_if (nonZero (BehaviourPenaltyWeight p) && badDecay (BehaviourPenaltyDecay p))
       "invalid BehaviourPenaltyDecay; must be between 0 and 1";;
     fail_if (neg (BehaviourPenaltyThreshold p) || isInvalidNumber (BehaviourPenaltyThreshold p))
       "invalid BehaviourPenaltyThreshold; must be >= 0 and a valid number"
   else Ok tt);;
  (if negb (SkipAtomicValidation p) || negb (DecayInterval p =? 0) || nonZero (DecayToZero p) then
     fail_if (DecayInterval p <? Duration.Second) "invalid DecayInterval; must be at least 1s";;
     fail_if (badDecay (DecayToZero p)) "invalid DecayToZero; must be between 0 and 1"
   else Ok tt).
End validate.
End PeerScoreParams.

(** ** [peerScoreOptions]: from the declaration to the router *)
Section options.
Context `{PeerCodec} `{CIDRs}.

Definition parseOptionalDuration (value : string) : res Z :=
  if bool_decide (value = ""%string) then Ok 0
  else match Duration.parse value with Some d => Ok d | None => Err "invalid duration" end.

(** The loop that decodes the keys of [AppSpecificScore.Peers]. *)
Fixpoint appPeersLoop (acc : gmap string float) (l : list (string * float)) :
    res (gmap string float) :=
  match l with
  | [] => Ok acc
  | (raw, value) :: l =>
      match peerDecode raw with
      | None => Err "parse application score peer"
      | Some id => appPeersLoop (<[id := value]> acc) l
      end
  end.

Fixpoint whitelistLoop (l : list string) : res (list IPNet) :=
  match l with
  | [] => Ok []
  | raw :: l =>
      match ParseCIDR raw with
      | None => Err "parse peer score whitelist"
      | Some network => rest ← whitelistLoop l; Ok (network :: rest)
      end
  end.

(** The body of the loop over [config.Topics]. *)
Definition topicParams (input : TopicScoreConfig.t) : res TopicScoreParams.t :=
  quantum ← wrap "parse score topic timeInMeshQuantum"
              (parseOptionalDuration (TopicScoreConfig.TimeInMeshQuantum input));
  activation ← wrap "parse score topic meshMessageDeliveriesActivation"
                 (parseOptionalDuration (TopicScoreConfig.MeshMessageDeliveriesActivation input));
  window ← wrap "parse score topic meshMessageDeliveriesWindow"
             (parseOptionalDuration (TopicScoreConfig.MeshMessageDeliveriesWindow input));
  Ok (TopicScoreParams.mk (TopicScoreConfig.SkipAtomicValidation input)
        (TopicScoreConfig.TopicWeight input)
        (TopicScoreConfig.TimeInMeshWeight input) quantum (TopicScoreConfig.TimeInMeshCap input)
        (TopicScoreConfig.FirstMessageDeliveriesWeight input)
        (TopicScoreConfig.FirstMessageDeliveriesDecay input)
        (TopicScoreConfig.FirstMessageDeliveriesCap input)
        (TopicScoreConfig.MeshMessageDeliveriesWeight input)
        (TopicScoreConfig.MeshMessageDeliveriesDecay input)
        (TopicScoreConfig.MeshMessageDeliveriesThreshold input)
        (TopicScoreConfig.MeshMessageDeliveriesCap input) activation window
        (TopicScoreConfig.MeshFailurePenaltyWeight input)
        (TopicScoreConfig.MeshFailurePenaltyDecay input)
        (TopicScoreConfig.InvalidMessageDeliveriesWeight input)
        (TopicScoreConfig.InvalidMessageDeliveriesDecay input)).

Fixpoint topicsLoop (acc : gmap string TopicScoreParams.t)
    (l : list (string * TopicScoreConfig.t)) : res (gmap string TopicScoreParams.t) :=
  match l with
  | [] => Ok acc
  | (topic, input) :: l =>
      params ← topicParams input;
      topicsLoop (<[topic := params]> acc) l
  end.

Definition peerScoreOptions (config : PeerScoreConfig.t) :
    res (PeerScoreParams.t * PubSubThresholds.t) :=
  fail_if (negb (PeerScoreConfig.IsEnabled config))
    "peer scoring is disabled; set score.enabled to true";;
  let config := PeerScoreConfig.WithDefaults config in
  wrap "peer score" (PeerScoreConfig.Validate config);;
  let policy := PeerScoreConfig.AppSpecificScore config in
  let appDefault := from_option AppSpecificScoreConfig.Default F64.zero policy in
  appPeers ← appPeersLoop ∅
    (map_to_list (default ∅ (policy ≫= AppSpecificScoreConfig.Peers)));
  whitelist ← whitelistLoop (elems (PeerScoreConfig.IPColocationFactorWhitelist config));
  decayInterval ← wrap "parse peer score decayInterval"
    (parseOptionalDuration (PeerScoreConfig.DecayInterval config));
  retainScore ← wrap "parse peer score retainScore"
    (parseOptionalDuration (PeerScoreConfig.RetainScore config));
  seenTTL ← wrap "parse peer score seenMessageTTL"
    (parseOptionalDuration (PeerScoreConfig.SeenMessageTTL config));
  topics ← topicsLoop ∅ (map_to_list (default ∅ (PeerScoreConfig.Topics config)));
  let t := PeerScoreConfig.Thresholds config in
  Ok (PeerScoreParams.mk _ (PeerScoreConfig.SkipAtomicValidation config) topics
        (PeerScoreConfig.TopicScoreCap config)
        (Some (λ id, default appDefault (appPeers !! id)))
        (PeerScoreConfig.AppSpecificWeight config)
        (PeerScoreConfig.IPColocationFactorWeight config)
        (PeerScoreConfig.IPColocationFactorThreshold config) whitelist
        (PeerScoreConfig.BehaviourPenaltyWeight config)
        (PeerScoreConfig.BehaviourPenaltyThreshold config)
        (PeerScoreConfig.BehaviourPenaltyDecay config)
        decayInterval (PeerScoreConfig.DecayToZero config) retainScore seenTTL,
      PubSubThresholds.mk (PeerScoreThresholdsConfig.SkipAtomicValidation t)
        (PeerScoreThresholdsConfig.GossipThreshold t) (PeerScoreThresholdsConfig.PublishThreshold t)
        (PeerScoreThresholdsConfig.GraylistThreshold t)
        (PeerScoreThresholdsConfig.AcceptPXThreshold t)
        (PeerScoreThresholdsConfig.OpportunisticGraftThreshold t)).
End options.
