(* ===== verification/PeerScoreProps.v ===== *)
(** * Peer scoring: what the Controller accepts, the router accepts

    The theorem of [PeerScore.v]: a declared score configuration that passes
    [PeerScoreConfig.Validate] is converted without an error and passes the
    validation the router makes when it is built. *)
From Stdlib Require Import ZArith Lia Btauto Floats.SpecFloat.
From stdpp Require Import strings list gmap.
From S2P Require Import Prelude.
From S2P Require Import GoStd.
From S2P Require Import GoStrings.
From S2P Require Import Network.
From S2P Require Import Attacks.
From S2P Require Import PeerScore.
Open Scope Z_scope.

(** ** Order of floats *)
Lemma compare_opp x y : F64.compare y x = CompOpp <$> F64.compare x y.
Proof.
  destruct x as [sx|sx| |sx mx ex], y as [sy|sy| |sy my ey]; try done;
    try (destruct sx, sy; done); try (destruct sx; done); try (destruct sy; done);
    unfold F64.compare; cbn -[F64.scaled]; rewrite Z.min_comm; by rewrite Z.compare_antisym.
Qed.

Lemma compare_some x y :
  F64.isNaN x = false → F64.isNaN y = false → is_Some (F64.compare x y).
Proof. destruct x, y; try done; intros; cbn; eauto. Qed.

Lemma leb_ltb x y :
  F64.isNaN x = false → F64.isNaN y = false → F64.leb x y = negb (F64.ltb y x).
Proof.
  intros Hx Hy. destruct (compare_some x y Hx Hy) as [c Hc].
  unfold F64.leb, F64.ltb. rewrite (compare_opp x y), Hc. by destruct c.
Qed.

Lemma isInvalidNumber_spec x : isInvalidNumber x = negb (validNumber x).
Proof. unfold isInvalidNumber, validNumber. by destruct (F64.isNaN x), (F64.isInf x). Qed.

Lemma badDecay_spec d : badDecay d = negb (validDecay d).
Proof.
  unfold badDecay, validDecay. rewrite isInvalidNumber_spec.
  destruct (validNumber d) eqn:Hv; [|by rewrite orb_true_r].
  unfold validNumber in Hv. bool_props. rewrite !leb_ltb by done.
  by destruct (F64.ltb F64.zero d), (F64.ltb d F64.one).
Qed.

Lemma notPositive_spec x : notPositive x = negb (finitePositive x).
Proof.
  unfold notPositive, finitePositive. rewrite isInvalidNumber_spec.
  destruct (validNumber x) eqn:Hv; [|by rewrite orb_true_r].
  unfold validNumber in Hv. bool_props. rewrite leb_ltb by done.
  by destruct (F64.ltb F64.zero x).
Qed.

(** The sign of a finite number. *)
Lemma pos_finite s m e : pos (S754_finite s m e) = negb s.
Proof.
  unfold pos, F64.ltb, F64.compare, F64.scaled, F64.exponent, F64.zero.
  assert (0 < 2 ^ (e - Z.min 0 e)) by (apply Z.pow_pos_nonneg; lia).
  destruct s; destruct (Z.compare_spec 0 (Z.pos m * 2 ^ (e - Z.min 0 e)));
    destruct (Z.compare_spec 0 (- (Z.pos m * 2 ^ (e - Z.min 0 e)))); first [done | lia].
Qed.

(** A valid number that is not below a positive one is positive. *)
Lemma pos_mono g p :
  validNumber g = true → F64.ltb g p = false → pos p = true → pos g = true.
Proof.
  intros Hg Hle Hp. destruct p as [s|s| |s m e]; [by destruct s| |done|].
  - destruct s; [done|]. by destruct g as [?|[]| |? ? ?].
  - rewrite pos_finite in Hp. destruct s; [done|].
    destruct g as [t|t| |t n f]; [| by destruct t | done | rewrite pos_finite].
    + exfalso. unfold F64.ltb, F64.compare, F64.scaled, F64.exponent in Hle.
      assert (0 < 2 ^ (e - Z.min 0 e)) by (apply Z.pow_pos_nonneg; lia).
      destruct (Z.compare_spec 0 (Z.pos m * 2 ^ (e - Z.min 0 e))); [nia|done|nia].
    + destruct t; [|done]. exfalso.
      unfold F64.ltb, F64.compare, F64.scaled, F64.exponent in Hle.
      assert (0 < 2 ^ (e - Z.min f e)) by (apply Z.pow_pos_nonneg; lia).
      assert (0 < 2 ^ (f - Z.min f e)) by (apply Z.pow_pos_nonneg; lia).
      destruct (Z.compare_spec (- (Z.pos n * 2 ^ (f - Z.min f e)))
        (Z.pos m * 2 ^ (e - Z.min f e))); [nia|done|nia].
Qed.

Lemma pos_implies g p : negb (validNumber g) || F64.ltb g p || negb (pos p) || pos g = true.
Proof.
  pose proof (pos_mono g p). by destruct (validNumber g), (F64.ltb g p), (pos p), (pos g); auto.
Qed.

(** ** The checks agree *)
Lemma eqb_nonZero x : F64.eqb x F64.zero = negb (nonZero x).
Proof. unfold nonZero. by destruct (F64.eqb x F64.zero). Qed.

#[local] Opaque F64.ltb F64.eqb pos neg nonZero validNumber validDecay finitePositive.

(** Decide the atomic tests one by one, those of the goal first. *)
Ltac settle := rewrite ?orb_false_r, ?orb_true_r, ?andb_true_r, ?andb_false_r in *;
  cbn [negb orb andb] in *; try congruence; try lia.
Ltac test :=
  try (lazymatch goal with |- ?x = ?x => reflexivity end); try discriminate;
  lazymatch goal with
  | |- context [nonZero ?x] => destruct (nonZero x); settle
  | |- context [validDecay ?x] => destruct (validDecay x); settle
  | |- context [finitePositive ?x] => destruct (finitePositive x); settle
  | |- context [validNumber ?x] => destruct (validNumber x); settle
  | |- context [F64.ltb ?x ?y] => destruct (F64.ltb x y); settle
  | |- context [pos ?x] => destruct (pos x); settle
  | |- context [neg ?x] => destruct (neg x); settle
  | |- context [(?x <? ?y)%Z] => destruct (Z.ltb_spec x y); settle
  | |- context [(?x <=? ?y)%Z] => destruct (Z.leb_spec x y); settle
  | |- context [(?x =? ?y)%Z] => destruct (Z.eqb_spec x y); settle
  | H : context [validNumber ?x] |- _ => destruct (validNumber x); settle
  | H : context [F64.ltb ?x ?y] |- _ => destruct (F64.ltb x y); settle
  | H : context [pos ?x] |- _ => destruct (pos x); settle
  | H : context [nonZero ?x] |- _ => destruct (nonZero x); settle
  | H : context [finitePositive ?x] |- _ => destruct (finitePositive x); settle
  | H : context [(?x <? ?y)%Z] |- _ => destruct (Z.ltb_spec x y); settle
  | H : context [(?x <=? ?y)%Z] |- _ => destruct (Z.leb_spec x y); settle
  | H : context [(?x =? ?y)%Z] |- _ => destruct (Z.eqb_spec x y); settle
  end.
Ltac tests := repeat test; try (match goal with |- ?x = ?x => reflexivity end); try congruence.

(** Both sides as the same atomic tests. *)
Ltac same_tests :=
  rewrite ?eqb_nonZero, ?badDecay_spec, ?notPositive_spec, ?isInvalidNumber_spec.

Lemma thresholds_agree t :
  PeerScoreThresholdsConfig.validate t = Ok tt →
  PubSubThresholds.validate
    (PubSubThresholds.mk (PeerScoreThresholdsConfig.SkipAtomicValidation t)
       (PeerScoreThresholdsConfig.GossipThreshold t) (PeerScoreThresholdsConfig.PublishThreshold t)
       (PeerScoreThresholdsConfig.GraylistThreshold t)
       (PeerScoreThresholdsConfig.AcceptPXThreshold t)
       (PeerScoreThresholdsConfig.OpportunisticGraftThreshold t)) = Ok tt.
Proof.
  destruct t as [skip g p y a o].
  unfold PeerScoreThresholdsConfig.validate, PubSubThresholds.validate. cbn -[F64.ltb].
  same_tests. intros H. pose proof (pos_implies g p). pose proof (pos_implies p y).
  check_inv; check_goal; tests.
Qed.

Lemma scoreDuration_ok name raw v :
  scoreDuration name raw = Ok v ↔ parseOptionalDuration raw = Ok v.
Proof.
  unfold scoreDuration, parseOptionalDuration. case_bool_decide; [done|].
  destruct (Duration.parse raw); naive_solver.
Qed.

Lemma nonNegativeDurations_ok values name raw u :
  nonNegativeDurations values = Ok u → (name, raw) ∈ values →
  ∃ v, parseOptionalDuration raw = Ok v ∧ 0 ≤ v.
Proof.
  unfold nonNegativeDurations. rewrite checkAll_ok. intros Hall Hin.
  eapply list.Forall_forall in Hall; [|exact Hin]. cbn in Hall.
  apply bind_ok in Hall as (v & Hv & Hneg). apply fail_if_ok in Hneg.
  exists v. split; [by apply (scoreDuration_ok name)|]. bool_props. lia.
Qed.

(** One group of parameters.  The router skips it in selective mode when all
    its parameters are zero: the negation of the Controller's condition. *)
Ltac group :=
  cbn -[F64.ltb]; same_tests; unfold Duration.Second; let H := fresh in intros H;
  try (lazymatch goal with
       | |- (if ?c then Ok tt else _) = Ok tt =>
           lazymatch type of H with
           | (if ?c' then _ else _) = _ =>
               replace c with (negb c') by btauto; destruct c'; cbn [negb]; check_inv
           end
       end);
  check_inv; check_goal; tests.

Lemma topicParams_ok input :
  TopicScoreConfig.validate input = Ok tt →
  ∃ p, topicParams input = Ok p ∧ TopicScoreParams.validate p = Ok tt.
Proof.
  destruct input as [skip w tw tq tc fw fd fc mw md mt mc ma mwin pw pd iw id].
  unfold TopicScoreConfig.validate. rewrite !seq_ok.
  intros (Hs & Hw & H1 & H2 & H3 & H4 & H5).
  unfold TopicScoreConfig.validateSyntax in Hs. apply seq_ok in Hs as [_ Hs].
  edestruct (nonNegativeDurations_ok _ "timeInMeshQuantum" tq _ Hs) as (q & Hq & _);
    [rewrite !elem_of_cons; tauto|].
  edestruct (nonNegativeDurations_ok _ "meshMessageDeliveriesActivation" ma _ Hs) as (a & Ha & _);
    [rewrite !elem_of_cons; tauto|].
  edestruct (nonNegativeDurations_ok _ "meshMessageDeliveriesWindow" mwin _ Hs) as (win & Hwin & _);
    [rewrite !elem_of_cons; tauto|].
  clear Hs. unfold topicParams. cbn. rewrite Hq, Ha, Hwin. cbn. eexists. split; [done|].
  unfold TopicScoreConfig.validateTimeInMesh in H1.
  unfold TopicScoreConfig.validateMeshMessage in H3. cbn -[F64.ltb] in H1, H3.
  rewrite (proj2 (scoreDuration_ok _ _ _) Hq) in H1.
  rewrite (proj2 (scoreDuration_ok _ _ _) Ha), (proj2 (scoreDuration_ok _ _ _) Hwin) in H3.
  unfold TopicScoreParams.validate. rewrite !seq_ok. split_and!.
  - clear -Hw. revert Hw. group.
  - clear -H1. apply seq_ok in H1 as [Hq H1]. apply fail_if_ok in Hq. bool_props.
    revert H1. unfold TopicScoreParams.validateTimeInMeshParams. group.
  - clear -H2. revert H2. unfold TopicScoreConfig.validateFirstMessage,
      TopicScoreParams.validateMessageDeliveryParams. group.
  - clear -H3. revert H3. unfold TopicScoreParams.validateMeshMessageDeliveryParams. group.
  - clear -H4. revert H4. unfold TopicScoreConfig.validateMeshFailure,
      TopicScoreParams.validateMessageFailurePenaltyParams. group.
  - clear -H5. revert H5. unfold TopicScoreConfig.validateInvalidMessage,
      TopicScoreParams.validateInvalidMessageDeliveryParams. group.
Qed.

#[local] Transparent F64.ltb F64.eqb pos neg nonZero validNumber validDecay finitePositive.

(** ** Defaults *)
Lemma defaultQuantum_idemp e p :
  TopicScoreConfig.defaultQuantum e (TopicScoreConfig.defaultQuantum e p) =
  TopicScoreConfig.defaultQuantum e p.
Proof.
  unfold TopicScoreConfig.defaultQuantum at 2 3.
  destruct (_ && _) eqn:Hc; [|unfold TopicScoreConfig.defaultQuantum; by rewrite Hc].
  unfold TopicScoreConfig.defaultQuantum. destruct p. cbn. by rewrite !andb_false_r.
Qed.

Lemma score_WithDefaults_idemp c :
  PeerScoreConfig.WithDefaults (PeerScoreConfig.WithDefaults c) = PeerScoreConfig.WithDefaults c.
Proof.
  destruct c as [en skip cap app aw iw it wl bw bt bd di dz rs st th ts].
  unfold PeerScoreConfig.WithDefaults, PeerScoreConfig.IsEnabled. cbn -[F64.eqb].
  rewrite cloneNil_idemp.
  destruct (ptr id en && skip && bool_decide (di = ""%string) && F64.eqb dz F64.zero) eqn:Hc;
    [rewrite bool_decide_false, andb_false_r by done|rewrite Hc]; f_equal.
  all: destruct ts as [ts|]; [|done]; cbn; f_equal; rewrite <- map_fmap_compose;
    apply map_fmap_ext; intros k x _; apply defaultQuantum_idemp.
Qed.

Section starts.
Context `{PeerCodec} `{CIDRs}.

Lemma score_Validate_WithDefaults c :
  PeerScoreConfig.Validate (PeerScoreConfig.WithDefaults c) = PeerScoreConfig.Validate c.
Proof. unfold PeerScoreConfig.Validate. by rewrite score_WithDefaults_idemp. Qed.

(** ** The loops of the conversion *)
Lemma whitelistLoop_ok l :
  Forall (λ raw, is_Some (ParseCIDR raw)) l → ∃ nets, whitelistLoop l = Ok nets.
Proof.
  induction 1 as [|raw l [net Hraw] _ [nets IH]]; [by eexists|].
  cbn. rewrite Hraw, IH. by eexists.
Qed.

Lemma topicsLoop_ok l : ∀ acc,
  map_Forall (λ _ p, TopicScoreParams.validate p = Ok tt) acc →
  Forall (λ '(_, input), TopicScoreConfig.validate input = Ok tt) l →
  ∃ m, topicsLoop acc l = Ok m ∧ map_Forall (λ _ p, TopicScoreParams.validate p = Ok tt) m.
Proof.
  induction l as [|[topic input] l IH]; intros acc Hacc Hl; [by eexists|].
  apply list.Forall_cons in Hl as [Hin Hl].
  destruct (topicParams_ok input Hin) as (p & Hp & Hv). cbn [topicsLoop]. rewrite Hp. cbn.
  apply IH; [by apply map_Forall_insert_2|done].
Qed.

(** The decoded keys are distinct, so no entry overwrites another. *)
Lemma appPeersLoop_ok weight l : ∀ seen acc,
  AppSpecificScoreConfig.peersLoop weight seen l = Ok tt → (∀ id, is_Some (acc !! id) → id ∈ seen) →
  ∃ m, appPeersLoop acc l = Ok m ∧ acc ⊆ m ∧
    ∀ raw v, (raw, v) ∈ l → ∃ id, peerDecode raw = Some id ∧ m !! id = Some v.
Proof.
  induction l as [|[raw v] l IH]; intros seen acc Hl Hseen.
  { eexists. split_and!; [done|done|]. set_solver. }
  cbn in Hl |- *. destruct (peerDecode raw) as [id|] eqn:Hid; [|done].
  apply seq_ok in Hl as [Hnew Hl]. apply seq_ok in Hl as [_ Hl].
  apply fail_if_ok, bool_decide_eq_false in Hnew.
  assert (acc !! id = None) as Hnone.
  { destruct (acc !! id) eqn:Hx; [|done]. destruct Hnew. by apply Hseen; eexists. }
  destruct (IH ({[id]} ∪ seen) (<[id := v]> acc) Hl) as (m & Hm & Hsub & Hin).
  { intros id' [x Hx]. destruct (decide (id' = id)) as [->|Hne]; [set_solver|].
    rewrite lookup_insert_ne in Hx by done. apply elem_of_union_r, Hseen. by eexists. }
  exists m. split_and!; [done| |].
  - transitivity (<[id := v]> acc); [by apply insert_subseteq|done].
  - intros raw' v'. rewrite elem_of_cons. intros [[= -> ->]|Hr]; [|by apply Hin].
    exists id. split; [done|]. eapply lookup_weaken; [|exact Hsub]. by rewrite lookup_insert_eq.
Qed.

Lemma nonNegativeDurations_parse values name raw u :
  nonNegativeDurations values = Ok u → (name, raw) ∈ values →
  ∃ v, parseOptionalDuration raw = Ok v.
Proof. intros Hn Hin. destruct (nonNegativeDurations_ok _ _ _ _ Hn Hin) as (v & ? & _). eauto. Qed.

Lemma checkMap_topics (check : TopicScoreConfig.t → res unit) (topics : option (gmap string _)) :
  checkMap (λ topic params,
    fail_if (bool_decide (TrimSpace topic = ""%string)) "score topic name cannot be empty";;
    wrap "topic" (check params)) topics = Ok tt →
  Forall (λ '(_, input), check input = Ok tt) (map_to_list (default ∅ topics)).
Proof.
  intros Hc. apply checkAll_ok in Hc. eapply list.Forall_impl; [exact Hc|].
  intros [topic params] Ht. apply seq_ok in Ht as [_ Ht]. by apply wrap_ok in Ht.
Qed.

(** The converted parameters as the checks of the declaration determine them. *)
Lemma params_agree c topics f wl di rs st :
  negb (validNumber (PeerScoreConfig.TopicScoreCap c)) || neg (PeerScoreConfig.TopicScoreCap c)
    = false →
  PeerScoreConfig.validateColocation c = Ok tt →
  PeerScoreConfig.validateBehaviour c = Ok tt →
  PeerScoreConfig.validateDecay c = Ok tt →
  parseOptionalDuration (PeerScoreConfig.DecayInterval c) = Ok di →
  map_Forall (λ _ p, TopicScoreParams.validate p = Ok tt) topics →
  PeerScoreParams.validate
    (PeerScoreParams.mk _ (PeerScoreConfig.SkipAtomicValidation c) topics
       (PeerScoreConfig.TopicScoreCap c) (Some f) (PeerScoreConfig.AppSpecificWeight c)
       (PeerScoreConfig.IPColocationFactorWeight c) (PeerScoreConfig.IPColocationFactorThreshold c)
       wl (PeerScoreConfig.BehaviourPenaltyWeight c) (PeerScoreConfig.BehaviourPenaltyThreshold c)
       (PeerScoreConfig.BehaviourPenaltyDecay c) di (PeerScoreConfig.DecayToZero c) rs st) = Ok tt.
Proof.
  intros Hcap Hcol Hbeh Hdecay Hdi Htopics.
  unfold PeerScoreParams.validate. rewrite !seq_ok. split_and!.
  - apply checkAll_ok, list.Forall_forall. intros [k p] Hin. apply wrap_ok.
    apply elem_of_map_to_list in Hin. by apply (Htopics k).
  - revert Hcap. clear. group.
  - done.
  - revert Hcol. clear. unfold PeerScoreConfig.validateColocation. group.
  - revert Hbeh. clear. unfold PeerScoreConfig.validateBehaviour. group.
  - unfold PeerScoreConfig.validateDecay in Hdecay.
    rewrite (proj2 (scoreDuration_ok _ _ _) Hdi) in Hdecay. revert Hdecay. clear. group.
Qed.

(** The policy of an accepted configuration decodes, each declared peer once. *)
Lemma policy_decodes policy weight :
  Attacks.whenSome policy (λ p, AppSpecificScoreConfig.validate p weight) = Ok tt →
  ∃ m, appPeersLoop ∅ (map_to_list (default ∅ (policy ≫= AppSpecificScoreConfig.Peers))) = Ok m ∧
    ∀ p raw v, policy = Some p → default ∅ (AppSpecificScoreConfig.Peers p) !! raw = Some v →
      ∃ id, peerDecode raw = Some id ∧ m !! id = Some v.
Proof.
  destruct policy as [policy|]; [|by eexists]. intros Hpol.
  cbn in Hpol. apply seq_ok in Hpol as [_ Hpol].
  destruct (appPeersLoop_ok _ _ ∅ ∅ Hpol) as (m & Hm & _ & Hin);
    [intros id Hs; rewrite lookup_empty in Hs; by destruct Hs|].
  exists m. split; [done|]. intros ? raw v [= <-] Hr. apply Hin. by apply elem_of_map_to_list.
Qed.

(** The conversion of an accepted configuration, with the callback it installs. *)
Lemma score_starts config :
  PeerScoreConfig.IsEnabled config = true →
  PeerScoreConfig.Validate config = Ok tt →
  ∃ score thresholds (m : gmap string float),
    peerScoreOptions config = Ok (score, thresholds) ∧
    PeerScoreParams.validate score = Ok tt ∧ PubSubThresholds.validate thresholds = Ok tt ∧
    PeerScoreParams.AppSpecificScore score =
      Some (λ id, default (from_option AppSpecificScoreConfig.Default F64.zero
                             (PeerScoreConfig.AppSpecificScore config)) (m !! id)) ∧
    ∀ p raw v, PeerScoreConfig.AppSpecificScore config = Some p →
      default ∅ (AppSpecificScoreConfig.Peers p) !! raw = Some v →
      ∃ id, peerDecode raw = Some id ∧ m !! id = Some v.
Proof.
  intros Hen Hval. unfold peerScoreOptions. rewrite Hen. cbn [negb fail_if].
  pose proof (score_Validate_WithDefaults config) as Hagain. rewrite Hval in Hagain.
  assert (PeerScoreConfig.AppSpecificScore (PeerScoreConfig.WithDefaults config)
          = PeerScoreConfig.AppSpecificScore config) as Happ by done.
  unfold PeerScoreConfig.Validate in Hval.
  assert (PeerScoreConfig.IsEnabled (PeerScoreConfig.WithDefaults config) = true) as Hen' by done.
  rewrite <- Happ. clear Happ.
  set (c := PeerScoreConfig.WithDefaults config) in *. clearbody c. clear Hen config.
  rewrite Hen' in Hval. apply seq_ok in Hval as [Hsyn Hval]. cbn [negb] in Hval.
  rewrite !seq_ok in Hval.
  destruct Hval as (Hcap & _ & _ & Hcol & Hwl & Hbeh & Hdecay & Hdur & Hth & Htop).
  apply fail_if_ok in Hcap. apply wrap_ok in Hth. apply checkMap_topics in Htop.
  unfold PeerScoreConfig.validateSyntax in Hsyn. rewrite !seq_ok in Hsyn.
  destruct Hsyn as (_ & Hpol & _ & Hdur' & _ & _).
  rewrite Hagain. clear Hagain.
  destruct (nonNegativeDurations_parse _ "decayInterval" (PeerScoreConfig.DecayInterval c) _ Hdur')
    as (di & Hdi); [set_solver|].
  destruct (nonNegativeDurations_parse _ "retainScore" (PeerScoreConfig.RetainScore c) _ Hdur')
    as (rs & Hrs); [set_solver|].
  destruct (nonNegativeDurations_parse _ "seenMessageTTL" (PeerScoreConfig.SeenMessageTTL c) _ Hdur')
    as (st & Hst); [set_solver|].
  destruct (whitelistLoop_ok (elems (PeerScoreConfig.IPColocationFactorWhitelist c)))
    as (nets & Hnets).
  { apply checkAll_ok in Hwl. eapply list.Forall_impl; [exact Hwl|]. intros raw Hr.
    apply fail_if_ok in Hr. destruct (ParseCIDR raw); [by eexists|done]. }
  destruct (topicsLoop_ok _ ∅ (map_Forall_empty _) Htop) as (topics & Htopics & Hall).
  apply policy_decodes in Hpol as (m & Hm & Hpeers).
  rewrite Hm, Hnets, Hdi, Hrs, Hst, Htopics. cbn [mbind res_bind wrap].
  eexists _, _, _. split; [done|]. split; [by apply params_agree|].
  split; [by apply thresholds_agree|]. split; [done|]. apply Hpeers.
Qed.

(** A peer-score configuration that passes the Controller's validation and
    enables scoring is converted for the router without an error; the router's
    own validation accepts the converted parameters and thresholds; and the
    installed callback returns, for the peer each declared entry names, exactly
    the declared score. *)
Theorem accepted_score_starts config :
  PeerScoreConfig.IsEnabled config = true →
  PeerScoreConfig.Validate config = Ok tt →
  ∃ score thresholds f,
    peerScoreOptions config = Ok (score, thresholds) ∧
    PeerScoreParams.validate score = Ok tt ∧ PubSubThresholds.validate thresholds = Ok tt ∧
    PeerScoreParams.AppSpecificScore score = Some f ∧
    ∀ policy raw v, PeerScoreConfig.AppSpecificScore config = Some policy →
      default ∅ (AppSpecificScoreConfig.Peers policy) !! raw = Some v →
      ∃ id, peerDecode raw = Some id ∧ f id = v.
Proof.
  intros Hen Hval.
  destruct (score_starts config Hen Hval) as (score & thresholds & m & Ho & Hs & Ht & Happ & Hm).
  eexists score, thresholds, _. split_and!; [done..|].
  intros policy raw v Hp Hr. destruct (Hm policy raw v Hp Hr) as (id & Hid & Hv).
  exists id. by rewrite Hv.
Qed.
End starts.

Module PeerScoreExamples.
#[local] Instance codec : PeerCodec :=
  {| peerDecode s := if bool_decide (s = ""%string) then None else Some s; peerString s := s |}.
#[local] Instance cidrs : CIDRs := {| IPNet := string; ParseCIDR s := Some s |}.

Definition half : float := F64.div F64.one (F64.of_Z 2).
Definition topic : TopicScoreConfig.t :=
  TopicScoreConfig.mk true F64.one F64.zero "" F64.zero F64.one half (F64.of_Z 10)
    (F64.of_Z (-1)) half (F64.of_Z 5) (F64.of_Z 20) "2s" "10ms" F64.zero F64.zero
    (F64.of_Z (-9)) half.
Definition config : PeerScoreConfig.t :=
  PeerScoreConfig.mk (Some true) true (F64.of_Z 100)
    (Some (AppSpecificScoreConfig.mk F64.one (Some {["peerA" := F64.zero; "peerB" := half]})))
    (F64.of_Z 3) (F64.of_Z (-5)) 3 (Some ["10.0.0.0/8"%string]) F64.zero F64.zero F64.zero
    "" F64.zero "1h" ""
    (PeerScoreThresholdsConfig.mk false (F64.of_Z (-10)) (F64.of_Z (-50)) (F64.of_Z (-80))
       (F64.of_Z 10) F64.one)
    (Some {["blocks" := topic]}).

Lemma config_accepted : PeerScoreConfig.Validate config = Ok tt.
Proof. vm_compute. reflexivity. Qed.

Lemma accepted_score_starts_witness :
  ∃ score thresholds f,
    peerScoreOptions config = Ok (score, thresholds) ∧
    PeerScoreParams.validate score = Ok tt ∧ PubSubThresholds.validate thresholds = Ok tt ∧
    PeerScoreParams.AppSpecificScore score = Some f ∧
    ∀ policy raw v, PeerScoreConfig.AppSpecificScore config = Some policy →
      default ∅ (AppSpecificScoreConfig.Peers policy) !! raw = Some v →
      ∃ id, peerDecode raw = Some id ∧ f id = v.
Proof. exact (accepted_score_starts config eq_refl config_accepted). Defined.
End PeerScoreExamples.
