(* ===== verification/GossipSubConfig.v ===== *)
(** * GossipSub configuration

    [internal/model/gossipsub_config.go], [gossipsub_policies.go] and
    [gossipsub_validation.go]: the declared options of a node's PubSub, and the
    checks of every declarative policy ([ValidateExtended]).  A Go map is a
    finite map or, for a literal the code ranges over, the list of its entries:
    Go visits either in any order, which decides only which of several errors is
    reported.  Regular expressions, base64, multiaddresses and libp2p keys are
    parameters. *)
From Stdlib Require Import ZArith Lia.
From stdpp Require Import strings list gmap.
From S2P Require Import Prelude.
From S2P Require Import GoStd.
From S2P Require Import GoStrings.
From S2P Require Import Network.
From S2P Require Import Attacks.
From S2P Require Import PeerScore.
Open Scope Z_scope.

(** [regexp.Compile], [base64.StdEncoding.DecodeString], [multiaddr.NewMultiaddr],
    [peer.AddrInfoFromP2pAddr] (the peer ID and how many transport addresses) and
    libp2p's key functions; [None] is an error. *)
Class PubSubLib := {
  Regexp : Set;
  regexpCompile : string → option Regexp;
  MatchString : Regexp → string → bool;
  base64Decode : string → option string;
  Multiaddr : Set;
  NewMultiaddr : string → option Multiaddr;
  AddrInfoFromP2pAddr : Multiaddr → option (string * nat);
  PrivKey : Set;
  UnmarshalPrivateKey : string → option PrivKey;
  IDFromPrivateKey : PrivKey → option string }.

Definition oneOf (value : string) (values : list string) : bool := bool_decide (value ∈ values).
(** [p == nil] *)
Definition isNil {A} (p : option A) : bool := negb (Attacks.present p).
(** [p != nil && *p] *)
Definition isTrue (p : option bool) : bool := ptr id p.
Definition negative (p : option Z) : bool := ptr (λ v, v <? 0) p.
Definition notPositiveInt (p : option Z) : bool := ptr (λ v, v <=? 0) p.
Definition empty (s : string) : bool := bool_decide (s = ""%string).
(** [len(s) == 0] *)
Definition noElems {A} (s : slice A) : bool := (length (elems s) =? 0)%nat.

(** ** Policies *)
Module PubSubValidatorConfig.
Record t := mk {
  BasicSeqno : bool; Result : string; FailureResult : string;
  MinBytes : option Z; MaxBytes : option Z; Pattern : string; Format : string;
  Delay : string; Timeout : string; Concurrency : option Z; Inline : option bool;
  UseValidatorData : bool }.

Section validate.
Context `{PubSubLib}.
Definition Validate (c : t) : res unit :=
  checkAll (λ '(name, value),
      fail_if (negb (pubsubContains ["";"accept";"reject";"ignore"]%string value))
        (name +:+ " must be accept, reject, or ignore"))
    [("result", Result c); ("failureResult", FailureResult c)]%string;;
  fail_if (bool_decide (FailureResult c = "accept"%string))
    "failureResult must be reject or ignore";;
  fail_if (negative (MinBytes c) || negative (MaxBytes c))
    "validator byte limits cannot be negative";;
  fail_if (ptr (λ lo, ptr (λ hi, hi <? lo) (MaxBytes c)) (MinBytes c))
    "validator minBytes exceeds maxBytes";;
  (if negb (empty (Pattern c)) then
     fail_if (isNil (regexpCompile (Pattern c))) "validator pattern"
   else Ok tt);;
  fail_if (negb (oneOf (Format c) ["";"any";"json";"envelope"]%string))
    "validator format must be any, json, or envelope";;
  checkAll (λ '(name, value), pubsubDuration ("validator." +:+ name) value false)
    [("delay", Delay c); ("timeout", Timeout c)]%string;;
  fail_if (notPositiveInt (Concurrency c)) "validator concurrency must be positive".
End validate.
End PubSubValidatorConfig.

Module PubSubTopicConfig.
Record t := mk {
  MessageID : string; SubscriptionBufferSize : option Z;
  Validator : option PubSubValidatorConfig.t }.
Definition zero : t := mk "" None None.
End PubSubTopicConfig.

Record PubSubPeerRule := mkPeerRule { RuleAllow : slice string; RuleDeny : slice string }.

Module PubSubPeerFilterConfig.
Record t := mk {
  Allow : slice string; Deny : slice string; Topics : option (gmap string PubSubPeerRule) }.
End PubSubPeerFilterConfig.

Module PubSubSubscriptionFilterConfig.
Record t := mk { Allowlist : slice string; Pattern : string; MaxSubscriptions : option Z }.
End PubSubSubscriptionFilterConfig.

Module PubSubProtocolConfig.
Record t := mk { ID : string; Features : slice string }.
End PubSubProtocolConfig.

Module PubSubBlacklistConfig.
Record t := mk { Peers : slice string; TTL : string }.
End PubSubBlacklistConfig.

Module PubSubRPCInspectorConfig.
Record t := mk {
  MaxMessages : option Z; MaxSubscriptions : option Z; MaxControlEntries : option Z;
  MaxMessageIDs : option Z; MaxBytes : option Z; RejectPeers : slice string }.
End PubSubRPCInspectorConfig.

Module PubSubDiscoveryConnectorConfig.
Record t := mk {
  CacheSize : option Z; DialTimeout : string; MinBackoff : string; MaxBackoff : string;
  TimeUnit : string; Base : option float; Offset : string; Jitter : string; Seed : option Z }.
End PubSubDiscoveryConnectorConfig.

Module PubSubDiscoveryConfig.
Import PubSubDiscoveryConnectorConfig.
Record t := mk {
  Mode : string; TTL : string; Limit : option Z;
  Connector : option PubSubDiscoveryConnectorConfig.t }.

(** [if s != "" { d, _ = time.ParseDuration(s) }] *)
Definition orParsed (s : string) (d : Z) : Z :=
  if empty s then d else default 0 (Duration.parse s).

Definition validateConnector (b : PubSubDiscoveryConnectorConfig.t) : res unit :=
  fail_if (notPositiveInt (CacheSize b)) "connector.cacheSize must be positive";;
  checkAll (λ '(name, value),
      pubsubDuration ("connector." +:+ name) value (negb (bool_decide (name = "offset"%string))))
    [("dialTimeout", DialTimeout b); ("minBackoff", MinBackoff b); ("maxBackoff", MaxBackoff b);
     ("timeUnit", TimeUnit b); ("offset", Offset b)]%string;;
  let min := orParsed (MinBackoff b) (10 * Duration.Second) in
  let max := orParsed (MaxBackoff b) Duration.Hour in
  fail_if (max <? min) "connector.minBackoff exceeds maxBackoff";;
  fail_if (ptr (λ v, negb (validNumber v) || F64.leb v F64.one) (Base b))
    "connector.base must be finite and greater than 1";;
  fail_if (negb (oneOf (Jitter b) ["";"full";"none"]%string))
    "connector.jitter must be full or none".

Definition Validate (c : t) : res unit :=
  fail_if (negb (oneOf (Mode c) ["";"controller";"routing";"none"]%string))
    "mode must be controller, routing, or none";;
  fail_if (bool_decide (Mode c = "none"%string) &&
           (negb (empty (TTL c)) || negb (isNil (Limit c)) || negb (isNil (Connector c))))
    "disabled discovery cannot configure TTL, limit, or connector";;
  pubsubDuration "ttl" (TTL c) true;;
  fail_if (notPositiveInt (Limit c)) "limit must be positive";;
  Attacks.whenSome (Connector c) validateConnector.
End PubSubDiscoveryConfig.

Module PubSubAuthorConfig.
Record t := mk { PeerID : string; PrivateKey : string; NoAuthor : bool }.

Section identity.
Context `{PeerCodec} `{PubSubLib}.
(** [Identity]: the key, nil when the host's peerstore supplies it, and the ID. *)
Definition Identity (c : t) : res (option PrivKey * string) :=
  if NoAuthor c then
    fail_if (negb (empty (PeerID c)) || negb (empty (PrivateKey c)))
      "noAuthor conflicts with peerId/privateKey";;
    Ok (None, ""%string)
  else
    fail_if (empty (PeerID c) && empty (PrivateKey c)) "peerId or privateKey is required";;
    id ← (if empty (PeerID c) then Ok ""%string
          else match peerDecode (PeerID c) with
               | Some id => Ok id | None => Err "invalid author peerId" end);
    if empty (PrivateKey c) then Ok (None, id)
    else
      match base64Decode (PrivateKey c) with
      | None => Err "privateKey must be base64 libp2p key bytes"
      | Some data =>
          match UnmarshalPrivateKey data with
          | None => Err "invalid libp2p privateKey"
          | Some key =>
              match IDFromPrivateKey key with
              | None => Err "derive author identity"
              | Some derived =>
                  fail_if (negb (empty id) && negb (bool_decide (id = derived)))
                    "author peerId does not match privateKey";;
                  Ok (Some key, derived)
              end
          end
      end.
End identity.
End PubSubAuthorConfig.

(** A JSON or YAML value: only whether it is a string matters. *)
Inductive AnyValue := AnyString (s : string) | AnyOther.

Module PubSubPublishConfig.
Record t := mk {
  ReadinessMinPeers : option Z; ReadinessTimeout : string; Local : option bool;
  ValidatorData : option (gmap string AnyValue); Author : option PubSubAuthorConfig.t }.
End PubSubPublishConfig.

Module PeerGaterConfig.
Record t := mk {
  Threshold : option float; GlobalDecay : option float; SourceDecay : option float;
  DecayInterval : string; DecayToZero : option float; RetainStats : string; Quiet : string;
  DuplicateWeight : option float; IgnoreWeight : option float; RejectWeight : option float;
  TopicDeliveryWeights : option (gmap string float) }.

(** [x < 1] and [x >= 1] *)
Definition belowOne (x : float) : bool := F64.ltb x F64.one.
Definition atLeastOne (x : float) : bool := F64.leb F64.one x.

Definition Validate (c : t) : res unit :=
  checkAll (λ '(name, value), Attacks.whenSome value (λ v,
      fail_if (negb (validNumber v) || F64.leb v F64.zero) (name +:+ " must be finite and positive");;
      fail_if (oneOf name ["globalDecay";"sourceDecay";"decayToZero"]%string && atLeastOne v)
        (name +:+ " must be below 1");;
      fail_if (oneOf name ["ignoreWeight";"rejectWeight"]%string && belowOne v)
        (name +:+ " must be at least 1")))
    [("threshold", Threshold c); ("globalDecay", GlobalDecay c); ("sourceDecay", SourceDecay c);
     ("decayToZero", DecayToZero c); ("duplicateWeight", DuplicateWeight c);
     ("ignoreWeight", IgnoreWeight c); ("rejectWeight", RejectWeight c)]%string;;
  checkAll (λ '(name, value),
      pubsubDuration name value false;;
      if negb (empty value) && negb (bool_decide (name = "retainStats"%string)) then
        fail_if (default 0 (Duration.parse value) <? Duration.Second)
          (name +:+ " must be at least 1s")
      else Ok tt)
    [("decayInterval", DecayInterval c); ("quiet", Quiet c); ("retainStats", RetainStats c)]%string;;
  checkMap (λ topic weight,
      fail_if (empty topic || negb (validNumber weight) || F64.leb weight F64.zero)
        "topicDeliveryWeights require nonempty topics and finite positive weights")
    (TopicDeliveryWeights c).
End PeerGaterConfig.

(** ** [GossipSubParamsConfig] *)
Module GossipSubParamsConfig.
Record t := mk {
  D : option Z; DLow : option Z; DHigh : option Z; DScore : option Z; DOut : option Z;
  DLazy : option Z; HistoryLength : option Z; HistoryGossip : option Z;
  GossipFactor : option float; GossipRetransmission : option Z;
  HeartbeatInitialDelay : string; HeartbeatInterval : string;
  SlowHeartbeatWarning : option float; FanoutTTL : string; PrunePeers : option Z;
  PruneBackoff : string; UnsubscribeBackoff : string; Connectors : option Z;
  MaxPendingConnections : option Z; ConnectionTimeout : string;
  DirectConnectTicks : option Z; DirectConnectInitialDelay : string;
  OpportunisticGraftTicks : option Z; OpportunisticGraftPeers : option Z;
  GraftFloodThreshold : string; MaxIHaveLength : option Z; MaxIHaveMessages : option Z;
  MaxIDontWantLength : option Z; MaxIDontWantMessages : option Z; IWantFollowupTime : string;
  IDontWantMessageThreshold : option Z; IDontWantMessageTTL : option Z;
  HopwaveFactor : option float; HopwaveInterval : option Z }.

Definition zero : t :=
  mk None None None None None None None None None None "" "" None "" None "" "" None None ""
    None "" None None "" None None None None "" None None None None.

(** [mergeNonZero] *)
Definition merge (d s : t) : t :=
  mk (nonnil (D s) (D d)) (nonnil (DLow s) (DLow d)) (nonnil (DHigh s) (DHigh d))
    (nonnil (DScore s) (DScore d)) (nonnil (DOut s) (DOut d)) (nonnil (DLazy s) (DLazy d))
    (nonnil (HistoryLength s) (HistoryLength d)) (nonnil (HistoryGossip s) (HistoryGossip d))
    (nonnil (GossipFactor s) (GossipFactor d))
    (nonnil (GossipRetransmission s) (GossipRetransmission d))
    (nonzero (HeartbeatInitialDelay s) (HeartbeatInitialDelay d))
    (nonzero (HeartbeatInterval s) (HeartbeatInterval d))
    (nonnil (SlowHeartbeatWarning s) (SlowHeartbeatWarning d))
    (nonzero (FanoutTTL s) (FanoutTTL d)) (nonnil (PrunePeers s) (PrunePeers d))
    (nonzero (PruneBackoff s) (PruneBackoff d))
    (nonzero (UnsubscribeBackoff s) (UnsubscribeBackoff d))
    (nonnil (Connectors s) (Connectors d))
    (nonnil (MaxPendingConnections s) (MaxPendingConnections d))
    (nonzero (ConnectionTimeout s) (ConnectionTimeout d))
    (nonnil (DirectConnectTicks s) (DirectConnectTicks d))
    (nonzero (DirectConnectInitialDelay s) (DirectConnectInitialDelay d))
    (nonnil (OpportunisticGraftTicks s) (OpportunisticGraftTicks d))
    (nonnil (OpportunisticGraftPeers s) (OpportunisticGraftPeers d))
    (nonzero (GraftFloodThreshold s) (GraftFloodThreshold d))
    (nonnil (MaxIHaveLength s) (MaxIHaveLength d)) (nonnil (MaxIHaveMessages s) (MaxIHaveMessages d))
    (nonnil (MaxIDontWantLength s) (MaxIDontWantLength d))
    (nonnil (MaxIDontWantMessages s) (MaxIDontWantMessages d))
    (nonzero (IWantFollowupTime s) (IWantFollowupTime d))
    (nonnil (IDontWantMessageThreshold s) (IDontWantMessageThreshold d))
    (nonnil (IDontWantMessageTTL s) (IDontWantMessageTTL d))
    (nonnil (HopwaveFactor s) (HopwaveFactor d)) (nonnil (HopwaveInterval s) (HopwaveInterval d)).

(** 0.25 and the binary64 number nearest to 0.1 *)
Definition quarter : float := F64.div F64.one (F64.of_Z 4).
Definition tenth : float := F64.div F64.one (F64.of_Z 10).

(** The defaults of [NodeConfig.WithDefaults]. *)
Definition WithDefaults (p : t) : t :=
  mk (orElse (D p) 6) (orElse (DLow p) 5) (orElse (DHigh p) 12) (orElse (DScore p) 4)
    (orElse (DOut p) 2) (orElse (DLazy p) 6) (orElse (HistoryLength p) 5)
    (orElse (HistoryGossip p) 3) (orElse (GossipFactor p) quarter)
    (orElse (GossipRetransmission p) 3)
    (orText (HeartbeatInitialDelay p) "100ms") (orText (HeartbeatInterval p) "1s")
    (orElse (SlowHeartbeatWarning p) tenth) (orText (FanoutTTL p) "1m")
    (orElse (PrunePeers p) 16) (orText (PruneBackoff p) "1m")
    (orText (UnsubscribeBackoff p) "10s") (orElse (Connectors p) 8)
    (orElse (MaxPendingConnections p) 128) (orText (ConnectionTimeout p) "30s")
    (orElse (DirectConnectTicks p) 300) (orText (DirectConnectInitialDelay p) "1s")
    (orElse (OpportunisticGraftTicks p) 60) (orElse (OpportunisticGraftPeers p) 2)
    (orText (GraftFloodThreshold p) "10s") (orElse (MaxIHaveLength p) 5000)
    (orElse (MaxIHaveMessages p) 10) (orElse (MaxIDontWantLength p) 10)
    (orElse (MaxIDontWantMessages p) 1000) (orText (IWantFollowupTime p) "3s")
    (orElse (IDontWantMessageThreshold p) (Z.shiftl 1 10)) (orElse (IDontWantMessageTTL p) 3)
    (orElse (HopwaveFactor p) F64.one) (orElse (HopwaveInterval p) 1).

(** [applyV2WorkerGossipDefaults] *)
Definition v2Worker (p : t) : t :=
  mk (D p) (Some 5) (DHigh p) (Some 3) (DOut p) (DLazy p) (HistoryLength p) (HistoryGossip p)
    (GossipFactor p) (GossipRetransmission p) "1s" (HeartbeatInterval p)
    (SlowHeartbeatWarning p) (FanoutTTL p) (PrunePeers p) (PruneBackoff p)
    (UnsubscribeBackoff p) (Connectors p) (MaxPendingConnections p) (ConnectionTimeout p)
    (DirectConnectTicks p) (DirectConnectInitialDelay p) (OpportunisticGraftTicks p)
    (OpportunisticGraftPeers p) (GraftFloodThreshold p) (Some 5500) (MaxIHaveMessages p)
    (MaxIDontWantLength p) (MaxIDontWantMessages p) (IWantFollowupTime p)
    (IDontWantMessageThreshold p) (IDontWantMessageTTL p) (HopwaveFactor p) (HopwaveInterval p).

(** The assignments of [DScore], and of [HistoryGossip] with [GossipFactor]. *)
Definition withDScore (v : Z) (p : t) : t :=
  mk (D p) (DLow p) (DHigh p) (Some v) (DOut p) (DLazy p) (HistoryLength p) (HistoryGossip p)
    (GossipFactor p) (GossipRetransmission p) (HeartbeatInitialDelay p) (HeartbeatInterval p)
    (SlowHeartbeatWarning p) (FanoutTTL p) (PrunePeers p) (PruneBackoff p)
    (UnsubscribeBackoff p) (Connectors p) (MaxPendingConnections p) (ConnectionTimeout p)
    (DirectConnectTicks p) (DirectConnectInitialDelay p) (OpportunisticGraftTicks p)
    (OpportunisticGraftPeers p) (GraftFloodThreshold p) (MaxIHaveLength p) (MaxIHaveMessages p)
    (MaxIDontWantLength p) (MaxIDontWantMessages p) (IWantFollowupTime p)
    (IDontWantMessageThreshold p) (IDontWantMessageTTL p) (HopwaveFactor p) (HopwaveInterval p).
Definition withGossip (history : option Z) (factor : option float) (p : t) : t :=
  mk (D p) (DLow p) (DHigh p) (DScore p) (DOut p) (DLazy p) (HistoryLength p) history factor
    (GossipRetransmission p) (HeartbeatInitialDelay p) (HeartbeatInterval p)
    (SlowHeartbeatWarning p) (FanoutTTL p) (PrunePeers p) (PruneBackoff p)
    (UnsubscribeBackoff p) (Connectors p) (MaxPendingConnections p) (ConnectionTimeout p)
    (DirectConnectTicks p) (DirectConnectInitialDelay p) (OpportunisticGraftTicks p)
    (OpportunisticGraftPeers p) (GraftFloodThreshold p) (MaxIHaveLength p) (MaxIHaveMessages p)
    (MaxIDontWantLength p) (MaxIDontWantMessages p) (IWantFollowupTime p)
    (IDontWantMessageThreshold p) (IDontWantMessageTTL p) (HopwaveFactor p) (HopwaveInterval p).

(** [if v != 0 && p.X == nil { p.X = &v }] *)
Definition promote (v : Z) (p : option Z) : option Z :=
  match p with Some _ => p | None => if v =? 0 then None else Some v end.

(** The degrees and the heartbeat of [promoteLegacy]. *)
Definition promoteLegacy (d dLow dHigh dOut dLazy : Z) (heartbeat : string) (p : t) : t :=
  mk (promote d (D p)) (promote dLow (DLow p)) (promote dHigh (DHigh p)) (DScore p)
    (promote dOut (DOut p)) (promote dLazy (DLazy p)) (HistoryLength p) (HistoryGossip p)
    (GossipFactor p) (GossipRetransmission p) (HeartbeatInitialDelay p)
    (if empty (HeartbeatInterval p) then heartbeat else HeartbeatInterval p)
    (SlowHeartbeatWarning p) (FanoutTTL p) (PrunePeers p) (PruneBackoff p)
    (UnsubscribeBackoff p) (Connectors p) (MaxPendingConnections p) (ConnectionTimeout p)
    (DirectConnectTicks p) (DirectConnectInitialDelay p) (OpportunisticGraftTicks p)
    (OpportunisticGraftPeers p) (GraftFloodThreshold p) (MaxIHaveLength p) (MaxIHaveMessages p)
    (MaxIDontWantLength p) (MaxIDontWantMessages p) (IWantFollowupTime p)
    (IDontWantMessageThreshold p) (IDontWantMessageTTL p) (HopwaveFactor p) (HopwaveInterval p).
End GossipSubParamsConfig.

(** ** [GossipSubConfig] *)
Module GossipSubConfig.
Record t := mk {
  MessageID : string;
  TopicOptions : option (gmap string PubSubTopicConfig.t);
  PeerFilter : option PubSubPeerFilterConfig.t;
  DirectPeers : slice string;
  PeerGater : option PeerGaterConfig.t;
  SubscriptionFilter : option PubSubSubscriptionFilterConfig.t;
  SeenMessagesStrategy : string;
  Protocols : slice PubSubProtocolConfig.t;
  ProtocolMatch : string;
  Blacklist : option PubSubBlacklistConfig.t;
  DefaultValidators : slice PubSubValidatorConfig.t;
  RPCInspector : option PubSubRPCInspectorConfig.t;
  Discovery : option PubSubDiscoveryConfig.t;
  Author : option PubSubAuthorConfig.t;
  Publish : option PubSubPublishConfig.t;
  Enabled : option bool;
  Router : string;
  Hopwave : option bool;
  MeshFreeze : option bool;
  TopicMode : string;
  RandomDegree : option Z;
  RandomNetworkSize : option Z;
  Subscribe : option bool;
  AllowPublish : option bool;
  Topics : slice string;
  Params : GossipSubParamsConfig.t;
  Score : option PeerScoreConfig.t;
  ScoreInspectInterval : string;
  FloodPublish : option bool;
  PeerExchange : option bool;
  MaxMessageSize : option Z;
  PeerOutboundQueueSize : option Z;
  SignaturePolicy : string;
  SeenMessagesTTL : string;
  ValidateQueueSize : option Z;
  ValidateThrottle : option Z;
  ValidateWorkers : option Z;
  SubscriptionBufferSize : option Z }.

Definition zero : t :=
  mk "" None None None None None "" None "" None None None None None None None "" None None ""
    None None None None None GossipSubParamsConfig.zero None "" None None None None "" "" None
    None None None.

(** [mergeNonZero] *)
Definition merge (d s : t) : t :=
  mk (nonzero (MessageID s) (MessageID d)) (nonnil (TopicOptions s) (TopicOptions d))
    (nonnil (PeerFilter s) (PeerFilter d)) (nonnil (DirectPeers s) (DirectPeers d))
    (nonnil (PeerGater s) (PeerGater d)) (nonnil (SubscriptionFilter s) (SubscriptionFilter d))
    (nonzero (SeenMessagesStrategy s) (SeenMessagesStrategy d))
    (nonnil (Protocols s) (Protocols d)) (nonzero (ProtocolMatch s) (ProtocolMatch d))
    (nonnil (Blacklist s) (Blacklist d)) (nonnil (DefaultValidators s) (DefaultValidators d))
    (nonnil (RPCInspector s) (RPCInspector d)) (nonnil (Discovery s) (Discovery d))
    (nonnil (Author s) (Author d)) (nonnil (Publish s) (Publish d))
    (nonnil (Enabled s) (Enabled d)) (nonzero (Router s) (Router d))
    (nonnil (Hopwave s) (Hopwave d)) (nonnil (MeshFreeze s) (MeshFreeze d))
    (nonzero (TopicMode s) (TopicMode d)) (nonnil (RandomDegree s) (RandomDegree d))
    (nonnil (RandomNetworkSize s) (RandomNetworkSize d)) (nonnil (Subscribe s) (Subscribe d))
    (nonnil (AllowPublish s) (AllowPublish d)) (nonnil (Topics s) (Topics d))
    (GossipSubParamsConfig.merge (Params d) (Params s)) (nonnil (Score s) (Score d))
    (nonzero (ScoreInspectInterval s) (ScoreInspectInterval d))
    (nonnil (FloodPublish s) (FloodPublish d)) (nonnil (PeerExchange s) (PeerExchange d))
    (nonnil (MaxMessageSize s) (MaxMessageSize d))
    (nonnil (PeerOutboundQueueSize s) (PeerOutboundQueueSize d))
    (nonzero (SignaturePolicy s) (SignaturePolicy d))
    (nonzero (SeenMessagesTTL s) (SeenMessagesTTL d))
    (nonnil (ValidateQueueSize s) (ValidateQueueSize d))
    (nonnil (ValidateThrottle s) (ValidateThrottle d))
    (nonnil (ValidateWorkers s) (ValidateWorkers d))
    (nonnil (SubscriptionBufferSize s) (SubscriptionBufferSize d)).

Definition withTopics (topics : slice string) (params : GossipSubParamsConfig.t) (c : t) : t :=
  mk (MessageID c) (TopicOptions c) (PeerFilter c) (DirectPeers c) (PeerGater c)
    (SubscriptionFilter c) (SeenMessagesStrategy c) (Protocols c) (ProtocolMatch c) (Blacklist c)
    (DefaultValidators c) (RPCInspector c) (Discovery c) (Author c) (Publish c) (Enabled c)
    (Router c) (Hopwave c) (MeshFreeze c) (TopicMode c) (RandomDegree c) (RandomNetworkSize c)
    (Subscribe c) (AllowPublish c) topics params (Score c) (ScoreInspectInterval c)
    (FloodPublish c) (PeerExchange c) (MaxMessageSize c) (PeerOutboundQueueSize c)
    (SignaturePolicy c) (SeenMessagesTTL c) (ValidateQueueSize c) (ValidateThrottle c)
    (ValidateWorkers c) (SubscriptionBufferSize c).

Definition withTopicMode (mode : string) (c : t) : t :=
  mk (MessageID c) (TopicOptions c) (PeerFilter c) (DirectPeers c) (PeerGater c)
    (SubscriptionFilter c) (SeenMessagesStrategy c) (Protocols c) (ProtocolMatch c) (Blacklist c)
    (DefaultValidators c) (RPCInspector c) (Discovery c) (Author c) (Publish c) (Enabled c)
    (Router c) (Hopwave c) (MeshFreeze c) mode (RandomDegree c) (RandomNetworkSize c)
    (Subscribe c) (AllowPublish c) (Topics c) (Params c) (Score c) (ScoreInspectInterval c)
    (FloodPublish c) (PeerExchange c) (MaxMessageSize c) (PeerOutboundQueueSize c)
    (SignaturePolicy c) (SeenMessagesTTL c) (ValidateQueueSize c) (ValidateThrottle c)
    (ValidateWorkers c) (SubscriptionBufferSize c).

(** The GossipSub part of [NodeConfig.WithDefaults]. *)
Definition defaultTopicMode (c : t) : string :=
  if empty (TopicMode c) then
    (if ptr negb (Subscribe c) then "publish" else "subscribe") else TopicMode c.
Definition defaultTopics (c : t) : slice string :=
  if noElems (Topics c) then Some ["kpl/default"%string] else Topics c.
Definition WithDefaults (c : t) : t :=
  let score := PeerScoreConfig.WithDefaults <$> Score c in
  mk (MessageID c) (TopicOptions c) (PeerFilter c) (DirectPeers c) (PeerGater c)
    (SubscriptionFilter c) (SeenMessagesStrategy c) (Protocols c) (ProtocolMatch c) (Blacklist c)
    (DefaultValidators c) (RPCInspector c) (Discovery c) (Author c) (Publish c)
    (orElse (Enabled c) true) (orText (Router c) "gossipsub") (Hopwave c) (MeshFreeze c)
    (defaultTopicMode c) (RandomDegree c) (RandomNetworkSize c)
    (Some (bool_decide (defaultTopicMode c = "subscribe"%string))) (orElse (AllowPublish c) true)
    (defaultTopics c) (GossipSubParamsConfig.WithDefaults (Params c)) score
    (if ptr PeerScoreConfig.IsEnabled score then orText (ScoreInspectInterval c) "1s"
     else ScoreInspectInterval c)
    (FloodPublish c) (PeerExchange c) (MaxMessageSize c) (PeerOutboundQueueSize c)
    (SignaturePolicy c) (SeenMessagesTTL c) (ValidateQueueSize c) (ValidateThrottle c)
    (ValidateWorkers c) (SubscriptionBufferSize c).

(** ** [ValidateExtended], one definition per policy *)
Definition validateMessageID (value : string) : res unit :=
  fail_if (negb (oneOf value ["";"default";"sha256";"topic-sha256"]%string))
    "invalid messageId policy".

(** [c.Router != "" && c.Router != "gossipsub"] *)
Definition otherRouter (c : t) : bool := negb (oneOf (Router c) ["";"gossipsub"]%string).

Section extended.
Context `{PeerCodec} `{PubSubLib}.

Definition validatePeerIDs (values : list string) : res unit :=
  checkAll (λ value, fail_if (isNil (peerDecode value)) "invalid peer ID") values.

(** The loop over the features of a protocol, with the set [seen] it builds. *)
Fixpoint featuresLoop (seen : gset string) (l : list string) : res (gset string) :=
  match l with
  | [] => Ok seen
  | f :: l =>
      fail_if (negb (oneOf f ["none";"mesh";"px";"idontwant"]%string))
        "unknown GossipSub protocol feature";;
      fail_if (bool_decide (f ∈ seen)) "duplicate protocol feature";;
      featuresLoop ({[f]} ∪ seen) l
  end.

Definition validateProtocol (router : string) (seenProtocols : gset string)
    (p : PubSubProtocolConfig.t) : res unit :=
  let id := PubSubProtocolConfig.ID p in
  fail_if (negb (HasPrefix id "/") || negb (bool_decide (TrimSpace id = id)) ||
           bool_decide (id ∈ seenProtocols))
    "protocol IDs must be unique, nonempty, slash-prefixed strings";;
  fail_if (bool_decide (router = "floodsub"%string) &&
           negb (noElems (PubSubProtocolConfig.Features p)))
    "floodsub protocols cannot enable GossipSub features";;
  seen ← featuresLoop ∅ (elems (PubSubProtocolConfig.Features p));
  fail_if (bool_decide ("none"%string ∈ seen) && (1 <? size seen)%nat)
    "protocol feature none cannot be combined with capabilities";;
  fail_if ((bool_decide ("px"%string ∈ seen) || bool_decide ("idontwant"%string ∈ seen)) &&
           negb (bool_decide ("mesh"%string ∈ seen)))
    "protocol px/idontwant features require mesh".

Fixpoint protocolsLoop (router : string) (seenProtocols : gset string)
    (l : list PubSubProtocolConfig.t) : res unit :=
  match l with
  | [] => Ok tt
  | p :: l =>
      validateProtocol router seenProtocols p;;
      protocolsLoop router ({[PubSubProtocolConfig.ID p]} ∪ seenProtocols) l
  end.

Definition validateProtocols (c : t) : res unit :=
  fail_if (negb (oneOf (ProtocolMatch c) ["";"exact";"prefix"]%string)) "invalid protocolMatch";;
  fail_if (bool_decide (ProtocolMatch c = "prefix"%string) && noElems (Protocols c))
    "protocolMatch prefix requires explicit protocols";;
  fail_if (otherRouter c && (negb (noElems (DirectPeers c)) || negb (isNil (PeerGater c))))
    "directPeers and peerGater require the gossipsub router";;
  fail_if (bool_decide (Router c = "randomsub"%string) && negb (noElems (Protocols c)))
    "custom protocols are unavailable for randomsub";;
  protocolsLoop (Router c) ∅ (elems (Protocols c)).

Definition validateDirectPeers (c : t) : res unit :=
  checkAll (λ raw,
    match NewMultiaddr raw with
    | None => Err "invalid direct peer multiaddr"
    | Some address =>
        fail_if (match AddrInfoFromP2pAddr address with
                 | Some (_, addrs) => (addrs =? 0)%nat | None => true end)
          "directPeers require transport multiaddrs ending in /p2p/<peer ID>"
    end) (elems (DirectPeers c)).

Definition validatePeerFilter (f : PubSubPeerFilterConfig.t) : res unit :=
  wrap "peerFilter" (validatePeerIDs
    (elems (PubSubPeerFilterConfig.Allow f) ++ elems (PubSubPeerFilterConfig.Deny f)));;
  checkMap (λ topic rule,
    fail_if (empty topic) "peerFilter topic cannot be empty";;
    wrap "peerFilter topic" (validatePeerIDs (elems (RuleAllow rule) ++ elems (RuleDeny rule))))
    (PubSubPeerFilterConfig.Topics f).

Definition validateBlacklist (b : PubSubBlacklistConfig.t) : res unit :=
  wrap "blacklist" (validatePeerIDs (elems (PubSubBlacklistConfig.Peers b)));;
  pubsubDuration "blacklist.ttl" (PubSubBlacklistConfig.TTL b) true.

Definition validateSubscriptionFilter (topics : slice string)
    (f : PubSubSubscriptionFilterConfig.t) : res unit :=
  let allowlist := elems (PubSubSubscriptionFilterConfig.Allowlist f) in
  let pattern := PubSubSubscriptionFilterConfig.Pattern f in
  fail_if (negb (length allowlist =? 0)%nat && negb (empty pattern))
    "subscriptionFilter allowlist and pattern are mutually exclusive";;
  rx ← (if empty pattern then Ok None
        else match regexpCompile pattern with
             | Some rx => Ok (Some rx) | None => Err "subscriptionFilter.pattern" end
        : res (option Regexp));
  fail_if (notPositiveInt (PubSubSubscriptionFilterConfig.MaxSubscriptions f))
    "subscriptionFilter.maxSubscriptions must be positive";;
  checkAll (λ topic,
    fail_if (ptr (λ rx, negb (MatchString rx topic)) rx)
      "subscriptionFilter excludes joined topic";;
    fail_if ((0 <? length allowlist)%nat && negb (pubsubContains allowlist topic))
      "subscriptionFilter excludes joined topic") (elems topics).

(** [v.BasicSeqno && c.SignaturePolicy != "" && c.SignaturePolicy != "strict-sign"] *)
Definition badSeqno (c : t) (v : PubSubValidatorConfig.t) : bool :=
  PubSubValidatorConfig.BasicSeqno v && negb (oneOf (SignaturePolicy c) ["";"strict-sign"]%string).

Definition validateTopicOption (c : t) (topic : string) (options : PubSubTopicConfig.t) :
    res unit :=
  let buffer := PubSubTopicConfig.SubscriptionBufferSize options in
  fail_if (negb (pubsubContains (elems (Topics c)) topic))
    "topicOptions refers to unjoined topic";;
  wrap "topicOptions" (validateMessageID (PubSubTopicConfig.MessageID options));;
  fail_if (negative buffer) "topicOptions subscriptionBufferSize cannot be negative";;
  fail_if (negb (isNil buffer) && negb (oneOf (TopicMode c) ["";"subscribe"]%string))
    "topic subscriptionBufferSize requires subscribe topicMode";;
  Attacks.whenSome (PubSubTopicConfig.Validator options) (λ v,
    fail_if (badSeqno c v) "basicSeqno validator requires strict-sign";;
    wrap "topicOptions validator" (PubSubValidatorConfig.Validate v)).

Definition validateDefaultValidator (c : t) (v : PubSubValidatorConfig.t) : res unit :=
  fail_if (badSeqno c v) "basicSeqno validator requires strict-sign";;
  wrap "defaultValidators" (PubSubValidatorConfig.Validate v).

Definition validateRPCInspector (r : PubSubRPCInspectorConfig.t) : res unit :=
  checkAll (λ '(name, value), fail_if (negative value) ("rpcInspector." +:+ name))
    [("maxMessages", PubSubRPCInspectorConfig.MaxMessages r);
     ("maxSubscriptions", PubSubRPCInspectorConfig.MaxSubscriptions r);
     ("maxControlEntries", PubSubRPCInspectorConfig.MaxControlEntries r);
     ("maxMessageIds", PubSubRPCInspectorConfig.MaxMessageIDs r);
     ("maxBytes", PubSubRPCInspectorConfig.MaxBytes r)]%string;;
  wrap "rpcInspector" (validatePeerIDs (elems (PubSubRPCInspectorConfig.RejectPeers r))).

(** [c.TopicOptions[topic]]: the zero value for a missing topic *)
Definition topicOption (c : t) (topic : string) : PubSubTopicConfig.t :=
  default PubSubTopicConfig.zero (default ∅ (TopicOptions c) !! topic).

Definition unsigned (c : t) : bool := oneOf (SignaturePolicy c) ["strict-no-sign";"lax-no-sign"]%string.

Definition validateAuthor (c : t) (a : PubSubAuthorConfig.t) : res unit :=
  wrap "author" (PubSubAuthorConfig.Identity a;; Ok tt);;
  if PubSubAuthorConfig.NoAuthor a then
    fail_if (negb (unsigned c)) "author.noAuthor requires an unsigned signaturePolicy";;
    checkAll (λ topic,
      let override := PubSubTopicConfig.MessageID (topicOption c topic) in
      let mode := if empty override then MessageID c else override in
      fail_if (oneOf mode ["";"default"]%string)
        "author.noAuthor requires a content messageId policy on every topic") (elems (Topics c))
  else Ok tt.

(** [p.ValidatorData["result"].(string)] *)
Definition dataResult (m : gmap string AnyValue) : option string :=
  match m !! "result"%string with Some (AnyString s) => Some s | _ => None end.

Definition validatorDataEnabled (c : t) : bool :=
  existsb PubSubValidatorConfig.UseValidatorData (elems (DefaultValidators c)) ||
  existsb (λ topic, ptr PubSubValidatorConfig.UseValidatorData
                      (PubSubTopicConfig.Validator (topicOption c topic))) (elems (Topics c)).

Definition validatePublish (c : t) (p : PubSubPublishConfig.t) : res unit :=
  let timeout := PubSubPublishConfig.ReadinessTimeout p in
  let data := default ∅ (PubSubPublishConfig.ValidatorData p) in
  fail_if (negative (PubSubPublishConfig.ReadinessMinPeers p))
    "publish.readinessMinPeers cannot be negative";;
  pubsubDuration "publish.readinessTimeout" timeout true;;
  (if negb (empty timeout) then
     fail_if (10 * Duration.Second <? default 0 (Duration.parse timeout))
       "publish.readinessTimeout cannot exceed the 10s publish request budget"
   else Ok tt);;
  fail_if (negb (empty timeout) && isNil (PubSubPublishConfig.ReadinessMinPeers p))
    "publish.readinessTimeout requires readinessMinPeers";;
  Attacks.whenSome (PubSubPublishConfig.Author p) (λ a,
    fail_if (isTrue (PubSubPublishConfig.Local p))
      "publish.author cannot be combined with local publication";;
    fail_if (PubSubAuthorConfig.NoAuthor a || empty (PubSubAuthorConfig.PrivateKey a))
      "publish.author requires a privateKey and cannot omit author";;
    wrap "publish.author" (PubSubAuthorConfig.Identity a;; Ok tt);;
    fail_if (unsigned c || ptr PubSubAuthorConfig.NoAuthor (Author c))
      "publish.author requires a signing signaturePolicy");;
  if negb (size data =? 0)%nat then
    fail_if (negb (validatorDataEnabled c))
      "publish.validatorData requires a validator with useValidatorData";;
    fail_if (match dataResult data with
             | Some result => negb (pubsubContains ["accept";"reject";"ignore"]%string result)
             | None => true end)
      "publish.validatorData.result must be accept, reject, or ignore"
  else Ok tt.

Definition ValidateExtended (c : t) : res unit :=
  fail_if (isTrue (MeshFreeze c) && otherRouter c) "meshFreeze requires the gossipsub router";;
  fail_if (isTrue (Hopwave c) && otherRouter c) "hopwave requires the gossipsub router";;
  validateMessageID (MessageID c);;
  fail_if (negb (oneOf (SeenMessagesStrategy c) ["";"first-seen";"last-seen"]%string))
    "invalid seenMessagesStrategy";;
  validateProtocols c;;
  validateDirectPeers c;;
  Attacks.whenSome (PeerFilter c) validatePeerFilter;;
  Attacks.whenSome (Blacklist c) validateBlacklist;;
  Attacks.whenSome (SubscriptionFilter c) (validateSubscriptionFilter (Topics c));;
  checkMap (validateTopicOption c) (TopicOptions c);;
  checkAll (validateDefaultValidator c) (elems (DefaultValidators c));;
  Attacks.whenSome (RPCInspector c) validateRPCInspector;;
  Attacks.whenSome (PeerGater c) (λ g, wrap "peerGater" (PeerGaterConfig.Validate g));;
  Attacks.whenSome (Discovery c) (λ d, wrap "discovery" (PubSubDiscoveryConfig.Validate d));;
  Attacks.whenSome (Author c) (validateAuthor c);;
  Attacks.whenSome (Publish c) (validatePublish c).
End extended.
End GossipSubConfig.
