(* ===== verification/PeerGossipSub.v ===== *)
(** * Building PubSub from a node's configuration

    [internal/peer/gossipsub_config.go] and [gossipsub_policies.go]: the options a
    Peer passes to the library, and what the library checks while it applies them
    ([third_party/go-libp2p-pubsub]: the [With*] options, [NewMessageCache],
    [validateHopwaveParams], [PeerGaterParams.validate],
    [GossipSubRuntimeParams.Validate]).

    An option is its constructor with the data the library checks; callbacks are
    the configuration they close over.  [make(chan T, n)] panics on a negative
    [n]; memory is not bounded. *)
From Stdlib Require Import ZArith Lia.
From stdpp Require Import strings list gmap.
From S2P Require Import Prelude.
From S2P Require Import GoStd.
From S2P Require Import GoStrings.
From S2P Require Import Network.
From S2P Require Import Attacks.
From S2P Require Import PeerScore.
From S2P Require Import GossipSubConfig.
Open Scope Z_scope.

(** ** The library's parameters *)
Module GossipSubParams.
Record t := mk {
  D : Z; Dlo : Z; Dhi : Z; Dscore : Z; Dout : Z; Dlazy : Z; HistoryLength : Z; HistoryGossip : Z;
  GossipFactor : float; GossipRetransmission : Z; HeartbeatInitialDelay : Z;
  HeartbeatInterval : Z; SlowHeartbeatWarning : float; FanoutTTL : Z; PrunePeers : Z;
  PruneBackoff : Z; UnsubscribeBackoff : Z; Connectors : Z; MaxPendingConnections : Z;
  ConnectionTimeout : Z; DirectConnectTicks : Z; DirectConnectInitialDelay : Z;
  OpportunisticGraftTicks : Z; OpportunisticGraftPeers : Z; GraftFloodThreshold : Z;
  MaxIHaveLength : Z; MaxIHaveMessages : Z; MaxIDontWantLength : Z; MaxIDontWantMessages : Z;
  IWantFollowupTime : Z; IDontWantMessageThreshold : Z; IDontWantMessageTTL : Z;
  HopwaveFactor : float; HopwaveInterval : Z }.

(** [DefaultGossipSubParams] *)
Definition Default : t :=
  mk 6 5 12 4 2 6 5 3 GossipSubParamsConfig.quarter 3 (100 * Duration.Millisecond)
    Duration.Second GossipSubParamsConfig.tenth (60 * Duration.Second) 16
    Duration.Minute (10 * Duration.Second) 8 128 (30 * Duration.Second) 300 Duration.Second 60 2
    (10 * Duration.Second) 5000 10 10 1000 (3 * Duration.Second) 1024 3 F64.one 1.
End GossipSubParams.

(** [validateHopwaveParams] *)
Definition validateHopwaveParams (p : GossipSubParams.t) : res unit :=
  let f := GossipSubParams.HopwaveFactor p in
  fail_if (F64.isNaN f || F64.isInf f || neg f || F64.ltb F64.one f)
    "HopwaveFactor must be finite and in [0, 1]";;
  fail_if ((GossipSubParams.HopwaveInterval p <? 1) ||
           (MaxInt32 <? GossipSubParams.HopwaveInterval p))
    "HopwaveInterval must be in [1, 2147483647]".

(** [NewMessageCache] panics unless the gossip slots fit in the history. *)
Definition NewMessageCache (gossip history : Z) : res unit :=
  if history <? gossip then Panic else if history <? 0 then Panic else Ok tt.

(** [make(chan T, n)] *)
Definition makeChan (n : Z) : res unit := if n <? 0 then Panic else Ok tt.

Module GossipSubRuntimeParams.
Record t := mk {
  D : Z; Dlo : Z; Dhi : Z; Dscore : Z; Dout : Z; Dlazy : Z; GossipFactor : float;
  HopwaveFactor : float; HopwaveInterval : Z }.

Definition Validate (v : t) : res unit :=
  fail_if ((D v <=? 0) || (Dlo v <? 0) || (Dhi v <=? 0) || (D v <? Dlo v) || (Dhi v <? D v) ||
           (Dscore v <? 0) || (D v <? Dscore v) || (Dout v <? 0) || (Dlo v <=? Dout v) ||
           (Z.quot (D v) 2 <? Dout v) || (Dlazy v <? 0))
    "invalid runtime GossipSub degree bounds";;
  checkAll (λ factor,
      fail_if (F64.isNaN factor || F64.isInf factor || neg factor || F64.ltb F64.one factor)
        "runtime GossipSub factors must be finite and in [0, 1]")
    [GossipFactor v; HopwaveFactor v];;
  fail_if ((HopwaveInterval v <? 1) || (2147483647 <? HopwaveInterval v))
    "runtime HopwaveInterval must be in [1, 2147483647]".

(** The values [executeProfileUpdate] takes from the updated configuration. *)
Definition ofConfig (p : GossipSubParamsConfig.t) : res t :=
  d ← deref (GossipSubParamsConfig.D p);
  dlo ← deref (GossipSubParamsConfig.DLow p);
  dhi ← deref (GossipSubParamsConfig.DHigh p);
  dscore ← deref (GossipSubParamsConfig.DScore p);
  dout ← deref (GossipSubParamsConfig.DOut p);
  dlazy ← deref (GossipSubParamsConfig.DLazy p);
  gossipFactor ← deref (GossipSubParamsConfig.GossipFactor p);
  hopwaveFactor ← deref (GossipSubParamsConfig.HopwaveFactor p);
  hopwaveInterval ← deref (GossipSubParamsConfig.HopwaveInterval p);
  Ok (mk d dlo dhi dscore dout dlazy gossipFactor hopwaveFactor hopwaveInterval).
End GossipSubRuntimeParams.

(** ** The peer gater *)
Class Pow := { pow : float → float → float }.

Module PeerGaterParams.
Record t := mk {
  Threshold : float; GlobalDecay : float; SourceDecay : float; DecayInterval : Z;
  DecayToZero : float; RetainStats : Z; Quiet : Z; DuplicateWeight : float;
  IgnoreWeight : float; RejectWeight : float; TopicDeliveryWeights : option (gmap string float) }.

(** [p.X <= 0 || p.X >= 1] *)
Definition outsideUnit (x : float) : bool := F64.leb x F64.zero || F64.leb F64.one x.

Definition validate (p : t) : res unit :=
  fail_if (F64.leb (Threshold p) F64.zero) "invalid Threshold; must be > 0";;
  fail_if (outsideUnit (GlobalDecay p)) "invalid GlobalDecay; must be between 0 and 1";;
  fail_if (outsideUnit (SourceDecay p)) "invalid SourceDecay; must be between 0 and 1";;
  fail_if (DecayInterval p <? Duration.Second) "invalid DecayInterval; must be at least 1s";;
  fail_if (outsideUnit (DecayToZero p)) "invalid DecayToZero; must be between 0 and 1";;
  fail_if (Quiet p <? Duration.Second) "invalud Quiet interval; must be at least 1s";;
  fail_if (F64.leb (DuplicateWeight p) F64.zero) "invalid DuplicateWeight; must be > 0";;
  fail_if (F64.ltb (IgnoreWeight p) F64.one) "invalid IgnoreWeight; must be >= 1";;
  fail_if (F64.ltb (RejectWeight p) F64.one) "invalud RejectWeight; must be >= 1".

Section defaults.
Context `{Pow}.
(** [ScoreParameterDecay]: decay to 0.01 over [decay], in ticks of a second. *)
Definition ScoreParameterDecay (decay : Z) : float :=
  let ticks := F64.of_Z (Z.quot decay Duration.Second) in
  pow PeerScoreConfig.centi (F64.div F64.one ticks).

(** 0.33, 0.125 *)
Definition defaultThreshold : float := F64.div (F64.of_Z 33) (F64.of_Z 100).
Definition eighth : float := F64.div F64.one (F64.of_Z 8).

(** [DefaultPeerGaterParams] *)
Definition Default : t :=
  mk defaultThreshold (ScoreParameterDecay (2 * Duration.Minute))
    (ScoreParameterDecay Duration.Hour) Duration.Second PeerScoreConfig.centi (6 * Duration.Hour)
    Duration.Minute eighth F64.one (F64.of_Z 16) None.

(** [gossipPeerGater] *)
Definition orFloat (p : option float) (d : float) : float := default d p.
Definition orDuration (s : string) (d : Z) : Z :=
  if empty s then d else default 0 (Duration.parse s).
Definition gossipPeerGater (c : PeerGaterConfig.t) : t :=
  let p := Default in
  mk (orFloat (PeerGaterConfig.Threshold c) (Threshold p))
    (orFloat (PeerGaterConfig.GlobalDecay c) (GlobalDecay p))
    (orFloat (PeerGaterConfig.SourceDecay c) (SourceDecay p))
    (orDuration (PeerGaterConfig.DecayInterval c) (DecayInterval p))
    (orFloat (PeerGaterConfig.DecayToZero c) (DecayToZero p))
    (orDuration (PeerGaterConfig.RetainStats c) (RetainStats p))
    (orDuration (PeerGaterConfig.Quiet c) (Quiet p))
    (orFloat (PeerGaterConfig.DuplicateWeight c) (DuplicateWeight p))
    (orFloat (PeerGaterConfig.IgnoreWeight c) (IgnoreWeight p))
    (orFloat (PeerGaterConfig.RejectWeight c) (RejectWeight p))
    (PeerGaterConfig.TopicDeliveryWeights c).
End defaults.
End PeerGaterParams.

(** ** Options *)
Inductive SignaturePolicy := StrictSign | StrictNoSign | LaxSign | LaxNoSign.

Inductive PubSubOption `{CIDRs} :=
  | WithMessageIdFn (mode : string)
  | WithSeenMessagesStrategy (lastSeen : bool)
  | WithPeerFilter (filter : PubSubPeerFilterConfig.t)
  | WithSubscriptionFilter (filter : PubSubSubscriptionFilterConfig.t)
  | WithBlacklist (ttl : Z) (peers : gset string)
  | WithProtocolMatchFn (prefix : bool)
  | WithAppSpecificRpcInspector (inspector : PubSubRPCInspectorConfig.t)
  | WithDefaultValidator (validator : PubSubValidatorConfig.t)
  | WithGossipSubProtocols (ids : list string)
  | WithDirectPeers (peers : gmap string nat)
  | WithPeerGater (params : PeerGaterParams.t)
  | WithEventTracer
  | WithMeshFreeze
  | WithHopwavePublish (enabled : bool)
  | WithPeerOutboundQueueSize (n : Z)
  | WithMaxMessageSize (n : Z)
  | WithValidateQueueSize (n : Z)
  | WithValidateThrottle (n : Z)
  | WithValidateWorkers (n : Z)
  | WithSeenMessagesTTL (ttl : Z)
  | WithMessageSignaturePolicy (policy : SignaturePolicy)
  | WithFloodPublish (enabled : bool)
  | WithPeerExchange (enabled : bool)
  | WithGossipSubParams (params : GossipSubParams.t)
  | WithPeerScore (score : PeerScoreParams.t) (thresholds : PubSubThresholds.t).

(** The part of the PubSub under construction that an option reads or writes
    and a later option checks. *)
Record Building := mkBuilding {
  gossipRouter : bool; params : GossipSubParams.t; hopwavePublish : bool }.

Section apply.
Context `{CIDRs}.

(** [gs, ok := ps.rt.( *GossipSubRouter); if !ok { return error }] *)
Definition needsGossip (b : Building) : res unit :=
  fail_if (negb (gossipRouter b)) "pubsub router is not gossipsub".

(** [opt(ps)] *)
Definition applyOption (b : Building) (o : PubSubOption) : res Building :=
  match o with
  | WithMessageIdFn _ | WithSeenMessagesStrategy _ | WithPeerFilter _
  | WithSubscriptionFilter _ | WithBlacklist _ _ | WithProtocolMatchFn _
  | WithAppSpecificRpcInspector _ | WithEventTracer | WithMaxMessageSize _
  | WithSeenMessagesTTL _ | WithMessageSignaturePolicy _ => Ok b
  | WithDefaultValidator v =>
      (** [makeValidator]: a positive concurrency sizes the throttle *)
      (match PubSubValidatorConfig.Concurrency v with
       | Some n => if 0 <? n then makeChan n else Ok tt
       | None => Ok tt
       end);; Ok b
  | WithGossipSubProtocols _ | WithDirectPeers _ | WithMeshFreeze
  | WithFloodPublish _ | WithPeerExchange _ => needsGossip b;; Ok b
  | WithPeerGater p => needsGossip b;; PeerGaterParams.validate p;; Ok b
  | WithHopwavePublish enabled =>
      needsGossip b;;
      (if (enabled : bool) then validateHopwaveParams (params b) else Ok tt);;
      Ok (mkBuilding (gossipRouter b) (params b) enabled)
  | WithPeerOutboundQueueSize n =>
      fail_if (n <=? 0) "outbound queue size must always be positive";; Ok b
  | WithValidateQueueSize n =>
      (if 0 <? n then makeChan n else Err "validate queue size must be > 0");; Ok b
  | WithValidateThrottle n => makeChan n;; Ok b
  | WithValidateWorkers n => fail_if (n <=? 0) "number of validation workers must be > 0";; Ok b
  | WithGossipSubParams p =>
      needsGossip b;;
      (if hopwavePublish b then validateHopwaveParams p else Ok tt);;
      makeChan (GossipSubParams.MaxPendingConnections p);;
      NewMessageCache (GossipSubParams.HistoryGossip p) (GossipSubParams.HistoryLength p);;
      Ok (mkBuilding (gossipRouter b) p (hopwavePublish b))
  | WithPeerScore score thresholds =>
      needsGossip b;;
      PeerScoreParams.validate score;; PubSubThresholds.validate thresholds;; Ok b
  end.

(** The loop of [NewPubSub] over the options. *)
Fixpoint applyOptions (b : Building) (l : list PubSubOption) : res Building :=
  match l with
  | [] => Ok b
  | o :: l => b ← applyOption b o; applyOptions b l
  end.

(** [DefaultGossipSubRouter], or another router. *)
Definition newBuilding (router : string) : Building :=
  mkBuilding (bool_decide (router = "gossipsub"%string)) GossipSubParams.Default false.
End apply.

(** ** The options of a configuration *)
Section options.
Context `{PeerCodec} `{CIDRs} `{PubSubLib} `{Pow}.

(** [regexp.MustCompile] *)
Definition MustCompile (pattern : string) : res unit :=
  match regexpCompile pattern with Some _ => Ok tt | None => Panic end.

(** [gossipPeerSet]: the decodable IDs. *)
Definition gossipPeerSet (values : list string) : gset string :=
  list_to_set (omap peerDecode values).

(** [gossipSubscriptionFilter] compiles its pattern when there is no allowlist. *)
Definition gossipSubscriptionFilter (c : PubSubSubscriptionFilterConfig.t) : res PubSubOption :=
  (if negb (noElems (PubSubSubscriptionFilterConfig.Allowlist c)) then Ok tt
   else MustCompile (let pattern := PubSubSubscriptionFilterConfig.Pattern c in
                     if empty pattern then "(?s).*"%string else pattern));;
  Ok (WithSubscriptionFilter c).

(** [gossipBlacklist]: an ID that does not decode is added as the empty ID. *)
Definition gossipBlacklist (c : PubSubBlacklistConfig.t) : PubSubOption :=
  WithBlacklist (default 0 (Duration.parse (PubSubBlacklistConfig.TTL c)))
    (list_to_set (map (λ raw, default ""%string (peerDecode raw))
                    (elems (PubSubBlacklistConfig.Peers c)))).

(** [gossipValidator] *)
Definition gossipValidator (c : PubSubValidatorConfig.t) : res PubSubOption :=
  PubSubValidatorConfig.Validate c;;
  (if negb (empty (PubSubValidatorConfig.Pattern c))
   then MustCompile (PubSubValidatorConfig.Pattern c) else Ok tt);;
  Ok (WithDefaultValidator c).

(** [make([]A, 0)] then [append] of every [f x], failing with the first error. *)
Fixpoint appendAll {A B} (f : A → res B) (l : list A) : res (list B) :=
  match l with
  | [] => Ok []
  | x :: l => y ← f x; rest ← appendAll f l; Ok (y :: rest)
  end.

(** The loop over [config.DirectPeers]: [byID], with the address counts; a nil
    [info] is dereferenced when the address does not name a peer. *)
Fixpoint directPeersLoop (byID : gmap string nat) (l : list string) : res (gmap string nat) :=
  match l with
  | [] => Ok byID
  | raw :: l =>
      info ← deref (NewMultiaddr raw ≫= AddrInfoFromP2pAddr);
      directPeersLoop (<[info.1 := (default 0 (byID !! info.1) + info.2)%nat]> byID) l
  end.

(** [if p != nil { options = append(options, f(p)) }] *)
Definition option_of {A} (p : option A) (f : A → PubSubOption) : list PubSubOption :=
  match p with Some v => [f v] | None => [] end.

Definition routerOptions (c : GossipSubConfig.t) : res (list PubSubOption) :=
  if negb (bool_decide (GossipSubConfig.Router c = "gossipsub"%string)) then Ok []
  else
    direct ← directPeersLoop ∅ (elems (GossipSubConfig.DirectPeers c));
    Ok ((if noElems (GossipSubConfig.Protocols c) then []
         else [WithGossipSubProtocols
                 (map PubSubProtocolConfig.ID (elems (GossipSubConfig.Protocols c)))]) ++
        (if noElems (GossipSubConfig.DirectPeers c) then [] else [WithDirectPeers direct]) ++
        option_of (GossipSubConfig.PeerGater c) (WithPeerGater ∘ PeerGaterParams.gossipPeerGater)).

Definition gossipExtendedOptions (c : GossipSubConfig.t) : res (list PubSubOption) :=
  GossipSubConfig.ValidateExtended c;;
  filter ← (match GossipSubConfig.SubscriptionFilter c with
            | Some f => o ← gossipSubscriptionFilter f; Ok [o]
            | None => Ok [] end);
  validators ← appendAll gossipValidator (elems (GossipSubConfig.DefaultValidators c));
  router ← routerOptions c;
  Ok ((if empty (GossipSubConfig.MessageID c) then []
       else [WithMessageIdFn (GossipSubConfig.MessageID c)]) ++
      (if oneOf (GossipSubConfig.SeenMessagesStrategy c) ["first-seen"]%string
       then [WithSeenMessagesStrategy false]
       else if oneOf (GossipSubConfig.SeenMessagesStrategy c) ["last-seen"]%string
       then [WithSeenMessagesStrategy true] else []) ++
      option_of (GossipSubConfig.PeerFilter c) WithPeerFilter ++ filter ++
      option_of (GossipSubConfig.Blacklist c) gossipBlacklist ++
      (if empty (GossipSubConfig.ProtocolMatch c) then []
       else [WithProtocolMatchFn
               (bool_decide (GossipSubConfig.ProtocolMatch c = "prefix"%string))]) ++
      option_of (GossipSubConfig.RPCInspector c) WithAppSpecificRpcInspector ++
      validators ++ router).

(** The switch over [config.SignaturePolicy]. *)
Definition signatureOptions (policy : string) : list PubSubOption :=
  if oneOf policy ["strict-sign"]%string then [WithMessageSignaturePolicy StrictSign]
  else if oneOf policy ["strict-no-sign"]%string then [WithMessageSignaturePolicy StrictNoSign]
  else if oneOf policy ["lax-sign"]%string then [WithMessageSignaturePolicy LaxSign]
  else if oneOf policy ["lax-no-sign"]%string then [WithMessageSignaturePolicy LaxNoSign]
  else [].

Definition parseParam (value : string) : res Z :=
  match Duration.parse value with Some d => Ok d | None => Err "parse gossipsub duration" end.

(** The parameters: every field of the library's defaults is overwritten. *)
Definition gossipSubParams (p : GossipSubParamsConfig.t) : res GossipSubParams.t :=
  runtime ← GossipSubRuntimeParams.ofConfig p;
  historyLength ← deref (GossipSubParamsConfig.HistoryLength p);
  historyGossip ← deref (GossipSubParamsConfig.HistoryGossip p);
  retransmission ← deref (GossipSubParamsConfig.GossipRetransmission p);
  slow ← deref (GossipSubParamsConfig.SlowHeartbeatWarning p);
  prunePeers ← deref (GossipSubParamsConfig.PrunePeers p);
  connectors ← deref (GossipSubParamsConfig.Connectors p);
  pending ← deref (GossipSubParamsConfig.MaxPendingConnections p);
  directTicks ← deref (GossipSubParamsConfig.DirectConnectTicks p);
  graftTicks ← deref (GossipSubParamsConfig.OpportunisticGraftTicks p);
  graftPeers ← deref (GossipSubParamsConfig.OpportunisticGraftPeers p);
  maxIHaveLength ← deref (GossipSubParamsConfig.MaxIHaveLength p);
  maxIHaveMessages ← deref (GossipSubParamsConfig.MaxIHaveMessages p);
  maxIDontWantLength ← deref (GossipSubParamsConfig.MaxIDontWantLength p);
  maxIDontWantMessages ← deref (GossipSubParamsConfig.MaxIDontWantMessages p);
  threshold ← deref (GossipSubParamsConfig.IDontWantMessageThreshold p);
  ttl ← deref (GossipSubParamsConfig.IDontWantMessageTTL p);
  heartbeatInitialDelay ← parseParam (GossipSubParamsConfig.HeartbeatInitialDelay p);
  heartbeatInterval ← parseParam (GossipSubParamsConfig.HeartbeatInterval p);
  fanoutTTL ← parseParam (GossipSubParamsConfig.FanoutTTL p);
  pruneBackoff ← parseParam (GossipSubParamsConfig.PruneBackoff p);
  unsubscribeBackoff ← parseParam (GossipSubParamsConfig.UnsubscribeBackoff p);
  connectionTimeout ← parseParam (GossipSubParamsConfig.ConnectionTimeout p);
  directDelay ← parseParam (GossipSubParamsConfig.DirectConnectInitialDelay p);
  graftFlood ← parseParam (GossipSubParamsConfig.GraftFloodThreshold p);
  followup ← parseParam (GossipSubParamsConfig.IWantFollowupTime p);
  let r := runtime in
  Ok (GossipSubParams.mk (GossipSubRuntimeParams.D r) (GossipSubRuntimeParams.Dlo r)
        (GossipSubRuntimeParams.Dhi r) (GossipSubRuntimeParams.Dscore r)
        (GossipSubRuntimeParams.Dout r) (GossipSubRuntimeParams.Dlazy r) historyLength
        historyGossip (GossipSubRuntimeParams.GossipFactor r) retransmission
        heartbeatInitialDelay heartbeatInterval slow fanoutTTL prunePeers pruneBackoff
        unsubscribeBackoff connectors pending connectionTimeout directTicks directDelay
        graftTicks graftPeers graftFlood maxIHaveLength maxIHaveMessages maxIDontWantLength
        maxIDontWantMessages followup threshold ttl (GossipSubRuntimeParams.HopwaveFactor r)
        (GossipSubRuntimeParams.HopwaveInterval r)).

(** The options of the gossipsub router, after its early return for the others. *)
Definition gossipRouterOptions (c : GossipSubConfig.t) : res (list PubSubOption) :=
  if negb (bool_decide (GossipSubConfig.Router c = "gossipsub"%string)) then Ok []
  else
    params ← gossipSubParams (GossipSubConfig.Params c);
    score ← (match GossipSubConfig.Score c with
             | Some s =>
                 if PeerScoreConfig.IsEnabled s then
                   '(score, thresholds) ← peerScoreOptions s; Ok [WithPeerScore score thresholds]
                 else Ok []
             | None => Ok []
             end);
    Ok (option_of (GossipSubConfig.FloodPublish c) WithFloodPublish ++
        option_of (GossipSubConfig.PeerExchange c) WithPeerExchange ++
        [WithGossipSubParams params] ++ score).

Definition gossipSubOptions (c : GossipSubConfig.t) : res (list PubSubOption) :=
  extended ← gossipExtendedOptions c;
  ttl ← (if empty (GossipSubConfig.SeenMessagesTTL c) then Ok []
         else match Duration.parse (GossipSubConfig.SeenMessagesTTL c) with
              | Some d => Ok [WithSeenMessagesTTL d]
              | None => Err "parse seen messages TTL" end);
  router ← gossipRouterOptions c;
  Ok (extended ++ [WithEventTracer] ++
      (if isTrue (GossipSubConfig.MeshFreeze c) then [WithMeshFreeze] else []) ++
      (if isTrue (GossipSubConfig.Hopwave c) then [WithHopwavePublish true] else []) ++
      option_of (GossipSubConfig.PeerOutboundQueueSize c) WithPeerOutboundQueueSize ++
      option_of (GossipSubConfig.MaxMessageSize c) WithMaxMessageSize ++
      option_of (GossipSubConfig.ValidateQueueSize c) WithValidateQueueSize ++
      option_of (GossipSubConfig.ValidateThrottle c) WithValidateThrottle ++
      option_of (GossipSubConfig.ValidateWorkers c) WithValidateWorkers ++ ttl ++
      signatureOptions (GossipSubConfig.SignaturePolicy c) ++ router).

(** The PubSub a Peer builds from its configuration. *)
Definition buildPubSub (c : GossipSubConfig.t) : res Building :=
  options ← gossipSubOptions c;
  applyOptions (newBuilding (GossipSubConfig.Router c)) options.
End options.
