(* ===== verification/KademliaConfig.v ===== *)
(** * Kademlia configuration

    [internal/model/kademlia_config.go]: the declared options of a node's DHT and
    the checks of its policies.  [NodeConfig.Validate] checks the scalar tuning
    and the durations (NodeConfig.v). *)
From Stdlib Require Import ZArith Lia Ascii.
From stdpp Require Import strings list gmap.
From S2P Require Import Prelude.
From S2P Require Import GoStd.
From S2P Require Import GoStrings.
From S2P Require Import Network.
From S2P Require Import Attacks.
From S2P Require Import PeerScore.
From S2P Require Import GossipSubConfig.
Open Scope Z_scope.

Module KademliaFilterConfig.
Record t := mk { Policy : string; AllowCIDRs : slice string; DenyCIDRs : slice string }.
End KademliaFilterConfig.

Module KademliaDiversityConfig.
Record t := mk { Enabled : option bool; MaxPerCpl : option Z; MaxForTable : option Z }.
End KademliaDiversityConfig.

Module KademliaValidatorConfig.
Record t := mk { Mode : string; Namespaces : option (gmap string string) }.
End KademliaValidatorConfig.

Module KademliaProviderStoreConfig.
Record t := mk { Mode : string; CleanupInterval : string; CacheSize : option Z }.
End KademliaProviderStoreConfig.

Module KademliaConfig.
Record t := mk {
  Enabled : option bool; Mode : string; ProtocolPrefix : string; ProtocolID : string;
  ProtocolExtension : string; BucketSize : option Z; Concurrency : option Z;
  Resiliency : option Z; LookupCheckConcurrency : option Z;
  RoutingTableLatencyTolerance : string; RoutingTableRefreshPeriod : string;
  RoutingTableRefreshTimeout : string; MaxRecordAge : string;
  DisableAutoRefresh : option bool; DisableProviders : option bool; DisableValues : option bool;
  OptimisticProvide : option bool; OptimisticProvideJobsPoolSize : option Z;
  BootstrapTimeout : string; BootstrapRetryInterval : string;
  QueryFilter : option KademliaFilterConfig.t; RoutingTableFilter : option KademliaFilterConfig.t;
  AddressFilter : option KademliaFilterConfig.t;
  RoutingTableDiversity : option KademliaDiversityConfig.t;
  BootstrapSource : string; BootstrapPeers : slice string; Datastore : string;
  Validator : option KademliaValidatorConfig.t;
  ProviderStore : option KademliaProviderStoreConfig.t; RequestHook : string }.

Definition zero : t :=
  mk None "" "" "" "" None None None None "" "" "" "" None None None None None "" "" None None
    None None "" None "" None None "".

(** [mergeNonZero] *)
Definition merge (d s : t) : t :=
  mk (nonnil (Enabled s) (Enabled d)) (nonzero (Mode s) (Mode d))
    (nonzero (ProtocolPrefix s) (ProtocolPrefix d)) (nonzero (ProtocolID s) (ProtocolID d))
    (nonzero (ProtocolExtension s) (ProtocolExtension d)) (nonnil (BucketSize s) (BucketSize d))
    (nonnil (Concurrency s) (Concurrency d)) (nonnil (Resiliency s) (Resiliency d))
    (nonnil (LookupCheckConcurrency s) (LookupCheckConcurrency d))
    (nonzero (RoutingTableLatencyTolerance s) (RoutingTableLatencyTolerance d))
    (nonzero (RoutingTableRefreshPeriod s) (RoutingTableRefreshPeriod d))
    (nonzero (RoutingTableRefreshTimeout s) (RoutingTableRefreshTimeout d))
    (nonzero (MaxRecordAge s) (MaxRecordAge d))
    (nonnil (DisableAutoRefresh s) (DisableAutoRefresh d))
    (nonnil (DisableProviders s) (DisableProviders d))
    (nonnil (DisableValues s) (DisableValues d))
    (nonnil (OptimisticProvide s) (OptimisticProvide d))
    (nonnil (OptimisticProvideJobsPoolSize s) (OptimisticProvideJobsPoolSize d))
    (nonzero (BootstrapTimeout s) (BootstrapTimeout d))
    (nonzero (BootstrapRetryInterval s) (BootstrapRetryInterval d))
    (nonnil (QueryFilter s) (QueryFilter d))
    (nonnil (RoutingTableFilter s) (RoutingTableFilter d))
    (nonnil (AddressFilter s) (AddressFilter d))
    (nonnil (RoutingTableDiversity s) (RoutingTableDiversity d))
    (nonzero (BootstrapSource s) (BootstrapSource d))
    (nonnil (BootstrapPeers s) (BootstrapPeers d)) (nonzero (Datastore s) (Datastore d))
    (nonnil (Validator s) (Validator d)) (nonnil (ProviderStore s) (ProviderStore d))
    (nonzero (RequestHook s) (RequestHook d)).

(** The assignments of [NodeConfig.Merge]: a new protocol ID replaces the
    inherited prefix (and extension), and the other way round. *)
Definition withProtocol (prefix id extension : string) (peers : slice string) (c : t) : t :=
  mk (Enabled c) (Mode c) prefix id extension (BucketSize c) (Concurrency c) (Resiliency c)
    (LookupCheckConcurrency c) (RoutingTableLatencyTolerance c) (RoutingTableRefreshPeriod c)
    (RoutingTableRefreshTimeout c) (MaxRecordAge c) (DisableAutoRefresh c) (DisableProviders c)
    (DisableValues c) (OptimisticProvide c) (OptimisticProvideJobsPoolSize c)
    (BootstrapTimeout c) (BootstrapRetryInterval c) (QueryFilter c) (RoutingTableFilter c)
    (AddressFilter c) (RoutingTableDiversity c) (BootstrapSource c) peers (Datastore c)
    (Validator c) (ProviderStore c) (RequestHook c).

Definition switchProtocol (c overlay : t) : t :=
  let c := if negb (empty (ProtocolID overlay)) && empty (ProtocolPrefix overlay)
           then withProtocol "" (ProtocolID c)
                  (if empty (ProtocolExtension overlay) then "" else ProtocolExtension c)
                  (BootstrapPeers c) c
           else c in
  let c := if negb (empty (ProtocolPrefix overlay)) && empty (ProtocolID overlay)
           then withProtocol (ProtocolPrefix c) "" (ProtocolExtension c) (BootstrapPeers c) c
           else c in
  if oneOf (BootstrapSource overlay) ["none";"controller"]%string && isNil (BootstrapPeers overlay)
  then withProtocol (ProtocolPrefix c) (ProtocolID c) (ProtocolExtension c) None c
  else c.

(** The Kademlia part of [NodeConfig.WithDefaults]. *)
Definition WithDefaults (c : t) : t :=
  mk (orElse (Enabled c) true) (orText (Mode c) "server")
    (if empty (ProtocolPrefix c) && empty (ProtocolID c) then "/k-p2p-lab/v3"
     else ProtocolPrefix c) (ProtocolID c)
    (ProtocolExtension c) (orElse (BucketSize c) 20) (Concurrency c) (Resiliency c)
    (LookupCheckConcurrency c) (RoutingTableLatencyTolerance c) (RoutingTableRefreshPeriod c)
    (RoutingTableRefreshTimeout c) (MaxRecordAge c) (DisableAutoRefresh c) (DisableProviders c)
    (DisableValues c) (OptimisticProvide c) (OptimisticProvideJobsPoolSize c)
    (orText (BootstrapTimeout c) "60s") (orText (BootstrapRetryInterval c) "1s") (QueryFilter c)
    (RoutingTableFilter c) (AddressFilter c) (RoutingTableDiversity c) (BootstrapSource c)
    (BootstrapPeers c) (Datastore c) (Validator c) (ProviderStore c) (RequestHook c).

(** [zero] with [Mode: mode], and [zero] with [Enabled: &enabled]. *)
Definition withMode (mode : string) : t :=
  mk None mode "" "" "" None None None None "" "" "" "" None None None None None "" "" None None
    None None "" None "" None None "".
Definition withEnabled (enabled : bool) : t :=
  mk (Some enabled) "" "" "" "" None None None None "" "" "" "" None None None None None "" ""
    None None None None "" None "" None None "".

Section validate.
Context `{CIDRs} `{PubSubLib}.

Definition validateFilter (filter : option KademliaFilterConfig.t) : res unit :=
  Attacks.whenSome filter (λ filter,
    fail_if (negb (oneOf (KademliaFilterConfig.Policy filter)
                     ["";"all";"public";"private";"non-loopback"]%string))
      "kademlia filter policy must be all, public, private or non-loopback";;
    checkAll (λ cidrs, checkAll (λ cidr, fail_if (isNil (ParseCIDR cidr)) "kademlia: invalid CIDR")
                         (elems cidrs))
      [KademliaFilterConfig.AllowCIDRs filter; KademliaFilterConfig.DenyCIDRs filter]).

Definition validateBootstrap (c : t) : res unit :=
  fail_if (negb (oneOf (BootstrapSource c) ["";"none";"static";"controller"]%string))
    "kademlia.bootstrapSource must be none, static or controller";;
  fail_if ((0 <? length (elems (BootstrapPeers c)))%nat &&
           negb (bool_decide (BootstrapSource c = "static"%string)))
    "kademlia.bootstrapPeers requires bootstrapSource static";;
  checkAll (λ raw,
    match NewMultiaddr raw with
    | None => Err "kademlia.bootstrapPeers: invalid multiaddr"
    | Some address =>
        fail_if (match AddrInfoFromP2pAddr address with
                 | Some (id, addrs) => empty id || (addrs =? 0)%nat | None => true end)
          "kademlia.bootstrapPeers requires a transport address and /p2p Peer ID"
    end) (elems (BootstrapPeers c)).

(** [namespace == "pk" && policy != "public-key" || namespace == "ipns" && policy != "ipns"] *)
Definition replacesStandard (namespace policy : string) : bool :=
  bool_decide (namespace = "pk"%string) && negb (bool_decide (policy = "public-key"%string)) ||
  bool_decide (namespace = "ipns"%string) && negb (bool_decide (policy = "ipns"%string)).

Definition validateNamespace (mode namespace policy : string) : res unit :=
  fail_if (empty namespace ||
           ContainsAny namespace (String.string_of_list_ascii (map byte [47; 32; 9; 13; 10]%nat)))
    "kademlia.validator.namespaces: invalid namespace";;
  fail_if (negb (oneOf policy ["public-key";"ipns";"bytes";"reject"]%string))
    "kademlia.validator.namespaces must be public-key, ipns, bytes or reject";;
  fail_if (bool_decide (policy = "public-key"%string) && negb (bool_decide (namespace = "pk"%string)) ||
           bool_decide (policy = "ipns"%string) && negb (bool_decide (namespace = "ipns"%string)))
    "kademlia.validator.namespaces: only validates its standard namespace";;
  fail_if (negb (bool_decide (mode = "namespaced"%string)) && replacesStandard namespace policy)
    "kademlia.validator: replacing requires mode namespaced".

Definition validateValidator (v : KademliaValidatorConfig.t) : res unit :=
  fail_if (negb (oneOf (KademliaValidatorConfig.Mode v) ["";"default";"namespaced"]%string))
    "kademlia.validator.mode must be default or namespaced";;
  checkMap (validateNamespace (KademliaValidatorConfig.Mode v))
    (KademliaValidatorConfig.Namespaces v).

Definition validateProviderStore (p : KademliaProviderStoreConfig.t) : res unit :=
  let mode := KademliaProviderStoreConfig.Mode p in
  let interval := KademliaProviderStoreConfig.CleanupInterval p in
  let cache := KademliaProviderStoreConfig.CacheSize p in
  fail_if (negb (oneOf mode ["";"manager";"null"]%string))
    "kademlia.providerStore.mode must be manager or null";;
  fail_if (bool_decide (mode = "null"%string) && (negb (empty interval) || negb (isNil cache)))
    "kademlia.providerStore null does not use cleanupInterval or cacheSize";;
  (if negb (empty interval) then
     fail_if (match Duration.parse interval with Some d => d <=? 0 | None => true end)
       "kademlia.providerStore.cleanupInterval must be a positive duration"
   else Ok tt);;
  fail_if (notPositiveInt cache) "kademlia.providerStore.cacheSize must be positive".

(** The standard Amino protocol. *)
Definition aminoProtocol (c : t) : bool :=
  if negb (empty (ProtocolID c)) then bool_decide (ProtocolID c = "/ipfs/kad/1.0.0"%string)
  else bool_decide ((ProtocolPrefix c +:+ ProtocolExtension c)%string = "/ipfs"%string).

Definition validateAmino (c : t) : res unit :=
  fail_if (ptr (λ v, negb (v =? 20)) (BucketSize c)) "kademlia /ipfs protocol requires bucketSize 20";;
  fail_if (isTrue (DisableProviders c) || isTrue (DisableValues c))
    "kademlia /ipfs protocol requires providers and values enabled";;
  Attacks.whenSome (Validator c) (λ v,
    let namespaces := default ∅ (KademliaValidatorConfig.Namespaces v) in
    checkMap (λ namespace policy,
      fail_if (negb (oneOf namespace ["pk";"ipns"]%string) || replacesStandard namespace policy)
        "kademlia /ipfs protocol requires only standard pk and ipns validators")
      (KademliaValidatorConfig.Namespaces v);;
    fail_if (bool_decide (KademliaValidatorConfig.Mode v = "namespaced"%string) &&
             (negb (size namespaces =? 2)%nat ||
              negb (bool_decide (default "" (namespaces !! "pk"%string) = "public-key"%string)) ||
              negb (bool_decide (default "" (namespaces !! "ipns"%string) = "ipns"%string))))
      "kademlia /ipfs protocol requires both standard pk and ipns validators").

Definition Validate (c : t) : res unit :=
  checkAll validateFilter [QueryFilter c; RoutingTableFilter c; AddressFilter c];;
  Attacks.whenSome (RoutingTableDiversity c) (λ d,
    fail_if (notPositiveInt (KademliaDiversityConfig.MaxPerCpl d))
      "kademlia.routingTableDiversity.maxPerCpl must be positive";;
    fail_if (notPositiveInt (KademliaDiversityConfig.MaxForTable d))
      "kademlia.routingTableDiversity.maxForTable must be positive");;
  validateBootstrap c;;
  fail_if (negb (oneOf (Datastore c) ["";"memory";"null"]%string))
    "kademlia.datastore must be memory or null";;
  Attacks.whenSome (Validator c) validateValidator;;
  Attacks.whenSome (ProviderStore c) validateProviderStore;;
  fail_if (negb (oneOf (RequestHook c) ["";"none";"log"]%string))
    "kademlia.requestHook must be none or log";;
  if aminoProtocol c then validateAmino c else Ok tt.
End validate.
End KademliaConfig.
