(* ===== verification/NodeConfig.v ===== *)
(** * The configuration of a node

    [internal/model/config.go]: [NodeConfig], its built-in presets, the overlay
    of one declaration on another ([Merge]), the defaults ([WithDefaults]) and
    the validation of the effective configuration ([Validate]).  The policies it
    collects are in Attacks.v, PeerScore.v, GossipSubConfig.v, KademliaConfig.v
    and Network.v.

    Settings behind a pointer are options; none of these functions writes
    through a pointer the caller also holds (the attack policies are copied
    first), so values model them.  The nine attack fields are one record. *)
From Stdlib Require Import ZArith Lia.
From stdpp Require Import strings list gmap.
From S2P Require Import Prelude.
From S2P Require Import GoStd.
From S2P Require Import GoStrings.
From S2P Require Import Distribution.
From S2P Require Import Network.
From S2P Require Import Attacks.
From S2P Require Import PeerScore.
From S2P Require Import GossipSubConfig.
From S2P Require Import KademliaConfig.
Open Scope Z_scope.

Module ConnectionManagerConfig.
Record t := mk { LowWater : Z; HighWater : Z; GracePeriod : string }.
End ConnectionManagerConfig.

Module Libp2pConfig.
Record t := mk {
  UserAgent : string; NATPortMap : option bool; Relay : option bool; RelayService : option bool;
  ConnectionLimit : option Z; ConnectionManager : option ConnectionManagerConfig.t;
  DialTimeout : string }.
Definition zero : t := mk "" None None None None None "".
Definition merge (d s : t) : t :=
  mk (nonzero (UserAgent s) (UserAgent d)) (nonnil (NATPortMap s) (NATPortMap d))
    (nonnil (Relay s) (Relay d)) (nonnil (RelayService s) (RelayService d))
    (nonnil (ConnectionLimit s) (ConnectionLimit d))
    (nonnil (ConnectionManager s) (ConnectionManager d))
    (nonzero (DialTimeout s) (DialTimeout d)).
Definition withLimit (limit : option Z) (c : t) : t :=
  mk (UserAgent c) (NATPortMap c) (Relay c) (RelayService c) limit (ConnectionManager c)
    (DialTimeout c).
End Libp2pConfig.

Module NodeConfig.
Record t := mk {
  attacks : Attacks.t;
  Type_ : string; Topics : slice string; D : Z; DLow : Z; DHigh : Z; DOut : Z; DLazy : Z;
  Heartbeat : string; ConnectLimit : Z;
  Libp2p : Libp2pConfig.t; Kademlia : KademliaConfig.t; GossipSub : GossipSubConfig.t;
  Network : NetworkConfig }.

Definition zero : t :=
  mk Attacks.zero "" None 0 0 0 0 0 "" 0 Libp2pConfig.zero KademliaConfig.zero
    GossipSubConfig.zero zeroNetwork.

(** [promoteLegacy]: the flat fields of earlier scenarios fill the nested ones. *)
Definition promoteTopics (c : t) : slice string :=
  if noElems (GossipSubConfig.Topics (GossipSub c)) && negb (noElems (Topics c))
  then cloneNil (Topics c) else GossipSubConfig.Topics (GossipSub c).
Definition promoteLegacy (c : t) : t :=
  let g := GossipSub c in
  mk (attacks c) (Type_ c) (Topics c) (D c) (DLow c) (DHigh c) (DOut c) (DLazy c) (Heartbeat c)
    (ConnectLimit c)
    (Libp2pConfig.withLimit
       (GossipSubParamsConfig.promote (ConnectLimit c) (Libp2pConfig.ConnectionLimit (Libp2p c)))
       (Libp2p c))
    (Kademlia c)
    (GossipSubConfig.withTopics (promoteTopics c)
       (GossipSubParamsConfig.promoteLegacy (D c) (DLow c) (DHigh c) (DOut c) (DLazy c)
          (Heartbeat c) (GossipSubConfig.Params g)) g)
    (Network c).

(** *** [Merge] *)
(** [overlay.GossipSub.Subscribe] decides the overlay's topic mode. *)
Definition overlayTopicMode (g : GossipSubConfig.t) : GossipSubConfig.t :=
  match GossipSubConfig.Subscribe g with
  | Some subscribe =>
      if empty (GossipSubConfig.TopicMode g)
      then GossipSubConfig.withTopicMode (if subscribe : bool then "subscribe" else "publish") g
      else g
  | None => g
  end.

(** [mergeNonZero], the attack fields aside. *)
Definition mergeFields (d s : t) : t :=
  mk (attacks d) (nonzero (Type_ s) (Type_ d)) (nonnil (Topics s) (Topics d))
    (nonzeroInt (D s) (D d)) (nonzeroInt (DLow s) (DLow d)) (nonzeroInt (DHigh s) (DHigh d))
    (nonzeroInt (DOut s) (DOut d)) (nonzeroInt (DLazy s) (DLazy d))
    (nonzero (Heartbeat s) (Heartbeat d)) (nonzeroInt (ConnectLimit s) (ConnectLimit d))
    (Libp2pConfig.merge (Libp2p d) (Libp2p s)) (KademliaConfig.merge (Kademlia d) (Kademlia s))
    (GossipSubConfig.merge (GossipSub d) (GossipSub s))
    (mergeNonZero (Network d) (Network s)).

Definition withParts (a : Attacks.t) (k : KademliaConfig.t) (g : GossipSubConfig.t)
    (n : NetworkConfig) (c : t) : t :=
  mk a (Type_ c) (Topics c) (D c) (DLow c) (DHigh c) (DOut c) (DLazy c) (Heartbeat c)
    (ConnectLimit c) (Libp2p c) k g n.

Definition Merge (c overlay : t) : t :=
  let attackBase := attacks c in
  let overlay := promoteLegacy overlay in
  let overlay := withParts (attacks overlay) (Kademlia overlay)
                   (overlayTopicMode (GossipSub overlay)) (Network overlay) overlay in
  let c := withParts (attacks c) (KademliaConfig.switchProtocol (Kademlia c) (Kademlia overlay))
             (GossipSub c) (switchModes (Network c) (Network overlay)) c in
  let c := mergeFields c overlay in
  withParts (Attacks.mergeAttacks attackBase (attacks overlay)) (Kademlia c) (GossipSub c)
    (Network c) c.

(** *** [WithDefaults] *)
Section defaults.
Context `{PeerCodec}.

(** [*p.D] and its like: the default has made the pointer non-nil. *)
Definition WithDefaults (c : t) : t :=
  let c := promoteLegacy c in
  let g := GossipSubConfig.WithDefaults (GossipSub c) in
  let p := GossipSubConfig.Params g in
  mk (Attacks.defaultAttacks (attacks c)) (orText (Type_ c) "full")
    (cloneNil (GossipSubConfig.Topics g))
    (default 0 (GossipSubParamsConfig.D p)) (default 0 (GossipSubParamsConfig.DLow p))
    (default 0 (GossipSubParamsConfig.DHigh p)) (default 0 (GossipSubParamsConfig.DOut p))
    (default 0 (GossipSubParamsConfig.DLazy p)) (GossipSubParamsConfig.HeartbeatInterval p)
    (default (ConnectLimit c) (Libp2pConfig.ConnectionLimit (Libp2p c)))
    (Libp2p c) (KademliaConfig.WithDefaults (Kademlia c)) g (Network c).

(** *** The presets *)
(** What the presets set besides the type: the DHT, the connection limit, the
    [GossipSub] section. *)
Definition preset (kind : string) (k : KademliaConfig.t) (limit : option Z)
    (g : GossipSubConfig.t) : t :=
  mk Attacks.zero kind None 0 0 0 0 0 "" 0 (Libp2pConfig.withLimit limit Libp2pConfig.zero) k g
    zeroNetwork.

(** The zero [GossipSub] section with some fields assigned. *)
Definition presetGossip (enabled : option bool) (router topicMode : string)
    (degree network : option Z) (subscribe allowPublish : option bool)
    (params : GossipSubParamsConfig.t) : GossipSubConfig.t :=
  GossipSubConfig.mk "" None None None None None "" None "" None None None None None None
    enabled router None None topicMode degree network subscribe allowPublish None params None ""
    None None None None "" "" None None None None.

Definition workerParams : GossipSubParamsConfig.t :=
  GossipSubParamsConfig.v2Worker GossipSubParamsConfig.zero.
Definition workerGossip : GossipSubConfig.t :=
  presetGossip None "" "" None None None None workerParams.

(** The [switch] over [kind]. *)
Definition presetFor (kind : string) : option t :=
  let server := KademliaConfig.withMode "server" in
  let client := KademliaConfig.withMode "client" in
  if oneOf kind ["boot"]%string then
    Some (preset kind server None
      (presetGossip (Some false) "" "" None None None None
         (GossipSubParamsConfig.withDScore 3 GossipSubParamsConfig.zero)))
  else if oneOf kind ["full";"worker"]%string then
    Some (preset "full" server (Some 55) workerGossip)
  else if oneOf kind ["light"]%string then Some (preset kind client (Some 32) workerGossip)
  else if oneOf kind ["publisher"]%string then
    Some (preset kind client (Some 55)
      (presetGossip None "" "publish" None None (Some false) None workerParams))
  else if oneOf kind ["subscriber";"observer"]%string then
    Some (preset kind client (Some 55)
      (presetGossip None "" "" None None None (Some false) workerParams))
  else if oneOf kind ["relay"]%string then
    Some (preset kind client (Some 55)
      (presetGossip None "" "relay" None None None (Some false) workerParams))
  else if oneOf kind ["flood"]%string then
    Some (preset kind client (Some 55)
      (presetGossip None "floodsub" "" None None None None GossipSubParamsConfig.zero))
  else if oneOf kind ["random"]%string then
    Some (preset kind client (Some 55)
      (presetGossip None "randomsub" "" (Some 6) (Some 100) None None GossipSubParamsConfig.zero))
  else if oneOf kind ["dht-only"]%string then
    Some (preset kind server (Some 55)
      (presetGossip (Some false) "" "" None None None None GossipSubParamsConfig.zero))
  else if oneOf kind ["gossip-only"]%string then
    Some (preset kind (KademliaConfig.withEnabled false) (Some 55) workerGossip)
  else if oneOf kind ["non-gossip";"mesh-only"]%string then
    Some (preset kind server (Some 55)
      (presetGossip None "" "" None None None None
         (GossipSubParamsConfig.withGossip (Some 0) (Some F64.zero) workerParams)))
  else None.

(** [BuiltInNodeConfig]: [None] is [false]. *)
Definition BuiltInNodeConfig (kind : string) : option t :=
  WithDefaults <$> presetFor (ToLower (TrimSpace kind)).

(** [PublishAllowed] *)
Definition PublishAllowed (c : t) : bool :=
  let g := GossipSub (WithDefaults c) in
  isTrue (GossipSubConfig.Enabled g) && isTrue (GossipSubConfig.AllowPublish g).
End defaults.

(** What the attack checks read of the configuration. *)
Definition attackNode (c : t) : Attacks.Node :=
  let g := GossipSub c in
  Attacks.mkNode (elems (GossipSubConfig.Topics g)) (GossipSubConfig.SignaturePolicy g)
    (GossipSubConfig.Enabled g) (GossipSubConfig.Router g) (GossipSubConfig.TopicMode g)
    (Libp2pConfig.ConnectionLimit (Libp2p c)).

Definition HasAttackOptions (c : t) : bool := Attacks.HasAttackOptions (attacks c).
Definition ValidateAttackRole (c : t) (role : string) : res unit :=
  Attacks.ValidateAttackRole (attacks c) role.

(** *** [Validate] *)
Section validate.
Context `{PeerCodec} `{CIDRs} `{PubSubLib} (ParseFloat : string → option float).

Definition validateKademlia (k : KademliaConfig.t) : res unit :=
  wrap "kademlia" (KademliaConfig.Validate k);;
  fail_if (negb (empty (KademliaConfig.ProtocolID k)) &&
           negb (empty (KademliaConfig.ProtocolPrefix k)))
    "kademlia protocolId and protocolPrefix are mutually exclusive";;
  fail_if (negb (empty (KademliaConfig.ProtocolID k)) &&
           negb (empty (KademliaConfig.ProtocolExtension k)))
    "kademlia protocolExtension cannot be combined with protocolId";;
  fail_if (negb (oneOf (KademliaConfig.Mode k) ["auto";"auto-server";"client";"server"]%string))
    "invalid kademlia mode";;
  fail_if (notPositiveInt (KademliaConfig.BucketSize k)) "kademlia bucketSize must be positive";;
  fail_if (notPositiveInt (KademliaConfig.Concurrency k)) "kademlia concurrency must be positive";;
  fail_if (negative (KademliaConfig.Resiliency k)) "kademlia resiliency cannot be negative";;
  fail_if (notPositiveInt (KademliaConfig.LookupCheckConcurrency k))
    "kademlia lookupCheckConcurrency must be positive";;
  fail_if (notPositiveInt (KademliaConfig.OptimisticProvideJobsPoolSize k))
    "kademlia optimisticProvideJobsPoolSize must be positive".

Definition scoreEnabled (g : GossipSubConfig.t) : bool :=
  ptr PeerScoreConfig.IsEnabled (GossipSubConfig.Score g).

(** Routing discovery needs the DHT's providers. *)
Definition validateDiscovery (k : KademliaConfig.t) (g : GossipSubConfig.t) : res unit :=
  if ptr (λ d, bool_decide (PubSubDiscoveryConfig.Mode d = "routing"%string))
       (GossipSubConfig.Discovery g) then
    fail_if (negb (isTrue (KademliaConfig.Enabled k)) || isTrue (KademliaConfig.DisableProviders k) ||
             ptr (λ p, bool_decide (KademliaProviderStoreConfig.Mode p = "null"%string))
               (KademliaConfig.ProviderStore k))
      "routing discovery requires enabled Kademlia providers and provider storage"
  else Ok tt.

Definition validateScoreTopics (g : GossipSubConfig.t) : res unit :=
  if scoreEnabled g then
    checkMap (λ topic _, fail_if (negb (pubsubContains (elems (GossipSubConfig.Topics g)) topic))
                           "gossipsub score refers to unjoined topic")
      (GossipSubConfig.Score g ≫= PeerScoreConfig.Topics)
  else Ok tt.

Definition validateRandomsub (g : GossipSubConfig.t) : res unit :=
  if bool_decide (GossipSubConfig.Router g = "randomsub"%string) then
    fail_if (match GossipSubConfig.RandomDegree g with Some v => v <=? 0 | None => true end)
      "randomsub requires a positive randomDegree";;
    fail_if (match GossipSubConfig.RandomNetworkSize g with Some v => v <=? 0 | None => true end)
      "randomsub requires a positive randomNetworkSize"
  else Ok tt.

Definition isGossipRouter (g : GossipSubConfig.t) : bool :=
  bool_decide (GossipSubConfig.Router g = "gossipsub"%string).

Definition validateOtherRouter (g : GossipSubConfig.t) : res unit :=
  if negb (isGossipRouter g) then
    fail_if (scoreEnabled g) "gossipsub score requires the gossipsub router";;
    fail_if (negb (isNil (GossipSubConfig.FloodPublish g)) ||
             negb (isNil (GossipSubConfig.PeerExchange g)))
      "floodPublish and peerExchange require the gossipsub router"
  else Ok tt.

Definition validateSizes (g : GossipSubConfig.t) : res unit :=
  checkAll (λ '(name, value), fail_if (notPositiveInt value) ("gossipsub " +:+ name))
    [("peerOutboundQueueSize", GossipSubConfig.PeerOutboundQueueSize g);
     ("validateQueueSize", GossipSubConfig.ValidateQueueSize g);
     ("validateWorkers", GossipSubConfig.ValidateWorkers g)]%string;;
  checkAll (λ '(name, value), fail_if (negative value) ("gossipsub " +:+ name))
    [("maxMessageSize", GossipSubConfig.MaxMessageSize g);
     ("subscriptionBufferSize", GossipSubConfig.SubscriptionBufferSize g);
     ("validateThrottle", GossipSubConfig.ValidateThrottle g)]%string.

(** [!validNumber(v) || v < 0 || v > 1] *)
Definition notFraction (v : float) : bool :=
  negb (validNumber v) || neg v || F64.ltb F64.one v.

Definition validateDegrees (p : GossipSubParamsConfig.t) : res unit :=
  d ← deref (GossipSubParamsConfig.D p);
  dLow ← deref (GossipSubParamsConfig.DLow p);
  dHigh ← deref (GossipSubParamsConfig.DHigh p);
  fail_if ((d <? dLow) || (dHigh <? d)) "gossipsub degree must satisfy dLow <= d <= dHigh";;
  dScore ← deref (GossipSubParamsConfig.DScore p);
  dLazy ← deref (GossipSubParamsConfig.DLazy p);
  fail_if ((d <=? 0) || (dLow <? 0) || (dHigh <=? 0) || (dScore <? 0) || (d <? dScore) ||
           (dLazy <? 0))
    "gossipsub degrees must be non-negative, with positive d/dHigh and dScore <= d";;
  dOut ← deref (GossipSubParamsConfig.DOut p);
  fail_if ((dOut <? 0) || (dLow <=? dOut) || (Z.quot d 2 <? dOut))
    "gossipsub dOut must be < dLow and <= d/2".

Definition validateHistory (p : GossipSubParamsConfig.t) : res unit :=
  historyLength ← deref (GossipSubParamsConfig.HistoryLength p);
  historyGossip ← deref (GossipSubParamsConfig.HistoryGossip p);
  fail_if ((historyLength <=? 0) || (historyGossip <? 0) || (historyLength <? historyGossip))
    "gossipsub history requires 0 <= historyGossip <= historyLength".

Definition validateTicks (p : GossipSubParamsConfig.t) : res unit :=
  direct ← deref (GossipSubParamsConfig.DirectConnectTicks p);
  graft ← deref (GossipSubParamsConfig.OpportunisticGraftTicks p);
  fail_if ((direct =? 0) || (graft =? 0))
    "gossipsub directConnectTicks and opportunisticGraftTicks must be positive".

Definition validateFactors (p : GossipSubParamsConfig.t) : res unit :=
  gossipFactor ← deref (GossipSubParamsConfig.GossipFactor p);
  fail_if (notFraction gossipFactor) "gossipsub gossipFactor must be finite and in [0, 1]";;
  hopwaveFactor ← deref (GossipSubParamsConfig.HopwaveFactor p);
  fail_if (notFraction hopwaveFactor) "gossipsub hopwaveFactor must be finite and in [0, 1]";;
  hopwaveInterval ← deref (GossipSubParamsConfig.HopwaveInterval p);
  fail_if ((hopwaveInterval <? 1) || (2147483647 <? hopwaveInterval))
    "gossipsub hopwaveInterval must be in [1, 2147483647]";;
  slow ← deref (GossipSubParamsConfig.SlowHeartbeatWarning p);
  fail_if (negb (validNumber slow) || neg slow)
    "gossipsub slowHeartbeatWarning must be finite and non-negative".

(** The counts of the map literal: each is dereferenced before any is tested. *)
Definition counts (p : GossipSubParamsConfig.t) : list (option Z) :=
  [GossipSubParamsConfig.GossipRetransmission p; GossipSubParamsConfig.PrunePeers p;
   GossipSubParamsConfig.Connectors p; GossipSubParamsConfig.MaxPendingConnections p;
   GossipSubParamsConfig.OpportunisticGraftPeers p; GossipSubParamsConfig.MaxIHaveLength p;
   GossipSubParamsConfig.MaxIHaveMessages p; GossipSubParamsConfig.MaxIDontWantLength p;
   GossipSubParamsConfig.MaxIDontWantMessages p;
   GossipSubParamsConfig.IDontWantMessageThreshold p;
   GossipSubParamsConfig.IDontWantMessageTTL p].
Fixpoint derefAll {A} (l : list (option A)) : res (list A) :=
  match l with
  | [] => Ok []
  | p :: l => v ← deref p; rest ← derefAll l; Ok (v :: rest)
  end.
Definition validateCounts (p : GossipSubParamsConfig.t) : res unit :=
  values ← derefAll (counts p);
  checkAll (λ value, fail_if (value <? 0) "gossipsub count cannot be negative") values.

Definition validateParams (p : GossipSubParamsConfig.t) : res unit :=
  validateDegrees p;; validateHistory p;; validateTicks p;; validateFactors p;; validateCounts p.

Definition validateGossipSub (k : KademliaConfig.t) (g : GossipSubConfig.t) : res unit :=
  wrap "gossipsub" (GossipSubConfig.ValidateExtended g);;
  validateDiscovery k g;;
  validateScoreTopics g;;
  fail_if (noElems (GossipSubConfig.Topics g)) "gossipsub topics cannot be empty";;
  fail_if (negb (oneOf (GossipSubConfig.Router g) ["gossipsub";"floodsub";"randomsub"]%string))
    "invalid pubsub router";;
  fail_if (negb (oneOf (GossipSubConfig.TopicMode g) ["subscribe";"relay";"publish"]%string))
    "invalid topicMode";;
  validateRandomsub g;;
  validateOtherRouter g;;
  validateSizes g;;
  (if isGossipRouter g then validateParams (GossipSubConfig.Params g) else Ok tt);;
  fail_if (negb (oneOf (GossipSubConfig.SignaturePolicy g)
                   ["";"strict-sign";"strict-no-sign";"lax-sign";"lax-no-sign"]%string))
    "invalid signaturePolicy";;
  Attacks.whenSome (GossipSubConfig.Score g) (λ score,
    wrap "gossipsub score" (PeerScoreConfig.Validate score)).

(** The settings of [durations], with [positiveDurations]. *)
Definition durations (c : t) : list (string * string * bool) :=
  let k := Kademlia c in
  let g := GossipSub c in
  let p := GossipSubConfig.Params g in
  [("libp2p.dialTimeout", Libp2pConfig.DialTimeout (Libp2p c), true);
   ("kademlia.routingTableLatencyTolerance", KademliaConfig.RoutingTableLatencyTolerance k, false);
   ("kademlia.routingTableRefreshPeriod", KademliaConfig.RoutingTableRefreshPeriod k, true);
   ("kademlia.routingTableRefreshTimeout", KademliaConfig.RoutingTableRefreshTimeout k, true);
   ("kademlia.maxRecordAge", KademliaConfig.MaxRecordAge k, false);
   ("kademlia.bootstrapTimeout", KademliaConfig.BootstrapTimeout k, true);
   ("kademlia.bootstrapRetryInterval", KademliaConfig.BootstrapRetryInterval k, true);
   ("gossipsub.seenMessagesTTL", GossipSubConfig.SeenMessagesTTL g, false);
   ("gossipsub.scoreInspectInterval", GossipSubConfig.ScoreInspectInterval g, false)]%string ++
  (if isTrue (GossipSubConfig.Enabled g) && isGossipRouter g then
   [("gossipsub.heartbeatInitialDelay", GossipSubParamsConfig.HeartbeatInitialDelay p, false);
    ("gossipsub.heartbeatInterval", GossipSubParamsConfig.HeartbeatInterval p, true);
    ("gossipsub.fanoutTTL", GossipSubParamsConfig.FanoutTTL p, false);
    ("gossipsub.pruneBackoff", GossipSubParamsConfig.PruneBackoff p, false);
    ("gossipsub.unsubscribeBackoff", GossipSubParamsConfig.UnsubscribeBackoff p, false);
    ("gossipsub.connectionTimeout", GossipSubParamsConfig.ConnectionTimeout p, false);
    ("gossipsub.directConnectInitialDelay",
       GossipSubParamsConfig.DirectConnectInitialDelay p, false);
    ("gossipsub.graftFloodThreshold", GossipSubParamsConfig.GraftFloodThreshold p, false);
    ("gossipsub.iWantFollowupTime", GossipSubParamsConfig.IWantFollowupTime p, false)]%string
   else []).

Definition checkDuration (name value : string) (positive : bool) : res unit :=
  if empty value then Ok tt
  else match Duration.parse value with
       | None => Err (name +:+ ": invalid duration")
       | Some d =>
           fail_if (d <? 0) (name +:+ " cannot be negative");;
           fail_if ((d =? 0) && positive) (name +:+ " must be positive")
       end.

Definition validateConnectionManager (cm : ConnectionManagerConfig.t) : res unit :=
  let low := ConnectionManagerConfig.LowWater cm in
  let high := ConnectionManagerConfig.HighWater cm in
  fail_if ((low <? 0) || (high <=? 0) || (high <? low))
    "connectionManager requires 0 <= lowWater <= highWater";;
  checkDuration "connectionManager.gracePeriod" (ConnectionManagerConfig.GracePeriod cm) false.

Definition Validate (c : t) : res unit :=
  let c := WithDefaults c in
  let k := Kademlia c in
  let g := GossipSub c in
  Attacks.ValidateAttacks (attackNode c) (attacks c);;
  fail_if (isTrue (GossipSubConfig.MeshFreeze g) && negb (isTrue (GossipSubConfig.Enabled g)))
    "meshFreeze requires enabled GossipSub";;
  wrap "network" (Network.Validate ParseFloat (Network c));;
  fail_if (empty (Type_ c)) "node type is required";;
  fail_if (negative (Libp2pConfig.ConnectionLimit (Libp2p c)))
    "libp2p connectionLimit cannot be negative";;
  (if isTrue (KademliaConfig.Enabled k) then validateKademlia k else Ok tt);;
  (if isTrue (GossipSubConfig.Enabled g) then validateGossipSub k g else Ok tt);;
  checkAll (λ '(name, value, positive), checkDuration name value positive) (durations c);;
  Attacks.whenSome (Libp2pConfig.ConnectionManager (Libp2p c)) validateConnectionManager.
End validate.
End NodeConfig.
