(* ===== verification/NodeConfigSafe.v ===== *)
(** * Validation never panics

    [NodeConfig.Validate] dereferences pointers of the configuration: the defaults
    it fills in first have made them non-nil, whatever was declared. *)
From Stdlib Require Import ZArith Lia Ascii.
From stdpp Require Import strings list gmap.
From S2P Require Import Prelude.
From S2P Require Import GoStd.
From S2P Require Import GoStrings.
From S2P Require Import Distribution.
From S2P Require Import Network.
From S2P Require Import NetworkProps.
From S2P Require Import Attacks.
From S2P Require Import PeerScore.
From S2P Require Import GossipSubConfig.
From S2P Require Import KademliaConfig.
From S2P Require Import NodeConfig.
From S2P Require Import NodeConfigProps.
Open Scope Z_scope.

(** ** Validation never panics *)
Lemma safe_whenSome {A} (p : option A) check :
  (∀ x, p = Some x → safe (check x)) → safe (Attacks.whenSome p check).
Proof. destruct p; cbn; eauto with safe. Qed.
Lemma safe_checkMap {V} (check : string → V → res unit) m :
  (∀ k v, safe (check k v)) → safe (checkMap check m).
Proof. intros H. apply safe_checkAll. intros [k v]. apply H. Qed.
Lemma safe_pubsubDuration n v p : safe (pubsubDuration n v p).
Proof. unfold pubsubDuration. safe_solve. Qed.
Lemma safe_probability p : safe (ProbabilityAttack.Validate p).
Proof. apply safe_fail_if. Qed.
Lemma safe_scoreDuration n r : safe (scoreDuration n r).
Proof. unfold scoreDuration. safe_solve. Qed.
#[local] Hint Resolve safe_pubsubDuration safe_probability safe_scoreDuration : safe.

Ltac safe_more :=
  repeat first
    [ progress safe_solve
    | apply safe_whenSome; intros
    | apply safe_checkMap; intros
    | solve [auto with safe] ].

Section safety.
Context `{PeerCodec} `{CIDRs} `{PubSubLib} (ParseFloat : string → option float).

Lemma safe_selector isPeers seen l : safe (AttackSelector.values isPeers seen l).
Proof. revert seen. induction l; intros; cbn; safe_more. Qed.
Lemma safe_selectorValidate s : safe (AttackSelector.Validate s).
Proof. destruct s; cbn; safe_more; apply safe_selector. Qed.
Lemma safe_distinctTopics seen l : safe (Attacks.distinctTopics seen l).
Proof. revert seen. induction l; intros; cbn; safe_more. Qed.
#[local] Hint Resolve safe_selectorValidate safe_distinctTopics : safe.

Lemma safe_attackSyntax c : safe (Attacks.ValidateAttackSyntax c).
Proof.
  unfold Attacks.ValidateAttackSyntax, Attacks.syntaxForwarding, Attacks.syntaxInvalidMessage.
  safe_more.
Qed.

Lemma safe_attackTopics n v r : safe (Attacks.attackTopics n v r).
Proof. unfold Attacks.attackTopics. safe_more. Qed.
Lemma safe_controls n p : safe (Attacks.controls n p).
Proof. unfold Attacks.controls. safe_more. apply safe_attackTopics. Qed.
#[local] Hint Resolve safe_attackSyntax safe_attackTopics safe_controls : safe.

(** The defaults make every pointer the attack checks dereference non-nil. *)
Lemma safe_deref_orElse {A} (p : option A) v : safe (deref (orElse p v)).
Proof. by destruct p. Qed.
Lemma safe_badCount_orElse p v : safe (Attacks.badCount (orElse p v)).
Proof. by destruct p. Qed.
#[local] Hint Resolve @safe_deref_orElse safe_badCount_orElse : safe.

Lemma safe_effectiveMessageDelay c :
  safe (Attacks.effectiveMessageDelay (Attacks.defaultAttacks c)).
Proof.
  unfold Attacks.effectiveMessageDelay, Attacks.defaultAttacks. rewrite mergeAttacks_zero. cbn.
  destruct (Attacks.MessageDelay c) as [p|]; cbn -[orElse]; safe_more.
Qed.
Lemma safe_effectiveConnection n c :
  safe (Attacks.effectiveConnection n (Attacks.defaultAttacks c)).
Proof.
  unfold Attacks.effectiveConnection, Attacks.defaultAttacks. rewrite mergeAttacks_zero. cbn.
  destruct (Attacks.ConnectionAttack c) as [p|]; cbn -[orElse]; safe_more.
Qed.
Lemma safe_effectiveGraftFlood n c :
  safe (Attacks.effectiveGraftFlood n (Attacks.defaultAttacks c)).
Proof.
  unfold Attacks.effectiveGraftFlood, Attacks.defaultAttacks. rewrite mergeAttacks_zero. cbn.
  destruct (Attacks.GraftFlood c) as [p|]; cbn -[orElse]; safe_more.
Qed.
Lemma safe_effectiveIHaveSpam n c :
  safe (Attacks.effectiveIHaveSpam n (Attacks.defaultAttacks c)).
Proof.
  unfold Attacks.effectiveIHaveSpam, Attacks.defaultAttacks. rewrite mergeAttacks_zero. cbn.
  destruct (Attacks.IHaveSpam c) as [p|]; cbn -[orElse]; safe_more.
Qed.
#[local] Hint Resolve safe_effectiveMessageDelay safe_effectiveConnection
  safe_effectiveGraftFlood safe_effectiveIHaveSpam : safe.

Lemma safe_attacks n c : safe (Attacks.ValidateAttacks n c).
Proof.
  unfold Attacks.ValidateAttacks, Attacks.effectiveCensorship, Attacks.effectiveRouter. safe_more.
Qed.
#[local] Hint Resolve safe_attacks : safe.

(** *** The network *)
Lemma safe_networkDuration n v : safe (networkDuration n v).
Proof. unfold networkDuration. safe_more. Qed.
Lemma safe_parseDurationOrZero v : safe (parseDurationOrZero v).
Proof. unfold parseDurationOrZero. safe_more. Qed.
#[local] Hint Resolve safe_networkDuration safe_parseDurationOrZero : safe.
Lemma safe_positiveDuration v n : safe (positiveDuration v n).
Proof. unfold positiveDuration. safe_more. Qed.
#[local] Hint Resolve safe_positiveDuration : safe.

Lemma safe_distribution d optional : safe (Distribution.Validate ParseFloat d optional).
Proof. unfold Distribution.Validate, checkModel, lognormalSigma. safe_more. Qed.
#[local] Hint Resolve safe_distribution : safe.

Lemma safe_settings c : safe (checkSettings ParseFloat c).
Proof. unfold checkSettings, checkDelayDistribution, checkPercents, checkTBF. cbn. safe_more. Qed.
#[local] Hint Resolve safe_settings : safe.

(** No scheduled state has a schedule, so the recursion stops at the second level. *)
Lemma safe_scheduleLoop fuel i previous current l :
  Schedule current = None →
  safe (scheduleLoop (validate ParseFloat (S fuel)) i previous current l).
Proof.
  revert i previous current. induction l as [|ch l IH]; intros i previous current Hs; [done|].
  cbn [scheduleLoop]. destruct (Duration.parse (After ch)); [|done].
  do 2 (apply safe_bind; [apply safe_fail_if|intros _ _]).
  destruct (Schedule (Set_ ch)) eqn:Hset; [done|].
  apply safe_bind; [apply safe_fail_if|intros _ _].
  pose proof (Schedule_Merge _ _ Hs Hset) as Hm.
  apply safe_bind; [apply safe_wrap; rewrite validate_flat by done; apply safe_settings|].
  intros _ _. by apply IH.
Qed.

Lemma safe_network c : safe (Network.Validate ParseFloat c).
Proof.
  change (safe (checkSettings ParseFloat c;; validateSchedule (validate ParseFloat 1) c)).
  apply safe_bind; [apply safe_settings|intros _ _]. unfold validateSchedule.
  destruct (Schedule c); [|done]. do 2 (apply safe_bind; [apply safe_fail_if|intros _ _]).
  by apply safe_scheduleLoop.
Qed.
#[local] Hint Resolve safe_network : safe.

(** *** The DHT and PubSub *)
Lemma safe_kademlia k : safe (NodeConfig.validateKademlia k).
Proof.
  unfold NodeConfig.validateKademlia, KademliaConfig.Validate, KademliaConfig.validateFilter,
    KademliaConfig.validateBootstrap, KademliaConfig.validateValidator,
    KademliaConfig.validateNamespace, KademliaConfig.validateProviderStore,
    KademliaConfig.validateAmino.
  safe_more.
Qed.
#[local] Hint Resolve safe_kademlia : safe.

Lemma safe_validator v : safe (PubSubValidatorConfig.Validate v).
Proof. unfold PubSubValidatorConfig.Validate. safe_more. Qed.
Lemma safe_gater g : safe (PeerGaterConfig.Validate g).
Proof. unfold PeerGaterConfig.Validate. safe_more. Qed.
Lemma safe_discovery d : safe (PubSubDiscoveryConfig.Validate d).
Proof.
  unfold PubSubDiscoveryConfig.Validate, PubSubDiscoveryConfig.validateConnector. safe_more.
Qed.
Lemma safe_identity a : safe (PubSubAuthorConfig.Identity a).
Proof. unfold PubSubAuthorConfig.Identity. safe_more. Qed.
Lemma safe_features seen l : safe (GossipSubConfig.featuresLoop seen l).
Proof. revert seen. induction l; intros; cbn; safe_more. Qed.
#[local] Hint Resolve safe_validator safe_gater safe_discovery safe_identity safe_features : safe.

Lemma safe_protocols router seen l : safe (GossipSubConfig.protocolsLoop router seen l).
Proof.
  revert seen. induction l; intros; cbn; unfold GossipSubConfig.validateProtocol; safe_more.
Qed.
Lemma safe_peerIDs l : safe (GossipSubConfig.validatePeerIDs l).
Proof. unfold GossipSubConfig.validatePeerIDs. safe_more. Qed.
#[local] Hint Resolve safe_protocols safe_peerIDs : safe.

Lemma safe_extended g : safe (GossipSubConfig.ValidateExtended g).
Proof.
  unfold GossipSubConfig.ValidateExtended, GossipSubConfig.validateMessageID,
    GossipSubConfig.validateProtocols, GossipSubConfig.validateDirectPeers,
    GossipSubConfig.validatePeerFilter, GossipSubConfig.validateBlacklist,
    GossipSubConfig.validateSubscriptionFilter, GossipSubConfig.validateTopicOption,
    GossipSubConfig.validateDefaultValidator, GossipSubConfig.validateRPCInspector,
    GossipSubConfig.validateAuthor, GossipSubConfig.validatePublish,
    GossipSubConfig.validateMessageID.
  safe_more.
Qed.

Lemma safe_peers w seen l : safe (AppSpecificScoreConfig.peersLoop w seen l).
Proof. revert seen. induction l as [|[] l IH]; intros; cbn; safe_more. Qed.
#[local] Hint Resolve safe_extended safe_peers : safe.

Lemma safe_topicScore c : safe (TopicScoreConfig.validate c).
Proof.
  unfold TopicScoreConfig.validate, TopicScoreConfig.validateSyntax,
    TopicScoreConfig.validateTimeInMesh, TopicScoreConfig.validateFirstMessage,
    TopicScoreConfig.validateMeshMessage, TopicScoreConfig.validateMeshFailure,
    TopicScoreConfig.validateInvalidMessage, finiteScoreValues, nonNegativeDurations.
  safe_more.
Qed.
#[local] Hint Resolve safe_topicScore : safe.

Lemma safe_score c : safe (PeerScoreConfig.Validate c).
Proof.
  unfold PeerScoreConfig.Validate, PeerScoreConfig.validateSyntax,
    PeerScoreConfig.validateColocation, PeerScoreConfig.validateWhitelist,
    PeerScoreConfig.validateBehaviour, PeerScoreConfig.validateDecay,
    AppSpecificScoreConfig.validate, PeerScoreThresholdsConfig.validate,
    TopicScoreConfig.validateSyntax, finiteScoreValues, nonNegativeDurations.
  safe_more.
Qed.
#[local] Hint Resolve safe_score : safe.

(** The scalar tuning is dereferenced after its defaults. *)
Lemma safe_derefAll {A} (l : list (option A)) :
  Forall (λ p, p ≠ None) l → safe (NodeConfig.derefAll l).
Proof. induction 1; cbn; safe_more. Qed.

Lemma orElse_Some {A} (p : option A) v : orElse p v ≠ None.
Proof. by destruct p. Qed.

Lemma safe_params p :
  safe (NodeConfig.validateParams (GossipSubParamsConfig.WithDefaults p)).
Proof.
  unfold NodeConfig.validateParams. repeat (apply safe_bind; [|intros _ _]).
  - unfold NodeConfig.validateDegrees. cbn -[orElse]. safe_more.
  - unfold NodeConfig.validateHistory. cbn -[orElse]. safe_more.
  - unfold NodeConfig.validateTicks. cbn -[orElse]. safe_more.
  - unfold NodeConfig.validateFactors. cbn -[orElse F64.one]. safe_more.
  - unfold NodeConfig.validateCounts. apply safe_bind; [|intros; safe_more].
    apply safe_derefAll. repeat apply list.Forall_cons_2; try apply orElse_Some; constructor.
Qed.
#[local] Hint Resolve safe_params : safe.

Lemma safe_gossip k g : safe (NodeConfig.validateGossipSub k (GossipSubConfig.WithDefaults g)).
Proof.
  unfold NodeConfig.validateGossipSub, NodeConfig.validateDiscovery,
    NodeConfig.validateScoreTopics, NodeConfig.validateRandomsub,
    NodeConfig.validateOtherRouter, NodeConfig.validateSizes.
  repeat (apply safe_bind; [|intros _ _]); safe_more. apply safe_params.
Qed.
#[local] Hint Resolve safe_gossip : safe.

Lemma safe_checkDuration n v p : safe (NodeConfig.checkDuration n v p).
Proof. unfold NodeConfig.checkDuration. safe_more. Qed.
#[local] Hint Resolve safe_checkDuration : safe.

(** The validation of any configuration returns. *)
Lemma safe_Validate c : safe (NodeConfig.Validate ParseFloat c).
Proof.
  unfold NodeConfig.Validate. cbv zeta. safe_more; [apply safe_gossip|].
  unfold NodeConfig.validateConnectionManager. safe_more.
Qed.
End safety.

(** C40: validation is total and does not depend on how much of a configuration is
    spelt out: for any declaration, however many of its pointers are nil, it
    returns a result or an error without dereferencing nil; filling in the
    defaults twice is filling them in once; and a declaration and its completed
    form get the same verdict with the same message. *)
Theorem validation_total `{PeerCodecLaws} `{CIDRs} `{PubSubLib}
    (ParseFloat : string → option float) (c : NodeConfig.t) :
  NodeConfig.Validate ParseFloat c ≠ Panic ∧
  NodeConfig.WithDefaults (NodeConfig.WithDefaults c) = NodeConfig.WithDefaults c ∧
  NodeConfig.Validate ParseFloat (NodeConfig.WithDefaults c) = NodeConfig.Validate ParseFloat c.
Proof.
  split; [apply safe_Validate|]. split; [apply node_WithDefaults_idemp|].
  unfold NodeConfig.Validate. by rewrite node_WithDefaults_idemp.
Qed.

Module NodeConfigSafeExamples.
(** Two texts for every ID, of which [peerString] gives one. *)
#[local] Instance codec : PeerCodec :=
  {| peerDecode s := match s with
                     | String "1"%char id => Some id | String "Q"%char id => Some id | _ => None end;
     peerString id := String "1"%char id |}.
#[local] Instance codecLaws : PeerCodecLaws.
Proof. by constructor. Qed.
#[local] Instance cidrs : CIDRs := {| IPNet := string; ParseCIDR s := Some s |}.
#[local] Instance pubsubLib : PubSubLib :=
  {| Regexp := string; regexpCompile s := Some s; MatchString r s := bool_decide (r = s);
     base64Decode s := Some s; Multiaddr := string; NewMultiaddr s := Some s;
     AddrInfoFromP2pAddr s := Some (s, 1%nat); PrivKey := string;
     UnmarshalPrivateKey s := Some s; IDFromPrivateKey s := Some s |}.

(** A sender that floods one neighbour with GRAFTs. *)
Definition attacker : NodeConfig.t :=
  NodeConfig.mk
    (Attacks.mk None None None None None None
       (Some (GraftFloodConfig.mk
                (ControlAttackConfig.mk (Some true) (Some ["kpl/default"%string])
                   (Some (AttackSelector.mk None None (Some ["Qvictim"%string]))) "") None None))
       None None)
    "worker" None 0 0 0 0 0 "" 0 Libp2pConfig.zero KademliaConfig.zero GossipSubConfig.zero
    zeroNetwork.

Lemma validation_total_witness :
  NodeConfig.Validate (λ _, None) attacker = Ok tt ∧
  (NodeConfig.Validate (λ _, None) attacker ≠ Panic ∧
   NodeConfig.WithDefaults (NodeConfig.WithDefaults attacker) = NodeConfig.WithDefaults attacker ∧
   NodeConfig.Validate (λ _, None) (NodeConfig.WithDefaults attacker) =
   NodeConfig.Validate (λ _, None) attacker).
Proof. split; [vm_compute; reflexivity|exact (validation_total (λ _, None) attacker)]. Defined.
End NodeConfigSafeExamples.
