(* ===== verification/NodeConfigBuild.v ===== *)
(** * An accepted configuration builds its PubSub

    What [NodeConfig.Validate] accepts on the Controller, [gossipSubOptions] turns
    into options on the Peer and the library applies: no option is refused and no
    channel, cache or regular expression panics. *)
From Stdlib Require Import ZArith Lia.
From stdpp Require Import strings list gmap.
From S2P Require Import Prelude.
From S2P Require Import GoStd.
From S2P Require Import GoStrings.
From S2P Require Import Network.
From S2P Require Import Attacks.
From S2P Require Import PeerScore.
From S2P Require Import PeerScoreProps.
From S2P Require Import GossipSubConfig.
From S2P Require Import PeerGossipSub.
From S2P Require Import KademliaConfig.
From S2P Require Import NodeConfig.
From S2P Require Import NodeConfigProps.
Open Scope Z_scope.

(** ** Options that leave the parameters alone *)
Section keeps.
Context `{CIDRs}.

Definition building (R : bool) (b : Building) : Prop :=
  gossipRouter b = R ∧ validateHopwaveParams (params b) = Ok tt.

Definition keeps (R : bool) (o : PubSubOption) : Prop :=
  ∀ b, building R b →
    ∃ b', applyOption b o = Ok b' ∧ building R b' ∧ params b' = params b.

Lemma applyOptions_app b l k : applyOptions b (l ++ k) = (b ← applyOptions b l; applyOptions b k).
Proof.
  revert b. induction l as [|o l IH]; intros b; [done|]. cbn.
  destruct (applyOption b o); cbn; [apply IH|done|done].
Qed.

Lemma applyOptions_keeps R l b :
  Forall (keeps R) l → building R b →
  ∃ b', applyOptions b l = Ok b' ∧ building R b' ∧ params b' = params b.
Proof.
  intros Hl. revert b. induction Hl as [|o l Ho _ IH]; intros b Hb; [by exists b|].
  destruct (Ho b Hb) as (b1 & Hb1 & Hi & Hp). destruct (IH b1 Hi) as (b2 & Hb2 & Hi2 & Hp2).
  exists b2. cbn. rewrite Hb1. cbn. by rewrite Hb2, Hp2.
Qed.

(** An option that neither fails nor writes. *)
Lemma option_keeps R o : (∀ b, building R b → applyOption b o = Ok b) → keeps R o.
Proof. intros Ho b Hb. exists b. by rewrite Ho. Qed.

Lemma keeps_hopwave : keeps true (WithHopwavePublish true).
Proof.
  intros b [Hr Hp]. eexists. cbn [applyOption]. unfold needsGossip. rewrite Hr, Hp.
  split_and!; done.
Qed.

Lemma keeps_option_of {A} R (p : option A) f : (∀ v, p = Some v → keeps R (f v)) →
  Forall (keeps R) (option_of p f).
Proof. destruct p as [v|]; [|constructor]. intros Hf. constructor; [by apply Hf|constructor]. Qed.
Lemma keeps_if R (b : bool) o : (b = true → keeps R o) → Forall (keeps R) (if b then [o] else []).
Proof. destruct b; [|constructor]. intros Ho. constructor; [by apply Ho|constructor]. Qed.
Lemma keeps_if_not R (b : bool) o :
  (b = false → keeps R o) → Forall (keeps R) (if b then [] else [o]).
Proof. destruct b; [constructor|]. intros Ho. constructor; [by apply Ho|constructor]. Qed.

Lemma keeps_gossip o : (∀ b, applyOption b o = (needsGossip b;; Ok b)) → keeps true o.
Proof. intros Ho. apply option_keeps. intros b [Hr _]. rewrite Ho. unfold needsGossip. by rewrite Hr. Qed.
End keeps.

Create HintDb keeps.
#[local] Hint Resolve keeps_hopwave : keeps.
#[local] Hint Extern 1 (keeps _ _) => by apply option_keeps : keeps.
#[local] Hint Extern 2 (keeps true _) => by apply keeps_gossip : keeps.

(** An element of a list written out. *)
Ltac in_list := solve [repeat first [apply list_elem_of_here | apply list_elem_of_further]].

(** ** The extended options *)
Section build.
Context `{PeerCodec} `{CIDRs} `{PubSubLib} `{Pow}.
(** The pattern of a filter without a pattern compiles, and the library's default
    decays are in its own range. *)
Context (match_all : regexpCompile "(?s).*" ≠ None).
Context (default_decays :
  ∀ d, d ∈ [2 * Duration.Minute; Duration.Hour] →
    PeerGaterParams.outsideUnit (PeerGaterParams.ScoreParameterDecay d) = false).

Lemma MustCompile_ok pattern : isNil (regexpCompile pattern) = false → MustCompile pattern = Ok tt.
Proof. unfold MustCompile. by destruct (regexpCompile pattern). Qed.

Lemma subscriptionFilter_ok topics f :
  GossipSubConfig.validateSubscriptionFilter topics f = Ok tt →
  gossipSubscriptionFilter f = Ok (WithSubscriptionFilter f).
Proof.
  unfold GossipSubConfig.validateSubscriptionFilter, gossipSubscriptionFilter. intros Hv.
  apply seq_ok in Hv as [_ Hv]. apply bind_ok in Hv as (rx & Hrx & _).
  destruct (noElems _); [|done]. cbn [negb].
  rewrite MustCompile_ok; [done|]. revert Hrx. destruct (empty _); intros Hrx.
  - by destruct (regexpCompile "(?s).*") eqn:Hrx'.
  - by destruct (regexpCompile (PubSubSubscriptionFilterConfig.Pattern f)).
Qed.

Lemma validator_ok v :
  PubSubValidatorConfig.Validate v = Ok tt → gossipValidator v = Ok (WithDefaultValidator v).
Proof.
  intros Hv. unfold gossipValidator. rewrite Hv. cbn [mbind res_bind].
  unfold PubSubValidatorConfig.Validate in Hv. rewrite !seq_ok in Hv.
  destruct Hv as (_ & _ & _ & _ & Hp & _). destruct (negb (empty _)); [|done].
  apply fail_if_ok in Hp. by rewrite MustCompile_ok.
Qed.

Lemma appendAll_ok {A B} (f : A → res B) (g : A → B) l :
  Forall (λ x, f x = Ok (g x)) l → appendAll f l = Ok (map g l).
Proof. induction 1 as [|x l Hx _ IH]; [done|]. cbn. by rewrite Hx, IH. Qed.

Lemma keeps_validator R v : keeps R (WithDefaultValidator v).
Proof.
  apply option_keeps. intros b _. cbn. destruct (PubSubValidatorConfig.Concurrency v) as [n|]; [|done].
  unfold makeChan. destruct (0 <? n) eqn:Hn; [|done].
  apply Z.ltb_lt in Hn. by destruct (Z.ltb_spec n 0); [lia|].
Qed.

Lemma directPeers_ok g byID :
  GossipSubConfig.validateDirectPeers g = Ok tt →
  ∃ m, directPeersLoop byID (elems (GossipSubConfig.DirectPeers g)) = Ok m.
Proof.
  unfold GossipSubConfig.validateDirectPeers. rewrite checkAll_ok. intros Hl. revert byID.
  induction Hl as [|raw l Hr _ IH]; intros byID; [by eexists|]. cbn [directPeersLoop].
  destruct (NewMultiaddr raw) as [a|]; [|done]. cbn.
  destruct (AddrInfoFromP2pAddr a) as [info|]; [|done]. cbn. apply IH.
Qed.

(** *** The peer gater *)
(** The range an accepted setting of the gater is in, by its name. *)
Definition inGater (name : string) (v : float) : bool :=
  negb (F64.leb v F64.zero) &&
  negb (oneOf name ["globalDecay";"sourceDecay";"decayToZero"]%string &&
        PeerGaterConfig.atLeastOne v) &&
  negb (oneOf name ["ignoreWeight";"rejectWeight"]%string && PeerGaterConfig.belowOne v).

Lemma inGater_pos name v : inGater name v = true → F64.leb v F64.zero = false.
Proof.
  unfold inGater. intros Hv. do 2 apply andb_true_iff in Hv as [Hv _]. by apply negb_true_iff.
Qed.
Lemma inGater_decay name v :
  oneOf name ["globalDecay";"sourceDecay";"decayToZero"]%string = true →
  inGater name v = true → PeerGaterParams.outsideUnit v = false.
Proof.
  intros Hn Hv. unfold PeerGaterParams.outsideUnit. rewrite (inGater_pos name v Hv). cbn.
  unfold inGater in Hv. rewrite Hn in Hv. apply andb_true_iff in Hv as [Hv _].
  apply andb_true_iff in Hv as [_ Hv]. by apply negb_true_iff in Hv.
Qed.
Lemma inGater_weight name v :
  oneOf name ["ignoreWeight";"rejectWeight"]%string = true →
  inGater name v = true → F64.ltb v F64.one = false.
Proof.
  intros Hn Hv. unfold inGater in Hv. rewrite Hn in Hv. apply andb_true_iff in Hv as [_ Hv].
  by apply negb_true_iff in Hv.
Qed.

Lemma inGater_default name d : d ∈ [2 * Duration.Minute; Duration.Hour] →
  oneOf name ["ignoreWeight";"rejectWeight"]%string = false →
  inGater name (PeerGaterParams.ScoreParameterDecay d) = true.
Proof.
  intros Hd Hn. apply default_decays, orb_false_iff in Hd as [Hlo Hhi].
  unfold inGater, PeerGaterConfig.atLeastOne. rewrite Hlo, Hhi, Hn. by rewrite andb_false_r.
Qed.

Lemma gater_value name p fallback :
  Attacks.whenSome p (λ v,
    fail_if (negb (validNumber v) || F64.leb v F64.zero) (name +:+ " must be finite and positive");;
    fail_if (oneOf name ["globalDecay";"sourceDecay";"decayToZero"]%string &&
             PeerGaterConfig.atLeastOne v) (name +:+ " must be below 1");;
    fail_if (oneOf name ["ignoreWeight";"rejectWeight"]%string && PeerGaterConfig.belowOne v)
      (name +:+ " must be at least 1")) = Ok tt →
  inGater name fallback = true → inGater name (PeerGaterParams.orFloat p fallback) = true.
Proof.
  destruct p as [v|]; [|done]. cbn [Attacks.whenSome PeerGaterParams.orFloat default].
  rewrite !seq_ok, !fail_if_ok. intros (Hp & Hhi & Hlo) _. apply orb_false_iff in Hp as [_ Hp].
  unfold inGater. cbn. by rewrite Hp, Hhi, Hlo.
Qed.

Lemma gater_duration name value fallback :
  (pubsubDuration name value false;;
   if negb (empty value) && negb (bool_decide (name = "retainStats"%string)) then
     fail_if (default 0 (Duration.parse value) <? Duration.Second) (name +:+ " must be at least 1s")
   else Ok tt) = Ok tt →
  name ≠ "retainStats"%string → Duration.Second ≤ fallback →
  (PeerGaterParams.orDuration value fallback <? Duration.Second) = false.
Proof.
  intros Hv Hn Hf. apply seq_ok in Hv as [_ Hv]. apply Z.ltb_ge.
  unfold PeerGaterParams.orDuration. rewrite bool_decide_eq_false_2 in Hv by done.
  destruct (empty value); [done|]. cbn in Hv. apply fail_if_ok in Hv. by apply Z.ltb_ge.
Qed.

Lemma gater_starts c :
  PeerGaterConfig.Validate c = Ok tt →
  PeerGaterParams.validate (PeerGaterParams.gossipPeerGater c) = Ok tt.
Proof.
  unfold PeerGaterConfig.Validate. rewrite !seq_ok, !checkAll_ok. intros (Hf & Hd & _).
  assert (∀ name p fallback, (name, p) ∈ [("threshold", PeerGaterConfig.Threshold c);
     ("globalDecay", PeerGaterConfig.GlobalDecay c); ("sourceDecay", PeerGaterConfig.SourceDecay c);
     ("decayToZero", PeerGaterConfig.DecayToZero c);
     ("duplicateWeight", PeerGaterConfig.DuplicateWeight c);
     ("ignoreWeight", PeerGaterConfig.IgnoreWeight c);
     ("rejectWeight", PeerGaterConfig.RejectWeight c)]%string →
     inGater name fallback = true → inGater name (PeerGaterParams.orFloat p fallback) = true) as Hin.
  { intros name p fallback Hp. apply gater_value. rewrite list.Forall_forall in Hf.
    by apply (Hf (name, p)). }
  rewrite !list.Forall_cons in Hd. destruct Hd as (Hinterval & Hquiet & _).
  unfold PeerGaterParams.validate, PeerGaterParams.gossipPeerGater.
  cbn [PeerGaterParams.Threshold PeerGaterParams.GlobalDecay PeerGaterParams.SourceDecay
       PeerGaterParams.DecayInterval PeerGaterParams.DecayToZero PeerGaterParams.Quiet
       PeerGaterParams.DuplicateWeight PeerGaterParams.IgnoreWeight PeerGaterParams.RejectWeight].
  rewrite !seq_ok, !fail_if_ok. split_and!.
  - apply (inGater_pos "threshold"), Hin; [in_list|by vm_compute].
  - apply (inGater_decay "globalDecay"); [done|]. apply Hin; [in_list|].
    apply inGater_default; [in_list|done].
  - apply (inGater_decay "sourceDecay"); [done|]. apply Hin; [in_list|].
    apply inGater_default; [in_list|done].
  - by apply (gater_duration "decayInterval").
  - apply (inGater_decay "decayToZero"); [done|]. apply Hin; [in_list|by vm_compute].
  - by apply (gater_duration "quiet").
  - apply (inGater_pos "duplicateWeight"), Hin; [in_list|by vm_compute].
  - apply (inGater_weight "ignoreWeight"); [done|]. apply Hin; [in_list|by vm_compute].
  - apply (inGater_weight "rejectWeight"); [done|]. apply Hin; [in_list|by vm_compute].
Qed.

(** *** The option lists *)
Notation isGossip g := (bool_decide (GossipSubConfig.Router g = "gossipsub"%string)).

Lemma routerOptions_ok g :
  GossipSubConfig.validateDirectPeers g = Ok tt →
  Attacks.whenSome (GossipSubConfig.PeerGater g) (λ p, wrap "peerGater" (PeerGaterConfig.Validate p))
    = Ok tt →
  ∃ l, routerOptions g = Ok l ∧ Forall (keeps (isGossip g)) l.
Proof.
  intros Hd Hg. unfold routerOptions. destruct (isGossip g); [|by exists []]. cbn [negb].
  destruct (directPeers_ok g ∅ Hd) as (m & Hm). rewrite Hm. cbn [mbind res_bind].
  eexists. split; [done|]. rewrite !list.Forall_app. split_and!.
  - apply keeps_if_not. auto with keeps.
  - apply keeps_if_not. auto with keeps.
  - apply keeps_option_of. intros p Hp. rewrite Hp in Hg. cbn in Hg. apply wrap_ok in Hg.
    apply option_keeps. intros b [Hb _]. cbn [applyOption compose]. unfold needsGossip.
    rewrite Hb. cbn. by rewrite (gater_starts p Hg).
Qed.

Lemma extended_ok g :
  GossipSubConfig.ValidateExtended g = Ok tt →
  ∃ l, gossipExtendedOptions g = Ok l ∧ Forall (keeps (isGossip g)) l.
Proof.
  intros Hv. unfold gossipExtendedOptions. rewrite Hv. cbn [mbind res_bind].
  unfold GossipSubConfig.ValidateExtended in Hv. rewrite !seq_ok in Hv.
  destruct Hv as (_ & _ & _ & _ & _ & Hdirect & _ & _ & Hfilter & _ & Hval & _ & Hgater & _).
  destruct (routerOptions_ok g Hdirect Hgater) as (router & Hr & Hrouter). rewrite Hr.
  rewrite (appendAll_ok _ WithDefaultValidator).
  2: { apply checkAll_ok in Hval. eapply list.Forall_impl; [exact Hval|]. intros v Hv.
       unfold GossipSubConfig.validateDefaultValidator in Hv. apply seq_ok in Hv as [_ Hv].
       apply wrap_ok in Hv. by apply validator_ok. }
  assert (∃ filter, (match GossipSubConfig.SubscriptionFilter g with
            | Some f => o ← gossipSubscriptionFilter f; Ok [o] | None => Ok [] end) = Ok filter ∧
          Forall (keeps (isGossip g)) filter) as (filter & Hf & Hkf).
  { destruct (GossipSubConfig.SubscriptionFilter g) as [f|]; [|by exists []].
    rewrite (subscriptionFilter_ok (GossipSubConfig.Topics g)) by done. cbn.
    eexists. split; [done|]. constructor; [|constructor]. auto with keeps. }
  rewrite Hf. cbn [mbind res_bind]. eexists. split; [done|].
  rewrite !list.Forall_app. split_and!; try done.
  - apply keeps_if_not. auto with keeps.
  - destruct (oneOf _ ["first-seen"]%string); [|apply keeps_if; auto with keeps].
    constructor; [auto with keeps|constructor].
  - apply keeps_option_of. auto with keeps.
  - apply keeps_option_of. auto with keeps.
  - apply keeps_if_not. auto with keeps.
  - apply keeps_option_of. auto with keeps.
  - apply list.Forall_fmap, list.Forall_true. intros v. apply keeps_validator.
Qed.

(** *** The parameters *)
Section params.
Context (ParseFloat : string → option float) (c : NodeConfig.t).
Let g := NodeConfig.GossipSub (NodeConfig.WithDefaults c).
Let p := GossipSubConfig.Params g.
Context (gossip : isTrue (GossipSubConfig.Enabled g) = true) (router : isGossip g = true).
Context (checked : checkAll (λ '(name, value, positive),
  NodeConfig.checkDuration name value positive)
  (NodeConfig.durations (NodeConfig.WithDefaults c)) = Ok tt).

Lemma checkDuration_ok name value positive :
  NodeConfig.checkDuration name value positive = Ok tt → value ≠ ""%string →
  ∃ d, Duration.parse value = Some d ∧ 0 ≤ d ∧ (positive = true → 0 < d).
Proof.
  unfold NodeConfig.checkDuration, empty. intros Hc Hv. rewrite bool_decide_eq_false_2 in Hc by done.
  destruct (Duration.parse value) as [d|]; [|done]. rewrite seq_ok, !fail_if_ok in Hc.
  destruct Hc as [Hneg Hpos]. exists d. apply Z.ltb_ge in Hneg. split_and!; [done..|].
  intros ->. destruct (Z.eqb_spec d 0); [done|lia].
Qed.

(** Every duration of the parameters has a default, so it parses. *)
Lemma param_duration name value positive :
  (name, value, positive) ∈ NodeConfig.durations (NodeConfig.WithDefaults c) →
  value ≠ ""%string → ∃ d, parseParam value = Ok d ∧ 0 ≤ d ∧ (positive = true → 0 < d).
Proof.
  intros Hin Hv. rewrite checkAll_ok, list.Forall_forall in checked.
  destruct (checkDuration_ok name value positive) as (d & Hd & Hr); [by apply (checked (_,_,_))|done|].
  exists d. unfold parseParam. by rewrite Hd.
Qed.

Lemma orText_nonempty s v : v ≠ ""%string → orText s v ≠ ""%string.
Proof. intros Hv. unfold orText. destruct (bool_decide_reflect (s = ""%string)); done. Qed.

Lemma params_duration name value positive :
  (name, value, positive) ∈
    [("gossipsub.heartbeatInitialDelay", GossipSubParamsConfig.HeartbeatInitialDelay p, false);
     ("gossipsub.heartbeatInterval", GossipSubParamsConfig.HeartbeatInterval p, true);
     ("gossipsub.fanoutTTL", GossipSubParamsConfig.FanoutTTL p, false);
     ("gossipsub.pruneBackoff", GossipSubParamsConfig.PruneBackoff p, false);
     ("gossipsub.unsubscribeBackoff", GossipSubParamsConfig.UnsubscribeBackoff p, false);
     ("gossipsub.connectionTimeout", GossipSubParamsConfig.ConnectionTimeout p, false);
     ("gossipsub.directConnectInitialDelay",
        GossipSubParamsConfig.DirectConnectInitialDelay p, false);
     ("gossipsub.graftFloodThreshold", GossipSubParamsConfig.GraftFloodThreshold p, false);
     ("gossipsub.iWantFollowupTime", GossipSubParamsConfig.IWantFollowupTime p, false)]%string →
  ∃ d, parseParam value = Ok d ∧ 0 ≤ d ∧ (positive = true → 0 < d).
Proof.
  intros Hin. apply (param_duration name).
  - unfold NodeConfig.durations. fold g p. unfold NodeConfig.isGossipRouter.
    rewrite gossip, router. cbn [andb]. apply elem_of_app. by right.
  - repeat (apply elem_of_cons in Hin as [Hin|Hin]; [injection Hin as _ -> _|]).
    all: try (by apply orText_nonempty). by apply not_elem_of_nil in Hin.
Qed.

Lemma parse_ok value (P : Z → Prop) :
  (∃ d, parseParam value = Ok d ∧ P d) → ∃ d, parseParam value = Ok d.
Proof. naive_solver. Qed.

Record startable (r : GossipSubRuntimeParams.t) (q : GossipSubParams.t) : Prop := {
  start_config : GossipSubRuntimeParams.ofConfig p = Ok r;
  start_runtime : GossipSubRuntimeParams.Validate r = Ok tt;
  start_params : gossipSubParams p = Ok q;
  start_hopwave : validateHopwaveParams q = Ok tt;
  start_channel : makeChan (GossipSubParams.MaxPendingConnections q) = Ok tt;
  start_cache : NewMessageCache (GossipSubParams.HistoryGossip q) (GossipSubParams.HistoryLength q)
                = Ok tt;
  start_heartbeat : 0 < GossipSubParams.HeartbeatInterval q }.

(** Take the dereferences of a successful check apart. *)
Ltac bind_inv := repeat match goal with
  | Hm : (mbind _ (deref _)) = Ok _ |- _ => apply bind_ok in Hm as (? & ? & Hm)
  | Hm : (mbind _ (fail_if _ _)) = Ok _ |- _ => apply seq_ok in Hm as [? Hm]
  | Hm : mbind _ (NodeConfig.derefAll _) = Ok _ |- _ => apply bind_ok in Hm as (? & ? & Hm)
  | Hm : fail_if _ _ = Ok _ |- _ => apply fail_if_ok in Hm
  end.

Lemma derefAll_cons {A} (x : option A) l v :
  NodeConfig.derefAll (x :: l) = Ok v →
  ∃ a rest, deref x = Ok a ∧ NodeConfig.derefAll l = Ok rest ∧ v = a :: rest.
Proof.
  cbn. intros Hv. apply bind_ok in Hv as (a & Ha & Hv). apply bind_ok in Hv as (rest & Hr & Hv).
  injection Hv as <-. by exists a, rest.
Qed.

Lemma notFraction_bad v :
  NodeConfig.notFraction v = false →
  F64.isNaN v || F64.isInf v || neg v || F64.ltb F64.one v = false.
Proof.
  unfold NodeConfig.notFraction, validNumber. intros Hv. rewrite <- Hv.
  by destruct (F64.isNaN v), (F64.isInf v).
Qed.

(** The runtime parameters a profile update applies are accepted as they are. *)
Lemma runtime_accepted :
  NodeConfig.validateParams p = Ok tt →
  ∃ r, GossipSubRuntimeParams.ofConfig p = Ok r ∧ GossipSubRuntimeParams.Validate r = Ok tt.
Proof.
  unfold NodeConfig.validateParams. rewrite !seq_ok. intros (Hdegrees & _ & _ & Hfactors & _).
  unfold NodeConfig.validateDegrees in Hdegrees. unfold NodeConfig.validateFactors in Hfactors.
  bind_inv. unfold GossipSubRuntimeParams.ofConfig.
  repeat match goal with Hd : deref _ = Ok _ |- _ => rewrite Hd; clear Hd; cbn [mbind res_bind] end.
  eexists. split; [done|]. unfold GossipSubRuntimeParams.Validate. cbn [checkAll].
  rewrite !seq_ok, !fail_if_ok. cbn.
  split_and!; try done; try by apply notFraction_bad.
  repeat match goal with Hb : _ || _ = false |- _ => apply orb_false_iff in Hb as [? ?] end.
  rewrite !orb_false_iff. split_and!; done.
Qed.

Lemma counts_ok :
  NodeConfig.validateCounts p = Ok tt →
  ∀ x, x ∈ NodeConfig.counts p → ∃ v, deref x = Ok v ∧ 0 ≤ v.
Proof.
  unfold NodeConfig.validateCounts. intros Hc. apply bind_ok in Hc as (values & Hv & Hc).
  apply checkAll_ok in Hc. revert values Hv Hc.
  induction (NodeConfig.counts p) as [|x l IH]; intros values Hv Hc y Hy; [by apply not_elem_of_nil in Hy|].
  apply derefAll_cons in Hv as (a & rest & Ha & Hr & ->). apply list.Forall_cons in Hc as [Hpos Hc].
  apply elem_of_cons in Hy as [->|Hy]; [|by apply (IH rest)].
  exists a. split; [done|]. apply fail_if_ok in Hpos. by apply Z.ltb_ge.
Qed.

Lemma params_startable :
  NodeConfig.validateParams p = Ok tt → ∃ r q, startable r q.
Proof.
  intros Hp. destruct (runtime_accepted Hp) as (r & Hr & Hvalid).
  unfold NodeConfig.validateParams in Hp. rewrite !seq_ok in Hp.
  destruct Hp as (_ & Hhistory & Hticks & Hfactors & Hcounts).
  unfold NodeConfig.validateHistory in Hhistory. unfold NodeConfig.validateTicks in Hticks.
  unfold NodeConfig.validateFactors in Hfactors. bind_inv.
  pose proof (counts_ok Hcounts) as Hc. clear Hcounts.
  destruct (params_duration "gossipsub.heartbeatInterval"
              (GossipSubParamsConfig.HeartbeatInterval p) true) as (hb & Hhb & _ & Hhb0); [in_list|].
  destruct (Hc (GossipSubParamsConfig.MaxPendingConnections p)) as (pending & Hpend & Hpend0);
    [unfold NodeConfig.counts; in_list|].
  assert (∃ q, gossipSubParams p = Ok q ∧ GossipSubParams.MaxPendingConnections q = pending ∧
    GossipSubParams.HistoryGossip q = x3 ∧ GossipSubParams.HistoryLength q = x2 ∧
    GossipSubParams.HopwaveFactor q = GossipSubRuntimeParams.HopwaveFactor r ∧
    GossipSubParams.HopwaveInterval q = GossipSubRuntimeParams.HopwaveInterval r ∧
    GossipSubParams.HeartbeatInterval q = hb)
    as (q & Hq & Hp & Hg & Hl & Hhf & Hhi & Hbeat).
  { unfold gossipSubParams. rewrite Hr. cbn [mbind res_bind].
    repeat match goal with
    | Hd : deref ?x = Ok _ |- context [deref ?x] => rewrite Hd; cbn [mbind res_bind]
    | |- context [deref ?x] =>
        let v := fresh "v" in let Hd := fresh in let Hpos := fresh in
        destruct (Hc x) as (v & Hd & Hpos); [unfold NodeConfig.counts; in_list|]
    | Hd : parseParam ?x = Ok _ |- context [parseParam ?x] => rewrite Hd; cbn [mbind res_bind]
    | |- context [parseParam ?s] =>
        let v := fresh "d" in let Hd := fresh in let Hpos := fresh in
        assert (∃ d, parseParam s = Ok d) as (v & Hd);
          [eapply parse_ok, params_duration; in_list|rewrite Hd; cbn [mbind res_bind]]
    end.
    eexists. split; [done|]. cbn. done. }
  exists r, q. repeat match goal with Hb : _ || _ = false |- _ =>
    apply orb_false_iff in Hb as [? ?] end.
  constructor; try done.
  - unfold GossipSubRuntimeParams.Validate in Hvalid. rewrite !seq_ok in Hvalid.
    destruct Hvalid as (_ & Hfraction & Hinterval). apply checkAll_ok in Hfraction.
    rewrite !list.Forall_cons in Hfraction. destruct Hfraction as (_ & Hfraction & _).
    apply fail_if_ok in Hfraction. apply fail_if_ok in Hinterval.
    unfold validateHopwaveParams. rewrite Hhf, Hhi, Hfraction, seq_ok, !fail_if_ok. done.
  - unfold makeChan. rewrite Hp. by destruct (Z.ltb_spec pending 0); [lia|].
  - unfold NewMessageCache. rewrite Hg, Hl.
    repeat match goal with Hb : (_ <=? _) = false |- _ => apply Z.leb_gt in Hb
                         | Hb : (_ <? _) = false |- _ => apply Z.ltb_ge in Hb end.
    destruct (Z.ltb_spec x2 x3); [lia|]. by destruct (Z.ltb_spec x2 0); [lia|].
  - rewrite Hbeat. by apply Hhb0.
Qed.
End params.

(** *** The whole construction *)
Lemma router_is_gossip g :
  oneOf (GossipSubConfig.Router g) ["gossipsub";"floodsub";"randomsub"]%string = true →
  GossipSubConfig.otherRouter g = false → isGossip g = true.
Proof.
  unfold GossipSubConfig.otherRouter, oneOf. intros Hin Ho.
  apply bool_decide_eq_true in Hin. apply negb_false_iff, bool_decide_eq_true in Ho.
  apply bool_decide_eq_true. repeat (apply elem_of_cons in Ho as [Ho|Ho]); [|done|].
  - exfalso. rewrite Ho in Hin. repeat (apply elem_of_cons in Hin as [Hin|Hin]); [done..|].
    by apply not_elem_of_nil in Hin.
  - by apply not_elem_of_nil in Ho.
Qed.

Section accepted.
Context (ParseFloat : string → option float) (c : NodeConfig.t).
Let k := NodeConfig.Kademlia (NodeConfig.WithDefaults c).
Let g := NodeConfig.GossipSub (NodeConfig.WithDefaults c).
Context (accepted : NodeConfig.Validate ParseFloat c = Ok tt).
Context (gossip : isTrue (GossipSubConfig.Enabled g) = true).

(** What the acceptance says of the PubSub section. *)
Lemma accepted_parts :
  NodeConfig.validateGossipSub k g = Ok tt ∧
  checkAll (λ '(name, value, positive), NodeConfig.checkDuration name value positive)
    (NodeConfig.durations (NodeConfig.WithDefaults c)) = Ok tt.
Proof.
  pose proof accepted as Hv. unfold NodeConfig.Validate in Hv. cbv zeta in Hv. fold k g in Hv.
  rewrite gossip, !seq_ok in Hv. tauto.
Qed.

Lemma extended_accepted : GossipSubConfig.ValidateExtended g = Ok tt.
Proof.
  destruct accepted_parts as [Hg _]. unfold NodeConfig.validateGossipSub in Hg.
  apply seq_ok in Hg as [Hg _]. by apply wrap_ok in Hg.
Qed.

Lemma router_accepted :
  isGossip g = true →
  ∃ l q r, gossipRouterOptions g = Ok (l ++ [WithGossipSubParams q] ++ r) ∧
    Forall (keeps true) l ∧ Forall (keeps true) r ∧ (∃ runtime, startable c runtime q).
Proof.
  intros Hr. destruct accepted_parts as [Hg Hd]. unfold NodeConfig.validateGossipSub in Hg.
  rewrite !seq_ok in Hg. destruct Hg as (_ & _ & _ & _ & _ & _ & _ & _ & _ & Hp & _ & Hs).
  unfold NodeConfig.isGossipRouter in Hp. rewrite Hr in Hp.
  assert (∃ runtime q, startable c runtime q) as (runtime & q & Hq) by by eapply params_startable.
  unfold gossipRouterOptions. rewrite Hr. cbn [negb].
  pose proof (start_params _ _ _ Hq) as Hparams. fold g in Hparams. rewrite Hparams.
  cbn [mbind res_bind].
  assert (∃ r, (match GossipSubConfig.Score g with
     | Some s => if PeerScoreConfig.IsEnabled s
                 then '(score, thresholds) ← peerScoreOptions s; Ok [WithPeerScore score thresholds]
                 else Ok []
     | None => Ok [] end) = Ok r ∧ Forall (keeps true) r) as (r & Hscore & Hkeeps).
  { destruct (GossipSubConfig.Score g) as [s|]; [|by exists []]. cbn [Attacks.whenSome] in Hs. apply wrap_ok in Hs.
    destruct (PeerScoreConfig.IsEnabled s) eqn:Hen; [|by exists []].
    destruct (score_starts s Hen Hs) as (score & thresholds & m & Ho & Hv & Ht & _).
    rewrite Ho. eexists. split; [done|]. constructor; [|constructor].
    apply option_keeps. intros b [Hb _]. cbn [applyOption]. unfold needsGossip.
    rewrite Hb, Hv, Ht. done. }
  rewrite Hscore. cbn [mbind res_bind]. rewrite (app_assoc (option_of _ _)).
  eexists _, q, r. split; [done|]. split_and!; [|done|by exists runtime].
  apply list.Forall_app. split; apply keeps_option_of; auto with keeps.
Qed.

(** The options every router gets. *)
Lemma sizes_keep R :
  NodeConfig.validateSizes g = Ok tt →
  Forall (keeps R)
    (option_of (GossipSubConfig.PeerOutboundQueueSize g) WithPeerOutboundQueueSize ++
     option_of (GossipSubConfig.MaxMessageSize g) WithMaxMessageSize ++
     option_of (GossipSubConfig.ValidateQueueSize g) WithValidateQueueSize ++
     option_of (GossipSubConfig.ValidateThrottle g) WithValidateThrottle ++
     option_of (GossipSubConfig.ValidateWorkers g) WithValidateWorkers).
Proof.
  unfold NodeConfig.validateSizes. cbn [checkAll]. rewrite !seq_ok, !fail_if_ok.
  intros ((Hout & Hqueue & Hworkers & _) & _ & _ & Hthrottle & _).
  rewrite !list.Forall_app. split_and!; apply keeps_option_of; intros n Hn; apply option_keeps;
    intros b _; cbn [applyOption]; try done.
  - rewrite Hn in Hout. cbn in Hout. by rewrite Hout.
  - rewrite Hn in Hqueue. cbn in Hqueue. apply Z.leb_gt in Hqueue. unfold makeChan.
    destruct (Z.ltb_spec 0 n); [|lia]. by destruct (Z.ltb_spec n 0); [lia|].
  - rewrite Hn in Hthrottle. cbn in Hthrottle. unfold makeChan. by rewrite Hthrottle.
  - rewrite Hn in Hworkers. cbn in Hworkers. by rewrite Hworkers.
Qed.

Lemma ttl_keeps R :
  ∃ l, (if empty (GossipSubConfig.SeenMessagesTTL g) then Ok []
        else match Duration.parse (GossipSubConfig.SeenMessagesTTL g) with
             | Some d => Ok [WithSeenMessagesTTL d]
             | None => Err "parse seen messages TTL" end) = Ok l ∧ Forall (keeps R) l.
Proof.
  destruct accepted_parts as [_ Hd]. rewrite checkAll_ok, list.Forall_forall in Hd.
  specialize (Hd ("gossipsub.seenMessagesTTL"%string, GossipSubConfig.SeenMessagesTTL g, false)).
  unfold empty. destruct (bool_decide_reflect (GossipSubConfig.SeenMessagesTTL g = ""%string));
    [by exists []|].
  destruct (checkDuration_ok "gossipsub.seenMessagesTTL" (GossipSubConfig.SeenMessagesTTL g) false)
    as (d & Hparse & _); [apply Hd; apply elem_of_app; left; in_list|done|].
  rewrite Hparse. eexists. split; [done|]. constructor; [auto with keeps|constructor].
Qed.

Lemma signature_keeps R policy : Forall (keeps R) (signatureOptions policy).
Proof.
  unfold signatureOptions. repeat case_match; repeat constructor; auto with keeps.
Qed.

(** Every option but the parameters keeps them. *)
Lemma options_accepted :
  ∃ l router, gossipSubOptions g = Ok (l ++ router) ∧ Forall (keeps (isGossip g)) l ∧
    gossipRouterOptions g = Ok router.
Proof.
  destruct accepted_parts as [Hg _]. unfold NodeConfig.validateGossipSub in Hg.
  rewrite !seq_ok in Hg. destruct Hg as (_ & _ & _ & _ & Hrouter & _ & _ & _ & Hsizes & _).
  apply fail_if_ok, negb_false_iff in Hrouter.
  pose proof extended_accepted as Hext. destruct (extended_ok g Hext) as (extended & He & Hke).
  unfold GossipSubConfig.ValidateExtended in Hext. rewrite !seq_ok, !fail_if_ok in Hext.
  destruct Hext as (Hfreeze & Hhopwave & _).
  destruct (ttl_keeps (isGossip g)) as (ttl & Httl & Hkt).
  assert (∃ router, gossipRouterOptions g = Ok router) as (router & Hr).
  { destruct (isGossip g) eqn:Hr.
    - destruct (router_accepted Hr) as (l & q & r & Hl & _). by eexists.
    - unfold gossipRouterOptions. rewrite Hr. by eexists. }
  unfold gossipSubOptions. rewrite He, Httl, Hr. cbn [mbind res_bind].
  rewrite !(app_assoc _ _ router). eexists _, router.
  split; [done|]. split; [|done].
  pose proof (sizes_keep (isGossip g) Hsizes) as Hkeep. rewrite !list.Forall_app in *.
  split_and!; try tauto.
  - constructor; [auto with keeps|constructor].
  - apply keeps_if. intros Hm. rewrite Hm in Hfreeze. rewrite router_is_gossip; auto with keeps.
  - apply keeps_if. intros Hm. rewrite Hm in Hhopwave. rewrite router_is_gossip; auto with keeps.
  - apply signature_keeps.
Qed.
End accepted.

(** C5: a configuration that [NodeConfig.Validate] accepts on the Controller, with
    PubSub enabled, builds on the Peer: the options are computed without an error
    or a nil dereference, and the library applies every one of them, without
    refusing an option, panicking in [make(chan)], [regexp.MustCompile] or
    [NewMessageCache], or applying an option of gossipsub to another router.  With
    the gossipsub router, the parameters in force at the end are the configured
    ones, the heartbeat ticker's period is positive, and the library accepts the
    same values as a runtime update. *)
Theorem accepted_pubsub_builds (ParseFloat : string → option float) (c : NodeConfig.t) :
  NodeConfig.Validate ParseFloat c = Ok tt →
  let g := NodeConfig.GossipSub (NodeConfig.WithDefaults c) in
  isTrue (GossipSubConfig.Enabled g) = true →
  ∃ b, buildPubSub g = Ok b ∧ gossipRouter b = isGossip g ∧
    (isGossip g = true →
     gossipSubParams (GossipSubConfig.Params g) = Ok (params b) ∧
     0 < GossipSubParams.HeartbeatInterval (params b) ∧
     ∃ r, GossipSubRuntimeParams.ofConfig (GossipSubConfig.Params g) = Ok r ∧
       GossipSubRuntimeParams.Validate r = Ok tt).
Proof.
  intros Hv g Hg. destruct (options_accepted ParseFloat c Hv Hg) as (l & router & Ho & Hl & Hr).
  fold g in Ho, Hl, Hr. unfold buildPubSub. rewrite Ho. cbn [mbind res_bind].
  destruct (applyOptions_keeps _ l (newBuilding (GossipSubConfig.Router g)) Hl)
    as (b & Hb & Hinv & _); [by split|].
  rewrite applyOptions_app, Hb. cbn [mbind res_bind]. destruct (isGossip g) eqn:Hgossip.
  - destruct (router_accepted ParseFloat c Hv Hg Hgossip) as (l1 & q & l2 & Hlist & H1k & H2k & r & Hq).
    fold g in Hlist. rewrite Hr in Hlist. injection Hlist as ->.
    destruct (applyOptions_keeps _ l1 b H1k Hinv) as (b1 & Hb1 & [Hb1r Hb1p] & _).
    assert (building true (mkBuilding (gossipRouter b1) q (hopwavePublish b1))) as Hnew
      by (split; [done|apply (start_hopwave _ _ _ Hq)]).
    destruct (applyOptions_keeps _ l2 _ H2k Hnew) as (b2 & Hb2 & [Hb2r _] & Hb2p).
    exists b2. rewrite !applyOptions_app, Hb1. cbn [mbind res_bind applyOptions applyOption].
    unfold needsGossip. rewrite Hb1r. cbn [negb fail_if mbind res_bind].
    rewrite (start_hopwave _ _ _ Hq), (start_channel _ _ _ Hq), (start_cache _ _ _ Hq).
    replace (if hopwavePublish b1 then Ok tt else Ok tt) with (Ok tt : res unit)
      by by destruct (hopwavePublish b1).
    cbn [mbind res_bind]. rewrite Hb1r in Hb2. rewrite Hb2, Hb2p. cbn [params].
    split_and!; [done..|]. intros _. split_and!.
    + apply (start_params _ _ _ Hq).
    + apply (start_heartbeat _ _ _ Hq).
    + exists r. split; [apply (start_config _ _ _ Hq)|apply (start_runtime _ _ _ Hq)].
  - unfold gossipRouterOptions in Hr. rewrite Hgossip in Hr. injection Hr as <-.
    exists b. destruct Hinv. done.
Qed.
End build.

Module NodeConfigExamples.
#[local] Instance codec : PeerCodec :=
  {| peerDecode s := if bool_decide (s = ""%string) then None else Some s; peerString s := s |}.
#[local] Instance cidrs : CIDRs := {| IPNet := string; ParseCIDR s := Some s |}.
(** Patterns are literal texts, except the one that matches everything. *)
#[local] Instance pubsubLib : PubSubLib :=
  {| Regexp := string; regexpCompile s := Some s;
     MatchString r s := bool_decide (r = "(?s).*"%string) || bool_decide (r = s);
     base64Decode s := Some s; Multiaddr := string; NewMultiaddr s := Some s;
     AddrInfoFromP2pAddr s := Some (s, 1%nat); PrivKey := string;
     UnmarshalPrivateKey s := Some s; IDFromPrivateKey s := Some s |}.
(** Any decay in the open unit interval will do for the defaults. *)
#[local] Instance halves : Pow := {| pow _ _ := PeerScoreExamples.half |}.
Definition parse (_ : string) : option float := None.

(** A worker with scoring, a peer gater, hopwave, a subscription filter, a
    validator and a direct peer. *)
Definition gater : PeerGaterConfig.t :=
  PeerGaterConfig.mk None (Some PeerScoreExamples.half) None "2s" None "" "90s" None None None None.
Definition validator : PubSubValidatorConfig.t :=
  PubSubValidatorConfig.mk false "accept" "reject" None (Some 1024) "block" "json" "" "5s"
    (Some 4) None false.
Definition pubsub : GossipSubConfig.t :=
  GossipSubConfig.mk "sha256" None None (Some ["/ip4/10.0.0.1/p2p/peerA"%string]) (Some gater)
    (Some (PubSubSubscriptionFilterConfig.mk None "" (Some 8))) "last-seen" None "" None
    (Some [validator]) None None None None None "" (Some true) None "" None None None None
    (Some ["blocks"%string]) GossipSubParamsConfig.zero (Some PeerScoreExamples.config) ""
    (Some true) None (Some 1048576) (Some 32) "strict-sign" "2m" None (Some 0) (Some 2) None.
Definition worker : NodeConfig.t :=
  NodeConfig.mk Attacks.zero "" None 8 0 0 0 0 "700ms" 40 Libp2pConfig.zero KademliaConfig.zero
    pubsub zeroNetwork.

Lemma matches_all : regexpCompile "(?s).*" ≠ None.
Proof. done. Qed.
Lemma worker_accepted : NodeConfig.Validate parse worker = Ok tt.
Proof. vm_compute. reflexivity. Qed.
Lemma worker_gossips :
  isTrue (GossipSubConfig.Enabled (NodeConfig.GossipSub (NodeConfig.WithDefaults worker))) = true.
Proof. reflexivity. Qed.
Lemma halves_decay d : d ∈ [2 * Duration.Minute; Duration.Hour] →
  PeerGaterParams.outsideUnit (PeerGaterParams.ScoreParameterDecay d) = false.
Proof. intros _. vm_compute. reflexivity. Qed.

Lemma accepted_pubsub_builds_witness :
  let g := NodeConfig.GossipSub (NodeConfig.WithDefaults worker) in
  ∃ b, buildPubSub g = Ok b ∧
    gossipRouter b = bool_decide (GossipSubConfig.Router g = "gossipsub"%string) ∧
    (bool_decide (GossipSubConfig.Router g = "gossipsub"%string) = true →
     gossipSubParams (GossipSubConfig.Params g) = Ok (params b) ∧
     0 < GossipSubParams.HeartbeatInterval (params b) ∧
     ∃ r, GossipSubRuntimeParams.ofConfig (GossipSubConfig.Params g) = Ok r ∧
       GossipSubRuntimeParams.Validate r = Ok tt).
Proof.
  exact (accepted_pubsub_builds matches_all halves_decay parse worker
           worker_accepted worker_gossips).
Defined.
End NodeConfigExamples.
