(* ===== verification/ProfileSchedule.v ===== *)
(** * Changing the profile of running Peers

    [internal/model/profile_schedule.go]: the patches a [schedule] phase applies to
    Peers without replacing them, their validation on their own and on the
    configuration they patch ([Apply]), the snapshot a Peer acknowledges, and the
    Controller's check of that acknowledgement.  [RuntimeGossipSubConfig] has one
    field, its parameters. *)
From Stdlib Require Import ZArith Lia.
From stdpp Require Import strings list gmap.
From S2P Require Import Prelude.
From S2P Require Import GoStd.
From S2P Require Import GoStrings.
From S2P Require Import Distribution.
From S2P Require Import Network.
From S2P Require Import Attacks.
From S2P Require Import PeerScore.
From S2P Require Import GossipSubConfig.
From S2P Require Import KademliaConfig.
From S2P Require Import NodeConfig.
Open Scope Z_scope.

(** ** [reflect.DeepEqual]

    Pointers are followed; floats are compared with [==]. *)
Definition deepPtr {A} (eq : A → A → bool) (a b : option A) : bool :=
  match a, b with None, None => true | Some a, Some b => eq a b | _, _ => false end.
Definition deepFloat := deepPtr F64.eqb.
Definition deepTBF (a b : TBFConfig) : bool :=
  F64.eqb (TBFRateMbps a) (TBFRateMbps b) && F64.eqb (BurstKbit a) (BurstKbit b) &&
  bool_decide (Latency a = Latency b).

Fixpoint deepNetwork (a b : NetworkConfig) : bool :=
  match Schedule a, Schedule b with
  | None, None => true | Some s, Some s' => deepSchedule s s' | _, _ => false end &&
  bool_decide (Scope a = Scope b) && bool_decide (Delay a = Delay b) &&
  deepPtr dist_eqb (DelayDistribution a) (DelayDistribution b) &&
  bool_decide (Jitter a = Jitter b) && bool_decide (JitterDistribution a = JitterDistribution b) &&
  deepFloat (LossPercent a) (LossPercent b) && deepFloat (DuplicatePercent a) (DuplicatePercent b) &&
  deepFloat (CorruptPercent a) (CorruptPercent b) &&
  deepFloat (ReorderPercent a) (ReorderPercent b) &&
  deepFloat (ReorderCorrelationPercent a) (ReorderCorrelationPercent b) &&
  deepFloat (RateMbps a) (RateMbps b) && deepPtr deepTBF (TBF a) (TBF b) &&
  deepPtr Z.eqb (QueueLimit a) (QueueLimit b)
with deepSchedule (a b : NetworkSchedule) : bool :=
  bool_decide (Reference a = Reference b) &&
  (fix changes (l k : list NetworkChange) : bool :=
     match l, k with
     | [], [] => true
     | x :: l, y :: k => deepChange x y && changes l k
     | _, _ => false
     end) (Changes a) (Changes b)
with deepChange (a b : NetworkChange) : bool :=
  bool_decide (After a = After b) && deepNetwork (Set_ a) (Set_ b).

Module RuntimeGossipSubParams.
Record t := mk {
  D : option Z; DLow : option Z; DHigh : option Z; DScore : option Z; DOut : option Z;
  DLazy : option Z; GossipFactor : option float; HopwaveFactor : option float;
  HopwaveInterval : option Z }.

(** [g == (RuntimeGossipSubParams{})] *)
Definition isZero (g : t) : bool :=
  isNil (D g) && isNil (DLow g) && isNil (DHigh g) && isNil (DScore g) && isNil (DOut g) &&
  isNil (DLazy g) && isNil (GossipFactor g) && isNil (HopwaveFactor g) &&
  isNil (HopwaveInterval g).
(** Some field of a snapshot is missing. *)
Definition incomplete (g : t) : bool :=
  isNil (D g) || isNil (DLow g) || isNil (DHigh g) || isNil (DScore g) || isNil (DOut g) ||
  isNil (DLazy g) || isNil (GossipFactor g) || isNil (HopwaveFactor g) ||
  isNil (HopwaveInterval g).
Definition deepEqual (a b : t) : bool :=
  deepPtr Z.eqb (D a) (D b) && deepPtr Z.eqb (DLow a) (DLow b) &&
  deepPtr Z.eqb (DHigh a) (DHigh b) && deepPtr Z.eqb (DScore a) (DScore b) &&
  deepPtr Z.eqb (DOut a) (DOut b) && deepPtr Z.eqb (DLazy a) (DLazy b) &&
  deepFloat (GossipFactor a) (GossipFactor b) && deepFloat (HopwaveFactor a) (HopwaveFactor b) &&
  deepPtr Z.eqb (HopwaveInterval a) (HopwaveInterval b).

(** [nodeParams] *)
Definition nodeParams (g : t) : GossipSubParamsConfig.t :=
  GossipSubParamsConfig.mk (D g) (DLow g) (DHigh g) (DScore g) (DOut g) (DLazy g) None None
    (GossipFactor g) None "" "" None "" None "" "" None None "" None "" None None "" None None
    None None "" None None (HopwaveFactor g) (HopwaveInterval g).
(** The parameters of a snapshot. *)
Definition ofConfig (p : GossipSubParamsConfig.t) : t :=
  mk (GossipSubParamsConfig.D p) (GossipSubParamsConfig.DLow p) (GossipSubParamsConfig.DHigh p)
    (GossipSubParamsConfig.DScore p) (GossipSubParamsConfig.DOut p) (GossipSubParamsConfig.DLazy p)
    (GossipSubParamsConfig.GossipFactor p) (GossipSubParamsConfig.HopwaveFactor p)
    (GossipSubParamsConfig.HopwaveInterval p).

Definition Validate (g : t) : res unit :=
  fail_if (isZero g) "gossipsub.params must not be empty";;
  checkAll (λ '(name, value),
      fail_if (ptr (λ v, (v <? 0) || oneOf name ["d";"dHigh";"hopwaveInterval"]%string && (v =? 0))
                 value) ("invalid gossipsub.params." +:+ name))
    [("d", D g); ("dLow", DLow g); ("dHigh", DHigh g); ("dScore", DScore g); ("dOut", DOut g);
     ("dLazy", DLazy g); ("hopwaveInterval", HopwaveInterval g)]%string;;
  fail_if (ptr (λ v, 2147483647 <? v) (HopwaveInterval g)) "hopwaveInterval must not exceed 2147483647";;
  checkAll (λ '(name, value), fail_if (ptr NodeConfig.notFraction value)
                                (name +:+ " must be finite and in [0, 1]"))
    [("gossipFactor", GossipFactor g); ("hopwaveFactor", HopwaveFactor g)]%string.
End RuntimeGossipSubParams.

Module RuntimeProfilePatch.
Record t := mk {
  Forwarding : option ProbabilityAttack.t; Sink : option ProbabilityAttack.t;
  Censorship : option ProbabilityAttack.t; MessageDelay : option ProbabilityAttack.t;
  GossipSub : option RuntimeGossipSubParams.t; Network : option NetworkConfig }.
Definition zero : t := mk None None None None None None.

Definition HasAttacks (p : t) : bool :=
  negb (isNil (Forwarding p)) || negb (isNil (Sink p)) || negb (isNil (Censorship p)) ||
  negb (isNil (MessageDelay p)).

(** The map literal both validations range over. *)
Definition attacksOf (p : t) : list (string * option ProbabilityAttack.t) :=
  [("sink", Sink p); ("censorship", Censorship p); ("messageDelay", MessageDelay p);
   ("forwarding", Forwarding p)]%string.

(** The assignment of the overlay's reorder percentage. *)
Definition withReorder (v : option float) (c : NetworkConfig) : NetworkConfig :=
  mkNetwork (Schedule c) (Scope c) (Delay c) (DelayDistribution c) (Jitter c)
    (JitterDistribution c) (LossPercent c) (DuplicatePercent c) (CorruptPercent c) v
    (ReorderCorrelationPercent c) (RateMbps c) (TBF c) (QueueLimit c).

Section patch.
Context `{PeerCodec} `{CIDRs} `{PubSubLib} (ParseFloat : string → option float).

Definition validateNetwork (n : NetworkConfig) : res unit :=
  fail_if (deepNetwork n zeroNetwork) "network must not be empty";;
  fail_if (negb (isNil (Schedule n)) || negb (isNil (DelayDistribution n)))
    "schedule action network patches cannot contain schedule or delayDistribution";;
  let base := Merge (with_delay "1ms" None zeroNetwork) n in
  let base := if isNil (ReorderPercent n) && negb (isNil (ReorderCorrelationPercent n))
              then withReorder (Some F64.one) base else base in
  wrap "network" (Network.Validate ParseFloat base).

Definition Validate (p : t) : res unit :=
  checkAll (λ '(name, attack), Attacks.whenSome attack (λ attack,
      fail_if (isNil (ProbabilityAttack.Enabled attack) &&
               isNil (ProbabilityAttack.Probability attack)) (name +:+ " patch must not be empty");;
      wrap name (ProbabilityAttack.Validate attack))) (attacksOf p);;
  fail_if (isNil (GossipSub p) && isNil (Network p) && negb (HasAttacks p))
    "set requires gossipsub.params, network, or attack options";;
  Attacks.whenSome (GossipSub p) RuntimeGossipSubParams.Validate;;
  Attacks.whenSome (Network p) validateNetwork.

(** [!*base.GossipSub.Enabled || base.GossipSub.Router != "gossipsub"]: the
    defaults have made the pointer non-nil. *)
Definition noGossip (base : NodeConfig.t) : bool :=
  let g := NodeConfig.GossipSub base in
  negb (isTrue (GossipSubConfig.Enabled g)) || negb (NodeConfig.isGossipRouter g).

(** The [NodeConfig] that carries the patch. *)
Definition overlay (p : t) : NodeConfig.t :=
  NodeConfig.mk
    (Attacks.mk
       ((λ a, ForwardingConfig.mk a None None) <$> Forwarding p) None (Sink p)
       ((λ a, CensorshipConfig.mk a None None) <$> Censorship p)
       ((λ a, MessageDelayConfig.mk a "" None None) <$> MessageDelay p) None None None None)
    "" None 0 0 0 0 0 "" 0 Libp2pConfig.zero KademliaConfig.zero
    (GossipSubConfig.withTopics None
       (from_option RuntimeGossipSubParams.nodeParams GossipSubParamsConfig.zero (GossipSub p))
       GossipSubConfig.zero)
    (default zeroNetwork (Network p)).

(** [Apply]; the configuration it returns with an error is not used. *)
Definition Apply (p : t) (base : NodeConfig.t) : res NodeConfig.t :=
  Validate p;;
  let base := NodeConfig.WithDefaults base in
  fail_if (HasAttacks p && noGossip base) "attack runtime changes require enabled GossipSub";;
  fail_if (negb (isNil (GossipSub p)) && noGossip base)
    "gossipsub runtime changes require enabled GossipSub";;
  fail_if (negb (isNil (Network p)) && Scheduled (NodeConfig.Network base))
    "schedule action network changes cannot overlap network.schedule on the same Peer";;
  let updated := NodeConfig.WithDefaults (NodeConfig.Merge base (overlay p)) in
  NodeConfig.Validate ParseFloat updated;;
  Ok updated.

(** *** Snapshots *)
(** [RuntimeProfileSnapshot] *)
Definition RuntimeProfileSnapshot (config : NodeConfig.t) : t :=
  let config := NodeConfig.WithDefaults config in
  let a := NodeConfig.attacks config in
  mk (ForwardingConfig.ProbabilityAttack <$> Attacks.Forwarding a) (Attacks.Sink a)
    (CensorshipConfig.ProbabilityAttack <$> Attacks.Censorship a)
    (MessageDelayConfig.ProbabilityAttack <$> Attacks.MessageDelay a)
    (Some (RuntimeGossipSubParams.ofConfig
             (GossipSubConfig.Params (NodeConfig.GossipSub config))))
    (Some (Initial (NodeConfig.Network config))).

(** [if p.X == nil { result.X = nil }] *)
Definition ifSet {A B} (p : option A) (v : option B) : option B :=
  if isNil p then None else v.
Definition Snapshot (p : t) (config : NodeConfig.t) : t :=
  let s := RuntimeProfileSnapshot config in
  mk (ifSet (Forwarding p) (Forwarding s)) (ifSet (Sink p) (Sink s))
    (ifSet (Censorship p) (Censorship s)) (ifSet (MessageDelay p) (MessageDelay s))
    (ifSet (GossipSub p) (GossipSub s)) (ifSet (Network p) (Network s)).

(** A zero [NodeConfig] with these parameters and network. *)
Definition bareConfig (params : GossipSubParamsConfig.t) (n : NetworkConfig) : NodeConfig.t :=
  NodeConfig.mk Attacks.zero "" None 0 0 0 0 0 "" 0 Libp2pConfig.zero KademliaConfig.zero
    (GossipSubConfig.withTopics None params GossipSubConfig.zero) n.

(** [ValidateRuntimeProfileSnapshot] *)
Definition ValidateRuntimeProfileSnapshot (p : t) : res unit :=
  checkAll (λ '(name, attack), Attacks.whenSome attack (λ attack,
      fail_if (isNil (ProbabilityAttack.Enabled attack) ||
               isNil (ProbabilityAttack.Probability attack)) ("incomplete runtime " +:+ name);;
      ProbabilityAttack.Validate attack)) (attacksOf p);;
  fail_if (isNil (GossipSub p) && isNil (Network p) && negb (HasAttacks p))
    "empty runtime profile snapshot";;
  Attacks.whenSome (GossipSub p) (λ g,
    fail_if (RuntimeGossipSubParams.incomplete g) "incomplete runtime GossipSub snapshot";;
    NodeConfig.Validate ParseFloat
      (bareConfig (RuntimeGossipSubParams.nodeParams g) zeroNetwork));;
  Attacks.whenSome (Network p) (λ n,
    fail_if (negb (isNil (Schedule n)) || negb (isNil (DelayDistribution n)))
      "runtime network snapshot must be concrete";;
    Network.Validate ParseFloat n).

(** *** [ValidateProfileAcknowledgement], of the requested patch and the effective one *)
(** [wanted.X != nil && *wanted.X != *got.X] *)
Definition differs {A} (eq : A → A → bool) (wanted got : option A) : res bool :=
  match wanted with
  | None => Ok false
  | Some w => g ← deref got; Ok (negb (eq w g))
  end.

(** The body of the loop over the attack pairs. *)
Definition checkPair (pair : option ProbabilityAttack.t * option ProbabilityAttack.t) : res unit :=
  match pair.1 with
  | None => Ok tt
  | Some wanted =>
      enabled ← (match ProbabilityAttack.Enabled wanted with
                 | None => Ok false
                 | Some _ =>
                     got ← deref pair.2;
                     differs eqb (ProbabilityAttack.Enabled wanted) (ProbabilityAttack.Enabled got)
                 end);
      probability ← (if (enabled : bool) then Ok true
                     else match ProbabilityAttack.Probability wanted with
                     | None => Ok false
                     | Some _ =>
                         got ← deref pair.2;
                         differs F64.eqb (ProbabilityAttack.Probability wanted)
                           (ProbabilityAttack.Probability got)
                     end);
      fail_if probability "profile acknowledgement does not contain requested attack values"
  end.

Definition sameNil {A B} (a : option A) (b : option B) : bool := eqb (isNil a) (isNil b).

Definition ordinary (p : t) : t := mk None None None None (GossipSub p) (Network p).

Definition ValidateProfileAcknowledgement (set actual : t) : res unit :=
  fail_if (negb (sameNil (Forwarding set) (Forwarding actual)) ||
           negb (sameNil (GossipSub set) (GossipSub actual)) ||
           negb (sameNil (Network set) (Network actual)) ||
           negb (sameNil (Sink set) (Sink actual)) ||
           negb (sameNil (Censorship set) (Censorship actual)) ||
           negb (sameNil (MessageDelay set) (MessageDelay actual)))
    "profile acknowledgement fields do not match the request";;
  ValidateRuntimeProfileSnapshot actual;;
  checkAll checkPair
    [(Forwarding set, Forwarding actual); (Sink set, Sink actual);
     (Censorship set, Censorship actual); (MessageDelay set, MessageDelay actual)];;
  if isNil (GossipSub set) && isNil (Network set) then Ok tt
  else
    let base := bareConfig
      (from_option RuntimeGossipSubParams.nodeParams GossipSubParamsConfig.zero (GossipSub actual))
      (default zeroNetwork (Network actual)) in
    updated ← Apply (ordinary set) base;
    let expected := Snapshot (ordinary set) updated in
    fail_if (negb (deepPtr RuntimeGossipSubParams.deepEqual (GossipSub expected) (GossipSub actual)) ||
             negb (deepPtr deepNetwork (Network expected) (Network actual)))
      "profile acknowledgement does not contain the requested values".
End patch.
End RuntimeProfilePatch.

(** ** Schedules of patches *)
Record ProfileChange := mkProfileChange { ChangeAfter : string; ChangeSet : RuntimeProfilePatch.t }.

Module ProfileSchedule.
Record t := mk { Reference : string; Changes : list ProfileChange }.

Definition Clock (s : t) : string :=
  if empty (Reference s) then "phase-start" else Reference s.

Section validate.
Context (ParseFloat : string → option float).
(** The loop over the changes: [i] counts them, [previous] is the last offset. *)
Fixpoint changesLoop (i : nat) (previous : Z) (l : list ProfileChange) : res unit :=
  match l with
  | [] => Ok tt
  | change :: l =>
      match Duration.parse (ChangeAfter change) with
      | None => Err "schedule.changes after must be non-negative and strictly increasing"
      | Some after =>
          fail_if ((after <? 0) || (0 <? i)%nat && (after <=? previous))
            "schedule.changes after must be non-negative and strictly increasing";;
          wrap "schedule.changes set"
            (RuntimeProfilePatch.Validate ParseFloat (ChangeSet change));;
          changesLoop (S i) after l
      end
  end.

Definition Validate (s : t) : res unit :=
  fail_if (negb (oneOf (Clock s) ["phase-start";"experiment-start"]%string))
    "schedule.reference must be phase-start or experiment-start";;
  fail_if ((length (Changes s) =? 0)%nat || (128 <? length (Changes s))%nat)
    "schedule requires 1..128 changes";;
  changesLoop 0 0 (Changes s).
End validate.
End ProfileSchedule.

(** ** Requests *)
Module ProfileUpdateRequest.
Record t := mk {
  RunID : string; Generation : Z; Revision : Z; Stage : string; Set_ : RuntimeProfilePatch.t }.
Definition Validate (ParseFloat : string → option float) (r : t) : res unit :=
  fail_if (empty (RunID r) || (Revision r =? 0) || (2147483647 <? Revision r) ||
           negb (oneOf (Stage r) ["prepare";"apply"]%string))
    "profile update requires runId, positive revision, and prepare/apply stage";;
  RuntimeProfilePatch.Validate ParseFloat (Set_ r).
End ProfileUpdateRequest.
