(* ===== verification/Trace.v ===== *)
(** * Telemetry events

    [internal/model]: the trace event with its bandwidth and peer-score samples
    ([model.go], [bandwidth.go], [peer_scores.go]), and the typed access to its
    untyped fields ([controller/run_metrics.go], [controller/metrics.go]). *)
From Stdlib Require Import ZArith Lia SpecFloat.
From stdpp Require Import strings list gmap.
From S2P Require Import Prelude.
From S2P Require Import GoStd.
Open Scope Z_scope.

(** ** Peer scores *)
Definition ScoreComponentKeys : list string :=
  ["p1"; "p2"; "p3"; "p3b"; "p4"; "p5"; "p6"; "p7"; "topicCap"; "total"]%string.

Module ScoreStatistic.
Record t := mk { Count : Z; Mean : float; Min : float; Max : float }.
Definition empty : t := mk 0 F64.zero F64.zero F64.zero.

Definition FiniteScore (x : float) : bool := negb (F64.isNaN x) && negb (F64.isInf x).

Definition Valid (s : t) : bool :=
  (0 <=? Count s) && (Count s <=? 10000000) && FiniteScore (Mean s) && FiniteScore (Min s) &&
  FiniteScore (Max s) &&
  (((Count s =? 0) && F64.eqb (Mean s) F64.zero && F64.eqb (Min s) F64.zero &&
    F64.eqb (Max s) F64.zero) ||
   ((0 <? Count s) && F64.leb (Min s) (Mean s) && F64.leb (Mean s) (Max s))).

(** [math.Signbit] *)
Definition Signbit (x : float) : bool :=
  match x with
  | S754_zero b | S754_infinity b | S754_finite b _ _ => b
  | S754_nan => false
  end.

Definition Merge (s other : t) : t :=
  if negb (Valid other) || (Count other =? 0) then s
  else if Count s =? 0 then other
  else
    let n := Count s + Count other in
    let weight := F64.div (F64.of_Z (Count other)) (F64.of_Z n) in
    let mean :=
      if Bool.eqb (Signbit (Mean s)) (Signbit (Mean other))
      then F64.add (Mean s) (F64.mul (F64.sub (Mean other) (Mean s)) weight)
      else F64.add (F64.mul (Mean s) (F64.sub F64.one weight)) (F64.mul (Mean other) weight) in
    let mn := F64.min (Min s) (Min other) in
    let mx := F64.max (Max s) (Max other) in
    mk n (F64.max mn (F64.min mx mean)) mn mx.

Definition Add (s : t) (x : float) : t := Merge s (mk 1 x x x).
End ScoreStatistic.

Module PeerScoreSample.
Record t := mk {
  ObservedAt : Time; Sequence : Z; IntervalSeconds : float;
  Components : gmap string ScoreStatistic.t }.

(** [s.NewerThan(previous)], on pointers that may be nil. *)
Definition NewerThan (s previous : option t) : bool :=
  match s, previous with
  | None, _ => false
  | _, None => true
  | Some s, Some p =>
      if negb (Sequence s =? 0) || negb (Sequence p =? 0) then Sequence p <? Sequence s
      else ObservedAt p <? ObservedAt s
  end.

Definition validComponent (s : t) (count : Z) (key : string) : bool :=
  match Components s !! key with
  | None => false
  | Some v => ScoreStatistic.Valid v && (ScoreStatistic.Count v =? count)
  end.

Definition Valid (s : option t) : bool :=
  match s with
  | None => false
  | Some s =>
      if IsZero (ObservedAt s) || negb (ScoreStatistic.FiniteScore (IntervalSeconds s)) ||
         F64.leb (IntervalSeconds s) F64.zero ||
         negb (size (Components s) =? length ScoreComponentKeys)%nat
      then false
      else
        let count := ScoreStatistic.Count
                       (default ScoreStatistic.empty (Components s !! "total"%string)) in
        forallb (validComponent s count) ScoreComponentKeys
  end.

Definition Fresh (s : option t) (now : Time) : bool :=
  if negb (Valid s) then false
  else match s with
       | None => false
       | Some s =>
           let age := Duration.Seconds (SubTime now (ObservedAt s)) in
           F64.leb (F64.of_Z (-5)) age &&
           F64.leb age (F64.max (F64.of_Z 30)
                          (F64.add (F64.mul (F64.of_Z 2) (IntervalSeconds s)) (F64.of_Z 5)))
       end.
End PeerScoreSample.

(** ** Bandwidth samples *)
Record BandwidthProtocol := mkProtocol {
  Protocol : string; ReceivedBytes : Z; SentBytes : Z }.

Record BandwidthSample := mkBandwidth {
  ElapsedNS : Z; BReceivedBytes : Z; BSentBytes : Z; Protocols : list BandwidthProtocol;
  Final : bool }.

(** ** Events *)

(** A value of [map[string]any]. *)
Inductive Any :=
  | AString (s : string)
  | ABool (b : bool)
  | AFloat (x : float)
  | AInt (z : Z)                           (* [int], [int64] *)
  | AUint (z : Z)                          (* [int32] and the unsigned types *)
  | ANumber (x : float) (ok : bool)        (* [json.Number] and its [Float64()] *)
  | AStrings (l : option (list string))    (* [[]string], maybe nil *)
  | AList (l : option (list Any))          (* [[]any], maybe nil *)
  | AOther.

Record TraceEvent := mkEvent {
  ScoreSample : option PeerScoreSample.t; Group : string; Bandwidth : option BandwidthSample;
  SessionID : string; Sequence : Z; EventID : string; RunID : string; AgentID : string;
  NodeID : string; PeerID : string; Type_ : string; MessageID : string; RemotePeerID : string;
  Topic : string; Timestamp : Time; LatencyMS : float; Fields : gmap string Any }.

(** [v, _ := event.Fields[key].(string)] and [.(bool)] *)
Definition stringField (e : TraceEvent) (key : string) : string :=
  match Fields e !! key with Some (AString s) => s | _ => "" end.
Definition boolField (e : TraceEvent) (key : string) : bool :=
  match Fields e !! key with Some (ABool b) => b | _ => false end.

Definition numericEventField (fields : gmap string Any) (key : string) : float * bool :=
  match fields !! key with
  | Some (AFloat x) => (x, true)
  | Some (AInt z) => (F64.of_Z z, true)
  | Some (ANumber x ok) => (x, ok)
  | _ => (F64.zero, false)
  end.

(** The loop of [targetNodeIDs] over a [[]any]. *)
Fixpoint allStrings (l : list Any) : option (list string) :=
  match l with
  | [] => Some []
  | AString s :: l => rest ← allStrings l; Some (s :: rest)
  | _ :: _ => None
  end.

(** [targetNodeIDs]: [None] is an unknown cohort. *)
Definition targetNodeIDs (value : option Any) : option (list string) :=
  match value with
  | Some (AStrings l) => l
  | Some (AList (Some l)) => allStrings l
  | _ => None
  end.

(** [nonnegativeMetricNumber]: more types are numbers here. *)
Definition nonnegativeMetricNumber (value : option Any) : float * bool :=
  let check (x : float) := (x, F64.leb F64.zero x && negb (F64.isNaN x) && negb (F64.isInf x)) in
  match value with
  | Some (AFloat x) => check x
  | Some (AInt z) | Some (AUint z) => check (F64.of_Z z)
  | Some (ANumber x true) => check x
  | _ => (F64.zero, false)
  end.

(** [math.Trunc(x) == x] *)
Definition isInteger (x : float) : bool :=
  match x with
  | S754_finite s m e => if 0 <=? e then true else Z.pos m mod 2 ^ (- e) =? 0
  | S754_nan => false
  | _ => true
  end.

Definition nonnegativeMetricCount (value : option Any) : float * bool :=
  let '(number, ok) := nonnegativeMetricNumber value in (number, ok && isInteger number).
