(* ===== verification/SequenceRanges.v ===== *)
(** * Coalesced source sequence numbers

    [sequenceRanges] of [internal/controller/run_metrics_window.go], the set of
    64-bit sequence numbers seen from one telemetry session, kept as sorted
    disjoint intervals.  It decides which events are duplicates and up to where
    a session's event stream is complete. *)
From Stdlib Require Import ZArith Lia.
From stdpp Require Import list.
From S2P Require Import Prelude.
From S2P Require Import GoStd.
Open Scope Z_scope.

Record sequenceRange := mkRange { first : Z; last : Z }.
Abbreviation sequenceRanges := (list sequenceRange).

(** The range at an index, which is only read in bounds. *)
Definition rangeAt (l : sequenceRanges) (i : nat) : sequenceRange :=
  default (mkRange 0 0) (l !! i).

Definition add (sequence : Z) (ranges : sequenceRanges) : sequenceRanges :=
  if sequence =? 0 then ranges
  else
    let n := length ranges in
    let i := search n (λ i, (sequence <=? last (rangeAt ranges i)) ||
                            (last (rangeAt ranges i) =? u64 (sequence - 1))) in
    if (i =? n)%nat then ranges ++ [mkRange sequence sequence]
    else
      let r := rangeAt ranges i in
      if (sequence <? first r) && (1 <? u64 (first r - sequence))
      then take i ranges ++ mkRange sequence sequence :: drop i ranges
      else
        let r := mkRange (Z.min (first r) sequence) (Z.max (last r) sequence) in
        if (S i <? n)%nat && (u64 (first (rangeAt ranges (S i)) - last r) <=? 1)
        then
          let r := mkRange (first r) (Z.max (last r) (last (rangeAt ranges (S i)))) in
          delete (S i) (<[i := r]> ranges)
        else <[i := r]> ranges.

Definition through (start : Z) (ranges : sequenceRanges) : Z :=
  let n := length ranges in
  let i := search n (λ i, start <=? last (rangeAt ranges i)) in
  if (start =? 0) || (i =? n)%nat || (start <? first (rangeAt ranges i)) then 0
  else last (rangeAt ranges i).

(** ** Representation *)

(** Intervals above [lo], each separated from the next by a gap. *)
Fixpoint wf (lo : Z) (l : sequenceRanges) : Prop :=
  match l with
  | [] => True
  | r :: l => lo < first r ∧ first r ≤ last r ∧ last r < 2^64 ∧ wf (last r + 1) l
  end.

Definition member (x : Z) (l : sequenceRanges) : Prop :=
  ∃ r, r ∈ l ∧ first r ≤ x ≤ last r.

(** The bound left after a prefix. *)
Definition bound (lo : Z) (l : sequenceRanges) : Z :=
  match list.last l with Some r => last r + 1 | None => lo end.

Lemma bound_cons lo r l : bound lo (r :: l) = bound (last r + 1) l.
Proof. unfold bound. rewrite last_cons. by destruct (list.last l). Qed.

Lemma wf_app lo l1 l2 : wf lo (l1 ++ l2) ↔ wf lo l1 ∧ wf (bound lo l1) l2.
Proof.
  revert lo. induction l1 as [|r l1 IH]; intros lo; cbn [app wf].
  { cbn. tauto. }
  rewrite IH, bound_cons. tauto.
Qed.

Lemma wf_bound lo l : wf lo l → lo ≤ bound lo l.
Proof.
  revert lo. induction l as [|r l IH]; intros lo; [cbn; lia|].
  intros (H1 & H2 & _ & H3). rewrite bound_cons. apply IH in H3. lia.
Qed.

Lemma wf_weaken lo lo' l : lo' ≤ lo → wf lo l → wf lo' l.
Proof. destruct l; cbn; [done|]. intros ? (?&?&?&?). split_and!; (lia || done). Qed.

Lemma wf_above lo l r : wf lo l → r ∈ l → lo < first r ∧ first r ≤ last r < 2^64.
Proof.
  revert lo. induction l as [|r' l IH]; intros lo; [set_solver|].
  intros (H1 & H2 & H3 & H4) [->|Hr]%elem_of_cons; [lia|].
  destruct (IH _ H4 Hr). lia.
Qed.

Lemma wf_below lo l r : wf lo l → r ∈ l → last r < bound lo l.
Proof.
  revert lo. induction l as [|r' l IH]; intros lo; [set_solver|].
  intros (H1 & H2 & H3 & H4) [->|Hr]%elem_of_cons; rewrite bound_cons.
  - apply wf_bound in H4. lia.
  - by apply IH.
Qed.

Lemma member_app x l1 l2 : member x (l1 ++ l2) ↔ member x l1 ∨ member x l2.
Proof. unfold member. setoid_rewrite elem_of_app. naive_solver. Qed.

Lemma member_cons x r l : member x (r :: l) ↔ first r ≤ x ≤ last r ∨ member x l.
Proof. unfold member. setoid_rewrite elem_of_cons. naive_solver. Qed.

Lemma member_nil x : ¬ member x [].
Proof. unfold member. set_solver. Qed.

(** In a well-formed list the predicates of both searches are monotone. *)
Lemma wf_lookup_lt lo l i j ri rj :
  wf lo l → (i < j)%nat → l !! i = Some ri → l !! j = Some rj → last ri + 1 < first rj.
Proof.
  intros Hw Hij Hi Hj. destruct (list_elem_of_split_length l i ri Hi) as (l1 & l2 & -> & ->).
  rewrite wf_app in Hw. destruct Hw as [_ (_ & _ & _ & Hw)].
  rewrite lookup_app_r in Hj by lia. destruct (j - length l1)%nat eqn:Hd; [lia|].
  cbn in Hj. destruct (wf_above _ _ rj Hw); [|lia].
  by eapply list_elem_of_lookup_2.
Qed.

Lemma rangeAt_some l i r : l !! i = Some r → rangeAt l i = r.
Proof. unfold rangeAt. by intros ->. Qed.

(** Splitting a list at the result of a search on the last elements. *)
Lemma search_split lo l (p : Z → bool) :
  wf lo l → (∀ x y, x ≤ y → p x = true → p y = true) →
  let i := search (length l) (λ i, p (last (rangeAt l i))) in
  (i = length l ∧ Forall (λ r, p (last r) = false) l) ∨
  (∃ pre r post, l = pre ++ r :: post ∧ i = length pre ∧ p (last r) = true ∧
     Forall (λ r, p (last r) = false) pre).
Proof.
  intros Hw Hp i. destruct (search_spec (length l) (λ i, p (last (rangeAt l i)))) as (Hle & Hlo & Hhi).
  { intros a b Hab Hb. destruct (decide (a = b)) as [->|Hne]; [done|].
    destruct (lookup_lt_is_Some_2 l a) as [ra Ha]; [lia|].
    destruct (lookup_lt_is_Some_2 l b) as [rb Hb']; [lia|].
    rewrite (rangeAt_some _ _ _ Ha), (rangeAt_some _ _ _ Hb'). apply Hp.
    pose proof (wf_lookup_lt lo l a b ra rb Hw ltac:(lia) Ha Hb').
    destruct (wf_above lo l rb Hw); [by eapply list_elem_of_lookup_2|]. lia. }
  fold i in Hle, Hlo, Hhi.
  assert (Hpre : ∀ j r, l !! j = Some r → (j < i)%nat → p (last r) = false).
  { intros j r Hj Hji. specialize (Hlo j Hji). cbv beta in Hlo.
    by rewrite (rangeAt_some _ _ _ Hj) in Hlo. }
  destruct (decide (i = length l)) as [Heq|Hne]; [left|right].
  - split; [done|]. apply list.Forall_lookup. intros j r Hj. apply (Hpre j r Hj).
    apply lookup_lt_Some in Hj. lia.
  - destruct (lookup_lt_is_Some_2 l i) as [r Hr]; [lia|].
    destruct (list_elem_of_split_length l i r Hr) as (pre & post & Hl & Hi).
    exists pre, r, post. split_and!; [done|done| |].
    + specialize (Hhi i ltac:(lia)). cbv beta in Hhi. by rewrite (rangeAt_some _ _ _ Hr) in Hhi.
    + apply list.Forall_lookup. intros j r' Hj. apply (Hpre j r').
      * rewrite Hl, lookup_app_l; [done|]. by eapply lookup_lt_Some.
      * apply lookup_lt_Some in Hj. lia.
Qed.

(** ** [add] and [through] *)
Lemma forall_last_below lo l x :
  lo < x → Forall (λ r, last r + 1 < x) l → bound lo l < x.
Proof.
  intros Hlo Hf. unfold bound. destruct (list.last l) as [r|] eqn:Hl; [|done].
  rewrite list.Forall_forall in Hf. apply last_Some_elem_of in Hl. by apply Hf.
Qed.

Lemma wf_nil lo : wf lo [].
Proof. done. Qed.

Lemma rangeAt_app l r post i : i = length l → rangeAt (l ++ r :: post) i = r.
Proof. intros ->. apply rangeAt_some, list_lookup_middle. done. Qed.

Lemma member_above lo l x : wf lo l → member x l → lo < x < 2^64.
Proof. intros Hw (r & Hr & Hx). destruct (wf_above lo l r Hw Hr). lia. Qed.

Lemma delete_middle' {A} (l : list A) x k i : i = length l → delete i (l ++ x :: k) = l ++ k.
Proof. intros ->. apply delete_middle. Qed.

Lemma insert_middle' {A} (l : list A) x y k i :
  i = length l → <[i := y]> (l ++ x :: k) = l ++ y :: k.
Proof. intros ->. rewrite insert_app_r_alt by lia. by rewrite Nat.sub_diag. Qed.

(** [add] maintains the coalesced representation (sorted, disjoint and
    non-adjacent intervals of positive 64-bit numbers, so an in-order session
    needs one interval) and represents exactly the old set plus the number. *)
Lemma add_spec ranges sequence :
  wf 0 ranges → 1 ≤ sequence < 2^64 →
  wf 0 (add sequence ranges) ∧
  ∀ x, member x (add sequence ranges) ↔ x = sequence ∨ member x ranges.
Proof.
  intros Hw Hs. unfold add. rewrite (proj2 (Z.eqb_neq sequence 0)) by lia.
  rewrite u64_id by lia.
  destruct (search_split 0 ranges (λ z, (sequence <=? z) || (z =? sequence - 1)) Hw)
    as [[Hi Hf]|(pre & r & post & -> & Hi & Hp & Hf)].
  { intros x y Hxy. rewrite !orb_true_iff, !Z.leb_le, !Z.eqb_eq. lia. }
  - rewrite Hi, Nat.eqb_refl.
    assert (Forall (λ r, last r + 1 < sequence) ranges) as Hlt.
    { eapply list.Forall_impl; [exact Hf|]. intros r Hr. cbv beta in Hr.
      apply orb_false_iff in Hr as [?%Z.leb_gt ?%Z.eqb_neq]. lia. }
    split.
    + apply wf_app. split; [done|]. cbn.
      pose proof (forall_last_below 0 ranges sequence ltac:(lia) Hlt).
      split_and!; lia.
    + intros x. rewrite member_app, member_cons. cbn. pose proof (member_nil x). naive_solver lia.
  - rewrite Hi. rewrite length_app. cbn [length].
    rewrite (proj2 (Nat.eqb_neq (length pre) (length pre + S (length post)))) by lia.
    rewrite (rangeAt_app pre r post) by done.
    assert (Forall (λ r, last r + 1 < sequence) pre) as Hlt.
    { eapply list.Forall_impl; [exact Hf|]. intros r' Hr. cbv beta in Hr.
      apply orb_false_iff in Hr as [?%Z.leb_gt ?%Z.eqb_neq]. lia. }
    assert (sequence - 1 ≤ last r) as Hr.
    { apply orb_true_iff in Hp as [?%Z.leb_le|?%Z.eqb_eq]; lia. }
    pose proof Hw as Hw'. rewrite wf_app in Hw'. destruct Hw' as [Hwp (Hr1 & Hr2 & Hr3 & Hwq)].
    pose proof (wf_bound 0 pre Hwp) as Hb0.
    assert (bound 0 pre < sequence) as Hbs.
    { apply forall_last_below; [lia|done]. }
    destruct ((sequence <? first r) && (1 <? u64 (first r - sequence))) eqn:Hgap.
    { apply andb_true_iff in Hgap as [H1%Z.ltb_lt H2%Z.ltb_lt]. rewrite u64_id in H2 by lia.
      rewrite take_app_length, drop_app_length. split.
      - apply wf_app. split; [done|]. cbn. split_and!; try lia; try done.
      - intros x. rewrite !member_app, !member_cons. cbn. naive_solver lia. }
    assert (first r ≤ sequence + 1) as Hnogap.
    { apply andb_false_iff in Hgap as [?%Z.ltb_ge|Hg%Z.ltb_ge]; [lia|].
      destruct (Z.le_gt_cases (first r) sequence); [lia|]. rewrite u64_id in Hg; lia. }
    set (r' := mkRange (Z.min (first r) sequence) (Z.max (last r) sequence)).
    assert (Hr'f : first r' = Z.min (first r) sequence) by done.
    assert (Hr'l : last r' = Z.max (last r) sequence) by done.
    assert (Hbf : bound 0 pre < first r') by lia.
    assert (Hmr : ∀ x, first r' ≤ x ≤ last r' ↔ x = sequence ∨ first r ≤ x ≤ last r).
    { intros x. lia. }
    rewrite !insert_middle' by done.
    destruct post as [|q post].
    { cbn [length]. rewrite (proj2 (Nat.ltb_ge (S (length pre)) (length pre + 1))) by lia.
      cbn [andb]. split.
      - apply wf_app. split; [done|]. cbn -[r']. split_and!; try lia; try done.
      - intros x. rewrite !member_app, !member_cons, Hmr. tauto. }
    destruct Hwq as (Hq1 & Hq2 & Hq3 & Hwq).
    assert (Hrq : rangeAt (pre ++ r :: q :: post) (S (length pre)) = q).
    { change (r :: q :: post) with ([r] ++ q :: post). rewrite app_assoc. apply rangeAt_app. rewrite length_app. cbn. lia. }
    rewrite Hrq. cbn [length].
    rewrite (proj2 (Nat.ltb_lt (S (length pre)) (length pre + S (S (length post))))) by lia.
    cbn [andb]. rewrite u64_id by lia.
    destruct (Z.leb_spec (first q - last r') 1) as [Hadj|Hsep].
    + assert (delete (S (length pre))
                (pre ++ mkRange (first r') (Z.max (last r') (last q)) :: q :: post)
        = pre ++ mkRange (first r') (Z.max (last r') (last q)) :: post) as ->.
      { change (?x :: q :: post) with ([x] ++ q :: post). rewrite app_assoc.
        rewrite delete_middle' by (rewrite length_app; cbn; lia). by rewrite <- app_assoc. }
      split.
      * apply wf_app. split; [done|]. cbn -[r'].
        split_and!; try lia. rewrite Z.max_r by lia. done.
      * intros x. rewrite !member_app, !member_cons. cbn [first last].
        assert (first r' ≤ x ≤ Z.max (last r') (last q) ↔
          (x = sequence ∨ first r ≤ x ≤ last r) ∨ first q ≤ x ≤ last q) as -> by lia.
        tauto.
    + split.
      * apply wf_app. split; [done|]. cbn -[r']. split_and!; try lia; try done.
      * intros x. rewrite !member_app, !member_cons, Hmr. tauto.
Qed.

(** [through] is the end of the contiguous run: 0 exactly when the start was
    not seen (or is 0), otherwise the largest number such that every number from
    the start up to it was seen. *)
Lemma through_spec ranges start :
  wf 0 ranges → 0 ≤ start →
  (through start ranges = 0 ∧ (start = 0 ∨ ¬ member start ranges)) ∨
  (1 ≤ start ≤ through start ranges ∧
   (∀ x, start ≤ x ≤ through start ranges → member x ranges) ∧
   ¬ member (through start ranges + 1) ranges).
Proof.
  intros Hw Hs. unfold through. destruct (Z.eqb_spec start 0) as [->|Hne]; [left; auto|].
  cbn [orb].
  destruct (search_split 0 ranges (λ z, start <=? z) Hw)
    as [[Hi Hf]|(pre & r & post & -> & Hi & Hp & Hf)].
  { intros x y. rewrite !Z.leb_le. lia. }
  - rewrite Hi, Nat.eqb_refl. left. split; [done|]. right. intros (r & Hr & Hx).
    rewrite list.Forall_forall in Hf. specialize (Hf r Hr). cbv beta in Hf.
    apply Z.leb_gt in Hf. lia.
  - rewrite Hi, length_app. cbn [length].
    rewrite (proj2 (Nat.eqb_neq (length pre) (length pre + S (length post)))) by lia.
    rewrite (rangeAt_app pre r post) by done. cbn [orb]. apply Z.leb_le in Hp.
    assert (Hpre : ∀ x, member x pre → x < start).
    { intros x (r' & Hr & Hx). rewrite list.Forall_forall in Hf. specialize (Hf r' Hr).
      cbv beta in Hf. apply Z.leb_gt in Hf. lia. }
    rewrite wf_app in Hw. destruct Hw as [Hwp (Hr1 & Hr2 & Hr3 & Hwq)].
    assert (Hpost : ∀ x, member x post → last r + 1 < x).
    { intros x Hx. apply (member_above _ _ _ Hwq) in Hx. lia. }
    destruct (Z.ltb_spec start (first r)) as [Hlt|Hge].
    + left. split; [done|]. right. rewrite member_app, member_cons.
      intros [Hx|[Hx|Hx]]; [apply Hpre in Hx; lia|lia|apply Hpost in Hx; lia].
    + right. split_and!; [lia|lia| |].
      * intros x Hx. rewrite member_app, member_cons. right. left. lia.
      * rewrite member_app, member_cons.
        intros [Hx|[Hx|Hx]]; [apply Hpre in Hx; lia|lia|apply Hpost in Hx; lia].
Qed.

(** Membership is what [through] tests. *)
Lemma through_member ranges x :
  wf 0 ranges → 0 ≤ x → through x ranges ≠ 0 ↔ member x ranges.
Proof.
  intros Hw Hx. destruct (through_spec ranges x Hw Hx) as [[H0 Hn]|(Hle & Hall & _)].
  - split; [congruence|]. intros Hm. destruct Hn as [-> |]; [|done].
    apply (member_above 0) in Hm; [lia|done].
  - split; [|lia]. intros _. apply Hall. lia.
Qed.

Definition exampleRanges : sequenceRanges := [mkRange 1 3; mkRange 5 6; mkRange 9 9].

Example add_coalesces : add 4 exampleRanges = [mkRange 1 6; mkRange 9 9].
Proof. vm_compute. reflexivity. Qed.
Example add_between : add 7 (add 8 exampleRanges) = [mkRange 1 3; mkRange 5 9].
Proof. vm_compute. reflexivity. Qed.

Lemma exampleRanges_wf : wf 0 exampleRanges.
Proof. cbn. lia. Qed.

(** ** Canonicity *)
Lemma wf_cons_first lo r l x : wf lo (r :: l) → member x (r :: l) → first r ≤ x.
Proof.
  intros (_ & ? & _ & Hl) [?|Hx]%member_cons; [lia|].
  apply (member_above _ _ _ Hl) in Hx. lia.
Qed.

Lemma wf_cons_gap lo r l : wf lo (r :: l) → ¬ member (last r + 1) (r :: l).
Proof.
  intros (_ & ? & _ & Hl) [?|Hx]%member_cons; [lia|].
  apply (member_above _ _ _ Hl) in Hx. lia.
Qed.

(** Two representations of the same set are equal. *)
Lemma wf_canonical lo lo' l l' :
  wf lo l → wf lo' l' → (∀ x, member x l ↔ member x l') → l = l'.
Proof.
  revert lo lo' l'. induction l as [|r l IH]; intros lo lo' [|r' l'] Hw Hw' Hm; [done| | |].
  - destruct Hw' as (_ & ? & _). exfalso. apply (member_nil (first r')). apply Hm, member_cons.
    left. lia.
  - destruct Hw as (_ & ? & _). exfalso. apply (member_nil (first r)). apply Hm, member_cons.
    left. lia.
  - assert (first r = first r') as Hf.
    { apply Z.le_antisymm.
      - apply (wf_cons_first _ _ _ _ Hw), Hm, member_cons. left. destruct Hw'. lia.
      - apply (wf_cons_first _ _ _ _ Hw'), Hm, member_cons. left. destruct Hw. lia. }
    pose proof Hw as (_ & H1 & _ & Hl). pose proof Hw' as (_ & H1' & _ & Hl').
    assert (last r = last r') as Hlast.
    { pose proof (wf_cons_gap _ _ _ Hw) as Hg. pose proof (wf_cons_gap _ _ _ Hw') as Hg'.
      apply Z.le_antisymm; apply Z.nlt_ge; intros Hlt.
      - apply Hg'. apply Hm, member_cons. left. lia.
      - apply Hg. apply Hm, member_cons. left. lia. }
    assert (r = r') as <- by (destruct r, r'; cbn in *; congruence).
    f_equal. apply (IH _ _ _ Hl Hl'). intros x. specialize (Hm x). rewrite !member_cons in Hm.
    split; intros Hx.
    + pose proof (member_above _ _ _ Hl Hx). destruct Hm as [[?|?] _]; [tauto|lia|done].
    + pose proof (member_above _ _ _ Hl' Hx). destruct Hm as [_ [?|?]]; [tauto|lia|done].
Qed.

(** A session's event stream, in order of arrival. *)
Definition addAll (stream : list Z) : sequenceRanges := foldl (λ l x, add x l) [] stream.

Lemma addAll_spec stream :
  Forall (λ x, 0 ≤ x < 2^64) stream →
  wf 0 (addAll stream) ∧ ∀ x, member x (addAll stream) ↔ x ∈ stream ∧ x ≠ 0.
Proof.
  induction stream as [|y stream IH] using rev_ind; intros Hs.
  { split; [done|]. intros x. split; [intros []%member_nil|set_solver]. }
  apply list.Forall_app in Hs as [Hs [Hy _]%list.Forall_cons]. specialize (IH Hs) as [Hw Hm].
  unfold addAll in *. rewrite foldl_app. cbn [foldl].
  destruct (decide (y = 0)) as [->|Hne].
  { split; [done|]. intros x. change (add 0 ?l) with l. rewrite Hm. set_solver. }
  destruct (add_spec _ y Hw ltac:(lia)) as [Hw' Hm']. split; [done|].
  intros x. rewrite Hm', Hm. set_solver.
Qed.

(** C35: the coalesced intervals implement a set of sequence numbers.  For every
    stream of 64-bit numbers, in any order and with repetitions: the intervals
    stay sorted, disjoint and non-adjacent; they contain exactly the non-zero
    numbers of the stream; [through] is 0 exactly for an unseen start and
    otherwise the end of the longest contiguous run from it; and a stream with
    the same numbers in another order gives the very same intervals. *)
Theorem ranges_represent stream start :
  Forall (λ x, 0 ≤ x < 2^64) stream → 0 ≤ start →
  let ranges := addAll stream in
  wf 0 ranges ∧ (∀ x, member x ranges ↔ x ∈ stream ∧ x ≠ 0) ∧
  ((through start ranges = 0 ∧ (start = 0 ∨ start ∉ stream)) ∨
   (1 ≤ start ≤ through start ranges ∧
    (∀ x, start ≤ x ≤ through start ranges → x ∈ stream) ∧
    through start ranges + 1 ∉ stream)) ∧
  (∀ stream', stream' ≡ₚ stream → addAll stream' = ranges).
Proof.
  intros Hs Hst ranges. destruct (addAll_spec stream Hs) as [Hw Hm]. fold ranges in Hw, Hm.
  split; [done|]. split; [done|]. split.
  - destruct (through_spec ranges start Hw Hst) as [[H0 Hn]|(Hle & Hall & Hg)].
    + left. split; [done|]. destruct (decide (start = 0)); [by left|right].
      destruct Hn as [?|Hn]; [done|]. intros Hin. by apply Hn, Hm.
    + right. split; [done|]. split; [intros x Hx; by apply Hm, Hall|].
      intros Hin. apply Hg, Hm. split; [done|lia].
  - intros stream' Hp. destruct (addAll_spec stream') as [Hw' Hm']; [by rewrite Hp|].
    apply (wf_canonical 0 0); [done|done|]. intros x. by rewrite Hm', Hm, Hp.
Qed.

Lemma ranges_represent_witness :
  let ranges := addAll [3; 1; 2; 7; 2] in
  wf 0 ranges ∧ (∀ x, member x ranges ↔ x ∈ [3; 1; 2; 7; 2] ∧ x ≠ 0) ∧
  ((through 1 ranges = 0 ∧ (1 = 0 ∨ 1 ∉ [3; 1; 2; 7; 2])) ∨
   (1 ≤ 1 ≤ through 1 ranges ∧
    (∀ x, 1 ≤ x ≤ through 1 ranges → x ∈ [3; 1; 2; 7; 2]) ∧
    through 1 ranges + 1 ∉ [3; 1; 2; 7; 2])) ∧
  (∀ stream', stream' ≡ₚ [3; 1; 2; 7; 2] → addAll stream' = ranges).
Proof.
  apply (ranges_represent [3; 1; 2; 7; 2] 1); [|lia].
  repeat (apply list.Forall_cons; split; [lia|]). apply list.Forall_nil_2.
Defined.
