(* ===== verification/SessionWindow.v ===== *)
(** * Session-window measurement

    [internal/controller/run_metrics_window.go]: the index of telemetry events
    by measurement session, publication and receipt, the evaluation of a
    session's evidence, the inspection of a receiver's receipts and the sweep
    that counts expected, delivered, missed and unknown pairs.  Cancellation of
    the summary's context only abandons it and is left out.  Go's random map
    order is the order of [map_to_list]; no result depends on it but the order
    of [samples]. *)
From Stdlib Require Import ZArith Lia.
From stdpp Require Import strings list gmap sorting.
From S2P Require Import Prelude.
From S2P Require Import GoStd.
From S2P Require Import Trace.
From S2P Require Import SequenceRanges.
Open Scope Z_scope.

(** ** The index *)
Definition sessionWindowDefinition : string := "session-window-v1".

Definition measurementSessionKey : Type := string * string.
Definition messageMetricKey : Type := string * string.

Record sessionProof := mkProof { at_ : Time; sequence : Z }.

Record measurementSession := mkSession {
  key : measurementSessionKey; started : bool; start : sessionProof;
  topics : gset string; known : bool; sequences : sequenceRanges;
  proofs : list sessionProof; stop : option sessionProof; invalid : bool }.

Record windowPublication := mkPublication {
  pkey : messageMetricKey; publisher : string; psession : string;
  auditTargets : list string; pat : Time; deadline : Time; valid : bool; local : bool }.

Record deliveryMetric := mkDelivery {
  timestamp : Time; agentID : string; latencyMS : float; latencyAvailable : bool;
  clockSynchronized : bool; latencyUncertaintyMS : float }.

Record windowDelivery := mkWindowDelivery { proof : sessionProof; value : deliveryMetric }.

Record windowReceipts := mkReceipts {
  deliveries : list windowDelivery; duplicates : list sessionProof }.

Record sessionWindowAccumulator := mkWindow {
  enabled : bool; incomplete : bool;
  sessions : gmap measurementSessionKey measurementSession;
  publications : gmap messageMetricKey windowPublication;
  receipts : gmap messageMetricKey (gmap measurementSessionKey windowReceipts);
  terminations : gmap string (list Time) }.

Definition emptyWindow : sessionWindowAccumulator := mkWindow false false ∅ ∅ ∅ ∅.

Definition newSession (k : measurementSessionKey) : measurementSession :=
  mkSession k false (mkProof 0 0) ∅ false [] [] None false.

(** [measurement_start]: the smallest sequence number wins. *)
Definition observeStart (e : TraceEvent) (s : measurementSession) : measurementSession :=
  if negb (started s) || (Sequence e <? sequence (start s)) then
    let ids := targetNodeIDs (Fields e !! "subscribedTopics") in
    mkSession (key s) true (mkProof (Timestamp e) (Sequence e))
      (list_to_set (default [] ids)) (bool_decide (is_Some ids)) (sequences s) (proofs s)
      (stop s) (invalid s)
  else s.

(** [measurement_checkpoint] and [measurement_stop] *)
Definition observeProof (e : TraceEvent) (s : measurementSession) : measurementSession :=
  let p := mkProof (Timestamp e) (Sequence e) in
  let stop' :=
    if bool_decide (Type_ e = "measurement_stop"%string) then
      match stop s with
      | None => Some p
      | Some q => if Sequence e <? sequence q then Some p else stop s
      end
    else stop s in
  mkSession (key s) (started s) (start s) (topics s) (known s) (sequences s)
    (proofs s ++ [p]) stop' (invalid s).

Definition isCheckpoint (t : string) : bool :=
  bool_decide (t = "measurement_checkpoint"%string) || bool_decide (t = "measurement_stop"%string).
Definition isLifecycle (t : string) : bool :=
  bool_decide (t = "measurement_start"%string) || isCheckpoint t.

(** The events of one session. *)
Definition observeSession (e : TraceEvent) (s : measurementSession) : measurementSession :=
  let s := mkSession (key s) (started s) (start s) (topics s) (known s)
             (add (Sequence e) (sequences s)) (proofs s) (stop s)
             (invalid s || (Sequence e =? 0)) in
  if bool_decide (Type_ e = "measurement_start"%string) then observeStart e s
  else if isCheckpoint (Type_ e) then observeProof e s
  else s.

Definition defaultWindow : Z := 10 * Duration.Second.

(** A publication event under the window definition. *)
Definition newPublication (e : TraceEvent) : windowPublication :=
  let valid := negb (IsZero (Timestamp e)) && negb (bool_decide (MessageID e = ""%string)) &&
               negb (bool_decide (NodeID e = ""%string)) in
  let '(window, valid) :=
    match Fields e !! "deliveryWindow" with
    | None => (defaultWindow, valid)
    | Some (AString text) =>
        match Duration.parse text with
        | Some parsed =>
            if (parsed <=? 0) || (Duration.Hour <? parsed) then (defaultWindow, false)
            else (parsed, valid)
        | None => (defaultWindow, false)
        end
    | Some _ => (defaultWindow, false)
    end in
  mkPublication (Topic e, MessageID e) (NodeID e) (SessionID e)
    (default [] (targetNodeIDs (Fields e !! "targetNodeIds")))
    (Timestamp e) (Timestamp e + window) valid (boolField e "localPublication").

Definition newDelivery (e : TraceEvent) : windowDelivery :=
  mkWindowDelivery (mkProof (Timestamp e) (Sequence e))
    (mkDelivery (Timestamp e) (AgentID e) (LatencyMS e)
       (bool_decide (stringField e "payloadEncoding" = "envelope"%string) &&
        boolField e "latencyAvailable")
       (boolField e "latencyClockSynchronized")
       (fst (numericEventField (Fields e) "latencyUncertaintyMs"))).

(** Appending a delivery or a duplicate to the receipts of its session. *)
Definition observeReceipt (e : TraceEvent)
    (m : gmap messageMetricKey (gmap measurementSessionKey windowReceipts)) :
    gmap messageMetricKey (gmap measurementSessionKey windowReceipts) :=
  let k := (Topic e, MessageID e) in
  let sk := (NodeID e, SessionID e) in
  let bySession := default ∅ (m !! k) in
  let r := default (mkReceipts [] []) (bySession !! sk) in
  let r := if bool_decide (Type_ e = "duplicate"%string)
           then mkReceipts (deliveries r) (duplicates r ++ [mkProof (Timestamp e) (Sequence e)])
           else mkReceipts (deliveries r ++ [newDelivery e]) (duplicates r) in
  <[k := <[sk := r]> bySession]> m.

Definition observe (e : TraceEvent) (w : sessionWindowAccumulator) : sessionWindowAccumulator :=
  if bool_decide (Type_ e = "measurement_terminated"%string) then
    if negb (bool_decide (NodeID e = ""%string)) && negb (IsZero (Timestamp e)) then
      mkWindow (enabled w) (incomplete w) (sessions w) (publications w) (receipts w)
        (<[NodeID e := default [] (terminations w !! NodeID e) ++ [Timestamp e]]> (terminations w))
    else w
  else
    let definition := stringField e "measurementDefinition" in
    let isWindow := bool_decide (definition = sessionWindowDefinition) in
    let lifecycle := isLifecycle (Type_ e) in
    let hasSession := negb (bool_decide (SessionID e = ""%string)) in
    let hasNode := negb (bool_decide (NodeID e = ""%string)) in
    let enabled' := enabled w ||
      (negb (bool_decide (Type_ e = "bandwidth"%string)) && (hasSession || isWindow || lifecycle)) in
    let sk := (NodeID e, SessionID e) in
    let '(sessions', incomplete') :=
      if hasSession && hasNode then
        (<[sk := observeSession e (default (newSession sk) (sessions w !! sk))]> (sessions w),
         incomplete w)
      else (sessions w, incomplete w || lifecycle || isWindow) in
    let k := (Topic e, MessageID e) in
    let publications' :=
      if bool_decide (Type_ e = "publish"%string) && isWindow then
        match publications w !! k with
        | Some _ => publications w
        | None => <[k := newPublication e]> (publications w)
        end
      else publications w in
    let receipts' :=
      if bool_decide (MessageID e = ""%string) || negb hasNode ||
         negb (bool_decide (Type_ e = "deliver"%string) ||
               bool_decide (Type_ e = "duplicate"%string)) ||
         boolField e "localDelivery"
      then receipts w else observeReceipt e (receipts w) in
    mkWindow enabled' incomplete' sessions' publications' receipts' (terminations w).

(** ** Evaluating a session *)
Record evaluatedSession := mkEvaluated {
  source : measurementSession; aliveThrough : Time; completeUntil : Time;
  stopComplete : bool; end_ : option Time }.

(** The loop over the proofs: [None] is the early return. *)
Fixpoint evaluateProofs (s : measurementSession) (thr : Z) (l : list sessionProof)
    (alive complete : Time) : option (Time * Time) :=
  match l with
  | [] => Some (alive, complete)
  | p :: l =>
      if (sequence p <? sequence (start s)) || (at_ p <? at_ (start s)) || IsZero (at_ p)
      then None
      else if match stop s with
              | Some q => (sequence q <? sequence p) || (at_ q <? at_ p)
              | None => false
              end
      then None
      else
        evaluateProofs s thr l
          (if alive <? at_ p then at_ p else alive)
          (if (sequence p <=? thr) && (complete <? at_ p) then at_ p else complete)
  end.

Definition evaluateSession (s : measurementSession) : option evaluatedSession :=
  if negb (started s) || negb (known s) || invalid s || IsZero (at_ (start s)) ||
     (sequence (start s) =? 0)
  then None
  else if match stop s with
          | Some q => (at_ q <? at_ (start s)) || (sequence q <? sequence (start s))
          | None => false
          end
  then None
  else
    let thr := through (sequence (start s)) (sequences s) in
    '(alive, complete) ← evaluateProofs s thr (proofs s) 0 0;
    Some (mkEvaluated s alive complete
            match stop s with Some q => sequence q <=? thr | None => false end
            (at_ <$> stop s)).

(** A confirmed removal bounds the session's end from above. *)
Definition terminate (ev : evaluatedSession) (terminated : Time) : evaluatedSession :=
  if (at_ (start (source ev)) <=? terminated) &&
     match end_ ev with None => true | Some e => terminated <? e end
  then mkEvaluated (source ev) (aliveThrough ev) (completeUntil ev) false (Some terminated)
  else ev.

(** ** Receipts of one receiver *)
Record windowReceiptResult := mkReceipt {
  ontime : option windowDelivery; late : bool; rinvalid : bool; rduplicates : Z }.

Definition notFinite (x : float) : bool := F64.isNaN x || F64.isInf x.

Definition inspectDelivery (p : windowPublication) (ev : evaluatedSession)
    (r : windowReceiptResult) (d : windowDelivery) : windowReceiptResult :=
  let s := source ev in
  let at' := at_ (proof d) in
  let v := value d in
  let setInvalid := mkReceipt (ontime r) (late r) true (rduplicates r) in
  let setLate := mkReceipt (ontime r) true (rinvalid r) (rduplicates r) in
  let setOntime :=
    if match ontime r with None => true | Some o => at' <? at_ (proof o) end
    then mkReceipt (Some d) (late r) (rinvalid r) (rduplicates r) else r in
  let clockBounded := clockSynchronized v && latencyAvailable v &&
    F64.leb F64.zero (latencyUncertaintyMS v) && negb (notFinite (latencyMS v)) &&
    negb (notFinite (latencyUncertaintyMS v)) in
  if (negb clockBounded && (at' <? pat p)) || (at' <? at_ (start s)) ||
     (sequence (proof d) <? sequence (start s)) ||
     match end_ ev with Some e => e <? at' | None => false end ||
     match stop s with
     | Some q => (at_ q <? at') || (sequence q <? sequence (proof d))
     | None => false
     end
  then setInvalid
  else if clockBounded then
    let upper := F64.add (latencyMS v) (latencyUncertaintyMS v) in
    let lower := F64.sub (latencyMS v) (latencyUncertaintyMS v) in
    let windowMS := F64.div (F64.of_Z (SubTime (deadline p) (pat p)))
                            (F64.of_Z Duration.Millisecond) in
    if F64.ltb upper F64.zero then setInvalid
    else if F64.ltb windowMS upper then
      if F64.ltb windowMS lower then setLate else setInvalid
    else setOntime
  else if latencyAvailable v && (F64.ltb (latencyMS v) F64.zero || notFinite (latencyMS v))
  then setInvalid
  else if deadline p <? at' then setLate
  else setOntime.

Definition countsDuplicate (p : windowPublication) (ev : evaluatedSession) (d : sessionProof) :
    bool :=
  let s := source ev in
  (pat p <=? at_ d) && (at_ d <=? deadline p) && (sequence (start s) <=? sequence d) &&
  match end_ ev with Some e => at_ d <=? e | None => true end &&
  match stop s with
  | Some q => (at_ d <=? at_ q) && (sequence d <=? sequence q)
  | None => true
  end.

Definition inspectWindowReceipts (receipts : option windowReceipts) (p : windowPublication)
    (ev : evaluatedSession) : windowReceiptResult :=
  match receipts with
  | None => mkReceipt None false false 0
  | Some rs =>
      let r := foldl (inspectDelivery p ev) (mkReceipt None false false 0) (deliveries rs) in
      mkReceipt (ontime r) (late r) (rinvalid r)
        (Z.of_nat (length (filter (λ d, countsDuplicate p ev d = true) (duplicates rs))))
  end.

(** ** The summary *)

(** The counters of [model.Metrics] the sweep increments. *)
Inductive counter :=
  | PendingPublications | FinalizedPublications | PublicationAvailabilityUnknownPairs
  | AvailabilityUnknownPairs | InitialExpectedDeliveries | InitialEligibleDeliveries
  | InitialUnknownDeliveries | DepartedPairs | ContinuityUnknownPairs | ExpectedDeliveries
  | UnknownDeliveries | MissedDeliveries | LateDeliveries | InvalidLatencySamples
  | EligibleDeliveries | EligibleDuplicates.

#[export] Instance counter_eq_dec : EqDecision counter.
Proof. solve_decision. Defined.

Definition tally : Type := counter → Z.
Definition bump (c : counter) (n : Z) (t : tally) : tally :=
  λ d, if bool_decide (d = c) then t d + n else t d.
Definition inc (c : counter) : tally → tally := bump c 1.

Record propagationSample := mkSample { series : string * string; seconds : float; nodeID : string }.

(** What the sweep accumulates. *)
Record summary := mkSummary {
  counts : tally; latencies : list float; samples : list propagationSample }.

Definition count (f : tally → tally) (s : summary) : summary :=
  mkSummary (f (counts s)) (latencies s) (samples s).

Definition goodLatency (x : float) : bool := F64.leb F64.zero x && negb (notFinite x).

(** One publication and one active session. *)
Definition pair (w : sessionWindowAccumulator) (p : windowPublication) (s : summary)
    (ks : measurementSessionKey * evaluatedSession) : summary :=
  let '(k, ev) := ks in
  if bool_decide (fst k = publisher p) then s
  else if aliveThrough ev <? pat p then
    count (λ t, inc AvailabilityUnknownPairs (inc PublicationAvailabilityUnknownPairs t)) s
  else
    let s := count (inc InitialExpectedDeliveries) s in
    let r := inspectWindowReceipts (receipts w !! pkey p ≫= λ m, m !! k) p ev in
    let departed := match end_ ev with Some e => e <? deadline p | None => false end in
    let stable := negb departed && (deadline p <=? aliveThrough ev) in
    let s :=
      match ontime r with
      | Some _ => count (inc InitialEligibleDeliveries) s
      | None =>
          if rinvalid r || (departed && negb (stopComplete ev)) ||
             (negb departed && (completeUntil ev <? deadline p))
          then count (inc InitialUnknownDeliveries) s else s
      end in
    if departed then count (inc DepartedPairs) s
    else if negb stable then
      count (λ t, inc AvailabilityUnknownPairs (inc ContinuityUnknownPairs t)) s
    else
      let s := count (inc ExpectedDeliveries) s in
      match ontime r with
      | None =>
          let s := count (inc (if rinvalid r || (completeUntil ev <? deadline p)
                               then UnknownDeliveries else MissedDeliveries)) s in
          let s := if late r then count (inc LateDeliveries) s else s in
          if rinvalid r then count (inc InvalidLatencySamples) s else s
      | Some d =>
          let s := count (λ t, bump EligibleDuplicates (rduplicates r)
                                 (inc EligibleDeliveries t)) s in
          let v := value d in
          if latencyAvailable v && goodLatency (latencyMS v) then
            mkSummary (counts s) (latencies s ++ [latencyMS v])
              (samples s ++ [mkSample (agentID v, fst (pkey p))
                               (F64.div (latencyMS v) (F64.of_Z 1000)) (fst k)])
          else if latencyAvailable v then count (inc InvalidLatencySamples) s
          else s
      end.

(** The two loops that move the active set to a publication's time. *)
Fixpoint activate (t : Time) (starts : list evaluatedSession)
    (active : gmap measurementSessionKey evaluatedSession) :
    list evaluatedSession * gmap measurementSessionKey evaluatedSession :=
  match starts with
  | [] => ([], active)
  | ev :: starts' =>
      if t <? at_ (start (source ev)) then (starts, active)
      else activate t starts' (<[key (source ev) := ev]> active)
  end.

Definition endOf (ev : evaluatedSession) : Time := default 0 (end_ ev).

Fixpoint retire (t : Time) (ends : list evaluatedSession)
    (active : gmap measurementSessionKey evaluatedSession) :
    list evaluatedSession * gmap measurementSessionKey evaluatedSession :=
  match ends with
  | [] => ([], active)
  | ev :: ends' =>
      if t <? endOf ev then (ends, active)
      else retire t ends' (delete (key (source ev)) active)
  end.

(** The sweep over the publications of one topic. *)
Fixpoint sweep (w : sessionWindowAccumulator) (pubs : list windowPublication)
    (starts ends : list evaluatedSession)
    (active : gmap measurementSessionKey evaluatedSession) (s : summary) : summary :=
  match pubs with
  | [] => s
  | p :: pubs =>
      let '(starts, active) := activate (pat p) starts active in
      let '(ends, active) := retire (pat p) ends active in
      sweep w pubs starts ends active (foldl (pair w p) s (map_to_list active))
  end.

Record sessionTopicIndex := mkIndex {
  starts : list evaluatedSession; ends : list evaluatedSession;
  ipublications : list windowPublication }.

Definition start_le (a b : evaluatedSession) : Prop :=
  at_ (start (source a)) ≤ at_ (start (source b)).
Definition end_le (a b : evaluatedSession) : Prop := endOf a ≤ endOf b.
Definition pub_le (a b : windowPublication) : Prop := pat a ≤ pat b.
#[export] Instance start_le_dec : RelDecision start_le.
Proof. intros a b. unfold start_le. apply _. Defined.
#[export] Instance end_le_dec : RelDecision end_le.
Proof. intros a b. unfold end_le. apply _. Defined.
#[export] Instance pub_le_dec : RelDecision pub_le.
Proof. intros a b. unfold pub_le. apply _. Defined.

Definition sweepTopic (w : sessionWindowAccumulator) (s : summary) (i : sessionTopicIndex) :
    summary :=
  sweep w (merge_sort pub_le (ipublications i)) (merge_sort start_le (starts i))
    (merge_sort end_le (ends i)) ∅ s.

(** The first loop: the sessions that count, or an incomplete measurement. *)
Definition evaluateFor (w : sessionWindowAccumulator) (s : measurementSession) :
    option (evaluatedSession * bool) :=
  ev ← evaluateSession s;
  let ev := foldl terminate ev (default [] (terminations w !! fst (key s))) in
  Some (ev, match end_ ev with Some e => e <? aliveThrough ev | None => false end).

(** The sessions of a topic, in the order of the map. *)
Definition usable (w : sessionWindowAccumulator) : list evaluatedSession :=
  omap (λ ks, match evaluateFor w (snd ks) with Some (ev, false) => Some ev | _ => None end)
    (map_to_list (sessions w)).

Definition sessionsOf (w : sessionWindowAccumulator) (topic : string) : list evaluatedSession :=
  filter (λ ev, topic ∈ topics (source ev)) (usable w).

(** The second loop: the finalized publications of a topic. *)
Definition finalized (w : sessionWindowAccumulator) (asOf : Time) (topic : string) :
    list windowPublication :=
  filter (λ p, fst (pkey p) = topic ∧ local p = false ∧ valid p = true ∧ deadline p ≤ asOf)
    (snd <$> map_to_list (publications w)).

Definition indexFor (w : sessionWindowAccumulator) (asOf : Time) (topic : string) :
    sessionTopicIndex :=
  let l := sessionsOf w topic in
  mkIndex l (filter (λ ev, is_Some (end_ ev)) l) (finalized w asOf topic).

(** The topics that get an index. *)
Definition indexedTopics (w : sessionWindowAccumulator) : list string :=
  elements (union_list ((λ ev, topics (source ev)) <$> usable w) ∪
            list_to_set (fst <$> map_to_list (publications w)).*1).

Definition publicationCounts (w : sessionWindowAccumulator) (asOf : Time) : tally :=
  let l := filter (λ p, local p = false ∧ valid p = true) (snd <$> map_to_list (publications w)) in
  let pending := filter (λ p, asOf < deadline p) l in
  bump PendingPublications (Z.of_nat (length pending))
    (bump FinalizedPublications (Z.of_nat (length l) - Z.of_nat (length pending)) (λ _, 0)).

(** [summarizeContext] up to the ratios. *)
Definition collect (w : sessionWindowAccumulator) (asOf : Time) : summary :=
  foldl (λ s topic, sweepTopic w s (indexFor w asOf topic))
    (mkSummary (publicationCounts w asOf) [] []) (indexedTopics w).

Definition knownStartNodes (w : sessionWindowAccumulator) : list string :=
  omap (λ ks, match evaluateFor w (snd ks) with Some _ => Some (fst (fst ks)) | None => None end)
    (map_to_list (sessions w)).

Definition measurementIncomplete (w : sessionWindowAccumulator) : bool :=
  incomplete w ||
  existsb (λ ks : measurementSessionKey * measurementSession,
    match evaluateFor w (snd ks) with Some (_, false) => false | _ => true end)
    (map_to_list (sessions w)) ||
  existsb (λ kp : messageMetricKey * windowPublication, let p := snd kp in
    negb (local p) &&
    (negb (valid p) ||
     existsb (λ n, negb (bool_decide (n = ""%string)) &&
                   negb (bool_decide (n ∈ knownStartNodes w))) (auditTargets p) ||
     existsb (λ sr : measurementSessionKey * windowReceipts,
       bool_decide (snd (fst sr) = ""%string))
       (map_to_list (default ∅ (receipts w !! fst kp)))))
    (map_to_list (publications w)).

(** The distinct delivery windows, sorted. *)
Definition deliveryWindows (w : sessionWindowAccumulator) : list string :=
  merge_sort (λ a b, Is_true (String.leb a b))
    (remove_dups ((λ p, Duration.String (SubTime (deadline p) (pat p))) <$>
       filter (λ p, local p = false ∧ valid p = true) (snd <$> map_to_list (publications w)))).

(** ** Ratios *)
Record Metrics := mkMetrics {
  Definition_ : string; MRunID : string; Published : Z; Delivered : Z; MDuplicates : Z;
  UnscopedPublications : Z; MCounts : tally; MIncomplete : bool; MWindows : list string; LegacyPublications : Z;
  DeliveryRatioAvailable : bool; Reachability : float; DeliveryRatioUpperBound : float;
  InitialDeliveryRatioAvailable : bool; InitialDeliveryRatio : float;
  InitialDeliveryRatioUpperBound : float; StableCoverageAvailable : bool;
  StableCoverage : float;
  StableCoverageUpperBound : float; DuplicateSamples : Z; AverageDuplicates : float;
  LatencySamples : Z; AverageLatencyMS : float; P95LatencyMS : float }.

Definition ratio (a b : Z) : float := F64.div (F64.of_Z a) (F64.of_Z b).

Definition float_le (a b : float) : Prop := Is_true (F64.leb a b).
#[export] Instance float_le_dec : RelDecision float_le.
Proof. intros a b. unfold float_le. apply _. Defined.

(** The incremental mean and the 95th percentile of the sorted latencies. *)
Fixpoint meanLoop (i : Z) (mean : float) (l : list float) : float :=
  match l with
  | [] => mean
  | x :: l => meanLoop (i + 1)
      (F64.add mean (F64.div (F64.sub x mean) (F64.of_Z (i + 1)))) l
  end.

Definition p95Index (n : Z) : Z :=
  F64.trunc (F64.ceil (F64.mul (F64.div (F64.of_Z 95) (F64.of_Z 100)) (F64.of_Z n))) - 1.

Definition latencyStats (l : list float) : res (float * float) :=
  match l with
  | [] => Ok (F64.zero, F64.zero)
  | _ =>
      let sorted := merge_sort float_le l in
      let i := p95Index (Z.of_nat (length l)) in
      p95 ← deref (if i <? 0 then None else sorted !! Z.to_nat i);
      Ok (meanLoop 0 F64.zero sorted, p95)
  end.

Definition summarize (w : sessionWindowAccumulator) (runID : string) (asOf : Time)
    (published delivered duplicates : Z) : res (Metrics * list propagationSample) :=
  let s := collect w asOf in
  let c := counts s in
  let expected := 0 <? c ExpectedDeliveries in
  let initial := 0 <? c InitialExpectedDeliveries in
  let when (b : bool) (x : float) := if b then x else F64.zero in
  '(mean, p95) ← latencyStats (latencies s);
  Ok (mkMetrics sessionWindowDefinition runID published delivered duplicates 0
        c (measurementIncomplete w) (deliveryWindows w)
        (Z.max 0 (published - Z.of_nat (size (publications w))))
        expected
        (when expected (ratio (c EligibleDeliveries) (c ExpectedDeliveries)))
        (when expected (ratio (c EligibleDeliveries + c UnknownDeliveries) (c ExpectedDeliveries)))
        initial
        (when initial (ratio (c InitialEligibleDeliveries) (c InitialExpectedDeliveries)))
        (when initial (ratio (c InitialEligibleDeliveries + c InitialUnknownDeliveries)
                             (c InitialExpectedDeliveries)))
        initial
        (when initial (ratio (c ExpectedDeliveries) (c InitialExpectedDeliveries)))
        (when initial (ratio (c ExpectedDeliveries + c ContinuityUnknownPairs)
                             (c InitialExpectedDeliveries)))
        (c EligibleDeliveries)
        (when (0 <? c EligibleDeliveries) (ratio (c EligibleDuplicates) (c EligibleDeliveries)))
        (Z.of_nat (length (latencies s))) mean p95,
      samples s).
