(* ===== verification/SessionWindowProps.v ===== *)
(** * Correctness of the session-window measurement

    What a session's evidence proves, the accounting identities of the
    counters, and the sweep over sorted boundaries against the definition of
    "active session" it computes, for every sequence of events. *)
From Stdlib Require Import ZArith Lia.
From stdpp Require Import strings list gmap sorting.
From S2P Require Import Prelude.
From S2P Require Import GoStd.
From S2P Require Import Trace.
From S2P Require Import SequenceRanges.
From S2P Require Import SessionWindow.
Open Scope Z_scope.

(** The index after a sequence of events. *)
Definition observed (events : list TraceEvent) : sessionWindowAccumulator :=
  foldl (λ w e, observe e w) emptyWindow events.

(** ** Invariant of the index *)
Definition wfSession (s : measurementSession) : Prop :=
  wf 0 (sequences s) ∧ 0 ≤ sequence (start s).

(** Sequence numbers are 64-bit. *)
Definition event_ok (e : TraceEvent) : Prop := 0 ≤ Sequence e < 2^64.

Lemma observeStart_key e s :
  event_ok e → 0 ≤ sequence (start s) →
  key (observeStart e s) = key s ∧ sequences (observeStart e s) = sequences s ∧
  0 ≤ sequence (start (observeStart e s)).
Proof. intros [? _] ?. unfold observeStart. by destruct (negb (started s) || _). Qed.

Lemma observeSession_key e s :
  event_ok e → 0 ≤ sequence (start s) →
  key (observeSession e s) = key s ∧
  sequences (observeSession e s) = add (Sequence e) (sequences s) ∧
  0 ≤ sequence (start (observeSession e s)).
Proof.
  intros He Hs. unfold observeSession. case_bool_decide.
  - by apply (observeStart_key e (mkSession _ _ _ _ _ _ _ _ _)).
  - by destruct (isCheckpoint (Type_ e)).
Qed.

Lemma add_zero l : add 0 l = l.
Proof. done. Qed.

Lemma add_wf x l : wf 0 l → 0 ≤ x < 2^64 → wf 0 (add x l).
Proof.
  intros Hw Hx. destruct (decide (x = 0)) as [->|Hne]; [done|].
  apply add_spec; [done|lia].
Qed.

Definition index_ok (w : sessionWindowAccumulator) : Prop :=
  ∀ k s, sessions w !! k = Some s → key s = k ∧ wfSession s.

Lemma observe_sessions e w :
  sessions (observe e w) = sessions w ∨
  sessions (observe e w) =
    <[(NodeID e, SessionID e) :=
        observeSession e (default (newSession (NodeID e, SessionID e))
                            (sessions w !! (NodeID e, SessionID e)))]> (sessions w).
Proof.
  unfold observe. case_bool_decide; [left; by destruct (negb _ && negb _)|].
  destruct (negb _ && negb _) eqn:Hs; [right|left]; done.
Qed.

Lemma observe_ok e w : event_ok e → index_ok w → index_ok (observe e w).
Proof.
  intros He Hw k s. destruct (observe_sessions e w) as [-> | ->]; [apply Hw|].
  rewrite lookup_insert_Some. intros [[<- <-]|[_ Hs]]; [|by apply Hw].
  set (s0 := default _ _).
  assert (key s0 = (NodeID e, SessionID e) ∧ wfSession s0) as (Hk & Hwf & H0).
  { unfold s0. destruct (sessions w !! _) as [s1|] eqn:Hs1; [by apply Hw|done]. }
  destruct (observeSession_key e s0 He H0) as (-> & Hsq & H0').
  split; [done|]. split; [|done]. rewrite Hsq. by apply add_wf.
Qed.

Lemma observed_ok events : Forall event_ok events → index_ok (observed events).
Proof.
  unfold observed. assert (index_ok emptyWindow) as Hw by done.
  revert Hw. generalize emptyWindow. induction events as [|e events IH]; intros w Hw Hf; [done|].
  inversion Hf; subst. cbn. apply IH; [by apply observe_ok|done].
Qed.

(** ** Evidence of a session *)
Lemma evaluateProofs_spec s thr l alive complete alive' complete' :
  evaluateProofs s thr l alive complete = Some (alive', complete') →
  (∀ p, p ∈ l → sequence (start s) ≤ sequence p ∧ at_ (start s) ≤ at_ p ∧
     at_ p ≠ 0 ∧ ∀ q, stop s = Some q → sequence p ≤ sequence q ∧ at_ p ≤ at_ q) ∧
  (alive' = alive ∨ ∃ p, p ∈ l ∧ at_ p = alive') ∧ alive ≤ alive' ∧
  (∀ p, p ∈ l → at_ p ≤ alive') ∧
  (complete' = complete ∨ ∃ p, p ∈ l ∧ at_ p = complete' ∧ sequence p ≤ thr) ∧
  complete ≤ complete'.
Proof.
  revert alive complete. induction l as [|p l IH]; intros alive complete He;
    cbn [evaluateProofs] in He.
  { simplify_eq. split_and!; try lia; auto; set_solver. }
  destruct ((sequence p <? sequence (start s)) || _ || _) eqn:H1; [done|].
  destruct (match stop s with Some q => _ | None => _ end) eqn:H2; [done|].
  apply orb_false_iff in H1 as [[Hs%Z.ltb_ge Ha%Z.ltb_ge]%orb_false_iff Hz%Z.eqb_neq].
  destruct (IH _ _ He) as (Hall & Hal & Hle & Hb & Hc & Hcle).
  assert (Hp : sequence (start s) ≤ sequence p ∧ at_ (start s) ≤ at_ p ∧ at_ p ≠ 0 ∧
    ∀ q, stop s = Some q → sequence p ≤ sequence q ∧ at_ p ≤ at_ q).
  { split_and!; try done. intros q Hq. rewrite Hq in H2.
    apply orb_false_iff in H2 as [?%Z.ltb_ge ?%Z.ltb_ge]. lia. }
  split_and!.
  - intros p' [->|Hp']%elem_of_cons; [done|by apply Hall].
  - destruct Hal as [Heq|(p' & Hp' & Hat)]; [|right; exists p'; set_solver].
    destruct (Z.ltb_spec alive (at_ p)); [right; exists p; set_solver|by left].
  - destruct (Z.ltb_spec alive (at_ p)); lia.
  - intros p' [->|Hp']%elem_of_cons; [|by apply Hb].
    destruct (Z.ltb_spec alive (at_ p)); lia.
  - destruct Hc as [Heq|(p' & Hp' & Hat)]; [|right; exists p'; set_solver].
    destruct ((sequence p <=? thr) && (complete <? at_ p)) eqn:Hc'; [|by left].
    apply andb_true_iff in Hc' as [?%Z.leb_le _]. right. exists p. set_solver.
  - destruct ((sequence p <=? thr) && (complete <? at_ p)) eqn:Hc'; [|lia].
    apply andb_true_iff in Hc' as [_ ?%Z.ltb_lt]. lia.
Qed.

(** What [evaluateSession] returns. *)
Lemma evaluateSession_ok s ev :
  evaluateSession s = Some ev →
  source ev = s ∧ started s = true ∧ known s = true ∧ invalid s = false ∧
  sequence (start s) ≠ 0 ∧ end_ ev = at_ <$> stop s ∧
  (∀ q, stop s = Some q → at_ (start s) ≤ at_ q ∧ sequence (start s) ≤ sequence q) ∧
  stopComplete ev = match stop s with
                    | Some q => sequence q <=? through (sequence (start s)) (sequences s)
                    | None => false end ∧
  evaluateProofs s (through (sequence (start s)) (sequences s)) (proofs s) 0 0
    = Some (aliveThrough ev, completeUntil ev).
Proof.
  unfold evaluateSession. destruct (negb (started s) || _ || _ || _ || _) eqn:H1; [done|].
  destruct (match stop s with Some q => _ | None => _ end) eqn:H2; [done|].
  destruct (evaluateProofs s _ _ _ _) as [[alive complete]|] eqn:He; [|done].
  cbn [mbind option_bind]. intros [= <-]. rewrite !orb_false_iff in H1.
  destruct H1 as ((((?%negb_false_iff & ?%negb_false_iff) & ?) & ?) & ?%Z.eqb_neq).
  cbn. split_and!; try done. intros q Hq. rewrite Hq in H2.
  apply orb_false_iff in H2 as [?%Z.ltb_ge ?%Z.ltb_ge]. lia.
Qed.

(** A session's evidence means what it says.  When [evaluateSession] accepts
    a session built from telemetry: [completeUntil] is either unset or the time
    of a checkpoint up to which every sequence number since the session's start
    was received, so an absent receipt is a real miss; a complete stop has the
    whole stream; no checkpoint lies before the start, after the stop or after
    [aliveThrough]. *)
Theorem evaluateSession_sound events k s ev :
  Forall event_ok events → sessions (observed events) !! k = Some s →
  evaluateSession s = Some ev →
  (completeUntil ev = 0 ∨ ∃ p, p ∈ proofs s ∧ at_ p = completeUntil ev ∧
     ∀ x, sequence (start s) ≤ x ≤ sequence p → member x (sequences s)) ∧
  (stopComplete ev = true → ∃ q, stop s = Some q ∧
     ∀ x, sequence (start s) ≤ x ≤ sequence q → member x (sequences s)) ∧
  (∀ p, p ∈ proofs s → at_ (start s) ≤ at_ p ≤ aliveThrough ev ∧
     ∀ q, stop s = Some q → sequence p ≤ sequence q ∧ at_ p ≤ at_ q).
Proof.
  intros Hev Hs He. destruct (observed_ok events Hev k s Hs) as [_ [Hwf H0]].
  apply evaluateSession_ok in He as (_ & _ & _ & _ & Hn0 & _ & Hstop & Hsc & He).
  apply evaluateProofs_spec in He as (Hall & _ & _ & Hal & Hc & _).
  assert (Hthr : ∀ y x, y ≤ through (sequence (start s)) (sequences s) →
    sequence (start s) ≤ x ≤ y → member x (sequences s)).
  { intros y x Hy Hx. destruct (through_spec (sequences s) (sequence (start s)) Hwf H0)
      as [[Hz _]|(_ & Hm & _)]; [lia|]. apply Hm. lia. }
  split_and!.
  - destruct Hc as [-> |(p & Hp & Hat & Hle)]; [by left|right]. exists p.
    split_and!; try done. intros x Hx. by apply (Hthr (sequence p)).
  - intros Ht. rewrite Hsc in Ht. destruct (stop s) as [q|]; [|done]. apply Z.leb_le in Ht.
    exists q. split; [done|]. intros x Hx. by apply (Hthr (sequence q)).
  - intros p Hp. destruct (Hall p Hp) as (_ & Ha & _ & Hq). split_and!; auto.
Qed.

(** ** Accounting *)
Record balanced (s : summary) : Prop := {
  bal_initial : counts s InitialExpectedDeliveries =
    counts s DepartedPairs + counts s ContinuityUnknownPairs + counts s ExpectedDeliveries;
  bal_expected : counts s ExpectedDeliveries =
    counts s EligibleDeliveries + counts s MissedDeliveries + counts s UnknownDeliveries;
  bal_unknown : counts s AvailabilityUnknownPairs =
    counts s PublicationAvailabilityUnknownPairs + counts s ContinuityUnknownPairs;
  bal_eligible : counts s InitialEligibleDeliveries + counts s InitialUnknownDeliveries
    ≤ counts s InitialExpectedDeliveries;
  bal_stable : counts s EligibleDeliveries ≤ counts s InitialEligibleDeliveries;
  bal_missed : counts s LateDeliveries ≤ counts s MissedDeliveries + counts s UnknownDeliveries;
  bal_latency : Z.of_nat (length (latencies s)) ≤ counts s EligibleDeliveries;
  bal_samples : length (samples s) = length (latencies s);
  bal_nonneg : ∀ c, 0 ≤ counts s c;
  bal_values : Forall (λ x, goodLatency x = true) (latencies s) }.

Lemma bump_eq c n t d : bump c n t d = if bool_decide (d = c) then t d + n else t d.
Proof. done. Qed.

Lemma inspect_duplicates rs p ev : 0 ≤ rduplicates (inspectWindowReceipts rs p ev).
Proof. destruct rs; cbn; lia. Qed.

(** Evaluate the counters of a chain of increments. *)
Ltac counters :=
  unfold count, inc; cbn [counts latencies samples];
  repeat match goal with
  | |- context [bump ?c ?n ?t ?d] =>
      is_constructor d;
      let v := eval vm_compute in (bool_decide (d = c)) in
      match v with
      | true => change (bump c n t d) with (t d + n)
      | false => change (bump c n t d) with (t d)
      end
  end.

Lemma balanced_count f s :
  balanced s →
  (let t := f (counts s) in
   t InitialExpectedDeliveries = t DepartedPairs + t ContinuityUnknownPairs + t ExpectedDeliveries ∧
   t ExpectedDeliveries = t EligibleDeliveries + t MissedDeliveries + t UnknownDeliveries ∧
   t AvailabilityUnknownPairs = t PublicationAvailabilityUnknownPairs + t ContinuityUnknownPairs ∧
   t InitialEligibleDeliveries + t InitialUnknownDeliveries ≤ t InitialExpectedDeliveries ∧
   t EligibleDeliveries ≤ t InitialEligibleDeliveries ∧
   t LateDeliveries ≤ t MissedDeliveries + t UnknownDeliveries ∧
   counts s EligibleDeliveries ≤ t EligibleDeliveries ∧ ∀ c, 0 ≤ t c) →
  balanced (count f s).
Proof.
  intros HB (?&?&?&?&?&?&?&?). split; try done; try apply HB.
  cbn. pose proof (bal_latency _ HB). lia.
Qed.

Lemma balanced_pair w p s ks : balanced s → balanced (pair w p s ks).
Proof.
  intros HB. destruct ks as [k ev]. unfold pair.
  case_bool_decide; [done|].
  set (r := inspectWindowReceipts _ p ev).
  pose proof (inspect_duplicates (receipts w !! pkey p ≫= λ m, m !! k) p ev) as Hdup. fold r in Hdup.
  clearbody r. destruct HB as [H1 H2 H3 H4 H5 H6 H7 H8 H9 H10].
  pose proof (H9 AvailabilityUnknownPairs). pose proof (H9 PublicationAvailabilityUnknownPairs).
  assert (HB : balanced s) by by split.
  destruct (aliveThrough ev <? pat p).
  { apply balanced_count; [done|]. cbv zeta. counters. split_and!; try lia.
    intros c. specialize (H9 c). rewrite ?bump_eq. repeat case_bool_decide; lia. }
  set (departed := match end_ ev with Some e => _ | None => _ end). clearbody departed.
  destruct (ontime r) as [d|].
  - destruct departed; cbn [negb andb orb].
    + split; counters; try lia; try done.
      intros c. specialize (H9 c). rewrite ?bump_eq. repeat case_bool_decide; lia.
    + destruct (deadline p <=? aliveThrough ev); cbn [negb].
      * assert (Hb : balanced (count (λ t, bump EligibleDuplicates (rduplicates r)
                    (inc EligibleDeliveries t)) (count (inc ExpectedDeliveries)
                    (count (inc InitialEligibleDeliveries)
                      (count (inc InitialExpectedDeliveries) s))))).
        { split; counters; try lia; try done.
          intros c. specialize (H9 c). rewrite ?bump_eq. repeat case_bool_decide; lia. }
        destruct (latencyAvailable (value d) && goodLatency (latencyMS (value d))) eqn:Hg.
        -- apply andb_true_iff in Hg as [_ Hg]. split; counters; try lia; try done.
           ++ rewrite length_app. cbn. lia.
           ++ rewrite !length_app. cbn. lia.
           ++ intros c. specialize (H9 c). rewrite ?bump_eq. repeat case_bool_decide; lia.
           ++ by apply list.Forall_app_2; [|constructor].
        -- destruct (latencyAvailable (value d)); [|done].
           destruct Hb as [B1 B2 B3 B4 B5 B6 B7 B8 B9 B10].
           set (s' := count _ (count _ _)) in *. clearbody s'.
           split; counters; try done.
           intros c. specialize (B9 c). rewrite bump_eq. case_bool_decide; lia.
      * split; counters; try lia; try done.
        intros c. specialize (H9 c). rewrite ?bump_eq. repeat case_bool_decide; lia.
  - set (u := rinvalid r || _ || _). clearbody u.
    destruct departed; cbn [negb andb orb].
    + destruct u; split; counters; try lia; try done;
        intros c; specialize (H9 c); rewrite ?bump_eq; repeat case_bool_decide; lia.
    + destruct (deadline p <=? aliveThrough ev); cbn [negb].
      * set (v := rinvalid r || (completeUntil ev <? deadline p)). clearbody v.
        destruct u, v, (late r), (rinvalid r); split; counters; try lia; try done;
          intros c; specialize (H9 c); rewrite ?bump_eq; repeat case_bool_decide; lia.
      * destruct u; split; counters; try lia; try done;
          intros c; specialize (H9 c); rewrite ?bump_eq; repeat case_bool_decide; lia.
Qed.

Lemma balanced_pairs w p s l : balanced s → balanced (foldl (pair w p) s l).
Proof.
  revert s. induction l as [|ks l IH]; intros s HB; [done|]. cbn. by apply IH, balanced_pair.
Qed.

Lemma balanced_sweep w pubs starts ends active s :
  balanced s → balanced (sweep w pubs starts ends active s).
Proof.
  revert starts ends active s. induction pubs as [|p pubs IH]; intros starts ends active s HB;
    cbn [sweep]; [done|].
  destruct (activate _ _ _) as [starts' active']. destruct (retire _ _ _) as [ends' active''].
  by apply IH, balanced_pairs.
Qed.

(** Finalized and pending publications partition the valid remote ones. *)
Lemma publicationCounts_spec w asOf :
  let l := filter (λ p, local p = false ∧ valid p = true) (snd <$> map_to_list (publications w)) in
  publicationCounts w asOf PendingPublications + publicationCounts w asOf FinalizedPublications
    = Z.of_nat (length l) ∧
  balanced (mkSummary (publicationCounts w asOf) [] []).
Proof.
  intros l. unfold publicationCounts. fold l. set (pend := filter _ l).
  assert (length pend ≤ length l)%nat as Hle by apply length_filter.
  split; [counters; lia|].
  split; counters; cbn [length]; try lia; [|constructor].
  intros c. cbn. rewrite !bump_eq. repeat case_bool_decide; lia.
Qed.

(** The counters add up, for every index and evaluation time.  Every pair
    initially expected is departed, of unknown continuity, or finally expected;
    every finally expected delivery is eligible, missed or unknown; unknown
    availability splits by cause; eligible and initially unknown deliveries do
    not exceed the cohort (so the published ratio, its upper bound and the
    coverage are at most one); latency samples are non-negative and finite and
    belong to eligible deliveries. *)
Theorem collect_accounting w asOf : balanced (collect w asOf).
Proof.
  unfold collect. generalize (indexedTopics w) as l. intros l.
  destruct (publicationCounts_spec w asOf) as [_ HB]. revert HB.
  generalize (mkSummary (publicationCounts w asOf) [] []). induction l as [|t l IH];
    intros s HB; [done|]. cbn. by apply IH, balanced_sweep.
Qed.

(** ** The sweep *)

(** A session is active at an instant when it has started and not ended. *)
Definition activeAt (t : Time) (ev : evaluatedSession) : Prop :=
  at_ (start (source ev)) ≤ t ∧ match end_ ev with Some e => t < e | None => True end.
#[export] Instance activeAt_dec t ev : Decision (activeAt t ev).
Proof. unfold activeAt. destruct (end_ ev); apply _. Defined.

Definition activeMap (t : Time) (l : list evaluatedSession) :
    gmap measurementSessionKey evaluatedSession :=
  list_to_map ((λ ev, (key (source ev), ev)) <$> filter (activeAt t) l).

(** The specification: every publication against every active session. *)
Definition direct (w : sessionWindowAccumulator) (l : list evaluatedSession) (s : summary)
    (pubs : list windowPublication) : summary :=
  foldl (λ s p, foldl (pair w p) s (map_to_list (activeMap (pat p) l))) s pubs.

Definition keyOf (ev : evaluatedSession) : measurementSessionKey := key (source ev).

Lemma activeMap_lookup t l k ev :
  NoDup (keyOf <$> l) →
  activeMap t l !! k = Some ev ↔ ev ∈ l ∧ keyOf ev = k ∧ activeAt t ev.
Proof.
  intros Hnd. unfold activeMap. rewrite <- elem_of_list_to_map.
  - rewrite list_elem_of_fmap. setoid_rewrite list_elem_of_filter. unfold keyOf. naive_solver.
  - rewrite <- list_fmap_compose. eapply sublist_NoDup; [exact Hnd|].
    apply fmap_sublist, sublist_filter.
Qed.

Lemma activate_spec t S A S' A' :
  Sorted start_le S → NoDup (keyOf <$> S) → activate t S A = (S', A') →
  Sorted start_le S' ∧ S' `sublist_of` S ∧
  (∀ ev, ev ∈ S' ↔ ev ∈ S ∧ t < at_ (start (source ev))) ∧
  (∀ k ev, A' !! k = Some ev ↔
     (ev ∈ S ∧ at_ (start (source ev)) ≤ t ∧ keyOf ev = k) ∨
     (A !! k = Some ev ∧ ∀ ev', ev' ∈ S → at_ (start (source ev')) ≤ t → keyOf ev' ≠ k)).
Proof.
  revert A. induction S as [|x S IH]; intros A Hs Hnd Ha; cbn [activate] in Ha.
  { simplify_eq. split_and!; try done; set_solver. }
  pose proof Hs as Hs0. apply Sorted_StronglySorted in Hs; [|intros ???; unfold start_le; lia].
  inversion Hs as [|? ? Hs' Hall]; subst. cbn in Hnd. apply list.NoDup_cons in Hnd as [Hx Hnd].
  rewrite list.Forall_forall in Hall. unfold start_le in Hall at 1.
  destruct (Z.ltb_spec t (at_ (start (source x)))) as [Hlt|Hge].
  - simplify_eq. split_and!; [done|done| |].
    + intros ev. split; [|tauto]. intros Hin. split; [done|].
      apply elem_of_cons in Hin as [->|Hin]; [done|]. specialize (Hall ev Hin). lia.
    + intros k ev. split.
      * intros Hk. right. split; [done|].
        intros ev' [->|Hin]%elem_of_cons; [lia|]. specialize (Hall ev' Hin). lia.
      * intros [(Hin & Hle & _)|[Hk _]]; [|done].
        apply elem_of_cons in Hin as [->|Hin]; [lia|]. specialize (Hall ev Hin). lia.
  - destruct (IH (<[key (source x) := x]> A)) as (IH1 & IH2 & IH3 & IH4); [|done..|].
    { by apply StronglySorted_Sorted. }
    split_and!; [done|by apply sublist_cons| |].
    + intros ev. rewrite IH3, elem_of_cons. split; [tauto|]. intros [[->|?] ?]; [lia|done].
    + intros k ev. rewrite IH4. rewrite elem_of_cons.
      assert (Hxk : ∀ ev', ev' ∈ S → keyOf ev' ≠ keyOf x).
      { intros ev' Hin Heq. apply Hx. rewrite <- Heq. by apply list_elem_of_fmap_2. }
      change (key (source x)) with (keyOf x). split.
      * intros [(?&?&?)|[Hk Hno]]; [tauto|].
        apply lookup_insert_Some in Hk as [[<- <-]|[Hne Hk]]; [auto|].
        right. split; [done|]. intros ev' [->|Hin]%elem_of_cons ?; [done|by apply Hno].
      * intros [([->|?]&?&Hk)|[Hk Hno]]; [|tauto|].
        -- right. rewrite <- Hk. rewrite lookup_insert_eq. split; [done|].
           intros ev' Hin _. by apply Hxk.
        -- right. split; [|intros ev' Hin; apply Hno; set_solver].
           rewrite lookup_insert_ne; [done|]. apply Hno; [set_solver|lia].
Qed.

Lemma retire_spec t E A E' A' :
  Sorted end_le E → retire t E A = (E', A') →
  Sorted end_le E' ∧ (∀ ev, ev ∈ E' ↔ ev ∈ E ∧ t < endOf ev) ∧
  (∀ k ev, A' !! k = Some ev ↔
     A !! k = Some ev ∧ ∀ ev', ev' ∈ E → endOf ev' ≤ t → keyOf ev' ≠ k).
Proof.
  revert A. induction E as [|x E IH]; intros A Hs Ha; cbn [retire] in Ha.
  { simplify_eq. split_and!; try done; set_solver. }
  pose proof Hs as Hs0. apply Sorted_StronglySorted in Hs; [|intros ???; unfold end_le; lia].
  inversion Hs as [|? ? Hs' Hall]; subst.
  rewrite list.Forall_forall in Hall. unfold end_le in Hall at 1.
  destruct (Z.ltb_spec t (endOf x)) as [Hlt|Hge].
  - simplify_eq. split_and!; [done| |].
    + intros ev. split; [|tauto]. intros Hin. split; [done|].
      apply elem_of_cons in Hin as [->|Hin]; [done|]. specialize (Hall ev Hin). lia.
    + intros k ev. split; [|tauto]. intros Hk. split; [done|].
      intros ev' [->|Hin]%elem_of_cons; [lia|]. specialize (Hall ev' Hin). lia.
  - destruct (IH (delete (key (source x)) A)) as (IH1 & IH2 & IH3); [|done|].
    { by apply StronglySorted_Sorted. }
    split_and!; [done| |].
    + intros ev. rewrite IH2, elem_of_cons. split; [tauto|]. intros [[->|?] ?]; [lia|done].
    + intros k ev. rewrite IH3, lookup_delete_Some.
      change (key (source x)) with (keyOf x). split.
      * intros [[Hne Hk] Hno]. split; [done|].
        intros ev' [->|Hin]%elem_of_cons ?; [done|by apply Hno].
      * intros [Hk Hno]. split; [split; [|done]|]; [apply Hno; [set_solver|lia]|].
        intros ev' Hin. apply Hno. set_solver.
Qed.

Lemma keyOf_inj l ev ev' :
  NoDup (keyOf <$> l) → ev ∈ l → ev' ∈ l → keyOf ev = keyOf ev' → ev = ev'.
Proof.
  intros Hnd [i Hi]%list_elem_of_lookup_1 [j Hj]%list_elem_of_lookup_1 Heq.
  assert (i = j) as ->.
  { eapply (NoDup_lookup _ _ _ (keyOf ev) Hnd); rewrite list_lookup_fmap; [by rewrite Hi|].
    by rewrite Hj, Heq. }
  by simplify_eq.
Qed.

Section sweep_invariant.
Context (w : sessionWindowAccumulator) (l : list evaluatedSession).
Hypothesis l_keys : NoDup (keyOf <$> l).
Hypothesis l_ends : ∀ ev e, ev ∈ l → end_ ev = Some e → at_ (start (source ev)) ≤ e.

(** The pending boundaries and the active set at instant [t]. *)
Record sweepInv (t : Time) (S E : list evaluatedSession)
    (A : gmap measurementSessionKey evaluatedSession) : Prop := {
  inv_S : Sorted start_le S;
  inv_Skeys : NoDup (keyOf <$> S);
  inv_Sin : ∀ ev, ev ∈ S ↔ ev ∈ l ∧ t < at_ (start (source ev));
  inv_E : Sorted end_le E;
  inv_Ein : ∀ ev, ev ∈ E ↔ ev ∈ l ∧ is_Some (end_ ev) ∧ t < endOf ev;
  inv_A : ∀ k ev, A !! k = Some ev ↔ ev ∈ l ∧ keyOf ev = k ∧ activeAt t ev }.

Lemma activeAt_iff t ev :
  activeAt t ev ↔ at_ (start (source ev)) ≤ t ∧ (is_Some (end_ ev) → t < endOf ev).
Proof.
  unfold activeAt, endOf. destruct (end_ ev); cbn [from_option]; unfold id; [naive_solver|].
  split; [|naive_solver]. intros [? _]. split; [done|by intros [? ?]].
Qed.

Lemma sweepInv_step t t' S E A S' A' E' A'' :
  t ≤ t' → sweepInv t S E A → activate t' S A = (S', A') → retire t' E A' = (E', A'') →
  sweepInv t' S' E' A''.
Proof.
  intros Ht [HS HSk HSin HE HEin HA] Hact Hret.
  apply activate_spec in Hact as (Ha1 & Ha2 & Ha3 & Ha4); [|done..].
  apply retire_spec in Hret as (Hr1 & Hr2 & Hr3); [|done].
  split; [done| | |done| |].
  - eapply sublist_NoDup; [exact HSk|]. by apply fmap_sublist.
  - intros ev. rewrite Ha3, HSin. split; [tauto|]. intros [? ?]. split_and!; [done|lia|done].
  - intros ev. rewrite Hr2, HEin. split; [tauto|]. intros (? & ? & ?). split_and!; [done|done|lia|done].
  - intros k ev. rewrite Hr3, Ha4, activeAt_iff. split.
    + intros [Hev Hno].
      assert (ev ∈ l ∧ keyOf ev = k ∧ at_ (start (source ev)) ≤ t' ∧
              (is_Some (end_ ev) → t < endOf ev)) as (Hin & Hk & Hst & Hend).
      { destruct Hev as [(Hin & Hst & Hk)|[Hin _]].
        - apply HSin in Hin as [Hin Hlt]. split_and!; [done..|]. intros [e He].
          unfold endOf. rewrite He. cbn. pose proof (l_ends ev e Hin He). lia.
        - apply HA in Hin as (Hin & Hk & Hat). apply activeAt_iff in Hat as [? ?].
          split_and!; [done|done|lia|done]. }
      split_and!; [done..|]. intros Hs. destruct (Z.lt_ge_cases t' (endOf ev)); [done|].
      destruct (Hno ev); [|done|done]. apply HEin. by auto.
    + intros (Hin & Hk & Hst & Hend). split.
      * destruct (Z.lt_ge_cases t (at_ (start (source ev)))) as [Hlt|Hge].
        -- left. split_and!; [|done|done]. by apply HSin.
        -- right. split.
           ++ apply HA. split_and!; [done|done|]. apply activeAt_iff. split; [done|].
              intros Hs. specialize (Hend Hs). lia.
           ++ intros ev' [Hin' Hlt]%HSin _ Hk'.
              rewrite (keyOf_inj l ev ev') in Hge; [lia|done..|congruence].
      * intros ev' (Hin' & Hs' & _)%HEin Hle Hk'.
        rewrite (keyOf_inj l ev ev') in Hend; [|done..|congruence]. specialize (Hend Hs'). lia.
Qed.

Lemma sweep_direct t pubs S E A s :
  Sorted pub_le pubs → (∀ p, p ∈ pubs → t ≤ pat p) → sweepInv t S E A →
  sweep w pubs S E A s = direct w l s pubs.
Proof.
  revert t S E A s. induction pubs as [|p pubs IH]; intros t S E A s Hs Hle Hinv; [done|].
  cbn [sweep]. destruct (activate _ _ _) as [S' A'] eqn:Hact.
  destruct (retire _ _ _) as [E' A''] eqn:Hret.
  assert (sweepInv (pat p) S' E' A'') as Hinv'.
  { eapply sweepInv_step; [|done..]. apply Hle. set_solver. }
  apply Sorted_StronglySorted in Hs; [|intros ???; unfold pub_le; lia].
  inversion Hs as [|? ? Hs' Hall]; subst.
  rewrite (IH (pat p)); [| |by apply list.Forall_forall|done].
  - change (direct w l s (p :: pubs))
      with (direct w l (foldl (pair w p) s (map_to_list (activeMap (pat p) l))) pubs).
    do 3 f_equal. apply map_eq. intros k. apply option_eq. intros ev.
    by rewrite (inv_A _ _ _ _ Hinv'), activeMap_lookup.
  - by apply StronglySorted_Sorted.
Qed.

(** An instant below every boundary. *)
Lemma below_all (pubs : list windowPublication) : ∃ t,
  (∀ ev, ev ∈ l → t < at_ (start (source ev)) ∧ t < endOf ev) ∧ (∀ p, p ∈ pubs → t ≤ pat p).
Proof using Type.
  assert (∃ t1, ∀ p, p ∈ pubs → t1 ≤ pat p) as [t1 H1].
  { clear. induction pubs as [|p pubs [t1 IH]]; [exists 0; set_solver|].
    exists (Z.min t1 (pat p)). intros p' [->|Hin]%elem_of_cons; [lia|].
    specialize (IH p' Hin). lia. }
  assert (∃ t2, ∀ ev, ev ∈ l → t2 < at_ (start (source ev)) ∧ t2 < endOf ev) as [t2 H2].
  { clear. induction l as [|x l' [t2 IH]]; [exists 0; set_solver|].
    exists (Z.min t2 (Z.min (at_ (start (source x))) (endOf x) - 1)).
    intros ev [->|Hin]%elem_of_cons; [lia|]. specialize (IH ev Hin). lia. }
  exists (Z.min t1 t2). split; [intros ev Hin|intros p Hin];
    [specialize (H2 ev Hin)|specialize (H1 p Hin)]; lia.
Qed.

Lemma sweep_all pubs s :
  sweep w (merge_sort pub_le pubs) (merge_sort start_le l)
    (merge_sort end_le (filter (λ ev, is_Some (end_ ev)) l)) ∅ s
  = direct w l s (merge_sort pub_le pubs).
Proof.
  destruct (below_all pubs) as (t & Hev & Hp). apply (sweep_direct t).
  - apply Sorted_merge_sort. intros a b. unfold pub_le. lia.
  - intros p. rewrite merge_sort_Permutation. apply Hp.
  - split.
    + apply Sorted_merge_sort. intros a b. unfold start_le. lia.
    + by rewrite merge_sort_Permutation.
    + intros ev. rewrite merge_sort_Permutation. split; [|tauto].
      intros Hin. split; [done|]. by apply Hev.
    + apply Sorted_merge_sort. intros a b. unfold end_le. lia.
    + intros ev. rewrite merge_sort_Permutation, list_elem_of_filter. split; [|tauto].
      intros [? Hin]. split_and!; [done|done|]. by apply Hev.
    + intros k ev. rewrite lookup_empty. split; [done|]. intros (Hin & _ & Hat).
      destruct (Hev ev Hin) as [? _]. destruct Hat. lia.
Qed.
End sweep_invariant.

(** ** The sessions of a topic *)
Lemma terminate_source ev t : source (terminate ev t) = source ev.
Proof. unfold terminate. by destruct (_ && _). Qed.

Lemma terminate_end ev t :
  (∀ e, end_ ev = Some e → at_ (start (source ev)) ≤ e) →
  ∀ e, end_ (terminate ev t) = Some e → at_ (start (source ev)) ≤ e.
Proof.
  intros H e. unfold terminate. destruct (_ && _) eqn:Ht; [|apply H].
  apply andb_true_iff in Ht as [?%Z.leb_le _]. cbn. by intros [= <-].
Qed.

Lemma terminate_all ev l :
  (∀ e, end_ ev = Some e → at_ (start (source ev)) ≤ e) →
  source (foldl terminate ev l) = source ev ∧
  ∀ e, end_ (foldl terminate ev l) = Some e → at_ (start (source ev)) ≤ e.
Proof.
  revert ev. induction l as [|t l IH]; intros ev H; [done|]. cbn.
  destruct (IH (terminate ev t)) as [IH1 IH2].
  { rewrite terminate_source. by apply terminate_end. }
  rewrite terminate_source in IH1, IH2. done.
Qed.

Lemma evaluateFor_ok w s ev b :
  evaluateFor w s = Some (ev, b) →
  source ev = s ∧ ∀ e, end_ ev = Some e → at_ (start s) ≤ e.
Proof.
  unfold evaluateFor. destruct (evaluateSession s) as [ev0|] eqn:He; [|done].
  apply evaluateSession_ok in He as (Hs & _ & _ & _ & _ & Hend & Hq & _).
  cbn [mbind option_bind]. intros [= <- _].
  destruct (terminate_all ev0 (default [] (terminations w !! fst (key s)))) as [H1 H2].
  { rewrite Hend, Hs. intros e. destruct (stop s) as [q|] eqn:Hq'; [|done].
    cbn. intros [= <-]. by apply Hq. }
  split; [congruence|]. intros e He. rewrite <- Hs. by apply H2.
Qed.

Lemma usable_ends w ev e : ev ∈ usable w → end_ ev = Some e → at_ (start (source ev)) ≤ e.
Proof.
  unfold usable. rewrite list_elem_of_omap. intros ([k s] & _ & Hev) Hend. cbn in Hev.
  destruct (evaluateFor w s) as [[ev' []]|] eqn:He; [done| |done]. simplify_eq.
  apply evaluateFor_ok in He as [-> H]. by apply H.
Qed.

Lemma usable_keys w : index_ok w → NoDup (keyOf <$> usable w).
Proof.
  intros Hw. unfold usable.
  assert (∀ ks, ks ∈ map_to_list (sessions w) → key (snd ks) = fst ks) as Hk.
  { intros [k s] Hks%elem_of_map_to_list. by apply Hw. }
  pose proof (NoDup_fst_map_to_list (sessions w)) as Hnd. revert Hk Hnd.
  generalize (map_to_list (sessions w)) as l. induction l as [|[k s] l IH]; intros Hk Hnd;
    [constructor|].
  cbn in Hnd. apply list.NoDup_cons in Hnd as [Hnin Hnd].
  assert (NoDup (keyOf <$> omap (λ ks, match evaluateFor w (snd ks) with
    Some (ev, false) => Some ev | _ => None end) l)) as IH' by (apply IH; set_solver).
  cbn. destruct (evaluateFor w s) as [[ev []]|] eqn:He; [done| |done].
  cbn. apply list.NoDup_cons. split; [|done].
  apply evaluateFor_ok in He as [He _]. cbn in He. unfold keyOf at 1. rewrite He.
  assert (key s = k) as -> by (apply (Hk (k, s)); set_solver).
  intros (ev' & Hkev & Hin)%list_elem_of_fmap.
  apply list_elem_of_omap in Hin as ([k' s'] & Hin & Hev').
  cbn in Hev'. destruct (evaluateFor w s') as [[ev'' []]|] eqn:He'; [done| |done].
  injection Hev' as <-. apply evaluateFor_ok in He' as [He' _]. unfold keyOf in Hkev.
  cbn in He'. rewrite He' in Hkev.
  assert (key s' = k') as Hk' by (apply (Hk (k', s')); set_solver). rewrite Hk' in Hkev. subst k'.
  apply Hnin, list_elem_of_fmap. by exists (k, s').
Qed.

(** C34: the linear sweep computes the quadratic definition.  For every telemetry
    and every topic, [sweepTopic], which keeps sorted start and end boundaries
    and one active set, accounts each finalized publication, in time order,
    against exactly the usable subscribed sessions that have started at or
    before its time and not ended by then. *)
Theorem sweep_refines_active_sessions events asOf topic s :
  Forall event_ok events →
  let w := observed events in
  sweepTopic w s (indexFor w asOf topic) =
  direct w (sessionsOf w topic) s (merge_sort pub_le (finalized w asOf topic)).
Proof.
  intros Hev w. unfold sweepTopic, indexFor. cbn [ipublications starts ends].
  apply sweep_all.
  - eapply sublist_NoDup; [apply (usable_keys w), observed_ok, Hev|].
    apply fmap_sublist, sublist_filter.
  - intros ev e [_ Hin]%list_elem_of_filter. by apply (usable_ends w).
Qed.

(** ** A small run *)
Module SessionWindowExamples.
Definition second (n : Z) : Time := n * Duration.Second.
Definition windowField : string * Any :=
  ("measurementDefinition"%string, AString sessionWindowDefinition).
Definition mk (ty session node msg : string) (seq : Z) (at' : Time) (fs : list (string * Any)) :
    TraceEvent :=
  mkEvent None "" None session seq "" "run" "agent" node "" ty msg "" "blocks" at' F64.zero
    (list_to_map (windowField :: fs)).
Definition events : list TraceEvent := [
  mk "measurement_start" "b1" "nodeB" "" 1 (second 1)
    [("subscribedTopics"%string, AStrings (Some ["blocks"%string]))];
  mk "publish" "a1" "nodeA" "m1" 2 (second 5) [];
  mk "deliver" "b1" "nodeB" "m1" 2 (second 6) [];
  mk "publish" "a1" "nodeA" "m2" 3 (second 20) [];
  mk "measurement_checkpoint" "b1" "nodeB" "" 3 (second 60) []].
Definition b1 : measurementSession :=
  default (newSession ("", "")%string)
    (sessions (observed events) !! ("nodeB", "b1")%string).
Definition ev : evaluatedSession :=
  default (mkEvaluated b1 0 0 true None) (evaluateSession b1).

(** One delivery seen, one really missed. *)
Example collected :
  let s := collect (observed events) (second 100) in
  (counts s ExpectedDeliveries, counts s EligibleDeliveries, counts s MissedDeliveries,
   counts s UnknownDeliveries) = (2, 1, 1, 0).
Proof. vm_compute. reflexivity. Qed.

Lemma windowEvents_ok : Forall event_ok events.
Proof. unfold events, event_ok. repeat constructor; cbn; lia. Qed.
Lemma b1_session : sessions (observed events) !! ("nodeB", "b1")%string = Some b1.
Proof. vm_compute. reflexivity. Qed.
Lemma b1_evaluated : evaluateSession b1 = Some ev.
Proof. vm_compute. reflexivity. Qed.
End SessionWindowExamples.

Lemma evaluateSession_sound_witness :
  completeUntil SessionWindowExamples.ev = 0 ∨
  ∃ p, p ∈ proofs SessionWindowExamples.b1 ∧ at_ p = completeUntil SessionWindowExamples.ev ∧
    ∀ x, sequence (start SessionWindowExamples.b1) ≤ x ≤ sequence p →
      member x (sequences SessionWindowExamples.b1).
Proof.
  exact (proj1 (evaluateSession_sound SessionWindowExamples.events _
    SessionWindowExamples.b1 SessionWindowExamples.ev SessionWindowExamples.windowEvents_ok
    SessionWindowExamples.b1_session SessionWindowExamples.b1_evaluated)).
Defined.

Lemma sweep_refines_active_sessions_witness :
  let w := observed SessionWindowExamples.events in
  let s := mkSummary (λ _, 0) [] [] in
  sweepTopic w s (indexFor w (SessionWindowExamples.second 100) "blocks") =
  direct w (sessionsOf w "blocks") s
    (merge_sort pub_le (finalized w (SessionWindowExamples.second 100) "blocks")).
Proof.
  exact (sweep_refines_active_sessions SessionWindowExamples.events _ _ _
    SessionWindowExamples.windowEvents_ok).
Defined.
