(* ===== verification/Bandwidth.v ===== *)
(** * Bandwidth accounting

    [internal/controller/bandwidth.go]: validation of cumulative samples, the
    per-session accumulator with its whole-run totals, the current rates, the
    summary and the bounded timeline.  Go's random map order is the order of
    [map_to_list]. *)
From Stdlib Require Import ZArith Lia.
From stdpp Require Import strings list gmap sorting.
From S2P Require Import Prelude.
From S2P Require Import GoStd.
From S2P Require Import Trace.
Open Scope Z_scope.

(** ** Samples *)
Abbreviation bandwidthSessionKey := (string * string)%type.

Record bandwidthInterval := mkInterval {
  iat : Time; durationNS : Z; receivedBytes : Z; sentBytes : Z;
  iprotocols : list BandwidthProtocol }.

Record bandwidthSession := mkBSession {
  bagent : string; bat : Time; sample : BandwidthSample; interval : bandwidthInterval }.

Record bandwidthAccumulator := mkAcc {
  bsessions : gmap bandwidthSessionKey bandwidthSession; totalReceived : Z; totalSent : Z;
  accepted : Z; rejected : Z; superseded : Z }.

Definition emptyBandwidth : bandwidthAccumulator := mkAcc ∅ 0 0 0 0 0.

(** The loop over the protocols of a sample. *)
Fixpoint validProtocols (seen : gset string) (remainingIn remainingOut : Z)
    (l : list BandwidthProtocol) : bool :=
  match l with
  | [] => true
  | p :: l =>
      if bool_decide (Protocol p ∈ seen) || (ReceivedBytes p <? 0) || (SentBytes p <? 0) ||
         (remainingIn <? ReceivedBytes p) || (remainingOut <? SentBytes p)
      then false
      else validProtocols ({[Protocol p]} ∪ seen) (i64 (remainingIn - ReceivedBytes p))
             (i64 (remainingOut - SentBytes p)) l
  end.

Definition validBandwidthSample (e : TraceEvent) : bool :=
  match Bandwidth e with
  | None => false
  | Some s =>
      if bool_decide (NodeID e = ""%string) || bool_decide (SessionID e = ""%string) ||
         IsZero (Timestamp e) || (ElapsedNS s <=? 0) || (BReceivedBytes s <? 0) ||
         (BSentBytes s <? 0)
      then false
      else validProtocols ∅ (BReceivedBytes s) (BSentBytes s) (Protocols s)
  end.

(** The interval's protocols: [None] is a regression, otherwise the protocols
    of the previous sample that did not reappear are left. *)
Fixpoint intervalProtocols (old : gmap string BandwidthProtocol) (l : list BandwidthProtocol) :
    option (list BandwidthProtocol * gmap string BandwidthProtocol) :=
  match l with
  | [] => Some ([], old)
  | p :: l =>
      let before := default (mkProtocol "" 0 0) (old !! Protocol p) in
      if (ReceivedBytes p <? ReceivedBytes before) || (SentBytes p <? SentBytes before) then None
      else
        '(rest, gone) ← intervalProtocols (delete (Protocol p) old) l;
        Some (mkProtocol (Protocol p) (i64 (ReceivedBytes p - ReceivedBytes before))
                (i64 (SentBytes p - SentBytes before)) :: rest, gone)
  end.

Definition reject (a : bandwidthAccumulator) : bandwidthAccumulator :=
  mkAcc (bsessions a) (totalReceived a) (totalSent a) (accepted a) (rejected a + 1) (superseded a).

Definition zeroSample : BandwidthSample := mkBandwidth 0 0 0 [] false.

(** The previous sample's protocols, by name. *)
Definition oldProtocols (prev : BandwidthSample) : gmap string BandwidthProtocol :=
  foldl (λ m p, <[Protocol p := p]> m) ∅ (Protocols prev).

Definition observe (e : TraceEvent) (a : bandwidthAccumulator) :
    option bandwidthInterval * bandwidthAccumulator :=
  if negb (bool_decide (Type_ e = "bandwidth"%string)) then (None, a)
  else match Bandwidth e with
  | Some s =>
    if negb (validBandwidthSample e) then (None, reject a) else
    let key := (NodeID e, SessionID e) in
    let exists_ := bool_decide (is_Some (bsessions a !! key)) in
    let prev := from_option sample zeroSample (bsessions a !! key) in
    if exists_ && (ElapsedNS s <=? ElapsedNS prev) then
      (None, mkAcc (bsessions a) (totalReceived a) (totalSent a) (accepted a) (rejected a)
               (superseded a + 1))
    else if exists_ && (Final prev || (BReceivedBytes s <? BReceivedBytes prev) ||
                        (BSentBytes s <? BSentBytes prev))
    then (None, reject a)
    else
      let dr := i64 (BReceivedBytes s - BReceivedBytes prev) in
      let ds := i64 (BSentBytes s - BSentBytes prev) in
      if (i64 (MaxInt64 - totalReceived a) <? dr) || (i64 (MaxInt64 - totalSent a) <? ds)
      then (None, reject a)
      else match intervalProtocols (oldProtocols prev) (Protocols s) with
      | None => (None, reject a)
      | Some (protocols, gone) =>
          if bool_decide (gone ≠ ∅) then (None, reject a)
          else
            let i := mkInterval (Timestamp e) (i64 (ElapsedNS s - ElapsedNS prev)) dr ds
                       protocols in
            (Some i,
             mkAcc (<[key := mkBSession (AgentID e) (Timestamp e) s i]> (bsessions a))
               (i64 (totalReceived a + dr)) (i64 (totalSent a + ds)) (accepted a + 1)
               (rejected a) (superseded a))
      end
  | None => (None, reject a)
  end.

(** ** Current rates *)
Definition bandwidthSampleMaxAge : Z := 15 * Duration.Second.

Definition rateFactor (s : bandwidthSession) (now : Time) : float * bool :=
  if Final (sample s) then (F64.zero, true)
  else
    let age := SubTime now (bat s) in
    if (age <? - bandwidthSampleMaxAge) || (bandwidthSampleMaxAge <? age) ||
       (durationNS (interval s) <=? 0)
    then (F64.zero, false)
    else (F64.div (F64.of_Z 8000000000) (F64.of_Z (durationNS (interval s))), true).

Record BandwidthRates := mkRates {
  Available : bool; SentBitsPerSecond : float; ReceivedBitsPerSecond : float;
  ReportingSessions : Z; StaleSessions : Z }.

Definition addRate (now : Time) (out : BandwidthRates) (s : bandwidthSession) : BandwidthRates :=
  let '(factor, fresh) := rateFactor s now in
  if negb fresh then
    mkRates (Available out) (SentBitsPerSecond out) (ReceivedBitsPerSecond out)
      (ReportingSessions out) (StaleSessions out + 1)
  else
    mkRates (Available out)
      (F64.add (SentBitsPerSecond out) (F64.mul (F64.of_Z (sentBytes (interval s))) factor))
      (F64.add (ReceivedBitsPerSecond out)
         (F64.mul (F64.of_Z (receivedBytes (interval s))) factor))
      (if Final (sample s) then ReportingSessions out else ReportingSessions out + 1)
      (StaleSessions out).

Definition currentRates (now : Time) (a : bandwidthAccumulator) : BandwidthRates :=
  let out := foldl (addRate now) (mkRates false F64.zero F64.zero 0 0)
               (snd <$> map_to_list (bsessions a)) in
  mkRates ((0 <? ReportingSessions out) ||
           ((0 <? Z.of_nat (size (bsessions a))) && (StaleSessions out =? 0)))
    (SentBitsPerSecond out) (ReceivedBitsPerSecond out) (ReportingSessions out)
    (StaleSessions out).

(** ** Summary *)
Record BandwidthSummary := mkBSummary {
  SReceivedBytes : Z; SSentBytes : Z; Sessions : Z; FinalizedSessions : Z; Samples : Z;
  RejectedSamples : Z; SupersededSamples : Z; SProtocols : list BandwidthProtocol;
  LatestAt : Time }.

Definition addProtocol (m : gmap string BandwidthProtocol) (p : BandwidthProtocol) :
    gmap string BandwidthProtocol :=
  let total := default (mkProtocol "" 0 0) (m !! Protocol p) in
  <[Protocol p := mkProtocol (Protocol p) (i64 (ReceivedBytes total + ReceivedBytes p))
                    (i64 (SentBytes total + SentBytes p))]> m.

Definition protocolTotals (l : list bandwidthSession) : gmap string BandwidthProtocol :=
  foldl (λ m s, foldl addProtocol m (Protocols (sample s))) ∅ l.

Definition protocol_le (p q : BandwidthProtocol) : Prop :=
  Is_true (String.leb (Protocol p) (Protocol q)).
#[export] Instance protocol_le_dec : RelDecision protocol_le.
Proof. intros p q. unfold protocol_le. apply _. Defined.

Definition summarize (a : bandwidthAccumulator) : option BandwidthSummary :=
  if (accepted a =? 0) && (rejected a =? 0) then None
  else
    let l := snd <$> map_to_list (bsessions a) in
    Some (mkBSummary (totalReceived a) (totalSent a) (Z.of_nat (size (bsessions a)))
      (Z.of_nat (length (filter (λ s, Final (sample s) = true) l)))
      (accepted a) (rejected a) (superseded a)
      (merge_sort protocol_le (snd <$> map_to_list (protocolTotals l)))
      (foldl (λ t s, if t <? bat s then bat s else t) 0 l)).

(** ** Timeline *)
Record bandwidthBinProtocol := mkBinProtocol {
  PProtocol : string; PReceivedBytes : float; PSentBytes : float }.
Record bandwidthBucket := mkBucket {
  received : float; sent : float; peerSeconds : float;
  bprotocols : gmap string bandwidthBinProtocol }.
Record bandwidthTimeline := mkTimeline {
  width : Z; first : Z; last : Z; bins : option (gmap Z bandwidthBucket) }.

Definition emptyTimeline : bandwidthTimeline := mkTimeline 0 0 0 None.
Definition emptyBucket : bandwidthBucket := mkBucket F64.zero F64.zero F64.zero ∅.

(** [analysisBucket] of [analysis.go]: floor to a multiple of the width. *)
Definition analysisBucket (seconds width : Z) : Z :=
  let quotient := Z.quot seconds width in
  let quotient := if (seconds <? 0) && negb (Z.rem seconds width =? 0)
                  then i64 (quotient - 1) else quotient in
  i64 (quotient * width).

Definition addBinProtocol (fraction : float) (m : gmap string bandwidthBinProtocol)
    (p : string * float * float) : gmap string bandwidthBinProtocol :=
  let '(name, r, s) := p in
  let q := default (mkBinProtocol "" F64.zero F64.zero) (m !! name) in
  <[name := mkBinProtocol name (F64.add (PReceivedBytes q) (F64.mul r fraction))
              (F64.add (PSentBytes q) (F64.mul s fraction))]> m.

(** Merging a bucket into another: the protocols are added as they are. *)
Definition mergeProtocols (m b : gmap string bandwidthBinProtocol) :
    gmap string bandwidthBinProtocol :=
  foldl (λ m np, let '(name, p) := (np : string * bandwidthBinProtocol) in
    let q := default (mkBinProtocol "" F64.zero F64.zero) (m !! name) in
    <[name := mkBinProtocol name (F64.add (PReceivedBytes q) (PReceivedBytes p))
                (F64.add (PSentBytes q) (PSentBytes p))]> m) m (map_to_list b).
Definition mergeBucket (target b : bandwidthBucket) : bandwidthBucket :=
  mkBucket (F64.add (received target) (received b)) (F64.add (sent target) (sent b))
    (F64.add (peerSeconds target) (peerSeconds b))
    (mergeProtocols (bprotocols target) (bprotocols b)).

Definition rebin (width : Z) (m : gmap Z bandwidthBucket) : gmap Z bandwidthBucket :=
  foldl (λ merged ab, let '(at_, b) := (ab : Z * bandwidthBucket) in
    let key := analysisBucket at_ width in
    <[key := mergeBucket (default emptyBucket (merged !! key)) b]> merged) ∅ (map_to_list m).

Definition buckets (t : bandwidthTimeline) : Z :=
  Z.quot (i64 (analysisBucket (last t) (width t) - analysisBucket (first t) (width t))) (width t).

(** Doubling the width until at most 360 buckets span the timeline. *)
Fixpoint widen (fuel : nat) (t : bandwidthTimeline) : option bandwidthTimeline :=
  if 360 <=? buckets t then
    match fuel with
    | O => None
    | S fuel =>
        let w := i64 (width t * 2) in
        widen fuel (mkTimeline w (first t) (last t) (rebin w <$> bins t))
    end
  else Some t.

(** Unix seconds of an instant counted from year 1, and back. *)
Definition unixEpoch : Z := 62135596800.
Definition Unix (t : Time) : Z := t / Duration.Second - unixEpoch.
Definition unixTime (s : Z) : Time := (s + unixEpoch) * Duration.Second.

(** The contribution of the interval to the bucket at [at_]. *)
Definition fillBucket (i : bandwidthInterval) (width at_ : Z) (b : bandwidthBucket) :
    bandwidthBucket :=
  let end_ := iat i in
  let start := end_ - durationNS i in
  let begin := if unixTime at_ <? start then start else unixTime at_ in
  let finish := if end_ <? unixTime (i64 (at_ + width)) then end_
                else unixTime (i64 (at_ + width)) in
  let overlap := SubTime finish begin in
  let fraction := F64.div (F64.of_Z overlap) (F64.of_Z (durationNS i)) in
  mkBucket
    (F64.add (received b) (F64.mul (F64.of_Z (receivedBytes i)) fraction))
    (F64.add (sent b) (F64.mul (F64.of_Z (sentBytes i)) fraction))
    (F64.add (peerSeconds b) (F64.div (F64.of_Z overlap) (F64.of_Z 1000000000)))
    (foldl (addBinProtocol fraction) (bprotocols b)
       ((λ p, (Protocol p, F64.of_Z (ReceivedBytes p), F64.of_Z (SentBytes p))) <$> iprotocols i)).

Fixpoint fill (fuel : nat) (i : bandwidthInterval) (width lastSecond at_ : Z)
    (m : gmap Z bandwidthBucket) : option (gmap Z bandwidthBucket) :=
  if at_ <=? lastSecond then
    match fuel with
    | O => None
    | S fuel =>
        fill fuel i width lastSecond (i64 (at_ + width))
          (<[at_ := fillBucket i width at_ (default emptyBucket (m !! at_))]> m)
    end
  else Some m.

(** Creating or extending the timeline to the interval's seconds. *)
Definition extend (firstSecond lastSecond : Z) (t : bandwidthTimeline) : bandwidthTimeline :=
  let t := match bins t with
           | None => mkTimeline 5 firstSecond lastSecond (Some ∅)
           | Some _ => t
           end in
  mkTimeline (width t) (Z.min firstSecond (first t)) (Z.max lastSecond (last t)) (bins t).

(** [None] is a loop that would not have ended within the fuel. *)
Definition addIntervalWith (widenFuel fillFuel : nat) (i : bandwidthInterval)
    (t : bandwidthTimeline) : option bandwidthTimeline :=
  if durationNS i <=? 0 then Some t
  else
    let firstSecond := Unix (iat i - durationNS i) in
    let lastSecond := Unix (iat i - 1) in
    let t := extend firstSecond lastSecond t in
    t ← widen widenFuel t;
    m ← fill fillFuel i (width t) lastSecond (analysisBucket firstSecond (width t))
          (default ∅ (bins t));
    Some (mkTimeline (width t) (first t) (last t) (Some m)).
Definition addInterval : bandwidthInterval → bandwidthTimeline → option bandwidthTimeline :=
  addIntervalWith 64 361.

Record bandwidthBin := mkBin {
  BAt : Time; BinReceived : float; BinSent : float; PeerSeconds : float;
  BinProtocols : list bandwidthBinProtocol }.

Definition binProtocol_le (p q : bandwidthBinProtocol) : Prop :=
  Is_true (String.leb (PProtocol p) (PProtocol q)).
#[export] Instance binProtocol_le_dec : RelDecision binProtocol_le.
Proof. intros p q. unfold binProtocol_le. apply _. Defined.
Definition bin_le (p q : bandwidthBin) : Prop := BAt p ≤ BAt q.
#[export] Instance bin_le_dec : RelDecision bin_le.
Proof. intros p q. unfold bin_le. apply _. Defined.

Definition result (t : bandwidthTimeline) : list bandwidthBin * Z :=
  (merge_sort bin_le
     ((λ ab : Z * bandwidthBucket, let b := snd ab in
        mkBin (unixTime (fst ab)) (received b) (sent b) (peerSeconds b)
          (merge_sort binProtocol_le (snd <$> map_to_list (bprotocols b)))) <$>
      map_to_list (default ∅ (bins t))),
   width t).
