(* ===== verification/BandwidthProps.v ===== *)
(** * Correctness of the bandwidth accounting

    The whole-run totals are the sums of the latest accepted cumulative samples
    and never overflow; each interval is non-negative; the summary attributes at
    most the total to protocols; the timeline stays within 360 buckets. *)
From Stdlib Require Import ZArith Lia.
From stdpp Require Import strings list gmap sorting.
From S2P Require Import Prelude.
From S2P Require Import GoStd.
From S2P Require Import Trace.
From S2P Require Import Bandwidth.
Open Scope Z_scope.

(** ** Sums *)
Fixpoint sumBy {A} (f : A → Z) (l : list A) : Z :=
  match l with [] => 0 | x :: l => f x + sumBy f l end.

Lemma sumBy_app {A} (f : A → Z) l k : sumBy f (l ++ k) = sumBy f l + sumBy f k.
Proof. induction l as [|x l IH]; cbn; lia. Qed.

Lemma sumBy_perm {A} (f : A → Z) l k : l ≡ₚ k → sumBy f l = sumBy f k.
Proof. induction 1; cbn; lia. Qed.

Lemma sumBy_nonneg {A} (f : A → Z) l : (∀ x, x ∈ l → 0 ≤ f x) → 0 ≤ sumBy f l.
Proof.
  induction l as [|x l IH]; cbn; intros H; [lia|].
  pose proof (H x). specialize (IH (λ y Hy, H y (list_elem_of_further _ _ _ Hy))).
  enough (0 ≤ f x) by lia. apply H. set_solver.
Qed.

Lemma sumBy_le {A} (f g : A → Z) l : (∀ x, x ∈ l → f x ≤ g x) → sumBy f l ≤ sumBy g l.
Proof.
  induction l as [|x l IH]; cbn; intros H; [lia|].
  specialize (IH (λ y Hy, H y (list_elem_of_further _ _ _ Hy))).
  enough (f x ≤ g x) by lia. apply H. set_solver.
Qed.

(** The sum of a field over the sessions. *)
Definition sessionSum (f : BandwidthSample → Z)
    (m : gmap bandwidthSessionKey bandwidthSession) : Z :=
  sumBy (λ s, f (sample s)) (snd <$> map_to_list m).

Lemma sessionSum_insert f m k s :
  sessionSum f (<[k := s]> m) =
  sessionSum f m + f (sample s) - from_option (λ s, f (sample s)) 0 (m !! k).
Proof.
  unfold sessionSum. destruct (m !! k) as [s0|] eqn:Hk; cbn [from_option].
  - rewrite <- (insert_delete_id m k s0 Hk) at 2. rewrite <- insert_delete_eq.
    erewrite (sumBy_perm _ (snd <$> map_to_list (<[k:=s]> (delete k m))));
      [|by apply fmap_Permutation, map_to_list_insert, lookup_delete_eq].
    erewrite (sumBy_perm _ (snd <$> map_to_list (<[k:=s0]> (delete k m))));
      [|by apply fmap_Permutation, map_to_list_insert, lookup_delete_eq].
    cbn. lia.
  - erewrite sumBy_perm; [|by apply fmap_Permutation, map_to_list_insert]. cbn. lia.
Qed.

(** ** Valid samples *)

(** The fields are 64-bit. *)
Definition int64 (z : Z) : Prop := - 2^63 ≤ z < 2^63.
Definition sample_ok (s : BandwidthSample) : Prop :=
  int64 (ElapsedNS s) ∧ int64 (BReceivedBytes s) ∧ int64 (BSentBytes s) ∧
  Forall (λ p, int64 (ReceivedBytes p) ∧ int64 (SentBytes p)) (Protocols s).
Definition bandwidth_ok (e : TraceEvent) : Prop :=
  match Bandwidth e with Some s => sample_ok s | None => True end.

(** A stored sample. *)
Record wfSample (s : BandwidthSample) : Prop := {
  wf_elapsed : 0 < ElapsedNS s < 2^63;
  wf_received : 0 ≤ BReceivedBytes s < 2^63;
  wf_sent : 0 ≤ BSentBytes s < 2^63;
  wf_names : NoDup (Protocol <$> Protocols s);
  wf_protocols : Forall (λ p, 0 ≤ ReceivedBytes p ∧ 0 ≤ SentBytes p) (Protocols s);
  wf_protocolsIn : sumBy ReceivedBytes (Protocols s) ≤ BReceivedBytes s;
  wf_protocolsOut : sumBy SentBytes (Protocols s) ≤ BSentBytes s }.

Lemma validProtocols_spec seen ri ro l :
  0 ≤ ri < 2^63 → 0 ≤ ro < 2^63 → validProtocols seen ri ro l = true →
  NoDup (Protocol <$> l) ∧ (∀ p, p ∈ l → Protocol p ∉ seen) ∧
  Forall (λ p, 0 ≤ ReceivedBytes p ∧ 0 ≤ SentBytes p) l ∧
  sumBy ReceivedBytes l ≤ ri ∧ sumBy SentBytes l ≤ ro.
Proof.
  revert seen ri ro. induction l as [|p l IH]; intros seen ri ro Hi Ho Hv; cbn.
  { split_and!; [constructor|set_solver|constructor|lia|lia]. }
  cbn [validProtocols] in Hv. destruct (_ || _) eqn:Hc in Hv; [done|].
  rewrite !orb_false_iff, !Z.ltb_ge, bool_decide_eq_false in Hc.
  destruct Hc as ((((Hnew & H1) & H2) & H3) & H4).
  rewrite !i64_id in Hv by lia.
  destruct (IH _ (ri - ReceivedBytes p) (ro - SentBytes p) ltac:(lia) ltac:(lia) Hv)
    as (Hnd & Hseen & Hf & Hr & Hs).
  split_and!; [| | |lia|lia].
  - apply list.NoDup_cons. split; [|done]. intros (q & Hq & Hin)%list_elem_of_fmap.
    apply (Hseen q Hin). rewrite <- Hq. set_solver.
  - intros q [->|Hin]%elem_of_cons; [done|]. specialize (Hseen q Hin). set_solver.
  - by constructor.
Qed.

Lemma validBandwidthSample_spec e :
  bandwidth_ok e → validBandwidthSample e = true → ∃ s, Bandwidth e = Some s ∧ wfSample s.
Proof.
  unfold bandwidth_ok, validBandwidthSample. destruct (Bandwidth e) as [s|]; [|done].
  intros (He & Hr & Hs & Hp). unfold int64 in *. destruct (_ || _) eqn:Hc; [done|]. intros Hv.
  rewrite !orb_false_iff, !Z.ltb_ge, Z.leb_gt in Hc.
  destruct Hc as (((_ & ?) & ?) & ?).
  apply validProtocols_spec in Hv as (? & _ & ? & ? & ?); [|lia..].
  exists s. split; [done|]. split; (done || lia).
Qed.

Lemma intervalProtocols_spec old l ps gone :
  map_Forall (λ _ p, 0 ≤ ReceivedBytes p ∧ 0 ≤ SentBytes p) old →
  Forall (λ p, ReceivedBytes p < 2^63 ∧ SentBytes p < 2^63) l →
  intervalProtocols old l = Some (ps, gone) →
  Forall (λ p, 0 ≤ ReceivedBytes p ∧ 0 ≤ SentBytes p) ps ∧
  Protocol <$> ps = Protocol <$> l ∧
  (∀ n, is_Some (gone !! n) ↔ is_Some (old !! n) ∧ n ∉ Protocol <$> l).
Proof.
  revert old ps gone. induction l as [|p l IH]; intros old ps gone Hold Hl Hi;
    cbn [intervalProtocols] in Hi.
  { simplify_eq. split_and!; [constructor|done|set_solver]. }
  inversion Hl as [|? ? [Hp1 Hp2] Hl']; subst.
  set (before := default _ _) in Hi.
  assert (0 ≤ ReceivedBytes before ∧ 0 ≤ SentBytes before) as [Hb1 Hb2].
  { unfold before. destruct (old !! Protocol p) as [q|] eqn:Hq; [by apply (Hold _ q Hq)|done]. }
  destruct (_ || _) eqn:Hc in Hi; [done|].
  apply orb_false_iff in Hc as [?%Z.ltb_ge ?%Z.ltb_ge].
  destruct (intervalProtocols _ l) as [[rest gone']|] eqn:Hr; [|done].
  cbn [mbind option_bind] in Hi. simplify_eq.
  apply IH in Hr as (Hf & Hn & Hg); [|by apply map_Forall_delete|done].
  split_and!.
  - constructor; [|done]. cbn. rewrite !i64_id by lia. lia.
  - cbn. by rewrite Hn.
  - intros n. rewrite Hg. destruct (decide (n = Protocol p)) as [->|Hne].
    + rewrite lookup_delete_eq. set_solver.
    + rewrite lookup_delete_ne by done. set_solver.
Qed.

(** ** Accumulation *)
Definition sessions_wf (a : bandwidthAccumulator) : Prop :=
  map_Forall (λ _ s, wfSample (sample s)) (bsessions a).

Record totals_ok (a : bandwidthAccumulator) : Prop := {
  tot_wf : sessions_wf a;
  tot_received : totalReceived a = sessionSum BReceivedBytes (bsessions a);
  tot_sent : totalSent a = sessionSum BSentBytes (bsessions a);
  tot_range : totalReceived a < 2^63 ∧ totalSent a < 2^63 }.

Lemma sessionSum_nonneg a f :
  sessions_wf a → (∀ s, wfSample s → 0 ≤ f s) → 0 ≤ sessionSum f (bsessions a).
Proof.
  intros Ha Hf. apply sumBy_nonneg. intros s ([k s'] & -> & Hks)%list_elem_of_fmap.
  apply elem_of_map_to_list in Hks. apply Hf. by apply (Ha k).
Qed.

Lemma oldProtocols_nonneg s :
  wfSample s ∨ s = zeroSample →
  map_Forall (λ _ p, 0 ≤ ReceivedBytes p ∧ 0 ≤ SentBytes p) (oldProtocols s).
Proof.
  intros Hs. assert (Forall (λ p, 0 ≤ ReceivedBytes p ∧ 0 ≤ SentBytes p) (Protocols s)) as Hf.
  { destruct Hs as [Hs | ->]; [apply Hs|constructor]. }
  unfold oldProtocols. revert Hf.
  assert (map_Forall (λ (_ : string) p, 0 ≤ ReceivedBytes p ∧ 0 ≤ SentBytes p) ∅) as Hm
    by apply map_Forall_empty.
  revert Hm. generalize (∅ : gmap string BandwidthProtocol).
  induction (Protocols s) as [|p l IH]; intros m Hm Hf; [done|].
  inversion Hf; subst. cbn. apply IH; [|done]. by apply map_Forall_insert_2.
Qed.

(** What an accepted sample is, relative to the session's previous one. *)
Record acceptedStep (e : TraceEvent) (a : bandwidthAccumulator) (i : bandwidthInterval)
    (a' : bandwidthAccumulator) (s prev : BandwidthSample) : Prop := {
  acc_sample : Bandwidth e = Some s;
  acc_prev : prev = from_option sample zeroSample (bsessions a !! (NodeID e, SessionID e));
  acc_notFinal : Final prev = false;
  acc_names : ∀ n, is_Some (oldProtocols prev !! n) → n ∈ Protocol <$> Protocols s;
  acc_duration : durationNS i = ElapsedNS s - ElapsedNS prev ∧ 0 < durationNS i;
  acc_received : receivedBytes i = BReceivedBytes s - BReceivedBytes prev ∧ 0 ≤ receivedBytes i;
  acc_sent : sentBytes i = BSentBytes s - BSentBytes prev ∧ 0 ≤ sentBytes i;
  acc_protocols : Forall (λ p, 0 ≤ ReceivedBytes p ∧ 0 ≤ SentBytes p) (iprotocols i);
  acc_state : a' = mkAcc
    (<[(NodeID e, SessionID e) := mkBSession (AgentID e) (Timestamp e) s i]> (bsessions a))
    (totalReceived a + receivedBytes i) (totalSent a + sentBytes i) (accepted a + 1)
    (rejected a) (superseded a);
  acc_range : totalReceived a' < 2^63 ∧ totalSent a' < 2^63;
  acc_wf : wfSample s }.

Definition isBandwidth (e : TraceEvent) : bool := bool_decide (Type_ e = "bandwidth"%string).

Lemma bandwidth_observe_spec e a :
  bandwidth_ok e → totals_ok a →
  match observe e a with
  | (Some i, a') => isBandwidth e = true ∧ ∃ s prev, acceptedStep e a i a' s prev
  | (None, a') =>
      a' = mkAcc (bsessions a) (totalReceived a) (totalSent a) (accepted a) (rejected a')
             (superseded a') ∧
      rejected a' + superseded a' = rejected a + superseded a + (if isBandwidth e then 1 else 0)
  end.
Proof.
  intros He [Hwf Hr Hs [Hr63 Hs63]]. unfold observe, isBandwidth.
  case_bool_decide as Hty; cbn [negb]; [|destruct a; cbn; split; [done|lia]].
  assert (∀ a' : bandwidthAccumulator, a' = reject a →
    a' = mkAcc (bsessions a) (totalReceived a) (totalSent a) (accepted a) (rejected a')
           (superseded a') ∧
    rejected a' + superseded a' = rejected a + superseded a + 1) as Hrej
    by (intros a' ->; cbn; split; [done|lia]).
  destruct (Bandwidth e) as [s|] eqn:Hb; [|by apply Hrej].
  destruct (validBandwidthSample e) eqn:Hv; cbn [negb]; [|by apply Hrej].
  apply validBandwidthSample_spec in Hv as (s' & Hs' & Hwfs); [|done].
  rewrite Hb in Hs'. injection Hs' as <-.
  set (key := (NodeID e, SessionID e)).
  set (prev := from_option sample zeroSample (bsessions a !! key)).
  set (ex := bool_decide (is_Some (bsessions a !! key))).
  assert (wfSample prev ∧ ex = true ∨ prev = zeroSample ∧ ex = false) as Hprev.
  { unfold prev, ex. destruct (bsessions a !! key) as [s0|] eqn:Hk; [left|by right].
    split; [by apply (Hwf key s0 Hk)|done]. }
  destruct (ex && (ElapsedNS s <=? ElapsedNS prev)) eqn:Hsup; [cbn; split; [done|lia]|].
  destruct (ex && (Final prev || _ || _)) eqn:Hreg; [by apply Hrej|].
  assert (ElapsedNS prev < ElapsedNS s ∧ 0 ≤ ElapsedNS prev ∧ Final prev = false ∧
    0 ≤ BReceivedBytes prev ≤ BReceivedBytes s ∧ 0 ≤ BSentBytes prev ≤ BSentBytes s)
    as (H1 & H2 & H3 & H4 & H5).
  { destruct Hprev as [[Hp ->]|[-> ->]]; cbn [andb] in *.
    - rewrite !orb_false_iff, !Z.ltb_ge in Hreg. apply Z.leb_gt in Hsup.
      destruct Hreg as ((? & ?) & ?). destruct Hp. split_and!; (done || lia).
    - cbn. destruct Hwfs. split_and!; (done || lia). }
  destruct Hwfs as [W1 W2 W3 W4 W5 W6 W7].
  assert (0 ≤ totalReceived a) as Hr0
    by (rewrite Hr; apply sessionSum_nonneg; [done|intros ? []; lia]).
  assert (0 ≤ totalSent a) as Hs0
    by (rewrite Hs; apply sessionSum_nonneg; [done|intros ? []; lia]).
  unfold MaxInt64. rewrite !(i64_id (BReceivedBytes s - _)), !(i64_id (BSentBytes s - _)) by lia.
  rewrite !(i64_id (2^63 - 1 - _)) by lia.
  destruct ((2^63 - 1 - totalReceived a <? _) || _) eqn:Hov; [by apply Hrej|].
  apply orb_false_iff in Hov as [Hov1%Z.ltb_ge Hov2%Z.ltb_ge].
  destruct (intervalProtocols _ _) as [[ps gone]|] eqn:Hip; [|by apply Hrej].
  case_bool_decide as Hgone; [by apply Hrej|].
  subst gone.
  apply intervalProtocols_spec in Hip as (Hnn & Hnames & Hg).
  - split; [done|]. exists s, prev. split; cbn; try done.
    + intros n Hn. destruct (decide (n ∈ Protocol <$> Protocols s)); [done|].
      assert (is_Some ((∅ : gmap string BandwidthProtocol) !! n)) as Habs by by apply Hg.
      rewrite lookup_empty in Habs. by apply is_Some_None in Habs.
    + rewrite i64_id; lia.
    + lia.
    + lia.
    + rewrite !i64_id by lia. done.
    + rewrite !i64_id by lia. lia.
  - apply oldProtocols_nonneg. destruct Hprev as [[? _]|[? _]]; auto.
  - unfold bandwidth_ok in He. rewrite Hb in He. destruct He as (_ & _ & _ & He).
    eapply list.Forall_impl; [exact He|]. cbn. unfold int64. lia.
Qed.

(** The accumulator and the reported intervals after a sequence of events. *)
Definition bandwidthRun (events : list TraceEvent) :
    list bandwidthInterval * bandwidthAccumulator :=
  foldl (λ st e, let '(i, a) := observe e (snd st) in (fst st ++ option_list i, a))
    ([], emptyBandwidth) events.

Record intervalOk (i : bandwidthInterval) : Prop := {
  int_duration : 0 < durationNS i;
  int_received : 0 ≤ receivedBytes i;
  int_sent : 0 ≤ sentBytes i;
  int_protocols : Forall (λ p, 0 ≤ ReceivedBytes p ∧ 0 ≤ SentBytes p) (iprotocols i) }.

Record runOk (events : list TraceEvent) (st : list bandwidthInterval * bandwidthAccumulator) :
    Prop := {
  run_totals : totals_ok (snd st);
  run_intervals : Forall intervalOk (fst st);
  run_received : sumBy receivedBytes (fst st) = totalReceived (snd st);
  run_sent : sumBy sentBytes (fst st) = totalSent (snd st);
  run_accepted : Z.of_nat (length (fst st)) = accepted (snd st);
  run_count : accepted (snd st) + rejected (snd st) + superseded (snd st) =
    Z.of_nat (length (filter (λ e, isBandwidth e = true) events)) }.

Lemma isBandwidth_filter_snoc events e :
  Z.of_nat (length (filter (λ e, isBandwidth e = true) (events ++ [e]))) =
  Z.of_nat (length (filter (λ e, isBandwidth e = true) events)) + (if isBandwidth e then 1 else 0).
Proof.
  rewrite list.filter_app, length_app, Nat2Z.inj_add. destruct (isBandwidth e) eqn:He.
  - by rewrite filter_cons_True.
  - by rewrite filter_cons_False by congruence.
Qed.

Lemma sessionSum_accepted f e a i a' s prev :
  acceptedStep e a i a' s prev → f zeroSample = 0 →
  sessionSum f (bsessions a') = sessionSum f (bsessions a) + (f s - f prev).
Proof.
  intros [_ Hprev _ _ _ _ _ _ -> _ _] H0. cbn [bsessions]. rewrite sessionSum_insert, Hprev. cbn [sample].
  destruct (bsessions a !! (NodeID e, SessionID e)); cbn [from_option]; lia.
Qed.

Lemma bandwidthRun_ok events : Forall bandwidth_ok events → runOk events (bandwidthRun events).
Proof.
  induction events as [|e events IH] using rev_ind; intros Hev.
  { by split. }
  apply list.Forall_app in Hev as [Hev [He _]%list.Forall_cons]. specialize (IH Hev).
  unfold bandwidthRun in *. rewrite foldl_app. cbn.
  destruct (foldl _ _ events) as [is_ a]. destruct IH as [Ht Hi Hr Hs Ha Hc]. cbn [fst snd] in *.
  pose proof (bandwidth_observe_spec e a He Ht) as Hstep.
  destruct (observe e a) as [[i|] a']; cbn [option_list].
  - destruct Hstep as (Hb & s & prev & Hacc).
    pose proof (sessionSum_accepted BReceivedBytes _ _ _ _ _ _ Hacc eq_refl) as Hsr.
    pose proof (sessionSum_accepted BSentBytes _ _ _ _ _ _ Hacc eq_refl) as Hss.
    destruct Hacc as [_ _ _ _ [_ Hd] [Hir ?] [His ?] Hp Heq Hrange Hwf].
    assert (accepted a' = accepted a + 1 ∧ rejected a' = rejected a ∧
      superseded a' = superseded a ∧ totalReceived a' = totalReceived a + receivedBytes i ∧
      totalSent a' = totalSent a + sentBytes i) as (? & ? & ? & ? & ?) by by rewrite Heq.
    destruct Ht as [Hwfs Htr Hts _].
    split; cbn [fst snd].
    + split; [|lia|lia|done]. unfold sessions_wf. rewrite Heq. cbn. by apply map_Forall_insert_2.
    + apply list.Forall_app_2; [done|]. by repeat constructor.
    + rewrite sumBy_app. cbn. lia.
    + rewrite sumBy_app. cbn. lia.
    + rewrite length_app. cbn. lia.
    + rewrite isBandwidth_filter_snoc, Hb. lia.
  - destruct Hstep as [Heq Hcount]. rewrite app_nil_r.
    assert (accepted a' = accepted a ∧ totalReceived a' = totalReceived a ∧
      totalSent a' = totalSent a ∧ bsessions a' = bsessions a) as (? & Hr' & Hs' & Hss)
      by by rewrite Heq.
    split; cbn [fst snd]; try (done || lia).
    + destruct Ht as [Hwfs Htr Hts Hrg]. split; unfold sessions_wf; rewrite ?Hr', ?Hs', ?Hss; done.
    + rewrite isBandwidth_filter_snoc. lia.
Qed.

(** C36: the run's byte totals account for every accepted byte exactly once.  For
    every sequence of events with 64-bit counters (untrusted otherwise): the
    totals are the sums of the sessions' latest cumulative samples and of the
    reported intervals, they never overflow, every interval has a positive
    duration and non-negative bytes, and each bandwidth event is accepted,
    rejected or superseded. *)
Theorem bandwidth_totals events :
  Forall bandwidth_ok events →
  let '(intervals, a) := bandwidthRun events in
  totalReceived a = sessionSum BReceivedBytes (bsessions a) ∧
  totalSent a = sessionSum BSentBytes (bsessions a) ∧
  totalReceived a = sumBy receivedBytes intervals ∧ totalSent a = sumBy sentBytes intervals ∧
  0 ≤ totalReceived a ≤ MaxInt64 ∧ 0 ≤ totalSent a ≤ MaxInt64 ∧
  Forall intervalOk intervals ∧
  accepted a + rejected a + superseded a =
    Z.of_nat (length (filter (λ e, isBandwidth e = true) events)).
Proof.
  intros Hev. pose proof (bandwidthRun_ok events Hev) as Hok.
  destruct (bandwidthRun events) as [intervals a].
  destruct Hok as [[Hwf Hr Hs [? ?]] Hi Hir His _ Hc]. cbn [fst snd] in *.
  pose proof (sessionSum_nonneg a BReceivedBytes Hwf ltac:(intros ? []; lia)).
  pose proof (sessionSum_nonneg a BSentBytes Hwf ltac:(intros ? []; lia)).
  unfold MaxInt64. split_and!; (done || lia).
Qed.

(** ** Summary *)
Definition named (n : string) (f : BandwidthProtocol → Z) (p : BandwidthProtocol) : Z :=
  if bool_decide (Protocol p = n) then f p else 0.

Lemma addProtocols_spec l n :
  (∀ p, p ∈ l → 0 ≤ ReceivedBytes p ∧ 0 ≤ SentBytes p) →
  sumBy ReceivedBytes l < 2^63 → sumBy SentBytes l < 2^63 →
  let m := foldl addProtocol ∅ l in
  from_option ReceivedBytes 0 (m !! n) = sumBy (named n ReceivedBytes) l ∧
  from_option SentBytes 0 (m !! n) = sumBy (named n SentBytes) l ∧
  (∀ p, m !! n = Some p → Protocol p = n).
Proof.
  induction l as [|p l IH] using rev_ind; intros Hnn Hr Hs; [done|].
  rewrite sumBy_app in Hr, Hs. cbn [sumBy] in Hr, Hs. cbv zeta. rewrite foldl_app. cbn [foldl].
  destruct (Hnn p ltac:(set_solver)) as [Hp1 Hp2].
  destruct IH as (IH1 & IH2 & IH3); [set_solver|lia|lia|].
  rewrite !sumBy_app. cbn [sumBy]. unfold addProtocol at 1 3 5. unfold named at 2 4.
  assert (∀ f, (∀ q, q ∈ l → 0 ≤ f q) → 0 ≤ sumBy (named n f) l ≤ sumBy f l) as Hb.
  { intros f Hf. split; [apply sumBy_nonneg|apply sumBy_le]; intros q Hq; unfold named;
      case_bool_decide; specialize (Hf q Hq); lia. }
  pose proof (Hb ReceivedBytes ltac:(set_solver)) as Hb1.
  pose proof (Hb SentBytes ltac:(set_solver)) as Hb2.
  case_bool_decide as Hn.
  - subst n. rewrite lookup_insert_eq. cbn.
    destruct (foldl addProtocol ∅ l !! Protocol p) as [q|] eqn:Hq; cbn in *;
      rewrite !i64_id by lia; split_and!; [lia|lia|by intros ? [= <-]|lia|lia|by intros ? [= <-]].
  - rewrite lookup_insert_ne by done. split_and!; [lia|lia|done].
Qed.

Lemma protocolTotals_concat l :
  protocolTotals l = foldl addProtocol ∅ (concat ((λ s, Protocols (sample s)) <$> l)).
Proof.
  unfold protocolTotals. generalize (∅ : gmap string BandwidthProtocol).
  induction l as [|s l IH]; intros m; [done|]. cbn. by rewrite foldl_app, IH.
Qed.

Lemma sumBy_concat {A} (f : A → Z) ls : sumBy f (concat ls) = sumBy (sumBy f) ls.
Proof. induction ls as [|l ls IH]; [done|]. cbn. rewrite sumBy_app. lia. Qed.

Lemma sumBy_fmap {A B} (f : B → Z) (g : A → B) l : sumBy f (g <$> l) = sumBy (λ x, f (g x)) l.
Proof. induction l as [|x l IH]; [done|]. cbn. lia. Qed.

(** The bytes of one protocol over the sessions' latest samples. *)
Definition protocolSum (n : string) (f : BandwidthProtocol → Z) (a : bandwidthAccumulator) : Z :=
  sessionSum (λ s, sumBy (named n f) (Protocols s)) (bsessions a).

(** The summary's attribution is exact and within the totals.  After any
    telemetry, each protocol listed in the summary has exactly the bytes of that
    protocol in the sessions' latest samples, with no overflow on the way, and
    at most the run's totals. *)
Theorem summarize_attribution events sm :
  Forall bandwidth_ok events → summarize (snd (bandwidthRun events)) = Some sm →
  let a := snd (bandwidthRun events) in
  SReceivedBytes sm = totalReceived a ∧ SSentBytes sm = totalSent a ∧
  ∀ p, p ∈ SProtocols sm →
    ReceivedBytes p = protocolSum (Protocol p) ReceivedBytes a ∧
    SentBytes p = protocolSum (Protocol p) SentBytes a ∧
    0 ≤ ReceivedBytes p ≤ SReceivedBytes sm ∧ 0 ≤ SentBytes p ≤ SSentBytes sm.
Proof.
  intros Hev Hsm a. destruct (bandwidthRun_ok events Hev) as [[Hwf Hr Hs [Hr63 Hs63]] _ _ _ _ _].
  fold a in Hsm, Hwf, Hr, Hs, Hr63, Hs63. unfold summarize in Hsm.
  destruct (_ && _); [done|]. simplify_eq. cbn. split; [done|split; [done|]].
  set (l := snd <$> map_to_list (bsessions a)).
  assert (∀ s, s ∈ l → wfSample (sample s)) as Hl.
  { intros s ([k s'] & -> & Hks)%list_elem_of_fmap. apply elem_of_map_to_list in Hks.
    by apply (Hwf k). }
  set (ps := concat ((λ s, Protocols (sample s)) <$> l)).
  assert (∀ f, sumBy f ps = sumBy (λ s, sumBy f (Protocols (sample s))) l) as Hsum.
  { intros f. unfold ps. by rewrite sumBy_concat, sumBy_fmap. }
  assert (∀ p, p ∈ ps → 0 ≤ ReceivedBytes p ∧ 0 ≤ SentBytes p) as Hnn.
  { intros p (q & Hpq & Hq)%list_elem_of_In%in_concat. apply list_elem_of_In in Hpq, Hq.
    apply list_elem_of_fmap in Hpq as (s & -> & Hin).
    destruct (Hl s Hin) as [_ _ _ _ Hf _ _]. rewrite list.Forall_forall in Hf. by apply Hf. }
  assert (sumBy ReceivedBytes ps ≤ totalReceived a) as Hle1.
  { rewrite Hsum, Hr. apply sumBy_le. intros s Hin. apply (Hl s Hin). }
  assert (sumBy SentBytes ps ≤ totalSent a) as Hle2.
  { rewrite Hsum, Hs. apply sumBy_le. intros s Hin. apply (Hl s Hin). }
  intros p. rewrite merge_sort_Permutation, protocolTotals_concat.
  fold ps. intros ([n p'] & -> & Hp)%list_elem_of_fmap. apply elem_of_map_to_list in Hp. cbn.
  destruct (addProtocols_spec ps n Hnn ltac:(lia) ltac:(lia)) as (H1 & H2 & H3).
  rewrite Hp in H1, H2. cbn in H1, H2. rewrite (H3 p' Hp).
  assert (∀ f, (∀ q, q ∈ ps → 0 ≤ f q) → 0 ≤ sumBy (named n f) ps ≤ sumBy f ps) as Hb.
  { intros f Hf. split; [apply sumBy_nonneg|apply sumBy_le]; intros q Hq; unfold named;
      case_bool_decide; specialize (Hf q Hq); lia. }
  pose proof (Hb ReceivedBytes (λ q Hq, proj1 (Hnn q Hq))).
  pose proof (Hb SentBytes (λ q Hq, proj2 (Hnn q Hq))).
  unfold protocolSum, sessionSum. fold l.
  rewrite <- (Hsum (named n ReceivedBytes)), <- (Hsum (named n SentBytes)).
  split_and!; lia.
Qed.

(** ** Timeline *)
Lemma analysisBucket_floor s w :
  0 < w < 2^55 → - 2^61 ≤ s ≤ 2^61 → analysisBucket s w = s / w * w.
Proof.
  intros Hw Hs. unfold analysisBucket.
  assert ((if (s <? 0) && negb (Z.rem s w =? 0) then i64 (Z.quot s w - 1) else Z.quot s w)
          = s / w) as ->.
  { destruct (Z.ltb_spec s 0) as [Hneg|Hpos]; cbn [andb].
    - pose proof (Z.quot_rem' s w) as Hqr. pose proof (Z.rem_bound_pos_neg s w ltac:(lia)
        ltac:(lia)) as Hrem.
      assert (- 2^61 ≤ Z.quot s w ≤ 0) as Hq.
      { pose proof (Z.quot_div_nonneg (- s) w ltac:(lia) ltac:(lia)) as Hd.
        rewrite Z.quot_opp_l in Hd by lia. pose proof (Z.div_pos (- s) w).
        pose proof (Z.div_le_upper_bound (- s) w (2^61) ltac:(lia) ltac:(nia)). lia. }
      destruct (Z.eqb_spec (Z.rem s w) 0) as [H0|H0]; cbn [negb].
      + apply (Z.div_unique s w _ 0); [lia|]. lia.
      + rewrite i64_id by lia. apply (Z.div_unique s w _ (Z.rem s w + w)); lia.
    - symmetry. rewrite Z.quot_div_nonneg; lia. }
  apply i64_id. pose proof (Z.div_mod s w). pose proof (Z.mod_pos_bound s w). lia.
Qed.

(** Instants whose Unix seconds are within [2^60] of the epoch. *)
Definition near (s : Z) : Prop := - 2^60 ≤ s ≤ 2^60.

Definition inBins (w first last k : Z) : Prop :=
  k = k / w * w ∧ first / w ≤ k / w ≤ last / w.

Record timelineWide (t : bandwidthTimeline) : Prop := {
  tl_width : ∃ k, 0 ≤ k ≤ 51 ∧ width t = 5 * 2 ^ k;
  tl_first : near (first t);
  tl_last : near (last t);
  tl_order : first t ≤ last t;
  tl_bins : ∃ m, bins t = Some m ∧ map_Forall (λ k _, inBins (width t) (first t) (last t) k) m }.

Record timelineOk (t : bandwidthTimeline) : Prop := {
  tl_wide : timelineWide t;
  tl_few : last t / width t - first t / width t < 360 }.

Lemma width_range t : timelineWide t → 5 ≤ width t ≤ 5 * 2 ^ 51.
Proof.
  intros [(k & Hk & ->) _ _ _ _].
  pose proof (Z.pow_le_mono_r 2 0 k). pose proof (Z.pow_le_mono_r 2 k 51). lia.
Qed.

Lemma buckets_eq t : timelineWide t → buckets t = last t / width t - first t / width t.
Proof.
  intros Ht. pose proof (width_range t Ht) as Hw. destruct Ht as [_ Hf Hl _ _].
  unfold near in *. unfold buckets. rewrite !analysisBucket_floor by lia.
  rewrite i64_id.
  - rewrite <- Z.mul_sub_distr_r. by apply Z.quot_mul; lia.
  - pose proof (Z.div_mod (last t) (width t)). pose proof (Z.mod_pos_bound (last t) (width t)).
    pose proof (Z.div_mod (first t) (width t)). pose proof (Z.mod_pos_bound (first t) (width t)).
    lia.
Qed.

Lemma rebin_inBins w f l m :
  5 ≤ w ≤ 5 * 2 ^ 51 → near f → near l → map_Forall (λ k _, inBins w f l k) m →
  map_Forall (λ k _, inBins (w * 2) f l k) (rebin (w * 2) m).
Proof.
  intros Hw Hf Hl Hm. unfold rebin.
  assert (∀ k b, (k, b) ∈ map_to_list m → inBins w f l k) as Hin.
  { intros k b Hk%elem_of_map_to_list. by apply (Hm k b). }
  assert (map_Forall (λ k (_ : bandwidthBucket), inBins (w * 2) f l k) ∅) as H0
    by apply map_Forall_empty.
  revert Hin H0. generalize (∅ : gmap Z bandwidthBucket).
  induction (map_to_list m) as [|[k b] kbs IH]; intros acc Hin Hacc; [done|]. cbn [foldl].
  apply IH; [set_solver|]. apply map_Forall_insert_2; [|done].
  destruct (Hin k b ltac:(set_solver)) as [Hk [H1 H2]]. unfold near in *.
  assert (k / w * w ≤ 2 ^ 60 ∧ - 2 ^ 61 ≤ k / w * w) as [Hb1 Hb2].
  { pose proof (Z.div_mod l w). pose proof (Z.mod_pos_bound l w).
    pose proof (Z.div_mod f w). pose proof (Z.mod_pos_bound f w). nia. }
  rewrite analysisBucket_floor by lia. unfold inBins.
  rewrite Z.div_mul by lia. split; [done|].
  rewrite <- !Z.div_div by lia. split; apply Z.div_le_mono; lia.
Qed.

(** At the largest width every admissible timeline is narrow. *)
Lemma few_at_51 k w f l :
  0 ≤ k ≤ 51 → w = 5 * 2 ^ k → near f → near l → 360 ≤ l / w - f / w → k ≤ 50.
Proof.
  intros Hk -> Hf Hl Hmany. destruct (Z.eq_dec k 51) as [->|]; [|lia]. exfalso.
  unfold near in *. set (w := 5 * 2 ^ 51) in *. vm_compute in w. subst w.
  pose proof (Z.div_mod l 11258999068426240). pose proof (Z.mod_pos_bound l 11258999068426240).
  pose proof (Z.div_mod f 11258999068426240). pose proof (Z.mod_pos_bound f 11258999068426240).
  lia.
Qed.

Lemma widen_spec fuel t :
  timelineWide t → (∀ k, width t = 5 * 2 ^ k → 0 ≤ k → 52 - k ≤ Z.of_nat fuel) →
  ∃ t', widen fuel t = Some t' ∧ timelineOk t' ∧ first t' = first t ∧ last t' = last t.
Proof.
  revert t. induction fuel as [|fuel IH]; intros t Ht Hfuel; cbn [widen].
  all: rewrite (buckets_eq t Ht); destruct (Z.leb_spec 360 (last t / width t - first t / width t))
    as [Hmany|Hfew]; [|exists t; split; [done|]; split; [by split|done]].
  all: pose proof Ht as [(k & Hk & Hw) Hf Hl Ho (m & Hm & Hbins)];
    pose proof (width_range t Ht) as Hwr; specialize (Hfuel k Hw (proj1 Hk)).
  all: assert (k ≤ 50) as Hk50 by exact (few_at_51 k _ _ _ Hk Hw Hf Hl Hmany).
  - lia.
  - rewrite i64_id by lia. rewrite Hm. cbn [fmap option_fmap option_map].
    destruct (IH (mkTimeline (width t * 2) (first t) (last t) (Some (rebin (width t * 2) m))))
      as (t' & Ht' & Hok & Hf' & Hl'); [| |by exists t'].
    + split; cbn; try done.
      * exists (k + 1). split; [lia|]. rewrite Hw, Z.pow_add_r; lia.
      * eexists. split; [done|]. apply rebin_inBins; (done || lia).
    + intros k'. cbn. intros Hw' Hk'. assert (k' = k + 1); [|lia].
      apply (Z.pow_inj_r 2); [lia..|]. rewrite Z.pow_add_r by lia. lia.
Qed.

Lemma fill_spec fuel i w lastSecond f l at_ m :
  5 ≤ w ≤ 5 * 2 ^ 51 → near f → near l → lastSecond ≤ l →
  at_ = at_ / w * w → f / w ≤ at_ / w →
  (lastSecond / w - at_ / w < Z.of_nat fuel) →
  map_Forall (λ k _, inBins w f l k) m →
  ∃ m', fill fuel i w lastSecond at_ m = Some m' ∧ map_Forall (λ k _, inBins w f l k) m'.
Proof.
  intros Hw Hf Hl Hls. revert at_ m. induction fuel as [|fuel IH]; intros at_ m Hat Hfat Hfuel Hm;
    cbn [fill]; (destruct (Z.leb_spec at_ lastSecond) as [Hle|Hgt]; [|by exists m]).
  all: pose proof (Z.div_le_mono at_ lastSecond w ltac:(lia) Hle) as Hd.
  { lia. }
  unfold near in *.
  assert (i64 (at_ + w) = at_ + w) as ->.
  { apply i64_id. pose proof (Z.div_mod f w). pose proof (Z.mod_pos_bound f w). nia. }
  assert ((at_ + w) / w = at_ / w + 1) as Hnext.
  { rewrite <- (Z.mul_1_l w) at 1. rewrite Z.div_add; lia. }
  apply IH; rewrite ?Hnext; [lia|lia|lia|].
  apply map_Forall_insert_2; [|done]. split; [done|]. split; [done|].
  apply Z.div_le_mono; lia.
Qed.

(** An interval within the range of times. *)
Definition interval_near (i : bandwidthInterval) : Prop :=
  near (Unix (iat i - durationNS i)) ∧ near (Unix (iat i - 1)).

Lemma extend_wide fs ls t :
  near fs → near ls → fs ≤ ls → t = emptyTimeline ∨ timelineOk t →
  timelineWide (extend fs ls t) ∧ first (extend fs ls t) ≤ fs ∧ ls ≤ last (extend fs ls t).
Proof.
  intros Hn1 Hn2 Hle Ht. unfold extend.
  set (t0 := match bins t with None => _ | Some _ => t end).
  assert (timelineWide t0) as [Hw Hf Hl Ho (m & Hm & Hb)].
  { unfold t0. destruct Ht as [->|[Ht _]].
    - cbn. split; cbn; try done; [by exists 0|]. exists ∅. by split.
    - destruct (tl_bins _ Ht) as (m & Hm & _). rewrite Hm. exact Ht. }
  cbn [first last]. split; [|lia].
  split; cbn [first last width bins]; unfold near in *; try lia; [done|].
  exists m. split; [done|].
  intros k b Hk. destruct (Hb k b Hk) as [H1 H2]. split; [done|].
  assert (0 < width t0) by (destruct Hw as (k' & ? & ->); lia).
  pose proof (Z.div_le_mono (Z.min fs (first t0)) (first t0) (width t0)).
  pose proof (Z.div_le_mono (last t0) (Z.max ls (last t0)) (width t0)). lia.
Qed.

Lemma addInterval_fill i t m fs ls n :
  timelineOk t → bins t = Some m → near fs → near ls → fs ≤ ls → first t ≤ fs → ls ≤ last t →
  (361 ≤ n)%nat →
  ∃ m', fill n i (width t) ls (analysisBucket fs (width t)) m = Some m' ∧
    timelineOk (mkTimeline (width t) (first t) (last t) (Some m')).
Proof.
  intros [Hw2 Hfew] Hm Hn1 Hn2 Hle Hfs Hls Hn.
  pose proof (width_range t Hw2) as Hwr. destruct Hw2 as [Hw Hf Hl Ho (m0 & Hm0 & Hb)].
  rewrite Hm in Hm0. injection Hm0 as <-.
  unfold near in Hn1, Hn2. rewrite analysisBucket_floor by lia.
  pose proof (Z.div_le_mono (first t) fs (width t) ltac:(lia) Hfs).
  pose proof (Z.div_le_mono ls (last t) (width t) ltac:(lia) Hls).
  destruct (fill_spec n i (width t) ls (first t) (last t) (fs / width t * width t) m)
    as (m' & Hm' & Hb'); try (rewrite ?Z.div_mul by lia; lia || assumption).
  exists m'. split; [done|]. split; [|done]. split; eauto.
Qed.

Lemma addInterval_spec wf ff i t :
  (64 ≤ wf)%nat → (361 ≤ ff)%nat → interval_near i → t = emptyTimeline ∨ timelineOk t →
  ∃ t', addIntervalWith wf ff i t = Some t' ∧ (t' = emptyTimeline ∨ timelineOk t').
Proof.
  intros H64 H361 [Hn1 Hn2] Ht. unfold addIntervalWith.
  destruct (Z.leb_spec (durationNS i) 0) as [Hd|Hd]; [by exists t|]. cbv zeta.
  assert (Unix (iat i - durationNS i) ≤ Unix (iat i - 1)) as Hle.
  { unfold Unix. pose proof (Z.div_le_mono (iat i - durationNS i) (iat i - 1)
      Duration.Second ltac:(done)). lia. }
  destruct (extend_wide _ _ t Hn1 Hn2 Hle Ht) as (Hw1 & Hfs & Hls).
  destruct (widen_spec wf _ Hw1 ltac:(lia)) as (t2 & -> & Hok & Hf2 & Hl2).
  cbn [mbind option_bind]. destruct (tl_bins _ (tl_wide _ Hok)) as (m & Hm & _). rewrite Hm.
  destruct (addInterval_fill i t2 m _ _ ff Hok Hm Hn1 Hn2 Hle) as (m' & Hm' & Hok');
    [congruence|congruence|done|].
  cbn [from_option]. unfold id. rewrite Hm'. eexists. split; [reflexivity|]. by right.
Qed.

(** All the intervals of a run. *)
Fixpoint timelineOf (l : list bandwidthInterval) (t : bandwidthTimeline) :
    option bandwidthTimeline :=
  match l with
  | [] => Some t
  | i :: l => t ← addInterval i t; timelineOf l t
  end.

(** The timeline is total and bounded.  However many intervals are added, in
    any order and with any gaps within [2^60] seconds of the epoch, both loops
    end (the doubling within 64 rounds, the filling within 361), and at most 360
    buckets are kept, all aligned to the width, which is 5 seconds times a power
    of two. *)
Theorem timeline_bounded l :
  Forall interval_near l →
  ∃ t, timelineOf l emptyTimeline = Some t ∧
    (size (default ∅ (bins t)) ≤ 360)%nat ∧
    (t = emptyTimeline ∨ ∃ k, 0 ≤ k ≤ 51 ∧ width t = 5 * 2 ^ k) ∧
    map_Forall (λ k _, k mod width t = 0) (default ∅ (bins t)).
Proof.
  intros Hl. assert (∃ t, timelineOf l emptyTimeline = Some t ∧
    (t = emptyTimeline ∨ timelineOk t)) as (t & -> & Ht).
  { assert (emptyTimeline = emptyTimeline ∨ timelineOk emptyTimeline) as H0 by by left.
    revert H0. generalize emptyTimeline at 1 3 4.
    induction Hl as [|i l Hi _ IH]; intros t Ht; cbn [timelineOf]; [by exists t|]; unfold addInterval.
    destruct (addInterval_spec 64 361 i t ltac:(lia) ltac:(lia) Hi Ht) as (t' & -> & Ht'). by apply IH. }
  exists t. split; [done|]. destruct Ht as [->|[Hw Hfew]].
  { cbn. split; [apply Nat.le_0_l|]. split; [by left|done]. }
  pose proof (width_range t Hw) as Hwr. destruct Hw as [Hw _ _ _ (m & -> & Hb)].
  cbn [from_option]. unfold id. split_and!; [|by right|].
  - rewrite <- size_dom. unfold size, set_size. cbn [compose].
    rewrite <- (length_seq 360 0) at 1.
    rewrite <- (length_fmap (λ i, (first t / width t + Z.of_nat i) * width t)).
    apply submseteq_length, NoDup_submseteq; [apply NoDup_elements|].
    intros k [b Hk]%elem_of_elements%elem_of_dom. destruct (Hb k b Hk) as [H1 H2].
    apply list_elem_of_fmap.
    exists (Z.to_nat (k / width t - first t / width t)). rewrite elem_of_seq. split; [|lia].
    rewrite Z2Nat.id by lia. lia.
  - intros k b Hk. destruct (Hb k b Hk) as [-> _]. by rewrite Z.mod_mul by lia.
Qed.

(** ** A small run *)
Module BandwidthExamples.
Definition mk (at_ : Time) (elapsed r s pr ps : Z) : TraceEvent :=
  mkEvent None "" (Some (mkBandwidth elapsed r s [mkProtocol "/meshsub/1.2.0" pr ps] false))
    "s1" 0 "" "run" "agent" "n1" "" "bandwidth" "" "" "" at_ F64.zero ∅.
Definition events : list TraceEvent :=
  [mk (63000000000 * Duration.Second) 1000000000 100 50 60 30;
   mk (63000000010 * Duration.Second) 11000000000 400 70 300 70;
   mk (63000000005 * Duration.Second) 6000000000 300 60 200 60;
   mk (63000000020 * Duration.Second) 21000000000 500 60 300 60].

Example run :
  let a := snd (bandwidthRun events) in
  (totalReceived a, totalSent a, accepted a, rejected a, superseded a) = (400, 70, 2, 1, 1).
Proof. vm_compute. reflexivity. Qed.

Lemma bandwidthEvents_ok : Forall bandwidth_ok events.
Proof.
  unfold events, bandwidth_ok, sample_ok, int64, mk.
  repeat (apply list.Forall_cons; split; [|]); try apply list.Forall_nil_2; cbn;
    (split_and!; try lia); apply list.Forall_singleton; cbn; lia.
Qed.

Definition sm : BandwidthSummary :=
  default (mkBSummary 0 0 0 0 0 0 0 [] 0) (summarize (snd (bandwidthRun events))).
Lemma sm_eq : summarize (snd (bandwidthRun events)) = Some sm.
Proof. vm_compute. reflexivity. Qed.

Definition intervals : list bandwidthInterval := fst (bandwidthRun events).
Definition nearb (s : Z) : bool := (- 2^60 <=? s) && (s <=? 2^60).
Lemma nearb_intervals :
  forallb (λ i, nearb (Unix (iat i - durationNS i)) && nearb (Unix (iat i - 1))) intervals = true.
Proof. vm_compute. reflexivity. Qed.
Lemma intervals_near : Forall interval_near intervals.
Proof.
  apply list.Forall_forall. intros i Hi%list_elem_of_In.
  pose proof (proj1 (forallb_forall _ _) nearb_intervals i Hi) as H. cbn beta in H.
  unfold nearb in H. rewrite !andb_true_iff, !Z.leb_le in H.
  unfold interval_near, near. tauto.
Qed.
End BandwidthExamples.

Lemma bandwidth_totals_witness :
  let '(intervals, a) := bandwidthRun BandwidthExamples.events in
  totalReceived a = sessionSum BReceivedBytes (bsessions a) ∧
  totalSent a = sessionSum BSentBytes (bsessions a) ∧
  totalReceived a = sumBy receivedBytes intervals ∧ totalSent a = sumBy sentBytes intervals ∧
  0 ≤ totalReceived a ≤ MaxInt64 ∧ 0 ≤ totalSent a ≤ MaxInt64 ∧
  Forall intervalOk intervals ∧
  accepted a + rejected a + superseded a = 4.
Proof. exact (bandwidth_totals BandwidthExamples.events BandwidthExamples.bandwidthEvents_ok). Defined.

Lemma summarize_attribution_witness :
  SReceivedBytes BandwidthExamples.sm = totalReceived (snd (bandwidthRun BandwidthExamples.events)).
Proof.
  exact (proj1 (summarize_attribution BandwidthExamples.events BandwidthExamples.sm
    BandwidthExamples.bandwidthEvents_ok BandwidthExamples.sm_eq)).
Defined.

Lemma timeline_bounded_witness :
  ∃ t, timelineOf BandwidthExamples.intervals emptyTimeline = Some t ∧
    (size (default ∅ (bins t)) ≤ 360)%nat ∧
    (t = emptyTimeline ∨ ∃ k, 0 ≤ k ≤ 51 ∧ width t = 5 * 2 ^ k) ∧
    map_Forall (λ k _, k mod width t = 0) (default ∅ (bins t)).
Proof. exact (timeline_bounded BandwidthExamples.intervals BandwidthExamples.intervals_near). Defined.
