(* ===== verification/RunMetrics.v ===== *)
(** * The metrics of one run

    [internal/controller/run_metrics.go]: the exactly-once admission of
    telemetry events, the per-message index of the legacy cohort definition, the
    GossipSub control counters, the legacy summary and the cached live summary.
    The offline research index ([a.research]) is not modelled; the accumulators
    here are the ones without it. *)
From Stdlib Require Import ZArith Lia.
From stdpp Require Import strings list gmap sorting pretty.
From S2P Require Import Prelude.
From S2P Require Import GoStd.
From S2P Require Import Trace.
From S2P Require Import SequenceRanges.
From S2P Require SessionWindow.
From S2P Require Bandwidth.
Import SessionWindow (deliveryMetric, mkDelivery, latencyMS, latencyAvailable, agentID,
  summary, mkSummary, counts, latencies, samples, count, inc, bump, goodLatency, Metrics,
  mkMetrics, propagationSample, mkSample, latencyStats, ratio, sessionWindowAccumulator).
Open Scope Z_scope.

(** ** State *)
Record messageMetric := mkMessage {
  publishedAt : Time; mpublished : bool; mpublisher : string;
  targets : option (gset string);                         (* nil: unknown legacy cohort *)
  deliveries : option (gmap string deliveryMetric);       (* nil after compaction *)
  mduplicates : option (gmap string Z) }.

Abbreviation messageKey := (string * string)%type.
Abbreviation sessionKey := (string * string)%type.
Abbreviation gossipSubControlKey := (string * string * string)%type.

Record GossipSubControlMetric := mkControl {
  CAgentID : string; Direction : string; ControlType : string;
  RPCs : Z; Entries : Z; MessageIDs : Z; PeerExchangeRecords : Z }.

Record RunSummary := mkRunSummary {
  metrics : Metrics; GossipSubControl : list GossipSubControlMetric;
  RBandwidth : option Bandwidth.BandwidthSummary }.

Record runMetricAccumulator := mkRun {
  compactWindow : bool; seen : gset string; rsequences : gmap sessionKey sequenceRanges;
  messages : gmap messageKey messageMetric;
  control : gmap gossipSubControlKey GossipSubControlMetric;
  published : Z; delivered : Z; duplicates : Z;
  window : sessionWindowAccumulator; bandwidth : Bandwidth.bandwidthAccumulator;
  revision : Z;
  cachedRevision : Z; cachedAt : Time; cachedRun : string; cachedMetrics : option RunSummary }.

Definition newRunMetricAccumulator : runMetricAccumulator :=
  mkRun false ∅ ∅ ∅ ∅ 0 0 0 SessionWindow.emptyWindow Bandwidth.emptyBandwidth 0 0 0 "" None.
Definition newLiveRunMetricAccumulator : runMetricAccumulator :=
  mkRun true ∅ ∅ ∅ ∅ 0 0 0 SessionWindow.emptyWindow Bandwidth.emptyBandwidth 0 0 0 "" None.

(** Field updates. *)
Definition withMessages (f : gmap messageKey messageMetric → gmap messageKey messageMetric)
    (a : runMetricAccumulator) : runMetricAccumulator :=
  mkRun (compactWindow a) (seen a) (rsequences a) (f (messages a)) (control a) (published a)
    (delivered a) (duplicates a) (window a) (bandwidth a) (revision a) (cachedRevision a)
    (cachedAt a) (cachedRun a) (cachedMetrics a).
Definition withCounts (p d u : Z) (a : runMetricAccumulator) : runMetricAccumulator :=
  mkRun (compactWindow a) (seen a) (rsequences a) (messages a) (control a) (published a + p)
    (delivered a + d) (duplicates a + u) (window a) (bandwidth a) (revision a) (cachedRevision a)
    (cachedAt a) (cachedRun a) (cachedMetrics a).

(** ** Identity of an event *)
Definition NUL : string := String (Ascii.ascii_of_nat 0) "".

Definition sequenced (e : TraceEvent) : bool :=
  negb (bool_decide (SessionID e = ""%string)) && (0 <? Sequence e).

Definition eventIdentity (e : TraceEvent) : string :=
  if sequenced e then
    NodeID e ++ NUL ++ "session:" ++ SessionID e ++ ":" ++ pretty (Z.to_N (Sequence e))
  else if bool_decide (EventID e = ""%string) then ""
  else NodeID e ++ NUL ++ EventID e.

Definition hasEventLocked (e : TraceEvent) (a : runMetricAccumulator) : bool :=
  if sequenced e then
    negb (through (Sequence e) (default [] (rsequences a !! (NodeID e, SessionID e))) =? 0)
  else
    let id := eventIdentity e in
    negb (bool_decide (id = ""%string)) && bool_decide (id ∈ seen a).

(** ** GossipSub control events *)
Definition directions : list string := ["send"; "recv"; "drop"]%string.
Definition controlTypes : list string := ["ihave"; "iwant"; "idontwant"; "graft"; "prune"]%string.

(** The nested loops over directions and control types. *)
Definition gossipSubControlEvent (eventType : string) : option (string * string) :=
  list_find (λ dc, eventType = (fst dc ++ "_" ++ snd dc)%string)
    (d ← directions; c ← controlTypes; [(d, c)]) ≫= λ idc, Some (snd idc).

Definition nonnegativeEventCount (e : TraceEvent) (key : string) : Z :=
  let '(number, ok) := nonnegativeMetricCount (Fields e !! key) in
  if negb ok || F64.ltb (F64.of_Z MaxInt32) number then 0 else F64.trunc number.

Definition observeGossipSubControl (e : TraceEvent)
    (m : gmap gossipSubControlKey GossipSubControlMetric) :
    gmap gossipSubControlKey GossipSubControlMetric :=
  match gossipSubControlEvent (Type_ e) with
  | None => m
  | Some (d, c) =>
      let key := (AgentID e, d, c) in
      let c0 := default (mkControl (AgentID e) d c 0 0 0 0) (m !! key) in
      <[key := mkControl (CAgentID c0) (Direction c0) (ControlType c0) (RPCs c0 + 1)
          (Entries c0 + nonnegativeEventCount e "controlEntries")
          (MessageIDs c0 + nonnegativeEventCount e "messageIdCount")
          (PeerExchangeRecords c0 + nonnegativeEventCount e "peerExchangeCount")]> m
  end.

(** The index of a name in a list; an unknown name is 0, as in a Go map. *)
Definition orderOf (names : list string) (x : string) : nat :=
  default 0%nat (fst <$> list_find (λ n, n = x) names).

(** "Less" of the summary's sort. *)
Definition controlLess (a b : GossipSubControlMetric) : bool :=
  if negb (bool_decide (CAgentID a = CAgentID b)) then String.ltb (CAgentID a) (CAgentID b)
  else
    let da := orderOf directions (Direction a) in
    let db := orderOf directions (Direction b) in
    if negb (da =? db)%nat then (da <? db)%nat
    else (orderOf controlTypes (ControlType a) <? orderOf controlTypes (ControlType b))%nat.
Definition control_le (a b : GossipSubControlMetric) : Prop := controlLess b a = false.
#[export] Instance control_le_dec : RelDecision control_le.
Proof. intros a b. unfold control_le. apply _. Defined.

Definition summarizeGossipSubControl (a : runMetricAccumulator) : list GossipSubControlMetric :=
  merge_sort control_le (snd <$> map_to_list (control a)).

(** ** Observation *)

(** [compactLegacyWindowIndex]: only the identity of publications is kept. *)
Definition compactLegacyWindowIndex (m : gmap messageKey messageMetric) :
    gmap messageKey messageMetric :=
  omap (λ msg, if mpublished msg then Some (mkMessage 0 true "" None None None) else None) m.

(** The compact live branch. *)
Definition observeCompact (e : TraceEvent) (a : runMetricAccumulator) : runMetricAccumulator :=
  if bool_decide (Type_ e = "publish"%string) then
    if bool_decide (MessageID e = ""%string) then withCounts 1 0 0 a
    else match messages a !! (Topic e, MessageID e) with
    | Some _ => a
    | None =>
        withCounts 1 0 0
          (withMessages <[(Topic e, MessageID e) := mkMessage 0 true "" None None None]> a)
    end
  else if bool_decide (Type_ e = "deliver"%string) then withCounts 0 1 0 a
  else withCounts 0 0 1 a.

Definition newMessage : messageMetric := mkMessage 0 false "" None (Some ∅) (Some ∅).

(** [publish] on an indexed message. *)
Definition publishMessage (e : TraceEvent) (m : messageMetric) : messageMetric :=
  mkMessage (Timestamp e) true (NodeID e)
    (match targetNodeIDs (Fields e !! "targetNodeIds") with
     | Some ids => Some (list_to_set (filter (λ n, n ≠ ""%string ∧ n ≠ NodeID e) ids))
     | None => targets m
     end) (deliveries m) (mduplicates m).

Definition newDeliveryMetric (e : TraceEvent) : deliveryMetric :=
  mkDelivery (Timestamp e) (AgentID e) (LatencyMS e)
    (bool_decide (stringField e "payloadEncoding" = "envelope"%string) &&
     boolField e "latencyAvailable")
    (boolField e "latencyClockSynchronized")
    (fst (numericEventField (Fields e) "latencyUncertaintyMs")).

(** [deliver] on an indexed message: the earliest delivery per receiver. *)
Definition deliverMessage (e : TraceEvent) (m : messageMetric) : res messageMetric :=
  let previous := deliveries m ≫= λ ds, ds !! NodeID e in
  match previous with
  | Some d => if negb (Timestamp e <? SessionWindow.timestamp d) then Ok m
              else
                ds ← deref (deliveries m);
                Ok (mkMessage (publishedAt m) (mpublished m) (mpublisher m) (targets m)
                      (Some (<[NodeID e := newDeliveryMetric e]> ds)) (mduplicates m))
  | None =>
      ds ← deref (deliveries m);
      Ok (mkMessage (publishedAt m) (mpublished m) (mpublisher m) (targets m)
            (Some (<[NodeID e := newDeliveryMetric e]> ds)) (mduplicates m))
  end.

Definition duplicateMessage (e : TraceEvent) (m : messageMetric) : res messageMetric :=
  ds ← deref (mduplicates m);
  Ok (mkMessage (publishedAt m) (mpublished m) (mpublisher m) (targets m) (deliveries m)
        (Some (<[NodeID e := default 0 (ds !! NodeID e) + 1]> ds))).

(** The legacy branch: the message is indexed before the event's type is
    examined; a message without an identifier only counts. *)
Definition observeLegacy (e : TraceEvent) (a : runMetricAccumulator) : res runMetricAccumulator :=
  let key := (Topic e, MessageID e) in
  let identified := negb (bool_decide (MessageID e = ""%string)) in
  let message := default newMessage (messages a !! key) in
  let store (m : messageMetric) := withMessages <[key := m]> in
  let a := if identified then store message a else a in
  if bool_decide (Type_ e = "publish"%string) then
    if negb identified then Ok (withCounts 1 0 0 a)
    else if mpublished message then Ok a
    else Ok (store (publishMessage e message) (withCounts 1 0 0 a))
  else if bool_decide (Type_ e = "deliver"%string) then
    let a := withCounts 0 1 0 a in
    if negb identified || bool_decide (NodeID e = ""%string) || boolField e "localDelivery"
    then Ok a
    else m ← deliverMessage e message; Ok (store m a)
  else
    let a := withCounts 0 0 1 a in
    if negb identified || bool_decide (NodeID e = ""%string) then Ok a
    else m ← duplicateMessage e message; Ok (store m a).

(** Recording the identity of an accepted event. *)
Definition recordIdentity (e : TraceEvent) (a : runMetricAccumulator) :
    gset string * gmap sessionKey sequenceRanges :=
  if sequenced e then
    let key := (NodeID e, SessionID e) in
    (seen a, <[key := add (Sequence e) (default [] (rsequences a !! key))]> (rsequences a))
  else if bool_decide (eventIdentity e = ""%string) then (seen a, rsequences a)
  else ({[eventIdentity e]} ∪ seen a, rsequences a).

(** The part of an accepted observation before the per-message counts. *)
Definition admit_ (e : TraceEvent) (a : runMetricAccumulator) :
    option Bandwidth.bandwidthInterval * runMetricAccumulator :=
  let '(seen', sequences') := recordIdentity e a in
  let window' := SessionWindow.observe e (window a) in
  let messages' :=
    if compactWindow a && negb (SessionWindow.enabled (window a)) && SessionWindow.enabled window'
    then compactLegacyWindowIndex (messages a) else messages a in
  let '(interval, bandwidth') := Bandwidth.observe e (bandwidth a) in
  (interval,
   mkRun (compactWindow a) seen' sequences' messages' (observeGossipSubControl e (control a))
     (published a) (delivered a) (duplicates a) window' bandwidth' (u64 (revision a + 1))
     (cachedRevision a) (cachedAt a) (cachedRun a) (cachedMetrics a)).

(** [observeLocked]: whether the event is new, the bandwidth interval it
    reports, and the new state. *)
Definition observe (e : TraceEvent) (a : runMetricAccumulator) :
    res (bool * option Bandwidth.bandwidthInterval * runMetricAccumulator) :=
  if hasEventLocked e a then Ok (false, None, a)
  else
    let '(interval, a) := admit_ e a in
    if negb (bool_decide (Type_ e = "publish"%string)) &&
       negb (bool_decide (Type_ e = "deliver"%string)) &&
       negb (bool_decide (Type_ e = "duplicate"%string))
    then Ok (true, interval, a)
    else if compactWindow a && SessionWindow.enabled (window a)
    then Ok (true, interval, observeCompact e a)
    else a ← observeLegacy e a; Ok (true, interval, a).

(** ** The legacy summary *)

(** One target of a published message. *)
Definition legacyReceiver (topic : string) (m : messageMetric) (s : summary) (receiver : string) :
    summary :=
  match deliveries m ≫= λ ds, ds !! receiver with
  | None => s
  | Some d =>
      if bool_decide (receiver = mpublisher m) then s
      else
        let dups := default 0 (mduplicates m ≫= λ ds, ds !! receiver) in
        let s := count (λ t, bump SessionWindow.EligibleDuplicates dups
                               (inc SessionWindow.EligibleDeliveries t)) s in
        if latencyAvailable d then
          if negb (goodLatency (latencyMS d))
          then count (inc SessionWindow.InvalidLatencySamples) s
          else mkSummary (counts s) (latencies s ++ [latencyMS d])
                 (samples s ++ [mkSample (agentID d, topic)
                                  (F64.div (latencyMS d) (F64.of_Z 1000)) receiver])
        else s
  end.

Definition legacyMessage (st : Z * summary) (km : messageKey * messageMetric) : Z * summary :=
  let '(known, s) := st in
  let '(key, m) := km in
  match targets m with
  | Some ts =>
      if negb (mpublished m) then st
      else (known + 1,
            foldl (legacyReceiver (fst key) m)
              (count (bump SessionWindow.ExpectedDeliveries (Z.of_nat (size ts))) s)
              (elements ts))
  | None => st
  end.

Definition legacyCollect (a : runMetricAccumulator) : Z * summary :=
  foldl legacyMessage (0, mkSummary (λ _, 0) [] []) (map_to_list (messages a)).

Definition summarizeLegacy (runID : string) (a : runMetricAccumulator) :
    res (Metrics * list propagationSample) :=
  let '(known, s) := legacyCollect a in
  let c := counts s in
  let expected := 0 <? c SessionWindow.ExpectedDeliveries in
  '(mean, p95) ← latencyStats (latencies s);
  Ok (mkMetrics "dispatch-cohort-v1" runID (published a) (delivered a) (duplicates a)
        (published a - known) c false [] 0
        expected
        (if expected then ratio (c SessionWindow.EligibleDeliveries)
                            (c SessionWindow.ExpectedDeliveries) else F64.zero) F64.zero
        false F64.zero F64.zero false F64.zero F64.zero
        (c SessionWindow.EligibleDeliveries)
        (if 0 <? c SessionWindow.EligibleDeliveries
         then ratio (c SessionWindow.EligibleDuplicates) (c SessionWindow.EligibleDeliveries)
         else F64.zero)
        (Z.of_nat (length (latencies s))) mean p95,
      samples s).

(** ** Summaries *)

(** [summarizeLocked] at an explicit boundary. *)
Definition summarizeLocked (runID : string) (asOf : Time) (a : runMetricAccumulator) :
    res (RunSummary * list propagationSample) :=
  '(m, samples) ←
    (if SessionWindow.enabled (window a)
     then SessionWindow.summarize (window a) runID asOf (published a) (delivered a) (duplicates a)
     else summarizeLegacy runID a);
  Ok (mkRunSummary m (summarizeGossipSubControl a) (Bandwidth.summarize (bandwidth a)), samples).

Definition snapshotInterval : Z := Duration.Second.

(** Whether the cached summary is still served. *)
Definition cacheHit (runID : string) (now : Time) (a : runMetricAccumulator) :
    option RunSummary :=
  if negb (IsZero (cachedAt a)) && bool_decide (cachedRun a = runID) &&
     negb (now <? cachedAt a) && (cachedRevision a =? revision a) &&
     ((SubTime now (cachedAt a) <? snapshotInterval) ||
      match cachedMetrics a with
      | Some s => SessionWindow.MCounts (metrics s) SessionWindow.PendingPublications =? 0
      | None => false
      end)
  then cachedMetrics a else None.

Definition liveSummaryLocked (runID : string) (now : Time) (a : runMetricAccumulator) :
    res (RunSummary * runMetricAccumulator) :=
  match cacheHit runID now a with
  | Some s => Ok (s, a)
  | None =>
      '(s, _) ← summarizeLocked runID now a;
      Ok (s, mkRun (compactWindow a) (seen a) (rsequences a) (messages a) (control a)
               (published a) (delivered a) (duplicates a) (window a) (bandwidth a) (revision a)
               (revision a) now runID (Some s))
  end.

(** Observing a sequence of events. *)
Fixpoint observeAll (events : list TraceEvent) (a : runMetricAccumulator) :
    res runMetricAccumulator :=
  match events with
  | [] => Ok a
  | e :: events => '(_, _, a) ← observe e a; observeAll events a
  end.

(** [summarizeRunEvents]: replaying the decoded events of a log. *)
Definition summarizeRunEvents (runID : string) (events : list TraceEvent) (asOf : Time) :
    res Metrics :=
  a ← observeAll (filter (λ e, RunID e = runID) events) newRunMetricAccumulator;
  '(s, _) ← summarizeLocked runID asOf a;
  Ok (metrics s).
