(* ===== verification/RunMetricsProps.v ===== *)
(** * Correctness of the run metrics

    Every event counts exactly once however it is retried, no observation
    panics, the legacy ratio is bounded, and the cached live summary is the exact
    one (or younger than a second). *)
From Stdlib Require Import ZArith Lia.
From stdpp Require Import strings list gmap sorting pretty.
From S2P Require Import Prelude.
From S2P Require Import GoStd.
From S2P Require Import Trace.
From S2P Require Import SequenceRanges.
From S2P Require SessionWindow.
From S2P Require SessionWindowProps.
From S2P Require Bandwidth.
From S2P Require Import RunMetrics.
Import SessionWindowProps (event_ok).
Open Scope Z_scope.

(** ** Identity *)

(** What identifies an event: its place in a telemetry session, or its event
    identifier; [None] is an anonymous event. *)
Definition identityOf (e : TraceEvent) : option (string * string * Z + string) :=
  if sequenced e then Some (inl (NodeID e, SessionID e, Sequence e))
  else if bool_decide (eventIdentity e = ""%string) then None
  else Some (inr (eventIdentity e)).

(** The identity is recorded in the state. *)
Definition recorded (a : runMetricAccumulator) (i : string * string * Z + string) : Prop :=
  match i with
  | inl (n, s, q) => member q (default [] (rsequences a !! (n, s)))
  | inr id => id ∈ seen a
  end.

Definition ranges_ok (a : runMetricAccumulator) : Prop :=
  ∀ k, wf 0 (default [] (rsequences a !! k)).

Lemma sequenced_pos e : event_ok e → sequenced e = true → 1 ≤ Sequence e < 2^64.
Proof.
  unfold sequenced. intros [? ?] [_ ?%Z.ltb_lt]%andb_true_iff. lia.
Qed.

Lemma hasEvent_recorded e a :
  event_ok e → ranges_ok a →
  hasEventLocked e a = true ↔ ∃ i, identityOf e = Some i ∧ recorded a i.
Proof.
  intros He Ha. unfold hasEventLocked, identityOf.
  destruct (sequenced e) eqn:Hs.
  - apply sequenced_pos in Hs; [|done].
    rewrite negb_true_iff, Z.eqb_neq.
    pose proof (through_member (default [] (rsequences a !! (NodeID e, SessionID e)))
      (Sequence e) (Ha _) ltac:(lia)) as Hm.
    split.
    + intros Hne. eexists. split; [reflexivity|]. cbn. by apply Hm.
    + intros (i & [= <-] & Hr). cbn in Hr. by apply Hm.
  - case_bool_decide as Hid; cbn [negb andb].
    + split; [done|]. by intros (i & ? & _).
    + rewrite bool_decide_eq_true. split.
      * intros Hin. by eexists.
      * by intros (i & [= <-] & Hr).
Qed.

Lemma recordIdentity_spec e a seen' sequences' :
  event_ok e → ranges_ok a → recordIdentity e a = (seen', sequences') →
  (∀ k, wf 0 (default [] (sequences' !! k))) ∧
  ∀ i, (match i with
        | inl (n, s, q) => member q (default [] (sequences' !! (n, s)))
        | inr id => id ∈ seen' end) ↔ recorded a i ∨ identityOf e = Some i.
Proof.
  intros He Ha. unfold recordIdentity, identityOf. destruct (sequenced e) eqn:Hs.
  - apply sequenced_pos in Hs; [|done]. intros [= <- <-].
    destruct (add_spec (default [] (rsequences a !! (NodeID e, SessionID e))) (Sequence e)
      (Ha _) Hs) as [Hwf Hmem].
    split.
    + intros k. destruct (decide (k = (NodeID e, SessionID e))) as [->|Hne].
      * by rewrite lookup_insert_eq.
      * rewrite lookup_insert_ne by done. apply Ha.
    + intros [[[n s] q]|id]; cbn [recorded]; [|naive_solver].
      destruct (decide ((n, s) = (NodeID e, SessionID e))) as [Heq|Hne].
      * rewrite Heq, lookup_insert_eq. cbn [from_option]. unfold id.
        rewrite Hmem. naive_solver.
      * rewrite lookup_insert_ne by done. naive_solver.
  - case_bool_decide as Hid; intros [= <- <-]; (split; [exact Ha|]);
      intros [[[n s] q]|id]; cbn [recorded]; naive_solver set_solver.
Qed.

(** ** No panic *)

(** Indexed messages have their maps unless the live index was compacted. *)
Definition maps_ok (a : runMetricAccumulator) : Prop :=
  (compactWindow a && SessionWindow.enabled (window a) = false) →
  map_Forall (λ _ m, is_Some (deliveries m) ∧ is_Some (mduplicates m)) (messages a).

Definition run_ok (a : runMetricAccumulator) : Prop := ranges_ok a ∧ maps_ok a.

(** What the per-message branches leave alone. *)
Definition core (a : runMetricAccumulator) :=
  (compactWindow a, seen a, rsequences a, window a, bandwidth a, revision a,
   (cachedRevision a, cachedAt a, cachedRun a, cachedMetrics a)).

Lemma window_enabled_mono e w :
  SessionWindow.enabled w = true → SessionWindow.enabled (SessionWindow.observe e w) = true.
Proof.
  intros Hw. unfold SessionWindow.observe. case_bool_decide; [by destruct (_ && _)|].
  destruct (if _ && _ then _ else _) as [s i]. cbn. by rewrite Hw.
Qed.

Lemma observeCompact_core e a : core (observeCompact e a) = core a.
Proof.
  unfold observeCompact. repeat case_bool_decide; try done.
  by destruct (messages a !! _).
Qed.

Lemma deliverMessage_ok e m :
  is_Some (deliveries m) ∧ is_Some (mduplicates m) →
  ∃ m', deliverMessage e m = Ok m' ∧ is_Some (deliveries m') ∧ is_Some (mduplicates m').
Proof.
  intros [[ds Hd] Hu]. unfold deliverMessage. rewrite Hd. cbn.
  destruct (ds !! NodeID e) as [d|]; [destruct (negb _)|]; eexists; (split; [reflexivity|]);
    cbn; rewrite ?Hd; eauto.
Qed.

Lemma observeLegacy_ok e a :
  map_Forall (λ _ m, is_Some (deliveries m) ∧ is_Some (mduplicates m)) (messages a) →
  ∃ a', observeLegacy e a = Ok a' ∧ core a' = core a ∧
    map_Forall (λ _ m, is_Some (deliveries m) ∧ is_Some (mduplicates m)) (messages a').
Proof.
  intros Hm. set (key := (Topic e, MessageID e)).
  assert (is_Some (deliveries (default newMessage (messages a !! key))) ∧
    is_Some (mduplicates (default newMessage (messages a !! key)))) as Hmsg.
  { destruct (messages a !! key) as [m|] eqn:Hk; [by apply (Hm key)|]. split; by eexists. }
  assert (∀ m b, is_Some (deliveries m) ∧ is_Some (mduplicates m) →
    core b = core a → map_Forall (λ _ m, is_Some (deliveries m) ∧ is_Some (mduplicates m))
      (messages b) →
    core (withMessages <[key := m]> b) = core a ∧
    map_Forall (λ _ m, is_Some (deliveries m) ∧ is_Some (mduplicates m))
      (messages (withMessages <[key := m]> b))) as Hst.
  { intros m b Hmm Hb Hmb. split; [exact Hb|]. cbn. by apply map_Forall_insert_2. }
  unfold observeLegacy. fold key. set (msg := default newMessage _) in *.
  set (ident := negb (bool_decide (MessageID e = ""%string))).
  set (a1 := if ident then withMessages <[key:=msg]> a else a).
  assert (core a1 = core a ∧ map_Forall (λ _ m, is_Some (deliveries m) ∧ is_Some (mduplicates m))
    (messages a1)) as [Hc1 Hm1] by (unfold a1; destruct ident; auto).
  assert (∀ p d u, core (withCounts p d u a1) = core a ∧
    map_Forall (λ _ m, is_Some (deliveries m) ∧ is_Some (mduplicates m))
      (messages (withCounts p d u a1))) as Hcnt by done.
  case_bool_decide; [|case_bool_decide].
  - destruct (negb ident); [eauto|]. destruct (mpublished msg); [eauto|].
    eexists. split; [reflexivity|]. apply Hst; [done|apply Hcnt..].
  - destruct (negb ident || _ || _); [eauto|].
    destruct (deliverMessage_ok e msg Hmsg) as (m' & -> & Hm'). eexists. split; [reflexivity|].
    apply Hst; [done|apply Hcnt..].
  - destruct (negb ident || _); [eauto|]. destruct Hmsg as [Hmd [ds Hds]].
    unfold duplicateMessage. rewrite Hds. eexists. split; [reflexivity|].
    apply Hst; [cbn; eauto|apply Hcnt..].
Qed.

(** ** One observation *)
Record observed (e : TraceEvent) (a : runMetricAccumulator) (b : bool)
    (i : option Bandwidth.bandwidthInterval) (a' : runMetricAccumulator) : Prop := {
  obs_ok : run_ok a';
  obs_new : b = negb (hasEventLocked e a);
  obs_old : b = false → i = None ∧ a' = a;
  obs_recorded : ∀ id, recorded a' id ↔ recorded a id ∨ identityOf e = Some id;
  obs_mode : compactWindow a' = compactWindow a;
  obs_revision : revision a' = if b then u64 (revision a + 1) else revision a;
  obs_cache : (cachedRevision a', cachedAt a', cachedRun a', cachedMetrics a') =
              (cachedRevision a, cachedAt a, cachedRun a, cachedMetrics a) }.

Lemma admit_spec e a i a1 :
  event_ok e → run_ok a → admit_ e a = (i, a1) →
  run_ok a1 ∧ (∀ id, recorded a1 id ↔ recorded a id ∨ identityOf e = Some id) ∧
  compactWindow a1 = compactWindow a ∧ revision a1 = u64 (revision a + 1) ∧
  (cachedRevision a1, cachedAt a1, cachedRun a1, cachedMetrics a1) =
  (cachedRevision a, cachedAt a, cachedRun a, cachedMetrics a).
Proof.
  intros He [Hr Hm]. unfold admit_. destruct (recordIdentity e a) as [sn sq] eqn:Hid.
  destruct (recordIdentity_spec e a sn sq He Hr Hid) as [Hwf Hrec].
  destruct (Bandwidth.observe e (bandwidth a)) as [iv bw].
  intros [= <- <-]. cbn. split_and!; try done. split; [exact Hwf|].
  intros Hc. cbn [compactWindow window messages] in Hc |- *.
  destruct (compactWindow a) eqn:Hcw; cbn [andb] in Hc |- *; [|by apply Hm; rewrite Hcw].
  rewrite Hc, andb_false_r. apply Hm. rewrite Hcw. cbn [andb].
  destruct (SessionWindow.enabled (window a)) eqn:Hw; [|done].
  by rewrite window_enabled_mono in Hc.
Qed.

Lemma observe_spec e a :
  event_ok e → run_ok a → ∃ b i a', observe e a = Ok (b, i, a') ∧ observed e a b i a'.
Proof.
  intros He Ha. unfold observe. destruct (hasEventLocked e a) eqn:Hh.
  { exists false, None, a. split; [done|]. split; try done; [by rewrite Hh|].
    intros id. split; [by left|]. intros [?|Hid]; [done|].
    apply hasEvent_recorded in Hh as (id' & Hid' & Hr); [|done|apply Ha].
    rewrite Hid' in Hid. by injection Hid as <-. }
  destruct (admit_ e a) as [iv a1] eqn:Had.
  destruct (admit_spec e a iv a1 He Ha Had) as (Hok & Hrec & Hmode & Hrev & Hcache).
  assert (∀ a2, core a2 = core a1 → maps_ok a2 → observed e a true iv a2) as Hfin.
  { intros a2 Hcore Hmaps. unfold core in Hcore. injection Hcore as E1 E2 E3 E4 E5 E6 E7 E8 E9 E10.
    split.
    - split; [|done]. intros k. rewrite E3. apply Hok.
    - by rewrite Hh.
    - done.
    - intros id. rewrite <- Hrec. destruct id as [[[? ?] ?]|?]; cbn; by rewrite ?E2, ?E3.
    - congruence.
    - congruence.
    - congruence. }
  destruct (negb _ && negb _ && negb _).
  { exists true, iv, a1. split; [done|]. apply Hfin; [done|apply Hok]. }
  destruct (compactWindow a1 && SessionWindow.enabled (window a1)) eqn:Hc.
  { exists true, iv, (observeCompact e a1). split; [done|].
    pose proof (observeCompact_core e a1) as Hcore. apply Hfin; [done|].
    intros Hc'. unfold core in Hcore. injection Hcore as E1 _ _ E4 _ _ _ _ _ _. congruence. }
  destruct (observeLegacy_ok e a1) as (a2 & -> & Hcore & Hm2); [by apply Hok|].
  exists true, iv, a2. split; [done|]. apply Hfin; [done|]. intros _. done.
Qed.

(** ** Exactly once *)

(** The first event of each identity, given the identities already seen. *)
Fixpoint firsts (done : list (string * string * Z + string)) (events : list TraceEvent) :
    list TraceEvent :=
  match events with
  | [] => []
  | e :: events =>
      match identityOf e with
      | Some i => if decide (i ∈ done) then firsts done events
                  else e :: firsts (i :: done) events
      | None => e :: firsts done events
      end
  end.

Lemma observeAll_firsts events done a :
  Forall event_ok events → run_ok a → (∀ i, recorded a i ↔ i ∈ done) →
  observeAll events a = observeAll (firsts done events) a.
Proof.
  revert done a. induction events as [|e events IH]; intros done a Hev Ha Hd; [reflexivity|].
  apply list.Forall_cons in Hev as [He Hev]. cbn [firsts].
  destruct (observe_spec e a He Ha) as (b & i & a' & Hobs & [Hok Hb Hold Hrec _ _ _]).
  pose proof (hasEvent_recorded e a He (proj1 Ha)) as Hhas.
  destruct (identityOf e) as [id|] eqn:Hid.
  - case_decide as Hin.
    + assert (hasEventLocked e a = true) as Hh by (apply Hhas; exists id; by rewrite Hd).
      rewrite Hh in Hb. destruct (Hold Hb) as [_ ->].
      cbn [observeAll]. rewrite Hobs. cbn [mbind res_bind]. by apply IH.
    + cbn [observeAll]. rewrite Hobs. cbn [mbind res_bind].
      apply IH; [done|done|]. intros i'. rewrite Hrec, Hd, elem_of_cons. naive_solver.
  - cbn [observeAll]. rewrite Hobs. cbn [mbind res_bind]. apply IH; [done|done|].
    intros i'. rewrite Hrec, Hd. naive_solver.
Qed.

Lemma observeAll_ok events a :
  Forall event_ok events → run_ok a →
  ∃ a', observeAll events a = Ok a' ∧ run_ok a' ∧
    ∀ i, recorded a' i ↔ recorded a i ∨ ∃ e, e ∈ events ∧ identityOf e = Some i.
Proof.
  revert a. induction events as [|e events IH]; intros a Hev Ha; cbn [observeAll].
  { exists a. split_and!; [done|done|]. set_solver. }
  apply list.Forall_cons in Hev as [He Hev].
  destruct (observe_spec e a He Ha) as (b & i & a1 & -> & [Hok _ _ Hrec _ _ _]).
  cbn [mbind res_bind]. destruct (IH a1 Hev Hok) as (a' & -> & Hok' & Hrec').
  exists a'. split_and!; [done|done|]. intros id. rewrite Hrec', Hrec. set_solver.
Qed.

Lemma new_ok : run_ok newRunMetricAccumulator ∧ run_ok newLiveRunMetricAccumulator.
Proof. by repeat split. Qed.

Lemma new_recorded a i :
  a = newRunMetricAccumulator ∨ a = newLiveRunMetricAccumulator → recorded a i ↔ i ∈ [].
Proof.
  intros [->| ->]; destruct i as [[[n s] q]|id]; cbn; rewrite ?lookup_empty; cbn;
    (split; [|by intros ?%elem_of_nil]); try set_solver; by intros ?%member_nil.
Qed.

(** C23: telemetry counts exactly once.  For every sequence of events (retried
    batches and duplicates included), in a live or an offline accumulator: no
    observation panics, the state is the one the first event of each identity
    leaves, and observing any identified event of the sequence again reports it
    as old and changes nothing. *)
Theorem observe_exactly_once events a :
  Forall event_ok events →
  a = newRunMetricAccumulator ∨ a = newLiveRunMetricAccumulator →
  observeAll events a = observeAll (firsts [] events) a ∧
  ∃ a', observeAll events a = Ok a' ∧
    ∀ e, e ∈ events → identityOf e ≠ None → observe e a' = Ok (false, None, a').
Proof.
  intros Hev Ha.
  assert (run_ok a) as Hok by (destruct Ha as [->| ->]; apply new_ok).
  split; [apply observeAll_firsts; [done|done|]; intros i; by apply new_recorded|].
  destruct (observeAll_ok events a Hev Hok) as (a' & -> & Hok' & Hrec).
  exists a'. split; [done|]. intros e Hin Hid.
  rewrite list.Forall_forall in Hev. specialize (Hev e Hin).
  destruct (observe_spec e a' Hev Hok') as (b & i & a2 & Hobs & [_ Hb Hold _ _ _ _]).
  assert (hasEventLocked e a' = true) as Hh.
  { apply hasEvent_recorded; [done|apply Hok'|]. destruct (identityOf e) as [id|] eqn:Hi; [|done].
    exists id. split; [done|]. apply Hrec. right. by exists e. }
  rewrite Hh in Hb. destruct (Hold Hb) as [-> ->]. by rewrite Hobs, Hb.
Qed.

(** ** A settled summary *)
Lemma list_filter_ext_in {A} (P Q : A → Prop) `{∀ x, Decision (P x), ∀ x, Decision (Q x)} (l : list A) :
  (∀ x, x ∈ l → P x ↔ Q x) → filter P l = filter Q l.
Proof.
  induction l as [|x l IH]; intros H1; [done|]. rewrite !filter_cons.
  rewrite (decide_ext (P x) (Q x)) by (apply H1; set_solver).
  rewrite IH by (intros; apply H1; set_solver). done.
Qed.

Section settled.
Import SessionWindow.

Lemma pair_pending w p s ks :
  counts (pair w p s ks) PendingPublications = counts s PendingPublications.
Proof.
  destruct ks as [k ev]. unfold pair. case_bool_decide; [done|].
  destruct (aliveThrough ev <? pat p); [done|].
  set (r := inspectWindowReceipts _ _ _). set (dep := match end_ ev with Some _ => _ | None => _ end).
  clearbody r dep.
  destruct (ontime r) as [d|].
  - destruct dep; [done|]. cbn [negb andb]. destruct (negb _); [done|].
    destruct (latencyAvailable (value d) && _); [done|].
    by destruct (latencyAvailable (value d)).
  - destruct (rinvalid r || _ || _); (destruct dep; [done|]; cbn [negb andb];
      destruct (negb _); [done|]; destruct (rinvalid r || _), (late r), (rinvalid r); done).
Qed.

Lemma pairs_pending w p s l :
  counts (foldl (pair w p) s l) PendingPublications = counts s PendingPublications.
Proof.
  revert s. induction l as [|ks l IH]; intros s; [done|]. cbn [foldl]. by rewrite IH, pair_pending.
Qed.

Lemma sweep_pending w pubs starts ends active s :
  counts (sweep w pubs starts ends active s) PendingPublications = counts s PendingPublications.
Proof.
  revert starts ends active s. induction pubs as [|p pubs IH]; intros starts ends active s;
    cbn [sweep]; [done|].
  destruct (activate _ _ _) as [? ?]. destruct (retire _ _ _) as [? ?]. by rewrite IH, pairs_pending.
Qed.

Lemma collect_pending w asOf :
  counts (collect w asOf) PendingPublications = publicationCounts w asOf PendingPublications.
Proof.
  unfold collect. generalize (indexedTopics w) as l. intros l.
  change (publicationCounts w asOf PendingPublications) with
    (counts (mkSummary (publicationCounts w asOf) [] []) PendingPublications).
  generalize (mkSummary (publicationCounts w asOf) [] []).
  induction l as [|t l IH]; intros s; [done|]. cbn [foldl]. rewrite IH. apply sweep_pending.
Qed.

(** The valid remote publications that are not final yet. *)
Definition pendingPublications (w : sessionWindowAccumulator) (asOf : Time) :=
  filter (λ p, asOf < deadline p)
    (filter (λ p, local p = false ∧ valid p = true) (snd <$> map_to_list (publications w))).

Lemma publicationCounts_pending w asOf :
  publicationCounts w asOf PendingPublications = Z.of_nat (length (pendingPublications w asOf)).
Proof. reflexivity. Qed.

Lemma no_pending w asOf p :
  publicationCounts w asOf PendingPublications = 0 →
  p ∈ (snd <$> map_to_list (publications w)) → local p = false → valid p = true →
  deadline p ≤ asOf.
Proof.
  rewrite publicationCounts_pending. intros H0 Hin Hl Hv.
  apply Z.nlt_ge. intros Hlt.
  assert (p ∈ pendingPublications w asOf) as Hp.
  { unfold pendingPublications. by rewrite !list_elem_of_filter. }
  destruct (pendingPublications w asOf); [by apply elem_of_nil in Hp|]. cbn [length] in H0. lia.
Qed.

Lemma collect_settled w asOf now :
  asOf ≤ now → publicationCounts w asOf PendingPublications = 0 → collect w now = collect w asOf.
Proof.
  intros Hle H0.
  assert (∀ p, p ∈ (snd <$> map_to_list (publications w)) → local p = false → valid p = true →
    deadline p ≤ asOf) as Hd by (intros p; by apply no_pending).
  assert (publicationCounts w now = publicationCounts w asOf) as Hc.
  { unfold publicationCounts. fold (pendingPublications w now). fold (pendingPublications w asOf).
    assert (∀ t, asOf ≤ t → pendingPublications w t = []) as Hn.
    { intros t Ht. destruct (pendingPublications w t) as [|p l] eqn:Hp; [done|exfalso].
      assert (p ∈ pendingPublications w t) as Hin by (rewrite Hp; set_solver).
      unfold pendingPublications in Hin. rewrite !list_elem_of_filter in Hin.
      destruct Hin as (? & (Hl & Hv) & Hin). specialize (Hd p Hin Hl Hv). lia. }
    by rewrite !Hn. }
  assert (∀ topic, indexFor w now topic = indexFor w asOf topic) as Hi.
  { intros topic. unfold indexFor. f_equal. unfold finalized.
    apply list_filter_ext_in. intros p Hin. specialize (Hd p Hin). naive_solver lia. }
  unfold collect. rewrite Hc. generalize (mkSummary (publicationCounts w asOf) [] []).
  induction (indexedTopics w) as [|t l IH]; intros s; [done|]. cbn [foldl]. by rewrite Hi, IH.
Qed.

Lemma summarize_settled w runID asOf now p d u m samples :
  asOf ≤ now → summarize w runID asOf p d u = Ok (m, samples) → MCounts m PendingPublications = 0 →
  summarize w runID now p d u = Ok (m, samples).
Proof.
  intros Hle Hs H0. unfold summarize in Hs |- *.
  assert (MCounts m = counts (collect w asOf)) as Hm.
  { destruct (latencyStats _) as [[mean p95]| |]; cbn [mbind res_bind] in Hs; [|done..].
    by injection Hs as <- _. }
  rewrite Hm, collect_pending in H0. by rewrite (collect_settled w asOf now).
Qed.
End settled.

(** ** The cached live summary *)
Lemma summarizeLocked_settled runID asOf now a s samples :
  asOf ≤ now → summarizeLocked runID asOf a = Ok (s, samples) →
  SessionWindow.MCounts (metrics s) SessionWindow.PendingPublications = 0 →
  summarizeLocked runID now a = Ok (s, samples).
Proof.
  intros Hle. unfold summarizeLocked. destruct (SessionWindow.enabled (window a)); [|done].
  destruct (SessionWindow.summarize _ _ asOf _ _ _) as [[m sm]| |] eqn:Hs;
    cbn [mbind res_bind]; [|done..].
  intros [= <- <-] H0. cbn in H0. by rewrite (summarize_settled _ _ _ _ _ _ _ _ _ Hle Hs H0).
Qed.

(** The operations of the live accumulator. *)
Inductive liveOp :=
  | Observe (e : TraceEvent)
  | Summarize (runID : string) (now : Time).

Definition liveStep (o : liveOp) (a : runMetricAccumulator) : res runMetricAccumulator :=
  match o with
  | Observe e => '(_, _, a) ← observe e a; Ok a
  | Summarize runID now => '(_, a) ← liveSummaryLocked runID now a; Ok a
  end.

Fixpoint liveRun (ops : list liveOp) (a : runMetricAccumulator) : res runMetricAccumulator :=
  match ops with
  | [] => Ok a
  | o :: ops => a ← liveStep o a; liveRun ops a
  end.

Definition op_ok (o : liveOp) : Prop :=
  match o with Observe e => event_ok e | Summarize _ _ => True end.

(** After [n] operations. *)
Record cache_ok (n : Z) (a : runMetricAccumulator) : Prop := {
  ca_run : run_ok a;
  ca_revision : 0 ≤ cachedRevision a ≤ revision a ∧ revision a ≤ n;
  ca_exact : cachedAt a ≠ 0 → cachedRevision a = revision a →
    ∃ s samples, cachedMetrics a = Some s ∧
      summarizeLocked (cachedRun a) (cachedAt a) a = Ok (s, samples) }.

Lemma cacheHit_spec runID now a s :
  cacheHit runID now a = Some s →
  cachedAt a ≠ 0 ∧ cachedRun a = runID ∧ cachedAt a ≤ now ∧ cachedRevision a = revision a ∧
  cachedMetrics a = Some s ∧
  (now - cachedAt a < snapshotInterval ∨
   SessionWindow.MCounts (metrics s) SessionWindow.PendingPublications = 0).
Proof.
  unfold cacheHit. destruct (_ && _) eqn:Hc; [|done]. intros Hs.
  rewrite !andb_true_iff, !negb_true_iff, orb_true_iff, bool_decide_eq_true, Z.eqb_eq, Z.ltb_ge
    in Hc. destruct Hc as ((((?%Z.eqb_neq & ?) & ?) & ?) & Hor). rewrite Hs in Hor.
  split_and!; try done. destruct Hor as [Ht%Z.ltb_lt|Hp%Z.eqb_eq]; [left|by right].
  unfold SubTime in Ht. unfold snapshotInterval, Duration.Second, MaxInt64 in *. lia.
Qed.

Lemma liveStep_ok n o a a' :
  0 ≤ n < 2^64 - 1 → op_ok o → cache_ok n a → liveStep o a = Ok a' → cache_ok (n + 1) a'.
Proof.
  intros Hn Ho [Hrun Hrev Hex]. destruct o as [e|runID now]; cbn [liveStep].
  - destruct (observe_spec e a Ho Hrun) as (b & i & a2 & -> & [Hok _ Hold _ _ Hr Hc]).
    cbn [mbind res_bind]. intros [= <-]. destruct b.
    + rewrite u64_id in Hr by lia. injection Hc as Hc1 _ _ _. split; [done|lia|]. intros _ Heq. lia.
    + destruct (Hold eq_refl) as [_ ->]. split; [done|lia|done].
  - unfold liveSummaryLocked. destruct (cacheHit runID now a) as [s|].
    { intros [= <-]. split; [done|lia|done]. }
    destruct (summarizeLocked runID now a) as [[s sm]| |] eqn:Hs; cbn [mbind res_bind]; [|done..].
    intros [= <-]. split; [exact Hrun|cbn; lia|]. intros _ _. exists s, sm. split; [done|exact Hs].
Qed.

Lemma liveRun_ok n ops a a' :
  0 ≤ n → n + Z.of_nat (length ops) < 2^64 → Forall op_ok ops → cache_ok n a →
  liveRun ops a = Ok a' → cache_ok (n + Z.of_nat (length ops)) a'.
Proof.
  revert n a. induction ops as [|o ops IH]; intros n a Hn Hlen Hops Ha Hrun; cbn [liveRun] in Hrun.
  { injection Hrun as <-. cbn. by rewrite Z.add_0_r. }
  cbn [length] in *. apply list.Forall_cons in Hops as [Ho Hops].
  destruct (liveStep o a) as [a1| |] eqn:Hst; cbn [mbind res_bind] in Hrun; [|done..].
  apply (liveStep_ok n) in Hst; [|lia|done|done].
  replace (n + Z.of_nat (S (length ops))) with (n + 1 + Z.of_nat (length ops)) by lia.
  by apply (IH _ a1); [lia|lia|..].
Qed.

(** The cached live summary is the exact one.  After any interleaving of
    fewer than 2^64 observations and live summaries (of any runs, with the clock
    going anywhere), a live summary equals the uncached whole-run reconstruction
    of the same state at some instant less than a second before [now]; and
    whenever the served summary has no pending publication, it equals the
    reconstruction at [now] itself, however old the cache is. *)
Theorem liveSummary_exact ops a runID now s a' :
  Forall op_ok ops → Z.of_nat (length ops) < 2^64 →
  liveRun ops newLiveRunMetricAccumulator = Ok a →
  liveSummaryLocked runID now a = Ok (s, a') →
  ∃ t samples, t ≤ now ∧ summarizeLocked runID t a = Ok (s, samples) ∧
    (now - t < snapshotInterval ∨ summarizeLocked runID now a = Ok (s, samples)) ∧
    (SessionWindow.MCounts (metrics s) SessionWindow.PendingPublications = 0 →
     summarizeLocked runID now a = Ok (s, samples)).
Proof.
  intros Hops Hlen Hrun Hlive.
  apply (liveRun_ok 0) in Hrun as [_ _ Hex];
    [|lia|lia|done|by split; [apply new_ok|cbn; lia|]].
  unfold liveSummaryLocked in Hlive. destruct (cacheHit runID now a) as [s0|] eqn:Hc.
  - injection Hlive as -> <-. apply cacheHit_spec in Hc as (H1 & <- & Hle & Hr & Hs & Hor).
    destruct (Hex H1 Hr) as (s1 & samples & Hs1 & Hsum). rewrite Hs in Hs1. injection Hs1 as <-.
    pose proof (summarizeLocked_settled _ _ _ _ _ _ Hle Hsum) as Hset.
    exists (cachedAt a), samples. split_and!; try done. destruct Hor; auto.
  - destruct (summarizeLocked runID now a) as [[s0 sm]| |] eqn:Hs; cbn [mbind res_bind] in Hlive;
      [|done..].
    injection Hlive as -> <-. exists now, sm. split_and!; [lia|done|by right|done].
Qed.

(** ** A small run *)
Module RunMetricsExamples.
Definition events : list TraceEvent :=
  SessionWindowProps.SessionWindowExamples.events ++ SessionWindowProps.SessionWindowExamples.events.

Lemma runEvents_ok : Forall event_ok events.
Proof.
  apply list.Forall_app_2; apply SessionWindowProps.SessionWindowExamples.windowEvents_ok.
Qed.

Definition now : Time := SessionWindowProps.SessionWindowExamples.second 100.
Definition ops : list liveOp :=
  (Observe <$> events) ++ [Summarize "run" now; Summarize "run" (now + 5)].
Lemma ops_ok : Forall op_ok ops.
Proof.
  apply list.Forall_app_2; [|by repeat constructor].
  apply list.Forall_fmap. exact runEvents_ok.
Qed.

Lemma ops_short : Z.of_nat (length ops) < 2^64.
Proof. vm_compute. reflexivity. Qed.

(** The value of a call that succeeds. *)
Definition ok_or {A} (d : A) (r : res A) : A := match r with Ok a => a | _ => d end.
Lemma ok_or_eq {A} (d : A) r : is_ok r = true → r = Ok (ok_or d r).
Proof. by destruct r. Qed.

Definition state : runMetricAccumulator :=
  ok_or newLiveRunMetricAccumulator (liveRun ops newLiveRunMetricAccumulator).
Lemma state_ok : is_ok (liveRun ops newLiveRunMetricAccumulator) = true.
Proof. vm_compute. reflexivity. Qed.
Lemma state_eq : liveRun ops newLiveRunMetricAccumulator = Ok state.
Proof. exact (ok_or_eq _ _ state_ok). Qed.

(** The retried half changed nothing. *)
Example counted : (published state, delivered state, revision state) = (2, 1, 5).
Proof. vm_compute. reflexivity. Qed.

Definition emptySummary : RunSummary :=
  mkRunSummary (SessionWindow.mkMetrics "" "" 0 0 0 0 (λ _, 0) false [] 0 false F64.zero F64.zero false
    F64.zero F64.zero false F64.zero F64.zero 0 F64.zero 0 F64.zero F64.zero) [] None.
Definition later : Time := now + 10 * Duration.Second.
Definition live : RunSummary * runMetricAccumulator :=
  ok_or (emptySummary, state) (liveSummaryLocked "run" later state).
Lemma live_ok : is_ok (liveSummaryLocked "run" later state) = true.
Proof. vm_compute. reflexivity. Qed.
Lemma live_eq : liveSummaryLocked "run" later state = Ok (fst live, snd live).
Proof. rewrite <- surjective_pairing. exact (ok_or_eq _ _ live_ok). Qed.

(** Nothing is pending, so the cached summary is served unchanged. *)
Example live_pending :
  SessionWindow.MCounts (metrics (fst live)) SessionWindow.PendingPublications = 0.
Proof. vm_compute. reflexivity. Qed.
End RunMetricsExamples.

Lemma observe_exactly_once_witness :
  observeAll RunMetricsExamples.events newRunMetricAccumulator =
  observeAll (firsts [] RunMetricsExamples.events) newRunMetricAccumulator.
Proof.
  exact (proj1 (observe_exactly_once RunMetricsExamples.events newRunMetricAccumulator
    RunMetricsExamples.runEvents_ok (or_introl eq_refl))).
Defined.

Lemma liveSummary_exact_witness :
  ∃ t samples, t ≤ RunMetricsExamples.later ∧
    summarizeLocked "run" t RunMetricsExamples.state = Ok (fst RunMetricsExamples.live, samples) ∧
    (RunMetricsExamples.later - t < snapshotInterval ∨
     summarizeLocked "run" RunMetricsExamples.later RunMetricsExamples.state
       = Ok (fst RunMetricsExamples.live, samples)) ∧
    (SessionWindow.MCounts (metrics (fst RunMetricsExamples.live))
       SessionWindow.PendingPublications = 0 →
     summarizeLocked "run" RunMetricsExamples.later RunMetricsExamples.state
       = Ok (fst RunMetricsExamples.live, samples)).
Proof.
  exact (liveSummary_exact RunMetricsExamples.ops RunMetricsExamples.state "run"
    RunMetricsExamples.later (fst RunMetricsExamples.live) (snd RunMetricsExamples.live)
    RunMetricsExamples.ops_ok RunMetricsExamples.ops_short
    RunMetricsExamples.state_eq RunMetricsExamples.live_eq).
Defined.
