(* ===== verification/Bytes.v ===== *)
(** * Bytes

    Byte strings as lists of integers, [encoding/binary]'s big-endian integers,
    [hash/crc32]'s IEEE checksum and the string functions of [strings] and
    [strconv] the storage code uses. *)
From Stdlib Require Import ZArith Lia Ascii.
From stdpp Require Import strings list pretty.
From S2P Require Import Prelude.
From S2P Require Import GoStd.
Open Scope Z_scope.

Abbreviation bytes := (list Z).
Abbreviation blen l := (Z.of_nat (length l)).

Definition byteOf (c : ascii) : Z := Z.of_N (N_of_ascii c).
Fixpoint bytesOf (s : string) : bytes :=
  match s with
  | EmptyString => []
  | String c s => byteOf c :: bytesOf s
  end.

Definition newline : Z := 10.

(** ** Big-endian integers *)

(** [binary.BigEndian.PutUint32] and [PutUint64]: the [n] low bytes of [v]. *)
Fixpoint putBE (n : nat) (v : Z) : bytes :=
  match n with
  | O => []
  | S n => Z.land (Z.shiftr v (8 * Z.of_nat n)) 255 :: putBE n v
  end.

(** [Uint32] and [Uint64]: disjoint bits, so [|] is addition. *)
Definition getBE (l : bytes) : Z := foldl (λ acc b, Z.shiftl acc 8 + b) 0 l.

Lemma length_putBE n v : length (putBE n v) = n.
Proof. induction n as [|n IH]; cbn; congruence. Qed.

Lemma getBE_putBE_from n v acc :
  0 ≤ v → foldl (λ acc b, Z.shiftl acc 8 + b) acc (putBE n v)
          = acc * 2 ^ (8 * Z.of_nat n) + v mod 2 ^ (8 * Z.of_nat n).
Proof.
  intros Hv. revert acc. induction n as [|n IH]; intros acc.
  { cbn [putBE foldl]. change (8 * Z.of_nat 0) with 0. rewrite Z.pow_0_r, Z.mod_1_r. lia. }
  cbn [putBE foldl]. rewrite IH.
  change 255 with (Z.ones 8). rewrite Z.land_ones by lia.
  rewrite Z.shiftl_mul_pow2, Z.shiftr_div_pow2 by lia.
  replace (8 * Z.of_nat (S n)) with (8 * Z.of_nat n + 8) by lia.
  rewrite !Z.pow_add_r by lia. set (p := 2 ^ (8 * Z.of_nat n)).
  assert (0 < p) by (apply Z.pow_pos_nonneg; lia).
  rewrite (Z.rem_mul_r v p (2 ^ 8)) by lia. nia.
Qed.

Lemma getBE_putBE n v : 0 ≤ v < 2 ^ (8 * Z.of_nat n) → getBE (putBE n v) = v.
Proof.
  intros Hv. unfold getBE. rewrite getBE_putBE_from by lia. rewrite Z.mod_small; lia.
Qed.

(** ** CRC-32 (IEEE, reflected) *)
Definition crcStep (c : Z) : Z :=
  if Z.odd c then Z.lxor (Z.shiftr c 1) 0xEDB88320 else Z.shiftr c 1.
Definition crcByte (c b : Z) : Z := Nat.iter 8 crcStep (Z.lxor c b).
Definition ChecksumIEEE (l : bytes) : Z :=
  Z.lxor (foldl crcByte 0xFFFFFFFF l) 0xFFFFFFFF.

Example crc_check : ChecksumIEEE (bytesOf "123456789") = 0xCBF43926.
Proof. vm_compute. reflexivity. Qed.

Lemma lxor_range n a b : 0 ≤ n → 0 ≤ a < 2^n → 0 ≤ b < 2^n → 0 ≤ Z.lxor a b < 2^n.
Proof.
  intros Hn [Ha Ha'] [Hb Hb']. split; [by apply Z.lxor_nonneg|].
  assert (0 ≤ Z.lxor a b) as H0 by by apply Z.lxor_nonneg.
  destruct (Z.eq_dec (Z.lxor a b) 0) as [->|Hne]; [by apply Z.pow_pos_nonneg|].
  apply Z.log2_lt_pow2; [lia|]. pose proof (Z.log2_lxor a b Ha Hb).
  assert (∀ x, 0 ≤ x < 2^n → x ≠ 0 → Z.log2 x < n) as Hlog
    by (intros x Hx Hx0; apply Z.log2_lt_pow2; lia).
  destruct (Z.eq_dec a 0) as [->|]; [destruct (Z.eq_dec b 0) as [->|]; [done|]|].
  - specialize (Hlog b). rewrite Z.lxor_0_l in *. lia.
  - pose proof (Hlog a). destruct (Z.eq_dec b 0) as [->|]; [rewrite Z.lxor_0_r in *; lia|].
    pose proof (Hlog b). lia.
Qed.

Lemma crcStep_range c : 0 ≤ c < 2^32 → 0 ≤ crcStep c < 2^32.
Proof.
  intros Hc. unfold crcStep. rewrite Z.shiftr_div_pow2 by lia. change (2^1) with 2.
  pose proof (Z.div_mod c 2). pose proof (Z.mod_pos_bound c 2).
  destruct (Z.odd c); [apply lxor_range|]; lia.
Qed.

Lemma ChecksumIEEE_range l :
  Forall (λ b, 0 ≤ b < 256) l → 0 ≤ ChecksumIEEE l < 2^32.
Proof.
  intros Hl. unfold ChecksumIEEE. apply lxor_range; [lia| |lia].
  assert (0 ≤ 0xFFFFFFFF < 2^32) as H0 by lia. revert H0. generalize 0xFFFFFFFF.
  induction Hl as [|b l Hb _ IH]; intros c Hc; [done|]. cbn [foldl]. apply IH.
  unfold crcByte. cbn [Nat.iter]. repeat apply crcStep_range. apply lxor_range; lia.
Qed.

Lemma putBE_bytes n v : Forall (λ b, 0 ≤ b < 256) (putBE n v).
Proof.
  induction n as [|n IH]; [constructor|]. cbn. constructor; [|done].
  change 255 with (Z.ones 8). rewrite Z.land_ones by lia. by apply Z.mod_pos_bound.
Qed.

(** ** Strings *)

(** [strings.HasSuffix] *)
Definition HasSuffix (s suffix : string) : bool :=
  bool_decide (String.list_ascii_of_string suffix `suffix_of` String.list_ascii_of_string s).

Lemma list_ascii_app (s t : string) :
  String.list_ascii_of_string (s ++ t) =
  String.list_ascii_of_string s ++ String.list_ascii_of_string t.
Proof.
  induction s as [|c s IH]; [done|].
  change ((String c s ++ t)%string) with (String c (s ++ t)%string). cbn. by f_equal.
Qed.

Lemma string_app_nil (s : string) : (s ++ "")%string = s.
Proof.
  induction s as [|c s IH]; [done|].
  change ((String c s ++ "")%string) with (String c (s ++ "")%string). by f_equal.
Qed.

Lemma string_app_assoc (s t u : string) : (s ++ (t ++ u) = (s ++ t) ++ u)%string.
Proof.
  induction s as [|c s IH]; [done|].
  change (String c (s ++ (t ++ u)) = String c ((s ++ t) ++ u))%string. by f_equal.
Qed.

Lemma HasSuffix_app (s t : string) : HasSuffix (s ++ t) t = true.
Proof. apply bool_decide_eq_true. rewrite list_ascii_app. by eexists. Qed.

(** Strings that end in different characters. *)
Lemma HasSuffix_last (s t u : string) c d :
  list.last (String.list_ascii_of_string t) = Some c →
  list.last (String.list_ascii_of_string u) = Some d → c ≠ d → HasSuffix (s ++ t) u = false.
Proof.
  intros Ht Hu Hne. apply bool_decide_eq_false. intros [k Hk]. apply Hne.
  rewrite list_ascii_app in Hk. apply (f_equal list.last) in Hk.
  rewrite !last_app, Ht, Hu in Hk. by injection Hk.
Qed.

(** [strings.SplitN(s, "-", 2)[0]] *)
Fixpoint beforeDash (s : string) : string :=
  match s with
  | EmptyString => EmptyString
  | String c s => if ascii_dec c "-" then EmptyString else String c (beforeDash s)
  end.

(** The digits of [strconv.ParseInt(s, 10, 64)] and [Atoi] without sign. *)
Fixpoint digits (acc : Z) (s : string) : option Z :=
  match s with
  | EmptyString => Some acc
  | String c s =>
      let d := byteOf c - 48 in
      if (0 <=? d) && (d <=? 9) then digits (acc * 10 + d) s else None
  end.

(** [strconv.ParseInt(s, 10, 64)]: [None] is a syntax or range error. *)
Definition ParseInt (s : string) : option Z :=
  let body (neg : bool) (s : string) :=
    if String.eqb s "" then None
    else v ← digits 0 s;
         if (if neg then v <=? 2^63 else v <? 2^63) then Some (if neg then - v else v) else None in
  match s with
  | EmptyString => None
  | String c s' => if ascii_dec c "-" then body true s'
                   else if ascii_dec c "+" then body false s' else body false s
  end.

Example parse_ints :
  ParseInt <$> ["00000000000000000042"; "-7"; "+5"; ""; "-"; "12x"; "9223372036854775808"]%string
  = [Some 42; Some (-7); Some 5; None; None; None; None].
Proof. vm_compute. reflexivity. Qed.
