(* ===== verification/FileSystem.v ===== *)
(** * A directory with failing system calls

    The operations of [os] the telemetry spool uses on its directory.  Every
    call consults an oracle: it may succeed, fail without effect, or (for a
    write) persist only a prefix before failing.  An oracle that fails every call
    from some point on is a crash at that point: nothing the program does
    afterwards reaches the disk.  Renames are atomic; all files are regular. *)
From Stdlib Require Import ZArith Lia.
From stdpp Require Import strings list gmap pretty.
From S2P Require Import Prelude.
From S2P Require Import GoStd.
From S2P Require Import Bytes.
Open Scope Z_scope.

Inductive fault :=
  | FOk                     (* the call succeeds *)
  | FErr                    (* it fails without effect *)
  | FShort (n : nat).       (* a write persists [n] bytes and fails *)

Record FS := mkFS { files : gmap string bytes; oracle : nat → fault; tick : nat }.

Definition ErrNotExist : string := "file does not exist".
Definition ErrIO : string := "input/output error".

Definition nextFault : GoM FS fault := λ s,
  (Ok (oracle s (tick s)), mkFS (files s) (oracle s) (S (tick s))).

(** A call without effect on the files' contents. *)
Definition sys : GoM FS unit :=
  f ← nextFault; match f with FOk => mret tt | _ => throw ErrIO end.

Definition lookupFile (name : string) : GoM FS (option bytes) :=
  s ← get; mret (files s !! name).
Definition setFile (name : string) (data : option bytes) : GoM FS unit :=
  modify (λ s, mkFS (partial_alter (λ _, data) name (files s)) (oracle s) (tick s)).

(** Opening or [Lstat] of an existing file. *)
Definition openFile (name : string) : GoM FS bytes :=
  sys;; c ← lookupFile name;
  match c with Some data => mret data | None => throw ErrNotExist end.

(** [os.OpenFile] with [O_CREATE]. *)
Definition createFile (name : string) : GoM FS bytes :=
  sys;; c ← lookupFile name;
  match c with
  | Some data => mret data
  | None => setFile name (Some []);; mret []
  end.

(** [WriteAt] at the end of the first [offset] bytes (the caller truncated). *)
Definition writeAt (name : string) (offset : nat) (data : bytes) : GoM FS unit :=
  f ← nextFault;
  c ← lookupFile name;
  let written (d : bytes) :=
    let old := default [] c in
    setFile name (Some (take offset old ++ d ++ drop (offset + length d) old)) in
  match f with
  | FOk => written data
  | FShort n => written (take n data);; throw ErrIO
  | FErr => throw ErrIO
  end.

Definition truncate (name : string) (size : nat) : GoM FS unit :=
  sys;; c ← lookupFile name; setFile name (Some (take size (default [] c))).

(** [os.Rename] *)
Definition rename (old new : string) : GoM FS unit :=
  sys;; c ← lookupFile old;
  match c with
  | Some data => setFile new (Some data);; setFile old None
  | None => throw ErrNotExist
  end.

(** [os.Remove] *)
Definition remove (name : string) : GoM FS unit :=
  sys;; c ← lookupFile name;
  match c with Some _ => setFile name None | None => throw ErrNotExist end.

(** [if err := m; err != nil && !errors.Is(err, os.ErrNotExist)] *)
Definition ignoreNotExist {S} (m : GoM S unit) : GoM S unit := λ s,
  match m s with
  | (Err e, s') => (if bool_decide (e = ErrNotExist) then Ok tt else Err e, s')
  | r => r
  end.

(** Running a call for its effect and keeping its error: [errors.Join], [defer]. *)
Definition attempt {S} (m : GoM S unit) : GoM S (option string) := λ s,
  match m s with
  | (Ok _, s') => (Ok None, s')
  | (Err e, s') => (Ok (Some e), s')
  | (Panic, s') => (Panic, s')
  end.
Definition join {S} (m k : GoM S unit) : GoM S unit :=
  e1 ← attempt m; e2 ← attempt k;
  match e1, e2 with
  | None, None => mret tt
  | Some e, _ | _, Some e => throw e
  end.
