(* ===== verification/TelemetrySpool.v ===== *)
(** * The Agent's durable telemetry spool

    [internal/agent/telemetry_spool.go], [telemetry_log.go] and the encoding half
    of [telemetry_window.go]: append-only JSON-lines segments with a journal of
    acknowledgements, their recovery after a crash, and the bounded window of
    events that is sent.  Segments are shared pointers: the model keeps them in a
    heap ([segs]) and refers to them by index.  [encoding/json] is a type class:
    what the spool relies on are the laws of [JSONLaws]. *)
From Stdlib Require Import ZArith Lia.
From stdpp Require Import strings list gmap sorting pretty.
From S2P Require Import Prelude.
From S2P Require Import GoStd.
From S2P Require Import Trace.
From S2P Require Import Bytes.
From S2P Require Import FileSystem.
Open Scope Z_scope.

(** ** Encoding *)
Class JSON := {
  Marshal : TraceEvent → option bytes;                  (* [json.Marshal(event)] *)
  MarshalString : string → option bytes;                (* [json.Marshal(agentID)] *)
  UnmarshalEvent : bytes → option TraceEvent;
  UnmarshalRunID : bytes → option string;               (* into [struct{ RunID }] *)
  ValidJSON : bytes → bool;
  (* the elements of a JSON array file with [InputOffset] after each one *)
  DecodeArray : bytes → option (list (nat * bytes)) }.

(** What is relied on: an encoded event holds no newline, is valid, and decodes to
    an event of the same run.  The last holds for texts of valid UTF-8, and the
    Agent has no others: the runs of its events come from decoded JSON, which
    replaces invalid bytes. *)
Class JSONLaws `{JSON} := {
  Marshal_newline e b : Marshal e = Some b → newline ∉ b;
  Marshal_run e b : Marshal e = Some b → UnmarshalRunID b = Some (RunID e);
  Marshal_valid e b : Marshal e = Some b → ValidJSON b = true }.

Definition MaxEventBatchBytes : Z := 10 * 2^20.
Definition MaxEventBatchEvents : nat := 5000.
Definition telemetryWindowBytes : Z := 2^20.
Definition telemetryWindowEvents : nat := MaxEventBatchEvents.
Definition telemetrySegmentBytes : Z := 4 * 2^20.
Definition telemetryFormatMarker : string := "format-v2.json".
(** The format line, [U+0022] being the quote character. *)
Definition quote : string := String (Ascii.ascii_of_nat 34) "".
Definition telemetryFormatData : bytes :=
  bytesOf ("{" ++ quote ++ "format" ++ quote ++ ":" ++ quote ++ "kpl-telemetry-jsonl-v1" ++
           quote ++ "}").
Definition telemetryAckFrameBytes : nat := 16.
Definition telemetryAckMagic : Z := 0x4b504c31.

(** ** State *)
Record telemetrySegment := mkSegment {
  name : string; scount : nat; sack : nat; ssize : nat; ackBytes : nat }.

Record telemetryRecord := mkRecord {
  rsegment : nat; roffset : nat; rsize : nat; rrun : string }.

Record telemetrySpool := mkSpool {
  fs : FS; segs : list telemetrySegment; records : list telemetryRecord; sbytes : Z;
  lastStamp : Z; cleanup : option nat; active : option nat; formatReady : bool }.

Definition Spool : Type → Type := GoM telemetrySpool.

(** File operations, on the spool's directory. *)
Definition io {A} (m : GoM FS A) : Spool A := λ s,
  let '(r, d) := m (fs s) in
  (r, mkSpool d (segs s) (records s) (sbytes s) (lastStamp s) (cleanup s) (active s)
        (formatReady s)).

Definition setSegment (p : nat) (seg : telemetrySegment) : Spool unit :=
  modify (λ s, mkSpool (fs s) (<[p := seg]> (segs s)) (records s) (sbytes s) (lastStamp s)
                 (cleanup s) (active s) (formatReady s)).
Definition setRecords (rs : list telemetryRecord) (n : Z) : Spool unit :=
  modify (λ s, mkSpool (fs s) (segs s) rs n (lastStamp s) (cleanup s) (active s) (formatReady s)).
Definition setStamp (z : Z) : Spool unit :=
  modify (λ s, mkSpool (fs s) (segs s) (records s) (sbytes s) z (cleanup s) (active s)
                 (formatReady s)).
Definition setCleanup (c : option nat) : Spool unit :=
  modify (λ s, mkSpool (fs s) (segs s) (records s) (sbytes s) (lastStamp s) c (active s)
                 (formatReady s)).
Definition setActive (a : option nat) : Spool unit :=
  modify (λ s, mkSpool (fs s) (segs s) (records s) (sbytes s) (lastStamp s) (cleanup s) a
                 (formatReady s)).
Definition setReady (b : bool) : Spool unit :=
  modify (λ s, mkSpool (fs s) (segs s) (records s) (sbytes s) (lastStamp s) (cleanup s)
                 (active s) b).
Definition loadSegment (p : nat) : Spool telemetrySegment :=
  s ← get; lift_res (deref (segs s !! p)).
(** [&telemetrySegment{...}] *)
Definition newSegment (seg : telemetrySegment) : Spool nat :=
  s ← get;
  modify (λ s, mkSpool (fs s) (segs s ++ [seg]) (records s) (sbytes s) (lastStamp s) (cleanup s)
                 (active s) (formatReady s));;
  mret (length (segs s)).

(** ** Files *)
Definition ackPath (n : string) : string := n ++ ".ack".

(** Opening the directory, and [Sync] joined with [Close]. *)
Definition syncTelemetryDirectory : GoM FS unit := sys;; join sys sys.

Definition writeTelemetryFile (path : string) (data : bytes) : GoM FS unit :=
  s ← get;
  let temp := ".spool-" +:+ pretty (tick s) in
  sys;; setFile temp (Some []);;
  r ← attempt
        (join (writeAt temp 0 data;; sys) sys;;
         rename temp path;;
         syncTelemetryDirectory);
  _ ← attempt (remove temp);
  match r with None => mret tt | Some e => throw e end.

Definition appendTelemetryFile (path : string) (data : bytes) (offset : nat) (create : bool) :
    GoM FS unit :=
  content ← (if create then createFile path else openFile path);
  sys;;
  if (length content <? offset)%nat then throw "invalid telemetry append offset"
  else
    (if (offset <? length content)%nat then truncate path offset else mret tt);;
    writeAt path offset data;;
    sys;;
    if create && (offset =? 0)%nat then syncTelemetryDirectory else mret tt.

Definition readAt (n : string) (offset size : nat) : GoM FS bytes :=
  content ← openFile n;
  let piece := take size (drop offset content) in
  if (length piece <? size)%nat then throw "unexpected EOF" else mret piece.

(** ** Segments *)
Definition removeSegment (p : nat) : Spool unit :=
  seg ← loadSegment p;
  io (ignoreNotExist (remove (name seg)));;
  io syncTelemetryDirectory;;
  io (ignoreNotExist (remove (ackPath (name seg)))).

Definition ensureLogFormat : Spool unit :=
  s ← get;
  if formatReady s then mret tt
  else
    r ← (λ s, match io (openFile telemetryFormatMarker) s with
              | (Ok d, s) => (Ok (inl d), s)
              | (Err e, s) => (Ok (inr e), s)
              | (Panic, s) => (Panic, s)
              end);
    match r with
    | inl info =>
        if 256 <? blen info then throw "invalid telemetry format marker"
        else
          data ← io (openFile telemetryFormatMarker);
          if bool_decide (data = telemetryFormatData) then setReady true
          else throw "unsupported telemetry spool format"
    | inr e =>
        if bool_decide (e = ErrNotExist)
        then io (writeTelemetryFile telemetryFormatMarker telemetryFormatData);; setReady true
        else throw e
    end.

Section spool.
Context `{JSON}.

(** ** Appending *)
Definition encodedEvent (e : TraceEvent) : res bytes :=
  match Marshal e with
  | None => Err "json"
  | Some b => fail_if (MaxEventBatchBytes <? blen b) "telemetry event exceeds size limit";; Ok b
  end.

(** The loop over the events: records at offsets from [offset], and the data. *)
Fixpoint encodeLog (events : list TraceEvent) (offset : nat) :
    res (list telemetryRecord * bytes) :=
  match events with
  | [] => Ok ([], [])
  | e :: events =>
      b ← encodedEvent e;
      '(rs, data) ← encodeLog events (offset + length b + 1);
      Ok (mkRecord 0 offset (length b) (RunID e) :: rs, b ++ newline :: data)
  end.

(** [%020d] of a 64-bit integer: the sign counts for the width. *)
Fixpoint decimal (width : nat) (z : Z) : string :=
  match width with
  | O => ""
  | S n => String (Ascii.ascii_of_N (Z.to_N (48 + z / 10 ^ Z.of_nat n mod 10))) (decimal n z)
  end.
Definition pad20 (z : Z) : string :=
  if z <? 0 then "-" ++ decimal 19 (- z) else decimal 20 z.

Example pad20_examples :
  pad20 <$> [1700000000123456789; 7; -42]
  = ["01700000000123456789"; "00000000000000000007"; "-0000000000000000042"]%string.
Proof. vm_compute. reflexivity. Qed.

(** The name of a new segment. *)
Definition segmentName (stamp : Z) (text : string) : string :=
  pad20 stamp ++ "-" ++ text ++ ".jsonl".

(** Dropping a full active segment. *)
Definition rollOver (dataLen : Z) : Spool unit :=
  s ← get;
  match active s with
  | None => mret tt
  | Some p =>
      seg ← loadSegment p;
      if telemetrySegmentBytes <? Z.of_nat (ssize seg) + dataLen then
        setActive None;;
        if (sack seg =? scount seg)%nat then
          r ← attempt (removeSegment p);
          match r with None => mret tt | Some e => setCleanup (Some p);; throw e end
        else mret tt
      else mret tt
  end.

(** Writing the data to the active segment, or to a new one named by the clock's
    reading and a random text. *)
Definition writeBatch (data : bytes) (now : Z) (text : string) : Spool nat :=
  s ← get;
  match active s with
  | None =>
      let stamp := Z.max now (i64 (lastStamp s + 1)) in
      let n := segmentName stamp text in
      io (writeTelemetryFile n data);;
      p ← newSegment (mkSegment n 0 0 0 0);
      setStamp stamp;; setActive (Some p);; mret p
  | Some p =>
      seg ← loadSegment p;
      io (appendTelemetryFile (name seg) data (ssize seg) false);; mret p
  end.

(** The last statements: the batch becomes pending. *)
Definition commitBatch (n : nat) (data : bytes) (rs : list telemetryRecord) (p : nat) : Spool unit :=
  seg ← loadSegment p;
  setSegment p (mkSegment (name seg) (scount seg + n) (sack seg)
                  (ssize seg + length data) (ackBytes seg));;
  s ← get;
  setRecords
    (records s ++
      ((λ r, mkRecord p (roffset r + ssize seg) (rsize r) (rrun r)) <$> rs))
    (sbytes s + Z.of_nat (sum_list_with rsize rs)).

Definition appendLog (events : list TraceEvent) (now : Z) (text : string) : Spool unit :=
  ensureLogFormat;;
  '(rs, data) ← lift_res (encodeLog events 0);
  lift_res (fail_if (64 * 2^20 <? blen data) "telemetry segment exceeds size limit");;
  rollOver (blen data);;
  p ← writeBatch data now text;
  commitBatch (length events) data rs p.

Definition append (events : list TraceEvent) (now : Z) (text : string) : Spool unit :=
  match events with [] => mret tt | _ => appendLog events now text end.

(** ** Acknowledging *)
Definition ackFrame (next : nat) : bytes :=
  let head := putBE 4 telemetryAckMagic ++ putBE 8 (Z.of_nat next) in
  head ++ putBE 4 (ChecksumIEEE head).

Definition acknowledgeLog (p : nat) (next : nat) : Spool unit :=
  seg ← loadSegment p;
  io (appendTelemetryFile (ackPath (name seg)) (ackFrame next) (ackBytes seg) true);;
  setSegment p (mkSegment (name seg) (scount seg) (sack seg) (ssize seg)
                  (ackBytes seg + telemetryAckFrameBytes)).

(** The first record's segment, [n] of its records and the new cursor. *)
Definition ackSegment (p : nat) (seg : telemetrySegment) (next : nat) : Spool unit :=
  if HasSuffix (name seg) ".jsonl" then acknowledgeLog p next
  else io (writeTelemetryFile (ackPath (name seg)) (bytesOf (pretty (N.of_nat next)))).

(** Dropping the acknowledged records and moving the segment's cursor. *)
Definition commitAck (p n next : nat) : Spool unit :=
  s ← get;
  setRecords (drop n (records s))
    (sbytes s - Z.of_nat (sum_list_with rsize (take n (records s))));;
  seg ← loadSegment p;
  setSegment p (mkSegment (name seg) (scount seg) next (ssize seg) (ackBytes seg)).

(** The loop of [acknowledge]: the number committed, and the error that stopped
    it.  One round per unit of fuel; [Panic] is running out of it. *)
Fixpoint acknowledgeLoop (fuel count committed : nat) : Spool (nat * option string) :=
  if (committed <? count)%nat then
    match fuel with
    | O => panic
    | S fuel =>
        s ← get;
        r0 ← lift_res (deref (head (records s)));
        let p := rsegment r0 in
        seg ← loadSegment p;
        let n := Nat.min (count - committed) (scount seg - sack seg) in
        let next := (sack seg + n)%nat in
        r ← attempt (ackSegment p seg next);
        match r with
        | Some e => mret (committed, Some e)
        | None =>
            commitAck p n next;;
            let committed := (committed + n)%nat in
            if (next =? scount seg)%nat && negb (bool_decide (active s = Some p)) then
              r ← attempt (removeSegment p);
              match r with
              | Some e => setCleanup (Some p);; mret (committed, Some e)
              | None => acknowledgeLoop fuel count committed
              end
            else acknowledgeLoop fuel count committed
        end
    end
  else mret (committed, None).

Definition acknowledge (count : Z) : Spool (nat * option string) :=
  s ← get;
  if (count <? 0) || (Z.of_nat (length (records s)) <? count)
  then mret (0%nat, Some "invalid telemetry acknowledgement count"%string)
  else acknowledgeLoop (Z.to_nat count) (Z.to_nat count) 0.

(** ** Recovery *)

(** One frame of the journal. *)
Definition validFrame (frame : bytes) : bool :=
  (length frame =? telemetryAckFrameBytes)%nat &&
  (getBE (take 4 frame) =? telemetryAckMagic) &&
  (getBE (drop 12 frame) =? ChecksumIEEE (take 12 frame)).

(** The loop of [recoverTelemetryAck] on the unread rest of the journal. *)
Fixpoint ackLoop (fuel : nat) (path : string) (size : nat) (rest : bytes) (count ack valid : nat) :
    GoM FS (nat * nat) :=
  sys;;
  match rest with
  | [] => mret (ack, valid)
  | _ =>
      match fuel with
      | O => panic
      | S fuel =>
          let frame := take telemetryAckFrameBytes rest in
          if negb (validFrame frame) then
            if negb (valid + length frame =? size)%nat
            then throw "corrupt telemetry acknowledgement journal"
            else truncate path valid;; sys;; mret (ack, valid)
          else
            let next := getBE (take 8 (drop 4 frame)) in
            if (next <=? Z.of_nat ack) || (Z.of_nat count <? next)
            then throw "invalid telemetry acknowledgement sequence"
            else ackLoop fuel path size (drop telemetryAckFrameBytes rest) count (Z.to_nat next)
                   (valid + telemetryAckFrameBytes)
      end
  end.

Definition recoverTelemetryAck (path : string) (count : nat) : GoM FS (nat * nat) := λ s,
  match openFile path s with
  | (Err e, s) => if bool_decide (e = ErrNotExist) then (Ok (0, 0)%nat, s) else (Err e, s)
  | (Panic, s) => (Panic, s)
  | (Ok journal, s) =>
      (sys;;
       if (((count + 1) * telemetryAckFrameBytes) <? length journal)%nat
       then throw "invalid telemetry acknowledgement journal"
       else ackLoop (length journal) path (length journal) journal count 0 0) s
  end.

(** [ReadBytes('\n')] until EOF: the complete lines (without their newline) and
    the torn tail. *)
Fixpoint readLines (line data : bytes) : list bytes * bytes :=
  match data with
  | [] => ([], line)
  | b :: data =>
      if b =? newline then
        let '(lines, tail) := readLines [] data in (line :: lines, tail)
      else readLines (line ++ [b]) data
  end.

(** The records of the complete lines from [offset]. *)
Fixpoint lineRecords (p : nat) (lines : list bytes) (offset : nat) : res (list telemetryRecord) :=
  match lines with
  | [] => Ok []
  | raw :: lines =>
      fail_if (MaxEventBatchBytes <? blen raw) "telemetry event exceeds size limit";;
      match UnmarshalRunID raw with
      | None => Err "json"
      | Some run =>
          rs ← lineRecords p lines (offset + length raw + 1);
          Ok (mkRecord p offset (length raw) run :: rs)
      end
  end.

Definition appendRecords (rs : list telemetryRecord) : Spool unit :=
  s ← get; setRecords (records s ++ rs) (sbytes s + Z.of_nat (sum_list_with rsize rs)).

Definition recoverLog (n : string) : Spool unit :=
  p ← newSegment (mkSegment n 0 0 0 0);
  data ← io (openFile n);
  io sys;;
  let '(lines, tail) := readLines [] data in
  rs ← lift_res (lineRecords p lines 0);
  let offset := (length data - length tail)%nat in
  '(ack, valid) ← io (recoverTelemetryAck (ackPath n) (length rs));
  setSegment p (mkSegment n (length rs) ack offset valid);;
  (if (0 <? length tail)%nat then io (truncate n offset);; io sys else mret tt);;
  if (ack =? length rs)%nat then removeSegment p
  else appendRecords (drop ack rs).

(** The acknowledgement of a JSON array segment. *)
Definition recoverArrayAck (path : string) : GoM FS Z := λ s,
  match openFile path s with
  | (Err e, s) => if bool_decide (e = ErrNotExist) then (Ok 0, s) else (Err e, s)
  | (Panic, s) => (Panic, s)
  | (Ok data, s) =>
      match ParseInt (String.string_of_list_ascii
              ((λ b, Ascii.ascii_of_N (Z.to_N b)) <$> data)) with
      | Some ack => (Ok ack, s)
      | None => (Err "strconv.Atoi", s)
      end
  end.

(** The loop over a JSON array: elements from the acknowledged one on. *)
Fixpoint arrayRecords (p : nat) (count : nat) (ack : Z) (elements : list (nat * bytes)) :
    res (list telemetryRecord) :=
  match elements with
  | [] => Ok []
  | (after, raw) :: elements =>
      fail_if (MaxEventBatchBytes <? blen raw) "telemetry event exceeds size limit";;
      if ack <=? Z.of_nat count then
        match UnmarshalRunID raw with
        | None => Err "json"
        | Some run =>
            rs ← arrayRecords p (S count) ack elements;
            Ok (mkRecord p (after - length raw) (length raw) run :: rs)
        end
      else arrayRecords p (S count) ack elements
  end.

Definition recoverArray (n : string) : Spool unit :=
  ack ← io (recoverArrayAck (ackPath n));
  data ← io (openFile n);
  io sys;;
  elements ← lift_res (match DecodeArray data with Some l => Ok l | None => Err "json" end);
  s ← get;
  let p := length (segs s) in
  rs ← lift_res (arrayRecords p 0 ack elements);
  appendRecords rs;;
  if (ack <? 0) || (Z.of_nat (length elements) <? ack)
  then throw "invalid telemetry acknowledgement"
  else
    p ← newSegment (mkSegment n (length elements) (Z.to_nat ack) 0 0);
    if ack =? Z.of_nat (length elements) then removeSegment p else mret tt.

Definition recoverSegment (n : string) : Spool unit :=
  s ← get;
  match ParseInt (beforeDash n) with
  | Some stamp => setStamp (Z.max stamp (lastStamp s))
  | None => mret tt
  end;;
  info ← io (openFile n);
  if 64 * 2^20 <? blen info then throw "invalid telemetry spool segment"
  else if HasSuffix n ".jsonl" then recoverLog n else recoverArray n.

Definition isLogRecord (s : telemetrySpool) (r : telemetryRecord) : bool :=
  match segs s !! rsegment r with
  | Some seg => HasSuffix (name seg) ".jsonl"
  | None => false
  end.

Definition releaseIdleLog : Spool unit :=
  s ← get;
  if existsb (isLogRecord s) (records s) then mret tt
  else
    match cleanup s with
    | Some p => removeSegment p;; setCleanup None
    | None => mret tt
    end;;
    match active s with
    | Some p =>
        seg ← loadSegment p;
        if negb (sack seg =? scount seg)%nat
        then throw "telemetry segment still has pending events"
        else removeSegment p;; setActive None
    | None => mret tt
    end;;
    r ← attempt (io (remove telemetryFormatMarker));
    match r with
    | Some e => if bool_decide (e = ErrNotExist) then setReady false else throw e
    | None => io syncTelemetryDirectory;; setReady false
    end.

(** The segment names of the directory, sorted. *)
Definition segmentNames (d : FS) : list string :=
  merge_sort String.le
    (filter (λ n, HasSuffix n ".json" = true ∨ HasSuffix n ".jsonl" = true)
       (fst <$> map_to_list (files d))).

Definition recoverName (n : string) : Spool unit :=
  if bool_decide (n = telemetryFormatMarker) then ensureLogFormat
  else λ s, let '(r, s) := recoverSegment n s in (wrap "read telemetry spool" r, s).

(** Start-up: the directory is created, synced and listed ([sys] each). *)
Definition readTelemetrySpool : Spool unit :=
  io sys;; io syncTelemetryDirectory;; io sys;; io sys;;
  s ← get;
  miter recoverName (segmentNames (fs s));;
  releaseIdleLog.

Definition emptySpool (d : FS) : telemetrySpool := mkSpool d [] [] 0 0 None None false.

(** ** The transmitted window *)
Definition removeCleanup : Spool unit :=
  s ← get;
  match cleanup s with
  | Some p => removeSegment p;; setCleanup None
  | None => mret tt
  end.

(** The loop that chooses how many records fit: [None] is the error. *)
Fixpoint windowCount (header : nat) (rs : list telemetryRecord) (count size : nat) :
    option (nat * nat) :=
  match rs with
  | [] => Some (count, size)
  | r :: rs =>
      if (0 <? count)%nat &&
         ((telemetryWindowEvents <=? count)%nat ||
          (telemetryWindowBytes <? Z.of_nat (size + rsize r)))
      then Some (count, size)
      else if MaxEventBatchBytes <? Z.of_nat (header + size + rsize r + count + 2) then
        if (count =? 0)%nat then None else Some (count, size)
      else windowCount header rs (S count) (size + rsize r)
  end.

(** Copying the payloads: a file is opened when the segment changes. *)
Fixpoint copyRecords (rs : list telemetryRecord) (opened : option nat) (first : bool)
    (data : bytes) : Spool bytes :=
  match rs with
  | [] => mret data
  | r :: rs =>
      seg ← loadSegment (rsegment r);
      (if bool_decide (opened = Some (rsegment r)) then mret tt
       else _ ← io (openFile (name seg)); mret tt);;
      payload ← io (readAt (name seg) (roffset r) (rsize r));
      if negb (ValidJSON payload) then throw "invalid telemetry JSON"
      else copyRecords rs (Some (rsegment r)) false
             (data ++ (if first then [] else [44]) ++ payload)
  end.

Definition batchHeader (agent : bytes) : bytes :=
  bytesOf ("{" ++ quote ++ "agentId" ++ quote ++ ":") ++ agent ++
  bytesOf ("," ++ quote ++ "events" ++ quote ++ ":[").

Definition marshalPrefix (agentID : string) : Spool (bytes * nat) :=
  removeCleanup;;
  agent ← lift_res (match MarshalString agentID with Some b => Ok b | None => Err "json" end);
  let header := batchHeader agent in
  s ← get;
  match windowCount (length header) (records s) 0 0 with
  | None => throw "encoded telemetry event exceeds batch limit"
  | Some (0%nat, _) => mret ([], 0%nat)
  | Some (count, _) =>
      data ← copyRecords (take count (records s)) None true header;
      mret (data ++ bytesOf "]}", count)
  end.

(** [loadPrefix] decodes the same window. *)
Fixpoint loadLoop (rs : list telemetryRecord) (count size : nat) (opened : option nat)
    (events : list TraceEvent) : Spool (list TraceEvent) :=
  match rs with
  | [] => mret events
  | r :: rs =>
      if (0 <? count)%nat &&
         ((telemetryWindowEvents <=? count)%nat ||
          (telemetryWindowBytes <? Z.of_nat (size + rsize r)))
      then mret events
      else
        seg ← loadSegment (rsegment r);
        (if bool_decide (opened = Some (rsegment r)) then mret tt
         else _ ← io (openFile (name seg)); mret tt);;
        payload ← io (readAt (name seg) (roffset r) (rsize r));
        e ← lift_res (match UnmarshalEvent payload with Some e => Ok e | None => Err "json" end);
        loadLoop rs (S count) (size + rsize r) (Some (rsegment r)) (events ++ [e])
  end.
Definition loadPrefix : Spool (list TraceEvent) :=
  removeCleanup;; s ← get; loadLoop (records s) 0 0 None [].
End spool.
