(* ===== verification/FileSystemProps.v ===== *)
(** * What the file operations do to the directory

    A small program logic for [GoM FS]: preconditions and postconditions on the
    files only, for every oracle, so a failed call and a crash are the error
    postcondition; and the fault-free evaluation used for recovery. *)
From Stdlib Require Import ZArith Lia.
From stdpp Require Import strings list gmap pretty.
From S2P Require Import Prelude.
From S2P Require Import GoStd.
From S2P Require Import Bytes.
From S2P Require Import FileSystem.
From S2P Require Import TelemetrySpool.
Open Scope Z_scope.

(** Unfolding the primitive calls. *)
Ltac fs_unfold :=
  unfold sys, nextFault, lookupFile, setFile, get, modify, mbind, gom_bind, mret, gom_ret, throw,
    lift_res;
  cbn [files oracle tick].

Abbreviation dir := (gmap string bytes).

(** Started from files in [P], [m] never panics, ends in [Q] or fails in [E]. *)
Definition fsrun {A} (P : dir → Prop) (m : GoM FS A) (Q : A → dir → Prop) (E : dir → Prop) : Prop :=
  run (λ s, P (files s)) m (λ a s, Q a (files s)) (λ _ s, E (files s)).

Lemma fsrun_ret {A} (a : A) P (Q : A → dir → Prop) E :
  (∀ f, P f → Q a f) → fsrun P (mret a) Q E.
Proof. intros HQ s HP. by apply HQ. Qed.

Lemma fsrun_bind {A B} P (m : GoM FS A) Q (k : A → GoM FS B) R E :
  fsrun P m Q E → (∀ a, fsrun (Q a) (k a) R E) → fsrun P (m ≫= k) R E.
Proof.
  intros Hm Hk s HP. unfold mbind, gom_bind. specialize (Hm s HP).
  destruct (m s) as [[a|e|] s']; [by apply Hk|done|done].
Qed.

Lemma fsrun_conseq {A} (P P' : dir → Prop) (m : GoM FS A) (Q Q' : A → dir → Prop)
    (E E' : dir → Prop) :
  fsrun P m Q E → (∀ f, P' f → P f) → (∀ a f, Q a f → Q' a f) → (∀ f, E f → E' f) →
  fsrun P' m Q' E'.
Proof.
  intros Hm HP HQ HE s Hs. specialize (Hm s (HP _ Hs)).
  destruct (m s) as [[a|e|] s']; eauto.
Qed.

Lemma fsrun_throw {A} e P (Q : A → dir → Prop) (E : dir → Prop) :
  (∀ f, P f → E f) → fsrun P (throw e) Q E.
Proof. intros HE s HP. by apply HE. Qed.

Lemma fsrun_sys P E : (∀ f, P f → E f) → fsrun P sys (λ _, P) E.
Proof.
  intros HE s HP. fs_unfold. destruct (oracle s (tick s)); cbn; [exact HP|by apply HE..].
Qed.

Lemma fsrun_lookup n P E : fsrun P (lookupFile n) (λ c f, P f ∧ c = f !! n) E.
Proof. intros s HP. by fs_unfold. Qed.

Lemma fsrun_set n d P (Q : unit → dir → Prop) E :
  (∀ f, P f → Q tt (partial_alter (λ _, d) n f)) → fsrun P (setFile n d) Q E.
Proof. intros HQ s HP. by apply HQ. Qed.

Lemma fsrun_attempt (m : GoM FS unit) P Q E :
  fsrun P m (λ _, Q) E →
  fsrun P (attempt m) (λ r f, match r with None => Q f | Some _ => E f end) (λ _, False).
Proof.
  intros Hm s HP. unfold attempt. specialize (Hm s HP). by destruct (m s) as [[[]|e|] s'].
Qed.

Lemma fsrun_join (m k : GoM FS unit) P Q E1 E :
  fsrun P m (λ _, Q) E1 → fsrun Q k (λ _, Q) Q → fsrun E1 k (λ _, E1) E1 →
  (∀ f, Q f → E f) → (∀ f, E1 f → E f) → fsrun P (join m k) (λ _, Q) E.
Proof.
  intros Hm Hk Hk1 HE HE1. unfold join.
  pose proof (fsrun_attempt m P Q E1 Hm) as Hm'. pose proof (fsrun_attempt k Q Q Q Hk) as Hk'.
  pose proof (fsrun_attempt k E1 E1 E1 Hk1) as Hk1'.
  intros s HP. unfold mbind, gom_bind. specialize (Hm' s HP).
  destruct (attempt m s) as [[[e1|]|e|] s1]; [| |done|done].
  - specialize (Hk1' s1 Hm'). destruct (attempt k s1) as [[e2|e|] s2]; [|done|done].
    destruct e2; cbn; auto.
  - specialize (Hk' s1 Hm'). destruct (attempt k s1) as [[e2|e|] s2]; [|done|done].
    destruct e2; cbn; auto.
Qed.

Lemma fsrun_open n P E :
  (∀ f, P f → E f) → fsrun P (openFile n) (λ c f, P f ∧ f !! n = Some c) E.
Proof.
  intros HE. unfold openFile. eapply fsrun_bind; [by apply fsrun_sys|]. intros [].
  eapply fsrun_bind; [apply fsrun_lookup|]. intros [c|].
  - apply fsrun_ret. intros f [? ?]. auto.
  - apply fsrun_throw. intros f [? _]. auto.
Qed.

(** ** Appending to a file *)

(** A write at [off] persisted [k] bytes of the data, or did not happen. *)
Definition partlyAppended (path : string) (data : bytes) (off : nat) (f0 f : dir) : Prop :=
  f = f0 ∨ ∃ k, f = <[path := take off (default [] (f0 !! path)) ++ take k data]> f0.

Lemma fsrun_sync_dir P E : (∀ f, P f → E f) → fsrun P syncTelemetryDirectory (λ _, P) E.
Proof.
  intros HE. unfold syncTelemetryDirectory. eapply fsrun_bind; [by apply fsrun_sys|].
  intros []. apply (fsrun_join _ _ _ _ P); [by apply fsrun_sys..|done|done].
Qed.

Lemma insert_partial_alter (n : string) (d : bytes) (f : dir) :
  partial_alter (λ _, Some d) n f = <[n := d]> f.
Proof. done. Qed.

Lemma writeAt_spec path off data c f1 :
  f1 !! path = Some c → (length c ≤ off)%nat →
  fsrun (λ f, f = f1) (writeAt path off data)
    (λ _ f, f = <[path := c ++ data]> f1)
    (λ f, f = f1 ∨ ∃ k, f = <[path := c ++ take k data]> f1).
Proof.
  intros Hc Hlen s Hs. unfold writeAt. fs_unfold. rewrite Hs, Hc. cbn [from_option]. unfold id.
  rewrite take_ge by lia.
  assert (∀ k, drop (off + k) c = []) as Hd by (intros k; apply drop_ge; lia).
  destruct (oracle s (tick s)) as [| |n]; cbn; rewrite ?Hs.
  - by rewrite Hd, app_nil_r, insert_partial_alter.
  - by left.
  - right. exists n. by rewrite Hd, app_nil_r, insert_partial_alter.
Qed.

Lemma append_spec path data off create f0 :
  (off ≤ length (default [] (f0 !! path)))%nat →
  fsrun (λ f, f = f0) (appendTelemetryFile path data off create)
    (λ _ f, f = <[path := take off (default [] (f0 !! path)) ++ data]> f0)
    (partlyAppended path data off f0).
Proof.
  intros Hoff. unfold appendTelemetryFile.
  set (c := default [] (f0 !! path)).
  set (present := λ f : dir, (f = f0 ∨ f = <[path := []]> f0 ∧ c = []) ∧ f !! path = Some c).
  assert (∀ f, present f → partlyAppended path data off f0 f) as Hpa.
  { intros f [[->|[-> Hc]] _]; [by left|right]. exists 0%nat. fold c. by rewrite Hc, take_nil. }
  assert (∀ f d, present f → <[path := d]> f = <[path := d]> f0) as Hins.
  { intros f d [[->|[-> _]] _]; [done|]. by rewrite insert_insert_eq. }
  eapply (fsrun_bind _ _ (λ content f, content = c ∧ present f)).
  { destruct create.
    - unfold createFile. eapply fsrun_bind; [apply fsrun_sys; by left; subst|]. intros [].
      eapply fsrun_bind; [apply fsrun_lookup|]. intros [d|].
      + apply fsrun_ret. intros f [-> Hd]. unfold present, c. rewrite <- Hd. cbn. auto.
      + eapply (fsrun_bind _ _ (λ _ f, f = <[path := []]> f0 ∧ c = [])).
        * apply fsrun_set. intros f [-> Hd]. unfold c. by rewrite <- Hd.
        * intros []. apply fsrun_ret. intros f [-> Hc]. unfold present. rewrite Hc.
          split; [done|]. rewrite lookup_insert_eq. auto.
    - eapply fsrun_conseq; [by apply (fsrun_open path (λ f, f = f0) (λ f, f = f0))|done| |intros f ->; by left].
      intros d f [-> Hd]. unfold present, c. rewrite Hd. cbn. auto. }
  intros content. eapply fsrun_bind.
  { apply fsrun_sys. intros f [_ Hf]. by apply Hpa. }
  intros []. destruct (Nat.ltb_spec (length content) off) as [Hlt|_].
  { apply fsrun_throw. intros f [_ Hf]. by apply Hpa. }
  eapply (fsrun_bind _ _ (λ _ f, f !! path = Some (take off c) ∧
    (∀ d, <[path := d]> f = <[path := d]> f0) ∧ partlyAppended path data off f0 f)).
  { destruct (Nat.ltb_spec off (length content)) as [Hlong|Hshort].
    - unfold truncate. eapply fsrun_bind; [apply fsrun_sys; intros f [_ Hf]; by apply Hpa|].
      intros []. eapply fsrun_bind; [apply fsrun_lookup|]. intros d.
      apply fsrun_set. intros f [[-> Hf] Hd]. pose proof Hf as [_ Hc]. rewrite Hc in Hd. subst d.
      rewrite insert_partial_alter, lookup_insert_eq. split; [done|]. split.
      + intros d. by rewrite insert_insert_eq, Hins.
      + right. exists 0%nat. fold c. rewrite take_0, app_nil_r. by rewrite Hins.
    - apply fsrun_ret. intros f [-> Hf]. pose proof Hf as [_ Hc].
      rewrite take_ge by lia. split_and!; [done|by intros; apply Hins|by apply Hpa]. }
  intros [].
  eapply (fsrun_bind _ _ (λ _ f, f = <[path := take off c ++ data]> f0)).
  { intros s (Hc & Hi & Hp).
    pose proof (writeAt_spec path off data (take off c) (files s) Hc ltac:(rewrite length_take; lia)
      s eq_refl) as Hw.
    destruct (writeAt path off data s) as [[[]|e|] s']; [|destruct Hw as [->|[k ->]]|done].
    - by rewrite Hw, Hi.
    - done.
    - right. exists k. by rewrite Hi. }
  intros [].
  assert (∀ f, f = <[path := take off c ++ data]> f0 → partlyAppended path data off f0 f) as Hfull.
  { intros f ->. right. exists (length data). fold c. by rewrite firstn_all. }
  eapply fsrun_bind; [by apply fsrun_sys|]. intros [].
  destruct (create && _); [by apply fsrun_sync_dir|by apply fsrun_ret].
Qed.

(** ** Whole-file writes *)

(** Temporary files start with a dot and are not segments. *)
Definition isTemp (n : string) : Prop :=
  (∃ t, n = String (Ascii.ascii_of_nat 46) t) ∧
  HasSuffix n ".json" = false ∧ HasSuffix n ".jsonl" = false.

Lemma isTemp_dec n : isTemp n ∨ ¬ isTemp n.
Proof.
  unfold isTemp. destruct (HasSuffix n ".json"), (HasSuffix n ".jsonl"); try (right; naive_solver).
  destruct n as [|c n]; [by right; intros [[? ?] _]|].
  destruct (Ascii.ascii_dec c (Ascii.ascii_of_nat 46)) as [->|Hne]; [left; split; [by eexists|done]|].
  right. by intros [[t [= ? ?]] _].
Qed.

(** A number ends in a digit. *)
Lemma pretty_go_app x s : ∃ t, pretty_N_go x s = (t ++ s)%string.
Proof.
  revert s. induction (N.lt_wf_0 x) as [x _ IH]; intros s.
  destruct (decide (x = 0)%N) as [->|Hx]; [exists ""; by rewrite pretty_N_go_0|].
  rewrite pretty_N_go_step by lia.
  destruct (IH (x `div` 10)%N ltac:(apply N.div_lt; lia) (String (pretty_N_char (x `mod` 10)) s))
    as [t ->].
  exists (t ++ String (pretty_N_char (x `mod` 10)) "")%string. by rewrite <- string_app_assoc.
Qed.

Lemma pretty_last (n : nat) : ∃ t d, pretty n = (t ++ String (pretty_N_char d) "")%string.
Proof.
  change (pretty n) with (pretty (N.of_nat n)). unfold pretty, pretty_N. case_decide.
  { by exists "", 0%N. }
  rewrite pretty_N_go_step by lia.
  destruct (pretty_go_app (N.of_nat n `div` 10) (String (pretty_N_char (N.of_nat n `mod` 10)) ""))
    as [t ->]. by exists t, (N.of_nat n `mod` 10)%N.
Qed.

Lemma temp_isTemp (n : nat) : isTemp (".spool-" +:+ pretty n).
Proof.
  destruct (pretty_last n) as (t & d & ->). split; [by eexists|].
  rewrite string_app_assoc.
  assert (∀ u c, list.last (String.list_ascii_of_string u) = Some c → c ≠ pretty_N_char d →
    HasSuffix ((".spool-" ++ t) ++ String (pretty_N_char d) "")%string u = false) as Hl.
  { intros u c Hu Hne. by eapply HasSuffix_last; [reflexivity|exact Hu|apply not_eq_sym]. }
  assert (∀ c, (Ascii.N_of_ascii c < 48 ∨ 57 < Ascii.N_of_ascii c)%N → c ≠ pretty_N_char d) as Hd.
  { intros c Hc ->. revert Hc. assert (48 ≤ Ascii.N_of_ascii (pretty_N_char d) ≤ 57)%N; [|lia].
    unfold pretty_N_char. repeat case_match; vm_compute; split; discriminate. }
  split; (eapply Hl; [vm_compute; reflexivity|]); apply Hd; vm_compute; auto.
Qed.

(** Files other than [path] and the temporary ones are as they were. *)
Definition agreeExcept (path : string) (f0 f : dir) : Prop :=
  ∀ n, ¬ isTemp n → n ≠ path → f !! n = f0 !! n.

Definition maybeWritten (path : string) (data : bytes) (f0 f : dir) : Prop :=
  agreeExcept path f0 f ∧ (f !! path = f0 !! path ∨ f !! path = Some data).

Lemma agree_temp path f0 f n d :
  isTemp n → agreeExcept path f0 f → agreeExcept path f0 (partial_alter (λ _, d) n f).
Proof.
  intros Hn Hf m Hm Hne. rewrite lookup_partial_alter_ne; [by apply Hf|]. by intros ->.
Qed.

Lemma writeTelemetryFile_spec path data f0 :
  ¬ isTemp path →
  fsrun (λ f, f = f0) (writeTelemetryFile path data)
    (λ _ f, agreeExcept path f0 f ∧ f !! path = Some data) (maybeWritten path data f0).
Proof.
  intros Hp. unfold writeTelemetryFile. intros s0 Hs0.
  unfold mbind, gom_bind, get at 1.
  set (temp := ".spool-" +:+ pretty (tick s0)).
  assert (isTemp temp) as Ht by apply temp_isTemp. clearbody temp.
  assert (temp ≠ path) as Hne by by intros ->.
  set (P0 := λ f : dir, agreeExcept path f0 f ∧ f !! path = f0 !! path).
  assert (∀ f d, P0 f → P0 (partial_alter (λ _, d) temp f)) as HP0.
  { intros f d [H1 H2]. split; [by apply agree_temp|]. by rewrite lookup_partial_alter_ne. }
  assert (∀ f, P0 f → maybeWritten path data f0 f) as HW by (intros f []; split; auto).
  set (Q := λ f : dir, agreeExcept path f0 f ∧ f !! path = Some data).
  assert (∀ f, Q f → maybeWritten path data f0 f) as HQ by (intros f []; split; auto).
  assert (fsrun (λ f, P0 f ∧ f !! temp = Some []) (writeAt temp 0 data;; sys)
    (λ _ f, P0 f ∧ f !! temp = Some data) P0) as Hwrite.
  { eapply (fsrun_bind _ _ (λ _ f, P0 f ∧ f !! temp = Some data)).
    - intros s [HP Hf]. pose proof (writeAt_spec temp 0 data [] (files s) Hf ltac:(done) s eq_refl)
        as Hw. destruct (writeAt temp 0 data s) as [[[]|e|] s']; [|destruct Hw as [->|[k ->]]|done].
      + rewrite Hw. split; [by apply HP0|]. by rewrite lookup_insert_eq.
      + done.
      + by apply HP0.
    - intros []. apply fsrun_sys. by intros f []. }
  assert (fsrun (λ f, P0 f ∧ f !! temp = Some []) (join (writeAt temp 0 data;; sys) sys)
    (λ _ f, P0 f ∧ f !! temp = Some data) P0) as Hjoin.
  { eapply fsrun_join; [exact Hwrite|by apply fsrun_sys..|by intros f []|done]. }
  assert (fsrun (λ f, P0 f ∧ f !! temp = Some data) (rename temp path) (λ _, Q) P0) as Hren.
  { unfold rename. eapply fsrun_bind; [apply fsrun_sys; by intros f []|]. intros [].
    eapply fsrun_bind; [apply fsrun_lookup|]. intros c. intros s [[[H1 H2] H3] H4].
    rewrite H3 in H4. subst c. fs_unfold. cbn. unfold Q.
    split.
    - apply agree_temp; [done|]. intros n Hn Hne'. rewrite insert_partial_alter, lookup_insert_ne by done.
      by apply H1.
    - rewrite lookup_partial_alter_ne by done. by rewrite insert_partial_alter, lookup_insert_eq. }
  assert (fsrun (λ f, P0 f ∧ f !! temp = Some [])
    (join (writeAt temp 0 data;; sys) sys;; rename temp path;; syncTelemetryDirectory)
    (λ _, Q) (maybeWritten path data f0)) as Hbody.
  { eapply fsrun_bind; [eapply fsrun_conseq; [exact Hjoin|done..|exact HW]|]. intros [].
    eapply fsrun_bind; [eapply fsrun_conseq; [exact Hren|done..|exact HW]|]. intros [].
    by apply fsrun_sync_dir. }
  assert (∀ R : dir → Prop, (∀ f, R f → R (partial_alter (λ _, None) temp f)) →
    fsrun R (attempt (remove temp)) (λ _, R) (λ _, False)) as Hrem.
  { intros R HR. eapply fsrun_conseq; [apply (fsrun_attempt (remove temp) R R R)|done| |done].
    - unfold remove. eapply fsrun_bind; [by apply fsrun_sys|]. intros [].
      eapply fsrun_bind; [apply fsrun_lookup|]. intros [d|].
      + apply fsrun_set. intros f [HRf _]. by apply HR.
      + apply fsrun_throw. by intros f [].
    - intros a f. by destruct a. }
  pose proof (fsrun_sys (λ f, f = f0) (λ f, f = f0) (λ f H, H) s0 Hs0) as Hsys.
  destruct (sys s0) as [[[]|e|] s1]; [|by apply HW; rewrite Hsys|done].
  unfold setFile at 1, modify at 1. set (s2 := mkFS _ _ _).
  assert (P0 (files s2) ∧ files s2 !! temp = Some []) as H2.
  { unfold s2. cbn [files]. rewrite Hsys. split; [by apply HP0; split|].
    by rewrite insert_partial_alter, lookup_insert_eq. }
  pose proof (fsrun_attempt _ _ _ _ Hbody s2 H2) as Ha.
  unfold mbind, gom_bind in Ha |- *.
  destruct (attempt _ s2) as [[r|e|] s3]; [|done|done].
  assert (∀ f, maybeWritten path data f0 f → maybeWritten path data f0 (partial_alter (λ _, None) temp f))
    as HWt.
  { intros f [H1 H3]. split; [by apply agree_temp|]. by rewrite lookup_partial_alter_ne. }
  destruct r as [e|].
  - pose proof (Hrem _ HWt s3 Ha) as Hr. destruct (attempt (remove temp) s3) as [[r'|?|] s4]; done.
  - assert (∀ f, Q f → Q (partial_alter (λ _, None) temp f)) as HQt.
    { intros f [H1 H3]. split; [by apply agree_temp|]. by rewrite lookup_partial_alter_ne. }
    pose proof (Hrem Q HQt s3 Ha) as Hr. destruct (attempt (remove temp) s3) as [[r'|?|] s4]; done.
Qed.

(** ** Removing *)
Lemma fsrun_remove n f0 :
  fsrun (λ f, f = f0) (ignoreNotExist (remove n)) (λ _ f, f = delete n f0) (λ f, f = f0).
Proof.
  intros s <-. unfold ignoreNotExist, remove. fs_unfold.
  destruct (oracle s (tick s)); [|done..]. cbn [files]. destruct (files s !! n) as [d|] eqn:Hn; cbn; [done|].
  by rewrite delete_id.
Qed.
