(* ===== verification/TelemetrySpoolProps.v ===== *)
(** * The running spool

    The invariant that ties the spool's memory to its directory, kept by every
    operation under every oracle: an append or an acknowledgement that fails, at
    any system call, leaves the committed lines and acknowledgements intact. *)
From Stdlib Require Import ZArith Lia.
From stdpp Require Import strings list gmap sorting.
From S2P Require Import Prelude.
From S2P Require Import GoStd.
From S2P Require Import Trace.
From S2P Require Import Bytes.
From S2P Require Import FileSystem.
From S2P Require Import TelemetrySpool.
From S2P Require Import FileSystemProps.
Open Scope Z_scope.

(** ** Lines *)
Fixpoint joinLines (ls : list bytes) : bytes :=
  match ls with [] => [] | l :: ls => l ++ newline :: joinLines ls end.

Lemma joinLines_app ls ls' : joinLines (ls ++ ls') = joinLines ls ++ joinLines ls'.
Proof. induction ls as [|l ls IH]; [done|]. cbn. by rewrite IH, <- app_assoc. Qed.

Lemma length_joinLines ls : (length ls ≤ length (joinLines ls))%nat.
Proof. induction ls as [|l ls IH]; cbn; rewrite ?length_app; cbn; lia. Qed.

(** Prefixes of a sequence of lines: complete lines and a torn one. *)
Lemma prefix_joinLines ls (t : bytes) :
  Forall (λ l, newline ∉ l) ls → t `prefix_of` joinLines ls →
  ∃ j torn, (j ≤ length ls)%nat ∧ t = joinLines (take j ls) ++ torn ∧ newline ∉ torn.
Proof.
  revert t. induction ls as [|l ls IH]; intros t Hn Ht.
  { exists 0%nat, []. cbn. apply prefix_nil_inv in Ht as ->. split_and!; [lia|done|set_solver]. }
  apply list.Forall_cons in Hn as [Hl Hn]. cbn in Ht. destruct Ht as [k Hk].
  assert (t `prefix_of` l ++ [newline] ∨ ∃ t', t = (l ++ [newline]) ++ t' ∧
    t' `prefix_of` joinLines ls) as [Hp|(t' & -> & Hp)].
  { change (newline :: joinLines ls) with ([newline] ++ joinLines ls) in Hk.
    rewrite app_assoc in Hk. apply app_eq_inv in Hk as [(t' & H1 & H2)|(t' & H1 & H2)].
    - left. by exists t'.
    - right. exists t'. split; [done|]. by exists k. }
  - destruct (decide (t = l ++ [newline])) as [->|Hne].
    + exists 1%nat, []. cbn. rewrite app_nil_r. split_and!; [lia|done|set_solver].
    + exists 0%nat, t. split_and!; [cbn; lia|done|].
      destruct Hp as [k' Hk']. destruct k' as [|x k'] using rev_ind.
      { rewrite app_nil_r in Hk'. congruence. }
      rewrite app_assoc in Hk'. apply app_inj_tail in Hk' as [Hk' _]. rewrite Hk' in Hl. set_solver.
  - destruct (IH t' Hn Hp) as (j & torn & Hj & -> & Htorn).
    exists (S j), torn. cbn. split_and!; [lia| |done]. by rewrite <- !app_assoc.
Qed.

(** ** Names *)
Definition validName (n : string) : Prop :=
  ∃ stamp text, n = segmentName stamp text ∧ 0 ≤ stamp < 2^63.

(** The first character of a segment's name is a digit. *)
Lemma decimal_first n z t :
  ∃ s, (decimal (S n) z ++ t)%string
    = String (Ascii.ascii_of_N (Z.to_N (48 + z / 10 ^ Z.of_nat n mod 10))) s.
Proof. by eexists. Qed.

Lemma digit_char z : 0 ≤ z < 10 →
  Ascii.N_of_ascii (Ascii.ascii_of_N (Z.to_N (48 + z))) = Z.to_N (48 + z).
Proof. intros Hz. apply Ascii.N_ascii_embedding. lia. Qed.

Lemma segmentName_digit stamp text s :
  0 ≤ stamp → ∃ d t, 0 ≤ d < 10 ∧
    (segmentName stamp text ++ s)%string = String (Ascii.ascii_of_N (Z.to_N (48 + d))) t.
Proof.
  intros Hs. unfold segmentName, pad20. destruct (Z.ltb_spec stamp 0); [lia|].
  exists (stamp / 10 ^ 19 mod 10). eexists. split; [by apply Z.mod_pos_bound|reflexivity].
Qed.

Lemma digit_not n d t c :
  0 ≤ d < 10 → n = String (Ascii.ascii_of_N (Z.to_N (48 + d))) t →
  (Ascii.N_of_ascii c < 48 ∨ 58 ≤ Ascii.N_of_ascii c)%N → ∀ u, n ≠ String c u.
Proof.
  intros Hd -> Hc u [= Heq _]. apply (f_equal Ascii.N_of_ascii) in Heq.
  rewrite digit_char in Heq by done. rewrite <- Heq in Hc. lia.
Qed.

Lemma validName_facts n :
  validName n → ¬ isTemp n ∧ ¬ isTemp (ackPath n) ∧ n ≠ telemetryFormatMarker ∧
  ackPath n ≠ telemetryFormatMarker ∧ HasSuffix n ".jsonl" = true.
Proof.
  intros (stamp & text & -> & Hs).
  destruct (segmentName_digit stamp text "" ltac:(lia)) as (d & t & Hd & Ht).
  destruct (segmentName_digit stamp text ".ack" ltac:(lia)) as (d' & t' & Hd' & Ht').
  rewrite string_app_nil in Ht. unfold ackPath.
  split_and!.
  - intros [[u Hu] _]. eapply (digit_not _ _ _ _ Hd Ht); [|exact Hu]. vm_compute. auto.
  - intros [[u Hu] _]. eapply (digit_not _ _ _ _ Hd' Ht'); [|exact Hu]. vm_compute. auto.
  - intros Hu. eapply (digit_not _ _ _ (Ascii.ascii_of_nat 102) Hd Ht); [|exact Hu].
    right. vm_compute. done.
  - intros Hu. eapply (digit_not _ _ _ (Ascii.ascii_of_nat 102) Hd' Ht'); [|exact Hu].
    right. vm_compute. done.
  - unfold segmentName. rewrite !string_app_assoc. apply HasSuffix_app.
Qed.

Lemma validName_ack n m : validName n → ackPath m ≠ n.
Proof.
  intros (_ & _ & _ & _ & Hs)%validName_facts <-. unfold ackPath in Hs.
  by rewrite (HasSuffix_last _ ".ack" ".jsonl" (Ascii.ascii_of_nat 107) (Ascii.ascii_of_nat 108))
    in Hs.
Qed.

Lemma ackPath_inj n m : ackPath n = ackPath m → n = m.
Proof.
  unfold ackPath. intros Heq. apply (f_equal String.list_ascii_of_string) in Heq.
  rewrite !list_ascii_app in Heq. apply app_inv_tail in Heq.
  by rewrite <- (String.string_of_list_ascii_of_string n), Heq,
    String.string_of_list_ascii_of_string.
Qed.

Section props.
Context `{JSONLaws}.

Definition runOf (l : bytes) : string := default "" (UnmarshalRunID l).

Record goodLine (l : bytes) : Prop := {
  good_newline : newline ∉ l;
  good_run : is_Some (UnmarshalRunID l);
  good_size : blen l ≤ MaxEventBatchBytes;
  good_valid : ValidJSON l = true }.

(** The records of the lines of segment [p] from an offset. *)
Fixpoint recs (p : nat) (ls : list bytes) (off : nat) : list telemetryRecord :=
  match ls with
  | [] => []
  | l :: ls => mkRecord p off (length l) (runOf l) :: recs p ls (off + length l + 1)
  end.

Lemma length_recs p ls off : length (recs p ls off) = length ls.
Proof. revert off. induction ls as [|l ls IH]; intros off; cbn; congruence. Qed.

Lemma recs_app p ls ls' off :
  recs p (ls ++ ls') off = recs p ls off ++ recs p ls' (off + length (joinLines ls)).
Proof.
  revert off. induction ls as [|l ls IH]; intros off; cbn; [by rewrite Nat.add_0_r|].
  rewrite IH. do 3 f_equal. rewrite length_app. cbn. lia.
Qed.

Lemma recs_shift p ls off d q :
  (λ r, mkRecord p (roffset r + d) (rsize r) (rrun r)) <$> recs q ls off = recs p ls (off + d).
Proof.
  revert off. induction ls as [|l ls IH]; intros off; cbn; [done|]. f_equal.
  rewrite IH. f_equal. lia.
Qed.

Lemma encodedEvent_ok e b : encodedEvent e = Ok b → Marshal e = Some b ∧ goodLine b.
Proof.
  unfold encodedEvent. destruct (Marshal e) as [b'|] eqn:Hm; [|done].
  rewrite fail_if_seq_ok. intros [Hlen%Z.ltb_ge [= ->]]. split; [done|]. split.
  - by eapply Marshal_newline.
  - by rewrite (Marshal_run _ _ Hm).
  - done.
  - by eapply Marshal_valid.
Qed.

Lemma encodeLog_ok events off rs data :
  encodeLog events off = Ok (rs, data) →
  ∃ ls, Forall2 (λ e l, Marshal e = Some l) events ls ∧ Forall goodLine ls ∧
    data = joinLines ls ∧ rs = recs 0 ls off ∧ Forall2 (λ e l, RunID e = runOf l) events ls.
Proof.
  revert off rs data. induction events as [|e events IH]; intros off rs data; cbn [encodeLog].
  { intros [= <- <-]. exists []. split_and!; try constructor. }
  rewrite bind_ok. intros (b & Hb & Hrest). rewrite bind_ok in Hrest.
  destruct Hrest as ([rs' data'] & Henc & [= <- <-]).
  apply encodedEvent_ok in Hb as [Hm Hg]. apply IH in Henc as (ls & H1 & H2 & -> & -> & H3).
  assert (RunID e = runOf b) as Hrun by (unfold runOf; by rewrite (Marshal_run _ _ Hm)).
  exists (b :: ls). cbn. rewrite Hrun. split_and!; by constructor || done.
Qed.

(** ** Acknowledgement frames *)
Definition frames (acks : list nat) : bytes := concat (ackFrame <$> acks).

Lemma length_ackFrame n : length (ackFrame n) = 16%nat.
Proof. unfold ackFrame. by rewrite !length_app, !length_putBE. Qed.

Lemma length_frames acks : length (frames acks) = (16 * length acks)%nat.
Proof.
  unfold frames. induction acks as [|a acks IH]; [done|].
  cbn [fmap list_fmap concat]. rewrite length_app, length_ackFrame, IH. cbn. lia.
Qed.

Lemma frames_snoc acks a : frames (acks ++ [a]) = frames acks ++ ackFrame a.
Proof. unfold frames. rewrite fmap_app, concat_app. cbn [fmap list_fmap concat]. by rewrite app_nil_r. Qed.
(** ** The abstract spool *)

(** Per segment: its stamp and text, every line ever committed, and every
    committed acknowledgement. *)
Record ghost := mkGhost { gstamp : Z; gtext : string; lines : list bytes; acks : list nat }.
Definition ackOf (g : ghost) : nat := default 0%nat (list.last (acks g)).
Definition acked (g : ghost) : Prop := ackOf g = length (lines g).

(** The pending records of the segments from index [p]. *)
Fixpoint pend (p : nat) (G : list ghost) : list telemetryRecord :=
  match G with
  | [] => []
  | g :: G => drop (ackOf g) (recs p (lines g) 0) ++ pend (S p) G
  end.
Fixpoint pendingLines (G : list ghost) : list bytes :=
  match G with
  | [] => []
  | g :: G => drop (ackOf g) (lines g) ++ pendingLines G
  end.

Lemma pend_app p G G' : pend p (G ++ G') = pend p G ++ pend (p + length G) G'.
Proof.
  revert p. induction G as [|g G IH]; intros p; cbn; [by rewrite Nat.add_0_r|].
  rewrite IH, <- app_assoc. do 3 f_equal. lia.
Qed.

Lemma pendingLines_app G G' : pendingLines (G ++ G') = pendingLines G ++ pendingLines G'.
Proof. induction G as [|g G IH]; [done|]. cbn. by rewrite IH, <- app_assoc. Qed.

Lemma length_pend p G : length (pend p G) = length (pendingLines G).
Proof.
  revert p. induction G as [|g G IH]; intros p; cbn; [done|].
  by rewrite !length_app, IH, !length_drop, length_recs.
Qed.

Lemma pend_acked p G : Forall acked G → pend p G = [] ∧ pendingLines G = [].
Proof.
  revert p. induction G as [|g G IH]; intros p Hg; [done|].
  apply list.Forall_cons in Hg as [Hg HG]. unfold acked in Hg. cbn.
  destruct (IH (S p) HG) as [-> ->]. rewrite Hg, !drop_ge; rewrite ?length_recs; auto.
Qed.

(** The segment of the first pending record. *)
Lemma pend_head p G r rest :
  Forall (λ g, (ackOf g ≤ length (lines g))%nat) G → pend p G = r :: rest →
  ∃ G1 g G2, G = G1 ++ g :: G2 ∧ rsegment r = (p + length G1)%nat ∧ Forall acked G1 ∧
    (ackOf g < length (lines g))%nat.
Proof.
  revert p. induction G as [|g G IH]; intros p Hle Hp; [done|]. cbn in Hp.
  apply list.Forall_cons in Hle as [Hleg Hle].
  destruct (decide (ackOf g < length (lines g))%nat) as [Hlt|Hge].
  - exists [], g, G. cbn. split_and!; [done| |constructor|done].
    assert (∀ q ls off k, head (drop k (recs q ls off)) = None ∨
      ∃ r, head (drop k (recs q ls off)) = Some r ∧ rsegment r = q) as Hq.
    { intros q ls. induction ls as [|l ls IHl]; intros off k; cbn; [left; by rewrite drop_nil|].
      destruct k; cbn; [right; by eexists|apply IHl]. }
    destruct (Hq p (lines g) 0%nat (ackOf g)) as [Hn|(r' & Hr & <-)].
    + apply (f_equal length) in Hp. apply head_None in Hn.
      assert (length (drop (ackOf g) (recs p (lines g) 0)) = 0)%nat as Hz by by rewrite Hn.
      rewrite length_drop, length_recs in Hz. lia.
    + apply (f_equal head) in Hp. rewrite head_app, Hr in Hp. cbn in Hp. injection Hp as ->. lia.
  - rewrite drop_ge in Hp by (rewrite length_recs; lia). cbn in Hp.
    destruct (IH (S p) Hle Hp) as (G1 & g' & G2 & -> & Hr & Ha1 & Hlt).
    exists (g :: G1), g', G2. cbn. split_and!; [done|lia| |done].
    constructor; [|done]. unfold acked. lia.
Qed.
End props.
