(* ===== verification/TelemetrySpoolInv.v ===== *)
(** * The spool's invariant

    [SpoolInv sent s G]: the spool [s] stores the abstract segments [G], and the
    directory holds their committed lines and acknowledgements whatever a failed
    or interrupted call left behind them.  [sent] bounds how many of the first
    pending events an acknowledgement may have been requested for. *)
From Stdlib Require Import ZArith Lia.
From stdpp Require Import strings list gmap sorting.
From S2P Require Import Prelude.
From S2P Require Import GoStd.
From S2P Require Import Trace.
From S2P Require Import Bytes.
From S2P Require Import FileSystem.
From S2P Require Import TelemetrySpool.
From S2P Require Import FileSystemProps.
From S2P Require Import TelemetrySpoolProps.
Open Scope Z_scope.

Definition maxSegment : Z := 64 * 2^20.

(** ** Names order segments by their stamps *)
Lemma decimal_inj n a b x y :
  0 ≤ a → 0 ≤ b → (decimal n a ++ x)%string = (decimal n b ++ y)%string →
  a mod 10 ^ Z.of_nat n = b mod 10 ^ Z.of_nat n ∧ x = y.
Proof.
  intros Ha Hb. induction n as [|n IH]; intros Heq.
  { change (Z.of_nat 0) with 0. by rewrite Z.pow_0_r, !Z.mod_1_r. }
  injection Heq as Hd Ht. destruct (IH Ht) as [Hm ->]. split; [|done].
  assert (a / 10 ^ Z.of_nat n mod 10 = b / 10 ^ Z.of_nat n mod 10) as Hq.
  { apply (f_equal Ascii.N_of_ascii) in Hd.
    pose proof (Z.mod_pos_bound (a / 10 ^ Z.of_nat n) 10 ltac:(lia)).
    pose proof (Z.mod_pos_bound (b / 10 ^ Z.of_nat n) 10 ltac:(lia)).
    rewrite !digit_char in Hd by lia. lia. }
  rewrite Nat2Z.inj_succ, Z.pow_succ_r, Z.mul_comm by lia.
  rewrite !Z.rem_mul_r by (try apply Z.pow_nonzero; lia). by rewrite Hq, Hm.
Qed.

Lemma segmentName_inj a b x y s t :
  0 ≤ a < 2^63 → 0 ≤ b < 2^63 →
  (segmentName a x ++ s)%string = (segmentName b y ++ t)%string → a = b.
Proof.
  intros Ha Hb. unfold segmentName, pad20.
  destruct (Z.ltb_spec a 0); [lia|]. destruct (Z.ltb_spec b 0); [lia|].
  rewrite <- !string_app_assoc. intros [Heq _]%decimal_inj; [|lia..].
  rewrite !Z.mod_small in Heq; lia.
Qed.

(** Lexicographic order, through the first difference. *)
Lemma string_le_head c d s t :
  (Ascii.N_of_ascii c < Ascii.N_of_ascii d)%N → String.le (String c s) (String d t).
Proof.
  intros Hlt. unfold String.le, String.leb. cbn. unfold Ascii.compare.
  apply N.compare_lt_iff in Hlt. by rewrite Hlt.
Qed.
Lemma string_le_cons c s t : String.le s t → String.le (String c s) (String c t).
Proof.
  unfold String.le, String.leb. cbn. unfold Ascii.compare. by rewrite N.compare_refl.
Qed.

Lemma decimal_le n a b x y :
  0 ≤ a → 0 ≤ b → a mod 10 ^ Z.of_nat n < b mod 10 ^ Z.of_nat n →
  String.le (decimal n a ++ x)%string (decimal n b ++ y)%string.
Proof.
  intros Ha Hb. induction n as [|n IH]; intros Hlt.
  { change (Z.of_nat 0) with 0 in Hlt. rewrite Z.pow_0_r, !Z.mod_1_r in Hlt. lia. }
  rewrite Nat2Z.inj_succ, Z.pow_succ_r, Z.mul_comm in Hlt by lia.
  rewrite !Z.rem_mul_r in Hlt by (try apply Z.pow_nonzero; lia).
  set (p := 10 ^ Z.of_nat n) in *.
  assert (0 < p) as Hp by (apply Z.pow_pos_nonneg; lia).
  pose proof (Z.mod_pos_bound a p Hp). pose proof (Z.mod_pos_bound b p Hp).
  pose proof (Z.mod_pos_bound (a / p) 10 ltac:(lia)). pose proof (Z.mod_pos_bound (b / p) 10 ltac:(lia)).
  change (decimal (S n) a ++ x)%string with
    (String (Ascii.ascii_of_N (Z.to_N (48 + a / p mod 10))) (decimal n a ++ x)%string).
  change (decimal (S n) b ++ y)%string with
    (String (Ascii.ascii_of_N (Z.to_N (48 + b / p mod 10))) (decimal n b ++ y)%string).
  destruct (Z.lt_trichotomy (a / p mod 10) (b / p mod 10)) as [Hd|[Hd|Hd]].
  - apply string_le_head. rewrite !digit_char by lia. lia.
  - rewrite Hd in Hlt |- *. apply string_le_cons, IH. lia.
  - exfalso. clearbody p. clear IH. nia.
Qed.

Lemma segmentName_le a b x y :
  0 ≤ a < b → b < 2^63 → String.le (segmentName a x) (segmentName b y).
Proof.
  intros Ha Hb. unfold segmentName, pad20.
  destruct (Z.ltb_spec a 0); [lia|]. destruct (Z.ltb_spec b 0); [lia|].
  apply decimal_le; [lia..|]. rewrite !Z.mod_small; lia.
Qed.

Section inv.
Context `{JSONLaws}.

(** ** The invariant *)
Definition gname (g : ghost) : string := segmentName (gstamp g) (gtext g).
Definition toSegment (g : ghost) : telemetrySegment :=
  mkSegment (gname g) (length (lines g)) (ackOf g) (length (joinLines (lines g)))
    (16 * length (acks g)).

Record gOk (g : ghost) : Prop := {
  g_stamp : 0 ≤ gstamp g < 2^63;
  g_good : Forall goodLine (lines g);
  g_acks : StronglySorted lt (0%nat :: acks g);
  g_le : (ackOf g ≤ length (lines g))%nat }.

(** What may follow the committed lines: part of a batch whose append failed. *)
Definition tornTail (tail : bytes) : Prop :=
  ∃ ls, Forall goodLine ls ∧ tail `prefix_of` joinLines ls.

(** What may follow the committed acknowledgements: part of a frame, all of it
    only if the client had asked for it. *)
Definition tornAck (sent : nat) (hd : Prop) (g : ghost) (tail : bytes) : Prop :=
  ∃ m, tail `prefix_of` ackFrame m ∧
    ((length tail < telemetryAckFrameBytes)%nat ∨
     hd ∧ (ackOf g < m ≤ length (lines g))%nat ∧ (m ≤ ackOf g + sent)%nat).

Lemma tornAck_nil sent hd g : tornAck sent hd g [].
Proof. exists 0%nat. split; [apply prefix_nil|]. left. unfold telemetryAckFrameBytes. cbn. lia. Qed.

Definition present (f : dir) (sent : nat) (hd : Prop) (g : ghost) : Prop :=
  ∃ tail atail, f !! gname g = Some (joinLines (lines g) ++ tail) ∧ tornTail tail ∧
    blen (joinLines (lines g) ++ tail) ≤ maxSegment ∧
    default [] (f !! ackPath (gname g)) = frames (acks g) ++ atail ∧ tornAck sent hd g atail.

(** A fully acknowledged segment may be gone. *)
Definition fileOk (f : dir) (sent : nat) (hd : Prop) (g : ghost) : Prop :=
  (f !! gname g = None ∧ acked g) ∨ present f sent hd g.

(** A file a failed first append may have left. *)
Definition orphan (f : dir) (G : list ghost) (n : string) (d : bytes) : Prop :=
  validName n ∧ n ∉ gname <$> G ∧ f !! ackPath n = None ∧
  ∃ ls, Forall goodLine ls ∧ d = joinLines ls ∧ blen d ≤ maxSegment.

(** Every file is one of the spool's. *)
Definition known (f : dir) (G : list ghost) (n : string) (d : bytes) : Prop :=
  isTemp n ∨ n = telemetryFormatMarker ∨ n ∈ gname <$> G ∨
  (∃ m, validName m ∧ n = ackPath m) ∨ orphan f G n d.

Lemma known_mono f f' G G' n d :
  known f G n d → gname <$> G = gname <$> G' →
  (∀ m, validName m → m ∉ gname <$> G → f !! ackPath m = None → f' !! ackPath m = None) →
  known f' G' n d.
Proof.
  unfold known, orphan. intros Hk <- Hm.
  destruct Hk as [?|[?|[?|[?|(H1 & H2 & H3 & H4)]]]]; [naive_solver..|].
  do 4 right. auto.
Qed.

Definition nameLt (a b : ghost) : Prop := String.le (gname a) (gname b) ∧ gname a ≠ gname b.

Record FilesInv (f : dir) (sent : nat) (G : list ghost) : Prop := {
  fi_g : Forall gOk G;
  fi_order : StronglySorted nameLt G;
  fi_files : ∀ p g, G !! p = Some g → fileOk f sent (Forall acked (take p G)) g;
  fi_marker : f !! telemetryFormatMarker = None ∨
              f !! telemetryFormatMarker = Some telemetryFormatData;
  fi_known : ∀ n d, f !! n = Some d → known f G n d;
  fi_sent : (sent ≤ length (pendingLines G))%nat }.

Record SpoolInv (sent : nat) (s : telemetrySpool) (G : list ghost) : Prop := {
  inv_files : FilesInv (files (fs s)) sent G;
  inv_segs : segs s = toSegment <$> G;
  inv_stamp : 0 ≤ lastStamp s ∧ Forall (λ g, gstamp g ≤ lastStamp s) G;
  inv_records : records s = pend 0 G;
  inv_bytes : sbytes s = Z.of_nat (sum_list_with rsize (records s));
  inv_active : active s = None ∨ ∃ G' g, G = G' ++ [g] ∧ active s = Some (length G') ∧
    is_Some (files (fs s) !! gname g);
  inv_cleanup : ∀ p, cleanup s = Some p → active s ≠ Some p ∧ ∃ g, G !! p = Some g ∧ acked g }.

(** ** Names of different segments *)
Lemma gname_valid g : gOk g → validName (gname g).
Proof. intros [Hs _ _ _]. by exists (gstamp g), (gtext g). Qed.

Lemma gname_inj G p q g g' :
  StronglySorted nameLt G → G !! p = Some g → G !! q = Some g' → gname g = gname g' → p = q.
Proof.
  intros Hs. revert p q. induction Hs as [|x G Hs IH Hx]; intros p q; [done|].
  rewrite list.Forall_forall in Hx.
  destruct p as [|p], q as [|q]; cbn; [done| | |].
  - intros [= ->] Hq Heq. apply list_elem_of_lookup_2 in Hq. by destruct (Hx _ Hq).
  - intros Hp [= ->] Heq. apply list_elem_of_lookup_2 in Hp. by destruct (Hx _ Hp).
  - intros Hp Hq Heq. f_equal. by apply (IH p q).
Qed.

Lemma stamps_nameLt g g' : gOk g → gOk g' → gstamp g < gstamp g' → nameLt g g'.
Proof.
  intros [? _ _ _] [? _ _ _] Hlt. split; [apply segmentName_le; lia|]. intros Heq.
  assert (gstamp g = gstamp g'); [|lia].
  eapply (segmentName_inj (gstamp g) (gstamp g') (gtext g) (gtext g') "" ""); [lia|lia|].
  unfold gname in Heq. by rewrite Heq.
Qed.

(** Changing one file keeps the other segments. *)
Definition sameFor (f f' : dir) (g : ghost) : Prop :=
  f' !! gname g = f !! gname g ∧ f' !! ackPath (gname g) = f !! ackPath (gname g).

Lemma fileOk_same f f' sent hd g : sameFor f f' g → fileOk f sent hd g → fileOk f' sent hd g.
Proof. intros [H1 H2]. unfold fileOk, present. by rewrite H1, H2. Qed.

Lemma fileOk_weaken f sent sent' (hd hd' : Prop) g :
  (hd → hd') → (hd → ∀ m, (ackOf g < m ≤ length (lines g))%nat → (m ≤ ackOf g + sent)%nat →
    (m ≤ ackOf g + sent')%nat) →
  fileOk f sent hd g → fileOk f sent' hd' g.
Proof.
  intros Hhd Hs [?|(tail & atail & H1 & H2 & H3 & H4 & Ha)]; [by left|right].
  exists tail, atail. split_and!; try done. destruct Ha as (m & Hpre & Hm). exists m.
  split; [done|]. destruct Hm as [?|(? & ? & ?)]; [by left|right]. auto.
Qed.

Lemma sameFor_insert G p q g g' f d :
  Forall gOk G → StronglySorted nameLt G →
  G !! p = Some g → G !! q = Some g' → p ≠ q →
  sameFor f (<[gname g := d]> f) g' ∧ sameFor f (<[ackPath (gname g) := d]> f) g' ∧
  sameFor f (delete (gname g) f) g' ∧ sameFor f (delete (ackPath (gname g)) f) g'.
Proof.
  intros Hg Hs Hp Hq Hne. pose proof Hg as Hg'. rewrite list.Forall_lookup in Hg'.
  assert (gname g ≠ gname g') as Hn by (intros Heq; by eapply Hne, gname_inj).
  assert (ackPath (gname g) ≠ ackPath (gname g')) as Ha by (by intros ?%ackPath_inj).
  pose proof (validName_ack _ (gname g') (gname_valid _ (Hg' p g Hp))) as H1.
  pose proof (validName_ack _ (gname g) (gname_valid _ (Hg' q g' Hq))) as H2.
  unfold sameFor. rewrite !lookup_insert_ne, !lookup_delete_ne by done. done.
Qed.

Lemma sameFor_agree G f f' g :
  Forall gOk G → g ∈ G → agreeExcept telemetryFormatMarker f f' → sameFor f f' g.
Proof.
  intros Hg Hin Hf. rewrite list.Forall_forall in Hg.
  destruct (validName_facts _ (gname_valid _ (Hg g Hin))) as (H1 & H2 & H3 & H4 & _).
  by split; apply Hf.
Qed.

(** ** The format marker *)
Definition markerOk (f : dir) : Prop :=
  f !! telemetryFormatMarker = None ∨ f !! telemetryFormatMarker = Some telemetryFormatData.

Lemma files_agree f f' sent G :
  FilesInv f sent G → agreeExcept telemetryFormatMarker f f' → markerOk f' → FilesInv f' sent G.
Proof.
  intros [Hg Ho Hf Hm Hk Hs] Ha Hm'. split; try done.
  - intros p g Hp. eapply fileOk_same; [|by apply Hf].
    eapply sameFor_agree; [done|by eapply list_elem_of_lookup_2|done].
  - intros n d Hn. destruct (decide (n = telemetryFormatMarker)) as [->|Hne]; [right; by left|].
    destruct (isTemp_dec n) as [|Hnt]; [by left|].
    eapply known_mono; [apply Hk; by rewrite <- (Ha n Hnt Hne)|done|].
    intros m (_ & H1 & _ & H2 & _)%validName_facts _. by rewrite (Ha _ H1 H2).
Qed.
End inv.
