(* ===== verification/TelemetrySpoolOps.v ===== *)
(** * The spool's operations keep the invariant

    [append], [acknowledge] and [marshalPrefix] under every oracle: what they
    return when they succeed, and that a failure at any system call changes
    nothing that was committed. *)
From Stdlib Require Import ZArith Lia.
From stdpp Require Import strings list gmap sorting.
From S2P Require Import Prelude.
From S2P Require Import GoStd.
From S2P Require Import Trace.
From S2P Require Import Bytes.
From S2P Require Import FileSystem.
From S2P Require Import TelemetrySpool.
From S2P Require Import FileSystemProps.
From S2P Require Import TelemetrySpoolProps.
From S2P Require Import TelemetrySpoolInv.
Open Scope Z_scope.

Definition withFs (d : FS) (s : telemetrySpool) : telemetrySpool :=
  mkSpool d (segs s) (records s) (sbytes s) (lastStamp s) (cleanup s) (active s) (formatReady s).

(** File operations on the spool, from their specification on the files. *)
Lemma run_io {A} (m : GoM FS A) (P : telemetrySpool → Prop) (Q : A → telemetrySpool → Prop)
    (E : telemetrySpool → Prop) (Qf : telemetrySpool → A → dir → Prop)
    (Ef : telemetrySpool → dir → Prop) :
  (∀ s, P s → fsrun (λ f, f = files (fs s)) m (Qf s) (Ef s)) →
  (∀ s a d, P s → Qf s a (files d) → Q a (withFs d s)) →
  (∀ s d, P s → Ef s (files d) → E (withFs d s)) →
  run P (io m) Q (λ _, E).
Proof.
  intros Hm HQ HE s HP. specialize (Hm s HP (fs s) eq_refl). unfold io.
  destruct (m (fs s)) as [[a|e|] d]; [by apply HQ|by apply HE|done].
Qed.

Lemma run_pull {S A} (P : S → Prop) (m : GoM S A) Q E :
  (∀ s, P s → run (λ s', s' = s) m Q E) → run P m Q E.
Proof. intros Hm s HP. by apply (Hm s HP s). Qed.

Lemma run_from {S A} (P : S → Prop) s (m : GoM S A) Q E : P s → run P m Q E → run (λ s', s' = s) m Q E.
Proof. intros HP Hm s' ->. by apply Hm. Qed.

Section ops.
Context `{JSONLaws}.

Lemma inv_withFs sent s G d :
  SpoolInv sent s G → FilesInv (files d) sent G →
  (∀ g, g ∈ G → is_Some (files (fs s) !! gname g) → is_Some (files d !! gname g)) →
  SpoolInv sent (withFs d s) G.
Proof.
  intros [Hf Hs Hst Hr Hb Ha Hc] Hf' Hp. split; try done. cbn.
  destruct Ha as [?|(G' & g & -> & Hact & Hg)]; [by left|right].
  exists G', g. split_and!; try done. apply Hp; [set_solver|done].
Qed.

Lemma inv_agree sent s G d :
  SpoolInv sent s G → agreeExcept telemetryFormatMarker (files (fs s)) (files d) →
  markerOk (files d) → SpoolInv sent (withFs d s) G.
Proof.
  intros Hs Ha Hm. apply inv_withFs; [done|eapply files_agree; [by apply Hs|done|done]|].
  intros g Hg. destruct (sameFor_agree G (files (fs s)) (files d) g (fi_g _ _ _ (inv_files _ _ _ Hs))
    Hg Ha) as [-> _]. done.
Qed.

Lemma marker_not_temp : ¬ isTemp telemetryFormatMarker.
Proof. by intros [[t ?] _]. Qed.

(** A file operation that changes no file. *)
Lemma run_io_same {A} (m : GoM FS A) sent G :
  (∀ f0, fsrun (λ f, f = f0) m (λ _ f, f = f0) (λ f, f = f0)) →
  run (λ s, SpoolInv sent s G) (io m) (λ _ s, SpoolInv sent s G) (λ _ s, SpoolInv sent s G).
Proof.
  intros Hm. apply (run_io _ _ _ _ (λ s _ f, f = files (fs s)) (λ s f, f = files (fs s))).
  - intros s _. apply Hm.
  - intros s a d Hs Hd. apply inv_withFs; [done|rewrite Hd; apply Hs|by rewrite Hd].
  - intros s d Hs Hd. apply inv_withFs; [done|rewrite Hd; apply Hs|by rewrite Hd].
Qed.

Lemma open_same n f0 : fsrun (λ f, f = f0) (openFile n) (λ _ f, f = f0) (λ f, f = f0).
Proof.
  eapply fsrun_conseq; [by apply (fsrun_open n (λ f, f = f0) (λ f, f = f0))|done| |done].
  by intros d f [].
Qed.

Lemma run_io_marker sent G :
  run (λ s, SpoolInv sent s G) (io (writeTelemetryFile telemetryFormatMarker telemetryFormatData))
    (λ _ s, SpoolInv sent s G) (λ _ s, SpoolInv sent s G).
Proof.
  apply (run_io _ _ _ _
    (λ s _ f, agreeExcept telemetryFormatMarker (files (fs s)) f ∧
              f !! telemetryFormatMarker = Some telemetryFormatData)
    (λ s, maybeWritten telemetryFormatMarker telemetryFormatData (files (fs s)))).
  - intros s _. by apply writeTelemetryFile_spec, marker_not_temp.
  - intros s a d Hs [Ha Hm]. apply inv_agree; [done|done|by right].
  - intros s d Hs [Ha Hm]. apply inv_agree; [done|done|].
    destruct Hm as [Hm|Hm]; [|by right]. unfold markerOk. rewrite Hm.
    apply (fi_marker _ _ _ (inv_files _ _ _ Hs)).
Qed.

Lemma run_setReady b sent G :
  run (λ s, SpoolInv sent s G) (setReady b) (λ _ s, SpoolInv sent s G) (λ _ s, SpoolInv sent s G).
Proof. intros s [? ? ? ? ? ? ?]. by split. Qed.

Lemma ensureLogFormat_spec sent G :
  run (λ s, SpoolInv sent s G) ensureLogFormat (λ _ s, SpoolInv sent s G)
    (λ _ s, SpoolInv sent s G).
Proof.
  intros s Hs. unfold ensureLogFormat, get. unfold mbind at 1, gom_bind at 1.
  destruct (formatReady s); [done|].
  pose proof (run_io_same _ sent G (open_same telemetryFormatMarker)) as Hopen.
  unfold mbind at 1, gom_bind at 1. pose proof (Hopen s Hs) as H1.
  destruct (io (openFile telemetryFormatMarker) s) as [[info|e|] s1]; [| |done].
  - destruct (256 <? blen info); [done|].
    refine (run_bind _ _ (λ _ s, SpoolInv sent s G) _ _ _ Hopen _ s1 H1).
    intros data. destruct (bool_decide (data = telemetryFormatData)); [apply run_setReady|by apply run_throw].
  - case_bool_decide; [|done].
    refine (run_bind _ _ (λ _ s, SpoolInv sent s G) _ _ _ (run_io_marker sent G) _ s1 H1).
    intros []. apply run_setReady.
Qed.

(** ** Removing an acknowledged segment *)
Lemma files_delete f sent G p g n :
  FilesInv f sent G → G !! p = Some g → acked g →
  n = gname g ∨ (n = ackPath (gname g) ∧ f !! gname g = None) →
  FilesInv (delete n f) sent G.
Proof.
  intros [Hg Ho Hf Hm Hk Hs] Hp Ha Hn.
  assert (n ≠ telemetryFormatMarker) as Hnm.
  { pose proof Hg as Hg'. rewrite list.Forall_lookup in Hg'.
    destruct (validName_facts _ (gname_valid _ (Hg' p g Hp))) as (_ & _ & ? & ? & _).
    by destruct Hn as [->|[-> _]]. }
  split; try done.
  - intros q g' Hq. destruct (decide (p = q)) as [<-|Hne].
    + left. rewrite Hp in Hq. injection Hq as <-. split; [|done].
      destruct Hn as [->|[-> Hnone]]; [by rewrite lookup_delete_eq|].
      by apply lookup_delete_None; right.
    + eapply fileOk_same; [|by apply Hf].
      pose proof (sameFor_insert G p q g g' f [] Hg Ho Hp Hq Hne) as (_ & _ & H1 & H2).
      by destruct Hn as [->|[-> _]].
  - by rewrite lookup_delete_ne.
  - intros m d [_ Hm']%lookup_delete_Some. eapply known_mono; [by apply Hk|done|].
    intros x _ _ Hx. apply lookup_delete_None. by right.
Qed.

Lemma inv_delete sent s G p g n d :
  SpoolInv sent s G → G !! p = Some g → acked g → active s ≠ Some p →
  n = gname g ∨ (n = ackPath (gname g) ∧ files (fs s) !! gname g = None) →
  files d = delete n (files (fs s)) → SpoolInv sent (withFs d s) G.
Proof.
  intros [Hf Hs Hst Hr Hb Ha Hc] Hp Hack Hact Hn Hd. split; try done.
  - cbn [fs withFs]. rewrite Hd. by eapply files_delete.
  - cbn. destruct Ha as [?|(G' & g' & -> & Hact' & Hg)]; [by left|right].
    exists G', g'. split_and!; try done. rewrite Hd.
    assert (p ≠ length G') as Hne by (by intros ->).
    pose proof (sameFor_insert _ p (length G') g g' (files (fs s)) [] (fi_g _ _ _ Hf) (fi_order _ _ _ Hf)
      Hp ltac:(by apply list_lookup_middle) Hne) as (_ & _ & [H1 _] & [H2 _]).
    destruct Hn as [->|[-> _]]; by rewrite ?H1, ?H2.
Qed.

Lemma run_loadSegment p seg (P : telemetrySpool → Prop) E :
  (∀ s, P s → segs s !! p = Some seg) →
  run P (loadSegment p) (λ x s, P s ∧ x = seg) E.
Proof.
  intros Hp s Hs. unfold loadSegment, get, mbind, gom_bind, lift_res, deref.
  by rewrite (Hp s Hs).
Qed.

Lemma inv_lookup sent s G p g :
  SpoolInv sent s G → G !! p = Some g → segs s !! p = Some (toSegment g).
Proof. intros Hs Hp. by rewrite (inv_segs _ _ _ Hs), list_lookup_fmap, Hp. Qed.

Lemma run_io_sync (P : telemetrySpool → Prop) :
  (∀ s d, P s → files d = files (fs s) → P (withFs d s)) →
  run P (io syncTelemetryDirectory) (λ _, P) (λ _, P).
Proof.
  intros HP. apply (run_io _ _ _ _ (λ s _ f, f = files (fs s)) (λ s f, f = files (fs s))).
  - intros s _. by apply fsrun_sync_dir.
  - intros s [] d. apply HP.
  - intros s d. apply HP.
Qed.

Lemma inv_sameFiles sent s G d :
  SpoolInv sent s G → files d = files (fs s) → SpoolInv sent (withFs d s) G.
Proof.
  intros Hs Hd. apply inv_withFs; [done|rewrite Hd; apply Hs|by rewrite Hd].
Qed.

Lemma removeSegment_spec sent G p g act :
  G !! p = Some g → acked g → act ≠ Some p →
  run (λ s, SpoolInv sent s G ∧ active s = act) (removeSegment p)
    (λ _ s, SpoolInv sent s G ∧ active s = act) (λ _ s, SpoolInv sent s G ∧ active s = act).
Proof.
  intros Hp Ha Hne. unfold removeSegment.
  eapply run_bind.
  { apply (run_loadSegment p (toSegment g)). intros s [Hs _]. by eapply inv_lookup. }
  intros seg. apply run_pull. intros s [[Hs Hact] ->]. cbn [name toSegment].
  set (P := λ s, SpoolInv sent s G ∧ active s = act).
  set (P' := λ s, P s ∧ files (fs s) !! gname g = None).
  eapply (run_bind _ _ (λ _, P')).
  - eapply (run_io _ _ _ _ (λ s _ f, f = delete (gname g) (files (fs s))) (λ s f, f = files (fs s))).
    + intros s0 _. apply fsrun_remove.
    + intros s0 [] d -> Hd. split; [split|].
      * eapply inv_delete; eauto. congruence.
      * done.
      * cbn. by rewrite Hd, lookup_delete_eq.
    + intros s0 d -> Hd. split; [by apply inv_sameFiles|done].
  - intros []. eapply (run_bind _ _ (λ _, P')).
    + eapply run_conseq; [apply (run_io_sync P')|done|done|by intros ? ? []].
      intros s0 d [[H1 H2] H3] Hd. split; [split; [by apply inv_sameFiles|done]|]. cbn. by rewrite Hd.
    + intros [].
      eapply (run_io _ _ _ _ (λ s _ f, f = delete (ackPath (gname g)) (files (fs s))) (λ s f, f = files (fs s))).
      * intros s0 _. apply fsrun_remove.
      * intros s0 [] d [[H1 H2] H3] Hd. split; [|done]. eapply inv_delete; eauto. congruence.
      * intros s0 d [[H1 H2] H3] Hd. split; [by apply inv_sameFiles|done].
Qed.
End ops.
