(* ===== verification/TelemetrySpoolAppend.v ===== *)
(** * Appending to the spool

    A batch is appended as a whole or not at all, whatever system call fails. *)
From Stdlib Require Import ZArith Lia.
From stdpp Require Import strings list gmap sorting.
From S2P Require Import Prelude.
From S2P Require Import GoStd.
From S2P Require Import Trace.
From S2P Require Import Bytes.
From S2P Require Import FileSystem.
From S2P Require Import TelemetrySpool.
From S2P Require Import FileSystemProps.
From S2P Require Import TelemetrySpoolProps.
From S2P Require Import TelemetrySpoolInv.
From S2P Require Import TelemetrySpoolOps.
Open Scope Z_scope.

Section append.
Context `{JSONLaws}.

Definition addLines (ls : list bytes) (g : ghost) : ghost :=
  mkGhost (gstamp g) (gtext g) (lines g ++ ls) (acks g).

Lemma gOk_addLines ls g : gOk g → Forall goodLine ls → gOk (addLines ls g).
Proof.
  intros [Hs Hg Ha Hle] Hls. split; cbn; try done; [by apply list.Forall_app_2|].
  rewrite length_app. unfold addLines, ackOf in *. cbn in *. lia.
Qed.

Lemma tornAck_addLines sent hd ls g tail :
  tornAck sent hd g tail → tornAck sent hd (addLines ls g) tail.
Proof.
  intros (m & Hpre & Hm). exists m. split; [done|]. destruct Hm as [?|(? & ? & ?)]; [by left|right].
  split_and!; try done; cbn; rewrite ?length_app; unfold ackOf in *; cbn; lia.
Qed.

Lemma take_snoc_le {A} p (G : list A) g : (p ≤ length G)%nat → take p (G ++ [g]) = take p G.
Proof. intros Hp. by rewrite take_app_le. Qed.

(** Replacing what follows the committed lines of the last segment, and
    committing more lines. *)
Lemma files_append f sent G0 g ls tail :
  FilesInv f sent (G0 ++ [g]) → is_Some (f !! gname g) → Forall goodLine ls → tornTail tail →
  blen (joinLines (lines g ++ ls) ++ tail) ≤ maxSegment →
  FilesInv (<[gname g := joinLines (lines g ++ ls) ++ tail]> f) sent (G0 ++ [addLines ls g]).
Proof.
  intros [Hg Ho Hf Hm Hk Hs] Hsome Hls Htail Hsize.
  assert (gname <$> G0 ++ [addLines ls g] = gname <$> G0 ++ [g]) as Hnames
    by by rewrite !fmap_app.
  pose proof Hg as Hg'. apply list.Forall_app in Hg' as [HG0 [Hgg _]%list.Forall_cons].
  destruct (validName_facts _ (gname_valid _ Hgg)) as (Hnt & _ & Hnm & _ & _).
  split.
  - apply list.Forall_app_2; [done|]. constructor; [by apply gOk_addLines|done].
  - clear -Ho. induction G0 as [|x G0 IH]; cbn in *; [by repeat constructor|].
    inversion Ho as [|? ? Ho' Hx]; subst. constructor; [by apply IH|].
    apply list.Forall_app in Hx as [Hx1 [Hx2 _]%list.Forall_cons].
    apply list.Forall_app_2; [done|]. by constructor.
  - intros p g' Hp. destruct (decide (p = length G0)) as [->|Hne].
    + rewrite list_lookup_middle in Hp by done. injection Hp as <-. right.
      destruct (Hf (length G0) g ltac:(by apply list_lookup_middle))
        as [[Hn _]|(t & atail & _ & _ & _ & Hack & Hta)]; [rewrite Hn in Hsome; by destruct Hsome|].
      exists tail, atail. rewrite take_snoc_le in Hta by done. rewrite take_snoc_le by done.
      change (gname (addLines ls g)) with (gname g).
      rewrite lookup_insert_eq, lookup_insert_ne by (apply not_eq_sym, validName_ack, gname_valid, Hgg).
      split_and!; [done|done|done|done|by apply tornAck_addLines].
    + assert (p < length G0)%nat as Hlt.
      { apply lookup_lt_Some in Hp. rewrite length_app in Hp. cbn in Hp. lia. }
      rewrite lookup_app_l in Hp by done.
      rewrite take_snoc_le by lia.
      assert ((G0 ++ [g]) !! p = Some g') as Hp' by by rewrite lookup_app_l.
      pose proof (Hf p g' Hp') as Hfp. rewrite take_snoc_le in Hfp by lia.
      eapply fileOk_same; [|exact Hfp].
      pose proof (sameFor_insert (G0 ++ [g]) (length G0) p g g' f
        (joinLines (lines g ++ ls) ++ tail) Hg Ho ltac:(by apply list_lookup_middle) Hp' ltac:(lia))
        as [Hsame _]. exact Hsame.
  - by rewrite lookup_insert_ne.
  - intros n d Hn. destruct (decide (n = gname g)) as [->|Hne].
    + right. right. left. rewrite Hnames, fmap_app. set_solver.
    + rewrite lookup_insert_ne in Hn by done. eapply known_mono; [by apply Hk|by rewrite Hnames|].
      intros m _ _ Hx. rewrite lookup_insert_ne; [done|]. apply not_eq_sym, validName_ack, gname_valid, Hgg.
  - rewrite pendingLines_app, length_app in Hs |- *.
    cbn [pendingLines lines addLines] in Hs |- *. change (ackOf (addLines ls g)) with (ackOf g).
    rewrite !app_nil_r, !length_drop in *. rewrite length_app. lia.
Qed.

Lemma tornTail_take ls k : Forall goodLine ls → tornTail (take k (joinLines ls)).
Proof. intros Hls. exists ls. split; [done|]. apply prefix_take. Qed.
Lemma tornTail_nil : tornTail [].
Proof. exists []. split; [constructor|done]. Qed.

(** ** Rolling over *)
Definition fits (n : Z) (s : telemetrySpool) : Prop :=
  ∀ p, active s = Some p → ∃ seg, segs s !! p = Some seg ∧
    Z.of_nat (ssize seg) + n ≤ telemetrySegmentBytes.

Lemma rollOver_spec sent G n :
  run (λ s, SpoolInv sent s G) (rollOver n) (λ _ s, SpoolInv sent s G ∧ fits n s)
    (λ _ s, SpoolInv sent s G).
Proof.
  apply run_pull. intros s Hs s' ->. unfold rollOver. unfold mbind at 1, gom_bind at 1, get at 1.
  destruct (active s) as [p|] eqn:Hact.
  2: { cbn. split; [done|]. intros p Hp. congruence. }
  pose proof Hs as [Hf Hsg Hst Hr Hb Ha Hc].
  destruct Ha as [Ha|(G' & g & HG & Ha & _)]; [congruence|].
  rewrite Hact in Ha. injection Ha as ->.
  assert (G !! length G' = Some g) as Hp by (rewrite HG; by apply list_lookup_middle).
  pose proof (inv_lookup _ _ _ _ _ Hs Hp) as Hseg.
  unfold loadSegment. unfold mbind at 1, gom_bind at 1. unfold mbind at 1, gom_bind at 1.
  unfold get at 1, lift_res, deref. rewrite Hseg. cbn [ssize scount sack toSegment].
  destruct (Z.ltb_spec telemetrySegmentBytes (Z.of_nat (length (joinLines (lines g))) + n)) as [_|Hfit].
  2: { cbn. split; [done|]. intros p Hp'. rewrite Hact in Hp'. injection Hp' as <-.
       eexists. split; [exact Hseg|done]. }
  unfold setActive at 1, modify at 1. unfold mbind at 1, gom_bind at 1.
  set (s1 := mkSpool _ _ _ _ _ _ _ _).
  assert (SpoolInv sent s1 G) as Hs1.
  { split; try done; [by left|]. intros p Hp'. destruct (Hc p Hp') as [_ ?]. by split. }
  destruct (Nat.eqb_spec (ackOf g) (length (lines g))) as [Hack|_].
  2: { cbn. split; [done|]. intros p Hp'. done. }
  pose proof (removeSegment_spec sent G _ g None Hp Hack ltac:(done) s1 (conj Hs1 eq_refl)) as Hrem.
  unfold mbind, gom_bind, attempt.
  destruct (removeSegment (length G') s1) as [[[]|e|] s2]; [| |done]; destruct Hrem as [H1 H2].
  - cbn. split; [done|]. intros p Hp'. congruence.
  - cbn. destruct H1 as [? ? ? ? ? ? Hc2]. split; try done. cbn.
    intros p [= <-]. split; [congruence|]. by exists g.
Qed.

(** ** A new segment *)
Lemma new_name_fresh G g :
  Forall gOk G → gOk g → Forall (λ g', gstamp g' < gstamp g) G → gname g ∉ gname <$> G.
Proof.
  intros HG Hg Hlt (g' & Heq & Hin)%list_elem_of_fmap.
  rewrite list.Forall_forall in HG, Hlt. specialize (HG g' Hin). specialize (Hlt g' Hin).
  assert (gstamp g = gstamp g'); [|lia].
  apply (segmentName_inj _ _ (gtext g) (gtext g') "" "" (g_stamp _ Hg) (g_stamp _ HG)).
  unfold gname in Heq. by rewrite Heq.
Qed.

Lemma sameFor_new G g g' f f' :
  Forall gOk G → gOk g → gname g ∉ gname <$> G → agreeExcept (gname g) f f' → g' ∈ G →
  sameFor f f' g'.
Proof.
  intros HG Hg Hn Ha Hin. rewrite list.Forall_forall in HG. pose proof (HG g' Hin) as Hg'.
  destruct (validName_facts _ (gname_valid _ Hg')) as (H1 & H2 & _).
  split; apply Ha; try done.
  - intros Heq. apply Hn. rewrite <- Heq. by apply list_elem_of_fmap_2.
  - apply validName_ack, gname_valid, Hg.
Qed.

(** The file of a new name exists with the batch, or is as it was. *)
Lemma files_orphan f f' sent G g :
  FilesInv f sent G → gOk g → gname g ∉ gname <$> G → f !! ackPath (gname g) = None →
  maybeWritten (gname g) (joinLines (lines g)) f f' → blen (joinLines (lines g)) ≤ maxSegment →
  FilesInv f' sent G.
Proof.
  intros [HG Ho Hf Hm Hk Hs] Hg Hn Hnoack [Ha Hw] Hsize.
  destruct (validName_facts _ (gname_valid _ Hg)) as (Hnt & Hnta & Hnm & _ & _).
  assert (∀ m, validName m → f !! ackPath m = None → f' !! ackPath m = None) as Hacks.
  { intros m Hm' Hx. destruct (validName_facts _ Hm') as (_ & H1 & _).
    rewrite (Ha _ H1); [done|]. apply validName_ack, gname_valid, Hg. }
  split; try done.
  - intros p g' Hp. eapply fileOk_same; [|by apply Hf].
    eapply sameFor_new; [exact HG|exact Hg|exact Hn|exact Ha|by eapply list_elem_of_lookup_2].
  - rewrite (Ha telemetryFormatMarker); [done|apply marker_not_temp|by apply not_eq_sym].
  - intros n d Hd. destruct (isTemp_dec n) as [|Hnt']; [by left|].
    destruct (decide (n = gname g)) as [->|Hne].
    + destruct Hw as [Hw|Hw].
      * eapply known_mono; [apply Hk; by rewrite <- Hw|done|by auto].
      * rewrite Hd in Hw. injection Hw as ->. do 4 right.
        split; [by apply gname_valid|]. split; [done|].
        split; [by apply Hacks; [apply gname_valid|]|]. exists (lines g).
        split; [by apply Hg|]. done.
    + eapply known_mono; [apply Hk; by rewrite <- (Ha n Hnt' Hne)|done|by auto].
Qed.

Lemma files_new f f' sent G g :
  FilesInv f sent G → gOk g → acks g = [] → Forall (λ g', gstamp g' < gstamp g) G →
  f !! ackPath (gname g) = None → agreeExcept (gname g) f f' → f' !! gname g = Some (joinLines (lines g)) →
  blen (joinLines (lines g)) ≤ maxSegment → FilesInv f' sent (G ++ [g]).
Proof.
  intros [HG Ho Hf Hm Hk Hs] Hg Hacks Hlt Hnoack Ha Hw Hsize.
  pose proof (new_name_fresh G g HG Hg Hlt) as Hn.
  destruct (validName_facts _ (gname_valid _ Hg)) as (Hnt & Hnta & Hnm & Hnma & _).
  split.
  - apply list.Forall_app_2; [done|by apply list.Forall_singleton].
  - clear -Ho Hlt HG Hg. induction G as [|x G IH]; cbn; [by repeat constructor|].
    apply list.Forall_cons in HG as [? HG].
    inversion Ho as [|? ? Ho' Hx]; subst. apply list.Forall_cons in Hlt as [Hx' Hlt].
    constructor; [by apply IH|]. apply list.Forall_app_2; [done|]. apply list.Forall_singleton.
    by apply stamps_nameLt.
  - intros p g' Hp. destruct (decide (p = length G)) as [->|Hne].
    + rewrite list_lookup_middle in Hp by done. injection Hp as <-. right.
      exists [], []. rewrite Hw, (Ha _ Hnta), Hnoack, Hacks by (apply validName_ack, gname_valid, Hg).
      rewrite app_nil_r. split_and!; [done|apply tornTail_nil|done|done|apply tornAck_nil].
    + assert (p < length G)%nat as Hlt'.
      { apply lookup_lt_Some in Hp. rewrite length_app in Hp. cbn in Hp. lia. }
      rewrite lookup_app_l in Hp by done. rewrite take_snoc_le by lia.
      eapply fileOk_same; [|by apply Hf].
      eapply sameFor_new; [exact HG|exact Hg|exact Hn|exact Ha|by eapply list_elem_of_lookup_2].
  - rewrite (Ha telemetryFormatMarker); [done|apply marker_not_temp|by apply not_eq_sym].
  - intros n d Hd. destruct (decide (n = gname g)) as [->|Hne].
    { right. right. left. rewrite fmap_app. set_solver. }
    destruct (isTemp_dec n) as [|Hnt']; [by left|].
    rewrite (Ha n Hnt' Hne) in Hd. destruct (Hk n d Hd) as [?|[?|[?|[?|(H1 & H2 & H3 & H4)]]]].
    + by left.
    + by right; left.
    + right. right. left. rewrite fmap_app. set_solver.
    + by do 3 right; left.
    + do 4 right. split; [done|]. split; [rewrite fmap_app; set_solver|]. split; [|done].
      destruct (validName_facts _ H1) as (_ & H5 & _). rewrite (Ha _ H5); [done|].
      apply validName_ack, gname_valid, Hg.
  - rewrite pendingLines_app, length_app. lia.
Qed.

(** ** What the other operations keep *)

(** No file on disk uses the random text. *)
Definition fresh (text : string) (f : dir) : Prop :=
  ∀ stamp, 0 ≤ stamp < 2^63 →
    f !! segmentName stamp text = None ∧ f !! ackPath (segmentName stamp text) = None.

Lemma fresh_delete text n f : fresh text f → fresh text (delete n f).
Proof. intros Hf stamp Hs. by split; apply lookup_delete_None; right; apply Hf. Qed.

Lemma fresh_agree text f f' :
  fresh text f → agreeExcept telemetryFormatMarker f f' → fresh text f'.
Proof.
  intros Hf Ha stamp Hs. destruct (validName_facts (segmentName stamp text)) as (H1 & H2 & H3 & H4 & _).
  { by exists stamp, text. }
  rewrite (Ha _ H1 H3), (Ha _ H2 H4). by apply Hf.
Qed.

(** The clock's stamp, and freshness. *)
Definition keeps (text : string) {A} (m : Spool A) : Prop := ∀ s,
  lastStamp (m s).2 = lastStamp s ∧
  (fresh text (files (fs s)) → fresh text (files (fs (m s).2))).

Lemma keeps_bind text {A B} (m : Spool A) (k : A → Spool B) :
  keeps text m → (∀ a, keeps text (k a)) → keeps text (m ≫= k).
Proof.
  intros Hm Hk s. unfold mbind, gom_bind. specialize (Hm s).
  destruct (m s) as [[a|e|] s']; cbn in *; [|done..].
  destruct (Hk a s') as [-> ?]. naive_solver.
Qed.

Lemma keeps_io text {A} (m : GoM FS A) :
  (∀ f0, fresh text f0 → fsrun (λ f, f = f0) m (λ _, fresh text) (fresh text)) →
  keeps text (io m).
Proof.
  intros Hm s. unfold io. split; [by destruct (m (fs s))|]. intros Hf.
  specialize (Hm _ Hf (fs s) eq_refl). destruct (m (fs s)) as [[]]; done.
Qed.

Lemma keeps_same text {A} (m : GoM FS A) :
  (∀ f0, fsrun (λ f, f = f0) m (λ _ f, f = f0) (λ f, f = f0)) → keeps text (io m).
Proof.
  intros Hm. apply keeps_io. intros f0 Hf.
  eapply fsrun_conseq; [apply (Hm f0)|done|by intros ? ? ->|by intros ? ->].
Qed.

Lemma keeps_attempt text (m : Spool unit) : keeps text m → keeps text (attempt m).
Proof. intros Hm s. unfold attempt. specialize (Hm s). by destruct (m s) as [[]]. Qed.

Lemma keeps_pure text {A} (m : Spool A) :
  (∀ s, fs (m s).2 = fs s ∧ lastStamp (m s).2 = lastStamp s) → keeps text m.
Proof. intros Hm s. destruct (Hm s) as [-> ->]. done. Qed.

Lemma keeps_loadSegment text p : keeps text (loadSegment p).
Proof. apply keeps_pure. intros s. by split. Qed.

Lemma keeps_removeSegment text p : keeps text (removeSegment p).
Proof.
  assert (∀ n, keeps text (io (ignoreNotExist (remove n)))) as Hrem.
  { intros n. apply keeps_io. intros f0 Hf. eapply fsrun_conseq; [apply (fsrun_remove n f0)|done| |].
    - intros [] f ->. by apply fresh_delete.
    - by intros f ->. }
  apply keeps_bind; [apply keeps_loadSegment|]. intros seg.
  apply keeps_bind; [apply Hrem|]. intros []. apply keeps_bind; [|intros []; apply Hrem].
  apply keeps_same. intros f0. by apply fsrun_sync_dir.
Qed.

Lemma keeps_rollOver text n : keeps text (rollOver n).
Proof.
  unfold rollOver. apply keeps_bind; [by apply keeps_pure|]. intros s.
  destruct (active s) as [p|]; [|by apply keeps_pure].
  apply keeps_bind; [apply keeps_loadSegment|]. intros seg.
  case_match; [|by apply keeps_pure]. apply keeps_bind; [by apply keeps_pure|]. intros [].
  case_match; [|by apply keeps_pure].
  apply keeps_bind; [apply keeps_attempt, keeps_removeSegment|].
  intros [|]; by apply keeps_pure.
Qed.

Lemma keeps_ensureLogFormat text : keeps text ensureLogFormat.
Proof.
  assert (keeps text (io (openFile telemetryFormatMarker))) as Hopen
    by apply keeps_same, open_same.
  unfold ensureLogFormat. apply keeps_bind; [by apply keeps_pure|]. intros s.
  destruct (formatReady s); [by apply keeps_pure|]. apply keeps_bind.
  - intros s'. specialize (Hopen s').
    by destruct (io (openFile telemetryFormatMarker) s') as [[] ?].
  - intros [info|e]; case_match; try by apply keeps_pure.
    + apply keeps_bind; [done|]. intros data. case_match; by apply keeps_pure.
    + apply keeps_bind; [|intros []; by apply keeps_pure]. apply keeps_io. intros f0 Hf.
      eapply fsrun_conseq; [apply (writeTelemetryFile_spec _ _ f0), marker_not_temp|done| |].
      * intros [] f [Ha _]. by eapply fresh_agree.
      * intros f [Ha _]. by eapply fresh_agree.
Qed.

Definition ready (L : Z) (text : string) (s : telemetrySpool) : Prop :=
  lastStamp s = L ∧ fresh text (files (fs s)).

Lemma run_keeps {A} (P : telemetrySpool → Prop) (m : Spool A) (Q : A → telemetrySpool → Prop) E L text :
  keeps text m → run P m Q E →
  run (λ s, P s ∧ ready L text s) m (λ a s, Q a s ∧ ready L text s) E.
Proof.
  intros Hk Hm s [HP [HL Hf]]. specialize (Hm s HP). destruct (Hk s) as [Hk1 Hk2].
  destruct (m s) as [[a|e|] s']; [|done..]. cbn in Hk1, Hk2. split; [done|]. split; [congruence|auto].
Qed.

(** ** Committing a batch in memory *)

(** The files hold the batch [ls] in the last segment, the memory not yet. *)
Record Grown (sent : nat) (G0 : list ghost) (g : ghost) (ls : list bytes)
    (s : telemetrySpool) : Prop := {
  gr_files : FilesInv (files (fs s)) sent (G0 ++ [addLines ls g]);
  gr_segs : segs s = toSegment <$> (G0 ++ [g]);
  gr_stamp : 0 ≤ lastStamp s ∧ Forall (λ g, gstamp g ≤ lastStamp s) (G0 ++ [g]);
  gr_le : (ackOf g ≤ length (lines g))%nat;
  gr_records : records s = pend 0 (G0 ++ [g]);
  gr_bytes : sbytes s = Z.of_nat (sum_list_with rsize (records s));
  gr_active : active s = Some (length G0) ∧ is_Some (files (fs s) !! gname g);
  gr_cleanup : ∀ p, cleanup s = Some p → active s ≠ Some p ∧ ∃ g', G0 !! p = Some g' ∧ acked g' }.

Lemma sum_recs p q ls off off' :
  sum_list_with rsize (recs p ls off) = sum_list_with rsize (recs q ls off').
Proof. revert off off'. induction ls as [|l ls IH]; intros off off'; cbn; [done|]. by rewrite (IH _ (off' + length l + 1)%nat). Qed.

Lemma sum_list_with_app {A} (f : A → nat) l l' :
  sum_list_with f (l ++ l') = (sum_list_with f l + sum_list_with f l')%nat.
Proof. induction l as [|x l IH]; cbn; lia. Qed.

Lemma commitBatch_spec sent G0 g ls (P : Prop) :
  P → run (Grown sent G0 g ls)
    (commitBatch (length ls) (joinLines ls) (recs 0 ls 0) (length G0))
    (λ _ s, P ∧ SpoolInv sent s (G0 ++ [addLines ls g])) (λ _ _, False).
Proof.
  intros HP s [Hf Hsg Hst Hle Hr Hb Ha Hc].
  assert (segs s !! length G0 = Some (toSegment g)) as Hseg.
  { rewrite Hsg, list_lookup_fmap. by rewrite list_lookup_middle. }
  unfold commitBatch, loadSegment, setSegment, setRecords, get, modify, mbind, gom_bind, lift_res, deref.
  rewrite Hseg. cbn [name scount sack ssize ackBytes toSegment records sbytes segs fs lastStamp cleanup active formatReady].
  split; [done|]. rewrite recs_shift. cbn [Nat.add].
  split; cbn [name scount sack ssize ackBytes toSegment records sbytes segs fs lastStamp cleanup active formatReady].
  - done.
  - rewrite Hsg, !fmap_app. cbn.
    rewrite <- (length_fmap toSegment G0) at 1. rewrite insert_app_r_alt by lia.
    rewrite Nat.sub_diag. cbn. f_equal. unfold toSegment. cbn.
    by rewrite joinLines_app, !length_app.
  - split; [apply Hst|]. destruct Hst as [_ [H1 [H2 _]%list.Forall_cons]%list.Forall_app].
    apply list.Forall_app_2; [done|]. by apply list.Forall_singleton.
  - rewrite Hr, !pend_app. cbn [pend Nat.add]. rewrite <- !app_assoc. f_equal.
    rewrite !app_nil_r. cbn [lines addLines]. change (ackOf (addLines ls g)) with (ackOf g).
    rewrite recs_app, drop_app_le by (rewrite length_recs; done). cbn [Nat.add]. done.
  - rewrite sum_list_with_app, Hb, (sum_recs (length G0) 0 ls _ 0). lia.
  - right. exists G0, (addLines ls g). split_and!; [done|apply Ha|apply Ha].
  - intros p Hp. destruct (Hc p Hp) as (? & g' & Hg' & ?). split; [done|]. exists g'.
    split; [|done]. by apply lookup_app_l_Some.
Qed.

(** ** Writing the data *)
Lemma addLines_nil g : addLines [] g = g.
Proof. destruct g. unfold addLines. cbn. by rewrite app_nil_r. Qed.

Lemma writeActive_spec sent s G0 g ls now text :
  SpoolInv sent s (G0 ++ [g]) → active s = Some (length G0) → fits (blen (joinLines ls)) s →
  is_Some (files (fs s) !! gname g) → Forall goodLine ls →
  run (λ s', s' = s) (writeBatch (joinLines ls) now text)
    (λ p s, p = length G0 ∧ Grown sent G0 g ls s) (λ _ s, SpoolInv sent s (G0 ++ [g])).
Proof.
  intros Hs Hact Hfit Hsome Hls s' ->.
  assert ((G0 ++ [g]) !! length G0 = Some g) as Hp by by apply list_lookup_middle.
  pose proof (inv_lookup _ _ _ _ _ Hs Hp) as Hseg.
  destruct (Hfit _ Hact) as (seg & Hseg' & Hsz). rewrite Hseg in Hseg'. injection Hseg' as <-.
  pose proof (inv_files _ _ _ Hs) as Hf.
  destruct (fi_files _ _ _ Hf _ _ Hp) as [[Hn _]|(tail & at' & Hfile & _ & _ & _)];
    [rewrite Hn in Hsome; by destruct Hsome|].
  unfold writeBatch, get, mbind, gom_bind. rewrite Hact.
  unfold loadSegment, get, mbind, gom_bind, lift_res, deref. rewrite Hseg. cbn [name ssize toSegment].
  pose proof (append_spec (gname g) (joinLines ls) (length (joinLines (lines g))) false (files (fs s)))
    as Hw. rewrite Hfile in Hw. cbn [default from_option id] in Hw.
  rewrite take_app_length in Hw.
  specialize (Hw ltac:(rewrite length_app; lia) (fs s) eq_refl).
  assert (∀ k, blen (joinLines (lines g) ++ take k (joinLines ls)) ≤ maxSegment) as Hmax.
  { intros k. rewrite length_app, length_take.
    cbn [ssize toSegment] in Hsz. unfold telemetrySegmentBytes in Hsz. unfold maxSegment. lia. }
  pose proof (λ ls', files_append _ sent G0 g ls' [] Hf Hsome) as Hall.
  unfold io. destruct (appendTelemetryFile _ _ _ _ _) as [[[]|e|] d]; [| |done].
  - split; [done|]. rewrite <- joinLines_app in Hw. destruct Hs as [_ Hsg Hst Hr Hb Ha Hc].
    split; cbn [fs segs lastStamp records sbytes active cleanup]; try done.
    + rewrite Hw. specialize (Hall ls Hls tornTail_nil). rewrite app_nil_r in Hall.
      apply Hall. specialize (Hmax (length (joinLines ls))). by rewrite firstn_all, <- joinLines_app in Hmax.
    + pose proof (fi_g _ _ _ Hf) as Hg. rewrite list.Forall_lookup in Hg. apply (Hg _ _ Hp).
    + split; [done|]. rewrite Hw, lookup_insert_eq. by eexists.
    + intros p Hpc. destruct (Hc p Hpc) as (Hne & g' & Hg' & Hack). split; [done|]. exists g'.
      split; [|done]. rewrite lookup_app_l in Hg'; [done|].
      apply lookup_lt_Some in Hg' as Hlt. rewrite length_app in Hlt. cbn in Hlt.
      assert (p ≠ length G0) by (by intros ->; rewrite Hact in Hne). lia.
  - apply inv_withFs; [done| |].
    + destruct Hw as [->|[k ->]]; [done|]. rewrite Hfile. cbn [default from_option id].
      rewrite take_app_length.
      pose proof (files_append _ sent G0 g [] (take k (joinLines ls)) Hf Hsome
        ltac:(constructor) (tornTail_take ls k Hls)) as Hpart.
      rewrite addLines_nil, app_nil_r in Hpart. by apply Hpart.
    + intros g' Hin Hg'. destruct Hw as [->|[k ->]]; [done|].
      destruct (decide (gname g' = gname g)) as [->|Hne]; [rewrite lookup_insert_eq; by eexists|].
      by rewrite lookup_insert_ne.
Qed.

Lemma writeNew_spec sent s G ls now text :
  SpoolInv sent s G → active s = None → lastStamp s < MaxInt64 → 0 ≤ now ≤ MaxInt64 →
  fresh text (files (fs s)) → Forall goodLine ls → blen (joinLines ls) ≤ maxSegment →
  run (λ s', s' = s) (writeBatch (joinLines ls) now text)
    (λ p s', p = length G ∧
       Grown sent G (mkGhost (Z.max now (lastStamp s + 1)) text [] []) ls s')
    (λ _ s, SpoolInv sent s G).
Proof.
  intros Hs Hact HL Hnow Hfresh Hls Hsize s' ->. pose proof Hs as [Hf Hsg [Hst0 Hst] Hr Hb Ha Hc].
  unfold writeBatch, get, mbind, gom_bind. rewrite Hact.
  unfold MaxInt64 in *. rewrite i64_id by lia.
  set (stamp := Z.max now (lastStamp s + 1)).
  set (g := mkGhost stamp text ls []).
  assert (gOk g) as Hg by (split; cbn; [lia|done|by repeat constructor|lia]).
  assert (Forall (λ g', gstamp g' < gstamp g) G) as Hlt.
  { eapply list.Forall_impl; [exact Hst|]. cbn. lia. }
  change (segmentName stamp text) with (gname g).
  destruct (validName_facts _ (gname_valid _ Hg)) as (Hnt & _).
  assert (files (fs s) !! ackPath (gname g) = None) as Hnoack by (apply (Hfresh stamp); unfold stamp; lia).
  pose proof (writeTelemetryFile_spec (gname g) (joinLines ls) (files (fs s)) Hnt (fs s) eq_refl) as Hw.
  unfold io. destruct (writeTelemetryFile _ _ _) as [[[]|e|] d]; [| |done].
  - destruct Hw as [Hagree Hfile].
    unfold newSegment, setStamp, setActive, modify, get, mbind, gom_bind, mret, gom_ret.
    cbn [fs segs lastStamp records sbytes active cleanup formatReady].
    split; [by rewrite Hsg, length_fmap|].
    split; cbn [fs segs lastStamp records sbytes active cleanup formatReady].
    + change (addLines ls _) with g.
      eapply (files_new _ _ _ _ g); try done.
    + rewrite Hsg, fmap_app. done.
    + split; [lia|]. apply list.Forall_app_2; [|by apply list.Forall_singleton].
      eapply list.Forall_impl; [exact Hst|]. cbn. lia.
    + cbn. lia.
    + rewrite pend_app. cbn. by rewrite app_nil_r.
    + done.
    + split; [by rewrite Hsg, length_fmap|]. change (gname _) with (gname g). rewrite Hfile. by eexists.
    + intros p Hp. destruct (Hc p Hp) as (_ & g' & Hg' & Hack). split; [|by exists g'].
      rewrite Hsg, length_fmap. apply lookup_lt_Some in Hg'. intros [= Heq]. lia.
  - apply inv_withFs; [done| |].
    + eapply files_orphan; [exact Hf|exact Hg|exact (new_name_fresh _ _ (fi_g _ _ _ Hf) Hg Hlt)|exact Hnoack|exact Hw|done].
    + intros g' Hin Hg'.
      destruct (sameFor_new G g g' (files (fs s)) (files d) (fi_g _ _ _ Hf) Hg
        (new_name_fresh _ _ (fi_g _ _ _ Hf) Hg Hlt) (proj1 Hw) Hin) as [-> _]. done.
Qed.

Lemma writeBatch_spec sent G ls now text :
  0 ≤ now ≤ MaxInt64 → Forall goodLine ls → blen (joinLines ls) ≤ maxSegment →
  run (λ s, (SpoolInv sent s G ∧ fits (blen (joinLines ls)) s) ∧
         lastStamp s < MaxInt64 ∧ fresh text (files (fs s)))
    (writeBatch (joinLines ls) now text)
    (λ p s, ∃ G0 g, p = length G0 ∧ Grown sent G0 g ls s ∧ pendingLines (G0 ++ [g]) = pendingLines G)
    (λ _ s, SpoolInv sent s G).
Proof.
  intros Hnow Hls Hsize. apply run_pull. intros s [[Hs Hfit] [HL Hfresh]].
  destruct (inv_active _ _ _ Hs) as [Hact|(G0 & g & -> & Hact & Hsome)].
  - eapply run_conseq; [by eapply writeNew_spec|done| |done].
    intros p s' [-> Hgr]. do 2 eexists. split_and!; [done|exact Hgr|].
    rewrite pendingLines_app. cbn. by rewrite app_nil_r.
  - eapply run_conseq; [by apply (writeActive_spec sent s G0 g)|done| |done].
    intros p s' [-> Hgr]. by exists G0, g.
Qed.

(** ** The whole operation *)
Definition appended (sent : nat) (G : list ghost) (events : list TraceEvent)
    (s : telemetrySpool) : Prop :=
  ∃ G' ls, SpoolInv sent s G' ∧ Forall2 (λ e l, Marshal e = Some l) events ls ∧
    pendingLines G' = pendingLines G ++ ls.

Lemma inv_ackOf sent s G : SpoolInv sent s G → Forall (λ g, (ackOf g ≤ length (lines g))%nat) G.
Proof.
  intros Hs. eapply list.Forall_impl; [apply (fi_g _ _ _ (inv_files _ _ _ Hs))|]. by intros g [].
Qed.

Lemma pendingLines_grown G0 g ls :
  (ackOf g ≤ length (lines g))%nat →
  pendingLines (G0 ++ [addLines ls g]) = pendingLines (G0 ++ [g]) ++ ls.
Proof.
  intros Hle. rewrite !pendingLines_app. cbn [pendingLines lines addLines].
  change (ackOf (addLines ls g)) with (ackOf g).
  by rewrite !app_nil_r, drop_app_le, app_assoc.
Qed.

Lemma append_run sent G events now text :
  0 ≤ now ≤ MaxInt64 →
  run (λ s, SpoolInv sent s G ∧ lastStamp s < MaxInt64 ∧ fresh text (files (fs s)))
    (append events now text)
    (λ _, appended sent G events) (λ _ s, SpoolInv sent s G).
Proof.
  intros Hnow. destruct events as [|e0 events'].
  { apply run_ret. intros s [Hs _]. exists G, []. split_and!; [done|constructor|by rewrite app_nil_r]. }
  set (events := e0 :: events'). change (append events now text) with (appendLog events now text).
  apply run_pull. intros s0 (Hs0 & HL & Hfresh).
  set (P := λ s, SpoolInv sent s G).
  unfold appendLog. eapply run_conseq with (P := λ s, P s ∧ ready (lastStamp s0) text s)
    (Q := λ _, appended sent G events) (E := λ _, P); [|intros s ->; exact (conj Hs0 (conj eq_refl Hfresh))|done|done].
  eapply run_bind; [apply run_keeps; [apply keeps_ensureLogFormat|apply ensureLogFormat_spec]|].
  intros []. destruct (encodeLog events 0) as [[rs data]|e|] eqn:Henc.
  2: { apply run_throw. by intros s []. }
  2: { exfalso. clear -Henc. revert Henc. generalize 0%nat as off. induction events as [|x l IH]; [done|].
       intros off. cbn. unfold encodedEvent. destruct (Marshal x) as [b|]; [|done]. unfold fail_if.
       destruct (_ <? _); [done|]. cbn. destruct (encodeLog l _) as [[]| |] eqn:Hl; [done|done|].
       by intros _; eapply IH. }
  apply run_lift_ok. destruct (encodeLog_ok _ _ _ _ Henc) as (ls & Hm & Hls & -> & -> & _).
  pose proof (list.Forall2_length _ _ _ Hm) as Hlen.
  unfold fail_if. destruct (Z.ltb_spec (64 * 2^20) (blen (joinLines ls))) as [|Hsize].
  { apply run_throw. by intros s []. }
  apply run_lift_ok.
  eapply run_bind; [apply run_keeps; [apply keeps_rollOver|apply rollOver_spec]|]. intros [].
  eapply run_bind.
  { eapply run_conseq; [by apply (writeBatch_spec sent G ls now text)| |done|done].
    intros s [? [-> ?]]. by split. }
  intros p. rewrite Hlen. apply run_pull. intros s (G0 & g & -> & Hgr & Hpend).
  eapply run_conseq; [apply (commitBatch_spec sent G0 g ls (pendingLines (G0 ++ [g]) = pendingLines G) Hpend)| | |done].
  - by intros s' ->.
  - intros [] s' [_ Hs']. exists (G0 ++ [addLines ls g]), ls. split_and!; [done|done|].
    rewrite pendingLines_grown, Hpend; [done|apply Hgr].
Qed.
End append.
