(* ===== verification/TelemetrySpoolAck.v ===== *)
(** * Acknowledging a delivered prefix

    An acknowledgement commits a prefix of the pending events, segment by
    segment; whatever call fails, it commits no event beyond the delivered ones
    and reports exactly what it committed. *)
From Stdlib Require Import ZArith Lia.
From stdpp Require Import strings list gmap sorting.
From S2P Require Import Prelude.
From S2P Require Import GoStd.
From S2P Require Import Trace.
From S2P Require Import Bytes.
From S2P Require Import FileSystem.
From S2P Require Import TelemetrySpool.
From S2P Require Import FileSystemProps.
From S2P Require Import TelemetrySpoolProps.
From S2P Require Import TelemetrySpoolInv.
From S2P Require Import TelemetrySpoolOps.
From S2P Require Import TelemetrySpoolAppend.
Open Scope Z_scope.

Section ack.
Context `{JSONLaws}.

Definition addAck (m : nat) (g : ghost) : ghost :=
  mkGhost (gstamp g) (gtext g) (lines g) (acks g ++ [m]).

Lemma ackOf_addAck m g : ackOf (addAck m g) = m.
Proof. unfold ackOf. cbn. by rewrite list.last_snoc. Qed.

Lemma sorted_snoc (l : list nat) x m :
  StronglySorted lt (x :: l) → (default x (list.last l) < m)%nat → StronglySorted lt (x :: l ++ [m]).
Proof.
  revert x. induction l as [|y l IH]; intros x Hs Hm.
  { cbn in *. constructor; [by repeat constructor|]. by apply list.Forall_singleton. }
  inversion Hs as [|? ? Hs' Hx]; subst. apply list.Forall_cons in Hx as [Hxy Hx].
  assert (StronglySorted lt (y :: l ++ [m])) as Hyl.
  { apply IH; [done|]. rewrite list.last_cons in Hm. by destruct (list.last l). }
  cbn [app]. constructor; [done|]. inversion Hyl as [|? ? _ Hy]; subst. constructor; [done|].
  eapply list.Forall_impl; [exact Hy|]. cbn. lia.
Qed.

Lemma gOk_addAck m g :
  gOk g → (ackOf g < m ≤ length (lines g))%nat → gOk (addAck m g).
Proof.
  intros [Hs Hg Ha Hle] Hm. split; rewrite ?ackOf_addAck; cbn; try done; [|lia].
  apply sorted_snoc; [done|]. unfold ackOf in Hm. lia.
Qed.

Lemma pendingLines_addAck G1 g G2 n :
  Forall acked G1 → (ackOf g + n ≤ length (lines g))%nat →
  pendingLines (G1 ++ addAck (ackOf g + n) g :: G2) = drop n (pendingLines (G1 ++ g :: G2)).
Proof.
  intros Ha Hn. rewrite !pendingLines_app. destruct (pend_acked 0 G1 Ha) as [_ ->]. cbn [app pendingLines].
  rewrite ackOf_addAck. cbn [lines addAck].
  rewrite drop_app_le by (rewrite length_drop; lia). by rewrite drop_drop.
Qed.

Lemma pend_addAck G1 g G2 n :
  Forall acked G1 → (ackOf g + n ≤ length (lines g))%nat →
  pend 0 (G1 ++ addAck (ackOf g + n) g :: G2) = drop n (pend 0 (G1 ++ g :: G2)).
Proof.
  intros Ha Hn. rewrite !pend_app. destruct (pend_acked 0 G1 Ha) as [-> _]. cbn [app pend].
  rewrite ackOf_addAck. cbn [lines addAck].
  rewrite drop_app_le by (rewrite length_drop, length_recs; lia). by rewrite drop_drop.
Qed.

(** ** The files *)

(** Writing the journal of a segment. *)
Lemma known_ackFile f G g d n c :
  Forall gOk G → g ∈ G → (∀ n d, f !! n = Some d → known f G n d) →
  <[ackPath (gname g) := d]> f !! n = Some c → known (<[ackPath (gname g) := d]> f) G n c.
Proof.
  intros Hg Hin Hk Hn. rewrite list.Forall_forall in Hg. specialize (Hg g Hin).
  destruct (decide (n = ackPath (gname g))) as [->|Hne].
  - do 3 right. left. exists (gname g). split; [by apply gname_valid|done].
  - rewrite lookup_insert_ne in Hn by done. eapply known_mono; [by apply Hk|done|].
    intros m _ Hm Hx. rewrite lookup_insert_ne; [done|]. intros Heq%ackPath_inj. apply Hm.
    rewrite <- Heq. by apply list_elem_of_fmap_2.
Qed.

(** Replacing what follows the committed acknowledgements of the first segment
    with pending events. *)
Lemma files_ack_torn f sent G1 g G2 m k :
  FilesInv f sent (G1 ++ g :: G2) → Forall acked G1 →
  (ackOf g < m ≤ length (lines g))%nat → (m ≤ ackOf g + sent)%nat →
  FilesInv (<[ackPath (gname g) := frames (acks g) ++ take k (ackFrame m)]> f) sent
    (G1 ++ g :: G2).
Proof.
  intros [Hg Ho Hf Hm Hk Hs] Ha Hm1 Hm2.
  assert ((G1 ++ g :: G2) !! length G1 = Some g) as Hp by by apply list_lookup_middle.
  pose proof Hg as Hg'. rewrite list.Forall_lookup in Hg'. pose proof (Hg' _ _ Hp) as Hgg.
  destruct (validName_facts _ (gname_valid _ Hgg)) as (_ & _ & _ & Hnm & _).
  split; try done.
  - intros q g' Hq. destruct (decide (q = length G1)) as [->|Hne].
    + rewrite Hp in Hq. injection Hq as <-. right.
      destruct (Hf _ _ Hp) as [[_ Hack]|(t & at' & H1 & H2 & H3 & _)]; [unfold acked in Hack; lia|].
      exists t, (take k (ackFrame m)). rewrite lookup_insert_ne, lookup_insert_eq by apply validName_ack, gname_valid, Hgg.
      split_and!; [done..|]. exists m. rewrite take_app_length.
      split; [apply prefix_take|right]. split_and!; [done|lia..].
    + eapply fileOk_same; [|by apply Hf].
      pose proof (sameFor_insert _ _ q g g' f (frames (acks g) ++ take k (ackFrame m)) Hg Ho Hp Hq ltac:(done)) as (_ & Hsame & _).
      exact Hsame.
  - by rewrite lookup_insert_ne.
  - intros n d Hd. eapply known_ackFile; [done|set_solver|done|exact Hd].
Qed.

Lemma sorted_addAck G1 g G2 m :
  StronglySorted nameLt (G1 ++ g :: G2) →
  StronglySorted nameLt (G1 ++ addAck m g :: G2).
Proof.
  induction G1 as [|x G1 IH]; cbn; intros Hs; inversion Hs as [|? ? Hs' Hx]; subst.
  - by constructor.
  - constructor; [by apply IH|]. apply list.Forall_app in Hx as [H1 [H2 H3]%list.Forall_cons].
    apply list.Forall_app_2; [done|]. by constructor.
Qed.

Lemma names_addAck G1 g G2 m : gname <$> G1 ++ addAck m g :: G2 = gname <$> G1 ++ g :: G2.
Proof. by rewrite !fmap_app. Qed.

Lemma files_ack f sent G1 g G2 n :
  FilesInv f sent (G1 ++ g :: G2) → Forall acked G1 →
  (0 < n)%nat → (ackOf g + n ≤ length (lines g))%nat → (n ≤ sent)%nat →
  FilesInv (<[ackPath (gname g) := frames (acks g) ++ ackFrame (ackOf g + n)]> f) (sent - n)
    (G1 ++ addAck (ackOf g + n) g :: G2).
Proof.
  intros [Hg Ho Hf Hm Hk Hs] Ha Hn0 Hn1 Hn2. set (m := (ackOf g + n)%nat).
  assert ((G1 ++ g :: G2) !! length G1 = Some g) as Hp by by apply list_lookup_middle.
  pose proof Hg as Hg'. rewrite list.Forall_lookup in Hg'. pose proof (Hg' _ _ Hp) as Hgg.
  destruct (validName_facts _ (gname_valid _ Hgg)) as (_ & _ & _ & Hnm & _).
  split.
  - apply list.Forall_app in Hg as [H1 [H2 H3]%list.Forall_cons]. apply list.Forall_app_2; [done|].
    constructor; [|done]. apply gOk_addAck; [done|lia].
  - by apply sorted_addAck.
  - intros q g' Hq. destruct (decide (q = length G1)) as [->|Hne].
    + rewrite list_lookup_middle in Hq by done. injection Hq as <-. right.
      destruct (Hf _ _ Hp) as [[_ Hack]|(t & at' & H1 & H2 & H3 & _)]; [unfold acked in Hack; lia|].
      exists t, []. change (gname (addAck m g)) with (gname g).
      rewrite lookup_insert_ne, lookup_insert_eq by apply validName_ack, gname_valid, Hgg.
      split_and!; [done..| |apply tornAck_nil]. cbn [default from_option id acks addAck].
      by rewrite frames_snoc, app_nil_r.
    + assert ((G1 ++ g :: G2) !! q = Some g') as Hq'.
      { destruct (decide (q < length G1)%nat); [rewrite lookup_app_l in Hq |- * by done; exact Hq|].
        rewrite lookup_app_r in Hq |- * by lia. destruct (q - length G1)%nat eqn:E; [lia|done]. }
      eapply (fileOk_same f).
      { pose proof (sameFor_insert _ _ q g g' f (frames (acks g) ++ ackFrame m) Hg Ho Hp Hq' ltac:(done))
          as (_ & Hsame & _). exact Hsame. }
      destruct (decide (q < length G1)%nat) as [Hlt|Hge].
      * assert (acked g') as Hack.
        { rewrite lookup_app_l in Hq by done. rewrite list.Forall_lookup in Ha. by eapply Ha. }
        eapply fileOk_weaken; [| |by apply Hf].
        { rewrite !take_app_le by lia. done. }
        intros _ x Hx. unfold acked in Hack. lia.
      * assert (¬ Forall acked (take q (G1 ++ g :: G2))) as Hno.
        { rewrite take_app_ge by lia. destruct (q - length G1)%nat eqn:E; [lia|]. cbn.
          intros [_ [Hc _]%list.Forall_cons]%list.Forall_app. unfold acked in Hc. lia. }
        eapply fileOk_weaken; [| |by apply Hf]; done.
  - by rewrite lookup_insert_ne.
  - intros x d Hd. eapply known_mono; [eapply (known_ackFile _ _ g); [exact Hg|set_solver|exact Hk|exact Hd]| |done].
    by rewrite names_addAck.
  - subst m. rewrite pendingLines_addAck, length_drop by done. lia.
Qed.

(** ** One round of the loop *)

(** After the journal of the first segment with pending events was written. *)
Definition journaled (s : telemetrySpool) (p : nat) (seg : telemetrySegment) (d : FS) : telemetrySpool :=
  mkSpool d (<[p := mkSegment (name seg) (scount seg) (sack seg) (ssize seg)
                      (ackBytes seg + telemetryAckFrameBytes)]> (segs s))
    (records s) (sbytes s) (lastStamp s) (cleanup s) (active s) (formatReady s).

Lemma acknowledgeLog_spec sent s G1 g G2 n :
  SpoolInv sent s (G1 ++ g :: G2) → Forall acked G1 →
  (0 < n)%nat → (ackOf g + n ≤ length (lines g))%nat → (n ≤ sent)%nat →
  run (λ s', s' = s) (acknowledgeLog (length G1) (ackOf g + n))
    (λ _ s', ∃ d, s' = journaled s (length G1) (toSegment g) d ∧
       FilesInv (files d) (sent - n) (G1 ++ addAck (ackOf g + n) g :: G2) ∧
       ∀ x, x ∈ G1 ++ g :: G2 → files d !! gname x = files (fs s) !! gname x)
    (λ _ s', SpoolInv sent s' (G1 ++ g :: G2)).
Proof.
  intros Hs Ha Hn0 Hn1 Hn2 s' ->.
  assert ((G1 ++ g :: G2) !! length G1 = Some g) as Hp by by apply list_lookup_middle.
  pose proof (inv_lookup _ _ _ _ _ Hs Hp) as Hseg. pose proof (inv_files _ _ _ Hs) as Hf.
  destruct (fi_files _ _ _ Hf _ _ Hp) as [[_ Hack]|(t & at' & H1 & H2 & H3 & H4 & _)];
    [unfold acked in Hack; lia|].
  unfold acknowledgeLog, loadSegment, get, mbind, gom_bind, lift_res, deref. rewrite Hseg.
  cbn [name ackBytes toSegment].
  pose proof (append_spec (ackPath (gname g)) (ackFrame (ackOf g + n)) (16 * length (acks g)) true
    (files (fs s))) as Hw. rewrite H4, <- length_frames, take_app_length in Hw.
  specialize (Hw ltac:(rewrite length_app; lia) (fs s) eq_refl). rewrite <- length_frames.
  assert (∀ x d, x ∈ G1 ++ g :: G2 →
    <[ackPath (gname g) := d]> (files (fs s)) !! gname x = files (fs s) !! gname x) as Hx.
  { intros x d Hx. apply lookup_insert_ne. apply validName_ack, gname_valid.
    pose proof (fi_g _ _ _ Hf) as Hg. rewrite list.Forall_forall in Hg. by apply Hg. }
  unfold io. destruct (appendTelemetryFile _ _ _ _ _) as [[[]|e|] d]; [| |done].
  - exists d. split; [|split].
    + unfold journaled, setSegment, modify. cbn. by rewrite length_frames.
    + rewrite Hw. by apply files_ack.
    + intros x Hxin. rewrite Hw. by apply Hx.
  - assert (∀ x, x ∈ G1 ++ g :: G2 → files d !! gname x = files (fs s) !! gname x) as Hsame.
    { intros x Hin. destruct Hw as [->|[k ->]]; [done|by apply Hx]. }
    apply inv_withFs; [done| |by intros x Hin; rewrite Hsame].
    destruct Hw as [->|[k ->]]; [done|]. rewrite H4, take_app_length.
    apply files_ack_torn; [done|done|lia|lia].
Qed.

Lemma sum_take_drop n (l : list telemetryRecord) :
  sum_list_with rsize l = (sum_list_with rsize (take n l) + sum_list_with rsize (drop n l))%nat.
Proof. by rewrite <- sum_list_with_app, take_drop. Qed.

Lemma commitAck_spec sent s d G1 g G2 n :
  SpoolInv sent s (G1 ++ g :: G2) → Forall acked G1 → (ackOf g + n ≤ length (lines g))%nat →
  FilesInv (files d) (sent - n) (G1 ++ addAck (ackOf g + n) g :: G2) →
  (∀ x, x ∈ G1 ++ g :: G2 → files d !! gname x = files (fs s) !! gname x) →
  run (λ s', s' = journaled s (length G1) (toSegment g) d)
    (commitAck (length G1) n (ackOf g + n))
    (λ _ s', SpoolInv (sent - n) s' (G1 ++ addAck (ackOf g + n) g :: G2) ∧ active s' = active s)
    (λ _ _, False).
Proof.
  intros [Hf Hsg [Hst0 Hst] Hr Hb Ha Hc] Hack Hn Hf' Hsame s' ->.
  set (g' := addAck (ackOf g + n) g).
  unfold commitAck, setRecords, loadSegment, setSegment, journaled, get, modify, mbind, gom_bind,
    lift_res, deref. cbn [fs segs lastStamp records sbytes active cleanup formatReady].
  rewrite Hsg.
  assert ((length G1 < length (toSegment <$> G1 ++ g :: G2))%nat) as Hlt
    by (rewrite length_fmap, length_app; cbn; lia).
  rewrite list_lookup_insert_eq by done.
  cbn [name scount sack ssize ackBytes toSegment].
  split; [|done]. split; cbn [fs segs lastStamp records sbytes active cleanup formatReady].
  - done.
  - rewrite list_insert_insert_eq, !fmap_app. cbn [fmap list_fmap].
    rewrite <- (length_fmap toSegment G1). rewrite insert_app_r_alt by lia.
    rewrite Nat.sub_diag. cbn. f_equal. unfold toSegment, g'. rewrite ackOf_addAck. cbn.
    rewrite length_app. cbn. unfold telemetryAckFrameBytes. do 2 f_equal. lia.
  - split; [done|]. apply list.Forall_app in Hst as [H1 [H2 H3]%list.Forall_cons].
    apply list.Forall_app_2; [done|]. by constructor.
  - unfold g'. rewrite pend_addAck by done. by rewrite Hr.
  - rewrite Hb, (sum_take_drop n (records s)). lia.
  - destruct Ha as [?|(G' & x & HG & Hact & Hx)]; [by left|right].
    destruct G2 as [|y G2 _] using rev_ind.
    + apply app_inj_tail in HG as [<- <-]. exists G1, g'. split_and!; [done|done|].
      change (gname g') with (gname g). rewrite Hsame; [done|]. set_solver.
    + rewrite app_comm_cons, app_assoc in HG. apply app_inj_tail in HG as [<- <-].
      exists (G1 ++ g' :: G2), y. split_and!.
      * by rewrite app_comm_cons, app_assoc.
      * rewrite Hact. by rewrite !length_app.
      * rewrite Hsame; [done|]. set_solver.
  - intros p Hp. destruct (Hc p Hp) as (Hne & x & Hx & Hax). split; [done|].
    destruct (decide (p = length G1)) as [->|Hne'].
    + rewrite list_lookup_middle in Hx by done. injection Hx as <-. exists g'.
      rewrite list_lookup_middle by done. split; [done|]. unfold acked, g' in *.
      rewrite ackOf_addAck. cbn. lia.
    + exists x. split; [|done]. destruct (decide (p < length G1)%nat).
      * rewrite lookup_app_l in Hx |- * by done. done.
      * rewrite lookup_app_r in Hx |- * by lia. by destruct (p - length G1)%nat eqn:E; [lia|].
Qed.

(** ** The loop *)
Definition acknowledged (sent : nat) (G : list ghost) (from count : nat)
    (r : nat * option string) (s : telemetrySpool) : Prop :=
  (from ≤ r.1 ≤ count)%nat ∧ (r.2 = None → r.1 = count) ∧
  ∃ G', SpoolInv (sent - (r.1 - from)) s G' ∧
    pendingLines G' = drop (r.1 - from) (pendingLines G).

Lemma acknowledged_stop sent G from count e s :
  (from ≤ count)%nat → SpoolInv sent s G → acknowledged sent G from count (from, Some e) s.
Proof.
  intros Hle Hs. split_and!; cbn; [lia|lia|done|]. exists G. rewrite Nat.sub_diag, Nat.sub_0_r.
  by split.
Qed.

Lemma run_attempt {S} (m : GoM S unit) (P Q R : S → Prop) :
  run P m (λ _, Q) (λ _, R) →
  run P (attempt m) (λ r s, match r with None => Q s | Some _ => R s end) (λ _ _, False).
Proof.
  intros Hm s HP. specialize (Hm s HP). unfold attempt. by destruct (m s) as [[[]|e|] s'].
Qed.

Lemma inv_cleanup_set sent s G p g :
  SpoolInv sent s G → G !! p = Some g → acked g → active s ≠ Some p →
  run (λ s', s' = s) (setCleanup (Some p)) (λ _ s, SpoolInv sent s G) (λ _ _, False).
Proof.
  intros [? ? ? ? ? ? Hc] Hp Hg Ha s' ->. split; try done. cbn. intros q [= <-]. by eauto.
Qed.

Lemma acknowledgeLoop_spec fuel sent G from count :
  (count - from ≤ fuel)%nat → (from ≤ count)%nat → (count - from ≤ sent)%nat →
  run (λ s, SpoolInv sent s G) (acknowledgeLoop fuel count from)
    (acknowledged sent G from count) (λ _ _, False).
Proof.
  revert sent G from. induction fuel as [|fuel IH]; intros sent G from Hfuel Hle Hsent;
    cbn [acknowledgeLoop]; destruct (Nat.ltb_spec from count) as [Hlt|Hge]; [lia| | |].
  1, 3: assert (from = count) as -> by lia; apply run_ret; intros s Hs;
    split_and!; cbn; [lia|lia|done|]; exists G; rewrite Nat.sub_diag, Nat.sub_0_r; by split.
  apply run_pull. intros s Hs.
  pose proof (fi_sent _ _ _ (inv_files _ _ _ Hs)) as Hlen.
  destruct (pend 0 G) as [|r0 rest] eqn:Hpend.
  { apply (f_equal length) in Hpend. rewrite length_pend in Hpend. cbn in Hpend. lia. }
  destruct (pend_head 0 G r0 rest (inv_ackOf _ _ _ Hs) Hpend) as (G1 & g & G2 & -> & Hr0 & Hacked & Hltg).
  cbn [Nat.add] in Hr0.
  eapply run_bind; [apply (run_get _ (λ a s', a = s ∧ s' = s)); by intros ? ->|].
  intros s1. apply run_pull. intros s2 [-> ->]. rewrite (inv_records _ _ _ Hs), Hpend. cbn [head deref].
  apply run_lift_ok. rewrite Hr0.
  assert ((G1 ++ g :: G2) !! length G1 = Some g) as Hp by by apply list_lookup_middle.
  eapply run_bind.
  { apply (run_loadSegment _ (toSegment g)). intros ? ->. by eapply inv_lookup. }
  intros seg. apply run_pull. intros s2 [-> ->]. cbn [name scount sack toSegment].
  set (n := Nat.min (count - from) (length (lines g) - ackOf g)).
  set (act := active s).
  pose proof (fi_g _ _ _ (inv_files _ _ _ Hs)) as Hg. rewrite list.Forall_lookup in Hg.
  destruct (validName_facts _ (gname_valid _ (Hg _ _ Hp))) as (_ & _ & _ & _ & Hsuf).
  unfold ackSegment. cbn [name toSegment]. rewrite Hsuf.
  eapply run_bind.
  { apply run_attempt, (acknowledgeLog_spec sent s G1 g G2 n); [done|done|lia..]. }
  intros [e|].
  { apply run_ret. intros s' Hs'. by apply acknowledged_stop; [lia|]. }
  cbv beta iota. apply run_pull. intros s2 (d & -> & Hfd & Hsame).
  eapply run_bind.
  { apply (commitAck_spec sent s d G1 g G2 n); [done|done|lia|done|done]. }
  intros []. set (g' := addAck (ackOf g + n) g). set (G' := G1 ++ g' :: G2).
  assert (pendingLines G' = drop n (pendingLines (G1 ++ g :: G2))) as Hpl
    by (apply pendingLines_addAck; [done|lia]).
  assert (∀ r s', acknowledged (sent - n) G' (from + n) count r s' →
    acknowledged sent (G1 ++ g :: G2) from count r s') as Hconv.
  { intros [c err] s' (Hc & Herr & G'' & HG'' & Hpl''). cbn [fst snd] in *.
    split_and!; cbn [fst snd]; [lia|lia|done|]. exists G''. split.
    - replace (sent - (c - from))%nat with (sent - n - (c - (from + n)))%nat by lia. done.
    - rewrite Hpl'', Hpl, drop_drop. f_equal. lia. }
  assert (run (λ s', SpoolInv (sent - n) s' G' ∧ active s' = active s)
    (acknowledgeLoop fuel count (from + n))
    (acknowledged sent (G1 ++ g :: G2) from count) (λ _ _, False)) as Hrest.
  { eapply run_conseq; [apply (IH (sent - n)%nat G' (from + n)%nat); lia| |exact Hconv|done].
    by intros s' []. }
  apply run_pull. intros s2 [Hs2 Hact2].
  assert (G' !! length G1 = Some g') as Hp' by by apply list_lookup_middle.
  destruct ((ackOf g + n =? length (lines g))%nat && negb (bool_decide (act = Some (length G1))))
    eqn:Hrem.
  2: { eapply run_conseq; [exact Hrest|intros ? ->; by split|done|done]. }
  apply andb_true_iff in Hrem as [Hfull%Nat.eqb_eq Hna%negb_true_iff%bool_decide_eq_false].
  unfold act in Hna. rewrite <- Hact2 in Hna.
  assert (acked g') as Hack' by (unfold acked, g'; rewrite ackOf_addAck; cbn; done).
  eapply run_bind.
  { apply run_attempt.
    eapply run_conseq; [apply (removeSegment_spec (sent - n) G' (length G1) g' (active s2) Hp' Hack' Hna)
      | |intros a s' Hq; exact Hq|intros e s' Hq; exact Hq].
    intros ? ->. by split. }
  intros [e|].
  - apply run_pull. intros s3 [Hs3 Ha3]. eapply run_bind.
    { apply (inv_cleanup_set (sent - n) s3 G' (length G1) g'); [done|done|done|by rewrite Ha3]. }
    intros []. apply run_ret. intros s4 Hs4. apply Hconv. apply acknowledged_stop; [lia|done].
  - eapply run_conseq; [exact Hrest| |done|done]. intros s3 [? Ha3]. split; [done|by rewrite Ha3].
Qed.

Lemma acknowledge_run sent G count :
  (count ≤ Z.of_nat sent) →
  run (λ s, SpoolInv sent s G) (acknowledge count)
    (λ r s, if count <? 0 then r.1 = 0%nat ∧ r.2 ≠ None ∧ SpoolInv sent s G
            else acknowledged sent G 0 (Z.to_nat count) r s) (λ _ _, False).
Proof.
  intros Hcount. apply run_pull. intros s Hs s' ->. unfold acknowledge, get. unfold mbind, gom_bind.
  pose proof (fi_sent _ _ _ (inv_files _ _ _ Hs)) as Hlen.
  rewrite (inv_records _ _ _ Hs), length_pend.
  destruct (Z.ltb_spec count 0); [done|].
  destruct (Z.ltb_spec (Z.of_nat (length (pendingLines G))) count); [lia|]. cbn [orb].
  by apply (acknowledgeLoop_spec (Z.to_nat count) sent G 0 (Z.to_nat count)); [lia..|].
Qed.
End ack.
