(* ===== verification/TelemetrySpoolDisk.v ===== *)
(** * The directory after a crash

    What start-up finds: every segment's complete lines (the committed ones and
    perhaps some of a failed append) and the journal's complete frames (the
    committed ones and perhaps one more the client had asked for).  [restart]
    shows that these are again abstract segments whose pending lines contain
    everything that was neither acknowledged nor delivered. *)
From Stdlib Require Import ZArith Lia.
From stdpp Require Import strings list gmap sorting.
From S2P Require Import Prelude.
From S2P Require Import GoStd.
From S2P Require Import Trace.
From S2P Require Import Bytes.
From S2P Require Import FileSystem.
From S2P Require Import TelemetrySpool.
From S2P Require Import FileSystemProps.
From S2P Require Import TelemetrySpoolProps.
From S2P Require Import TelemetrySpoolInv.
From S2P Require Import TelemetrySpoolAck.
Open Scope Z_scope.

(** ** Sorted lists *)
Section sorted.
Context {A : Type} (R : A → A → Prop) (Rtrans : ∀ x y z, R x y → R y z → R x z)
  (Rirr : ∀ x, ¬ R x x).

Lemma sorted_subset_sublist l1 l2 :
  StronglySorted R l1 → StronglySorted R l2 → (∀ x, x ∈ l1 → x ∈ l2) → l1 `sublist_of` l2.
Proof.
  intros H1 H2. revert l1 H1. induction H2 as [|y l2 H2 IH Hy]; intros l1 H1 Hsub.
  { destruct l1 as [|x l1]; [done|]. exfalso. specialize (Hsub x ltac:(by left)). set_solver. }
  destruct H1 as [|x l1 H1 Hx]; [by apply sublist_nil_l|].
  rewrite list.Forall_forall in Hx, Hy.
  assert (∀ z, z ∈ l1 → z ≠ x) as Hne by (intros z Hz ->; by eapply Rirr, Hx).
  assert (x = y ∨ x ∈ l2) as [->|Hin] by (apply elem_of_cons, Hsub; by left).
  - apply sublist_skip, IH; [done|]. intros z Hz.
    assert (z = y ∨ z ∈ l2) as [->|] by (apply elem_of_cons, Hsub; by right); [|done].
    by destruct (Hne y Hz).
  - apply sublist_cons, IH; [by constructor; [|apply list.Forall_forall]|].
    intros z Hz. assert (z = y ∨ z ∈ l2) as [->|] by (apply elem_of_cons, Hsub, Hz); [|done].
    exfalso. apply elem_of_cons in Hz as [->|Hz]; [by eapply Rirr, Hy|].
    eapply Rirr, Rtrans; [apply (Hx y Hz)|apply (Hy x Hin)].
Qed.
End sorted.

Lemma sublist_Forall2 {A B} (R : A → B → Prop) l l' k :
  l `sublist_of` l' → Forall2 R l' k → ∃ k', k' `sublist_of` k ∧ Forall2 R l k'.
Proof.
  intros Hs. revert k. induction Hs as [|x l l' Hs IH|x l l' Hs IH]; intros k Hk.
  - exists []. by inversion Hk.
  - inversion Hk as [|? y ? k0 Hxy Hk0]; subst. destruct (IH k0 Hk0) as (k' & H1 & H2).
    exists (y :: k'). split; [by apply sublist_skip|by constructor].
  - inversion Hk as [|? y ? k0 Hxy Hk0]; subst. destruct (IH k0 Hk0) as (k' & H1 & H2).
    exists k'. split; [by apply sublist_cons|done].
Qed.

Lemma Forall_exists_Forall2 {A B} (R : A → B → Prop) l :
  Forall (λ x, ∃ y, R x y) l → ∃ k, Forall2 R l k.
Proof.
  induction 1 as [|x l [y Hy] _ [k IH]]; [by exists []; constructor|].
  exists (y :: k). by constructor.
Qed.

Lemma sublist_drop_le {A} n m (l : list A) : (m ≤ n)%nat → drop n l `sublist_of` drop m l.
Proof.
  intros Hle. replace n with (m + (n - m))%nat by lia. rewrite <- drop_drop. apply sublist_drop.
Qed.

(** ** Reading back what was written *)
Lemma readLines_tail line tail : newline ∉ tail → readLines line tail = ([], line ++ tail).
Proof.
  revert line. induction tail as [|b tail IH]; intros line Hn; cbn; [by rewrite app_nil_r|].
  destruct (Z.eqb_spec b newline) as [->|_]; [set_solver|].
  rewrite IH by set_solver. by rewrite <- app_assoc.
Qed.

Lemma readLines_line line l rest :
  newline ∉ l →
  readLines line (l ++ newline :: rest) =
  (let '(ls, tail) := readLines [] rest in ((line ++ l) :: ls, tail)).
Proof.
  revert line. induction l as [|b l IH]; intros line Hn.
  { change ([] ++ newline :: rest) with (newline :: rest). cbn [readLines].
    rewrite Z.eqb_refl. by rewrite app_nil_r. }
  change ((b :: l) ++ newline :: rest) with (b :: (l ++ newline :: rest)). cbn [readLines].
  destruct (Z.eqb_spec b newline) as [->|_]; [set_solver|].
  rewrite IH by set_solver. rewrite <- app_assoc. done.
Qed.

Lemma readLines_joinLines ls tail :
  Forall (λ l, newline ∉ l) ls → newline ∉ tail →
  readLines [] (joinLines ls ++ tail) = (ls, tail).
Proof.
  intros Hls Ht. induction Hls as [|l ls Hl _ IH]; [by apply readLines_tail|].
  cbn [joinLines]. rewrite <- app_assoc. change ((newline :: joinLines ls) ++ tail) with
    (newline :: (joinLines ls ++ tail)). by rewrite readLines_line, IH.
Qed.

Section disk.
Context `{JSONLaws}.

Lemma lineRecords_recs p ls off :
  Forall goodLine ls → lineRecords p ls off = Ok (recs p ls off).
Proof.
  intros Hls. revert off. induction Hls as [|l ls [Hn [run Hrun] Hsize Hv] _ IH]; intros off; [done|].
  cbn [lineRecords recs]. unfold fail_if. destruct (Z.ltb_spec MaxEventBatchBytes (blen l)); [lia|].
  cbn. unfold runOf. rewrite Hrun. rewrite IH. done.
Qed.

Lemma ackFrame_valid m :
  Z.of_nat m < 2^64 →
  validFrame (ackFrame m) = true ∧ getBE (take 8 (drop 4 (ackFrame m))) = Z.of_nat m.
Proof.
  intros Hm. unfold validFrame. rewrite length_ackFrame.
  unfold ackFrame. set (head := putBE 4 telemetryAckMagic ++ putBE 8 (Z.of_nat m)).
  assert (length head = 12%nat) as Hlen by (unfold head; by rewrite length_app, !length_putBE).
  assert (take 12 (head ++ putBE 4 (ChecksumIEEE head)) = head) as H12
    by by apply take_app_length'.
  assert (drop 12 (head ++ putBE 4 (ChecksumIEEE head)) = putBE 4 (ChecksumIEEE head)) as Hd12
    by by apply drop_app_length'.
  assert (take 4 (head ++ putBE 4 (ChecksumIEEE head)) = putBE 4 telemetryAckMagic) as H4.
  { unfold head. rewrite <- app_assoc. apply take_app_length'. by rewrite length_putBE. }
  assert (take 8 (drop 4 (head ++ putBE 4 (ChecksumIEEE head))) = putBE 8 (Z.of_nat m)) as H8.
  { unfold head at 1. rewrite <- app_assoc, drop_app_length' by by rewrite length_putBE.
    apply take_app_length'. by rewrite length_putBE. }
  rewrite H12, Hd12, H4, H8. rewrite !getBE_putBE; [|lia| |unfold telemetryAckMagic; lia].
  2: { apply ChecksumIEEE_range. apply list.Forall_app_2; apply putBE_bytes. }
  split; [|done]. rewrite !Z.eqb_refl. done.
Qed.

(** ** One segment *)

(** The files of a segment of which only torn pieces follow the committed ones. *)
Definition clean (f : dir) (g : ghost) : Prop :=
  gOk g ∧ ∃ tail atail, f !! gname g = Some (joinLines (lines g) ++ tail) ∧
    newline ∉ tail ∧ tornTail tail ∧ blen (joinLines (lines g) ++ tail) ≤ maxSegment ∧
    default [] (f !! ackPath (gname g)) = frames (acks g) ++ atail ∧
    (length atail < telemetryAckFrameBytes)%nat ∧ ∃ m, atail `prefix_of` ackFrame m.

(** How the segment found on disk extends the committed one. *)
Definition extends (sent : nat) (hd : Prop) (g g' : ghost) : Prop :=
  (∃ extra, lines g' = lines g ++ extra) ∧
  (acks g' = acks g ∨
   hd ∧ ∃ m, acks g' = acks g ++ [m] ∧ (ackOf g < m ≤ length (lines g))%nat ∧
     (m ≤ ackOf g + sent)%nat).

Lemma tornTail_split tail :
  tornTail tail → ∃ extra torn, tail = joinLines extra ++ torn ∧ newline ∉ torn ∧
    Forall goodLine extra ∧ tornTail torn.
Proof.
  intros (ls & Hls & Hpre).
  assert (Forall (λ l, newline ∉ l) ls) as Hnl by (eapply list.Forall_impl; [exact Hls|by intros l []]).
  destruct (prefix_joinLines ls tail Hnl Hpre) as (j & torn & Hj & -> & Htorn).
  exists (take j ls), torn. split_and!; [done|done|by apply list.Forall_take|].
  exists (drop j ls). split; [by apply list.Forall_drop|].
  destruct Hpre as [k Hk]. exists k. rewrite <- (take_drop j ls), joinLines_app in Hk at 1.
  rewrite <- app_assoc in Hk. by apply app_inv_head in Hk.
Qed.

Lemma canon_present f sent hd g :
  gOk g → present f sent hd g → ∃ g', clean f g' ∧ gname g' = gname g ∧ extends sent hd g g'.
Proof.
  intros Hg (tail & atail & Hf & Htail & Hsize & Hack & (m & Hm & Hcase)).
  destruct (tornTail_split tail Htail) as (extra & torn & -> & Hn & Hextra & Htorn).
  assert (gOk (mkGhost (gstamp g) (gtext g) (lines g ++ extra) (acks g))) as Hg1.
  { destruct Hg as [Hs Hgood Ha Hle]. split; cbn; [done|by apply list.Forall_app_2|done|].
    unfold ackOf in *. cbn. rewrite length_app. lia. }
  rewrite app_assoc in Hf, Hsize. rewrite <- joinLines_app in Hf, Hsize.
  destruct (decide (length atail < telemetryAckFrameBytes)%nat) as [Hlt|Hge].
  - exists (mkGhost (gstamp g) (gtext g) (lines g ++ extra) (acks g)). split_and!.
    + split; [done|]. exists torn, atail. split_and!; try done. by exists m.
    + done.
    + split; [by exists extra|by left].
  - destruct Hcase as [?|(Hhd & Hm1 & Hm2)]; [lia|].
    assert (atail = ackFrame m) as ->.
    { destruct Hm as [k Hk]. destruct k as [|x k]; [by rewrite app_nil_r in Hk|].
      apply (f_equal length) in Hk. rewrite length_ackFrame, length_app in Hk. cbn in Hk.
      unfold telemetryAckFrameBytes in Hge. lia. }
    exists (addAck m (mkGhost (gstamp g) (gtext g) (lines g ++ extra) (acks g))). split_and!.
    + split; [apply gOk_addAck; [done|]; unfold ackOf in *; cbn; rewrite length_app; lia|].
      exists torn, []. change (gname (addAck m _)) with (gname g). cbn [lines acks addAck].
      split_and!; try done.
      * by rewrite Hack, frames_snoc, app_nil_r.
      * unfold telemetryAckFrameBytes. cbn. lia.
      * exists m. apply prefix_nil.
    + done.
    + split; [by exists extra|right]. split; [done|]. by exists m.
Qed.

Lemma canon_orphan f G n d :
  f !! n = Some d → orphan f G n d → ∃ g', clean f g' ∧ gname g' = n.
Proof.
  intros Hf ((stamp & text & -> & Hs) & _ & Hnoack & ls & Hls & -> & Hsize).
  exists (mkGhost stamp text ls []). split; [|done]. split.
  - split; cbn; [done|done|by repeat constructor|lia].
  - exists [], []. change (gname _) with (segmentName stamp text). cbn [lines acks].
    rewrite !app_nil_r, Hnoack. split_and!; [done|set_solver|by exists []|done|done| |].
    + unfold telemetryAckFrameBytes. cbn. lia.
    + exists 0%nat. apply prefix_nil.
Qed.

Lemma clean_present f sent hd g : clean f g → present f sent hd g.
Proof.
  intros [Hg (tail & atail & Hf & _ & Ht & Hs & Ha & Hl & m & Hm)].
  exists tail, atail. split_and!; try done. exists m. split; [done|by left].
Qed.

(** ** What is pending after the restart *)
Definition onDisk (f : dir) (g : ghost) : Prop := is_Some (f !! gname g).
#[local] Instance onDisk_dec f g : Decision (onDisk f g).
Proof. unfold onDisk. apply _. Defined.

Lemma extends_pending sent hd g g' :
  gOk g → extends sent hd g g' →
  (¬ hd → drop (ackOf g) (lines g) `sublist_of` drop (ackOf g') (lines g')) ∧
  ∀ rest, drop sent (drop (ackOf g) (lines g) ++ rest) `sublist_of`
          drop (ackOf g') (lines g') ++ rest.
Proof.
  intros [_ _ _ Hle] [[extra ->] Hack].
  assert (ackOf g' = ackOf g ∨ hd ∧ (ackOf g < ackOf g' ≤ length (lines g))%nat ∧
    (ackOf g' ≤ ackOf g + sent)%nat) as Hc.
  { destruct Hack as [Ha|(Hhd & m & Ha & H1 & H2)]; unfold ackOf; rewrite Ha; [by left|right].
    rewrite list.last_snoc. cbn. done. }
  split.
  - intros Hhd. destruct Hc as [->|[? _]]; [|done]. rewrite drop_app_le by lia. by apply sublist_inserts_r.
  - intros rest. etransitivity; [apply (sublist_drop_le _ (ackOf g' - ackOf g))|].
    { destruct Hc as [->|(_ & H1 & H2)]; lia. }
    rewrite drop_app_le by (rewrite length_drop; destruct Hc as [->|(_ & H1 & H2)]; lia).
    rewrite drop_drop. rewrite drop_app_le by (destruct Hc as [->|(_ & H1 & H2)]; lia).
    replace (ackOf g + (ackOf g' - ackOf g))%nat with (ackOf g') by (destruct Hc as [->|(_ & H1 & H2)]; lia).
    rewrite <- app_assoc. apply sublist_app; [done|]. by apply sublist_inserts_l.
Qed.

Lemma sublist_pending G G' : G `sublist_of` G' → pendingLines G `sublist_of` pendingLines G'.
Proof.
  induction 1 as [|g G G' _ IH|g G G' _ IH]; cbn; [done| |].
  - by apply sublist_app.
  - by apply sublist_inserts_l.
Qed.

(** Segments behind the head of the queue. *)
Lemma pending_behind f sent (hd : Prop) G Gp :
  ¬ hd → Forall gOk G → (∀ g, g ∈ G → ¬ onDisk f g → acked g) →
  Forall2 (extends sent hd) (filter (onDisk f) G) Gp →
  pendingLines G `sublist_of` pendingLines Gp.
Proof.
  intros Hhd Hg. revert Gp. induction Hg as [|g G Hg _ IH]; intros Gp Hgone Hrel.
  { by inversion Hrel. }
  rewrite filter_cons in Hrel. destruct (decide (onDisk f g)) as [Hd|Hd].
  - inversion Hrel as [|? g' ? Gp' Hext Hrel']; subst. cbn.
    apply sublist_app; [by eapply extends_pending|]. apply IH; [|done]. intros x Hx. apply Hgone. by right.
  - cbn. pose proof (Hgone g ltac:(by left) Hd) as Hack. unfold acked in Hack. rewrite Hack.
    rewrite drop_ge by done. apply IH; [|done]. intros x Hx. apply Hgone. by right.
Qed.

(** From the head: [pre] are the segments before it, all acknowledged. *)
Lemma pending_head f sent pre G Gp :
  Forall acked pre → Forall gOk G → (∀ g, g ∈ G → ¬ onDisk f g → acked g) →
  (∀ p g, G !! p = Some g → ∀ g', g' ∈ Gp → gname g' = gname g →
     extends sent (Forall acked (pre ++ take p G)) g g') →
  gname <$> filter (onDisk f) G = gname <$> Gp →
  drop sent (pendingLines G) `sublist_of` pendingLines Gp.
Proof.
  intros Hpre Hg. revert pre Gp Hpre. induction Hg as [|g G Hg HG IH]; intros pre Gp Hpre Hgone Hrel Hnames.
  { cbn. rewrite drop_nil. apply sublist_nil_l. }
  rewrite filter_cons in Hnames.
  assert (∀ x, x ∈ G → ¬ onDisk f x → acked x) as Hgone' by (intros x Hx; apply Hgone; by right).
  destruct (decide (onDisk f g)) as [Hd|Hd].
  2: { pose proof (Hgone g ltac:(by left) Hd) as Hack.
    cbn [pendingLines]. pose proof Hack as Hack'. unfold acked in Hack'. rewrite Hack', (drop_ge (lines g)) by done. cbn [app].
    apply (IH (pre ++ [g]) Gp); [by apply list.Forall_app_2; [|apply list.Forall_singleton]|done| |done].
    intros p x Hx g' Hg' Hn. rewrite <- app_assoc. by apply (Hrel (S p) x). }
  destruct Gp as [|g' Gp]; [done|]. cbn [fmap list_fmap] in Hnames. injection Hnames as Hn Hnames.
  pose proof (Hrel 0%nat g eq_refl g' ltac:(by left) (eq_sym Hn)) as Hext.
  cbn [take] in Hext. rewrite app_nil_r in Hext.
  cbn [pendingLines]. destruct (decide (ackOf g = length (lines g))) as [Hack|Hnack].
  - rewrite Hack, (drop_ge (lines g)) by done. cbn [app].
    apply sublist_inserts_l. apply (IH (pre ++ [g]) Gp);
      [by apply list.Forall_app_2; [|apply list.Forall_singleton]|done| |done].
    intros p x Hx y Hy Hyn. rewrite <- app_assoc. apply (Hrel (S p) x Hx y); [by right|done].
  - etransitivity; [by apply (extends_pending _ _ _ _ Hg Hext)|]. apply sublist_app; [done|].
    apply (pending_behind f sent False); [by intros []|done|done|].
    apply Forall2_same_length_lookup_2.
    { apply (f_equal length) in Hnames. by rewrite !length_fmap in Hnames. }
    intros i x y Hx Hy.
    assert (x ∈ G) as Hin.
    { apply list_elem_of_lookup_2, list_elem_of_filter in Hx as [_ Hx]. done. }
    apply list_elem_of_lookup_1 in Hin as [p Hp].
    assert (gname y = gname x) as Hyx.
    { apply (f_equal (.!! i)) in Hnames. rewrite !list_lookup_fmap, Hx, Hy in Hnames. by injection Hnames. }
    destruct (Hrel (S p) x Hp y) as [H1 H2]; [right; by eapply list_elem_of_lookup_2|done|].
    split; [done|]. destruct H2 as [?|[Hall _]]; [by left|exfalso].
    apply list.Forall_app in Hall as [_ Hall]. cbn in Hall. apply list.Forall_cons in Hall as [Hall _].
    by unfold acked in Hall.
Qed.

(** ** The directory listing *)
Definition isSegmentName (n : string) : Prop :=
  HasSuffix n ".json" = true ∨ HasSuffix n ".jsonl" = true.
Definition logNames (d : FS) : list string := filter (.≠ telemetryFormatMarker) (segmentNames d).

Lemma elem_of_segmentNames d n :
  n ∈ segmentNames d ↔ is_Some (files d !! n) ∧ isSegmentName n.
Proof.
  unfold segmentNames. rewrite merge_sort_Permutation, list_elem_of_filter, list_elem_of_fmap.
  split.
  - intros [Hs ([n' c] & -> & Hin)]. apply elem_of_map_to_list in Hin. split; [by eexists|done].
  - intros [[c Hc] Hs]. split; [done|]. exists (n, c). split; [done|]. by apply elem_of_map_to_list.
Qed.

Lemma elem_of_logNames d n :
  n ∈ logNames d ↔ n ≠ telemetryFormatMarker ∧ is_Some (files d !! n) ∧ isSegmentName n.
Proof. unfold logNames. by rewrite list_elem_of_filter, elem_of_segmentNames. Qed.

Definition nameOrder (a b : string) : Prop := String.le a b ∧ a ≠ b.
Lemma nameOrder_irrefl a : ¬ nameOrder a a.
Proof. by intros []. Qed.
Lemma nameOrder_trans a b c : nameOrder a b → nameOrder b c → nameOrder a c.
Proof.
  intros [H1 H2] [H3 H4]. split; [by etransitivity|]. intros ->. apply H2. by apply (anti_symm String.le).
Qed.

Lemma logNames_sorted d : StronglySorted nameOrder (logNames d).
Proof.
  unfold logNames. assert (StronglySorted nameOrder (segmentNames d)) as Hs.
  { assert (NoDup (segmentNames d)) as Hnd.
    { unfold segmentNames. rewrite merge_sort_Permutation. apply list.NoDup_filter, NoDup_fst_map_to_list. }
    assert (StronglySorted String.le (segmentNames d)) as Hs.
    { apply Sorted_StronglySorted; [intros x y z; apply transitivity|]. apply Sorted_merge_sort. apply _. }
    revert Hnd. induction Hs as [|n l Hs IH Hn]; intros Hnd; [constructor|].
    apply list.NoDup_cons in Hnd as [Hni Hnd]. constructor; [by apply IH|].
    rewrite list.Forall_forall in Hn |- *. intros m Hm. split; [by apply Hn|]. by intros ->. }
  induction Hs as [|n l Hs IH Hn]; [constructor|]. rewrite filter_cons. case_decide; [|done].
  constructor; [done|]. rewrite list.Forall_forall in Hn |- *. intros m Hm.
  apply Hn. by apply list_elem_of_filter in Hm as [_ ?].
Qed.

Lemma ackPath_not_segment n : ¬ isSegmentName (ackPath n).
Proof.
  unfold isSegmentName, ackPath.
  rewrite (HasSuffix_last n ".ack" ".json" (Ascii.ascii_of_nat 107) (Ascii.ascii_of_nat 110)),
    (HasSuffix_last n ".ack" ".jsonl" (Ascii.ascii_of_nat 107) (Ascii.ascii_of_nat 108)) by done.
  naive_solver.
Qed.

(** The listing finds the segments of the spool, and files of failed appends. *)
Lemma logNames_known sent G d n :
  FilesInv (files d) sent G → n ∈ logNames d →
  (∃ p g, G !! p = Some g ∧ gname g = n) ∨ n ∉ gname <$> G ∧ ∃ c, files d !! n = Some c ∧ orphan (files d) G n c.
Proof.
  intros Hf (Hnm & [c Hc] & Hseg)%elem_of_logNames.
  destruct (fi_known _ _ _ Hf n c Hc) as [(_ & H1 & H2)|[?|[Hin|[(m & _ & ->)|Ho]]]].
  - exfalso. unfold isSegmentName in Hseg. rewrite H1, H2 in Hseg. naive_solver.
  - done.
  - left. apply list_elem_of_fmap in Hin as (g & -> & Hin). apply list_elem_of_lookup_1 in Hin as [p Hp].
    by exists p, g.
  - by apply ackPath_not_segment in Hseg.
  - right. split; [apply Ho|]. by exists c.
Qed.

Lemma validName_logName d n : validName n → is_Some (files d !! n) → n ∈ logNames d.
Proof.
  intros (_ & _ & H1 & _ & H2)%validName_facts Hs. apply elem_of_logNames.
  split_and!; [done|done|by right].
Qed.

Lemma restart sent G d :
  FilesInv (files d) sent G →
  ∃ G', FilesInv (files d) 0 G' ∧ gname <$> G' = logNames d ∧ Forall (clean (files d)) G' ∧
    drop sent (pendingLines G) `sublist_of` pendingLines G'.
Proof.
  intros Hf. pose proof (fi_g _ _ _ Hf) as Hg. pose proof Hg as Hgl. rewrite list.Forall_lookup in Hgl.
  pose (R := λ n g', gname g' = n ∧ clean (files d) g' ∧
    ∀ p g, G !! p = Some g → gname g' = gname g → extends sent (Forall acked (take p G)) g g').
  destruct (Forall_exists_Forall2 R (logNames d)) as [G' HR].
  { apply list.Forall_forall. intros n Hn.
    destruct (logNames_known _ _ _ _ Hf Hn) as [(p & g & Hp & <-)|(Hni & c & Hc & Ho)].
    - apply elem_of_logNames in Hn as (_ & [c Hc] & _).
      destruct (fi_files _ _ _ Hf p g Hp) as [[Hnone _]|Hpres]; [congruence|].
      destruct (canon_present _ _ _ _ (Hgl _ _ Hp) Hpres) as (g' & Hcl & Hname & Hext).
      exists g'. split_and!; [done|done|]. intros q x Hq Hx.
      assert (p = q) as <-; [|congruence].
      apply (gname_inj G p q g x (fi_order _ _ _ Hf) Hp Hq). congruence.
    - destruct (canon_orphan _ _ _ _ Hc Ho) as (g' & Hcl & Hname). exists g'.
      split_and!; [done|done|]. intros q x Hq Hx. exfalso. apply Hni. rewrite <- Hname, Hx.
      by eapply list_elem_of_fmap_2, list_elem_of_lookup_2. }
  assert (gname <$> G' = logNames d) as Hnames.
  { clear -HR. induction HR as [|n g' l k [Hn _] _ IH]; [done|]. cbn. congruence. }
  assert (Forall (clean (files d)) G') as Hclean.
  { clear -HR. induction HR as [|n g' l k (_ & Hn & _) _ IH]; by constructor. }
  assert (Forall gOk G') as HgOk by (eapply list.Forall_impl; [exact Hclean|by intros g' []]).
  exists G'. split_and!; [|done|done|].
  - split.
    + done.
    + pose proof (logNames_sorted d) as Hs. rewrite <- Hnames in Hs. clear -Hs.
      induction G' as [|g G' IH]; [constructor|]. cbn in Hs. inversion Hs as [|? ? Hs' Hx]; subst.
      constructor; [by apply IH|]. rewrite list.Forall_forall in Hx. apply list.Forall_forall. intros x Hin.
      apply (Hx (gname x)). by apply list_elem_of_fmap_2.
    + intros p g Hp. right. apply clean_present. rewrite list.Forall_lookup in Hclean. by eapply Hclean.
    + apply (fi_marker _ _ _ Hf).
    + intros n c Hc. destruct (fi_known _ _ _ Hf n c Hc) as [?|[?|[Hin|[?|Ho]]]].
      * by left.
      * by right; left.
      * right. right. left. rewrite Hnames. apply validName_logName; [|by eexists].
        apply list_elem_of_fmap in Hin as (g & -> & Hin). rewrite list.Forall_forall in Hg.
        by apply gname_valid, Hg.
      * by do 3 right; left.
      * right. right. left. rewrite Hnames. apply validName_logName; [apply Ho|by eexists].
    + lia.
  - assert (∃ Gp, Gp `sublist_of` G' ∧
      Forall2 (λ n g', R n g') (gname <$> filter (onDisk (files d)) G) Gp) as (Gp & Hsub & Hrel).
    { eapply sublist_Forall2; [|exact HR]. eapply (sorted_subset_sublist nameOrder).
      - apply nameOrder_trans.
      - apply nameOrder_irrefl.
      - pose proof (fi_order _ _ _ Hf) as Hs. clear -Hs. induction Hs as [|g G Hs IH Hx]; [constructor|].
        rewrite filter_cons. case_decide; [|done]. cbn. constructor; [done|].
        rewrite list.Forall_forall in Hx. apply list.Forall_forall.
        intros n (x & -> & [_ Hin]%list_elem_of_filter)%list_elem_of_fmap. by apply Hx.
      - apply logNames_sorted.
      - intros n (g & -> & [Hd Hin]%list_elem_of_filter)%list_elem_of_fmap.
        rewrite list.Forall_forall in Hg. apply validName_logName; [by apply gname_valid, Hg|exact Hd]. }
    etransitivity; [|by apply sublist_pending]. apply (pending_head (files d) sent []); [done|done| | |].
    + intros g Hin Hnd. apply list_elem_of_lookup_1 in Hin as [p Hp].
      destruct (fi_files _ _ _ Hf p g Hp) as [[_ ?]|(? & ? & Hc & _)]; [done|].
      exfalso. apply Hnd. by eexists.
    + intros p g Hp g' Hin Hn. cbn [app].
      apply list_elem_of_lookup_1 in Hin as [i Hi].
      pose proof (Forall2_lookup_r _ _ _ _ _ Hrel Hi) as (n & _ & _ & _ & Hext). by eapply Hext.
    + clear -Hrel. induction Hrel as [|n g' l k [Hn _] _ IH]; [done|]. cbn. congruence.
Qed.
End disk.
