(* ===== verification/TelemetrySpoolRecover.v ===== *)
(** * Start-up

    [readTelemetrySpool] on the directory a crash left: it finds the abstract
    segments of [restart], whatever call fails it keeps them on disk, and if no
    call fails it returns a spool in which all their pending lines are pending. *)
From Stdlib Require Import ZArith Lia.
From stdpp Require Import strings list gmap sorting.
From S2P Require Import Prelude.
From S2P Require Import GoStd.
From S2P Require Import Trace.
From S2P Require Import Bytes.
From S2P Require Import FileSystem.
From S2P Require Import TelemetrySpool.
From S2P Require Import FileSystemProps.
From S2P Require Import TelemetrySpoolProps.
From S2P Require Import TelemetrySpoolInv.
From S2P Require Import TelemetrySpoolOps.
From S2P Require Import TelemetrySpoolAppend.
From S2P Require Import TelemetrySpoolAck.
From S2P Require Import TelemetrySpoolDisk.
Open Scope Z_scope.

(** ** Calls on a disk with a fixed oracle *)

(** Some call of the run may fail. *)
Definition faulty (o : nat → fault) : Prop := ∃ t, o t ≠ FOk.

Definition frun {A} (o : nat → fault) (P : dir → Prop) (m : GoM FS A)
    (Q : A → dir → Prop) (E : string → dir → Prop) : Prop :=
  run (λ s, oracle s = o ∧ P (files s)) m (λ a s, oracle s = o ∧ Q a (files s))
    (λ e s, oracle s = o ∧ E e (files s)).

Section frun.
Context (o : nat → fault).

Lemma frun_bind {A B} P (m : GoM FS A) Q (k : A → GoM FS B) R E :
  frun o P m Q E → (∀ a, frun o (Q a) (k a) R E) → frun o P (m ≫= k) R E.
Proof. intros Hm Hk. eapply run_bind; [exact Hm|exact Hk]. Qed.

Lemma frun_ret {A} (a : A) P (Q : A → dir → Prop) E : (∀ f, P f → Q a f) → frun o P (mret a) Q E.
Proof. intros HQ s [Ho HP]. split; [done|by apply HQ]. Qed.

Lemma frun_conseq {A} (P P' : dir → Prop) (m : GoM FS A) (Q Q' : A → dir → Prop)
    (E E' : string → dir → Prop) :
  frun o P m Q E → (∀ f, P' f → P f) → (∀ a f, Q a f → Q' a f) → (∀ e f, E e f → E' e f) →
  frun o P' m Q' E'.
Proof. intros Hm HP HQ HE. eapply run_conseq; [exact Hm|naive_solver..]. Qed.

Lemma frun_sys P : frun o P sys (λ _, P) (λ e f, e = ErrIO ∧ P f ∧ faulty o).
Proof.
  intros s [Ho HP]. fs_unfold. destruct (oracle s (tick s)) eqn:Ht; cbn; [done|..].
  all: split; [done|]; split; [done|]; split; [done|]; exists (tick s); by rewrite <- Ho, Ht.
Qed.

Lemma frun_open n P :
  frun o P (openFile n) (λ c f, P f ∧ f !! n = Some c)
    (λ e f, P f ∧ (e = ErrIO ∧ faulty o ∨ e = ErrNotExist ∧ f !! n = None)).
Proof.
  unfold openFile. eapply (frun_bind _ _ (λ _, P)).
  { eapply frun_conseq; [apply (frun_sys P)|done|done|]. intros e f (-> & ? & ?). naive_solver. }
  intros [] s [Ho HP]. unfold lookupFile. fs_unfold. destruct (files s !! n) eqn:Hn; naive_solver.
Qed.

Lemma frun_truncate n k c f0 :
  f0 !! n = Some c →
  frun o (λ f, f = f0) (truncate n k) (λ _ f, f = <[n := take k c]> f0)
    (λ e f, e = ErrIO ∧ f = f0 ∧ faulty o).
Proof.
  intros Hc. unfold truncate. eapply frun_bind; [apply frun_sys|].
  intros [] s [Ho HP]. unfold lookupFile, setFile. fs_unfold. rewrite HP, Hc. done.
Qed.

Lemma frun_remove n f0 :
  frun o (λ f, f = f0) (ignoreNotExist (remove n)) (λ _ f, f = delete n f0)
    (λ e f, f = f0 ∧ faulty o).
Proof.
  intros s [Ho HP]. unfold ignoreNotExist, remove.
  pose proof (frun_sys (λ f, f = f0) s (conj Ho HP)) as Hsys. unfold mbind, gom_bind.
  destruct (sys s) as [[[]|e|] s']; [| |done].
  - destruct Hsys as [Ho' HP']. fs_unfold. rewrite HP'. destruct (f0 !! n) as [d|] eqn:Hn; cbn.
    + split; [done|]. by rewrite HP'.
    + split; [done|]. rewrite HP'. by rewrite delete_id.
  - destruct Hsys as (Ho' & -> & HP' & Hf). done.
Qed.

Lemma frun_sync_dir P : frun o P syncTelemetryDirectory (λ _, P) (λ e f, P f ∧ faulty o).
Proof.
  unfold syncTelemetryDirectory.
  assert (frun o P sys (λ _, P) (λ e f, P f ∧ faulty o)) as Hsys
    by (eapply frun_conseq; [apply (frun_sys P)|done|done|naive_solver]).
  eapply frun_bind; [exact Hsys|]. intros [] s Hs. unfold join, attempt, mbind, gom_bind.
  pose proof (Hsys s Hs) as H1. destruct (sys s) as [[[]|e|] s1]; [| |done].
  - pose proof (Hsys s1 H1) as H2. destruct (sys s1) as [[[]|e2|] s2]; done.
  - destruct H1 as (Ho & HP & Hf). pose proof (Hsys s1 (conj Ho HP)) as H2.
    destruct (sys s1) as [[[]|e2|] s2]; [| |done]; destruct H2 as [? ?]; naive_solver.
Qed.
End frun.

(** ** The stamp of a name *)
Lemma digits_decimal n acc z :
  digits acc (decimal n z) = Some (acc * 10 ^ Z.of_nat n + z mod 10 ^ Z.of_nat n).
Proof.
  revert acc. induction n as [|n IH]; intros acc; cbn [decimal digits].
  { f_equal. change (Z.of_nat 0) with 0. rewrite Z.pow_0_r, Z.mod_1_r. lia. }
  pose proof (Z.mod_pos_bound (z / 10 ^ Z.of_nat n) 10 ltac:(lia)).
  unfold byteOf. rewrite digit_char by lia.
  rewrite Z2N.id by lia. replace (48 + z / 10 ^ Z.of_nat n mod 10 - 48) with (z / 10 ^ Z.of_nat n mod 10) by lia.
  destruct (Z.leb_spec 0 (z / 10 ^ Z.of_nat n mod 10)); [|lia].
  destruct (Z.leb_spec (z / 10 ^ Z.of_nat n mod 10) 9); [|lia]. cbn [andb]. rewrite IH. f_equal.
  rewrite Nat2Z.inj_succ, Z.pow_succ_r, (Z.mul_comm 10) by lia.
  rewrite Z.rem_mul_r by (try apply Z.pow_nonzero; lia). ring.
Qed.

Lemma beforeDash_decimal n z t :
  beforeDash (decimal n z ++ String (Ascii.ascii_of_nat 45) t) = decimal n z.
Proof.
  induction n as [|n IH]; [done|]. cbn [decimal].
  match goal with |- beforeDash (String ?c ?s ++ ?u) = _ =>
    change (String c s ++ u)%string with (String c (s ++ u)%string) end.
  cbn [beforeDash]. destruct (Ascii.ascii_dec _ _) as [Hc|_]; [exfalso|by rewrite IH].
  apply (f_equal Ascii.N_of_ascii) in Hc.
  pose proof (Z.mod_pos_bound (z / 10 ^ Z.of_nat n) 10 ltac:(lia)).
  rewrite digit_char in Hc by lia. vm_compute (Ascii.N_of_ascii _) in Hc. lia.
Qed.

Lemma ParseInt_digits s v :
  s ≠ ""%string → (∀ c u, s = String c u → 48 ≤ byteOf c) → digits 0 s = Some v → v < 2^63 →
  ParseInt s = Some v.
Proof.
  intros Hs Hc Hd Hv. unfold ParseInt. destruct s as [|c u]; [done|]. specialize (Hc c u eq_refl).
  destruct (Ascii.ascii_dec c (Ascii.Ascii true false true true false true false false)) as [->|_]; [exfalso; vm_compute in Hc; by apply Hc|].
  destruct (Ascii.ascii_dec c (Ascii.Ascii true true false true false true false false)) as [->|_]; [exfalso; vm_compute in Hc; by apply Hc|].
  cbn [String.eqb]. rewrite Hd. cbv beta iota delta [mbind option_bind].
  by rewrite (proj2 (Z.ltb_lt v (2^63)) Hv).
Qed.

Lemma ParseInt_segmentName stamp text :
  0 ≤ stamp < 2^63 → ParseInt (beforeDash (segmentName stamp text)) = Some stamp.
Proof.
  intros Hs. unfold segmentName, pad20. destruct (Z.ltb_spec stamp 0); [lia|].
  change ("-" ++ text ++ ".jsonl")%string with (String (Ascii.ascii_of_nat 45) (text ++ ".jsonl")%string).
  rewrite beforeDash_decimal. apply ParseInt_digits.
  - done.
  - intros c u [= <- _]. pose proof (Z.mod_pos_bound (stamp / 10 ^ Z.of_nat 19) 10 ltac:(lia)).
    unfold byteOf. rewrite digit_char by lia. lia.
  - rewrite digits_decimal, Z.mod_small; [done|lia].
  - lia.
Qed.

Section recover.
Context `{JSONLaws} (o : nat → fault) (mk : option bytes).

(** ** The journal of acknowledgements *)
Lemma frames_cons a l : frames (a :: l) = ackFrame a ++ frames l.
Proof. done. Qed.

Lemma ackLoop_frames fuel path size pre l atail count ack f0 :
  f0 !! path = Some (frames (pre ++ l) ++ atail) → size = length (frames (pre ++ l) ++ atail) →
  (length atail < telemetryAckFrameBytes)%nat → StronglySorted lt (ack :: l) →
  Forall (λ a, (a ≤ count)%nat) l → Z.of_nat count < 2^64 →
  (length (frames l ++ atail) ≤ fuel)%nat →
  frun o (λ f, f = f0)
    (ackLoop fuel path size (frames l ++ atail) count ack (16 * length pre))
    (λ r f, r = (default ack (list.last l), (16 * length (pre ++ l))%nat) ∧
       (f = f0 ∨ f = <[path := frames (pre ++ l)]> f0))
    (λ e f, (f = f0 ∨ f = <[path := frames (pre ++ l)]> f0) ∧ faulty o).
Proof.
  revert pre ack fuel. induction l as [|a l IH]; intros pre ack fuel Hf Hsize Hat Hs Hle Hc Hfuel.
  - rewrite app_nil_r in *. change (frames [] ++ atail) with atail in *.
    destruct fuel as [|fuel]; cbn [ackLoop].
    all: eapply (frun_bind _ _ _ (λ _ f, f = f0));
      [eapply frun_conseq; [apply (frun_sys o (λ f, f = f0))|done|done|naive_solver]|intros []].
    { destruct atail; [|cbn in Hfuel; lia]. apply frun_ret. intros f ->. by split; [|left]. }
    destruct atail as [|b atail]; [apply frun_ret; intros f ->; by split; [|left]|].
    rewrite take_ge by lia. unfold validFrame.
    replace (length (b :: atail) =? telemetryAckFrameBytes)%nat with false
      by (symmetry; apply Nat.eqb_neq; lia). cbn [andb negb].
    replace (16 * length pre + length (b :: atail) =? size)%nat with true
      by (symmetry; apply Nat.eqb_eq; rewrite Hsize, length_app, length_frames; lia). cbn [negb].
    eapply (frun_bind _ _ _ (λ _ f, f = <[path := frames pre]> f0)).
    { eapply frun_conseq; [by apply (frun_truncate o _ _ _ f0 Hf)|done| |naive_solver].
      intros [] f ->. by rewrite <- length_frames, take_app_length. }
    intros []. eapply (frun_bind _ _ _ (λ _ f, f = <[path := frames pre]> f0)).
    { eapply frun_conseq; [apply (frun_sys o (λ f, f = <[path := frames pre]> f0))|done|done|naive_solver]. }
    intros []. apply frun_ret. intros f ->. by split; [|right].
  - rewrite frames_cons, <- app_assoc. pose proof (StronglySorted_inv Hs) as [Hs' Hx].
    apply list.Forall_cons in Hx as [Hlt Hx]. apply list.Forall_cons in Hle as [Hac Hle].
    destruct fuel as [|fuel].
    { rewrite frames_cons, <- app_assoc, length_app, length_ackFrame in Hfuel. lia. }
    cbn [ackLoop].
    eapply (frun_bind _ _ _ (λ _ f, f = f0));
      [eapply frun_conseq; [apply (frun_sys o (λ f, f = f0))|done|done|naive_solver]|intros []].
    assert (take telemetryAckFrameBytes (ackFrame a ++ frames l ++ atail) = ackFrame a) as Htake
      by by apply take_app_length'; rewrite length_ackFrame.
    assert (drop telemetryAckFrameBytes (ackFrame a ++ frames l ++ atail) = frames l ++ atail) as Hdrop
      by by apply drop_app_length'; rewrite length_ackFrame.
    destruct (ackFrame a ++ frames l ++ atail) as [|b rest] eqn:Hrest.
    { apply (f_equal length) in Hrest. rewrite length_app, length_ackFrame in Hrest. cbn in Hrest. lia. }
    rewrite Htake, Hdrop. destruct (ackFrame_valid a ltac:(lia)) as [-> Hget]. cbn [negb]. rewrite Hget.
    destruct (Z.leb_spec (Z.of_nat a) (Z.of_nat ack)); [lia|].
    destruct (Z.ltb_spec (Z.of_nat count) (Z.of_nat a)); [lia|]. cbn [orb]. rewrite Nat2Z.id.
    replace (16 * length pre + telemetryAckFrameBytes)%nat with (16 * length (pre ++ [a]))%nat
      by (rewrite length_app; unfold telemetryAckFrameBytes; cbn; lia).
    assert (pre ++ a :: l = (pre ++ [a]) ++ l) as Hpre by by rewrite <- app_assoc.
    rewrite Hpre in Hf, Hsize |- *.
    eapply frun_conseq; [apply (IH (pre ++ [a]) a fuel Hf); try done|done| |done].
    + rewrite <- Hdrop, length_drop.
      rewrite frames_cons, <- app_assoc, Hrest in Hfuel. unfold telemetryAckFrameBytes. lia.
    + intros r f [-> Hff]. split; [|done]. rewrite list.last_cons. by destruct (list.last l).
Qed.

Lemma recoverTelemetryAck_spec path count l atail f0 :
  default [] (f0 !! path) = frames l ++ atail → (length atail < telemetryAckFrameBytes)%nat →
  StronglySorted lt (0%nat :: l) → Forall (λ a, (a ≤ count)%nat) l → Z.of_nat count < 2^64 →
  (length l ≤ count)%nat →
  frun o (λ f, f = f0) (recoverTelemetryAck path count)
    (λ r f, r = (default 0%nat (list.last l), (16 * length l)%nat) ∧
       (f = f0 ∨ is_Some (f0 !! path) ∧ f = <[path := frames l]> f0))
    (λ e f, (f = f0 ∨ is_Some (f0 !! path) ∧ f = <[path := frames l]> f0) ∧ faulty o).
Proof.
  intros Hf Hat Hs Hle Hc Hlen s [Ho Hs0]. unfold recoverTelemetryAck.
  pose proof (frun_open o path (λ f, f = f0) s (conj Ho Hs0)) as Hopen.
  destruct (openFile path s) as [[journal|e|] s1]; [| |done].
  - destruct Hopen as (Ho1 & Hs1 & Hj). rewrite Hs1 in Hj. rewrite Hj in Hf. cbn in Hf. unfold id in Hf.
    subst journal.
    assert (frun o (λ f, f = f0)
      (sys;;
       if (((count + 1) * telemetryAckFrameBytes) <? length (frames l ++ atail))%nat
       then throw "invalid telemetry acknowledgement journal"
       else ackLoop (length (frames l ++ atail)) path (length (frames l ++ atail)) (frames l ++ atail) count 0 0)
      (λ r f, r = (default 0%nat (list.last l), (16 * length l)%nat) ∧
         (f = f0 ∨ f = <[path := frames l]> f0))
      (λ e f, (f = f0 ∨ f = <[path := frames l]> f0) ∧ faulty o)) as Hrun.
    { eapply (frun_bind _ _ _ (λ _ f, f = f0));
        [eapply frun_conseq; [apply (frun_sys o (λ f, f = f0))|done|done|naive_solver]|intros []].
      destruct (Nat.ltb_spec ((count + 1) * telemetryAckFrameBytes) (length (frames l ++ atail))) as [Hbad|_].
      { rewrite length_app, length_frames in Hbad. unfold telemetryAckFrameBytes in *. lia. }
      by apply (ackLoop_frames _ path _ [] l atail count 0 f0). }
    specialize (Hrun s1 (conj Ho1 Hs1)). revert Hrun.
    match goal with |- context [(?m ≫= ?k) s1] => destruct ((m ≫= k) s1) as [[r|e|] s2] end; naive_solver.
  - destruct Hopen as (Ho1 & Hs1 & [[-> Hfault]|[-> Hnone]]).
    + cbn. naive_solver.
    + rewrite Hs1 in Hnone. rewrite Hnone in Hf. cbn in Hf.
      destruct l as [|a l]; [cbn; naive_solver|].
      exfalso. apply (f_equal length) in Hf. rewrite length_app, length_frames in Hf. cbn in Hf. lia.
Qed.

(** ** Changing the files of one segment *)
Lemma sameFor_others G p q g g' f f' :
  Forall gOk G → StronglySorted nameLt G → G !! p = Some g → G !! q = Some g' → p ≠ q →
  (∀ n, n ≠ gname g → n ≠ ackPath (gname g) → f' !! n = f !! n) → sameFor f f' g'.
Proof.
  intros Hg Hs Hp Hq Hne Hf. rewrite list.Forall_lookup in Hg.
  pose proof (gname_valid _ (Hg _ _ Hp)) as Hv. pose proof (gname_valid _ (Hg _ _ Hq)) as Hv'.
  assert (gname g' ≠ gname g) as Hn by (intros Heq; by eapply Hne, gname_inj).
  split; apply Hf.
  - done.
  - by apply not_eq_sym, validName_ack.
  - by apply validName_ack.
  - by intros Heq%ackPath_inj.
Qed.

Lemma clean_same f f' g : sameFor f f' g → clean f g → clean f' g.
Proof. intros [H1 H2]. unfold clean. by rewrite H1, H2. Qed.

(** What the loop keeps of the files while it works on segment [g]. *)
Definition Kept (Gp : list ghost) (Gr : list ghost) (f : dir) : Prop :=
  FilesInv f 0 (Gp ++ Gr) ∧ Forall (clean f) Gr ∧ f !! telemetryFormatMarker = mk.

Lemma marker_others (f f' : dir) Gp g Gr :
  FilesInv f 0 (Gp ++ g :: Gr) → (∀ n, n ≠ gname g → n ≠ ackPath (gname g) → f' !! n = f !! n) →
  f' !! telemetryFormatMarker = f !! telemetryFormatMarker.
Proof.
  intros [Hg _ _ _ _ _] Hf. rewrite list.Forall_forall in Hg.
  destruct (validName_facts _ (gname_valid _ (Hg g ltac:(set_solver)))) as (_ & _ & H1 & H2 & _).
  by apply Hf; apply not_eq_sym.
Qed.

Lemma others_clean f f' Gp g Gr :
  FilesInv f 0 (Gp ++ g :: Gr) → Forall (clean f) Gr →
  (∀ n, n ≠ gname g → n ≠ ackPath (gname g) → f' !! n = f !! n) → Forall (clean f') Gr.
Proof.
  intros [Hg Ho _ _ _ _] Hc Hf. apply list.Forall_lookup. intros i x Hx.
  rewrite list.Forall_lookup in Hc. eapply clean_same; [|by eapply Hc].
  eapply (sameFor_others (Gp ++ g :: Gr) (length Gp) (length Gp + S i)); [done|done| | |lia|exact Hf].
  - by apply list_lookup_middle.
  - rewrite lookup_app_r by lia. by replace (length Gp + S i - length Gp)%nat with (S i) by lia.
Qed.

Lemma files_local f f' sent G p g :
  FilesInv f sent G → G !! p = Some g →
  (∀ n, n ≠ gname g → n ≠ ackPath (gname g) → f' !! n = f !! n) →
  fileOk f' sent (Forall acked (take p G)) g → FilesInv f' sent G.
Proof.
  intros [Hg Ho Hf Hm Hk Hs] Hp Hsame Hok.
  pose proof Hg as Hgl. rewrite list.Forall_lookup in Hgl. pose proof (Hgl _ _ Hp) as Hgg.
  destruct (validName_facts _ (gname_valid _ Hgg)) as (_ & _ & H1 & H2 & _).
  split; try done.
  - intros q x Hx. destruct (decide (p = q)) as [<-|Hne]; [by simplify_eq|].
    eapply fileOk_same; [|by apply Hf]. exact (sameFor_others G p q g x f f' Hg Ho Hp Hx Hne Hsame).
  - rewrite Hsame by by apply not_eq_sym. done.
  - intros n d Hd. destruct (decide (n = gname g)) as [->|Hn1].
    { right. right. left. by eapply list_elem_of_fmap_2, list_elem_of_lookup_2. }
    destruct (decide (n = ackPath (gname g))) as [->|Hn2].
    { do 3 right. left. exists (gname g). split; [by apply gname_valid|done]. }
    rewrite Hsame in Hd by done. eapply known_mono; [by apply Hk|done|].
    intros m Hv Hm' Hx. rewrite Hsame; [done| |].
    + apply validName_ack, gname_valid, Hgg.
    + intros Heq%ackPath_inj. apply Hm'. rewrite Heq. by eapply list_elem_of_fmap_2, list_elem_of_lookup_2.
Qed.

Lemma kept_local f f' Gp g Gr :
  Kept Gp (g :: Gr) f → (∀ n, n ≠ gname g → n ≠ ackPath (gname g) → f' !! n = f !! n) →
  clean f' g → Kept Gp (g :: Gr) f'.
Proof.
  intros (Hf & Hc & Hmk) Hsame Hcg. split_and!.
  - eapply (files_local f f' 0 _ (length Gp) g Hf); [by apply list_lookup_middle|done|].
    right. by apply clean_present.
  - apply list.Forall_cons in Hc as [_ Hc]. constructor; [done|]. by eapply others_clean.
  - by erewrite marker_others.
Qed.

Lemma kept_delete f Gp g Gr n :
  FilesInv f 0 (Gp ++ g :: Gr) ∧ Forall (clean f) Gr ∧ f !! telemetryFormatMarker = mk → acked g →
  n = gname g ∨ (n = ackPath (gname g) ∧ f !! gname g = None) →
  FilesInv (delete n f) 0 (Gp ++ g :: Gr) ∧ Forall (clean (delete n f)) Gr ∧
  delete n f !! telemetryFormatMarker = mk.
Proof.
  intros (Hf & Hc & Hmk) Ha Hn.
  assert (∀ m, m ≠ gname g → m ≠ ackPath (gname g) → delete n f !! m = f !! m) as Hsame.
  { intros m H1 H2. apply lookup_delete_ne. by destruct Hn as [->|[-> _]]; apply not_eq_sym. }
  split_and!.
  - eapply files_delete; [done|by apply list_lookup_middle|done|done].
  - by eapply others_clean.
  - by erewrite marker_others.
Qed.

(** ** The spool while it is being rebuilt *)

(** The memory is [mem] and the files satisfy [P]. *)
Definition At (mem : telemetrySpool) (P : dir → Prop) (s : telemetrySpool) : Prop :=
  ∃ d, s = withFs d mem ∧ oracle d = o ∧ P (files d).
Definition Failed (P : dir → Prop) (_ : string) (s : telemetrySpool) : Prop :=
  oracle (fs s) = o ∧ P (files (fs s)) ∧ faulty o.

Lemma at_io {A} mem P (m : GoM FS A) Q R :
  frun o P m Q (λ _ f, R f ∧ faulty o) → run (At mem P) (io m) (λ a, At mem (Q a)) (Failed R).
Proof.
  intros Hm s (d & -> & Ho & HP). specialize (Hm d (conj Ho HP)). unfold io. cbn [fs withFs].
  destruct (m d) as [[a|e|] d']; [|done..]. destruct Hm as [Ho' HQ]. exists d'. by split_and!.
Qed.

Lemma at_io_bind {A B} mem P (m : GoM FS A) Q R (k : A → Spool B) Post :
  frun o P m Q (λ _ f, R f ∧ faulty o) → (∀ a, run (At mem (Q a)) (k a) Post (Failed R)) →
  run (At mem P) (io m ≫= k) Post (Failed R).
Proof. intros Hm Hk. eapply run_bind; [by apply at_io|exact Hk]. Qed.

Lemma at_modify_bind {B} mem P g (k : unit → Spool B) Post E :
  (∀ d, g (withFs d mem) = withFs d (g mem)) → run (At (g mem) P) (k tt) Post E →
  run (At mem P) (modify g ≫= k) Post E.
Proof.
  intros Hg Hk s (d & -> & Ho & HP). apply (Hk (g (withFs d mem))). exists d. by rewrite Hg.
Qed.

Lemma at_get_bind {B} mem P (k : telemetrySpool → Spool B) Post E :
  (∀ d, run (At mem P) (k (withFs d mem)) Post E) → run (At mem P) (get ≫= k) Post E.
Proof. intros Hk s (d & -> & Ho & HP). apply (Hk d (withFs d mem)). by exists d. Qed.

Lemma at_conseq {B} mem (P P' : dir → Prop) (k : Spool B) Post E :
  (∀ f, P' f → P f) → run (At mem P) k Post E → run (At mem P') k Post E.
Proof.
  intros HP Hk s (d & -> & Ho & Hd). apply Hk. exists d. auto.
Qed.

Lemma at_pure {A} mem (φ : Prop) (P : dir → Prop) (m : Spool A) Q E :
  (φ → run (At mem P) m Q E) → run (At mem (λ f, φ ∧ P f)) m Q E.
Proof. intros Hm s (d & -> & Ho & Hφ & HP). apply (Hm Hφ). by exists d. Qed.

Definition withSegs (l : list telemetrySegment) (s : telemetrySpool) : telemetrySpool :=
  mkSpool (fs s) l (records s) (sbytes s) (lastStamp s) (cleanup s) (active s) (formatReady s).

Lemma at_newSegment {B} mem P seg (k : nat → Spool B) Post E :
  run (At (withSegs (segs mem ++ [seg]) mem) P) (k (length (segs mem))) Post E →
  run (At mem P) (newSegment seg ≫= k) Post E.
Proof.
  intros Hk s (d & -> & Ho & HP). apply (Hk (withSegs (segs mem ++ [seg]) (withFs d mem))).
  by exists d.
Qed.

Lemma at_setSegment {B} mem P p seg (k : unit → Spool B) Post E :
  run (At (withSegs (<[p := seg]> (segs mem)) mem) P) (k tt) Post E →
  run (At mem P) (setSegment p seg ≫= k) Post E.
Proof. intros Hk. by apply at_modify_bind. Qed.

Lemma at_loadSegment {B} mem P p seg (k : telemetrySegment → Spool B) Post E :
  segs mem !! p = Some seg → run (At mem P) (k seg) Post E →
  run (At mem P) (loadSegment p ≫= k) Post E.
Proof.
  intros Hp Hk s (d & -> & Ho & HP). unfold loadSegment, get, mbind, gom_bind, lift_res, deref.
  cbn [segs withFs]. rewrite Hp. apply Hk. by exists d.
Qed.

Lemma at_post {A} mem P (m : Spool A) (Q Q' : A → telemetrySpool → Prop) E :
  (∀ a s, Q a s → Q' a s) → run (At mem P) m Q E → run (At mem P) m Q' E.
Proof. intros HQ Hm. by eapply run_conseq; [exact Hm|done|exact HQ|done]. Qed.

Lemma at_io_last mem P (m : GoM FS unit) (Q : dir → Prop) R :
  frun o P m (λ _, Q) (λ _ f, R f ∧ faulty o) → run (At mem P) (io m) (λ _, At mem Q) (Failed R).
Proof. intros Hm. by apply (at_io mem P m (λ _, Q)). Qed.

(** Removing an acknowledged segment. *)
Definition Done (Gp : list ghost) (g : ghost) (Gr : list ghost) (f : dir) : Prop :=
  FilesInv f 0 (Gp ++ g :: Gr) ∧ Forall (clean f) Gr ∧ f !! telemetryFormatMarker = mk.

Lemma frun_pull {A} (P : dir → Prop) (m : GoM FS A) Q E :
  (∀ f0, P f0 → frun o (λ f, f = f0) m Q E) → frun o P m Q E.
Proof. intros Hm s [Ho HP]. by apply (Hm (files s) HP s). Qed.

Lemma at_removeSegment mem p Gp g Gr :
  segs mem !! p = Some (toSegment g) → acked g →
  run (At mem (Done Gp g Gr)) (removeSegment p) (λ _, At mem (Done Gp g Gr))
    (Failed (λ f, FilesInv f 0 (Gp ++ g :: Gr))).
Proof.
  intros Hp Ha. unfold removeSegment. eapply at_loadSegment; [exact Hp|]. cbn [name toSegment].
  eapply (at_io_bind _ _ _ (λ _ f, Done Gp g Gr f ∧ f !! gname g = None)).
  { apply frun_pull. intros f0 H1.
    eapply frun_conseq; [apply (frun_remove o (gname g) f0)|done| |by intros e f [-> ?]; split; [apply H1|]].
    intros [] f ->. split; [eapply kept_delete; auto|by rewrite lookup_delete_eq]. }
  intros []. eapply (at_io_bind _ _ _ (λ _ f, Done Gp g Gr f ∧ f !! gname g = None)).
  { eapply frun_conseq; [apply (frun_sync_dir o (λ f, Done Gp g Gr f ∧ f !! gname g = None))|done|done|].
    by intros e f [[(? & _) _] ?]. }
  intros []. apply at_io_last. apply frun_pull. intros f0 [H1 H2].
  eapply frun_conseq; [apply (frun_remove o (ackPath (gname g)) f0)|done| |by intros e f [-> ?]; split; [apply H1|]].
  intros [] f ->. eapply kept_delete; auto.
Qed.

Lemma acks_bound (g : ghost) :
  gOk g → Forall (λ a, (a ≤ length (lines g))%nat) (acks g) ∧ (length (acks g) ≤ length (lines g))%nat.
Proof.
  intros [_ _ Hs Hle]. unfold ackOf in Hle. revert Hs Hle.
  generalize (acks g) as l, (length (lines g)) as n. intros l n Hs Hle.
  assert (∀ x, StronglySorted lt (x :: l) → (default x (list.last l) ≤ n)%nat →
    Forall (λ a, (a ≤ n)%nat) l ∧ (x + length l ≤ n)%nat) as Hgen; [|by apply (Hgen 0%nat)].
  clear. induction l as [|a l IH]; intros x Hs Hle.
  { cbn in Hle |- *. split; [constructor|lia]. }
  apply StronglySorted_inv in Hs as [Hs Hx]. apply list.Forall_cons in Hx as [Hxa _].
  destruct (IH a Hs) as [H1 H2].
  { rewrite list.last_cons in Hle.
    by destruct (list.last l). }
  split; [constructor; [lia|done]|cbn; lia].
Qed.

Lemma length_lines_blen ls (tail : bytes) : (length ls ≤ length (joinLines ls ++ tail))%nat.
Proof. rewrite length_app. pose proof (length_joinLines ls). lia. Qed.

(** ** One segment *)
Definition pendOf (p : nat) (g : ghost) : list telemetryRecord :=
  drop (ackOf g) (recs p (lines g) 0).
Definition withSegment (g : ghost) (s : telemetrySpool) : telemetrySpool :=
  mkSpool (fs s) (segs s ++ [toSegment g]) (records s ++ pendOf (length (segs s)) g)
    (sbytes s + Z.of_nat (sum_list_with rsize (pendOf (length (segs s)) g)))
    (lastStamp s) (cleanup s) (active s) (formatReady s).

Lemma at_finish mem Gp g Gr :
  run (At (withSegs (segs mem ++ [toSegment g]) mem) (Done Gp g Gr))
    (if (ackOf g =? length (recs (length (segs mem)) (lines g) 0))%nat then removeSegment (length (segs mem))
     else appendRecords (drop (ackOf g) (recs (length (segs mem)) (lines g) 0)))
    (λ _, At (withSegment g mem) (Done Gp g Gr)) (Failed (λ f, FilesInv f 0 (Gp ++ g :: Gr))).
Proof.
  rewrite length_recs. destruct (Nat.eqb_spec (ackOf g) (length (lines g))) as [Hack|_].
  - assert (withSegment g mem = withSegs (segs mem ++ [toSegment g]) mem) as ->.
    { unfold withSegment, withSegs, pendOf. rewrite Hack, drop_ge by (by rewrite length_recs).
      rewrite app_nil_r. cbn. by rewrite Z.add_0_r. }
    apply at_removeSegment; [|done]. cbn. by apply list_lookup_middle.
  - unfold appendRecords. apply at_get_bind. intros d. cbn [records sbytes withFs withSegs].
    intros s (d' & -> & Ho & HP). exists d'. by split_and!.
Qed.

Lemma recoverLog_spec mem Gp g Gr f0 :
  length (segs mem) = length Gp → Kept Gp (g :: Gr) f0 →
  run (At mem (λ f, f = f0)) (recoverLog (gname g)) (λ _, At (withSegment g mem) (Done Gp g Gr))
    (Failed (λ f, FilesInv f 0 (Gp ++ g :: Gr))).
Proof.
  intros Hlen HK. pose proof HK as (HF & Hcl & Hmk). apply list.Forall_cons in Hcl as [Hcg Hcr].
  pose proof Hcg as [Hg (tail & atail & Hdata & Hnt & Htorn & Hsize & Hack & Hal & Hpre)].
  destruct (acks_bound g Hg) as [Hab Hal'].
  assert (Z.of_nat (length (lines g)) < 2^64) as Hcount.
  { pose proof (length_lines_blen (lines g) tail). unfold maxSegment in Hsize. lia. }
  assert (Forall (λ l, newline ∉ l) (lines g)) as Hnl
    by (eapply list.Forall_impl; [apply (g_good _ Hg)|by intros l []]).
  set (R := λ f : dir, FilesInv f 0 (Gp ++ g :: Gr)).
  unfold recoverLog. apply at_newSegment. cbn [withSegs].
  set (mem1 := withSegs _ mem).
  eapply (at_io_bind _ _ _ (λ c f, c = joinLines (lines g) ++ tail ∧ f = f0) R).
  { eapply frun_conseq; [apply (frun_open o (gname g) (λ f, f = f0))|done| |].
    - intros c f [-> Hc]. split; [congruence|done].
    - intros e f (-> & [[_ Hf]|[_ Hno]]); [done|congruence]. }
  intros data. apply at_pure. intros ->.
  eapply (at_io_bind _ _ _ (λ _ f, f = f0) R).
  { eapply frun_conseq; [apply (frun_sys o (λ f, f = f0))|done|done|]. by intros e f (_ & -> & ?). }
  intros []. rewrite readLines_joinLines by done. cbv beta iota.
  rewrite lineRecords_recs by apply Hg. apply run_lift_ok. rewrite length_recs.
  replace (length (joinLines (lines g) ++ tail) - length tail)%nat with (length (joinLines (lines g)))
    by (rewrite length_app; lia).
  eapply (at_io_bind _ _ _ (λ r f, r = (ackOf g, (16 * length (acks g))%nat) ∧
    (Kept Gp (g :: Gr) f ∧ f !! gname g = Some (joinLines (lines g) ++ tail))) R).
  { assert (∀ f, f = f0 ∨ is_Some (f0 !! ackPath (gname g)) ∧ f = <[ackPath (gname g) := frames (acks g)]> f0 →
      Kept Gp (g :: Gr) f ∧ f !! gname g = Some (joinLines (lines g) ++ tail)) as HKf.
    { intros f [->|[_ ->]]; [done|].
      assert (ackPath (gname g) ≠ gname g) as Hne by apply validName_ack, gname_valid, Hg.
      split; [|by rewrite lookup_insert_ne].
      eapply kept_local; [exact HK|intros n H1 H2; by apply lookup_insert_ne, not_eq_sym|].
      split; [done|]. exists tail, []. rewrite lookup_insert_ne, lookup_insert_eq by done. cbn [from_option].
      split_and!; [done..| | |].
      - unfold default, id. by rewrite app_nil_r.
      - unfold telemetryAckFrameBytes. cbn. lia.
      - exists 0%nat. apply prefix_nil. }
    eapply frun_conseq; [apply (recoverTelemetryAck_spec _ (length (lines g)) (acks g) atail f0);
      [done|done|apply Hg|done|done|done]|done| |].
    - intros r f [-> Hf]. split; [done|]. by apply HKf.
    - intros e f [Hf Hfault]. split; [|done]. by apply HKf. }
  intros [ack valid]. cbv beta iota. apply at_pure. intros [-> ->]%pair_equal_spec.
  apply at_setSegment.
  assert (withSegs (<[length (segs mem) := mkSegment (gname g) (length (lines g)) (ackOf g)
      (length (joinLines (lines g))) (16 * length (acks g))]> (segs mem1)) mem1 =
    withSegs (segs mem ++ [toSegment g]) mem) as ->.
  { unfold mem1. cbn [segs withSegs]. rewrite insert_app_r_alt by lia. by rewrite Nat.sub_diag. }
  assert (∀ k : unit → Spool unit, run (At (withSegs (segs mem ++ [toSegment g]) mem) (Done Gp g Gr)) (k tt)
      (λ _, At (withSegment g mem) (Done Gp g Gr)) (Failed R) →
    run (At (withSegs (segs mem ++ [toSegment g]) mem)
      (λ f, Kept Gp (g :: Gr) f ∧ f !! gname g = Some (joinLines (lines g) ++ tail)))
      ((if (0 <? length tail)%nat then io (truncate (gname g) (length (joinLines (lines g))));; io sys
        else mret tt) ≫= k) (λ _, At (withSegment g mem) (Done Gp g Gr)) (Failed R)) as Hcut.
  { intros k Hk.
    eapply (run_bind _ _ (λ _, At (withSegs (segs mem ++ [toSegment g]) mem) (Done Gp g Gr)));
      [|intros []; exact Hk].
    assert (∀ f, Kept Gp (g :: Gr) f → Done Gp g Gr f) as HKD.
    { intros f (? & Hc & ?). split_and!; [done| |done]. by apply list.Forall_cons in Hc as [_ ?]. }
    destruct (Nat.ltb_spec 0 (length tail)).
    - eapply (at_io_bind _ _ _ (λ _ f, Done Gp g Gr f) R).
      + apply frun_pull. intros f1 [HK1 Hd1].
        eapply frun_conseq; [by apply (frun_truncate o _ (length (joinLines (lines g))) _ f1 Hd1)|done| |].
        * intros [] f ->. rewrite take_app_length. apply HKD.
          eapply kept_local; [exact HK1|intros n Hn1 Hn2; by apply lookup_insert_ne, not_eq_sym|].
          destruct HK1 as (_ & Hc1 & _). apply list.Forall_cons in Hc1 as [(_ & t1 & a1 & _ & _ & _ & _ & Ha1 & Hl1 & Hp1) _].
          split; [done|]. exists [], a1.
          rewrite lookup_insert_eq, lookup_insert_ne by apply not_eq_sym, validName_ack, gname_valid, Hg.
          rewrite app_nil_r. split_and!; [done|set_solver|apply tornTail_nil| |done|done|done].
          rewrite length_app in Hsize. lia.
        * intros e f (_ & -> & ?). split; [apply HK1|done].
      + intros []. apply at_io_last. eapply frun_conseq; [apply (frun_sys o (Done Gp g Gr))|done|done|].
        intros e f (_ & (? & _) & ?). done.
    - eapply at_conseq with (P := Done Gp g Gr); [by intros f [? _]; apply HKD|]. by apply run_ret. }
  apply Hcut. pose proof (at_finish mem Gp g Gr) as Hfin. by rewrite length_recs in Hfin.
Qed.

(** ** The loop over the segments *)

(** [Gp] are the recovered segments, [Gr] the others. *)
Record RecInv (Gp Gr : list ghost) (s : telemetrySpool) : Prop := {
  rec_oracle : oracle (fs s) = o;
  rec_files : Kept Gp Gr (files (fs s));
  rec_segs : segs s = toSegment <$> Gp;
  rec_records : records s = pend 0 Gp;
  rec_bytes : sbytes s = Z.of_nat (sum_list_with rsize (records s));
  rec_stamp : 0 ≤ lastStamp s ∧ Forall (λ g, gstamp g ≤ lastStamp s) Gp;
  rec_idle : active s = None ∧ cleanup s = None }.

Definition withStamp (z : Z) (s : telemetrySpool) : telemetrySpool :=
  mkSpool (fs s) (segs s) (records s) (sbytes s) z (cleanup s) (active s) (formatReady s).

Lemma at_self s : oracle (fs s) = o → At s (λ f, f = files (fs s)) s.
Proof. intros Ho. exists (fs s). split; [by destruct s|done]. Qed.

Lemma rec_segment Gp g Gr s s' :
  RecInv Gp (g :: Gr) s → gOk g →
  At (withSegment g (withStamp (Z.max (gstamp g) (lastStamp s)) s)) (Done Gp g Gr) s' →
  RecInv (Gp ++ [g]) Gr s'.
Proof.
  intros [Ho HK Hsg Hr Hb [Hst0 Hst] [Ha Hc]] Hg (d & -> & Ho' & HD).
  unfold withSegment, withStamp, withFs. cbn [fs segs records sbytes lastStamp cleanup active formatReady].
  assert (length (segs s) = length Gp) as Hlen by by rewrite Hsg, length_fmap.
  split; cbn [fs segs records sbytes lastStamp cleanup active formatReady]; rewrite ?Hlen.
  - done.
  - unfold Kept. rewrite <- app_assoc. apply HD.
  - by rewrite Hsg, fmap_app.
  - rewrite Hr, pend_app. cbn. by rewrite app_nil_r.
  - rewrite sum_list_with_app, Hb. lia.
  - split; [lia|]. apply list.Forall_app_2.
    + eapply list.Forall_impl; [exact Hst|]. cbn. lia.
    + apply list.Forall_singleton. lia.
  - done.
Qed.

Lemma recoverSegment_spec Gp g Gr :
  run (RecInv Gp (g :: Gr)) (recoverSegment (gname g)) (λ _, RecInv (Gp ++ [g]) Gr)
    (Failed (λ f, FilesInv f 0 (Gp ++ g :: Gr))).
Proof.
  apply run_pull. intros s Hs. pose proof (rec_files _ _ _ Hs) as HK.
  destruct HK as (HF & Hcl & Hmk). apply list.Forall_cons in Hcl as [Hcg Hcr].
  pose proof Hcg as [Hg (tail & atail & Hdata & _ & _ & Hsize & _)].
  eapply run_conseq with (P := At s (λ f, f = files (fs s))) (E := Failed (λ f, FilesInv f 0 (Gp ++ g :: Gr)))
    (Q := λ _, At (withSegment g (withStamp (Z.max (gstamp g) (lastStamp s)) s)) (Done Gp g Gr));
    [|intros ? ->; apply at_self, Hs|intros [] s' Hat; exact (rec_segment _ _ _ _ _ Hs Hg Hat)|done].
  unfold recoverSegment. apply at_get_bind. intros d. cbn [lastStamp withFs].
  assert (ParseInt (beforeDash (gname g)) = Some (gstamp g)) as -> by apply ParseInt_segmentName, Hg.
  apply at_modify_bind; [done|].
  set (mem := mkSpool _ _ _ _ _ _ _ _).
  change mem with (withStamp (Z.max (gstamp g) (lastStamp s)) s). clear mem.
  set (mem := withStamp _ s).
  eapply (at_io_bind _ _ _ (λ c f, c = joinLines (lines g) ++ tail ∧ f = files (fs s))).
  { eapply frun_conseq; [apply (frun_open o (gname g) (λ f, f = files (fs s)))|done| |].
    - intros c f [-> Hc]. split; [congruence|done].
    - intros e f (-> & [[_ Hf]|[_ Hno]]); [done|congruence]. }
  intros info. apply at_pure. intros ->.
  destruct (Z.ltb_spec (64 * 2^20) (blen (joinLines (lines g) ++ tail))); [unfold maxSegment in Hsize; lia|].
  destruct (validName_facts _ (gname_valid _ Hg)) as (_ & _ & _ & _ & ->).
  apply recoverLog_spec; [|by split_and!; [|constructor|]]. cbn. by rewrite (rec_segs _ _ _ Hs), length_fmap.
Qed.

Lemma Failed_wrap {A} (m : Spool A) P Q R e :
  run P m Q (Failed R) → run P (λ s, let '(r, s') := m s in (wrap e r, s')) Q (Failed R).
Proof. intros Hm s HP. specialize (Hm s HP). by destruct (m s) as [[a|x|] s']. Qed.

(** The marker is one of the listed names, if there is one. *)
Lemma ensureLogFormat_rec Gp Gr :
  is_Some mk →
  run (RecInv Gp Gr) ensureLogFormat (λ _, RecInv Gp Gr) (Failed (λ f, FilesInv f 0 (Gp ++ Gr))).
Proof.
  intros [c Hc]. apply run_pull. intros s Hs. pose proof (rec_files _ _ _ Hs) as (HF & Hcl & Hmk).
  assert (c = telemetryFormatData) as ->.
  { destruct (fi_marker _ _ _ HF) as [Hm|Hm]; congruence. }
  intros s' ->. unfold ensureLogFormat, get. unfold mbind at 1, gom_bind at 1.
  destruct (formatReady s); [done|]. unfold mbind at 1, gom_bind at 1.
  pose proof (frun_open o telemetryFormatMarker (λ f, f = files (fs s)) (fs s)
    (conj (rec_oracle _ _ _ Hs) eq_refl)) as Hopen.
  unfold io at 1. destruct (openFile telemetryFormatMarker (fs s)) as [[info|e|] d]; [| |done].
  - destruct Hopen as (Ho & Hf & Hi). assert (info = telemetryFormatData) as -> by congruence.
    replace (256 <? blen telemetryFormatData) with false by done.
    change (mkSpool d (segs s) (records s) (sbytes s) (lastStamp s) (cleanup s) (active s) (formatReady s))
      with (withFs d s).
    unfold mbind at 1, gom_bind at 1.
    pose proof (frun_open o telemetryFormatMarker (λ f, f = files (fs s)) d (conj Ho Hf)) as Hopen.
    unfold io. cbn [fs withFs]. destruct (openFile telemetryFormatMarker d) as [[data|e|] d']; [| |done].
    + destruct Hopen as (Ho' & Hf' & Hd). assert (data = telemetryFormatData) as -> by congruence.
      rewrite bool_decide_true by done. destruct Hs as [H1 H2 H3 H4 H5 H6 H7].
      split; cbn; try done. by rewrite Hf'.
    + destruct Hopen as (Ho' & Hf' & [[_ Hfault]|[_ Hno]]); [|congruence].
      split_and!; cbn; [done| |done]. by rewrite Hf'.
  - destruct Hopen as (Ho & Hf & [[-> Hfault]|[_ Hno]]); [|congruence].
    rewrite bool_decide_false by done. split_and!; cbn; [done| |done]. by rewrite Hf.
Qed.

Lemma recoverName_log Gp g Gr :
  Forall gOk (g :: Gr) →
  run (RecInv Gp (g :: Gr)) (recoverName (gname g)) (λ _, RecInv (Gp ++ [g]) Gr)
    (Failed (λ f, FilesInv f 0 (Gp ++ g :: Gr))).
Proof.
  intros [Hg _]%list.Forall_cons. unfold recoverName.
  destruct (validName_facts _ (gname_valid _ Hg)) as (_ & _ & Hnm & _).
  rewrite bool_decide_false by done. apply Failed_wrap, recoverSegment_spec.
Qed.

Definition LoopInv (G : list ghost) (pre : list string) (s : telemetrySpool) : Prop :=
  ∃ Gp Gr, G = Gp ++ Gr ∧ gname <$> Gp = filter (.≠ telemetryFormatMarker) pre ∧ RecInv Gp Gr s.

Lemma recoverLoop_spec G names :
  gname <$> G = filter (.≠ telemetryFormatMarker) names →
  (telemetryFormatMarker ∈ names → is_Some mk) → Forall gOk G →
  run (LoopInv G []) (miter recoverName names) (λ _, LoopInv G names)
    (Failed (λ f, FilesInv f 0 G)).
Proof.
  intros Hnames Hmk HG. apply run_miter. intros pre n post Hsplit.
  apply run_pull. intros s (Gp & Gr & -> & Hpre & Hs).
  rewrite Hsplit, list.filter_app, filter_cons, fmap_app, Hpre in Hnames.
  apply app_inv_head in Hnames.
  destruct (decide (n ≠ telemetryFormatMarker)) as [Hne|Heq%dec_stable].
  - destruct Gr as [|g Gr]; [done|]. cbn in Hnames. injection Hnames as <- Hnames.
    apply list.Forall_app in HG as [_ HG].
    eapply run_conseq; [by apply (recoverName_log Gp g Gr)|by intros ? ->| |done].
    intros [] s' Hs'. exists (Gp ++ [g]), Gr. rewrite <- app_assoc. split_and!; [done| |done].
    rewrite fmap_app, list.filter_app, Hpre, filter_cons. by rewrite decide_True.
  - subst n. unfold recoverName. rewrite bool_decide_true by done.
    eapply run_conseq; [apply (ensureLogFormat_rec Gp Gr)|by intros ? ->| |done].
    + apply Hmk. rewrite Hsplit. set_solver.
    + intros [] s' Hs'. exists Gp, Gr. split_and!; [done| |done].
      rewrite list.filter_app, filter_cons, decide_False by (by intros []). by rewrite app_nil_r.
Qed.

Lemma rec_done G s : RecInv G [] s → SpoolInv 0 s G.
Proof.
  intros [Ho [HF _] Hsg Hr Hb Hst [Ha Hc]]. rewrite app_nil_r in HF. split; try done.
  - by left.
  - by rewrite Hc.
Qed.

Lemma releaseIdleLog_spec G :
  run (RecInv G []) releaseIdleLog (λ _ s, SpoolInv 0 s G) (Failed (λ f, FilesInv f 0 G)).
Proof.
  apply run_pull. intros s Hs. pose proof (rec_idle _ _ _ Hs) as [Ha Hc].
  pose proof (rec_done _ _ Hs) as Hinv. intros s' ->.
  unfold releaseIdleLog, get. unfold mbind at 1, gom_bind at 1.
  destruct (existsb (isLogRecord s) (records s)); [done|]. rewrite Ha, Hc.
  unfold mbind at 1, gom_bind at 1. unfold mret at 1, gom_ret at 1.
  unfold mbind at 1, gom_bind at 1. unfold mret at 1, gom_ret at 1.
  unfold mbind at 1, gom_bind at 1. unfold attempt, io at 1.
  assert (∀ d, files d = files (fs s) ∨ files d = delete telemetryFormatMarker (files (fs s)) →
    SpoolInv 0 (withFs d s) G) as Hd.
  { intros d [Hd|Hd]; [by apply inv_sameFiles|]. apply inv_agree; [done| |left; rewrite Hd; apply lookup_delete_eq].
    intros n _ Hn. rewrite Hd. apply lookup_delete_ne. by apply not_eq_sym. }
  assert (∀ d b, SpoolInv 0 (withFs d s) G → SpoolInv 0 (setReady b (withFs d s)).2 G) as Hready.
  { intros d b [? ? ? ? ? ? ?]. by split. }
  pose proof (rec_oracle _ _ _ Hs) as Ho.
  unfold remove. unfold mbind at 1, gom_bind at 1.
  pose proof (frun_sys o (λ f, f = files (fs s)) (fs s) (conj Ho eq_refl)) as Hsys.
  destruct (sys (fs s)) as [[[]|e|] d]; [| |done].
  2: { destruct Hsys as (Ho' & -> & Hf & Hfault). rewrite bool_decide_false by done.
       split_and!; cbn; [done| |done]. rewrite Hf. apply Hinv. }
  destruct Hsys as [Ho' Hf]. unfold lookupFile, setFile. fs_unfold. rewrite Hf.
  destruct (files (fs s) !! telemetryFormatMarker) as [c|] eqn:Hm.
  - set (d' := mkFS _ _ _). assert (oracle d' = o) as Hod by done.
    assert (files d' = delete telemetryFormatMarker (files (fs s))) as Hfd' by (unfold d'; cbn; by rewrite Hf).
    pose proof (frun_sync_dir o (λ f, f = files d') d' (conj Hod eq_refl)) as Hsync.
    unfold io. cbn [fs]. destruct (syncTelemetryDirectory d') as [[[]|e|] d2]; [| |done].
    + apply (Hready d2 false), Hd. right. by rewrite (proj2 Hsync).
    + destruct Hsync as (Ho2 & Hf2 & Hfault). split_and!; cbn; [done| |done].
      apply (inv_files _ _ _ (Hd d2 ltac:(right; by rewrite Hf2))).
  - rewrite bool_decide_true by done. apply (Hready d false), Hd. by left.
Qed.
End recover.

(** ** Start-up *)
Section startup.
Context `{JSONLaws}.

Lemma readTelemetrySpool_spec sent G d0 :
  FilesInv (files d0) sent G →
  run (λ s, s = emptySpool d0) readTelemetrySpool
    (λ _ s, ∃ G', SpoolInv 0 s G' ∧ drop sent (pendingLines G) `sublist_of` pendingLines G')
    (λ _ s, faulty (oracle d0) ∧ ∃ G', FilesInv (files (fs s)) 0 G' ∧
       drop sent (pendingLines G) `sublist_of` pendingLines G').
Proof.
  intros Hf. destruct (restart sent G d0 Hf) as (G' & Hf' & Hnames & Hclean & Hsub).
  set (o := oracle d0). set (mk := files d0 !! telemetryFormatMarker).
  set (P := λ f : dir, f = files d0).
  eapply run_conseq with (P := At o (emptySpool d0) P) (E := Failed o (λ f, FilesInv f 0 G'))
    (Q := λ _ s, SpoolInv 0 s G').
  2: { intros ? ->. by exists d0. }
  2: { intros _ s Hs. by exists G'. }
  2: { intros _ s (Ho & HF & Hfault). split; [done|]. by exists G'. }
  unfold readTelemetrySpool.
  assert (frun o P sys (λ _, P) (λ e f, FilesInv f 0 G' ∧ faulty o)) as Hsys.
  { eapply frun_conseq; [apply (frun_sys o P)|done|done|]. by intros e f (_ & -> & ?). }
  eapply at_io_bind; [exact Hsys|]. intros []. cbv beta.
  eapply (at_io_bind _ _ _ _ (λ _, P)).
  { eapply frun_conseq; [apply (frun_sync_dir o P)|done|done|]. by intros e f (-> & ?). }
  intros []. eapply at_io_bind; [exact Hsys|]. intros []. cbv beta.
  eapply at_io_bind; [exact Hsys|]. intros []. cbv beta.
  apply run_pull. intros s (d & -> & Ho & HP). intros s' ->.
  unfold get. unfold mbind at 1, gom_bind at 1. cbn [fs withFs].
  assert (segmentNames d = segmentNames d0) as -> by (unfold segmentNames; by rewrite HP).
  pose proof (recoverLoop_spec o mk G' (segmentNames d0)) as Hloop.
  refine (run_bind (LoopInv o mk G' []) _ (λ _, LoopInv o mk G' (segmentNames d0)) _ _ _ _ _ (withFs d (emptySpool d0)) _).
  - apply Hloop; [done| |].
    + by intros [? _]%elem_of_segmentNames.
    + apply (fi_g _ _ _ Hf').
  - intros []. apply run_pull. intros s (Gp & Gr & -> & Hpre & Hs).
    assert (Gr = []) as ->.
    { unfold logNames in Hnames. rewrite <- Hpre, fmap_app in Hnames.
      apply (f_equal length) in Hnames. rewrite length_app, !length_fmap in Hnames.
      apply length_zero_iff_nil. lia. }
    rewrite app_nil_r. eapply run_conseq; [apply (releaseIdleLog_spec o mk Gp)|by intros ? ->|done|done].
  - exists [], G'. split_and!; [done|done|]. split; try done.
    cbn. rewrite HP. by split_and!.
Qed.
End startup.
