(* ===== verification/TelemetrySpoolWindow.v ===== *)
(** * The transmitted window

    [marshalPrefix] encodes a bounded, non-empty prefix of the pending lines,
    byte for byte as they were appended. *)
From Stdlib Require Import ZArith Lia.
From stdpp Require Import strings list gmap sorting.
From S2P Require Import Prelude.
From S2P Require Import GoStd.
From S2P Require Import Trace.
From S2P Require Import Bytes.
From S2P Require Import FileSystem.
From S2P Require Import TelemetrySpool.
From S2P Require Import FileSystemProps.
From S2P Require Import TelemetrySpoolProps.
From S2P Require Import TelemetrySpoolInv.
From S2P Require Import TelemetrySpoolOps.
From S2P Require Import TelemetrySpoolAppend.
From S2P Require Import TelemetrySpoolAck.
Open Scope Z_scope.

Section window.
Context `{JSONLaws}.

(** ** The records describe the lines on disk *)
Definition readable (f : dir) (G : list ghost) (r : telemetryRecord) (l : bytes) : Prop :=
  ∃ g c, G !! rsegment r = Some g ∧ f !! gname g = Some c ∧
    take (rsize r) (drop (roffset r) c) = l ∧ rsize r = length l ∧ goodLine l.

Lemma recs_readable f G g p ls pre tail :
  G !! p = Some g → f !! gname g = Some (joinLines (pre ++ ls) ++ tail) → Forall goodLine ls →
  Forall2 (readable f G) (recs p ls (length (joinLines pre))) ls.
Proof.
  intros Hp Hf Hls. revert pre Hf. induction Hls as [|l ls Hl _ IH]; intros pre Hf; [constructor|].
  cbn [recs]. constructor.
  - exists g, (joinLines (pre ++ l :: ls) ++ tail). cbn. split_and!; [done|done| |done|done].
    rewrite joinLines_app, <- app_assoc, drop_app_length. cbn [joinLines].
    rewrite <- app_assoc. apply take_app_length.
  - replace (length (joinLines pre) + length l + 1)%nat with (length (joinLines (pre ++ [l]))).
    2: { rewrite joinLines_app, length_app. cbn. rewrite length_app. cbn. lia. }
    apply IH. by rewrite <- app_assoc.
Qed.

Lemma pend_readable f sent G :
  FilesInv f sent G → Forall2 (readable f G) (pend 0 G) (pendingLines G).
Proof.
  intros Hf.
  assert (∀ G1 G2, G = G1 ++ G2 → Forall2 (readable f G) (pend (length G1) G2) (pendingLines G2)) as Hgen;
    [|by apply (Hgen [] G)].
  intros G1 G2. revert G1. induction G2 as [|g G2 IH]; intros G1 HG; cbn [pend pendingLines]; [constructor|].
  apply Forall2_app.
  2: { replace (S (length G1)) with (length (G1 ++ [g])) by (rewrite length_app; cbn; lia).
       apply IH. by rewrite <- app_assoc. }
  assert (G !! length G1 = Some g) as Hp by (rewrite HG; by apply list_lookup_middle).
  pose proof (fi_g _ _ _ Hf) as Hg. rewrite list.Forall_lookup in Hg.
  destruct (fi_files _ _ _ Hf _ _ Hp) as [[_ Hack]|(tail & _ & Hd & _)].
  - unfold acked in Hack. rewrite Hack, !drop_ge by (rewrite ?length_recs; done). constructor.
  - apply Forall2_drop. by eapply (recs_readable f G g _ _ [] tail); [| |apply (Hg _ _ Hp)].
Qed.

(** ** How many records fit *)
Lemma windowCount_spec header rs count size k sz :
  windowCount header rs count size = Some (k, sz) →
  ((0 < count)%nat → Z.of_nat (header + size + count + 1) ≤ MaxEventBatchBytes) →
  (count ≤ k ≤ count + length rs)%nat ∧
  sz = (size + sum_list_with rsize (take (k - count) rs))%nat ∧
  ((0 < k)%nat → Z.of_nat (header + sz + k + 1) ≤ MaxEventBatchBytes) ∧
  (k ≤ Nat.max count telemetryWindowEvents)%nat ∧
  (k = 0%nat → rs = []).
Proof.
  revert count size. induction rs as [|r rs IH]; intros count size; cbn [windowCount].
  { intros [= <- <-] Hb. rewrite take_nil. split_and!; [cbn; lia|cbn; lia|cbn; lia|exact Hb|lia|done]. }
  assert (Some (count, size) = Some (k, sz) → (count ≠ 0%nat) →
    ((0 < count)%nat → Z.of_nat (header + size + count + 1) ≤ MaxEventBatchBytes) →
    (count ≤ k ≤ count + S (length rs))%nat ∧
    sz = (size + sum_list_with rsize (take (k - count) (r :: rs)))%nat ∧
    ((0 < k)%nat → Z.of_nat (header + sz + k + 1) ≤ MaxEventBatchBytes) ∧
    (k ≤ Nat.max count telemetryWindowEvents)%nat ∧ (k = 0%nat → r :: rs = [])) as Hstop.
  { intros [= <- <-] Hne Hb. rewrite Nat.sub_diag. split_and!; [lia|lia|cbn; lia|exact Hb|lia|lia]. }
  destruct ((0 <? count)%nat && _) eqn:Hwin.
  { intros Heq Hb. apply andb_true_iff in Hwin as [?%Nat.ltb_lt _]. by apply Hstop; [|lia|]. }
  destruct (Z.ltb_spec MaxEventBatchBytes (Z.of_nat (header + size + rsize r + count + 2))) as [_|Hfit].
  { destruct (Nat.eqb_spec count 0); [done|]. intros Heq Hb. by apply Hstop. }
  intros Hrec Hb. apply IH in Hrec as (H1 & H2 & H3 & H4 & H5); [|lia].
  split_and!; [lia|cbn [length]; lia| |done| |lia].
  - rewrite H2. replace (k - count)%nat with (S (k - S count)) by lia. cbn. lia.
  - apply andb_false_iff in Hwin as [Hz%Nat.ltb_ge|Hw].
    + assert (count = 0%nat) as -> by lia. unfold telemetryWindowEvents, MaxEventBatchEvents in *. lia.
    + apply orb_false_iff in Hw as [Hw%Nat.leb_gt _]. lia.
Qed.

(** ** The payload *)
Fixpoint joinPayloads (first : bool) (ls : list bytes) : bytes :=
  match ls with
  | [] => []
  | l :: ls => (if first then [] else [44]) ++ l ++ joinPayloads false ls
  end.

Lemma length_joinPayloads first rs ls f G :
  Forall2 (readable f G) rs ls →
  (length (joinPayloads first ls) =
    sum_list_with rsize rs + (length rs - (if first then 1 else 0)))%nat.
Proof.
  intros Hrs. revert first. induction Hrs as [|r l rs ls (g & c & _ & _ & _ & Hl & _) _ IH]; intros first; [done|].
  cbn [joinPayloads sum_list_with]. rewrite !length_app, IH, Hl. destruct first; cbn; lia.
Qed.

Definition Reading (sent : nat) (G : list ghost) (f : dir) (s : telemetrySpool) : Prop :=
  SpoolInv sent s G ∧ files (fs s) = f.

Lemma reading_io {A} sent G f (m : GoM FS A) (Q : A → Prop) :
  fsrun (λ f', f' = f) m (λ a f', f' = f ∧ Q a) (λ f', f' = f) →
  run (Reading sent G f) (io m) (λ a s, Reading sent G f s ∧ Q a) (λ _, Reading sent G f).
Proof.
  intros Hm. apply (run_io _ _ _ _ (λ _ a f', f' = f ∧ Q a) (λ _ f', f' = f)).
  - intros s [_ ->]. exact Hm.
  - intros s a d [Hs Hf] [Hd HQ]. split; [|done]. split; [|done]. apply inv_sameFiles; [done|by rewrite Hd].
  - intros s d [Hs Hf] Hd. split; [|done]. apply inv_sameFiles; [done|by rewrite Hd].
Qed.

Lemma readAt_spec f n c off size l :
  f !! n = Some c → take size (drop off c) = l → size = length l →
  fsrun (λ f', f' = f) (readAt n off size) (λ a f', f' = f ∧ a = l) (λ f', f' = f).
Proof.
  intros Hc Hl Hsize. unfold readAt. eapply fsrun_bind; [by apply (fsrun_open n (λ f', f' = f))|].
  intros c'. cbv beta zeta. intros s [Hs Hc']. rewrite Hs, Hc in Hc'. injection Hc' as <-.
  rewrite Hl, Hsize, Nat.ltb_irrefl. cbn. done.
Qed.

Lemma copyRecords_spec sent G f rs ls opened first data :
  Forall2 (readable f G) rs ls →
  run (Reading sent G f) (copyRecords rs opened first data)
    (λ d s, Reading sent G f s ∧ d = data ++ joinPayloads first ls)
    (λ _, Reading sent G f).
Proof.
  intros Hrs. revert opened first data.
  induction Hrs as [|r l rs ls (g & c & Hp & Hf & Hl & Hsize & Hgood) _ IH]; intros opened first data; cbn [copyRecords joinPayloads].
  { apply run_ret. intros s Hs. by rewrite app_nil_r. }
  eapply run_bind.
  { apply (run_loadSegment _ (toSegment g)). intros s [Hs _]. by eapply inv_lookup. }
  intros seg. apply run_pull. intros s [Hs ->]. cbn [name toSegment].
  apply (run_from (Reading sent G f) s _ _ _ Hs). clear s Hs.
  eapply (run_bind _ _ (λ _, Reading sent G f)).
  { case_bool_decide; [by apply run_ret|].
    eapply (run_bind _ _ (λ _, Reading sent G f)).
    - eapply run_conseq; [apply (reading_io sent G f (openFile (gname g)) (λ _, True))|done|by intros ? ? []|done].
      eapply fsrun_conseq; [apply (open_same (gname g) f)|done|done|done].
    - intros a. by apply run_ret. }
  intros []. eapply run_bind.
  { apply (reading_io sent G f _ (λ a, a = l)). by eapply readAt_spec. }
  intros payload. apply run_pull. intros s [Hs ->].
  apply (run_from (Reading sent G f) s _ _ _ Hs). clear s Hs.
  rewrite (good_valid _ Hgood). cbn [negb].
  eapply run_conseq; [apply IH|done| |done].
  intros d s [Hs ->]. split; [done|]. by rewrite <- !app_assoc.
Qed.

Lemma removeCleanup_spec sent G :
  run (λ s, SpoolInv sent s G) removeCleanup (λ _ s, SpoolInv sent s G) (λ _ s, SpoolInv sent s G).
Proof.
  apply run_pull. intros s Hs. unfold removeCleanup. intros s' ->. unfold get. unfold mbind at 1, gom_bind at 1.
  destruct (cleanup s) as [p|] eqn:Hc; [|done].
  destruct (inv_cleanup _ _ _ Hs p Hc) as (Hne & g & Hp & Hack).
  refine (run_bind (λ s', SpoolInv sent s' G ∧ active s' = active s) _
    (λ _ s', SpoolInv sent s' G ∧ active s' = active s) _ _ _ _ _ s (conj Hs eq_refl)).
  - eapply run_conseq; [by apply (removeSegment_spec sent G p g (active s))|done|done|by intros ? ? []].
  - intros []. apply run_modify. intros s' [[? ? ? ? ? ? ?] _]. by split.
Qed.

(** Marking a prefix as delivered. *)
Lemma inv_sent sent sent' s G :
  SpoolInv sent s G → (sent ≤ sent' ≤ length (pendingLines G))%nat → SpoolInv sent' s G.
Proof.
  intros [Hf Hs Hst Hr Hb Ha Hc] Hle. split; try done.
  destruct Hf as [Hg Ho Hfile Hm Hk Hsent]. split; try done; [|lia].
  intros p g Hp. eapply fileOk_weaken; [| |by apply Hfile]; [done|]. intros _ m _. lia.
Qed.

Definition sentWindow (agent : string) (G : list ghost) (r : bytes * nat) : Prop :=
  ∃ a, MarshalString agent = Some a ∧ (r.2 ≤ length (pendingLines G))%nat ∧
    (r.2 ≤ telemetryWindowEvents)%nat ∧ (r.2 = 0%nat → pendingLines G = [] ∧ r.1 = []) ∧
    ((0 < r.2)%nat → r.1 = batchHeader a ++ joinPayloads true (take r.2 (pendingLines G)) ++ bytesOf "]}" ∧
      blen r.1 ≤ MaxEventBatchBytes).

Lemma marshalPrefix_run sent G agent :
  run (λ s, SpoolInv sent s G) (marshalPrefix agent)
    (λ r s, SpoolInv sent s G ∧ sentWindow agent G r) (λ _ s, SpoolInv sent s G).
Proof.
  unfold marshalPrefix. eapply run_bind; [apply removeCleanup_spec|]. intros [].
  destruct (MarshalString agent) as [a|] eqn:Ha; [|by apply run_throw].
  apply run_lift_ok. apply run_pull. intros s Hs s' ->. unfold get. unfold mbind at 1, gom_bind at 1.
  pose proof (fi_sent _ _ _ (inv_files _ _ _ Hs)) as Hsent.
  rewrite (inv_records _ _ _ Hs).
  destruct (windowCount (length (batchHeader a)) (pend 0 G) 0 0) as [[k sz]|] eqn:Hw; [|done].
  apply windowCount_spec in Hw as (Hk & Hsz & Hmax & Hcap & Hz); [|lia].
  rewrite Nat.sub_0_r in Hsz. rewrite length_pend in Hk. cbn [Nat.add] in Hsz.
  assert ((k ≤ telemetryWindowEvents)%nat) as Hcap' by lia.
  destruct k as [|k'].
  - cbn. split; [done|]. exists a. split_and!; cbn; try done; [lia| |lia].
    specialize (Hz eq_refl). intros _. split; [|done].
    apply length_zero_iff_nil. rewrite <- (length_pend 0), Hz. done.
  - set (k := S k') in *. change (match k with O => _ | S _ => _ end) with
      (data ← copyRecords (take k (pend 0 G)) None true (batchHeader a);
       mret (M := Spool) (data ++ bytesOf "]}", k)).
    pose proof (pend_readable _ _ _ (inv_files _ _ _ Hs)) as Hread.
    apply (Forall2_take _ _ _ k) in Hread.
    pose proof (copyRecords_spec sent G (files (fs s)) _ _ None true (batchHeader a) Hread s (conj Hs eq_refl)) as Hcopy.
    unfold mbind, gom_bind. destruct (copyRecords _ _ _ _ s) as [[d|e|] s']; [|apply Hcopy|done].
    destruct Hcopy as [[Hs' _] ->]. cbn [fst snd mret gom_ret].
    split; [done|]. exists a. cbn [fst snd].
    split_and!; [done|lia|done|done|].
    intros _. split; [by rewrite <- app_assoc|].
    rewrite !length_app, (length_joinPayloads true _ _ _ _ Hread), length_take, length_pend, <- Hsz.
    specialize (Hmax ltac:(lia)). change (length (bytesOf "]}")) with 2%nat. lia.
Qed.
End window.
