(* ===== verification/TelemetrySpoolTheorems.v ===== *)
(** * What the telemetry spool guarantees

    The Agent's spool as a transition system: batches are appended, windows are
    sent and acknowledged, and the process crashes and restarts at any system
    call.  An accepted event is delivered or still pending, through any number of
    crashes; and the contract of each operation. *)
From Stdlib Require Import ZArith Lia.
From stdpp Require Import strings list gmap sorting.
From S2P Require Import Prelude.
From S2P Require Import GoStd.
From S2P Require Import Trace.
From S2P Require Import Bytes.
From S2P Require Import FileSystem.
From S2P Require Import TelemetrySpool.
From S2P Require Import FileSystemProps.
From S2P Require Import TelemetrySpoolProps.
From S2P Require Import TelemetrySpoolInv.
From S2P Require Import TelemetrySpoolOps.
From S2P Require Import TelemetrySpoolAppend.
From S2P Require Import TelemetrySpoolAck.
From S2P Require Import TelemetrySpoolDisk.
From S2P Require Import TelemetrySpoolRecover.
From S2P Require Import TelemetrySpoolWindow.
Open Scope Z_scope.

(** The stored bytes of a record. *)
Definition payload (s : telemetrySpool) (r : telemetryRecord) : bytes :=
  match segs s !! rsegment r with
  | Some seg => take (rsize r) (drop (roffset r) (default [] (files (fs s) !! name seg)))
  | None => []
  end.
Definition payloads (s : telemetrySpool) : list bytes := payload s <$> records s.

Section system.
Context `{JSON}.

(** ** The transition system *)

(** A running Agent, or the disk of a stopped one.  [sent]: the leading records of
    its last delivered windows; [asked]: those it was told to acknowledge, when the
    commit failed. *)
Inductive process :=
  | Up (s : telemetrySpool) (sent asked : nat)
  | Down (d : FS).

(** [accepted]: the encodings of the events of successful appends; [received]:
    the payloads of every window that was encoded for the Controller;
    [confirmed]: the payloads the Agent was told to acknowledge, which it is after
    the Controller confirmed their delivery (again after a restart, if the crash
    came before the acknowledgement was on disk). *)
Record world := mkWorld {
  proc : process; accepted : list bytes; received : list bytes; confirmed : list bytes }.

Inductive step : world → world → Prop :=
  | step_append s sent asked acc rcv conf events now text ls s' :
      append events now text s = (Ok tt, s') →
      Forall2 (λ e l, Marshal e = Some l) events ls →
      0 ≤ now ≤ MaxInt64 → lastStamp s < MaxInt64 → fresh text (files (fs s)) →
      step (mkWorld (Up s sent asked) acc rcv conf) (mkWorld (Up s' sent asked) (acc ++ ls) rcv conf)
  | step_reject s sent asked acc rcv conf events now text e s' :
      append events now text s = (Err e, s') →
      0 ≤ now ≤ MaxInt64 → lastStamp s < MaxInt64 → fresh text (files (fs s)) →
      step (mkWorld (Up s sent asked) acc rcv conf) (mkWorld (Up s' sent asked) acc rcv conf)
  | step_send s sent asked acc rcv conf agent data count s' :
      marshalPrefix agent s = (Ok (data, count), s') →
      step (mkWorld (Up s sent asked) acc rcv conf)
        (mkWorld (Up s' (Nat.max sent count) asked) acc (rcv ++ take count (payloads s')) conf)
  | step_sendError s sent asked acc rcv conf agent e s' :
      marshalPrefix agent s = (Err e, s') →
      step (mkWorld (Up s sent asked) acc rcv conf) (mkWorld (Up s' sent asked) acc rcv conf)
  | step_ack s sent asked acc rcv conf count committed err s' :
      acknowledge (Z.of_nat count) s = (Ok (committed, err), s') → (count ≤ sent)%nat →
      step (mkWorld (Up s sent asked) acc rcv conf)
        (mkWorld (Up s' (sent - committed) (Nat.max asked count - committed)) acc rcv
           (conf ++ drop asked (take count (payloads s))))
  | step_crash s sent asked acc rcv conf o t :
      step (mkWorld (Up s sent asked) acc rcv conf)
        (mkWorld (Down (mkFS (files (fs s)) o t)) acc rcv conf)
  | step_start d acc rcv conf s' :
      readTelemetrySpool (emptySpool d) = (Ok tt, s') →
      step (mkWorld (Down d) acc rcv conf) (mkWorld (Up s' 0 0) acc rcv conf)
  | step_startError d acc rcv conf e s' o t :
      readTelemetrySpool (emptySpool d) = (Err e, s') →
      step (mkWorld (Down d) acc rcv conf) (mkWorld (Down (mkFS (files (fs s')) o t)) acc rcv conf).

(** From an empty directory. *)
Inductive reachable : world → Prop :=
  | reachable_init o t : reachable (mkWorld (Down (mkFS ∅ o t)) [] [] [])
  | reachable_step w w' : reachable w → step w w' → reachable w'.
End system.

Section theorems.
Context `{JSONLaws}.

Lemma payloads_pending sent s G : SpoolInv sent s G → payloads s = pendingLines G.
Proof.
  intros Hs. pose proof (pend_readable _ _ _ (inv_files _ _ _ Hs)) as Hr.
  unfold payloads. rewrite (inv_records _ _ _ Hs).
  induction Hr as [|r l rs ls (g & c & Hp & Hf & Hl & _) _ IH]; [done|]. cbn. f_equal; [|exact IH].
  unfold payload. rewrite (inv_lookup _ _ _ _ _ Hs Hp). cbn [name toSegment]. by rewrite Hf.
Qed.

(** Both accounts of the accepted events: all but the first [n] pending records of
    [G] are accounted for by the records themselves, the rest by [l]. *)
Definition accounts (acc l : list bytes) (n : nat) (G : list ghost) : Prop :=
  acc ⊆+ l ++ drop n (pendingLines G).

Record accounted (w : world) (sent asked : nat) (G : list ghost) : Prop := {
  ac_sent : (asked ≤ sent ≤ length (pendingLines G))%nat;
  ac_received : accounts (accepted w) (received w) sent G;
  ac_confirmed : accounts (accepted w) (confirmed w) asked G }.

(** An acknowledgement that was asked for may be on disk although its commit
    failed. *)
Definition worldInv (w : world) : Prop :=
  match proc w with
  | Up s sent asked => ∃ G, SpoolInv asked s G ∧ accounted w sent asked G
  | Down d => ∃ sent asked G, FilesInv (files d) asked G ∧ accounted w sent asked G
  end.

Lemma submseteq_grow (acc rcv l l' : list bytes) :
  acc ⊆+ rcv ++ l → l `sublist_of` l' → acc ⊆+ rcv ++ l'.
Proof. intros Hacc Hl. etransitivity; [exact Hacc|]. by apply submseteq_app, sublist_submseteq. Qed.

Lemma accounts_append acc l n G G' ls :
  accounts acc l n G → pendingLines G' = pendingLines G ++ ls → (n ≤ length (pendingLines G))%nat →
  accounts (acc ++ ls) l n G'.
Proof.
  unfold accounts. intros Hacc -> Hn. rewrite drop_app_le, app_assoc by done. by apply submseteq_app.
Qed.

(** Records counted by the list grow by those between [n] and [m]. *)
Lemma accounts_count acc l n m G :
  accounts acc l n G → (n ≤ m)%nat → accounts acc (l ++ drop n (take m (pendingLines G))) m G.
Proof.
  unfold accounts. intros Hacc Hle. etransitivity; [exact Hacc|]. rewrite <- app_assoc.
  apply submseteq_app; [done|]. rewrite <- (take_drop m (pendingLines G)) at 1.
  rewrite drop_app, length_take. destruct (decide (m ≤ length (pendingLines G))%nat).
  - by replace (n - Nat.min m (length (pendingLines G)))%nat with 0%nat by lia.
  - by rewrite (drop_ge _ m), !drop_nil by lia.
Qed.

Lemma accounts_more acc l l' n G : accounts acc l n G → l `sublist_of` l' → accounts acc l' n G.
Proof.
  unfold accounts. intros Hacc Hl. etransitivity; [exact Hacc|].
  by apply submseteq_app; [apply sublist_submseteq|].
Qed.

Lemma accounts_committed acc l n m committed G G' :
  accounts acc l n G → pendingLines G' = drop committed (pendingLines G) →
  (m + committed = n)%nat → accounts acc l m G'.
Proof. unfold accounts. intros Hacc -> <-. by rewrite drop_drop, (Nat.add_comm committed). Qed.

Lemma accounts_restart acc l n m G G' :
  accounts acc l n G → drop m (pendingLines G) `sublist_of` pendingLines G' → (m ≤ n)%nat →
  accounts acc l 0 G'.
Proof.
  intros Hacc Hsub Hle. eapply submseteq_grow; [exact Hacc|]. rewrite drop_0.
  etransitivity; [|exact Hsub]. replace n with (m + (n - m))%nat by lia.
  rewrite <- drop_drop. apply sublist_drop.
Qed.

Lemma accounted_restart w p sent asked G G' :
  accounted w sent asked G → drop asked (pendingLines G) `sublist_of` pendingLines G' →
  accounted (mkWorld p (accepted w) (received w) (confirmed w)) 0 0 G'.
Proof.
  intros [Hle Hr Hc] Hsub. split; cbn; [lia|..]; eapply accounts_restart; try done; lia.
Qed.

Lemma encoded_unique (events : list TraceEvent) ls ls' :
  Forall2 (λ e l, Marshal e = Some l) events ls → Forall2 (λ e l, Marshal e = Some l) events ls' →
  ls = ls'.
Proof.
  intros Hls. revert ls'. induction Hls; intros ls' Hls'; inversion Hls'; subst; [done|].
  f_equal; [congruence|auto].
Qed.

Lemma acknowledge_worldInv s sent asked acc rcv conf count committed err s' :
  worldInv (mkWorld (Up s sent asked) acc rcv conf) →
  acknowledge (Z.of_nat count) s = (Ok (committed, err), s') → (count ≤ sent)%nat →
  worldInv (mkWorld (Up s' (sent - committed) (Nat.max asked count - committed)) acc rcv
              (conf ++ drop asked (take count (payloads s)))).
Proof.
  intros (G & Hs & [Hle Hr Hc]) Hrun Hcount. cbn in Hr, Hc.
  set (m := Nat.max asked count).
  assert (SpoolInv m s G) as Hm by (apply (inv_sent asked); [done|unfold m; lia]).
  pose proof (acknowledge_run m G (Z.of_nat count) ltac:(lia) s Hm) as Ha.
  rewrite Hrun in Ha. destruct (Z.ltb_spec (Z.of_nat count) 0); [lia|].
  rewrite Nat2Z.id in Ha. destruct Ha as (Hk & _ & G' & Hs' & Hpend). cbn [fst] in *.
  rewrite Nat.sub_0_r in Hs', Hpend. exists G'. split; [done|].
  rewrite (payloads_pending _ _ _ Hs). split; cbn.
  - rewrite Hpend, length_drop. lia.
  - eapply accounts_committed; [done..|lia].
  - eapply accounts_committed; [|done|]; [|instantiate (1 := m); lia].
    unfold m. destruct (decide (asked ≤ count)%nat).
    + rewrite Nat.max_r by lia. by apply accounts_count.
    + rewrite Nat.max_l, (drop_ge (take _ _)), app_nil_r by (rewrite ?length_take; lia). done.
Qed.

Lemma step_worldInv w w' : worldInv w → step w w' → worldInv w'.
Proof.
  intros Hw Hstep. destruct Hstep as [s sent asked acc rcv conf events now text ls s' Hrun Hls Hnow Hstamp Hfresh
    |s sent asked acc rcv conf events now text e s' Hrun Hnow Hstamp Hfresh
    |s sent asked acc rcv conf agent data count s' Hrun|s sent asked acc rcv conf agent e s' Hrun
    |s sent asked acc rcv conf count committed err s' Hrun Hcount|s sent asked acc rcv conf o t
    |d acc rcv conf s' Hrun|d acc rcv conf e s' o t Hrun];
    try (by eapply acknowledge_worldInv); unfold worldInv in *; cbn [proc files] in *.
  - destruct Hw as (G & Hs & [Hle Hr Hc]).
    pose proof (append_run asked G events now text Hnow s (conj Hs (conj Hstamp Hfresh))) as Ha.
    rewrite Hrun in Ha. destruct Ha as (G' & ls' & Hs' & Hls' & Hpend). exists G'. split; [done|].
    rewrite <- (encoded_unique _ _ _ Hls Hls') in Hpend.
    split; cbn; [rewrite Hpend, length_app; lia|..]; eapply accounts_append; try done; lia.
  - destruct Hw as (G & Hs & Hacc). exists G.
    pose proof (append_run asked G events now text Hnow s (conj Hs (conj Hstamp Hfresh))) as Ha.
    rewrite Hrun in Ha. split; [done|]. destruct Hacc. by split.
  - destruct Hw as (G & Hs & [Hle Hr Hc]). pose proof (marshalPrefix_run asked G agent s Hs) as Ha.
    rewrite Hrun in Ha. destruct Ha as [Hs' (a & _ & Hcount & _)]. cbn [snd] in *.
    exists G. split; [done|]. rewrite (payloads_pending _ _ _ Hs'). split; cbn; [lia| |done].
    destruct (decide (sent ≤ count)%nat).
    + rewrite Nat.max_r by lia. eapply accounts_more; [apply (accounts_count acc rcv sent count); [done|lia]|].
      apply sublist_app; [done|apply sublist_drop].
    + rewrite Nat.max_l by lia. eapply accounts_more; [done|]. by apply sublist_inserts_r.
  - destruct Hw as (G & Hs & Hacc). exists G.
    pose proof (marshalPrefix_run asked G agent s Hs) as Ha. rewrite Hrun in Ha.
    split; [done|]. destruct Hacc. by split.
  - destruct Hw as (G & Hs & Hacc). exists sent, asked, G. split; [apply Hs|]. destruct Hacc. by split.
  - destruct Hw as (sent & asked & G & Hf & Hacc).
    pose proof (readTelemetrySpool_spec asked G d Hf (emptySpool d) eq_refl) as Hr.
    rewrite Hrun in Hr. destruct Hr as (G' & Hs' & Hsub). exists G'. split; [done|].
    exact (accounted_restart _ _ _ _ _ _ Hacc Hsub).
  - destruct Hw as (sent & asked & G & Hf & Hacc).
    pose proof (readTelemetrySpool_spec asked G d Hf (emptySpool d) eq_refl) as Hr.
    rewrite Hrun in Hr. destruct Hr as (_ & G' & Hf' & Hsub). exists 0%nat, 0%nat, G'. split; [done|].
    exact (accounted_restart _ _ _ _ _ _ Hacc Hsub).
Qed.

Lemma reachable_worldInv w : reachable w → worldInv w.
Proof.
  induction 1 as [o t|w w' _ IH Hstep]; [|by eapply step_worldInv].
  exists 0%nat, 0%nat, []. split; [|split; cbn; [lia|apply submseteq_nil_l..]].
  split; cbn; [constructor|constructor|done|by left| |done].
  intros n d. by rewrite lookup_empty.
Qed.

(** C1: an accepted event is never lost.  Whatever system calls fail and wherever
    the Agent crashes, every event for which [append] returned success has been
    encoded for the Controller or is still pending (with multiplicity: two equal
    events count twice). *)
Theorem accepted_never_lost s sent asked acc rcv conf :
  reachable (mkWorld (Up s sent asked) acc rcv conf) → acc ⊆+ rcv ++ payloads s.
Proof.
  intros (G & Hs & [_ Hacc _])%reachable_worldInv. rewrite (payloads_pending _ _ _ Hs).
  eapply submseteq_grow; [exact Hacc|]. apply sublist_drop.
Qed.

(** C38: [append] is atomic: it either makes the whole batch pending, behind what
    was pending and encoded as [json.Marshal] does, or fails and leaves the pending
    events as they were; it never panics. *)
Theorem append_atomic s sent asked acc rcv conf events now text :
  reachable (mkWorld (Up s sent asked) acc rcv conf) →
  0 ≤ now ≤ MaxInt64 → lastStamp s < MaxInt64 → fresh text (files (fs s)) →
  match append events now text s with
  | (Ok _, s') => ∃ ls, Forall2 (λ e l, Marshal e = Some l) events ls ∧
                    payloads s' = payloads s ++ ls
  | (Err _, s') => payloads s' = payloads s ∧ records s' = records s
  | (Panic, _) => False
  end.
Proof.
  intros (G & Hs & _)%reachable_worldInv Hnow Hstamp Hfresh.
  pose proof (append_run asked G events now text Hnow s (conj Hs (conj Hstamp Hfresh))) as Hr.
  rewrite (payloads_pending _ _ _ Hs). destruct (append events now text s) as [[[]|e|] s']; [| |done].
  - destruct Hr as (G' & ls & Hs' & Hls & Hpend). exists ls. split; [done|].
    by rewrite (payloads_pending _ _ _ Hs').
  - by rewrite (payloads_pending _ _ _ Hr), (inv_records _ _ _ Hs), (inv_records _ _ _ Hr).
Qed.

(** [acknowledge] commits a prefix of the delivered events and reports exactly
    how many: on success all of them, on an error possibly fewer, never one that was
    not asked for; the events behind the prefix stay pending. *)
Theorem acknowledge_prefix s sent asked acc rcv conf count :
  reachable (mkWorld (Up s sent asked) acc rcv conf) → (count ≤ sent)%nat →
  ∃ committed err s', acknowledge (Z.of_nat count) s = (Ok (committed, err), s') ∧
    (committed ≤ count)%nat ∧ (err = None → committed = count) ∧
    payloads s' = drop committed (payloads s).
Proof.
  intros (G & Hs & [Hle _ _])%reachable_worldInv Hcount.
  assert (SpoolInv sent s G) as Hs1 by (apply (inv_sent asked); [done|lia]).
  pose proof (acknowledge_run sent G (Z.of_nat count) ltac:(lia) s Hs1) as Hr.
  destruct (acknowledge (Z.of_nat count) s) as [[[c err]|e|] s']; [|done..].
  destruct (Z.ltb_spec (Z.of_nat count) 0); [lia|].
  rewrite Nat2Z.id in Hr. destruct Hr as (Hc & Herr & G' & Hs' & Hpend). cbn [fst snd] in *.
  exists c, err, s'. split_and!; [done|lia|done|].
  by rewrite (payloads_pending _ _ _ Hs'), (payloads_pending _ _ _ Hs), Hpend, Nat.sub_0_r.
Qed.

(** C39: [marshalPrefix] encodes the longest-standing pending events, byte for byte,
    as one JSON batch within the protocol's limits of bytes and events; it encodes
    none only if none is pending, and leaves the pending events as they were. *)
Theorem marshalPrefix_window s sent asked acc rcv conf agent data count s' :
  reachable (mkWorld (Up s sent asked) acc rcv conf) → marshalPrefix agent s = (Ok (data, count), s') →
  payloads s' = payloads s ∧ (count ≤ telemetryWindowEvents)%nat ∧
  (count = 0%nat → payloads s = []) ∧
  ((0 < count)%nat → blen data ≤ MaxEventBatchBytes ∧ ∃ a, MarshalString agent = Some a ∧
     data = batchHeader a ++ joinPayloads true (take count (payloads s)) ++ bytesOf "]}").
Proof.
  intros (G & Hs & _)%reachable_worldInv Hrun.
  pose proof (marshalPrefix_run asked G agent s Hs) as Hr. rewrite Hrun in Hr.
  destruct Hr as [Hs' (a & Ha & H1 & H2 & H3 & H4)]. cbn [fst snd] in *.
  rewrite (payloads_pending _ _ _ Hs), (payloads_pending _ _ _ Hs').
  split_and!; [done|done|by intros ?; apply H3|]. intros Hpos. destruct (H4 Hpos) as [-> Hlen].
  split; [done|]. by exists a.
Qed.

(** C33: start-up succeeds on the directory that any crash leaves, unless a system
    call of the start-up itself fails: torn batches, torn acknowledgement frames and
    files of failed appends are never mistaken for corruption.  Every accepted event
    is pending again, except those the Agent was told to acknowledge (it is told so
    after the Controller confirmed their delivery), and all of these had been
    encoded for the Controller. *)
Theorem start_total d acc rcv conf :
  reachable (mkWorld (Down d) acc rcv conf) → (∀ t, oracle d t = FOk) →
  ∃ s', readTelemetrySpool (emptySpool d) = (Ok tt, s') ∧
    acc ⊆+ conf ++ payloads s' ∧ acc ⊆+ rcv ++ payloads s'.
Proof.
  intros (sent & asked & G & Hf & Hacc)%reachable_worldInv Ho.
  pose proof (readTelemetrySpool_spec asked G d Hf (emptySpool d) eq_refl) as Hr.
  destruct (readTelemetrySpool (emptySpool d)) as [[[]|e|] s']; [| |done].
  - destruct Hr as (G' & Hs' & Hsub). exists s'. split; [done|].
    rewrite (payloads_pending _ _ _ Hs').
    by destruct (accounted_restart _ (Up s' 0 0) _ _ _ _ Hacc Hsub).
  - destruct Hr as [[t Ht] _]. by destruct (Ht (Ho t)).
Qed.
End theorems.

(** ** A concrete run *)
Module TelemetrySpoolExamples.

(** An encoding with the laws: an event as the text of its run. *)
Definition textOf (b : bytes) : string :=
  String.string_of_list_ascii ((λ b, Ascii.ascii_of_N (Z.to_N b)) <$> b).

Lemma textOf_bytesOf (t : string) : textOf (bytesOf t) = t.
Proof.
  induction t as [|c t IH]; [done|]. unfold textOf in *. cbn. rewrite IH. f_equal.
  unfold byteOf. rewrite N2Z.id. apply Ascii.ascii_N_embedding.
Qed.

#[export] Instance textJSON : JSON := {|
  Marshal e := if bool_decide (newline ∈ bytesOf (RunID e)) then None else Some (bytesOf (RunID e));
  MarshalString a := Some (bytesOf a);
  UnmarshalEvent _ := None;
  UnmarshalRunID b := Some (textOf b);
  ValidJSON _ := true;
  DecodeArray _ := None |}.

#[export] Instance textLaws : JSONLaws.
Proof.
  split; cbn; intros e b; case_bool_decide as Hn; try done; intros [= <-]; [done|].
  by rewrite textOf_bytesOf.
Qed.

Definition event (run : string) : TraceEvent :=
  mkEvent None "" None "" 0 "" run "" "" "" "" "" "" "" 0 F64.zero ∅.

(** A write of the second batch persists five bytes and fails. *)
Definition disk0 : FS := mkFS ∅ (λ t, if (t =? 28)%nat then FShort 5 else FOk) 0.
Definition healthy : nat → fault := λ _, FOk.

Definition started := readTelemetrySpool (emptySpool disk0).
Definition batch1 := append [event "r1"; event "r2"] 1700000000 "AAAA" started.2.
Definition batch2 := append [event "r3"; event "r4"] 1700000001 "BBBB" batch1.2.
Definition crashed : FS := mkFS (files (fs batch2.2)) healthy 0.
Definition restarted := readTelemetrySpool (emptySpool crashed).
Definition window := marshalPrefix "agent" restarted.2.
Definition acknowledged1 := acknowledge 1 window.2.

Definition bytesOfAll : list string → list bytes := fmap bytesOf.

Lemma run_results :
  started.1 = Ok tt ∧ batch1.1 = Ok tt ∧ batch2.1 = Err ErrIO ∧ restarted.1 = Ok tt ∧
  window.1 = Ok (bytesOf ("{" ++ quote ++ "agentId" ++ quote ++ ":agent," ++ quote ++ "events" ++
                          quote ++ ":[r1,r2,r3]}"), 3%nat) ∧
  acknowledged1.1 = Ok (1%nat, None) ∧ payloads acknowledged1.2 = bytesOfAll ["r2"; "r3"]%string.
Proof. vm_compute. repeat split. Qed.

(** The torn segment: the second batch's first line survived the failed write. *)
Lemma torn_segment :
  files (fs batch2.2) !! segmentName 1700000000 "AAAA"
  = Some (bytesOf "r1" ++ [10] ++ bytesOf "r2" ++ [10] ++ bytesOf "r3" ++ [10; 114; 52]).
Proof. vm_compute. reflexivity. Qed.

(** Freshness by the endings of the names. *)
Definition unused (text : string) (f : dir) : bool :=
  forallb (λ n, negb (HasSuffix n ("-" ++ text ++ ".jsonl")) &&
                negb (HasSuffix n ("-" ++ text ++ ".jsonl.ack")))%string (fst <$> map_to_list f).

Lemma unused_fresh text f : unused text f = true → fresh text f.
Proof.
  unfold unused. rewrite forallb_forall. intros Hn stamp Hs.
  assert (∀ n c, f !! n = Some c → HasSuffix n ("-" ++ text ++ ".jsonl")%string = false ∧
    HasSuffix n ("-" ++ text ++ ".jsonl.ack")%string = false) as Hno.
  { intros n c Hc. specialize (Hn n). rewrite andb_true_iff, !negb_true_iff in Hn. apply Hn.
    apply list_elem_of_In, list_elem_of_fmap. exists (n, c). split; [done|]. by apply elem_of_map_to_list. }
  split; match goal with |- ?x = None => destruct x as [c|] eqn:Hc; [exfalso|done] end.
  - apply Hno in Hc as [Hc _]. unfold segmentName in Hc. by rewrite HasSuffix_app in Hc.
  - apply Hno in Hc as [_ Hc]. unfold segmentName, ackPath in Hc.
    rewrite <- string_app_assoc in Hc.
    change (("-" ++ text ++ ".jsonl") ++ ".ack")%string with ("-" ++ (text ++ ".jsonl") ++ ".ack")%string in Hc.
    rewrite <- (string_app_assoc text) in Hc. by rewrite HasSuffix_app in Hc.
Qed.

Lemma run_at {A} (m : res A * telemetrySpool) r : m.1 = r → m = (r, m.2).
Proof. intros <-. by destruct m. Qed.

Lemma reach_started : reachable (mkWorld (Up started.2 0 0) [] [] []).
Proof.
  eapply reachable_step; [apply (reachable_init (oracle disk0) 0)|].
  apply step_start, (run_at started), run_results.
Qed.

Lemma encoded_runs (l : list string) :
  Forall (λ r, newline ∉ bytesOf r) l →
  Forall2 (λ e b, Marshal e = Some b) (event <$> l) (bytesOfAll l).
Proof.
  induction 1 as [|r l Hr _ IH]; constructor; [|exact IH]. cbn. by rewrite bool_decide_false.
Qed.

Lemma stamps_small :
  lastStamp started.2 < MaxInt64 ∧ lastStamp batch1.2 < MaxInt64 ∧
  unused "AAAA" (files (fs started.2)) = true ∧ unused "BBBB" (files (fs batch1.2)) = true.
Proof. vm_compute. repeat split. Qed.

Lemma reach_batch1 : reachable (mkWorld (Up batch1.2 0 0) (bytesOfAll ["r1"; "r2"]%string) [] []).
Proof.
  eapply reachable_step; [apply reach_started|].
  apply (step_append _ _ _ [] [] [] [event "r1"; event "r2"] 1700000000 "AAAA" (bytesOfAll ["r1"; "r2"]%string)).
  - apply (run_at batch1), run_results.
  - apply (encoded_runs ["r1"; "r2"]%string). repeat constructor; set_solver.
  - unfold MaxInt64. lia.
  - apply stamps_small.
  - apply unused_fresh, stamps_small.
Qed.

Lemma reach_crashed : reachable (mkWorld (Down crashed) (bytesOfAll ["r1"; "r2"]%string) [] []).
Proof.
  eapply reachable_step; [eapply reachable_step; [apply reach_batch1|]|].
  - apply (step_reject _ _ _ _ _ _ [event "r3"; event "r4"] 1700000001 "BBBB" ErrIO batch2.2).
    + apply (run_at batch2), run_results.
    + unfold MaxInt64. lia.
    + apply stamps_small.
    + apply unused_fresh, stamps_small.
  - apply step_crash.
Qed.

Lemma reach_window :
  reachable (mkWorld (Up window.2 3 0) (bytesOfAll ["r1"; "r2"]%string)
    (take 3 (payloads window.2)) []).
Proof.
  eapply reachable_step; [eapply reachable_step; [apply reach_crashed|]|].
  - apply step_start, (run_at restarted), run_results.
  - apply (step_send restarted.2 0 0 _ [] [] "agent"
      (bytesOf ("{" ++ quote ++ "agentId" ++ quote ++ ":agent," ++ quote ++ "events" ++
                quote ++ ":[r1,r2,r3]}")) 3 window.2).
    apply (run_at window), run_results.
Qed.

Lemma accepted_never_lost_witness :
  bytesOfAll ["r1"; "r2"]%string ⊆+ take 3 (payloads window.2) ++ payloads window.2.
Proof. exact (accepted_never_lost window.2 3 0 _ _ [] reach_window). Defined.

Lemma append_atomic_witness :
  match batch1 with
  | (Ok _, s') => ∃ ls, Forall2 (λ e l, Marshal e = Some l) [event "r1"; event "r2"] ls ∧
                    payloads s' = payloads started.2 ++ ls
  | (Err _, s') => payloads s' = payloads started.2 ∧ records s' = records started.2
  | (Panic, _) => False
  end.
Proof.
  refine (append_atomic started.2 0 0 [] [] [] [event "r1"; event "r2"] 1700000000 "AAAA" reach_started _ _ _).
  - unfold MaxInt64. lia.
  - apply stamps_small.
  - apply unused_fresh, stamps_small.
Defined.

Lemma acknowledge_prefix_witness :
  ∃ committed err s', acknowledge (Z.of_nat 1) window.2 = (Ok (committed, err), s') ∧
    (committed ≤ 1)%nat ∧ (err = None → committed = 1%nat) ∧
    payloads s' = drop committed (payloads window.2).
Proof. refine (acknowledge_prefix window.2 3 0 _ _ [] 1 reach_window _). lia. Defined.

Lemma marshalPrefix_window_witness :
  payloads window.2 = payloads restarted.2 ∧ (3 ≤ telemetryWindowEvents)%nat ∧
  (3%nat = 0%nat → payloads restarted.2 = []) ∧
  ((0 < 3)%nat → blen (bytesOf ("{" ++ quote ++ "agentId" ++ quote ++ ":agent," ++ quote ++ "events" ++
                          quote ++ ":[r1,r2,r3]}")) ≤ MaxEventBatchBytes ∧
     ∃ a, MarshalString "agent" = Some a ∧
     bytesOf ("{" ++ quote ++ "agentId" ++ quote ++ ":agent," ++ quote ++ "events" ++
              quote ++ ":[r1,r2,r3]}")
     = batchHeader a ++ joinPayloads true (take 3 (payloads restarted.2)) ++ bytesOf "]}").
Proof.
  refine (marshalPrefix_window restarted.2 0 0 (bytesOfAll ["r1"; "r2"]%string) [] [] "agent" _ 3 window.2 _ _).
  - eapply reachable_step; [apply reach_crashed|]. apply step_start, (run_at restarted), run_results.
  - apply (run_at window), run_results.
Defined.

(** The Controller confirmed the first event, then the Agent crashed. *)
Definition stopped : FS := mkFS (files (fs acknowledged1.2)) healthy 0.

Lemma reach_stopped :
  reachable (mkWorld (Down stopped) (bytesOfAll ["r1"; "r2"]%string) (take 3 (payloads window.2))
    ([] ++ drop 0 (take 1 (payloads window.2)))).
Proof.
  eapply reachable_step; [eapply reachable_step; [apply reach_window|]|].
  - apply (step_ack window.2 3 0 _ _ _ 1 1 None acknowledged1.2); [|lia].
    apply (run_at acknowledged1), run_results.
  - apply step_crash.
Qed.

Lemma first_confirmed : [] ++ drop 0 (take 1 (payloads window.2)) = bytesOfAll ["r1"]%string.
Proof. vm_compute. reflexivity. Qed.

Lemma start_total_witness :
  ∃ s', readTelemetrySpool (emptySpool stopped) = (Ok tt, s') ∧
    bytesOfAll ["r1"; "r2"]%string ⊆+ bytesOfAll ["r1"]%string ++ payloads s'.
Proof.
  destruct (start_total stopped _ _ _ reach_stopped (λ _, eq_refl)) as (s' & Hs & Hc & _).
  rewrite first_confirmed in Hc. exact (ex_intro _ s' (conj Hs Hc)).
Defined.
End TelemetrySpoolExamples.
