(* ===== verification/ProfileScheduleProps.v ===== *)
(** * Properties of profile updates

    What [Apply] computes, field by field; the Controller accepts the
    acknowledgement of a Peer that applied the patch, and an accepted
    acknowledgement contains every requested value. *)
From Stdlib Require Import ZArith Lia.
From stdpp Require Import strings list gmap.
From S2P Require Import Prelude.
From S2P Require Import GoStd.
From S2P Require Import GoStrings.
From S2P Require Import Distribution.
From S2P Require Import Network.
From S2P Require Import NetworkProps.
From S2P Require Import Attacks.
From S2P Require Import PeerScore.
From S2P Require Import GossipSubConfig.
From S2P Require Import KademliaConfig.
From S2P Require Import NodeConfig.
From S2P Require Import NodeConfigProps.
From S2P Require Import NodeConfigSafe.
From S2P Require Import ProfileSchedule.
Open Scope Z_scope.

(** ** Overlaying a patch *)
Lemma kademlia_merge_zero k : KademliaConfig.merge k KademliaConfig.zero = k.
Proof. by destruct k. Qed.
Lemma kademlia_switch_zero k : KademliaConfig.switchProtocol k KademliaConfig.zero = k.
Proof. by destruct k. Qed.
Lemma libp2p_merge_zero l : Libp2pConfig.merge l Libp2pConfig.zero = l.
Proof. by destruct l. Qed.
Lemma network_switch_zero n : switchModes n zeroNetwork = n.
Proof. by destruct n. Qed.
Lemma network_Merge_zero n : Merge n zeroNetwork = n.
Proof. by destruct n. Qed.

Lemma gossip_merge_params g params :
  GossipSubConfig.merge g (GossipSubConfig.withTopics None params GossipSubConfig.zero) =
  GossipSubConfig.withTopics (GossipSubConfig.Topics g)
    (GossipSubParamsConfig.merge (GossipSubConfig.Params g) params) g.
Proof. by destruct g. Qed.

Lemma params_merge_zero q : GossipSubParamsConfig.merge q GossipSubParamsConfig.zero = q.
Proof. by destruct q. Qed.

(** The parameters a patch carries. *)
Definition patchParams (p : RuntimeProfilePatch.t) : GossipSubParamsConfig.t :=
  from_option RuntimeGossipSubParams.nodeParams GossipSubParamsConfig.zero
    (RuntimeProfilePatch.GossipSub p).

Lemma promote_zero_params p :
  GossipSubParamsConfig.promoteLegacy 0 0 0 0 0 "" p = p.
Proof.
  destruct p. unfold GossipSubParamsConfig.promoteLegacy, GossipSubParamsConfig.promote. cbn.
  f_equal; try (by case_match). unfold empty. case_bool_decide; naive_solver.
Qed.

Lemma overlay_promoted p :
  NodeConfig.promoteLegacy (RuntimeProfilePatch.overlay p) = RuntimeProfilePatch.overlay p.
Proof.
  unfold NodeConfig.promoteLegacy. cbn -[GossipSubParamsConfig.promoteLegacy].
  by rewrite promote_zero_params.
Qed.

Lemma Merge_overlay b p :
  NodeConfig.Merge b (RuntimeProfilePatch.overlay p) =
  NodeConfig.withParts
    (Attacks.mergeAttacks (NodeConfig.attacks b)
       (NodeConfig.attacks (RuntimeProfilePatch.overlay p)))
    (NodeConfig.Kademlia b)
    (GossipSubConfig.withTopics (GossipSubConfig.Topics (NodeConfig.GossipSub b))
       (GossipSubParamsConfig.merge (GossipSubConfig.Params (NodeConfig.GossipSub b))
          (patchParams p)) (NodeConfig.GossipSub b))
    (Merge (NodeConfig.Network b) (default zeroNetwork (RuntimeProfilePatch.Network p))) b.
Proof.
  unfold NodeConfig.Merge. rewrite overlay_promoted. unfold RuntimeProfilePatch.overlay.
  unfold NodeConfig.withParts, NodeConfig.mergeFields. cbn [NodeConfig.attacks NodeConfig.Type_
    NodeConfig.Topics NodeConfig.D NodeConfig.DLow NodeConfig.DHigh NodeConfig.DOut
    NodeConfig.DLazy NodeConfig.Heartbeat NodeConfig.ConnectLimit NodeConfig.Libp2p
    NodeConfig.Kademlia NodeConfig.GossipSub NodeConfig.Network].
  rewrite kademlia_switch_zero, kademlia_merge_zero, libp2p_merge_zero.
  unfold NodeConfig.overlayTopicMode. cbn [GossipSubConfig.Subscribe GossipSubConfig.withTopics
    GossipSubConfig.zero].
  rewrite <- gossip_merge_params. by destruct b.
Qed.

(** Overlaid on defaulted parameters, the result needs no default. *)
Lemma orElse_nonnil {A} (x y : option A) v w : orElse (nonnil x (orElse y v)) w = nonnil x (orElse y v).
Proof. by destruct x, y. Qed.
Lemma promote_nonnil v (x y : option Z) w :
  GossipSubParamsConfig.promote v (nonnil x (orElse y w)) = nonnil x (orElse y w).
Proof. by destruct x, y. Qed.

Lemma nonzero_nil s : nonzero "" s = s.
Proof. done. Qed.

Lemma params_overlaid q g :
  let p := GossipSubParamsConfig.merge (GossipSubParamsConfig.WithDefaults q)
             (RuntimeGossipSubParams.nodeParams g) in
  GossipSubParamsConfig.WithDefaults p = p.
Proof.
  destruct q. unfold GossipSubParamsConfig.merge, RuntimeGossipSubParams.nodeParams,
    GossipSubParamsConfig.WithDefaults. cbn -[orElse orText nonnil nonzero].
  rewrite !orElse_nonnil, !nonzero_nil, !orText_idemp. done.
Qed.

Lemma params_patched q p :
  let r := GossipSubParamsConfig.merge (GossipSubParamsConfig.WithDefaults q) (patchParams p) in
  GossipSubParamsConfig.WithDefaults r = r.
Proof.
  unfold patchParams. destruct (RuntimeProfilePatch.GossipSub p) as [g|]; cbn [from_option].
  - apply params_overlaid.
  - cbv zeta. by rewrite params_merge_zero, params_WithDefaults_idemp.
Qed.

Lemma gossip_defaults_params g P :
  noElems (GossipSubConfig.Topics g) = false → GossipSubParamsConfig.WithDefaults P = P →
  GossipSubConfig.WithDefaults (GossipSubConfig.withTopics (GossipSubConfig.Topics g) P g) =
  GossipSubConfig.withTopics (GossipSubConfig.Topics (GossipSubConfig.WithDefaults g)) P
    (GossipSubConfig.WithDefaults g).
Proof.
  intros HT HP. unfold GossipSubConfig.WithDefaults, GossipSubConfig.withTopics.
  cbn -[orElse orText GossipSubConfig.defaultTopics GossipSubConfig.defaultTopicMode].
  rewrite HP. unfold GossipSubConfig.defaultTopics, GossipSubConfig.defaultTopicMode.
  cbn -[noElems]. by rewrite HT.
Qed.

Section apply.
Context `{PeerCodecLaws}.

(** What [Apply] returns when its checks pass. *)
Definition patched (p : RuntimeProfilePatch.t) (base : NodeConfig.t) : NodeConfig.t :=
  NodeConfig.WithDefaults
    (NodeConfig.Merge (NodeConfig.WithDefaults base) (RuntimeProfilePatch.overlay p)).

Lemma node_gossip_defaults a k n b g P :
  noElems (GossipSubConfig.Topics g) = false → GossipSubParamsConfig.WithDefaults P = P →
  NodeConfig.GossipSub (NodeConfig.WithDefaults (NodeConfig.withParts a k
    (GossipSubConfig.withTopics (GossipSubConfig.Topics g) P g) n b)) =
  GossipSubConfig.withTopics (GossipSubConfig.Topics (GossipSubConfig.WithDefaults g)) P
    (GossipSubConfig.WithDefaults g).
Proof.
  intros HT HP. unfold NodeConfig.WithDefaults, NodeConfig.promoteLegacy, NodeConfig.promoteTopics,
    NodeConfig.withParts.
  cbn [NodeConfig.GossipSub GossipSubConfig.Topics GossipSubConfig.Params GossipSubConfig.withTopics
       NodeConfig.Topics NodeConfig.D NodeConfig.DLow NodeConfig.DHigh NodeConfig.DOut
       NodeConfig.DLazy NodeConfig.Heartbeat].
  rewrite HT. cbn [andb].
  assert (∀ d dl dh dout dz hb, GossipSubParamsConfig.promoteLegacy d dl dh dout dz hb P = P) as ->
    by (intros; rewrite <- HP; apply params_promote_defaults).
  by rewrite <- gossip_defaults_params by done.
Qed.

Lemma patched_gossip p base :
  let g := NodeConfig.GossipSub (NodeConfig.WithDefaults base) in
  NodeConfig.GossipSub (patched p base) =
  GossipSubConfig.withTopics (GossipSubConfig.Topics g)
    (GossipSubParamsConfig.merge (GossipSubConfig.Params g) (patchParams p)) g.
Proof.
  intros g. unfold patched. rewrite Merge_overlay, node_gossip_defaults.
  - change (NodeConfig.GossipSub (NodeConfig.WithDefaults base))
      with (GossipSubConfig.WithDefaults (NodeConfig.GossipSub (NodeConfig.promoteLegacy base))).
    by rewrite gossip_WithDefaults_idemp.
  - apply defaultTopics_some.
  - apply params_patched.
Qed.

Lemma patched_attacks p base :
  NodeConfig.attacks (patched p base) =
  Attacks.defaultAttacks (Attacks.mergeAttacks (NodeConfig.attacks (NodeConfig.WithDefaults base))
    (NodeConfig.attacks (RuntimeProfilePatch.overlay p))).
Proof. unfold patched. by rewrite Merge_overlay. Qed.

Lemma patched_network p base :
  NodeConfig.Network (patched p base) =
  Merge (NodeConfig.Network base) (default zeroNetwork (RuntimeProfilePatch.Network p)).
Proof. unfold patched. by rewrite Merge_overlay. Qed.

Lemma patched_defaults p base : NodeConfig.WithDefaults (patched p base) = patched p base.
Proof. apply node_WithDefaults_idemp. Qed.

(** The parts of the configuration the patch does not declare stay as they are. *)
Lemma patched_same_params p base :
  RuntimeProfilePatch.GossipSub p = None →
  GossipSubConfig.Params (NodeConfig.GossipSub (patched p base)) =
  GossipSubConfig.Params (NodeConfig.GossipSub (NodeConfig.WithDefaults base)).
Proof.
  intros Hp. rewrite patched_gossip. unfold patchParams. rewrite Hp. cbn [from_option].
  rewrite params_merge_zero. done.
Qed.

Lemma patched_same_network p base :
  RuntimeProfilePatch.Network p = None →
  NodeConfig.Network (patched p base) = NodeConfig.Network base.
Proof. intros Hp. by rewrite patched_network, Hp, network_Merge_zero. Qed.

Lemma patched_same_attacks p base :
  RuntimeProfilePatch.HasAttacks p = false →
  NodeConfig.attacks (patched p base) = NodeConfig.attacks (NodeConfig.WithDefaults base).
Proof.
  unfold RuntimeProfilePatch.HasAttacks. intros Hp. rewrite !orb_false_iff in Hp.
  rewrite patched_attacks. unfold RuntimeProfilePatch.overlay. cbn [NodeConfig.attacks].
  destruct Hp as [[[Hf Hs] Hc] Hm].
  destruct (RuntimeProfilePatch.Forwarding p); [done|].
  destruct (RuntimeProfilePatch.Sink p); [done|].
  destruct (RuntimeProfilePatch.Censorship p); [done|].
  destruct (RuntimeProfilePatch.MessageDelay p); [done|]. cbn [fmap option_fmap option_map].
  change (Attacks.mk None None None None None None None None None) with Attacks.zero.
  rewrite mergeAttacks_zero. apply defaultAttacks_idemp.
Qed.
End apply.

(** ** [Apply] *)
Section checks.
Context `{PeerCodecLaws} `{CIDRs} `{PubSubLib} (ParseFloat : string → option float).
Let Apply := RuntimeProfilePatch.Apply ParseFloat.

Lemma Apply_ok p base u :
  Apply p base = Ok u ↔
  RuntimeProfilePatch.Validate ParseFloat p = Ok tt ∧
  RuntimeProfilePatch.HasAttacks p &&
    RuntimeProfilePatch.noGossip (NodeConfig.WithDefaults base) = false ∧
  negb (isNil (RuntimeProfilePatch.GossipSub p)) &&
    RuntimeProfilePatch.noGossip (NodeConfig.WithDefaults base) = false ∧
  negb (isNil (RuntimeProfilePatch.Network p)) && Scheduled (NodeConfig.Network base) = false ∧
  u = patched p base ∧ NodeConfig.Validate ParseFloat u = Ok tt.
Proof.
  unfold Apply, RuntimeProfilePatch.Apply. fold (patched p base). rewrite !seq_ok, !fail_if_ok.
  cbn [NodeConfig.Network NodeConfig.WithDefaults]. naive_solver.
Qed.
End checks.

(** ** Overlaying twice *)
Lemma nonzero_left s d : nonzero s (nonzero s d) = nonzero s d.
Proof. unfold nonzero. by repeat case_bool_decide. Qed.
Lemma nonnil_left {A} (s d : option A) : nonnil s (nonnil s d) = nonnil s d.
Proof. by destruct s. Qed.

Lemma Merge_again c o : Merge (Merge c o) o = Merge c o.
Proof.
  destruct (Merge_rest (Merge c o) o) as (E1&E2&E3&E4&E5&E6&E7&E8&E9&E10).
  destruct (Merge_rest c o) as (F1&F2&F3&F4&F5&F6&F7&F8&F9&F10).
  destruct (Merge_delay (Merge c o) o) as (E11&E12), (Merge_delay c o) as (F11&F12).
  destruct (Merge_shaper (Merge c o) o) as (E13&E14), (Merge_shaper c o) as (F13&F14).
  apply network_ext; rewrite ?E1, ?E2, ?E3, ?E4, ?E5, ?E6, ?E7, ?E8, ?E9, ?E10, ?E11, ?E12, ?E13,
    ?E14, ?F1, ?F2, ?F3, ?F4, ?F5, ?F6, ?F7, ?F8, ?F9, ?F10, ?F11, ?F12, ?F13, ?F14;
    rewrite ?nonzero_left, ?nonnil_left; try done.
  - destruct (DelayDistribution o); [|by rewrite nonzero_left]. unfold nonzero.
    by repeat case_bool_decide.
  - destruct (DelayDistribution o); [done|]. cbn. by case_bool_decide.
  - by destruct (RateMbps o), (TBF o).
  - by destruct (RateMbps o), (TBF o).
Qed.

Lemma Merge_Initial c o : Schedule o = None → Merge (Initial c) o = Initial (Merge c o).
Proof.
  intros Ho. unfold Merge, Initial, with_schedule, mergeNonZero, switchModes. rewrite Ho.
  destruct (DelayDistribution o), (RateMbps o), (TBF o); cbn;
    destruct (bool_decide (Delay o = ""%string)); done.
Qed.

Lemma Initial_idem c : Initial (Initial c) = Initial c.
Proof. done. Qed.

(** ** Deep equality is reflexive away from NaN *)
Lemma feqb_refl v : F64.isNaN v = false → F64.eqb v v = true.
Proof.
  unfold F64.eqb, F64.compare. destruct v as [[]|[]| |s m e]; try done; intros _.
  all: by rewrite ?Z.compare_refl.
Qed.
Lemma deepPtr_refl {A} (eq : A → A → bool) p :
  (∀ v, p = Some v → eq v v = true) → deepPtr eq p p = true.
Proof. destruct p; cbn; auto. Qed.
Lemma leb_not_nan x v : F64.leb x v = true → F64.isNaN v = false.
Proof. unfold F64.leb, F64.compare. by destruct x as [[]|[]| |? ? ?], v as [[]|[]| |? ? ?]. Qed.
Lemma percent_refl p : percent p → deepFloat p p = true.
Proof. intros Hp. apply deepPtr_refl. intros v Hv. eapply feqb_refl, leb_not_nan, Hp, Hv. Qed.
Lemma positiveFinite_nan v : networkPositiveFinite v = true → F64.isNaN v = false.
Proof. unfold networkPositiveFinite. by destruct (F64.isNaN v), (F64.ltb _ _). Qed.

Lemma deepNetwork_refl n :
  within n → Schedule n = None → DelayDistribution n = None → deepNetwork n n = true.
Proof.
  intros [_ _ _ _ (P1&P2&P3&P4&P5) _ _ Hrate Htbf _] Hs Hd.
  destruct n. cbn in *. subst. rewrite !bool_decide_eq_true_2 by done.
  rewrite !percent_refl by done. cbn. rewrite !andb_true_iff. split_and!.
  - apply deepPtr_refl. intros v Hv. apply feqb_refl. destruct (Hrate v Hv) as [Hf _].
    unfold F64.finite in Hf. by destruct (F64.isNaN v).
  - apply deepPtr_refl. intros v Hv. destruct (Htbf v Hv) as (_ & H1 & H2 & _).
    unfold deepTBF. rewrite !feqb_refl by (by apply positiveFinite_nan).
    by rewrite bool_decide_eq_true_2.
  - apply deepPtr_refl. intros v _. apply Z.eqb_refl.
Qed.

(** ** A configuration with nothing but parameters and a network *)
Section bare.
Context `{PeerCodecLaws} `{CIDRs} `{PubSubLib} (ParseFloat : string → option float).

Lemma bare_kademlia :
  NodeConfig.validateKademlia (KademliaConfig.WithDefaults KademliaConfig.zero) = Ok tt.
Proof. vm_compute. reflexivity. Qed.

(** The defaulted [GossipSub] section with the parameters [P]. *)
Definition bareGossip (P : GossipSubParamsConfig.t) : GossipSubConfig.t :=
  GossipSubConfig.withTopics (Some ["kpl/default"%string]) (GossipSubParamsConfig.WithDefaults P)
    (GossipSubConfig.WithDefaults GossipSubConfig.zero).

Lemma bare_gossip P n :
  NodeConfig.GossipSub (NodeConfig.WithDefaults (RuntimeProfilePatch.bareConfig P n)) =
  bareGossip P.
Proof.
  unfold NodeConfig.WithDefaults, NodeConfig.promoteLegacy, RuntimeProfilePatch.bareConfig.
  cbn -[GossipSubParamsConfig.WithDefaults GossipSubParamsConfig.promoteLegacy].
  by rewrite promote_zero_params.
Qed.

Lemma bare_gossip_valid k P :
  NodeConfig.validateParams (GossipSubParamsConfig.WithDefaults P) = Ok tt →
  NodeConfig.validateGossipSub k (bareGossip P) = Ok tt.
Proof.
  intros HP. unfold NodeConfig.validateGossipSub.
  change (NodeConfig.isGossipRouter (bareGossip P)) with true. cbn [bareGossip].
  change (GossipSubConfig.Params (bareGossip P)) with (GossipSubParamsConfig.WithDefaults P).
  rewrite HP. vm_compute. reflexivity.
Qed.

Lemma bare_durations g n :
  checkAll (λ '(name, value, positive), NodeConfig.checkDuration name value positive)
    (NodeConfig.durations (NodeConfig.WithDefaults
      (RuntimeProfilePatch.bareConfig (RuntimeGossipSubParams.nodeParams g) n))) = Ok tt.
Proof.
  unfold NodeConfig.durations. rewrite bare_gossip. vm_compute. reflexivity.
Qed.

Lemma bare_valid g n :
  NodeConfig.validateParams
    (GossipSubParamsConfig.WithDefaults (RuntimeGossipSubParams.nodeParams g)) = Ok tt →
  Network.Validate ParseFloat n = Ok tt →
  NodeConfig.Validate ParseFloat
    (RuntimeProfilePatch.bareConfig (RuntimeGossipSubParams.nodeParams g) n) = Ok tt.
Proof.
  intros HP Hn. unfold NodeConfig.Validate. rewrite bare_durations, bare_gossip.
  change (NodeConfig.Kademlia _) with (KademliaConfig.WithDefaults KademliaConfig.zero).
  change (NodeConfig.Network _) with n. change (NodeConfig.Libp2p _) with Libp2pConfig.zero.
  rewrite bare_kademlia, bare_gossip_valid, Hn by done. reflexivity.
Qed.
End bare.

(** ** The snapshot of a patched configuration *)
Lemma params_snapshot P :
  GossipSubParamsConfig.WithDefaults P = P → NodeConfig.validateParams P = Ok tt →
  NodeConfig.validateParams (GossipSubParamsConfig.WithDefaults
    (RuntimeGossipSubParams.nodeParams (RuntimeGossipSubParams.ofConfig P))) = Ok tt.
Proof.
  intros HP. rewrite <- HP at 1. unfold NodeConfig.validateParams. rewrite !seq_ok.
  intros (Hd & _ & _ & Hf & _). split_and!.
  - revert Hd. unfold NodeConfig.validateDegrees. rewrite <- HP. destruct P.
    cbn -[orElse orText]. by rewrite !orElse_idemp.
  - done.
  - done.
  - revert Hf. unfold NodeConfig.validateFactors. rewrite <- HP. destruct P.
    cbn -[orElse orText NodeConfig.notFraction validNumber neg]. rewrite !orElse_idemp.
    destruct GossipFactor, HopwaveFactor, HopwaveInterval, SlowHeartbeatWarning;
      cbn [deref mbind res_bind orElse]; rewrite !fail_if_seq_ok, !fail_if_ok; intros (? & ? & ? & _);
      by split_and!.
  - done.
Qed.

(** The configuration the Controller builds from an acknowledgement already contains
    the patch. *)
Section snapshot.
Context `{PeerCodecLaws} `{CIDRs} `{PubSubLib} (ParseFloat : string → option float).
Let Apply := RuntimeProfilePatch.Apply ParseFloat.

Lemma bare_fixed p ga na :
  RuntimeProfilePatch.HasAttacks p = false →
  GossipSubParamsConfig.merge
    (GossipSubParamsConfig.WithDefaults (RuntimeGossipSubParams.nodeParams ga)) (patchParams p) =
  GossipSubParamsConfig.WithDefaults (RuntimeGossipSubParams.nodeParams ga) →
  Merge na (default zeroNetwork (RuntimeProfilePatch.Network p)) = na →
  let bare := RuntimeProfilePatch.bareConfig (RuntimeGossipSubParams.nodeParams ga) na in
  patched p bare = NodeConfig.WithDefaults bare.
Proof.
  intros Hp Hg Hn bare. unfold patched.
  enough (NodeConfig.Merge (NodeConfig.WithDefaults bare) (RuntimeProfilePatch.overlay p) =
    NodeConfig.WithDefaults bare) as -> by apply node_WithDefaults_idemp.
  rewrite Merge_overlay.
  assert (NodeConfig.attacks (RuntimeProfilePatch.overlay p) = Attacks.zero) as ->.
  { unfold RuntimeProfilePatch.HasAttacks in Hp. rewrite !orb_false_iff in Hp.
    destruct Hp as [[[? ?] ?] ?]. unfold RuntimeProfilePatch.overlay. cbn [NodeConfig.attacks].
    by destruct (RuntimeProfilePatch.Forwarding p), (RuntimeProfilePatch.Sink p),
      (RuntimeProfilePatch.Censorship p), (RuntimeProfilePatch.MessageDelay p). }
  assert (NodeConfig.GossipSub (NodeConfig.WithDefaults bare) =
    bareGossip (RuntimeGossipSubParams.nodeParams ga)) as Hgossip by apply bare_gossip.
  change (NodeConfig.Network (NodeConfig.WithDefaults bare)) with na.
  rewrite Hn, mergeAttacks_zero, Hgossip.
  change (GossipSubConfig.Params (bareGossip ?P)) with (GossipSubParamsConfig.WithDefaults P).
  rewrite Hg. change (GossipSubConfig.withTopics _ _ _) with
    (bareGossip (RuntimeGossipSubParams.nodeParams ga)). rewrite <- Hgossip.
  change na with (NodeConfig.Network (NodeConfig.WithDefaults bare)) at 1.
  by destruct (NodeConfig.WithDefaults bare).
Qed.

(** *** The attack policies of a snapshot *)
Definition faithful (wanted got : option ProbabilityAttack.t) : Prop :=
  match wanted with
  | None => got = None
  | Some w => ∃ b a, got = Some a ∧ a = ProbabilityAttack.WithDefaults (ProbabilityAttack.merge b w) ∧
      ProbabilityAttack.Validate a = Ok tt ∧ ProbabilityAttack.Validate w = Ok tt
  end.

Lemma validate_attacks n c name a :
  Attacks.ValidateAttacks n c = Ok tt →
  (name, Some a) ∈ RuntimeProfilePatch.attacksOf
    (RuntimeProfilePatch.mk (ForwardingConfig.ProbabilityAttack <$> Attacks.Forwarding c)
      (Attacks.Sink c) (CensorshipConfig.ProbabilityAttack <$> Attacks.Censorship c)
      (MessageDelayConfig.ProbabilityAttack <$> Attacks.MessageDelay c) None None) →
  ProbabilityAttack.Validate a = Ok tt.
Proof.
  unfold Attacks.ValidateAttacks. rewrite seq_ok. intros [Hs _]. revert Hs.
  unfold Attacks.ValidateAttackSyntax. rewrite !seq_ok.
  intros (Hf & _ & _ & _ & _ & Hp & _). apply checkAll_ok in Hp.
  rewrite list.Forall_forall in Hp. unfold RuntimeProfilePatch.attacksOf.
  rewrite !elem_of_cons. cbn [RuntimeProfilePatch.Sink RuntimeProfilePatch.Censorship
    RuntimeProfilePatch.MessageDelay RuntimeProfilePatch.Forwarding].
  assert (∀ x, Some x ∈ Attacks.policies c → ProbabilityAttack.Validate x = Ok tt) as Hpol
    by (intros x Hx; apply (Hp _ Hx)).
  unfold Attacks.policies in Hpol. intros [E|[E|[E|[E|[]%not_elem_of_nil]]]];
    injection E as _ E.
  - apply Hpol. rewrite E. set_solver.
  - destruct (Attacks.Censorship c); [|done]. injection E as ->. apply Hpol. set_solver.
  - destruct (Attacks.MessageDelay c); [|done]. injection E as ->. apply Hpol. set_solver.
  - unfold Attacks.syntaxForwarding in Hf. destruct (Attacks.Forwarding c); [|done].
    injection E as ->. cbn in Hf. by apply wrap_ok in Hf.
Qed.

Lemma patch_attack p name w :
  RuntimeProfilePatch.Validate ParseFloat p = Ok tt →
  (name, Some w) ∈ RuntimeProfilePatch.attacksOf p → ProbabilityAttack.Validate w = Ok tt.
Proof.
  unfold RuntimeProfilePatch.Validate. rewrite seq_ok. intros [Ha _] Hin.
  apply checkAll_ok in Ha. rewrite list.Forall_forall in Ha. specialize (Ha _ Hin).
  cbn in Ha. apply seq_ok in Ha as [_ Ha]. by apply wrap_ok in Ha.
Qed.

Definition overlaid (w : ProbabilityAttack.t) (got : option ProbabilityAttack.t) : Prop :=
  ∃ b, got = Some (ProbabilityAttack.WithDefaults (ProbabilityAttack.merge b w)).

Lemma patched_probability p base :
  let au := NodeConfig.attacks (patched p base) in
  (∀ w, RuntimeProfilePatch.Sink p = Some w → overlaid w (Attacks.Sink au)) ∧
  (∀ w, RuntimeProfilePatch.Censorship p = Some w →
     overlaid w (CensorshipConfig.ProbabilityAttack <$> Attacks.Censorship au)) ∧
  (∀ w, RuntimeProfilePatch.MessageDelay p = Some w →
     overlaid w (MessageDelayConfig.ProbabilityAttack <$> Attacks.MessageDelay au)) ∧
  (∀ w, RuntimeProfilePatch.Forwarding p = Some w →
     overlaid w (ForwardingConfig.ProbabilityAttack <$> Attacks.Forwarding au)).
Proof.
  intros au. unfold au. rewrite patched_attacks.
  generalize (NodeConfig.attacks (NodeConfig.WithDefaults base)). intros ab.
  unfold Attacks.defaultAttacks. rewrite mergeAttacks_zero.
  split_and!; intros w Hw; unfold RuntimeProfilePatch.overlay, Attacks.mergeAttacks;
    cbn [Attacks.Sink Attacks.Censorship Attacks.MessageDelay Attacks.Forwarding
      NodeConfig.attacks]; rewrite Hw.
  - destruct (Attacks.Sink ab); by eexists.
  - destruct (Attacks.Censorship ab); by eexists.
  - destruct (Attacks.MessageDelay ab); by eexists.
  - destruct (Attacks.Forwarding ab); by eexists.
Qed.

Lemma ifSet_faithful wanted got :
  (∀ w, wanted = Some w → overlaid w got ∧ ProbabilityAttack.Validate w = Ok tt) →
  (∀ a, got = Some a → ProbabilityAttack.Validate a = Ok tt) →
  faithful wanted (RuntimeProfilePatch.ifSet wanted got).
Proof.
  intros Hw Ha. destruct wanted as [w|]; [|done]. cbn.
  destruct (Hw w eq_refl) as [[b Hb] Hv]. exists b. eexists. split_and!; eauto.
Qed.

Lemma Snapshot_attacks p base :
  let s := RuntimeProfilePatch.Snapshot p (patched p base) in
  let au := NodeConfig.attacks (patched p base) in
  RuntimeProfilePatch.Sink s =
    RuntimeProfilePatch.ifSet (RuntimeProfilePatch.Sink p) (Attacks.Sink au) ∧
  RuntimeProfilePatch.Censorship s =
    RuntimeProfilePatch.ifSet (RuntimeProfilePatch.Censorship p)
      (CensorshipConfig.ProbabilityAttack <$> Attacks.Censorship au) ∧
  RuntimeProfilePatch.MessageDelay s =
    RuntimeProfilePatch.ifSet (RuntimeProfilePatch.MessageDelay p)
      (MessageDelayConfig.ProbabilityAttack <$> Attacks.MessageDelay au) ∧
  RuntimeProfilePatch.Forwarding s =
    RuntimeProfilePatch.ifSet (RuntimeProfilePatch.Forwarding p)
      (ForwardingConfig.ProbabilityAttack <$> Attacks.Forwarding au).
Proof.
  cbv zeta. unfold RuntimeProfilePatch.Snapshot, RuntimeProfilePatch.RuntimeProfileSnapshot.
  by rewrite patched_defaults.
Qed.

(** Every declared policy in the map literal is valid. *)
Lemma wanted_valid p name w :
  RuntimeProfilePatch.Validate ParseFloat p = Ok tt → ∀ got,
  (name, got) ∈ RuntimeProfilePatch.attacksOf p → got = Some w →
  ProbabilityAttack.Validate w = Ok tt.
Proof. intros Hp got Hin ->. by eapply patch_attack. Qed.

Lemma got_valid n c name a :
  Attacks.ValidateAttacks n c = Ok tt → ∀ got,
  (name, got) ∈ RuntimeProfilePatch.attacksOf
    (RuntimeProfilePatch.mk (ForwardingConfig.ProbabilityAttack <$> Attacks.Forwarding c)
      (Attacks.Sink c) (CensorshipConfig.ProbabilityAttack <$> Attacks.Censorship c)
      (MessageDelayConfig.ProbabilityAttack <$> Attacks.MessageDelay c) None None) →
  got = Some a → ProbabilityAttack.Validate a = Ok tt.
Proof. intros Hc got Hin ->. by eapply validate_attacks. Qed.

Ltac in_literal := unfold RuntimeProfilePatch.attacksOf; rewrite !elem_of_cons; auto 6.

Lemma accepted_attacks c :
  NodeConfig.Validate ParseFloat c = Ok tt → NodeConfig.WithDefaults c = c →
  Attacks.ValidateAttacks (NodeConfig.attackNode c) (NodeConfig.attacks c) = Ok tt.
Proof. unfold NodeConfig.Validate. intros Hu E. rewrite E, seq_ok in Hu. by destruct Hu. Qed.

Lemma snapshot_attacks p base u :
  Apply p base = Ok u →
  let s := RuntimeProfilePatch.Snapshot p u in
  faithful (RuntimeProfilePatch.Sink p) (RuntimeProfilePatch.Sink s) ∧
  faithful (RuntimeProfilePatch.Censorship p) (RuntimeProfilePatch.Censorship s) ∧
  faithful (RuntimeProfilePatch.MessageDelay p) (RuntimeProfilePatch.MessageDelay s) ∧
  faithful (RuntimeProfilePatch.Forwarding p) (RuntimeProfilePatch.Forwarding s).
Proof.
  intros (Hp & _ & _ & _ & -> & Hu)%Apply_ok s.
  destruct (Snapshot_attacks p base) as (S1 & S2 & S3 & S4). unfold s.
  rewrite S1, S2, S3, S4. clear S1 S2 S3 S4.
  destruct (patched_probability p base) as (O1 & O2 & O3 & O4).
  apply accepted_attacks in Hu; [|apply patched_defaults].
  set (au := NodeConfig.attacks (patched p base)) in *. clearbody au.
  split_and!; apply ifSet_faithful; intros ? E.
  all: try (split; [by auto|]).
  - eapply (wanted_valid p "sink" _ Hp _); [|exact E]. in_literal.
  - eapply (got_valid _ au "sink" _ Hu); [|exact E]. in_literal.
  - eapply (wanted_valid p "censorship" _ Hp _); [|exact E]. in_literal.
  - eapply (got_valid _ au "censorship" _ Hu); [|exact E]. in_literal.
  - eapply (wanted_valid p "messageDelay" _ Hp _); [|exact E]. in_literal.
  - eapply (got_valid _ au "messageDelay" _ Hu); [|exact E]. in_literal.
  - eapply (wanted_valid p "forwarding" _ Hp _); [|exact E]. in_literal.
  - eapply (got_valid _ au "forwarding" _ Hu); [|exact E]. in_literal.
Qed.

Lemma faithful_nil wanted got : faithful wanted got → RuntimeProfilePatch.sameNil wanted got = true.
Proof. by destruct wanted; [intros (? & ? & -> & _)|intros ->]. Qed.

Lemma faithful_complete name wanted got :
  faithful wanted got →
  Attacks.whenSome got (λ attack,
    fail_if (isNil (ProbabilityAttack.Enabled attack) ||
             isNil (ProbabilityAttack.Probability attack)) ("incomplete runtime " +:+ name);;
    ProbabilityAttack.Validate attack) = Ok tt.
Proof.
  destruct wanted as [w|]; [|by intros ->]. intros (b & a & -> & Ha & Hv & _). cbn [Attacks.whenSome].
  rewrite Hv, Ha. unfold ProbabilityAttack.WithDefaults. cbn -[orElse].
  by destruct (nonnil (ProbabilityAttack.Enabled w) _), (nonnil (ProbabilityAttack.Probability w) _).
Qed.

Lemma probability_nan a v :
  ProbabilityAttack.Validate a = Ok tt → ProbabilityAttack.Probability a = Some v →
  F64.isNaN v = false.
Proof.
  unfold ProbabilityAttack.Validate. rewrite fail_if_ok. intros Hp Hv. rewrite Hv in Hp. cbn in Hp.
  by destruct (F64.isNaN v).
Qed.

Lemma faithful_pair wanted got :
  faithful wanted got → RuntimeProfilePatch.checkPair (wanted, got) = Ok tt.
Proof.
  destruct wanted as [w|]; [|by intros ->]. intros (b & a & -> & Ha & _ & Hw).
  unfold RuntimeProfilePatch.checkPair. cbn [fst snd]. rewrite Ha.
  unfold ProbabilityAttack.WithDefaults, ProbabilityAttack.merge.
  destruct (ProbabilityAttack.Enabled w) as [e|]; cbn; rewrite ?eqb_reflx; cbn;
    destruct (ProbabilityAttack.Probability w) as [v|] eqn:Hv; cbn; try done;
    by rewrite (feqb_refl v) by (by eapply probability_nan).
Qed.

Lemma patched_enabled p base :
  RuntimeProfilePatch.noGossip (patched p base) =
  RuntimeProfilePatch.noGossip (NodeConfig.WithDefaults base).
Proof. unfold RuntimeProfilePatch.noGossip. by rewrite patched_gossip. Qed.

Lemma accepted_params c :
  NodeConfig.Validate ParseFloat c = Ok tt → NodeConfig.WithDefaults c = c →
  RuntimeProfilePatch.noGossip c = false →
  NodeConfig.validateParams (GossipSubConfig.Params (NodeConfig.GossipSub c)) = Ok tt.
Proof.
  unfold NodeConfig.Validate, RuntimeProfilePatch.noGossip. intros Hu E Hg.
  apply orb_false_iff in Hg as [He Hr]. rewrite negb_false_iff in He, Hr.
  rewrite E, He, !seq_ok in Hu. destruct Hu as (_ & _ & _ & _ & _ & _ & Hgossip & _).
  unfold NodeConfig.validateGossipSub in Hgossip. rewrite Hr, !seq_ok in Hgossip.
  by destruct Hgossip as (_ & _ & _ & _ & _ & _ & _ & _ & _ & Hp & _).
Qed.

Lemma accepted_network c :
  NodeConfig.Validate ParseFloat c = Ok tt → NodeConfig.WithDefaults c = c →
  Network.Validate ParseFloat (NodeConfig.Network c) = Ok tt.
Proof.
  unfold NodeConfig.Validate. intros Hu E. rewrite E, !seq_ok in Hu.
  destruct Hu as (_ & _ & Hn & _). by apply wrap_ok in Hn.
Qed.

Lemma patched_params_valid p base u :
  Apply p base = Ok u → RuntimeProfilePatch.GossipSub p ≠ None →
  NodeConfig.validateParams (GossipSubConfig.Params (NodeConfig.GossipSub u)) = Ok tt.
Proof.
  intros (_ & _ & Hg & _ & -> & Hu)%Apply_ok Hp. apply accepted_params; [done|apply patched_defaults|].
  rewrite patched_enabled. by destruct (RuntimeProfilePatch.GossipSub p).
Qed.

Lemma patched_network_valid p base u :
  Apply p base = Ok u → Network.Validate ParseFloat (NodeConfig.Network u) = Ok tt.
Proof.
  intros (_ & _ & _ & _ & -> & Hu)%Apply_ok. apply accepted_network; [done|apply patched_defaults].
Qed.

Lemma Initial_valid n :
  Network.Validate ParseFloat n = Ok tt → Network.Validate ParseFloat (Initial n) = Ok tt.
Proof.
  intros (Hc & _)%Validate_ok. unfold Network.Validate. rewrite validate_flat by done. done.
Qed.

Lemma deepRuntime_refl P :
  NodeConfig.validateParams P = Ok tt →
  RuntimeGossipSubParams.deepEqual (RuntimeGossipSubParams.ofConfig P)
    (RuntimeGossipSubParams.ofConfig P) = true.
Proof.
  unfold NodeConfig.validateParams. rewrite !seq_ok. intros (_ & _ & _ & Hf & _).
  unfold NodeConfig.validateFactors in Hf. unfold RuntimeGossipSubParams.deepEqual, deepFloat. cbn.
  rewrite !(deepPtr_refl Z.eqb) by (intros; apply Z.eqb_refl). cbn.
  apply bind_ok in Hf as (f & Hd & Hf). rewrite fail_if_seq_ok in Hf. destruct Hf as [N1 Hf].
  apply bind_ok in Hf as (h & Hd' & Hf). rewrite fail_if_seq_ok in Hf. destruct Hf as [N2 _].
  assert (∀ v, NodeConfig.notFraction v = false → F64.eqb v v = true) as Hrefl.
  { intros v. unfold NodeConfig.notFraction, validNumber. intros Hv. apply feqb_refl.
    by destruct (F64.isNaN v). }
  rewrite !deepPtr_refl; try done; intros v Hv; rewrite Hv in *; naive_solver.
Qed.

Lemma Snapshot_gossip p base :
  RuntimeProfilePatch.GossipSub (RuntimeProfilePatch.Snapshot p (patched p base)) =
  RuntimeProfilePatch.ifSet (RuntimeProfilePatch.GossipSub p)
    (Some (RuntimeGossipSubParams.ofConfig
             (GossipSubConfig.Params (NodeConfig.GossipSub (patched p base))))).
Proof.
  unfold RuntimeProfilePatch.Snapshot, RuntimeProfilePatch.RuntimeProfileSnapshot.
  by rewrite patched_defaults.
Qed.
Lemma Snapshot_network p base :
  RuntimeProfilePatch.Network (RuntimeProfilePatch.Snapshot p (patched p base)) =
  RuntimeProfilePatch.ifSet (RuntimeProfilePatch.Network p)
    (Some (Initial (NodeConfig.Network (patched p base)))).
Proof.
  unfold RuntimeProfilePatch.Snapshot, RuntimeProfilePatch.RuntimeProfileSnapshot.
  by rewrite patched_defaults.
Qed.

Lemma patched_params_default p base :
  let P := GossipSubConfig.Params (NodeConfig.GossipSub (patched p base)) in
  GossipSubParamsConfig.WithDefaults P = P.
Proof. cbv zeta. rewrite patched_gossip. apply params_patched. Qed.

Lemma orElse_present {A} (p : option A) v : isNil (orElse p v) = false.
Proof. by destruct p. Qed.

Lemma params_complete P :
  GossipSubParamsConfig.WithDefaults P = P →
  RuntimeGossipSubParams.incomplete (RuntimeGossipSubParams.ofConfig P) = false.
Proof.
  intros HP. rewrite <- HP. destruct P. unfold RuntimeGossipSubParams.incomplete.
  cbn -[orElse isNil]. by rewrite !orElse_present.
Qed.

Lemma snapshot_valid p base u :
  Apply p base = Ok u → (RuntimeProfilePatch.Network p ≠ None → concrete (NodeConfig.Network u)) →
  RuntimeProfilePatch.ValidateRuntimeProfileSnapshot ParseFloat
    (RuntimeProfilePatch.Snapshot p u) = Ok tt.
Proof.
  intros Hu Hc. pose proof (snapshot_attacks p base u Hu) as (F1 & F2 & F3 & F4).
  pose proof (patched_params_valid p base u Hu) as HP. pose proof (patched_network_valid p base u Hu) as Hn.
  apply Apply_ok in Hu as (Hp & _ & _ & _ & -> & _).
  unfold RuntimeProfilePatch.ValidateRuntimeProfileSnapshot. rewrite !seq_ok. split_and!.
  - unfold RuntimeProfilePatch.attacksOf. cbn [checkAll]. rewrite !seq_ok. split_and!; try done;
      by eapply faithful_complete.
  - unfold RuntimeProfilePatch.Validate in Hp. rewrite !seq_ok in Hp.
    destruct Hp as (_ & Hset & _). rewrite fail_if_ok in Hset |- *. rewrite <- Hset.
    unfold RuntimeProfilePatch.HasAttacks. rewrite Snapshot_gossip, Snapshot_network.
    apply faithful_nil, eqb_prop in F1, F2, F3, F4. rewrite <- F1, <- F2, <- F3, <- F4.
    by destruct (RuntimeProfilePatch.GossipSub p), (RuntimeProfilePatch.Network p).
  - rewrite Snapshot_gossip. destruct (RuntimeProfilePatch.GossipSub p) eqn:Hg; [|done].
    cbn [RuntimeProfilePatch.ifSet isNil Attacks.present negb Attacks.whenSome].
    specialize (HP ltac:(done)). pose proof (patched_params_default p base) as Hd. cbv zeta in Hd.
    rewrite fail_if_seq_ok. split; [by apply params_complete|].
    apply bare_valid; [by apply params_snapshot|done].
  - rewrite Snapshot_network. destruct (RuntimeProfilePatch.Network p) eqn:Hnet; [|done].
    cbn [RuntimeProfilePatch.ifSet isNil Attacks.present negb Attacks.whenSome].
    rewrite fail_if_seq_ok. split; [|by apply Initial_valid].
    unfold Initial, with_schedule. cbn. rewrite (Hc ltac:(done)). done.
Qed.

(** *** The Controller's replay of the patch on the acknowledged values *)
Lemma snapshot_again P :
  GossipSubParamsConfig.WithDefaults P = P →
  RuntimeGossipSubParams.ofConfig (GossipSubParamsConfig.WithDefaults
    (RuntimeGossipSubParams.nodeParams (RuntimeGossipSubParams.ofConfig P))) =
  RuntimeGossipSubParams.ofConfig P.
Proof.
  intros HP. rewrite <- HP. destruct P. unfold RuntimeGossipSubParams.ofConfig.
  cbn -[orElse orText]. by rewrite !orElse_idemp.
Qed.

Lemma nonnil_orElse {A} (g p : option A) v : nonnil g p = p → nonnil g (orElse p v) = orElse p v.
Proof. by destruct g, p. Qed.

(** The parameters already have what the patch sets. *)
Definition absorbed (g : RuntimeGossipSubParams.t) (P : GossipSubParamsConfig.t) : Prop :=
  nonnil (RuntimeGossipSubParams.D g) (GossipSubParamsConfig.D P) = GossipSubParamsConfig.D P ∧
  nonnil (RuntimeGossipSubParams.DLow g) (GossipSubParamsConfig.DLow P) =
    GossipSubParamsConfig.DLow P ∧
  nonnil (RuntimeGossipSubParams.DHigh g) (GossipSubParamsConfig.DHigh P) =
    GossipSubParamsConfig.DHigh P ∧
  nonnil (RuntimeGossipSubParams.DScore g) (GossipSubParamsConfig.DScore P) =
    GossipSubParamsConfig.DScore P ∧
  nonnil (RuntimeGossipSubParams.DOut g) (GossipSubParamsConfig.DOut P) =
    GossipSubParamsConfig.DOut P ∧
  nonnil (RuntimeGossipSubParams.DLazy g) (GossipSubParamsConfig.DLazy P) =
    GossipSubParamsConfig.DLazy P ∧
  nonnil (RuntimeGossipSubParams.GossipFactor g) (GossipSubParamsConfig.GossipFactor P) =
    GossipSubParamsConfig.GossipFactor P ∧
  nonnil (RuntimeGossipSubParams.HopwaveFactor g) (GossipSubParamsConfig.HopwaveFactor P) =
    GossipSubParamsConfig.HopwaveFactor P ∧
  nonnil (RuntimeGossipSubParams.HopwaveInterval g) (GossipSubParamsConfig.HopwaveInterval P) =
    GossipSubParamsConfig.HopwaveInterval P.

Lemma merge_absorbed g q :
  absorbed g (GossipSubParamsConfig.merge q (RuntimeGossipSubParams.nodeParams g)).
Proof. unfold absorbed. cbn. by rewrite !nonnil_left. Qed.

Lemma absorbed_merge g P :
  absorbed g P →
  let d := GossipSubParamsConfig.WithDefaults
             (RuntimeGossipSubParams.nodeParams (RuntimeGossipSubParams.ofConfig P)) in
  GossipSubParamsConfig.merge d (RuntimeGossipSubParams.nodeParams g) = d.
Proof.
  intros (A1 & A2 & A3 & A4 & A5 & A6 & A7 & A8 & A9) d. unfold d.
  unfold GossipSubParamsConfig.merge, RuntimeGossipSubParams.nodeParams,
    GossipSubParamsConfig.WithDefaults, RuntimeGossipSubParams.ofConfig. cbn -[orElse orText nonnil nonzero].
  rewrite !nonzero_nil. f_equal; by apply nonnil_orElse.
Qed.

Lemma params_absorb q p g :
  RuntimeProfilePatch.GossipSub p = Some g →
  let P := GossipSubParamsConfig.merge (GossipSubParamsConfig.WithDefaults q) (patchParams p) in
  let d := GossipSubParamsConfig.WithDefaults
             (RuntimeGossipSubParams.nodeParams (RuntimeGossipSubParams.ofConfig P)) in
  GossipSubParamsConfig.merge d (patchParams p) = d.
Proof.
  intros Hg. unfold patchParams. rewrite Hg. apply absorbed_merge, merge_absorbed.
Qed.

Lemma Snapshot_ordinary p bare :
  RuntimeProfilePatch.GossipSub (RuntimeProfilePatch.Snapshot (RuntimeProfilePatch.ordinary p) bare) =
  RuntimeProfilePatch.GossipSub (RuntimeProfilePatch.Snapshot p bare) ∧
  RuntimeProfilePatch.Network (RuntimeProfilePatch.Snapshot (RuntimeProfilePatch.ordinary p) bare) =
  RuntimeProfilePatch.Network (RuntimeProfilePatch.Snapshot p bare).
Proof. done. Qed.

Lemma ordinary_valid p :
  RuntimeProfilePatch.Validate ParseFloat p = Ok tt →
  isNil (RuntimeProfilePatch.GossipSub p) && isNil (RuntimeProfilePatch.Network p) = false →
  RuntimeProfilePatch.Validate ParseFloat (RuntimeProfilePatch.ordinary p) = Ok tt.
Proof.
  unfold RuntimeProfilePatch.Validate. rewrite !seq_ok. intros (_ & _ & Hg & Hn) Hset.
  split_and!; try done. rewrite fail_if_ok. cbn -[isNil]. by rewrite Hset.
Qed.

Lemma patch_network p n :
  RuntimeProfilePatch.Validate ParseFloat p = Ok tt → RuntimeProfilePatch.Network p = Some n →
  Schedule n = None ∧ DelayDistribution n = None.
Proof.
  unfold RuntimeProfilePatch.Validate. rewrite !seq_ok. intros (_ & _ & _ & Hn) Hp.
  rewrite Hp in Hn. cbn in Hn. unfold RuntimeProfilePatch.validateNetwork in Hn.
  rewrite !fail_if_seq_ok in Hn. destruct Hn as (_ & Hs & _).
  apply orb_false_iff in Hs as [Hs Hd]. by destruct (Schedule n), (DelayDistribution n).
Qed.

(** The two optional parts of the acknowledgement. *)
Definition ackParams (s : RuntimeProfilePatch.t) : RuntimeGossipSubParams.t :=
  default (RuntimeGossipSubParams.mk None None None None None None None None None)
    (RuntimeProfilePatch.GossipSub s).
Definition ackConfig (s : RuntimeProfilePatch.t) : NodeConfig.t :=
  RuntimeProfilePatch.bareConfig (RuntimeGossipSubParams.nodeParams (ackParams s))
    (default zeroNetwork (RuntimeProfilePatch.Network s)).

Lemma replay_params p base u :
  Apply p base = Ok u →
  let ga := ackParams (RuntimeProfilePatch.Snapshot p u) in
  let d := GossipSubParamsConfig.WithDefaults (RuntimeGossipSubParams.nodeParams ga) in
  GossipSubParamsConfig.merge d (patchParams p) = d ∧
  NodeConfig.validateParams d = Ok tt ∧
  (RuntimeProfilePatch.GossipSub p ≠ None → RuntimeGossipSubParams.ofConfig d = ga ∧
     RuntimeGossipSubParams.deepEqual ga ga = true).
Proof.
  intros Hu. pose proof (patched_params_valid p base u Hu) as HP.
  apply Apply_ok in Hu as (_ & _ & _ & _ & -> & _).
  unfold ackParams. rewrite Snapshot_gossip.
  destruct (RuntimeProfilePatch.GossipSub p) as [g|] eqn:Hg; cbn [RuntimeProfilePatch.ifSet isNil
    Attacks.present negb default].
  - specialize (HP ltac:(done)). pose proof (patched_params_default p base) as Hd. cbv zeta in Hd.
    split_and!.
    + rewrite patched_gossip. apply (params_absorb _ _ _ Hg).
    + by apply params_snapshot.
    + intros _. split; [by apply snapshot_again|by apply deepRuntime_refl].
  - unfold patchParams. rewrite Hg. split_and!; [apply params_merge_zero|done|done].
Qed.

Lemma replay_network p base u :
  Apply p base = Ok u → (RuntimeProfilePatch.Network p ≠ None → concrete (NodeConfig.Network u)) →
  let na := default zeroNetwork (RuntimeProfilePatch.Network (RuntimeProfilePatch.Snapshot p u)) in
  Merge na (default zeroNetwork (RuntimeProfilePatch.Network p)) = na ∧
  Network.Validate ParseFloat na = Ok tt ∧ Schedule na = None ∧ deepNetwork na na = true.
Proof.
  intros Hu Hc. pose proof (patched_network_valid p base u Hu) as Hn.
  apply Apply_ok in Hu as (Hp & _ & _ & _ & -> & _). rewrite Snapshot_network.
  destruct (RuntimeProfilePatch.Network p) as [n|] eqn:Hnet; [|done].
  cbn [RuntimeProfilePatch.ifSet isNil Attacks.present negb default id].
  specialize (Hc ltac:(done)). split_and!; [| |done|].
  - rewrite patched_network, Hnet. cbn [default id].
    rewrite Merge_Initial by apply (proj1 (patch_network p n Hp Hnet)). by rewrite Merge_again.
  - by apply Initial_valid.
  - apply deepNetwork_refl; [|done|done]. apply Validate_ok in Hn as (Hn & _).
    by eapply (checkSettings_within ParseFloat).
Qed.

Lemma ack_replayed p base u :
  Apply p base = Ok u → (RuntimeProfilePatch.Network p ≠ None → concrete (NodeConfig.Network u)) →
  isNil (RuntimeProfilePatch.GossipSub p) && isNil (RuntimeProfilePatch.Network p) = false →
  let bare := ackConfig (RuntimeProfilePatch.Snapshot p u) in
  Apply (RuntimeProfilePatch.ordinary p) bare = Ok (NodeConfig.WithDefaults bare).
Proof.
  intros Hu Hc Hset bare. destruct (replay_params p base u Hu) as (Hg & Hv & _).
  destruct (replay_network p base u Hu Hc) as (Hm & Hn & Hs & _).
  assert (patched (RuntimeProfilePatch.ordinary p) bare = NodeConfig.WithDefaults bare) as Hfix
    by (by apply bare_fixed).
  apply Apply_ok in Hu as (Hp & _). apply Apply_ok. split_and!.
  - by apply ordinary_valid.
  - done.
  - unfold RuntimeProfilePatch.noGossip, bare, ackConfig. rewrite bare_gossip. cbn. apply andb_false_r.
  - unfold Scheduled, bare, ackConfig. cbn [NodeConfig.Network RuntimeProfilePatch.bareConfig].
    rewrite Hs. apply andb_false_r.
  - done.
  - unfold NodeConfig.Validate. rewrite node_WithDefaults_idemp. fold (NodeConfig.Validate ParseFloat bare).
    by apply bare_valid.
Qed.
Lemma Initial_plain n : Schedule n = None → Initial n = n.
Proof. intros Hs. unfold Initial, with_schedule. rewrite <- Hs. by destruct n. Qed.

Lemma Snapshot_shape p c :
  let s := RuntimeProfilePatch.Snapshot p c in
  RuntimeProfilePatch.GossipSub s =
    RuntimeProfilePatch.ifSet (RuntimeProfilePatch.GossipSub p) (Some (ackParams s)) ∧
  RuntimeProfilePatch.Network s =
    RuntimeProfilePatch.ifSet (RuntimeProfilePatch.Network p)
      (Some (default zeroNetwork (RuntimeProfilePatch.Network s))).
Proof.
  unfold ackParams, RuntimeProfilePatch.Snapshot. cbn [RuntimeProfilePatch.GossipSub RuntimeProfilePatch.Network].
  by destruct (RuntimeProfilePatch.GossipSub p), (RuntimeProfilePatch.Network p).
Qed.

Lemma Snapshot_ack p s :
  let e := RuntimeProfilePatch.Snapshot p (NodeConfig.WithDefaults (ackConfig s)) in
  RuntimeProfilePatch.GossipSub e =
    RuntimeProfilePatch.ifSet (RuntimeProfilePatch.GossipSub p)
      (Some (RuntimeGossipSubParams.ofConfig (GossipSubParamsConfig.WithDefaults
        (RuntimeGossipSubParams.nodeParams (ackParams s))))) ∧
  RuntimeProfilePatch.Network e =
    RuntimeProfilePatch.ifSet (RuntimeProfilePatch.Network p)
      (Some (Initial (default zeroNetwork (RuntimeProfilePatch.Network s)))).
Proof.
  cbv zeta. unfold RuntimeProfilePatch.Snapshot, RuntimeProfilePatch.RuntimeProfileSnapshot.
  rewrite node_WithDefaults_idemp. unfold ackConfig. rewrite bare_gossip. done.
Qed.
End snapshot.

(** ** Acknowledgements *)
Section acknowledgement.
Context `{PeerCodecLaws} `{CIDRs} `{PubSubLib} (ParseFloat : string → option float).

(** C19: the Controller accepts every honest acknowledgement.  A Peer that applied
    the patch to its current configuration and answers with the snapshot of the
    result passes [ValidateProfileAcknowledgement]: all its fields, sampled
    settings resolved, are complete and valid, contain the requested attack
    values, and applying the patch to them again changes nothing.  A Peer whose
    network was resolved when it was created never raises a false alarm. *)
Theorem honest_acknowledgement set current updated :
  RuntimeProfilePatch.Apply ParseFloat set current = Ok updated →
  (RuntimeProfilePatch.Network set ≠ None → concrete (NodeConfig.Network updated)) →
  RuntimeProfilePatch.ValidateProfileAcknowledgement ParseFloat set
    (RuntimeProfilePatch.Snapshot set updated) = Ok tt.
Proof.
  intros Hu Hc. pose proof (snapshot_attacks ParseFloat _ _ _ Hu) as (F1 & F2 & F3 & F4).
  pose proof (replay_params ParseFloat _ _ _ Hu) as (_ & _ & Hg).
  pose proof (replay_network ParseFloat _ _ _ Hu Hc) as (_ & _ & Hplain & Hdeep).
  pose proof (ack_replayed ParseFloat _ _ _ Hu Hc) as Hreplay.
  pose proof (snapshot_valid ParseFloat _ _ _ Hu Hc) as Hvalid.
  set (s := RuntimeProfilePatch.Snapshot set updated) in *.
  unfold RuntimeProfilePatch.ValidateProfileAcknowledgement. rewrite !seq_ok. split_and!; [|done| |].
  - rewrite (faithful_nil _ _ F1), (faithful_nil _ _ F2), (faithful_nil _ _ F3), (faithful_nil _ _ F4).
    rewrite fail_if_ok. unfold s. unfold RuntimeProfilePatch.sameNil. cbn.
    by destruct (RuntimeProfilePatch.GossipSub set), (RuntimeProfilePatch.Network set).
  - cbn [checkAll]. rewrite !seq_ok. split_and!; try done; by apply faithful_pair.
  - destruct (isNil _ && isNil _) eqn:Hset; [done|]. specialize (Hreplay eq_refl).
    replace (from_option _ _ _) with (RuntimeGossipSubParams.nodeParams (ackParams s))
      by (unfold ackParams; by destruct (RuntimeProfilePatch.GossipSub s)).
    fold (ackConfig s). rewrite Hreplay. cbn [mbind res_bind]. rewrite fail_if_ok.
    apply orb_false_iff; split; apply negb_false_iff.
    + destruct (Snapshot_ordinary set (NodeConfig.WithDefaults (ackConfig s))) as [-> _].
      destruct (Snapshot_ack set s) as [-> _], (Snapshot_shape set updated) as [Hs _]. fold s in Hs.
      rewrite Hs. destruct (RuntimeProfilePatch.GossipSub set); [|done].
      destruct (Hg ltac:(done)) as [-> Hrefl]. apply Hrefl.
    + destruct (Snapshot_ordinary set (NodeConfig.WithDefaults (ackConfig s))) as [_ ->].
      destruct (Snapshot_ack set s) as [_ ->], (Snapshot_shape set updated) as [_ Hs]. fold s in Hs.
      rewrite Hs. destruct (RuntimeProfilePatch.Network set); [|done]. cbn [deepPtr
        RuntimeProfilePatch.ifSet isNil Attacks.present negb]. by rewrite Initial_plain.
Qed.

(** *** What an accepted acknowledgement contains *)
Definition holds {A} (eq : A → A → bool) (wanted got : option A) : Prop :=
  ∀ w, wanted = Some w → ∃ g, got = Some g ∧ eq w g = true.
Definition holdsText (wanted got : string) : Prop := wanted ≠ ""%string → got = wanted.

Definition holdsAttack : option ProbabilityAttack.t → option ProbabilityAttack.t → Prop :=
  λ wanted got, ∀ w, wanted = Some w → ∃ g, got = Some g ∧
    holds eqb (ProbabilityAttack.Enabled w) (ProbabilityAttack.Enabled g) ∧
    holds F64.eqb (ProbabilityAttack.Probability w) (ProbabilityAttack.Probability g).

Record holdsParams (w g : RuntimeGossipSubParams.t) : Prop := {
  h_D : holds Z.eqb (RuntimeGossipSubParams.D w) (RuntimeGossipSubParams.D g);
  h_DLow : holds Z.eqb (RuntimeGossipSubParams.DLow w) (RuntimeGossipSubParams.DLow g);
  h_DHigh : holds Z.eqb (RuntimeGossipSubParams.DHigh w) (RuntimeGossipSubParams.DHigh g);
  h_DScore : holds Z.eqb (RuntimeGossipSubParams.DScore w) (RuntimeGossipSubParams.DScore g);
  h_DOut : holds Z.eqb (RuntimeGossipSubParams.DOut w) (RuntimeGossipSubParams.DOut g);
  h_DLazy : holds Z.eqb (RuntimeGossipSubParams.DLazy w) (RuntimeGossipSubParams.DLazy g);
  h_GossipFactor : holds F64.eqb (RuntimeGossipSubParams.GossipFactor w)
    (RuntimeGossipSubParams.GossipFactor g);
  h_HopwaveFactor : holds F64.eqb (RuntimeGossipSubParams.HopwaveFactor w)
    (RuntimeGossipSubParams.HopwaveFactor g);
  h_HopwaveInterval : holds Z.eqb (RuntimeGossipSubParams.HopwaveInterval w)
    (RuntimeGossipSubParams.HopwaveInterval g) }.

Record holdsNetwork (w g : NetworkConfig) : Prop := {
  h_Scope : holdsText (Scope w) (Scope g); h_Delay : holdsText (Delay w) (Delay g);
  h_Jitter : holdsText (Jitter w) (Jitter g);
  h_JitterDistribution : holdsText (JitterDistribution w) (JitterDistribution g);
  h_Loss : holds F64.eqb (LossPercent w) (LossPercent g);
  h_Duplicate : holds F64.eqb (DuplicatePercent w) (DuplicatePercent g);
  h_Corrupt : holds F64.eqb (CorruptPercent w) (CorruptPercent g);
  h_Reorder : holds F64.eqb (ReorderPercent w) (ReorderPercent g);
  h_ReorderCorrelation : holds F64.eqb (ReorderCorrelationPercent w) (ReorderCorrelationPercent g);
  h_Rate : holds F64.eqb (RateMbps w) (RateMbps g);
  h_TBF : holds deepTBF (TBF w) (TBF g);
  h_Queue : holds Z.eqb (QueueLimit w) (QueueLimit g) }.

Lemma holds_deep {A} (eq : A → A → bool) w e g :
  nonnil w e = e → deepPtr eq e g = true → holds eq w g.
Proof. intros Hw Hd v ->. cbn in Hw. subst e. destruct g; [|done]. by eexists. Qed.

Lemma holdsText_deep w e g :
  nonzero w e = e → bool_decide (e = g) = true → holdsText w g.
Proof.
  intros Hw Hd%bool_decide_eq_true_1 Hne. subst g. unfold nonzero in Hw.
  by rewrite bool_decide_eq_false_2 in Hw by done.
Qed.

Lemma holds_params w P g :
  absorbed w P →
  RuntimeGossipSubParams.deepEqual (RuntimeGossipSubParams.ofConfig P) g = true → holdsParams w g.
Proof.
  intros (A1 & A2 & A3 & A4 & A5 & A6 & A7 & A8 & A9).
  unfold RuntimeGossipSubParams.deepEqual. rewrite !andb_true_iff.
  intros [[[[[[[[D1 D2] D3] D4] D5] D6] D7] D8] D9]. constructor; by eapply holds_deep.
Qed.

Lemma Merge_holds c o g :
  DelayDistribution o = None → deepNetwork (Merge c o) g = true → holdsNetwork o g.
Proof.
  intros Ho Hd. destruct (Merge_rest c o) as (_&E2&E3&E4&E5&E6&E7&E8&E9&E10).
  destruct (Merge_delay c o) as (E11&_), (Merge_shaper c o) as (E13&E14). rewrite Ho in E11.
  destruct (Merge c o) as [es esc edl edd ej ejd el edu eco er erc era etb eq] eqn:Hm.
  destruct g. cbn in Hd, E2, E3, E4, E5, E6, E7, E8, E9, E10, E11, E13, E14.
  rewrite !andb_true_iff in Hd.
  destruct Hd as [[[[[[[[[[[[[_ D2] D3] D4] D5] D6] D7] D8] D9] D10] D11] D12] D13] D14].
  constructor; cbn.
  all: try (eapply holdsText_deep; [|done]; subst; apply nonzero_left).
  all: eapply holds_deep; [|done]; subst; try apply nonnil_left.
Qed.

Lemma checkPair_holds wanted got :
  RuntimeProfilePatch.checkPair (wanted, got) = Ok tt → RuntimeProfilePatch.sameNil wanted got = true →
  holdsAttack wanted got.
Proof.
  unfold RuntimeProfilePatch.checkPair. cbn [fst snd]. intros Hc Hn w ->.
  destruct got as [g|]; [|done]. exists g. split; [done|].
  destruct w as [[we|] [wp|]], g as [[ge|] [gp|]]; cbn in Hc; try done;
    unfold holds; cbn.
  all: try (destruct (eqb we ge) eqn:He; cbn in Hc; try done).
  all: try (destruct (F64.eqb wp gp) eqn:Hp; cbn in Hc; try done).
  all: naive_solver.
Qed.

(** An accepted acknowledgement contains what was requested.  It acknowledges
    exactly the sections of the patch, it is complete and valid on its own, and
    every value the patch sets is in it: the attack options, the router's
    parameters and the settings of the network ([==] on floats). *)
Theorem accepted_acknowledgement set actual :
  RuntimeProfilePatch.ValidateProfileAcknowledgement ParseFloat set actual = Ok tt →
  holdsAttack (RuntimeProfilePatch.Forwarding set) (RuntimeProfilePatch.Forwarding actual) ∧
  holdsAttack (RuntimeProfilePatch.Sink set) (RuntimeProfilePatch.Sink actual) ∧
  holdsAttack (RuntimeProfilePatch.Censorship set) (RuntimeProfilePatch.Censorship actual) ∧
  holdsAttack (RuntimeProfilePatch.MessageDelay set) (RuntimeProfilePatch.MessageDelay actual) ∧
  (∀ w, RuntimeProfilePatch.GossipSub set = Some w →
     ∃ g, RuntimeProfilePatch.GossipSub actual = Some g ∧ holdsParams w g) ∧
  (∀ w, RuntimeProfilePatch.Network set = Some w →
     ∃ g, RuntimeProfilePatch.Network actual = Some g ∧ holdsNetwork w g) ∧
  RuntimeProfilePatch.ValidateRuntimeProfileSnapshot ParseFloat actual = Ok tt.
Proof.
  unfold RuntimeProfilePatch.ValidateProfileAcknowledgement. rewrite !seq_ok, fail_if_ok.
  intros (Hnil & Hsnap & Hpairs & Hrest). rewrite !orb_false_iff, !negb_false_iff in Hnil.
  destruct Hnil as [[[[[N1 N2] N3] N4] N5] N6]. cbn [checkAll] in Hpairs. rewrite !seq_ok in Hpairs.
  destruct Hpairs as (P1 & P2 & P3 & P4 & _).
  assert (isNil (RuntimeProfilePatch.GossipSub set) && isNil (RuntimeProfilePatch.Network set) = true ∨
    ∃ base u, u = patched (RuntimeProfilePatch.ordinary set) base ∧
      RuntimeProfilePatch.Validate ParseFloat (RuntimeProfilePatch.ordinary set) = Ok tt ∧
      deepPtr RuntimeGossipSubParams.deepEqual
        (RuntimeProfilePatch.GossipSub (RuntimeProfilePatch.Snapshot (RuntimeProfilePatch.ordinary set) u))
        (RuntimeProfilePatch.GossipSub actual) = true ∧
      deepPtr deepNetwork
        (RuntimeProfilePatch.Network (RuntimeProfilePatch.Snapshot (RuntimeProfilePatch.ordinary set) u))
        (RuntimeProfilePatch.Network actual) = true) as Hreplay.
  { destruct (isNil _ && isNil _); [by left|]. right. apply bind_ok in Hrest as (u & Hu & Hrest).
    apply Apply_ok in Hu as (Hv & _ & _ & _ & Hu & _).
    rewrite fail_if_ok, orb_false_iff, !negb_false_iff in Hrest. eexists _, u. by destruct Hrest. }
  clear Hrest. split_and!; try (by eapply checkPair_holds); [| |done].
  - intros w Hw. destruct Hreplay as [Hset|(base & u & -> & _ & Hd & _)]; [by rewrite Hw in Hset|].
    rewrite Snapshot_gossip in Hd. cbn [RuntimeProfilePatch.GossipSub RuntimeProfilePatch.ordinary] in Hd.
    rewrite Hw, patched_gossip in Hd. unfold patchParams in Hd.
    cbn [RuntimeProfilePatch.GossipSub RuntimeProfilePatch.ordinary] in Hd. rewrite Hw in Hd.
    destruct (RuntimeProfilePatch.GossipSub actual) as [g|]; [|done]. exists g. split; [done|].
    eapply holds_params; [|exact Hd]. apply merge_absorbed.
  - intros w Hw. destruct Hreplay as [Hset|(base & u & -> & Hv & _ & Hd)];
      [by rewrite Hw, andb_comm in Hset|].
    destruct (patch_network ParseFloat _ w Hv Hw) as [Hs Ho].
    rewrite Snapshot_network, patched_network in Hd.
    cbn [RuntimeProfilePatch.Network RuntimeProfilePatch.ordinary] in Hd. rewrite Hw in Hd.
    destruct (RuntimeProfilePatch.Network actual) as [g|]; [|done]. exists g. split; [done|].
    eapply Merge_holds; [done|]. rewrite Merge_Initial by done. exact Hd.
Qed.
End acknowledgement.

Module ProfileExamples.
#[local] Instance codec : PeerCodec :=
  {| peerDecode s := if bool_decide (s = ""%string) then None else Some s; peerString s := s |}.
#[local] Instance codecLaws : PeerCodecLaws.
Proof.
  constructor. intros id s. cbn. case_bool_decide as Hs; [done|]. intros [= <-].
  by rewrite bool_decide_eq_false_2.
Qed.
#[local] Instance cidrs : CIDRs := {| IPNet := string; ParseCIDR s := Some s |}.
#[local] Instance pubsubLib : PubSubLib :=
  {| Regexp := string; regexpCompile s := Some s; MatchString r s := bool_decide (r = s);
     base64Decode s := Some s; Multiaddr := string; NewMultiaddr s := Some s;
     AddrInfoFromP2pAddr s := Some (s, 1%nat); PrivKey := string;
     UnmarshalPrivateKey s := Some s; IDFromPrivateKey s := Some s |}.
Definition parse (_ : string) : option float := None.

(** A worker with a delayed, rate-limited link; the patch starts a sink attack,
    lowers the degree and replaces the rate by a token bucket. *)
Definition worker : NodeConfig.t :=
  NodeConfig.mk Attacks.zero "worker" None 8 0 0 0 0 "" 0 Libp2pConfig.zero KademliaConfig.zero
    GossipSubConfig.zero
    (mkNetwork None "p2p" "20ms" None "2ms" "" None None None None None (Some (F64.of_Z 10)) None None).
Definition patch : RuntimeProfilePatch.t :=
  RuntimeProfilePatch.mk None (Some (ProbabilityAttack.mk (Some true) None)) None None
    (Some (RuntimeGossipSubParams.mk (Some 7) None None None None None (Some F64.zero) None None))
    (Some (mkNetwork None "" "40ms" None "" "" (Some F64.one) None None None None None
             (Some (mkTBF (F64.of_Z 5) (F64.of_Z 32) "50ms")) None)).

Lemma patch_applies : RuntimeProfilePatch.Apply parse patch worker = Ok (patched patch worker).
Proof. vm_compute. reflexivity. Qed.

Lemma honest_acknowledgement_witness :
  RuntimeProfilePatch.ValidateProfileAcknowledgement parse patch
    (RuntimeProfilePatch.Snapshot patch (patched patch worker)) = Ok tt.
Proof. exact (honest_acknowledgement parse patch worker _ patch_applies (λ _, eq_refl)). Defined.

(** The same values from a Peer whose rate was never declared. *)
Definition answer : RuntimeProfilePatch.t :=
  RuntimeProfilePatch.mk None (Some (ProbabilityAttack.mk (Some true) (Some F64.one))) None None
    (Some (RuntimeGossipSubParams.mk (Some 7) (Some 5) (Some 12) (Some 4) (Some 2) (Some 6)
             (Some F64.zero) (Some F64.one) (Some 1)))
    (Some (mkNetwork None "" "40ms" None "" "" (Some F64.one) None None None None None
             (Some (mkTBF (F64.of_Z 5) (F64.of_Z 32) "50ms")) None)).
Lemma answer_accepted :
  RuntimeProfilePatch.ValidateProfileAcknowledgement parse patch answer = Ok tt.
Proof. vm_compute. reflexivity. Qed.

Lemma accepted_acknowledgement_witness :
  holdsAttack (RuntimeProfilePatch.Sink patch) (RuntimeProfilePatch.Sink answer) ∧
  (∀ w, RuntimeProfilePatch.Network patch = Some w →
     ∃ g, RuntimeProfilePatch.Network answer = Some g ∧ holdsNetwork w g).
Proof.
  pose proof (accepted_acknowledgement parse patch answer answer_accepted) as (_ & Hsink & _ & _ & _ & Hnet & _).
  exact (conj Hsink Hnet).
Defined.
End ProfileExamples.
