(* ===== verification/PeerProfile.v ===== *)
(** * Profile updates on a Peer

    [internal/peer/profile_update.go] and the parts of [internal/peer/attacks.go]
    it calls ([fetchTargets], [validateAttackPublisherTargets], [update]), with
    [SetGossipSubRuntimeParams] of [third_party/go-libp2p-pubsub]: the two-stage
    protocol by which a Peer changes its effective configuration.

    Calls are serialised by [profileUpdates.gate], so a call is one transition of
    [State].  [Env] holds what a call meets outside: the gate and context, the
    attack registry's answer, [netem.Update] and the router's event loop.  The
    attack counters and the telemetry events are not part of the state.  The second
    writer of [networkApplied], the goroutine of a Peer whose network is scheduled
    ([recordNetworkApplied]), runs beside the updates: [runs] interleaves it. *)
From Stdlib Require Import ZArith Lia.
From stdpp Require Import strings list gmap.
From S2P Require Import Prelude.
From S2P Require Import GoStd.
From S2P Require Import GoStrings.
From S2P Require Import Distribution.
From S2P Require Import Network.
From S2P Require Import PeerNetwork.
From S2P Require Import Attacks.
From S2P Require Import PeerScore.
From S2P Require Import GossipSubConfig.
From S2P Require Import PeerGossipSub.
From S2P Require Import KademliaConfig.
From S2P Require Import NodeConfig.
From S2P Require Import ProfileSchedule.
Open Scope Z_scope.

(** ** The attack registry *)
Module AttackTarget.
Record t := mk {
  NodeID : string; Group : string; PeerID : string; AuthorPeerID : string;
  Addresses : list string; Ready : bool }.
End AttackTarget.

(** The loop of [validateAttackPublisherTargets]; the values of [byAuthor] are bit
    sets of [1] (not selected) and [2] (selected). *)
Fixpoint publisherLoop (publishers : option AttackSelector.t) (byAuthor : gmap string Z)
    (l : list AttackTarget.t) : res unit :=
  match l with
  | [] => Ok tt
  | target :: l =>
      let matches := AttackSelector.Matches publishers (AttackTarget.Group target)
                       (AttackTarget.NodeID target) in
      let author := AttackTarget.AuthorPeerID target in
      if empty author then
        fail_if (matches ""%string) "publisher selector: anonymous node";;
        publisherLoop publishers byAuthor l
      else
        let bit := if matches author then 2 else 1 in
        let seen := Z.lor (default 0 (byAuthor !! author)) bit in
        fail_if (seen =? 3)
          "publisher selector cannot distinguish nodes sharing a signing identity";;
        publisherLoop publishers (<[author := seen]> byAuthor) l
  end.

(** The guard of both callers: an active censorship selects publishers by group or node. *)
Definition selectsPublishers (c : NodeConfig.t) : option AttackSelector.t :=
  censorship ← Attacks.Censorship (NodeConfig.attacks c);
  let publishers := CensorshipConfig.Publishers censorship in
  s ← publishers;
  if Attacks.censorshipActive (NodeConfig.attacks c) && negb (AttackSelector.Empty publishers) &&
     (0 <? length (elems (AttackSelector.Groups s)) + length (elems (AttackSelector.NodeIDs s)))%nat
  then Some s else None.

Definition validateAttackPublisherTargets (config : NodeConfig.t)
    (targets : list AttackTarget.t) : res unit :=
  match selectsPublishers config with
  | None => Ok tt
  | Some publishers => publisherLoop (Some publishers) ∅ targets
  end.

(** ** Requests and responses *)
Definition deepProbability (a b : ProbabilityAttack.t) : bool :=
  deepPtr eqb (ProbabilityAttack.Enabled a) (ProbabilityAttack.Enabled b) &&
  deepFloat (ProbabilityAttack.Probability a) (ProbabilityAttack.Probability b).

Definition deepPatch (a b : RuntimeProfilePatch.t) : bool :=
  deepPtr deepProbability (RuntimeProfilePatch.Forwarding a) (RuntimeProfilePatch.Forwarding b) &&
  deepPtr deepProbability (RuntimeProfilePatch.Sink a) (RuntimeProfilePatch.Sink b) &&
  deepPtr deepProbability (RuntimeProfilePatch.Censorship a) (RuntimeProfilePatch.Censorship b) &&
  deepPtr deepProbability
    (RuntimeProfilePatch.MessageDelay a) (RuntimeProfilePatch.MessageDelay b) &&
  deepPtr RuntimeGossipSubParams.deepEqual
    (RuntimeProfilePatch.GossipSub a) (RuntimeProfilePatch.GossipSub b) &&
  deepPtr deepNetwork (RuntimeProfilePatch.Network a) (RuntimeProfilePatch.Network b).

Definition sameProfileUpdate (a b : ProfileUpdateRequest.t) : bool :=
  bool_decide (ProfileUpdateRequest.RunID a = ProfileUpdateRequest.RunID b) &&
  (ProfileUpdateRequest.Generation a =? ProfileUpdateRequest.Generation b) &&
  (ProfileUpdateRequest.Revision a =? ProfileUpdateRequest.Revision b) &&
  deepPatch (ProfileUpdateRequest.Set_ a) (ProfileUpdateRequest.Set_ b).

Module ProfileUpdateResponse.
Record t := mk {
  NodeID : string; PeerID : string; Revision : Z; Stage : string;
  Effective : RuntimeProfilePatch.t }.
End ProfileUpdateResponse.

Module PeerProfile.

(** ** State *)
(** What the Peer was created with; [pubsub] is [s.pubsub != nil], [gossipRouter]
    whether its router is a [*GossipSubRouter], [networkSchedule] the plan of
    [newPeerNetworkSchedule]. *)
Record Config := mkConfig {
  nodeID : string; peerID : string; runID : string; generation : Z; role : string;
  nodeConfig : NodeConfig.t; profileRevision : Z; networkMutable : bool;
  pubsub : bool; gossipRouter : bool; hasAttacks : bool;
  networkSchedule : option peerNetworkSchedule }.

Record preparedProfileUpdate := mkPrepared { request : ProfileUpdateRequest.t; config : NodeConfig.t }.

Record profileAppliedState := mkApplied {
  appliedConfig : NodeConfig.t; appliedRevision : Z; appliedAt : Z;
  status : RuntimeProfilePatch.t }.

Record networkAppliedState := mkNetworkApplied {
  networkConfig : NetworkConfig; networkRevision : Z; networkAppliedAt : Z }.

(** [profileUpdates], [profileApplied], [networkApplied], the router's parameters
    and the attack runtime's policy and registry. *)
Record State := mkState {
  prepared : option preparedProfileUpdate; last : option preparedProfileUpdate; failed : bool;
  applied : option profileAppliedState; networkApplied : option networkAppliedState;
  params : GossipSubRuntimeParams.t; policy : NodeConfig.t * Z;
  registry : option (list AttackTarget.t) }.

Definition withPrepared (p : option preparedProfileUpdate) (s : State) : State :=
  mkState p (last s) (failed s) (applied s) (networkApplied s) (params s) (policy s) (registry s).
Definition withFailed (s : State) : State :=
  mkState (prepared s) (last s) true (applied s) (networkApplied s) (params s) (policy s)
    (registry s).
Definition withNetwork (n : networkAppliedState) (s : State) : State :=
  mkState (prepared s) (last s) (failed s) (applied s) (Some n) (params s) (policy s) (registry s).
Definition withParams (p : GossipSubRuntimeParams.t) (s : State) : State :=
  mkState (prepared s) (last s) (failed s) (applied s) (networkApplied s) p (policy s) (registry s).
Definition withPolicy (p : NodeConfig.t * Z) (s : State) : State :=
  mkState (prepared s) (last s) (failed s) (applied s) (networkApplied s) (params s) p (registry s).
Definition withRegistry (r : list AttackTarget.t) (s : State) : State :=
  mkState (prepared s) (last s) (failed s) (applied s) (networkApplied s) (params s) (policy s)
    (Some r).
(** [profileApplied.Store(a)]; [state.last, state.prepared = state.prepared, nil] *)
Definition committed (a : profileAppliedState) (s : State) : State :=
  mkState None (prepared s) (failed s) (Some a) (networkApplied s) (params s) (policy s)
    (registry s).

(** [evalMeshFreeze]: the callback did not run, or it ran and the call returned nil
    or, cancelled meanwhile, an error. *)
Inductive loopOutcome := notRun (e : string) | ran (e : option string).

(** What a call meets: an error of the gate, an error or the registry's decoded
    answer, an error of the context before the application, the error of
    [netem.Update], the router's event loop and the clock. *)
Record Env := mkEnv {
  acquire : option string; fetch : string + list AttackTarget.t; canceled : option string;
  applyNetwork : NetworkConfig → NetworkConfig → Z → option string;
  eventLoop : loopOutcome; now : Z }.

(** [if err != nil { return err }] *)
Definition failWith (e : option string) : res unit :=
  match e with Some e => Err e | None => Ok tt end.

Section peer.
Context `{PeerCodec} `{CIDRs} `{PubSubLib} (ParseFloat : string → option float) (cfg : Config).

(** ** Collaborators *)
(** [fetchTargets], after the request. *)
Definition fetchTargets (env : Env) : GoM State unit :=
  targets ← match fetch env with inl e => throw e | inr targets => mret targets end;
  lift_res (fail_if (50000 <? length targets)%nat "attack registry exceeds 50000 identity records");;
  s ← get;
  lift_res (validateAttackPublisherTargets (policy s).1 targets);;
  modify (withRegistry targets).

(** [SetGossipSubRuntimeParams] *)
Definition setRuntimeParams (env : Env) (p : GossipSubRuntimeParams.t) : GoM State unit :=
  lift_res (fail_if (negb (gossipRouter cfg))
              "runtime GossipSub parameters require the GossipSub router");;
  lift_res (GossipSubRuntimeParams.Validate p);;
  match eventLoop env with
  | notRun e => throw e
  | ran e => modify (withParams p);; lift_res (failWith e)
  end.

(** [attackRuntime.update] *)
Definition updateAttacks (c : NodeConfig.t) (revision : Z) : GoM State unit :=
  modify (withPolicy (NodeConfig.WithDefaults c, revision)).

(** ** [executeProfileUpdate] *)
Definition effective (s : State) : NodeConfig.t * Z :=
  match applied s with
  | Some a => (appliedConfig a, appliedRevision a)
  | None => (nodeConfig cfg, profileRevision cfg)
  end.

(** [profileStatusSnapshot] *)
Definition profileStatusSnapshot (c : NodeConfig.t) : RuntimeProfilePatch.t :=
  let snapshot := RuntimeProfilePatch.RuntimeProfileSnapshot c in
  let g := NodeConfig.GossipSub c in
  let snapshot :=
    if negb (isTrue (GossipSubConfig.Enabled g)) || negb (NodeConfig.isGossipRouter g)
    then RuntimeProfilePatch.mk None None None None None (RuntimeProfilePatch.Network snapshot)
    else snapshot in
  if negb (networkMutable cfg) || Scheduled (NodeConfig.Network c)
  then RuntimeProfilePatch.mk (RuntimeProfilePatch.Forwarding snapshot)
         (RuntimeProfilePatch.Sink snapshot) (RuntimeProfilePatch.Censorship snapshot)
         (RuntimeProfilePatch.MessageDelay snapshot) (RuntimeProfilePatch.GossipSub snapshot) None
  else snapshot.

(** The checks between the revision and the stage. *)
Definition admitUpdate (request : ProfileUpdateRequest.t) (current : NodeConfig.t) : res NodeConfig.t :=
  let set := ProfileUpdateRequest.Set_ request in
  fail_if (negb (isNil (RuntimeProfilePatch.Network set)) && negb (networkMutable cfg))
    "Peer was not created with network update capability";;
  fail_if (negb (isNil (RuntimeProfilePatch.GossipSub set)) && negb (pubsub cfg))
    "GossipSub is not running";;
  updated ← RuntimeProfilePatch.Apply ParseFloat set current;
  NodeConfig.ValidateAttackRole updated (role cfg);;
  fail_if (RuntimeProfilePatch.HasAttacks set && negb (hasAttacks cfg))
    "attack runtime is not running";;
  Ok updated.

(** The registry's check of a preparation; a nil runtime panics. *)
Definition checkPublishers (env : Env) (updated : NodeConfig.t) : GoM State unit :=
  match selectsPublishers updated with
  | None => mret tt
  | Some _ =>
      if hasAttacks cfg then
        fetchTargets env;;
        s ← get;
        match registry s with
        | Some targets => lift_res (validateAttackPublisherTargets updated targets)
        | None => mret tt
        end
      else panic
  end.

Definition respond (r : ProfileUpdateRequest.t) (c : NodeConfig.t) : ProfileUpdateResponse.t :=
  ProfileUpdateResponse.mk (nodeID cfg) (peerID cfg) (ProfileUpdateRequest.Revision r)
    (ProfileUpdateRequest.Stage r)
    (RuntimeProfilePatch.Snapshot (ProfileUpdateRequest.Set_ r) c).

Definition prepareUpdate (r : ProfileUpdateRequest.t) (updated : NodeConfig.t) :
    GoM State ProfileUpdateResponse.t :=
  s ← get;
  lift_res (fail_if
    match prepared s with
    | Some p => (ProfileUpdateRequest.Revision r <=? ProfileUpdateRequest.Revision (request p)) &&
                negb (sameProfileUpdate (request p) r)
    | None => false
    end "conflicting prepared profile revision");;
  modify (withPrepared (Some (mkPrepared r updated)));;
  mret (respond r updated).

(** [netem.DefaultP2PPort] *)
Definition DefaultP2PPort : Z := 20000.

(** The two parts that can fail half-way. *)
Definition applyParts (env : Env) (r : ProfileUpdateRequest.t) (current updated : NodeConfig.t) :
    GoM State unit :=
  let set := ProfileUpdateRequest.Set_ r in
  (if isNil (RuntimeProfilePatch.Network set) then mret tt
   else
     lift_res (failWith (applyNetwork env (Initial (NodeConfig.Network current))
                           (Initial (NodeConfig.Network updated)) DefaultP2PPort));;
     modify (withNetwork (mkNetworkApplied (Initial (NodeConfig.Network updated))
                            (ProfileUpdateRequest.Revision r) (now env))));;
  (if isNil (RuntimeProfilePatch.GossipSub set) then mret tt
   else
     p ← lift_res (GossipSubRuntimeParams.ofConfig
                     (GossipSubConfig.Params (NodeConfig.GossipSub updated)));
     setRuntimeParams env p).

Definition commitUpdate (env : Env) (r : ProfileUpdateRequest.t) (updated : NodeConfig.t) :
    GoM State ProfileUpdateResponse.t :=
  (if RuntimeProfilePatch.HasAttacks (ProfileUpdateRequest.Set_ r)
   then updateAttacks updated (ProfileUpdateRequest.Revision r) else mret tt);;
  modify (committed (mkApplied updated (ProfileUpdateRequest.Revision r) (now env)
                       (profileStatusSnapshot updated)));;
  mret (respond r updated).

(** [if err != nil { state.failed = true; … }]; a panic is not caught. *)
Definition latchFailure {A} (m : GoM State A) : GoM State A :=
  λ s, match m s with
       | (Err e, s) => (Err ("profile apply may be partial: " +:+ e), withFailed s)
       | r => r
       end.

Definition applyUpdate (env : Env) (r : ProfileUpdateRequest.t) (current : NodeConfig.t) :
    GoM State ProfileUpdateResponse.t :=
  s ← get;
  match prepared s with
  | Some p =>
      lift_res (fail_if (negb (sameProfileUpdate (request p) r))
                  "profile apply requires matching preparation");;
      lift_res (failWith (canceled env));;
      latchFailure (applyParts env r current (config p));;
      commitUpdate env r (config p)
  | None => throw "profile apply requires matching preparation"
  end.

Definition executeProfileUpdate (env : Env) (r : ProfileUpdateRequest.t) :
    GoM State ProfileUpdateResponse.t :=
  lift_res (ProfileUpdateRequest.Validate ParseFloat r);;
  lift_res (failWith (acquire env));;
  s ← get;
  lift_res (fail_if (failed s) "previous profile application failed");;
  let '(current, revision) := effective s in
  if ProfileUpdateRequest.Revision r <=? revision then
    match last s with
    | Some l =>
        if sameProfileUpdate (request l) r then mret (respond r current)
        else throw "stale or conflicting profile revision"
    | None => throw "stale or conflicting profile revision"
    end
  else
    updated ← lift_res (admitUpdate r current);
    if bool_decide (ProfileUpdateRequest.Stage r = "prepare"%string)
    then checkPublishers env updated;; prepareUpdate r updated
    else applyUpdate env r current.

(** ** [handleProfileUpdate]

    The status of the reply; [decoded] is the body's single request, and
    [isCanceled], [isDeadline] are [errors.Is] on the error.  A panic drops the
    connection. *)
Definition handleProfileUpdate (isCanceled isDeadline : string → bool) (env : Env) (post : bool)
    (header : string) (decoded : option ProfileUpdateRequest.t) (s : State) :
    option (Z * option ProfileUpdateResponse.t) * State :=
  if negb post then (Some (405, None), s)
  else if empty (nodeID cfg) || negb (bool_decide (header = nodeID cfg)) then (Some (409, None), s)
  else match decoded with
  | None => (Some (400, None), s)
  | Some r =>
      match ProfileUpdateRequest.Validate ParseFloat r with
      | Ok _ =>
          if negb (bool_decide (ProfileUpdateRequest.RunID r = runID cfg)) ||
             negb (ProfileUpdateRequest.Generation r =? generation cfg) then (Some (409, None), s)
          else match executeProfileUpdate env r s with
               | (Ok response, s) => (Some (200, Some response), s)
               | (Err e, s) =>
                   let status := if isCanceled e then 503 else 409 in
                   (Some (if isDeadline e then 504 else status, None), s)
               | (Panic, s) => (None, s)
               end
      | Err _ => (Some (400, None), s)
      | Panic => (None, s)
      end
  end.

(** ** Runs *)
(** [recordNetworkApplied]: what the schedule's goroutine stores. *)
Definition recordNetworkApplied (config : NetworkConfig) (revision : nat) (now : Z) : State → State :=
  withNetwork (mkNetworkApplied config (Z.of_nat revision) now).

(** A new Peer: the router and the attack runtime start from the configuration;
    a Peer with a schedule has installed the state that is due. *)
Definition started (now : Z) (p : GossipSubRuntimeParams.t) : State :=
  let s := mkState None None false None None p
             (NodeConfig.WithDefaults (nodeConfig cfg), profileRevision cfg) None in
  match networkSchedule cfg with
  | Some plan => recordNetworkApplied (initial plan) (next plan) now s
  | None => s
  end.

(** The changes [runNetworkSchedule] installs while the Peer runs. *)
Definition scheduledChanges (clock : nat → Z) (canceled : nat → bool)
    (ok : NetworkConfig → NetworkConfig → bool) : list PeerNetwork.applied :=
  match networkSchedule cfg with
  | Some plan => (runNetworkSchedule clock (base plan) canceled ok plan).1
  | None => []
  end.

(** Updates and the schedule's goroutine, which stores through an atomic pointer
    and takes no part in the updates' gate; [todo] is what the goroutine still
    installs. *)
Inductive runs (p : GossipSubRuntimeParams.t) : list PeerNetwork.applied → State → Prop :=
| run_start now clock canceled ok : runs p (scheduledChanges clock canceled ok) (started now p)
| run_update todo s env r : runs p todo s → runs p todo (executeProfileUpdate env r s).2
| run_schedule change todo s now :
    runs p (change :: todo) s →
    runs p todo (recordNetworkApplied (to change) (revision change) now s).

Definition reachable (p : GossipSubRuntimeParams.t) (s : State) : Prop := ∃ todo, runs p todo s.
End peer.
End PeerProfile.
