(* ===== verification/PeerProfileProps.v ===== *)
(** * Properties of profile updates on a Peer

    The state machine of [executeProfileUpdate]: what every reachable state
    satisfies, what each stage changes, and that a repeated request is answered
    without applying it again. *)
From Stdlib Require Import ZArith Lia.
From stdpp Require Import strings list gmap.
From S2P Require Import Prelude.
From S2P Require Import GoStd.
From S2P Require Import GoStrings.
From S2P Require Import Distribution.
From S2P Require Import Network.
From S2P Require Import NetworkProps.
From S2P Require Import PeerNetwork.
From S2P Require Import Attacks.
From S2P Require Import PeerScore.
From S2P Require Import GossipSubConfig.
From S2P Require Import PeerGossipSub.
From S2P Require Import KademliaConfig.
From S2P Require Import NodeConfig.
From S2P Require Import NodeConfigProps.
From S2P Require Import NodeConfigSafe.
From S2P Require Import NodeConfigBuild.
From S2P Require Import ProfileSchedule.
From S2P Require Import ProfileScheduleProps.
From S2P Require Import PeerProfile.
Import PeerProfile.
Open Scope Z_scope.

Section peer.
Context `{PeerCodecLaws} `{CIDRs} `{PubSubLib} (ParseFloat : string → option float) (cfg : Config).
Let exec := executeProfileUpdate ParseFloat cfg.
Let eff := effective cfg.
Let accepted := NodeConfig.Validate ParseFloat.

(** ** No call panics *)
#[local] Hint Resolve safe_probability safe_network safe_Validate : safe.

Lemma safe_patch p : safe (RuntimeProfilePatch.Validate ParseFloat p).
Proof.
  unfold RuntimeProfilePatch.Validate, RuntimeProfilePatch.validateNetwork,
    RuntimeGossipSubParams.Validate.
  safe_more; apply safe_network.
Qed.

Lemma safe_Apply p c : safe (RuntimeProfilePatch.Apply ParseFloat p c).
Proof.
  unfold RuntimeProfilePatch.Apply.
  repeat first [apply safe_patch | apply safe_Validate | progress safe_more].
Qed.

Lemma safe_admit r c : safe (admitUpdate ParseFloat cfg r c).
Proof.
  unfold admitUpdate. repeat first [apply safe_Apply | apply safe_fail_if | progress safe_more].
Qed.

Lemma safe_publishers publishers byAuthor l : safe (publisherLoop publishers byAuthor l).
Proof. revert byAuthor. induction l; intros; cbn [publisherLoop]; safe_more. Qed.

Lemma safe_targets c l : safe (validateAttackPublisherTargets c l).
Proof. unfold validateAttackPublisherTargets. case_match; [apply safe_publishers|apply safe_ok]. Qed.

Lemma ofConfig_total P :
  GossipSubParamsConfig.WithDefaults P = P → ∃ v, GossipSubRuntimeParams.ofConfig P = Ok v.
Proof.
  intros HP. rewrite <- HP. unfold GossipSubRuntimeParams.ofConfig. destruct P.
  destruct D, DLow, DHigh, DScore, DOut, DLazy, GossipFactor, HopwaveFactor, HopwaveInterval;
    by eexists.
Qed.
(** ** Transitions *)
(** Only the attack registry may differ. *)
Definition idle (s s' : State) : Prop := s' = s ∨ ∃ l, s' = withRegistry l s.

(** The outcomes of a call on [s]. *)
Inductive outcome (env : Env) (r : ProfileUpdateRequest.t) (s : State) :
    res ProfileUpdateResponse.t → State → Prop :=
| o_rejected e s' : idle s s' → outcome env r s (Err e) s'
| o_replayed l :
    ProfileUpdateRequest.Validate ParseFloat r = Ok tt → failed s = false →
    ProfileUpdateRequest.Revision r ≤ (eff s).2 → last s = Some l →
    sameProfileUpdate (request l) r = true →
    outcome env r s (Ok (respond cfg r (eff s).1)) s
| o_prepared u s1 :
    ProfileUpdateRequest.Validate ParseFloat r = Ok tt → failed s = false →
    (eff s).2 < ProfileUpdateRequest.Revision r →
    admitUpdate ParseFloat cfg r (eff s).1 = Ok u →
    ProfileUpdateRequest.Stage r = "prepare"%string → idle s s1 →
    outcome env r s (Ok (respond cfg r u)) (withPrepared (Some (mkPrepared r u)) s1)
| o_broken e p s' :
    failed s = false → (eff s).2 < ProfileUpdateRequest.Revision r →
    ProfileUpdateRequest.Stage r = "apply"%string →
    prepared s = Some p → sameProfileUpdate (request p) r = true →
    eff s' = eff s → failed s' = true → prepared s' = prepared s → last s' = last s →
    policy s' = policy s →
    (Scheduled (NodeConfig.Network (eff s).1) = true → networkApplied s' = networkApplied s) →
    outcome env r s (Err e) s'
| o_applied p s1 u :
    ProfileUpdateRequest.Validate ParseFloat r = Ok tt → failed s = false →
    (eff s).2 < ProfileUpdateRequest.Revision r →
    admitUpdate ParseFloat cfg r (eff s).1 = Ok u →
    ProfileUpdateRequest.Stage r = "apply"%string → prepared s = Some p →
    sameProfileUpdate (request p) r = true →
    applyParts cfg env r (eff s).1 (config p) s = (Ok tt, s1) →
    outcome env r s (Ok (respond cfg r (config p)))
      (committed (mkApplied (config p) (ProfileUpdateRequest.Revision r) (now env)
                    (profileStatusSnapshot cfg (config p)))
         (if RuntimeProfilePatch.HasAttacks (ProfileUpdateRequest.Set_ r)
          then withPolicy (NodeConfig.WithDefaults (config p), ProfileUpdateRequest.Revision r) s1
          else s1)).

(** Runs a straight-line call: every test becomes a case. *)
Ltac go :=
  unfold mbind, gom_bind, lift_res, get, modify, mret, gom_ret, throw, panic in *;
  repeat (case_match; simplify_eq/=).

Lemma idle_refl s : idle s s.
Proof. by left. Qed.

Lemma checkPublishers_idle env u s :
  (selectsPublishers u ≠ None → hasAttacks cfg = true) →
  let '(r, s') := checkPublishers cfg env u s in r ≠ Panic ∧ idle s s'.
Proof.
  intros Hatt. destruct (checkPublishers cfg env u s) as [r s'] eqn:Hr.
  pose proof safe_targets as Ht. unfold safe in Ht.
  unfold checkPublishers, fetchTargets, fail_if in Hr. go;
    (split; [try done|try apply idle_refl; right; by eauto]).
  all: exfalso; first [by eapply Ht | by specialize (Hatt ltac:(done))].
Qed.

(** The partial application leaves the protocol's own state alone. *)
Definition frame (s s' : State) : Prop :=
  prepared s' = prepared s ∧ last s' = last s ∧ failed s' = failed s ∧ applied s' = applied s ∧
  policy s' = policy s ∧ registry s' = registry s.

Lemma applyParts_frame env r c u s :
  frame s (applyParts cfg env r c u s).2.
Proof.
  destruct (applyParts cfg env r c u s) as [o s'] eqn:Hr.
  unfold applyParts, setRuntimeParams in Hr. by go.
Qed.

Lemma applyParts_network env r c u s :
  RuntimeProfilePatch.Network (ProfileUpdateRequest.Set_ r) = None →
  networkApplied (applyParts cfg env r c u s).2 = networkApplied s.
Proof.
  intros Hn. destruct (applyParts cfg env r c u s) as [o s'] eqn:Hr.
  unfold applyParts, setRuntimeParams in Hr. rewrite Hn in Hr. by go.
Qed.

Lemma admit_ok r c u :
  admitUpdate ParseFloat cfg r c = Ok u ↔
  let set := ProfileUpdateRequest.Set_ r in
  negb (isNil (RuntimeProfilePatch.Network set)) && negb (networkMutable cfg) = false ∧
  negb (isNil (RuntimeProfilePatch.GossipSub set)) && negb (pubsub cfg) = false ∧
  RuntimeProfilePatch.Apply ParseFloat set c = Ok u ∧
  NodeConfig.ValidateAttackRole u (role cfg) = Ok tt ∧
  RuntimeProfilePatch.HasAttacks set && negb (hasAttacks cfg) = false.
Proof.
  unfold admitUpdate. cbv zeta. rewrite !fail_if_seq_ok. split.
  - intros (? & ? & Hb). apply bind_ok in Hb as (u' & Ha & Hb). rewrite seq_ok, fail_if_seq_ok in Hb.
    destruct Hb as (? & ? & [= ->]). done.
  - intros (? & ? & Ha & Hr & ?). split_and!; [done..|]. rewrite Ha. cbn [mbind res_bind].
    rewrite seq_ok, fail_if_seq_ok. done.
Qed.

(** A Peer with a schedule takes no update of its network conditions. *)
Lemma admit_scheduled r c u :
  admitUpdate ParseFloat cfg r c = Ok u → Scheduled (NodeConfig.Network c) = true →
  RuntimeProfilePatch.Network (ProfileUpdateRequest.Set_ r) = None ∧
  NodeConfig.Network u = NodeConfig.Network c.
Proof.
  intros (_ & _ & Ha & _)%admit_ok Hs. apply Apply_ok in Ha as (_ & _ & _ & Hn & -> & _).
  rewrite Hs, andb_true_r, negb_false_iff in Hn.
  destruct (RuntimeProfilePatch.Network (ProfileUpdateRequest.Set_ r)) eqn:E; [done|].
  by rewrite patched_same_network.
Qed.

Lemma safe_runtime v : safe (GossipSubRuntimeParams.Validate v).
Proof. unfold GossipSubRuntimeParams.Validate. safe_more. Qed.

Lemma applyParts_safe env r c u s :
  (∃ v, GossipSubRuntimeParams.ofConfig (GossipSubConfig.Params (NodeConfig.GossipSub u)) = Ok v) →
  (applyParts cfg env r c u s).1 ≠ Panic.
Proof.
  intros [v Hv]. pose proof safe_runtime as Hs. unfold safe in Hs.
  destruct (applyParts cfg env r c u s) as [o s'] eqn:Hr.
  unfold applyParts, setRuntimeParams in Hr. rewrite Hv in Hr. unfold failWith, fail_if in Hr.
  go; try done; exfalso; by eapply Hs.
Qed.

(** A rejected call, once its result is evident. *)
Ltac rejected :=
  unfold throw, panic, mret, gom_ret, fail_if in *; cbn [negb] in *;
  try match goal with E : (_, _) = (_, _) |- _ => injection E as <- <- end;
  try (by apply o_rejected, idle_refl).

(** What keeps a call from panicking. *)
Definition usable (r : ProfileUpdateRequest.t) (s : State) : Prop :=
  (∀ u, admitUpdate ParseFloat cfg r (eff s).1 = Ok u → selectsPublishers u ≠ None →
     hasAttacks cfg = true) ∧
  (∀ p, prepared s = Some p → failed s = false →
     ∃ v, GossipSubRuntimeParams.ofConfig
            (GossipSubConfig.Params (NodeConfig.GossipSub (config p))) = Ok v).

Lemma failWith_safe e : failWith e ≠ Panic.
Proof. by destruct e. Qed.

Lemma applyUpdate_outcome env r s o s' u :
  usable r s → ProfileUpdateRequest.Validate ParseFloat r = Ok tt → failed s = false →
  (eff s).2 < ProfileUpdateRequest.Revision r → admitUpdate ParseFloat cfg r (eff s).1 = Ok u →
  ProfileUpdateRequest.Stage r = "apply"%string →
  applyUpdate cfg env r (eff s).1 s = (o, s') → outcome env r s o s'.
Proof.
  intros [_ Hu] Hv Hf Hr Hadmit Hstage E. unfold applyUpdate in E.
  unfold mbind at 1, gom_bind at 1, get at 1 in E.
  destruct (prepared s) as [p|] eqn:Hp; rejected.
  unfold mbind at 1, gom_bind at 1, lift_res at 1 in E.
  destruct (sameProfileUpdate (request p) r) eqn:Hsame; rejected.
  unfold mbind at 1, gom_bind at 1, lift_res at 1 in E.
  pose proof (failWith_safe (canceled env)).
  destruct (failWith (canceled env)) as [[]|e|]; rejected; [|done].
  unfold mbind at 1, gom_bind at 1, latchFailure in E.
  pose proof (applyParts_frame env r (eff s).1 (config p) s) as (F1 & F2 & F3 & F4 & F5 & F6).
  pose proof (applyParts_safe env r (eff s).1 (config p) s (Hu p eq_refl Hf)) as Hsafe.
  destruct (applyParts cfg env r (eff s).1 (config p) s) as [[[]|e|] s1] eqn:Hparts; rejected; [| |done].
  - unfold commitUpdate, updateAttacks, mbind, gom_bind, modify, mret, gom_ret in E.
    assert (s' = committed (mkApplied (config p) (ProfileUpdateRequest.Revision r) (now env)
                    (profileStatusSnapshot cfg (config p)))
         (if RuntimeProfilePatch.HasAttacks (ProfileUpdateRequest.Set_ r)
          then withPolicy (NodeConfig.WithDefaults (config p), ProfileUpdateRequest.Revision r) s1
          else s1) ∧ o = Ok (respond cfg r (config p))) as [-> ->]
      by (destruct (RuntimeProfilePatch.HasAttacks _); by injection E as <- <-).
    by eapply o_applied.
  - eapply o_broken; try done; [unfold eff, effective; cbn in *; by rewrite F4|].
    intros Hsch. destruct (admit_scheduled r _ u Hadmit Hsch) as [Hnil _].
    pose proof (applyParts_network env r (eff s).1 (config p) s Hnil) as Hn.
    rewrite Hparts in Hn. exact Hn.
Qed.

Lemma exec_outcome env r s o s' : usable r s → exec env r s = (o, s') → outcome env r s o s'.
Proof.
  intros Hu E. unfold exec, executeProfileUpdate in E. unfold mbind at 1, gom_bind at 1, lift_res at 1 in E.
  assert (ProfileUpdateRequest.Validate ParseFloat r ≠ Panic) as Hsafe.
  { unfold ProfileUpdateRequest.Validate. apply safe_bind; [apply safe_fail_if|].
    intros. apply safe_patch. }
  destruct (ProfileUpdateRequest.Validate ParseFloat r) as [[]|e|] eqn:Hv; rejected; [|done].
  unfold mbind at 1, gom_bind at 1, lift_res at 1 in E. pose proof (failWith_safe (acquire env)).
  destruct (failWith (acquire env)) as [[]|e|] eqn:Ha; rejected; [|done].
  unfold mbind at 1, gom_bind at 1, get at 1 in E.
  unfold mbind at 1, gom_bind at 1, lift_res at 1 in E.
  destruct (failed s) eqn:Hf; rejected.
  fold eff in E. destruct (eff s) as [current revision] eqn:Heff.
  destruct (Z.leb_spec (ProfileUpdateRequest.Revision r) revision) as [Hr|Hr].
  { destruct (last s) as [l|] eqn:Hl; rejected.
    destruct (sameProfileUpdate (request l) r) eqn:Hsame; rejected.
    replace current with (eff s).1 by (by rewrite Heff). eapply o_replayed; rewrite ?Heff; done. }
  unfold mbind at 1, gom_bind at 1, lift_res at 1 in E. pose proof (safe_admit r current) as Hadm.
  replace current with (eff s).1 in * by (by rewrite Heff).
  replace revision with (eff s).2 in * by (by rewrite Heff). clear Heff current revision.
  destruct (admitUpdate ParseFloat cfg r (eff s).1) as [u|e|] eqn:Hadmit; rejected; [|done].
  case_bool_decide as Hs.
  - unfold mbind at 1, gom_bind at 1 in E.
    pose proof (checkPublishers_idle env u s (proj1 Hu u Hadmit)) as Hidle.
    destruct (checkPublishers cfg env u s) as [[[]|e|] s1] eqn:Hc; rejected; destruct Hidle as [? Hidle];
      [|by apply o_rejected|done].
    unfold prepareUpdate, mbind, gom_bind, get, lift_res, modify, mret, gom_ret, fail_if in E.
    destruct (match prepared s1 with Some _ => _ | None => false end); injection E as <- <-.
    + by apply o_rejected.
    + by eapply o_prepared.
  - eapply applyUpdate_outcome; try done.
    unfold ProfileUpdateRequest.Validate in Hv. rewrite fail_if_seq_ok, !orb_false_iff in Hv.
    destruct Hv as [[_ Hst] _]. apply negb_false_iff, bool_decide_eq_true_1 in Hst.
    rewrite !elem_of_cons, elem_of_nil in Hst. naive_solver.
Qed.

Lemma applyParts_ok env r c u s s1 :
  applyParts cfg env r c u s = (Ok tt, s1) →
  let set := ProfileUpdateRequest.Set_ r in
  networkApplied s1 =
    (if isNil (RuntimeProfilePatch.Network set) then networkApplied s
     else Some (mkNetworkApplied (Initial (NodeConfig.Network u)) (ProfileUpdateRequest.Revision r)
                  (now env))) ∧
  (if isNil (RuntimeProfilePatch.GossipSub set) then params s1 = params s
   else GossipSubRuntimeParams.ofConfig (GossipSubConfig.Params (NodeConfig.GossipSub u)) =
        Ok (params s1)).
Proof. intros Hr. unfold applyParts, setRuntimeParams in Hr. by go. Qed.

(** ** Equal requests *)
Lemma deepPtr_nil {A} (eq : A → A → bool) a b : deepPtr eq a b = true → isNil a = isNil b.
Proof. by destruct a, b. Qed.

Lemma same_nil a b :
  sameProfileUpdate a b = true →
  let p := ProfileUpdateRequest.Set_ a in
  let q := ProfileUpdateRequest.Set_ b in
  isNil (RuntimeProfilePatch.Forwarding p) = isNil (RuntimeProfilePatch.Forwarding q) ∧
  isNil (RuntimeProfilePatch.Sink p) = isNil (RuntimeProfilePatch.Sink q) ∧
  isNil (RuntimeProfilePatch.Censorship p) = isNil (RuntimeProfilePatch.Censorship q) ∧
  isNil (RuntimeProfilePatch.MessageDelay p) = isNil (RuntimeProfilePatch.MessageDelay q) ∧
  isNil (RuntimeProfilePatch.GossipSub p) = isNil (RuntimeProfilePatch.GossipSub q) ∧
  isNil (RuntimeProfilePatch.Network p) = isNil (RuntimeProfilePatch.Network q).
Proof.
  unfold sameProfileUpdate, deepPatch. rewrite !andb_true_iff.
  intros [_ [[[[[D1 D2] D3] D4] D5] D6]]. split_and!; by eapply deepPtr_nil.
Qed.

Lemma same_revision a b :
  sameProfileUpdate a b = true → ProfileUpdateRequest.Revision a = ProfileUpdateRequest.Revision b.
Proof. unfold sameProfileUpdate. rewrite !andb_true_iff, !Z.eqb_eq. naive_solver. Qed.

Lemma same_snapshot a b c :
  sameProfileUpdate a b = true →
  RuntimeProfilePatch.Snapshot (ProfileUpdateRequest.Set_ a) c =
  RuntimeProfilePatch.Snapshot (ProfileUpdateRequest.Set_ b) c.
Proof.
  intros (E1 & E2 & E3 & E4 & E5 & E6)%same_nil.
  unfold RuntimeProfilePatch.Snapshot, RuntimeProfilePatch.ifSet. by rewrite E1, E2, E3, E4, E5, E6.
Qed.

Lemma same_HasAttacks a b :
  sameProfileUpdate a b = true →
  RuntimeProfilePatch.HasAttacks (ProfileUpdateRequest.Set_ a) =
  RuntimeProfilePatch.HasAttacks (ProfileUpdateRequest.Set_ b).
Proof.
  intros (E1 & E2 & E3 & E4 & _)%same_nil. unfold RuntimeProfilePatch.HasAttacks.
  by rewrite E1, E2, E3, E4.
Qed.

(** ** The invariant *)
Definition gossipOf (c : NodeConfig.t) : GossipSubConfig.t :=
  NodeConfig.GossipSub (NodeConfig.WithDefaults c).
Definition roleOk (c : NodeConfig.t) : Prop := NodeConfig.ValidateAttackRole c (role cfg) = Ok tt.

(** A Peer as it is created: the Controller accepted its configuration, PubSub runs
    when it is enabled, with the attack runtime when its router is GossipSub. *)
Record created (p : GossipSubRuntimeParams.t) : Prop := {
  c_valid : accepted (nodeConfig cfg) = Ok tt;
  c_role : roleOk (nodeConfig cfg);
  c_pubsub : pubsub cfg = isTrue (GossipSubConfig.Enabled (gossipOf (nodeConfig cfg)));
  c_router : gossipRouter cfg =
    pubsub cfg && NodeConfig.isGossipRouter (gossipOf (nodeConfig cfg));
  c_attacks : hasAttacks cfg = gossipRouter cfg;
  c_params : gossipRouter cfg = true →
    GossipSubRuntimeParams.ofConfig (GossipSubConfig.Params (gossipOf (nodeConfig cfg))) = Ok p;
  c_schedule : ∃ experimentStartedAt joinedAt estimate clock,
    newPeerNetworkSchedule ParseFloat (NodeConfig.Network (nodeConfig cfg)) experimentStartedAt
      joinedAt estimate clock = Ok (networkSchedule cfg) }.

(** The Peer's network conditions are scheduled, and the conditions in force are
    the state of the schedule with the recorded revision. *)
Let network := NodeConfig.Network (nodeConfig cfg).
Definition scheduledState (s : State) : Prop :=
  NodeConfig.Network (eff s).1 = network ∧
  ∃ n, networkApplied s = Some n ∧ 0 ≤ networkRevision n ∧
    states network !! Z.to_nat (networkRevision n) = Some (networkConfig n).

Record consistent (s : State) : Prop := {
  i_valid : accepted (eff s).1 = Ok tt;
  i_role : roleOk (eff s).1;
  i_router : GossipSubConfig.Enabled (gossipOf (eff s).1) =
               GossipSubConfig.Enabled (gossipOf (nodeConfig cfg)) ∧
             GossipSubConfig.Router (gossipOf (eff s).1) =
               GossipSubConfig.Router (gossipOf (nodeConfig cfg));
  i_revision : profileRevision cfg ≤ (eff s).2;
  i_prepared p : prepared s = Some p → failed s = false →
    (eff s).2 < ProfileUpdateRequest.Revision (request p) ∧
    ProfileUpdateRequest.Stage (request p) = "prepare"%string ∧
    admitUpdate ParseFloat cfg (request p) (eff s).1 = Ok (config p);
  i_last l : last s = Some l →
    ∃ base, RuntimeProfilePatch.Apply ParseFloat (ProfileUpdateRequest.Set_ (request l)) base =
      Ok (config l) ∧ eff s = (config l, ProfileUpdateRequest.Revision (request l));
  i_network n : Scheduled network = false → networkApplied s = Some n → failed s = false →
    networkConfig n = Initial (NodeConfig.Network (eff s).1);
  i_scheduled : Scheduled network = true → scheduledState s;
  i_params : gossipRouter cfg = true → failed s = false →
    GossipSubRuntimeParams.ofConfig (GossipSubConfig.Params (gossipOf (eff s).1)) = Ok (params s);
  i_policy : NodeConfig.attacks (policy s).1 =
    NodeConfig.attacks (NodeConfig.WithDefaults (eff s).1) }.

(** ** Scheduled conditions *)
Lemma lookup_states (l : list peerNetworkStep) i st :
  l !! i = Some st → map PeerNetwork.config l !! i = Some (PeerNetwork.config st).
Proof. revert i. induction l; intros []; cbn; naive_solver. Qed.

Lemma unscheduled p : created p → Scheduled network = false → networkSchedule cfg = None.
Proof.
  intros [_ _ _ _ _ _ (x & j & e & clock & Hplan)] Hs. fold network in Hplan.
  unfold newPeerNetworkSchedule in Hplan. apply bind_ok in Hplan as ([] & _ & Hplan).
  rewrite Hs in Hplan. by injection Hplan.
Qed.

Lemma scheduled p :
  created p → Scheduled network = true →
  ∃ plan, networkSchedule cfg = Some plan ∧
    Initial network :: map PeerNetwork.config (steps plan) = states network ∧
    states network !! next plan = Some (initial plan).
Proof.
  intros [_ _ _ _ _ _ (x & j & e & clock & Hplan)] Hs. fold network in Hplan.
  destruct (networkSchedule cfg) as [plan|].
  - destruct (newPeerNetworkSchedule_due _ _ _ _ _ _ _ Hplan) as (Hst & Hn & _ & _ & Hi).
    exists plan. split_and!; [done| |].
    + unfold states. by rewrite Hst.
    + unfold states. rewrite Hi, <- Hst. destruct (next plan) as [|k]; [done|].
      cbn [lookup list_lookup]. destruct (lookup_lt_is_Some_2 (steps plan) k) as [st Hk]; [lia|].
      rewrite (take_S_r _ _ st), last_snoc by done. by apply lookup_states.
  - unfold newPeerNetworkSchedule in Hplan. apply bind_ok in Hplan as ([] & _ & Hplan).
    rewrite Hs in Hplan. cbn [negb] in Hplan. repeat (apply bind_ok in Hplan as (? & _ & Hplan) ||
      case_match); done.
Qed.

Lemma started_consistent now p : created p → consistent (started cfg now p).
Proof.
  intros Hc. pose proof (unscheduled p Hc) as Hu. pose proof (scheduled p Hc) as Hs.
  destruct Hc. unfold started. constructor.
  8: { intros (plan & -> & _ & Hi)%Hs. split; [done|]. eexists. split; [done|].
       cbn. rewrite Nat2Z.id. split; [lia|done]. }
  7: { by intros n ->%Hu. }
  all: destruct (networkSchedule cfg); try done; cbn; auto; lia.
Qed.

Lemma idle_eff s s' : idle s s' → eff s' = eff s.
Proof. by intros [->|[l ->]]. Qed.

Lemma idle_consistent s s' : idle s s' → consistent s → consistent s'.
Proof. intros [->|[l ->]]; [done|]. intros []. by constructor. Qed.

(** A committed preparation is consistent again. *)
Lemma applied_consistent env r s p s1 :
  consistent s → failed s = false → prepared s = Some p → sameProfileUpdate (request p) r = true →
  (eff s).2 < ProfileUpdateRequest.Revision r →
  applyParts cfg env r (eff s).1 (config p) s = (Ok tt, s1) →
  consistent
    (committed (mkApplied (config p) (ProfileUpdateRequest.Revision r) (now env)
                  (profileStatusSnapshot cfg (config p)))
       (if RuntimeProfilePatch.HasAttacks (ProfileUpdateRequest.Set_ r)
        then withPolicy (NodeConfig.WithDefaults (config p), ProfileUpdateRequest.Revision r) s1
        else s1)).
Proof.
  intros [] Hf Hp Hsame Hrev Hparts.
  destruct (i_prepared0 p Hp Hf) as (_ & _ & Hadmit). pose proof Hadmit as Hadmit'.
  apply admit_ok in Hadmit as (_ & _ & Happly & Hrole & _).
  pose proof (applyParts_frame env r (eff s).1 (config p) s) as (F1 & F2 & F3 & F4 & F5 & F6).
  apply applyParts_ok in Hparts as Hok. rewrite Hparts in F1, F2, F3, F4, F5, F6. cbn [snd] in *.
  cbv zeta in Hok. destruct Hok as [Hn Hg].
  destruct (same_nil _ _ Hsame) as (_ & _ & _ & _ & Eg & En).
  pose proof (same_HasAttacks _ _ Hsame) as Ea. pose proof (same_revision _ _ Hsame) as Er.
  pose proof (proj1 (Apply_ok _ _ _ _) Happly) as (_ & _ & _ & _ & Hpatched & Hvalid).
  set (a := mkApplied _ _ _ _).
  assert (∀ s2, eff (committed a s2) = (config p, ProfileUpdateRequest.Revision r)) as He by done.
  rewrite <- En, <- Eg in *. rewrite <- Ea. constructor; rewrite ?He; cbn [fst snd].
  - done.
  - done.
  - rewrite Hpatched. unfold gossipOf. rewrite patched_defaults, patched_gossip. done.
  - lia.
  - by destruct (RuntimeProfilePatch.HasAttacks _).
  - intros l Hl. assert (l = p) as ->.
    { destruct (RuntimeProfilePatch.HasAttacks _); cbn in Hl; congruence. }
    exists (eff s).1. split; [done|]. by rewrite Er.
  - intros n Hsch Hnet _. assert (networkApplied s1 = Some n) as Hnet'
      by (by destruct (RuntimeProfilePatch.HasAttacks _)). rewrite Hn in Hnet'.
    destruct (RuntimeProfilePatch.Network (ProfileUpdateRequest.Set_ (request p))) eqn:Hset;
      cbn [isNil Attacks.present negb] in Hnet'; [by injection Hnet' as <-|].
    rewrite Hpatched, patched_same_network by done. by apply i_network0.
  - intros Hsch. destruct (i_scheduled0 Hsch) as [Hsame' Hin].
    assert (Scheduled (NodeConfig.Network (eff s).1) = true) as Hsch' by (by rewrite Hsame').
    destruct (admit_scheduled _ _ _ Hadmit' Hsch') as [Hnone Hkeep].
    rewrite Hnone in Hn. cbn [isNil Attacks.present negb] in Hn. unfold scheduledState.
    rewrite He. cbn [fst]. rewrite Hkeep. split; [done|].
    by destruct (RuntimeProfilePatch.HasAttacks _); cbn; rewrite Hn.
  - intros Hr _. replace (params _) with (params s1) by (by destruct (RuntimeProfilePatch.HasAttacks _)).
    unfold gossipOf. rewrite Hpatched, patched_defaults, <- Hpatched.
    destruct (RuntimeProfilePatch.GossipSub (ProfileUpdateRequest.Set_ (request p))) eqn:Hset;
      cbn [isNil Attacks.present negb] in Hg; [done|]. rewrite Hg, Hpatched, patched_same_params by done.
    by apply i_params0.
  - rewrite Hpatched, patched_defaults, <- Hpatched.
    destruct (RuntimeProfilePatch.HasAttacks (ProfileUpdateRequest.Set_ (request p))) eqn:Hset; cbn.
    + done.
    + rewrite F5, i_policy0, Hpatched. by rewrite patched_same_attacks.
Qed.

Lemma active_needs_router c :
  accepted c = Ok tt → NodeConfig.WithDefaults c = c → selectsPublishers c ≠ None →
  isTrue (GossipSubConfig.Enabled (NodeConfig.GossipSub c)) = true ∧
  NodeConfig.isGossipRouter (NodeConfig.GossipSub c) = true.
Proof.
  intros Hv Hd Hs.
  assert (Attacks.HasActiveAttacks (NodeConfig.attacks c) = true) as Hactive.
  { unfold selectsPublishers in Hs. destruct (Attacks.Censorship (NodeConfig.attacks c)) as [ce|]; [|done].
    cbn in Hs. destruct (CensorshipConfig.Publishers ce); [|done]. cbn in Hs.
    unfold Attacks.HasActiveAttacks. destruct (Attacks.censorshipActive _); [|done].
    by rewrite !orb_true_r. }
  pose proof (accepted_attacks ParseFloat c Hv Hd) as Ha. unfold Attacks.ValidateAttacks in Ha.
  rewrite !seq_ok in Ha. destruct Ha as (_ & _ & _ & _ & _ & _ & _ & _ & _ & _ & _ & Hr).
  assert (Attacks.defaultAttacks (NodeConfig.attacks c) = NodeConfig.attacks c) as Ed
    by (rewrite <- Hd; apply defaultAttacks_idemp).
  rewrite Ed in Hr. unfold Attacks.effectiveRouter in Hr. rewrite Hactive, fail_if_seq_ok in Hr.
  destruct Hr as [Hr _]. rewrite orb_false_iff, !negb_false_iff in Hr. exact Hr.
Qed.


(** ** Reachable states *)
Context (p0 : GossipSubRuntimeParams.t) (Hcreated : created p0).

Lemma consistent_usable r s : consistent s → usable r s.
Proof.
  intros []. split.
  - intros u (_ & _ & Ha & _)%admit_ok Hsel. destruct Hcreated.
    apply Apply_ok in Ha as (_ & _ & _ & _ & Hpatched & Hvalid).
    destruct (active_needs_router u) as [He Hr]; [done|by rewrite Hpatched; apply patched_defaults|done|].
    rewrite Hpatched, patched_gossip in He, Hr. fold (gossipOf (eff s).1) in He, Hr.
    rewrite c_attacks0, c_router0, c_pubsub0. destruct i_router0 as [<- Erouter].
    unfold NodeConfig.isGossipRouter in *. rewrite <- Erouter.
    apply andb_true_iff. split; [exact He|exact Hr].
  - intros p Hp Hf. destruct (i_prepared0 p Hp Hf) as (_ & _ & Ha).
    apply admit_ok in Ha as (_ & _ & Ha & _). apply Apply_ok in Ha as (_ & _ & _ & _ & -> & _).
    apply ofConfig_total. apply patched_params_default.
Qed.

Lemma withPrepared_consistent r u s :
  consistent s → (eff s).2 < ProfileUpdateRequest.Revision r →
  admitUpdate ParseFloat cfg r (eff s).1 = Ok u → ProfileUpdateRequest.Stage r = "prepare"%string →
  consistent (withPrepared (Some (mkPrepared r u)) s).
Proof.
  intros [] Hr Ha Hs. constructor; try done. cbn. intros p [= <-] _. done.
Qed.

Lemma outcome_consistent env r s o s' : consistent s → outcome env r s o s' → consistent s'.
Proof.
  intros Hs E. destruct E as [e s' Hidle|l|u s1 Hv Hf Hr Ha Hst Hidle|e p s' Hf Hr Hst Hp Hsame He Hf' Hp' Hl' Hpol Hnet
    |p s1 u Hv Hf Hr Ha Hst Hp Hsame Hparts].
  - by eapply idle_consistent.
  - done.
  - apply withPrepared_consistent; [by eapply idle_consistent| | |done]; by rewrite (idle_eff _ _ Hidle).
  - destruct Hs. constructor; unfold scheduledState; rewrite ?He, ?Hl', ?Hpol; try done; try congruence.
    intros Hsch. destruct (i_scheduled0 Hsch) as [Hsame' Hin]. rewrite Hnet; [done|by rewrite Hsame'].
  - by eapply applied_consistent.
Qed.

Lemma exec_consistent env r s : consistent s → consistent (exec env r s).2.
Proof.
  intros Hs. destruct (exec env r s) as [o s'] eqn:E.
  by eapply outcome_consistent, exec_outcome, E; [|apply consistent_usable].
Qed.

(** What the schedule's goroutine still installs continues the states in force. *)
Definition pending (todo : list PeerNetwork.applied) (s : State) : Prop :=
  todo = [] ∨
  ∃ plan n, networkSchedule cfg = Some plan ∧ networkApplied s = Some n ∧
    chain (steps plan) (networkConfig n) (Z.to_nat (networkRevision n)) todo.

Lemma started_pending now clock canceled ok :
  pending (scheduledChanges cfg clock canceled ok) (started cfg now p0).
Proof.
  unfold pending, scheduledChanges, started. destruct (networkSchedule cfg) as [plan|]; [right|by left].
  pose proof (runNetworkSchedule_chain clock canceled ok plan) as Hc.
  destruct (runNetworkSchedule _ _ _ _ plan). destruct Hc as (_ & Hc & _).
  do 2 eexists. split_and!; [done..|]. cbn. by rewrite Nat2Z.id.
Qed.

Lemma exec_network env r s :
  consistent s → networkSchedule cfg ≠ None → networkApplied (exec env r s).2 = networkApplied s.
Proof.
  intros Hs Hplan. destruct (exec env r s) as [o s'] eqn:E.
  apply exec_outcome in E as Ho; [|by apply consistent_usable].
  assert (Scheduled network = true) as Hsch.
  { destruct (Scheduled network) eqn:Hsch; [done|]. by destruct Hplan; eapply unscheduled. }
  destruct Hs. destruct (i_scheduled0 Hsch) as [Hsame _]. rewrite <- Hsame in Hsch.
  destruct Ho as [e s' Hidle|l|u s1 Hv Hf Hr Ha Hst Hidle|e p s' Hf Hr Hst Hp Heq He Hf' Hp' Hl' Hpol Hnet
    |p s1 u Hv Hf Hr Ha Hst Hp Heq Hparts]; cbn [snd].
  - by destruct Hidle as [->|[? ->]].
  - done.
  - by destruct Hidle as [->|[? ->]].
  - by apply Hnet.
  - destruct (admit_scheduled _ _ _ Ha Hsch) as [Hnil _].
    pose proof (applyParts_network env r (eff s).1 (config p) s Hnil) as Hn.
    rewrite Hparts in Hn. by destruct (RuntimeProfilePatch.HasAttacks _).
Qed.

Lemma schedule_consistent change todo s now :
  consistent s → pending (change :: todo) s →
  let s' := recordNetworkApplied (to change) (revision change) now s in
  consistent s' ∧ pending todo s'.
Proof.
  intros [] [?|(plan & n & Hplan & Hn & _ & Hlt & (st & Hst & <-) & Hrest)]; [done|]. cbv zeta.
  assert (Scheduled network = true) as Hsch.
  { destruct (Scheduled network) eqn:Hsch; [done|]. by rewrite (unscheduled _ Hcreated Hsch) in Hplan. }
  split.
  - constructor; try done; [congruence|]. intros _. destruct (i_scheduled0 Hsch) as [Hsame _].
    split; [done|]. eexists. split; [done|]. cbn. rewrite Nat2Z.id. split; [lia|].
    destruct (scheduled _ Hcreated Hsch) as (plan' & Hplan' & <- & _). simplify_eq.
    destruct (revision change) as [|k]; [lia|]. cbn in Hst |- *. rewrite Nat.sub_0_r in Hst.
    by apply lookup_states.
  - right. do 2 eexists. split_and!; [done..|]. cbn. by rewrite Nat2Z.id.
Qed.

Lemma runs_consistent todo s : runs ParseFloat cfg p0 todo s → consistent s ∧ pending todo s.
Proof.
  induction 1 as [now clock canceled ok|todo s env r _ [Hs Hp]|change todo s now _ [Hs Hp]].
  - split; [by apply started_consistent|apply started_pending].
  - split; [by apply exec_consistent|].
    destruct Hp as [->|(plan & n & Hplan & Hn & Hc)]; [by left|right].
    exists plan, n. split_and!; [done| |done]. rewrite <- Hn. apply exec_network; [done|by rewrite Hplan].
  - by apply schedule_consistent.
Qed.

Lemma reachable_consistent s : reachable ParseFloat cfg p0 s → consistent s.
Proof. intros [todo Hs]. by eapply runs_consistent. Qed.

Lemma reachable_outcome s env r :
  reachable ParseFloat cfg p0 s → outcome env r s (exec env r s).1 (exec env r s).2.
Proof.
  intros Hs. apply exec_outcome; [|by destruct (exec env r s)].
  by apply consistent_usable, reachable_consistent.
Qed.
End peer.

(** ** The protocol *)
Section protocol.
Context `{PeerCodecLaws} `{CIDRs} `{PubSubLib} (ParseFloat : string → option float) (cfg : Config).
Context (p0 : GossipSubRuntimeParams.t) (Hcreated : created ParseFloat cfg p0).


(** C15: an application commits exactly what was prepared.  When a Peer acknowledges
    [apply] for a revision above its own, it had prepared an equal request against
    the same effective configuration; the configuration it commits is the one the
    preparation computed, the acknowledgement repeats the prepared values, the
    revision is the request's, and the preparation is used up. *)
Theorem apply_commits_prepared s env r response s' :
  reachable ParseFloat cfg p0 s → ProfileUpdateRequest.Stage r = "apply"%string →
  (effective cfg s).2 < ProfileUpdateRequest.Revision r →
  executeProfileUpdate ParseFloat cfg env r s = (Ok response, s') →
  ∃ p, prepared s = Some p ∧ sameProfileUpdate (request p) r = true ∧
    ProfileUpdateRequest.Stage (request p) = "prepare"%string ∧
    RuntimeProfilePatch.Apply ParseFloat (ProfileUpdateRequest.Set_ (request p))
      (effective cfg s).1 = Ok (config p) ∧
    effective cfg s' = (config p, ProfileUpdateRequest.Revision r) ∧
    ProfileUpdateResponse.Effective response =
      ProfileUpdateResponse.Effective (respond cfg (request p) (config p)) ∧
    prepared s' = None ∧ failed s' = false.
Proof.
  intros Hs Hst Hr E. pose proof (reachable_outcome _ _ _ Hcreated s env r Hs) as Ho.
  pose proof (reachable_consistent _ _ _ Hcreated _ Hs) as []. rewrite E in Ho. cbn [fst snd] in Ho.
  clear E. remember (Ok response) as o eqn:Eo.
  destruct Ho as [|l|u s1|e p ? ? ? ? ? ? ? ? ?|p s1 u Hv Hf _ Ha _ Hp Hsame Hparts]; try congruence;
    [lia|]. injection Eo as <-.
  destruct (i_prepared0 p Hp Hf) as (_ & Hstage & Hadmit).
  apply admit_ok in Hadmit as (_ & _ & Happly & _).
  pose proof (applyParts_frame cfg env r (effective cfg s).1 (config p) s) as (_ & _ & F3 & _).
  rewrite Hparts in F3. cbn in F3.
  exists p. split_and!; try done.
  - cbn. by rewrite (same_snapshot _ _ _ Hsame).
  - destruct (RuntimeProfilePatch.HasAttacks _); cbn; congruence.
Qed.

(** A refused or failed request, and any preparation, leaves the effective
    configuration and its revision as they were; a preparation also leaves the
    network conditions, the router's parameters and the attack policy alone, and
    once an application failed half-way every later request is refused. *)
Theorem only_apply_changes s env r :
  reachable ParseFloat cfg p0 s →
  let '(result, s') := executeProfileUpdate ParseFloat cfg env r s in
  (is_ok result = false ∨ ProfileUpdateRequest.Stage r = "prepare"%string →
     effective cfg s' = effective cfg s) ∧
  (ProfileUpdateRequest.Stage r = "prepare"%string →
     networkApplied s' = networkApplied s ∧ params s' = params s ∧ policy s' = policy s ∧
     failed s' = failed s) ∧
  (failed s = true → is_ok result = false ∧ failed s' = true).
Proof.
  intros Hs. pose proof (reachable_outcome _ _ _ Hcreated s env r Hs) as Ho.
  pose proof (reachable_consistent _ _ _ Hcreated _ Hs) as [].
  destruct (executeProfileUpdate ParseFloat cfg env r s) as [o s']. cbn [fst snd] in Ho.
  destruct Ho as [e s' Hidle|l|u s1 ? ? ? ? ? Hidle|e p s' Hf Hr Hst Hp Hsame He Hf' Hp' Hl' Hpol Hnet|p s1 u Hv Hf ? Ha Hst Hp Hsame Hparts].
  - destruct Hidle as [->|[? ->]]; done.
  - split_and!; [done..|congruence].
  - destruct Hidle as [->|[? ->]]; split_and!; done || congruence.
  - split_and!; try done; congruence.
  - split_and!; [intros [?|?]; [done|congruence]|congruence|congruence].
Qed.

(** An acknowledged application can be repeated.  A Peer that applied a request
    answers the same request, in either stage, by a second acknowledgement of the
    same values without changing anything, so the Controller may retry after a lost
    reply. *)
Theorem acknowledged_retry s env r response s' env' r' :
  reachable ParseFloat cfg p0 s → ProfileUpdateRequest.Stage r = "apply"%string →
  executeProfileUpdate ParseFloat cfg env r s = (Ok response, s') →
  r' = ProfileUpdateRequest.mk (ProfileUpdateRequest.RunID r) (ProfileUpdateRequest.Generation r)
         (ProfileUpdateRequest.Revision r) (ProfileUpdateRequest.Stage r')
         (ProfileUpdateRequest.Set_ r) →
  ProfileUpdateRequest.Stage r' ∈ ["prepare";"apply"]%string → acquire env' = None →
  ∃ response', executeProfileUpdate ParseFloat cfg env' r' s' = (Ok response', s') ∧
    ProfileUpdateResponse.Effective response' = ProfileUpdateResponse.Effective response ∧
    ProfileUpdateResponse.Revision response' = ProfileUpdateResponse.Revision response.
Proof.
  intros Hs Hst E Hr' Hstage Hacq. pose proof (reachable_outcome _ _ _ Hcreated s env r Hs) as Ho.
  rewrite E in Ho. cbn [fst snd] in Ho. clear E.
  assert (∀ l, last s' = Some l → sameProfileUpdate (request l) r = true → failed s' = false →
    ProfileUpdateRequest.Revision r ≤ (effective cfg s').2 →
    ProfileUpdateRequest.Validate ParseFloat r = Ok tt →
    executeProfileUpdate ParseFloat cfg env' r' s' = (Ok (respond cfg r' (effective cfg s').1), s')) as Hreplay.
  { intros l Hl Hsame Hf Hrev Hv. unfold executeProfileUpdate.
    assert (ProfileUpdateRequest.Validate ParseFloat r' = Ok tt) as Hv'.
    { unfold ProfileUpdateRequest.Validate in *. rewrite Hr'. rewrite fail_if_seq_ok in *. cbn -[oneOf] in *.
      destruct Hv as [Hv ?]. split; [|done]. rewrite !orb_false_iff in *. destruct Hv as [? _].
      split; [done|]. unfold oneOf. by rewrite bool_decide_eq_true_2. }
    assert (sameProfileUpdate (request l) r' = true) as Hsame' by (by rewrite Hr').
    unfold mbind, gom_bind, lift_res, get. rewrite Hv', Hacq, Hf. cbn [failWith fail_if].
    destruct (effective cfg s') as [c rev]. cbn [fst snd] in *.
    rewrite (proj2 (Z.leb_le _ _)) by (by rewrite Hr'). by rewrite Hl, Hsame'. }
  remember (Ok response) as o eqn:Eo.
  destruct Ho as [|l Hv Hf Hrev Hl Hsame|u s1|e p ? ? ? ? ? ? ? ? ?|p s1 u Hv Hf _ Ha _ Hp Hsame Hparts];
    try congruence; injection Eo as <-; eexists.
  - split; [by apply (Hreplay l)|]. cbn. by rewrite Hr'.
  - pose proof (applyParts_frame cfg env r (effective cfg s).1 (config p) s) as (F1 & _ & F3 & _).
    rewrite Hparts in F1, F3. cbn [snd] in F1, F3.
    split; [apply (Hreplay p); try done|].
    + destruct (RuntimeProfilePatch.HasAttacks _); cbn; congruence.
    + destruct (RuntimeProfilePatch.HasAttacks _); cbn; congruence.
    + cbn. by rewrite Hr'.
Qed.
End protocol.

Module PeerProfileExamples.
Import ProfileExamples.
#[local] Existing Instances codec codecLaws cidrs pubsubLib.

(** The worker of [ProfileExamples], told to prepare and apply its patch. *)
Definition peer : Config :=
  mkConfig "node-1" "peer-1" "run" 1 "worker" worker 0 true true true true None.
Definition initialParams : GossipSubRuntimeParams.t :=
  GossipSubRuntimeParams.mk 8 5 12 4 2 6 GossipSubParamsConfig.quarter F64.one 1.
Definition quiet : Env := mkEnv None (inr []) None (λ _ _ _, None) (ran None) 100.
Definition update (stage : string) : ProfileUpdateRequest.t :=
  ProfileUpdateRequest.mk "run" 1 1 stage patch.

Lemma peer_created : created parse peer initialParams.
Proof.
  constructor; try (by vm_compute). exists None, 0, None, (λ _, 0). vm_compute. reflexivity.
Qed.

Definition ready : State := started peer 0 initialParams.
Definition run (r : ProfileUpdateRequest.t) (s : State) : State :=
  (executeProfileUpdate parse peer quiet r s).2.
Definition preparedPeer : State := run (update "prepare") ready.
Definition appliedPeer : State := run (update "apply") preparedPeer.

Lemma reach_ready : reachable parse peer initialParams ready.
Proof. exists []. exact (run_start _ _ _ 0 (λ _, 0) (λ _, false) (λ _ _, true)). Qed.
Lemma reach_prepared : reachable parse peer initialParams preparedPeer.
Proof. destruct reach_ready as [todo Hs]. exists todo. by apply run_update. Qed.

Definition answered : ProfileUpdateResponse.t := respond peer (update "apply") (patched patch worker).
Lemma apply_answered :
  executeProfileUpdate parse peer quiet (update "apply") preparedPeer = (Ok answered, appliedPeer).
Proof. vm_compute. reflexivity. Qed.

(** The same worker on a link whose delay changes a second after it joined. *)
Definition declared : NetworkConfig :=
  with_schedule
    (Some (mkSchedule "" [mkChange "1s" (mkNetwork None "" "30ms" None "" "" None None None None None
                                           None None None)]))
    (NodeConfig.Network worker).
Definition plan : option peerNetworkSchedule :=
  match newPeerNetworkSchedule parse declared None 0 None (λ _, 0) with Ok p => p | _ => None end.


(** The change is installed at its time. *)
Definition change : PeerNetwork.applied :=
  PeerNetwork.mkApplied 1 (Initial declared)
    (Merge (Initial declared) (mkNetwork None "" "30ms" None "" "" None None None None None None None
                                 None)) 3.




Lemma older_revision : (effective peer preparedPeer).2 < ProfileUpdateRequest.Revision (update "apply").
Proof. by vm_compute. Qed.

Lemma apply_commits_prepared_witness :
  ∃ p, prepared preparedPeer = Some p ∧
    effective peer appliedPeer = (config p, 1) ∧ prepared appliedPeer = None.
Proof.
  destruct (apply_commits_prepared parse peer initialParams peer_created preparedPeer quiet
    (update "apply") answered appliedPeer reach_prepared eq_refl older_revision apply_answered)
    as (p & Hp & _ & _ & _ & He & _ & Hn & _).
  exact (ex_intro _ p (conj Hp (conj He Hn))).
Defined.

Lemma only_apply_changes_witness :
  effective peer preparedPeer = effective peer ready ∧ params preparedPeer = params ready.
Proof.
  pose proof (only_apply_changes parse peer initialParams peer_created ready quiet (update "prepare")
                reach_ready) as Hsame.
  unfold preparedPeer, run. destruct (executeProfileUpdate parse peer quiet (update "prepare") ready).
  destruct Hsame as (He & Hp & _). split; [exact (He (or_intror eq_refl))|].
  exact (proj1 (proj2 (Hp eq_refl))).
Defined.

Lemma stage_known : ProfileUpdateRequest.Stage (update "prepare") ∈ ["prepare";"apply"]%string.
Proof. set_solver. Qed.

Lemma acknowledged_retry_witness :
  ∃ response', executeProfileUpdate parse peer quiet (update "prepare") appliedPeer =
      (Ok response', appliedPeer) ∧
    ProfileUpdateResponse.Effective response' = ProfileUpdateResponse.Effective answered ∧
    ProfileUpdateResponse.Revision response' = ProfileUpdateResponse.Revision answered.
Proof.
  exact (acknowledged_retry parse peer initialParams peer_created preparedPeer quiet (update "apply")
    answered appliedPeer quiet (update "prepare") reach_prepared eq_refl apply_answered eq_refl
    stage_known eq_refl).
Defined.
End PeerProfileExamples.
