(* ===== verification/Scenario.v ===== *)
(** * Scenarios

    [internal/scenario]: the declaration of an experiment and its validation
    ([scenario.go], [attacks.go], [topology_validation.go],
    [profile_schedule.go]): defaults and aliases, the static accounting of
    background jobs, the resolution of every join's node configuration and the
    checks across the phases of a generation (the phases between two [stop-all]).

    [Validate] completes the scenario in place; here it returns the completed
    scenario.  The YAML decoder is not modelled: validation starts from its
    result. *)
From Stdlib Require Import ZArith Lia.
From stdpp Require Import strings list gmap sorting pretty.
From S2P Require Import Prelude.
From S2P Require Import GoStd.
From S2P Require Import GoStrings.
From S2P Require Import Topology.
From S2P Require Import Distribution.
From S2P Require Import Network.
From S2P Require Import Attacks.
From S2P Require Import PeerScore.
From S2P Require Import GossipSubConfig.
From S2P Require Import KademliaConfig.
From S2P Require Import NodeConfig.
From S2P Require Import ProfileSchedule.
Open Scope Z_scope.

(** [model.MaxPublishPayloadBytes] *)
Definition MaxPublishPayloadBytes : Z := Z.shiftl 16 20.

(** [reflect.DeepEqual(c, model.NodeConfig{})]: every field is zero. *)
Definition isZeroNode (c : NodeConfig.t) : bool :=
  match c with
  | NodeConfig.mk (Attacks.mk None None None None None None None None None) "" None 0 0 0 0 0 "" 0
      (Libp2pConfig.mk "" None None None None None "")
      (KademliaConfig.mk None "" "" "" "" None None None None "" "" "" "" None None None None None
         "" "" None None None None "" None "" None None "")
      (GossipSubConfig.mk "" None None None None None "" None "" None None None None None None None
         "" None None "" None None None None None
         (GossipSubParamsConfig.mk None None None None None None None None None None "" "" None ""
            None "" "" None None "" None "" None None "" None None None None "" None None None None)
         None "" None None None None "" "" None None None None)
      (mkNetwork None "" "" None "" "" None None None None None None None None) => true
  | _ => false
  end.

Module Phase.
Record t := mk {
  Name : string; Job : string; Jobs : slice string; Action : string; OnError : string; AgentID
  : string; Placement : string; Group : string; NodeIDs : slice string; PeerIDs : slice
  string; Role : string; Profile : string; NodeType : string; Count : Z; Repeat : Z; Parallel
  : bool; Parallelism : Z; Await : option bool; Duration : string; Timeout : string; Message :
  string; ReadyRatio : float; MinCount : Z; PayloadSize : Z; PayloadEncoding : string;
  DeliveryWindow : string; Topic : string; Topology : option TopologyConfig; Schedule : option
  ProfileSchedule.t; NetworkMutable : bool; Interval : Distribution; Lifetime : Distribution;
  Node : NodeConfig.t }.

(** Assignments to one field. *)
Definition withName (v : string) (p : t) : t :=
  mk v (Job p) (Jobs p) (Action p) (OnError p) (AgentID p) (Placement p) (Group p) (NodeIDs p)
    (PeerIDs p) (Role p) (Profile p) (NodeType p) (Count p) (Repeat p) (Parallel p) (Parallelism
    p) (Await p) (Duration p) (Timeout p) (Message p) (ReadyRatio p) (MinCount p) (PayloadSize
    p) (PayloadEncoding p) (DeliveryWindow p) (Topic p) (Topology p) (Schedule p)
    (NetworkMutable p) (Interval p) (Lifetime p) (Node p).
Definition withJob (v : string) (p : t) : t :=
  mk (Name p) v (Jobs p) (Action p) (OnError p) (AgentID p) (Placement p) (Group p) (NodeIDs
    p) (PeerIDs p) (Role p) (Profile p) (NodeType p) (Count p) (Repeat p) (Parallel p)
    (Parallelism p) (Await p) (Duration p) (Timeout p) (Message p) (ReadyRatio p) (MinCount p)
    (PayloadSize p) (PayloadEncoding p) (DeliveryWindow p) (Topic p) (Topology p) (Schedule p)
    (NetworkMutable p) (Interval p) (Lifetime p) (Node p).
Definition withAction (v : string) (p : t) : t :=
  mk (Name p) (Job p) (Jobs p) v (OnError p) (AgentID p) (Placement p) (Group p) (NodeIDs p)
    (PeerIDs p) (Role p) (Profile p) (NodeType p) (Count p) (Repeat p) (Parallel p) (Parallelism
    p) (Await p) (Duration p) (Timeout p) (Message p) (ReadyRatio p) (MinCount p) (PayloadSize
    p) (PayloadEncoding p) (DeliveryWindow p) (Topic p) (Topology p) (Schedule p)
    (NetworkMutable p) (Interval p) (Lifetime p) (Node p).
Definition withOnError (v : string) (p : t) : t :=
  mk (Name p) (Job p) (Jobs p) (Action p) v (AgentID p) (Placement p) (Group p) (NodeIDs p)
    (PeerIDs p) (Role p) (Profile p) (NodeType p) (Count p) (Repeat p) (Parallel p) (Parallelism
    p) (Await p) (Duration p) (Timeout p) (Message p) (ReadyRatio p) (MinCount p) (PayloadSize
    p) (PayloadEncoding p) (DeliveryWindow p) (Topic p) (Topology p) (Schedule p)
    (NetworkMutable p) (Interval p) (Lifetime p) (Node p).
Definition withPlacement (v : string) (p : t) : t :=
  mk (Name p) (Job p) (Jobs p) (Action p) (OnError p) (AgentID p) v (Group p) (NodeIDs p)
    (PeerIDs p) (Role p) (Profile p) (NodeType p) (Count p) (Repeat p) (Parallel p) (Parallelism
    p) (Await p) (Duration p) (Timeout p) (Message p) (ReadyRatio p) (MinCount p) (PayloadSize
    p) (PayloadEncoding p) (DeliveryWindow p) (Topic p) (Topology p) (Schedule p)
    (NetworkMutable p) (Interval p) (Lifetime p) (Node p).
Definition withGroup (v : string) (p : t) : t :=
  mk (Name p) (Job p) (Jobs p) (Action p) (OnError p) (AgentID p) (Placement p) v (NodeIDs p)
    (PeerIDs p) (Role p) (Profile p) (NodeType p) (Count p) (Repeat p) (Parallel p) (Parallelism
    p) (Await p) (Duration p) (Timeout p) (Message p) (ReadyRatio p) (MinCount p) (PayloadSize
    p) (PayloadEncoding p) (DeliveryWindow p) (Topic p) (Topology p) (Schedule p)
    (NetworkMutable p) (Interval p) (Lifetime p) (Node p).
Definition withRole (v : string) (p : t) : t :=
  mk (Name p) (Job p) (Jobs p) (Action p) (OnError p) (AgentID p) (Placement p) (Group p)
    (NodeIDs p) (PeerIDs p) v (Profile p) (NodeType p) (Count p) (Repeat p) (Parallel p)
    (Parallelism p) (Await p) (Duration p) (Timeout p) (Message p) (ReadyRatio p) (MinCount p)
    (PayloadSize p) (PayloadEncoding p) (DeliveryWindow p) (Topic p) (Topology p) (Schedule p)
    (NetworkMutable p) (Interval p) (Lifetime p) (Node p).
Definition withProfile (v : string) (p : t) : t :=
  mk (Name p) (Job p) (Jobs p) (Action p) (OnError p) (AgentID p) (Placement p) (Group p)
    (NodeIDs p) (PeerIDs p) (Role p) v (NodeType p) (Count p) (Repeat p) (Parallel p)
    (Parallelism p) (Await p) (Duration p) (Timeout p) (Message p) (ReadyRatio p) (MinCount p)
    (PayloadSize p) (PayloadEncoding p) (DeliveryWindow p) (Topic p) (Topology p) (Schedule p)
    (NetworkMutable p) (Interval p) (Lifetime p) (Node p).
Definition withNodeType (v : string) (p : t) : t :=
  mk (Name p) (Job p) (Jobs p) (Action p) (OnError p) (AgentID p) (Placement p) (Group p)
    (NodeIDs p) (PeerIDs p) (Role p) (Profile p) v (Count p) (Repeat p) (Parallel p)
    (Parallelism p) (Await p) (Duration p) (Timeout p) (Message p) (ReadyRatio p) (MinCount p)
    (PayloadSize p) (PayloadEncoding p) (DeliveryWindow p) (Topic p) (Topology p) (Schedule p)
    (NetworkMutable p) (Interval p) (Lifetime p) (Node p).
Definition withRepeat (v : Z) (p : t) : t :=
  mk (Name p) (Job p) (Jobs p) (Action p) (OnError p) (AgentID p) (Placement p) (Group p)
    (NodeIDs p) (PeerIDs p) (Role p) (Profile p) (NodeType p) (Count p) v (Parallel p)
    (Parallelism p) (Await p) (Duration p) (Timeout p) (Message p) (ReadyRatio p) (MinCount p)
    (PayloadSize p) (PayloadEncoding p) (DeliveryWindow p) (Topic p) (Topology p) (Schedule p)
    (NetworkMutable p) (Interval p) (Lifetime p) (Node p).
Definition withReadyRatio (v : float) (p : t) : t :=
  mk (Name p) (Job p) (Jobs p) (Action p) (OnError p) (AgentID p) (Placement p) (Group p)
    (NodeIDs p) (PeerIDs p) (Role p) (Profile p) (NodeType p) (Count p) (Repeat p) (Parallel p)
    (Parallelism p) (Await p) (Duration p) (Timeout p) (Message p) v (MinCount p) (PayloadSize
    p) (PayloadEncoding p) (DeliveryWindow p) (Topic p) (Topology p) (Schedule p)
    (NetworkMutable p) (Interval p) (Lifetime p) (Node p).
Definition withTimeout (v : string) (p : t) : t :=
  mk (Name p) (Job p) (Jobs p) (Action p) (OnError p) (AgentID p) (Placement p) (Group p)
    (NodeIDs p) (PeerIDs p) (Role p) (Profile p) (NodeType p) (Count p) (Repeat p) (Parallel p)
    (Parallelism p) (Await p) (Duration p) v (Message p) (ReadyRatio p) (MinCount p)
    (PayloadSize p) (PayloadEncoding p) (DeliveryWindow p) (Topic p) (Topology p) (Schedule p)
    (NetworkMutable p) (Interval p) (Lifetime p) (Node p).
Definition withDeliveryWindow (v : string) (p : t) : t :=
  mk (Name p) (Job p) (Jobs p) (Action p) (OnError p) (AgentID p) (Placement p) (Group p)
    (NodeIDs p) (PeerIDs p) (Role p) (Profile p) (NodeType p) (Count p) (Repeat p) (Parallel p)
    (Parallelism p) (Await p) (Duration p) (Timeout p) (Message p) (ReadyRatio p) (MinCount p)
    (PayloadSize p) (PayloadEncoding p) v (Topic p) (Topology p) (Schedule p) (NetworkMutable p)
    (Interval p) (Lifetime p) (Node p).
Definition withPayloadEncoding (v : string) (p : t) : t :=
  mk (Name p) (Job p) (Jobs p) (Action p) (OnError p) (AgentID p) (Placement p) (Group p)
    (NodeIDs p) (PeerIDs p) (Role p) (Profile p) (NodeType p) (Count p) (Repeat p) (Parallel p)
    (Parallelism p) (Await p) (Duration p) (Timeout p) (Message p) (ReadyRatio p) (MinCount p)
    (PayloadSize p) v (DeliveryWindow p) (Topic p) (Topology p) (Schedule p) (NetworkMutable p)
    (Interval p) (Lifetime p) (Node p).
Definition withPayloadSize (v : Z) (p : t) : t :=
  mk (Name p) (Job p) (Jobs p) (Action p) (OnError p) (AgentID p) (Placement p) (Group p)
    (NodeIDs p) (PeerIDs p) (Role p) (Profile p) (NodeType p) (Count p) (Repeat p) (Parallel p)
    (Parallelism p) (Await p) (Duration p) (Timeout p) (Message p) (ReadyRatio p) (MinCount p) v
    (PayloadEncoding p) (DeliveryWindow p) (Topic p) (Topology p) (Schedule p) (NetworkMutable
    p) (Interval p) (Lifetime p) (Node p).
Definition withNetworkMutable (v : bool) (p : t) : t :=
  mk (Name p) (Job p) (Jobs p) (Action p) (OnError p) (AgentID p) (Placement p) (Group p)
    (NodeIDs p) (PeerIDs p) (Role p) (Profile p) (NodeType p) (Count p) (Repeat p) (Parallel p)
    (Parallelism p) (Await p) (Duration p) (Timeout p) (Message p) (ReadyRatio p) (MinCount p)
    (PayloadSize p) (PayloadEncoding p) (DeliveryWindow p) (Topic p) (Topology p) (Schedule p) v
    (Interval p) (Lifetime p) (Node p).
Definition withNode (v : NodeConfig.t) (p : t) : t :=
  mk (Name p) (Job p) (Jobs p) (Action p) (OnError p) (AgentID p) (Placement p) (Group p)
    (NodeIDs p) (PeerIDs p) (Role p) (Profile p) (NodeType p) (Count p) (Repeat p) (Parallel p)
    (Parallelism p) (Await p) (Duration p) (Timeout p) (Message p) (ReadyRatio p) (MinCount p)
    (PayloadSize p) (PayloadEncoding p) (DeliveryWindow p) (Topic p) (Topology p) (Schedule p)
    (NetworkMutable p) (Interval p) (Lifetime p) v.

Definition ShouldAwait (p : t) : bool := match Await p with Some a => a | None => true end.

(** [MatchesProfile] *)
Definition anyOr (selector value : string) : bool :=
  empty selector || bool_decide (selector = value).
Definition MatchesProfile (p : t) (group profile nodeType role : string) : bool :=
  anyOr (Group p) group && anyOr (Profile p) profile && anyOr (NodeType p) nodeType &&
  anyOr (Role p) role.

Definition actionIn (p : t) (l : list string) : bool := oneOf (Action p) l.
Definition noIDs (p : t) : bool := noElems (NodeIDs p) && noElems (PeerIDs p).
End Phase.

Module Scenario.
Record t := mk {
  Version : Z; Name : string; Seed : Z; OnExit : string; JobShutdownTimeout : string;
  Profiles : option (gmap string NodeConfig.t); Phases : list Phase.t }.

Section validate.
Context `{PeerCodec} `{CIDRs} `{PubSubLib} (ParseFloat : string → option float).

(** *** The phases' own checks *)
(** [time.ParseDuration] of a setting that must be positive. *)
Definition positiveDuration (what value : string) : res unit :=
  match Duration.parse value with
  | Some d => fail_if (d <=? 0) (what +:+ " must be positive")
  | None => Err ("invalid " +:+ what)
  end.

(** The loop over one list of [validatePeerSelector], with the set [seen]. *)
Fixpoint selectorLoop (isPeers : bool) (seen : gset string) (l : list string) : res unit :=
  match l with
  | [] => Ok tt
  | id :: l =>
      fail_if (oneOf id ["";".";".."]%string || hasSpaceOrControl id || ContainsAny id "/\?#")
        "selector contains an invalid ID";;
      fail_if (isPeers && isNil (peerDecode id)) "peerIds contains an invalid libp2p peer ID";;
      fail_if (bool_decide (id ∈ seen)) "selector contains duplicate ID";;
      selectorLoop isPeers ({[id]} ∪ seen) l
  end.
Definition checkSelector (isPeers : bool) (ids : slice string) : res unit :=
  fail_if (negb (isNil ids) && noElems ids) "selector must not be empty when specified";;
  selectorLoop isPeers ∅ (elems ids).

Definition validatePeerSelector (p : Phase.t) : res unit :=
  fail_if (empty (Phase.Group p) && Phase.noIDs p) "requires group, nodeIds, or peerIds";;
  fail_if (negb (bool_decide (TrimSpace (Phase.Group p) = Phase.Group p)))
    "group must not contain surrounding whitespace";;
  checkSelector false (Phase.NodeIDs p);;
  checkSelector true (Phase.PeerIDs p);;
  fail_if (negb (oneOf (Phase.Role p) ["";"boot";"worker"]%string)) "role must be boot or worker".

(** [if p.Timeout == "" { p.Timeout = d }] *)
Definition defaultTimeout (d : string) (p : Phase.t) : Phase.t :=
  if empty (Phase.Timeout p) then Phase.withTimeout d p else p.

Definition isZeroDistribution (d : Distribution) : bool := dist_eqb d zeroDistribution.

Definition validateMeshFreezePhase (p : Phase.t) : res Phase.t :=
  validatePeerSelector p;;
  fail_if (negb (Phase.Count p =? 0) || negb (Phase.Parallelism p =? 0) ||
           negb (isZeroDistribution (Phase.Interval p)) ||
           negb (isZeroDistribution (Phase.Lifetime p)) || negb (empty (Phase.Topic p)))
    "mesh-freeze does not support count, parallelism, interval, lifetime, or topic";;
  let p := defaultTimeout "30s" p in
  positiveDuration "mesh-freeze timeout" (Phase.Timeout p);;
  Ok p.

Definition validateTopologyPhase (p : Phase.t) : res Phase.t :=
  validatePeerSelector p;;
  match Phase.Topology p with
  | None => Err "topology action requires topology configuration"
  | Some topology =>
      fail_if (empty (Phase.Topic p) || negb (bool_decide (TrimSpace (Phase.Topic p) = Phase.Topic p)) ||
               bool_decide (Phase.Topic p = "*"%string) || (1024 <? String.length (Phase.Topic p))%nat)
        "topology requires one explicit topic of at most 1024 bytes";;
      fail_if (negb (Phase.Repeat p =? 1) || negb (Phase.ShouldAwait p) || Phase.Parallel p ||
               negb (Phase.Parallelism p =? 0))
        "topology requires repeat: 1, await: true, and no parallel or parallelism";;
      fail_if (negb (empty (Phase.Job p)) || negb (empty (Phase.Profile p)) ||
               negb (empty (Phase.Duration p)) || negb (empty (Phase.Message p)) ||
               negb (F64.eqb (Phase.ReadyRatio p) F64.zero) || negb (Phase.MinCount p =? 0) ||
               negb (Phase.PayloadSize p =? 0) || negb (isZeroDistribution (Phase.Interval p)) ||
               negb (isZeroDistribution (Phase.Lifetime p)) || negb (isZeroNode (Phase.Node p)))
        "topology does not support job, profile, node, duration, message, …";;
      Topology.Validate topology (Phase.Count p);;
      (if empty (Phase.Timeout p) then Ok tt
       else positiveDuration "topology timeout" (Phase.Timeout p));;
      Ok p
  end.

(** [validateSchedulePhase] *)
Definition scheduleSelector (p : Phase.t) : res unit :=
  if empty (Phase.Profile p) then validatePeerSelector p
  else
    fail_if (negb (bool_decide (TrimSpace (Phase.Profile p) = Phase.Profile p)))
      "profile must not contain surrounding whitespace";;
    validatePeerSelector
      (if empty (Phase.Group p) && Phase.noIDs p then Phase.withGroup "profile-selector" p else p).

Definition validateSchedulePhase (p : Phase.t) : res Phase.t :=
  scheduleSelector p;;
  match Phase.Schedule p with
  | None => Err "schedule action requires schedule.changes"
  | Some schedule =>
      ProfileSchedule.Validate ParseFloat schedule;;
      fail_if (negb (Phase.Repeat p =? 1) || Phase.Parallel p || negb (Phase.Parallelism p =? 0) ||
               negb (Phase.Count p =? 0) || negb (isZeroDistribution (Phase.Interval p)) ||
               negb (isZeroDistribution (Phase.Lifetime p)) || negb (empty (Phase.Duration p)) ||
               negb (empty (Phase.Topic p)) || negb (empty (Phase.Message p)) ||
               negb (F64.eqb (Phase.ReadyRatio p) F64.zero) || negb (Phase.MinCount p =? 0) ||
               negb (Phase.PayloadSize p =? 0) || negb (isZeroNode (Phase.Node p)))
        "schedule supports selectors, job, await, timeout, and schedule; repeat must be 1";;
      let p := defaultTimeout "2m" p in
      positiveDuration "schedule timeout" (Phase.Timeout p);;
      Ok p
  end.

(** *** Attack options *)
Definition scheduleHasAttacks (p : Phase.t) : bool :=
  match Phase.Schedule p with
  | Some s => existsb (λ change, RuntimeProfilePatch.HasAttacks (ChangeSet change))
                (ProfileSchedule.Changes s)
  | None => false
  end.

Definition validateAttackVersion (s : t) : res unit :=
  checkMap (λ _ p,
      fail_if (NodeConfig.HasAttackOptions p && (Version s <? 4))
        "profile: attack options require version 4";;
      wrap "profile" (Attacks.ValidateAttackSyntax (NodeConfig.attacks p))) (Profiles s);;
  checkAll (λ p,
      fail_if ((NodeConfig.HasAttackOptions (Phase.Node p) || scheduleHasAttacks p) &&
               (Version s <? 4)) "attack options require version 4";;
      fail_if (NodeConfig.HasAttackOptions (Phase.Node p) && negb (Phase.actionIn p ["join"]%string))
        "node attack options are only supported for join";;
      wrap "phase" (Attacks.ValidateAttackSyntax (NodeConfig.attacks (Phase.Node p)))) (Phases s).

(** The phases up to the next [stop-all], and those after it. *)
Fixpoint generation (l : list Phase.t) : list Phase.t * list Phase.t :=
  match l with
  | [] => ([], [])
  | p :: l =>
      if Phase.actionIn p ["stop-all"]%string then ([], l)
      else let '(g, rest) := generation l in (p :: g, rest)
  end.

Definition joinGroups (g : list Phase.t) : list string :=
  Phase.Group <$> filter (λ p, Phase.actionIn p ["join"]%string = true) g.

Definition checkAttackGroups (groups : list string) (p : Phase.t) : res unit :=
  if Phase.actionIn p ["join"]%string then
    checkAll (λ selector, Attacks.whenSome selector (λ selector,
      checkAll (λ group, fail_if (negb (Contains groups group)) "unknown attack target group")
        (elems (AttackSelector.Groups selector))))
      (Attacks.AttackSelectors (NodeConfig.attacks (Phase.Node p)))
  else Ok tt.

(** The loop over the generations; each takes at least one phase. *)
Fixpoint attackSelectorsLoop (fuel : nat) (l : list Phase.t) : res unit :=
  match fuel, l with
  | O, _ | _, [] => Ok tt
  | S fuel, _ =>
      let '(g, rest) := generation l in
      checkAll (checkAttackGroups (joinGroups g)) g;;
      attackSelectorsLoop fuel rest
  end.
Definition validateAttackSelectors (s : t) : res unit :=
  attackSelectorsLoop (length (Phases s)) (Phases s).

(** *** [resolveNodeConfig] *)
Definition profileOf (s : t) (p : Phase.t) : option NodeConfig.t :=
  default ∅ (Profiles s) !! Phase.Profile p.

Definition nodeKind (s : t) (p : Phase.t) : string :=
  let profile := profileOf s p in
  let kind := Phase.NodeType p in
  let kind := if empty kind then from_option NodeConfig.Type_ "" profile else kind in
  let kind := if empty kind && negb (empty (Phase.Profile p)) && isNil profile
              then Phase.Profile p else kind in
  if empty kind then (if bool_decide (Phase.Role p = "boot"%string) then "boot" else "full")
  else kind.

Definition withType (kind : string) (c : NodeConfig.t) : NodeConfig.t :=
  NodeConfig.mk (NodeConfig.attacks c) kind (NodeConfig.Topics c) (NodeConfig.D c)
    (NodeConfig.DLow c) (NodeConfig.DHigh c) (NodeConfig.DOut c) (NodeConfig.DLazy c)
    (NodeConfig.Heartbeat c) (NodeConfig.ConnectLimit c) (NodeConfig.Libp2p c)
    (NodeConfig.Kademlia c) (NodeConfig.GossipSub c) (NodeConfig.Network c).

(** A built-in alias becomes its canonical type. *)
Definition canonicalType (kind : string) : string :=
  match NodeConfig.BuiltInNodeConfig kind with Some preset => NodeConfig.Type_ preset | None => kind end.

Definition resolveNodeConfig (s : t) (p : Phase.t) : res Phase.t :=
  let kind := nodeKind s p in
  let builtIn := NodeConfig.BuiltInNodeConfig kind in
  let base := match builtIn with
              | Some base => base
              | None => withType kind (default NodeConfig.zero (NodeConfig.BuiltInNodeConfig "full"))
              end in
  base ← (if empty (Phase.Profile p) then Ok base
          else match profileOf s p with
               | Some profile => Ok (NodeConfig.Merge base profile)
               | None =>
                   if isNil (NodeConfig.BuiltInNodeConfig (Phase.Profile p)) || isNil builtIn
                   then Err "unknown profile" else Ok base
               end);
  let base := NodeConfig.Merge base (Phase.Node p) in
  let base := if empty (Phase.NodeType p) then base else withType (Phase.NodeType p) base in
  let base := withType (canonicalType (NodeConfig.Type_ base)) base in
  let base := NodeConfig.WithDefaults base in
  NodeConfig.Validate ParseFloat base;;
  let p := Phase.withNodeType (NodeConfig.Type_ base) (Phase.withNode base p) in
  Ok (if empty (Phase.Profile p) then Phase.withProfile (NodeConfig.Type_ base) p else p).

(** *** Background jobs *)
(** The three maps of [Validate]. *)
Record Tables := mkTables {
  backgroundJoins : gmap string (gset string); knownJobs : gset string;
  joinedGroups : gmap string (list Phase.t) }.
Definition noTables : Tables := mkTables ∅ ∅ ∅.
Definition withBackground (b : gmap string (gset string)) (t : Tables) : Tables :=
  mkTables b (knownJobs t) (joinedGroups t).

Definition unwaitedJoins (background : gmap string (gset string)) (group : string)
    (waited : list string) : list string :=
  '(candidateGroup, jobs) ← map_to_list background;
  if negb (empty group) && negb (bool_decide (candidateGroup = group)) then []
  else filter (λ job, job ∉ waited) (elements jobs).
Definition firstUnwaitedBackgroundJoin (background : gmap string (gset string)) (group : string)
    (waited : list string) : string :=
  default ""%string (head (merge_sort (λ a b, String.leb a b) (unwaitedJoins background group waited))).

Definition removeBackgroundJoinJobs (background : gmap string (gset string)) (waited : list string) :
    gmap string (gset string) :=
  omap (λ jobs, let jobs := jobs ∖ list_to_set waited in
                if bool_decide (jobs = ∅) then None else Some jobs) background.

Definition checkKnown (t : Tables) (jobs : list string) : res unit :=
  checkAll (λ job, fail_if (negb (bool_decide (job ∈ knownJobs t))) "job has not been started") jobs.

(** [validateTopologyGroup] *)
Definition validateTopologyGroup (p : Phase.t) (joins : list Phase.t) : res unit :=
  if empty (Phase.Group p) || negb (Phase.noIDs p) then Ok tt
  else
    let matching := filter (λ joined,
      Phase.anyOr (Phase.Role p) (Phase.Role joined) &&
      Phase.anyOr (Phase.NodeType p) (Phase.NodeType joined) = true) joins in
    checkAll (λ joined, fail_if
        (negb (isTrue (GossipSubConfig.MeshFreeze (NodeConfig.GossipSub (Phase.Node joined)))))
        "topology group requires gossipsub.meshFreeze: true") matching;;
    fail_if (noElems (Some matching)) "topology group requires a preceding join".

(** *** The loop over the phases *)
Definition canonicalAction (a : string) : string :=
  if bool_decide (a = "sleep"%string) then "wait"
  else if bool_decide (a = "reset"%string) then "stop-all" else a.

(** The defaults every phase gets; [i] is its index. *)
Definition normalize (i : nat) (p : Phase.t) : Phase.t :=
  let number := pretty (N.of_nat (S i)) in
  let p := Phase.withAction (canonicalAction (Phase.Action p)) p in
  let p := if empty (Phase.Name p)
           then Phase.withName (Phase.Action p +:+ "-" +:+ number) p else p in
  let p := if empty (Phase.NodeType p) then p
           else Phase.withNodeType (canonicalType (Phase.NodeType p)) p in
  let p := if empty (Phase.Job p) && negb (Phase.actionIn p ["topology"]%string)
           then Phase.withJob ("phase-" +:+ number) p else p in
  if Phase.Repeat p =? 0 then Phase.withRepeat 1 p else p.

(** The checks before the [switch]. *)
Definition checkCommon (s : t) (p : Phase.t) : res Phase.t :=
  fail_if (Phase.Repeat p <? 1) "repeat must be positive";;
  fail_if (Phase.Parallelism p <? 0) "parallelism cannot be negative";;
  fail_if (negb (noElems (Phase.Jobs p)) && negb (Phase.actionIn p ["wait-ready";"wait-jobs"]%string))
    "jobs is only supported for wait-ready and wait-jobs";;
  p ← (if Phase.actionIn p ["publish";"leave"]%string then
         let p := if empty (Phase.OnError p) then Phase.withOnError "fail" p else p in
         fail_if (negb (oneOf (Phase.OnError p) ["fail";"continue"]%string))
           "onError must be fail or continue";;
         Ok p
       else
         fail_if (negb (empty (Phase.OnError p))) "onError is only supported for publish and leave";;
         Ok p);
  fail_if (negb (Phase.actionIn p ["join"]%string) &&
           (negb (empty (Phase.AgentID p)) || negb (empty (Phase.Placement p))))
    "agentId and placement are only supported for join";;
  fail_if (negb (Phase.actionIn p ["publish"]%string) && negb (empty (Phase.PayloadEncoding p)))
    "payloadEncoding is only supported for publish";;
  fail_if (negb (Phase.actionIn p ["publish"]%string) && negb (empty (Phase.DeliveryWindow p)))
    "deliveryWindow is only supported for publish";;
  fail_if ((negb (isNil (Phase.NodeIDs p)) || negb (isNil (Phase.PeerIDs p))) &&
           ((Version s <? 3) || negb (Phase.actionIn p ["mesh-freeze";"topology";"schedule"]%string)))
    "nodeIds and peerIds require version 3 mesh-freeze, topology, or schedule";;
  fail_if (negb (isNil (Phase.Schedule p)) && negb (Phase.actionIn p ["schedule"]%string))
    "schedule configuration requires the schedule action";;
  fail_if (negb (isNil (Phase.Topology p)) && negb (Phase.actionIn p ["topology"]%string))
    "topology configuration is only supported for the topology action";;
  Ok p.

(** **** The cases of the [switch] *)
Definition caseJoin (s : t) (p : Phase.t) (tables : Tables) : res (Phase.t * Tables) :=
  let p := if empty (Phase.Placement p) then Phase.withPlacement "balanced" p else p in
  fail_if (negb (oneOf (Phase.Placement p) ["balanced";"single-agent";"random"]%string))
    "placement must be balanced, random, or single-agent";;
  fail_if (negb (empty (Phase.AgentID p)) &&
           negb (bool_decide (TrimSpace (Phase.AgentID p) = Phase.AgentID p)))
    "agentId must not contain surrounding whitespace";;
  fail_if (empty (Phase.Group p) || (Phase.Count p <? 1)) "join requires group and positive count";;
  let p := if empty (Phase.Role p) then Phase.withRole "worker" p else p in
  fail_if (negb (oneOf (Phase.Role p) ["boot";"worker"]%string)) "role must be boot or worker";;
  wrap "interval" (Distribution.Validate ParseFloat (Phase.Interval p) true);;
  wrap "lifetime" (Distribution.Validate ParseFloat (Phase.Lifetime p) true);;
  p ← wrap "phase" (resolveNodeConfig s p);
  wrap "phase" (NodeConfig.ValidateAttackRole (Phase.Node p) (Phase.Role p));;
  let groups := joinedGroups tables in
  let background := backgroundJoins tables in
  Ok (p, mkTables
    (if Phase.ShouldAwait p then background
     else <[Phase.Group p := {[Phase.Job p]} ∪ default ∅ (background !! Phase.Group p)]> background)
    (knownJobs tables)
    (<[Phase.Group p := default [] (groups !! Phase.Group p) ++ [p]]> groups)).

Definition caseWaitReady (p : Phase.t) (tables : Tables) : res (Phase.t * Tables) :=
  fail_if (Phase.MinCount p <? 0) "minCount cannot be negative";;
  checkKnown tables (elems (Phase.Jobs p));;
  fail_if (negb (empty (firstUnwaitedBackgroundJoin (backgroundJoins tables) (Phase.Group p)
                          (elems (Phase.Jobs p)))) && (Phase.MinCount p =? 0))
    "wait-ready after background join requires minCount or all relevant join jobs";;
  let tables := withBackground
    (removeBackgroundJoinJobs (backgroundJoins tables) (elems (Phase.Jobs p))) tables in
  let p := if F64.eqb (Phase.ReadyRatio p) F64.zero then Phase.withReadyRatio F64.one p else p in
  fail_if (F64.isNaN (Phase.ReadyRatio p) || F64.leb (Phase.ReadyRatio p) F64.zero ||
           F64.ltb F64.one (Phase.ReadyRatio p)) "readyRatio must be in (0, 1]";;
  let p := defaultTimeout "1m" p in
  positiveDuration "timeout" (Phase.Timeout p);;
  Ok (p, tables).

Definition caseWaitJobs (p : Phase.t) (tables : Tables) : res (Phase.t * Tables) :=
  fail_if (negb (Phase.ShouldAwait p)) "wait-jobs must use await: true";;
  let p := defaultTimeout "5m" p in
  positiveDuration "timeout" (Phase.Timeout p);;
  if noElems (Phase.Jobs p) then Ok (p, withBackground ∅ tables)
  else
    checkKnown tables (elems (Phase.Jobs p));;
    Ok (p, withBackground
             (removeBackgroundJoinJobs (backgroundJoins tables) (elems (Phase.Jobs p))) tables).

Definition casePublish (p : Phase.t) : res Phase.t :=
  let p := if empty (Phase.DeliveryWindow p) then Phase.withDeliveryWindow "10s" p else p in
  fail_if (match Duration.parse (Phase.DeliveryWindow p) with
           | Some window => (window <=? 0) || (Duration.Hour <? window) | None => true end)
    "deliveryWindow must be a positive duration no longer than 1h";;
  let p := if empty (Phase.PayloadEncoding p) then Phase.withPayloadEncoding "envelope" p else p in
  fail_if (negb (oneOf (Phase.PayloadEncoding p) ["envelope";"raw"]%string))
    "payloadEncoding must be envelope or raw";;
  fail_if (empty (Phase.Group p) || (Phase.Count p <? 1)) "publish requires group and positive count";;
  let p := if Phase.PayloadSize p <=? 0 then Phase.withPayloadSize 32 p else p in
  fail_if (MaxPublishPayloadBytes <? Phase.PayloadSize p) "payloadSize exceeds 16 MiB";;
  wrap "interval" (Distribution.Validate ParseFloat (Phase.Interval p) true);;
  Ok p.

Definition caseLeave (p : Phase.t) : res unit :=
  fail_if (empty (Phase.Group p) || (Phase.Count p <? 1)) "leave requires group and positive count";;
  wrap "interval" (Distribution.Validate ParseFloat (Phase.Interval p) true).

(** The cases that leave the tables alone. *)
Definition alone (tables : Tables) (r : res Phase.t) : res (Phase.t * Tables) :=
  p ← wrap "phase" r; Ok (p, tables).

Definition caseTopology (s : t) (p : Phase.t) (tables : Tables) : res Phase.t :=
  fail_if (Version s <? 3) "topology requires version 3";;
  p ← validateTopologyPhase p;
  validateTopologyGroup p (default [] (joinedGroups tables !! Phase.Group p));;
  Ok p.

Definition checkAction (s : t) (p : Phase.t) (tables : Tables) : res (Phase.t * Tables) :=
  if Phase.actionIn p ["schedule"]%string then
    fail_if (Version s <? 3) "schedule requires version 3";;
    alone tables (validateSchedulePhase p)
  else if Phase.actionIn p ["topology"]%string then alone tables (caseTopology s p tables)
  else if Phase.actionIn p ["mesh-freeze"]%string then
    fail_if (Version s <? 3) "mesh-freeze requires version 3";;
    alone tables (validateMeshFreezePhase p)
  else if Phase.actionIn p ["join"]%string then caseJoin s p tables
  else if Phase.actionIn p ["wait"]%string then
    positiveDuration "duration" (Phase.Duration p);; Ok (p, tables)
  else if Phase.actionIn p ["wait-ready"]%string then caseWaitReady p tables
  else if Phase.actionIn p ["wait-jobs"]%string then caseWaitJobs p tables
  else if Phase.actionIn p ["publish"]%string then alone tables (casePublish p)
  else if Phase.actionIn p ["leave"]%string then caseLeave p;; Ok (p, tables)
  else if Phase.actionIn p ["stop-all"]%string then Ok (p, noTables)
  else if Phase.actionIn p ["log"]%string then Ok (p, tables)
  else Err "unknown action".

(** The checks after the [switch]. *)
Definition finishPhase (p : Phase.t) (tables : Tables) : res Tables :=
  fail_if (negb (Phase.ShouldAwait p) &&
           negb (Phase.actionIn p ["join";"publish";"leave";"schedule"]%string))
    "await:false is only supported for join, publish, leave, and schedule";;
  fail_if (Phase.Parallel p && negb (Phase.actionIn p ["join";"publish";"leave"]%string))
    "parallel is only supported for join, publish, and leave";;
  if Phase.ShouldAwait p then Ok tables
  else
    fail_if (bool_decide (Phase.Job p ∈ knownJobs tables)) "duplicate background job";;
    Ok (mkTables (backgroundJoins tables) ({[Phase.Job p]} ∪ knownJobs tables) (joinedGroups tables)).

Definition checkPhase (s : t) (i : nat) (p : Phase.t) (tables : Tables) : res (Phase.t * Tables) :=
  p ← checkCommon s (normalize i p);
  '(p, tables) ← checkAction s p tables;
  tables ← finishPhase p tables;
  Ok (p, tables).

Fixpoint phasesLoop (s : t) (i : nat) (tables : Tables) (l : list Phase.t) : res (list Phase.t) :=
  match l with
  | [] => Ok []
  | p :: l =>
      '(p, tables) ← checkPhase s i p tables;
      rest ← phasesLoop s (S i) tables l;
      Ok (p :: rest)
  end.

(** *** [validateProfileSchedules] *)
(** The inner loop over the changes of one schedule for one join. *)
Fixpoint changesOnJoin (ids : bool) (join : Phase.t) (config : NodeConfig.t)
    (l : list ProfileChange) : res Phase.t :=
  match l with
  | [] => Ok join
  | change :: l =>
      let set := ChangeSet change in
      let join := if isNil (RuntimeProfilePatch.Network set) then join
                  else Phase.withNetworkMutable true join in
      if ids then changesOnJoin ids join config l
      else
        config ← wrap "phase change" (RuntimeProfilePatch.Apply ParseFloat set config);
        wrap "phase change" (NodeConfig.ValidateAttackRole config (Phase.Role join));;
        changesOnJoin ids join config l
  end.

Definition isJoin (p : Phase.t) : bool := Phase.actionIn p ["join"]%string.
Definition matchesJoin (schedule join : Phase.t) : bool :=
  Phase.MatchesProfile schedule (Phase.Group join) (Phase.Profile join) (Phase.NodeType join)
    (Phase.Role join).

(** The loop over the generation's joins, which it updates in place; the flag is
    [matched]. *)
Fixpoint scheduleOnJoins (schedule : Phase.t) (g : list Phase.t) : res (list Phase.t * bool) :=
  match g with
  | [] => Ok ([], false)
  | p :: g =>
      let ids := negb (Phase.noIDs schedule) in
      if isJoin p && matchesJoin schedule p then
        p ← changesOnJoin ids p (Phase.Node p)
              (from_option ProfileSchedule.Changes [] (Phase.Schedule schedule));
        '(g, _) ← scheduleOnJoins schedule g;
        Ok (p :: g, true)
      else
        '(g, matched) ← scheduleOnJoins schedule g;
        Ok (p :: g, matched)
  end.

(** The schedules of one generation, in order; [g] is the generation as updated so
    far.  A nil schedule of the action is excluded by the phase's own check. *)
Fixpoint schedulesLoop (schedules g : list Phase.t) : res (list Phase.t) :=
  match schedules with
  | [] => Ok g
  | schedule :: l =>
      if Phase.actionIn schedule ["schedule"]%string then
        '(g, matched) ← scheduleOnJoins schedule g;
        fail_if (negb matched && Phase.noIDs schedule)
          "schedule selectors do not match any join in this generation";;
        schedulesLoop l g
      else schedulesLoop l g
  end.

(** [generation], with the [stop-all] that ends it. *)
Fixpoint splitGeneration (l : list Phase.t) : list Phase.t * list Phase.t :=
  match l with
  | [] => ([], [])
  | p :: l =>
      if Phase.actionIn p ["stop-all"]%string then ([], p :: l)
      else let '(g, rest) := splitGeneration l in (p :: g, rest)
  end.

Fixpoint profileSchedulesLoop (fuel : nat) (l : list Phase.t) : res (list Phase.t) :=
  match fuel, l with
  | O, _ | _, [] => Ok l
  | S fuel, _ =>
      let '(g, rest) := splitGeneration l in
      g ← schedulesLoop g g;
      match rest with
      | [] => Ok g
      | stop :: rest => rest ← profileSchedulesLoop fuel rest; Ok (g ++ stop :: rest)
      end
  end.
Definition validateProfileSchedules (phases : list Phase.t) : res (list Phase.t) :=
  profileSchedulesLoop (length phases) phases.

(** *** [Validate] *)
Definition withDefaults (s : t) : t :=
  mk (if Version s =? 0 then 1 else Version s) (Name s) (Seed s)
    (if empty (OnExit s) then "cancel" else OnExit s)
    (if empty (JobShutdownTimeout s) then "3m" else JobShutdownTimeout s) (Profiles s) (Phases s).
Definition withPhases (phases : list Phase.t) (s : t) : t :=
  mk (Version s) (Name s) (Seed s) (OnExit s) (JobShutdownTimeout s) (Profiles s) phases.

Definition checkHeader (s : t) : res unit :=
  fail_if (negb (bool_decide (Version s ∈ [1;2;3;4]))) "unsupported scenario version";;
  fail_if (empty (TrimSpace (Name s))) "scenario name is required";;
  fail_if (noElems (Some (Phases s))) "scenario must contain at least one phase";;
  fail_if (negb (oneOf (OnExit s) ["cancel";"drain"]%string)) "onExit must be cancel or drain";;
  positiveDuration "jobShutdownTimeout" (JobShutdownTimeout s).

Definition Validate (s : t) : res t :=
  let s := withDefaults s in
  checkHeader s;;
  validateAttackVersion s;;
  phases ← phasesLoop s 0 noTables (Phases s);
  let s := withPhases phases s in
  validateAttackSelectors s;;
  phases ← validateProfileSchedules phases;
  Ok (withPhases phases s).
End validate.
End Scenario.
