(* ===== verification/ScenarioProps.v ===== *)
(** * Properties of accepted scenarios

    What validation establishes for the run: every join has a complete, accepted
    configuration, the jobs a phase waits for were started before it, and every
    scheduled profile change applies to the joins it selects. *)
From Stdlib Require Import ZArith Lia.
From stdpp Require Import strings list gmap sorting pretty.
From S2P Require Import Prelude.
From S2P Require Import GoStd.
From S2P Require Import GoStrings.
From S2P Require Import Topology.
From S2P Require Import Distribution.
From S2P Require Import Network.
From S2P Require Import Attacks.
From S2P Require Import PeerScore.
From S2P Require Import GossipSubConfig.
From S2P Require Import KademliaConfig.
From S2P Require Import NodeConfig.
From S2P Require Import NodeConfigProps.
From S2P Require Import ProfileSchedule.
From S2P Require Import ProfileScheduleProps.
From S2P Require Import Scenario.
Open Scope Z_scope.

(** Breaks the success of a validation into its steps. *)
Ltac steps H :=
  repeat first
    [ rewrite fail_if_seq_ok in H; destruct H as [? H]
    | rewrite seq_ok in H; destruct H as [? H]
    | apply bind_ok in H as (? & ? & H) ].

Section props.
Context `{PeerCodecLaws} `{CIDRs} `{PubSubLib} (ParseFloat : string → option float).
Let resolve := Scenario.resolveNodeConfig ParseFloat.
Let checkAction := Scenario.checkAction ParseFloat.
Let checkPhase := Scenario.checkPhase ParseFloat.

(** ** One phase *)
(** A join ready to run: what [createJoinNode] relies on. *)
Record runnable (p : Phase.t) : Prop := {
  r_valid : NodeConfig.Validate ParseFloat (Phase.Node p) = Ok tt;
  r_complete : NodeConfig.WithDefaults (Phase.Node p) = Phase.Node p;
  r_type : Phase.NodeType p = NodeConfig.Type_ (Phase.Node p);
  r_role : NodeConfig.ValidateAttackRole (Phase.Node p) (Phase.Role p) = Ok tt;
  r_roles : Phase.Role p ∈ ["boot";"worker"]%string;
  r_group : Phase.Group p ≠ ""%string;
  r_count : 1 ≤ Phase.Count p;
  r_placement : Phase.Placement p ∈ ["balanced";"single-agent";"random"]%string }.

Lemma resolve_ok s p p' :
  resolve s p = Ok p' →
  ∃ base, NodeConfig.Validate ParseFloat base = Ok tt ∧ NodeConfig.WithDefaults base = base ∧
    p' = (let q := Phase.withNodeType (NodeConfig.Type_ base) (Phase.withNode base p) in
          if empty (Phase.Profile q) then Phase.withProfile (NodeConfig.Type_ base) q else q).
Proof.
  unfold resolve, Scenario.resolveNodeConfig. intros Hr. steps Hr.
  eexists. split_and!; [done|apply node_WithDefaults_idemp|]. by injection Hr as <-.
Qed.

(** The fields no case of the switch assigns. *)
Definition sameControl (p q : Phase.t) : Prop :=
  Phase.Action q = Phase.Action p ∧ Phase.Jobs q = Phase.Jobs p ∧ Phase.Await q = Phase.Await p ∧
  Phase.Job q = Phase.Job p ∧ Phase.Schedule q = Phase.Schedule p ∧
  Phase.NodeIDs q = Phase.NodeIDs p ∧ Phase.PeerIDs q = Phase.PeerIDs p ∧
  Phase.Repeat q = Phase.Repeat p.

Lemma caseJoin_ok s p tables p' tables' :
  Scenario.caseJoin ParseFloat s p tables = Ok (p', tables') →
  runnable p' ∧ sameControl p p' ∧ Scenario.knownJobs tables' = Scenario.knownJobs tables.
Proof.
  unfold Scenario.caseJoin. intros Hc. cbv zeta in Hc.
  set (q := if empty (Phase.Placement p) then _ else p) in Hc.
  assert (sameControl p q) as Hq by (unfold q, sameControl; destruct (empty (Phase.Placement p)); by split_and!).
  rewrite !fail_if_seq_ok in Hc. destruct Hc as (Hplace & _ & Hgroup & Hc).
  set (r := if empty (Phase.Role q) then _ else q) in Hc.
  assert (sameControl q r ∧ Phase.Group r = Phase.Group q ∧ Phase.Count r = Phase.Count q ∧
    Phase.Placement r = Phase.Placement q) as (Hr & Hrg & Hrc & Hrp) by (unfold r, sameControl; destruct (empty (Phase.Role q)); by split_and!).
  clearbody q r. destruct Hc as (Hrole & Hc).
  rewrite !seq_ok in Hc. destruct Hc as (_ & _ & Hc). apply bind_ok in Hc as (x & Hx & Hc).
  apply wrap_ok in Hx. rewrite seq_ok in Hc. destruct Hc as (Hattack & Hc). apply wrap_ok in Hattack.
  injection Hc as -> <-. apply resolve_ok in Hx as (base & Hv & Hd & Hx). cbv zeta in Hx.
  apply negb_false_iff, bool_decide_eq_true_1 in Hplace, Hrole.
  apply orb_false_iff in Hgroup as [Hg Hcount]. apply bool_decide_eq_false_1 in Hg.
  apply Z.ltb_ge in Hcount.
  assert (Phase.Node p' = base ∧ Phase.NodeType p' = NodeConfig.Type_ base ∧ sameControl r p' ∧
    Phase.Role p' = Phase.Role r ∧ Phase.Group p' = Phase.Group r ∧ Phase.Count p' = Phase.Count r ∧
    Phase.Placement p' = Phase.Placement r) as (Hnode & Htype & Hsame & E1 & E2 & E3 & E4)
    by (subst p'; unfold sameControl;
        destruct (empty (Phase.Profile (Phase.withNodeType (NodeConfig.Type_ base) (Phase.withNode base r))));
        by split_and!).
  split_and!; [|unfold sameControl in *; naive_solver congruence|done].
  constructor; rewrite ?Hnode, ?Htype, ?E1, ?E2, ?E3, ?E4 in *; try done; congruence || lia.
Qed.

(** *** The other cases *)
Lemma sameControl_refl p : sameControl p p.
Proof. done. Qed.
Lemma sameControl_if (b : bool) p q : sameControl p q → sameControl p (if b then q else p).
Proof. by destruct b. Qed.
Lemma sameControl_timeout d p : sameControl p (Scenario.defaultTimeout d p).
Proof. unfold Scenario.defaultTimeout. by apply sameControl_if. Qed.
Lemma sameControl_trans p q r : sameControl p q → sameControl q r → sameControl p r.
Proof. unfold sameControl. naive_solver congruence. Qed.

Lemma meshFreeze_ok p q : Scenario.validateMeshFreezePhase p = Ok q → sameControl p q.
Proof.
  unfold Scenario.validateMeshFreezePhase. intros Hv. steps Hv. injection Hv as <-.
  apply sameControl_timeout.
Qed.
Lemma topology_ok p q : Scenario.validateTopologyPhase p = Ok q → q = p.
Proof.
  unfold Scenario.validateTopologyPhase. intros Hv. steps Hv.
  destruct (Phase.Topology p); [|done]. steps Hv. by injection Hv.
Qed.
Lemma schedule_ok p q :
  Scenario.validateSchedulePhase ParseFloat p = Ok q → sameControl p q ∧ Phase.Schedule q ≠ None.
Proof.
  unfold Scenario.validateSchedulePhase. intros Hv. steps Hv.
  destruct (Phase.Schedule p) eqn:Hs; [|done]. steps Hv. injection Hv as <-.
  pose proof (sameControl_timeout "2m" p) as Hsame.
  split; [done|]. destruct Hsame as (_ & _ & _ & _ & -> & _). by rewrite Hs.
Qed.
Lemma publish_ok p q : Scenario.casePublish ParseFloat p = Ok q → sameControl p q.
Proof.
  unfold Scenario.casePublish. intros Hv. cbv zeta in Hv. steps Hv. injection Hv as <-.
  eapply sameControl_trans; [|by apply sameControl_if].
  eapply sameControl_trans; [|by apply sameControl_if]. by apply sameControl_if.
Qed.

Definition waits (p : Phase.t) : bool := Phase.actionIn p ["wait-ready";"wait-jobs"]%string.
Definition stops (p : Phase.t) : bool := Phase.actionIn p ["stop-all"]%string.

Lemma checkKnown_ok tables jobs :
  Scenario.checkKnown tables jobs = Ok tt → Forall (λ job, job ∈ Scenario.knownJobs tables) jobs.
Proof.
  unfold Scenario.checkKnown. rewrite checkAll_ok. intros Hf. eapply list.Forall_impl; [exact Hf|]. intros job. cbv beta.
  rewrite fail_if_ok, negb_false_iff. apply bool_decide_eq_true_1.
Qed.

Lemma waitReady_ok p tables q tables' :
  Scenario.caseWaitReady p tables = Ok (q, tables') →
  sameControl p q ∧ Scenario.knownJobs tables' = Scenario.knownJobs tables ∧
  Forall (λ job, job ∈ Scenario.knownJobs tables) (elems (Phase.Jobs p)).
Proof.
  unfold Scenario.caseWaitReady. intros Hv. cbv zeta in Hv. steps Hv. injection Hv as <- <-.
  split_and!; [|done|by apply checkKnown_ok].
  eapply sameControl_trans; [|apply sameControl_timeout]. by apply sameControl_if.
Qed.

Lemma waitJobs_ok p tables q tables' :
  Scenario.caseWaitJobs p tables = Ok (q, tables') →
  sameControl p q ∧ Scenario.knownJobs tables' = Scenario.knownJobs tables ∧
  Forall (λ job, job ∈ Scenario.knownJobs tables) (elems (Phase.Jobs p)).
Proof.
  unfold Scenario.caseWaitJobs. intros Hv. cbv zeta in Hv. steps Hv.
  assert (Phase.Jobs (Scenario.defaultTimeout "5m" p) = Phase.Jobs p) as Hj
    by apply (sameControl_timeout "5m" p).
  rewrite Hj in Hv. destruct (noElems (Phase.Jobs p)) eqn:Hn.
  - injection Hv as <- <-. split_and!; [apply sameControl_timeout|done|].
    unfold noElems in Hn. apply Nat.eqb_eq, length_zero_iff_nil in Hn. by rewrite Hn.
  - steps Hv. injection Hv as <- <-. split_and!; [apply sameControl_timeout|done|by apply checkKnown_ok].
Qed.

Lemma alone_ok tables r q tables' :
  Scenario.alone tables r = Ok (q, tables') → r = Ok q ∧ tables' = tables.
Proof.
  unfold Scenario.alone. intros Hv. apply bind_ok in Hv as (x & Hx & [= <- <-]). by apply wrap_ok in Hx.
Qed.

Lemma caseTopology_ok s p tables q : Scenario.caseTopology s p tables = Ok q → q = p.
Proof.
  unfold Scenario.caseTopology. intros Hv. steps Hv. injection Hv as <-. by apply topology_ok.
Qed.

Lemma actionIn_one p a : Phase.actionIn p [a] = true ↔ Phase.Action p = a.
Proof.
  unfold Phase.actionIn, oneOf. rewrite bool_decide_eq_true. rewrite elem_of_cons, elem_of_nil. tauto.
Qed.

(** A fact about the action, once it is known. *)
Ltac by_action E :=
  first [by intros _ | unfold stops, waits, Scenario.isJoin, Phase.actionIn, oneOf; rewrite E; done].

(** What a phase's check does to the jobs. *)
Record controlled (p q : Phase.t) (known known' : gset string) : Prop := {
  k_same : sameControl p q;
  k_known : known' = (if stops p then ∅ else known);
  k_waits : waits p = true → Forall (λ job, job ∈ known) (elems (Phase.Jobs p));
  k_join : Scenario.isJoin p = true → runnable q;
  k_schedule : Phase.actionIn p ["schedule"]%string = true → Phase.Schedule q ≠ None }.

Lemma checkAction_ok s p tables q tables' :
  checkAction s p tables = Ok (q, tables') →
  controlled p q (Scenario.knownJobs tables) (Scenario.knownJobs tables').
Proof.
  unfold checkAction, Scenario.checkAction. intros Hv.
  assert (∀ known', known' = Scenario.knownJobs tables → sameControl p q → stops p = false →
    waits p = false → (Scenario.isJoin p = true → runnable q) →
    (Phase.actionIn p ["schedule"]%string = true → Phase.Schedule q ≠ None) →
    controlled p q (Scenario.knownJobs tables) known') as Hplain.
  { intros known' -> ? Hs Hw ? ?. constructor; try done; [by rewrite Hs|by rewrite Hw]. }
  repeat match type of Hv with
  | (if Phase.actionIn p [?a] then _ else _) = _ =>
      destruct (Phase.actionIn p [a]) eqn:E; [apply actionIn_one in E|clear E]
  end; [..|done].
  - rewrite fail_if_seq_ok in Hv. destruct Hv as [_ Hv]. apply alone_ok in Hv as [Hv ->]. apply schedule_ok in Hv as [? ?].
    apply Hplain; try done; by_action E.
  - apply alone_ok in Hv as [->%caseTopology_ok ->]. apply Hplain; try done; by_action E.
  - rewrite fail_if_seq_ok in Hv. destruct Hv as [_ Hv]. apply alone_ok in Hv as [Hv ->]. apply meshFreeze_ok in Hv.
    apply Hplain; try done; by_action E.
  - apply caseJoin_ok in Hv as (? & ? & ?). apply Hplain; try done; by_action E.
  - steps Hv. injection Hv as <- <-. apply Hplain; try done; by_action E.
  - apply waitReady_ok in Hv as (? & -> & ?). constructor; try done; by_action E.
  - apply waitJobs_ok in Hv as (? & -> & ?). constructor; try done; by_action E.
  - apply alone_ok in Hv as [Hv ->]. apply publish_ok in Hv. apply Hplain; try done; by_action E.
  - steps Hv. injection Hv as <- <-. apply Hplain; try done; by_action E.
  - injection Hv as <- <-. constructor; try done; by_action E.
  - injection Hv as <- <-. apply Hplain; try done; by_action E.
Qed.

Lemma checkCommon_ok s p q :
  Scenario.checkCommon s p = Ok q →
  sameControl p q ∧ (waits p = false → elems (Phase.Jobs p) = []) ∧ 1 ≤ Phase.Repeat p.
Proof.
  unfold Scenario.checkCommon. intros Hv. rewrite !fail_if_seq_ok in Hv.
  destruct Hv as (Hrepeat & _ & Hjobs & Hv). apply Z.ltb_ge in Hrepeat. apply bind_ok in Hv as (x & Hx & Hv). steps Hv.
  injection Hv as <-. split_and!; [| |done].
  - destruct (Phase.actionIn p ["publish";"leave"]%string); steps Hx; injection Hx as <-; [|done].
    by apply sameControl_if.
  - intros Hw. unfold waits in Hw. rewrite Hw in Hjobs. rewrite andb_true_r in Hjobs.
    apply negb_false_iff in Hjobs. unfold noElems in Hjobs.
    by apply Nat.eqb_eq, length_zero_iff_nil in Hjobs.
Qed.

(** ** The accounting of jobs *)
(** The background jobs known after a phase: [stop-all] forgets them. *)
Definition startJob (known : gset string) (p : Phase.t) : gset string :=
  if stops p then ∅ else if Phase.ShouldAwait p then known else {[Phase.Job p]} ∪ known.
Definition started (l : list Phase.t) : gset string := foldl startJob ∅ l.

(** A phase that is sound when [known] jobs were started. *)
Record sound (known : gset string) (p : Phase.t) : Prop := {
  s_waits : waits p = true → Forall (λ job, job ∈ known) (elems (Phase.Jobs p));
  s_jobs : waits p = false → elems (Phase.Jobs p) = [];
  s_fresh : Phase.ShouldAwait p = false → Phase.Job p ∉ known ∧
    Phase.actionIn p ["join";"publish";"leave";"schedule"]%string = true;
  s_repeat : 1 ≤ Phase.Repeat p;
  s_join : Scenario.isJoin p = true → runnable p;
  s_schedule : Phase.actionIn p ["schedule"]%string = true → Phase.Schedule p ≠ None }.

Lemma sameControl_tests p q :
  sameControl p q → stops q = stops p ∧ waits q = waits p ∧ Scenario.isJoin q = Scenario.isJoin p ∧
  (∀ l, Phase.actionIn q l = Phase.actionIn p l) ∧ Phase.ShouldAwait q = Phase.ShouldAwait p.
Proof.
  intros (Ha & _ & Hw & _). unfold stops, waits, Scenario.isJoin, Phase.actionIn, Phase.ShouldAwait.
  by rewrite Ha, Hw.
Qed.

Lemma stops_not_background p :
  stops p = true → Phase.actionIn p ["join";"publish";"leave";"schedule"]%string = false.
Proof.
  unfold stops. rewrite actionIn_one. intros E. unfold Phase.actionIn, oneOf. by rewrite E.
Qed.

Lemma checkPhase_ok s i p tables q tables' :
  checkPhase s i p tables = Ok (q, tables') →
  sound (Scenario.knownJobs tables) q ∧
  Scenario.knownJobs tables' = startJob (Scenario.knownJobs tables) q.
Proof.
  unfold checkPhase, Scenario.checkPhase. intros Hv. apply bind_ok in Hv as (r & Hr & Hv).
  apply bind_ok in Hv as ([u t1] & Hu & Hv). apply bind_ok in Hv as (t2 & Ht & [= -> ->]).
  apply checkCommon_ok in Hr as (Hsame & Hjobs & Hrepeat). apply checkAction_ok in Hu as [Hsame' Hk Hw Hj Hs].
  destruct (sameControl_tests _ _ Hsame) as (S1 & S2 & S3 & S4 & S5).
  destruct (sameControl_tests _ _ Hsame') as (T1 & T2 & T3 & T4 & T5).
  assert (Phase.Jobs q = Phase.Jobs r ∧ Phase.Jobs r = Phase.Jobs (Scenario.normalize i p)) as [J1 J2].
  { unfold sameControl in *. naive_solver. }
  unfold Scenario.finishPhase in Ht. rewrite !fail_if_seq_ok in Ht. destruct Ht as (Hawait & _ & Ht).
  split.
  - constructor.
    + intros Hq. rewrite J1. apply Hw. by rewrite <- T2.
    + intros Hq. rewrite J1, J2. apply Hjobs. by rewrite <- S2, <- T2.
    + intros Hq. rewrite Hq in Hawait, Ht. apply negb_false_iff in Hawait. split; [|done].
      rewrite fail_if_seq_ok in Ht. destruct Ht as [Hfresh _]. apply bool_decide_eq_false_1 in Hfresh.
      rewrite Hk, <- T1 in Hfresh. destruct (stops q) eqn:Hstop; [|done].
      by rewrite stops_not_background in Hawait.
    + unfold sameControl in *. destruct Hsame as (_ & _ & _ & _ & _ & _ & _ & HR).
      destruct Hsame' as (_ & _ & _ & _ & _ & _ & _ & HR'). by rewrite HR', HR.
    + intros Hq. apply Hj. by rewrite <- T3.
    + intros Hq. apply Hs. by rewrite <- T4.
  - unfold startJob. rewrite T1. destruct (Phase.ShouldAwait q) eqn:Hq.
    + injection Ht as <-. rewrite Hk. by destruct (stops r).
    + rewrite fail_if_seq_ok in Ht. destruct Ht as [_ [= <-]]. cbn. rewrite Hk.
      destruct (stops r) eqn:Hstop; [|done]. cbn in Hawait. apply negb_false_iff in Hawait.
      by rewrite stops_not_background in Hawait by (by rewrite T1).
Qed.

Lemma phasesLoop_ok s l i tables l' :
  Scenario.phasesLoop ParseFloat s i tables l = Ok l' →
  ∀ pre p post, l' = pre ++ p :: post → sound (foldl startJob (Scenario.knownJobs tables) pre) p.
Proof.
  revert i tables l'. induction l as [|x l IH]; intros i tables l' Hl pre p post Heq.
  - injection Hl as <-. by destruct pre.
  - cbn in Hl. apply bind_ok in Hl as ([q t1] & Hq & Hl). apply bind_ok in Hl as (rest & Hrest & [= <-]).
    apply checkPhase_ok in Hq as [Hsound Hk]. destruct pre as [|y pre].
    + by injection Heq as <- _.
    + injection Heq as -> Heq. cbn. rewrite <- Hk. by eapply IH.
Qed.

(** ** The profile schedules *)
(** The pass only grants network capability. *)
Definition marked (p q : Phase.t) : Prop := q = p ∨ q = Phase.withNetworkMutable true p.
Definition changesOf (p : Phase.t) : list ProfileChange :=
  from_option ProfileSchedule.Changes [] (Phase.Schedule p).

(** The changes apply one after the other, within the role. *)
Fixpoint applies (c : NodeConfig.t) (role : string) (l : list ProfileChange) : Prop :=
  match l with
  | [] => True
  | change :: l => ∃ c', RuntimeProfilePatch.Apply ParseFloat (ChangeSet change) c = Ok c' ∧
      NodeConfig.ValidateAttackRole c' role = Ok tt ∧ applies c' role l
  end.

(** What a schedule needs of a join it selects. *)
Definition served (schedule join : Phase.t) : Prop :=
  (∀ change, change ∈ changesOf schedule →
     RuntimeProfilePatch.Network (ChangeSet change) ≠ None → Phase.NetworkMutable join = true) ∧
  (Phase.noIDs schedule = true → applies (Phase.Node join) (Phase.Role join) (changesOf schedule)).
Definition selects (schedule join : Phase.t) : bool :=
  Scenario.isJoin join && Scenario.matchesJoin schedule join.

Lemma marked_refl p : marked p p.
Proof. by left. Qed.
Lemma marked_trans p q r : marked p q → marked q r → marked p r.
Proof. intros [-> | ->] [-> | ->]; [by left|by right|by right|by right]. Qed.
Lemma marked_served schedule p q : marked p q → served schedule p → served schedule q.
Proof. intros [-> | ->] [Hn Ha]; [done|]. by split. Qed.
Lemma marked_selects schedule p q : marked p q → selects schedule q = selects schedule p.
Proof. by intros [-> | ->]. Qed.

Lemma changesOnJoin_ok ids l join config j :
  Scenario.changesOnJoin ParseFloat ids join config l = Ok j →
  marked join j ∧ (Phase.NetworkMutable join = true → Phase.NetworkMutable j = true) ∧
  (∀ change, change ∈ l → RuntimeProfilePatch.Network (ChangeSet change) ≠ None →
     Phase.NetworkMutable j = true) ∧
  (ids = false → applies config (Phase.Role join) l).
Proof.
  revert join config. induction l as [|change l IH]; intros join config Hj.
  { injection Hj as <-. split_and!; [apply marked_refl|done|by intros ? ?%not_elem_of_nil|done]. }
  cbn in Hj.
  set (join1 := if isNil (RuntimeProfilePatch.Network (ChangeSet change)) then join
                else Phase.withNetworkMutable true join) in Hj.
  assert (marked join join1 ∧ Phase.Role join1 = Phase.Role join ∧
    (Phase.NetworkMutable join = true → Phase.NetworkMutable join1 = true) ∧
    (RuntimeProfilePatch.Network (ChangeSet change) ≠ None → Phase.NetworkMutable join1 = true))
    as (Hm & Hrole & Hkeep & Hset).
  { unfold join1. destruct (RuntimeProfilePatch.Network (ChangeSet change)); cbn.
    - split_and!; try done. by right.
    - split_and!; try done. by left. }
  clearbody join1. destruct ids.
  - apply IH in Hj as (Hm' & Hk' & Hn' & _). split_and!; [by eapply marked_trans|auto| |done].
    intros c [->|Hc]%elem_of_cons Hne; [auto|by eapply Hn'].
  - apply bind_ok in Hj as (c' & Hc%wrap_ok & Hj). rewrite seq_ok in Hj.
    destruct Hj as [Hr%wrap_ok Hj]. apply IH in Hj as (Hm' & Hk' & Hn' & Ha').
    rewrite Hrole in *. split_and!; [by eapply marked_trans|auto| |].
    + intros c [->|Hin]%elem_of_cons Hne; [auto|by eapply Hn'].
    + intros _. exists c'. auto.
Qed.

Lemma scheduleOnJoins_ok schedule g g' m :
  Scenario.scheduleOnJoins ParseFloat schedule g = Ok (g', m) →
  Forall2 marked g g' ∧ (∀ q, q ∈ g' → selects schedule q = true → served schedule q) ∧
  (m = true → ∃ q, q ∈ g' ∧ selects schedule q = true).
Proof.
  revert g' m. induction g as [|p g IH]; intros g' m Hg; cbn in Hg.
  { injection Hg as <- <-. split_and!; [done|by intros ? ?%not_elem_of_nil|done]. }
  fold (selects schedule p) in Hg. destruct (selects schedule p) eqn:Hsel.
  - apply bind_ok in Hg as (q & Hq & Hg). apply bind_ok in Hg as ([g1 m1] & Hg1 & [= <- <-]).
    apply IH in Hg1 as (Hm & Hs & He). apply changesOnJoin_ok in Hq as (Hq & _ & Hn & Ha).
    split_and!.
    + by constructor.
    + intros x [->|Hx]%elem_of_cons Hxs; [|by apply Hs]. split; [exact Hn|].
      intros Hids. specialize (Ha ltac:(by rewrite Hids)). by destruct Hq as [-> | ->].
    + intros _. exists q. split; [apply list_elem_of_here|]. by rewrite (marked_selects _ p q).
  - apply bind_ok in Hg as ([g1 m1] & Hg1 & [= <- <-]). apply IH in Hg1 as (Hm & Hs & He).
    split_and!.
    + constructor; [apply marked_refl|done].
    + intros x [->|Hx]%elem_of_cons Hxs; [congruence|by apply Hs].
    + intros Htrue. destruct (He Htrue) as (q & Hq & Hqs). exists q.
      split; [by apply list_elem_of_further|done].
Qed.

Lemma Forall2_marked_in g g' p :
  Forall2 marked g g' → p ∈ g → ∃ q, q ∈ g' ∧ marked p q.
Proof.
  intros Hm (i & Hi)%list_elem_of_lookup.
  destruct (Forall2_lookup_l _ _ _ _ _ Hm Hi) as (q & Hq & Hpq).
  exists q. split; [by eapply list_elem_of_lookup_2|done].
Qed.
Lemma Forall2_marked_from g g' q :
  Forall2 marked g g' → q ∈ g' → ∃ p, p ∈ g ∧ marked p q.
Proof.
  intros Hm (i & Hi)%list_elem_of_lookup.
  destruct (Forall2_lookup_r _ _ _ _ _ Hm Hi) as (p & Hp & Hpq).
  exists p. split; [by eapply list_elem_of_lookup_2|done].
Qed.

(** A generation whose schedules are all served. *)
Definition generationServed (schedules g : list Phase.t) : Prop :=
  ∀ schedule, schedule ∈ schedules → Phase.actionIn schedule ["schedule"]%string = true →
    (∀ q, q ∈ g → selects schedule q = true → served schedule q) ∧
    (Phase.noIDs schedule = true → ∃ q, q ∈ g ∧ selects schedule q = true).

Lemma generationServed_marked schedules g g' :
  Forall2 marked g g' → generationServed schedules g → generationServed schedules g'.
Proof.
  intros Hm Hs schedule Hin Ha. destruct (Hs schedule Hin Ha) as [Hall Hex]. split.
  - intros q Hq Hsel. destruct (Forall2_marked_from _ _ _ Hm Hq) as (p & Hp & Hpq).
    eapply marked_served; [exact Hpq|]. apply Hall; [done|]. by rewrite <- (marked_selects _ p q).
  - intros Hids. destruct (Hex Hids) as (p & Hp & Hsel).
    destruct (Forall2_marked_in _ _ _ Hm Hp) as (q & Hq & Hpq). exists q. split; [done|].
    by rewrite (marked_selects _ p q).
Qed.

Lemma Forall2_marked_trans a b c : Forall2 marked a b → Forall2 marked b c → Forall2 marked a c.
Proof.
  intros Hab. revert c. induction Hab as [|x y a b Hxy Hab IH]; intros c Hbc; inversion Hbc; subst;
    constructor; [by eapply marked_trans|by apply IH].
Qed.
Lemma Forall2_marked_refl a : Forall2 marked a a.
Proof. induction a; constructor; [apply marked_refl|done]. Qed.

Lemma schedulesLoop_ok schedules g g' :
  Scenario.schedulesLoop ParseFloat schedules g = Ok g' →
  Forall2 marked g g' ∧ generationServed schedules g'.
Proof.
  revert g g'. induction schedules as [|schedule l IH]; intros g g' Hg; cbn in Hg.
  { injection Hg as <-. split; [apply Forall2_marked_refl|]. by intros ? ?%not_elem_of_nil. }
  destruct (Phase.actionIn schedule ["schedule"]%string) eqn:Ha.
  - apply bind_ok in Hg as ([g1 m] & Hg1 & Hg). rewrite fail_if_seq_ok in Hg. destruct Hg as [Hm Hg].
    apply scheduleOnJoins_ok in Hg1 as (Hmark & Hall & Hex). apply IH in Hg as [Hmark' Hserved].
    split; [by eapply Forall2_marked_trans|].
    intros x [->|Hx]%elem_of_cons Hxa; [|by apply Hserved].
    eapply (generationServed_marked [schedule] g1 g'); [done| |apply list_elem_of_here|done].
    intros y [->|[]%not_elem_of_nil]%elem_of_cons _. split; [exact Hall|].
    intros Hids. apply Hex. rewrite Hids, andb_true_r in Hm. by apply negb_false_iff.
  - apply IH in Hg as [Hmark Hserved]. split; [done|].
    intros x [->|Hx]%elem_of_cons Hxa; [congruence|by apply Hserved].
Qed.

(** *** All generations *)
(** The generations of a scenario: the maximal runs of phases without a
    [stop-all]. *)
Fixpoint generations (l : list Phase.t) : list (list Phase.t) :=
  match l with
  | [] => [[]]
  | p :: l =>
      if stops p then [] :: generations l
      else match generations l with
           | g :: gs => (p :: g) :: gs
           | [] => [[p]]
           end
  end.

Lemma generations_free g : Forall (λ p, stops p = false) g → generations g = [g].
Proof. induction 1 as [|p g Hp _ IH]; [done|]. cbn. by rewrite Hp, IH. Qed.
Lemma generations_stop g stop l :
  Forall (λ p, stops p = false) g → stops stop = true →
  generations (g ++ stop :: l) = g :: generations l.
Proof.
  intros Hg Hs. induction Hg as [|p g Hp _ IH]; cbn; [by rewrite Hs|]. by rewrite Hp, IH.
Qed.

Lemma splitGeneration_ok l g rest :
  Scenario.splitGeneration l = (g, rest) →
  l = g ++ rest ∧ Forall (λ p, stops p = false) g ∧
  match rest with [] => True | stop :: _ => stops stop = true end.
Proof.
  revert g rest. induction l as [|p l IH]; intros g rest Hs; cbn in Hs.
  { by injection Hs as <- <-. }
  fold (stops p) in Hs. destruct (stops p) eqn:Hp.
  { by injection Hs as <- <-. }
  destruct (Scenario.splitGeneration l) as [g1 r1]. injection Hs as <- <-.
  destruct (IH _ _ eq_refl) as (-> & Hg & Hr). split_and!; [done|by constructor|done].
Qed.

Lemma marked_stops p q : marked p q → stops q = stops p.
Proof. by intros [-> | ->]. Qed.
Lemma Forall2_marked_stops g g' :
  Forall2 marked g g' → Forall (λ p, stops p = false) g → Forall (λ p, stops p = false) g'.
Proof.
  induction 1 as [|p q g g' Hpq Hg IH]; intros Hs; [done|]. inversion Hs; subst.
  constructor; [by rewrite (marked_stops p q)|auto].
Qed.

(** A schedule keeps what it selects and asks for. *)
Lemma generationServed_schedules schedules schedules' g :
  Forall2 marked schedules schedules' → generationServed schedules g → generationServed schedules' g.
Proof.
  intros Hm Hs x Hx Ha. destruct (Forall2_marked_from _ _ _ Hm Hx) as (y & Hy & [-> | ->]).
  - by apply Hs.
  - destruct (Hs y Hy Ha) as [Hall Hex]. split; [|exact Hex].
    intros q Hq Hsel. exact (Hall q Hq Hsel).
Qed.

Lemma profileSchedulesLoop_ok fuel l l' :
  (length l ≤ fuel)%nat → Scenario.profileSchedulesLoop ParseFloat fuel l = Ok l' →
  Forall2 marked l l' ∧ Forall (λ g, generationServed g g) (generations l').
Proof.
  revert l l'. induction fuel as [|fuel IH]; intros l l' Hlen Hl.
  - destruct l; [|cbn in Hlen; lia]. injection Hl as <-. split; [constructor|].
    constructor; [|done]. by intros ? ?%not_elem_of_nil.
  - destruct l as [|p l].
    { injection Hl as <-. split; [constructor|]. constructor; [|done]. by intros ? ?%not_elem_of_nil. }
    cbn [Scenario.profileSchedulesLoop] in Hl.
    destruct (Scenario.splitGeneration (p :: l)) as [g rest] eqn:Hsplit.
    destruct (splitGeneration_ok _ _ _ Hsplit) as (Heq & Hg & Hrest). rewrite Heq in Hlen |- *.
    apply bind_ok in Hl as (g1 & Hg1 & Hl). apply schedulesLoop_ok in Hg1 as [Hmark Hserved].
    pose proof (generationServed_schedules _ _ _ Hmark Hserved) as Hserved1.
    pose proof (Forall2_marked_stops _ _ Hmark Hg) as Hfree.
    destruct rest as [|stop rest].
    + injection Hl as <-. rewrite app_nil_r, generations_free by done.
      split; [done|]. by constructor.
    + apply bind_ok in Hl as (rest' & Hrest' & [= <-]).
      rewrite length_app in Hlen. cbn in Hlen. apply IH in Hrest' as [Hm Hgs]; [|lia].
      split; [apply Forall2_app; [done|]; constructor; [apply marked_refl|done]|].
      rewrite generations_stop by done. by constructor.
Qed.

(** *** What the marking keeps *)
Lemma marked_startJob known p q : marked p q → startJob known q = startJob known p.
Proof. by intros [-> | ->]. Qed.
Lemma marked_started known l l' : Forall2 marked l l' → foldl startJob known l' = foldl startJob known l.
Proof.
  intros Hm. revert known. induction Hm as [|p q l l' Hpq Hl IH]; intros known; [done|].
  cbn. by rewrite (marked_startJob _ p q).
Qed.
Lemma marked_sound known p q : marked p q → sound known p → sound known q.
Proof.
  intros [-> | ->] [Hw Hj Hf Hp Hr Hs]; [by constructor|].
  constructor; try done. intros Hjoin. destruct (Hr Hjoin). by constructor.
Qed.

(** *** The groups attacks target *)
(** Every group an attack of the generation selects joins in it. *)
Definition targetsKnown (g : list Phase.t) : Prop :=
  ∀ p selector group, p ∈ g → Scenario.isJoin p = true →
    Some selector ∈ Attacks.AttackSelectors (NodeConfig.attacks (Phase.Node p)) →
    group ∈ elems (AttackSelector.Groups selector) →
    ∃ q, q ∈ g ∧ Scenario.isJoin q = true ∧ Phase.Group q = group.

Lemma checkAttackGroups_ok g :
  checkAll (Scenario.checkAttackGroups (Scenario.joinGroups g)) g = Ok tt → targetsKnown g.
Proof.
  rewrite checkAll_ok, list.Forall_forall. intros Hg p selector group Hp Hjoin Hsel Hgroup.
  specialize (Hg p Hp). unfold Scenario.checkAttackGroups in Hg. fold (Scenario.isJoin p) in Hg.
  rewrite Hjoin, checkAll_ok, list.Forall_forall in Hg. specialize (Hg _ Hsel). cbn in Hg.
  rewrite checkAll_ok, list.Forall_forall in Hg. specialize (Hg _ Hgroup). cbv beta in Hg.
  rewrite fail_if_ok, negb_false_iff in Hg. apply bool_decide_eq_true_1 in Hg.
  apply list_elem_of_fmap in Hg as (q & -> & Hq). apply list_elem_of_filter in Hq as [Ha Hq].
  by exists q.
Qed.

Lemma generation_ok l :
  ∀ g rest, Scenario.generation l = (g, rest) →
  generations l = [g] ∧ rest = [] ∨
  generations l = g :: generations rest ∧ (length rest < length l)%nat.
Proof.
  induction l as [|p l IH]; intros g rest Hg; cbn in Hg; [injection Hg as <- <-; by left|].
  fold (stops p) in Hg. cbn. destruct (stops p) eqn:Hp; [injection Hg as <- <-; right; auto|].
  destruct (Scenario.generation l) as [g1 r1]. injection Hg as <- <-.
  destruct (IH _ _ eq_refl) as [[-> ->] | [-> ?]]; [by left|right]. split; [done|lia].
Qed.

Lemma attackSelectorsLoop_ok fuel l :
  (length l ≤ fuel)%nat → Scenario.attackSelectorsLoop fuel l = Ok tt →
  Forall targetsKnown (generations l).
Proof.
  assert (targetsKnown []) as Hnil by (intros p ? ? Hp; by apply not_elem_of_nil in Hp).
  revert l. induction fuel as [|fuel IH]; intros l Hlen Hl.
  { destruct l; [|cbn in Hlen; lia]. by constructor. }
  destruct l as [|p l]; [by constructor|]. cbn [Scenario.attackSelectorsLoop] in Hl.
  destruct (Scenario.generation (p :: l)) as [g rest] eqn:Hg. rewrite seq_ok in Hl.
  destruct Hl as [Hcheck%checkAttackGroups_ok Hl].
  destruct (generation_ok _ _ _ Hg) as [[-> _] | [-> Hr]]; [by constructor|].
  constructor; [done|]. apply IH; [|done]. cbn in Hlen, Hr. lia.
Qed.

Lemma marked_generations l l' :
  Forall2 marked l l' → Forall2 (Forall2 marked) (generations l) (generations l').
Proof.
  induction 1 as [|p q l l' Hpq Hl IH]; [by repeat constructor|]. cbn.
  rewrite (marked_stops p q) by done. destruct (stops p); [by constructor; [constructor|done]|].
  inversion IH; subst; repeat (done || constructor).
Qed.

Lemma targetsKnown_marked g g' : Forall2 marked g g' → targetsKnown g → targetsKnown g'.
Proof.
  intros Hm Hg p' selector group Hp Hjoin Hsel Hgroup.
  destruct (Forall2_marked_from _ _ _ Hm Hp) as (p & Hp' & Hpq).
  destruct (Hg p selector group Hp') as (q & Hq & Hj & Hqg);
    [by destruct Hpq as [-> | ->]|by destruct Hpq as [-> | ->]|done|].
  destruct (Forall2_marked_in _ _ _ Hm Hq) as (q' & Hq' & Hqq). exists q'.
  destruct Hqq as [-> | ->]; by split_and!.
Qed.

Lemma marked_phases phases l :
  (∀ pre p post, phases = pre ++ p :: post → sound (started pre) p) → Forall2 marked phases l →
  ∀ pre p post, l = pre ++ p :: post → sound (started pre) p.
Proof.
  intros Hsound Hm pre p post ->.
  apply Forall2_app_inv_r in Hm as (pre0 & rest & Hpre & Hrest & ->).
  apply Forall2_cons_inv_r in Hrest as (p0 & post0 & Hp & _ & ->).
  unfold started. rewrite (marked_started ∅ _ _ Hpre). eapply marked_sound; [exact Hp|].
  by eapply Hsound.
Qed.

(** ** The theorems *)
Lemma scenario_Validate_ok s s' :
  Scenario.Validate ParseFloat s = Ok s' → ∃ phases,
  (∀ pre p post, phases = pre ++ p :: post → sound (started pre) p) ∧
  Forall targetsKnown (generations phases) ∧
  Forall2 marked phases (Scenario.Phases s') ∧
  Forall (λ g, generationServed g g) (generations (Scenario.Phases s')) ∧
  Scenario.OnExit s' ∈ ["cancel";"drain"]%string.
Proof.
  unfold Scenario.Validate. cbv zeta. intros Hv. rewrite seq_ok in Hv. destruct Hv as [Hheader Hv].
  rewrite seq_ok in Hv. destruct Hv as [_ Hv]. apply bind_ok in Hv as (phases & Hphases & Hv).
  rewrite seq_ok in Hv. destruct Hv as [Hattack Hv]. apply bind_ok in Hv as (final & Hfinal & [= <-]).
  apply profileSchedulesLoop_ok in Hfinal as [Hm Hs]; [|done]. exists phases. split_and!; try done.
  - intros pre p post Heq. exact (phasesLoop_ok _ _ _ _ _ Hphases pre p post Heq).
  - by eapply attackSelectorsLoop_ok.
  - unfold Scenario.checkHeader in Hheader. rewrite !fail_if_seq_ok in Hheader.
    destruct Hheader as (_ & _ & _ & He & _). apply negb_false_iff in He.
    by apply bool_decide_eq_true_1 in He.
Qed.

(** C7: in an accepted scenario every phase fits the phases before it: a waiting
    phase only names jobs started in the background since the last [stop-all], a
    background phase has an action that may run in the background and a job name
    no running job has, and every join carries the complete, valid configuration
    from which its Peers are created, with a role its attacks allow. *)
Theorem accepted_phases_sound s s' pre p post :
  Scenario.Validate ParseFloat s = Ok s' → Scenario.Phases s' = pre ++ p :: post →
  sound (started pre) p.
Proof.
  intros (phases & Hsound & _ & Hm & _)%scenario_Validate_ok. by eapply marked_phases.
Qed.

(** C8: in each generation of an accepted scenario, every join a schedule selects
    can take it: it was given network capability when a change patches the
    network and, when the schedule selects by profile, the changes apply to its
    configuration one after the other, each result valid and allowed for its
    role; such a schedule selects some join; and every group an attack targets
    joins in the generation. *)
Theorem accepted_generations_served s s' :
  Scenario.Validate ParseFloat s = Ok s' →
  Forall (λ g, generationServed g g ∧ targetsKnown g) (generations (Scenario.Phases s')).
Proof.
  intros (phases & _ & Ht & Hm & Hs & _)%scenario_Validate_ok. apply marked_generations in Hm.
  revert Ht Hs. induction Hm as [|g g' l l' Hg Hl IH]; intros Ht Hs; [done|].
  inversion Ht; inversion Hs; subst. constructor; [|auto]. split; [done|].
  by eapply targetsKnown_marked.
Qed.
End props.

Module ScenarioExamples.
#[local] Existing Instances ProfileExamples.codec ProfileExamples.codecLaws ProfileExamples.cidrs
  ProfileExamples.pubsubLib.
Definition parse : string → option float := ProfileExamples.parse.

(** A phase with the given action, name of its job, jobs, and whether it is awaited. *)
Definition phase (action job : string) (jobs : list string) (await : bool) (group : string)
    (count : Z) (schedule : option ProfileSchedule.t) : Phase.t :=
  Phase.mk "" job (Some jobs) action "" "" "" group None None "" "" "" count 0 false 0 (Some await)
    "" "" "" F64.zero 0 0 "" "" "" None schedule false zeroDistribution zeroDistribution
    NodeConfig.zero.

(** Ten workers join in the background; once they are ready their link is
    delayed for the whole group, then everything stops and a new group joins. *)
Definition slowdown : RuntimeProfilePatch.t :=
  RuntimeProfilePatch.mk None None None None None
    (Some (mkNetwork None "" "40ms" None "" "" None None None None None None None None)).
Definition scenario : Scenario.t :=
  Scenario.mk 4 "slow" 7 "" "" None
    [phase "join" "boot" [] false "workers" 10 None;
     phase "wait-ready" "" ["boot"]%string true "workers" 0 None;
     phase "schedule" "" [] true "workers" 0
       (Some (ProfileSchedule.mk "" [mkProfileChange "1s" slowdown]));
     phase "reset" "" [] true "" 0 None;
     phase "join" "boot" [] false "workers" 2 None].
Definition completed : Scenario.t :=
  match Scenario.Validate parse scenario with Ok s => s | _ => scenario end.
Definition phases : list Phase.t := Scenario.Phases completed.
Definition waiting : Phase.t := nth 1 phases (phase "" "" [] true "" 0 None).

Lemma scenario_accepted : Scenario.Validate parse scenario = Ok completed.
Proof. vm_compute. reflexivity. Qed.
Lemma phases_waiting : phases = take 1 phases ++ waiting :: drop 2 phases.
Proof. vm_compute. reflexivity. Qed.
Lemma waiting_waits : waits waiting = true.
Proof. vm_compute. reflexivity. Qed.
Lemma waiting_jobs : elems (Phase.Jobs waiting) = ["boot"%string].
Proof. vm_compute. reflexivity. Qed.

Lemma accepted_phases_sound_witness : "boot"%string ∈ started (take 1 phases).
Proof.
  pose proof (accepted_phases_sound parse scenario completed (take 1 phases) waiting (drop 2 phases)
                scenario_accepted phases_waiting) as Hsound.
  pose proof (s_waits _ _ _ Hsound waiting_waits) as Hjobs. rewrite waiting_jobs in Hjobs.
  exact (Forall_inv Hjobs).
Defined.

Lemma generations_count : length (generations phases) = 2%nat.
Proof. vm_compute. reflexivity. Qed.

Lemma accepted_generations_served_witness :
  length (generations phases) = 2%nat ∧
  Forall (λ g, generationServed parse g g ∧ targetsKnown g) (generations phases).
Proof.
  exact (conj generations_count
           (accepted_generations_served parse scenario completed scenario_accepted)).
Defined.
End ScenarioExamples.
