(* ===== verification/PhaseJobs.v ===== *)
(** * The jobs of one run

    [internal/controller/jobs.go]: the registry of a run's background phases, their
    selection, and the wait for them.  A job is an address in [heap]; the
    broadcast channel [changed] is a number, the channels below it being closed.
    Every operation holds [mu] throughout, except the wait, which is one step per
    round of its loop.  Go's map order is that of [map_to_list]; it decides only
    which running job an error names. *)
From Stdlib Require Import ZArith Lia.
From stdpp Require Import strings list gmap sorting.
From S2P Require Import Prelude.
From S2P Require Import GoStd.
Open Scope Z_scope.

(** ** Errors

    An error is the tree [errors.Is] inspects: the context's two errors, those of
    the registry, those of code that is not modelled, [fmt.Errorf("…%w")] and
    [errors.Join]. *)
Inductive error :=
| Canceled
| DeadlineExceeded
| jobExists (id : string)
| jobRunning (id : string)
| jobNotFound (id : string)
| outside (message : string)
| wrapped (prefix : string) (e : error)
| joined (l : list error).

(** [errors.Is(e, context.Canceled)] *)
Fixpoint isCanceled (e : error) : bool :=
  match e with
  | Canceled => true
  | wrapped _ e => isCanceled e
  | joined l => existsb isCanceled l
  | _ => false
  end.

(** [errors.Join]: nil when all its arguments are. *)
Definition Join (l : list (option error)) : option error :=
  match omap id l with [] => None | l => Some (joined l) end.

Module PhaseJobs.
(** [phaseJob]: [done] is a closed channel; [canceled] that its context is. *)
Record phaseJob := mkJob { done : bool; err : option error; canceled : bool }.
Record phaseJobs := mkJobs { heap : list phaseJob; jobs : gmap string nat; changed : nat }.

Definition newPhaseJobs : phaseJobs := mkJobs [] ∅ 0.

(** [startJob], for the [cancel] of [startContext]: the new job's address. *)
Definition startJob (id : string) (j : phaseJobs) : (error + nat) * phaseJobs :=
  match jobs j !! id with
  | Some _ => (inl (jobExists id), j)
  | None =>
      let p := length (heap j) in
      (inr p, mkJobs (heap j ++ [mkJob false None false]) (<[id := p]> (jobs j)) (changed j))
  end.

(** The end of a job's goroutine; closing [done] twice would panic. *)
Definition finishJob (p : nat) (e : option error) (j : phaseJobs) : res phaseJobs :=
  job ← deref (heap j !! p);
  if done job then Panic
  else Ok (mkJobs (<[p := mkJob true e (canceled job)]> (heap j)) (jobs j) (S (changed j))).

(** [cancelAll]: the contexts of the registered jobs. *)
Definition cancelJob (h : list phaseJob) (p : nat) : list phaseJob :=
  alter (λ job, mkJob (done job) (err job) true) p h.
Definition cancelAll (j : phaseJobs) : phaseJobs :=
  mkJobs (foldl cancelJob (heap j) (map_to_list (jobs j)).*2) (jobs j) (changed j).

Definition isDone (j : phaseJobs) (p : nat) : bool := from_option done false (heap j !! p).

(** [reset] *)
Definition reset (j : phaseJobs) : option error * phaseJobs :=
  match filter (λ '(_, p), isDone j p = false) (map_to_list (jobs j)) with
  | (id, _) :: _ => (Some (jobRunning id), j)
  | [] => (None, mkJobs (heap j) ∅ (changed j))
  end.

(** [selectJobs]: the selected jobs without duplicates, in order. *)
Fixpoint selectLoop (j : phaseJobs) (seen : gset string) (ids : list string) :
    error + list (string * nat) :=
  match ids with
  | [] => inr []
  | id :: ids =>
      match jobs j !! id with
      | None => inl (jobNotFound id)
      | Some p =>
          if bool_decide (id ∈ seen) then selectLoop j seen ids
          else match selectLoop j ({[id]} ∪ seen) ids with
               | inr l => inr ((id, p) :: l)
               | e => e
               end
      end
  end.
Definition selectJobs (ids : list string) (j : phaseJobs) : error + list (string * nat) :=
  let ids := match ids with
             | [] => merge_sort (λ a b, String.leb a b) (map_to_list (jobs j)).*1
             | _ => ids
             end in
  selectLoop j ∅ ids.

(** ** [waitSelected] *)
(** What a waiter still waits for, and the broadcast it blocks on. *)
Record waiter := mkWaiter { failFast : bool; pending : list (string * nat); watching : option nat }.

(** One scan of the pending jobs. *)
Fixpoint scan (failFast : bool) (j : phaseJobs) (l : list (string * nat)) :
    error + list (string * nat) :=
  match l with
  | [] => inr []
  | (id, p) :: l =>
      match heap j !! p with
      | Some (mkJob true e _) =>
          match (if failFast then e else None) with
          | Some e => inl (wrapped "job" e)
          | None => scan failFast j l
          end
      | _ => match scan failFast j l with inr l => inr ((id, p) :: l) | e => e end
      end
  end.

(** How a wait goes on: it is over with a result, or it waits. *)
Inductive waitResult := waitOver (e : option error) | waitOn (w : waiter).

(** [waitSelected] up to its loop. *)
Definition startWait (failFast : bool) (ids : list string) (j : phaseJobs) : waitResult :=
  match selectJobs ids j with
  | inl e => waitOver (Some e)
  | inr [] => waitOver None
  | inr l => waitOn (mkWaiter failFast l None)
  end.

(** One round of the loop when [waitCtx.Err()] is [ctxErr]; [None] while the
    waiter blocks. *)
Definition waitRound (ctxErr : option error) (w : waiter) (j : phaseJobs) : option waitResult :=
  match ctxErr with
  | Some e =>
      Some (waitOver (Some (wrapped (if failFast w then "wait for jobs"
                                     else "wait for jobs to stop") e)))
  | None =>
      if from_option (λ c, bool_decide (c = changed j)) false (watching w) then None
      else Some
        match scan (failFast w) j (pending w) with
        | inl e => waitOver (Some e)
        | inr [] => waitOver None
        | inr l => waitOn (mkWaiter (failFast w) l (Some (changed j)))
        end
  end.
End PhaseJobs.
