(* ===== verification/PhaseJobsProps.v ===== *)
(** * Properties of a run's jobs

    What selecting, scanning, finishing and forgetting jobs do to the registry. *)
From Stdlib Require Import ZArith Lia.
From stdpp Require Import strings list gmap sorting.
From S2P Require Import Prelude.
From S2P Require Import GoStd.
From S2P Require Import PhaseJobs.
Import PhaseJobs.

(** The job at [p] ended with [e]. *)
Definition endedWith (j : phaseJobs) (p : nat) (e : option error) : Prop :=
  ∃ c, heap j !! p = Some (mkJob true e c).

Lemma isDone_ended j p : isDone j p = true ↔ ∃ e, endedWith j p e.
Proof.
  unfold isDone, endedWith. destruct (heap j !! p) as [[[] e c]|]; cbn; naive_solver.
Qed.

(** ** Selection *)
Lemma selectLoop_ok j seen ids :
  Forall (λ id, id ∈ dom (jobs j)) ids →
  ∃ l, selectLoop j seen ids = inr l ∧
    (∀ id p, (id, p) ∈ l → jobs j !! id = Some p) ∧
    (∀ id p, id ∈ ids → id ∉ seen → jobs j !! id = Some p → (id, p) ∈ l).
Proof.
  revert seen. induction ids as [|id ids IH]; intros seen Hall.
  { exists []. split_and!; [done|by intros ? ? ?%not_elem_of_nil|by intros ? ? ?%not_elem_of_nil]. }
  inversion Hall as [|? ? [p Hp]%elem_of_dom Hall']; subst. cbn. rewrite Hp.
  case_bool_decide as Hseen.
  - destruct (IH seen Hall') as (l & -> & Hl & Hc). exists l. split_and!; [done|done|].
    intros id' p' [->|Hin]%elem_of_cons; [done|by apply Hc].
  - destruct (IH ({[id]} ∪ seen) Hall') as (l & -> & Hl & Hc).
    exists ((id, p) :: l). split_and!; [done| |].
    + intros id' p' [[= -> ->]|Hin]%elem_of_cons; [done|by apply Hl].
    + intros id' p' Hin Hns Hp'. destruct (decide (id' = id)) as [->|Hne].
      * rewrite Hp in Hp'. injection Hp' as ->. by apply elem_of_cons; left.
      * apply elem_of_cons. right. apply elem_of_cons in Hin as [->|Hin]; [done|].
        apply Hc; [done|set_solver|done].
Qed.

Lemma selectJobs_ok j ids :
  Forall (λ id, id ∈ dom (jobs j)) ids →
  ∃ l, selectJobs ids j = inr l ∧ (∀ id p, (id, p) ∈ l → jobs j !! id = Some p) ∧
    (ids = [] → ∀ id p, jobs j !! id = Some p → (id, p) ∈ l).
Proof.
  intros Hall. unfold selectJobs.
  assert (∀ id, id ∈ merge_sort (λ a b, String.leb a b) (map_to_list (jobs j)).*1 ↔ id ∈ dom (jobs j))
    as Hids.
  { intros id. rewrite merge_sort_Permutation, elem_of_dom, list_elem_of_fmap. split.
    - intros ([? p] & -> & Hp%elem_of_map_to_list). by exists p.
    - intros [p Hp]. exists (id, p). by rewrite elem_of_map_to_list. }
  destruct ids as [|id ids].
  - destruct (selectLoop_ok j ∅ (merge_sort (λ a b, String.leb a b) (map_to_list (jobs j)).*1))
      as (l & -> & Hl & Hc).
    { apply list.Forall_forall. intros id. by rewrite Hids. }
    exists l. split_and!; [done|done|]. intros _ id p Hp. apply Hc; [|set_solver|done].
    apply Hids, elem_of_dom. by exists p.
  - destruct (selectLoop_ok j ∅ (id :: ids) Hall) as (l & -> & Hl & _). by exists l.
Qed.

Lemma startWait_ok ff ids j :
  Forall (λ id, id ∈ dom (jobs j)) ids →
  match startWait ff ids j with
  | waitOver e => e = None ∧ (ids = [] → jobs j = ∅)
  | waitOn w => failFast w = ff ∧ watching w = None ∧ pending w ≠ [] ∧
      (∀ id p, (id, p) ∈ pending w → jobs j !! id = Some p) ∧
      (ids = [] → ∀ id p, jobs j !! id = Some p → (id, p) ∈ pending w)
  end.
Proof.
  intros Hall. unfold startWait. destruct (selectJobs_ok j ids Hall) as (l & -> & Hl & Hc).
  destruct l as [|x l]; [|by split_and!]. split; [done|]. intros Hnil. apply map_empty. intros id.
  destruct (jobs j !! id) as [p|] eqn:Hp; [|done]. by specialize (Hc Hnil id p Hp) as ?%not_elem_of_nil.
Qed.

(** ** Scanning *)
Lemma scan_ok ff j l l' :
  scan ff j l = inr l' →
  (∀ id p, (id, p) ∈ l' → (id, p) ∈ l ∧ isDone j p = false) ∧
  (∀ id p, (id, p) ∈ l → (id, p) ∈ l' ∨ ∃ e, endedWith j p e ∧ (ff = true → e = None)).
Proof.
  revert l'. induction l as [|[id p] l IH]; intros l' Hs; cbn in Hs.
  { injection Hs as <-. split; [by intros ? ? ?%not_elem_of_nil|by intros ? ? ?%not_elem_of_nil]. }
  assert ((∃ e c, heap j !! p = Some (mkJob true e c) ∧ (if ff then e else None) = None ∧
            scan ff j l = inr l') ∨
          (∃ l1, isDone j p = false ∧ scan ff j l = inr l1 ∧ l' = (id, p) :: l1))
    as [(e & c & Hp & He & Hs')|(l1 & Hp & Hs' & ->)].
  { unfold isDone. destruct (heap j !! p) as [[[] e c]|].
    - left. exists e, c. destruct (if ff then e else None); [done|]. done.
    - right. destruct (scan ff j l) as [|l1]; [done|]. injection Hs as <-. by exists l1.
    - right. destruct (scan ff j l) as [|l1]; [done|]. injection Hs as <-. by exists l1. }
  - destruct (IH _ Hs') as [H1 H2]. split.
    + intros id' p' Hin. destruct (H1 _ _ Hin). split; [by apply elem_of_cons; right|done].
    + intros id' p' [[= -> ->]|Hin]%elem_of_cons; [|by apply H2].
      right. exists e. split; [by exists c|]. by intros ->.
  - destruct (IH _ Hs') as [H1 H2]. split.
    + intros id' p' [[= -> ->]|Hin]%elem_of_cons; [split; [by apply elem_of_cons; left|done]|].
      destruct (H1 _ _ Hin). split; [by apply elem_of_cons; right|done].
    + intros id' p' [[= -> ->]|Hin]%elem_of_cons; [left; by apply elem_of_cons; left|].
      destruct (H2 _ _ Hin) as [?|?]; [left; by apply elem_of_cons; right|by right].
Qed.

Lemma scan_error ff j l e :
  scan ff j l = inl e →
  ff = true ∧ ∃ id p e', (id, p) ∈ l ∧ endedWith j p (Some e') ∧ e = wrapped "job" e'.
Proof.
  induction l as [|[id p] l IH]; cbn; [done|]. intros Hs.
  assert (scan ff j l = inl e ∨ ff = true ∧ ∃ e' c, heap j !! p = Some (mkJob true (Some e') c) ∧
    e = wrapped "job" e') as [Hl|(-> & e' & c & Hp & ->)].
  { destruct (heap j !! p) as [[[] e0 c]|].
    - destruct ff; [|by left]. destruct e0 as [e0|]; [|by left]. injection Hs as <-. right.
      split; [done|]. by exists e0, c.
    - left. by destruct (scan ff j l).
    - left. by destruct (scan ff j l). }
  - destruct (IH Hl) as (-> & id' & p' & e' & Hin & He). split; [done|]. exists id', p', e'.
    split; [by apply elem_of_cons; right|done].
  - split; [done|]. exists id, p, e'. split_and!; [by apply elem_of_cons; left|by exists c|done].
Qed.

(** ** Finishing, cancelling, forgetting *)
Lemma reset_ok j :
  (∀ id p, jobs j !! id = Some p → isDone j p = true) →
  reset j = (None, mkJobs (heap j) ∅ (changed j)).
Proof.
  intros Hd. unfold reset.
  destruct (filter _ (map_to_list (jobs j))) as [|[id p] l] eqn:Hf; [done|].
  assert ((id, p) ∈ filter (λ '(_, p), isDone j p = false) (map_to_list (jobs j))) as Hin
    by (rewrite Hf; by apply elem_of_cons; left).
  apply list_elem_of_filter in Hin as [Hn Hin%elem_of_map_to_list]. by rewrite (Hd _ _ Hin) in Hn.
Qed.

Lemma cancelJob_lookup h p q :
  cancelJob h q !! p = (λ job, mkJob (done job) (err job) (canceled job || bool_decide (p = q))) <$> h !! p.
Proof.
  unfold cancelJob. destruct (decide (p = q)) as [->|Hne].
  - rewrite list_lookup_alter_eq, bool_decide_eq_true_2 by done. destruct (h !! q) as [[]|]; cbn; [|done].
    by rewrite orb_true_r.
  - rewrite list_lookup_alter_ne, bool_decide_eq_false_2 by done. destruct (h !! p) as [[]|]; cbn; [|done].
    by rewrite orb_false_r.
Qed.

Lemma cancelJobs_same h l :
  (λ job, (done job, err job)) <$> foldl cancelJob h l = (λ job, (done job, err job)) <$> h.
Proof.
  revert h. induction l as [|q l IH]; intros h; [done|]. cbn. rewrite IH. apply list_eq. intros p.
  rewrite !list_lookup_fmap, cancelJob_lookup. by destruct (h !! p).
Qed.

Lemma cancelAll_length j : length (heap (cancelAll j)) = length (heap j).
Proof.
  pose proof (f_equal length (cancelJobs_same (heap j) (map_to_list (jobs j)).*2)) as Hl.
  by rewrite !length_fmap in Hl.
Qed.

Lemma cancelAll_ended j p e : endedWith (cancelAll j) p e ↔ endedWith j p e.
Proof.
  pose proof (f_equal (.!! p) (cancelJobs_same (heap j) (map_to_list (jobs j)).*2)) as Hl.
  cbn in Hl. rewrite !list_lookup_fmap in Hl. unfold endedWith, cancelAll. cbn.
  destruct (foldl _ _ _ !! p) as [[d1 e1 c1]|], (heap j !! p) as [[d2 e2 c2]|]; cbn in Hl;
    try done; naive_solver.
Qed.

Lemma finishJob_ok p e j job :
  heap j !! p = Some job → done job = false →
  ∃ j', finishJob p e j = Ok j' ∧ jobs j' = jobs j ∧ changed j' = S (changed j) ∧
    length (heap j') = length (heap j) ∧
    (∀ q e', endedWith j' q e' ↔ (q = p ∧ e' = e) ∨ (q ≠ p ∧ endedWith j q e')).
Proof.
  intros Hp Hd. unfold finishJob. rewrite Hp. cbn. rewrite Hd. eexists. split_and!; try done.
  { cbn. by rewrite length_insert. }
  intros q e'. unfold endedWith. cbn. destruct (decide (q = p)) as [->|Hne].
  - rewrite list_lookup_insert_eq by (by eapply lookup_lt_Some). naive_solver.
  - rewrite list_lookup_insert_ne by done. naive_solver.
Qed.
