(* ===== verification/Runner.v ===== *)
(** * Running an experiment

    [runScenario] and [runPhase] of [internal/controller/runner.go]: the goroutine
    that executes a scenario's phases, the background jobs it starts, and the
    final state of the run.

    A run is a transition system.  The main goroutine and the goroutine of each
    job take one step per blocking operation or critical section, interleaved in
    any order; a [choice] names the goroutine that moves and what it meets: the
    result of an operation on Agents (join, publish, readiness barrier, cleanup …),
    an expired deadline, a stop request or a full disk.  Random draws, timestamps,
    logs and the persistence of the run's record are not part of the state; the
    record exists, as it does for a run that is executing. *)
From Stdlib Require Import ZArith Lia.
From stdpp Require Import strings list gmap sorting.
From S2P Require Import Prelude.
From S2P Require Import GoStd.
From S2P Require Import GoStrings.
From S2P Require Import Network.
From S2P Require Import Attacks.
From S2P Require Import GossipSubConfig.
From S2P Require Import Scenario.
From S2P Require Import PhaseJobs.
Import PhaseJobs.
Open Scope Z_scope.

(** The errors of code that is not modelled. *)
Inductive outcome := succeeds | isCancelled | timesOut | fails (message : string).
Definition asError (o : outcome) : option error :=
  match o with
  | succeeds => None
  | isCancelled => Some Canceled
  | timesOut => Some DeadlineExceeded
  | fails m => Some (outside m)
  end.

Module Runner.
(** ** State *)
(** A job's goroutine: in [run], between [run] and [completed], between
    [completed] and the critical section of [startJob], ended. *)
Inductive thread := running | returned (e : option error) | reported (e : option error)
| ended (e : option error).

(** Where the main goroutine is.  [i] is the phase, [r] the repetition. *)
Inductive pc :=
| preparing                                (* [prepareExperimentNetwork] *)
| atPhase (i : nat)                        (* the head of the loop over the phases *)
| atRepetition (i r : nat)                 (* the head of the loop of [execute] *)
| waitingReady (i r : nat) (w : waiter)    (* [jobs.wait] of wait-ready *)
| waitingJobs (i r : nat) (w : waiter)     (* [jobs.wait] of wait-jobs *)
| stoppingJobs (i r : nat) (w : waiter)    (* [jobs.waitDone] of stop-all *)
| stoppingPeers (i r : nat)                (* [stopRunGeneration] and the refresh *)
| acting (i r : nat)                       (* an operation on Agents, or a sleep *)
| draining (w : waiter)                    (* [jobs.wait] of onExit: drain *)
| cleaningJobs (w : waiter)                (* [jobs.waitDone] before the end *)
| retiring (cleanupErr : option error)     (* about to retire the cancel handle *)
| concluding (cleanupErr : option error)   (* the handle is retired *)
| finished (result : option error) (state cleanupState dataState : string).

Record counters := mkCounters { ActiveJobs : Z; CompletedJobs : Z; CanceledJobs : Z; FailedJobs : Z }.

(** [ctxDone] and [parentDone]: the contexts are cancelled. *)
Record run := mkRun {
  main : pc; jobs : phaseJobs; threads : list thread; generation : Z; ctxDone : bool;
  parentDone : bool; asyncErr : option error; runErr : option error; counts : counters }.

Definition setMain (p : pc) (s : run) : run :=
  mkRun p (jobs s) (threads s) (generation s) (ctxDone s) (parentDone s) (asyncErr s) (runErr s)
    (counts s).
Definition setJobs (j : phaseJobs) (s : run) : run :=
  mkRun (main s) j (threads s) (generation s) (ctxDone s) (parentDone s) (asyncErr s) (runErr s)
    (counts s).
Definition setThreads (t : list thread) (s : run) : run :=
  mkRun (main s) (jobs s) t (generation s) (ctxDone s) (parentDone s) (asyncErr s) (runErr s)
    (counts s).
Definition setGeneration (g : Z) (s : run) : run :=
  mkRun (main s) (jobs s) (threads s) g (ctxDone s) (parentDone s) (asyncErr s) (runErr s)
    (counts s).
Definition cancelScenario (s : run) : run :=
  mkRun (main s) (jobs s) (threads s) (generation s) true (parentDone s) (asyncErr s) (runErr s)
    (counts s).
Definition setAsyncErr (e : option error) (s : run) : run :=
  mkRun (main s) (jobs s) (threads s) (generation s) (ctxDone s) (parentDone s) e (runErr s)
    (counts s).
Definition setRunErr (e : option error) (s : run) : run :=
  mkRun (main s) (jobs s) (threads s) (generation s) (ctxDone s) (parentDone s) (asyncErr s) e
    (counts s).
Definition setCounts (c : counters) (s : run) : run :=
  mkRun (main s) (jobs s) (threads s) (generation s) (ctxDone s) (parentDone s) (asyncErr s)
    (runErr s) c.

Section run.
(** The scenario, [experiment.Repetitions] and whether a network manager is
    configured. *)
Context (spec : Scenario.t) (repetitions : Z) (networkManager : bool).

(** ** Leaving the loop *)
Definition ctxErr (s : run) : option error := if ctxDone s then Some Canceled else None.

(** The end of the loop, once the drain is over: the jobs are cancelled and
    awaited when the run failed or its scenario cancels on exit. *)
Definition stopJobs (s : run) : run :=
  if negb (isNil (runErr s)) || bool_decide (Scenario.OnExit spec = "cancel"%string) then
    let s := cancelScenario s in
    let s := setJobs (cancelAll (jobs s)) s in
    match startWait false [] (jobs s) with
    | waitOver e => setMain (retiring (Join [wrapped "stop background jobs" <$> e])) s
    | waitOn w => setMain (cleaningJobs w) s
    end
  else setMain (retiring None) (cancelScenario s).

Definition leaveLoop (s : run) : run :=
  if isNil (runErr s) && bool_decide (Scenario.OnExit spec = "drain"%string) then
    match startWait true [] (jobs s) with
    | waitOver e => stopJobs (setRunErr e s)
    | waitOn w => setMain (draining w) s
    end
  else stopJobs s.

(** The phase returned [e]. *)
Definition endPhase (i : nat) (e : option error) (s : run) : run :=
  match e with
  | Some e => leaveLoop (setRunErr (Some e) s)
  | None =>
      let stop := from_option (λ p, Phase.actionIn p ["stop-all"]%string) false
                    (Scenario.Phases spec !! i) in
      setMain (atPhase (S i)) (if stop then setGeneration (generation s + 1) s else s)
  end.

(** One repetition returned [e]. *)
Definition endRepetition (i r : nat) (e : option error) (s : run) : run :=
  match e with
  | Some e => endPhase i (Some e) s
  | None => setMain (atRepetition i (S r)) s
  end.

(** ** [runPhase], on the main goroutine *)
(** The rest of stop-all once the jobs have stopped. *)
Definition afterStopJobs (i r : nat) (e : option error) (s : run) : run :=
  match e with
  | Some e => endRepetition i r (Some (wrapped "stop background jobs before stop-all" e)) s
  | None =>
      let '(e, j) := reset (jobs s) in
      match e with
      | Some e => endRepetition i r (Some (wrapped "reset background jobs before stop-all" e)) s
      | None => setMain (stoppingPeers i r) (setJobs j s)
      end
  end.

Definition runPhase (i r : nat) (p : Phase.t) (s : run) : run :=
  if Phase.actionIn p ["wait-ready"]%string then
    match elems (Phase.Jobs p) with
    | [] => setMain (acting i r) s
    | ids =>
        match startWait true ids (jobs s) with
        | waitOver (Some e) => endRepetition i r (Some e) s
        | waitOver None => setMain (acting i r) s
        | waitOn w => setMain (waitingReady i r w) s
        end
    end
  else if Phase.actionIn p ["wait-jobs"]%string then
    match startWait true (elems (Phase.Jobs p)) (jobs s) with
    | waitOver e => endRepetition i r e s
    | waitOn w => setMain (waitingJobs i r w) s
    end
  else if Phase.actionIn p ["stop-all"]%string then
    let s := setJobs (cancelAll (jobs s)) s in
    match startWait false [] (jobs s) with
    | waitOver e => afterStopJobs i r e s
    | waitOn w => setMain (stoppingJobs i r w) s
    end
  else setMain (acting i r) s.

(** [execute] at the head of its loop. *)
Definition repeatPhase (i r : nat) (s : run) : run :=
  match Scenario.Phases spec !! i with
  | Some p =>
      if Z.of_nat r <? Phase.Repeat p then
        match ctxErr s with
        | Some e => endPhase i (Some e) s
        | None => runPhase i r p s
        end
      else endPhase i None s
  | None => s
  end.

(** The body of the loop over the phases. *)
Definition startPhase (i : nat) (s : run) : run :=
  match Scenario.Phases spec !! i with
  | None => leaveLoop s
  | Some p =>
      match ctxErr s with
      | Some e => leaveLoop (setRunErr (Some e) s)
      | None =>
          if Phase.ShouldAwait p then setMain (atRepetition i 0) s
          else
            let c := counts s in
            match startJob (Phase.Job p) (jobs s) with
            | (inl e, j) => endPhase i (Some e) (setJobs j s)
            | (inr _, j) =>
                endPhase i None
                  (setCounts (mkCounters (ActiveJobs c + 1) (CompletedJobs c) (CanceledJobs c)
                                (FailedJobs c))
                     (setThreads (threads s ++ [running]) (setJobs j s)))
            end
      end
  end.

(** ** The jobs' goroutines *)
(** [recordAsyncFailure] *)
Definition recordAsyncFailure (e : option error) (s : run) : run :=
  match e with
  | Some e =>
      if isCanceled e then s
      else if isNil (asyncErr s) then cancelScenario (setAsyncErr (Some (wrapped "job" e)) s)
      else s
  | None => s
  end.

(** The callback [completed]. *)
Definition completed (e : option error) (s : run) : run :=
  let c := counts s in
  let active := if 0 <? ActiveJobs c then ActiveJobs c - 1 else ActiveJobs c in
  let c := match e with
           | None => mkCounters active (CompletedJobs c + 1) (CanceledJobs c) (FailedJobs c)
           | Some e => if isCanceled e
                       then mkCounters active (CompletedJobs c) (CanceledJobs c + 1) (FailedJobs c)
                       else mkCounters active (CompletedJobs c) (CanceledJobs c) (FailedJobs c + 1)
           end in
  recordAsyncFailure e (setCounts c s).

(** ** The end of the run *)
(** What the final cleanup meets. *)
Record ending := mkEnding {
  noNodes : bool;                     (* no Peer of the run is active *)
  stopErr : outcome; refreshErr : outcome; drainErr : outcome; observeErr : outcome;
  flushErr : outcome; integrity : string;
  agents : Z; allDrain : bool         (* the run's Agents, and whether all can drain *) }.

(** The run's error once the handle is retired. *)
Definition settleErr (s : run) : option error :=
  if parentDone s then Some Canceled
  else match asyncErr s, runErr s with
       | Some b, None => Some b
       | Some b, Some e => if isCanceled e then Some b else Some e
       | None, e => e
       end.

Definition conclude (cleanupErr : option error) (w : ending) (s : run) : run :=
  let err := runErr s in
  let closedSingleRun := (repetitions <=? 1) && (1 <? generation s) && noNodes w in
  let '(cleanupErr, dataErr) :=
    if negb (isNil err) || negb (isNil cleanupErr) || (1 <? repetitions) then
      let stop := asError (stopErr w) in
      let dataErr := if isNil stop then asError (drainErr w) else None in
      match Join [stop; asError (refreshErr w)] with
      | Some e => (Join [cleanupErr; Some (wrapped "stop scenario peers" e)], dataErr)
      | None => (cleanupErr, dataErr)
      end
    else (cleanupErr, None) in
  let dataErr := if isNil err && isNil cleanupErr && closedSingleRun
                 then asError (drainErr w) else dataErr in
  let result := Join [err; cleanupErr; dataErr] in
  let '(result, dataErr) :=
    match asError (observeErr w) with
    | Some e => (Join [result; Some e], Join [dataErr; Some e])
    | None => (result, dataErr)
    end in
  let result := match asError (flushErr w) with
                | Some e => Join [result; Some e] | None => result end in
  let result := if empty (integrity w) then result
                else Join [result; Some (outside (integrity w))] in
  let cleanupState := (if isNil cleanupErr then "complete" else "failed")%string in
  let dataState := (if allDrain w then "complete" else "unverified")%string in
  let dataState := (if negb (isNil dataErr) || negb (empty (integrity w)) || negb (isNil cleanupErr)
                    then "incomplete" else dataState)%string in
  let retained := isNil result && (repetitions <=? 1) && negb closedSingleRun && (0 <? agents w) in
  let state := match result with
               | None => "completed"%string
               | Some _ => if from_option isCanceled false err && empty (integrity w)
                           then "canceled"%string else "failed"%string
               end in
  setMain (finished result state (if retained then "retained" else cleanupState)
             (if retained then "collecting" else dataState)) s.

(** ** Steps *)
Inductive choice :=
| stop                                     (* a stop request, or the shutdown *)
| diskFull                                 (* [watchRunStorage] *)
| proceed (expired : bool)                 (* the main goroutine; its deadline is over *)
| answer (o : outcome)                     (* an external operation returns to it *)
| finish (w : ending)
| jobReturns (p : nat) (o : outcome)
| jobReports (p : nat)
| jobEnds (p : nat).

(** A wait of the main goroutine that may end by its own deadline or by [ctx]. *)
Definition waitErr (expired canceled : bool) : option error :=
  if expired then Some DeadlineExceeded else if canceled then Some Canceled else None.

(** [None]: the goroutine cannot move. *)
Definition mainStep (expired : bool) (s : run) : option run :=
  match main s with
  | atPhase i => Some (startPhase i s)
  | atRepetition i r => Some (repeatPhase i r s)
  | waitingReady i r w =>
      match waitRound (waitErr expired (ctxDone s)) w (jobs s) with
      | Some (waitOver (Some e)) => Some (endRepetition i r (Some e) s)
      | Some (waitOver None) => Some (setMain (acting i r) s)
      | Some (waitOn w) => Some (setMain (waitingReady i r w) s)
      | None => None
      end
  | waitingJobs i r w =>
      match waitRound (waitErr expired (ctxDone s)) w (jobs s) with
      | Some (waitOver e) => Some (endRepetition i r e s)
      | Some (waitOn w) => Some (setMain (waitingJobs i r w) s)
      | None => None
      end
  | stoppingJobs i r w =>
      match waitRound (waitErr expired false) w (jobs s) with
      | Some (waitOver e) => Some (afterStopJobs i r e s)
      | Some (waitOn w) => Some (setMain (stoppingJobs i r w) s)
      | None => None
      end
  | draining w =>
      match waitRound (waitErr false (ctxDone s)) w (jobs s) with
      | Some (waitOver e) => Some (stopJobs (setRunErr e s))
      | Some (waitOn w) => Some (setMain (draining w) s)
      | None => None
      end
  | cleaningJobs w =>
      match waitRound (waitErr expired false) w (jobs s) with
      | Some (waitOver e) => Some (setMain (retiring (Join [wrapped "stop background jobs" <$> e])) s)
      | Some (waitOn w) => Some (setMain (cleaningJobs w) s)
      | None => None
      end
  | retiring e => Some (setMain (concluding e) (setRunErr (settleErr s) s))
  | preparing | stoppingPeers _ _ | acting _ _ | concluding _ | finished _ _ _ _ => None
  end.

Definition setThread (p : nat) (t : thread) (s : run) : run :=
  setThreads (<[p := t]> (threads s)) s.

(** One step; [Panic] only where the code would panic. *)
Definition step (c : choice) (s : run) : option (res run) :=
  match c with
  | stop => Some (Ok (cancelScenario (mkRun (main s) (jobs s) (threads s) (generation s) (ctxDone s)
                                        true (asyncErr s) (runErr s) (counts s))))
  | diskFull => Some (Ok (cancelScenario s))
  | proceed expired => Ok <$> mainStep expired s
  | answer o =>
      match main s with
      | preparing =>
          Some (Ok match asError o with
                   | Some e => leaveLoop (setRunErr (Some e) s)
                   | None => setMain (atPhase 0) s
                   end)
      | acting i r | stoppingPeers i r => Some (Ok (endRepetition i r (asError o) s))
      | _ => None
      end
  | finish w =>
      match main s with concluding e => Some (Ok (conclude e w s)) | _ => None end
  | jobReturns p o =>
      match threads s !! p with
      | Some running => Some (Ok (setThread p (returned (asError o)) s))
      | _ => None
      end
  | jobReports p =>
      match threads s !! p with
      | Some (returned e) => Some (Ok (setThread p (reported e) (completed e s)))
      | _ => None
      end
  | jobEnds p =>
      match threads s !! p with
      | Some (reported e) =>
          Some (j ← finishJob p e (jobs s); Ok (setThread p (ended e) (setJobs j s)))
      | _ => None
      end
  end.

Definition started : run :=
  mkRun (if networkManager then preparing else atPhase 0) newPhaseJobs [] 1 false false None None
    (mkCounters 0 0 0 0).

Inductive reachable : run → Prop :=
| reach_start : reachable started
| reach_step s c s' : reachable s → step c s = Some (Ok s') → reachable s'.
End run.
End Runner.
