(* ===== verification/RunnerInv.v ===== *)
(** * The invariant of a run

    What holds between any two steps of [Runner]: the registry, the goroutines of
    the jobs, the counters and errors agree ([base]); at each point of the main
    goroutine the registered jobs are those the scenario's static accounting
    expects, and a waiter whose broadcast is open waits for running jobs only
    ([mainOk]). *)
From Stdlib Require Import ZArith Lia.
From stdpp Require Import strings list gmap sorting.
From S2P Require Import Prelude.
From S2P Require Import GoStd.
From S2P Require Import GoStrings.
From S2P Require Import Network.
From S2P Require Import Attacks.
From S2P Require Import PeerScore.
From S2P Require Import GossipSubConfig.
From S2P Require Import NodeConfig.
From S2P Require Import ProfileScheduleProps.
From S2P Require Import Scenario.
From S2P Require Import ScenarioProps.
From S2P Require Import PhaseJobs.
From S2P Require Import PhaseJobsProps.
From S2P Require Import Runner.
Import PhaseJobs.
Import Runner.
Open Scope Z_scope.

(** ** Errors without a complaint of the registry *)
Fixpoint clean (e : error) : bool :=
  match e with
  | jobExists _ | jobRunning _ | jobNotFound _ => false
  | wrapped _ e => clean e
  | joined l => forallb clean l
  | Canceled | DeadlineExceeded | outside _ => true
  end.
Definition cleanOpt (e : option error) : Prop := ∀ x, e = Some x → clean x = true.

Lemma cleanOpt_None : cleanOpt None.
Proof. done. Qed.
Lemma cleanOpt_Some e : cleanOpt (Some e) ↔ clean e = true.
Proof. unfold cleanOpt. naive_solver. Qed.
Lemma cleanOpt_wrapped p e : cleanOpt e → cleanOpt (wrapped p <$> e).
Proof. destruct e as [e|]; [|done]. intros H. apply cleanOpt_Some. by apply (H e). Qed.
Lemma cleanOpt_Join l : Forall cleanOpt l → cleanOpt (Join l).
Proof.
  intros Hl. unfold Join. destruct (omap id l) as [|e l'] eqn:Ho; [done|]. apply cleanOpt_Some.
  rewrite <- Ho. clear Ho. cbn. induction Hl as [|[x|] l Hx Hl IH]; cbn; [done| |done].
  by rewrite (Hx x eq_refl).
Qed.
Lemma cleanOpt_asError o : cleanOpt (asError o).
Proof. destruct o; try done; by apply cleanOpt_Some. Qed.
Lemma Join_None l : Join l = None ↔ Forall (λ e, e = None) l.
Proof.
  unfold Join. split.
  - intros H. assert (omap id l = []) as Ho by (by destruct (omap id l)). clear H.
    induction l as [|[x|] l IH]; [done|done|]. constructor; [done|by apply IH].
  - induction 1 as [|x l -> Hl IH]; [done|]. exact IH.
Qed.

(** ** Counting goroutines *)
Definition countOf (f : thread → bool) (l : list thread) : Z :=
  Z.of_nat (length (filter (λ t, f t = true) l)).
Definition result (t : thread) : option (option error) :=
  match t with reported e | ended e => Some e | _ => None end.
Definition isActive (t : thread) : bool := isNil (result t).
Definition isSuccess (t : thread) : bool :=
  match result t with Some None => true | _ => false end.
Definition isCancel (t : thread) : bool :=
  match result t with Some (Some e) => isCanceled e | _ => false end.
Definition isFailure (t : thread) : bool :=
  match result t with Some (Some e) => negb (isCanceled e) | _ => false end.
Definition hasEnded (t : thread) : bool := match t with ended _ => true | _ => false end.

Definition tally (l : list thread) : counters :=
  mkCounters (countOf isActive l) (countOf isSuccess l) (countOf isCancel l) (countOf isFailure l).

Lemma countOf_cons f t l : countOf f (t :: l) = (if f t then 1 else 0) + countOf f l.
Proof. unfold countOf. rewrite filter_cons. case_decide as H; [rewrite H|destruct (f t)]; cbn; [lia|done|done]. Qed.
Lemma countOf_insert f l p t t' :
  l !! p = Some t →
  countOf f (<[p := t']> l) = countOf f l - (if f t then 1 else 0) + (if f t' then 1 else 0).
Proof.
  revert p. induction l as [|x l IH]; intros p Hp; [done|]. destruct p as [|p].
  - injection Hp as ->. change (<[0%nat := t']> (t :: l)) with (t' :: l). rewrite !countOf_cons. lia.
  - change (<[S p := t']> (x :: l)) with (x :: <[p := t']> l). rewrite !countOf_cons, (IH p Hp). lia.
Qed.
Lemma countOf_app f l k : countOf f (l ++ k) = countOf f l + countOf f k.
Proof.
  induction l as [|t l IH]; [done|]. change ((t :: l) ++ k) with (t :: (l ++ k)).
  rewrite !countOf_cons, IH. lia.
Qed.
Lemma countOf_pos f l p t : l !! p = Some t → f t = true → 0 < countOf f l.
Proof.
  intros Hp Hf. unfold countOf.
  assert (t ∈ filter (λ t, f t = true) l) as Hin
    by (apply list_elem_of_filter; split; [done|by eapply list_elem_of_lookup_2]).
  destruct (filter _ l); [by apply not_elem_of_nil in Hin|cbn; lia].
Qed.
Lemma countOf_zero f l : (∀ p t, l !! p = Some t → f t = false) → countOf f l = 0.
Proof.
  induction l as [|t l IH]; intros H; [done|]. rewrite countOf_cons, (H 0%nat t eq_refl), IH; [done|].
  intros p t' Hp. by apply (H (S p) t').
Qed.
Lemma countOf_total l :
  countOf isActive l + countOf isSuccess l + countOf isCancel l + countOf isFailure l =
  Z.of_nat (length l).
Proof.
  induction l as [|t l IH]; [done|]. rewrite !countOf_cons. cbn [length].
  assert ((if isActive t then 1 else 0) + (if isSuccess t then 1 else 0) +
    (if isCancel t then 1 else 0) + (if isFailure t then 1 else 0) = 1) as Ht.
  { unfold isActive, isSuccess, isCancel, isFailure, isNil, Attacks.present.
    destruct (result t) as [[e|]|]; cbn; [destruct (isCanceled e)| |]; done. }
  lia.
Qed.

(** ** The jobs and their goroutines *)
(** What holds of registry, goroutines, counters and errors between any two
    steps. *)
Record base (s : run) : Prop := {
  b_len : length (threads s) = length (heap (jobs s));
  b_ended : ∀ p e, threads s !! p = Some (ended e) ↔ endedWith (jobs s) p e;
  b_valid : ∀ id p, PhaseJobs.jobs (jobs s) !! id = Some p → (p < length (threads s))%nat;
  b_known : ∀ p t, threads s !! p = Some t → hasEnded t = false →
    ∃ id, PhaseJobs.jobs (jobs s) !! id = Some p;
  b_counts : counts s = tally (threads s);
  b_fail : ∀ p t, threads s !! p = Some t → isFailure t = true → asyncErr s ≠ None;
  b_async : asyncErr s ≠ None → ctxDone s = true;
  b_parent : parentDone s = true → ctxDone s = true;
  b_results : ∀ p t e, threads s !! p = Some t → result t = Some e ∨ t = returned e → cleanOpt e;
  b_asyncClean : cleanOpt (asyncErr s);
  b_runClean : cleanOpt (runErr s) }.

(** All goroutines have ended. *)
Definition allEnded (s : run) : Prop := ∀ p t, threads s !! p = Some t → hasEnded t = true.

Lemma allEnded_iff s : base s → allEnded s ↔ ∀ p, (p < length (threads s))%nat → isDone (jobs s) p = true.
Proof.
  intros Hb. split.
  - intros Ha p [t Ht]%lookup_lt_is_Some. specialize (Ha _ _ Ht). destruct t as [| | |e]; try done.
    apply isDone_ended. exists e. by apply (b_ended _ Hb).
  - intros Ha p t Ht. destruct (proj1 (isDone_ended (jobs s) p)) as [e He].
    { apply Ha. by eapply lookup_lt_Some. }
    apply (b_ended _ Hb) in He. rewrite Ht in He. by injection He as ->.
Qed.

Lemma base_main p s : base s → base (setMain p s).
Proof. intros []. by constructor. Qed.
Lemma base_generation g s : base s → base (setGeneration g s).
Proof. intros []. by constructor. Qed.
Lemma base_cancel s : base s → base (cancelScenario s).
Proof. intros []. by constructor. Qed.
Lemma base_runErr e s : base s → cleanOpt e → base (setRunErr e s).
Proof. intros []. by constructor. Qed.
Lemma base_cancelAll s : base s → base (setJobs (cancelAll (jobs s)) s).
Proof.
  intros []. constructor; try done.
  - cbn [jobs threads setJobs]. by rewrite cancelAll_length.
  - intros p e. cbn [jobs threads setJobs]. by rewrite cancelAll_ended.
Qed.
Lemma base_reset s :
  base s → allEnded s → base (setJobs (mkJobs (heap (jobs s)) ∅ (changed (jobs s))) s).
Proof.
  intros [] Ha. constructor; try done.
  intros p t Ht Hn. cbn [threads setJobs] in Ht. by rewrite (Ha _ _ Ht) in Hn.
Qed.

Lemma base_start id s j p :
  base s → startJob id (jobs s) = (inr p, j) →
  base (setCounts (mkCounters (ActiveJobs (counts s) + 1) (CompletedJobs (counts s))
                     (CanceledJobs (counts s)) (FailedJobs (counts s)))
          (setThreads (threads s ++ [running]) (setJobs j s))).
Proof.
  intros [] Hj. unfold startJob in Hj.
  destruct (PhaseJobs.jobs (jobs s) !! id) eqn:Hid; [done|]. injection Hj as <- <-.
  constructor; cbn [threads jobs setCounts setThreads setJobs heap PhaseJobs.jobs asyncErr counts]; try done.
  - rewrite !length_app. cbn. lia.
  - intros q e. unfold endedWith. cbn [heap]. rewrite !lookup_app, b_len0.
    pose proof (b_ended0 q e) as Hq. unfold endedWith in Hq.
    destruct (heap (jobs s) !! q) eqn:Hh.
    + destruct (threads s !! q) eqn:Ht; [done|].
      apply lookup_ge_None in Ht. apply lookup_lt_Some in Hh. lia.
    + destruct (threads s !! q) eqn:Ht.
      { apply lookup_lt_Some in Ht. apply lookup_ge_None in Hh. lia. }
      split; [|intros [c Hc]]; destruct (q - length (heap (jobs s)))%nat; naive_solver.
  - intros id' q. rewrite length_app, lookup_insert_Some. cbn. intros [[_ <-]|[_ Hq]]; [lia|].
    apply b_valid0 in Hq. lia.
  - intros q t Ht Hn. apply lookup_app_Some in Ht as [Ht|[Hge Ht]].
    + destruct (b_known0 _ _ Ht Hn) as [id' Hid']. exists id'.
      rewrite lookup_insert_ne; [done|]. intros ->. by rewrite Hid in Hid'.
    + exists id. apply list_lookup_singleton_Some in Ht as [Hq _].
      rewrite lookup_insert_eq. f_equal. lia.
  - rewrite b_counts0. unfold tally. by rewrite !countOf_app, !Z.add_0_r.
  - intros q t Ht Hf. apply lookup_app_Some in Ht as [Ht|[_ Ht]]; [by eapply b_fail0|].
    apply list_lookup_singleton_Some in Ht as [_ <-]. done.
  - intros q t e Ht Hr. apply lookup_app_Some in Ht as [Ht|[_ Ht]]; [by eapply b_results0|].
    apply list_lookup_singleton_Some in Ht as [_ <-]. by destruct Hr.
Qed.

(** ** Steps of the jobs *)
Lemma insert_cases (l : list thread) p t' q x :
  <[p := t']> l !! q = Some x → q = p ∧ x = t' ∨ q ≠ p ∧ l !! q = Some x.
Proof. rewrite list_lookup_insert_Some. naive_solver. Qed.
(** A goroutine moves between two states before its end. *)
Lemma base_thread p t t' s :
  base s → threads s !! p = Some t → hasEnded t = false → hasEnded t' = false →
  result t' = result t → (∀ e, t' = returned e → cleanOpt e) → base (setThread p t' s).
Proof.
  intros [] Hp Ht Ht' Hr Hc.
  assert (∀ f : thread → bool, f t' = f t → countOf f (<[p := t']> (threads s)) = countOf f (threads s)) as Hcount.
  { intros f Hf. rewrite (countOf_insert f _ _ _ _ Hp), Hf. lia. }
  constructor; cbn [threads jobs setThread setThreads counts asyncErr ctxDone parentDone runErr]; try done.
  - by rewrite length_insert.
  - intros q e. rewrite <- b_ended0. split.
    + intros [[-> He]|[_ Hq]]%insert_cases; [by subst t'|done].
    + intros Hq. apply list_lookup_insert_Some. right. split; [|done]. intros ->. rewrite Hp in Hq. injection Hq as ->. done.
  - intros id q. rewrite length_insert. apply b_valid0.
  - intros q x [[-> ->]|[_ Hq]]%insert_cases Hx; [by eapply b_known0|by eapply b_known0].
  - rewrite b_counts0. unfold tally. rewrite !Hcount; try done;
      unfold isFailure, isCancel, isSuccess, isActive; by rewrite Hr.
  - intros q x [[-> ->]|[_ Hq]]%insert_cases Hx; [|by eapply b_fail0].
    eapply b_fail0; [exact Hp|]. by rewrite <- Hx; unfold isFailure; rewrite Hr.
  - intros q x e [[-> ->]|[_ Hq]]%insert_cases Hx; [|by eapply b_results0].
    destruct Hx as [Hx|Hx]; [|by apply Hc]. rewrite Hr in Hx. eapply b_results0; [exact Hp|by left].
Qed.

Lemma base_report p e s :
  base s → threads s !! p = Some (returned e) → base (setThread p (reported e) (completed e s)).
Proof.
  intros [] Hp.
  assert (cleanOpt e) as He by (eapply b_results0; [exact Hp|by right]).
  assert (threads (completed e s) = threads s ∧ jobs (completed e s) = jobs s ∧
    runErr (completed e s) = runErr s ∧ parentDone (completed e s) = parentDone s) as (Et & Ej & Er & Ep).
  { unfold completed, recordAsyncFailure. destruct e as [x|]; [|done]. destruct (isCanceled x); [done|].
    by destruct (isNil (asyncErr _)). }
  assert (counts (completed e s) = tally (<[p := reported e]> (threads s))) as Hcounts.
  { assert (counts (completed e s) = mkCounters (ActiveJobs (counts s) - 1)
       (CompletedJobs (counts s) + (if isSuccess (reported e) then 1 else 0))
       (CanceledJobs (counts s) + (if isCancel (reported e) then 1 else 0))
       (FailedJobs (counts s) + (if isFailure (reported e) then 1 else 0))) as ->.
    { assert (0 < ActiveJobs (counts s)) as Hpos%Z.ltb_lt
        by (rewrite b_counts0; by eapply countOf_pos).
      unfold completed, recordAsyncFailure. rewrite Hpos. cbn.
      destruct e as [x|]; cbn; [destruct (isCanceled x) eqn:Hx; cbn|]; try (f_equal; lia).
      destruct (isNil (asyncErr s)); cbn; f_equal; lia. }
    rewrite b_counts0. unfold tally. cbn [ActiveJobs CompletedJobs CanceledJobs FailedJobs].
    f_equal; erewrite countOf_insert by exact Hp; cbn; lia. }
  assert (cleanOpt (asyncErr (completed e s)) ∧
    (asyncErr (completed e s) ≠ None → ctxDone (completed e s) = true) ∧
    (asyncErr s ≠ None ∨ isFailure (reported e) = true → asyncErr (completed e s) ≠ None) ∧
    (ctxDone s = true → ctxDone (completed e s) = true)) as (Hc & Hd & Hf & Hx).
  { unfold completed, recordAsyncFailure, isFailure. destruct e as [x|]; cbn.
    2: { split_and!; [done|done|by intros [?|?]|done]. }
    destruct (isCanceled x); cbn; [split_and!; [done|done|by intros [?|?]|done]|].
    destruct (asyncErr s) as [y|] eqn:Hy; cbn.
    - rewrite Hy. split_and!; [done|done|done|done].
    - split_and!; [|done|done|done]. apply cleanOpt_Some. by apply (He x). }
  constructor; cbn [threads jobs setThread setThreads counts asyncErr ctxDone parentDone runErr];
    rewrite ?Et, ?Ej, ?Er, ?Ep; try done.
  - by rewrite length_insert.
  - intros q x. rewrite <- b_ended0, list_lookup_insert_Some. split; [naive_solver|].
    intros Hq. right. split; [|done]. intros ->. naive_solver congruence.
  - intros id q. rewrite length_insert. apply b_valid0.
  - intros q x [[-> ->]|[_ Hq]]%insert_cases Hn; by eapply b_known0.
  - intros q x [[-> ->]|[_ Hq]]%insert_cases Hn; [apply Hf; by right|].
    apply Hf. left. by eapply b_fail0.
  - intros HP. by apply Hx, b_parent0.
  - intros q x e' [[-> ->]|[_ Hq]]%insert_cases Hn; [|by eapply b_results0].
    destruct Hn as [[= <-]|?]; [done|done].
Qed.

Lemma base_end p e s :
  base s → threads s !! p = Some (reported e) →
  ∃ j, finishJob p e (jobs s) = Ok j ∧ base (setThread p (ended e) (setJobs j s)) ∧
    PhaseJobs.jobs j = PhaseJobs.jobs (jobs s) ∧ changed j = S (changed (jobs s)) ∧
    (∀ q, isDone (jobs s) q = true → isDone j q = true).
Proof.
  intros [] Hp. assert (p < length (heap (jobs s)))%nat as [job Hjob]%lookup_lt_is_Some
    by (rewrite <- b_len0; by eapply lookup_lt_Some).
  assert (done job = false) as Hd.
  { destruct job as [[] x c]; [|done]. assert (endedWith (jobs s) p x) as Hx by (by exists c).
    apply b_ended0 in Hx. by rewrite Hp in Hx. }
  destruct (finishJob_ok p e (jobs s) job Hjob Hd) as (j & Hj & Hjj & Hch & Hl & He).
  exists j. split_and!; try done.
  2: { intros q [x Hx]%isDone_ended. apply isDone_ended. exists x. apply He.
       destruct (decide (q = p)) as [->|Hne]; [|by right].
       apply b_ended0 in Hx. by rewrite Hp in Hx. }
  constructor; cbn [threads jobs setThread setThreads setJobs counts asyncErr ctxDone parentDone runErr];
    try done.
  - rewrite length_insert, Hl. done.
  - intros q x. rewrite He, <- b_ended0, list_lookup_insert_Some. split; [naive_solver|].
    intros [[-> ->]|[Hne Hq]]; [left; split_and!; [done|done|by eapply lookup_lt_Some]|by right].
  - intros id q. rewrite Hjj, length_insert. apply b_valid0.
  - intros q x [[-> ->]|[_ Hq]]%insert_cases Hn; [done|]. rewrite Hjj. by eapply b_known0.
  - rewrite b_counts0. unfold tally.
    f_equal; erewrite countOf_insert by exact Hp; cbn; lia.
  - intros q x [[-> ->]|[_ Hq]]%insert_cases Hn; by eapply b_fail0.
  - intros q x e' [[-> ->]|[_ Hq]]%insert_cases Hn; [|by eapply b_results0].
    destruct Hn as [[= <-]|?]; [eapply b_results0; [exact Hp|by left]|done].
Qed.

(** ** Waiting *)
(** A waiter of the main goroutine: what it waits for exists, and while its
    broadcast is open nothing it waits for has ended. *)
Record waitsFor (s : run) (w : waiter) : Prop := {
  w_some : pending w ≠ [];
  w_valid : ∀ id p, (id, p) ∈ pending w → (p < length (threads s))%nat;
  w_watch : ∀ c, watching w = Some c → (c ≤ changed (jobs s))%nat ∧
    (c = changed (jobs s) → ∀ id p, (id, p) ∈ pending w → isDone (jobs s) p = false) }.
Record waitsAll (s : run) (w : waiter) : Prop := {
  w_for : waitsFor s w;
  w_all : ∀ p, (p < length (threads s))%nat →
    (∃ id, (id, p) ∈ pending w) ∨ isDone (jobs s) p = true }.

Lemma ended_clean s p e : base s → endedWith (jobs s) p e → cleanOpt e.
Proof. intros Hb He%(b_ended _ Hb). eapply (b_results _ Hb); [exact He|by left]. Qed.

Lemma waitRound_ok s w ce r :
  base s → waitsFor s w → cleanOpt ce → waitRound ce w (jobs s) = Some r →
  match r with
  | waitOver (Some e) => clean e = true
  | waitOver None => ∀ id p, (id, p) ∈ pending w → isDone (jobs s) p = true
  | waitOn w' => waitsFor s w' ∧
      ∀ id p, (id, p) ∈ pending w → (id, p) ∈ pending w' ∨ isDone (jobs s) p = true
  end.
Proof.
  intros Hb [_ Hv Hw] Hce Hr. unfold waitRound in Hr. destruct ce as [e|].
  { injection Hr as <-. cbn. by apply Hce. }
  destruct (from_option _ _ _); [done|]. injection Hr as <-.
  destruct (scan (failFast w) (jobs s) (pending w)) as [e|l] eqn:Hs.
  - destruct (scan_error _ _ _ _ Hs) as (_ & id & p & e' & _ & He & ->).
    cbn. by apply (ended_clean s p (Some e') Hb He).
  - destruct (scan_ok _ _ _ _ Hs) as [H1 H2].
    assert (∀ id p, (id, p) ∈ pending w → (id, p) ∈ l ∨ isDone (jobs s) p = true) as H3.
    { intros id p Hin. destruct (H2 id p Hin) as [?|(e & He & _)]; [by left|right].
      apply isDone_ended. by exists e. }
    destruct l as [|x l].
    + intros id p Hin. by destruct (H3 id p Hin) as [?%not_elem_of_nil|?].
    + split; [|done]. constructor; [done| |].
      * intros id p Hin. destruct (H1 id p Hin) as [? _]. by eapply Hv.
      * intros c [= <-]. split; [done|]. intros _ id p Hin. by destruct (H1 id p Hin).
Qed.

Lemma waitRound_all s w ce r :
  base s → waitsAll s w → cleanOpt ce → waitRound ce w (jobs s) = Some r →
  match r with
  | waitOver (Some e) => clean e = true
  | waitOver None => allEnded s
  | waitOn w' => waitsAll s w'
  end.
Proof.
  intros Hb [Hf Ha] Hce Hr. pose proof (waitRound_ok s w ce r Hb Hf Hce Hr) as H.
  destruct r as [[e|]|w']; [done| |].
  - apply (allEnded_iff s Hb). intros p Hp. destruct (Ha p Hp) as [[id Hin]|?]; [by eapply H|done].
  - destruct H as [H1 H2]. constructor; [done|]. intros p Hp.
    destruct (Ha p Hp) as [[id Hin]|?]; [|by right].
    destruct (H2 id p Hin) as [?|?]; [left; by exists id|by right].
Qed.

Lemma startWait_all s ff :
  base s →
  match startWait ff [] (jobs s) with
  | waitOver e => e = None ∧ allEnded s
  | waitOn w => waitsAll s w
  end.
Proof.
  intros Hb. pose proof (startWait_ok ff [] (jobs s) (Forall_nil_2 _)) as H.
  destruct (startWait ff [] (jobs s)) as [e|w].
  - destruct H as [-> H]. split; [done|]. intros p t Ht. destruct (hasEnded t) eqn:Hn; [done|].
    destruct (b_known _ Hb p t Ht Hn) as [id Hid]. by rewrite (H eq_refl) in Hid.
  - destruct H as (_ & Hwatch & Hsome & Hin & Hall). constructor.
    + constructor; [done| |by rewrite Hwatch]. intros id p Hp. by eapply (b_valid _ Hb), Hin.
    + intros p [t Ht]%lookup_lt_is_Some. destruct (hasEnded t) eqn:Hn.
      * right. destruct t; try done. apply isDone_ended. eexists. by apply (b_ended _ Hb).
      * left. destruct (b_known _ Hb p t Ht Hn) as [id Hid]. exists id. by apply Hall.
Qed.

Lemma startWait_some s ids :
  base s → ids ≠ [] → Forall (λ id, id ∈ dom (PhaseJobs.jobs (jobs s))) ids →
  match startWait true ids (jobs s) with
  | waitOver e => e = None
  | waitOn w => waitsFor s w
  end.
Proof.
  intros Hb Hne Hall. pose proof (startWait_ok true ids (jobs s) Hall) as H.
  destruct (startWait true ids (jobs s)) as [e|w]; [by destruct H|].
  destruct H as (_ & Hwatch & Hsome & Hin & _). constructor; [done| |by rewrite Hwatch].
  intros id p Hp. by eapply (b_valid _ Hb), Hin.
Qed.

(** ** The main goroutine *)
(** What the runner relies on of a phase, when [known] jobs are registered. *)
Record fits (known : gset string) (p : Phase.t) : Prop := {
  f_waits : waits p = true → Forall (λ job, job ∈ known) (elems (Phase.Jobs p));
  f_fresh : Phase.ShouldAwait p = false → Phase.Job p ∉ known ∧ stops p = false;
  f_repeat : 1 ≤ Phase.Repeat p }.

Definition inBackground (p : Phase.t) : Prop := Phase.ShouldAwait p = false.
#[local] Instance inBackground_dec p : Decision (inBackground p) := decide (_ = _).
(** The number of background phases. *)
Definition background (l : list Phase.t) : nat := length (filter inBackground l).

Lemma filter_background_app (l k : list Phase.t) :
  filter inBackground (l ++ k) = filter inBackground l ++ filter inBackground k.
Proof.
  induction l as [|p l IH]; [done|]. rewrite <- app_comm_cons, !filter_cons. by case_decide; rewrite IH.
Qed.

Section main.
Context (spec : Scenario.t) (repetitions : Z) (networkManager : bool).
Let phases := Scenario.Phases spec.
Hypothesis phases_fit : ∀ pre p post, phases = pre ++ p :: post → fits (ScenarioProps.started pre) p.
Hypothesis exit_known : Scenario.OnExit spec ∈ ["cancel";"drain"]%string.

Definition known (i : nat) : gset string := ScenarioProps.started (take i phases).

Lemma known_S i p : phases !! i = Some p → known (S i) = ScenarioProps.startJob (known i) p.
Proof. intros Hp. unfold known, ScenarioProps.started. by rewrite (take_S_r _ _ _ Hp), foldl_app. Qed.
Lemma background_S i p :
  phases !! i = Some p →
  background (take (S i) phases) = (background (take i phases) + if Phase.ShouldAwait p then 0 else 1)%nat.
Proof.
  intros Hp. unfold background. rewrite (take_S_r _ _ _ Hp), filter_background_app, length_app. f_equal.
  rewrite filter_cons. unfold inBackground. case_decide as H; [by rewrite H|].
  by destruct (Phase.ShouldAwait p).
Qed.
Lemma phase_fits i p : phases !! i = Some p → fits (known i) p.
Proof. intros Hp. eapply phases_fit. symmetry. by apply take_drop_middle. Qed.

(** In the middle of awaited phase [i]. *)
Record inPhase (i : nat) (p : Phase.t) (s : run) : Prop := {
  in_phase : phases !! i = Some p;
  in_await : Phase.ShouldAwait p = true;
  in_run : runErr s = None;
  in_count : length (threads s) = background (take i phases) }.
Definition registered (s : run) : gset string := dom (PhaseJobs.jobs (jobs s)).

(** The run's jobs are accounted for. *)
Record accounted (s : run) : Prop := {
  acc_ended : allEnded s;
  acc_async : asyncErr s = None;
  acc_count : length (threads s) = background phases }.
(** After the loop: a run without an error has started every phase. *)
Definition outOfLoop (s : run) : Prop :=
  runErr s = None → length (threads s) = background phases.

Definition mainOk (s : run) : Prop :=
  match main s with
  | preparing => runErr s = None ∧ registered s = ∅ ∧ length (threads s) = 0%nat
  | atPhase i => runErr s = None ∧ registered s = known i ∧
      length (threads s) = background (take i phases)
  | atRepetition i r => ∃ p, inPhase i p s ∧
      registered s = if stops p && (0 <? r)%nat then ∅ else known i
  | acting i r => ∃ p, inPhase i p s ∧ stops p = false ∧ registered s = known i
  | waitingReady i r w | waitingJobs i r w =>
      ∃ p, inPhase i p s ∧ stops p = false ∧ registered s = known i ∧ waitsFor s w
  | stoppingJobs i r w => ∃ p, inPhase i p s ∧ stops p = true ∧ waitsAll s w
  | stoppingPeers i r => ∃ p, inPhase i p s ∧ stops p = true ∧ registered s = ∅ ∧ allEnded s
  | draining w => runErr s = None ∧ outOfLoop s ∧ waitsAll s w
  | cleaningJobs w => ctxDone s = true ∧ outOfLoop s ∧ waitsAll s w
  | retiring e => ctxDone s = true ∧ outOfLoop s ∧ cleanOpt e ∧ (e = None → allEnded s)
  | concluding e => ctxDone s = true ∧ outOfLoop s ∧ cleanOpt e ∧
      (e = None → allEnded s ∧ (runErr s = None → asyncErr s = None))
  | finished result state _ _ =>
      cleanOpt result ∧ (state = "completed"%string → accounted s)
  end.

Record inv (s : run) : Prop := { inv_base : base s; inv_main : mainOk s }.

(** *** Leaving the loop *)
Lemma stopJobs_ok s :
  base s → outOfLoop s →
  (runErr s = None → Scenario.OnExit spec = "drain"%string → allEnded s) →
  inv (stopJobs spec s).
Proof.
  intros Hb Hout Hdrain. unfold stopJobs.
  destruct (negb (isNil (runErr s)) || bool_decide (Scenario.OnExit spec = "cancel"%string)) eqn:Hc.
  - set (s1 := setJobs (cancelAll (jobs (cancelScenario s))) (cancelScenario s)).
    assert (base s1) as Hb1 by by apply (base_cancelAll (cancelScenario s)), base_cancel.
    change (cancelAll (jobs (cancelScenario s))) with (jobs s1).
    pose proof (startWait_all s1 false Hb1) as Hw.
    destruct (startWait false [] (jobs s1)) as [e|w].
    + destruct Hw as [-> Hall]. split; [by apply base_main|]. cbn. by split_and!.
    + split; [by apply base_main|]. cbn. split_and!; [done|exact Hout|].
      destruct Hw as [[? ? ?] ?]. by constructor.
  - apply orb_false_iff in Hc as [Hr Hc]. apply bool_decide_eq_false_1 in Hc.
    split; [by apply base_main, base_cancel|]. cbn. split_and!; [done|exact Hout|done|]. intros _.
    apply Hdrain.
    + apply negb_false_iff in Hr. by destruct (runErr s).
    + set_solver.
Qed.

Lemma leaveLoop_ok s : base s → outOfLoop s → inv (leaveLoop spec s).
Proof.
  intros Hb Hout. unfold leaveLoop.
  destruct (isNil (runErr s) && bool_decide (Scenario.OnExit spec = "drain"%string)) eqn:Hc.
  - apply andb_true_iff in Hc as [Hr Hc]. assert (runErr s = None) as Hr' by (by destruct (runErr s)).
    pose proof (startWait_all s true Hb) as Hw.
    destruct (startWait true [] (jobs s)) as [e|w].
    + destruct Hw as [-> Hall]. apply stopJobs_ok; [by apply base_runErr|intros _; by apply Hout|done].
    + split; [by apply base_main|]. cbn. destruct Hw as [[? ? ?] ?]. split_and!; [done|exact Hout|by constructor].
  - apply stopJobs_ok; [done|done|]. intros Hr He. rewrite Hr in Hc. cbn in Hc.
    by rewrite bool_decide_eq_true_2 in Hc.
Qed.

Lemma failPhase_ok i e s : base s → clean e = true → inv (endPhase spec i (Some e) s).
Proof.
  intros Hb He. change (inv (leaveLoop spec (setRunErr (Some e) s))). apply leaveLoop_ok; [|done]. apply base_runErr; [done|by apply cleanOpt_Some].
Qed.

Lemma endPhase_ok i p s :
  base s → phases !! i = Some p → runErr s = None →
  registered s = known (S i) → length (threads s) = background (take (S i) phases) →
  inv (endPhase spec i None s).
Proof.
  intros Hb Hp Hr Hreg Hlen. unfold endPhase. fold phases. rewrite Hp. cbn [from_option].
  destruct (Phase.actionIn p ["stop-all"]%string);
    (split; [first [by apply base_main, base_generation|by apply base_main]|unfold mainOk; cbn; by split_and!]).
Qed.

(** *** One repetition *)
Lemma failRepetition_ok i r e s : base s → clean e = true → inv (endRepetition spec i r (Some e) s).
Proof. apply failPhase_ok. Qed.

Lemma nextRepetition_ok i r p s :
  base s → inPhase i p s → registered s = (if stops p then ∅ else known i) →
  inv (endRepetition spec i r None s).
Proof.
  intros Hb Hin Hreg. split; [by apply base_main|]. exists p. split; [by destruct Hin|].
  cbn. by rewrite andb_true_r.
Qed.

Lemma endRepetition_ok i r e p s :
  base s → inPhase i p s → cleanOpt e → registered s = (if stops p then ∅ else known i) →
  inv (endRepetition spec i r e s).
Proof.
  intros Hb Hin He Hreg. destruct e as [e|]; [|by eapply nextRepetition_ok].
  apply failRepetition_ok; [done|by apply (He e)].
Qed.

Lemma afterStopJobs_ok i r e p s :
  base s → inPhase i p s → stops p = true → cleanOpt e → (e = None → allEnded s) →
  inv (afterStopJobs spec i r e s).
Proof.
  intros Hb Hin Hst He Hall. destruct e as [e|]; [apply failRepetition_ok; [done|by apply (He e)]|].
  specialize (Hall eq_refl). unfold afterStopJobs. rewrite reset_ok.
  - split; [by apply base_main, base_reset|]. exists p. split_and!; [by destruct Hin|done|apply dom_empty_L|done].
  - intros id q Hq. apply (allEnded_iff s Hb); [done|]. by eapply (b_valid _ Hb).
Qed.

Lemma runPhase_ok i r p s :
  base s → inPhase i p s → registered s = (if stops p && (0 <? r)%nat then ∅ else known i) →
  inv (runPhase spec i r p s).
Proof.
  intros Hb Hin Hreg. pose proof (phase_fits i p (in_phase _ _ _ Hin)) as [Hwaits _ _].
  unfold runPhase.
  assert (∀ a, Phase.actionIn p [a] = true → a ≠ "stop-all"%string → stops p = false) as Hnot.
  { intros a Ha%actionIn_one Hne. unfold stops. apply not_true_iff_false. rewrite actionIn_one. congruence. }
  destruct (Phase.actionIn p ["wait-ready"]%string) eqn:E1.
  { assert (stops p = false) as Hst by by eapply Hnot. rewrite Hst in Hreg. cbn in Hreg.
    assert (inv (setMain (acting i r) s)) as Hact.
    { split; [by apply base_main|]. exists p. split_and!; [by destruct Hin|done|done]. }
    destruct (elems (Phase.Jobs p)) as [|id ids] eqn:Hids; [done|].
    assert (Forall (λ id, id ∈ registered s) (id :: ids)) as Hall.
    { rewrite Hreg. apply Hwaits. apply actionIn_one in E1. unfold waits, Phase.actionIn.
      by rewrite E1. }
    pose proof (startWait_some s (id :: ids) Hb ltac:(done) Hall) as Hw.
    destruct (startWait true (id :: ids) (jobs s)) as [e|w]; [by subst e|].
    split; [by apply base_main|]. exists p. destruct Hw. split_and!; [by destruct Hin|done|done|by constructor]. }
  destruct (Phase.actionIn p ["wait-jobs"]%string) eqn:E2.
  { assert (stops p = false) as Hst by by eapply Hnot. rewrite Hst in Hreg. cbn in Hreg.
    assert (match startWait true (elems (Phase.Jobs p)) (jobs s) with
            | waitOver e => e = None | waitOn w => waitsFor s w end) as Hw.
    { destruct (elems (Phase.Jobs p)) as [|id ids] eqn:Hids.
      - pose proof (startWait_all s true Hb) as Hw.
        destruct (startWait true [] (jobs s)); [by destruct Hw|by apply Hw].
      - apply startWait_some; [done|done|]. unfold registered in Hreg. rewrite Hreg.
        apply Hwaits. apply actionIn_one in E2. unfold waits, Phase.actionIn. by rewrite E2. }
    destruct (startWait true (elems (Phase.Jobs p)) (jobs s)) as [e|w].
    - subst e. eapply nextRepetition_ok; [done|exact Hin|]. by rewrite Hst.
    - split; [by apply base_main|]. exists p. destruct Hw. split_and!; [by destruct Hin|done|done|by constructor]. }
  fold (stops p). destruct (stops p) eqn:Hst.
  - set (s1 := setJobs (cancelAll (jobs s)) s). assert (base s1) as Hb1 by by apply base_cancelAll.
    assert (inPhase i p s1) as Hin1 by (by destruct Hin).
    change (cancelAll (jobs s)) with (jobs s1).
    pose proof (startWait_all s1 false Hb1) as Hw. destruct (startWait false [] (jobs s1)) as [e|w].
    + destruct Hw as [-> Hall]. by eapply afterStopJobs_ok.
    + split; [by apply base_main|]. exists p. destruct Hw as [[? ? ?] ?].
      split_and!; [by destruct Hin1|done|by constructor].
  - split; [by apply base_main|]. exists p. split_and!; [by destruct Hin|done|done].
Qed.

Lemma repeatPhase_ok i r p s :
  base s → inPhase i p s → registered s = (if stops p && (0 <? r)%nat then ∅ else known i) →
  inv (repeatPhase spec i r s).
Proof.
  intros Hb Hin Hreg. unfold repeatPhase. fold phases. rewrite (in_phase _ _ _ Hin).
  destruct (Z.of_nat r <? Phase.Repeat p) eqn:Hr.
  - unfold ctxErr. destruct (ctxDone s); [by apply failPhase_ok|]. by apply runPhase_ok.
  - apply Z.ltb_ge in Hr. pose proof (f_repeat _ _ (phase_fits i p (in_phase _ _ _ Hin))).
    destruct r as [|r]; [lia|].
    eapply endPhase_ok; [done|by apply Hin|by apply Hin| |].
    + rewrite (known_S i p), Hreg by apply Hin. unfold ScenarioProps.startJob.
      rewrite (in_await _ _ _ Hin). by destruct (stops p).
    + rewrite (background_S i p), (in_await _ _ _ Hin), Nat.add_0_r by apply Hin. apply Hin.
Qed.

(** *** Starting a phase *)
Lemma startPhase_ok i s :
  base s → runErr s = None → registered s = known i →
  length (threads s) = background (take i phases) → inv (startPhase spec i s).
Proof.
  intros Hb Hr Hreg Hlen. unfold startPhase. fold phases.
  destruct (phases !! i) as [p|] eqn:Hp.
  2: { apply leaveLoop_ok; [done|]. intros _. apply lookup_ge_None in Hp. by rewrite take_ge in Hlen. }
  unfold ctxErr. destruct (ctxDone s).
  { apply leaveLoop_ok; [|done]. apply base_runErr; [done|by apply cleanOpt_Some]. }
  destruct (Phase.ShouldAwait p) eqn:Ha.
  { split; [by apply base_main|]. exists p. split; [by constructor|]. cbn.
    by rewrite andb_false_r. }
  destruct (f_fresh _ _ (phase_fits i p Hp) Ha) as [Hfresh Hst].
  assert (PhaseJobs.jobs (jobs s) !! Phase.Job p = None) as Hnone.
  { apply not_elem_of_dom. unfold registered in Hreg. by rewrite Hreg. }
  destruct (startJob (Phase.Job p) (jobs s)) as [[e|q] j] eqn:Hj.
  { unfold startJob in Hj. by rewrite Hnone in Hj. }
  pose proof (base_start _ _ _ _ Hb Hj) as Hb'.
  eapply endPhase_ok; [exact Hb'|exact Hp|done| |].
  - unfold startJob in Hj. rewrite Hnone in Hj. injection Hj as <- <-.
    unfold registered. cbn [jobs setCounts setThreads setJobs PhaseJobs.jobs]. rewrite dom_insert_L.
    unfold registered in Hreg. rewrite Hreg, (known_S i p Hp). unfold ScenarioProps.startJob. by rewrite Hst, Ha.
  - cbn. rewrite length_app, Hlen, (background_S i p Hp), Ha. done.
Qed.

(** *** The end of the run *)
Lemma settleErr_clean s : base s → cleanOpt (settleErr s).
Proof.
  intros Hb. pose proof (b_asyncClean _ Hb) as Ha. pose proof (b_runClean _ Hb) as Hr.
  unfold settleErr. destruct (parentDone s); [by apply cleanOpt_Some|].
  destruct (asyncErr s) as [a|], (runErr s) as [e|]; try done. by destruct (isCanceled e).
Qed.
Lemma settleErr_None s : settleErr s = None → runErr s = None ∧ asyncErr s = None.
Proof.
  unfold settleErr. destruct (parentDone s); [done|].
  destruct (asyncErr s) as [a|], (runErr s) as [e|]; try done. by destruct (isCanceled e).
Qed.

Lemma cleanOpt_two a b : cleanOpt a → cleanOpt b → cleanOpt (Join [a; b]).
Proof. intros. apply cleanOpt_Join. by repeat constructor. Qed.
Lemma Join_two a b : Join [a; b] = None ↔ a = None ∧ b = None.
Proof. rewrite Join_None, !list.Forall_cons, list.Forall_nil. tauto. Qed.

(** The first stage of [conclude]: the cleanup of Peers and the telemetry. *)
Lemma conclude_ok c w s :
  base s → mainOk s → main s = concluding c → inv (conclude repetitions c w s).
Proof.
  intros Hb Hm Hpc. unfold mainOk in Hm. rewrite Hpc in Hm. destruct Hm as (_ & Hout & Hc & Hall).
  split; [unfold conclude; repeat (case_match; try (by apply base_main))|].
  pose proof (b_runClean _ Hb) as Hr. unfold conclude.
  set (first := if negb (isNil (runErr s)) || _ || _ then _ else _).
  assert (cleanOpt first.1 ∧ cleanOpt first.2 ∧ (first.1 = None → c = None)) as (H1 & H2 & H3).
  { unfold first. destruct (_ || _ || _); [|done].
    destruct (Join [asError (stopErr w); asError (refreshErr w)]) as [e|] eqn:He.
    - split_and!; cbn.
      + apply cleanOpt_two; [done|]. apply cleanOpt_Some. cbn.
        apply (cleanOpt_two _ _ (cleanOpt_asError (stopErr w)) (cleanOpt_asError (refreshErr w)) e He).
      + destruct (isNil _); [apply cleanOpt_asError|done].
      + by intros [? _]%Join_two.
    - split_and!; cbn; [done| |done]. destruct (isNil _); [apply cleanOpt_asError|done]. }
  clearbody first. destruct first as [c1 d1]. cbn in H1, H2, H3.
  set (d2 := if isNil (runErr s) && _ && _ then _ else d1).
  assert (cleanOpt d2) as H4 by (unfold d2; destruct (_ && _ && _); [apply cleanOpt_asError|done]).
  clearbody d2. clear d1 H2.
  assert (cleanOpt (Join [runErr s; c1; d2])) as H5 by (apply cleanOpt_Join; by repeat constructor).
  assert (Join [runErr s; c1; d2] = None → runErr s = None ∧ c = None) as H6.
  { rewrite Join_None, !list.Forall_cons. intros (? & ? & _). auto. }
  generalize dependent (Join [runErr s; c1; d2]). intros r1 H5 H6.
  set (second := match asError (observeErr w) with Some _ => _ | None => _ end).
  assert (cleanOpt second.1 ∧ (second.1 = None → r1 = None)) as [H7 H8].
  { unfold second. pose proof (cleanOpt_asError (observeErr w)) as Ho.
    destruct (asError (observeErr w)); cbn; [|done].
    split; [by apply cleanOpt_two|]. by intros [? _]%Join_two. }
  clearbody second. destruct second as [r2 d3]. cbn in H7, H8.
  set (r3 := match asError (flushErr w) with Some _ => _ | None => r2 end).
  assert (cleanOpt r3 ∧ (r3 = None → r2 = None)) as [H9 H10].
  { unfold r3. pose proof (cleanOpt_asError (flushErr w)) as Ho.
    destruct (asError (flushErr w)); [|done].
    split; [by apply cleanOpt_two|]. by intros [? _]%Join_two. }
  clearbody r3. set (r4 := if empty (integrity w) then r3 else _).
  assert (cleanOpt r4 ∧ (r4 = None → r3 = None)) as [H11 H12].
  { unfold r4. destruct (empty _); [done|]. split; [apply cleanOpt_two; [done|by apply cleanOpt_Some]|].
    by intros [? _]%Join_two. }
  clearbody r4. unfold mainOk. cbn. split; [done|]. intros Hstate.
  destruct r4 as [e|].
  { by destruct (from_option isCanceled false (runErr s) && empty (integrity w)). }
  destruct (H6 (H8 (H10 (H12 eq_refl)))) as [Hrun ->]. destruct (Hall eq_refl) as [Hend Has].
  constructor; [exact Hend|exact (Has Hrun)|exact (Hout Hrun)].
Qed.

(** *** Steps of the main goroutine *)
Lemma inPhase_main i p q s : inPhase i p s → inPhase i p (setMain q s).
Proof. intros []. by constructor. Qed.
Lemma waitsFor_main q s w : waitsFor s w → waitsFor (setMain q s) w.
Proof. intros []. by constructor. Qed.
Lemma waitsAll_main q s w : waitsAll s w → waitsAll (setMain q s) w.
Proof. intros [? ?]. constructor; [by apply waitsFor_main|done]. Qed.

Lemma waitErr_clean a b : cleanOpt (waitErr a b).
Proof. unfold waitErr. destruct a, b; try done; by apply cleanOpt_Some. Qed.

Lemma mainStep_ok expired s s' : inv s → mainStep spec expired s = Some s' → inv s'.
Proof.
  intros [Hb Hm] Hs. unfold mainStep in Hs. unfold mainOk in Hm.
  destruct (main s) as [|i|i r|i r w|i r w|i r w|i r|i r|w|w|c|c|] eqn:Hpc; try done.
  - injection Hs as <-. by destruct Hm as (? & ? & ?); apply startPhase_ok.
  - injection Hs as <-. destruct Hm as (p & Hin & Hreg). by eapply repeatPhase_ok.
  - destruct Hm as (p & Hin & Hst & Hreg & Hw).
    destruct (waitRound _ w (jobs s)) as [x|] eqn:Hx; [|done].
    pose proof (waitRound_ok s w _ x Hb Hw (waitErr_clean _ _) Hx) as H.
    destruct x as [[e|]|w']; injection Hs as <-.
    + exact (failRepetition_ok i r e s Hb H).
    + split; [by apply base_main|]. exists p. split_and!; [by apply inPhase_main|done|done].
    + split; [by apply base_main|]. exists p.
      split_and!; [by apply inPhase_main|done|done|by apply waitsFor_main, H].
  - destruct Hm as (p & Hin & Hst & Hreg & Hw).
    destruct (waitRound _ w (jobs s)) as [x|] eqn:Hx; [|done].
    pose proof (waitRound_ok s w _ x Hb Hw (waitErr_clean _ _) Hx) as H.
    destruct x as [e|w']; injection Hs as <-.
    + eapply endRepetition_ok; [done|exact Hin| |by rewrite Hst].
      destruct e; [by apply cleanOpt_Some|done].
    + split; [by apply base_main|]. exists p.
      split_and!; [by apply inPhase_main|done|done|by apply waitsFor_main, H].
  - destruct Hm as (p & Hin & Hst & Hw).
    destruct (waitRound _ w (jobs s)) as [x|] eqn:Hx; [|done].
    pose proof (waitRound_all s w _ x Hb Hw (waitErr_clean _ _) Hx) as H.
    destruct x as [e|w']; injection Hs as <-.
    + eapply afterStopJobs_ok; [done|exact Hin|done| |].
      * destruct e; [by apply cleanOpt_Some|done].
      * by intros ->.
    + split; [by apply base_main|]. exists p. split_and!; [by apply inPhase_main|done|by apply waitsAll_main].
  - destruct Hm as (Hr & Hout & Hw).
    destruct (waitRound _ w (jobs s)) as [x|] eqn:Hx; [|done].
    pose proof (waitRound_all s w _ x Hb Hw (waitErr_clean _ _) Hx) as H.
    destruct x as [e|w']; injection Hs as <-.
    + apply stopJobs_ok.
      * apply base_runErr; [done|]. destruct e; [by apply cleanOpt_Some|done].
      * intros _. by apply Hout.
      * cbn. by intros -> _.
    + split; [by apply base_main|]. split_and!; [done|exact Hout|by apply waitsAll_main].
  - destruct Hm as (Hr & Hout & Hw).
    destruct (waitRound _ w (jobs s)) as [x|] eqn:Hx; [|done].
    pose proof (waitRound_all s w _ x Hb Hw (waitErr_clean _ _) Hx) as H.
    destruct x as [e|w']; injection Hs as <-.
    + split; [by apply base_main|]. split_and!; [done|exact Hout| |].
      * apply cleanOpt_Join. constructor; [|done]. destruct e; [by apply cleanOpt_Some|done].
      * destruct e; [done|]. intros _. exact H.
    + split; [by apply base_main|]. split_and!; [done|exact Hout|by apply waitsAll_main].
  - injection Hs as <-. destruct Hm as (Hctx & Hout & Hc & Hall).
    split; [by apply base_main, base_runErr, settleErr_clean|]. unfold mainOk. cbn.
    split_and!; [done| |done|].
    + intros Hn. cbn in Hn. apply settleErr_None in Hn as [Hn _]. by apply Hout.
    + intros ->. split; [exact (Hall eq_refl)|]. intros Hn. by apply settleErr_None in Hn as [_ Hn].
Qed.

(** *** Steps of the others *)
(** What the other goroutines may do to the main one. *)
Record later (s s' : run) : Prop := {
  l_main : main s' = main s;
  l_run : runErr s' = runErr s;
  l_count : length (threads s') = length (threads s);
  l_jobs : PhaseJobs.jobs (jobs s') = PhaseJobs.jobs (jobs s);
  l_done : ∀ p, isDone (jobs s) p = true → isDone (jobs s') p = true;
  l_changed : changed (jobs s') = changed (jobs s) ∧ (∀ p, isDone (jobs s') p = isDone (jobs s) p) ∨
    (changed (jobs s) < changed (jobs s'))%nat;
  l_ctx : ctxDone s = true → ctxDone s' = true;
  l_ended : allEnded s → allEnded s' ∧ asyncErr s' = asyncErr s }.

Lemma later_waitsFor s s' w : later s s' → waitsFor s w → waitsFor s' w.
Proof.
  intros [] [Hs Hv Hw]. constructor; [done| |].
  - intros id p Hin. rewrite l_count0. by eapply Hv.
  - intros c Hc. destruct (Hw c Hc) as [Hle Hd]. destruct l_changed0 as [[E Hsame]|Hlt].
    + rewrite E. split; [done|]. intros Heq id p Hin. rewrite Hsame. by eapply Hd.
    + split; [lia|]. intros ->. lia.
Qed.
Lemma later_waitsAll s s' w : later s s' → waitsAll s w → waitsAll s' w.
Proof.
  intros Hl [Hf Ha]. constructor; [by eapply later_waitsFor|].
  intros p. rewrite (l_count _ _ Hl). intros Hp. destruct (Ha p Hp) as [?|?]; [by left|right].
  by apply (l_done _ _ Hl).
Qed.
Lemma later_inPhase s s' i p : later s s' → inPhase i p s → inPhase i p s'.
Proof. intros [] []. constructor; congruence. Qed.

Lemma later_mainOk s s' : later s s' → mainOk s → mainOk s'.
Proof.
  intros Hl. pose proof (l_ended _ _ Hl) as He. pose proof (l_ctx _ _ Hl) as Hctx.
  assert (registered s' = registered s) as Hreg by (unfold registered; by rewrite (l_jobs _ _ Hl)).
  assert (outOfLoop s → outOfLoop s') as Hout
    by (unfold outOfLoop; by rewrite (l_run _ _ Hl), (l_count _ _ Hl)).
  unfold mainOk. rewrite (l_main _ _ Hl).
  destruct (main s); rewrite ?Hreg, ?(l_run _ _ Hl), ?(l_count _ _ Hl); try done.
  - intros (p & ? & ?). exists p. split; [by eapply later_inPhase|done].
  - intros (p & ? & ? & ? & ?). exists p.
    split_and!; [by eapply later_inPhase|done|done|by eapply later_waitsFor].
  - intros (p & ? & ? & ? & ?). exists p.
    split_and!; [by eapply later_inPhase|done|done|by eapply later_waitsFor].
  - intros (p & ? & ? & ?). exists p. split_and!; [by eapply later_inPhase|done|by eapply later_waitsAll].
  - intros (p & ? & ? & ? & ?). exists p. split_and!; [by eapply later_inPhase|done|done|by apply He].
  - intros (p & ? & ? & ?). exists p. split_and!; [by eapply later_inPhase|done|done].
  - intros (? & ? & ?). split_and!; [done|by apply Hout|by eapply later_waitsAll].
  - intros (? & ? & ?). split_and!; [by apply Hctx|by apply Hout|by eapply later_waitsAll].
  - intros (? & ? & ? & Hall). split_and!; [by apply Hctx|by apply Hout|done|].
    intros Hn. by apply He, Hall.
  - intros (? & ? & ? & Hall). split_and!; [by apply Hctx|by apply Hout|done|].
    intros Hn. destruct (Hall Hn) as [Ha Hr]. destruct (He Ha) as [? ->]. by split.
  - intros [? Hs]. split; [done|]. intros Hn. destruct (Hs Hn) as [Ha Has Hc].
    destruct (He Ha) as [? HA]. constructor; [done|by rewrite HA|by rewrite (l_count _ _ Hl)].
Qed.

Lemma notEnded s p t : threads s !! p = Some t → hasEnded t = false → ¬ allEnded s.
Proof. intros Hp Ht Ha. by rewrite (Ha p t Hp) in Ht. Qed.

Lemma later_thread s p t t' :
  threads s !! p = Some t → hasEnded t = false → later s (setThread p t' s).
Proof.
  intros Hp Ht. constructor; try done.
  - cbn. by rewrite length_insert.
  - by left.
  - intros Ha. by destruct (notEnded s p t Hp Ht).
Qed.

Lemma later_report s p e :
  threads s !! p = Some (returned e) → later s (setThread p (reported e) (completed e s)).
Proof.
  intros Hp. constructor; unfold completed, recordAsyncFailure; try (destruct e as [x|]; [destruct (isCanceled x); [|destruct (isNil _)]|]; done).
  - cbn. rewrite length_insert. destruct e as [x|]; [destruct (isCanceled x); [|destruct (isNil _)]|]; done.
  - left. destruct e as [x|]; [destruct (isCanceled x); [|destruct (isNil _)]|]; done.
  - intros Ha. by destruct (notEnded s p (returned e) Hp eq_refl).
Qed.

Lemma step_inv c s r : inv s → step spec repetitions c s = Some r → ∃ s', r = Ok s' ∧ inv s'.
Proof.
  intros Hi Hs. destruct Hi as [Hb Hm]. destruct c as [| |expired|o|w|p o|p|p]; cbn in Hs.
  - injection Hs as <-. eexists. split; [done|]. split.
    + destruct Hb. by constructor.
    + eapply later_mainOk; [|exact Hm]. constructor; try done. by left.
  - injection Hs as <-. eexists. split; [done|]. split; [by apply base_cancel|].
    eapply later_mainOk; [|exact Hm]. constructor; try done. by left.
  - destruct (mainStep spec expired s) as [s'|] eqn:Hs'; [|done]. injection Hs as <-.
    exists s'. split; [done|]. by eapply mainStep_ok.
  - destruct (main s) as [|i|i r'|i r' w|i r' w|i r' w|i r'|i r'|w|w|x|x|] eqn:Hpc; try done; injection Hs as <-;
      eexists; (split; [done|]); unfold mainOk in Hm; rewrite Hpc in Hm.
    + destruct Hm as (Hr & Hreg & Hlen). pose proof (cleanOpt_asError o) as Ho.
      destruct (asError o) as [e|].
      * exact (failPhase_ok 0 e s Hb (Ho e eq_refl)).
      * split; [by apply base_main|]. split_and!; [done|exact Hreg|exact Hlen].
    + destruct Hm as (p & Hin & Hst & Hreg & Hall).
      eapply endRepetition_ok; [done|exact Hin|apply cleanOpt_asError|by rewrite Hst].
    + destruct Hm as (p & Hin & Hst & Hreg).
      eapply endRepetition_ok; [done|exact Hin|apply cleanOpt_asError|by rewrite Hst].
  - destruct (main s) eqn:Hpc; try done. injection Hs as <-. eexists. split; [done|]. by apply conclude_ok.
  - destruct (threads s !! p) as [[]|] eqn:Hp; try done. injection Hs as <-. eexists. split; [done|]. split.
    + eapply base_thread; [done|exact Hp|done|done|done|]. intros e [= <-]. apply cleanOpt_asError.
    + eapply later_mainOk; [by eapply later_thread|exact Hm].
  - destruct (threads s !! p) as [[]|] eqn:Hp; try done. injection Hs as <-. eexists. split; [done|]. split.
    + by apply base_report.
    + eapply later_mainOk; [by eapply later_report|exact Hm].
  - destruct (threads s !! p) as [[| |e|]|] eqn:Hp; try done.
    destruct (base_end p e s Hb Hp) as (j & Hj & Hb' & Hjj & Hch & Hd).
    rewrite Hj in Hs. injection Hs as <-. eexists. split; [done|]. split; [done|].
    eapply later_mainOk; [|exact Hm]. constructor; try done.
    + cbn. by rewrite length_insert.
    + right. cbn. lia.
    + intros Ha. by destruct (notEnded s p (reported e) Hp eq_refl).
Qed.

Lemma started_inv : inv (Runner.started networkManager).
Proof.
  split.
  - constructor; cbn; try done; intros p; rewrite ?lookup_nil; try done.
    intros e. split; [done|]. by intros [c Hc].
  - unfold mainOk, Runner.started. destruct networkManager; cbn; unfold registered, known; cbn;
      rewrite dom_empty_L; by rewrite ?take_0.
Qed.

Lemma run_reachable_inv s : reachable spec repetitions networkManager s → inv s.
Proof.
  induction 1 as [|s c s' _ IH Hs]; [apply started_inv|].
  destruct (step_inv c s _ IH Hs) as (s1 & [= ->] & H). exact H.
Qed.
End main.
