(* ===== verification/RunnerProps.v ===== *)
(** * Properties of a run

    For the runs of an accepted scenario: the registry of jobs never refuses the
    runner, no wakeup is lost, Peers are removed only after their producers have
    stopped, a completed run accounts for every background phase, and every run
    ends. *)
From Stdlib Require Import ZArith Lia.
From stdpp Require Import strings list gmap sorting.
From S2P Require Import Prelude.
From S2P Require Import GoStd.
From S2P Require Import GoStrings.
From S2P Require Import Network.
From S2P Require Import Attacks.
From S2P Require Import PeerScore.
From S2P Require Import GossipSubConfig.
From S2P Require Import NodeConfig.
From S2P Require Import ProfileScheduleProps.
From S2P Require Import Scenario.
From S2P Require Import ScenarioProps.
From S2P Require Import PhaseJobs.
From S2P Require Import PhaseJobsProps.
From S2P Require Import Runner.
From S2P Require Import RunnerInv.
Import PhaseJobs.
Import Runner.
Open Scope Z_scope.

(** ** Every run ends *)
(** A step of the program, not of its environment. *)
Definition internal (c : choice) : Prop :=
  match c with stop | diskFull => False | _ => True end.
#[local] Instance internal_dec c : Decision (internal c).
Proof. destruct c; solve_decision. Defined.

Section ending.
Context (spec : Scenario.t) (repetitions : Z) (networkManager : bool).
Let phases := Scenario.Phases spec.

(** The steps a phase may take, and the rank of a state: the steps left. *)
Definition cost (p : Phase.t) : nat := 6 * Z.to_nat (Phase.Repeat p) + 8.
Definition rest (i : nat) : nat := sum_list_with cost (drop i phases).
Definition repeats (i : nat) : nat :=
  from_option (λ p, Z.to_nat (Phase.Repeat p)) 0%nat (phases !! i).
Definition level (i r : nat) : nat := 8 + rest (S i) + 6 * (repeats i - r).

(** A waiter can move when its broadcast is not the open one. *)
Definition awake (j : phaseJobs) (w : waiter) : nat :=
  if from_option (λ c, bool_decide (c = changed j)) false (watching w) then 0 else 1.

Definition mainRank (s : run) : nat :=
  match main s with
  | preparing => 8 + rest 0
  | atPhase i => 7 + rest i
  | atRepetition i r => level i r
  | acting i r | stoppingPeers i r => level i (S r) + 1
  | waitingReady i r w | stoppingJobs i r w => level i (S r) + 2 + awake (jobs s) w
  | waitingJobs i r w => level i (S r) + 1 + awake (jobs s) w
  | draining w => 5 + awake (jobs s) w
  | cleaningJobs w => 3 + awake (jobs s) w
  | retiring _ => 2
  | concluding _ => 1
  | finished _ _ _ _ => 0
  end.
Definition threadRank (t : thread) : nat :=
  match t with running => 6 | returned _ => 4 | reported _ => 2 | ended _ => 0 end.
Definition weight (s : run) : nat := sum_list_with threadRank (threads s).
Definition rank (s : run) : nat := mainRank s + weight s.

Lemma awake_le j w : (awake j w ≤ 1)%nat.
Proof. unfold awake. destruct (from_option _ _ _); lia. Qed.

(** *** The main goroutine *)
Lemma rank_stopJobs s : (rank (stopJobs spec s) ≤ 4 + weight s)%nat.
Proof.
  unfold stopJobs. destruct (_ || _).
  - destruct (startWait _ _ _) as [e|w]; unfold rank, mainRank, weight; cbn; [lia|].
    pose proof (awake_le (cancelAll (jobs s)) w). lia.
  - unfold rank, mainRank, weight. cbn. lia.
Qed.
Lemma rank_leaveLoop s : (rank (leaveLoop spec s) ≤ 6 + weight s)%nat.
Proof.
  unfold leaveLoop. destruct (_ && _).
  - destruct (startWait _ _ _) as [e|w].
    + pose proof (rank_stopJobs (setRunErr e s)) as H. unfold weight in *; cbn [threads setRunErr] in H. lia.
    + unfold rank, mainRank, weight. cbn. pose proof (awake_le (jobs s) w). lia.
  - pose proof (rank_stopJobs s). lia.
Qed.
Lemma rank_endPhase i e s :
  (rank (endPhase spec i e s) ≤ 7 + rest (S i) + weight s)%nat.
Proof.
  unfold endPhase. destruct e as [e|].
  - pose proof (rank_leaveLoop (setRunErr (Some e) s)) as H. unfold weight in *; cbn [threads setRunErr] in H. lia.
  - destruct (from_option _ _ _); unfold rank, mainRank, weight; cbn; fold (rest (S i)); lia.
Qed.
Lemma rank_endRepetition i r e s :
  (rank (endRepetition spec i r e s) ≤ level i (S r) + weight s)%nat.
Proof.
  unfold endRepetition. destruct e as [e|].
  - pose proof (rank_endPhase i (Some e) s). unfold level. lia.
  - unfold rank, mainRank, weight. cbn -[level]. lia.
Qed.
Lemma rank_afterStop i r e s :
  (rank (afterStopJobs spec i r e s) ≤ level i (S r) + 1 + weight s)%nat.
Proof.
  unfold afterStopJobs. destruct e as [e|].
  - pose proof (rank_endRepetition i r (Some (wrapped "stop background jobs before stop-all" e)) s). lia.
  - destruct (reset (jobs s)) as [[e|] j].
    + pose proof (rank_endRepetition i r (Some (wrapped "reset background jobs before stop-all" e)) s). lia.
    + unfold rank, mainRank, weight. cbn -[level]. lia.
Qed.

Lemma rank_runPhase i r p s :
  (rank (runPhase spec i r p s) ≤ level i (S r) + 3 + weight s)%nat.
Proof.
  assert (rank (setMain (acting i r) s) = level i (S r) + 1 + weight s)%nat
    as Hact by done.
  unfold runPhase. destruct (Phase.actionIn p ["wait-ready"]%string).
  { destruct (elems (Phase.Jobs p)); [lia|]. destruct (startWait _ _ _) as [[e|]|w].
    - pose proof (rank_endRepetition i r (Some e) s). lia.
    - lia.
    - unfold rank, mainRank, weight. cbn -[level]. pose proof (awake_le (jobs s) w). lia. }
  destruct (Phase.actionIn p ["wait-jobs"]%string).
  { destruct (startWait _ _ _) as [e|w].
    - pose proof (rank_endRepetition i r e s). lia.
    - unfold rank, mainRank, weight. cbn -[level]. pose proof (awake_le (jobs s) w). lia. }
  destruct (Phase.actionIn p ["stop-all"]%string); [|lia].
  destruct (startWait _ _ _) as [e|w].
  - pose proof (rank_afterStop i r e (setJobs (cancelAll (jobs s)) s)) as H. unfold weight in *; cbn [threads setJobs] in H. lia.
  - unfold rank, mainRank, weight. cbn -[level]. pose proof (awake_le (cancelAll (jobs s)) w). lia.
Qed.

Lemma rank_repeat i r s :
  is_Some (phases !! i) →
  (rank (repeatPhase spec i r s) < level i r + weight s)%nat.
Proof.
  intros [p Hp]. unfold repeatPhase. fold phases. rewrite Hp.
  destruct (Z.of_nat r <? Phase.Repeat p) eqn:Hr.
  - apply Z.ltb_lt in Hr. assert (level i r = level i (S r) + 6)%nat as Hl.
    { unfold level, repeats. rewrite Hp. cbn. lia. }
    destruct (ctxErr s) as [e|].
    + pose proof (rank_endPhase i (Some e) s). unfold level in *. lia.
    + pose proof (rank_runPhase i r p s). lia.
  - pose proof (rank_endPhase i None s). unfold level. lia.
Qed.

Lemma rest_S i p : phases !! i = Some p → rest i = (cost p + rest (S i))%nat.
Proof. intros Hp. unfold rest. by rewrite (drop_S _ _ _ Hp). Qed.

Lemma rank_startPhase i s :
  (rank (startPhase spec i s) < 7 + rest i + weight s)%nat.
Proof.
  unfold startPhase. fold phases. destruct (phases !! i) as [p|] eqn:Hp.
  2: { pose proof (rank_leaveLoop s). lia. }
  rewrite (rest_S i p Hp). destruct (ctxErr s) as [e|].
  { pose proof (rank_leaveLoop (setRunErr (Some e) s)) as H. unfold weight in *; cbn [threads setRunErr] in H. lia. }
  destruct (Phase.ShouldAwait p).
  { unfold rank, mainRank, weight. cbn -[level]. unfold level, repeats, cost. rewrite Hp. cbn. lia. }
  unfold cost. destruct (startJob (Phase.Job p) (jobs s)) as [[e|q] j].
  - pose proof (rank_endPhase i (Some e) (setJobs j s)) as H. unfold weight in *; cbn [threads setJobs] in H. lia.
  - match goal with |- context [endPhase spec i None ?x] => pose proof (rank_endPhase i None x) as H end.
    unfold weight in *. cbn [threads setCounts setThreads] in H.
    rewrite sum_list_with_app in H. cbn [sum_list_with threadRank] in H. lia.
Qed.

(** *** All goroutines *)
Lemma waitRound_awake ce w j w' :
  waitRound ce w j = Some (waitOn w') → awake j w = 1%nat ∧ awake j w' = 0%nat.
Proof.
  unfold waitRound, awake. destruct ce as [e|]; [done|].
  destruct (from_option _ _ (watching w)); [done|].
  destruct (scan _ _ _) as [e|[|x l]]; [done|done|]. intros [= <-]. cbn.
  by rewrite bool_decide_eq_true_2.
Qed.

Lemma rank_mainStep expired s s' :
  (∀ i r, main s = atRepetition i r → is_Some (phases !! i)) →
  mainStep spec expired s = Some s' → (rank s' < rank s)%nat.
Proof.
  intros Hp Hs. unfold mainStep in Hs. unfold rank at 2, mainRank.
  destruct (main s) as [|i|i r|i r w|i r w|i r w|i r|i r|w|w|c|c|] eqn:Hpc; try done.
  - injection Hs as <-. apply rank_startPhase.
  - injection Hs as <-. apply rank_repeat. by eapply Hp.
  - destruct (waitRound _ w (jobs s)) as [[[e|]|w']|] eqn:Hx; [| | |done]; injection Hs as <-.
    + pose proof (rank_leaveLoop (setRunErr (Some e) s)) as H. unfold weight, level in *.
      cbn [threads setRunErr] in H. lia.
    + unfold rank, mainRank, weight. cbn -[level awake]. lia.
    + apply waitRound_awake in Hx as [-> Hw]. unfold rank, mainRank, weight. cbn -[level awake]. lia.
  - destruct (waitRound _ w (jobs s)) as [[e|w']|] eqn:Hx; [| |done]; injection Hs as <-.
    + pose proof (rank_endRepetition i r e s). lia.
    + apply waitRound_awake in Hx as [-> Hw]. unfold rank, mainRank, weight. cbn -[level awake]. lia.
  - destruct (waitRound _ w (jobs s)) as [[e|w']|] eqn:Hx; [| |done]; injection Hs as <-.
    + pose proof (rank_afterStop i r e s). lia.
    + apply waitRound_awake in Hx as [-> Hw]. unfold rank, mainRank, weight. cbn -[level awake]. lia.
  - destruct (waitRound _ w (jobs s)) as [[e|w']|] eqn:Hx; [| |done]; injection Hs as <-.
    + pose proof (rank_stopJobs (setRunErr e s)) as H. unfold weight in *. cbn [threads setRunErr] in H. lia.
    + apply waitRound_awake in Hx as [-> Hw]. unfold rank, mainRank, weight. cbn -[awake]. lia.
  - destruct (waitRound _ w (jobs s)) as [[e|w']|] eqn:Hx; [| |done]; injection Hs as <-.
    + unfold rank, mainRank, weight. cbn -[awake]. lia.
    + apply waitRound_awake in Hx as [-> Hw]. unfold rank, mainRank, weight. cbn -[awake]. lia.
  - injection Hs as <-. unfold rank, mainRank, weight. cbn -[awake]. lia.
Qed.

Lemma weight_thread p t t' s :
  threads s !! p = Some t → (weight (setThread p t' s) + threadRank t = weight s + threadRank t')%nat.
Proof.
  unfold weight. cbn [threads setThread setThreads]. generalize (threads s). intros l. revert p.
  induction l as [|x l IH]; intros p Hp; [done|]. destruct p as [|p].
  - injection Hp as ->. change (<[0%nat := t']> (t :: l)) with (t' :: l). cbn [sum_list_with]. lia.
  - change (<[S p := t']> (x :: l)) with (x :: <[p := t']> l). specialize (IH p Hp).
    cbn [sum_list_with]. lia.
Qed.

Lemma awake_end j w n : changed j = n → (awake j w ≤ 1)%nat.
Proof. intros _. apply awake_le. Qed.

Lemma mainRank_jobs s s' : main s' = main s → (mainRank s' ≤ mainRank s + 1)%nat.
Proof.
  intros Hm. unfold mainRank. rewrite Hm.
  destruct (main s) as [|i|i r|i r w|i r w|i r w|i r|i r|w|w|c|c|]; try lia;
    pose proof (awake_le (jobs s') w); lia.
Qed.

Lemma mainRank_same s s' : main s' = main s → jobs s' = jobs s → mainRank s' = mainRank s.
Proof. intros Hm Hj. unfold mainRank. by rewrite Hm, Hj. Qed.

Lemma completed_same e s :
  main (completed e s) = main s ∧ jobs (completed e s) = jobs s ∧ threads (completed e s) = threads s.
Proof.
  unfold completed, recordAsyncFailure. destruct e as [x|]; [|done]. destruct (isCanceled x); [done|].
  by destruct (isNil (asyncErr _)).
Qed.

Lemma rank_step c s s' :
  (∀ i r, main s = atRepetition i r → is_Some (phases !! i)) →
  internal c → step spec repetitions c s = Some (Ok s') → (rank s' < rank s)%nat.
Proof.
  intros Hp Hc Hs. destruct c as [| |expired|o|w|p o|p|p]; try done; cbn in Hs.
  - destruct (mainStep spec expired s) as [x|] eqn:Hx; [|done]. injection Hs as <-.
    by eapply rank_mainStep.
  - unfold rank at 2, mainRank.
    destruct (main s) as [|i|i r|i r w|i r w|i r w|i r|i r|w|w|x|x|] eqn:Hpc; try done; injection Hs as <-.
    + destruct (asError o) as [e|]; [|unfold rank, mainRank, weight; cbn; fold (rest 0); lia].
      pose proof (rank_leaveLoop (setRunErr (Some e) s)) as H. unfold weight in *.
      cbn [threads setRunErr] in H.
      change (rank (leaveLoop spec (setRunErr (Some e) s)) <
        8 + rest 0 + sum_list_with threadRank (threads s))%nat. lia.
    + pose proof (rank_endRepetition i r (asError o) s). lia.
    + pose proof (rank_endRepetition i r (asError o) s). lia.
  - unfold rank at 2, mainRank. destruct (main s) eqn:Hpc; try done. injection Hs as <-.
    unfold conclude. repeat case_match; unfold rank, mainRank, weight; cbn; lia.
  - destruct (threads s !! p) as [[]|] eqn:Ht; try done. injection Hs as <-. unfold rank.
    rewrite (mainRank_same s (setThread p _ s)) by done.
    pose proof (weight_thread p _ (returned (asError o)) s Ht) as H. cbn [threadRank] in H. lia.
  - destruct (threads s !! p) as [[|e| |]|] eqn:Ht; try done. injection Hs as <-.
    destruct (completed_same e s) as (Em & Ej & Et). unfold rank.
    rewrite (mainRank_same s (setThread p (reported e) (completed e s))) by done.
    assert (threads (completed e s) !! p = Some (returned e)) as Ht' by by rewrite Et.
    pose proof (weight_thread p _ (reported e) (completed e s) Ht') as H.
    assert (weight (completed e s) = weight s) as Hw by (unfold weight; by rewrite Et).
    rewrite Hw in H. cbn [threadRank] in H. lia.
  - destruct (threads s !! p) as [[| |e|]|] eqn:Ht; try done.
    destruct (finishJob p e (jobs s)) as [j| |]; try done. injection Hs as <-. unfold rank.
    pose proof (mainRank_jobs s (setThread p (ended e) (setJobs j s)) eq_refl).
    assert (threads (setJobs j s) !! p = Some (reported e)) as Ht' by done.
    pose proof (weight_thread p _ (ended e) (setJobs j s) Ht') as H'.
    assert (weight (setJobs j s) = weight s) as Hw by done. rewrite Hw in H'.
    cbn [threadRank] in H'. lia.
Qed.

(** A goroutine that has not ended can move. *)
Lemma thread_moves s p t :
  base s → threads s !! p = Some t → hasEnded t = false →
  ∃ c s', internal c ∧ step spec repetitions c s = Some (Ok s').
Proof.
  intros Hb Hp Ht. destruct t as [|e|e|e]; [| | |done].
  - exists (jobReturns p succeeds). cbn. rewrite Hp. by eexists.
  - exists (jobReports p). cbn. rewrite Hp. by eexists.
  - exists (jobEnds p). cbn. rewrite Hp.
    destruct (base_end p e s Hb Hp) as (j & -> & _). by eexists.
Qed.
End ending.

(** ** The theorems *)
(** A sequence of steps. *)
Fixpoint exec (spec : Scenario.t) (repetitions : Z) (cs : list choice) (s : run) : option run :=
  match cs with
  | [] => Some s
  | c :: cs => match step spec repetitions c s with
               | Some (Ok s') => exec spec repetitions cs s'
               | _ => None
               end
  end.

Lemma waitRound_blocked ce w j : waitRound ce w j = None → watching w = Some (changed j).
Proof.
  unfold waitRound. destruct ce; [done|]. destruct (watching w) as [c|]; cbn; [|done].
  case_bool_decide; [by subst|done].
Qed.

Section theorems.
Context `{PeerCodecLaws} `{CIDRs} `{PubSubLib} (ParseFloat : string → option float).
Context (declared spec : Scenario.t) (repetitions : Z) (networkManager : bool).
Hypothesis accepted : Scenario.Validate ParseFloat declared = Ok spec.
Let reachable := reachable spec repetitions networkManager.
Let step := step spec repetitions.

Lemma spec_fits pre p post : Scenario.Phases spec = pre ++ p :: post → fits (ScenarioProps.started pre) p.
Proof.
  destruct (scenario_Validate_ok _ _ _ accepted) as (phases & Hsound & _ & Hm & _). intros Heq.
  destruct (marked_phases _ _ _ Hsound Hm pre p post Heq) as [Hw _ Hf Hr _ _].
  constructor; [done| |done]. intros Ha. destruct (Hf Ha) as [? Hact]. split; [done|].
  destruct (stops p) eqn:Hs; [|done]. by rewrite stops_not_background in Hact.
Qed.
Lemma spec_exit : Scenario.OnExit spec ∈ ["cancel";"drain"]%string.
Proof. by destruct (scenario_Validate_ok _ _ _ accepted) as (? & _ & _ & _ & _ & ?). Qed.
Lemma spec_inv s : reachable s → inv spec s.
Proof. apply run_reachable_inv; [apply spec_fits|apply spec_exit]. Qed.

Lemma exec_reachable cs s s' :
  reachable s → exec spec repetitions cs s = Some s' → reachable s'.
Proof.
  revert s. induction cs as [|c cs IH]; intros s Hs Hx; [by injection Hx as <-|]. cbn in Hx.
  destruct (Runner.step spec repetitions c s) as [[x| |]|] eqn:Hstep; try done.
  eapply IH; [|exact Hx]. by eapply reach_step.
Qed.

Lemma exec_rank cs s s' :
  reachable s → exec spec repetitions cs s = Some s' →
  (length (filter internal cs) + rank spec s' ≤ rank spec s)%nat.
Proof.
  revert s. induction cs as [|c cs IH]; intros s Hs Hx; [injection Hx as <-; cbn; lia|]. cbn in Hx.
  destruct (Runner.step spec repetitions c s) as [[x| |]|] eqn:Hstep; try done.
  assert (reachable x) as Hx' by by eapply reach_step.
  specialize (IH x Hx' Hx). rewrite filter_cons.
  assert (∀ i r, main s = atRepetition i r → is_Some (Scenario.Phases spec !! i)) as Hp.
  { intros i r Hpc. pose proof (inv_main _ _ (spec_inv s Hs)) as Hm. unfold mainOk in Hm.
    rewrite Hpc in Hm. destruct Hm as (p & Hin & _). exists p. apply Hin. }
  case_decide as Hc.
  - pose proof (rank_step spec repetitions c s x Hp Hc Hstep). cbn [length]. lia.
  - destruct c; try done; injection Hstep as <-; exact IH.
Qed.

(** The program can move until the run is finished and all its jobs have ended:
    in particular no wakeup of a waiter is lost. *)
Lemma quiescent s :
  reachable s → (∀ c, internal c → step c s = None) →
  allEnded s ∧ ∃ r state cleanup data, main s = finished r state cleanup data.
Proof.
  intros Hs Hq. destruct (spec_inv s Hs) as [Hb Hm].
  assert (allEnded s) as Hall.
  { intros p t Ht. destruct (hasEnded t) eqn:Hn; [done|].
    destruct (thread_moves spec repetitions s p t Hb Ht Hn) as (c & s' & Hc & Hstep).
    specialize (Hq c Hc). unfold step in Hq. by rewrite Hstep in Hq. }
  split; [done|]. pose proof (Hq (proceed false) I) as Hmain. cbn in Hmain.
  pose proof (Hq (answer succeeds) I) as Hans. cbn in Hans.
  pose proof (λ w, Hq (finish w) I) as Hfin. cbn in Hfin.
  assert (∀ w ce, waitsFor s w → waitRound ce w (jobs s) ≠ None) as Hwait.
  { intros w ce [Hne Hv Hw] Hx%waitRound_blocked. destruct (Hw _ Hx) as [_ Hd].
    destruct (pending w) as [|[id p] l]; [done|].
    specialize (Hd eq_refl id p ltac:(by apply elem_of_cons; left)).
    rewrite (proj1 (allEnded_iff s Hb) Hall) in Hd; [done|].
    apply (Hv id). by apply elem_of_cons; left. }
  unfold mainStep in Hmain. unfold mainOk in Hm.
  destruct (main s) as [|i|i r|i r w|i r w|i r w|i r|i r|w|w|x|x|r a b c] eqn:Hpc; try done.
  - destruct Hm as (p & _ & _ & _ & Hw). specialize (Hwait w (waitErr false (ctxDone s)) Hw).
    by destruct (waitRound _ w (jobs s)) as [[[e|]|w']|].
  - destruct Hm as (p & _ & _ & _ & Hw). specialize (Hwait w (waitErr false (ctxDone s)) Hw).
    by destruct (waitRound _ w (jobs s)) as [[e|w']|].
  - destruct Hm as (p & _ & _ & [Hw _]). specialize (Hwait w (waitErr false false) Hw).
    by destruct (waitRound _ w (jobs s)) as [[e|w']|].
  - destruct Hm as (_ & _ & [Hw _]). specialize (Hwait w (waitErr false (ctxDone s)) Hw).
    by destruct (waitRound _ w (jobs s)) as [[e|w']|].
  - destruct Hm as (_ & _ & [Hw _]). specialize (Hwait w (waitErr false false) Hw).
    by destruct (waitRound _ w (jobs s)) as [[e|w']|].
  - by specialize (Hfin (mkEnding true succeeds succeeds succeeds succeeds succeeds "" 0 true)).
  - by exists r, a, b, c.
Qed.

(** C12: the registry of jobs never refuses the runner of an accepted scenario,
    however its goroutines interleave and whatever the Agents answer: no phase
    starts a job whose name is taken, waits for a job that is not registered, or
    forgets the jobs while one is running; no error of the run stems from such a
    refusal, and no step panics (a job is finished once). *)
Theorem jobs_never_refused s :
  reachable s →
  cleanOpt (runErr s) ∧ cleanOpt (asyncErr s) ∧
  (∀ r state cleanup data, main s = finished r state cleanup data → cleanOpt r) ∧
  (∀ c r, step c s = Some r → ∃ s', r = Ok s').
Proof.
  intros Hs. pose proof (spec_inv s Hs) as [Hb Hm]. split_and!.
  - apply (b_runClean _ Hb).
  - apply (b_asyncClean _ Hb).
  - intros r state cleanup data Hpc. unfold mainOk in Hm. rewrite Hpc in Hm. apply Hm.
  - intros c r Hr.
    destruct (step_inv spec repetitions spec_fits spec_exit c s r (spec_inv s Hs) Hr) as (s' & ? & _).
    by exists s'.
Qed.

(** An error that is met is kept. *)
Lemma Join_keeps (e : error) l : Some e ∈ l → ∃ e', Join l = Some e'.
Proof.
  intros He. destruct (Join l) as [e'|] eqn:Hj; [by eexists|].
  apply Join_None in Hj. rewrite list.Forall_forall in Hj. by specialize (Hj _ He).
Qed.

(** A failed job cleanup ends the run with an error and a failed cleanup. *)
Lemma conclude_failed e w s :
  ∃ e' state data,
    main (conclude repetitions (Some e) w s) = finished (Some e') state "failed" data ∧
    state ≠ "completed"%string.
Proof.
  unfold conclude. rewrite orb_true_r. cbn [orb].
  assert (∀ x, ∃ e', Join [Some e; x] = Some e') as Hj
    by (intros x; apply (Join_keeps e); set_solver).
  set (two := match Join [asError (stopErr w); asError (refreshErr w)] with Some _ => _ | None => _ end).
  assert (∃ e1 d, two = (Some e1, d)) as (e1 & d & ->).
  { unfold two. destruct (Join [_; asError (refreshErr w)]) as [x|]; [|by eauto].
    destruct (Hj (Some (wrapped "stop scenario peers" x))) as [e' ->]. eauto. }
  cbn [isNil Attacks.present negb]. rewrite !andb_false_r. cbn [andb].
  destruct (Join_keeps e1 [runErr s; Some e1; d]) as [r ->]; [set_solver|].
  assert (∀ r x : error, ∃ e', Join [Some r; Some x] = Some e') as Hk
    by (intros r' x; apply (Join_keeps r'); set_solver).
  repeat match goal with
    | |- context [match asError ?o with Some _ => _ | None => _ end] => destruct (asError o)
    | |- context [if empty ?x then _ else _] => destruct (empty x)
    | |- context [Join [Some ?a; Some ?b]] => destruct (Hk a b) as [? ->]
    end; cbn [setMain main isNil Attacks.present negb andb];
    do 3 eexists; (split; [reflexivity|]); by case_match.
Qed.

(** C24: a run reported as completed accounts for its scenario: every background
    phase was started and its goroutine has ended, none of them failed, and the
    counters say so. *)
Theorem completed_run_accounted s r cleanup data :
  reachable s → main s = finished r "completed" cleanup data →
  allEnded s ∧ ActiveJobs (counts s) = 0 ∧ FailedJobs (counts s) = 0 ∧
  CompletedJobs (counts s) + CanceledJobs (counts s) = Z.of_nat (background (Scenario.Phases spec)).
Proof.
  intros Hs Hpc. destruct (spec_inv s Hs) as [Hb Hm]. unfold mainOk in Hm. rewrite Hpc in Hm.
  destruct Hm as [_ Hacc]. destruct (Hacc eq_refl) as [Hend Has Hcount].
  rewrite (b_counts _ Hb). cbn [tally ActiveJobs CompletedJobs CanceledJobs FailedJobs].
  assert (countOf isActive (threads s) = 0) as Ha.
  { apply countOf_zero. intros p t Ht. specialize (Hend p t Ht). by destruct t. }
  assert (countOf isFailure (threads s) = 0) as Hf.
  { apply countOf_zero. intros p t Ht. destruct (isFailure t) eqn:Hn; [|done].
    by destruct (b_fail _ Hb p t Ht Hn). }
  pose proof (countOf_total (threads s)). rewrite Hcount in *. split_and!; [done|done|done|lia].
Qed.

(** C30: Peers are removed after their producers, or the run does not pass for
    cleaned up.  When [stop-all] stops the Peers of a generation, every background
    goroutine started so far has ended, so no creation is still in flight; the same
    holds when a run reaches its final cleanup, unless stopping its background jobs
    failed (they did not end within the shutdown timeout), and then, whatever the
    cleanup meets, the run ends with an error and a failed cleanup. *)
Theorem cleanup_after_producers s :
  reachable s →
  (∀ i r, main s = stoppingPeers i r → allEnded s) ∧
  ∀ cleanupErr, main s = concluding cleanupErr →
    match cleanupErr with
    | None => allEnded s
    | Some _ => ∀ w s', step (finish w) s = Some (Ok s') →
        ∃ e state data, main s' = finished (Some e) state "failed" data ∧ state ≠ "completed"%string
    end.
Proof.
  intros Hs. pose proof (inv_main _ _ (spec_inv s Hs)) as Hm. unfold mainOk in Hm. split.
  - intros i r Hpc. rewrite Hpc in Hm. by destruct Hm as (p & _ & _ & _ & ?).
  - intros [e|] Hpc; rewrite Hpc in Hm.
    + intros w s'. unfold step, Runner.step. rewrite Hpc. intros [= <-]. apply conclude_failed.
    + destruct Hm as (_ & _ & _ & Hall). by apply Hall.
Qed.

(** C14: every run ends.  Whatever the order of its goroutines, a run takes at most
    [8 + Σ (6·repeat + 8)] steps of its own, and it can always take one until the
    main goroutine is finished and all jobs have ended: no waiter misses the end
    of the job it waits for. *)
Theorem run_terminates cs s :
  exec spec repetitions cs (Runner.started networkManager) = Some s →
  (length (filter internal cs) ≤ 8 + sum_list_with cost (Scenario.Phases spec))%nat ∧
  ((∀ c, internal c → step c s = None) →
   allEnded s ∧ ∃ r state cleanup data, main s = finished r state cleanup data).
Proof.
  intros Hx. assert (reachable (Runner.started networkManager)) as Hstart by constructor.
  split; [|by apply quiescent, (exec_reachable cs (Runner.started networkManager))].
  pose proof (exec_rank cs _ s Hstart Hx) as Hr.
  assert (rank spec (Runner.started networkManager) ≤ 8 + sum_list_with cost (Scenario.Phases spec))%nat as Hle.
  { unfold rank, mainRank, weight, rest. destruct networkManager; cbn; rewrite drop_0; lia. }
  lia.
Qed.
End theorems.

Module RunnerExamples.
#[local] Existing Instances ProfileExamples.codec ProfileExamples.codecLaws ProfileExamples.cidrs
  ProfileExamples.pubsubLib.
Definition spec : Scenario.t := ScenarioExamples.completed.

(** The scenario of [ScenarioExamples]: the join ends while the readiness barrier
    waits for it, [stop-all] forgets it, the second join of the same name is
    cancelled at the end. *)
Definition atEnd : ending :=
  mkEnding true succeeds succeeds succeeds succeeds succeeds "" 1 true.
Definition toStop : list choice :=
  [proceed false; proceed false; proceed false; jobReturns 0 succeeds; jobReports 0; jobEnds 0;
   proceed false; answer succeeds; proceed false; proceed false; proceed false; answer succeeds;
   proceed false; proceed false; proceed false; proceed false].
Definition toEnd : list choice :=
  toStop ++
  [answer succeeds; proceed false; proceed false; proceed false; jobReturns 1 isCancelled;
   jobReports 1; jobEnds 1; proceed false; proceed false; finish atEnd].
Definition after (cs : list choice) : run :=
  default (Runner.started false) (exec spec 1 cs (Runner.started false)).

Lemma spec_accepted :
  Scenario.Validate ScenarioExamples.parse ScenarioExamples.scenario = Ok spec.
Proof. exact ScenarioExamples.scenario_accepted. Qed.
Lemma runs_toStop : exec spec 1 toStop (Runner.started false) = Some (after toStop).
Proof. vm_compute. reflexivity. Qed.
Lemma runs_toEnd : exec spec 1 toEnd (Runner.started false) = Some (after toEnd).
Proof. vm_compute. reflexivity. Qed.
Lemma at_stop : main (after toStop) = stoppingPeers 3 0.
Proof. vm_compute. reflexivity. Qed.
Lemma at_end : main (after toEnd) = finished None "completed" "complete" "complete".
Proof. vm_compute. reflexivity. Qed.
Lemma reaches_stop : reachable spec 1 false (after toStop).
Proof. eapply exec_reachable; [apply reach_start|exact runs_toStop]. Qed.
Lemma reaches_end : reachable spec 1 false (after toEnd).
Proof. eapply exec_reachable; [apply reach_start|exact runs_toEnd]. Qed.

Lemma jobs_never_refused_witness : cleanOpt (runErr (after toStop)).
Proof.
  exact (proj1 (jobs_never_refused ScenarioExamples.parse ScenarioExamples.scenario spec 1 false
                  spec_accepted (after toStop) reaches_stop)).
Defined.

Lemma cleanup_after_producers_witness : allEnded (after toStop).
Proof.
  exact (proj1 (cleanup_after_producers ScenarioExamples.parse ScenarioExamples.scenario spec 1 false
           spec_accepted (after toStop) reaches_stop) 3%nat 0%nat at_stop).
Defined.

Lemma completed_run_accounted_witness :
  allEnded (after toEnd) ∧ ActiveJobs (counts (after toEnd)) = 0 ∧
  FailedJobs (counts (after toEnd)) = 0 ∧
  CompletedJobs (counts (after toEnd)) + CanceledJobs (counts (after toEnd)) =
    Z.of_nat (background (Scenario.Phases spec)).
Proof.
  exact (completed_run_accounted ScenarioExamples.parse ScenarioExamples.scenario spec 1 false
           spec_accepted (after toEnd) None "complete" "complete" reaches_end at_end).
Defined.

Lemma run_terminates_witness :
  (length (filter internal toEnd) ≤ 8 + sum_list_with cost (Scenario.Phases spec))%nat.
Proof.
  exact (proj1 (run_terminates ScenarioExamples.parse ScenarioExamples.scenario spec 1 false
                  spec_accepted toEnd (after toEnd) runs_toEnd)).
Defined.
End RunnerExamples.
