(* ===== verification/GoFloat.v ===== *)
(** * Facts about [float64]

    The comparison of numbers is a total preorder, and the operations the
    program compares by produce numbers: rounding never gives a NaN, the
    conversion of a positive [int] is finite and positive.  Nothing in this file
    models code of the repository. *)
From Stdlib Require Import ZArith Lia Floats.SpecFloat.
From stdpp Require Import strings list.
From S2P Require Import Prelude.
From S2P Require Import GoStd.
Open Scope Z_scope.

(** ** Comparison *)
Lemma scaled_rescale x e0 e1 :
  e0 ≤ e1 → (∀ s m e, x = S754_finite s m e → e1 ≤ e) →
  F64.scaled e0 x = F64.scaled e1 x * 2 ^ (e1 - e0).
Proof.
  intros H01 He. destruct x as [sx|sx| |s m e]; try (cbn; lia).
  specialize (He s m e eq_refl). unfold F64.scaled.
  replace (e - e0) with ((e - e1) + (e1 - e0)) by lia.
  rewrite Z.pow_add_r by lia. destruct s; lia.
Qed.

(** A value whose order is that of the floats, for exponents from [e0] and
    finite magnitudes below [b]. *)
Definition rank (e0 b : Z) (x : float) : Z :=
  match x with
  | S754_infinity s => if s then - b else b
  | _ => F64.scaled e0 x
  end.

Lemma scaled_compare e0 x y :
  e0 ≤ F64.exponent x → e0 ≤ F64.exponent y →
  let e1 := Z.min (F64.exponent x) (F64.exponent y) in
  (F64.scaled e1 x ?= F64.scaled e1 y) = (F64.scaled e0 x ?= F64.scaled e0 y).
Proof.
  intros Ex Ey e1.
  rewrite (scaled_rescale x e0 e1), (scaled_rescale y e0 e1) by (intros; subst; cbn in *; lia).
  apply Zmult_compare_compat_r, Z.lt_gt, Z.pow_pos_nonneg; lia.
Qed.

Lemma compare_rank e0 b x y :
  F64.isNaN x = false → F64.isNaN y = false →
  e0 ≤ F64.exponent x → e0 ≤ F64.exponent y →
  Z.abs (F64.scaled e0 x) < b → Z.abs (F64.scaled e0 y) < b →
  F64.compare x y = Some (rank e0 b x ?= rank e0 b y).
Proof.
  intros Nx Ny Ex Ey Bx By.
  pose proof (scaled_compare e0 x y Ex Ey) as Hs. cbn zeta in Hs.
  assert (∀ s v, Z.abs v < b → ((if s : bool then - b else b) ?= v) = if s then Lt else Gt) as Hl.
  { intros [] v Hv; [apply Z.compare_lt_iff; lia|apply Z.compare_gt_iff; lia]. }
  assert (∀ s v, Z.abs v < b → (v ?= (if s : bool then - b else b)) = if s then Gt else Lt) as Hr.
  { intros [] v Hv; [apply Z.compare_gt_iff; lia|apply Z.compare_lt_iff; lia]. }
  destruct x as [sx|sx| |sx mx ex], y as [sy|sy| |sy my ey]; try done;
    cbn [F64.compare rank]; try (by rewrite Hl by done); try (by rewrite Hr by done);
    try (by rewrite <- Hs).
  destruct sx, sy; f_equal; symmetry; [apply Z.compare_refl|apply Z.compare_lt_iff; lia|
    apply Z.compare_gt_iff; lia|apply Z.compare_refl].
Qed.

Lemma compare_ranks x y z :
  F64.isNaN x = false → F64.isNaN y = false → F64.isNaN z = false →
  ∃ a b c, F64.compare x y = Some (a ?= b) ∧ F64.compare y z = Some (b ?= c) ∧
           F64.compare x z = Some (a ?= c).
Proof.
  intros Nx Ny Nz.
  set (e0 := Z.min (F64.exponent x) (Z.min (F64.exponent y) (F64.exponent z))).
  set (b := 1 + Z.abs (F64.scaled e0 x) + Z.abs (F64.scaled e0 y) + Z.abs (F64.scaled e0 z)).
  exists (rank e0 b x), (rank e0 b y), (rank e0 b z).
  assert (e0 ≤ F64.exponent x ∧ e0 ≤ F64.exponent y ∧ e0 ≤ F64.exponent z) as (? & ? & ?)
    by (unfold e0; lia).
  split_and!; apply compare_rank; try done; unfold b; lia.
Qed.

Lemma compare_refl_float x : F64.isNaN x = false → F64.compare x x = Some Eq.
Proof.
  intros Hx. destruct x as [sx|[]| |s m e]; try done. cbn -[F64.scaled].
  by rewrite Z.compare_refl.
Qed.

(** ** Rounding *)
Section rounding.
Let prec := F64.prec.
Let emax := F64.emax.

Lemma shr_1_m r : 0 ≤ shr_m r → shr_m (shr_1 r) = shr_m r / 2.
Proof.
  destruct r as [m r s]. cbn. intros Hm.
  destruct m as [|[p|p|]|p]; cbn [shr_1 shr_m]; [done| | |done|lia].
  - apply (Z.div_unique _ _ _ 1); lia.
  - apply (Z.div_unique _ _ _ 0); lia.
Qed.

Lemma div_pow2_nonneg z n : 0 ≤ z → 0 ≤ n → 0 ≤ z / 2 ^ n.
Proof. intros Hz Hn. apply Z.div_pos; [done|]. apply Z.pow_pos_nonneg; lia. Qed.

Lemma div_pow2_pow2 z a b : 0 ≤ a → 0 ≤ b → z / 2 ^ a / 2 ^ b = z / 2 ^ (a + b).
Proof.
  intros Ha Hb. rewrite Z.pow_add_r by done.
  apply Z.div_div; [apply Z.pow_nonzero; lia|apply Z.pow_pos_nonneg; lia].
Qed.

Lemma iter_shr_m p r : 0 ≤ shr_m r → shr_m (SpecFloat.iter_pos shr_1 p r) = shr_m r / 2 ^ Z.pos p.
Proof.
  revert r. induction p as [p IH|p IH|]; intros r Hr; cbn [SpecFloat.iter_pos].
  - assert (shr_m (shr_1 r) = shr_m r / 2 ^ 1) as H1 by by apply shr_1_m.
    assert (0 ≤ shr_m (shr_1 r)) as H1p by (rewrite H1; apply div_pow2_nonneg; lia).
    rewrite !IH, H1 by (rewrite ?IH by done; try apply div_pow2_nonneg; lia).
    rewrite !div_pow2_pow2 by lia. do 2 f_equal. lia.
  - rewrite !IH by (rewrite ?IH by done; try apply div_pow2_nonneg; lia).
    rewrite div_pow2_pow2 by lia. do 2 f_equal. lia.
  - by apply shr_1_m.
Qed.

Lemma shr_record_m m l : shr_m (shr_record_of_loc m l) = m.
Proof. by destruct l as [|[]]. Qed.

(** The mantissa and the exponent after a shift by [n = max 0 (fexp … - e)]. *)
Lemma shr_fexp_spec m e l :
  0 ≤ m →
  let n := Z.max 0 (fexp prec emax (Zdigits2 m + e) - e) in
  shr_m (shr_fexp prec emax m e l).1 = m / 2 ^ n ∧ (shr_fexp prec emax m e l).2 = e + n.
Proof.
  intros Hm. unfold shr_fexp, shr.
  destruct (fexp prec emax (Zdigits2 m + e) - e) as [|p|p] eqn:Hf; cbn [fst snd].
  - rewrite shr_record_m, Z.div_1_r. lia.
  - rewrite iter_shr_m by (by rewrite shr_record_m). rewrite shr_record_m.
    rewrite Z.max_r by lia. lia.
  - rewrite shr_record_m, Z.max_l, Z.div_1_r by lia. lia.
Qed.

Lemma round_nearest_even_bounds m l : m ≤ round_nearest_even m l ≤ m + 1.
Proof. destruct l as [|[]]; cbn; [lia| |lia|lia]. destruct (Z.even m); lia. Qed.

Lemma round_aux_nan sx m e l : 0 ≤ m → F64.isNaN (binary_round_aux prec emax sx m e l) = false.
Proof.
  intros Hm. unfold binary_round_aux.
  pose proof (shr_fexp_spec m e l Hm) as [H1 _].
  destruct (shr_fexp prec emax m e l) as [r1 e1]. cbn [fst snd] in H1.
  assert (0 ≤ shr_m r1) as Hr1.
  { rewrite H1. apply div_pow2_nonneg; lia. }
  pose proof (round_nearest_even_bounds (shr_m r1) (loc_of_shr_record r1)) as Hr.
  set (m1 := round_nearest_even _ _) in *.
  assert (0 ≤ m1) as Hm1 by lia.
  pose proof (shr_fexp_spec m1 e1 loc_Exact Hm1) as [H2 _].
  destruct (shr_fexp prec emax m1 e1 loc_Exact) as [r2 e2]. cbn [fst snd] in H2.
  assert (0 ≤ shr_m r2) as Hr2.
  { rewrite H2. apply div_pow2_nonneg; lia. }
  destruct (shr_m r2); [done| |lia]. by destruct (_ <=? _).
Qed.

Lemma normalize_nan m e s : F64.isNaN (binary_normalize prec emax m e s) = false.
Proof.
  destruct m as [|p|p]; [done| |]; cbn [binary_normalize]; unfold binary_round;
    destruct (shl_align _ _ _) as [mz ez]; apply round_aux_nan; lia.
Qed.
End rounding.

Lemma of_Z_nan z : F64.isNaN (F64.of_Z z) = false.
Proof. apply normalize_nan. Qed.

(** Adding a finite number. *)
Lemma add_nan x y :
  F64.isNaN x = false → F64.finite y = true → F64.isNaN (F64.add x y) = false.
Proof.
  intros Hx Hy. destruct x as [[]|[]| |sx mx ex], y as [[]|[]| |sy my ey]; try done;
    apply normalize_nan.
Qed.

(** Dividing by a finite number other than zero. *)
Lemma div_nan x s m e : F64.isNaN x = false → F64.isNaN (F64.div x (S754_finite s m e)) = false.
Proof.
  intros Hx. destruct x as [sx|sx| |sx mx ex]; try done. unfold F64.div, SFdiv.
  destruct (SFdiv_core_binary _ _ _ _ _ _) as [[q e'] l] eqn:Hq.
  apply round_aux_nan. unfold SFdiv_core_binary in Hq.
  set (m' := match _ with Z0 => _ | Zpos _ => _ | Zneg _ => _ end) in Hq.
  assert (0 ≤ m') as Hm'.
  { subst m'. destruct (_ - _ - _); [lia| |lia]. by apply Z.shiftl_nonneg. }
  clearbody m'. pose proof (Z_div_mod m' (Z.pos m) eq_refl) as Hd.
  destruct (Z.div_eucl m' (Z.pos m)) as [q' r]. simplify_eq. nia.
Qed.

(** ** The conversion of a positive [int] *)
Lemma digits2_bounds p : 2 ^ (Z.pos (digits2_pos p) - 1) ≤ Z.pos p < 2 ^ Z.pos (digits2_pos p).
Proof.
  induction p as [p IH|p IH|]; cbn [digits2_pos]; [..|cbn; lia];
    rewrite Pos2Z.inj_succ, Z.pow_succ_r by lia;
    replace (Z.succ (Z.pos (digits2_pos p)) - 1) with (Z.succ (Z.pos (digits2_pos p) - 1)) by lia;
    rewrite Z.pow_succ_r by lia; lia.
Qed.

Lemma digits2_le p n : 0 ≤ n → Z.pos p < 2 ^ n → Z.pos (digits2_pos p) ≤ n.
Proof.
  intros Hn Hp. pose proof (digits2_bounds p) as [Hlo _].
  destruct (Z_le_gt_dec (Z.pos (digits2_pos p)) n) as [|Hgt]; [done|].
  assert (2 ^ n ≤ 2 ^ (Z.pos (digits2_pos p) - 1)); [|lia].
  apply Z.pow_le_mono_r; lia.
Qed.

(** One shift of a positive mantissa of at most 64 bits. *)
Lemma shr_fexp_pos p e l :
  Z.pos p ≤ 2 ^ 64 → -1100 ≤ e ≤ 100 →
  let r := shr_fexp F64.prec F64.emax (Z.pos p) e l in
  0 < Z.pos p / 2 ^ Z.max 0 (fexp F64.prec F64.emax (Zdigits2 (Z.pos p) + e) - e) →
  0 < shr_m r.1 ≤ Z.pos p ∧ e ≤ r.2 ≤ Z.max e (Z.max (e + 12) (-1074)).
Proof.
  intros Hp He r Hpos. subst r. pose proof (shr_fexp_spec (Z.pos p) e l ltac:(lia)) as [-> ->].
  assert (Z.pos (digits2_pos p) ≤ 65) by (apply digits2_le; lia).
  cbn [Zdigits2] in *. unfold fexp, emin, F64.prec, F64.emax in *.
  split; [|lia]. split; [done|].
  apply Z.div_le_upper_bound; [apply Z.pow_pos_nonneg; lia|].
  assert (1 ≤ 2 ^ Z.max 0 (Z.max (Z.pos (digits2_pos p) + e - 53) (3 - 1024 - 53) - e)); [|nia].
  change 1 with (2 ^ 0) at 1. apply Z.pow_le_mono_r; lia.
Qed.

Lemma shift_pos p e :
  -1074 ≤ e →
  0 < Z.pos p / 2 ^ Z.max 0 (fexp F64.prec F64.emax (Zdigits2 (Z.pos p) + e) - e).
Proof.
  intros He. apply Z.div_str_pos. pose proof (digits2_bounds p) as [Hlo _].
  split; [apply Z.pow_pos_nonneg; lia|].
  etrans; [|exact Hlo]. apply Z.pow_le_mono_r; [lia|].
  cbn [Zdigits2]. unfold fexp, emin, F64.prec, F64.emax. lia.
Qed.

Lemma iter_xO p d : Z.pos (Pos.iter xO p d) = Z.pos p * 2 ^ Z.pos d.
Proof.
  induction d as [|d IH] using Pos.peano_ind; [cbn; lia|].
  rewrite Pos.iter_succ, Pos2Z.inj_xO, IH, Pos2Z.inj_succ, Z.pow_succ_r by lia. lia.
Qed.

Lemma of_Z_pos z : 0 < z < 2 ^ 63 → ∃ m e, F64.of_Z z = S754_finite false m e.
Proof.
  intros Hz. destruct z as [|p|p]; [lia| |lia].
  unfold F64.of_Z, binary_normalize, binary_round.
  assert (Z.pos (digits2_pos p) ≤ 63) as Hd by (apply digits2_le; lia).
  (* the mantissa [mz] before rounding keeps the value *)
  assert (∃ q ez, shl_align p 0 (fexp F64.prec F64.emax (Z.pos (digits2_pos p) + 0)) = (q, ez) ∧
                  -1074 ≤ ez ≤ 0 ∧ Z.pos q ≤ 2 ^ 63) as (q & ez & -> & Hez & Hq).
  { unfold shl_align, fexp, emin, F64.prec, F64.emax.
    destruct (Z.max (Z.pos (digits2_pos p) + 0 - 53) (3 - 1024 - 53) - 0) as [|d|d] eqn:Hf.
    - exists p, 0. split_and!; [done|lia..].
    - exists p, 0. split_and!; [done|lia..].
    - eexists _, _. split; [done|]. split; [lia|].
      rewrite iter_xO.
      pose proof (digits2_bounds p) as [_ Hhi].
      assert (2 ^ Z.pos d * 2 ^ Z.pos (digits2_pos p) ≤ 2 ^ 63); [|nia].
      rewrite <- Z.pow_add_r by lia. apply Z.pow_le_mono_r; lia. }
  unfold binary_round_aux.
  pose proof (shr_fexp_pos q ez loc_Exact ltac:(lia) ltac:(lia) ltac:(apply shift_pos; lia)) as [Hm He].
  destruct (shr_fexp _ _ (Z.pos q) ez loc_Exact) as [r1 e1]. cbn [fst snd] in Hm, He.
  pose proof (round_nearest_even_bounds (shr_m r1) (loc_of_shr_record r1)) as Hr.
  set (m1 := round_nearest_even _ _) in *. clearbody m1.
  destruct m1 as [|q1|q1]; [lia| |lia].
  pose proof (shr_fexp_pos q1 e1 loc_Exact ltac:(lia) ltac:(lia) ltac:(apply shift_pos; lia))
    as [Hm2 He2].
  destruct (shr_fexp _ _ (Z.pos q1) e1 loc_Exact) as [r2 e2]. cbn [fst snd] in Hm2, He2.
  destruct (shr_m r2) as [|m2|m2]; [lia| |lia].
  exists m2, e2. change (F64.emax - F64.prec) with 971. by destruct (Z.leb_spec e2 971); [|lia].
Qed.
