(* ===== verification/AgentModel.v ===== *)
(** * The records of hosts, Agents and Peers

    [internal/model]: the records the Controller keeps of its Agents and their
    Peers ([model.go], [host_reboot.go]) and the usage samples in them
    ([agent_resources.go]).  A Go clone of such a record is the record: the model
    has values, and a pointer field is an option of the value behind it. *)
From Stdlib Require Import ZArith Lia.
From stdpp Require Import strings list gmap.
From S2P Require Import Prelude.
From S2P Require Import GoStd.
From S2P Require Import Trace.
Open Scope Z_scope.

Definition AgentOnline : string := "online".
Definition AgentOffline : string := "offline".
Definition NodeStarting : string := "starting".
Definition NodeReady : string := "ready".
Definition NodeStopping : string := "stopping".
Definition NodeStopped : string := "stopped".
Definition NodeFailed : string := "failed".

Definition ResourceScopeTotal : string := "agent_and_peers".
Definition ResourceScopeAgent : string := "agent".
Definition ResourceScopePeers : string := "peers".

Module AgentHost.
Record t := mk {
  NodeID : string; Hostname : string; BootID : string; RebootEnabled : bool;
  RebootSupported : bool; RebootReason : string; RebootPending : bool }.
End AgentHost.

Module ContainerResources.
Record t := mk {
  CPUCores : option float; MemoryUsageBytes : option Z; MemoryWorkingSetBytes : option Z;
  Containers : Z; MeasuredContainers : Z; Complete : bool }.

(** [r.Valid(allowEmpty)], on a pointer that may be nil. *)
Definition Valid (r : option t) (allowEmpty : bool) : bool :=
  match r with
  | None => false
  | Some r =>
      if (Containers r <? 0) || (MeasuredContainers r <? 0) ||
         (Containers r <? MeasuredContainers r) ||
         (Complete r && negb (MeasuredContainers r =? Containers r))
      then false
      else
        match CPUCores r, MemoryUsageBytes r, MemoryWorkingSetBytes r with
        | Some cpu, Some usage, Some working =>
            if F64.isNaN cpu || F64.isInf cpu || F64.ltb cpu F64.zero || (usage <? working)
            then false
            else if Containers r =? 0
            then allowEmpty && Complete r && F64.eqb cpu F64.zero && (usage =? 0) && (working =? 0)
            else 0 <? MeasuredContainers r
        | _, _, _ => false
        end
  end.

(** The reset of an invalid sample: [Complete = false] and no values. *)
Definition withoutValues (r : t) : t :=
  mk None None None (Containers r) (MeasuredContainers r) false.
End ContainerResources.

Module AgentResources.
Record t := mk {
  Agent : option ContainerResources.t; Peers : option ContainerResources.t;
  SampledAt : Time; CPUCapacityCores : Z; CPUCores : option float;
  MemoryUsageBytes : option Z; MemoryWorkingSetBytes : option Z;
  Containers : Z; MeasuredContainers : Z; Complete : bool; Error : string }.

Definition AgentResourceMaxAge : Z := 30 * Duration.Second.

(** [r.Usage(scope)] of a non-nil sample. *)
Definition Usage (r : t) (scope : string) : option ContainerResources.t :=
  if bool_decide (scope = ResourceScopeTotal) then
    Some (ContainerResources.mk (CPUCores r) (MemoryUsageBytes r) (MemoryWorkingSetBytes r)
            (Containers r) (MeasuredContainers r) (Complete r))
  else if bool_decide (scope = ResourceScopeAgent) then Agent r
  else if bool_decide (scope = ResourceScopePeers) then Peers r
  else None.

Definition ScopeValid (r : t) (scope : string) : bool :=
  negb (IsZero (SampledAt r)) &&
  ContainerResources.Valid (Usage r scope) (bool_decide (scope = ResourceScopePeers)) &&
  (negb (bool_decide (scope = ResourceScopeAgent)) ||
   match Usage r scope with
   | Some u => ContainerResources.Containers u =? 1
   | None => false
   end).

Definition Valid (r : t) : bool := ScopeValid r ResourceScopeTotal.

Definition ScopeFresh (r : t) (now : Time) (scope : string) : bool :=
  ScopeValid r scope && (-5 * Duration.Second <=? SubTime now (SampledAt r)) &&
  (SubTime now (SampledAt r) <=? AgentResourceMaxAge).

Definition Fresh (r : t) (now : Time) : bool := ScopeFresh r now ResourceScopeTotal.

(** [r.ScopeCPUPercent(scope)]: [None] for [(0, false)].  A valid scope has its
    CPU value. *)
Definition ScopeCPUPercent (r : t) (scope : string) : option float :=
  if negb (ScopeValid r scope) || (CPUCapacityCores r <=? 0) then None
  else
    u ← Usage r scope; cores ← ContainerResources.CPUCores u;
    let percent := F64.mul (F64.div cores (F64.of_Z (CPUCapacityCores r))) (F64.of_Z 100) in
    if F64.isNaN percent || F64.isInf percent then None else Some percent.

Definition CPUPercent (r : t) : option float := ScopeCPUPercent r ResourceScopeTotal.
End AgentResources.

Module Agent.
Record t := mk {
  Host : option AgentHost.t; CreateReplay : bool; Disabled : bool;
  Resources : option AgentResources.t; StartupReconciled : bool; PeerImage : string;
  RunDrain : bool; ID : string; Name : string; URL : string; MetricsURL : string;
  Hostname : string; Version : string; Capacity : Z; DefaultCapacity : Z;
  CapacityOverride : Z; CapacityPending : bool; CapacityRevision : string;
  ActiveNodes : Z; State : string; Labels : gmap string string;
  StartedAt : Time; LastSeen : Time }.

Definition zero : t :=
  mk None false false None false "" false "" "" "" "" "" "" 0 0 0 false "" 0 "" ∅ 0 0.

(** Assignments to single fields. *)
Definition setActiveNodes (z : Z) (a : t) : t :=
  mk (Host a) (CreateReplay a) (Disabled a) (Resources a) (StartupReconciled a) (PeerImage a)
    (RunDrain a) (ID a) (Name a) (URL a) (MetricsURL a) (Hostname a) (Version a) (Capacity a)
    (DefaultCapacity a) (CapacityOverride a) (CapacityPending a) (CapacityRevision a)
    z (State a) (Labels a) (StartedAt a) (LastSeen a).
Definition setDisabled (d : bool) (a : t) : t :=
  mk (Host a) (CreateReplay a) d (Resources a) (StartupReconciled a) (PeerImage a)
    (RunDrain a) (ID a) (Name a) (URL a) (MetricsURL a) (Hostname a) (Version a) (Capacity a)
    (DefaultCapacity a) (CapacityOverride a) (CapacityPending a) (CapacityRevision a)
    (ActiveNodes a) (State a) (Labels a) (StartedAt a) (LastSeen a).
Definition setState (st : string) (a : t) : t :=
  mk (Host a) (CreateReplay a) (Disabled a) (Resources a) (StartupReconciled a) (PeerImage a)
    (RunDrain a) (ID a) (Name a) (URL a) (MetricsURL a) (Hostname a) (Version a) (Capacity a)
    (DefaultCapacity a) (CapacityOverride a) (CapacityPending a) (CapacityRevision a)
    (ActiveNodes a) st (Labels a) (StartedAt a) (LastSeen a).
Definition setCapacity (disabled : bool) (override capacity : Z) (pending : bool) (a : t) : t :=
  mk (Host a) (CreateReplay a) disabled (Resources a) (StartupReconciled a) (PeerImage a)
    (RunDrain a) (ID a) (Name a) (URL a) (MetricsURL a) (Hostname a) (Version a) capacity
    (DefaultCapacity a) override pending (CapacityRevision a)
    (ActiveNodes a) (State a) (Labels a) (StartedAt a) (LastSeen a).
Definition setReport (startedAt : Time) (metricsURL : string) (active : Z)
    (resources : option AgentResources.t) (now : Time) (a : t) : t :=
  mk (Host a) (CreateReplay a) (Disabled a) resources (StartupReconciled a) (PeerImage a)
    (RunDrain a) (ID a) (Name a) (URL a) metricsURL (Hostname a) (Version a) (Capacity a)
    (DefaultCapacity a) (CapacityOverride a) (CapacityPending a) (CapacityRevision a)
    active AgentOnline (Labels a) startedAt now.
End Agent.

Module Node.
Record t := mk {
  ScoreSample : option PeerScoreSample.t; ID : string; RunID : string; Generation : Z;
  AgentID : string; Group : string; Role : string; Type_ : string; Profile : string;
  PeerID : string; State : string; Addresses : list string; ConnectedPeers : list string;
  RoutingPeers : list string; MeshPeers : gmap string (list string);
  OverlayObservedAt : Time; TopicPeers : gmap string Z; PeerScores : gmap string float;
  Metadata : option (gmap string string); StartedAt : Time; LastSeen : Time;
  Error : string }.

(** Assignments to the fields the inventory changes. *)
Definition setLifecycle (state : string) (lastSeen : Time) (error : string) (n : t) : t :=
  mk (ScoreSample n) (ID n) (RunID n) (Generation n) (AgentID n) (Group n) (Role n) (Type_ n)
    (Profile n) (PeerID n) state (Addresses n) (ConnectedPeers n) (RoutingPeers n) (MeshPeers n)
    (OverlayObservedAt n) (TopicPeers n) (PeerScores n) (Metadata n) (StartedAt n) lastSeen error.
Definition setOwner (agentID : string) (startedAt lastSeen : Time) (n : t) : t :=
  mk (ScoreSample n) (ID n) (RunID n) (Generation n) agentID (Group n) (Role n) (Type_ n)
    (Profile n) (PeerID n) (State n) (Addresses n) (ConnectedPeers n) (RoutingPeers n)
    (MeshPeers n) (OverlayObservedAt n) (TopicPeers n) (PeerScores n) (Metadata n) startedAt
    lastSeen (Error n).

(** [node.Metadata["cleanupComplete"] == "true"] *)
Definition cleanupComplete (n : t) : bool :=
  bool_decide (Metadata n ≫= (!!) "cleanupComplete"%string = Some "true"%string).
End Node.

Module AgentHeartbeat.
Record t := mk { agent : Agent.t; nodes : list Node.t; Partial : bool }.
End AgentHeartbeat.
