(* ===== verification/Inventory.v ===== *)
(** * The Controller's inventory and placement

    The part of [state] in [internal/controller/state.go] that records Agents and
    Peers, with its operations: registration, heartbeats and expiry ([state.go]),
    placement and reservations ([runner.go]), uncertain creations
    ([create_retry.go]), capacity and availability settings ([agent_capacity.go],
    [agent_availability.go], [host_availability.go]).  Each operation runs under
    [mu] and is one function of the state.  The clock, the outcome of writing a
    settings file, the random texts and the draws are arguments; waking watchers
    and the metrics of initialised Peers are not modelled.

    Go ranges over a map in any order.  Where the body touches its own key only,
    the model folds over [map_to_list]; the choice of an Agent takes the order as
    an argument. *)
From Stdlib Require Import ZArith Lia SpecFloat.
From stdpp Require Import strings list gmap sorting pretty.
From S2P Require Import Prelude.
From S2P Require Import GoStd.
From S2P Require Import GoStrings.
From S2P Require Import Trace.
From S2P Require Import Attacks.
From S2P Require Import PeerScore.
From S2P Require Import GossipSubConfig.
From S2P Require Import KademliaConfig.
From S2P Require Import NodeConfig.
From S2P Require Import AgentModel.
Open Scope Z_scope.

Definition agentStaleAfter : Z := 10 * Duration.Second.

Record uncertainCreate := mkUncertain { runID : string; generation : Z; agentID : string }.

Record state := mkState {
  agentCapacityOverrides : gmap string Z;
  agentCapacityRevisions : gmap string string;
  agentReportedCapacities : gmap string Z;
  agentSettingsErr : option string;
  agentDisabled : gmap string bool;
  hostDisabled : gmap string bool;
  agentAvailabilityErr : option string;
  agents : gmap string Agent.t;
  nodes : gmap string Node.t;
  activeNodeIDs : option (gset string);
  reservations : gmap string string;
  uncertainCreates : gmap string uncertainCreate;
  agentAdmissionUntil : gmap string Time;
  agentSnapshots : gmap string Time;
  nodeReportTimes : gmap string Time }.

(** [newState], for the settings [loadAgentCapacities], [loadDisabledAgents] and
    [loadDisabledHosts] found. *)
Definition newState (capacities : gmap string Z) (settingsErr : option string)
    (disabled hosts : gmap string bool) (availabilityErr : option string) : state :=
  mkState capacities ∅ ∅ settingsErr disabled hosts availabilityErr ∅ ∅ None ∅ ∅ ∅ ∅ ∅.

(** *** Assignments to fields *)
Definition withSettings (overrides : gmap string Z) (revisions : gmap string string)
    (reported : gmap string Z) (s : state) : state :=
  mkState overrides revisions reported (agentSettingsErr s) (agentDisabled s) (hostDisabled s)
    (agentAvailabilityErr s) (agents s) (nodes s) (activeNodeIDs s) (reservations s)
    (uncertainCreates s) (agentAdmissionUntil s) (agentSnapshots s) (nodeReportTimes s).
Definition withDisabled (disabled hosts : gmap string bool) (s : state) : state :=
  mkState (agentCapacityOverrides s) (agentCapacityRevisions s) (agentReportedCapacities s)
    (agentSettingsErr s) disabled hosts (agentAvailabilityErr s) (agents s) (nodes s)
    (activeNodeIDs s) (reservations s) (uncertainCreates s) (agentAdmissionUntil s)
    (agentSnapshots s) (nodeReportTimes s).
Definition withAgents (m : gmap string Agent.t) (s : state) : state :=
  mkState (agentCapacityOverrides s) (agentCapacityRevisions s) (agentReportedCapacities s)
    (agentSettingsErr s) (agentDisabled s) (hostDisabled s) (agentAvailabilityErr s) m (nodes s)
    (activeNodeIDs s) (reservations s) (uncertainCreates s) (agentAdmissionUntil s)
    (agentSnapshots s) (nodeReportTimes s).
Definition withNodes (m : gmap string Node.t) (ids : option (gset string)) (s : state) : state :=
  mkState (agentCapacityOverrides s) (agentCapacityRevisions s) (agentReportedCapacities s)
    (agentSettingsErr s) (agentDisabled s) (hostDisabled s) (agentAvailabilityErr s) (agents s)
    m ids (reservations s) (uncertainCreates s) (agentAdmissionUntil s)
    (agentSnapshots s) (nodeReportTimes s).
Definition withReservations (m : gmap string string) (u : gmap string uncertainCreate)
    (s : state) : state :=
  mkState (agentCapacityOverrides s) (agentCapacityRevisions s) (agentReportedCapacities s)
    (agentSettingsErr s) (agentDisabled s) (hostDisabled s) (agentAvailabilityErr s) (agents s)
    (nodes s) (activeNodeIDs s) m u (agentAdmissionUntil s)
    (agentSnapshots s) (nodeReportTimes s).
Definition withTimes (admission snapshots reports : gmap string Time) (s : state) : state :=
  mkState (agentCapacityOverrides s) (agentCapacityRevisions s) (agentReportedCapacities s)
    (agentSettingsErr s) (agentDisabled s) (hostDisabled s) (agentAvailabilityErr s) (agents s)
    (nodes s) (activeNodeIDs s) (reservations s) (uncertainCreates s) admission snapshots reports.

Definition setAgent (id : string) (a : Agent.t) (s : state) : state :=
  withAgents (<[id := a]> (agents s)) s.
Definition setSnapshot (id : string) (t : Time) (s : state) : state :=
  withTimes (agentAdmissionUntil s) (<[id := t]> (agentSnapshots s)) (nodeReportTimes s) s.
Definition setReportTime (id : string) (t : Time) (s : state) : state :=
  withTimes (agentAdmissionUntil s) (agentSnapshots s) (<[id := t]> (nodeReportTimes s)) s.

(** Reading a map at a missing key gives the zero value. *)
Definition agentAt (s : state) (id : string) : Agent.t := default Agent.zero (agents s !! id).
Definition timeAt (m : gmap string Time) (id : string) : Time := default 0 (m !! id).
Definition textAt (m : gmap string string) (id : string) : string := default ""%string (m !! id).
Definition flagAt (m : gmap string bool) (id : string) : bool := default false (m !! id).
Definition intAt (m : gmap string Z) (id : string) : Z := default 0 (m !! id).

(** ** The index of live Peers *)
Definition nodeHasLiveState (n : Node.t) : bool :=
  negb (bool_decide (Node.State n = NodeStopped)) && negb (bool_decide (Node.State n = NodeFailed)).

Definition liveIDs (m : gmap string Node.t) : gset string :=
  dom (filter (λ kn, nodeHasLiveState kn.2 = true) m).

Definition setNodeLocked (n : Node.t) (s : state) : state :=
  let ids := default (liveIDs (nodes s)) (activeNodeIDs s) in
  withNodes (<[Node.ID n := n]> (nodes s))
    (Some (if nodeHasLiveState n then {[Node.ID n]} ∪ ids else ids ∖ {[Node.ID n]})) s.

Definition activeNodesLocked (s : state) : list Node.t :=
  match activeNodeIDs s with
  | None => filter (λ n, nodeHasLiveState n = true) (snd <$> map_to_list (nodes s))
  | Some ids =>
      filter (λ n, nodeHasLiveState n = true) (omap (λ id, nodes s !! id) (elements ids))
  end.

(** ** Samples *)
Definition topologyReportTime (received agentReported peerSeen : Time) : Time :=
  if IsZero agentReported || IsZero peerSeen then received
  else received - Z.max 0 (SubTime agentReported peerSeen).

Definition normalizeScope (valid : bool) (u : option ContainerResources.t) :
    option ContainerResources.t :=
  if valid then u else ContainerResources.withoutValues <$> u.

Definition normalizeAgentResources (value : option AgentResources.t)
    (reportedAt receivedAt : Time) : option AgentResources.t :=
  let mk := AgentResources.mk in
  v ← value;
  let bad := IsZero (AgentResources.SampledAt v) || IsZero reportedAt ||
             (reportedAt + 5 * Duration.Second <? AgentResources.SampledAt v) in
  let complete := negb bad && AgentResources.Complete v in
  let sampled := if bad then 0
                 else topologyReportTime receivedAt reportedAt (AgentResources.SampledAt v) in
  let with_ agent peers cpu usage working complete error :=
    mk agent peers sampled (AgentResources.CPUCapacityCores v) cpu usage working
      (AgentResources.Containers v) (AgentResources.MeasuredContainers v) complete error in
  let A := AgentResources.Agent v in
  let P := AgentResources.Peers v in
  let error := AgentResources.Error v in
  let copy := with_ A P (AgentResources.CPUCores v) (AgentResources.MemoryUsageBytes v)
                (AgentResources.MemoryWorkingSetBytes v) complete error in
  let ok := AgentResources.Valid copy in
  Some (with_
    (normalizeScope (AgentResources.ScopeValid copy ResourceScopeAgent) A)
    (normalizeScope (AgentResources.ScopeValid copy ResourceScopePeers) P)
    (if ok then AgentResources.CPUCores v else None)
    (if ok then AgentResources.MemoryUsageBytes v else None)
    (if ok then AgentResources.MemoryWorkingSetBytes v else None)
    (ok && complete) (String.substring 0 256 error)).

(** ** Capacity *)
Definition agentHostNodeID (a : Agent.t) : string :=
  match Agent.Host a with
  | Some h => if empty (AgentHost.NodeID h) then textAt (Agent.Labels a) "swarmNodeId"
              else AgentHost.NodeID h
  | None => textAt (Agent.Labels a) "swarmNodeId"
  end.

(** The capacity settings want: the override, or the Agent's default. *)
Definition desiredCapacity (s : state) (a : Agent.t) : Z :=
  let override := intAt (agentCapacityOverrides s) (Agent.ID a) in
  if 0 <? override then override else Agent.DefaultCapacity a.

Definition isDisabled (s : state) (a : Agent.t) : bool :=
  flagAt (agentDisabled s) (Agent.ID a) || flagAt (hostDisabled s) (agentHostNodeID a) ||
  negb (isNil (agentAvailabilityErr s)).

Definition applyAgentCapacityLocked (a : Agent.t) (s : state) : Agent.t :=
  let reported := intAt (agentReportedCapacities s) (Agent.ID a) in
  let override := intAt (agentCapacityOverrides s) (Agent.ID a) in
  let desired := desiredCapacity s a in
  let '(capacity, pending) :=
    if 0 <? desired then
      let pending := negb (reported =? desired) ||
        negb (bool_decide (Agent.CapacityRevision a =
                           textAt (agentCapacityRevisions s) (Agent.ID a))) in
      let capacity := if (reported <=? 0) || (desired <? reported) then desired else reported in
      let previous := Agent.Capacity (agentAt s (Agent.ID a)) in
      (if pending && (0 <? previous) then Z.min capacity previous else capacity, pending)
    else (reported, false) in
  Agent.setCapacity (isDisabled s a) override capacity pending a.

(** [text] is the value of [rand.Text()]. *)
Definition observeAgentCapacityLocked (text : string) (a : Agent.t) (s : state) :
    Agent.t * state :=
  let id := Agent.ID a in
  let revisions :=
    if (0 <? Agent.DefaultCapacity a) && empty (textAt (agentCapacityRevisions s) id)
    then <[id := text]> (agentCapacityRevisions s) else agentCapacityRevisions s in
  let s := withSettings (agentCapacityOverrides s) revisions
             (<[id := Agent.Capacity a]> (agentReportedCapacities s)) s in
  (applyAgentCapacityLocked a s, s).

(** ** Registration *)
Definition firstNonEmpty (value fallback : string) : string :=
  if empty value then fallback else value.

(** [for _, agentID := range s.reservations { if agentID == id { active++ } }] *)
Definition countReservations (s : state) (id : string) (active : Z) : Z :=
  foldl (λ z kv, if bool_decide (kv.2 = id) then i64 (z + 1) else z) active
    (map_to_list (reservations s)).

(** The loop over [s.reservations] of a restarted Agent. *)
Definition dropReservations (id : string) (s : state) : state :=
  foldl (λ s kv, if bool_decide (kv.2 = id)
                 then withReservations (delete kv.1 (reservations s))
                        (delete kv.1 (uncertainCreates s)) s
                 else s) s (map_to_list (reservations s)).

Definition failedByRestart (now : Time) (n : Node.t) : Node.t :=
  Node.setLifecycle NodeFailed now "Agent instance restarted" n.

(** The loop over [s.nodes] of a restarted Agent. *)
Definition failNodes (now : Time) (id : string) (s : state) : state :=
  foldl (λ s kn,
    if bool_decide (Node.AgentID kn.2 = id) && nodeHasLiveState kn.2
    then setNodeLocked (failedByRestart now kn.2) s else s) s (map_to_list (nodes s)).

Definition agentIsOnline (a : Agent.t) (now : Time) : bool :=
  bool_decide (Agent.State a = AgentOnline) &&
  (IsZero (Agent.LastSeen a) || (SubTime now (Agent.LastSeen a) <=? agentStaleAfter)).

(** The start time a registration keeps, and whether it is a new instance. *)
Definition registeredStart (previous : option Agent.t) (a : Agent.t) : Time :=
  match previous with
  | Some p => if IsZero (Agent.StartedAt a) then Agent.StartedAt p else Agent.StartedAt a
  | None => Agent.StartedAt a
  end.
Definition restarted (previous : option Agent.t) (a : Agent.t) : bool :=
  match previous with
  | Some p => negb (registeredStart previous a =? Agent.StartedAt p)
  | None => false
  end.

Definition forgetInstance (now : Time) (id : string) (s : state) : state :=
  let s := withTimes (delete id (agentAdmissionUntil s)) (agentSnapshots s) (nodeReportTimes s) s in
  let s := failNodes now id (dropReservations id s) in
  withTimes (agentAdmissionUntil s) (delete id (agentSnapshots s)) (nodeReportTimes s) s.

(** [registerAgent], [now] being its [time.Now()]. *)
Definition registerAgent (now : Time) (text : string) (a : Agent.t) : GoM state Agent.t := λ s,
  match agentSettingsErr s with
  | Some e => (Err e, s)
  | None =>
      if empty (TrimSpace (Agent.ID a)) || empty (TrimSpace (Agent.URL a)) then
        (Err "agent id and url are required", s)
      else
        let id := Agent.ID a in
        let reportedAt := Agent.LastSeen a in
        let previous := agents s !! id in
        let startedAt := registeredStart previous a in
        let restarted := restarted previous a in
        if restarted && match previous with
                        | Some p => (startedAt <? Agent.StartedAt p) || agentIsOnline p now
                        | None => false
                        end
        then (Err "agent is already registered by another live or newer instance", s)
        else
          let s := if restarted then forgetInstance now id s else s in
          let '(metricsURL, active) :=
            match previous with
            | Some p =>
                if restarted then (Agent.MetricsURL a, Agent.ActiveNodes a)
                else (firstNonEmpty (Agent.MetricsURL a) (Agent.MetricsURL p),
                      Z.max (Agent.ActiveNodes a) (Agent.ActiveNodes p))
            | None => (Agent.MetricsURL a, countReservations s id (Agent.ActiveNodes a))
            end in
          let startedAt := if IsZero startedAt then now else startedAt in
          let s := if negb (IsZero reportedAt) && (timeAt (agentSnapshots s) id <? reportedAt)
                   then setSnapshot id reportedAt s else s in
          let resources := normalizeAgentResources (Agent.Resources a) reportedAt now in
          let resources :=
            match previous, resources with
            | Some p, Some r =>
                match Agent.Resources p with
                | Some pr =>
                    if negb restarted && (reportedAt <=? timeAt (agentSnapshots s) id) &&
                       (AgentResources.SampledAt r <? AgentResources.SampledAt pr)
                    then Some pr else Some r
                | None => Some r
                end
            | _, _ => resources
            end in
          let a := Agent.setReport startedAt metricsURL (Z.max 0 active) resources now a in
          let '(a, s) := observeAgentCapacityLocked text a s in
          (Ok a, setAgent id a s)
  end.

(** ** Heartbeats *)

(** The validation of the reported Peers; the result is [seen]. *)
Fixpoint checkNodes (s : state) (id : string) (seen : gset string) (l : list Node.t) :
    res (gset string) :=
  match l with
  | [] => Ok seen
  | n :: l =>
      let owner := match nodes s !! Node.ID n with Some o => Node.AgentID o | None => ""%string end in
      let reservation := textAt (reservations s) (Node.ID n) in
      if empty (Node.ID n) || bool_decide (Node.ID n ∈ seen) ||
         (negb (empty owner) && negb (bool_decide (owner = id))) ||
         (negb (empty reservation) && negb (bool_decide (reservation = id)))
      then Err "agent heartbeat contains an empty, duplicate, or foreign node"
      else checkNodes s id ({[Node.ID n]} ∪ seen) l
  end.

Definition isTerminalReport (n : Node.t) : bool :=
  bool_decide (Node.State n = NodeStopped) ||
  (bool_decide (Node.State n = NodeFailed) && Node.cleanupComplete n).

(** Which of the old record and the reported one stands. *)
Definition mergeNode (old n : Node.t) : Node.t :=
  let inState st x := bool_decide (Node.State x = st) in
  if inState NodeStopped old && negb (inState NodeStopped n) &&
     negb (negb (Node.cleanupComplete old) && inState NodeFailed n && Node.cleanupComplete n) then old
  else if inState NodeFailed old && Node.cleanupComplete old then old
  else if inState NodeFailed old && negb (inState NodeFailed n) && negb (inState NodeStopping n) &&
          negb (inState NodeStopped n) then old
  else if inState NodeStopping old && negb (inState NodeStopping n) && negb (inState NodeStopped n) &&
          negb (inState NodeFailed n) then old
  else n.

(** [State] is none of [Stopping], [Stopped] and [Failed]. *)
Definition isActive (n : Node.t) : bool :=
  negb (bool_decide (Node.State n = NodeStopping)) &&
  negb (bool_decide (Node.State n = NodeStopped)) &&
  negb (bool_decide (Node.State n = NodeFailed)).

(** The record of a reported Peer before the merge. *)
Definition receivedNode (now : Time) (id : string) (old : option Node.t) (n : Node.t) : Node.t :=
  let lastSeen := if IsZero (Node.LastSeen n) then now else Node.LastSeen n in
  let startedAt :=
    if IsZero (Node.StartedAt n) then
      match old with Some o => Node.StartedAt o | None => now end
    else Node.StartedAt n in
  Node.setOwner id startedAt lastSeen n.

Definition mergedNode (now : Time) (id : string) (s : state) (n : Node.t) : Node.t :=
  let old := nodes s !! Node.ID n in
  let n := receivedNode now id old n in
  match old with Some o => mergeNode o n | None => n end.

(** The locals of the loop over [h.Nodes]. *)
Record tally := mkTally { observedActive : Z; releasedReservations : Z; metricNodes : list Node.t }.

Definition reportNode (now reportedAt : Time) (id : string) (acc : state * tally) (n : Node.t) :
    state * tally :=
  let '(s, t) := acc in
  let s := setReportTime (Node.ID n) (topologyReportTime now reportedAt (Node.LastSeen n)) s in
  let n := mergedNode now id s n in
  let s := setNodeLocked n s in
  let held := bool_decide (textAt (reservations s) (Node.ID n) = id) in
  let s := if held then withReservations (delete (Node.ID n) (reservations s))
                          (delete (Node.ID n) (uncertainCreates s)) s else s in
  (s, mkTally (if isActive n then i64 (observedActive t + 1) else observedActive t)
        (if held then i64 (releasedReservations t + 1) else releasedReservations t)
        (metricNodes t ++ [n])).

(** A partial report recounts the Peers of the Agent. *)
Definition recountActive (id : string) (s : state) : Z :=
  foldl (λ z n, if bool_decide (Node.AgentID n = id) &&
                   negb (bool_decide (textAt (reservations s) (Node.ID n) = id)) && isActive n
                then i64 (z + 1) else z) 0 (activeNodesLocked s).

(** A complete report stops the Peers it leaves out. *)
Definition stopUnseen (now : Time) (id : string) (seen : gset string) (s : state) : state :=
  foldl (λ s kn,
    let '(k, n) := kn in
    if negb (bool_decide (Node.AgentID n = id)) then s
    else if negb (bool_decide (k ∈ seen)) && negb (bool_decide (Node.State n = NodeStopped)) &&
            negb (bool_decide (Node.State n = NodeFailed) && Node.cleanupComplete n)
    then if bool_decide (textAt (reservations s) k = id) then s
         else setNodeLocked (Node.setLifecycle NodeStopped now (Node.Error n) n) s
    else s) s (map_to_list (nodes s)).

(** The fields of [h.Agent] after completion from the previous record. *)
Definition completeReport (s : state) (previous a : Agent.t) (reportedAt now : Time) : Agent.t :=
  let reported := intAt (agentReportedCapacities s) (Agent.ID a) in
  Agent.mk
    (match Agent.Host a with Some h => Some h | None => Agent.Host previous end)
    (Agent.CreateReplay a || Agent.CreateReplay previous) (Agent.Disabled a)
    (normalizeAgentResources (Agent.Resources a) reportedAt now)
    (Agent.StartupReconciled a || Agent.StartupReconciled previous)
    (firstNonEmpty (Agent.PeerImage a) (Agent.PeerImage previous))
    (Agent.RunDrain a || Agent.RunDrain previous) (Agent.ID a)
    (firstNonEmpty (Agent.Name a) (Agent.Name previous))
    (firstNonEmpty (Agent.URL a) (Agent.URL previous))
    (firstNonEmpty (Agent.MetricsURL a) (Agent.MetricsURL previous))
    (firstNonEmpty (Agent.Hostname a) (Agent.Hostname previous))
    (firstNonEmpty (Agent.Version a) (Agent.Version previous))
    (if Agent.Capacity a =? 0 then reported else Agent.Capacity a)
    (Agent.DefaultCapacity a) (Agent.CapacityOverride a) (Agent.CapacityPending a)
    (Agent.CapacityRevision a) (Agent.ActiveNodes a) AgentOnline (Agent.Labels a)
    (if IsZero (Agent.StartedAt a) then Agent.StartedAt previous else Agent.StartedAt a) now.

(** [heartbeat], returning the Peers whose metrics are initialised after it. *)
Definition heartbeat (now : Time) (text : string) (h : AgentHeartbeat.t) :
    GoM state (list Node.t) := λ s,
  let a := AgentHeartbeat.agent h in
  let id := Agent.ID a in
  let partial := AgentHeartbeat.Partial h in
  if empty id then (Err "agent id is required", s)
  else match agents s !! id with
  | None => (Err "agent is not registered", s)
  | Some previous =>
      if negb (IsZero (Agent.StartedAt a)) && negb (Agent.StartedAt a =? Agent.StartedAt previous)
      then (Err "agent heartbeat does not match its registered instance", s)
      else
        let reportedAt := Agent.LastSeen a in
        let last := timeAt (agentSnapshots s) id in
        let dated := negb (IsZero reportedAt) && negb (IsZero last) in
        let stale := dated && (reportedAt <? last) in
        if negb partial && dated && (reportedAt <=? last) then (Ok [], s)
        else match checkNodes s id ∅ (AgentHeartbeat.nodes h) with
        | Err e => (Err e, s)
        | Panic => (Panic, s)
        | Ok seen =>
            let reported := if stale then filter (λ n, isTerminalReport n = true) (AgentHeartbeat.nodes h)
                            else AgentHeartbeat.nodes h in
            let s := if negb stale && negb (IsZero reportedAt) then setSnapshot id reportedAt s else s in
            let a := completeReport s previous a reportedAt now in
            let '(s, t) := foldl (reportNode now reportedAt id) (s, mkTally 0 0 []) reported in
            let observed := if partial then recountActive id s else observedActive t in
            let active := countReservations s id
                            (Z.max (Z.max 0 (Agent.ActiveNodes a)) observed) in
            let a := Agent.setActiveNodes active a in
            let s := if partial then s else stopUnseen now id seen s in
            let '(a, s) :=
              if stale then
                (Agent.setActiveNodes
                   (Z.max 0 (i64 (Agent.ActiveNodes previous - releasedReservations t))) previous, s)
              else observeAgentCapacityLocked text a s in
            (Ok (metricNodes t), setAgent id a s)
        end
  end.

(** ** Expiry *)
Definition markStaleAgents (now : Time) (maxAge : Z) (s : state) : state :=
  withAgents ((λ a, if (maxAge <? SubTime now (Agent.LastSeen a)) &&
                       negb (bool_decide (Agent.State a = AgentOffline))
                    then Agent.setState AgentOffline a else a) <$> agents s) s.

(** ** Placement *)
Definition utilization (a : Agent.t) (additional : Z) : float :=
  let occupied := F64.add (F64.of_Z (Agent.ActiveNodes a)) (F64.of_Z additional) in
  if Agent.Capacity a <=? 0 then occupied else F64.div occupied (F64.of_Z (Agent.Capacity a)).

Definition balancedAgentBefore (a b : Agent.t) : bool :=
  if negb (F64.eqb (utilization a 1) (utilization b 1)) then
    F64.ltb (utilization a 1) (utilization b 1)
  else if negb (F64.eqb (utilization a 0) (utilization b 0)) then
    F64.ltb (utilization a 0) (utilization b 0)
  else String.ltb (Agent.ID a) (Agent.ID b).

(** The tests an Agent passes to receive a Peer. *)
Definition admissible (s : state) (now : Time) (a : Agent.t) : bool :=
  negb (Agent.Disabled a || (now <? timeAt (agentAdmissionUntil s) (Agent.ID a)) ||
        negb (agentIsOnline a now) ||
        ((0 <? Agent.Capacity a) && (Agent.Capacity a <=? Agent.ActiveNodes a))).

(** [sort.Slice] by ID; a node or Agent ID occurs once. *)
Definition agentLe (a b : Agent.t) : Prop := Is_true (String.leb (Agent.ID a) (Agent.ID b)).
#[export] Instance agentLe_dec : RelDecision agentLe.
Proof. intros a b. unfold agentLe. apply _. Defined.
Definition nodeLe (a b : Node.t) : Prop := Is_true (String.leb (Node.ID a) (Node.ID b)).
#[export] Instance nodeLe_dec : RelDecision nodeLe.
Proof. intros a b. unfold nodeLe. apply _. Defined.
Definition stringLe (a b : string) : Prop := Is_true (String.leb a b).
#[export] Instance stringLe_dec : RelDecision stringLe.
Proof. intros a b. unfold stringLe. apply _. Defined.

(** One round of the loop that keeps the best Agent. *)
Definition keepBest (best : option Agent.t) (a : Agent.t) : option Agent.t :=
  match best with
  | Some b => if balancedAgentBefore a b then Some a else Some b
  | None => Some a
  end.

(** The Agents [range s.agents] visits that pass the tests, for [order] a
    permutation of the keys. *)
Definition candidates (order : list string) (target : string) (now : Time) (s : state) :
    list Agent.t :=
  filter (λ a, (empty target || bool_decide (Agent.ID a = target)) && admissible s now a = true)
    (omap (λ id, agents s !! id) order).

(** [draw] is [rng.Intn] of the scenario's generator, [None] a nil [rng]. *)
Definition selectAgent (order : list string) (target : string) (draw : option (nat → nat))
    (now : Time) (s : state) : res (option Agent.t) :=
  let l := candidates order target now s in
  match l with
  | [] => Ok None
  | _ =>
      match draw with
      | None => Ok (foldl keepBest None l)
      | Some draw => match merge_sort agentLe l !! draw (length l) with
                     | Some a => Ok (Some a)
                     | None => Panic
                     end
      end
  end.

(** A reservation that no longer holds a usable place is given back. *)
Definition abandonReservation (nodeID agentID : string) (s : state) : state :=
  let s := withReservations (delete nodeID (reservations s)) (uncertainCreates s) s in
  match agents s !! agentID with
  | Some a => setAgent agentID (Agent.setActiveNodes (Z.max 0 (i64 (Agent.ActiveNodes a - 1))) a) s
  | None => s
  end.

Definition reserve (nodeID : string) (a : Agent.t) (s : state) : Agent.t * state :=
  let a := Agent.setActiveNodes (i64 (Agent.ActiveNodes a + 1)) a in
  let s := setAgent (Agent.ID a) a s in
  (a, withReservations (<[nodeID := Agent.ID a]> (reservations s)) (uncertainCreates s) s).

(** [tryReserveAgentWithPlacement]; [t1], [t2] and [now] are its three readings
    of the clock. *)
Definition tryReserve (t1 t2 now : Time) (order : list string) (nodeID target : string)
    (draw : option (nat → nat)) : GoM state (Agent.t * bool) := λ s,
  let place (s : state) : res (Agent.t * bool) * state :=
    match selectAgent order target draw now s with
    | Ok (Some a) => let '(a, s) := reserve nodeID a s in (Ok (a, true), s)
    | Ok None => (Ok (Agent.zero, false), s)
    | Err e => (Err e, s)
    | Panic => (Panic, s)
    end in
  match reservations s !! nodeID with
  | Some agentID =>
      match agents s !! agentID with
      | Some a =>
          if negb (Agent.Disabled a) && negb (t1 <? timeAt (agentAdmissionUntil s) (Agent.ID a))
          then (Ok (a, agentIsOnline a t2 && (empty target || bool_decide (agentID = target))), s)
          else place (abandonReservation nodeID agentID s)
      | None => place (abandonReservation nodeID agentID s)
      end
  | None => place s
  end.

(** One round of [selectBatchAgent]: [None] when it waits. *)
Definition batchCandidates (now : Time) (s : state) : list string :=
  Agent.ID <$> filter (λ a, admissible s now a = true) (snd <$> map_to_list (agents s)).
Definition selectBatchAgent (now : Time) (draw : nat → nat) (s : state) : res (option string) :=
  match batchCandidates now s with
  | [] => Ok None
  | l => match merge_sort stringLe l !! draw (length l) with
         | Some id => Ok (Some id)
         | None => Panic
         end
  end.

Definition releaseReservation (nodeID : string) (s : state) : state :=
  let agentID := textAt (reservations s) nodeID in
  let s := withReservations (delete nodeID (reservations s)) (uncertainCreates s) s in
  match agents s !! agentID with
  | Some a => if 0 <? Agent.ActiveNodes a
              then setAgent agentID (Agent.setActiveNodes (i64 (Agent.ActiveNodes a - 1)) a) s else s
  | None => s
  end.

(** ** Created and removed Peers *)
Module CreateNodeRequest.
Record t := mk {
  AgentStartedAt : Time; PeerNetworkID : string; NetworkMutable : bool; ProfileRevision : Z;
  ExperimentStartedAt : Time; ID : string; RunID : string; Generation : Z; Group : string;
  Role : string; Type_ : string; Profile : string; Seed : Z; Config : NodeConfig.t;
  Lifetime : string }.
End CreateNodeRequest.

Definition FormatBool (b : bool) : string := if b then "true" else "false".

Section create.
(** [encodeTopics] is [json.Marshal] of the topics. *)
Context `{PeerCodec} (encodeTopics : list string → string).

(** The metadata of a record an Agent sent without any. *)
Definition createdMetadata (profile : string) (config : NodeConfig.t) : gmap string string :=
  let config := NodeConfig.WithDefaults config in
  let g := NodeConfig.GossipSub config in
  let k := NodeConfig.Kademlia config in
  let enabled := isTrue (GossipSubConfig.Enabled g) in
  let gossipsub := enabled && bool_decide (GossipSubConfig.Router g = "gossipsub"%string) in
  let topics := elems (GossipSubConfig.Topics g) in
  list_to_map
    [("profile", profile); ("pubsubRouter", GossipSubConfig.Router g);
     ("pubsubEnabled", FormatBool enabled);
     ("meshFreezeEnabled", FormatBool (gossipsub && isTrue (GossipSubConfig.MeshFreeze g)));
     ("scoreEnabled", FormatBool (gossipsub && NodeConfig.scoreEnabled g));
     ("allowPublish", FormatBool (NodeConfig.PublishAllowed config));
     ("topicMode", GossipSubConfig.TopicMode g); ("topics", String.concat "," topics);
     ("topicsJSON", encodeTopics topics);
     ("dhtEnabled", FormatBool (isTrue (KademliaConfig.Enabled k)));
     ("dhtMode", KademliaConfig.Mode k)]%string.

(** The acknowledged record, its missing fields filled from the request. *)
Definition filledNode (now : Time) (r : CreateNodeRequest.t) (id : string) (n : Node.t) : Node.t :=
  let profile := firstNonEmpty (Node.Profile n) (CreateNodeRequest.Profile r) in
  Node.mk (Node.ScoreSample n) (firstNonEmpty (Node.ID n) (CreateNodeRequest.ID r))
    (firstNonEmpty (Node.RunID n) (CreateNodeRequest.RunID r))
    (if Node.Generation n =? 0 then CreateNodeRequest.Generation r else Node.Generation n)
    (firstNonEmpty (Node.AgentID n) id)
    (firstNonEmpty (Node.Group n) (CreateNodeRequest.Group r))
    (firstNonEmpty (Node.Role n) (CreateNodeRequest.Role r))
    (firstNonEmpty (Node.Type_ n) (CreateNodeRequest.Type_ r)) profile (Node.PeerID n)
    (firstNonEmpty (Node.State n) NodeStarting) (Node.Addresses n) (Node.ConnectedPeers n)
    (Node.RoutingPeers n) (Node.MeshPeers n) (Node.OverlayObservedAt n) (Node.TopicPeers n)
    (Node.PeerScores n)
    (match Node.Metadata n with
     | Some m => Some m
     | None => Some (createdMetadata profile (CreateNodeRequest.Config r))
     end)
    (if IsZero (Node.StartedAt n) then now else Node.StartedAt n)
    (if IsZero (Node.LastSeen n) then now else Node.LastSeen n) (Node.Error n).

(** [recordCreatedNode]; the result is false when the Agent is another instance
    than [expected]. *)
Definition recordCreatedNode (now : Time) (r : CreateNodeRequest.t) (id : string) (n : Node.t)
    (expected : option Time) (s : state) : bool * state :=
  let hasObservationTime := negb (IsZero (Node.LastSeen n)) in
  let n := filledNode now r id n in
  if match expected with
     | Some t => match agents s !! id with
                 | Some a => negb (Agent.StartedAt a =? t)
                 | None => true
                 end
     | None => false
     end
  then (false, s)
  else
    (true,
     if match nodes s !! Node.ID n with
        | Some c => hasObservationTime && isActive c && (Node.LastSeen c <? Node.LastSeen n)
        | None => true
        end
     then setNodeLocked n s else s).
End create.

Definition markNodeStoppingAndReleaseCapacity (now : Time) (nodeID : string) (s : state) : state :=
  let s := match nodes s !! nodeID with
           | Some n => if isActive n
                       then setNodeLocked (Node.setLifecycle NodeStopping now (Node.Error n) n) s
                       else s
           | None => s
           end in
  withReservations (delete nodeID (reservations s)) (uncertainCreates s) s.

Definition retainUncertainCreate (r : CreateNodeRequest.t) (id : string) (s : state) : state :=
  if negb (bool_decide (textAt (reservations s) (CreateNodeRequest.ID r) = id)) then s
  else withReservations (reservations s)
         (<[CreateNodeRequest.ID r :=
             mkUncertain (CreateNodeRequest.RunID r) (CreateNodeRequest.Generation r) id]>
            (uncertainCreates s)) s.

(** The body of the loop of [releaseUncertainCreates]. *)
Definition releasePending (run : string) (generation_ : Z) (cleaned : gset string) (s : state)
    (kv : string * uncertainCreate) : state :=
  let '(id, pending) := kv in
  if negb (bool_decide (runID pending = run)) || (generation_ <? generation pending) ||
     negb (bool_decide (agentID pending ∈ cleaned))
  then s
  else
    let s :=
      if bool_decide (textAt (reservations s) id = agentID pending) then
        let a := agentAt s (agentID pending) in
        setAgent (agentID pending)
          (Agent.setActiveNodes (Z.max 0 (i64 (Agent.ActiveNodes a - 1))) a)
          (withReservations (delete id (reservations s)) (uncertainCreates s) s)
      else s in
    withReservations (reservations s) (delete id (uncertainCreates s)) s.
Definition releaseUncertainCreates (run : string) (generation_ : Z) (cleaned : gset string)
    (s : state) : state :=
  foldl (releasePending run generation_ cleaned) s (map_to_list (uncertainCreates s)).

(** [deferAgentAdmission], for the delay [after] the Agent asked for. *)
Definition deferAgentAdmission (now : Time) (a : Agent.t) (after : Z) (s : state) : state :=
  let id := Agent.ID a in
  match agents s !! id with
  | Some current =>
      if Agent.StartedAt current =? Agent.StartedAt a then
        if timeAt (agentAdmissionUntil s) id <? now + after
        then withTimes (<[id := now + after]> (agentAdmissionUntil s)) (agentSnapshots s)
               (nodeReportTimes s) s
        else s
      else s
  | None => s
  end.

(** ** Reading the inventory *)
Definition readyCount (now : Time) (run : string) (generation_ : Z) (group nodeType : string)
    (s : state) : Z * Z * Z :=
  foldl (λ acc n,
    let '(ready, total, failed) := acc in
    if negb (bool_decide (Node.RunID n = run)) || negb (Node.Generation n =? generation_) ||
       (negb (empty group) && negb (bool_decide (Node.Group n = group))) ||
       (negb (empty nodeType) && negb (bool_decide (Node.Type_ n = nodeType)))
    then acc
    else
      (if bool_decide (Node.State n = NodeReady) &&
          match agents s !! Node.AgentID n with Some a => agentIsOnline a now | None => false end
       then ready + 1 else ready, total + 1,
       if bool_decide (Node.State n = NodeFailed) then failed + 1 else failed))
    (0, 0, 0) (snd <$> map_to_list (nodes s)).

Definition matchingNodes (run group st nodeType : string) (s : state) : list Node.t :=
  merge_sort nodeLe
    (filter (λ n, bool_decide (Node.RunID n = run) &&
                  (empty group || bool_decide (Node.Group n = group)) &&
                  (empty nodeType || bool_decide (Node.Type_ n = nodeType)) &&
                  (empty st || bool_decide (Node.State n = st)) && isActive n = true)
       (activeNodesLocked s)).

Definition agentInventory (s : state) : list Agent.t :=
  merge_sort agentLe (snd <$> map_to_list (agents s)).

(** ** Settings of Agents and hosts

    The result is the record, the HTTP status and the error; [save] is the error
    of encoding and writing the settings file. *)
Definition settingsResult : Type := Agent.t * Z * option string.

Definition setAgentCapacity (save : option string) (text : string) (id : string)
    (capacity : option Z) (s : state) : settingsResult * state :=
  if notPositiveInt capacity then
    ((Agent.zero, 400, Some "capacity must be a positive integer or null to use the CLI default"%string), s)
  else match agentSettingsErr s with
  | Some e => ((Agent.zero, 503, Some e), s)
  | None =>
      match agents s !! id with
      | None => ((Agent.zero, 404, Some "Agent not found"%string), s)
      | Some a =>
          if Agent.DefaultCapacity a <=? 0 then
            ((Agent.zero, 409, Some "update this Agent to support capacity settings"%string), s)
          else
            let capacities :=
              match capacity with
              | None => delete id (agentCapacityOverrides s)
              | Some c => <[id := c]> (agentCapacityOverrides s)
              end in
            match save with
            | Some e => ((Agent.zero, 500, Some ("save Agent capacity: " +:+ e)), s)
            | None =>
                let s := withSettings capacities (<[id := text]> (agentCapacityRevisions s))
                           (agentReportedCapacities s) s in
                let a := applyAgentCapacityLocked a s in
                ((a, 200, None), setAgent id a s)
            end
      end
  end.

Definition setAgentEnabled (save : option string) (id : string) (enabled : bool) (s : state) :
    settingsResult * state :=
  match agentAvailabilityErr s with
  | Some e => ((Agent.zero, 503, Some e), s)
  | None =>
      match agents s !! id with
      | None => ((Agent.zero, 404, Some "Agent not found"%string), s)
      | Some a =>
          if Bool.eqb (flagAt (agentDisabled s) id) (negb enabled) then ((a, 200, None), s)
          else
            let disabled := if enabled then delete id (agentDisabled s)
                            else <[id := true]> (agentDisabled s) in
            match save with
            | Some e => ((Agent.zero, 500, Some ("save Agent availability: " +:+ e)), s)
            | None =>
                let s := withDisabled disabled (hostDisabled s) s in
                let a := Agent.setDisabled
                           (negb enabled || flagAt (hostDisabled s) (agentHostNodeID a)) a in
                ((a, 200, None), setAgent id a s)
            end
      end
  end.

(** [validResultID]: a byte of a rune beyond ASCII is not an allowed character. *)
Definition resultIDChar (c : Ascii.ascii) : bool :=
  let n := Ascii.nat_of_ascii c in
  ((97 <=? n) && (n <=? 122) || (65 <=? n) && (n <=? 90) || (48 <=? n) && (n <=? 57) ||
   (n =? 45) || (n =? 95))%nat.
Definition validResultID (id : string) : bool :=
  let l := String.list_ascii_of_string id in
  negb (length l =? 0)%nat && (length l <=? 128)%nat && forallb resultIDChar l.

(** [save] is the error of preparing or writing the settings file. *)
Definition setHostDisabled (save : option string) (nodeID : string)
    (disabled : bool) (s : state) : option string * state :=
  match agentAvailabilityErr s with
  | Some e => (Some e, s)
  | None =>
      if Bool.eqb (flagAt (hostDisabled s) nodeID) disabled then (None, s)
      else if negb (validResultID nodeID) then (Some "invalid host availability identity"%string, s)
      else match save with
      | Some e => (Some e, s)
      | None =>
          let values := if disabled then <[nodeID := true]> (hostDisabled s)
                        else delete nodeID (hostDisabled s) in
          let s := withDisabled (agentDisabled s) values s in
          (None, withAgents
             (map_imap (λ id a, Some (Agent.setDisabled
                 (flagAt (agentDisabled s) id || flagAt values (agentHostNodeID a)) a)) (agents s)) s)
      end
  end.
