(* ===== verification/InventoryInv.v ===== *)
(** * The invariant of the inventory

    What holds of the Controller's inventory in every state it reaches: records
    are stored under their IDs, the index is the set of live Peers, every
    reservation is counted by the Agent it occupies, and the settings recorded
    with an Agent are the Controller's.  The lemmas below say that the primitive
    changes of [Inventory] keep each part; [InventoryProps] runs the operations. *)
From Stdlib Require Import ZArith Lia SpecFloat.
From stdpp Require Import strings list gmap sorting.
From S2P Require Import Prelude.
From S2P Require Import GoStd.
From S2P Require Import GoStrings.
From S2P Require Import GossipSubConfig.
From S2P Require Import AgentModel.
From S2P Require Import Inventory.
Open Scope Z_scope.

(** ** Counting reservations *)
Definition reservedCount (m : gmap string string) (id : string) : nat :=
  length (filter (λ kv, kv.2 = id) (map_to_list m)).

Lemma reservedCount_empty id : reservedCount ∅ id = 0%nat.
Proof. unfold reservedCount. by rewrite map_to_list_empty. Qed.

Lemma reservedCount_delete m k v id :
  m !! k = Some v →
  reservedCount m id =
    ((if bool_decide (v = id) then 1 else 0) + reservedCount (delete k m) id)%nat.
Proof.
  intros Hk. unfold reservedCount. rewrite <- (map_to_list_delete m k v Hk).
  rewrite filter_cons. cbn. case_decide; by case_bool_decide.
Qed.

Lemma reservedCount_delete_le m k id : (reservedCount (delete k m) id ≤ reservedCount m id)%nat.
Proof.
  destruct (m !! k) as [v|] eqn:Hk; [|by rewrite delete_id].
  rewrite (reservedCount_delete m k v id Hk). lia.
Qed.

Lemma reservedCount_insert m k v id :
  m !! k = None →
  reservedCount (<[k := v]> m) id = ((if bool_decide (v = id) then 1 else 0) + reservedCount m id)%nat.
Proof.
  intros Hk. rewrite (reservedCount_delete _ k v) by by rewrite lookup_insert_eq.
  by rewrite delete_insert_id.
Qed.

Lemma reservedCount_zero m id : (∀ k v, m !! k = Some v → v ≠ id) → reservedCount m id = 0%nat.
Proof.
  intros H. unfold reservedCount.
  assert (∀ kv, kv ∈ map_to_list m → kv.2 ≠ id) as Hl.
  { intros [k v] Hkv%elem_of_map_to_list. by eapply H. }
  induction (map_to_list m) as [|kv l IH]; [done|].
  rewrite filter_cons_False by (apply Hl; by left). apply IH. intros kv' ?. apply Hl. by right.
Qed.

Lemma reservedCount_pos m k id : m !! k = Some id → (0 < reservedCount m id)%nat.
Proof. intros Hk. rewrite (reservedCount_delete m k id id Hk), bool_decide_true by done. lia. Qed.

(** The counting loop, when the sum is an [int]. *)
Lemma countReservations_spec s id active :
  0 ≤ active → active + Z.of_nat (reservedCount (reservations s) id) ≤ MaxInt64 →
  countReservations s id active = active + Z.of_nat (reservedCount (reservations s) id).
Proof.
  unfold countReservations, reservedCount. revert active.
  induction (map_to_list (reservations s)) as [|kv l IH]; intros active H0 Hmax; [cbn in *; lia|].
  cbn [foldl]. rewrite filter_cons in *. destruct (decide (kv.2 = id)) as [He|He].
  - rewrite bool_decide_true by done. cbn [length] in *. unfold MaxInt64 in *.
    rewrite i64_id by lia. rewrite IH by lia. lia.
  - rewrite bool_decide_false by done. by apply IH.
Qed.

(** The deleting loop leaves the other reservations. *)
Lemma drop_lookup id l s k :
  reservations (foldl (λ s kv, if bool_decide (kv.2 = id)
                 then withReservations (delete kv.1 (reservations s))
                        (delete kv.1 (uncertainCreates s)) s
                 else s) s l) !! k =
  if bool_decide ((k, id) ∈ (l : list (string * string))) then None else reservations s !! k.
Proof.
  revert s. induction l as [|[k' v] l IH]; intros s; [by rewrite bool_decide_false by set_solver|].
  cbn [foldl fst snd]. rewrite IH. destruct (decide ((k, id) ∈ l)) as [Hl|Hl].
  { by rewrite !bool_decide_true by set_solver. }
  rewrite (bool_decide_false _ Hl).
  destruct (decide (v = id)) as [->|Hv].
  - rewrite (bool_decide_true (id = id)) by done. cbn.
    destruct (decide (k' = k)) as [->|Hk].
    + by rewrite lookup_delete_eq, bool_decide_true by set_solver.
    + rewrite lookup_delete_ne by done. rewrite bool_decide_false; [done|]. set_solver.
  - rewrite (bool_decide_false (v = id)) by done. rewrite bool_decide_false; [done|]. set_solver.
Qed.

Lemma dropReservations_lookup id s k :
  reservations (dropReservations id s) !! k =
  if bool_decide (reservations s !! k = Some id) then None else reservations s !! k.
Proof.
  unfold dropReservations. rewrite drop_lookup.
  by rewrite (bool_decide_ext _ _ (elem_of_map_to_list (reservations s) k id)).
Qed.

Lemma dropReservations_frame id s :
  agents (dropReservations id s) = agents s ∧ nodes (dropReservations id s) = nodes s ∧
  activeNodeIDs (dropReservations id s) = activeNodeIDs s ∧
  agentSnapshots (dropReservations id s) = agentSnapshots s ∧
  dropReservations id s =
    withReservations (reservations (dropReservations id s))
      (uncertainCreates (dropReservations id s)) s.
Proof.
  unfold dropReservations.
  induction (map_to_list (reservations s)) as [|kv l IH] using rev_ind; [by destruct s|].
  rewrite foldl_snoc. set (s' := foldl _ s l) in *. clearbody s'.
  case_bool_decide; [|done]. cbn. destruct IH as (-> & -> & -> & -> & IH). split_and!; try done.
  rewrite IH. done.
Qed.

(** ** Places: Agents and reservations *)
Definition placesOK (A : gmap string Agent.t) (R : gmap string string) : Prop :=
  (∀ id a, A !! id = Some a →
     Agent.ID a = id ∧ id ≠ ""%string ∧ Z.of_nat (reservedCount R id) ≤ Agent.ActiveNodes a ≤ MaxInt64) ∧
  (∀ k id, R !! k = Some id → is_Some (A !! id)).

Lemma places_agent A R id a :
  placesOK A R → A !! id = Some a →
  Agent.ID a = id ∧ id ≠ ""%string ∧ Z.of_nat (reservedCount R id) ≤ Agent.ActiveNodes a ≤ MaxInt64.
Proof. intros [HA _]. apply HA. Qed.

(** An Agent's record may change if it keeps its ID and counts its reservations. *)
Lemma places_update A R a :
  placesOK A R → Agent.ID a ≠ ""%string →
  Z.of_nat (reservedCount R (Agent.ID a)) ≤ Agent.ActiveNodes a ≤ MaxInt64 →
  placesOK (<[Agent.ID a := a]> A) R.
Proof.
  intros [HA HR] Hid Ha. split.
  - intros id b [[<- <-]|[Hne Hb]]%lookup_insert_Some; [done|]. by apply HA.
  - intros k id Hk. destruct (decide (Agent.ID a = id)) as [<-|Hne];
      [by rewrite lookup_insert_eq|rewrite lookup_insert_ne by done; eauto].
Qed.

Lemma places_delete A R k : placesOK A R → placesOK A (delete k R).
Proof.
  intros [HA HR]. split.
  - intros id a Ha. destruct (HA id a Ha) as (? & ? & ? & ?).
    pose proof (reservedCount_delete_le R k id). split_and!; [done..|lia|done].
  - intros k' id [_ Hk]%lookup_delete_Some. eauto.
Qed.

(** Giving a reservation back. *)
Lemma places_release A R k id a z :
  placesOK A R → R !! k = Some id → A !! id = Some a →
  Agent.ActiveNodes a - 1 ≤ z ≤ MaxInt64 →
  placesOK (<[id := Agent.setActiveNodes z a]> A) (delete k R).
Proof.
  intros HP Hk Ha Hz. destruct (places_agent _ _ _ _ HP Ha) as (Hid & Hne & Hc & _).
  rewrite <- Hid. apply (places_update A (delete k R) (Agent.setActiveNodes z a));
    [by apply places_delete|by cbn; rewrite Hid|]. cbn. rewrite Hid.
  rewrite (reservedCount_delete R k id id Hk), bool_decide_true in Hc by done. lia.
Qed.

(** Taking one. *)
Lemma places_reserve A R k a z :
  placesOK A R → R !! k = None → A !! Agent.ID a = Some a →
  Agent.ActiveNodes a + 1 = z → z ≤ MaxInt64 →
  placesOK (<[Agent.ID a := Agent.setActiveNodes z a]> A) (<[k := Agent.ID a]> R).
Proof.
  intros HP Hk Ha <- Hz. destruct (places_agent _ _ _ _ HP Ha) as (_ & Hne & Hc & _).
  destruct HP as [HA HR]. split.
  - intros id b. destruct (decide (Agent.ID a = id)) as [<-|Hid].
    + rewrite lookup_insert_eq. intros [= <-].
      rewrite reservedCount_insert, bool_decide_true by done. split_and!; [done..|cbn; lia|done].
    + rewrite lookup_insert_ne, reservedCount_insert, bool_decide_false by done. apply HA.
  - intros k' id [[<- <-]|[_ Hk']]%lookup_insert_Some; [by rewrite lookup_insert_eq|].
    destruct (decide (Agent.ID a = id)) as [<-|Hid];
      [by rewrite lookup_insert_eq|rewrite lookup_insert_ne by done; eauto].
Qed.

(** ** Peers: the index of live ones *)
Definition nodesOK (m : gmap string Node.t) (ids : option (gset string)) : Prop :=
  (∀ id n, m !! id = Some n → Node.ID n = id) ∧ (∀ i, ids = Some i → i = liveIDs m).

Lemma elem_of_liveIDs m id :
  id ∈ liveIDs m ↔ ∃ n, m !! id = Some n ∧ nodeHasLiveState n = true.
Proof.
  unfold liveIDs. rewrite elem_of_dom. split.
  - intros [n Hn]. apply map_lookup_filter_Some in Hn. eauto.
  - intros (n & Hn & Hl). exists n. by apply map_lookup_filter_Some.
Qed.

Lemma setNode_ok n s :
  nodesOK (nodes s) (activeNodeIDs s) →
  nodesOK (nodes (setNodeLocked n s)) (activeNodeIDs (setNodeLocked n s)).
Proof.
  intros [Hid Hix]. cbn. split.
  - intros id m [[<- <-]|[_ Hm]]%lookup_insert_Some; eauto.
  - intros i [= <-]. assert (default (liveIDs (nodes s)) (activeNodeIDs s) = liveIDs (nodes s)) as ->.
    { destruct (activeNodeIDs s); [by apply Hix|done]. }
    apply set_eq. intros id. rewrite elem_of_liveIDs.
    destruct (decide (id = Node.ID n)) as [->|Hne].
    + rewrite lookup_insert_eq. destruct (nodeHasLiveState n) eqn:Hl; split.
      * eauto.
      * set_solver.
      * set_solver.
      * intros (m & [= <-] & Hm). congruence.
    + rewrite lookup_insert_ne by done. rewrite <- elem_of_liveIDs.
      destruct (nodeHasLiveState n); set_solver.
Qed.

(** Under the index, the iterator yields exactly the live Peers. *)
Lemma activeNodesLocked_spec s n :
  nodesOK (nodes s) (activeNodeIDs s) →
  n ∈ activeNodesLocked s ↔ nodes s !! Node.ID n = Some n ∧ nodeHasLiveState n = true.
Proof.
  intros [Hid Hix]. unfold activeNodesLocked.
  destruct (activeNodeIDs s) as [i|].
  - rewrite (Hix i eq_refl), list_elem_of_filter, list_elem_of_omap.
    setoid_rewrite elem_of_elements. setoid_rewrite elem_of_liveIDs. split.
    + intros (Hl & id & _ & Hn). by rewrite (Hid id n Hn).
    + intros [Hn Hl]. split; [done|]. eauto.
  - rewrite list_elem_of_filter, list_elem_of_fmap. split.
    + intros (Hl & [id m] & -> & Hm%elem_of_map_to_list). cbn. by rewrite (Hid id m Hm).
    + intros [Hn Hl]. split; [done|]. exists (Node.ID n, n). split; [done|].
      by apply elem_of_map_to_list.
Qed.

(** ** The life cycle of a Peer

    An outcome is confirmed when the process failed and its removal completed.  A
    confirmed record is final; a stopped Peer stays stopped, or turns out to have
    failed; a Peer that was stopping, stopped or failed never runs again. *)
Definition confirmed (n : Node.t) : Prop := Node.State n = NodeFailed ∧ Node.cleanupComplete n = true.

Definition lifecycle (old n : Node.t) : Prop :=
  (confirmed old → n = old) ∧
  (Node.State old = NodeStopped → Node.State n = NodeStopped ∨ confirmed n) ∧
  (isActive old = false → isActive n = false).

Definition evolves (m m' : gmap string Node.t) : Prop :=
  ∀ id n, m !! id = Some n → ∃ n', m' !! id = Some n' ∧ lifecycle n n'.

#[export] Instance lifecycle_preorder : PreOrder lifecycle.
Proof.
  split; [intros n; split_and!; eauto|].
  intros a b c (A1 & A2 & A3) (B1 & B2 & B3). split_and!.
  - intros H. by rewrite (B1 ltac:(by rewrite (A1 H))), (A1 H).
  - intros H. destruct (A2 H) as [Hb|Hb]; [auto|]. rewrite (B1 Hb). by right.
  - auto.
Qed.

#[export] Instance evolves_preorder : PreOrder evolves.
Proof.
  split; [intros m id n Hn; exists n; split; [done|reflexivity]|].
  intros a b c Hab Hbc id n Hn.
  destruct (Hab id n Hn) as (n1 & H1 & L1). destruct (Hbc id n1 H1) as (n2 & H2 & L2).
  exists n2. split; [done|]. by transitivity n1.
Qed.

Lemma evolves_insert m id n :
  (∀ o, m !! id = Some o → lifecycle o n) → evolves m (<[id := n]> m).
Proof.
  intros H id' o Ho. destruct (decide (id = id')) as [<-|Hne].
  - rewrite lookup_insert_eq. eauto.
  - rewrite lookup_insert_ne by done. exists o. split; [done|reflexivity].
Qed.

Lemma isActive_false n :
  isActive n = false ↔
  Node.State n = NodeStopping ∨ Node.State n = NodeStopped ∨ Node.State n = NodeFailed.
Proof.
  unfold isActive. rewrite !andb_false_iff, !negb_false_iff, !bool_decide_eq_true. tauto.
Qed.

Lemma live_spec n :
  nodeHasLiveState n = true ↔ Node.State n ≠ NodeStopped ∧ Node.State n ≠ NodeFailed.
Proof.
  unfold nodeHasLiveState. by rewrite andb_true_iff, !negb_true_iff, !bool_decide_eq_false.
Qed.

Lemma mergeNode_lifecycle old n : lifecycle old (mergeNode old n).
Proof.
  unfold mergeNode.
  assert (∀ b (x : Node.t), (b = false → lifecycle old x) → lifecycle old (if b : bool then old else x))
    as Hcase by (intros [] x Hx; [reflexivity|auto]).
  do 4 (apply Hcase; intros ?H). clear Hcase. unfold lifecycle, confirmed.
  rewrite !isActive_false.
  destruct (Node.cleanupComplete old), (Node.cleanupComplete n),
    (bool_decide_reflect (Node.State old = NodeStopped)),
    (bool_decide_reflect (Node.State n = NodeStopped)),
    (bool_decide_reflect (Node.State old = NodeFailed)),
    (bool_decide_reflect (Node.State n = NodeFailed)),
    (bool_decide_reflect (Node.State old = NodeStopping)),
    (bool_decide_reflect (Node.State n = NodeStopping));
    cbn in *; first [discriminate | intuition congruence].
Qed.

(** The failure recorded when an Agent restarts, a stop and a DELETE. *)
Lemma restart_lifecycle now n : nodeHasLiveState n = true → lifecycle n (failedByRestart now n).
Proof.
  intros [Hs Hf]%live_spec. unfold lifecycle, confirmed. rewrite !isActive_false. cbn. tauto.
Qed.

Lemma stop_lifecycle now n :
  negb (bool_decide (Node.State n = NodeStopped)) &&
  negb (bool_decide (Node.State n = NodeFailed) && Node.cleanupComplete n) = true →
  lifecycle n (Node.setLifecycle NodeStopped now (Node.Error n) n).
Proof.
  rewrite andb_true_iff, !negb_true_iff, andb_false_iff, !bool_decide_eq_false.
  intros [Hs Hf]. unfold lifecycle, confirmed. rewrite !isActive_false. cbn.
  split_and!; [intros [? ?]; destruct Hf; congruence|tauto|tauto].
Qed.

Lemma active_lifecycle o n : isActive o = true → lifecycle o n.
Proof.
  intros H. destruct (isActive o) eqn:Ho; [|done].
  assert (¬ (isActive o = false)) as Hn by congruence. rewrite isActive_false in Hn.
  unfold lifecycle, confirmed. split_and!; [tauto..|congruence].
Qed.

(** ** Loops over the Peers

    A loop that replaces some records by records of the same Peer: what it
    leaves, for [upd k n] the record written for [n], if any. *)
Section loop.
Context (upd : string → Node.t → option Node.t) (f : state → string * Node.t → state).
Context (R : gmap string string).
Hypothesis body : ∀ s k n, reservations s = R →
  f s (k, n) = match upd k n with Some n' => setNodeLocked n' s | None => s end.
Hypothesis own : ∀ k n n', Node.ID n = k → upd k n = Some n' → Node.ID n' = k.

Definition updated (k : string) (n : Node.t) : Node.t := default n (upd k n).

Lemma loop_spec l s :
  reservations s = R → NoDup l.*1 → nodesOK (nodes s) (activeNodeIDs s) →
  (∀ k n, (k, n) ∈ l → nodes s !! k = Some n) →
  let r := foldl f s l in
  r = withNodes (nodes r) (activeNodeIDs r) s ∧ nodesOK (nodes r) (activeNodeIDs r) ∧
  ∀ k, nodes r !! k = (if bool_decide (k ∈ l.*1) then updated k else id) <$> nodes s !! k.
Proof.
  revert s. induction l as [|[k n] l IH]; intros s HR Hnd HN Hl r.
  { subst r. cbn [foldl]. split_and!; [by destruct s|done|].
    intros k. rewrite bool_decide_false by set_solver. by destruct (nodes s !! k). }
  subst r. cbn [foldl]. rewrite body by done.
  pose proof (Hl k n ltac:(by left)) as Hk. apply list.NoDup_cons in Hnd as [Hk1 Hnd].
  set (s1 := match upd k n with Some n' => setNodeLocked n' s | None => s end).
  assert (nodes s1 = <[k := updated k n]> (nodes s) ∧ s1 = withNodes (nodes s1) (activeNodeIDs s1) s ∧
          reservations s1 = R ∧ nodesOK (nodes s1) (activeNodeIDs s1)) as (Hn1 & Hs1 & HR1 & HN1).
  { subst s1. unfold updated. destruct (upd k n) as [n'|] eqn:Hu; cbn [default].
    - rewrite <- (own k n n' (proj1 HN k n Hk) Hu). split_and!; [done|done|done|by apply setNode_ok].
    - split_and!; [by rewrite insert_id|by destruct s|done|done]. }
  destruct (IH s1 HR1 Hnd HN1) as (Hr & HNr & Hlk).
  { intros k' n' Hk'. rewrite Hn1, lookup_insert_ne; [apply Hl; by right|].
    intros <-. apply Hk1. apply list_elem_of_fmap. by exists (k, n'). }
  split_and!; [|done|].
  - rewrite Hr at 1. rewrite Hs1 at 3. done.
  - intros k'. rewrite Hlk, Hn1. destruct (decide (k = k')) as [<-|Hne].
    + rewrite lookup_insert_eq, Hk. rewrite bool_decide_false by done.
      rewrite bool_decide_true by (by left). done.
    + rewrite lookup_insert_ne by done. f_equal.
      assert ((k' ∈ l.*1) ↔ (k' ∈ ((k, n) :: l).*1)) as Hiff by set_solver.
      by rewrite (bool_decide_ext _ _ Hiff).
Qed.

(** The loop over all of them. *)
Lemma loop_all s :
  reservations s = R → nodesOK (nodes s) (activeNodeIDs s) →
  let r := foldl f s (map_to_list (nodes s)) in
  r = withNodes (nodes r) (activeNodeIDs r) s ∧ nodesOK (nodes r) (activeNodeIDs r) ∧
  ∀ k, nodes r !! k = updated k <$> nodes s !! k.
Proof.
  intros HR HN.
  destruct (loop_spec (map_to_list (nodes s)) s HR) as (H1 & H2 & H3); [|done| |].
  - apply NoDup_fst_map_to_list.
  - intros k n. by apply elem_of_map_to_list.
  - split_and!; [done..|]. intros k. rewrite H3. case_bool_decide as Hk; [done|].
    destruct (nodes s !! k) as [n|] eqn:Hn; [|done].
    destruct Hk. apply list_elem_of_fmap. exists (k, n). split; [done|].
    by apply elem_of_map_to_list.
Qed.

Lemma loop_evolves s :
  reservations s = R → nodesOK (nodes s) (activeNodeIDs s) →
  (∀ k n n', upd k n = Some n' → lifecycle n n') →
  evolves (nodes s) (nodes (foldl f s (map_to_list (nodes s)))).
Proof.
  intros HR HN Hu. destruct (loop_all s HR HN) as (_ & _ & Hlk). intros k n Hn.
  exists (updated k n). rewrite Hlk, Hn. split; [done|]. unfold updated.
  destruct (upd k n) eqn:Hk; [by eapply Hu|reflexivity].
Qed.
End loop.

(** The two loops of the program. *)
Definition restartUpdate (now : Time) (id : string) (_ : string) (n : Node.t) : option Node.t :=
  if bool_decide (Node.AgentID n = id) && nodeHasLiveState n
  then Some (failedByRestart now n) else None.

Definition unseenUpdate (now : Time) (id : string) (seen : gset string) (R : gmap string string)
    (k : string) (n : Node.t) : option Node.t :=
  if bool_decide (Node.AgentID n = id) && negb (bool_decide (k ∈ seen)) &&
     (negb (bool_decide (Node.State n = NodeStopped)) &&
      negb (bool_decide (Node.State n = NodeFailed) && Node.cleanupComplete n)) &&
     negb (bool_decide (textAt R k = id))
  then Some (Node.setLifecycle NodeStopped now (Node.Error n) n) else None.

Lemma failNodes_spec now id s :
  nodesOK (nodes s) (activeNodeIDs s) →
  let r := failNodes now id s in
  r = withNodes (nodes r) (activeNodeIDs r) s ∧ nodesOK (nodes r) (activeNodeIDs r) ∧
  (∀ k, nodes r !! k = updated (restartUpdate now id) k <$> nodes s !! k) ∧
  evolves (nodes s) (nodes r).
Proof.
  intros HN r. subst r. unfold failNodes. set (f := λ (s : state) (kn : string * Node.t), _).
  assert (∀ s' k n, reservations s' = reservations s → f s' (k, n) =
    match restartUpdate now id k n with Some n' => setNodeLocked n' s' | None => s' end) as Hf.
  { intros s' k n _. unfold f, restartUpdate. cbn [fst snd]. by destruct (_ && _). }
  assert (∀ k n n', Node.ID n = k → restartUpdate now id k n = Some n' → Node.ID n' = k) as Hown.
  { intros k n n' Hk. unfold restartUpdate. destruct (_ && _); [|done]. by intros [= <-]. }
  destruct (loop_all _ _ _ Hf Hown s eq_refl HN) as (? & ? & ?). split_and!; [done..|].
  apply (loop_evolves _ _ _ Hf Hown s eq_refl HN). intros k n n'. unfold restartUpdate.
  destruct (bool_decide _); [|done]. cbn. destruct (nodeHasLiveState n) eqn:Hl; [|done].
  intros [= <-]. by apply restart_lifecycle.
Qed.

Lemma stopUnseen_spec now id seen s :
  nodesOK (nodes s) (activeNodeIDs s) →
  let r := stopUnseen now id seen s in
  r = withNodes (nodes r) (activeNodeIDs r) s ∧ nodesOK (nodes r) (activeNodeIDs r) ∧
  (∀ k, nodes r !! k = updated (unseenUpdate now id seen (reservations s)) k <$> nodes s !! k) ∧
  evolves (nodes s) (nodes r).
Proof.
  intros HN r. subst r. unfold stopUnseen. set (f := λ (s : state) (kn : string * Node.t), _).
  assert (∀ s' k n, reservations s' = reservations s → f s' (k, n) =
    match unseenUpdate now id seen (reservations s) k n with
    | Some n' => setNodeLocked n' s' | None => s' end) as Hf.
  { intros s' k n HR. unfold f, unseenUpdate. rewrite HR.
    destruct (bool_decide (Node.AgentID n = id)), (bool_decide (k ∈ seen)),
      (bool_decide (Node.State n = NodeStopped)), (_ && Node.cleanupComplete n); try done;
      cbn; by destruct (bool_decide (textAt _ _ = _)). }
  assert (∀ k n n', Node.ID n = k →
    unseenUpdate now id seen (reservations s) k n = Some n' → Node.ID n' = k) as Hown.
  { intros k n n' Hk. unfold unseenUpdate. destruct (_ && _); [|done]. by intros [= <-]. }
  destruct (loop_all _ _ _ Hf Hown s eq_refl HN) as (? & ? & ?). split_and!; [done..|].
  apply (loop_evolves _ _ _ Hf Hown s eq_refl HN). intros k n n'. unfold unseenUpdate.
  destruct (_ && negb (bool_decide (textAt _ _ = _))) eqn:Hc; [|done].
  intros [= <-]. rewrite !andb_true_iff in Hc. apply stop_lifecycle. rewrite andb_true_iff. tauto.
Qed.

(** ** Settings *)
(** The Agent's last report confirms the limit of the current settings, under their
    current revision. *)
Definition acknowledged (s : state) (a : Agent.t) : Prop :=
  intAt (agentReportedCapacities s) (Agent.ID a) = desiredCapacity s a ∧
  Agent.CapacityRevision a = textAt (agentCapacityRevisions s) (Agent.ID a).

Definition settled (s : state) (a : Agent.t) : Prop :=
  Agent.Disabled a = isDisabled s a ∧
  Agent.CapacityOverride a = intAt (agentCapacityOverrides s) (Agent.ID a) ∧
  if 0 <? desiredCapacity s a then
    0 < Agent.Capacity a ≤ desiredCapacity s a ∧
    (Agent.CapacityPending a = false → Agent.Capacity a = desiredCapacity s a) ∧
    (Agent.CapacityPending a = false ↔ acknowledged s a)
  else
    Agent.Capacity a = intAt (agentReportedCapacities s) (Agent.ID a) ∧
    Agent.CapacityPending a = false.

(** A limit is not raised before the Agent confirmed the settings. *)
Definition capped (a a' : Agent.t) : Prop :=
  Agent.CapacityPending a' = true → 0 < Agent.Capacity a → Agent.Capacity a' ≤ Agent.Capacity a.

Lemma applyCapacity_settled s a : settled s (applyAgentCapacityLocked a s).
Proof.
  unfold settled, applyAgentCapacityLocked.
  set (reported := intAt _ _). set (override := intAt _ _). set (desired := desiredCapacity s a).
  assert (∀ d o c p, isDisabled s (Agent.setCapacity d o c p a) = isDisabled s a) as Hd by done.
  assert (∀ d o c p, desiredCapacity s (Agent.setCapacity d o c p a) = desired) as Hs by done.
  destruct (Z.ltb_spec 0 desired) as [H0|H0].
  - set (pending := _ || _). set (previous := Agent.Capacity _).
    set (c := if (reported <=? 0) || (desired <? reported) then desired else reported).
    assert (0 < c ≤ desired ∧ (negb (reported =? desired) = false → c = desired)) as [Hc Heq].
    { unfold c. destruct (Z.leb_spec reported 0), (Z.ltb_spec desired reported),
        (Z.eqb_spec reported desired); cbn; split; try lia; done. }
    assert (pending = false ↔ reported = desired ∧
      Agent.CapacityRevision a = textAt (agentCapacityRevisions s) (Agent.ID a)) as Hack.
    { unfold pending. by rewrite orb_false_iff, !negb_false_iff, Z.eqb_eq, bool_decide_eq_true. }
    cbn zeta iota. unfold acknowledged. rewrite Hd, Hs. split_and!; [done|done|].
    destruct (Z.ltb_spec 0 desired); [|lia]. cbn. fold reported.
    assert (pending = false → c = desired) as Heq'
      by (intros [-> _]%Hack; apply Heq; by rewrite Z.eqb_refl).
    clearbody c. destruct pending; cbn.
    + destruct (Z.ltb_spec 0 previous); (split_and!; [lia|lia|done|exact Hack]).
    + split_and!; [lia|lia|exact Heq'|exact Hack].
  - cbn zeta iota. rewrite Hd, Hs. split_and!; [done|done|].
    destruct (Z.ltb_spec 0 desired); [lia|]. done.
Qed.

Lemma applyCapacity_capped s a :
  capped (agentAt s (Agent.ID a)) (applyAgentCapacityLocked a s).
Proof.
  unfold capped, applyAgentCapacityLocked. destruct (0 <? desiredCapacity s a); [|done].
  set (pending := _ || _). cbn. intros -> Hprev.
  assert ((0 <? Agent.Capacity (agentAt s (Agent.ID a))) = true) as -> by lia. cbn. lia.
Qed.

Lemma applyCapacity_ID s a : Agent.ID (applyAgentCapacityLocked a s) = Agent.ID a.
Proof. unfold applyAgentCapacityLocked. by destruct (if 0 <? _ then _ else _). Qed.
Lemma applyCapacity_active s a :
  Agent.ActiveNodes (applyAgentCapacityLocked a s) = Agent.ActiveNodes a.
Proof. unfold applyAgentCapacityLocked. by destruct (if 0 <? _ then _ else _). Qed.

(** What a record's settings depend on. *)
Lemma settled_frame s s' a :
  settled s a → agentDisabled s' = agentDisabled s → hostDisabled s' = hostDisabled s →
  agentAvailabilityErr s' = agentAvailabilityErr s →
  intAt (agentCapacityOverrides s') (Agent.ID a) = intAt (agentCapacityOverrides s) (Agent.ID a) →
  intAt (agentReportedCapacities s') (Agent.ID a) = intAt (agentReportedCapacities s) (Agent.ID a) →
  textAt (agentCapacityRevisions s') (Agent.ID a) = textAt (agentCapacityRevisions s) (Agent.ID a) →
  settled s' a.
Proof.
  unfold settled, acknowledged, isDisabled, desiredCapacity. intros H -> -> -> -> -> ->. exact H.
Qed.

(** ** The invariant *)
Record Inv (s : state) : Prop := {
  inv_places : placesOK (agents s) (reservations s);
  inv_nodes : nodesOK (nodes s) (activeNodeIDs s);
  inv_settings : ∀ id a, agents s !! id = Some a → settled s a }.

Lemma inv_newState capacities settingsErr disabled hosts availabilityErr :
  Inv (newState capacities settingsErr disabled hosts availabilityErr).
Proof.
  split; [split|split|]; cbn; try (intros *; rewrite lookup_empty; done). done.
Qed.

(** Changes that no part of the invariant sees. *)
Lemma inv_times a b c s : Inv s → Inv (withTimes a b c s).
Proof. intros [H1 H2 H3]. by split. Qed.

Lemma inv_uncertain u s : Inv s → Inv (withReservations (reservations s) u s).
Proof. intros [H1 H2 H3]. by split. Qed.

Lemma inv_dropReservation k u s : Inv s → Inv (withReservations (delete k (reservations s)) u s).
Proof. intros [H1 H2 H3]. split; [by apply places_delete|done|done]. Qed.

Lemma inv_node n s : Inv s → Inv (setNodeLocked n s).
Proof. intros [H1 H2 H3]. split; [done|by apply setNode_ok|done]. Qed.

(** Storing the record of one Agent. *)
Lemma inv_setAgent a s :
  Inv s → Agent.ID a ≠ ""%string →
  Z.of_nat (reservedCount (reservations s) (Agent.ID a)) ≤ Agent.ActiveNodes a ≤ MaxInt64 →
  settled s a → Inv (setAgent (Agent.ID a) a s).
Proof.
  intros [H1 H2 H3] Hid Ha Hs. split; [by apply places_update|done|].
  cbn. intros id b [[<- <-]|[_ Hb]]%lookup_insert_Some; [done|]. eapply H3, Hb.
Qed.

Lemma inv_agent s id a :
  Inv s → agents s !! id = Some a →
  Agent.ID a = id ∧ id ≠ ""%string ∧
  Z.of_nat (reservedCount (reservations s) id) ≤ Agent.ActiveNodes a ≤ MaxInt64 ∧ settled s a.
Proof.
  intros [H1 H2 H3] Ha. destruct (places_agent _ _ _ _ H1 Ha) as (? & ? & ?). eauto.
Qed.

(** Decrementing an occupancy that counts a reservation. *)
Lemma decrement_bounds z : 0 ≤ z ≤ MaxInt64 → z - 1 ≤ Z.max 0 (i64 (z - 1)) ≤ MaxInt64.
Proof. unfold MaxInt64. intros H. rewrite i64_id by lia. lia. Qed.

Lemma inv_giveBack s k id a u z :
  Inv s → reservations s !! k = Some id → agents s !! id = Some a →
  Agent.ActiveNodes a - 1 ≤ z ≤ MaxInt64 →
  Inv (setAgent id (Agent.setActiveNodes z a) (withReservations (delete k (reservations s)) u s)).
Proof.
  intros HI Hk Ha Hz. destruct (inv_agent s id a HI Ha) as (Hid & Hne & Hc & Hs).
  destruct HI as [H1 H2 H3]. split; [by eapply places_release|done|].
  cbn. intros id' b [[<- <-]|[_ Hb]]%lookup_insert_Some; [exact Hs|]. eapply H3, Hb.
Qed.
