(* ===== verification/InventoryOrder.v ===== *)
(** * The order in which Agents are preferred

    [balancedAgentBefore] is a strict total order on Agents with different IDs, so
    the loop that keeps the best one finds the same Agent in whatever order Go
    ranges over them; so does a draw from the candidates sorted by ID. *)
From Stdlib Require Import ZArith Lia SpecFloat Ascii.
From stdpp Require Import strings list gmap sorting.
From S2P Require Import Prelude.
From S2P Require Import GoStd.
From S2P Require Import GoFloat.
From S2P Require Import AgentModel.
From S2P Require Import Inventory.
Open Scope Z_scope.

(** ** Strings *)
Lemma compare_cons c d s t :
  String.compare (String c s) (String d t) =
    match N.compare (N_of_ascii c) (N_of_ascii d) with
    | Eq => String.compare s t
    | r => r
    end.
Proof. reflexivity. Qed.

Lemma compare_refl s : String.compare s s = Eq.
Proof. induction s as [|c s IH]; [done|]. by rewrite compare_cons, N.compare_refl. Qed.

Lemma compare_eq a b : String.compare a b = Eq ↔ a = b.
Proof. split; [apply String.compare_eq_iff|]. intros ->. apply compare_refl. Qed.

Lemma compare_lt_trans a b c :
  String.compare a b = Lt → String.compare b c = Lt → String.compare a c = Lt.
Proof.
  revert b c. induction a as [|x a IH]; intros [|y b] [|z c]; try done.
  rewrite !compare_cons.
  destruct (N.compare_spec (N_of_ascii x) (N_of_ascii y)) as [H1|H1|H1]; [| |done];
    destruct (N.compare_spec (N_of_ascii y) (N_of_ascii z)) as [H2|H2|H2]; try done;
    destruct (N.compare_spec (N_of_ascii x) (N_of_ascii z)) as [H3|H3|H3]; try done; try lia.
  intros Ha Hb. by eapply IH.
Qed.

Lemma ltb_spec a b : String.ltb a b = true ↔ String.compare a b = Lt.
Proof. unfold String.ltb. by destruct (String.compare a b). Qed.

Lemma leb_spec a b : Is_true (String.leb a b) ↔ a = b ∨ String.compare a b = Lt.
Proof.
  unfold String.leb. rewrite <- compare_eq.
  destruct (String.compare a b); cbn; split; try tauto; intros [|]; done.
Qed.

Lemma compare_trichotomy a b :
  a = b ∨ String.compare a b = Lt ∨ String.compare b a = Lt.
Proof.
  destruct (String.compare a b) eqn:Hc; [left; by apply compare_eq|by right; left|].
  right; right. rewrite String.compare_antisym, Hc. done.
Qed.

#[export] Instance stringLe_trans : Transitive stringLe.
Proof.
  intros a b c. unfold stringLe. rewrite !leb_spec. intros [->|Ha] [->|Hb]; auto.
  right. by eapply compare_lt_trans.
Qed.
#[export] Instance stringLe_total : Total stringLe.
Proof.
  intros a b. unfold stringLe. rewrite !leb_spec.
  destruct (compare_trichotomy a b) as [->|[H|H]]; auto.
Qed.
Lemma stringLe_antisym a b : stringLe a b → stringLe b a → a = b.
Proof.
  unfold stringLe. rewrite !leb_spec. intros [->|Ha] [Hb|Hb]; try done.
  pose proof (compare_lt_trans _ _ _ Ha Hb) as H. by rewrite compare_refl in H.
Qed.
#[export] Instance agentLe_trans : Transitive agentLe.
Proof. intros a b c. apply stringLe_trans. Qed.
#[export] Instance agentLe_total : Total agentLe.
Proof. intros a b. apply stringLe_total. Qed.

(** ** Utilization *)

(** Capacities are [int]s. *)
Definition intCapacity (a : Agent.t) : Prop := Agent.Capacity a ≤ MaxInt64.

Lemma utilization_nan a k :
  intCapacity a → (k = 0 ∨ k = 1) → F64.isNaN (utilization a k) = false.
Proof.
  intros Ha Hk. unfold utilization.
  assert (F64.finite (F64.of_Z k) = true) as Hf by (destruct Hk as [->| ->]; reflexivity).
  pose proof (add_nan _ _ (of_Z_nan (Agent.ActiveNodes a)) Hf) as Hadd.
  destruct (Z.leb_spec (Agent.Capacity a) 0); [done|].
  destruct (of_Z_pos (Agent.Capacity a)) as (m & e & ->).
  { unfold intCapacity, MaxInt64 in Ha. lia. }
  by apply div_nan.
Qed.

(** The order, on numbers that are ordered as the utilizations are. *)
Definition before (x1 x0 y1 y0 : Z) (a b : string) : Prop :=
  x1 < y1 ∨ (x1 = y1 ∧ (x0 < y0 ∨ (x0 = y0 ∧ String.compare a b = Lt))).

Lemma balanced_before a b x1 x0 y1 y0 :
  F64.compare (utilization a 1) (utilization b 1) = Some (x1 ?= y1) →
  F64.compare (utilization a 0) (utilization b 0) = Some (x0 ?= y0) →
  balancedAgentBefore a b = true ↔ before x1 x0 y1 y0 (Agent.ID a) (Agent.ID b).
Proof.
  intros H1 H0. unfold balancedAgentBefore, F64.eqb, F64.ltb, before. rewrite H1, H0.
  destruct (Z.compare_spec x1 y1); cbn; [|intuition lia..].
  destruct (Z.compare_spec x0 y0); cbn; [|intuition lia..].
  rewrite ltb_spec. intuition lia.
Qed.

(** Any three Agents. *)
Lemma before_ranks a b c :
  intCapacity a → intCapacity b → intCapacity c →
  ∃ x1 x0 y1 y0 z1 z0,
    (balancedAgentBefore a b = true ↔ before x1 x0 y1 y0 (Agent.ID a) (Agent.ID b)) ∧
    (balancedAgentBefore b c = true ↔ before y1 y0 z1 z0 (Agent.ID b) (Agent.ID c)) ∧
    (balancedAgentBefore a c = true ↔ before x1 x0 z1 z0 (Agent.ID a) (Agent.ID c)).
Proof.
  intros Ha Hb Hc.
  destruct (compare_ranks (utilization a 1) (utilization b 1) (utilization c 1))
    as (x1 & y1 & z1 & ? & ? & ?); [apply utilization_nan; auto..|].
  destruct (compare_ranks (utilization a 0) (utilization b 0) (utilization c 0))
    as (x0 & y0 & z0 & ? & ? & ?); [apply utilization_nan; auto..|].
  exists x1, x0, y1, y0, z1, z0. split_and!; by apply balanced_before.
Qed.

Lemma balanced_trans a b c :
  intCapacity a → intCapacity b → intCapacity c →
  balancedAgentBefore a b = true → balancedAgentBefore b c = true → balancedAgentBefore a c = true.
Proof.
  intros Ha Hb Hc. destruct (before_ranks a b c Ha Hb Hc) as (x1 & x0 & y1 & y0 & z1 & z0 & -> & -> & ->).
  unfold before. intros [?|(? & [?|(? & H1)])] [?|(? & [?|(? & H2)])]; try lia.
  right. split; [lia|]. right. split; [lia|]. by eapply compare_lt_trans.
Qed.

Lemma balanced_total a b :
  intCapacity a → intCapacity b → Agent.ID a ≠ Agent.ID b →
  balancedAgentBefore a b = true ∨ balancedAgentBefore b a = true.
Proof.
  intros Ha Hb Hid.
  destruct (before_ranks a b a Ha Hb Ha) as (x1 & x0 & y1 & y0 & z1 & z0 & Hab & Hba & Haa).
  destruct (compare_ranks (utilization a 1) (utilization b 1) (utilization a 1))
    as (p1 & q1 & r1 & H1 & H2 & H3); [apply utilization_nan; auto..|].
  destruct (compare_ranks (utilization a 0) (utilization b 0) (utilization a 0))
    as (p0 & q0 & r0 & G1 & G2 & G3); [apply utilization_nan; auto..|].
  rewrite (balanced_before a b _ _ _ _ H1 G1), (balanced_before b a _ _ _ _ H2 G2).
  assert (p1 = r1) as <-.
  { rewrite (compare_refl_float (utilization a 1)) in H3 by (apply utilization_nan; auto).
    injection H3 as H3. symmetry in H3. by apply Z.compare_eq_iff in H3. }
  assert (p0 = r0) as <-.
  { rewrite (compare_refl_float (utilization a 0)) in G3 by (apply utilization_nan; auto).
    injection G3 as G3. symmetry in G3. by apply Z.compare_eq_iff in G3. }
  unfold before. destruct (compare_trichotomy (Agent.ID a) (Agent.ID b)) as [|[|]]; [done|..];
    destruct (Z.lt_trichotomy p1 q1) as [|[|]], (Z.lt_trichotomy p0 q0) as [|[|]]; tauto || intuition lia.
Qed.

Lemma balanced_irrefl a : intCapacity a → balancedAgentBefore a a = false.
Proof.
  intros Ha. apply not_true_iff_false. unfold balancedAgentBefore, F64.eqb, F64.ltb.
  rewrite !compare_refl_float by (apply utilization_nan; auto). cbn.
  rewrite ltb_spec, compare_refl. done.
Qed.

(** ** The best candidate *)
Definition best (l : list Agent.t) (r : Agent.t) : Prop :=
  r ∈ l ∧ ∀ b, b ∈ l → b = r ∨ balancedAgentBefore r b = true.

(** Agents of the inventory: capacities are [int]s and an ID names one record. *)
Definition fleet (l : list Agent.t) : Prop :=
  (∀ a, a ∈ l → intCapacity a) ∧ ∀ a b, a ∈ l → b ∈ l → Agent.ID a = Agent.ID b → a = b.

Lemma keepBest_spec l x :
  fleet (x :: l) → ∃ r, foldl keepBest (Some x) l = Some r ∧ best (x :: l) r.
Proof.
  revert x. induction l as [|y l IH]; intros x [Hcap Hid].
  { exists x. split; [done|]. split; [by left|]. intros b Hb. left. set_solver. }
  cbn [foldl keepBest].
  assert (∀ z, z = x ∨ z = y → fleet (z :: l)) as Hfl.
  { intros z Hz. split; [intros a Ha; apply Hcap; set_solver|]. intros a b Ha Hb. apply Hid; set_solver. }
  assert (∀ z w, (z = x ∧ w = y) ∨ (z = y ∧ w = x) → z = w ∨ balancedAgentBefore z w = true →
    ∀ r, best (z :: l) r → best (x :: y :: l) r) as Hstep.
  { intros z w Hzw Hbef r [Hr Hall]. split; [set_solver|]. intros b Hb.
    assert (b = w ∨ b ∈ z :: l) as [->|Hbz] by (destruct Hzw as [[-> ->]|[-> ->]]; set_solver).
    - destruct Hbef as [<-|Hbef]; [apply Hall; by left|].
      destruct (Hall z ltac:(by left)) as [->|Hrz]; [by right|]. right.
      apply (balanced_trans _ z); [apply Hcap; set_solver..|done|done].
    - by apply Hall. }
  destruct (balancedAgentBefore y x) eqn:Hyx.
  - destruct (IH y (Hfl y ltac:(auto))) as (r & -> & Hr). exists r. split; [done|].
    apply (Hstep y x); auto.
  - destruct (IH x (Hfl x ltac:(auto))) as (r & -> & Hr). exists r. split; [done|].
    apply (Hstep x y); auto. destruct (decide (Agent.ID x = Agent.ID y)) as [He|Hne];
      [left; apply Hid; [set_solver..|done]|]. right.
    destruct (balanced_total x y) as [|H]; [apply Hcap; set_solver..|done|done|congruence].
Qed.

Lemma best_unique l r r' : fleet l → best l r → best l r' → r = r'.
Proof.
  intros [Hcap _] [Hr Hall] [Hr' Hall'].
  destruct (Hall r' Hr') as [|H1]; [done|]. destruct (Hall' r Hr) as [|H2]; [done|].
  pose proof (balanced_trans r r' r (Hcap r Hr) (Hcap r' Hr') (Hcap r Hr) H1 H2) as H.
  by rewrite balanced_irrefl in H by auto.
Qed.

Lemma fleet_perm l l' : l ≡ₚ l' → fleet l → fleet l'.
Proof.
  intros Hp [Hcap Hid]. split; [intros a; rewrite <- Hp; apply Hcap|].
  intros a b. rewrite <- Hp. apply Hid.
Qed.

Lemma keepBest_perm l l' :
  fleet l → l ≡ₚ l' → foldl keepBest None l = foldl keepBest None l'.
Proof.
  intros Hfl Hp. pose proof (fleet_perm _ _ Hp Hfl) as Hfl'.
  destruct l as [|x l], l' as [|x' l']; [done|apply Permutation_length in Hp; done..|].
  cbn [foldl keepBest]. destruct (keepBest_spec l x Hfl) as (r & -> & Hr).
  destruct (keepBest_spec l' x' Hfl') as (r' & -> & Hr').
  f_equal. apply (best_unique _ _ _ Hfl Hr). destruct Hr' as [Hin Hall].
  split; [by rewrite Hp|]. intros b. rewrite Hp. apply Hall.
Qed.

(** Sorting by ID. *)
Lemma sort_perm l l' :
  fleet l → l ≡ₚ l' → merge_sort agentLe l = merge_sort agentLe l'.
Proof.
  intros [_ Hid] Hp. apply (StronglySorted_unique_strong agentLe).
  - intros a b Ha Hb Hab Hba. rewrite merge_sort_Permutation in Ha. rewrite merge_sort_Permutation, <- Hp in Hb.
    apply Hid; [done..|]. by apply stringLe_antisym.
  - apply StronglySorted_merge_sort; apply _.
  - apply StronglySorted_merge_sort; apply _.
  - by rewrite !merge_sort_Permutation.
Qed.
