(* ===== verification/InventoryProps.v ===== *)
(** * Placement and the life cycle of Peers

    Every operation of [Inventory], from any state it reaches: the invariant of
    [InventoryInv] is kept, no Peer's life cycle runs backwards, and a capacity
    limit is not raised before the Agent confirmed it.  Then what a successful
    reservation guarantees, and that it does not depend on the order in which Go
    ranges over the Agents. *)
From Stdlib Require Import ZArith Lia SpecFloat.
From stdpp Require Import strings list gmap sorting.
From S2P Require Import Prelude.
From S2P Require Import GoStd.
From S2P Require Import GoStrings.
From S2P Require Import GoFloat.
From S2P Require Import Attacks.
From S2P Require Import GossipSubConfig.
From S2P Require Import AgentModel.
From S2P Require Import Inventory.
From S2P Require Import InventoryInv.
From S2P Require Import InventoryOrder.
Open Scope Z_scope.

(** ** One operation

    [advance s s']: the invariant holds in [s'], the Peers evolved and the limits
    are capped. *)
Definition agentsAdvance (A A' : gmap string Agent.t) : Prop :=
  ∀ id a, A !! id = Some a → ∃ a', A' !! id = Some a' ∧ capped a a'.

Record advance (s s' : state) : Prop := {
  adv_inv : Inv s';
  adv_nodes : evolves (nodes s) (nodes s');
  adv_agents : agentsAdvance (agents s) (agents s') }.

Lemma capped_refl a : capped a a.
Proof. by intros ??. Qed.

Lemma agentsAdvance_refl A : agentsAdvance A A.
Proof. intros id a Ha. exists a. split; [done|apply capped_refl]. Qed.

Lemma agentsAdvance_insert A id a' :
  (∀ a, A !! id = Some a → capped a a') → agentsAdvance A (<[id := a']> A).
Proof.
  intros H id' a Ha. destruct (decide (id = id')) as [<-|Hne].
  - rewrite lookup_insert_eq. eauto.
  - rewrite lookup_insert_ne by done. exists a. split; [done|apply capped_refl].
Qed.

Lemma advance_same s s' :
  Inv s' → nodes s' = nodes s → agents s' = agents s → advance s s'.
Proof.
  intros HI Hn Ha. split; [done|rewrite Hn; reflexivity|rewrite Ha; apply agentsAdvance_refl].
Qed.

Lemma advance_refl s : Inv s → advance s s.
Proof. intros HI. by apply advance_same. Qed.

(** Records whose limit and state of settings do not change. *)
Lemma advance_agent s s' id a a' :
  Inv s' → nodes s' = nodes s → agents s' = <[id := a']> (agents s) → agents s !! id = Some a →
  Agent.Capacity a' = Agent.Capacity a → advance s s'.
Proof.
  intros HI Hn Ha Hid Hc. split; [done|rewrite Hn; reflexivity|]. rewrite Ha.
  apply agentsAdvance_insert. intros b Hb. simplify_eq. intros _ _. lia.
Qed.

(** ** Placement *)
Lemma elem_of_candidates a order target now s :
  a ∈ candidates order target now s ↔
  (∃ id, id ∈ order ∧ agents s !! id = Some a) ∧
  (target = ""%string ∨ Agent.ID a = target) ∧ admissible s now a = true.
Proof.
  unfold candidates. rewrite list_elem_of_filter, list_elem_of_omap, andb_true_iff, orb_true_iff.
  unfold empty. rewrite !bool_decide_eq_true. tauto.
Qed.

Lemma keepBest_elem l b a : foldl keepBest b l = Some a → a ∈ l ∨ b = Some a.
Proof.
  revert b. induction l as [|x l IH]; intros b H; [by right|]. cbn in H.
  destruct (IH _ H) as [Hin|Hb]; [left; by right|].
  unfold keepBest in Hb. destruct b as [y|]; [destruct (balancedAgentBefore x y)|];
    simplify_eq; [left; by left|by right|left; by left].
Qed.

Lemma selectAgent_elem order target draw now s a :
  selectAgent order target draw now s = Ok (Some a) → a ∈ candidates order target now s.
Proof.
  unfold selectAgent. destruct (candidates _ _ _ _) as [|x l] eqn:Hc; [done|].
  destruct draw as [draw|].
  - destruct (_ !! _) as [b|] eqn:Hl; [|done]. intros [= <-].
    apply list_elem_of_lookup_2 in Hl. by rewrite merge_sort_Permutation in Hl.
  - intros [= H]. by destruct (keepBest_elem (x :: l) None a H).
Qed.

(** A draw below its bound never panics. *)
Lemma selectAgent_total order target draw now s :
  (∀ f n, draw = Some f → (0 < n → f n < n)%nat) →
  ∃ r, selectAgent order target draw now s = Ok r.
Proof.
  intros Hd. unfold selectAgent. destruct (candidates _ _ _ _) as [|x l]; [eauto|].
  destruct draw as [f|]; [|eauto].
  destruct (merge_sort agentLe (x :: l) !! f (length (x :: l))) as [b|] eqn:Hl; [eauto|].
  apply lookup_ge_None in Hl. rewrite merge_sort_Permutation in Hl.
  pose proof (Hd f (length (x :: l)) eq_refl ltac:(cbn; lia)). lia.
Qed.

Lemma abandon_spec s k id :
  Inv s → reservations s !! k = Some id →
  let s' := abandonReservation k id s in
  advance s s' ∧ reservations s' = delete k (reservations s) ∧
  (∀ i a', agents s' !! i = Some a' → ∃ a, agents s !! i = Some a ∧
     (a' = a ∨ a' = Agent.setActiveNodes (Z.max 0 (i64 (Agent.ActiveNodes a - 1))) a)) ∧
  s' = withAgents (agents s') (withReservations (delete k (reservations s)) (uncertainCreates s) s).
Proof.
  intros HI Hk. unfold abandonReservation.
  destruct (proj2 (inv_places _ HI) k id Hk) as [a Ha]. cbn [withReservations agents].
  cbv zeta. rewrite Ha. destruct (inv_agent s id a HI Ha) as (Hid & Hne & Hc & Hs).
  split_and!; [|done| |done].
  - eapply advance_agent; [|done|done|exact Ha|done].
    eapply inv_giveBack; [done|exact Hk|exact Ha|]. apply decrement_bounds. lia.
  - cbn. intros i a' [[<- <-]|[_ Hi]]%lookup_insert_Some; eauto.
Qed.

Lemma reserve_spec s k a :
  Inv s → reservations s !! k = None → agents s !! Agent.ID a = Some a →
  Agent.ActiveNodes a < MaxInt64 →
  advance s (reserve k a s).2 ∧
  (reserve k a s).1 = Agent.setActiveNodes (Agent.ActiveNodes a + 1) a.
Proof.
  intros HI Hk Ha Hmax. destruct (inv_agent s _ a HI Ha) as (_ & Hne & Hc & Hs).
  unfold reserve. cbn [fst snd]. assert (i64 (Agent.ActiveNodes a + 1) = Agent.ActiveNodes a + 1) as ->
    by (unfold MaxInt64 in *; rewrite i64_id; lia). split; [|done].
  eapply advance_agent; [|done|done|exact Ha|done].
  destruct HI as [H1 H2 H3]. split; [|done|].
  - exact (places_reserve _ _ k a _ H1 Hk Ha eq_refl ltac:(lia)).
  - cbn. intros id b [[<- <-]|[_ Hb]]%lookup_insert_Some; [exact Hs|]. eapply H3, Hb.
Qed.

(** The environment of a reservation: the order visits every Agent, a draw stays
    below its bound, and no occupancy is at the end of its range. *)
Definition placeable (order : list string) (draw : option (nat → nat)) (s : state) : Prop :=
  order ≡ₚ elements (dom (agents s)) ∧
  (∀ f n, draw = Some f → (0 < n → f n < n)%nat) ∧
  ∀ id a, agents s !! id = Some a → Agent.ActiveNodes a < MaxInt64.

(** The state a placement starts from: an unusable reservation is gone. *)
Definition beforePlace (k : string) (s : state) : state :=
  match reservations s !! k with
  | Some id => abandonReservation k id s
  | None => s
  end.

Lemma beforePlace_spec k s order draw :
  Inv s → placeable order draw s →
  let s' := beforePlace k s in
  advance s s' ∧ reservations s' = delete k (reservations s) ∧ placeable order draw s' ∧
  (∀ i a', agents s' !! i = Some a' → ∃ a, agents s !! i = Some a ∧
     (a' = a ∨ a' = Agent.setActiveNodes (Z.max 0 (i64 (Agent.ActiveNodes a - 1))) a)) ∧
  s' = withAgents (agents s') (withReservations (delete k (reservations s)) (uncertainCreates s) s).
Proof.
  intros HI (Ho & Hd & Hmax). unfold beforePlace. destruct (reservations s !! k) as [id|] eqn:Hk.
  - destruct (abandon_spec s k id HI Hk) as (H1 & H2 & H3 & H4). split_and!; try done.
    split_and!; [|done|].
    + rewrite Ho. enough (dom (agents s) = dom (agents (abandonReservation k id s))) as -> by done.
      apply set_eq. intros i. rewrite !elem_of_dom. split.
      * intros [a Ha]. destruct (adv_agents _ _ H1 i a Ha) as (a' & -> & _). eauto.
      * intros [a' Ha']. destruct (H3 i a' Ha') as (a & -> & _). eauto.
    + intros i a' Ha'. destruct (H3 i a' Ha') as (a & Ha & Hor).
      destruct (inv_agent s i a HI Ha) as (_ & _ & Hc & _). specialize (Hmax i a Ha).
      destruct Hor as [->| ->]; [done|]. cbn.
      unfold MaxInt64 in *. rewrite i64_id by lia. lia.
  - split_and!; try done.
    + by apply advance_refl.
    + by rewrite delete_id.
    + intros i a Ha. eauto.
    + rewrite delete_id by done. by destruct s.
Qed.

(** Whether the Peer already holds a usable place. *)
Definition holds (t1 : Time) (k : string) (s : state) : option (string * Agent.t) :=
  id ← reservations s !! k; a ← agents s !! id;
  if negb (Agent.Disabled a) && negb (t1 <? timeAt (agentAdmissionUntil s) (Agent.ID a))
  then Some (id, a) else None.

Lemma tryReserve_cases t1 t2 now order k target draw s :
  Inv s → placeable order draw s →
  match holds t1 k s with
  | Some (id, a) =>
      tryReserve t1 t2 now order k target draw s =
        (Ok (a, agentIsOnline a t2 && (empty target || bool_decide (id = target))), s)
  | None =>
      ∃ r, selectAgent order target draw now (beforePlace k s) = Ok r ∧
      match r with
      | Some a => tryReserve t1 t2 now order k target draw s =
                    (Ok ((reserve k a (beforePlace k s)).1, true), (reserve k a (beforePlace k s)).2)
      | None => tryReserve t1 t2 now order k target draw s = (Ok (Agent.zero, false), beforePlace k s)
      end
  end.
Proof.
  intros HI HP. destruct (beforePlace_spec k s order draw HI HP) as (_ & _ & HP' & _).
  destruct (selectAgent_total order target draw now (beforePlace k s) (proj1 (proj2 HP')))
    as [r Hr].
  unfold holds, tryReserve, beforePlace in *.
  destruct (reservations s !! k) as [id|] eqn:Hk; cbn [mbind option_bind].
  - destruct (agents s !! id) as [a|] eqn:Ha; cbn [mbind option_bind].
    + destruct (negb _ && negb _); [done|]. exists r. rewrite Hr. split; [done|].
      destruct r; [|done]. by destruct (reserve _ _ _).
    + exists r. rewrite Hr. split; [done|]. destruct r; [|done]. by destruct (reserve _ _ _).
  - exists r. rewrite Hr. split; [done|]. destruct r; [|done]. by destruct (reserve _ _ _).
Qed.

Lemma candidate_stored s order target now a :
  Inv s → a ∈ candidates order target now s → agents s !! Agent.ID a = Some a.
Proof.
  intros HI ((id & _ & Ha) & _)%elem_of_candidates.
  destruct (inv_agent s id a HI Ha) as (Hid & _). by rewrite Hid.
Qed.

Lemma advance_trans_inv s s1 s2 :
  advance s s1 → advance s1 s2 →
  (∀ i a1, agents s1 !! i = Some a1 → ∃ a, agents s !! i = Some a ∧ Agent.Capacity a1 = Agent.Capacity a) →
  advance s s2.
Proof.
  intros [I1 N1 A1] [I2 N2 A2] Hc. split; [done|by etrans|].
  intros i a Ha. destruct (A1 i a Ha) as (a1 & Ha1 & _). destruct (A2 i a1 Ha1) as (a2 & Ha2 & H2).
  exists a2. split; [done|]. destruct (Hc i a1 Ha1) as (a' & Ha' & Heq). simplify_eq.
  unfold capped in *. by rewrite Heq in H2.
Qed.

Lemma tryReserve_advance t1 t2 now order k target draw s :
  Inv s → placeable order draw s →
  advance s (tryReserve t1 t2 now order k target draw s).2.
Proof.
  intros HI HP. pose proof (tryReserve_cases t1 t2 now order k target draw s HI HP) as Hc.
  destruct (holds t1 k s) as [[id a]|]; [rewrite Hc; by apply advance_refl|].
  destruct (beforePlace_spec k s order draw HI HP) as (Hadv & HR & HP' & Hag & _).
  destruct Hc as ([a|] & Hsel & ->); [|done]. cbn [snd].
  pose proof (candidate_stored _ _ _ _ a (adv_inv _ _ Hadv) (selectAgent_elem _ _ _ _ _ _ Hsel)) as Ha.
  eapply advance_trans_inv; [exact Hadv| |].
  - apply reserve_spec; [apply Hadv| |done|by eapply HP'].
    rewrite HR. apply lookup_delete_eq.
  - intros i a1 Ha1. destruct (Hag i a1 Ha1) as (a0 & Ha0 & [->| ->]); eauto.
Qed.

(** ** Registration and heartbeats *)

(** Recording a report: settings are applied to the stored record only. *)
Lemma observe_advance text a s :
  Inv s → Agent.ID a ≠ ""%string →
  Z.of_nat (reservedCount (reservations s) (Agent.ID a)) ≤ Agent.ActiveNodes a ≤ MaxInt64 →
  let r := observeAgentCapacityLocked text a s in
  advance s (setAgent (Agent.ID a) r.1 r.2).
Proof.
  intros [H1 H2 H3] Hne Hc r.
  assert (Agent.ID r.1 = Agent.ID a) as Hid by apply applyCapacity_ID.
  assert (Agent.ActiveNodes r.1 = Agent.ActiveNodes a) as Hact by apply applyCapacity_active.
  assert (settled r.2 r.1) as Hs by apply applyCapacity_settled.
  assert (capped (agentAt s (Agent.ID a)) r.1) as Hcap by apply (applyCapacity_capped r.2).
  split; [split| |].
  - rewrite <- Hid. apply (places_update (agents s) (reservations s) r.1); [done|by rewrite Hid|].
    by rewrite Hid, Hact.
  - done.
  - intros id b. cbn. intros [[<- <-]|[Hd Hb]]%lookup_insert_Some.
    { eapply settled_frame; [exact Hs|done..]. }
    destruct (places_agent _ _ _ _ H1 Hb) as (Hb1 & _).
    eapply settled_frame; [by eapply H3|done..| |]; cbn; unfold intAt, textAt.
    + by rewrite lookup_insert_ne by congruence.
    + case_match; [by rewrite lookup_insert_ne by congruence|done].
  - reflexivity.
  - cbn. apply agentsAdvance_insert. intros b Hb. unfold agentAt in Hcap. by rewrite Hb in Hcap.
Qed.

Lemma advance_frame s s1 s2 :
  Inv s1 → evolves (nodes s) (nodes s1) → agents s1 = agents s → advance s1 s2 → advance s s2.
Proof.
  intros HI Hn Ha [I2 N2 A2]. split; [done|by etrans|]. by rewrite <- Ha.
Qed.

Lemma withNodes_inv s s' :
  Inv s → s' = withNodes (nodes s') (activeNodeIDs s') s → nodesOK (nodes s') (activeNodeIDs s') →
  Inv s'.
Proof.
  intros [H1 H2 H3] -> HN. split; [exact H1|exact HN|exact H3].
Qed.

(** A restarted Agent: its reservations and its running Peers are gone. *)
Lemma forget_spec now id s :
  Inv s →
  let s' := forgetInstance now id s in
  Inv s' ∧ evolves (nodes s) (nodes s') ∧ agents s' = agents s ∧
  (∀ k, reservations s' !! k = if bool_decide (reservations s !! k = Some id) then None
                               else reservations s !! k) ∧
  (∀ k, nodes s' !! k = updated (restartUpdate now id) k <$> nodes s !! k) ∧
  timeAt (agentSnapshots s') id = 0.
Proof.
  intros HI s'. subst s'. unfold forgetInstance.
  set (s1 := withTimes _ _ _ s). assert (Inv s1) as HI1 by by apply inv_times.
  destruct (dropReservations_frame id s1) as (Ha & Hn & Hx & Hsn & Hd).
  set (s2 := dropReservations id s1) in *.
  assert (Inv s2) as HI2.
  { destruct HI1 as [[HA HR] H2 H3]. split; [split| |].
    - intros i a. rewrite Ha. intros Hi. destruct (HA i a Hi) as (? & ? & Hc & ?).
      split_and!; [done..| |done].
      enough (reservedCount (reservations s2) i ≤ reservedCount (reservations s1) i)%nat by lia.
      destruct (decide (i = id)) as [->|Hne].
      + rewrite (reservedCount_zero (reservations s2)); [lia|]. intros k v Hk ->.
        unfold s2 in Hk. rewrite dropReservations_lookup in Hk. by case_bool_decide.
      + apply Nat.eq_le_incl. unfold reservedCount.
        assert (filter (λ kv, kv.2 = i) (map_to_list (reservations s2)) ≡ₚ
                filter (λ kv, kv.2 = i) (map_to_list (reservations s1))) as Hp; [|by rewrite Hp].
        apply NoDup_Permutation; [apply list.NoDup_filter, NoDup_map_to_list..|].
        intros [k v]. rewrite !list_elem_of_filter, !elem_of_map_to_list. cbn.
        unfold s2. rewrite dropReservations_lookup. case_bool_decide; [|done]. naive_solver.
    - intros k i Hk. rewrite Ha. unfold s2 in Hk. rewrite dropReservations_lookup in Hk.
      case_bool_decide; [done|]. eauto.
    - rewrite Hn, Hx. exact H2.
    - rewrite Ha, Hd. exact H3. }
  destruct (failNodes_spec now id s2 (inv_nodes _ HI2)) as (Hf & HN & Hlk & Hev).
  set (s3 := failNodes now id s2) in *.
  assert (Inv s3) as HI3 by by eapply withNodes_inv.
  split_and!.
  - by apply inv_times.
  - cbn. rewrite Hn in Hev. exact Hev.
  - cbn. rewrite Hf. cbn. by rewrite Ha.
  - intros k. cbn. rewrite Hf. cbn. unfold s2. by rewrite dropReservations_lookup.
  - intros k. cbn. rewrite Hlk, Hn. done.
  - cbn. unfold timeAt. by rewrite lookup_delete_eq.
Qed.

Lemma countReservations_none s id active :
  reservedCount (reservations s) id = 0%nat → countReservations s id active = active.
Proof.
  unfold countReservations, reservedCount. revert active.
  induction (map_to_list (reservations s)) as [|kv l IH]; intros active H; [done|].
  rewrite filter_cons in H. cbn [foldl]. case_decide; [done|].
  rewrite bool_decide_false by done. by apply IH.
Qed.

Lemma firstNonEmpty_ne a b : b ≠ ""%string → firstNonEmpty a b ≠ ""%string.
Proof. unfold firstNonEmpty, empty. by case_bool_decide. Qed.

Lemma TrimSpace_empty : TrimSpace "" = ""%string.
Proof. vm_compute. reflexivity. Qed.

Lemma registerAgent_advance now text a s :
  Inv s → Agent.ActiveNodes a ≤ MaxInt64 → advance s (registerAgent now text a s).2.
Proof.
  intros HI Hmax. unfold registerAgent.
  destruct (agentSettingsErr s); [by apply advance_refl|].
  destruct (empty (TrimSpace (Agent.ID a)) || _) eqn:Hid; [by apply advance_refl|].
  assert (Agent.ID a ≠ ""%string) as Hne.
  { apply orb_false_iff in Hid as [Hid _]. unfold empty in Hid. bool_props.
    intros He. rewrite He, TrimSpace_empty in Hid. done. }
  clear Hid. set (id := Agent.ID a) in *. set (previous := agents s !! id).
  set (rs := restarted previous a). destruct (rs && _); [by apply advance_refl|].
  set (s1 := if rs then forgetInstance now id s else s).
  assert (Inv s1 ∧ evolves (nodes s) (nodes s1) ∧ agents s1 = agents s) as (HI1 & Hn1 & Ha1).
  { subst s1. destruct rs; [|by split_and!]. destruct (forget_spec now id s HI) as (? & ? & ? & _).
    by split_and!. }
  assert (rs = true → reservedCount (reservations s1) id = 0%nat) as Hrs.
  { intros Ht. subst s1. rewrite Ht. apply reservedCount_zero. intros k v Hk ->.
    destruct (forget_spec now id s HI) as (_ & _ & _ & HR & _). rewrite HR in Hk.
    by case_bool_decide. }
  destruct (match previous with Some p => _ | None => _ end) as [metricsURL active] eqn:Hact.
  assert (Z.of_nat (reservedCount (reservations s1) id) ≤ Z.max 0 active ≤ MaxInt64) as Hc.
  { assert (0 ≤ MaxInt64) by (unfold MaxInt64; lia).
    unfold previous in Hact. destruct (agents s !! id) as [p|] eqn:Hp.
    - rewrite <- Ha1 in Hp. destruct (inv_agent s1 id p HI1 Hp) as (_ & _ & Hc & _).
      destruct rs; simplify_eq; [rewrite (Hrs eq_refl); lia|lia].
    - assert (reservedCount (reservations s1) id = 0%nat) as H0.
      { apply reservedCount_zero. intros k v Hk ->.
        destruct (proj2 (inv_places _ HI1) k id Hk) as [b Hb]. by rewrite Ha1, Hp in Hb. }
      rewrite (countReservations_none s1 id) in Hact by done. simplify_eq. rewrite H0. lia. }
  clear Hact. set (startedAt := if IsZero _ then now else _). clearbody startedAt.
  set (s2 := if _ && _ then setSnapshot _ _ s1 else s1).
  assert (Inv s2 ∧ nodes s2 = nodes s1 ∧ agents s2 = agents s1 ∧ reservations s2 = reservations s1)
    as (HI2 & Hn2 & Ha2 & HR2).
  { subst s2. destruct (_ && _); [|done]. by split_and!; [apply inv_times|..]. }
  set (resources := match previous with Some _ => _ | None => _ end). clearbody resources.
  set (a' := Agent.setReport _ _ _ _ _ a).
  pose proof (observe_advance text a' s2 HI2 Hne ltac:(cbn; fold id; by rewrite HR2)) as Hadv.
  destruct (observeAgentCapacityLocked text a' s2) as [b s3] eqn:Ho. cbn [fst snd] in *.
  eapply advance_frame; [exact HI2|by rewrite Hn2|by rewrite Ha2|exact Hadv].
Qed.

(** *** The loop over the reported Peers *)
Lemma mergedNode_spec now id s n :
  nodesOK (nodes s) (activeNodeIDs s) →
  Node.ID (mergedNode now id s n) = Node.ID n ∧
  ∀ o, nodes s !! Node.ID n = Some o → lifecycle o (mergedNode now id s n).
Proof.
  intros [Hid _]. unfold mergedNode. destruct (nodes s !! Node.ID n) as [o|] eqn:Ho.
  - split; [|by intros ? [= <-]; apply mergeNode_lifecycle].
    pose proof (Hid _ _ Ho) as Hoid. unfold mergeNode.
    repeat match goal with |- context [if ?b then _ else _] => destruct b end; done.
  - split; [done|]. intros ?. done.
Qed.

Lemma setNode_evolves n s :
  (∀ o, nodes s !! Node.ID n = Some o → lifecycle o n) →
  evolves (nodes s) (nodes (setNodeLocked n s)).
Proof. intros H. by apply evolves_insert. Qed.

Lemma size_insert_le {A} (m : gmap string A) k x : (size (<[k := x]> m) ≤ S (size m))%nat.
Proof. rewrite map_size_insert. destruct (m !! k); cbn; lia. Qed.

(** The state of the loop after [done] Peers, from [s0]. *)
Definition reporting (s0 : state) (id : string) (n : nat) (acc : state * tally) : Prop :=
  let '(s, t) := acc in
  Inv s ∧ agents s = agents s0 ∧ evolves (nodes s0) (nodes s) ∧
  0 ≤ releasedReservations t ∧
  releasedReservations t + Z.of_nat (reservedCount (reservations s) id) =
    Z.of_nat (reservedCount (reservations s0) id) ∧
  0 ≤ observedActive t ≤ Z.of_nat n ∧ (size (nodes s) ≤ size (nodes s0) + n)%nat ∧
  agentReportedCapacities s = agentReportedCapacities s0 ∧
  (∀ k, reservations s !! k = None ∨ reservations s !! k = reservations s0 !! k).

Lemma reportNode_step now reportedAt id s0 n node acc :
  is_Some (agents s0 !! id) → Z.of_nat (reservedCount (reservations s0) id) ≤ MaxInt64 →
  Z.of_nat (S n) ≤ MaxInt64 → reporting s0 id n acc → reporting s0 id (S n) (reportNode now reportedAt id acc node).
Proof.
  intros [a0 Ha0] Hc0 Hmax. destruct acc as [s t].
  intros (HI & Hag & Hev & Hr0 & Hrc & Hob & Hsz & Hrep & Hres). unfold reportNode.
  set (s1 := setReportTime _ _ s). assert (Inv s1) as HI1 by by apply inv_times.
  destruct (mergedNode_spec now id s1 node (inv_nodes _ HI1)) as [Hid Hlc].
  set (m := mergedNode now id s1 node) in *. clearbody m.
  pose proof (inv_node m s1 HI1) as HI2. set (s2 := setNodeLocked m s1) in *.
  assert (reservations s2 = reservations s) as HR2 by done.
  rewrite <- Hag in Ha0. destruct (inv_agent s id a0 HI Ha0) as (_ & Hne & Hc & _).
  assert (evolves (nodes s0) (nodes s2)) as Hev2.
  { etrans; [exact Hev|]. apply (setNode_evolves m s1). intros o Ho. apply Hlc. by rewrite <- Hid. }
  assert (size (nodes s2) ≤ size (nodes s0) + S n)%nat as Hsz2.
  { change (nodes s2) with (<[Node.ID m := m]> (nodes s)).
    etrans; [apply size_insert_le|]. clear -Hsz. lia. }
  assert (0 ≤ (if isActive m then i64 (observedActive t + 1) else observedActive t) ≤ Z.of_nat (S n))
    as Hob2.
  { destruct (isActive m); [|lia]. unfold MaxInt64 in *. rewrite i64_id; lia. }
  destruct (bool_decide_reflect (textAt (reservations s2) (Node.ID m) = id)) as [Hh|Hh];
    unfold reporting; cbn [releasedReservations observedActive].
  - assert (reservations s !! Node.ID m = Some id) as Hk.
    { rewrite HR2 in Hh. unfold textAt in Hh. by destruct (reservations s !! _); simplify_eq/=. }
    pose proof (reservedCount_delete (reservations s) (Node.ID m) id id Hk) as Hd.
    rewrite bool_decide_true in Hd by done.
    split_and!; [by apply inv_dropReservation|done|done|..].
    + unfold MaxInt64 in *. rewrite i64_id; lia.
    + cbn. unfold MaxInt64 in *. rewrite i64_id; lia.
    + lia.
    + lia.
    + done.
    + done.
    + intros k. cbn. destruct (decide (k = Node.ID m)) as [->|Hkm];
        [left; apply lookup_delete_eq|]. rewrite lookup_delete_ne by done. apply Hres.
  - split_and!; try done; lia.
Qed.

Lemma report_loop now reportedAt id s0 l n acc :
  is_Some (agents s0 !! id) → Z.of_nat (reservedCount (reservations s0) id) ≤ MaxInt64 →
  Z.of_nat (n + length l) ≤ MaxInt64 → reporting s0 id n acc →
  reporting s0 id (n + length l) (foldl (reportNode now reportedAt id) acc l).
Proof.
  intros Ha Hc0. revert n acc. induction l as [|x l IH]; intros n acc Hmax Hacc; cbn [foldl length] in *.
  - by rewrite Nat.add_0_r.
  - replace (n + S (length l))%nat with (S n + length l)%nat by lia.
    apply IH; [lia|]. apply reportNode_step; [done|done|lia|done].
Qed.

(** *** The recount of a partial report *)
Lemma length_omap_le {A B} (f : A → option B) l : (length (omap f l) ≤ length l)%nat.
Proof. induction l as [|x l IH]; [done|]. cbn. destruct (f x); cbn; lia. Qed.

Lemma activeNodes_length s :
  nodesOK (nodes s) (activeNodeIDs s) → (length (activeNodesLocked s) ≤ size (nodes s))%nat.
Proof.
  intros [_ Hix]. unfold activeNodesLocked. destruct (activeNodeIDs s) as [ids|].
  - etrans; [apply list.length_filter|]. etrans; [apply length_omap_le|].
    rewrite (Hix ids eq_refl). unfold liveIDs.
    change (size (dom (filter (λ kn, nodeHasLiveState kn.2 = true) (nodes s))) ≤ size (nodes s))%nat.
    rewrite size_dom. apply map_size_filter.
  - etrans; [apply list.length_filter|]. by rewrite length_fmap, length_map_to_list.
Qed.

Lemma count_bounded {A} (f : A → bool) l z :
  0 ≤ z → z + Z.of_nat (length l) ≤ MaxInt64 →
  0 ≤ foldl (λ z x, if f x then i64 (z + 1) else z) z l ≤ z + Z.of_nat (length l).
Proof.
  revert z. induction l as [|x l IH]; intros z H0 Hmax; cbn [foldl length] in *; [lia|].
  destruct (f x).
  - unfold MaxInt64 in *. rewrite i64_id by lia. specialize (IH (z + 1)). lia.
  - specialize (IH z). lia.
Qed.

(** What a report may claim without the sum of an occupancy leaving [int]. *)
Definition beatFits (s : state) (h : AgentHeartbeat.t) : Prop :=
  Z.max 0 (Agent.ActiveNodes (AgentHeartbeat.agent h)) +
  Z.of_nat (size (nodes s) + length (AgentHeartbeat.nodes h) +
            reservedCount (reservations s) (Agent.ID (AgentHeartbeat.agent h))) ≤ MaxInt64.

Lemma countReservations_bounds s id active m :
  0 ≤ active ≤ m → m + Z.of_nat (reservedCount (reservations s) id) ≤ MaxInt64 →
  Z.of_nat (reservedCount (reservations s) id) ≤ countReservations s id active ≤ MaxInt64.
Proof. intros Ha Hm. rewrite countReservations_spec; lia. Qed.

Lemma reporting_start s id : Inv s → reporting s id 0 (s, mkTally 0 0 []).
Proof. intros HI. unfold reporting. split_and!; try done; cbn; try lia. by right. Qed.

(** The record stored at the end of a heartbeat. *)
Lemma finish_stale s s3 id previous z :
  Inv s3 → evolves (nodes s) (nodes s3) → agents s3 = agents s → agents s !! id = Some previous →
  Z.of_nat (reservedCount (reservations s3) id) ≤ z ≤ MaxInt64 →
  advance s (setAgent id (Agent.setActiveNodes z previous) s3).
Proof.
  intros HI Hev Ha Hid Hz. rewrite <- Ha in Hid.
  destruct (inv_agent s3 id previous HI Hid) as (Hpid & Hne & _ & Hs).
  eapply (advance_frame s s3); [done..|].
  eapply advance_agent; [|done|done|exact Hid|done]. rewrite <- Hpid.
  apply (inv_setAgent (Agent.setActiveNodes z previous)); [done|by cbn; rewrite Hpid| |exact Hs].
  cbn. by rewrite Hpid.
Qed.

Lemma heartbeat_advance now text h s :
  Inv s → beatFits s h → advance s (heartbeat now text h s).2.
Proof.
  intros HI Hfit. unfold heartbeat. set (a := AgentHeartbeat.agent h) in *.
  set (id := Agent.ID a) in *. destruct (empty id); [by apply advance_refl|].
  destruct (agents s !! id) as [previous|] eqn:Hp; [|by apply advance_refl].
  destruct (negb _ && negb (_ =? _)); [by apply advance_refl|].
  destruct (inv_agent s id previous HI Hp) as (_ & Hne & Hc & _).
  set (stale := _ && (Agent.LastSeen a <? _)). destruct (negb (AgentHeartbeat.Partial h) && _ && _);
    [by apply advance_refl|].
  destruct (checkNodes s id ∅ _) as [seen|e|]; [|by apply advance_refl..].
  set (reported := if stale then filter _ _ else _).
  assert (length reported ≤ length (AgentHeartbeat.nodes h))%nat as Hlen.
  { subst reported. destruct stale; [apply list.length_filter|done]. }
  clearbody reported.
  set (s1 := if _ && _ then setSnapshot _ _ s else s).
  assert (Inv s1 ∧ nodes s1 = nodes s ∧ agents s1 = agents s ∧ reservations s1 = reservations s)
    as (HI1 & Hn1 & Ha1 & HR1).
  { subst s1. destruct (negb stale && _); [|done]. by split_and!; [apply inv_times|..]. }
  clearbody s1. set (a1 := completeReport s1 previous a _ now).
  assert (Agent.ID a1 = id ∧ Agent.ActiveNodes a1 = Agent.ActiveNodes a) as [Hid1 Hact1] by done.
  clearbody a1. unfold beatFits in Hfit. fold a id in Hfit. rewrite <- Hn1, <- HR1 in Hfit.
  rewrite <- HR1 in Hc.
  pose proof (report_loop now (Agent.LastSeen a) id s1 reported 0 (s1, mkTally 0 0 [])
                ltac:(rewrite Ha1; eauto) ltac:(lia) ltac:(lia) (reporting_start s1 id HI1)) as Hloop.
  destruct (foldl _ _ reported) as [s2 t]. cbn [Nat.add] in Hloop.
  destruct Hloop as (HI2 & Ha2 & Hev2 & Hr0 & Hrc & Hob & Hsz & Hrep & Hres).
  set (observed := if AgentHeartbeat.Partial h then recountActive id s2 else observedActive t).
  assert (0 ≤ observed ≤ Z.of_nat (size (nodes s1) + length reported)) as Hobs.
  { subst observed. destruct (AgentHeartbeat.Partial h); [|lia].
    pose proof (activeNodes_length s2 (inv_nodes _ HI2)). unfold recountActive.
    pose proof (count_bounded (λ n, bool_decide (Node.AgentID n = id) &&
      negb (bool_decide (textAt (reservations s2) (Node.ID n) = id)) && isActive n)
      (activeNodesLocked s2) 0) as Hcb. lia. }
  clearbody observed.
  pose proof (countReservations_bounds s2 id (Z.max (Z.max 0 (Agent.ActiveNodes a1)) observed)
    (Z.max 0 (Agent.ActiveNodes a) + Z.of_nat (size (nodes s1) + length reported))
    ltac:(lia) ltac:(lia)) as Hcount.
  set (s3 := if AgentHeartbeat.Partial h then s2 else stopUnseen now id seen s2).
  assert (Inv s3 ∧ evolves (nodes s2) (nodes s3) ∧ agents s3 = agents s2 ∧
          reservations s3 = reservations s2) as (HI3 & Hev3 & Ha3 & HR3).
  { subst s3. destruct (AgentHeartbeat.Partial h); [done|].
    destruct (stopUnseen_spec now id seen s2 (inv_nodes _ HI2)) as (Hf & HN & _ & Hev).
    split_and!; [by eapply withNodes_inv|done|by rewrite Hf|by rewrite Hf]. }
  clearbody s3. assert (evolves (nodes s) (nodes s3)) as Hev by (rewrite <- Hn1; by etrans).
  destruct stale; cbn [snd].
  - eapply finish_stale; [done|done|by rewrite Ha3, Ha2|done|]. rewrite HR3.
    unfold MaxInt64 in *. rewrite i64_id; lia.
  - set (b := Agent.setActiveNodes _ a1).
    pose proof (observe_advance text b s3 HI3 ltac:(cbn; by rewrite Hid1)
                  ltac:(cbn; by rewrite HR3, Hid1)) as Hadv.
    destruct (observeAgentCapacityLocked text b s3) as [c s4]. cbn [fst snd] in *.
    eapply (advance_frame s s3); [done|done|by rewrite Ha3, Ha2|].
    change (Agent.ID b) with (Agent.ID a1) in Hadv. by rewrite Hid1 in Hadv.
Qed.

(** ** The other operations *)
Lemma release_advance k s : Inv s → advance s (releaseReservation k s).
Proof.
  intros HI. unfold releaseReservation, textAt. cbv zeta.
  destruct (reservations s !! k) as [ag|] eqn:Hk; cbn [default from_option id].
  - destruct (proj2 (inv_places _ HI) k ag Hk) as [a Ha]. cbn [withReservations agents]. rewrite Ha.
    destruct (inv_agent s ag a HI Ha) as (Hid & Hne & Hc & Hs).
    destruct (Z.ltb_spec 0 (Agent.ActiveNodes a)); [|by apply advance_same; [apply inv_dropReservation|..]].
    eapply advance_agent; [|done|done|exact Ha|done].
    eapply inv_giveBack; [done|exact Hk|exact Ha|]. unfold MaxInt64 in *. rewrite i64_id; lia.
  - cbn [withReservations agents]. destruct (agents s !! ""%string) as [a|] eqn:Ha.
    + by destruct (inv_agent s _ a HI Ha) as (_ & Hne & _).
    + by apply advance_same; [apply inv_dropReservation|..].
Qed.

Lemma expire_advance now maxAge s : Inv s → advance s (markStaleAgents now maxAge s).
Proof.
  intros [[HA HR] H2 H3]. unfold markStaleAgents. set (f := λ a : Agent.t, _).
  assert (∀ a, Agent.ID (f a) = Agent.ID a ∧ Agent.ActiveNodes (f a) = Agent.ActiveNodes a ∧
               Agent.Capacity (f a) = Agent.Capacity a ∧ (settled s a → settled s (f a))) as Hf.
  { intros a. unfold f. by destruct (_ && _). }
  split; [split; [split| |]| |]; cbn.
  - intros id a. rewrite lookup_fmap_Some. intros (b & <- & Hb).
    destruct (Hf b) as (-> & -> & _). by apply HA.
  - intros k id Hk. destruct (HR k id Hk) as [a Ha]. rewrite lookup_fmap, Ha. eauto.
  - done.
  - intros id a. rewrite lookup_fmap_Some. intros (b & <- & Hb). apply Hf. eapply H3, Hb.
  - reflexivity.
  - intros id a Ha. exists (f a). rewrite lookup_fmap, Ha. split; [done|].
    intros _ _. destruct (Hf a) as (_ & _ & -> & _). lia.
Qed.

Lemma advance_node n s :
  Inv s → (∀ o, nodes s !! Node.ID n = Some o → lifecycle o n) → advance s (setNodeLocked n s).
Proof.
  intros HI Hl. split; [by apply inv_node|by apply setNode_evolves|apply agentsAdvance_refl].
Qed.

Lemma created_advance `{PeerCodec} encodeTopics now r id n expected s :
  Inv s → advance s (recordCreatedNode encodeTopics now r id n expected s).2.
Proof.
  intros HI. unfold recordCreatedNode. set (m := filledNode _ _ _ _ _).
  destruct (match expected with Some _ => _ | None => _ end); [by apply advance_refl|]. cbn [snd].
  destruct (nodes s !! Node.ID m) as [c|] eqn:Hc.
  - destruct (isActive c) eqn:Hac; rewrite ?andb_false_r, ?andb_false_l; [|by apply advance_refl].
    destruct (_ && _); [|by apply advance_refl].
    apply advance_node; [done|]. intros o Ho. simplify_eq. by apply active_lifecycle.
  - apply advance_node; [done|]. intros o Ho. simplify_eq.
Qed.

Lemma stopping_advance now k s :
  Inv s → advance s (markNodeStoppingAndReleaseCapacity now k s).
Proof.
  intros HI. unfold markNodeStoppingAndReleaseCapacity.
  set (s1 := match nodes s !! k with Some _ => _ | None => _ end).
  assert (advance s s1) as H1.
  { subst s1. destruct (nodes s !! k) as [n|] eqn:Hn; [|by apply advance_refl].
    destruct (isActive n) eqn:Ha; [|by apply advance_refl].
    apply advance_node; [done|]. cbn. intros o Ho.
    rewrite (proj1 (inv_nodes _ HI) k n Hn) in Ho. simplify_eq. by apply active_lifecycle. }
  destruct H1 as [I1 N1 A1]. split; [by apply inv_dropReservation|done|done].
Qed.

Lemma retain_advance r id s : Inv s → advance s (retainUncertainCreate r id s).
Proof.
  intros HI. unfold retainUncertainCreate. destruct (negb _); [by apply advance_refl|].
  by apply advance_same; [apply inv_uncertain|..].
Qed.

Lemma releasePending_step run g cleaned s kv :
  ""%string ∉ cleaned → Inv s →
  let s' := releasePending run g cleaned s kv in
  Inv s' ∧ nodes s' = nodes s ∧
  (∀ i a', agents s' !! i = Some a' → ∃ a, agents s !! i = Some a ∧ Agent.Capacity a' = Agent.Capacity a) ∧
  (∀ i, is_Some (agents s !! i) → is_Some (agents s' !! i)).
Proof.
  intros Hne HI. destruct kv as [k u]. unfold releasePending.
  destruct (negb (bool_decide (runID u = run)) || _); [split_and!; eauto|]. cbn [orb].
  destruct (bool_decide_reflect (agentID u ∈ cleaned)) as [Hin|]; [|split_and!; eauto]. cbn [negb].
  destruct (bool_decide_reflect (textAt (reservations s) k = agentID u)) as [Hk|];
    [|split_and!; [by apply inv_uncertain|eauto..]].
  assert (reservations s !! k = Some (agentID u)) as HR.
  { unfold textAt in Hk. destruct (reservations s !! k); cbn in Hk; [congruence|].
    rewrite <- Hk in Hin. done. }
  destruct (proj2 (inv_places _ HI) k _ HR) as [a Ha].
  destruct (inv_agent s _ a HI Ha) as (Hid & _ & Hc & _).
  unfold agentAt. rewrite Ha. cbn [default from_option id].
  split_and!.
  - apply inv_uncertain. eapply inv_giveBack; [done|exact HR|exact Ha|].
    apply decrement_bounds. lia.
  - done.
  - cbn. intros i a' [[<- <-]|[_ Hi]]%lookup_insert_Some; eauto.
  - cbn. intros i Hi. destruct (decide (agentID u = i)) as [<-|Hd];
      [rewrite lookup_insert_eq; eauto|by rewrite lookup_insert_ne].
Qed.

Lemma releaseUncertain_advance run g cleaned s :
  ""%string ∉ cleaned → Inv s → advance s (releaseUncertainCreates run g cleaned s).
Proof.
  intros Hne HI. unfold releaseUncertainCreates.
  enough (∀ l, let s' := foldl (releasePending run g cleaned) s l in
    Inv s' ∧ nodes s' = nodes s ∧
    (∀ i a', agents s' !! i = Some a' → ∃ a, agents s !! i = Some a ∧ Agent.Capacity a' = Agent.Capacity a) ∧
    (∀ i, is_Some (agents s !! i) → is_Some (agents s' !! i))) as Hgen.
  { destruct (Hgen (map_to_list (uncertainCreates s))) as (I1 & N1 & A1 & D1).
    split; [done|rewrite N1; reflexivity|]. intros i a Ha.
    destruct (D1 i ltac:(eauto)) as [a' Ha']. exists a'. split; [done|].
    destruct (A1 i a' Ha') as (b & Hb & Hcap). simplify_eq. intros _ _. lia. }
  intros l. induction l as [|kv l IH] using rev_ind; [split_and!; eauto|].
  cbv zeta in *. rewrite foldl_snoc. destruct IH as (I1 & N1 & A1 & D1).
  destruct (releasePending_step run g cleaned _ kv Hne I1) as (I2 & N2 & A2 & D2).
  split_and!; [done|by rewrite N2|..|eauto].
  intros i a' Ha'. destruct (A2 i a' Ha') as (b & Hb & ->). eauto.
Qed.

Lemma defer_advance now a after s : Inv s → advance s (deferAgentAdmission now a after s).
Proof.
  intros HI. unfold deferAgentAdmission. destruct (agents s !! _); [|by apply advance_refl].
  destruct (_ =? _); [|by apply advance_refl]. destruct (_ <? _); [|by apply advance_refl].
  by apply advance_same; [apply inv_times|..].
Qed.

Lemma setCapacity_advance save text id capacity s :
  Inv s → advance s (setAgentCapacity save text id capacity s).2.
Proof.
  intros HI. unfold setAgentCapacity. destruct (notPositiveInt capacity); [by apply advance_refl|].
  destruct (agentSettingsErr s); [by apply advance_refl|].
  destruct (agents s !! id) as [a|] eqn:Ha; [|by apply advance_refl].
  destruct (_ <=? 0); [by apply advance_refl|]. destruct save; [by apply advance_refl|]. cbn [snd].
  destruct (inv_agent s id a HI Ha) as (Hid & Hne & Hc & _).
  set (s1 := withSettings _ _ _ s). set (b := applyAgentCapacityLocked a s1).
  assert (Agent.ID b = id) as Hb by (unfold b; by rewrite applyCapacity_ID).
  destruct HI as [H1 H2 H3]. split; [split| |].
  - cbn. rewrite <- Hb. apply places_update; [done|by rewrite Hb|].
    unfold b. by rewrite applyCapacity_active, applyCapacity_ID, Hid.
  - done.
  - cbn. intros i c [[<- <-]|[Hd Hi]]%lookup_insert_Some.
    { eapply settled_frame; [apply (applyCapacity_settled s1 a)|done..]. }
    destruct (places_agent _ _ _ _ H1 Hi) as (Hci & _).
    eapply settled_frame; [by eapply H3|done..| |done|]; cbn; unfold intAt, textAt; rewrite Hci.
    + destruct capacity; [by rewrite lookup_insert_ne|by rewrite lookup_delete_ne].
    + by rewrite lookup_insert_ne.
  - reflexivity.
  - cbn. apply agentsAdvance_insert. intros c Hci. assert (c = a) as -> by congruence.
    pose proof (applyCapacity_capped s1 a) as Hcap. unfold agentAt in Hcap. cbn in Hcap.
    by rewrite Hid, Ha in Hcap.
Qed.

(** Every stored record keeps everything but its availability. *)
Lemma advance_disabled s s' (d : string → Agent.t → bool) :
  Inv s → nodes s' = nodes s → activeNodeIDs s' = activeNodeIDs s →
  reservations s' = reservations s →
  agentCapacityOverrides s' = agentCapacityOverrides s →
  agentReportedCapacities s' = agentReportedCapacities s →
  agentCapacityRevisions s' = agentCapacityRevisions s →
  (∀ id, agents s' !! id = (λ a, Agent.setDisabled (d id a) a) <$> agents s !! id) →
  (∀ id a, agents s !! id = Some a → d id a = isDisabled s' a) →
  advance s s'.
Proof.
  intros [[HA HR] H2 H3] Hn Hi Hr Ho Hrep Hrev Ha Hd. split; [split; [split| |]| |].
  - intros id a. rewrite Ha, fmap_Some, Hr. intros (b & Hb & ->). exact (HA id b Hb).
  - intros k id. rewrite Hr, Ha. intros Hk. destruct (HR k id Hk) as [a ->]. eauto.
  - by rewrite Hn, Hi.
  - intros id a. rewrite Ha, fmap_Some. intros (b & Hb & ->).
    destruct (H3 id b Hb) as (_ & Hs2 & Hs3). unfold settled, acknowledged, desiredCapacity in *. cbn.
    rewrite Ho, Hrep, Hrev. split; [|done]. rewrite (Hd id b Hb). done.
  - rewrite Hn. reflexivity.
  - intros id a Hid. exists (Agent.setDisabled (d id a) a). rewrite Ha, Hid. split; [done|].
    intros _ _. cbn. lia.
Qed.

Lemma setEnabled_advance save id enabled s :
  Inv s → advance s (setAgentEnabled save id enabled s).2.
Proof.
  intros HI. unfold setAgentEnabled.
  destruct (agentAvailabilityErr s) eqn:Herr; [by apply advance_refl|].
  destruct (agents s !! id) as [a|] eqn:Ha; [|by apply advance_refl].
  destruct (Bool.eqb _ _) eqn:Hsame; [by apply advance_refl|].
  destruct save; [by apply advance_refl|]. cbn [snd].
  set (disabled := if enabled then _ else _).
  assert (∀ i, flagAt disabled i = if bool_decide (i = id) then negb enabled
                                   else flagAt (agentDisabled s) i) as Hflag.
  { intros i. subst disabled. unfold flagAt. case_bool_decide as Hi.
    - subst i. destruct enabled; [by rewrite lookup_delete_eq|by rewrite lookup_insert_eq].
    - destruct enabled; [by rewrite lookup_delete_ne|by rewrite lookup_insert_ne]. }
  clearbody disabled.
  eapply (advance_disabled _ _ (λ i b, if bool_decide (i = id)
    then negb enabled || flagAt (hostDisabled s) (agentHostNodeID b) else Agent.Disabled b));
    [done|done|done|done|done|done|done|..].
  - intros i. cbn. destruct (decide (i = id)) as [->|Hne].
    + by rewrite lookup_insert_eq, Ha, bool_decide_true by done.
    + rewrite lookup_insert_ne, bool_decide_false by done.
      destruct (agents s !! i) as [b|]; [|done]. by destruct b.
  - intros i b Hb. destruct (inv_agent s i b HI Hb) as (Hid & _ & _ & Hs & _).
    unfold isDisabled in *. cbn. rewrite Herr in *. rewrite Hid in *. rewrite Hflag.
    case_bool_decide; [|by rewrite Hs]. by rewrite orb_false_r.
Qed.

Lemma setHost_advance save nodeID disabled s :
  Inv s → advance s (setHostDisabled save nodeID disabled s).2.
Proof.
  intros HI. unfold setHostDisabled.
  destruct (agentAvailabilityErr s) eqn:Herr; [by apply advance_refl|].
  destruct (Bool.eqb _ _); [by apply advance_refl|].
  destruct (negb _); [by apply advance_refl|]. destruct save; [by apply advance_refl|]. cbn [snd].
  set (values := if disabled then _ else _). clearbody values.
  eapply (advance_disabled _ _ (λ i b, flagAt (agentDisabled s) i || flagAt values (agentHostNodeID b)));
    [done|done|done|done|done|done|done|..].
  - intros i. cbn. rewrite map_lookup_imap. by destruct (agents s !! i).
  - intros i b Hb. destruct (inv_agent s i b HI Hb) as (Hid & _).
    unfold isDisabled. cbn. rewrite Herr, Hid. by rewrite orb_false_r.
Qed.

(** ** Runs of the inventory *)
Inductive op :=
| Register (now : Time) (text : string) (a : Agent.t)
| Heartbeat (now : Time) (text : string) (h : AgentHeartbeat.t)
| Expire (now : Time) (maxAge : Z)
| Reserve (t1 t2 now : Time) (order : list string) (nodeID target : string)
    (draw : option (nat → nat))
| Release (nodeID : string)
| Created (now : Time) (r : CreateNodeRequest.t) (id : string) (n : Node.t) (expected : option Time)
| StopNode (now : Time) (nodeID : string)
| Retain (r : CreateNodeRequest.t) (id : string)
| ReleaseUncertain (run : string) (generation : Z) (cleaned : gset string)
| Defer (now : Time) (a : Agent.t) (after : Z)
| SetCapacity (save : option string) (text id : string) (capacity : option Z)
| SetEnabled (save : option string) (id : string) (enabled : bool)
| SetHost (save : option string) (nodeID : string) (disabled : bool).

Section runs.
Context `{PeerCodec} (encodeTopics : list string → string).

Definition exec (o : op) (s : state) : state :=
  match o with
  | Register now text a => (registerAgent now text a s).2
  | Heartbeat now text h => (heartbeat now text h s).2
  | Expire now maxAge => markStaleAgents now maxAge s
  | Reserve t1 t2 now order k target draw => (tryReserve t1 t2 now order k target draw s).2
  | Release k => releaseReservation k s
  | Created now r id n expected => (recordCreatedNode encodeTopics now r id n expected s).2
  | StopNode now k => markNodeStoppingAndReleaseCapacity now k s
  | Retain r id => retainUncertainCreate r id s
  | ReleaseUncertain run g cleaned => releaseUncertainCreates run g cleaned s
  | Defer now a after => deferAgentAdmission now a after s
  | SetCapacity save text id c => (setAgentCapacity save text id c s).2
  | SetEnabled save id e => (setAgentEnabled save id e s).2
  | SetHost save nodeID d => (setHostDisabled save nodeID d s).2
  end.

(** The environment: Go's map order and draws, sums that are [int]s, and a set
    of cleaned Agents of Agents' IDs. *)
Definition legal (o : op) (s : state) : Prop :=
  match o with
  | Register _ _ a => Agent.ActiveNodes a ≤ MaxInt64
  | Heartbeat _ _ h => beatFits s h
  | Reserve _ _ _ order _ _ draw => placeable order draw s
  | ReleaseUncertain _ _ cleaned => ""%string ∉ cleaned
  | _ => True
  end.

Inductive step : state → state → Prop :=
| step_op o s : legal o s → step s (exec o s).

Lemma step_advance s s' : Inv s → step s s' → advance s s'.
Proof.
  intros HI Hst. inversion Hst as [o s0 Hl]; subst. destruct o; cbn [exec legal] in *.
  - by apply registerAgent_advance.
  - by apply heartbeat_advance.
  - by apply expire_advance.
  - by apply tryReserve_advance.
  - by apply release_advance.
  - by apply created_advance.
  - by apply stopping_advance.
  - by apply retain_advance.
  - by apply releaseUncertain_advance.
  - by apply defer_advance.
  - by apply setCapacity_advance.
  - by apply setEnabled_advance.
  - by apply setHost_advance.
Qed.

(** A Controller's states: from any stored settings. *)
Definition inventoryReachable (s : state) : Prop :=
  ∃ capacities settingsErr disabled hosts availabilityErr,
    rtc step (newState capacities settingsErr disabled hosts availabilityErr) s.

Lemma steps_inv s s' : Inv s → rtc step s s' → Inv s' ∧ evolves (nodes s) (nodes s').
Proof.
  intros HI Hst. induction Hst as [s|s s1 s2 H1 _ IH]; [split; [done|reflexivity]|].
  destruct (step_advance s s1 HI H1) as [I1 N1 _]. destruct (IH I1) as [I2 N2].
  split; [done|by etrans].
Qed.

Lemma inventory_inv s : inventoryReachable s → Inv s.
Proof.
  intros (c & e & d & h & v & Hst). eapply steps_inv; [|exact Hst]. apply inv_newState.
Qed.

(** ** What the inventory promises *)

(** C25: In every state the Controller reaches by registrations, heartbeats,
    expiries, reservations, creations, deletions and settings, in any order: a
    record is stored under its ID, the index of live Peers is exact, an Agent's
    occupancy counts every reservation it holds, an Agent is disabled exactly
    when the stored settings say so, and its limit is positive and at most the
    capacity the settings want. *)
Theorem inventory_consistent s id a :
  inventoryReachable s → agents s !! id = Some a →
  Agent.ID a = id ∧
  Z.of_nat (reservedCount (reservations s) id) ≤ Agent.ActiveNodes a ∧
  Agent.Disabled a = isDisabled s a ∧
  (0 < desiredCapacity s a → 0 < Agent.Capacity a ≤ desiredCapacity s a) ∧
  ∀ n, n ∈ activeNodesLocked s ↔ nodes s !! Node.ID n = Some n ∧ nodeHasLiveState n = true.
Proof.
  intros HI%inventory_inv Ha. destruct (inv_agent s id a HI Ha) as (Hid & _ & Hc & Hd & _ & Hcap).
  split_and!; [done|lia|done| |intros n; apply activeNodesLocked_spec, HI].
  intros H0. rewrite (proj2 (Z.ltb_lt _ _) H0) in Hcap. apply Hcap.
Qed.

(** C11: However late, repeated or reordered the reports, requests and restarts
    that follow, the record of a Peer never disappears and its life never runs
    backwards: a confirmed failure is final to the last field, a stopped Peer
    stays stopped or turns out to have failed, and one that was stopping,
    stopped or failed never runs again. *)
Theorem lifecycle_never_regresses s s' id n :
  inventoryReachable s → rtc step s s' → nodes s !! id = Some n →
  ∃ n', nodes s' !! id = Some n' ∧ Node.ID n' = id ∧
    (confirmed n → n' = n) ∧
    (Node.State n = NodeStopped → Node.State n' = NodeStopped ∨ confirmed n') ∧
    (isActive n = false → isActive n' = false).
Proof.
  intros HI%inventory_inv Hst Hn. destruct (steps_inv s s' HI Hst) as [HI' Hev].
  destruct (Hev id n Hn) as (n' & Hn' & H1 & H2 & H3). exists n'.
  split_and!; [done|by eapply (inv_nodes _ HI')|done..].
Qed.


Lemma admissible_spec s now a :
  admissible s now a = true ↔
  Agent.Disabled a = false ∧ timeAt (agentAdmissionUntil s) (Agent.ID a) ≤ now ∧
  agentIsOnline a now = true ∧ (0 < Agent.Capacity a → Agent.ActiveNodes a < Agent.Capacity a).
Proof.
  unfold admissible. rewrite negb_true_iff, !orb_false_iff, andb_false_iff, negb_false_iff,
    !Z.ltb_ge, Z.leb_gt.
  split; [intros [[[? ?] ?] ?]|intros (? & ? & ? & ?)]; split_and!; try done; try lia.
Qed.

(** C18: A successful reservation is sound: the Peer's place is recorded with an
    Agent that the settings enable, that is not deferring admissions, that is
    online and the one the join is pinned to, if any; and a place newly taken
    stays within the capacity the settings want. *)
Theorem placement_sound s t1 t2 now order k target draw a s' :
  inventoryReachable s → placeable order draw s →
  tryReserve t1 t2 now order k target draw s = (Ok (a, true), s') →
  agents s' !! Agent.ID a = Some a ∧ reservations s' !! k = Some (Agent.ID a) ∧
  isDisabled s' a = false ∧ (target = ""%string ∨ Agent.ID a = target) ∧
  (s' = s ∧ timeAt (agentAdmissionUntil s) (Agent.ID a) ≤ t1 ∧ agentIsOnline a t2 = true ∨
   timeAt (agentAdmissionUntil s) (Agent.ID a) ≤ now ∧ agentIsOnline a now = true ∧
   (0 < desiredCapacity s' a → Agent.ActiveNodes a ≤ Agent.Capacity a ≤ desiredCapacity s' a)).
Proof.
  intros HI%inventory_inv HP Hrun.
  pose proof (tryReserve_cases t1 t2 now order k target draw s HI HP) as Hc.
  destruct (holds t1 k s) as [[id b]|] eqn:Hh.
  - unfold holds in Hh. destruct (reservations s !! k) as [i|] eqn:Hk; [|done].
    cbn [mbind option_bind] in Hh. destruct (agents s !! i) as [c|] eqn:Hi; [|done].
    cbn [mbind option_bind] in Hh. destruct (negb _ && _) eqn:Hok; [|done].
    injection Hh as -> ->. rewrite Hc in Hrun. injection Hrun as -> Hon ->.
    destruct (inv_agent s' id a HI Hi) as (Hid & _ & _ & Hd & _).
    apply andb_true_iff in Hon as [Hon Htgt], Hok as [Hdis Hadm].
    apply orb_true_iff in Htgt. unfold empty in Htgt. rewrite !bool_decide_eq_true in Htgt.
    apply negb_true_iff in Hdis. apply negb_true_iff, Z.ltb_ge in Hadm.
    rewrite Hid in *. split_and!; [done..|by rewrite <- Hd|tauto|]. left. split_and!; [done|lia|done].
  - destruct Hc as ([b|] & Hsel & Heq); rewrite Heq in Hrun; [|done].
    destruct (beforePlace_spec k s order draw HI HP) as (Hadv & HR & HP' & _ & Hf).
    pose proof (adv_inv _ _ Hadv) as HI1. set (s1 := beforePlace k s) in *.
    pose proof (selectAgent_elem _ _ _ _ _ _ Hsel) as Hb.
    pose proof (candidate_stored _ _ _ _ b HI1 Hb) as Hst.
    apply elem_of_candidates in Hb as (_ & Htgt & (Hdis & Hadm & Hon & Hcap)%admissible_spec).
    destruct (inv_agent s1 _ b HI1 Hst) as (_ & _ & _ & Hd & _ & Hdes).
    destruct (reserve_spec s1 k b HI1) as [_ Hres];
      [by rewrite HR, lookup_delete_eq|done|by eapply HP'|].
    assert ((reserve k b s1).1 = a ∧ (reserve k b s1).2 = s') as [Ha <-] by by injection Hrun.
    rewrite <- Ha, Hres. clear Hrun Heq Ha.
    unfold reserve in Hres. cbn [fst] in Hres. unfold reserve. rewrite Hres. cbn.
    rewrite !lookup_insert_eq. split_and!; [done|done| |done|].
    + rewrite <- Hdis, Hd. done.
    + right. split_and!; [|done|].
      * rewrite Hf in Hadm. exact Hadm.
      * intros H0. change (0 < desiredCapacity s1 b) in H0.
        rewrite (proj2 (Z.ltb_lt _ _) H0) in Hdes. destruct Hdes as [Hdes _].
        change (Agent.ActiveNodes b + 1 ≤ Agent.Capacity b ≤ desiredCapacity s1 b). lia.
Qed.

(** ** The order of the map does not matter *)
Lemma candidates_perm order order' target now s :
  order ≡ₚ order' → candidates order target now s ≡ₚ candidates order' target now s.
Proof. intros Hp. unfold candidates. by rewrite Hp. Qed.

Lemma candidates_fleet s order target now :
  Inv s → (∀ id a, agents s !! id = Some a → intCapacity a) →
  fleet (candidates order target now s).
Proof.
  intros HI Hcap. split.
  - intros a Ha. eapply Hcap. by eapply candidate_stored.
  - intros a b Ha%candidate_stored Hb%candidate_stored Hid; [|done..]. congruence.
Qed.

Lemma selectAgent_perm s order order' target draw now :
  Inv s → (∀ id a, agents s !! id = Some a → intCapacity a) → order ≡ₚ order' →
  selectAgent order target draw now s = selectAgent order' target draw now s.
Proof.
  intros HI Hcap Hp. pose proof (candidates_fleet s order target now HI Hcap) as Hfl.
  pose proof (candidates_perm order order' target now s Hp) as Hc.
  unfold selectAgent. pose proof (keepBest_perm _ _ Hfl Hc) as Hbest.
  pose proof (sort_perm _ _ Hfl Hc) as Hsort. pose proof (Permutation_length Hc) as Hlen.
  destruct (candidates order target now s) as [|x l], (candidates order' target now s) as [|y l'];
    [done..|]. by rewrite Hsort, Hlen, Hbest.
Qed.

(** Placement is a function of the inventory: Go's unspecified order of
    ranging over the Agents changes neither the Agent chosen, balanced or drawn,
    nor the state left; and without a generator the Agent chosen is before every
    other candidate. *)
Theorem placement_order_independent s t1 t2 now order order' k target draw :
  inventoryReachable s → (∀ id a, agents s !! id = Some a → intCapacity a) →
  placeable order draw s → placeable order' draw s →
  tryReserve t1 t2 now order k target draw s = tryReserve t1 t2 now order' k target draw s ∧
  (holds t1 k s = None → draw = None → ∀ a s',
   tryReserve t1 t2 now order k target draw s = (Ok (a, true), s') →
   ∃ b, a = Agent.setActiveNodes (Agent.ActiveNodes b + 1) b ∧
     best (candidates order target now (beforePlace k s)) b).
Proof.
  intros HI%inventory_inv Hcap HP HP'.
  destruct (beforePlace_spec k s order draw HI HP) as (Hadv & HR & HP1 & Hag & _).
  assert (∀ id a, agents (beforePlace k s) !! id = Some a → intCapacity a) as Hcap1.
  { intros id a Ha. destruct (Hag id a Ha) as (b & Hb & [->| ->]); exact (Hcap id b Hb). }
  pose proof (selectAgent_perm _ order order' target draw now (adv_inv _ _ Hadv) Hcap1) as Hsel.
  pose proof (tryReserve_cases t1 t2 now order k target draw s HI HP) as H1.
  pose proof (tryReserve_cases t1 t2 now order' k target draw s HI HP') as H2.
  split.
  - destruct (holds t1 k s) as [[id b]|]; [by rewrite H1, H2|].
    destruct H1 as (r & Hr & H1), H2 as (r' & Hr' & H2).
    rewrite Hsel, Hr' in Hr by (by rewrite (proj1 HP), (proj1 HP')).
    injection Hr as ->. by destruct r; rewrite H1, H2.
  - intros Hh -> a s' Hrun. rewrite Hh in H1. destruct H1 as ([b|] & Hr & H1); [|by rewrite H1 in Hrun].
    rewrite H1 in Hrun.
    assert ((reserve k b (beforePlace k s)).1 = a) as <- by by injection Hrun.
    exists b.
    pose proof (selectAgent_elem _ _ _ _ _ _ Hr) as Hb.
    pose proof (candidates_fleet _ order target now (adv_inv _ _ Hadv) Hcap1) as Hfl.
    split.
    + apply reserve_spec; [apply Hadv|by rewrite HR, lookup_delete_eq|
        by eapply candidate_stored; [apply Hadv|]|].
      eapply HP1. by eapply candidate_stored; [apply Hadv|].
    + unfold selectAgent in Hr. destruct (candidates _ _ _ _) as [|x l]; [done|].
      destruct (keepBest_spec l x Hfl) as (r & Hf & Hbest). cbn in Hr. rewrite Hf in Hr.
      by injection Hr as <-.
Qed.

(** When an Agent registers as a new instance, nothing of the old one
    remains: none of its reservations holds a place, and each of its Peers that
    was live is recorded as failed, the others unchanged. *)
Theorem restart_forgets now text a p a' s s' :
  inventoryReachable s → agents s !! Agent.ID a = Some p → restarted (Some p) a = true →
  registerAgent now text a s = (Ok a', s') →
  (∀ k, reservations s' !! k ≠ Some (Agent.ID a)) ∧
  (∀ k n, nodes s !! k = Some n → Node.AgentID n = Agent.ID a → nodeHasLiveState n = true →
     nodes s' !! k = Some (failedByRestart now n)) ∧
  (∀ k n, nodes s !! k = Some n → Node.AgentID n ≠ Agent.ID a ∨ nodeHasLiveState n = false →
     nodes s' !! k = Some n).
Proof.
  intros HI%inventory_inv Hp Hrs. unfold registerAgent.
  destruct (agentSettingsErr s); [done|]. destruct (empty _ || _); [done|]. rewrite Hp, Hrs.
  destruct (true && _); [done|]. cbv zeta.
  destruct (forget_spec now (Agent.ID a) s HI) as (_ & _ & _ & HR & Hn & _).
  set (s1 := forgetInstance now (Agent.ID a) s) in *.
  assert (∀ c : bool, reservations (if c then setSnapshot (Agent.ID a) (Agent.LastSeen a) s1 else s1)
    = reservations s1 ∧ nodes (if c then setSnapshot (Agent.ID a) (Agent.LastSeen a) s1 else s1) = nodes s1)
    as Hs1 by by intros [].
  set (c := _ && (timeAt _ _ <? _)). specialize (Hs1 c).
  set (s2 := if c then _ else s1) in *. destruct Hs1 as [HR2 Hn2].
  destruct (observeAgentCapacityLocked _ _ s2) as [b s3] eqn:Ho.
  unfold observeAgentCapacityLocked in Ho. injection Ho as _ <-. intros [= _ <-]. cbn.
  rewrite HR2, Hn2. split_and!.
  - intros k. rewrite HR. by case_bool_decide.
  - intros k n Hk Hag Hl. rewrite Hn, Hk. cbn. unfold updated, restartUpdate.
    by rewrite bool_decide_true, Hl.
  - intros k n Hk Hor. rewrite Hn, Hk. cbn. unfold updated, restartUpdate.
    destruct Hor as [Hag| ->]; [by rewrite bool_decide_false|by rewrite andb_false_r].
Qed.
End runs.

(** ** A run *)
Module InventoryExamples.
#[local] Instance codec : PeerCodec := {| peerDecode := Some; peerString s := s |}.
Definition topicsText (l : list string) : string := String.concat "," l.

Definition agent (id : string) (capacity started seen : Z) : Agent.t :=
  Agent.mk None true false None false "" true id id ("http://" +:+ id) "" id "" capacity capacity
    0 false "" 0 AgentOnline ∅ started seen.
Definition node (id state : string) (seen : Z) : Node.t :=
  Node.mk None id "run" 1 "a2" "g" "peer" "full" "" "" state [] [] [] ∅ 0 ∅ ∅ (Some ∅) 7 seen "".
Definition at_ (seconds : Z) : Time := seconds * Duration.Second.

Definition start : state := newState ∅ None ∅ ∅ None.
Definition fleetOps : list op :=
  [Register (at_ 100) "r1" (agent "a1" 2 (at_ 90) (at_ 99));
   Register (at_ 100) "r2" (agent "a2" 4 (at_ 90) (at_ 99))].
Definition order : list string := ["a1"; "a2"].
Definition place : op := Reserve (at_ 101) (at_ 101) (at_ 101) order "n1" "" None.
Definition report : op :=
  Heartbeat (at_ 102) "r3" (AgentHeartbeat.mk (agent "a2" 4 (at_ 90) (at_ 102))
    [node "n1" NodeReady (at_ 102)] false).
Definition stop : op := StopNode (at_ 103) "n1".
(** A report assembled before the deletion, delivered after it. *)
Definition late : op :=
  Heartbeat (at_ 104) "r4" (AgentHeartbeat.mk (agent "a2" 4 (at_ 90) (at_ 103))
    [node "n1" NodeReady (at_ 103)] true).

Definition play (l : list op) (s : state) : state := foldl (λ s o, exec topicsText o s) s l.

(** The conditions of [legal], decided. *)
Definition legalb (o : op) (s : state) : bool :=
  match o with
  | Register _ _ a => Agent.ActiveNodes a <=? MaxInt64
  | Heartbeat _ _ h =>
      Z.max 0 (Agent.ActiveNodes (AgentHeartbeat.agent h)) +
      Z.of_nat (size (nodes s) + length (AgentHeartbeat.nodes h) +
                reservedCount (reservations s) (Agent.ID (AgentHeartbeat.agent h))) <=? MaxInt64
  | Reserve _ _ _ order _ _ draw =>
      bool_decide (order ≡ₚ elements (dom (agents s))) && isNil draw &&
      bool_decide (map_Forall (λ _ a, Agent.ActiveNodes a < MaxInt64) (agents s))
  | ReleaseUncertain _ _ cleaned => bool_decide (""%string ∉ cleaned)
  | _ => true
  end.

Lemma legalb_legal o s : legalb o s = true → legal o s.
Proof.
  destruct o as [now text a|now text h| |t1 t2 now order k target draw| | | | |run g cleaned| | | |];
    cbn [legalb legal]; try done.
  - apply Z.leb_le.
  - apply Z.leb_le.
  - rewrite !andb_true_iff, !bool_decide_eq_true. intros [[H1 H2] H3]. split_and!; [done| |].
    + intros f n ->. done.
    + intros id a Ha. by apply (H3 id a).
  - by rewrite bool_decide_eq_true.
Qed.

Fixpoint playable (l : list op) (s : state) : bool :=
  match l with
  | [] => true
  | o :: l => legalb o s && playable l (exec topicsText o s)
  end.

Lemma play_steps l s : playable l s = true → rtc (step topicsText) s (play l s).
Proof.
  revert s. induction l as [|o l IH]; intros s H; [apply rtc_refl|]. cbn in H.
  apply andb_true_iff in H as [H1 H2]. eapply rtc_l; [|by apply IH].
  constructor. by apply legalb_legal.
Qed.

Lemma play_reachable l : playable l start = true → inventoryReachable topicsText (play l start).
Proof. intros H. exists ∅, None, ∅, ∅, None. by apply play_steps. Qed.

Lemma ops_playable :
  playable (fleetOps ++ [place; report; stop; late]) start = true ∧
  playable fleetOps start = true ∧ playable (fleetOps ++ [place; report]) start = true ∧
  playable (fleetOps ++ [place; report; stop]) start = true ∧
  playable [late] (play (fleetOps ++ [place; report; stop]) start) = true.
Proof. vm_compute. done. Qed.

Definition stored (l : list op) (id : string) : Agent.t := agentAt (play l start) id.

Lemma stored_a2 :
  agents (play (fleetOps ++ [place; report]) start) !! "a2"%string =
    Some (stored (fleetOps ++ [place; report]) "a2").
Proof. vm_compute. done. Qed.

Lemma inventory_consistent_witness :
  let s := play (fleetOps ++ [place; report]) start in
  Agent.Disabled (stored (fleetOps ++ [place; report]) "a2") =
    isDisabled s (stored (fleetOps ++ [place; report]) "a2").
Proof.
  exact (proj1 (proj2 (proj2 (inventory_consistent topicsText _ "a2" _
    (play_reachable _ (proj1 (proj2 (proj2 ops_playable)))) stored_a2)))).
Defined.

Definition stopping : Node.t :=
  default (node "" "" 0) (nodes (play (fleetOps ++ [place; report; stop]) start) !! "n1"%string).

Lemma stopping_stored :
  nodes (play (fleetOps ++ [place; report; stop]) start) !! "n1"%string = Some stopping ∧
  isActive stopping = false.
Proof. vm_compute. done. Qed.

(** The late report does not revive the Peer. *)
Lemma lifecycle_never_regresses_witness :
  ∃ n', nodes (play [late] (play (fleetOps ++ [place; report; stop]) start)) !! "n1"%string = Some n' ∧
        isActive n' = false.
Proof.
  destruct (lifecycle_never_regresses topicsText _ _ "n1" stopping
    (play_reachable _ (proj1 (proj2 (proj2 (proj2 ops_playable)))))
    (play_steps _ _ (proj2 (proj2 (proj2 (proj2 ops_playable))))) (proj1 stopping_stored))
    as (n' & Hn & _ & _ & _ & Hact).
  exists n'. split; [exact Hn|exact (Hact (proj2 stopping_stored))].
Defined.


(** Raising the capacity of [a1] to 5, and the report that acknowledges it. *)
Definition raise : op := SetCapacity None "r5" "a1" (Some 5).
Definition confirm : op :=
  Heartbeat (at_ 106) "r6"
    (AgentHeartbeat.mk
       (Agent.mk None true false None false "" true "a1" "a1" "http://a1" "" "a1" "" 5 2 0 false "r5"
          0 AgentOnline ∅ (at_ 90) (at_ 106)) [] false).




(** The report's limit really is used. *)
Example raised_limit :
  Agent.Capacity (stored (fleetOps ++ [raise]) "a1") = 2 ∧
  Agent.Capacity (stored (fleetOps ++ [raise; confirm]) "a1") = 5.
Proof. vm_compute. done. Qed.

Lemma fleet_placeable order :
  bool_decide (order ≡ₚ elements (dom (agents (play fleetOps start)))) = true →
  placeable order None (play fleetOps start).
Proof.
  intros H. apply (legalb_legal (Reserve 0 0 0 order "" "" None)). cbn [legalb]. rewrite H.
  vm_compute. done.
Qed.

Definition chosen : Agent.t :=
  match (tryReserve (at_ 101) (at_ 101) (at_ 101) order "n1" "" None (play fleetOps start)).1 with
  | Ok (a, _) => a
  | _ => Agent.zero
  end.
Definition placed : state :=
  (tryReserve (at_ 101) (at_ 101) (at_ 101) order "n1" "" None (play fleetOps start)).2.

Lemma reserve_run :
  tryReserve (at_ 101) (at_ 101) (at_ 101) order "n1" "" None (play fleetOps start) =
    (Ok (chosen, true), placed) ∧ Agent.ID chosen = "a2"%string.
Proof. vm_compute. done. Qed.

Lemma orders :
  bool_decide (order ≡ₚ elements (dom (agents (play fleetOps start)))) = true ∧
  bool_decide (reverse order ≡ₚ elements (dom (agents (play fleetOps start)))) = true.
Proof. vm_compute. done. Qed.

(** The larger Agent is less utilized with one Peer more. *)
Lemma placement_sound_witness :
  agents placed !! Agent.ID chosen = Some chosen ∧
  reservations placed !! "n1"%string = Some (Agent.ID chosen).
Proof.
  destruct (placement_sound topicsText _ _ _ _ _ _ _ _ _ _
    (play_reachable _ (proj1 (proj2 ops_playable))) (fleet_placeable _ (proj1 orders))
    (proj1 reserve_run)) as (H1 & H2 & _).
  split; [exact H1|exact H2].
Defined.

Lemma fleet_capacities id a : agents (play fleetOps start) !! id = Some a → intCapacity a.
Proof.
  intros Ha.
  assert (bool_decide (map_Forall (λ _ a, Agent.Capacity a ≤ MaxInt64) (agents (play fleetOps start)))
    = true) as H by by vm_compute.
  apply bool_decide_eq_true in H. exact (H id a Ha).
Qed.

Lemma placement_order_independent_witness :
  tryReserve (at_ 101) (at_ 101) (at_ 101) order "n1" "" None (play fleetOps start) =
  tryReserve (at_ 101) (at_ 101) (at_ 101) (reverse order) "n1" "" None (play fleetOps start).
Proof.
  exact (proj1 (placement_order_independent topicsText _ _ _ _ _ _ _ _ _
    (play_reachable _ (proj1 (proj2 ops_playable))) fleet_capacities
    (fleet_placeable _ (proj1 orders)) (fleet_placeable _ (proj2 orders)))).
Defined.

(** [a2] comes back as a new instance after its heartbeats stopped. *)
Definition again : Agent.t := agent "a2" 4 (at_ 150) (at_ 150).
Definition reborn : res Agent.t * state :=
  registerAgent (at_ 151) "r6" again (play (fleetOps ++ [place; report]) start).
Definition rebornAgent : Agent.t := match reborn.1 with Ok a => a | _ => Agent.zero end.

Lemma reborn_run :
  registerAgent (at_ 151) "r6" again (play (fleetOps ++ [place; report]) start) =
    (Ok rebornAgent, reborn.2) ∧
  restarted (Some (stored (fleetOps ++ [place; report]) "a2")) again = true.
Proof. vm_compute. done. Qed.

Lemma restart_forgets_witness : reservations reborn.2 !! "n1"%string ≠ Some "a2"%string.
Proof.
  exact (proj1 (restart_forgets topicsText _ _ again _ _ _ _
    (play_reachable _ (proj1 (proj2 (proj2 ops_playable)))) stored_a2
    (proj2 reborn_run) (proj1 reborn_run)) "n1"%string).
Defined.
End InventoryExamples.
