(* ===== verification/CreateNode.v ===== *)
(** * Creating one Peer

    A creation of [runJoin], from the reservation to the acknowledgement:
    [acquireAgentWithPlacement] ([runner.go]), [createReservedNode]
    ([agent_capacity.go]) and [createOnAgent] ([create_retry.go]), on the shared
    inventory of [Inventory].  Each use of the inventory is one step; between two
    steps other goroutines run.  What the procedure does not decide is its
    [input]: the clock, the reply to the HTTP call, the outcome of recording the
    Agent and of the profile gate, and which branch of a [select] is ready. *)
From Stdlib Require Import ZArith Lia.
From stdpp Require Import strings list gmap.
From S2P Require Import Prelude.
From S2P Require Import GoStd.
From S2P Require Import Attacks.
From S2P Require Import GossipSubConfig.
From S2P Require Import NodeConfig.
From S2P Require Import AgentModel.
From S2P Require Import Inventory.
Open Scope Z_scope.

(** ** The reply of an Agent

    What [callAgent] returns for [POST /api/v1/nodes]: the decoded record, an
    [uncertainNodeCreateError] ([transport] when [retryableCreateTransport] holds
    of it), [errAgentCapacityReached], an [agentAdmissionDeferredError], or an
    error of a request that was not admitted. *)
Inductive reply :=
| Acknowledged (n : Node.t)
| Uncertain (transport : bool)
| CapacityReached
| Deferred (after : Z)
| Refused.

(** The error of [createOnAgent], as [createReservedNode] tells them apart. *)
Inductive createErr := CanceledErr | UncertainErr | DeferredErr (after : Z) | CapacityErr | OtherErr.

Definition createAcknowledgementMatches (n : Node.t) (r : CreateNodeRequest.t) (id : string)
    (strict : bool) : bool :=
  let matches got want := bool_decide (got = want) || (negb strict && empty got) in
  matches (Node.ID n) (CreateNodeRequest.ID r) && matches (Node.RunID n) (CreateNodeRequest.RunID r) &&
  matches (Node.AgentID n) id && matches (Node.Group n) (CreateNodeRequest.Group r) &&
  ((Node.Generation n =? CreateNodeRequest.Generation r) || (negb strict && (Node.Generation n =? 0))).

(** [attempts]: an Agent that replays creations is asked again. *)
Definition attempts (a : Agent.t) : nat :=
  if Agent.CreateReplay a && negb (IsZero (Agent.StartedAt a)) then 3 else 1.

(** [profileCreateRequest] changes the configuration and the revision. *)
Definition withProfile (config : NodeConfig.t) (revision : Z) (r : CreateNodeRequest.t) :
    CreateNodeRequest.t :=
  CreateNodeRequest.mk (CreateNodeRequest.AgentStartedAt r) (CreateNodeRequest.PeerNetworkID r)
    (CreateNodeRequest.NetworkMutable r) revision (CreateNodeRequest.ExperimentStartedAt r)
    (CreateNodeRequest.ID r) (CreateNodeRequest.RunID r) (CreateNodeRequest.Generation r)
    (CreateNodeRequest.Group r) (CreateNodeRequest.Role r) (CreateNodeRequest.Type_ r)
    (CreateNodeRequest.Profile r) (CreateNodeRequest.Seed r) config (CreateNodeRequest.Lifetime r).

(** ** The procedure

    Where the goroutine is.  [Attempt a r n uncertain]: about to make the [n]-th
    call for the effective request [r]; [uncertain] is [last != nil]. *)
Inductive next := ToAcquire | ToWait | Fail (message : string).
Inductive outcome := Created | Failed (message : string) | Unconfirmed.
Inductive pc :=
| Acquire
| Check (a : Agent.t)
| Remember (a : Agent.t)
| Profile (a : Agent.t)
| Recheck (a : Agent.t) (r : CreateNodeRequest.t)
| Attempt (a : Agent.t) (r : CreateNodeRequest.t) (n : nat) (uncertain : bool)
| Backoff (a : Agent.t) (r : CreateNodeRequest.t) (n : nat)
| Record_ (a : Agent.t) (r : CreateNodeRequest.t) (n : Node.t)
| Settle (a : Agent.t) (e : createErr)
| Release_ (k : next)
| Wait
| Done (o : outcome).

(** [ctxDone]: the context has an error; [calls]: the calls made, latest last. *)
Record config := mkConfig {
  at_ : pc; inventory : state; ctxDone : bool; calls : list (Agent.t * reply) }.

Definition goto (p : pc) (c : config) : config := mkConfig p (inventory c) (ctxDone c) (calls c).
Definition withInventory (s : state) (c : config) : config :=
  mkConfig (at_ c) s (ctxDone c) (calls c).
Definition called (a : Agent.t) (r : reply) (interrupted : bool) (c : config) : config :=
  mkConfig (at_ c) (inventory c) (ctxDone c || interrupted) (calls c ++ [(a, r)]).

Record input := mkInput {
  now : Time; t1 : Time; t2 : Time; order : list string;
  remembered : bool;                       (* [rememberRunAgent] succeeded *)
  profile : option (NodeConfig.t * Z);     (* [None]: the gate or an overlay failed *)
  answer : reply;
  interrupted : bool;                      (* the context ended during the call *)
  timer : bool }.                          (* the timer fired before the context ended *)

(** [available()] *)
Definition available (now : Time) (a : Agent.t) (s : state) : bool :=
  match agents s !! Agent.ID a with
  | Some current =>
      negb (Agent.Disabled current) && agentIsOnline current now &&
      negb (now <? timeAt (agentAdmissionUntil s) (Agent.ID a)) &&
      (Agent.StartedAt current =? Agent.StartedAt a) &&
      bool_decide (Agent.URL current = Agent.URL a)
  | None => false
  end.

(** The identity check before a replay. *)
Definition sameInstance (a : Agent.t) (s : state) : bool :=
  match agents s !! Agent.ID a with
  | Some current => (Agent.StartedAt current =? Agent.StartedAt a) &&
                    bool_decide (Agent.URL current = Agent.URL a)
  | None => false
  end.

Section create.
Context `{PeerCodec} (encodeTopics : list string → string).
(** The request of the join, its pinned Agent and its generator. *)
Context (request : CreateNodeRequest.t) (targetAgentID : string) (draw : option (nat → nat)).

Definition k : string := CreateNodeRequest.ID request.

(** One round of [acquireAgentWithPlacement]. *)
Definition acquire (i : input) (c : config) : config :=
  if ctxDone c then goto (Done (Failed "context")) c
  else
    match tryReserve (t1 i) (t2 i) (now i) (order i) k targetAgentID draw (inventory c) with
    | (Ok (a, true), s) => goto (Check a) (withInventory s c)
    | (_, s) => withInventory s c
    end.

(** The error [createOnAgent] returns for a reply that is not retried. *)
Definition errorOf (uncertain : bool) (r : reply) : createErr :=
  if uncertain then UncertainErr
  else match r with
       | Uncertain _ | Acknowledged _ => UncertainErr
       | CapacityReached => CapacityErr
       | Deferred after => DeferredErr after
       | Refused => OtherErr
       end.

(** One round of the loop of [createOnAgent]. *)
Definition attempt (i : input) (a : Agent.t) (r : CreateNodeRequest.t) (n : nat)
    (uncertain : bool) (c : config) : config :=
  if ctxDone c then goto (Settle a (if uncertain then UncertainErr else CanceledErr)) c
  else if (1 <? n)%nat && negb (sameInstance a (inventory c)) then goto (Settle a UncertainErr) c
  else
    let c := called a (answer i) (interrupted i) c in
    match answer i with
    | Acknowledged node =>
        if createAcknowledgementMatches node r (Agent.ID a) (1 <? attempts a)%nat
        then goto (Record_ a r node) c
        else goto (Settle a UncertainErr) c
    | Uncertain true =>
        if (n =? attempts a)%nat || ctxDone c then goto (Settle a (errorOf uncertain (answer i))) c
        else goto (Backoff a r n) c
    | reply => goto (Settle a (errorOf uncertain reply)) c
    end.

(** After [createOnAgent] failed. *)
Definition settle (i : input) (a : Agent.t) (e : createErr) (c : config) : config :=
  match e with
  | UncertainErr =>
      goto (Done Unconfirmed)
        (withInventory (retainUncertainCreate request (Agent.ID a) (inventory c)) c)
  | DeferredErr after =>
      goto (Release_ ToAcquire)
        (withInventory (deferAgentAdmission (now i) a after (inventory c)) c)
  | CapacityErr => goto (Release_ ToWait) c
  | CanceledErr | OtherErr => goto (Release_ (Fail "create node")) c
  end.

Definition resume (n : next) : pc :=
  match n with ToAcquire => Acquire | ToWait => Wait | Fail m => Done (Failed m) end.

Definition advance (i : input) (c : config) : config :=
  match at_ c with
  | Acquire => acquire i c
  | Check a =>
      goto (if available (now i) a (inventory c) then Remember a else Release_ ToAcquire) c
  | Remember a => goto (if remembered i then Profile a else Release_ (Fail "remember")) c
  | Profile a =>
      goto (match profile i with
            | Some (config, revision) => Recheck a (withProfile config revision request)
            | None => Release_ (Fail "profile")
            end) c
  | Recheck a r =>
      goto (if available (now i) a (inventory c) then Attempt a r 1 false
            else Release_ ToAcquire) c
  | Attempt a r n uncertain => attempt i a r n uncertain c
  | Backoff a r n => goto (if timer i then Attempt a r (S n) true else Settle a UncertainErr) c
  | Record_ a r node =>
      let '(created, s) :=
        recordCreatedNode encodeTopics (now i) r (Agent.ID a) node (Some (Agent.StartedAt a))
          (inventory c) in
      goto (if created then Done Created else Release_ (Fail "changed instance"))
        (withInventory s c)
  | Settle a e => settle i a e c
  | Release_ n => goto (resume n) (withInventory (releaseReservation k (inventory c)) c)
  | Wait => goto (if timer i then Acquire else Done (Failed "context")) c
  | Done _ => c
  end.

Definition begin (s : state) : config := mkConfig Acquire s false [].
End create.
