(* ===== verification/CreateNodeProps.v ===== *)
(** * A creation places its Peer once

    [CreateNode] run among the other users of the inventory: a Peer may exist on
    at most one Agent, a call is repeated on the same instance only, and at the
    end the Peer's place is accounted for. *)
From Stdlib Require Import ZArith Lia.
From stdpp Require Import strings list gmap.
From S2P Require Import Prelude.
From S2P Require Import GoStd.
From S2P Require Import Attacks.
From S2P Require Import GossipSubConfig.
From S2P Require Import NodeConfig.
From S2P Require Import AgentModel.
From S2P Require Import Inventory.
From S2P Require Import InventoryInv.
From S2P Require Import InventoryProps.
From S2P Require Import CreateNode.
Open Scope Z_scope.

(** ** Other goroutines

    [kept k s s']: the entries of the Peer [k] are as they were, or its
    reservation is gone. *)
Definition kept (k : string) (s s' : state) : Prop :=
  (reservations s' !! k = reservations s !! k ∧ uncertainCreates s' !! k = uncertainCreates s !! k) ∨
  (reservations s' !! k = None ∧
   (uncertainCreates s' !! k = uncertainCreates s !! k ∨ uncertainCreates s' !! k = None)).

#[export] Instance kept_preorder k : PreOrder (kept k).
Proof.
  split; [intros s; by left|]. intros a b c. unfold kept.
  intros [[-> ->]|[HR HU]] [[-> ->]|[-> HU']]; try tauto. right. split; [done|].
  destruct HU as [<-|HU]; [done|]. rewrite HU in HU'. tauto.
Qed.

Lemma kept_same k s s' :
  reservations s' = reservations s → uncertainCreates s' = uncertainCreates s → kept k s s'.
Proof. intros HR HU. left. by rewrite HR, HU. Qed.

(** Removing entries of any Peer. *)
Lemma kept_deleted k k' s :
  kept k s (withReservations (delete k' (reservations s)) (delete k' (uncertainCreates s)) s).
Proof.
  unfold kept. cbn. destruct (decide (k' = k)) as [->|Hne].
  - rewrite !lookup_delete_eq. auto.
  - rewrite !lookup_delete_ne by done. auto.
Qed.

Lemma kept_release k k' s :
  kept k s (withReservations (delete k' (reservations s)) (uncertainCreates s) s).
Proof.
  unfold kept. cbn. destruct (decide (k' = k)) as [->|Hne].
  - rewrite !lookup_delete_eq. auto.
  - rewrite !lookup_delete_ne by done. auto.
Qed.

Lemma kept_fold {A} k (f : state → A → state) l s :
  (∀ s x, kept k s (f s x)) → kept k s (foldl f s l).
Proof.
  intros Hf. induction l as [|x l IH] using rev_ind; [reflexivity|].
  rewrite foldl_snoc. etrans; [exact IH|apply Hf].
Qed.

Lemma kept_setNode k n s : kept k s (setNodeLocked n s).
Proof. by apply kept_same. Qed.

Lemma kept_forget k now id s : kept k s (forgetInstance now id s).
Proof.
  unfold forgetInstance. etrans; [|by apply kept_same]. unfold failNodes, dropReservations.
  set (s1 := withTimes _ _ _ s). transitivity s1; [by apply kept_same|].
  transitivity (foldl (λ s kv, if bool_decide (kv.2 = id)
                 then withReservations (delete kv.1 (reservations s))
                        (delete kv.1 (uncertainCreates s)) s
                 else s) s1 (map_to_list (reservations s1))).
  - apply kept_fold. intros s' x. case_bool_decide; [apply kept_deleted|reflexivity].
  - apply kept_fold. intros s' x. destruct (_ && _); [apply kept_setNode|reflexivity].
Qed.

Lemma kept_report k now reportedAt id s t n :
  kept k s (reportNode now reportedAt id (s, t) n).1.
Proof.
  unfold reportNode. set (s1 := setReportTime _ _ s). set (m := mergedNode _ _ _ _).
  transitivity (setNodeLocked m s1); [by apply kept_same|].
  case_bool_decide; [apply kept_deleted|reflexivity].
Qed.

Lemma kept_reports k now reportedAt id l s t :
  kept k s (foldl (reportNode now reportedAt id) (s, t) l).1.
Proof.
  induction l as [|x l IH] using rev_ind; [reflexivity|]. rewrite foldl_snoc.
  destruct (foldl _ (s, t) l) as [s1 t1]. etrans; [exact IH|apply kept_report].
Qed.

Lemma kept_register k now text a s : kept k s (registerAgent now text a s).2.
Proof.
  unfold registerAgent. destruct (agentSettingsErr s); [reflexivity|].
  destruct (empty _ || _); [reflexivity|].
  set (rs := restarted _ a). destruct (rs && _); [reflexivity|].
  set (s1 := if rs then _ else s).
  assert (kept k s s1) as H1 by (unfold s1; destruct rs; [apply kept_forget|reflexivity]).
  clearbody s1. destruct (match agents s !! _ with Some _ => _ | None => _ end) as [m ac].
  cbv zeta. set (s2 := if negb (IsZero _) && _ then _ else s1).
  assert (kept k s1 s2) as H2 by (unfold s2; destruct (_ && _); [by apply kept_same|reflexivity]).
  clearbody s2. destruct (observeAgentCapacityLocked _ _ s2) as [b s3] eqn:Ho.
  unfold observeAgentCapacityLocked in Ho. injection Ho as _ <-.
  etrans; [exact H1|]. etrans; [exact H2|]. by apply kept_same.
Qed.

Lemma kept_heartbeat k now text h s : kept k s (heartbeat now text h s).2.
Proof.
  unfold heartbeat. destruct (empty _); [reflexivity|].
  destruct (agents s !! _) as [previous|]; [|reflexivity]. destruct (negb _ && negb (_ =? _)); [reflexivity|].
  set (stale := _ && (Agent.LastSeen _ <? _)).
  destruct (negb (AgentHeartbeat.Partial h) && _ && _); [reflexivity|].
  destruct (checkNodes _ _ _ _) as [seen| |]; [|reflexivity..].
  set (s1 := if negb stale && _ then _ else s).
  assert (kept k s s1) as H1 by (unfold s1; destruct (negb stale && _); [by apply kept_same|reflexivity]).
  clearbody s1. set (l := if stale then _ else _). clearbody l.
  pose proof (kept_reports k now (Agent.LastSeen (AgentHeartbeat.agent h))
    (Agent.ID (AgentHeartbeat.agent h)) l s1 (mkTally 0 0 [])) as H2.
  destruct (foldl _ _ l) as [s2 t]. cbn [fst] in H2. cbv zeta.
  set (s3 := if AgentHeartbeat.Partial h then s2 else _).
  assert (kept k s2 s3) as H3.
  { unfold s3. destruct (AgentHeartbeat.Partial h); [reflexivity|]. unfold stopUnseen.
    apply kept_fold. intros s' [k' n]. repeat case_match; try reflexivity. apply kept_setNode. }
  clearbody s3. transitivity s1; [done|]. transitivity s2; [done|]. transitivity s3; [done|].
  destruct stale; [by apply kept_same|].
  destruct (observeAgentCapacityLocked _ _ s3) as [b s4] eqn:Ho.
  unfold observeAgentCapacityLocked in Ho. injection Ho as _ <-. by apply kept_same.
Qed.

(** The entries of a Peer agree. *)
Definition agrees (k : string) (s : state) : Prop :=
  ∀ u, uncertainCreates s !! k = Some u →
    reservations s !! k = None ∨ reservations s !! k = Some (agentID u).

Lemma kept_releasePending k run g cleaned s kv :
  agrees k s → (kv.1 = k → uncertainCreates s !! k = Some kv.2 ∨ reservations s !! k = None) →
  kept k s (releasePending run g cleaned s kv) ∧ agrees k (releasePending run g cleaned s kv).
Proof.
  intros Hag Hkv. destruct kv as [k' u]. cbn in Hkv. unfold releasePending, agrees.
  destruct (_ || _); [split; [reflexivity|done]|].
  destruct (bool_decide_reflect (textAt (reservations s) k' = agentID u)) as [Ht|Ht]; cbn.
  - unfold kept. cbn. destruct (decide (k' = k)) as [->|Hne].
    + rewrite !lookup_delete_eq. split; [auto|done].
    + rewrite !lookup_delete_ne by done. split; [auto|]. intros v Hv. by apply Hag.
  - unfold kept. cbn. destruct (decide (k' = k)) as [->|Hne].
    + rewrite lookup_delete_eq. split; [|done]. right. split; [|auto].
      destruct (Hkv eq_refl) as [Hu|]; [|done]. destruct (Hag u Hu) as [|HR]; [done|].
      unfold textAt in Ht. rewrite HR in Ht. done.
    + rewrite lookup_delete_ne by done. split; [auto|]. intros v Hv. by apply Hag.
Qed.

Lemma kept_releaseUncertain k run g cleaned s :
  agrees k s → kept k s (releaseUncertainCreates run g cleaned s).
Proof.
  intros Hag. unfold releaseUncertainCreates.
  assert (∀ kv, kv ∈ map_to_list (uncertainCreates s) →
    kv.1 = k → uncertainCreates s !! k = Some kv.2) as Hl.
  { intros [k' u] Hin%elem_of_map_to_list. by intros [= ->]. }
  assert (NoDup (map_to_list (uncertainCreates s)).*1) as Hnd by apply NoDup_fst_map_to_list.
  revert Hl Hnd. generalize (map_to_list (uncertainCreates s)) as l. intros l Hl Hnd.
  assert (∀ kv, kv ∈ l → kv.1 = k → uncertainCreates s !! k = Some kv.2 ∨ reservations s !! k = None)
    as Hl' by (intros; left; by apply Hl).
  clear Hl. revert s Hag Hl'. induction l as [|kv l IH]; intros s Hag Hl; [reflexivity|].
  cbn [foldl]. destruct (kept_releasePending k run g cleaned s kv Hag) as [H1 H2];
    [apply Hl; by left|]. etrans; [exact H1|].
  apply list.NoDup_cons in Hnd as [Hkv Hnd].
  apply IH; [done|done|]. intros kv' Hin Hk.
  destruct H1 as [[HR HU]|[HR _]]; [|by right]. rewrite HR, HU. apply Hl; [by right|done].
Qed.

(** An operation of another goroutine: IDs are not reused, so nobody else
    reserves a place for [k] or reports its creation uncertain. *)
Definition foreign (k : string) (o : op) : Prop :=
  match o with
  | Reserve _ _ _ _ k' _ _ => k' ≠ k
  | Retain r _ => CreateNodeRequest.ID r ≠ k
  | _ => True
  end.

Lemma kept_reserve k k' t1 t2 now order target draw s :
  k' ≠ k → Inv s → placeable order draw s →
  kept k s (tryReserve t1 t2 now order k' target draw s).2.
Proof.
  intros Hne HI HP. pose proof (tryReserve_cases t1 t2 now order k' target draw s HI HP) as Hc.
  destruct (holds t1 k' s) as [[id a]|]; [by rewrite Hc|].
  destruct (beforePlace_spec k' s order draw HI HP) as (_ & HR & _ & _ & Hf).
  assert (kept k s (beforePlace k' s)) as H1.
  { rewrite Hf. unfold kept. cbn. rewrite lookup_delete_ne by done. auto. }
  destruct Hc as ([a|] & _ & ->); [|done]. cbn [snd]. etrans; [exact H1|].
  unfold kept, reserve. cbn. rewrite lookup_insert_ne by done. auto.
Qed.

Lemma kept_foreign `{PeerCodec} encodeTopics k o s :
  Inv s → agrees k s → legal o s → foreign k o → kept k s (exec encodeTopics o s).
Proof.
  intros HI Hag Hl Hf.
  destruct o as [now text a|now text h|now maxAge|t1 t2 now order k' target draw|k'|now r id n e
    |now k'|r id|run g cleaned|now a after|save text id c|save id e|save nodeID d];
    cbn [exec legal foreign] in *.
  - apply kept_register.
  - apply kept_heartbeat.
  - by apply kept_same.
  - by apply kept_reserve.
  - unfold releaseReservation. cbv zeta. repeat case_match; apply kept_release.
  - unfold recordCreatedNode. set (m := filledNode _ _ _ _ _).
    repeat case_match; cbn [snd]; first [reflexivity|apply kept_setNode].
  - unfold markNodeStoppingAndReleaseCapacity. cbv zeta.
    etrans; [|apply kept_release]. repeat case_match; first [reflexivity|apply kept_setNode].
  - unfold retainUncertainCreate. destruct (negb _); [reflexivity|]. unfold kept. cbn.
    rewrite lookup_insert_ne by done. auto.
  - by apply kept_releaseUncertain.
  - unfold deferAgentAdmission. repeat case_match; first [reflexivity|by apply kept_same].
  - unfold setAgentCapacity. repeat case_match; cbn [snd]; first [reflexivity|by apply kept_same].
  - unfold setAgentEnabled. repeat case_match; cbn [snd]; first [reflexivity|by apply kept_same].
  - unfold setHostDisabled. repeat case_match; cbn [snd]; first [reflexivity|by apply kept_same].
Qed.

(** ** The invariant of a creation *)

(** A reply that excludes that the Agent created the Peer. *)
Definition excludes (r : reply) : bool :=
  match r with CapacityReached | Deferred _ | Refused => true | _ => false end.

(** The Agent whose place the goroutine holds. *)
Definition holder (p : pc) : option Agent.t :=
  match p with
  | Check a | Remember a | Profile a | Recheck a _ | Attempt a _ _ _ | Backoff a _ _
  | Record_ a _ _ | Settle a _ => Some a
  | _ => None
  end.

Section props.
Context `{PeerCodec} (encodeTopics : list string → string).
Context (request : CreateNodeRequest.t) (targetAgentID : string) (draw : option (nat → nat)).
Let k := CreateNode.k request.
Let advance := CreateNode.advance encodeTopics request targetAgentID draw.

(** The reservation and the uncertain entry of the Peer, by position. *)
Definition placeInv (p : pc) (R : option string) (U : option uncertainCreate) : Prop :=
  match p with
  | Done Unconfirmed =>
      R = None ∨ ∃ id, R = Some id ∧
        U = Some (mkUncertain (CreateNodeRequest.RunID request)
                    (CreateNodeRequest.Generation request) id)
  | Done Created | Release_ _ => U = None
  | Done (Failed _) | Acquire | Wait => R = None ∧ U = None
  | _ => (R = None ∨ R = Agent.ID <$> holder p) ∧ U = None
  end.

(** The calls made: those that exclude a creation, then those of one Agent. *)
Definition callsInv (p : pc) (l : list (Agent.t * reply)) : Prop :=
  ∃ pre post, l = pre ++ post ∧ Forall (λ c, excludes c.2 = true) pre ∧ (length post ≤ 3)%nat ∧
    match p with
    | Acquire | Wait | Check _ | Remember _ | Profile _ | Recheck _ _
    | Release_ (ToAcquire | ToWait) | Settle _ (DeferredErr _ | CapacityErr) => post = []
    | Attempt a _ n uncertain =>
        Forall (λ c, c.1 = a) post ∧ (length post < n ≤ attempts a)%nat ∧ (uncertain = false → post = [])
    | Backoff a _ n => Forall (λ c, c.1 = a) post ∧ (length post ≤ n < attempts a)%nat
    | Record_ a r node =>
        Forall (λ c, c.1 = a) post ∧ suffix [(a, Acknowledged node)] post ∧
        createAcknowledgementMatches node r (Agent.ID a) (1 <? attempts a)%nat = true
    | Done Created =>
        ∃ a r node, Forall (λ c, c.1 = a) post ∧ suffix [(a, Acknowledged node)] post ∧
          createAcknowledgementMatches node r (Agent.ID a) (1 <? attempts a)%nat = true
    | _ => ∃ a, Forall (λ c, c.1 = a) post
    end.

(** The effective request is for the same Peer. *)
Definition requestInv (p : pc) : Prop :=
  match p with
  | Recheck _ r | Attempt _ r _ _ | Backoff _ r _ | Record_ _ r _ => CreateNodeRequest.ID r = k
  | _ => True
  end.

Record createInv (c : config) : Prop := {
  ci_inv : Inv (inventory c);
  ci_place : placeInv (at_ c) (reservations (inventory c) !! k) (uncertainCreates (inventory c) !! k);
  ci_calls : callsInv (at_ c) (calls c);
  ci_request : requestInv (at_ c);
  ci_created : at_ c = Done Created → is_Some (nodes (inventory c) !! k) }.

(** A step of the goroutine, of another one, or the end of the context. *)
Inductive createStep : config → config → Prop :=
| own_step i c :
    (at_ c = Acquire → placeable (order i) draw (inventory c)) → createStep c (advance i c)
| other_step o c :
    legal o (inventory c) → foreign k o →
    createStep c (withInventory (exec encodeTopics o (inventory c)) c)
| cancel_step c : createStep c (mkConfig (at_ c) (inventory c) true (calls c)).

Lemma place_agrees p s :
  placeInv p (reservations s !! k) (uncertainCreates s !! k) → agrees k s.
Proof.
  intros HP u Hu. destruct p as [| | | | | | | | | | |[]]; cbn in HP; try (destruct HP; congruence);
    try congruence.
  destruct HP as [|(id & HR & HU)]; [by left|]. right. rewrite HU in Hu. injection Hu as <-. exact HR.
Qed.

Lemma place_kept p s s' :
  kept k s s' → placeInv p (reservations s !! k) (uncertainCreates s !! k) →
  placeInv p (reservations s' !! k) (uncertainCreates s' !! k).
Proof.
  intros [[-> ->]|[-> HU]] HP; [done|].
  destruct p as [| | | | | | | | | | |[]]; cbn in *; try (by left);
    destruct HU as [->| ->]; intuition.
Qed.

Lemma other_inv o c :
  createInv c → legal o (inventory c) → foreign k o →
  createInv (withInventory (exec encodeTopics o (inventory c)) c).
Proof.
  intros [I1 I2 I3 I4 I5] Hl Hf.
  destruct (step_advance encodeTopics _ _ I1 (step_op encodeTopics o _ Hl)) as [HI' Hev _].
  pose proof (kept_foreign encodeTopics k o _ I1 (place_agrees _ _ I2) Hl Hf) as Hk.
  split; cbn; [done|by eapply place_kept|done|done|].
  intros Hd. destruct (I5 Hd) as [n Hn]. destruct (Hev k n Hn) as (n' & Hn' & _). eauto.
Qed.

(** Moves that use neither the inventory nor a call. *)
Lemma goto_inv p c :
  createInv c → p ≠ Done Created →
  placeInv p (reservations (inventory c) !! k) (uncertainCreates (inventory c) !! k) →
  callsInv p (calls c) → requestInv p → createInv (goto p c).
Proof. intros [I1 I2 I3 I4 I5] Hp H2 H3 H4. by split. Qed.

Lemma place_release p R U :
  placeInv p R U → (∀ o, p ≠ Done o) → ∀ n, placeInv (Release_ n) R U.
Proof. intros HP Hd n. destruct p as [| | | | | | | | | | |o]; cbn in *; try tauto. by destruct (Hd o). Qed.

Lemma calls_fresh p q l :
  callsInv p l →
  (match p with Acquire | Wait | Check _ | Remember _ | Profile _ | Recheck _ _
   | Release_ (ToAcquire | ToWait) | Settle _ (DeferredErr _ | CapacityErr) => True | _ => False end) →
  (match q with Acquire | Wait | Check _ | Remember _ | Profile _ | Recheck _ _
   | Release_ _ | Settle _ (DeferredErr _ | CapacityErr) | Done (Failed _)
   | Attempt _ _ 1 false => True | _ => False end) →
  callsInv q l.
Proof.
  intros (pre & post & -> & Hpre & Hlen & Hp) Hfp Hfq.
  assert (post = []) as ->.
  { destruct p as [|?|?|?|? ?|? ? ? ?|? ? ?|? ? ?|? []|[]| |[]]; tauto. }
  exists pre, []. split_and!; [done|done|cbn; lia|].
  destruct q as [|?|?|?|? ?|a r [|[|n]] []|? ? ?|? ? ?|a []|[]| |[]]; try done; try (by exists Agent.zero).
  split_and!; [done|cbn; lia| |done]. unfold attempts. destruct (_ && _); lia.
Qed.

Lemma calls_end p l q :
  callsInv p l →
  (match q with Release_ (Fail _) | Done (Failed _) | Done Unconfirmed
   | Settle _ (UncertainErr | CanceledErr | OtherErr) => True | _ => False end) →
  callsInv q l.
Proof.
  intros (pre & post & -> & Hpre & Hlen & Hp) Hq.
  assert (∃ a, Forall (λ c : Agent.t * reply, c.1 = a) post) as Ha.
  { destruct p as [|?|?|?|? ?|a ? ? ?|a ? ?|a ? ?|? []|[]| |[]]; try (rewrite Hp; by exists Agent.zero);
      try (by destruct Hp; eauto); try tauto.
    - destruct Hp as (a & r & n & ? & _). eauto. }
  exists pre, post. split_and!; [done..|].
  by destruct q as [|?|?|?|? ?|? ? ? ?|? ? ?|? ? ?|? []|[]| |[]].
Qed.

(** One more call of the same Agent. *)
Lemma calls_called a r n uncertain l reply_ q :
  callsInv (Attempt a r n uncertain) l →
  match q with
  | Record_ a' _ node => a' = a ∧ reply_ = Acknowledged node ∧
      createAcknowledgementMatches node r (Agent.ID a) (1 <? attempts a)%nat = true ∧ q = Record_ a r node
  | Settle _ (DeferredErr _ | CapacityErr) => uncertain = false ∧ excludes reply_ = true
  | Settle _ _ => True
  | Backoff a' _ n' => a' = a ∧ n' = n ∧ (n < attempts a)%nat
  | _ => False
  end →
  callsInv q (l ++ [(a, reply_)]).
Proof.
  intros (pre & post & -> & Hpre & Hlen & Hall & [Hn1 Hn2] & Hu) Hq.
  assert (attempts a ≤ 3)%nat as H3 by (unfold attempts; destruct (_ && _); lia).
  assert (Forall (λ c : Agent.t * reply, c.1 = a) (post ++ [(a, reply_)])) as Hall'.
  { apply Forall_app. split; [done|]. by constructor. }
  assert (length (post ++ [(a, reply_)]) ≤ 3)%nat as Hlen'.
  { rewrite length_app. cbn. lia. }
  destruct q as [|?|?|?|? ?|? ? ? ?|a' r' n'|a' r' node|a' []|?| |?]; try done.
  - destruct Hq as (-> & -> & Hn). exists pre, (post ++ [(a, reply_)]). rewrite app_assoc.
    split_and!; [done..| |done]. rewrite length_app. cbn. lia.
  - destruct Hq as (-> & -> & Hm & [= ->]). exists pre, (post ++ [(a, Acknowledged node)]).
    rewrite app_assoc. split_and!; [done..| |done]. by exists post.
  - exists pre, (post ++ [(a, reply_)]). rewrite app_assoc. split_and!; [done..|eauto].
  - exists pre, (post ++ [(a, reply_)]). rewrite app_assoc. split_and!; [done..|eauto].
  - destruct Hq as [Hf Hx]. rewrite (Hu Hf), app_nil_r. exists (pre ++ [(a, reply_)]), [].
    rewrite app_nil_r. split_and!; [done| |cbn; lia|done]. apply Forall_app. split; [done|]. by constructor.
  - destruct Hq as [Hf Hx]. rewrite (Hu Hf), app_nil_r. exists (pre ++ [(a, reply_)]), [].
    rewrite app_nil_r. split_and!; [done| |cbn; lia|done]. apply Forall_app. split; [done|]. by constructor.
  - exists pre, (post ++ [(a, reply_)]). rewrite app_assoc. split_and!; [done..|eauto].
Qed.

(** The goroutine's own changes of the inventory. *)
Lemma inventory_inv_step p c s :
  createInv c → Inv s → p ≠ Done Created →
  placeInv p (reservations s !! k) (uncertainCreates s !! k) →
  callsInv p (calls c) → requestInv p → createInv (goto p (withInventory s c)).
Proof. intros [I1 I2 I3 I4 I5] HI Hp H2 H3 H4. by split. Qed.

Lemma acquire_inv i c :
  createInv c → at_ c = Acquire → placeable (order i) draw (inventory c) →
  createInv (acquire request targetAgentID draw i c).
Proof.
  intros HC Hat HP. pose proof HC as [I1 I2 I3 I4 I5]. rewrite Hat in *. unfold acquire.
  destruct (ctxDone c); [by apply goto_inv; [..|eapply calls_fresh|]|].
  fold k. destruct I2 as [HR HU].
  pose proof (tryReserve_cases (t1 i) (t2 i) (now i) (order i) k targetAgentID draw _ I1 HP) as Hc.
  pose proof (tryReserve_advance (t1 i) (t2 i) (now i) (order i) k targetAgentID draw _ I1 HP) as Hadv.
  unfold holds in Hc. rewrite HR in Hc. cbn [mbind option_bind] in Hc.
  assert (beforePlace k (inventory c) = inventory c) as Hb by (unfold beforePlace; by rewrite HR).
  rewrite Hb in Hc. destruct Hc as (r & Hsel & Hc).
  destruct r as [a|]; rewrite Hc in Hadv |- *; cbn [snd] in Hadv.
  - destruct (reserve k a (inventory c)) as [a' s'] eqn:Hres. cbn [fst snd] in *.
    apply inventory_inv_step; [done|apply Hadv|done| |by eapply calls_fresh|done].
    unfold reserve in Hres. injection Hres as <- <-. cbn. rewrite lookup_insert_eq. split; [by right|done].
  - split; cbn; [done|by rewrite Hat|by rewrite Hat|by rewrite Hat|by rewrite Hat].
Qed.

Lemma attempt_inv i c a r n uncertain :
  createInv c → at_ c = Attempt a r n uncertain → createInv (attempt i a r n uncertain c).
Proof.
  intros HC Hat. pose proof HC as [I1 I2 I3 I4 I5]. rewrite Hat in *. unfold attempt.
  destruct (ctxDone c).
  { apply goto_inv; [done|done|exact I2|by destruct uncertain; eapply calls_end|done]. }
  destruct (_ && _); [apply goto_inv; [done|done|exact I2|by eapply calls_end|done]|].
  assert (∀ q, q ≠ Done Created → placeInv q (reservations (inventory c) !! k)
    (uncertainCreates (inventory c) !! k) → callsInv q (calls c ++ [(a, answer i)]) → requestInv q →
    createInv (goto q (called a (answer i) (interrupted i) c))) as Hgo by (intros; by split).
  cbv zeta. destruct (answer i) as [node|[]| |after|] eqn:Hans.
  - destruct (createAcknowledgementMatches _ _ _ _) eqn:Hm.
    + apply Hgo; [done|exact I2|by eapply calls_called|exact I4].
    + apply Hgo; [done|exact I2|by eapply calls_called|done].
  - destruct (Nat.eqb_spec n (attempts a)); cbn [orb].
    { apply Hgo; [done|exact I2|by destruct uncertain; eapply calls_called|done]. }
    destruct (ctxDone _).
    { apply Hgo; [done|exact I2|by destruct uncertain; eapply calls_called|done]. }
    apply Hgo; [done|exact I2| |exact I4]. eapply calls_called; [exact I3|].
    destruct I3 as (? & ? & _ & _ & _ & _ & ? & _). split_and!; [done|done|lia].
  - apply Hgo; [done|exact I2|by destruct uncertain; eapply calls_called|done].
  - apply Hgo; [done|exact I2|by destruct uncertain; eapply calls_called|done].
  - apply Hgo; [done|exact I2|by destruct uncertain; eapply calls_called|done].
  - apply Hgo; [done|exact I2|by destruct uncertain; eapply calls_called|done].
Qed.

Lemma record_inv i c a r node :
  createInv c → at_ c = Record_ a r node → createInv (advance i c).
Proof.
  intros HC Hat. pose proof HC as [I1 I2 I3 I4 I5]. unfold advance, CreateNode.advance. rewrite Hat in *.
  destruct (recordCreatedNode encodeTopics (now i) r (Agent.ID a) node (Some (Agent.StartedAt a))
    (inventory c)) as [created s] eqn:Hrec.
  pose proof (created_advance encodeTopics (now i) r (Agent.ID a) node (Some (Agent.StartedAt a))
    (inventory c) I1) as Hadv. rewrite Hrec in Hadv. cbn [snd] in Hadv.
  assert (reservations s = reservations (inventory c) ∧
          uncertainCreates s = uncertainCreates (inventory c) ∧
          (created = true → is_Some (nodes s !! k))) as (HR & HU & Hn).
  { unfold recordCreatedNode in Hrec. set (m := filledNode _ _ _ _ _) in Hrec.
    destruct I3 as (pre & post & _ & _ & _ & _ & _ & Hm).
    assert (Node.ID m = k) as Hid.
    { unfold m, filledNode, firstNonEmpty. cbn. unfold createAcknowledgementMatches in Hm.
      unfold empty in *. cbn in I4. rewrite I4 in Hm |- *. repeat (apply andb_prop in Hm as [Hm _]).
      apply orb_prop in Hm as [Hm|Hm]; [apply bool_decide_eq_true in Hm; rewrite Hm; by case_bool_decide|].
      apply andb_prop in Hm as [_ Hm]. by rewrite Hm. }
    clearbody m. destruct (match agents _ !! _ with Some _ => _ | None => _ end);
      [by injection Hrec as <- <-|]. rewrite Hid in Hrec. injection Hrec as <- <-.
    destruct (nodes (inventory c) !! k) as [o|] eqn:Ho.
    - destruct (_ && _ && _); [|by split_and!; eauto]. split_and!; [done|done|].
      intros _. cbn. rewrite Hid, lookup_insert_eq. eauto.
    - split_and!; [done|done|]. intros _. cbn. rewrite Hid, lookup_insert_eq. eauto. }
  destruct created.
  - split; cbn; [apply Hadv| | |done|auto].
    + rewrite HU. apply I2.
    + destruct I3 as (pre & post & -> & Hpre & Hlen & Hall & Hsuf & Hm).
      exists pre, post. split_and!; [done..|]. by exists a, r, node.
  - apply inventory_inv_step; [done|apply Hadv|done| |by eapply calls_end|done].
    rewrite HU. apply I2.
Qed.

Lemma settle_inv i c a e :
  createInv c → at_ c = Settle a e → createInv (settle request i a e c).
Proof.
  intros HC Hat. pose proof HC as [I1 I2 I3 I4 I5]. rewrite Hat in *. unfold settle.
  destruct e.
  - apply goto_inv; [done|done|apply I2|by eapply calls_end|done].
  - apply inventory_inv_step; [done|by apply retain_advance|done| |by eapply calls_end|done].
    destruct I2 as [HR HU]. unfold retainUncertainCreate. change (CreateNodeRequest.ID request) with k.
    destruct (bool_decide_reflect (textAt (reservations (inventory c)) k = Agent.ID a)) as [Ht|Ht]; cbn.
    + destruct HR as [HR|HR]; [by left|]. right. exists (Agent.ID a). rewrite lookup_insert_eq. done.
    + left. destruct HR as [HR|HR]; [done|]. unfold textAt in Ht. by rewrite HR in Ht.
  - apply inventory_inv_step; [done|by apply defer_advance|done| |by eapply calls_fresh|done].
    assert (uncertainCreates (deferAgentAdmission (now i) a after (inventory c)) =
            uncertainCreates (inventory c)) as -> by (unfold deferAgentAdmission; by repeat case_match).
    apply I2.
  - apply goto_inv; [done|done|apply I2|by eapply calls_fresh|done].
  - apply goto_inv; [done|done|apply I2|by eapply calls_end|done].
Qed.

Lemma release_inv i c n :
  createInv c → at_ c = Release_ n → createInv (advance i c).
Proof.
  intros HC Hat. pose proof HC as [I1 I2 I3 I4 I5]. unfold advance, CreateNode.advance. rewrite Hat in *.
  assert (reservations (releaseReservation k (inventory c)) !! k = None ∧
    uncertainCreates (releaseReservation k (inventory c)) = uncertainCreates (inventory c)) as [HR HU].
  { unfold releaseReservation. cbv zeta. repeat case_match; cbn; by rewrite lookup_delete_eq. }
  apply inventory_inv_step; [done|by apply release_advance|by destruct n| | |by destruct n].
  - fold k. rewrite HR, HU. cbn in I2. by destruct n.
  - destruct n; [by eapply calls_fresh..|by eapply calls_end].
Qed.

Lemma own_inv i c :
  createInv c → (at_ c = Acquire → placeable (order i) draw (inventory c)) →
  createInv (advance i c).
Proof.
  intros HC HP. pose proof HC as [I1 I2 I3 I4 I5].
  destruct (at_ c) as [|a|a|a|a r|a r n u|a r n|a r n|a e|n| |o] eqn:Hat.
  - unfold advance, CreateNode.advance. rewrite Hat. by apply acquire_inv; [..|apply HP].
  - unfold advance, CreateNode.advance. rewrite Hat. destruct (available _ _ _);
      (apply goto_inv; [done|done|first [exact I2|apply I2]|by eapply calls_fresh|done]).
  - unfold advance, CreateNode.advance. rewrite Hat. destruct (remembered i);
      (apply goto_inv; [done|done|first [exact I2|apply I2]|by eapply calls_fresh|done]).
  - unfold advance, CreateNode.advance. rewrite Hat. destruct (profile i) as [[config revision]|];
      (apply goto_inv; [done|done|first [exact I2|apply I2]|by eapply calls_fresh|done]).
  - unfold advance, CreateNode.advance. rewrite Hat. destruct (available _ _ _);
      (apply goto_inv; [done|done|first [exact I2|apply I2]|by eapply calls_fresh|first [exact I4|done]]).
  - unfold advance, CreateNode.advance. rewrite Hat. by apply attempt_inv.
  - unfold advance, CreateNode.advance. rewrite Hat. destruct (timer i).
    + apply goto_inv; [done|done|exact I2| |exact I4].
      destruct I3 as (pre & post & -> & Hpre & Hlen & Hall & Hn).
      exists pre, post. split_and!; [done..|lia|lia|done].
    + apply goto_inv; [done|done|exact I2|by eapply calls_end|done].
  - by eapply record_inv.
  - unfold advance, CreateNode.advance. rewrite Hat. by apply settle_inv.
  - by eapply release_inv.
  - unfold advance, CreateNode.advance. rewrite Hat. destruct (timer i);
      (apply goto_inv; [done|done|first [exact I2|apply I2]|by eapply calls_fresh|done]).
  - unfold advance, CreateNode.advance. rewrite Hat. exact HC.
Qed.

Lemma create_reachable s c :
  inventoryReachable encodeTopics s → reservations s !! k = None → uncertainCreates s !! k = None →
  rtc createStep (begin s) c → createInv c.
Proof.
  intros HI%inventory_inv HR HU Hst.
  assert (createInv (begin s)) as H0.
  { split; cbn; [done|done| |done|done]. exists [], []. by split_and!; [..|cbn; lia|]. }
  clear HI HR HU. revert H0. induction Hst as [c|c1 c2 c3 Hs _ IH]; [done|]. intros HC. apply IH.
  destruct Hs as [i c HP|o c Hl Hf|c].
  - by apply own_inv.
  - by apply other_inv.
  - destruct HC as [I1 I2 I3 I4 I5]. by split.
Qed.

(** C9: A Peer is created at most on one Agent.  Whatever the Agents reply,
    however the other goroutines change the inventory and whenever the context
    ends: every call made for the Peer before those to one last Agent was answered
    by a refusal that excludes a creation, and the calls that may have created it
    are at most three, all to the same instance at the same address. *)
Theorem one_agent_may_host s c :
  inventoryReachable encodeTopics s → reservations s !! k = None → uncertainCreates s !! k = None →
  rtc createStep (begin s) c →
  ∃ pre post a, calls c = pre ++ post ∧ Forall (λ call, excludes call.2 = true) pre ∧
    Forall (λ call, call.1 = a) post ∧ (length post ≤ 3)%nat.
Proof.
  intros HI HR HU Hst.
  destruct (ci_calls _ (create_reachable s c HI HR HU Hst)) as (pre & post & Hc & Hpre & Hlen & Hp).
  enough (∃ a, Forall (λ call : Agent.t * reply, call.1 = a) post) as [a Ha] by eauto 10.
  destruct (at_ c) as [|?|?|?|? ?|a ? ? ?|a ? ?|a ? ?|? []|[]| |[]];
    try (rewrite Hp; by exists Agent.zero); try (destruct Hp; eauto; fail); try (by destruct Hp; eauto).
  destruct Hp as (a & r & n & Ha & _). eauto.
Qed.

(** C17: When a creation ends, its place is accounted for.  Reported as created,
    the Peer is in the inventory and an Agent acknowledged it by its identity;
    failed, it holds no reservation; unconfirmed, the reservation is either
    already settled or still held and listed for the run's cleanup. *)
Theorem creation_accounts_for_place s c o :
  inventoryReachable encodeTopics s → reservations s !! k = None → uncertainCreates s !! k = None →
  rtc createStep (begin s) c → at_ c = Done o →
  match o with
  | Created => is_Some (nodes (inventory c) !! k) ∧
      ∃ a r n, (a, Acknowledged n) ∈ calls c ∧
        createAcknowledgementMatches n r (Agent.ID a) (1 <? attempts a)%nat = true
  | Failed _ => reservations (inventory c) !! k = None
  | Unconfirmed =>
      reservations (inventory c) !! k = None ∨
      ∃ id, reservations (inventory c) !! k = Some id ∧
        uncertainCreates (inventory c) !! k =
          Some (mkUncertain (CreateNodeRequest.RunID request) (CreateNodeRequest.Generation request) id)
  end.
Proof.
  intros HI HR HU Hst Hat.
  destruct (create_reachable s c HI HR HU Hst) as [I1 I2 I3 I4 I5]. rewrite Hat in *.
  destruct o as [|m|]; [|apply I2|apply I2]. split; [by apply I5|].
  destruct I3 as (pre & post & Hc & _ & _ & a & r & n & _ & [post' Hsuf] & Hm). exists a, r, n.
  split; [|done]. rewrite Hc, Hsuf. set_solver.
Qed.
End props.

(** ** A run: the reply of the first call is lost, the replay is acknowledged *)
Module CreateNodeExamples.
Import InventoryExamples.
#[local] Existing Instance codec.
Definition request : CreateNodeRequest.t :=
  CreateNodeRequest.mk 0 "" false 0 0 "n1" "run" 1 "g" "peer" "full" "" 7 NodeConfig.zero "".
Definition fleet : state := play fleetOps start.
Definition input_ (answer : reply) : input :=
  mkInput (InventoryExamples.at_ 101) (InventoryExamples.at_ 101) (InventoryExamples.at_ 101)
    InventoryExamples.order true (Some (NodeConfig.zero, 0)) answer false true.
Definition rest : list reply :=
  [Refused; Refused; Refused; Refused; Uncertain true; Refused;
   Acknowledged (node "n1" NodeStarting (InventoryExamples.at_ 101)); Refused].
Definition replies : list reply := Refused :: rest.
Definition advance_ : input → config → config := CreateNode.advance topicsText request "" None.
Definition run_ (l : list reply) : config := foldl (λ c r, advance_ (input_ r) c) (begin fleet) l.

Definition running (c : config) : bool :=
  match CreateNode.at_ c with Acquire => false | _ => true end.
Fixpoint runs (l : list reply) (c : config) : bool :=
  match l with
  | [] => true
  | r :: l => running c && runs l (advance_ (input_ r) c)
  end.
Lemma one_step r c :
  (CreateNode.at_ c = Acquire → placeable InventoryExamples.order None (inventory c)) →
  createStep topicsText request "" None c (advance_ (input_ r) c).
Proof. intros HP. exact (own_step topicsText request "" None (input_ r) c HP). Qed.

Lemma runs_steps l c :
  runs l c = true →
  rtc (createStep topicsText request "" None) c (foldl (λ c r, advance_ (input_ r) c) c l).
Proof.
  revert c. induction l as [|r l IH]; intros c H; [apply rtc_refl|].
  change (running c && runs l (advance_ (input_ r) c) = true) in H.
  apply andb_prop in H as [H1 H2].
  refine (rtc_l _ _ _ _ (one_step _ c _) (IH _ H2)).
  intros Hat. unfold running in H1. by rewrite Hat in H1.
Qed.

Lemma rest_runs : runs rest (advance_ (input_ Refused) (begin fleet)) = true.
Proof. vm_compute. reflexivity. Qed.

Lemma run_cons r l : run_ (r :: l) = foldl (λ c r, advance_ (input_ r) c) (advance_ (input_ r) (begin fleet)) l.
Proof. reflexivity. Qed.

Lemma run_reach : rtc (createStep topicsText request "" None) (begin fleet) (run_ replies).
Proof.
  unfold replies. rewrite run_cons.
  refine (rtc_l _ _ _ _ (one_step Refused (begin fleet) _) (runs_steps rest _ rest_runs)).
  intros _. exact (fleet_placeable _ (proj1 orders)).
Qed.

Lemma fleet_reachable : inventoryReachable topicsText fleet.
Proof. exact (play_reachable _ (proj1 (proj2 ops_playable))). Qed.

Lemma run_done :
  CreateNode.at_ (run_ replies) = Done Created ∧ length (calls (run_ replies)) = 2%nat ∧
  reservations fleet !! CreateNode.k request = None ∧
  uncertainCreates fleet !! CreateNode.k request = None.
Proof. vm_compute. done. Qed.

Lemma one_agent_may_host_witness :
  ∃ pre post a, calls (run_ replies) = pre ++ post ∧ Forall (λ call, excludes call.2 = true) pre ∧
    Forall (λ call, call.1 = a) post ∧ (length post ≤ 3)%nat.
Proof.
  exact (one_agent_may_host topicsText request "" None fleet (run_ replies) fleet_reachable
    (proj1 (proj2 (proj2 run_done))) (proj2 (proj2 (proj2 run_done))) run_reach).
Defined.

Lemma creation_accounts_for_place_witness :
  is_Some (nodes (inventory (run_ replies)) !! CreateNode.k request).
Proof.
  exact (proj1 (creation_accounts_for_place topicsText request "" None fleet (run_ replies) Created
    fleet_reachable (proj1 (proj2 (proj2 run_done))) (proj2 (proj2 (proj2 run_done))) run_reach
    (proj1 run_done))).
Defined.
End CreateNodeExamples.
