(* ===== verification/AgentPrepare.v ===== *)
(** * Preparing a Peer

    What the Agent makes of a creation request before it admits the Peer
    ([internal/agent/agent.go]): the configuration ([resolveCreateNodeConfig]),
    the checks at the head of [admitNode], the Peer's record and the
    configuration its process reads ([model.PeerProcessConfig]). *)
From Stdlib Require Import ZArith Lia Ascii.
From stdpp Require Import strings list gmap pretty.
From S2P Require Import Prelude.
From S2P Require Import GoStd.
From S2P Require Import GoStrings.
From S2P Require Import Distribution.
From S2P Require Import Network.
From S2P Require Import Attacks.
From S2P Require Import PeerScore.
From S2P Require Import GossipSubConfig.
From S2P Require Import KademliaConfig.
From S2P Require Import NodeConfig.
From S2P Require Import AgentModel.
From S2P Require Import Inventory.
Open Scope Z_scope.

(** The texts the Agent writes: [json.Marshal] of values it built itself,
    [time.Format(RFC3339Nano)] and the hash of a request. *)
Class Encoding := {
  encodeTopics : list string → string;
  encodeNetwork : NetworkConfig → string;
  encodeSchedule : NetworkSchedule → string;
  formatTime : Time → string;
  requestHash : CreateNodeRequest.t → string }.
(** A SHA-256 digest in hexadecimal has 64 characters. *)
Class EncodingLaws `{Encoding} := { requestHash_some r : requestHash r ≠ ""%string }.

(** [c.Type = kind] *)
Definition withType (kind : string) (c : NodeConfig.t) : NodeConfig.t :=
  NodeConfig.mk (NodeConfig.attacks c) kind (NodeConfig.Topics c) (NodeConfig.D c)
    (NodeConfig.DLow c) (NodeConfig.DHigh c) (NodeConfig.DOut c) (NodeConfig.DLazy c)
    (NodeConfig.Heartbeat c) (NodeConfig.ConnectLimit c) (NodeConfig.Libp2p c)
    (NodeConfig.Kademlia c) (NodeConfig.GossipSub c) (NodeConfig.Network c).
(** [c.Network = n] *)
Definition withNetwork (n : NetworkConfig) (c : NodeConfig.t) : NodeConfig.t :=
  NodeConfig.withParts (NodeConfig.attacks c) (NodeConfig.Kademlia c) (NodeConfig.GossipSub c) n c.

Definition requestKind (r : CreateNodeRequest.t) : string :=
  if negb (empty (CreateNodeRequest.Type_ r)) then CreateNodeRequest.Type_ r
  else if negb (empty (NodeConfig.Type_ (CreateNodeRequest.Config r)))
  then NodeConfig.Type_ (CreateNodeRequest.Config r)
  else if bool_decide (CreateNodeRequest.Role r = "boot"%string) then "boot" else "full".

(** The configuration and type of an admitted Peer, and what its schedule asked
    for before delays were drawn ([requestedNetwork]). *)
Record prepared := mkPrepared {
  config : NodeConfig.t; nodeType : string; requestedNetwork : string }.

(** [s.config] *)
Module Config.
Record t := mk {
  ID : string; ControllerURL : string; SelfURL : string; Token : string; Capacity : Z;
  AutoResetNetwork : bool }.
End Config.

Module PeerProcessConfig.
Record t := mk {
  NetworkMutable : bool; ProfileRevision : Z; ExperimentStartedAt : Time; node : Node.t;
  nodeConfig : NodeConfig.t; Seed : Z; ControllerURL : string; AgentURL : string;
  APListen : string; P2PListen : string; Token : string }.
End PeerProcessConfig.

Module ExperimentNetwork.
Record t := mk {
  RunID : string; Epoch : string; NetworkID : string; GatewayURL : string;
  PeerGatewayURL : string }.
End ExperimentNetwork.

(** [strings.TrimRight(s, "/")] *)
Fixpoint trimSlashes (s : list ascii) : list ascii :=
  match s with
  | [] => []
  | c :: s =>
      match trimSlashes s with
      | [] => if ascii_dec c "/" then [] else [c]
      | rest => c :: rest
      end
  end.
Definition trimRightSlash (s : string) : string :=
  String.string_of_list_ascii (trimSlashes (String.list_ascii_of_string s)).

Section prepare.
Context `{PeerCodec} `{CIDRs} `{PubSubLib} (ParseFloat : string → option float).
(** [rand.New(rand.NewSource(seed))] *)
Context {R : Type} `{DistRand R} `{MathFns} (newSource : Z → R).
Context `{Encoding}.

Definition resolveCreateNodeConfig (r : CreateNodeRequest.t) : NodeConfig.t * string :=
  let kind := requestKind r in
  match NodeConfig.BuiltInNodeConfig kind with
  | Some base =>
      let resolved := NodeConfig.WithDefaults (NodeConfig.Merge base (CreateNodeRequest.Config r)) in
      let resolved := withType (NodeConfig.Type_ base) resolved in
      (resolved, NodeConfig.Type_ resolved)
  | None =>
      let base := withType kind (default NodeConfig.zero (NodeConfig.BuiltInNodeConfig "full")) in
      let resolved := withType kind (NodeConfig.Merge base (CreateNodeRequest.Config r)) in
      let resolved := NodeConfig.WithDefaults resolved in
      (resolved, NodeConfig.Type_ resolved)
  end.

Definition lifetimeOk (lifetime : string) : bool :=
  empty lifetime || match Duration.parse lifetime with Some d => 0 <=? d | None => false end.

(** The checks before the network is resolved. *)
Definition checkRequest (r : CreateNodeRequest.t) : res (NodeConfig.t * string) :=
  fail_if (empty (CreateNodeRequest.ID r) || empty (CreateNodeRequest.RunID r) ||
           empty (CreateNodeRequest.Group r)) "id, runId, and group are required";;
  fail_if (negb (lifetimeOk (CreateNodeRequest.Lifetime r)))
    "lifetime must be a non-negative duration";;
  let '(resolved, kind) := resolveCreateNodeConfig r in
  wrap "invalid node config" (NodeConfig.Validate ParseFloat resolved);;
  NodeConfig.ValidateAttackRole resolved (CreateNodeRequest.Role r);;
  fail_if (Network.Scheduled (NodeConfig.Network resolved) &&
           bool_decide (Network.Clock (Schedule (NodeConfig.Network resolved)) =
                        "experiment-start"%string) &&
           IsZero (CreateNodeRequest.ExperimentStartedAt r))
    "experimentStartedAt is required for an experiment-start network schedule";;
  mret (resolved, kind).

(** [None]: the sampler of a delay has not returned within [fuel] attempts. *)
Definition prepare (fuel : nat) (r : CreateNodeRequest.t) : option (res prepared) :=
  match checkRequest r with
  | Ok (resolved, kind) =>
      '(network, _) ← Resolve ParseFloat fuel (NodeConfig.Network resolved)
                        (Some (newSource (CreateNodeRequest.Seed r)));
      Some (network ← wrap "resolve peer network conditions" network;
            mret (mkPrepared (withNetwork network resolved) kind
                    (encodeNetwork (NodeConfig.Network resolved))))
  | Err e => Some (Err e)
  | Panic => Some Panic
  end.

(** ** The Peer's record *)
Definition metadata (r : CreateNodeRequest.t) (p : prepared) : gmap string string :=
  let c := config p in
  let g := NodeConfig.GossipSub c in
  let k := NodeConfig.Kademlia c in
  let pubsub := isTrue (GossipSubConfig.Enabled g) in
  let gossip := pubsub && bool_decide (GossipSubConfig.Router g = "gossipsub"%string) in
  let network := NodeConfig.Network c in
  let profile := if empty (CreateNodeRequest.Profile r) then nodeType p
                 else CreateNodeRequest.Profile r in
  let base : gmap string string := list_to_map
    [("runtime", "docker"); ("profile", profile); ("pubsubRouter", GossipSubConfig.Router g);
     ("pubsubEnabled", FormatBool pubsub);
     ("meshFreezeEnabled", FormatBool (gossip && isTrue (GossipSubConfig.MeshFreeze g)));
     ("scoreEnabled", FormatBool (gossip && ptr PeerScoreConfig.IsEnabled (GossipSubConfig.Score g)));
     ("allowPublish", FormatBool (NodeConfig.PublishAllowed c));
     ("topicMode", GossipSubConfig.TopicMode g);
     ("topics", String.concat "," (elems (GossipSubConfig.Topics g)));
     ("topicsJSON", encodeTopics (elems (GossipSubConfig.Topics g)));
     ("dhtEnabled", FormatBool (isTrue (KademliaConfig.Enabled k)));
     ("dhtMode", KademliaConfig.Mode k)]%string in
  let m := <["network" := encodeNetwork (Initial network)]> base in
  let m := <["networkRequested" := requestedNetwork p]> m in
  let m := if Network.Scheduled network
           then match Schedule network with
                | Some plan =>
                    <["networkPending" := "true"]> (<["networkSchedule" := encodeSchedule plan]> m)
                | None => m
                end
           else m in
  let m := <["seed" := pretty (CreateNodeRequest.Seed r)]> m in
  let m := <["networkMutable" := FormatBool (CreateNodeRequest.NetworkMutable r)]> m in
  let m := <["profileRevision" := pretty (CreateNodeRequest.ProfileRevision r)]> m in
  if empty (CreateNodeRequest.Lifetime r) then m
  else <["lifetimeBasis" := "container-created"]> (<["lifetime" := CreateNodeRequest.Lifetime r]> m).

(** The record; [network] is the prepared experiment network of an Agent that
    resets networks. *)
Definition newNode (id : string) (now : Time) (network : option ExperimentNetwork.t)
    (r : CreateNodeRequest.t) (p : prepared) : Node.t :=
  let m := metadata r p in
  let m := match network with
           | Some n => <["peerNetworkId" := ExperimentNetwork.NetworkID n]> m
           | None => m
           end in
  Node.mk None (CreateNodeRequest.ID r) (CreateNodeRequest.RunID r) (CreateNodeRequest.Generation r)
    id (CreateNodeRequest.Group r) (CreateNodeRequest.Role r) (nodeType p)
    (if empty (CreateNodeRequest.Profile r) then nodeType p else CreateNodeRequest.Profile r)
    "" NodeStarting [] [] [] ∅ 0 ∅ ∅ (Some m) now now "".

Definition peerConfig (c : Config.t) (network : option ExperimentNetwork.t) (n : Node.t)
    (r : CreateNodeRequest.t) (p : prepared) : PeerProcessConfig.t :=
  PeerProcessConfig.mk (CreateNodeRequest.NetworkMutable r) (CreateNodeRequest.ProfileRevision r)
    (CreateNodeRequest.ExperimentStartedAt r) n (config p) (CreateNodeRequest.Seed r)
    (match network with
     | Some n => ExperimentNetwork.PeerGatewayURL n +:+ "/controller"
     | None => trimRightSlash (Config.ControllerURL c)
     end)
    (match network with
     | Some n => ExperimentNetwork.PeerGatewayURL n +:+ "/agents/" +:+ Config.ID c
     | None => trimRightSlash (Config.SelfURL c)
     end)
    "0.0.0.0:18000" "/ip4/0.0.0.0/tcp/20000" (Config.Token c).
End prepare.
