(* ===== verification/AgentProcess.v ===== *)
(** * A Peer as its Agent tracks it

    The [process] of [internal/agent/agent.go] and the functions of one process:
    its metadata, the condition under which its container is known to be gone,
    and the record a heartbeat carries of it.

    A channel is a number, closed when it is in the server's set of closed
    channels; an error is its text, [None] for nil.  A process is reached through
    a pointer, so the functions here are applied to the value behind it. *)
From Stdlib Require Import ZArith Lia Ascii.
From stdpp Require Import strings list gmap.
From S2P Require Import Prelude.
From S2P Require Import GoStd.
From S2P Require Import GossipSubConfig.
From S2P Require Import AgentModel.
Open Scope Z_scope.

(** [errors.Join(a, b)] *)
Definition joinErr (a b : option string) : option string :=
  match a, b with
  | Some a, Some b => Some (a +:+ String "010"%char b)
  | Some _, None => a
  | None, _ => b
  end.

(** ** Single fields of a record *)
Definition setMetadata (m : gmap string string) (n : Node.t) : Node.t :=
  Node.mk (Node.ScoreSample n) (Node.ID n) (Node.RunID n) (Node.Generation n) (Node.AgentID n)
    (Node.Group n) (Node.Role n) (Node.Type_ n) (Node.Profile n) (Node.PeerID n) (Node.State n)
    (Node.Addresses n) (Node.ConnectedPeers n) (Node.RoutingPeers n) (Node.MeshPeers n)
    (Node.OverlayObservedAt n) (Node.TopicPeers n) (Node.PeerScores n) (Some m) (Node.StartedAt n)
    (Node.LastSeen n) (Node.Error n).
Definition setLastSeen (t : Time) (n : Node.t) : Node.t :=
  Node.setLifecycle (Node.State n) t (Node.Error n) n.
Definition setState (st : string) (n : Node.t) : Node.t :=
  Node.setLifecycle st (Node.LastSeen n) (Node.Error n) n.
(** The record without what only a live Peer has. *)
Definition withoutLive (m : gmap string string) (n : Node.t) : Node.t :=
  Node.mk None (Node.ID n) (Node.RunID n) (Node.Generation n) (Node.AgentID n) (Node.Group n)
    (Node.Role n) (Node.Type_ n) (Node.Profile n) (Node.PeerID n) (Node.State n) [] [] [] ∅ 0 ∅ ∅
    (Some m) (Node.StartedAt n) (Node.LastSeen n) (Node.Error n).

(** [node.Metadata], a nil map reading as an empty one. *)
Definition metadataOf (n : Node.t) : gmap string string := default ∅ (Node.Metadata n).
Definition metadataAt (n : Node.t) (key : string) : string := default "" (metadataOf n !! key).

Module process.
Record t := mk {
  admissionDone : option nat; gatewayURL : string; node : Node.t; apiURL : string;
  configPath : string; cancelled : bool; exited : bool; containerID : string;
  done : option nat; cleanupErr : option string; exitErr : option string;
  heartbeatAcknowledged : bool; peerStatusObservedAt : Time }.

Definition setNode (n : Node.t) (x : t) : t :=
  mk (admissionDone x) (gatewayURL x) n (apiURL x) (configPath x) (cancelled x) (exited x)
    (containerID x) (done x) (cleanupErr x) (exitErr x) (heartbeatAcknowledged x)
    (peerStatusObservedAt x).
Definition setEndpoint (url : string) (x : t) : t :=
  mk (admissionDone x) (gatewayURL x) (node x) url (configPath x) (cancelled x) (exited x)
    (containerID x) (done x) (cleanupErr x) (exitErr x) (heartbeatAcknowledged x)
    (peerStatusObservedAt x).
Definition setConfigPath (path : string) (x : t) : t :=
  mk (admissionDone x) (gatewayURL x) (node x) (apiURL x) path (cancelled x) (exited x)
    (containerID x) (done x) (cleanupErr x) (exitErr x) (heartbeatAcknowledged x)
    (peerStatusObservedAt x).
(** [proc.cancel()] *)
Definition cancel (x : t) : t :=
  mk (admissionDone x) (gatewayURL x) (node x) (apiURL x) (configPath x) true (exited x)
    (containerID x) (done x) (cleanupErr x) (exitErr x) (heartbeatAcknowledged x)
    (peerStatusObservedAt x).
Definition setContainer (id : string) (x : t) : t :=
  mk (admissionDone x) (gatewayURL x) (node x) (apiURL x) (configPath x) (cancelled x) (exited x)
    id (done x) (cleanupErr x) (exitErr x) (heartbeatAcknowledged x) (peerStatusObservedAt x).
Definition setExitErr (e : option string) (x : t) : t :=
  mk (admissionDone x) (gatewayURL x) (node x) (apiURL x) (configPath x) (cancelled x) (exited x)
    (containerID x) (done x) (cleanupErr x) e (heartbeatAcknowledged x) (peerStatusObservedAt x).
(** [proc.exited = true; proc.cleanupErr = e] *)
Definition setExited (e : option string) (x : t) : t :=
  mk (admissionDone x) (gatewayURL x) (node x) (apiURL x) (configPath x) (cancelled x) true
    (containerID x) (done x) e (exitErr x) (heartbeatAcknowledged x) (peerStatusObservedAt x).
(** [proc.exited = false; proc.done = make(chan struct{})] *)
Definition reopen (c : nat) (x : t) : t :=
  mk (admissionDone x) (gatewayURL x) (node x) (apiURL x) (configPath x) (cancelled x) false
    (containerID x) (Some c) (cleanupErr x) (exitErr x) (heartbeatAcknowledged x)
    (peerStatusObservedAt x).
Definition setAcknowledged (b : bool) (x : t) : t :=
  mk (admissionDone x) (gatewayURL x) (node x) (apiURL x) (configPath x) (cancelled x) (exited x)
    (containerID x) (done x) (cleanupErr x) (exitErr x) b (peerStatusObservedAt x).
Definition setObserved (t : Time) (x : process.t) : process.t :=
  mk (admissionDone x) (gatewayURL x) (node x) (apiURL x) (configPath x) (cancelled x) (exited x)
    (containerID x) (done x) (cleanupErr x) (exitErr x) (heartbeatAcknowledged x) t.
End process.

Definition setProcessMetadata (key value : string) (x : process.t) : process.t :=
  process.setNode (setMetadata (<[key := value]> (metadataOf (process.node x))) (process.node x)) x.

Definition inState (st : string) (n : Node.t) : bool := bool_decide (Node.State n = st).
Definition terminal (n : Node.t) : bool := inState NodeStopped n || inState NodeFailed n.

Definition processCleanupComplete (x : process.t) : bool :=
  process.exited x && bool_decide (process.cleanupErr x = None) && terminal (process.node x).

(** The keys a terminal record keeps. *)
Definition evidenceKeys : list string :=
  ["createRequestHash"; "createAdmission"; "cleanupComplete"; "runtime"; "containerId";
   "containerCreatedAt"; "containerStartedAt"; "lifetimeBasis"; "stoppedAt"; "stopRequestedAt";
   "topics"; "topicsJSON"; "pubsubEnabled"; "topicMode"; "meshFreezeEnabled"; "meshFrozen";
   "attackOptions"; "attackStats"; "attackRevision"; "attackStatsObservedAt";
   "attackRegistryObservedAt"; "pubsubAuthorId"; "pubsubAuthorMode"]%string.

Definition heartbeatNodeStatus (x : process.t) : Node.t :=
  if processCleanupComplete x
  then withoutLive (filter (λ kv, kv.1 ∈ evidenceKeys) (metadataOf (process.node x)))
         (process.node x)
  else process.node x.

(** A slot is occupied until the container's removal is confirmed. *)
Definition occupies (x : process.t) : bool :=
  negb (process.exited x) || negb (bool_decide (process.cleanupErr x = None)).

(** ** Texts of numbers *)
Definition MaxUint64 : Z := 2^64 - 1.
Fixpoint parseDigits (acc : Z) (s : list ascii) : option Z :=
  match s with
  | [] => Some acc
  | c :: s => d ← Duration.digit c; parseDigits (10 * acc + d) s
  end.
(** The loop of [strconv.ParseUint(s, 10, 64)]: the value it returns and whether
    the error is nil. *)
Fixpoint parseUint (n : Z) (s : list ascii) : Z * bool :=
  match s with
  | [] => (n, true)
  | c :: s =>
      match Duration.digit c with
      | None => (0, false)
      | Some d => if MaxUint64 <? 10 * n + d then (MaxUint64, false) else parseUint (10 * n + d) s
      end
  end.
Definition ParseUint (s : string) : Z * bool :=
  if empty s then (0, false) else parseUint 0 (String.list_ascii_of_string s).
(** [strconv.Atoi] *)
Definition Atoi (s : string) : option Z :=
  let '(sign, digits) :=
    match String.list_ascii_of_string s with
    | "-"%char :: l => (-1, l)
    | "+"%char :: l => (1, l)
    | l => (1, l)
    end in
  match digits with
  | [] => None
  | l => v ← parseDigits 0 l;
         if (- 2^63 <=? sign * v) && (sign * v <=? MaxInt64) then Some (sign * v) else None
  end.
