(* ===== verification/AgentStatus.v ===== *)
(** * Status reports of Peers

    [updateNode] ([internal/agent/agent.go]) and the parts of a report it
    hands to [network_status.go], [profile_update.go] and [attack_status.go]: what
    a Peer says of itself, merged into the Agent's record in the order of the
    Peer's own clock and of its revisions. *)
From Stdlib Require Import ZArith Lia.
From stdpp Require Import strings list gmap pretty.
From S2P Require Import Prelude.
From S2P Require Import GoStd.
From S2P Require Import Network.
From S2P Require Import Attacks.
From S2P Require Import PeerScore.
From S2P Require Import GossipSubConfig.
From S2P Require Import NodeConfig.
From S2P Require Import Trace.
From S2P Require Import ProfileSchedule.
From S2P Require Import AgentModel.
From S2P Require Import AgentPrepare.
From S2P Require Import AgentProcess.
Open Scope Z_scope.

(** [json] on the texts of a report: [decodeNetwork] and [decodePatch] read one
    value with no unknown field and nothing behind it, [Some None] being null;
    [unmarshalPatch] allows unknown fields.  [parseTime] is
    [time.Parse(RFC3339Nano)]. *)
Class StatusCodec := {
  decodeNetwork : string → option (option NetworkConfig);
  decodePatch : string → option RuntimeProfilePatch.t;
  unmarshalPatch : string → option RuntimeProfilePatch.t;
  encodePatch : RuntimeProfilePatch.t → string;
  parseTime : string → option Time }.

Section status.
Context `{PeerCodec} `{CIDRs} `{PubSubLib} (ParseFloat : string → option float).
Context `{Encoding} `{StatusCodec}.

Definition at_ (m : gmap string string) (key : string) : string := default ""%string (m !! key).
Definition says (m : gmap string string) (key value : string) : bool := bool_decide (at_ m key = value).
Definition own (x : process.t) : gmap string string := metadataOf (process.node x).

(** ** The network *)
Definition networkStale (x : process.t) (revision : Z) : bool :=
  match Atoi (at_ (own x) "networkRevision") with
  | Some previous => revision <=? previous
  | None => false
  end.

Definition networkOk (config : NetworkConfig) : bool :=
  isNil (Schedule config) && isNil (DelayDistribution config) &&
  is_ok (Network.Validate ParseFloat config).

Definition updateProcessNetwork (m : gmap string string) (x : process.t) : process.t :=
  let mutable := says (own x) "networkMutable" "true" in
  if (empty (at_ (own x) "networkSchedule") && negb mutable) || negb (says m "networkPending" "false")
  then x
  else
    match Atoi (at_ m "networkRevision") with
    | None => x
    | Some revision =>
        let raw := at_ m "network" in
        if (revision <? 0) || ((128 <? revision) && negb mutable) || (2147483647 <? revision) ||
           networkStale x revision || (16384 <? Z.of_nat (String.length raw))
        then x
        else
          match decodeNetwork raw with
          | Some (Some config) =>
              if negb (networkOk config) then x
              else
                match parseTime (at_ m "networkAppliedAt") with
                | None => x
                | Some appliedAt =>
                    let x := setProcessMetadata "network" raw x in
                    let x := setProcessMetadata "networkPending" "false" x in
                    let x := setProcessMetadata "networkRevision" (pretty revision) x in
                    setProcessMetadata "networkAppliedAt" (formatTime appliedAt) x
                end
          | _ => x
          end
    end.

(** ** The runtime profile *)
(** The parts the acknowledged patch did not have are kept. *)
Definition filledPatch (effective prior : RuntimeProfilePatch.t) : RuntimeProfilePatch.t :=
  RuntimeProfilePatch.mk
    (nonnil (RuntimeProfilePatch.Forwarding effective) (RuntimeProfilePatch.Forwarding prior))
    (nonnil (RuntimeProfilePatch.Sink effective) (RuntimeProfilePatch.Sink prior))
    (nonnil (RuntimeProfilePatch.Censorship effective) (RuntimeProfilePatch.Censorship prior))
    (nonnil (RuntimeProfilePatch.MessageDelay effective) (RuntimeProfilePatch.MessageDelay prior))
    (nonnil (RuntimeProfilePatch.GossipSub effective) (RuntimeProfilePatch.GossipSub prior))
    (nonnil (RuntimeProfilePatch.Network effective) (RuntimeProfilePatch.Network prior)).

Definition storeProfileAcknowledgement (revision : Z) (response : RuntimeProfilePatch.t) (t : Time)
    (x : process.t) : process.t :=
  let previous := (ParseUint (at_ (own x) "profileRevision")).1 in
  if (revision <? previous) ||
     ((revision =? previous) && negb (empty (at_ (own x) "runtimeProfile"))) then x
  else
    let effective :=
      match unmarshalPatch (at_ (own x) "runtimeProfile") with
      | Some prior =>
          if is_ok (RuntimeProfilePatch.ValidateRuntimeProfileSnapshot ParseFloat prior)
          then filledPatch response prior else response
      | None => response
      end in
    let x := setProcessMetadata "runtimeProfile" (encodePatch effective) x in
    let x := setProcessMetadata "profileRevision" (pretty revision) x in
    let x := setProcessMetadata "profilePending" "false" x in
    let x := setProcessMetadata "profileAppliedAt" (formatTime t) x in
    match RuntimeProfilePatch.Network response with
    | None => x
    | Some n =>
        let x := setProcessMetadata "network" (encodeNetwork n) x in
        let x := setProcessMetadata "networkRevision" (pretty revision) x in
        let x := setProcessMetadata "networkPending" "false" x in
        setProcessMetadata "networkAppliedAt" (formatTime t) x
    end.

(** The Peer has the capabilities the reported patch uses. *)
Definition capable (x : process.t) (p : RuntimeProfilePatch.t) : bool :=
  let gossip := says (own x) "pubsubEnabled" "true" && says (own x) "pubsubRouter" "gossipsub" in
  let active := ProbabilityAttack.Active (RuntimeProfilePatch.Forwarding p) ||
                ProbabilityAttack.Active (RuntimeProfilePatch.Sink p) ||
                ProbabilityAttack.Active (RuntimeProfilePatch.Censorship p) ||
                ProbabilityAttack.Active (RuntimeProfilePatch.MessageDelay p) in
  (isNil (RuntimeProfilePatch.Network p) || says (own x) "networkMutable" "true") &&
  (isNil (RuntimeProfilePatch.GossipSub p) || gossip) &&
  (negb (RuntimeProfilePatch.HasAttacks p) ||
   (gossip && (negb active || bool_decide (Node.Role (process.node x) = "worker"%string)))).

Definition updateProcessProfile (m : gmap string string) (x : process.t) : process.t :=
  let '(revision, ok) := ParseUint (at_ m "profileRevision") in
  let previous := (ParseUint (at_ (own x) "profileRevision")).1 in
  let raw := at_ m "runtimeProfile" in
  if negb ok || (revision =? 0) || (revision <? previous) ||
     ((revision =? previous) && negb (empty (at_ (own x) "runtimeProfile"))) ||
     (2147483647 <? revision) || (32768 <? Z.of_nat (String.length raw)) then x
  else
    match decodePatch raw with
    | None => x
    | Some effective =>
        if negb (is_ok (RuntimeProfilePatch.ValidateRuntimeProfileSnapshot ParseFloat effective)) ||
           negb (capable x effective) then x
        else
          match parseTime (at_ m "profileAppliedAt") with
          | None => x
          | Some appliedAt => storeProfileAcknowledgement revision effective appliedAt x
          end
    end.

(** ** Attacks *)
(** The reported attack values are newer than the recorded ones. *)
Definition attackNewer (m : gmap string string) (x : process.t) : bool :=
  let '(revision, revisionOk) := ParseUint (at_ m "attackRevision") in
  let '(previous, previousOk) := ParseUint (at_ (own x) "attackRevision") in
  match parseTime (at_ m "attackStatsObservedAt") with
  | Some observed =>
      revisionOk && negb (IsZero observed) &&
      (negb previousOk || (previous <? revision) ||
       ((revision =? previous) &&
        match parseTime (at_ (own x) "attackStatsObservedAt") with
        | Some previousTime => previousTime <? observed
        | None => true
        end))
  | None => false
  end.

Definition attackKeys (m : gmap string string) (x : process.t) : list string :=
  ["pubsubAuthorId"; "pubsubAuthorMode"]%string ++
  (if bool_decide (is_Some (m !! "attackRevision"%string)) &&
      bool_decide (is_Some (m !! "attackOptions"%string)) &&
      bool_decide (is_Some (m !! "attackStats"%string)) && attackNewer m x
   then ["attackOptions"; "attackStats"; "attackRevision"; "attackStatsObservedAt";
         "attackRegistryObservedAt"]%string
   else []).

Definition copyKey (m : gmap string string) (x : process.t) (key : string) : process.t :=
  match m !! key with Some value => setProcessMetadata key value x | None => x end.
Definition updateProcessAttackStatus (m : gmap string string) (x : process.t) : process.t :=
  foldl (copyKey m) x (attackKeys m x).

(** ** The whole report *)
(** The report is not applied: the Peer is ending, or the report is not after the
    last one by the Peer's clock. *)
Definition reportIgnored (update : Node.t) (x : process.t) : bool :=
  let n := process.node x in
  process.exited x || inState NodeStopping n || inState NodeStopped n || inState NodeFailed n ||
  (negb (IsZero (process.peerStatusObservedAt x)) &&
   (IsZero (Node.LastSeen update) ||
    negb (process.peerStatusObservedAt x <? Node.LastSeen update))).

Definition reported (now : Time) (update : Node.t) (x : process.t) : Node.t :=
  let n := process.node x in
  let overlay := negb (IsZero (Node.OverlayObservedAt update)) &&
                 (IsZero (Node.OverlayObservedAt n) ||
                  (Node.OverlayObservedAt n <? Node.OverlayObservedAt update)) in
  Node.mk
    (if PeerScoreSample.Valid (Node.ScoreSample update) &&
        PeerScoreSample.NewerThan (Node.ScoreSample update) (Node.ScoreSample n)
     then Node.ScoreSample update else Node.ScoreSample n)
    (Node.ID n) (Node.RunID n) (Node.Generation n) (Node.AgentID n) (Node.Group n) (Node.Role n)
    (Node.Type_ n) (Node.Profile n) (Node.PeerID update) (Node.State n) (Node.Addresses update)
    (Node.ConnectedPeers update)
    (if overlay then Node.RoutingPeers update else Node.RoutingPeers n)
    (if overlay then Node.MeshPeers update else Node.MeshPeers n)
    (if overlay then Node.OverlayObservedAt update else Node.OverlayObservedAt n)
    (Node.TopicPeers update) (Node.PeerScores update) (Node.Metadata n) (Node.StartedAt n) now
    (Node.Error update).

Definition updateNode (now : Time) (update : Node.t) (x : process.t) : process.t :=
  if reportIgnored update x then x
  else
    let m := metadataOf update in
    let x := if IsZero (Node.LastSeen update) then x
             else process.setObserved (Node.LastSeen update) x in
    let state := if negb (inState NodeReady update) || negb (empty (process.apiURL x))
                 then Node.State update else Node.State (process.node x) in
    let x := process.setNode (setState state (process.node x)) x in
    let x := if inState NodeReady (process.node x) && empty (at_ (own x) "readyAt")
             then setProcessMetadata "readyAt" (formatTime now) x else x in
    let x := process.setNode (reported now update x) x in
    let x := updateProcessNetwork m x in
    let x := updateProcessProfile m x in
    let x := updateProcessAttackStatus m x in
    if says (own x) "meshFreezeEnabled" "true" && says m "meshFrozen" "true"
    then setProcessMetadata "meshFrozen" "true" x else x.
End status.
