(* ===== verification/AgentServer.v ===== *)
(** * The state of an Agent and its critical sections

    [Server] of [internal/agent]: the table of Peers, run fences, the retired
    history on disk, and what the Agent does under its locks ([agent.go],
    [container.go], [create_replay.go], [history.go], [history_store.go],
    [experiment_network.go]).  A definition here is one critical section, or one
    file operation; [AgentThreads] runs them interleaved.

    Go ranges over the table in any order; the bodies touch one process each, so
    the model folds over [map_to_list].  The database of retired Peers is keyed
    by a hash of the ID and its fences by files: here by the ID itself.  The
    history is never nil, as [New] opens it, and the API is served once start-up
    has been reconciled.  [historyRevision] counts without wrapping. *)
From Stdlib Require Import ZArith Lia.
From stdpp Require Import strings list gmap sorting.
From S2P Require Import Prelude.
From S2P Require Import GoStd.
From S2P Require Import Network.
From S2P Require Import Attacks.
From S2P Require Import GossipSubConfig.
From S2P Require Import AgentModel.
From S2P Require Import Inventory.
From S2P Require Import AgentPrepare.
From S2P Require Import AgentProcess.
Open Scope Z_scope.

(** [model.ExperimentNetworkRequest] *)
Module NetworkRequest.
Record t := mk { RunID : string; Epoch : string; RequestedAt : Time }.
Definition zero : t := mk "" "" 0.
End NetworkRequest.

(** What happened, latest last: not part of the program, but what its
    properties speak of. *)
Inductive event :=
| Admission (p : nat) (id run : string) (generation : Z)
| Launched (p : nat)                            (* [docker create] was run *)
| Fenced (run : string) (generation : Z)        (* the run's fence was raised *)
| Drained (run : string) (generation : Z)       (* its removal was acknowledged *)
| Terminated (p : nat)                          (* evidence of an exit was queued *)
| Delivered (n : Node.t)                        (* the Controller took the record *)
| Answered (r : CreateNodeRequest.t) (n : Node.t) (* a creation was acknowledged *)
| NetworkFenced (run : string) (own : gset nat) (others : string)
    (* the network may be reset; the containers of this Agent's Peers and the other
       ones that the daemon listed *)
| Emptied.                                      (* all Peers were found removed *)

Record server := mkServer {
  config : Config.t; startedAt : Time;
  processes : gmap string nat; heap : gmap nat process.t;
  runFences : gmap string Z; historyRevision : nat;
  shuttingDown : bool; fencingAll : bool; rebootPending : bool; capacityLimit : Z;
  experimentNetwork : option ExperimentNetwork.t; networkRequest : NetworkRequest.t;
  networkMu : bool;
  terminations : gmap string Time;
  stored : gmap string Node.t; runs : gset string; fences : gmap string Z;
  historyMu : bool; heartbeatMu : bool;
  closed : gset nat; fresh : nat; crashed : bool;
  containers : gset nat; log : list event }.

(** ** Assignments *)
Definition withTable (ps : gmap string nat) (h : gmap nat process.t) (s : server) : server :=
  mkServer (config s) (startedAt s) ps h (runFences s) (historyRevision s) (shuttingDown s)
    (fencingAll s) (rebootPending s) (capacityLimit s) (experimentNetwork s) (networkRequest s) (networkMu s)
    (terminations s) (stored s) (runs s) (fences s) (historyMu s) (heartbeatMu s) (closed s)
    (fresh s) (crashed s) (containers s) (log s).
Definition withHistory (f : gmap string Z) (revision : nat) (s : server) : server :=
  mkServer (config s) (startedAt s) (processes s) (heap s) f revision (shuttingDown s)
    (fencingAll s) (rebootPending s) (capacityLimit s) (experimentNetwork s) (networkRequest s) (networkMu s)
    (terminations s) (stored s) (runs s) (fences s) (historyMu s) (heartbeatMu s) (closed s)
    (fresh s) (crashed s) (containers s) (log s).
Definition withFlags (shutting fencing rebooting : bool) (limit : Z) (s : server) : server :=
  mkServer (config s) (startedAt s) (processes s) (heap s) (runFences s) (historyRevision s)
    shutting fencing rebooting limit (experimentNetwork s) (networkRequest s) (networkMu s)
    (terminations s) (stored s) (runs s) (fences s) (historyMu s) (heartbeatMu s) (closed s)
    (fresh s) (crashed s) (containers s) (log s).
Definition withNetworks (n : option ExperimentNetwork.t) (r : NetworkRequest.t) (s : server) : server :=
  mkServer (config s) (startedAt s) (processes s) (heap s) (runFences s) (historyRevision s)
    (shuttingDown s) (fencingAll s) (rebootPending s) (capacityLimit s) n r (networkMu s)
    (terminations s) (stored s) (runs s) (fences s) (historyMu s) (heartbeatMu s) (closed s)
    (fresh s) (crashed s) (containers s) (log s).
Definition withNetworkMu (locked : bool) (s : server) : server :=
  mkServer (config s) (startedAt s) (processes s) (heap s) (runFences s) (historyRevision s)
    (shuttingDown s) (fencingAll s) (rebootPending s) (capacityLimit s) (experimentNetwork s)
    (networkRequest s) locked (terminations s) (stored s) (runs s) (fences s) (historyMu s)
    (heartbeatMu s) (closed s) (fresh s) (crashed s) (containers s) (log s).
Definition withTerminations (m : gmap string Time) (s : server) : server :=
  mkServer (config s) (startedAt s) (processes s) (heap s) (runFences s) (historyRevision s)
    (shuttingDown s) (fencingAll s) (rebootPending s) (capacityLimit s) (experimentNetwork s)
    (networkRequest s) (networkMu s) m (stored s) (runs s) (fences s) (historyMu s) (heartbeatMu s) (closed s)
    (fresh s) (crashed s) (containers s) (log s).
Definition withDisk (n : gmap string Node.t) (r : gset string) (f : gmap string Z) (s : server) : server :=
  mkServer (config s) (startedAt s) (processes s) (heap s) (runFences s) (historyRevision s)
    (shuttingDown s) (fencingAll s) (rebootPending s) (capacityLimit s) (experimentNetwork s)
    (networkRequest s) (networkMu s) (terminations s) n r f (historyMu s) (heartbeatMu s) (closed s)
    (fresh s) (crashed s) (containers s) (log s).
Definition withLocks (history heartbeat : bool) (s : server) : server :=
  mkServer (config s) (startedAt s) (processes s) (heap s) (runFences s) (historyRevision s)
    (shuttingDown s) (fencingAll s) (rebootPending s) (capacityLimit s) (experimentNetwork s)
    (networkRequest s) (networkMu s) (terminations s) (stored s) (runs s) (fences s) history heartbeat (closed s)
    (fresh s) (crashed s) (containers s) (log s).
Definition withChannels (c : gset nat) (next : nat) (panicked : bool) (s : server) : server :=
  mkServer (config s) (startedAt s) (processes s) (heap s) (runFences s) (historyRevision s)
    (shuttingDown s) (fencingAll s) (rebootPending s) (capacityLimit s) (experimentNetwork s)
    (networkRequest s) (networkMu s) (terminations s) (stored s) (runs s) (fences s) (historyMu s) (heartbeatMu s)
    c next panicked (containers s) (log s).
Definition withContainers (c : gset nat) (s : server) : server :=
  mkServer (config s) (startedAt s) (processes s) (heap s) (runFences s) (historyRevision s)
    (shuttingDown s) (fencingAll s) (rebootPending s) (capacityLimit s) (experimentNetwork s)
    (networkRequest s) (networkMu s) (terminations s) (stored s) (runs s) (fences s) (historyMu s) (heartbeatMu s)
    (closed s) (fresh s) (crashed s) c (log s).
Definition record (l : list event) (s : server) : server :=
  mkServer (config s) (startedAt s) (processes s) (heap s) (runFences s) (historyRevision s)
    (shuttingDown s) (fencingAll s) (rebootPending s) (capacityLimit s) (experimentNetwork s)
    (networkRequest s) (networkMu s) (terminations s) (stored s) (runs s) (fences s) (historyMu s) (heartbeatMu s)
    (closed s) (fresh s) (crashed s) (containers s) (log s ++ l).

(** The value behind a pointer. *)
Definition zeroNode : Node.t :=
  Node.mk None "" "" 0 "" "" "" "" "" "" "" [] [] [] ∅ 0 ∅ ∅ None 0 0 "".
Definition zeroProcess : process.t :=
  process.mk None "" zeroNode "" "" false false "" None None None false 0.
Definition proc (s : server) (p : nat) : process.t := default zeroProcess (heap s !! p).
Definition setProc (p : nat) (x : process.t) (s : server) : server :=
  withTable (processes s) (<[p := x]> (heap s)) s.
Definition modify (p : nat) (f : process.t → process.t) (s : server) : server :=
  setProc p (f (proc s p)) s.
Definition bump (s : server) : server := withHistory (runFences s) (S (historyRevision s)) s.

(** [make(chan struct{})] and [close(c)]; closing a closed channel panics. *)
Definition makeChan (s : server) : nat * server :=
  (fresh s, withChannels (closed s) (S (fresh s)) (crashed s) s).
Definition closeChan (c : nat) (s : server) : server :=
  if bool_decide (c ∈ closed s) then withChannels (closed s) (fresh s) true s
  else withChannels ({[c]} ∪ closed s) (fresh s) (crashed s) s.

(** The processes of the table. *)
Definition table (s : server) : list nat := snd <$> map_to_list (processes s).

Definition capacityLocked (s : server) : Z :=
  if 0 <? capacityLimit s then capacityLimit s else Config.Capacity (config s).
Definition capacityUsedLocked (s : server) : nat :=
  length (filter (λ p, occupies (proc s p) = true) (table s)).

Section sections.
Context `{PeerCodec} `{Encoding}.

(** ** Admission ([lockAdmission], [admitNode]) *)
Definition errNodeExists : string := "node already exists".
Definition errCapacityReached : string := "agent capacity reached".
Definition errTelemetryBacklogFull : string := "Agent telemetry backlog is full".
Definition errPeerHistoryFull : string := "Agent terminal evidence is awaiting delivery".
Definition peerHistoryRecent : nat := 64.
Definition peerHistoryLimit : nat := 4096.
Definition runFenceCacheLimit : nat := 128.
Definition historyPruneBatch : nat := 128.

(** The fence in force: the cached one where it is higher than the stored one. *)
Definition currentFence (cached stored : option Z) : option Z :=
  match cached, stored with
  | Some c, Some f => if f <? c then Some c else Some f
  | Some c, None => Some c
  | None, f => f
  end.

Definition networkPrepared (r : CreateNodeRequest.t) (s : server) : bool :=
  negb (Config.AutoResetNetwork (config s)) ||
  match experimentNetwork s with
  | Some n => bool_decide (ExperimentNetwork.RunID n = CreateNodeRequest.RunID r) &&
              bool_decide (ExperimentNetwork.NetworkID n = CreateNodeRequest.PeerNetworkID r)
  | None => false
  end.

(** The checks of one round of [lockAdmission] once [mu] is held and the revision
    is found unchanged. *)
Definition admissionCheck (r : CreateNodeRequest.t) (storedFence : option Z) (pending : nat)
    (telemetryFull : bool) (s : server) : res unit :=
  let occupied := capacityUsedLocked s in
  fail_if (shuttingDown s) "agent is shutting down";;
  fail_if (rebootPending s) "Agent host reboot is pending";;
  fail_if (negb (networkPrepared r s)) "Peer network has not been prepared";;
  fail_if (fencingAll s) "agent is stopping Peers";;
  fail_if (ptr (λ f, CreateNodeRequest.Generation r <=? f)
             (currentFence (runFences s !! CreateNodeRequest.RunID r) storedFence))
    "run is fenced";;
  fail_if (bool_decide (is_Some (processes s !! CreateNodeRequest.ID r))) errNodeExists;;
  fail_if (capacityLocked s <=? Z.of_nat occupied) errCapacityReached;;
  fail_if telemetryFull errTelemetryBacklogFull;;
  fail_if ((peerHistoryLimit <=? size (processes s) - occupied)%nat ||
           (peerHistoryLimit <=? pending)%nat) errPeerHistoryFull.

(** The experiment network a new Peer joins. *)
Definition networkOf (s : server) : option ExperimentNetwork.t :=
  if Config.AutoResetNetwork (config s) then experimentNetwork s else None.

(** The insertion of the new process: it is returned with the record for the
    reply and the configuration for its container. *)
Definition insertProcess (now : Time) (r : CreateNodeRequest.t) (hash : string) (a : prepared)
    (s : server) : (nat * Node.t * PeerProcessConfig.t) * server :=
  let network := networkOf s in
  let n := newNode (Config.ID (config s)) now network r a in
  let '(d, s) := makeChan s in
  let '(admission, s) := if empty hash then (None, s)
                         else let '(c, s) := makeChan s in (Some c, s) in
  let own := if empty hash then n
             else setMetadata (<["createAdmission" := "pending"]>
                    (<["createRequestHash" := hash]> (metadataOf n)))%string n in
  let p := fresh s in
  let x := process.mk admission (default "" (ExperimentNetwork.GatewayURL <$> network)) own "" ""
             false false "" (Some d) None None false 0 in
  let s := withChannels (closed s) (S p) (crashed s) s in
  let s := withTable (<[CreateNodeRequest.ID r := p]> (processes s)) (<[p := x]> (heap s)) s in
  ((p, n, peerConfig (config s) network n r a),
   record [Admission p (CreateNodeRequest.ID r) (CreateNodeRequest.RunID r)
             (CreateNodeRequest.Generation r)] s).

(** ** Replay of a creation ([create_replay.go]) *)
Definition createRequestHash (r : CreateNodeRequest.t) (s : server) : res string :=
  if IsZero (CreateNodeRequest.AgentStartedAt r) then Ok ""%string
  else if negb (CreateNodeRequest.AgentStartedAt r =? startedAt s)
  then Err "Agent instance changed; refusing Peer creation replay"
  else Ok (requestHash r).

(** The record a replay answers with. *)
Definition replayAnswer (hash : string) (n : Node.t) : res Node.t :=
  fail_if (negb (bool_decide (metadataAt n "createRequestHash" = hash)))
    "node already exists with a different create request";;
  fail_if (negb (bool_decide (metadataAt n "createAdmission" = "accepted"%string)))
    "node admission did not complete";;
  mret n.

(** ** The end of a process ([finishProcess]) *)
(** Its first critical section: the final state and message, and whether
    evidence of the exit is due. *)
Definition finishState (x : process.t) (runErr cleanupErr : option string) :
    option string * string * string :=
  let exitErr := match runErr with
                 | Some _ => if inState NodeStopping (process.node x) then process.exitErr x else runErr
                 | None => process.exitErr x
                 end in
  match joinErr exitErr cleanupErr with
  | Some message => (exitErr, NodeFailed, message)
  | None => (exitErr, NodeStopped, ""%string)
  end.

Definition current (id : string) (p : nat) (s : server) : bool :=
  bool_decide (processes s !! id = Some p).

Definition finishBegin (observedAt : Time) (id : string) (p : nat) (runErr cleanupErr : option string)
    (s : server) : (string * string * bool) * server :=
  let '(exitErr, st, message) := finishState (proc s p) runErr cleanupErr in
  let s := modify p (process.setExitErr exitErr) s in
  if current id p s then
    ((st, message, bool_decide (cleanupErr = None)),
     modify p (λ x, process.setNode (setLastSeen observedAt (setState NodeStopping (process.node x))) x) s)
  else ((st, message, false), s).

(** [queueTermination]: [accepted] when the spool took the event. *)
Definition queueTermination (id : string) (t : Time) (accepted : bool) (s : server) : server :=
  let due := match terminations s !! id with Some existing => t <? existing | None => true end in
  if negb due then s
  else if accepted then withTerminations (delete id (terminations s)) s
  else withTerminations (<[id := t]> (terminations s)) s.

(** [admitTerminationsLocked] with a spool that takes the events of [accepted],
    those that came first in the map's order. *)
Definition admitTerminationsLocked (accepted : list string) (s : server) : server :=
  withTerminations (foldl (λ m id, delete id m) (terminations s) accepted) s.

(** The second critical section. *)
Definition finishEnd (observedAt now : Time) (id : string) (p : nat) (cleanupErr : option string)
    (st message : string) (s : server) : server :=
  let s := modify p (process.setExited cleanupErr) s in
  let s := if current id p s
           then modify p (λ x,
                  let x := process.setNode (setLastSeen now (process.node x)) x in
                  let x := setProcessMetadata "stoppedAt" (formatTime observedAt) x in
                  process.setNode (Node.setLifecycle st (Node.LastSeen (process.node x)) message
                                     (process.node x)) x) s
           else s in
  let s := if processCleanupComplete (proc s p)
           then modify p (λ x,
                  let x := setProcessMetadata "cleanupComplete" "true" x in
                  process.setEndpoint "" (process.setNode (heartbeatNodeStatus x) x)) s
           else s in
  match process.done (proc s p) with
  | Some c => closeChan c s
  | None => s
  end.

(** ** Stops *)
(** [retryContainerCleanupLocked], without the goroutine it starts. *)
Definition reopenProcess (p : nat) (s : server) : server :=
  let '(c, s) := makeChan s in
  modify p (λ x, process.setNode (setState NodeStopping (process.node x)) (process.reopen c x)) s.

Definition retryable (x : process.t) : bool :=
  negb (bool_decide (process.cleanupErr x = None)) && negb (empty (process.containerID x)).

(** What stopping one process left to do: a removal to retry, or its context to
    cancel. *)
Inductive stopped := Nothing | RetryRemoval (p : nat) | CancelContext (p : nat).

Definition markStopping (now : Time) (x : process.t) : process.t :=
  let x := process.setNode (setLastSeen now (setState NodeStopping (process.node x))) x in
  if empty (metadataAt (process.node x) "stopRequestedAt")
  then setProcessMetadata "stopRequestedAt" (formatTime now) x else x.

(** [stopNode]; [None]: the node is not found. *)
Definition stopNode (now : Time) (id : string) (s : server) : option stopped * server :=
  match processes s !! id with
  | None => (None, s)
  | Some p =>
      if process.exited (proc s p) then
        if retryable (proc s p) then (Some (RetryRemoval p), reopenProcess p s) else (Some Nothing, s)
      else (Some (CancelContext p), modify p (markStopping now) s)
  end.

(** The body of the loop of [stopRunGeneration]. *)
Definition stopMatching (now : Time) (run : string) (fence : Z) (acc : list stopped * server) (p : nat) :
    list stopped * server :=
  let '(todo, s) := acc in
  let x := proc s p in
  if negb (bool_decide (Node.RunID (process.node x) = run)) || (fence <? Node.Generation (process.node x))
  then (todo, s)
  else if process.exited x then
    if retryable x then (todo ++ [RetryRemoval p], reopenProcess p s) else (todo, s)
  else if inState NodeStopping (process.node x) &&
          negb (empty (metadataAt (process.node x) "stopRequestedAt")) then (todo, s)
  else (todo ++ [CancelContext p], modify p (markStopping now) s).

Definition stopRunGeneration (now : Time) (run : string) (generation : Z) (s : server) :
    list stopped * server :=
  let '(fence, s) :=
    match runFences s !! run with
    | Some fence =>
        if fence <? generation
        then (generation, withHistory (<[run := generation]> (runFences s)) (S (historyRevision s)) s)
        else (fence, s)
    | None => (generation, withHistory (<[run := generation]> (runFences s)) (S (historyRevision s)) s)
    end in
  foldl (stopMatching now run fence) ([], record [Fenced run generation] s) (table s).

(** The processes [waitRunContainers] waits for. *)
Definition pendingOf (run : string) (generation : Z) (s : server) : list nat :=
  filter (λ p, Node.RunID (process.node (proc s p)) = run ∧
               Node.Generation (process.node (proc s p)) <= generation) (table s).

(** One round of the inner loop of [waitProcessesStopped]: [inl c] to wait for
    channel [c], [inr failed] when the process is done with. *)
Definition waitRound (p : nat) (s : server) : nat + bool :=
  let x := proc s p in
  if process.exited x then inr (negb (bool_decide (process.cleanupErr x = None)))
  else match process.done x with Some c => inl c | None => inr true end.

(** The targets of [stopAll]. *)
Definition stopTargets (s : server) : list string :=
  omap (λ kp, if occupies (proc s kp.2) then Some kp.1 else None) (map_to_list (processes s)).

(** The fences [handleNodes] raises before it stops all Peers. *)
Definition fenceTable (s : server) : server :=
  let ids := (λ p, Node.RunID (process.node (proc s p))) <$> table s in
  record ((λ id, Fenced id MaxUint64) <$> ids)
    (withHistory (foldl (λ f id, <[id := MaxUint64]> f) (runFences s) ids) (historyRevision s) s).

(** ** Retirement ([reclaimHistory]) *)
(** [sort.Slice] by [LastSeen]; the order of equal times is not specified. *)
Definition seenLe (s : server) (p q : nat) : Prop :=
  Node.LastSeen (process.node (proc s p)) <= Node.LastSeen (process.node (proc s q)).
#[export] Instance seenLe_dec s : RelDecision (seenLe s).
Proof. intros p q. unfold seenLe. apply _. Defined.
Definition retirable (x : process.t) : bool :=
  process.heartbeatAcknowledged x && processCleanupComplete x.
Definition retireCandidates (s : server) : list nat :=
  merge_sort (seenLe s) (filter (λ p, retirable (proc s p) = true) (table s)).

Definition retireCount (candidates : nat) : nat :=
  Nat.min historyPruneBatch (candidates - peerHistoryRecent).

(** A record the database accepts ([validateHistoryNode]); its size is below the
    limit, as it fits a heartbeat. *)
Definition validHistoryNode (n : Node.t) : bool :=
  negb (empty (Node.ID n)) && negb (empty (Node.RunID n)) && terminal n.

(** [saveNodes]: the run indexes, then one transaction. *)
Definition saveRuns (nodes : list Node.t) (s : server) : server :=
  withDisk (stored s) (runs s ∪ list_to_set (Node.RunID <$> nodes)) (fences s) s.
Definition commitNodes (nodes : list Node.t) (s : server) : server :=
  withDisk (foldl (λ m n, <[Node.ID n := n]> m) (stored s) nodes) (runs s) (fences s) s.

(** The deletion of the retired processes from memory. *)
Definition dropRetired (acc : server) (np : Node.t * nat) : server :=
  let '(n, p) := np in
  if current (Node.ID n) p acc && retirable (proc acc p)
  then bump (withTable (delete (Node.ID n) (processes acc)) (heap acc) acc) else acc.

(** [saveFence]: the new file, written unless the stored fence is as high. *)
Definition saveFence (run : string) (generation : Z) (s : server) : server :=
  match fences s !! run with
  | Some previous => if generation <=? previous then s
                     else withDisk (stored s) (runs s) (<[run := generation]> (fences s)) s
  | None => withDisk (stored s) (runs s) (<[run := generation]> (fences s)) s
  end.
Definition evictFence (run : string) (generation : Z) (s : server) : server :=
  if bool_decide (runFences s !! run = Some generation)
  then withHistory (delete run (runFences s)) (S (historyRevision s)) s else s.

(** ** Heartbeats *)
(** [sort.Slice] by ID. *)
Definition nodeLe (a b : Node.t) : Prop := Is_true (String.leb (Node.ID a) (Node.ID b)).
#[export] Instance nodeLe_dec : RelDecision nodeLe.
Proof. intros a b. unfold nodeLe. apply _. Defined.
(** The records [snapshotWithHistory(false)] reports. *)
Definition heartbeatNodes (s : server) : list Node.t :=
  merge_sort nodeLe
    (heartbeatNodeStatus <$>
       (filter (λ x, retirable x = false) (proc s <$> table s))).

(** The Controller accepted a batch with this record. *)
Definition acknowledge (s : server) (n : Node.t) : server :=
  match processes s !! Node.ID n with
  | Some p =>
      let x := proc s p in
      if bool_decide (Node.State n = Node.State (process.node x)) &&
         (Node.LastSeen n =? Node.LastSeen (process.node x)) && processCleanupComplete x
      then modify p (process.setAcknowledged true) s else s
  | None => s
  end.
Definition forgetAcknowledgements (s : server) : server :=
  foldl (λ s p, modify p (process.setAcknowledged false) s) s (table s).

(** ** The experiment network *)
(** The critical section of [fenceExperimentNetwork], before the daemon is asked. *)
Definition fenceExperimentNetwork (r : NetworkRequest.t) (s : server) : res unit * server :=
  if empty (NetworkRequest.RunID r) || empty (NetworkRequest.Epoch r) ||
     IsZero (NetworkRequest.RequestedAt r)
  then (Err "experiment network identity is required", s)
  else if shuttingDown s || rebootPending s then (Err "Agent is not ready for network reset", s)
  else if negb (bool_decide (NetworkRequest.Epoch (networkRequest s) = NetworkRequest.Epoch r)) &&
          negb (IsZero (NetworkRequest.RequestedAt (networkRequest s))) &&
          negb (NetworkRequest.RequestedAt (networkRequest s) <? NetworkRequest.RequestedAt r)
  then (Err "stale network preparation", s)
  else if existsb (λ p, occupies (proc s p)) (table s)
  then (Err "Peer removal must finish before network reset", s)
  else (Ok tt, withNetworks None r s).

(** The last critical section of [activateExperimentNetwork], after the gateway
    has answered. *)
Definition activateExperimentNetwork (n : ExperimentNetwork.t) (s : server) : res unit * server :=
  if shuttingDown s || rebootPending s ||
     negb (bool_decide (NetworkRequest.Epoch (networkRequest s) = ExperimentNetwork.Epoch n)) ||
     negb (bool_decide (NetworkRequest.RunID (networkRequest s) = ExperimentNetwork.RunID n))
  then (Err "experiment network preparation was superseded", s)
  else (Ok tt, withNetworks (Some n) (networkRequest s) s).
End sections.
