(* ===== verification/AgentThreads.v ===== *)
(** * The goroutines of an Agent

    The handlers and background loops of [internal/agent] as threads over
    [AgentServer.server]: each constructor of [thread] is a point between two
    steps, a step being one critical section, one file or Docker operation, or a
    wait.  Any thread may move next, and requests arrive at any time.

    What the code does not decide is the [input] of a step: the clock, whether the
    request's context has ended (in a [select], whether its branch was taken), the
    error of an operation ([ioErr], [None] when it succeeded), the text or
    number it returned, and whether Docker has answered the wait for a container
    ([waitOver]: it runs no longer, or the daemon failed). *)
From Stdlib Require Import ZArith Lia.
From stdpp Require Import strings list gmap sorting.
From S2P Require Import Prelude.
From S2P Require Import GoStd.
From S2P Require Import Distribution.
From S2P Require Import Network.
From S2P Require Import Attacks.
From S2P Require Import PeerScore.
From S2P Require Import GossipSubConfig.
From S2P Require Import NodeConfig.
From S2P Require Import AgentModel.
From S2P Require Import Inventory.
From S2P Require Import AgentPrepare.
From S2P Require Import AgentProcess.
From S2P Require Import AgentStatus.
From S2P Require Import AgentServer.
Open Scope Z_scope.

Record input := mkInput {
  now : Time; ctxDone : bool; ioErr : option string; text : string; count : nat;
  full : bool; fuel : nat; waitOver : bool }.

(** A creation being admitted. *)
Record creation := mkCreation { request : CreateNodeRequest.t; hash : string }.

(** A call of [finishProcess] and who made it. *)
Inductive caller := OfDocker | OfRetry | OfAdmission.
Record finishing := mkFinishing {
  madeBy : caller; nodeID : string; pointer : nat; runErr : option string;
  cleanupErr : option string }.

(** Who waits in [waitProcessesStopped], and who walks through [stopAll]. *)
Inductive waiter := ForRun (run : string) (generation : Z) | ForAll | ForShutdown.

Inductive thread :=
(* [admitNode], [replayCreate] and [lockAdmission] *)
| AdmitStart (r : CreateNodeRequest.t)
| ReplayLook (c : creation) (second : bool)
| ReplayWait (c : creation) (p : nat)
| ReplayReceipt (c : creation) (second : bool)
| AdmitResolve (c : creation)
| AdmitRevision (c : creation) (a : prepared)
| AdmitContains (c : creation) (a : prepared) (revision : nat)
| AdmitFence (c : creation) (a : prepared) (revision : nat)
| AdmitPressure (c : creation) (a : prepared) (revision : nat) (fence : option Z)
| AdmitLock (c : creation) (a : prepared) (revision : nat) (fence : option Z) (pending : nat) (telemetryFull : bool)
| AdmitWrite (c : creation) (p : nat) (n : Node.t) (cfg : PeerProcessConfig.t)
| AdmitCheck (c : creation) (p : nat) (n : Node.t) (cfg : PeerProcessConfig.t) (err : option string)
| AdmitFailed (c : creation) (p : nat) (err : string)
| AdmitAccepted (c : creation) (p : nat) (n : Node.t) (cfg : PeerProcessConfig.t)
| AdmitClose (p : nat)
(* [finishProcess] *)
| FinishBegin (f : finishing)
| FinishQueue (f : finishing) (st message : string) (observedAt : Time)
| FinishEnd (f : finishing) (st message : string) (observedAt : Time)
(* [runDockerProcess] and [createWithAdmission] *)
| DockerCreate (p : nat) (cfg : PeerProcessConfig.t) (lifetime : string)
| DockerCreated (p : nat) (lifetime : string) (name : string)
| DockerAdmitted (p : nat) (lifetime : string) (id : string)
| DockerStart (p : nat) (id : string)
| DockerCleanup (p : nat) (target message : string)
| DockerLeft (p : nat) (target message err : string)
| DockerRunning (p : nat) (id url : string)
| DockerWait (p : nat) (id : string)
| DockerRemove (p : nat) (id : string) (err : option string)
| DockerEnd (p : nat)
| Lifetime (p : nat) (id : string)
| RetryRemove (p : nat)
(* stops *)
| StopNode (id : string)
| Cancel (p : nat)
| StopRun (run : string) (generation : Z)
| StopRunCancel (todo : list nat) (run : string) (generation : Z)
| StopAll
| StopAllFence
| StopTargets (w : waiter)
| StopEach (w : waiter) (ids : list string)
| StopEachCancel (w : waiter) (p : nat) (ids : list string)
| FenceRetired
| FenceFiles (ids : list string)
| WaitBegin (w : waiter)
| WaitFor (w : waiter) (pending : list nat) (failed : bool)
| WaitOn (w : waiter) (c : nat) (pending : list nat) (failed : bool)
| StopAllEnd
| Shutdown
(* [reclaimHistory] *)
| Reclaim
| ReclaimScan
| ReclaimConfig (candidates todo : list nat) (fenced : gmap string Z) (cleaned : nat)
| ReclaimConfigDone (p : nat) (path : string) (candidates todo : list nat) (fenced : gmap string Z) (cleaned : nat)
| ReclaimRead (candidates : list nat) (fenced : gmap string Z)
| ReclaimSave (nodes : list (Node.t * nat)) (fenced : gmap string Z)
| ReclaimCommit (nodes : list (Node.t * nat)) (fenced : gmap string Z)
| ReclaimDrop (nodes : list (Node.t * nat)) (fenced : gmap string Z)
| ReclaimFences (todo : list (string * Z))
| ReclaimEvict (run : string) (generation : Z) (todo : list (string * Z))
| ReclaimEnd
(* heartbeats *)
| Heartbeat
| HeartbeatSnapshot
| HeartbeatSend (nodes : list Node.t)
| HeartbeatAck (batch rest : list Node.t)
| Register
| RegisterSend
| RegisterDone
(* single critical sections *)
| StatusReport (update : Node.t)
| FlushTerminations (accepted : list string)
| CapacityHeader (capacity : Z)
| RebootPending (pending : bool)
(* [handleExperimentNetwork] *)
| FenceNetwork (r : NetworkRequest.t)
| FenceSection (r : NetworkRequest.t)
| FenceListing (r : NetworkRequest.t)
| ActivateNetwork (n : ExperimentNetwork.t)
| ActivateCheck (n : ExperimentNetwork.t)
| ActivateHealth (n : ExperimentNetwork.t)
| ActivateCommit (n : ExperimentNetwork.t).

Section threads.
Context `{PeerCodec} `{CIDRs} `{PubSubLib} (ParseFloat : string → option float).
Context {R : Type} `{DistRand R} `{MathFns} (newSource : Z → R).
Context `{Encoding} `{StatusCodec}.

Definition moved : Type := option (server * list thread).
Definition ends (s : server) : moved := Some (s, []).
Definition goes (s : server) (t : thread) : moved := Some (s, [t]).

(** The acknowledgement of a creation. *)
Definition answer (c : creation) (r : res Node.t) (s : server) : server :=
  match r with Ok n => record [Answered (request c) n] s | _ => s end.

(** ** Admission *)
Definition idOf (c : creation) : string := CreateNodeRequest.ID (request c).
Definition runOf (c : creation) : string := CreateNodeRequest.RunID (request c).

Definition admitStart (r : CreateNodeRequest.t) (s : server) : moved :=
  match createRequestHash r s with
  | Ok hash => goes s (if empty hash then AdmitResolve (mkCreation r hash)
                       else ReplayLook (mkCreation r hash) false)
  | _ => ends s
  end.

(** [lockAdmission] or [admitNode] returns an error. *)
Definition refused (c : creation) (e : string) (s : server) : moved :=
  if negb (empty (hash c)) && bool_decide (e = errNodeExists) then goes s (ReplayLook c true) else ends s.

Definition replayLook (c : creation) (second : bool) (s : server) : moved :=
  match processes s !! idOf c with
  | Some p =>
      if bool_decide (metadataAt (process.node (proc s p)) "createRequestHash" = hash c)
      then goes s (ReplayWait c p) else ends s
  | None => goes s (ReplayReceipt c second)
  end.

Definition replayWait (i : input) (c : creation) (p : nat) (s : server) : moved :=
  let ready := match process.admissionDone (proc s p) with
               | Some ch => bool_decide (ch ∈ closed s)
               | None => true
               end in
  if ctxDone i then ends s
  else if ready then ends (answer c (replayAnswer (hash c) (heartbeatNodeStatus (proc s p))) s)
  else None.

Definition replayReceipt (i : input) (c : creation) (second : bool) (s : server) : moved :=
  match ioErr i, stored s !! idOf c with
  | Some _, _ => ends s
  | None, Some n => ends (if bool_decide (Node.ID n = idOf c) then answer c (replayAnswer (hash c) n) s else s)
  | None, None => if second then ends s else goes s (AdmitResolve c)
  end.

Definition admitResolve (i : input) (c : creation) (s : server) : moved :=
  match prepare ParseFloat newSource (fuel i) (request c) with
  | None => None
  | Some (Ok a) => goes s (AdmitRevision c a)
  | Some _ => ends s
  end.

Definition admitLock (i : input) (c : creation) (a : prepared) (revision : nat) (fence : option Z)
    (pending : nat) (telemetryFull : bool) (s : server) : moved :=
  if ctxDone i then ends s
  else if negb (Nat.eqb revision (historyRevision s)) then goes s (AdmitRevision c a)
  else
    match admissionCheck (request c) fence pending telemetryFull s with
    | Ok _ =>
        let '((p, n, cfg), s) := insertProcess (now i) (request c) (hash c) a s in
        goes s (AdmitWrite c p n cfg)
    | Err e => refused c e s
    | Panic => ends s
    end.

Definition admitWrite (i : input) (c : creation) (p : nat) (n : Node.t) (cfg : PeerProcessConfig.t)
    (s : server) : moved :=
  goes (if empty (text i) then s else modify p (process.setConfigPath (text i)) s)
    (AdmitCheck c p n cfg (ioErr i)).

Definition admitCheck (c : creation) (p : nat) (n : Node.t) (cfg : PeerProcessConfig.t)
    (err : option string) (s : server) : moved :=
  goes s
    match err with
    | Some e => AdmitFailed c p e
    | None => if process.cancelled (proc s p) then AdmitFailed c p "context canceled"
              else AdmitAccepted c p n cfg
    end.

Definition setAdmission (c : creation) (value : string) (p : nat) (s : server) : server :=
  if empty (hash c) then s else modify p (setProcessMetadata "createAdmission" value) s.

Definition admitFailed (c : creation) (p : nat) (err : string) (s : server) : moved :=
  goes (modify p process.cancel (setAdmission c "failed" p s))
    (FinishBegin (mkFinishing OfAdmission (idOf c) p (Some err) None)).

Definition admitAccepted (c : creation) (p : nat) (n : Node.t) (cfg : PeerProcessConfig.t)
    (s : server) : moved :=
  Some (record [Answered (request c) n] (setAdmission c "accepted" p s),
        [AdmitClose p; DockerCreate p cfg (CreateNodeRequest.Lifetime (request c))]).

(** The deferred [close(proc.admissionDone)]. *)
Definition admitClose (p : nat) (s : server) : moved :=
  match process.admissionDone (proc s p) with
  | Some c => ends (closeChan c s)
  | None => ends s
  end.

(** ** The end of a process *)
Definition finish (i : input) (f : finishing) (s : server) : moved :=
  let '((st, message, due), s) :=
    finishBegin (now i) (nodeID f) (pointer f) (runErr f) (cleanupErr f) s in
  goes s (if due then FinishQueue f st message (now i) else FinishEnd f st message (now i)).

Definition finished (i : input) (f : finishing) (st message : string) (observedAt : Time)
    (s : server) : moved :=
  let s := finishEnd observedAt (now i) (nodeID f) (pointer f) (cleanupErr f) st message s in
  match madeBy f with
  | OfDocker => goes s (DockerEnd (pointer f))
  | OfRetry => ends s
  | OfAdmission => goes s (AdmitClose (pointer f))
  end.

(** ** Docker *)
Definition finishDocker (p : nat) (e cleanup : option string) (s : server) : thread :=
  FinishBegin (mkFinishing OfDocker (Node.ID (process.node (proc s p))) p e cleanup).
Definition createError (e : string) : option string := Some ("create peer container: " +:+ e)%string.

(** Up to and including the start of [docker create]. *)
Definition dockerCreate (i : input) (p : nat) (lifetime : string) (s : server) : moved :=
  if process.cancelled (proc s p)
  then goes s (finishDocker p (createError "context canceled") None s)
  else
    match ioErr i with
    | Some e => goes s (finishDocker p (createError e) None s)
    | None => goes (record [Launched p] (withContainers ({[p]} ∪ containers s) s))
                (DockerCreated p lifetime ("kpl-peer-" +:+ text i))
    end.

(** [docker create] returned; an ID of the wrong form is none.  The context is
    checked once more. *)
Definition dockerCreated (i : input) (p : nat) (lifetime name : string) (s : server) : moved :=
  goes s
    match ioErr i with
    | Some e => DockerCleanup p name e
    | None => if empty (text i) then DockerCleanup p name "Docker create returned an invalid container ID"
              else if process.cancelled (proc s p) then DockerCleanup p (text i) "context canceled"
              else DockerAdmitted p lifetime (text i)
    end.

(** The callback [admitted]. *)
Definition dockerAdmitted (i : input) (p : nat) (lifetime id : string) (s : server) : moved :=
  Some (modify p (setProcessMetadata "containerCreatedAt" (formatTime (now i))) s,
        DockerStart p id ::
        (if empty lifetime then [] else [Lifetime p (Node.ID (process.node (proc s p)))])).

(** Copying the configuration, starting and inspecting the container. *)
Definition dockerStart (i : input) (p : nat) (id : string) (s : server) : moved :=
  goes s
    match ioErr i with
    | Some e => DockerCleanup p id e
    | None => if process.cancelled (proc s p) then DockerCleanup p id "context canceled"
              else DockerRunning p id (text i)
    end.

(** The deferred removal of a failed creation. *)
Definition dockerCleanup (i : input) (p : nat) (target message : string) (s : server) : moved :=
  match ioErr i with
  | None => let s := withContainers (containers s ∖ {[p]}) s in
            goes s (finishDocker p (createError message) None s)
  | Some e => goes s (DockerLeft p target message e)
  end.
Definition dockerLeft (p : nat) (target message err : string) (s : server) : moved :=
  let s := modify p (process.setContainer target) s in
  goes s (finishDocker p (createError message) (Some err) s).

Definition dockerRunning (i : input) (p : nat) (id url : string) (s : server) : moved :=
  let gateway := process.gatewayURL (proc s p) in
  let url := if empty gateway || empty (text i) then url else gateway +:+ "/peers/" +:+ text i in
  goes (modify p (λ x,
          let x := process.setEndpoint url (process.setContainer id x) in
          setProcessMetadata "containerStartedAt" (formatTime (now i))
            (setProcessMetadata "containerId" id x)) s)
    (DockerWait p id).

(** The wait for the container: it blocks until Docker answers or the process's
    context is cancelled. *)
Definition dockerWait (i : input) (p : nat) (id : string) (s : server) : moved :=
  if waitOver i then goes s (DockerRemove p id (ioErr i))
  else if process.cancelled (proc s p)
  then goes s (DockerRemove p id (Some "wait for peer container: context canceled"%string))
  else None.

Definition dockerRemove (i : input) (p : nat) (id : string) (err : option string) (s : server) : moved :=
  let s := match ioErr i with
           | None => withContainers (containers s ∖ {[p]}) s
           | Some _ => s
           end in
  goes s (finishDocker p err (ioErr i) s).

(** The goroutine of [retryContainerCleanupLocked]. *)
Definition retryRemove (i : input) (p : nat) (s : server) : moved :=
  let s := match ioErr i with
           | None => withContainers (containers s ∖ {[p]}) s
           | Some _ => s
           end in
  goes s (FinishBegin (mkFinishing OfRetry (Node.ID (process.node (proc s p))) p None (ioErr i))).

(** ** Stops *)
Definition spawned (todo : list stopped) : list thread :=
  omap (λ x, match x with RetryRemoval p => Some (RetryRemove p) | _ => None end) todo.
Definition toCancel (todo : list stopped) : list nat :=
  omap (λ x, match x with CancelContext p => Some p | _ => None end) todo.

Definition stopOne (i : input) (id : string) (s : server) : moved :=
  let '(r, s) := stopNode (now i) id s in
  match r with
  | Some (RetryRemoval p) => goes s (RetryRemove p)
  | Some (CancelContext p) => goes s (Cancel p)
  | _ => ends s
  end.

(** The timer fired; nothing is stopped once the context has ended. *)
Definition lifetimeStop (i : input) (p : nat) (id : string) (s : server) : moved :=
  if process.cancelled (proc s p) then ends s else stopOne i id s.

Definition stopRun (i : input) (run : string) (generation : Z) (s : server) : moved :=
  let '(todo, s) := stopRunGeneration (now i) run generation s in
  Some (s, StopRunCancel (toCancel todo) run generation :: spawned todo).

Definition stopEach (i : input) (w : waiter) (ids : list string) (s : server) : moved :=
  match ids with
  | [] => goes s match w with ForAll => FenceRetired | _ => WaitBegin w end
  | id :: ids =>
      let '(r, s) := stopNode (now i) id s in
      match r with
      | Some (RetryRemoval p) => Some (s, [StopEach w ids; RetryRemove p])
      | Some (CancelContext p) => goes s (StopEachCancel w p ids)
      | _ => goes s (StopEach w ids)
      end
  end.

Definition stopAllStart (s : server) : moved :=
  if fencingAll s then ends s
  else goes (bump (withFlags (shuttingDown s) true (rebootPending s) (capacityLimit s) s)) StopAllFence.
(** The deferred reset of [fencingAll]. *)
Definition stopAllEnd (s : server) : moved :=
  ends (bump (withFlags (shuttingDown s) false (rebootPending s) (capacityLimit s) s)).

(** [fenceRetiredRuns]; the indexes do not change while [history.mu] is held. *)
Definition fenceRetired (s : server) : moved :=
  if historyMu s then None
  else goes (withLocks true (heartbeatMu s) s) (FenceFiles (elements (runs s))).
Definition fenceFiles (i : input) (ids : list string) (s : server) : moved :=
  match ids, ioErr i with
  | [], _ => goes (withLocks false (heartbeatMu s) s) (WaitBegin ForAll)
  | _ :: _, Some _ => goes (withLocks false (heartbeatMu s) s) StopAllEnd
  | id :: ids, None => goes (record [Fenced id MaxUint64] (saveFence id MaxUint64 s)) (FenceFiles ids)
  end.

Definition waitBegin (w : waiter) (s : server) : moved :=
  goes s (WaitFor w (match w with ForRun run generation => pendingOf run generation s | _ => table s end)
            false).
Definition waitEnd (w : waiter) (failed : bool) (s : server) : moved :=
  match w with
  | ForRun run generation => ends (if failed then s else record [Drained run generation] s)
  | ForAll => goes (if failed then s else record [Emptied] s) StopAllEnd
  | ForShutdown => ends s
  end.
Definition waitFor (w : waiter) (pending : list nat) (failed : bool) (s : server) : moved :=
  match pending with
  | [] => waitEnd w failed s
  | p :: rest =>
      match waitRound p s with
      | inl c => goes s (WaitOn w c pending failed)
      | inr bad => goes s (WaitFor w rest (failed || bad))
      end
  end.
Definition waitOn (i : input) (w : waiter) (c : nat) (pending : list nat) (failed : bool) (s : server) :
    moved :=
  if ctxDone i then waitEnd w true s
  else if bool_decide (c ∈ closed s) then goes s (WaitFor w pending failed) else None.

(** ** Retirement *)
Definition release (s : server) : moved := goes s ReclaimEnd.
Definition reclaimScan (s : server) : moved :=
  let candidates := retireCandidates s in
  goes s (ReclaimConfig candidates candidates (runFences s) 0).
(** The loop that removes the configurations of finished Peers. *)
Definition reclaimConfig (i : input) (candidates todo : list nat) (fenced : gmap string Z)
    (cleaned : nat) (s : server) : moved :=
  match todo with
  | [] => goes s (ReclaimRead candidates fenced)
  | p :: todo =>
      let path := process.configPath (proc s p) in
      if empty path then goes s (ReclaimConfig candidates todo fenced cleaned)
      else if (historyPruneBatch <=? cleaned)%nat then goes s (ReclaimRead candidates fenced)
      else
        match ioErr i with
        | Some _ => release s
        | None => goes s (ReclaimConfigDone p path candidates todo fenced cleaned)
        end
  end.
Definition reclaimConfigDone (p : nat) (path : string) (candidates todo : list nat)
    (fenced : gmap string Z) (cleaned : nat) (s : server) : moved :=
  goes (if bool_decide (process.configPath (proc s p) = path)
        then modify p (process.setConfigPath "") s else s)
    (ReclaimConfig candidates todo fenced (S cleaned)).
Definition reclaimRead (candidates : list nat) (fenced : gmap string Z) (s : server) : moved :=
  let retired := take (retireCount (length candidates)) candidates in
  goes s (ReclaimSave ((λ p, (heartbeatNodeStatus (proc s p), p)) <$> retired) fenced).
(** The run indexes; on an error some are written. *)
Definition reclaimSave (i : input) (nodes : list (Node.t * nat)) (fenced : gmap string Z) (s : server) : moved :=
  match ioErr i with
  | Some _ => release (saveRuns (take (count i) nodes.*1) s)
  | None => goes (saveRuns nodes.*1 s) (ReclaimCommit nodes fenced)
  end.
Definition reclaimCommit (i : input) (nodes : list (Node.t * nat)) (fenced : gmap string Z) (s : server) : moved :=
  match ioErr i with
  | Some _ => release s
  | None => if forallb validHistoryNode nodes.*1
            then goes (commitNodes nodes.*1 s) (ReclaimDrop nodes fenced) else release s
  end.
(** The runs whose fences leave memory: the first by name beyond the cache. *)
Definition textLe (a b : string * Z) : Prop := Is_true (String.leb a.1 b.1).
#[local] Instance textLe_dec : RelDecision textLe.
Proof. intros a b. unfold textLe. apply _. Defined.
Definition evicted (fenced : gmap string Z) : list (string * Z) :=
  take (Nat.min historyPruneBatch (size fenced - runFenceCacheLimit))
    (merge_sort textLe (map_to_list fenced)).
Definition reclaimDrop (nodes : list (Node.t * nat)) (fenced : gmap string Z) (s : server) : moved :=
  goes (foldl dropRetired s nodes) (ReclaimFences (evicted fenced)).
Definition reclaimFences (i : input) (todo : list (string * Z)) (s : server) : moved :=
  match todo, ioErr i with
  | [], _ => release s
  | _ :: _, Some _ => release s
  | (run, generation) :: todo, None => goes (saveFence run generation s) (ReclaimEvict run generation todo)
  end.

(** ** Heartbeats *)
(** One batch: the first [count] records left. *)
Definition heartbeatSend (i : input) (nodes : list Node.t) (s : server) : moved :=
  match ioErr i with
  | Some _ => ends (withLocks (historyMu s) false s)
  | None => let batch := take (count i) nodes in
            goes (record (Delivered <$> batch) s) (HeartbeatAck batch (drop (count i) nodes))
  end.
Definition heartbeatAck (batch rest : list Node.t) (s : server) : moved :=
  let s := foldl acknowledge s batch in
  if isNil (head rest) then ends (withLocks (historyMu s) false s) else goes s (HeartbeatSend rest).

(** ** The experiment network *)
(** [handleExperimentNetwork] up to [networkMu.TryLock]; the lock is held until the
    request has been answered. *)
Definition handleExperimentNetwork (next : thread) (s : server) : moved :=
  if negb (Config.AutoResetNetwork (config s)) || networkMu s then ends s
  else goes (withNetworkMu true s) next.
Definition unlockNetwork (s : server) : moved := ends (withNetworkMu false s).

Definition fenceSection (i : input) (r : NetworkRequest.t) (s : server) : moved :=
  if ctxDone i then unlockNetwork s
  else match fenceExperimentNetwork r s with
       | (Ok _, s) => goes s (FenceListing r)
       | (_, s) => unlockNetwork s
       end.
(** [docker ps]: it also shows what is not in the table ([text]), containers of
    interrupted creations and of earlier instances. *)
Definition fenceListing (i : input) (r : NetworkRequest.t) (s : server) : moved :=
  match ioErr i with
  | Some _ => unlockNetwork s
  | None =>
      if bool_decide (containers s = ∅) && empty (text i)
      then unlockNetwork (record [NetworkFenced (NetworkRequest.RunID r) (containers s) (text i)] s)
      else unlockNetwork s
  end.

(** The beginning of [activateExperimentNetwork]; [ioErr] is the refusal of the
    request, or of the declared names and addresses. *)
Definition activateCheck (i : input) (n : ExperimentNetwork.t) (s : server) : moved :=
  if ctxDone i || negb (isNil (ioErr i)) ||
     negb (bool_decide (NetworkRequest.Epoch (networkRequest s) = ExperimentNetwork.Epoch n)) ||
     negb (bool_decide (NetworkRequest.RunID (networkRequest s) = ExperimentNetwork.RunID n))
  then unlockNetwork s else goes s (ActivateHealth n).

(** ** One step *)
Definition advance (i : input) (t : thread) (s : server) : moved :=
  match t with
  | AdmitStart r => admitStart r s
  | ReplayLook c second => replayLook c second s
  | ReplayWait c p => replayWait i c p s
  | ReplayReceipt c second => replayReceipt i c second s
  | AdmitResolve c => admitResolve i c s
  | AdmitRevision c a =>
      if ctxDone i then ends s else goes s (AdmitContains c a (historyRevision s))
  | AdmitContains c a revision =>
      match ioErr i with
      | Some _ => ends s
      | None => if bool_decide (is_Some (stored s !! idOf c)) then refused c errNodeExists s
                else goes s (AdmitFence c a revision)
      end
  | AdmitFence c a revision =>
      match ioErr i with
      | Some _ => ends s
      | None => goes s (AdmitPressure c a revision (fences s !! runOf c))
      end
  | AdmitPressure c a revision fence =>
      goes s (AdmitLock c a revision fence (size (terminations s)) (full i))
  | AdmitLock c a revision fence pending telemetryFull =>
      admitLock i c a revision fence pending telemetryFull s
  | AdmitWrite c p n cfg => admitWrite i c p n cfg s
  | AdmitCheck c p n cfg err => admitCheck c p n cfg err s
  | AdmitFailed c p err => admitFailed c p err s
  | AdmitAccepted c p n cfg => admitAccepted c p n cfg s
  | AdmitClose p => admitClose p s
  | FinishBegin f => finish i f s
  | FinishQueue f st message t =>
      goes (record [Terminated (pointer f)] (queueTermination (nodeID f) t (isNil (ioErr i)) s))
        (FinishEnd f st message t)
  | FinishEnd f st message t => finished i f st message t s
  | DockerCreate p _ lifetime => dockerCreate i p lifetime s
  | DockerCreated p lifetime name => dockerCreated i p lifetime name s
  | DockerAdmitted p lifetime id => dockerAdmitted i p lifetime id s
  | DockerStart p id => dockerStart i p id s
  | DockerCleanup p target message => dockerCleanup i p target message s
  | DockerLeft p target message err => dockerLeft p target message err s
  | DockerRunning p id url => dockerRunning i p id url s
  | DockerWait p id => dockerWait i p id s
  | DockerRemove p id err => dockerRemove i p id err s
  | DockerEnd p => ends (modify p process.cancel s)
  | Lifetime p id => lifetimeStop i p id s
  | RetryRemove p => retryRemove i p s
  | StopNode id => stopOne i id s
  | Cancel p => ends (modify p process.cancel s)
  | StopRun run generation => stopRun i run generation s
  | StopRunCancel [] run generation => goes s (WaitBegin (ForRun run generation))
  | StopRunCancel (p :: todo) run generation =>
      goes (modify p process.cancel s) (StopRunCancel todo run generation)
  | StopAll => stopAllStart s
  | StopAllFence => goes (fenceTable s) (StopTargets ForAll)
  | StopTargets w => goes s (StopEach w (stopTargets s))
  | StopEach w ids => stopEach i w ids s
  | StopEachCancel w p ids => goes (modify p process.cancel s) (StopEach w ids)
  | FenceRetired => fenceRetired s
  | FenceFiles ids => fenceFiles i ids s
  | WaitBegin w => waitBegin w s
  | WaitFor w pending failed => waitFor w pending failed s
  | WaitOn w c pending failed => waitOn i w c pending failed s
  | StopAllEnd => stopAllEnd s
  | Shutdown =>
      goes (withFlags true (fencingAll s) (rebootPending s) (capacityLimit s) s) (StopTargets ForShutdown)
  | Reclaim => if historyMu s then None else goes (withLocks true (heartbeatMu s) s) ReclaimScan
  | ReclaimScan => reclaimScan s
  | ReclaimConfig candidates todo fenced cleaned => reclaimConfig i candidates todo fenced cleaned s
  | ReclaimConfigDone p path candidates todo fenced cleaned =>
      reclaimConfigDone p path candidates todo fenced cleaned s
  | ReclaimRead candidates fenced => reclaimRead candidates fenced s
  | ReclaimSave nodes fenced => reclaimSave i nodes fenced s
  | ReclaimCommit nodes fenced => reclaimCommit i nodes fenced s
  | ReclaimDrop nodes fenced => reclaimDrop nodes fenced s
  | ReclaimFences todo => reclaimFences i todo s
  | ReclaimEvict run generation todo => goes (evictFence run generation s) (ReclaimFences todo)
  | ReclaimEnd => ends (withLocks false (heartbeatMu s) s)
  | Heartbeat => if heartbeatMu s then None else goes (withLocks (historyMu s) true s) HeartbeatSnapshot
  | HeartbeatSnapshot => goes s (HeartbeatSend (heartbeatNodes s))
  | HeartbeatSend nodes => heartbeatSend i nodes s
  | HeartbeatAck batch rest => heartbeatAck batch rest s
  | Register => if heartbeatMu s then None else goes (withLocks (historyMu s) true s) RegisterSend
  | RegisterSend =>
      match ioErr i with
      | Some _ => ends (withLocks (historyMu s) false s)
      | None => goes s RegisterDone
      end
  | RegisterDone => ends (withLocks (historyMu s) false (forgetAcknowledgements s))
  | StatusReport update =>
      ends match processes s !! Node.ID update with
           | Some p => modify p (updateNode ParseFloat (now i) update) s
           | None => s
           end
  | FlushTerminations accepted => ends (admitTerminationsLocked accepted s)
  | CapacityHeader capacity =>
      ends (if capacity <=? 0 then s
            else withFlags (shuttingDown s) (fencingAll s) (rebootPending s) capacity s)
  | RebootPending pending =>
      ends (bump (withFlags (shuttingDown s) (fencingAll s) pending (capacityLimit s) s))
  | FenceNetwork r => handleExperimentNetwork (FenceSection r) s
  | FenceSection r => fenceSection i r s
  | FenceListing r => fenceListing i r s
  | ActivateNetwork n => handleExperimentNetwork (ActivateCheck n) s
  | ActivateCheck n => activateCheck i n s
  | ActivateHealth n => if isNil (ioErr i) then goes s (ActivateCommit n) else unlockNetwork s
  | ActivateCommit n => unlockNetwork (activateExperimentNetwork n s).2
  end.

(** ** The whole Agent *)
Record world := mkWorld { srv : server; threads : list thread }.

(** What arrives from outside: requests, timers and the loops' ticks.  A
    generation is a [uint64]. *)
Definition isUint64 (z : Z) : bool := (0 <=? z) && (z <=? MaxUint64).
Definition incoming (t : thread) : bool :=
  match t with
  | AdmitStart r => isUint64 (CreateNodeRequest.Generation r)
  | StopRun _ generation => isUint64 generation
  | StopNode _ | StopAll | Shutdown | Reclaim | Heartbeat | Register
  | StatusReport _ | FlushTerminations _ | CapacityHeader _ | RebootPending _ | FenceNetwork _
  | ActivateNetwork _ => true
  | _ => false
  end.

Inductive step : world → world → Prop :=
| arrives t w : incoming t = true → step w (mkWorld (srv w) (t :: threads w))
| moves i l1 t l2 s s' l :
    advance i t s = Some (s', l) → step (mkWorld s (l1 ++ t :: l2)) (mkWorld s' (l1 ++ l ++ l2)).

(** A new instance, over the history its predecessors left on disk; start-up has
    removed their containers. *)
Definition start (c : Config.t) (t : Time) (disk : gmap string Node.t) (index : gset string)
    (files : gmap string Z) : world :=
  mkWorld
    (mkServer c t ∅ ∅ ∅ 0 false false false 0 None NetworkRequest.zero false ∅ disk index files false
       false ∅ 0 false ∅ ((λ kv, Fenced kv.1 kv.2) <$> map_to_list files)) [].

Definition reachable (c : Config.t) (t : Time) (disk : gmap string Node.t) (index : gset string)
    (files : gmap string Z) (w : world) : Prop :=
  rtc step (start c t disk index files) w.
End threads.
