(* ===== verification/AgentInv.v ===== *)
(** * The invariant of an Agent

    What holds between any two steps of [AgentThreads].  [serverOk] is about the
    shared state: the table, the log and the disk agree, each process's flags,
    channels and container agree.  [evolves] is what no step undoes, and
    [undisturbed] what only the goroutine that owns a process may change; the
    assertion [threadOk] of each thread is stable under both. *)
From Stdlib Require Import ZArith Lia.
From stdpp Require Import strings list gmap sorting.
From S2P Require Import Prelude.
From S2P Require Import GoStd.
From S2P Require Import Distribution.
From S2P Require Import Network.
From S2P Require Import Attacks.
From S2P Require Import PeerScore.
From S2P Require Import GossipSubConfig.
From S2P Require Import NodeConfig.
From S2P Require Import AgentModel.
From S2P Require Import Inventory.
From S2P Require Import AgentPrepare.
From S2P Require Import AgentProcess.
From S2P Require Import AgentStatus.
From S2P Require Import AgentServer.
From S2P Require Import AgentThreads.
Open Scope Z_scope.

(** ** One process over time *)
Definition identity (n : Node.t) : string * string * Z := (Node.ID n, Node.RunID n, Node.Generation n).
Lemma identity_eq n m :
  identity n = identity m → Node.ID n = Node.ID m ∧ Node.RunID n = Node.RunID m ∧
  Node.Generation n = Node.Generation m.
Proof. unfold identity. by intros [= ? ? ?]. Qed.
(** Its container is confirmed removed. *)
Definition finished (x : process.t) : Prop := process.exited x = true ∧ process.cleanupErr x = None.

Lemma occupies_finished x : occupies x = false ↔ finished x.
Proof.
  unfold occupies, finished. destruct (process.exited x); cbn.
  - rewrite negb_false_iff, bool_decide_eq_true. tauto.
  - split; [done|]. by intros [? _].
Qed.

(** Only the record, the endpoint and the like change. *)
Record touch (x x' : process.t) : Prop := {
  tc_id : identity (process.node x') = identity (process.node x);
  tc_adm : process.admissionDone x' = process.admissionDone x;
  tc_exited : process.exited x' = process.exited x;
  tc_cleanup : process.cleanupErr x' = process.cleanupErr x;
  tc_container : process.containerID x' = process.containerID x;
  tc_done : process.done x' = process.done x;
  tc_ack : process.heartbeatAcknowledged x' = process.heartbeatAcknowledged x;
  tc_cancelled : process.cancelled x = true → process.cancelled x' = true }.

#[export] Instance touch_preorder : PreOrder touch.
Proof.
  split; [by split|]. intros x y z [] []. split; [by etrans..|auto].
Qed.

Lemma touch_node n x : identity n = identity (process.node x) → touch x (process.setNode n x).
Proof. by split. Qed.
Lemma touch_metadata key value x : touch x (setProcessMetadata key value x).
Proof. by split. Qed.
Lemma touch_endpoint url x : touch x (process.setEndpoint url x).
Proof. by split. Qed.
Lemma touch_config path x : touch x (process.setConfigPath path x).
Proof. by split. Qed.
Lemma touch_cancel x : touch x (process.cancel x).
Proof. by split. Qed.
Lemma touch_exitErr e x : touch x (process.setExitErr e x).
Proof. by split. Qed.
Lemma touch_observed t x : touch x (process.setObserved t x).
Proof. by split. Qed.
Create HintDb touch.
#[export] Hint Resolve touch_node touch_metadata touch_endpoint touch_config touch_cancel
  touch_exitErr touch_observed : touch.

Lemma touch_if (b : bool) x y y' : touch x y → touch x y' → touch x (if b then y else y').
Proof. by destruct b. Qed.

Section status.
Context `{PeerCodec} `{CIDRs} `{PubSubLib} (ParseFloat : string → option float).
Context `{Encoding} `{StatusCodec}.

Lemma touch_stopping t x : touch x (markStopping t x).
Proof.
  unfold markStopping. cbv zeta. apply touch_if.
  - etrans; [|apply touch_metadata]. by apply touch_node.
  - by apply touch_node.
Qed.

Lemma touch_network m x : touch x (updateProcessNetwork ParseFloat m x).
Proof.
  unfold updateProcessNetwork. cbv zeta. repeat case_match; try reflexivity.
  repeat (etrans; [|apply touch_metadata]). reflexivity.
Qed.

Lemma touch_store r p t x : touch x (storeProfileAcknowledgement ParseFloat r p t x).
Proof.
  unfold storeProfileAcknowledgement. cbv zeta.
  repeat case_match; try reflexivity; repeat (etrans; [|apply touch_metadata]); reflexivity.
Qed.

Lemma touch_profile m x : touch x (updateProcessProfile ParseFloat m x).
Proof.
  unfold updateProcessProfile. destruct (ParseUint _) as [r ok]. cbv zeta.
  repeat case_match; try reflexivity. apply touch_store.
Qed.

Lemma touch_attack m x : touch x (updateProcessAttackStatus m x).
Proof.
  unfold updateProcessAttackStatus. generalize (attackKeys m x). intros l. revert x.
  induction l as [|k l IH]; intros x; [reflexivity|]. cbn. etrans; [|apply IH].
  unfold copyKey. destruct (m !! k); [apply touch_metadata|reflexivity].
Qed.

Lemma touch_update t n x : touch x (updateNode ParseFloat t n x).
Proof.
  unfold updateNode. destruct (reportIgnored n x); [reflexivity|]. cbv zeta.
  set (x1 := if IsZero _ then x else _).
  assert (touch x x1) as T1 by (unfold x1; destruct (IsZero _); [reflexivity|apply touch_observed]).
  set (x2 := process.setNode _ x1). assert (touch x x2) as T2.
  { etrans; [exact T1|]. apply touch_node. done. }
  clearbody x1. clearbody x2. clear T1 x1.
  set (x3 := if _ && _ then setProcessMetadata _ _ x2 else x2). assert (touch x x3) as T3.
  { etrans; [exact T2|]. unfold x3. destruct (_ && _); [apply touch_metadata|reflexivity]. }
  clearbody x3. clear T2 x2.
  set (x4 := process.setNode _ x3). assert (touch x x4) as T4.
  { etrans; [exact T3|]. apply touch_node. done. }
  clearbody x4. clear T3 x3.
  assert (touch x (updateProcessAttackStatus (metadataOf n)
    (updateProcessProfile ParseFloat (metadataOf n) (updateProcessNetwork ParseFloat (metadataOf n) x4)))) as T5.
  { etrans; [exact T4|]. etrans; [apply touch_network|]. etrans; [apply touch_profile|].
    apply touch_attack. }
  destruct (_ && _); [etrans; [exact T5|apply touch_metadata]|exact T5].
Qed.

Lemma update_exited t n x : process.exited x = true → updateNode ParseFloat t n x = x.
Proof. intros He. unfold updateNode, reportIgnored. by rewrite He. Qed.

(** What no step undoes of a process. *)
Record pevolves (x x' : process.t) : Prop := {
  pe_id : identity (process.node x') = identity (process.node x);
  pe_adm : process.admissionDone x' = process.admissionDone x;
  pe_finished : finished x → finished x' ∧ process.node x' = process.node x;
  pe_cancelled : process.cancelled x = true → process.cancelled x' = true }.
#[export] Instance pevolves_preorder : PreOrder pevolves.
Proof.
  split; [by split|]. intros x y z [] []. split; [by etrans..| |auto].
  intros Hf. destruct (pe_finished0 Hf) as [Hy E]. destruct (pe_finished1 Hy) as [Hz E']. split; [done|by etrans].
Qed.

Lemma touch_evolves x x' :
  touch x x' → (process.exited x = true → process.node x' = process.node x) → pevolves x x'.
Proof.
  intros [] Hn. split; [done..| |done]. intros [He Hc]. split; [split; congruence|by apply Hn].
Qed.
End status.

(** ** The log *)
Definition admittedIDs (l : list event) : list string :=
  omap (λ e, match e with Admission _ id _ _ => Some id | _ => None end) l.

(** What must have happened, and which processes must be finished ([fin]), for an
    event to be logged. *)
Definition allowed (fin : nat → Prop) (l : list event) (e : event) : Prop :=
  match e with
  | Admission p id run g => id ∉ admittedIDs l ∧ ∀ g0, Fenced run g0 ∈ l → g0 < g
  | Launched p => Launched p ∉ l
  | Terminated p => Terminated p ∉ l
  | Drained run g =>
      Fenced run g ∈ l ∧ ∀ p id g', Admission p id run g' ∈ l → g' <= g → fin p
  | Emptied => ∀ p id run g, Admission p id run g ∈ l → fin p
  | _ => True
  end.
Inductive history (fin : nat → Prop) : list event → Prop :=
| history_nil : history fin []
| history_snoc l e : history fin l → allowed fin l e → history fin (l ++ [e]).

Lemma allowed_mono (fin fin' : nat → Prop) l e :
  (∀ p, fin p → fin' p) → allowed fin l e → allowed fin' l e.
Proof. intros Hf. destruct e; cbn; naive_solver. Qed.
Lemma history_mono (fin fin' : nat → Prop) l :
  (∀ p, fin p → fin' p) → history fin l → history fin' l.
Proof. intros Hf. induction 1; [constructor|]. constructor; [done|]. by eapply allowed_mono. Qed.

(** What an event required holds of everything before it. *)
Lemma history_split fin l1 e l2 : history fin (l1 ++ e :: l2) → allowed fin l1 e.
Proof.
  induction l2 as [|e2 l2 IH] using rev_ind; intros Hh.
  - inversion Hh as [E|l e0 _ Ha E]; [by destruct l1|]. apply app_inj_tail in E as [-> ->]. exact Ha.
  - apply IH. inversion Hh as [E|l e0 Hl _ E]; [by destruct l1|].
    replace (l1 ++ e :: l2 ++ [e2]) with ((l1 ++ e :: l2) ++ [e2]) in E by by rewrite <- app_assoc.
    by apply app_inj_tail in E as [-> _].
Qed.
Lemma history_in fin l e : history fin l → e ∈ l → ∃ l1 l2, l = l1 ++ e :: l2 ∧ allowed fin l1 e.
Proof.
  intros Hh (l1 & l2 & ->)%list_elem_of_split. exists l1, l2. split; [done|]. by eapply history_split.
Qed.
(** Events that nothing is said of. *)
Lemma history_inert fin l l' :
  Forall (λ e, ∀ l, allowed fin l e) l' → history fin l → history fin (l ++ l').
Proof.
  intros Ha Hl. induction l' as [|e l' IH] using rev_ind; [by rewrite app_nil_r|].
  apply Forall_app in Ha as [Ha He]. rewrite app_assoc. constructor; [by apply IH|].
  by inversion He.
Qed.

(** ** What no step undoes *)
(** The fences an admission in progress may rely on while the revision it read
    is current. *)
Record sameRevision (s s' : server) : Prop := {
  sr_table id : is_Some (processes s !! id) → is_Some (processes s' !! id);
  sr_cached r f : runFences s !! r = Some f → ∃ f', runFences s' !! r = Some f' ∧ f <= f';
  sr_stored id : stored s !! id = None → stored s' !! id = None ∨ is_Some (processes s' !! id);
  sr_fencing : fencingAll s' = fencingAll s;
  sr_fenced r g : Fenced r g ∈ log s' →
    Fenced r g ∈ log s ∨ (∃ f, runFences s' !! r = Some f ∧ g <= f) ∨ fencingAll s' = true }.

#[export] Instance sameRevision_preorder : PreOrder sameRevision.
Proof.
  split.
  - intros s. split; [done| |auto|done|auto]. eauto with lia.
  - intros s s1 s2 [T1 C1 S1 F1 L1] [T2 C2 S2 F2 L2]. split; [auto| | |congruence| ].
    + intros r f (f1 & H1 & Hle)%C1. destruct (C2 _ _ H1) as (f2 & ? & ?). exists f2. split; [done|lia].
    + intros id [Hs|Hp]%S1; [by apply S2|right; by apply T2].
    + intros r g [[Hl|[(f & Hf & Hle)|Hb]]%L1|[?|?]]%L2; [by left| | |by right; left|by right; right].
      * destruct (C2 _ _ Hf) as (f2 & ? & ?). right. left. exists f2. split; [done|lia].
      * right. right. congruence.
Qed.

Record evolves (s s' : server) : Prop := {
  ev_config : config s' = config s;
  ev_heap p x : heap s !! p = Some x → ∃ x', heap s' !! p = Some x' ∧ pevolves x x';
  ev_log : ∃ l, log s' = log s ++ l;
  ev_closed : closed s ⊆ closed s';
  ev_done p x c : heap s !! p = Some x → process.done x = Some c →
    c ∈ closed s' ∨ ∃ x', heap s' !! p = Some x' ∧ process.done x' = Some c;
  ev_fresh : (fresh s <= fresh s')%nat;
  ev_stored id : is_Some (stored s !! id) → is_Some (stored s' !! id);
  ev_fences r f : fences s !! r = Some f → ∃ f', fences s' !! r = Some f' ∧ f <= f';
  ev_revision : (historyRevision s <= historyRevision s')%nat;
  ev_same : historyRevision s' = historyRevision s → sameRevision s s' }.

#[export] Instance evolves_preorder : PreOrder evolves.
Proof.
  split.
  - intros s. split; [done| |by exists []; rewrite app_nil_r|done| |done|done| |done|done].
    + intros p x Hx. exists x. by split.
    + eauto.
    + intros r f Hf. exists f. split; [done|lia].
  - intros s s1 s2 [A1 B1 C1 D1 K1 E1 F1 G1 I1 J1] [A2 B2 C2 D2 K2 E2 F2 G2 I2 J2]. split.
    + congruence.
    + intros p x (x1 & H1 & Hp1)%B1. destruct (B2 _ _ H1) as (x2 & H2 & Hp2). exists x2.
      split; [done|by etrans].
    + destruct C1 as [l1 E1'], C2 as [l2 E2']. exists (l1 ++ l2). by rewrite E2', E1', app_assoc.
    + by etrans.
    + intros p x c Hx Hd. destruct (K1 _ _ _ Hx Hd) as [?|(x' & Hx' & Hd')]; [left; set_solver|by eapply K2].
    + lia.
    + auto.
    + intros r f (f1 & H1 & ?)%G1. destruct (G2 _ _ H1) as (f2 & ? & ?). exists f2. split; [done|lia].
    + lia.
    + intros E. etrans; [apply J1|apply J2]; lia.
Qed.

(** ** The shared state *)
Definition known (s : server) (p : nat) : Prop := is_Some (heap s !! p).
Definition fin (s : server) (p : nat) : Prop := ∃ x, heap s !! p = Some x ∧ finished x.

Lemma fin_evolves s s' p : evolves s s' → fin s p → fin s' p.
Proof.
  intros He (x & Hx & Hf). destruct (ev_heap _ _ He _ _ Hx) as (x' & Hx' & Hp).
  exists x'. split; [done|]. by apply Hp.
Qed.

Record processOk (s : server) (p : nat) (x : process.t) : Prop := {
  po_terminal : finished x → terminal (process.node x) = true;
  po_container : process.exited x = true → process.cleanupErr x ≠ None → process.containerID x ≠ ""%string;
  po_done : ∃ c, process.done x = Some c ∧ (c < fresh s)%nat ∧ (c ∈ closed s ↔ process.exited x = true);
  po_adm c : process.admissionDone x = Some c → (c < fresh s)%nat;
  po_ack : process.heartbeatAcknowledged x = true → finished x ∧
    ∃ n, Delivered n ∈ log s ∧ Node.ID n = Node.ID (process.node x) ∧ Node.State n = Node.State (process.node x);
  po_terminated : process.exited x = true → (Terminated p ∈ log s ↔ process.cleanupErr x = None);
  po_table : processes s !! Node.ID (process.node x) = Some p ∨
    (retirable x = true ∧ is_Some (stored s !! Node.ID (process.node x)));
  po_stored n : stored s !! Node.ID (process.node x) = Some n →
    finished x ∧ identity n = identity (process.node x) ∧ Node.State n = Node.State (process.node x);
  po_admitted : Admission p (Node.ID (process.node x)) (Node.RunID (process.node x))
                  (Node.Generation (process.node x)) ∈ log s;
  po_fresh : (p < fresh s)%nat }.

(** The shared state a process depends on changed around it. *)
Lemma processOk_later s s' p x :
  processOk s p x →
  (fresh s <= fresh s')%nat →
  (∀ c, process.done x = Some c → (c ∈ closed s' ↔ c ∈ closed s)) →
  (∀ e, e ∈ log s → e ∈ log s') → (Terminated p ∈ log s' → Terminated p ∈ log s) →
  (processes s !! Node.ID (process.node x) = Some p →
   processes s' !! Node.ID (process.node x) = Some p ∨
   (retirable x = true ∧ is_Some (stored s' !! Node.ID (process.node x)))) →
  (is_Some (stored s !! Node.ID (process.node x)) → is_Some (stored s' !! Node.ID (process.node x))) →
  (∀ n, stored s' !! Node.ID (process.node x) = Some n → stored s !! Node.ID (process.node x) = Some n ∨
     (finished x ∧ identity n = identity (process.node x) ∧ Node.State n = Node.State (process.node x))) →
  processOk s' p x.
Proof.
  intros [A B (c & C1 & C2 & C3) D E F G I J K] Hfr Hcl Hlog Ht Hps Hst Hst'.
  split; try done.
  - exists c. split_and!; [done|lia|]. by rewrite Hcl.
  - intros c' Hc'. specialize (D _ Hc'). lia.
  - intros [? (n & ? & ? & ?)]%E. split; [done|]. exists n. auto.
  - intros He. rewrite <- (F He). split; auto.
  - destruct G as [HG|[? ?]]; [by apply Hps|right; auto].
  - intros n [?|?]%Hst'; auto.
  - auto.
  - lia.
Qed.

Lemma processOk_frame s s' p x :
  processes s' = processes s → closed s' = closed s → fresh s' = fresh s → log s' = log s →
  stored s' = stored s → processOk s p x → processOk s' p x.
Proof.
  intros E1 E2 E3 E4 E5 Hp. apply (processOk_later s); rewrite ?E1, ?E2, ?E3, ?E4, ?E5; auto.
Qed.

Section ok.
(** The retired Peers already on disk when the Agent started. *)
Context (disk : gmap string Node.t).

(** The record [n] is of the Peer that request [r] names, admitted or retired. *)
Definition answerOk (l : list event) (r : CreateNodeRequest.t) (n : Node.t) : Prop :=
  Node.ID n = CreateNodeRequest.ID r ∧
  ((∃ p, Admission p (Node.ID n) (Node.RunID n) (Node.Generation n) ∈ l) ∨
   disk !! Node.ID n = Some n).
Lemma answer_later l l' r n : (∀ e, e ∈ l → e ∈ l') → answerOk l r n → answerOk l' r n.
Proof. intros Hl [? [[p ?]|?]]; (split; [done|]); [left; exists p; auto|by right]. Qed.


Record serverOk (s : server) : Prop := {
  so_proc p x : heap s !! p = Some x → processOk s p x;
  so_ids id p : processes s !! id = Some p → ∃ x, heap s !! p = Some x ∧ Node.ID (process.node x) = id;
  so_done p q x y c : heap s !! p = Some x → heap s !! q = Some y →
    process.done x = Some c → (process.done y = Some c → p = q) ∧ process.admissionDone y ≠ Some c;
  so_adm p q x y c : heap s !! p = Some x → heap s !! q = Some y →
    process.admissionDone x = Some c → process.admissionDone y = Some c → p = q;
  so_closed c : c ∈ closed s → (c < fresh s)%nat;
  so_admitted p id run g : Admission p id run g ∈ log s →
    ∃ x, heap s !! p = Some x ∧ identity (process.node x) = (id, run, g);
  so_fenced r g : Fenced r g ∈ log s →
    ∃ f, (runFences s !! r = Some f ∨ fences s !! r = Some f) ∧ g <= f;
  so_max r f : runFences s !! r = Some f → f <= MaxUint64;
  so_history : history (fin s) (log s);
  so_containers p : p ∈ containers s → ∃ x, heap s !! p = Some x ∧ ¬ finished x;
  so_disk id : is_Some (disk !! id) → is_Some (stored s !! id) ∧ id ∉ admittedIDs (log s);
  so_crashed : crashed s = false;
  so_events p : Launched p ∈ log s ∨ Terminated p ∈ log s → known s p;
  so_answered r n : Answered r n ∈ log s → answerOk (log s) r n;
  so_stored id n : stored s !! id = Some n → id ∈ admittedIDs (log s) ∨ disk !! id = Some n }.

(** A process replaced by a later version of itself. *)
Lemma ok_setProc s p x x' :
  serverOk s → heap s !! p = Some x → pevolves x x' → processOk s p x' →
  (∀ c, process.done x' = Some c → process.done x = Some c ∨
     ∀ q y, heap s !! q = Some y → process.done y ≠ Some c ∧ process.admissionDone y ≠ Some c) →
  (p ∈ containers s → ¬ finished x') →
  serverOk (setProc p x' s).
Proof.
  intros [A B C D E F G I J K L M N O P] Hx Hp Hok Hd Hc.
  assert (∀ q y, heap (setProc p x' s) !! q = Some y →
            (q = p ∧ y = x') ∨ (q ≠ p ∧ heap s !! q = Some y)) as Hlk.
  { intros q y. cbn. destruct (decide (q = p)) as [->|Hne].
    - rewrite lookup_insert_eq. naive_solver.
    - rewrite lookup_insert_ne by done. auto. }
  pose proof (pe_id _ _ Hp) as Hid.
  split; [..|exact M| |exact O|exact P].
  - intros q y [[-> ->]|[_ Hy]]%Hlk; apply (processOk_frame s); try done. by apply A.
  - intros id q (y & Hy & Hi)%B. cbn. destruct (decide (q = p)) as [->|Hne].
    + exists x'. rewrite lookup_insert_eq. assert (y = x) as -> by congruence. split; [done|]. rewrite <- Hi. exact (proj1 (identity_eq _ _ Hid)).
    + exists y. by rewrite lookup_insert_ne by done.
  - intros q1 q2 y1 y2 c [[-> ->]|[Hn1 H1]]%Hlk [[-> ->]|[Hn2 H2]]%Hlk Hd1.
    + split; [done|]. rewrite (pe_adm _ _ Hp). destruct (Hd _ Hd1) as [Hd'|Hd'].
      * by apply (C _ _ _ _ _ Hx Hx Hd').
      * by apply (Hd' _ _ Hx).
    + destruct (Hd _ Hd1) as [Hd'|Hd'].
      * by apply (C _ _ _ _ _ Hx H2 Hd').
      * destruct (Hd' _ _ H2) as [? ?]. done.
    + split.
      * intros Hd2. destruct (Hd _ Hd2) as [Hd'|Hd'].
        -- by apply (C _ _ _ _ _ H1 Hx Hd1).
        -- by destruct (Hd' _ _ H1).
      * rewrite (pe_adm _ _ Hp). by apply (C _ _ _ _ _ H1 Hx Hd1).
    + by apply (C _ _ _ _ _ H1 H2 Hd1).
  - intros q1 q2 y1 y2 c [[-> ->]|[Hn1 H1]]%Hlk [[-> ->]|[Hn2 H2]]%Hlk;
      rewrite ?(pe_adm _ _ Hp); [done|..]; by eapply D.
  - exact E.
  - intros q id run g (y & Hy & Hi)%F. cbn. destruct (decide (q = p)) as [->|Hne].
    + exists x'. rewrite lookup_insert_eq. assert (y = x) as -> by congruence. split; [done|]. by rewrite Hid.
    + exists y. by rewrite lookup_insert_ne by done.
  - exact G.
  - exact I.
  - eapply history_mono; [|exact J]. intros q (y & Hy & Hf). unfold fin. cbn.
    destruct (decide (q = p)) as [->|Hne].
    + exists x'. rewrite lookup_insert_eq. assert (y = x) as -> by congruence. split; [done|]. by apply Hp.
    + exists y. by rewrite lookup_insert_ne by done.
  - intros q Hq. cbn. destruct (decide (q = p)) as [->|Hne].
    + exists x'. rewrite lookup_insert_eq. split; [done|]. by apply Hc.
    + rewrite lookup_insert_ne by done. by apply K.
  - exact L.
  - intros q Hq. unfold known. cbn. destruct (decide (q = p)) as [->|Hne].
    + by rewrite lookup_insert_eq.
    + rewrite lookup_insert_ne by done. by apply N.
Qed.

Lemma processOk_touch s p x x' :
  touch x x' → (process.exited x = true → process.node x' = process.node x) →
  processOk s p x → processOk s p x'.
Proof.
  intros [T1 T2 T3 T4 T5 T6 T7 _] Hn [A B C D E F G I J K]. unfold identity in T1. injection T1 as T11 T12 T13.
  assert (finished x' ↔ finished x) as Hf by (unfold finished; rewrite T3, T4; done).
  split; rewrite ?T3, ?T4, ?T5, ?T6, ?T7, ?T2, ?T11, ?T12, ?T13; try done.
  - intros Hx%Hf. rewrite Hn by apply Hx. by apply A.
  - intros [Hx (n & ? & ? & ?)]%E. rewrite Hf. split; [done|]. exists n. rewrite Hn by apply Hx. done.
  - destruct G as [?|[Hr ?]]; [by left|]. right. split; [|done]. unfold retirable, processCleanupComplete in *.
    rewrite T7, T3, T4. apply andb_prop in Hr as [-> Hr]. destruct (process.exited x) eqn:He; [|done].
    by rewrite Hn.
  - intros n Hs. destruct (I _ Hs) as (Hx & ? & ?). rewrite Hf. split; [done|]. rewrite Hn by apply Hx. done.
Qed.
End ok.

(** ** Who may do what *)
(** The process whose life a thread carries on. *)
Definition ownerOf (t : thread) : option nat :=
  match t with
  | AdmitWrite _ p _ _ | AdmitCheck _ p _ _ _ | AdmitFailed _ p _ | AdmitAccepted _ p _ _ => Some p
  | FinishBegin f | FinishQueue f _ _ _ | FinishEnd f _ _ _ => Some (pointer f)
  | DockerCreate p _ _ | DockerCreated p _ _ | DockerAdmitted p _ _ | DockerStart p _
  | DockerCleanup p _ _ | DockerLeft p _ _ _ | DockerRunning p _ _ | DockerWait p _
  | DockerRemove p _ _ | RetryRemove p => Some p
  | _ => None
  end.
(** The process whose admission a thread will announce. *)
Definition announces (f : finishing) : option nat :=
  match madeBy f with OfAdmission => Some (pointer f) | _ => None end.
Definition tokenOf (t : thread) : option nat :=
  match t with
  | AdmitWrite _ p _ _ | AdmitCheck _ p _ _ _ | AdmitFailed _ p _ | AdmitAccepted _ p _ _
  | AdmitClose p => Some p
  | FinishBegin f | FinishQueue f _ _ _ | FinishEnd f _ _ _ => announces f
  | _ => None
  end.
(** The handler that holds [fencingAll]. *)
Definition stopsAll (t : thread) : bool :=
  match t with
  | StopAllFence | FenceRetired | FenceFiles _ | StopAllEnd => true
  | StopTargets ForAll | StopEach ForAll _ | StopEachCancel ForAll _ _ | WaitBegin ForAll
  | WaitFor ForAll _ _ | WaitOn ForAll _ _ _ => true
  | _ => false
  end.

Definition one (b : bool) : nat := if b then 1 else 0.
Definition isPointer (p : nat) (o : option nat) : nat := one (bool_decide (o = Some p)).
Definition total (f : thread → nat) (l : list thread) : nat := sum_list_with f l.
Definition owners (p : nat) : list thread → nat := total (λ t, isPointer p (ownerOf t)).
Definition tokens (p : nat) : list thread → nat := total (λ t, isPointer p (tokenOf t)).
Definition stopping : list thread → nat := total (λ t, one (stopsAll t)).

Definition live (s : server) (p : nat) : nat :=
  match heap s !! p with Some x => one (negb (process.exited x)) | None => 0 end.
Definition isOpen (s : server) (p : nat) : nat :=
  match heap s !! p with
  | Some x => match process.admissionDone x with
              | Some c => one (bool_decide (c ∉ closed s))
              | None => 0
              end
  | None => 0
  end.

(** A process that runs, left as it was where its owner relies on it. *)
Record undisturbed (p : nat) (s s' : server) : Prop := {
  ud_heap x : heap s !! p = Some x → process.exited x = false →
    ∃ x', heap s' !! p = Some x' ∧ process.exited x' = false ∧
      process.containerID x' = process.containerID x ∧ process.done x' = process.done x;
  ud_containers : p ∈ containers s' ↔ p ∈ containers s;
  ud_launched : Launched p ∈ log s' → Launched p ∈ log s;
  ud_terminated : Terminated p ∈ log s' → Terminated p ∈ log s }.
#[export] Instance undisturbed_preorder p : PreOrder (undisturbed p).
Proof.
  split.
  - intros s. split; [eauto 10|done..].
  - intros a b c [A1 B1 C1 D1] [A2 B2 C2 D2]. split; [|by rewrite B2|auto|auto].
    intros x Hx He. destruct (A1 _ Hx He) as (y & Hy & Hey & ? & ?).
    destruct (A2 _ Hy Hey) as (z & ? & ? & ? & ?). exists z. split_and!; congruence.
Qed.

(** ** What each thread may rely on *)
Definition inScope (w : waiter) (x : process.t) : Prop :=
  match w with
  | ForRun run g => Node.RunID (process.node x) = run ∧ Node.Generation (process.node x) <= g
  | _ => True
  end.
Definition waiterOk (s : server) (w : waiter) : Prop :=
  match w with ForRun run g => Fenced run g ∈ log s | _ => True end.
Definition pendingOk (s : server) (w : waiter) (pending : list nat) (failed : bool) : Prop :=
  waiterOk s w ∧ Forall (known s) pending ∧
  (failed = false → w ≠ ForShutdown →
   ∀ p x, heap s !! p = Some x → inScope w x → ¬ finished x → p ∈ pending).

(** No container, and no launch or evidence yet. *)
Definition unlaunched (s : server) (p : nat) : Prop :=
  p ∉ containers s ∧ Launched p ∉ log s ∧ Terminated p ∉ log s.
(** A removal that failed can be retried. *)
Definition outcomeOk (s : server) (p : nat) (cleanup : option string) : Prop :=
  match cleanup with
  | None => p ∉ containers s
  | Some _ => process.containerID (proc s p) ≠ ""%string
  end.
Definition finishOk (s : server) (f : finishing) : Prop :=
  known s (pointer f) ∧ Node.ID (process.node (proc s (pointer f))) = nodeID f ∧
  outcomeOk s (pointer f) (cleanupErr f).

Definition creationOk (c : creation) : Prop := isUint64 (CreateNodeRequest.Generation (request c)) = true.
Definition youngOk (s : server) (c : creation) (p : nat) : Prop :=
  known s p ∧ Node.ID (process.node (proc s p)) = idOf c ∧ unlaunched s p.
(** The request's ID is not retired, unless the table shows it. *)
Definition unusedOk (s : server) (c : creation) (revision : nat) : Prop :=
  (revision <= historyRevision s)%nat ∧
  (revision = historyRevision s → stored s !! idOf c = None ∨ is_Some (processes s !! idOf c)).
Definition fenceOk (s : server) (c : creation) (revision : nat) (fence : option Z) : Prop :=
  revision = historyRevision s → fencingAll s = true ∨
  ∀ g, Fenced (runOf c) g ∈ log s →
    ∃ f, currentFence (runFences s !! runOf c) fence = Some f ∧ g <= f.
Definition retiredOk (s : server) (np : Node.t * nat) : Prop :=
  ∃ x, heap s !! np.2 = Some x ∧ finished x ∧ np.1 = heartbeatNodeStatus x.

Definition threadOk (s : server) (t : thread) : Prop :=
  match t with
  | AdmitStart r => isUint64 (CreateNodeRequest.Generation r) = true
  | ReplayLook c _ | ReplayReceipt c _ | AdmitResolve c | AdmitRevision c _ => creationOk c
  | ReplayWait c p => creationOk c ∧ known s p ∧ Node.ID (process.node (proc s p)) = idOf c
  | AdmitContains c _ revision => creationOk c ∧ (revision <= historyRevision s)%nat
  | AdmitFence c _ revision => creationOk c ∧ unusedOk s c revision
  | AdmitPressure c _ revision fence | AdmitLock c _ revision fence _ _ =>
      creationOk c ∧ unusedOk s c revision ∧ fenceOk s c revision fence
  | AdmitWrite c p n _ | AdmitCheck c p n _ _ | AdmitAccepted c p n _ =>
      youngOk s c p ∧ identity n = identity (process.node (proc s p))
  | AdmitFailed c p _ => youngOk s c p
  | AdmitClose p | Cancel p | DockerEnd p | Lifetime p _ => known s p
  | StopTargets w | StopEach w _ => waiterOk s w
  | StopEachCancel w p _ => known s p ∧ waiterOk s w
  | FinishBegin f => finishOk s f ∧ Terminated (pointer f) ∉ log s
  | FinishQueue f st _ _ =>
      finishOk s f ∧ Terminated (pointer f) ∉ log s ∧ cleanupErr f = None ∧
      (st = NodeStopped ∨ st = NodeFailed)
  | FinishEnd f st _ _ =>
      finishOk s f ∧ (Terminated (pointer f) ∈ log s ↔ cleanupErr f = None) ∧
      (st = NodeStopped ∨ st = NodeFailed)
  | DockerCreate p _ _ => known s p ∧ unlaunched s p
  | DockerCreated p _ name => known s p ∧ Terminated p ∉ log s ∧ name ≠ ""%string
  | DockerAdmitted p _ id | DockerStart p id | DockerCleanup p id _ | DockerLeft p id _ _
  | DockerRunning p id _ => known s p ∧ Terminated p ∉ log s ∧ id ≠ ""%string
  | DockerWait p _ | DockerRemove p _ _ | RetryRemove p =>
      known s p ∧ Terminated p ∉ log s ∧ process.containerID (proc s p) ≠ ""%string
  | StopRun _ g => isUint64 g = true
  | StopRunCancel todo run g => Forall (known s) todo ∧ Fenced run g ∈ log s
  | WaitBegin w => waiterOk s w
  | WaitFor w pending failed => pendingOk s w pending failed
  | WaitOn w c pending failed =>
      pendingOk s w pending failed ∧
      (c ∈ closed s ∨ ∃ p rest x, pending = p :: rest ∧ heap s !! p = Some x ∧ process.done x = Some c)
  | ReclaimConfig candidates todo _ _ =>
      Forall (fin s) candidates ∧ Forall (fin s) todo
  | ReclaimConfigDone p _ candidates todo _ _ =>
      fin s p ∧ Forall (fin s) candidates ∧ Forall (fin s) todo
  | ReclaimRead candidates _ => Forall (fin s) candidates
  | ReclaimSave nodes _ | ReclaimCommit nodes _ => Forall (retiredOk s) nodes
  | ReclaimDrop nodes _ =>
      Forall (retiredOk s) nodes ∧ Forall (λ np, is_Some (stored s !! Node.ID np.1)) nodes
  | ReclaimEvict run g _ => ∃ f, fences s !! run = Some f ∧ g <= f
  | HeartbeatAck batch _ => ∀ n, n ∈ batch → Delivered n ∈ log s
  | _ => True
  end.

(** ** Stability *)
Lemma known_evolves s s' p : evolves s s' → known s p → known s' p.
Proof. intros He [x Hx]. destruct (ev_heap _ _ He _ _ Hx) as (x' & Hx' & _). by exists x'. Qed.
Lemma log_evolves s s' e : evolves s s' → e ∈ log s → e ∈ log s'.
Proof. intros He Hin. destruct (ev_log _ _ He) as [l ->]. set_solver. Qed.
Lemma proc_known s p : known s p → heap s !! p = Some (proc s p).
Proof. intros [x Hx]. unfold proc. by rewrite Hx. Qed.
Lemma proc_heap s p x : heap s !! p = Some x → proc s p = x.
Proof. intros Hx. unfold proc. by rewrite Hx. Qed.
Lemma proc_evolves s s' p : evolves s s' → known s p → pevolves (proc s p) (proc s' p).
Proof.
  intros He [x Hx]. destruct (ev_heap _ _ He _ _ Hx) as (x' & Hx' & Hp).
  by rewrite (proc_heap _ _ _ Hx), (proc_heap _ _ _ Hx').
Qed.
Lemma id_evolves s s' p id :
  evolves s s' → known s p → Node.ID (process.node (proc s p)) = id →
  Node.ID (process.node (proc s' p)) = id.
Proof.
  intros He Hk <-. exact (proj1 (identity_eq _ _ (pe_id _ _ (proc_evolves _ _ _ He Hk)))).
Qed.
Lemma container_undisturbed s s' p :
  undisturbed p s s' → live s p = 1%nat →
  process.containerID (proc s' p) = process.containerID (proc s p).
Proof.
  intros Hu Hl. unfold live in Hl. destruct (heap s !! p) as [x|] eqn:Hx; [|done].
  destruct (process.exited x) eqn:Hex; [done|].
  destruct (ud_heap _ _ _ Hu _ Hx Hex) as (x' & Hx' & _ & Hc & _).
  by rewrite (proc_heap _ _ _ Hx), (proc_heap _ _ _ Hx').
Qed.
Lemma terminated_undisturbed s s' p :
  evolves s s' → undisturbed p s s' → Terminated p ∈ log s' ↔ Terminated p ∈ log s.
Proof. intros He Hu. split; [apply Hu|by apply log_evolves]. Qed.

Lemma outcome_undisturbed s s' p cleanup :
  undisturbed p s s' → live s p = 1%nat → outcomeOk s p cleanup → outcomeOk s' p cleanup.
Proof.
  intros Hu Hl. destruct cleanup; cbn.
  - by rewrite (container_undisturbed _ _ _ Hu Hl).
  - by rewrite (ud_containers _ _ _ Hu).
Qed.
Lemma unlaunched_undisturbed s s' p : undisturbed p s s' → unlaunched s p → unlaunched s' p.
Proof.
  intros Hu (A & B & C). split_and!.
  - by rewrite (ud_containers _ _ _ Hu).
  - intros ?. by apply B, Hu.
  - intros ?. by apply C, Hu.
Qed.

Lemma unused_evolves s s' c revision :
  evolves s s' → unusedOk s c revision → unusedOk s' c revision.
Proof.
  intros He [Hle Hu]. pose proof (ev_revision _ _ He). split; [lia|].
  intros Hr. assert (historyRevision s' = historyRevision s) as Hs by lia.
  destruct (ev_same _ _ He Hs) as [T _ S _ _]. destruct (Hu ltac:(lia)) as [?|?]; [by apply S|right; by apply T].
Qed.
Lemma fence_evolves s s' c revision fence :
  evolves s s' → (revision <= historyRevision s)%nat → fenceOk s c revision fence → fenceOk s' c revision fence.
Proof.
  intros He Hle Hu Hr. pose proof (ev_revision _ _ He).
  assert (historyRevision s' = historyRevision s) as Hs by lia.
  destruct (ev_same _ _ He Hs) as [T C S F L]. destruct (Hu ltac:(lia)) as [Hf|Hf]; [left; congruence|].
  destruct (fencingAll s') eqn:Hfa; [by left|]. right.
  assert (∀ f, currentFence (runFences s !! runOf c) fence = Some f →
    ∃ f', currentFence (runFences s' !! runOf c) fence = Some f' ∧ f <= f') as Hmono.
  { intros f. destruct (runFences s !! runOf c) as [f1|] eqn:Hc.
    - destruct (C _ _ Hc) as (f2 & -> & Hle2). cbn. destruct fence as [f3|].
      + destruct (f3 <? f1) eqn:E1, (f3 <? f2) eqn:E2; intros [= <-]; eexists; (split; [done|]); lia.
      + intros [= <-]. eauto.
    - cbn. intros ->. destruct (runFences s' !! runOf c) as [f2|]; cbn.
      + destruct (f <? f2) eqn:E; eexists; (split; [done|]); lia.
      + eexists. split; [done|]. lia. }
  intros g [Hin|[(f & Hf' & Hg)|Hb]]%L; [|..|congruence].
  - destruct (Hf _ Hin) as (f & (f' & Hf' & ?)%Hmono & ?). exists f'. split; [done|lia].
  - rewrite Hf'. cbn. destruct fence as [f3|]; [destruct (f3 <? f) eqn:E|];
      eexists; (split; [done|]); lia.
Qed.


Lemma status_final x x' :
  finished x → finished x' → process.node x' = process.node x →
  heartbeatNodeStatus x' = heartbeatNodeStatus x.
Proof.
  intros [A B] [C D] E. unfold heartbeatNodeStatus, processCleanupComplete. by rewrite A, B, C, D, E.
Qed.
Lemma retired_evolves s s' np : evolves s s' → retiredOk s np → retiredOk s' np.
Proof.
  intros He (x & Hx & Hf & E). destruct (ev_heap _ _ He _ _ Hx) as (x' & Hx' & [_ _ Hp]).
  destruct (Hp Hf) as [Hf' En]. exists x'. split_and!; [done|done|]. rewrite E. symmetry.
  by apply status_final.
Qed.

(** The one step in which a process appears. *)
Definition newcomers (s s' : server) : Prop :=
  ∀ p x, heap s !! p = None → heap s' !! p = Some x →
    fencingAll s = false ∧
    (∀ g, Fenced (Node.RunID (process.node x)) g ∈ log s → g < Node.Generation (process.node x)) ∧
    (Config.AutoResetNetwork (config s) = true → experimentNetwork s ≠ None) ∧
    Z.of_nat (capacityUsedLocked s) < capacityLocked s ∧ ∀ q, known s' q → q = p ∨ known s q.

Lemma pending_evolves s s' w pending failed :
  evolves s s' → newcomers s s' → (w = ForAll → fencingAll s = true) →
  pendingOk s w pending failed → pendingOk s' w pending failed.
Proof.
  intros He Hn Hfa (Hw & Hk & Hp). split_and!.
  - destruct w; [by eapply log_evolves|done..].
  - eapply list.Forall_impl; [exact Hk|]. intros p. by apply known_evolves.
  - intros Hfl Hns p x' Hx' Hsc Hnf. destruct (heap s !! p) as [x|] eqn:Hx.
    + destruct (ev_heap _ _ He _ _ Hx) as (x2 & Hx2 & [Hid _ Hfin]).
      assert (x2 = x') as -> by congruence. apply (Hp Hfl Hns p x Hx).
      * destruct w; [|done..]. destruct (identity_eq _ _ Hid) as (_ & E1 & E2). cbn in *.
        by rewrite <- E1, <- E2.
      * intros Hf. by apply Hnf, Hfin.
    + destruct (Hn _ _ Hx Hx') as (Hnf' & Hg & _). destruct w as [run g| |]; [|rewrite Hfa in Hnf'; done|done].
      destruct Hsc as [E Hle]. cbn in Hw. rewrite <- E in Hw. specialize (Hg _ Hw). lia.
Qed.

Lemma fins_evolves s s' l : evolves s s' → Forall (fin s) l → Forall (fin s') l.
Proof. intros He Hl. eapply list.Forall_impl; [exact Hl|]. intros p. by apply fin_evolves. Qed.

Lemma finish_undisturbed s s' f :
  evolves s s' → undisturbed (pointer f) s s' → live s (pointer f) = 1%nat → finishOk s f → finishOk s' f.
Proof.
  intros He Hu Hl (A & B & C). split_and!; [by eapply known_evolves|by eapply id_evolves|].
  by eapply outcome_undisturbed.
Qed.

Lemma identity_evolves s s' p :
  evolves s s' → known s p → identity (process.node (proc s' p)) = identity (process.node (proc s p)).
Proof. intros He Hk. exact (pe_id _ _ (proc_evolves _ _ _ He Hk)). Qed.
Lemma young_undisturbed s s' c p : evolves s s' → undisturbed p s s' → youngOk s c p → youngOk s' c p.
Proof.
  intros He Hu (? & ? & ?).
  split_and!; [by eapply known_evolves|by eapply id_evolves|by eapply unlaunched_undisturbed].
Qed.

Lemma threadOk_stable s s' t :
  evolves s s' → newcomers s s' → (stopsAll t = true → fencingAll s = true) →
  (∀ p, ownerOf t = Some p → undisturbed p s s' ∧ live s p = 1%nat) →
  threadOk s t → threadOk s' t.
Proof.
  intros He Hn Hfa Ho. pose proof (ev_revision _ _ He) as Hrev.
  assert (∀ p, known s p → known s' p) as Hk by (intros p; by apply known_evolves).
  assert (∀ e, e ∈ log s → e ∈ log s') as Hlog by (intros e; by apply log_evolves).
  destruct t; cbn [threadOk ownerOf stopsAll] in *; try done;
    try (destruct (Ho _ eq_refl) as [Hu Hl];
         pose proof (terminated_undisturbed _ _ _ He Hu) as Ht;
         try rewrite (container_undisturbed _ _ _ Hu Hl); rewrite ?Ht);
    try exact (Hk _); try (intros [? ?]; split; [by apply Hk|assumption]).
  - intros (? & ? & ?). split_and!; [done|auto|by eapply id_evolves].
  - intros [? ?]. split; [done|lia].
  - intros [? ?]. split; [done|by eapply unused_evolves].
  - intros (? & Hx & ?). split_and!; [done|by eapply unused_evolves|].
    eapply fence_evolves; [done|apply Hx|done].
  - intros (? & Hx & ?). split_and!; [done|by eapply unused_evolves|].
    eapply fence_evolves; [done|apply Hx|done].
  - intros [Hy Hid]. split; [by eapply young_undisturbed|rewrite (identity_evolves s); [done|done|by destruct Hy]].
  - intros [Hy Hid]. split; [by eapply young_undisturbed|rewrite (identity_evolves s); [done|done|by destruct Hy]].
  - intros Hy. by eapply young_undisturbed.
  - intros [Hy Hid]. split; [by eapply young_undisturbed|rewrite (identity_evolves s); [done|done|by destruct Hy]].
  - intros [? ?]. split; [by eapply finish_undisturbed|done].
  - intros (? & ? & ? & ?). split_and!; [by eapply finish_undisturbed|done..].
  - intros (? & ? & ?). split_and!; [by eapply finish_undisturbed|done..].
  - intros (? & ?). split; [auto|by eapply unlaunched_undisturbed].
  - intros [Hf ?]. split; [|auto]. eapply list.Forall_impl; [exact Hf|done].
  - destruct w; cbn; auto.
  - destruct w; cbn; auto.
  - intros [? Hw]. split; [auto|]. destruct w; cbn in *; auto.
  - destruct w; cbn; auto.
  - apply pending_evolves; [done..|]. intros ->. by apply Hfa.
  - intros [Hp Hc]. split; [eapply pending_evolves; [done..| |done]; intros ->; by apply Hfa|].
    destruct Hc as [Hc|(p & rest & x & -> & Hx & Hd)]; [left; by apply (ev_closed _ _ He)|].
    destruct (ev_done _ _ He _ _ _ Hx Hd) as [?|(x' & ? & ?)]; [by left|right]. eauto 10.
  - intros [? ?]. split; by eapply fins_evolves.
  - intros (? & ? & ?). split_and!; [by eapply fin_evolves|by eapply fins_evolves..].
  - intros ?. by eapply fins_evolves.
  - intros Hr. eapply list.Forall_impl; [exact Hr|]. intros np. by apply retired_evolves.
  - intros Hr. eapply list.Forall_impl; [exact Hr|]. intros np. by apply retired_evolves.
  - intros [Hr Hs]. split.
    + eapply list.Forall_impl; [exact Hr|]. intros np. by apply retired_evolves.
    + eapply list.Forall_impl; [exact Hs|]. intros np. by apply (ev_stored _ _ He).
  - intros (f & Hf & Hle). destruct (ev_fences _ _ He _ _ Hf) as (f' & ? & ?). exists f'. split; [done|lia].
  - auto.
Qed.
