(* ===== verification/AgentCalm.v ===== *)
(** * The elementary changes of an Agent's state

    [calm] changes keep the invariant, the set of running processes and what their
    owners rely on; most critical sections of [AgentServer] are compositions of
    them.  The lemmas after them are about the changes that are not: a process
    that appears, ends or is taken up again. *)
From Stdlib Require Import ZArith Lia.
From stdpp Require Import strings list gmap sorting.
From S2P Require Import Prelude.
From S2P Require Import GoStd.
From S2P Require Import Network.
From S2P Require Import Attacks.
From S2P Require Import GossipSubConfig.
From S2P Require Import AgentModel.
From S2P Require Import Inventory.
From S2P Require Import AgentPrepare.
From S2P Require Import AgentProcess.
From S2P Require Import AgentServer.
From S2P Require Import AgentThreads.
From S2P Require Import AgentInv.
Open Scope Z_scope.

Section calm.
Context (disk : gmap string Node.t).

(** The processes but [o] are undisturbed. *)
Record calmBut (o : option nat) (s s' : server) : Prop := {
  cm_ok : serverOk disk s → serverOk disk s';
  cm_ev : serverOk disk s → evolves s s';
  cm_new p : heap s !! p = None → heap s' !! p = None;
  cm_quiet p : o ≠ Some p → undisturbed p s s';
  cm_live p : live s' p = live s p;
  cm_open p : isOpen s' p = isOpen s p;
  cm_fencing : fencingAll s' = fencingAll s }.
Definition calm : server → server → Prop := calmBut None.

#[export] Instance calmBut_preorder o : PreOrder (calmBut o).
Proof.
  split.
  - intros s. by split.
  - intros a b c [A1 B1 C1 D1 E1 F1 G1] [A2 B2 C2 D2 E2 F2 G2]. split;
      [by auto| |by auto|intros p Hp; etrans; eauto|congruence..].
    intros Ha. etrans; eauto.
Qed.
#[export] Instance calm_preorder : PreOrder calm.
Proof. unfold calm. apply _. Qed.
Lemma calm_but o s s' : calm s s' → calmBut o s s'.
Proof. intros [A B C D E F G]. split; try done. intros p _. by apply D. Qed.

Lemma calm_fold {A} (f : server → A → server) l s :
  (∀ s x, calm s (f s x)) → calm s (foldl f s l).
Proof. intros Hf. revert s. induction l as [|x l IH]; intros s; [reflexivity|]. cbn. etrans; [apply Hf|apply IH]. Qed.

(** ** Fields nothing depends on *)
Lemma live_same s s' p : heap s' !! p = heap s !! p → live s' p = live s p.
Proof. intros E. unfold live. by rewrite E. Qed.
Lemma isOpen_same s s' p : heap s' !! p = heap s !! p → closed s' = closed s → isOpen s' p = isOpen s p.
Proof. intros E E'. unfold isOpen. by rewrite E, E'. Qed.
Lemma fin_same s s' p : heap s' = heap s → fin s' p ↔ fin s p.
Proof. intros E. unfold fin. by rewrite E. Qed.

(** Everything the invariant reads, but the fences in memory and the revision. *)
Definition sameCore (s s' : server) : Prop :=
  config s' = config s ∧ processes s' = processes s ∧ heap s' = heap s ∧ stored s' = stored s ∧
  closed s' = closed s ∧ fresh s' = fresh s ∧ crashed s' = crashed s ∧
  containers s' = containers s ∧ log s' = log s.

Lemma calm_core s s' :
  sameCore s s' → fencingAll s' = fencingAll s →
  (∀ r f, fences s !! r = Some f → ∃ f', fences s' !! r = Some f' ∧ f <= f') →
  (∀ r f, runFences s !! r = Some f → ∃ f', (runFences s' !! r = Some f' ∨ fences s' !! r = Some f') ∧ f <= f') →
  (∀ r f, runFences s' !! r = Some f → f <= MaxUint64 ∨ runFences s !! r = Some f) →
  (historyRevision s <= historyRevision s')%nat →
  (historyRevision s' = historyRevision s →
   ∀ r f, runFences s !! r = Some f → ∃ f', runFences s' !! r = Some f' ∧ f <= f') →
  calm s s'.
Proof.
  intros (E1 & E2 & E3 & E4 & E5 & E6 & E7 & E8 & E9) Ef Hd Hc Hm Hr Hs. split.
  - intros [A B C D E F G I J K L M N O P]. split; rewrite ?E2, ?E3, ?E4, ?E5, ?E6, ?E7, ?E8, ?E9; auto.
    + intros p x Hx. apply (processOk_frame s); auto.
    + intros r g (f & [Hf|Hf] & Hg)%G.
      * destruct (Hc _ _ Hf) as (f' & ? & ?). exists f'. split; [done|lia].
      * destruct (Hd _ _ Hf) as (f' & ? & ?). exists f'. split; [by right|lia].
    + intros r f [?|?]%Hm; [done|by apply (I r)].
    + eapply history_mono; [|exact J]. intros p. by rewrite (fin_same s s').
    + intros p. unfold known. rewrite E3. apply N.
  - intros _. split; rewrite ?E1, ?E3, ?E4, ?E5, ?E6, ?E9; auto.
    + intros p x Hx. exists x. by split.
    + by exists []; rewrite app_nil_r.
    + eauto.
    + intros Hrev. split; rewrite ?E2, ?E4, ?E9; auto.
  - by rewrite E3.
  - intros p _. split; rewrite ?E3, ?E8, ?E9; auto. eauto 10.
  - intros p. apply live_same. by rewrite E3.
  - intros p. apply isOpen_same; [by rewrite E3|done].
  - done.
Qed.

Lemma calm_frame s s' :
  sameCore s s' → fencingAll s' = fencingAll s → fences s' = fences s → runFences s' = runFences s →
  (historyRevision s <= historyRevision s')%nat → calm s s'.
Proof.
  intros Hs Ef E1 E2 Hr. apply calm_core; [done|done|..|done|]; rewrite ?E1, ?E2; eauto with lia.
Qed.

Lemma calm_bump s : calm s (bump s).
Proof. apply calm_frame; [done|done|done|done|]. cbn. lia. Qed.

(** ** Fences *)
Lemma saveFence_fences r g s :
  ∃ f, fences (saveFence r g s) !! r = Some f ∧ g <= f ∧
    ∀ f0, fences s !! r = Some f0 → f0 <= f.
Proof.
  unfold saveFence. destruct (fences s !! r) as [f0|] eqn:Hf.
  - destruct (g <=? f0) eqn:E.
    + exists f0. split_and!; [done|lia|]. intros f1 [= ->]. lia.
    + exists g. cbn. rewrite lookup_insert_eq. split_and!; [done|lia|]. intros f1 [= ->]. lia.
  - exists g. cbn. rewrite lookup_insert_eq. split_and!; [done|lia|done].
Qed.
Lemma saveFence_other r g s r' : r' ≠ r → fences (saveFence r g s) !! r' = fences s !! r'.
Proof. intros Hne. unfold saveFence. repeat case_match; cbn; by rewrite ?lookup_insert_ne by done. Qed.
Lemma saveFence_fields r g s :
  sameCore s (saveFence r g s) ∧ fencingAll (saveFence r g s) = fencingAll s ∧
  runFences (saveFence r g s) = runFences s ∧ historyRevision (saveFence r g s) = historyRevision s.
Proof. unfold saveFence. by repeat case_match. Qed.

Lemma calm_saveFence r g s : calm s (saveFence r g s).
Proof.
  destruct (saveFence_fields r g s) as (Hs & Hf & Hc & Hr). apply calm_core; rewrite ?Hc, ?Hr; auto.
  - intros r' f Hf'. destruct (decide (r' = r)) as [->|Hne].
    + destruct (saveFence_fences r g s) as (f' & ? & ? & Hm). exists f'. auto.
    + rewrite saveFence_other by done. exists f. split; [done|lia].
  - intros r' f Hf'. exists f. split; [by left|lia].
  - eauto with lia.
Qed.

Lemma calm_evict r g s :
  (∃ f, fences s !! r = Some f ∧ g <= f) → calm s (evictFence r g s).
Proof.
  intros (f0 & Hf0 & Hg). unfold evictFence. case_bool_decide as Hc; [|reflexivity].
  apply calm_core; cbn; try done.
  - intros r' f Hf. exists f. split; [done|lia].
  - intros r' f Hf. destruct (decide (r' = r)) as [->|Hne].
    + exists f0. split; [by right|]. assert (f = g) as -> by congruence. lia.
    + exists f. rewrite lookup_delete_ne by done. split; [by left|lia].
  - intros r' f Hf. right. by apply lookup_delete_Some in Hf as [_ Hf].
  - lia.
  - lia.
Qed.

(** A fence raised in memory, under a new revision or while all admissions stop. *)
Lemma calm_raise r f s revision :
  f <= MaxUint64 → (∀ f0, runFences s !! r = Some f0 → f0 <= f) →
  (historyRevision s <= revision)%nat →
  calm s (withHistory (<[r := f]> (runFences s)) revision s).
Proof.
  intros Hmax Hf Hr.
  assert (∀ r' f', runFences s !! r' = Some f' →
    ∃ f2, <[r := f]> (runFences s) !! r' = Some f2 ∧ f' <= f2) as Hm.
  { intros r' f' Hf'. destruct (decide (r' = r)) as [->|Hne].
    - exists f. rewrite lookup_insert_eq. auto.
    - exists f'. rewrite lookup_insert_ne by done. split; [done|lia]. }
  apply calm_core; cbn; try done.
  - intros r' f' Hf'. exists f'. split; [done|lia].
  - intros r' f' (f2 & ? & ?)%Hm. eauto.
  - intros r' f' Hf'. destruct (decide (r' = r)) as [->|Hne].
    + rewrite lookup_insert_eq in Hf'. injection Hf' as <-. by left.
    + rewrite lookup_insert_ne in Hf' by done. by right.
Qed.

(** ** One process *)
Lemma live_setProc s p x x' :
  heap s !! p = Some x → process.exited x' = process.exited x →
  ∀ q, live (setProc p x' s) q = live s q.
Proof.
  intros Hx He q. unfold live. cbn. destruct (decide (q = p)) as [->|Hne].
  - by rewrite lookup_insert_eq, Hx, He.
  - by rewrite lookup_insert_ne by done.
Qed.
Lemma open_setProc s p x x' :
  heap s !! p = Some x → process.admissionDone x' = process.admissionDone x →
  ∀ q, isOpen (setProc p x' s) q = isOpen s q.
Proof.
  intros Hx He q. unfold isOpen. cbn. destruct (decide (q = p)) as [->|Hne].
  - by rewrite lookup_insert_eq, Hx, He.
  - by rewrite lookup_insert_ne by done.
Qed.
Lemma evolves_setProc s p x x' :
  heap s !! p = Some x → pevolves x x' →
  (∀ c, process.done x = Some c → process.done x' = Some c ∨ c ∈ closed s) →
  evolves s (setProc p x' s).
Proof.
  intros Hx Hp Hd. split; cbn; auto.
  - intros q y Hy. destruct (decide (q = p)) as [->|Hne].
    + exists x'. rewrite lookup_insert_eq. assert (y = x) as -> by congruence. done.
    + exists y. rewrite lookup_insert_ne by done. done.
  - by exists []; rewrite app_nil_r.
  - intros q y c Hy Hc. destruct (decide (q = p)) as [->|Hne].
    + assert (y = x) as -> by congruence. destruct (Hd _ Hc); [right|by left].
      exists x'. by rewrite lookup_insert_eq.
    + right. exists y. by rewrite lookup_insert_ne by done.
  - intros r f Hf. exists f. split; [done|lia].
  - intros _. split; cbn; auto. intros r f Hf. exists f. split; [done|lia].
Qed.
Lemma new_setProc s p x x' q :
  heap s !! p = Some x → heap s !! q = None → heap (setProc p x' s) !! q = None.
Proof. intros Hx Hq. cbn. rewrite lookup_insert_ne; [done|]. intros ->. congruence. Qed.

Lemma calm_setProc s p x x' :
  heap s !! p = Some x → touch x x' → (process.exited x = true → process.node x' = process.node x) →
  calm s (setProc p x' s).
Proof.
  intros Hx Ht Hn. pose proof (touch_evolves _ _ Ht Hn) as Hp. pose proof Ht as [T1 T2 T3 T4 T5 T6 T7 _].
  assert (finished x' ↔ finished x) as Hf by (unfold finished; by rewrite T3, T4).
  split; try done.
  - intros Hok. apply (ok_setProc disk s p x); [done..| | |].
    + eapply processOk_touch; [done..|]. by apply Hok.
    + intros c Hc. left. congruence.
    + intros (y & Hy & Hnf)%(so_containers _ _ Hok). rewrite Hf. congruence.
  - intros _. apply (evolves_setProc s p x); [done..|]. intros c Hc. left. congruence.
  - intros q. by apply (new_setProc s p x).
  - intros q _. split; [|done..]. intros y Hy He. cbn. destruct (decide (q = p)) as [->|Hne].
    + exists x'. rewrite lookup_insert_eq. assert (y = x) as -> by congruence. by rewrite T3, T5, T6.
    + exists y. by rewrite lookup_insert_ne by done.
  - by apply (live_setProc s p x).
  - by apply (open_setProc s p x).
Qed.

Lemma calm_modify s p f :
  known s p → (∀ x, touch x (f x)) → (process.exited (proc s p) = true →
    process.node (f (proc s p)) = process.node (proc s p)) → calm s (modify p f s).
Proof.
  intros Hk Ht Hn. unfold modify. apply (calm_setProc s p (proc s p)); [by apply proc_known|done|done].
Qed.

(** ** The log *)
(** What an event of a calm step needs; appearances, launches and exits are not
    calm. *)
Definition eventOk (s : server) (e : event) : Prop :=
  match e with
  | Admission _ _ _ _ | Launched _ | Terminated _ => False
  | Fenced r g => (∃ f, runFences s !! r = Some f ∧ g <= f) ∨
                  (fencingAll s = true ∧ ∃ f, fences s !! r = Some f ∧ g <= f)
  | Answered r n => serverOk disk s → answerOk disk (log s) r n
  | _ => serverOk disk s → allowed (fin s) (log s) e
  end.

Lemma admittedIDs_app l l' : admittedIDs (l ++ l') = admittedIDs l ++ admittedIDs l'.
Proof. apply omap_app. Qed.

Lemma calm_event s e : eventOk s e → calm s (record [e] s).
Proof.
  intros He.
  assert (admittedIDs [e] = []) as Ha by (destruct e; [done|done..]).
  split.
  - intros Hok. pose proof Hok as [A B C D E F G I J K L M N O P]. split; cbn; auto.
    + intros p x Hx.
      apply (processOk_later s); cbn; [by apply A|done|done|set_solver| |by left|done|by left].
      intros [?|Hin]%elem_of_app; [done|]. apply list_elem_of_singleton in Hin. by subst e.
    + intros p id run g [?|Hin]%elem_of_app; [by apply F|]. apply list_elem_of_singleton in Hin. by subst e.
    + intros r g [?|Hin]%elem_of_app; [by apply G|]. apply list_elem_of_singleton in Hin. subst e.
      destruct He as [(f & ? & ?)|(_ & f & ? & ?)]; eauto.
    + constructor; [eapply history_mono; [|exact J]; intros p; by apply (fin_same s)|].
      eapply allowed_mono; [intros p; by apply (fin_same s)|]. destruct e; try done; by apply He.
    + intros id Hid. rewrite admittedIDs_app, Ha, app_nil_r. by apply L.
    + intros p Hp. apply N. rewrite !elem_of_app, !list_elem_of_singleton in Hp.
      destruct Hp as [[?|?]|[?|?]]; [by left|by subst e|by right|by subst e].
    + intros r n Hin. apply (answer_later _ (log s)); [set_solver|].
      apply elem_of_app in Hin as [?|Hin]; [by apply O|]. apply list_elem_of_singleton in Hin. subst e.
      by apply He.
    + intros id n Hn. rewrite admittedIDs_app, Ha, app_nil_r. by apply P.
  - intros _. split; cbn; auto.
    + intros p x Hx. exists x. by split.
    + eauto.
    + eauto.
    + intros r f Hf. exists f. split; [done|lia].
    + intros _. split; cbn; auto.
      * intros r f Hf. exists f. split; [done|lia].
      * intros r g [?|Hin]%elem_of_app; [by left|right]. apply list_elem_of_singleton in Hin. subst e.
        destruct He as [?|[? _]]; auto.
  - done.
  - intros p _. split; cbn; [eauto 10|done|..]; intros [?|Hin]%elem_of_app; try done;
      apply list_elem_of_singleton in Hin; by subst e.
  - done.
  - done.
  - done.
Qed.

Lemma record_app l l' s : record (l ++ l') s = record l' (record l s).
Proof. unfold record. cbn. by rewrite app_assoc. Qed.
Lemma record_nil s : record [] s = s.
Proof. unfold record. rewrite app_nil_r. by destruct s. Qed.

(** Events that need nothing of the log. *)
Lemma calm_records s l :
  Forall (λ e, match e with
               | Delivered _ => True
               | Fenced r g => ∃ f, runFences s !! r = Some f ∧ g <= f
               | _ => False
               end) l → calm s (record l s).
Proof.
  induction l as [|e l IH] using rev_ind; intros Hl; [by rewrite record_nil|].
  apply Forall_app in Hl as [Hl He]. rewrite record_app. etrans; [by apply IH|].
  apply calm_event. inversion He as [|? ? He' _]. destruct e; try done; by left.
Qed.

(** ** Acknowledgements *)
Lemma calm_ack s p x b :
  heap s !! p = Some x →
  (b = true → processCleanupComplete x = true ∧
     ∃ n, Delivered n ∈ log s ∧ Node.ID n = Node.ID (process.node x) ∧ Node.State n = Node.State (process.node x)) →
  (b = false → processes s !! Node.ID (process.node x) = Some p) →
  calm s (setProc p (process.setAcknowledged b x) s).
Proof.
  intros Hx Ht Hb. assert (pevolves x (process.setAcknowledged b x)) as Hp by by split.
  split; try done.
  - intros Hok. apply (ok_setProc disk s p x); [done..| | |].
    + destruct (so_proc _ _ Hok _ _ Hx) as [A B C D E F G I J K]. split; try done.
      * cbn. intros ->. destruct (Ht eq_refl) as [Hc Hn]. split; [|exact Hn].
        unfold processCleanupComplete in Hc. unfold finished. cbn.
        destruct (process.exited x); [|done]. cbn in Hc. apply andb_prop in Hc as [Hc _].
        by rewrite bool_decide_eq_true in Hc.
      * cbn. destruct G as [?|[Hr ?]]; [by left|]. destruct b; [right|left; by apply Hb].
        split; [|done]. by destruct (Ht eq_refl).
    + intros c Hc. by left.
    + intros (y & Hy & Hnf)%(so_containers _ _ Hok). by assert (y = x) as -> by congruence.
  - intros _. apply (evolves_setProc s p x); [done..|]. intros c Hc. by left.
  - intros q. by apply (new_setProc s p x).
  - intros q _. split; [|done..]. intros y Hy He. cbn. destruct (decide (q = p)) as [->|Hne].
    + exists (process.setAcknowledged b x). rewrite lookup_insert_eq.
      by assert (y = x) as -> by congruence.
    + exists y. by rewrite lookup_insert_ne by done.
  - by apply (live_setProc s p x).
  - by apply (open_setProc s p x).
Qed.

(** ** Retirement *)
Lemma admittedIDs_in p id run g l : Admission p id run g ∈ l → id ∈ admittedIDs l.
Proof. intros Hin. apply list_elem_of_omap. by exists (Admission p id run g). Qed.
Lemma admitted_unique f l p q id run run' g g' :
  history f l → Admission p id run g ∈ l → Admission q id run' g' ∈ l → p = q.
Proof.
  induction 1 as [|l e _ IH He]; [by intros ?%elem_of_nil|].
  intros [H1|H1%list_elem_of_singleton]%elem_of_app [H2|H2%list_elem_of_singleton]%elem_of_app.
  - by apply IH.
  - subst e. destruct He as [He _]. destruct He. by eapply admittedIDs_in.
  - subst e. destruct He as [He _]. destruct He. by eapply admittedIDs_in.
  - congruence.
Qed.
Lemma heap_unique s p q x y :
  serverOk disk s → heap s !! p = Some x → heap s !! q = Some y →
  Node.ID (process.node x) = Node.ID (process.node y) → p = q.
Proof.
  intros Hok Hx Hy E. pose proof (po_admitted _ _ _ (so_proc _ _ Hok _ _ Hx)) as Ha.
  pose proof (po_admitted _ _ _ (so_proc _ _ Hok _ _ Hy)) as Hb. rewrite E in Ha.
  by eapply admitted_unique; [apply Hok|..].
Qed.

Lemma identity_status x : identity (heartbeatNodeStatus x) = identity (process.node x).
Proof. unfold heartbeatNodeStatus. by case_match. Qed.
Lemma state_status x : Node.State (heartbeatNodeStatus x) = Node.State (process.node x).
Proof. unfold heartbeatNodeStatus. by case_match. Qed.

Lemma calm_commit s n p :
  serverOk disk s → retiredOk s (n, p) →
  calm s (withDisk (<[Node.ID n := n]> (stored s)) (runs s) (fences s) s).
Proof.
  intros Hok0 (x & Hx & Hf & En). cbn in Hx, En.
  assert (Node.ID n = Node.ID (process.node x)) as Hid
    by (rewrite En; exact (proj1 (identity_eq _ _ (identity_status x)))).
  split; try done.
  - intros Hok. pose proof Hok as [A B C D E F G I J K L M N O P]. split; cbn; auto.
    + intros q y Hy. apply (processOk_later s); cbn; auto.
      * intros Hs. destruct (decide (Node.ID (process.node y) = Node.ID n)) as [->|Hne].
        -- by rewrite lookup_insert_eq.
        -- by rewrite lookup_insert_ne by done.
      * intros n' Hn'. destruct (decide (Node.ID (process.node y) = Node.ID n)) as [Ey|Hne].
        -- right. rewrite Ey, lookup_insert_eq in Hn'. injection Hn' as <-.
           assert (q = p) as -> by (eapply (heap_unique s); [done..|congruence]).
           assert (y = x) as -> by congruence. rewrite En, identity_status, state_status. done.
        -- left. by rewrite lookup_insert_ne in Hn' by done.
    + intros id (? & ?)%L. split; [|done]. destruct (decide (id = Node.ID n)) as [->|Hne].
      * by rewrite lookup_insert_eq.
      * by rewrite lookup_insert_ne by done.
    + intros id m Hm. destruct (decide (id = Node.ID n)) as [->|Hne].
      * left. rewrite Hid. eapply admittedIDs_in, (po_admitted _ _ _ (A _ _ Hx)).
      * rewrite lookup_insert_ne in Hm by done. by apply P.
  - intros Hok. split; cbn; auto.
    + intros q y Hy. exists y. by split.
    + by exists []; rewrite app_nil_r.
    + eauto.
    + intros id Hs. destruct (decide (id = Node.ID n)) as [->|Hne].
      * by rewrite lookup_insert_eq.
      * by rewrite lookup_insert_ne by done.
    + intros r f Hr. exists f. split; [done|lia].
    + intros _. split; cbn; auto; [intros r f Hr; exists f; split; [done|lia]|].
      intros id Hs. destruct (decide (id = Node.ID n)) as [->|Hne].
      * right. destruct (po_table _ _ _ (so_proc _ _ Hok _ _ Hx)) as [Ht|[_ Hst]]; rewrite <- Hid in *.
        -- by rewrite Ht.
        -- rewrite Hs in Hst. by destruct Hst.
      * left. by rewrite lookup_insert_ne by done.
  - intros q _. by split; cbn; eauto 10.
Qed.

Lemma calm_commits nodes s :
  serverOk disk s → Forall (retiredOk s) nodes → calm s (commitNodes nodes.*1 s).
Proof.
  intros Hok Hn.
  enough (∀ s0, calm s0 s → serverOk disk s0 → Forall (retiredOk s0) nodes → calm s0 (commitNodes nodes.*1 s)) as He
    by (by apply He).
  clear Hok Hn. revert s. induction nodes as [|[n p] nodes IH]; intros s s0 Hc Hok Hn.
  - cbn. etrans; [exact Hc|]. by apply calm_frame.
  - apply list.Forall_cons in Hn as [Hn Hns].
    assert (calm s (withDisk (<[Node.ID n := n]> (stored s)) (runs s) (fences s) s)) as Hstep.
    { apply (calm_commit s n p); [by apply Hc|]. eapply retired_evolves; [by apply Hc|done]. }
    assert (calm s0 (withDisk (<[Node.ID n := n]> (stored s)) (runs s) (fences s) s)) as Hc' by by etrans.
    exact (IH _ _ Hc' Hok Hns).
Qed.

Lemma commit_stored (nodes : list (Node.t * nat)) s np : np ∈ nodes → is_Some (stored (commitNodes nodes.*1 s) !! Node.ID np.1).
Proof.
  intros Hin. unfold commitNodes. cbn.
  enough (∀ m : gmap string Node.t, is_Some (m !! Node.ID np.1) ∨ np ∈ nodes →
    is_Some (foldl (λ m n, <[Node.ID n := n]> m) m nodes.*1 !! Node.ID np.1)) as He by (apply He; by right).
  clear Hin. induction nodes as [|[n p] nodes IH]; intros m [Hm|Hin]; cbn; [done| |..].
  - by apply elem_of_nil in Hin.
  - apply IH. left. destruct (decide (Node.ID n = Node.ID np.1)) as [->|Hne];
      [by rewrite lookup_insert_eq|by rewrite lookup_insert_ne].
  - apply IH. apply elem_of_cons in Hin as [->|Hin]; [left; by rewrite lookup_insert_eq|by right].
Qed.

Lemma calm_drop s np :
  serverOk disk s → retiredOk s np → is_Some (stored s !! Node.ID np.1) → calm s (dropRetired s np).
Proof.
  destruct np as [n p]. intros Hok0 (x & Hx & Hf & En) Hst. cbn in Hx, En, Hst. unfold dropRetired.
  destruct (current (Node.ID n) p s) eqn:Hcur; [|reflexivity].
  destruct (retirable (proc s p)) eqn:Hret; [|reflexivity]. cbn [andb].
  unfold current in Hcur. rewrite bool_decide_eq_true in Hcur.
  rewrite (proc_heap _ _ _ Hx) in Hret.
  split; try done.
  - intros Hok. pose proof Hok as [A B C D E F G I J K L M N O P]. split; cbn; auto.
    + intros q y Hy. apply (processOk_later s); cbn; auto.
      intros Hq. destruct (decide (Node.ID (process.node y) = Node.ID n)) as [Ey|Hne].
      * right. rewrite Ey in Hq. assert (q = p) as -> by congruence. assert (y = x) as -> by congruence.
        by rewrite Ey.
      * left. by rewrite lookup_delete_ne by done.
    + intros id q (_ & Hq)%lookup_delete_Some. by apply B.
  - intros Hok. split; cbn; auto.
    + intros q y Hy. exists y. by split.
    + by exists []; rewrite app_nil_r.
    + eauto.
    + intros r f Hr. exists f. split; [done|lia].
    + lia.
  - intros q _. by split; cbn; eauto 10.
Qed.

Lemma calm_drops nodes s :
  serverOk disk s → Forall (retiredOk s) nodes → Forall (λ np, is_Some (stored s !! Node.ID np.1)) nodes →
  calm s (foldl dropRetired s nodes).
Proof.
  revert s. induction nodes as [|np nodes IH]; intros s Hok Hn Hs; [reflexivity|].
  apply list.Forall_cons in Hn as [Hn Hns]. apply list.Forall_cons in Hs as [Hs Hss]. cbn.
  pose proof (calm_drop s np Hok Hn Hs) as Hc. etrans; [exact Hc|]. apply IH.
  - by apply Hc.
  - eapply list.Forall_impl; [exact Hns|]. intros y. by apply retired_evolves, Hc.
  - eapply list.Forall_impl; [exact Hss|]. intros y. by apply (ev_stored _ _ (cm_ev _ _ _ Hc Hok)).
Qed.

(** ** What a process's owner does *)
Lemma live_heap s p : live s p = 1%nat → ∃ x, heap s !! p = Some x ∧ process.exited x = false.
Proof.
  unfold live. destruct (heap s !! p) as [x|]; [|done]. destruct (process.exited x) eqn:He; [done|]. eauto.
Qed.
Lemma live_unfinished s p : live s p = 1%nat → ∃ x, heap s !! p = Some x ∧ ¬ finished x.
Proof. intros (x & Hx & He)%live_heap. exists x. split; [done|]. intros [He' _]. congruence. Qed.

(** Changes of the set of containers. *)
Lemma busy_containers s p c :
  (∀ q, q ≠ p → q ∈ c ↔ q ∈ containers s) →
  (p ∈ c → p ∈ containers s ∨ ∃ x, heap s !! p = Some x ∧ ¬ finished x) →
  calmBut (Some p) s (withContainers c s).
Proof.
  intros Hq Hp. split; try done.
  - intros [A B C D E F G I J K L M N O P]. split; cbn; auto.
    + intros q x Hx. apply (processOk_frame s); auto.
    + intros q Hqc. destruct (decide (q = p)) as [->|Hne].
      * destruct (Hp Hqc) as [?|?]; auto.
      * by apply K, Hq.
  - intros _. split; cbn; auto.
    + intros q y Hy. exists y. by split.
    + by exists []; rewrite app_nil_r.
    + eauto.
    + intros r f Hr. exists f. split; [done|lia].
    + intros _. split; cbn; auto. intros r f Hr. exists f. split; [done|lia].
  - intros q Hne. split; cbn; [eauto 10|apply Hq; congruence|done..].
Qed.

(** Launches and evidence of an exit, of a process that has not ended. *)
Lemma busy_event s p e :
  (e = Launched p ∨ e = Terminated p) → e ∉ log s → live s p = 1%nat →
  calmBut (Some p) s (record [e] s).
Proof.
  intros He Hin Hl. destruct (live_heap _ _ Hl) as (x & Hx & Hex).
  assert (admittedIDs [e] = []) as Ha by by destruct He as [-> | ->].
  assert (∀ e', e' ∈ log s ++ [e] → e' ∈ log s ∨ e' = e) as Hsplit.
  { intros e' [?|?%list_elem_of_singleton]%elem_of_app; auto. }
  split; try done.
  - intros [A B C D E F G I J K L M N O P]. split; cbn; auto.
    + intros q y Hy. destruct (decide (q = p)) as [->|Hne].
      * assert (y = x) as -> by congruence. destruct (A _ _ Hx) as [P1 P2 P3 P4 P5 P6 P7 P8 P9 P10]. split; cbn; try done.
        -- intros [? (n & ? & ?)]%P5. split; [done|]. exists n. set_solver.
        -- congruence.
        -- set_solver.
      * apply (processOk_later s); cbn; [by apply A|done|done|set_solver| |by left|done|by left].
        intros [?|Hq]%Hsplit; [done|]. destruct He; congruence.
    + intros q id run g [?|Hq]%Hsplit; [by apply F|]. destruct He; congruence.
    + intros r g [?|Hq]%Hsplit; [by apply G|]. destruct He; congruence.
    + constructor; [eapply history_mono; [|exact J]; intros q; by apply (fin_same s)|].
      by destruct He as [-> | ->].
    + intros id Hid. rewrite admittedIDs_app, Ha, app_nil_r. by apply L.
    + intros q Hq. destruct (decide (q = p)) as [->|Hne]; [by exists x|]. apply N.
      destruct Hq as [[?|Hq]%Hsplit|[?|Hq]%Hsplit]; auto; destruct He; congruence.
    + intros r n [?|Hq]%Hsplit; [|destruct He; congruence].
      apply (answer_later _ (log s)); [set_solver|by apply O].
    + intros id n Hn. rewrite admittedIDs_app, Ha, app_nil_r. by apply P.
  - intros _. split; cbn; auto.
    + intros q y Hy. exists y. by split.
    + eauto.
    + eauto.
    + intros r f Hf. exists f. split; [done|lia].
    + intros _. split; cbn; auto.
      * intros r f Hf. exists f. split; [done|lia].
      * intros r g [?|Hq]%Hsplit; [by left|]. destruct He; congruence.
  - intros q Hne. assert (q ≠ p) by congruence. split; cbn; [eauto 10|done|..]; intros [?|Hq]%Hsplit; try done;
      destruct He; congruence.
Qed.

Lemma busy_setContainer s p id :
  live s p = 1%nat → calmBut (Some p) s (modify p (process.setContainer id) s).
Proof.
  intros Hl. destruct (live_heap _ _ Hl) as (x & Hx & Hex). unfold modify. rewrite (proc_heap _ _ _ Hx).
  assert (¬ finished x) as Hnf by (intros [? _]; congruence).
  assert (pevolves x (process.setContainer id x)) as Hp by by split.
  split; try done.
  - intros Hok. apply (ok_setProc disk s p x); [done..| | |].
    + destruct (so_proc _ _ Hok _ _ Hx) as [A B C D E F G I J K]. split; try done.
      cbn. congruence.
    + intros c Hc. by left.
    + done.
  - intros _. apply (evolves_setProc s p x); [done..|]. intros c Hc. by left.
  - intros q. by apply (new_setProc s p x).
  - intros q Hne. assert (q ≠ p) by congruence. split; [|done..]. intros y Hy He. cbn.
    exists y. by rewrite lookup_insert_ne by done.
  - by apply (live_setProc s p x).
  - by apply (open_setProc s p x).
Qed.

(** ** Channels *)
(** Closing a channel that only [p] refers to. *)
Lemma closeChan_open c s :
  c ∉ closed s → closeChan c s = withChannels ({[c]} ∪ closed s) (fresh s) (crashed s) s.
Proof. intros Hc. unfold closeChan. by rewrite bool_decide_eq_false_2. Qed.

(** ** An admission is announced *)
Lemma announce_step s p x c :
  serverOk disk s → heap s !! p = Some x → process.admissionDone x = Some c → c ∉ closed s →
  serverOk disk (closeChan c s) ∧ evolves s (closeChan c s) ∧
  (∀ q, undisturbed q s (closeChan c s)) ∧ (∀ q, live (closeChan c s) q = live s q) ∧
  (∀ q, isOpen (closeChan c s) q = if decide (q = p) then 0%nat else isOpen s q).
Proof.
  intros Hok Hx Hc Hcl. rewrite (closeChan_open _ _ Hcl). pose proof Hok as [A B C D E F G I J K L M N O P].
  split_and!.
  - split; cbn; auto.
    + intros q y Hy. apply (processOk_later s); cbn; auto.
      intros d Hd. rewrite elem_of_union, elem_of_singleton. split; [|by right].
      intros [->|?]; [|done]. destruct (C _ _ _ _ _ Hy Hx Hd) as [_ Hn]. by destruct Hn.
    + intros d [->%elem_of_singleton|?]%elem_of_union; [|auto].
      by apply (po_adm _ _ _ (A _ _ Hx)).
  - split; cbn; auto.
    + intros q y Hy. exists y. by split.
    + by exists []; rewrite app_nil_r.
    + set_solver.
    + eauto.
    + intros r f Hr. exists f. split; [done|lia].
    + intros _. split; cbn; auto. intros r f Hr. exists f. split; [done|lia].
  - intros q. split; cbn; eauto 10.
  - done.
  - intros q. unfold isOpen. cbn. destruct (decide (q = p)) as [->|Hne].
    + rewrite Hx, Hc. by rewrite bool_decide_eq_false_2 by set_solver.
    + destruct (heap s !! q) as [y|] eqn:Hy; [|done]. destruct (process.admissionDone y) as [d|] eqn:Hd; [|done].
      f_equal. apply bool_decide_ext. assert (d ≠ c); [|set_solver]. intros ->.
      by apply Hne, (D _ _ _ _ _ Hy Hx Hd).
Qed.

(** ** A process ends *)
Record endsAs (x x' : process.t) (cleanup : option string) : Prop := {
  ea_id : identity (process.node x') = identity (process.node x);
  ea_adm : process.admissionDone x' = process.admissionDone x;
  ea_exited : process.exited x' = true;
  ea_cleanup : process.cleanupErr x' = cleanup;
  ea_container : process.containerID x' = process.containerID x;
  ea_done : process.done x' = process.done x;
  ea_ack : process.heartbeatAcknowledged x' = process.heartbeatAcknowledged x;
  ea_terminal : terminal (process.node x') = true;
  ea_cancelled : process.cancelled x = true → process.cancelled x' = true }.

Lemma exit_step s p x x' c cleanup :
  serverOk disk s → heap s !! p = Some x → process.exited x = false → endsAs x x' cleanup →
  process.done x = Some c → (cleanup = None → p ∉ containers s) →
  (cleanup ≠ None → process.containerID x ≠ ""%string) → (Terminated p ∈ log s ↔ cleanup = None) →
  let s' := closeChan c (setProc p x' s) in
  serverOk disk s' ∧ evolves s s' ∧ (∀ q, heap s !! q = None → heap s' !! q = None) ∧
  (∀ q, q ≠ p → undisturbed q s s') ∧ (∀ q, live s' q = if decide (q = p) then 0%nat else live s q) ∧
  (∀ q, isOpen s' q = isOpen s q).
Proof.
  intros Hok Hx Hex [E1 E2 E3 E4 E5 E6 E7 E8 E9] Hd Hcont Hcid Hterm s'.
  pose proof (so_proc _ _ Hok _ _ Hx) as Hpx.
  assert (c ∉ closed s) as Hcl.
  { destruct (po_done _ _ _ Hpx) as (c' & Hc' & _ & Hiff). assert (c' = c) as -> by congruence.
    rewrite Hiff. congruence. }
  assert (pevolves x x') as Hp by (split; [done|done| |done]; intros [? _]; congruence).
  assert (s' = withChannels ({[c]} ∪ closed s) (fresh s) (crashed s) (setProc p x' s)) as ->
    by exact (closeChan_open c (setProc p x' s) Hcl).
  set (s1 := withChannels ({[c]} ∪ closed s) (fresh s) (crashed s) s).
  assert (∀ q y, heap s !! q = Some y → q ≠ p → ∀ d, process.done y = Some d →
            d ∈ {[c]} ∪ closed s ↔ d ∈ closed s) as Hother.
  { intros q y Hy Hne d Hd'. rewrite elem_of_union, elem_of_singleton. split; [|by right].
    intros [->|?]; [|done]. by destruct Hne; apply (so_done _ _ Hok _ _ _ _ _ Hy Hx Hd'). }
  pose proof Hok as [A B C D E F G I J K L M N O P].
  split_and!.
  - destruct (identity_eq _ _ E1) as (I1 & I2 & I3). split; cbn; auto.
    + intros q y Hy. destruct (decide (q = p)) as [->|Hne].
      * rewrite lookup_insert_eq in Hy. injection Hy as <-. destruct Hpx as [P1 P2 P3 P4 P5 P6 P7 P8 P9 P10]. split; cbn; rewrite ?I1, ?I2, ?I3.
        -- done.
        -- rewrite E4, E5. intros _. done.
        -- destruct P3 as (c' & Hc' & ? & ?). assert (c' = c) as -> by congruence. exists c.
           rewrite E6. split_and!; [done..|]. set_solver.
        -- rewrite E2. done.
        -- rewrite E7. intros [[? _] _]%P5. congruence.
        -- rewrite E4. done.
        -- destruct P7 as [?|[Hr _]]; [by left|]. unfold retirable, processCleanupComplete in Hr.
           rewrite Hex, andb_false_r in Hr. done.
        -- intros n [[? _] _]%P8. congruence.
        -- done.
        -- done.
      * rewrite lookup_insert_ne in Hy by done. apply (processOk_later s); cbn; auto. by eapply Hother.
    + intros id q (y & Hy & Hi)%B. destruct (decide (q = p)) as [->|Hne].
      * exists x'. rewrite lookup_insert_eq. split; [done|]. congruence.
      * exists y. by rewrite lookup_insert_ne by done.
    + intros q1 q2 y1 y2 d H1 H2. destruct (decide (q1 = p)) as [->|N1], (decide (q2 = p)) as [->|N2];
        rewrite ?lookup_insert_eq, ?lookup_insert_ne in H1 by done;
        rewrite ?lookup_insert_eq, ?lookup_insert_ne in H2 by done;
        repeat match goal with H : Some _ = Some _ |- _ => injection H as <- end; rewrite ?E2, ?E6;
        by eapply C.
    + intros q1 q2 y1 y2 d H1 H2. destruct (decide (q1 = p)) as [->|N1], (decide (q2 = p)) as [->|N2];
        rewrite ?lookup_insert_eq, ?lookup_insert_ne in H1 by done;
        rewrite ?lookup_insert_eq, ?lookup_insert_ne in H2 by done;
        repeat match goal with H : Some _ = Some _ |- _ => injection H as <- end; rewrite ?E2; [done|..];
        by eapply D.
    + intros d [->%elem_of_singleton|?]%elem_of_union; [|auto].
      destruct (po_done _ _ _ Hpx) as (c' & Hc' & ? & _). assert (c' = c) as -> by congruence. done.
    + intros q id run g (y & Hy & Hi)%F. destruct (decide (q = p)) as [->|Hne].
      * exists x'. rewrite lookup_insert_eq. assert (y = x) as -> by congruence. by rewrite E1.
      * exists y. by rewrite lookup_insert_ne by done.
    + eapply history_mono; [|exact J]. intros q (y & Hy & Hf). unfold fin. cbn.
      destruct (decide (q = p)) as [->|Hne].
      * assert (y = x) as -> by congruence. destruct Hf; congruence.
      * exists y. by rewrite lookup_insert_ne by done.
    + intros q Hq. destruct (decide (q = p)) as [->|Hne].
      * exists x'. rewrite lookup_insert_eq. split; [done|]. intros [_ Hc]. rewrite E4 in Hc. by apply Hcont.
      * rewrite lookup_insert_ne by done. by apply K.
    + intros q Hq. unfold known. cbn. destruct (decide (q = p)) as [->|Hne].
      * by rewrite lookup_insert_eq.
      * rewrite lookup_insert_ne by done. by apply N.
  - etrans; [apply (evolves_setProc s p x); [done..|]; intros d Hd'; left; congruence|].
    split; cbn; auto.
    + intros q y Hy. exists y. by split.
    + by exists []; rewrite app_nil_r.
    + set_solver.
    + eauto.
    + intros r f Hr. exists f. split; [done|lia].
    + intros _. split; cbn; auto. intros r f Hr. exists f. split; [done|lia].
  - intros q. by apply (new_setProc s p x).
  - intros q Hne. split; [|done..]. intros y Hy He. cbn. exists y. by rewrite lookup_insert_ne by done.
  - intros q. unfold live. cbn. destruct (decide (q = p)) as [->|Hne].
    + by rewrite lookup_insert_eq, E3.
    + by rewrite lookup_insert_ne by done.
  - intros q. unfold isOpen. cbn. assert (∀ y, heap s !! q = Some y → ∀ d, process.admissionDone y = Some d →
      bool_decide (d ∉ {[c]} ∪ closed s) = bool_decide (d ∉ closed s)) as Hb.
    { intros y Hy d Hd'. apply bool_decide_ext. assert (d ≠ c); [|set_solver]. intros ->.
      destruct (C _ _ _ _ _ Hx Hy Hd) as [_ Hn]. done. }
    destruct (decide (q = p)) as [->|Hne].
    + rewrite lookup_insert_eq, Hx, E2. destruct (process.admissionDone x) as [d|] eqn:Ed; [|done].
      by rewrite (Hb _ Hx _ Ed).
    + rewrite lookup_insert_ne by done. destruct (heap s !! q) as [y|] eqn:Hy; [|done].
      destruct (process.admissionDone y) as [d|] eqn:Ed; [|done]. by rewrite (Hb _ eq_refl _ Ed).
Qed.
End calm.

(** ** The changes that are not calm, as whole critical sections:
    [reopenProcess], [insertProcess] and [finishEnd] *)
Section steps.
Context (disk : gmap string Node.t).

(** A channel nothing refers to yet. *)
Lemma ok_makeChan s : serverOk disk s → serverOk disk (makeChan s).2.
Proof.
  intros [A B C D E F G I J K L M N O P]. split; cbn; auto.
  - intros p x Hx. apply (processOk_later s); cbn; auto.
  - intros c Hc. specialize (E _ Hc). lia.
Qed.
Lemma evolves_makeChan s : evolves s (makeChan s).2.
Proof.
  split; cbn; auto.
  - intros q y Hy. exists y. by split.
  - by exists []; rewrite app_nil_r.
  - eauto.
  - intros r f Hr. exists f. split; [done|lia].
  - intros _. split; cbn; auto. intros r f Hr. exists f. split; [done|lia].
Qed.

Lemma fresh_unused s q y :
  serverOk disk s → heap s !! q = Some y →
  process.done y ≠ Some (fresh s) ∧ process.admissionDone y ≠ Some (fresh s).
Proof.
  intros Hok Hy. pose proof (so_proc _ _ Hok _ _ Hy) as Hp.
  destruct (po_done _ _ _ Hp) as (c & Hc & Hlt & _). split.
  - rewrite Hc. intros [= ->]. lia.
  - intros Ha. pose proof (po_adm _ _ _ Hp _ Ha). lia.
Qed.
Lemma fresh_open s : serverOk disk s → fresh s ∉ closed s.
Proof. intros Hok Hc. pose proof (so_closed _ _ Hok _ Hc). lia. Qed.

(** ** [retryContainerCleanupLocked] *)
Lemma retryable_spec x :
  retryable x = true → process.cleanupErr x ≠ None ∧ process.containerID x ≠ ""%string.
Proof.
  unfold retryable, empty. rewrite andb_true_iff, !negb_true_iff, !bool_decide_eq_false. done.
Qed.

Lemma reopen_step s p x :
  serverOk disk s → heap s !! p = Some x → process.exited x = true → retryable x = true →
  let s' := reopenProcess p s in
  serverOk disk s' ∧ evolves s s' ∧ (∀ q, heap s !! q = None → heap s' !! q = None) ∧
  (∀ q, undisturbed q s s') ∧ (∀ q, live s' q = if decide (q = p) then 1%nat else live s q) ∧
  (∀ q, isOpen s' q = isOpen s q) ∧ fencingAll s' = fencingAll s ∧ processes s' = processes s ∧
  Terminated p ∉ log s' ∧ process.containerID (proc s' p) ≠ ""%string ∧ log s' = log s ∧
  (∀ q, q ≠ p → heap s' !! q = heap s !! q).
Proof.
  intros Hok Hx Hex [Hce Hcid]%retryable_spec s'.
  pose proof (ok_makeChan s Hok) as Hok1. set (s1 := (makeChan s).2) in *.
  assert (s' = modify p (λ x, process.setNode (setState NodeStopping (process.node x))
                                (process.reopen (fresh s) x)) s1) as -> by done.
  unfold modify. assert (proc s1 p = x) as -> by (unfold proc; cbn; by rewrite Hx).
  set (x' := process.setNode _ _).
  assert (¬ finished x) as Hnf by (intros [_ ?]; done).
  assert (pevolves x x') as Hp by by split.
  pose proof (so_proc _ _ Hok _ _ Hx) as Hpx.
  assert (processOk s1 p x') as Hpx'.
  { destruct (so_proc _ _ Hok1 _ _ Hx) as [P1 P2 P3 P4 P5 P6 P7 P8 P9 P10].
    assert (¬ finished x') as Hnf' by by intros [? _].
    split; cbn; try done.
    - exists (fresh s). split_and!; [done|lia|]. split; [|done]. intros Hc. by destruct (fresh_open s Hok).
    - intros [? _]%P5. done.
    - destruct P7 as [?|[Hr _]]; [by left|]. unfold retirable, processCleanupComplete in Hr.
      rewrite (bool_decide_eq_false_2 _ Hce), !andb_false_r in Hr. done.
    - intros n [? _]%P8. done. }
  assert (∀ c, process.done x = Some c → c ∈ closed s) as Hdc.
  { intros c Hc. destruct (po_done _ _ _ Hpx) as (c' & Hc' & _ & Hiff).
    assert (c' = c) as -> by congruence. by apply Hiff. }
  split_and!.
  - apply (ok_setProc disk s1 p x); [done..| |].
    + intros c [= <-]. right. intros q y Hy. by apply (fresh_unused s q y).
    + intros _ [? _]. done.
  - etrans; [apply evolves_makeChan|]. apply (evolves_setProc s1 p x); [done..|].
    intros c Hc. right. by apply Hdc.
  - intros q. by apply (new_setProc s1 p x).
  - intros q. split; [|done..]. intros y Hy He. cbn. destruct (decide (q = p)) as [->|Hne]; [congruence|].
    exists y. by rewrite lookup_insert_ne by done.
  - intros q. unfold live. cbn. destruct (decide (q = p)) as [->|Hne].
    + by rewrite lookup_insert_eq.
    + by rewrite lookup_insert_ne by done.
  - intros q. unfold isOpen. cbn. destruct (decide (q = p)) as [->|Hne].
    + by rewrite lookup_insert_eq, Hx.
    + by rewrite lookup_insert_ne by done.
  - done.
  - done.
  - cbn. intros Ht. by apply Hce, (po_terminated _ _ _ Hpx).
  - unfold proc. cbn. by rewrite lookup_insert_eq.
  - done.
  - intros q Hne. cbn. by rewrite lookup_insert_ne.
Qed.

(** ** The insertion of a new process *)
Section insert.
Context `{PeerCodec} `{Encoding}.

Lemma admissionCheck_ok r fence pending tf s :
  admissionCheck r fence pending tf s = Ok tt →
  fencingAll s = false ∧ processes s !! CreateNodeRequest.ID r = None ∧
  networkPrepared r s = true ∧ shuttingDown s = false ∧
  ptr (λ f, CreateNodeRequest.Generation r <=? f)
    (currentFence (runFences s !! CreateNodeRequest.RunID r) fence) = false ∧
  Z.of_nat (capacityUsedLocked s) < capacityLocked s.
Proof.
  unfold admissionCheck, fail_if. cbv zeta.
  destruct (shuttingDown s); [done|]. destruct (rebootPending s); [done|].
  destruct (networkPrepared r s); [|done]. destruct (fencingAll s); [done|]. cbn [negb mbind res_bind].
  destruct (ptr _ _); [done|]. cbn [mbind res_bind].
  case_bool_decide as Hp; [done|]. cbn [mbind res_bind].
  destruct (capacityLocked s <=? _) eqn:Hc; [done|]. intros _.
  split_and!; try done; [by apply eq_None_not_Some|lia].
Qed.

Lemma prepared_network r s :
  networkPrepared r s = true → Config.AutoResetNetwork (config s) = true → experimentNetwork s ≠ None.
Proof. unfold networkPrepared. intros Hp Ha. rewrite Ha in Hp. by destruct (experimentNetwork s). Qed.

Lemma newNode_identity id t network r a :
  identity (newNode id t network r a) =
    (CreateNodeRequest.ID r, CreateNodeRequest.RunID r, CreateNodeRequest.Generation r).
Proof. done. Qed.

(** The process [insertProcess] adds, and its channels. *)
Definition newProcess (now : Time) (r : CreateNodeRequest.t) (hash : string) (a : prepared)
    (s : server) : process.t :=
  let network := networkOf s in
  let n := newNode (Config.ID (config s)) now network r a in
  process.mk (if empty hash then None else Some (S (fresh s)))
    (default "" (ExperimentNetwork.GatewayURL <$> network))
    (if empty hash then n
     else setMetadata (<["createAdmission" := "pending"]>
            (<["createRequestHash" := hash]> (metadataOf n)))%string n)
    "" "" false false "" (Some (fresh s)) None None false 0.
Definition newPointer (hash : string) (s : server) : nat :=
  if empty hash then S (fresh s) else S (S (fresh s)).

Lemma insertProcess_eq now r hash a s :
  insertProcess now r hash a s =
    ((newPointer hash s, newNode (Config.ID (config s)) now (networkOf s) r a,
      peerConfig (config s) (networkOf s) (newNode (Config.ID (config s)) now (networkOf s) r a) r a),
     record [Admission (newPointer hash s) (CreateNodeRequest.ID r) (CreateNodeRequest.RunID r)
               (CreateNodeRequest.Generation r)]
       (withTable (<[CreateNodeRequest.ID r := newPointer hash s]> (processes s))
          (<[newPointer hash s := newProcess now r hash a s]> (heap s))
          (withChannels (closed s) (S (newPointer hash s)) (crashed s) s))).
Proof. unfold insertProcess, newPointer, newProcess. by destruct (empty hash). Qed.

Lemma newProcess_identity now r hash a s :
  identity (process.node (newProcess now r hash a s)) =
    (CreateNodeRequest.ID r, CreateNodeRequest.RunID r, CreateNodeRequest.Generation r).
Proof. unfold newProcess. by destruct (empty hash). Qed.
Lemma newPointer_fresh hash s : (fresh s < newPointer hash s)%nat.
Proof. unfold newPointer. destruct (empty hash); lia. Qed.
Lemma newProcess_adm now r hash a s c :
  process.admissionDone (newProcess now r hash a s) = Some c → c = S (fresh s) ∧ (c < newPointer hash s)%nat.
Proof. unfold newProcess, newPointer. cbn. destruct (empty hash); [done|]. intros [= <-]. lia. Qed.

Lemma insert_step s now r hash a :
  serverOk disk s → processes s !! CreateNodeRequest.ID r = None → stored s !! CreateNodeRequest.ID r = None →
  (∀ g, Fenced (CreateNodeRequest.RunID r) g ∈ log s → g < CreateNodeRequest.Generation r) →
  fencingAll s = false → (Config.AutoResetNetwork (config s) = true → experimentNetwork s ≠ None) →
  Z.of_nat (capacityUsedLocked s) < capacityLocked s →
  let s' := (insertProcess now r hash a s).2 in let p := newPointer hash s in
  serverOk disk s' ∧ evolves s s' ∧ newcomers s s' ∧ (∀ q, live s q = 1%nat → undisturbed q s s') ∧
  (∀ q, live s' q = if decide (q = p) then 1%nat else live s q) ∧ live s p = 0%nat ∧
  (∀ q, isOpen s' q = if decide (q = p) then one (negb (empty hash)) else isOpen s q) ∧ isOpen s p = 0%nat ∧
  fencingAll s' = fencingAll s ∧ heap s' !! p = Some (newProcess now r hash a s) ∧ unlaunched s' p.
Proof.
  intros Hok Hps Hst Hfenced Hfa Hnet Hcap. rewrite insertProcess_eq. cbn [snd]. cbv zeta.
  set (p := newPointer hash s). set (x := newProcess now r hash a s).
  pose proof (newPointer_fresh hash s) as Hfr. fold p in Hfr.
  pose proof (newProcess_identity now r hash a s) as Hid. fold x in Hid.
  set (e := Admission p _ _ _). set (s' := record [e] _).
  assert (heap s !! p = None) as Hnone.
  { destruct (heap s !! p) as [y|] eqn:Hy; [|done]. pose proof (po_fresh _ _ _ (so_proc _ _ Hok _ _ Hy)). lia. }
  assert (CreateNodeRequest.ID r ∉ admittedIDs (log s)) as Hnew.
  { intros (e' & He' & Hf)%list_elem_of_omap. destruct e' as [q id run g| | | | | | | |]; try done.
    injection Hf as ->. destruct (so_admitted _ _ Hok _ _ _ _ He') as (y & Hy & [= Hi _ _]).
    pose proof (so_proc _ _ Hok _ _ Hy) as Hpy.
    destruct (po_table _ _ _ Hpy) as [Ht|[_ Ht]]; rewrite Hi in Ht; [congruence|].
    rewrite Hst in Ht. by destruct Ht. }
  assert (∀ e', e' ∈ log s ++ [e] → e' ∈ log s ∨ e' = e) as Hsplit.
  { intros e' [?|?%list_elem_of_singleton]%elem_of_app; auto. }
  assert (∀ q y, <[p:=x]> (heap s) !! q = Some y → (q = p ∧ y = x) ∨ (q ≠ p ∧ heap s !! q = Some y)) as Hlk.
  { intros q y. destruct (decide (q = p)) as [->|Hne].
    - rewrite lookup_insert_eq. naive_solver.
    - rewrite lookup_insert_ne by done. auto. }
  assert (∀ c, process.admissionDone x = Some c → c = S (fresh s) ∧ (c < p)%nat) as Hadm
    by (intros c; apply newProcess_adm).
  assert (process.done x = Some (fresh s)) as Hdone by done.
  assert (process.exited x = false) as Hex by done.
  assert (process.heartbeatAcknowledged x = false) as Hack by done.
  assert (process.admissionDone x = if empty hash then None else Some (S (fresh s))) as Hax by done.
  clearbody x.
  assert (Node.ID (process.node x) = CreateNodeRequest.ID r ∧ Node.RunID (process.node x) = CreateNodeRequest.RunID r ∧
          Node.Generation (process.node x) = CreateNodeRequest.Generation r) as (I1 & I2 & I3)
    by (unfold identity in Hid; by injection Hid).
  assert (∀ q y, heap s !! q = Some y → Node.ID (process.node y) ≠ CreateNodeRequest.ID r) as Hother.
  { intros q y Hy E. apply Hnew. rewrite <- E. eapply admittedIDs_in.
    apply (po_admitted _ _ _ (so_proc _ _ Hok _ _ Hy)). }
  assert (unlaunched s p) as (HnC & HnL & HnT).
  { split_and!.
    - intros (y & Hy & _)%(so_containers _ _ Hok). congruence.
    - intros Hl. destruct (so_events _ _ Hok p (or_introl Hl)). congruence.
    - intros Hl. destruct (so_events _ _ Hok p (or_intror Hl)). congruence. }
  assert (∀ q y c, heap s !! q = Some y → process.done y = Some c → (c < fresh s)%nat) as Hdlt.
  { intros q y c Hy Hc. destruct (po_done _ _ _ (so_proc _ _ Hok _ _ Hy)) as (c' & Hc' & ? & _).
    congruence. }
  assert (∀ q y c, heap s !! q = Some y → process.admissionDone y = Some c → (c < fresh s)%nat) as Halt.
  { intros q y c Hy. apply (po_adm _ _ _ (so_proc _ _ Hok _ _ Hy)). }
  pose proof Hok as [A B C D E F G I J K L M N O P].
  split_and!.
  - split; cbn.
    + intros q y [[-> ->]|[Hne Hy]]%Hlk.
      * unfold s'. split; rewrite ?I1, ?I2, ?I3, ?Hex, ?Hack, ?Hdone; cbn; try done.
        -- intros [? _]. congruence.
        -- exists (fresh s). split_and!; [done|lia|]. split; [|done].
           intros Hc. by destruct (fresh_open s Hok).
        -- intros c Hc. destruct (Hadm _ Hc). lia.
        -- left. by rewrite lookup_insert_eq.
        -- intros n Hn. congruence.
        -- apply elem_of_app. right. by apply list_elem_of_singleton.
        -- lia.
      * apply (processOk_later s); cbn; [by apply A|lia|done|set_solver| | |done|by left].
        -- intros [?|?]%Hsplit; done.
        -- intros Hq. left. rewrite lookup_insert_ne; [done|]. by apply not_eq_sym, (Hother q).
    + intros id q. destruct (decide (id = CreateNodeRequest.ID r)) as [->|Hne].
      * rewrite lookup_insert_eq. intros [= <-]. exists x. by rewrite lookup_insert_eq.
      * rewrite lookup_insert_ne by done. intros (y & Hy & ?)%B. exists y. split; [|done].
        rewrite lookup_insert_ne; [done|]. intros <-. congruence.
    + intros q1 q2 y1 y2 c [[-> ->]|[N1 H1]]%Hlk [[-> ->]|[N2 H2]]%Hlk Hd1; cbn in *.
      * split; [done|]. intros [? _]%Hadm. rewrite Hdone in Hd1. injection Hd1 as <-. lia.
      * rewrite Hdone in Hd1. injection Hd1 as <-. split.
        -- intros Hc. specialize (Hdlt _ _ _ H2 Hc). lia.
        -- intros Hc. specialize (Halt _ _ _ H2 Hc). lia.
      * pose proof (Hdlt _ _ _ H1 Hd1). split.
        -- rewrite Hdone. intros [= Hc]. lia.
        -- intros [-> _]%Hadm. lia.
      * by eapply C.
    + intros q1 q2 y1 y2 c [[-> ->]|[N1 H1]]%Hlk [[-> ->]|[N2 H2]]%Hlk Ha1 Ha2; [done|..|by eapply D].
      * destruct (Hadm _ Ha1) as [-> _]. specialize (Halt _ _ _ H2 Ha2). lia.
      * destruct (Hadm _ Ha2) as [-> _]. specialize (Halt _ _ _ H1 Ha1). lia.
    + intros c Hc. specialize (E _ Hc). lia.
    + intros q id run g [Hin|Hq]%Hsplit.
      * destruct (F _ _ _ _ Hin) as (y & Hy & ?). exists y. rewrite lookup_insert_ne; [done|].
        intros <-. congruence.
      * unfold e in Hq. injection Hq as -> -> -> ->. exists x. by rewrite lookup_insert_eq.
    + intros r' g [?|?]%Hsplit; [by apply G|done].
    + done.
    + constructor.
      * eapply history_mono; [|exact J]. intros q (y & Hy & Hf). exists y. cbn.
        rewrite lookup_insert_ne; [done|]. intros <-. congruence.
      * split; [done|]. exact Hfenced.
    + intros q (y & Hy & ?)%K. exists y. rewrite lookup_insert_ne; [done|]. intros <-. congruence.
    + intros id [Hs Hn]%L. split; [done|]. rewrite admittedIDs_app. intros [?|Hi]%elem_of_app; [done|].
      apply list_elem_of_singleton in Hi. subst id. rewrite Hst in Hs. by destruct Hs.
    + done.
    + intros q Hq. unfold known. cbn. destruct (decide (q = p)) as [->|Hne]; [by rewrite lookup_insert_eq|].
      rewrite lookup_insert_ne by done. apply N. destruct Hq as [[?|?]%Hsplit|[?|?]%Hsplit]; auto; done.
    + intros r' n [?|?]%Hsplit; [|done]. apply (answer_later _ (log s)); [set_solver|by apply O].
    + intros id n Hn. rewrite admittedIDs_app. destruct (P _ _ Hn); [left; set_solver|by right].
  - split; cbn; auto.
    + intros q y Hy. exists y. rewrite lookup_insert_ne; [by split|]. intros <-. congruence.
    + eauto.
    + intros q y c Hy Hc. right. exists y. rewrite lookup_insert_ne; [done|]. intros <-. congruence.
    + lia.
    + intros r' f Hf. exists f. split; [done|lia].
    + intros _. split; cbn; auto.
      * intros id Hi. destruct (decide (id = CreateNodeRequest.ID r)) as [->|Hne].
        -- by rewrite lookup_insert_eq.
        -- by rewrite lookup_insert_ne by done.
      * intros r' f Hf. exists f. split; [done|lia].
      * intros r' g [?|?]%Hsplit; [by left|done].
  - intros q y Hq Hy. apply Hlk in Hy as [[-> ->]|[_ Hy]]; [|congruence]. split_and!; [done| |done|done|].
    + rewrite I2, I3. exact Hfenced.
    + intros q' [y' [[-> _]|[_ Hy']]%Hlk]; [by left|right; by exists y'].
  - intros q Hl. destruct (live_heap _ _ Hl) as (y & Hy & _).
    assert (q ≠ p) as Hne by (intros ->; congruence). split; cbn.
    + intros y' Hy' He. exists y'. by rewrite lookup_insert_ne by done.
    + done.
    + intros [?|Hq]%Hsplit; [done|]. done.
    + intros [?|Hq]%Hsplit; [done|]. done.
  - intros q. unfold live. cbn. destruct (decide (q = p)) as [->|Hne].
    + by rewrite lookup_insert_eq, Hex.
    + by rewrite lookup_insert_ne by done.
  - unfold live. by rewrite Hnone.
  - intros q. unfold isOpen. cbn. destruct (decide (q = p)) as [->|Hne].
    + rewrite lookup_insert_eq, Hax. destruct (empty hash); [done|]. cbn.
      rewrite bool_decide_eq_true_2; [done|]. intros Hc. specialize (E _ Hc). lia.
    + by rewrite lookup_insert_ne by done.
  - unfold isOpen. by rewrite Hnone.
  - done.
  - cbn. by rewrite lookup_insert_eq.
  - split_and!; [done|..]; cbn; by intros [?|?]%Hsplit.
Qed.

(** ** [finishProcess] *)
Lemma setProc_twice p x y s : setProc p y (setProc p x s) = setProc p y s.
Proof. unfold setProc, withTable. cbn. by rewrite insert_insert_eq. Qed.
Lemma proc_setProc p x s : proc (setProc p x s) p = x.
Proof. unfold proc. cbn. by rewrite lookup_insert_eq. Qed.
Lemma modify_twice p f g s : modify p g (modify p f s) = modify p (λ x, g (f x)) s.
Proof. unfold modify. by rewrite proc_setProc, setProc_twice. Qed.

(** The process [finishEnd] leaves. *)
Definition ended (observedAt now : Time) (cleanupErr : option string) (st message : string)
    (x : process.t) : process.t :=
  let x := process.setExited cleanupErr x in
  let x := process.setNode (setLastSeen now (process.node x)) x in
  let x := setProcessMetadata "stoppedAt" (formatTime observedAt) x in
  let x := process.setNode (Node.setLifecycle st (Node.LastSeen (process.node x)) message (process.node x)) x in
  if processCleanupComplete x
  then let x := setProcessMetadata "cleanupComplete" "true" x in
       process.setEndpoint "" (process.setNode (heartbeatNodeStatus x) x)
  else x.

Lemma ended_ends observedAt now cleanupErr st message x :
  (st = NodeStopped ∨ st = NodeFailed) → endsAs x (ended observedAt now cleanupErr st message x) cleanupErr.
Proof.
  intros Hst. unfold ended. cbv zeta. set (y := process.setNode (Node.setLifecycle _ _ _ _) _).
  assert (identity (process.node y) = identity (process.node x) ∧
    process.admissionDone y = process.admissionDone x ∧ process.exited y = true ∧
    process.cleanupErr y = cleanupErr ∧ process.containerID y = process.containerID x ∧
    process.done y = process.done x ∧ process.heartbeatAcknowledged y = process.heartbeatAcknowledged x ∧
    Node.State (process.node y) = st ∧ process.cancelled y = process.cancelled x)
    as (Y1 & Y2 & Y3 & Y4 & Y5 & Y6 & Y7 & Y8 & Y9) by done.
  clearbody y. assert (terminal (process.node y) = true) as Ht.
  { unfold terminal, inState. rewrite Y8. by destruct Hst as [-> | ->]. }
  destruct (processCleanupComplete y).
  - set (z := setProcessMetadata _ _ y). split; cbn [process.node process.setEndpoint process.setNode
      process.admissionDone process.exited process.cleanupErr process.containerID process.done
      process.heartbeatAcknowledged process.cancelled]; try done.
    + rewrite identity_status. exact Y1.
    + unfold terminal, inState. rewrite state_status. exact Ht.
    + by rewrite <- Y9.
  - split; [done..|]. by rewrite Y9.
Qed.

Lemma finishEnd_eq observedAt now id p cleanupErr st message s x c :
  heap s !! p = Some x → processes s !! id = Some p → process.done x = Some c →
  finishEnd observedAt now id p cleanupErr st message s =
    closeChan c (setProc p (ended observedAt now cleanupErr st message x) s).
Proof.
  intros Hx Hcur Hd. unfold finishEnd.
  assert (current id p (modify p (process.setExited cleanupErr) s) = true) as ->
    by (unfold current; by rewrite bool_decide_eq_true).
  rewrite modify_twice. set (f := λ x, _). unfold modify. rewrite proc_setProc, (proc_heap _ _ _ Hx).
  set (y := f x).
  assert (ended observedAt now cleanupErr st message x =
    if processCleanupComplete y
    then process.setEndpoint "" (process.setNode (heartbeatNodeStatus (setProcessMetadata "cleanupComplete" "true" y))
           (setProcessMetadata "cleanupComplete" "true" y)) else y) as -> by done.
  assert (process.done y = process.done x) as Hdy by done. clearbody y.
  destruct (processCleanupComplete y); rewrite ?setProc_twice, proc_setProc; cbn; by rewrite Hdy, Hd.
Qed.
End insert.
End steps.
