(* ===== verification/AgentWorld.v ===== *)
(** * The threads of an Agent together

    [worldOk]: the shared state is consistent, every thread's assertion holds, a
    process that has not exited is carried on by exactly one thread, an admission
    that is not announced will be announced by exactly one, and [fencingAll] is
    held by exactly one handler.  [AgentReach] proves it of every reachable world.
    The last part is about what most threads leave alone: the experiment network, its
    lock, and which processes are marked for a stop ([around], [stepMore]). *)
From Stdlib Require Import ZArith Lia.
From stdpp Require Import strings list gmap sorting.
From S2P Require Import Prelude.
From S2P Require Import GoStd.
From S2P Require Import Distribution.
From S2P Require Import Network.
From S2P Require Import Attacks.
From S2P Require Import PeerScore.
From S2P Require Import GossipSubConfig.
From S2P Require Import NodeConfig.
From S2P Require Import AgentModel.
From S2P Require Import Inventory.
From S2P Require Import AgentPrepare.
From S2P Require Import AgentProcess.
From S2P Require Import AgentStatus.
From S2P Require Import AgentServer.
From S2P Require Import AgentThreads.
From S2P Require Import AgentInv.
From S2P Require Import AgentCalm.
Open Scope Z_scope.

(** ** Counting threads *)
Lemma total_app f l l' : total f (l ++ l') = (total f l + total f l')%nat.
Proof. apply sum_list_with_app. Qed.
Lemma total_cons f t l : total f (t :: l) = (f t + total f l)%nat.
Proof. done. Qed.
Lemma total_in f t l : t ∈ l → (f t <= total f l)%nat.
Proof. induction 1; cbn; unfold total in *; lia. Qed.
Lemma isPointer_some p : isPointer p (Some p) = 1%nat.
Proof. unfold isPointer. by rewrite bool_decide_eq_true_2. Qed.
Lemma isPointer_other p q : p ≠ q → isPointer q (Some p) = 0%nat.
Proof. intros Hne. unfold isPointer. by rewrite bool_decide_eq_false_2 by congruence. Qed.
Lemma isPointer_none p : isPointer p None = 0%nat.
Proof. done. Qed.
Lemma live_le s p : (live s p <= 1)%nat.
Proof. unfold live, one. repeat case_match; lia. Qed.

Section world.
Context (disk : gmap string Node.t).

(** What a thread that moves may use. *)
Record ready (s : server) (t : thread) : Prop := {
  rd_ok : serverOk disk s;
  rd_thread : threadOk s t;
  rd_owner p : ownerOf t = Some p → live s p = 1%nat;
  rd_token p x c : tokenOf t = Some p → heap s !! p = Some x → process.admissionDone x = Some c →
    c ∉ closed s;
  rd_fencing : stopsAll t = true → fencingAll s = true }.

Record stepOk (s : server) (t : thread) (s' : server) (l : list thread) : Prop := {
  st_ok : serverOk disk s';
  st_ev : evolves s s';
  st_new : newcomers s s';
  st_quiet p : ownerOf t ≠ Some p → live s p = 1%nat → undisturbed p s s';
  st_owners p : (owners p l + live s p = isPointer p (ownerOf t) + live s' p)%nat;
  st_tokens p x : heap s' !! p = Some x → process.admissionDone x ≠ None →
    (tokens p l + isOpen s p = isPointer p (tokenOf t) + isOpen s' p)%nat;
  st_fencing : (stopping l + one (fencingAll s) = one (stopsAll t) + one (fencingAll s'))%nat;
  st_threads : Forall (threadOk s') l }.

(** ** The shapes of steps *)
Lemma step_calm s t s' l :
  serverOk disk s → calmBut disk (ownerOf t) s s' →
  (∀ p, owners p l = isPointer p (ownerOf t)) → (∀ p, tokens p l = isPointer p (tokenOf t)) →
  stopping l = one (stopsAll t) → Forall (threadOk s') l → stepOk s t s' l.
Proof.
  intros Hok Hc Ho Ht Hs Hl. split; try done.
  - by apply Hc.
  - by apply Hc.
  - intros p x Hp Hp'. rewrite (cm_new _ _ _ _ Hc _ Hp) in Hp'. done.
  - intros p Hp _. by apply Hc.
  - intros p. rewrite Ho, (cm_live _ _ _ _ Hc). done.
  - intros p x _ _. rewrite Ht, (cm_open _ _ _ _ Hc). done.
  - rewrite Hs, (cm_fencing _ _ _ _ Hc). done.
Qed.

Lemma step_goes s t s' t' :
  serverOk disk s → calmBut disk (ownerOf t) s s' →
  ownerOf t' = ownerOf t → tokenOf t' = tokenOf t → stopsAll t' = stopsAll t → threadOk s' t' →
  stepOk s t s' [t'].
Proof.
  intros Hok Hc Ho Ht Hs Hl. apply step_calm; [done..| | | |].
  - intros p. unfold owners. rewrite total_cons, Ho. cbn. lia.
  - intros p. unfold tokens. rewrite total_cons, Ht. cbn. lia.
  - unfold stopping. rewrite total_cons, Hs. cbn. lia.
  - by apply list.Forall_singleton.
Qed.

Lemma step_ends s t s' :
  serverOk disk s → calmBut disk (ownerOf t) s s' →
  ownerOf t = None → tokenOf t = None → stopsAll t = false → stepOk s t s' [].
Proof.
  intros Hok Hc Ho Ht Hs. apply step_calm; [done..| | | |by apply list.Forall_nil].
  - intros p. by rewrite Ho.
  - intros p. by rewrite Ht.
  - by rewrite Hs.
Qed.

(** A thread that only reads. *)
Lemma step_reads s t t' :
  serverOk disk s → ownerOf t' = ownerOf t → tokenOf t' = tokenOf t → stopsAll t' = stopsAll t →
  threadOk s t' → stepOk s t s [t'].
Proof. intros Hok. apply step_goes; [done|reflexivity]. Qed.
Lemma step_stops s t :
  serverOk disk s → ownerOf t = None → tokenOf t = None → stopsAll t = false → stepOk s t s [].
Proof. intros Hok. apply step_ends; [done|reflexivity]. Qed.

(** ** Many threads *)
Record worldOk (w : world) : Prop := {
  wo_server : serverOk disk (srv w);
  wo_threads : Forall (threadOk (srv w)) (threads w);
  wo_owners p : owners p (threads w) = live (srv w) p;
  wo_tokens p x : heap (srv w) !! p = Some x → process.admissionDone x ≠ None →
    tokens p (threads w) = isOpen (srv w) p;
  wo_fencing : stopping (threads w) = one (fencingAll (srv w)) }.

Lemma token_known s t p : threadOk s t → tokenOf t = Some p → known s p.
Proof.
  destruct t; cbn; try done; unfold announces.
  all: try by intros [? _] [= <-].
  all: try by intros ? [= <-].
  all: try by intros [[? _] _] [= <-].
  all: intros [[? _] _]; destruct (madeBy f); intros Hp; congruence.
Qed.
Lemma no_tokens s p l : Forall (threadOk s) l → heap s !! p = None → tokens p l = 0%nat.
Proof.
  intros Hl Hp. induction Hl as [|t l Ht _ IH]; [done|]. unfold tokens in *. rewrite total_cons, IH.
  unfold isPointer. rewrite bool_decide_eq_false_2; [done|]. intros Hto.
  destruct (token_known _ _ _ Ht Hto). congruence.
Qed.

Lemma ready_of w t : worldOk w → t ∈ threads w → ready (srv w) t.
Proof.
  intros [Hok Hth Ho Ht Hf] Hin. split.
  - done.
  - exact (proj1 (list.Forall_forall _ _) Hth _ Hin).
  - intros p Hp. pose proof (total_in (λ t, isPointer p (ownerOf t)) _ _ Hin) as Hle. cbn in Hle.
    rewrite Hp, isPointer_some in Hle. pose proof (live_le (srv w) p). pose proof (Ho p) as Hop.
    unfold owners in Hop. lia.
  - intros p x c Hp Hx Hc. pose proof (total_in (λ t, isPointer p (tokenOf t)) _ _ Hin) as Hle. cbn in Hle.
    rewrite Hp, isPointer_some in Hle. pose proof (Ht p x Hx ltac:(by rewrite Hc)) as Hop.
    unfold tokens in Hop. unfold isOpen in Hop. rewrite Hx, Hc in Hop. case_bool_decide as Hcl; [done|].
    cbn in Hop. lia.
  - intros Hs. pose proof (total_in (λ t, one (stopsAll t)) _ _ Hin) as Hle. cbn in Hle.
    rewrite Hs in Hle. unfold stopping in Hf. destruct (fencingAll (srv w)); [done|]. cbn in *. lia.
Qed.

Lemma world_step s l1 t l2 s' l :
  worldOk (mkWorld s (l1 ++ t :: l2)) → stepOk s t s' l → worldOk (mkWorld s' (l1 ++ l ++ l2)).
Proof.
  intros Hw [A B C D E F G J]. pose proof Hw as [Hok Hth Ho Ht Hf]. cbn in *.
  assert (∀ t', t' ∈ l1 ++ l2 → threadOk s' t') as Hothers.
  { intros t' Hin. assert (t' ∈ l1 ++ t :: l2) as Hin' by set_solver.
    pose proof (ready_of _ _ Hw Hin') as [_ R2 R3 _ R5]. cbn in *.
    apply (threadOk_stable s); [done|done|done| |done]. intros p Hp.
    specialize (R3 _ Hp). split; [|done]. apply D; [|done]. intros Hp'.
    pose proof (Ho p) as Hop. unfold owners in Hop. rewrite total_app, total_cons, Hp', isPointer_some in Hop.
    pose proof (live_le s p). rewrite elem_of_app in Hin.
    destruct Hin as [Hin|Hin]; pose proof (total_in (λ t, isPointer p (ownerOf t)) _ _ Hin) as Hle; cbn in Hle;
      rewrite Hp, isPointer_some in Hle; lia. }
  split; cbn; [done|..].
  - rewrite !list.Forall_app. split_and!; [|done|]; apply list.Forall_forall; intros t' Hin; apply Hothers; set_solver.
  - intros p. pose proof (Ho p) as Hop. specialize (E p). unfold owners in *.
    rewrite total_app, total_cons in Hop. rewrite !total_app. lia.
  - intros p x Hx Hx'. specialize (F p x Hx Hx').
    assert (tokens p (l1 ++ t :: l2) = isOpen s p ∨ (heap s !! p = None)) as Hop.
    { destruct (heap s !! p) as [y|] eqn:Hy; [left|by right].
      destruct (ev_heap _ _ B _ _ Hy) as (x2 & Hx2 & [_ Ha _]). apply (Ht p y Hy).
      rewrite <- Ha. by assert (x2 = x) as -> by congruence. }
    unfold tokens in *. rewrite !total_app.
    destruct Hop as [Hop|Hnone].
    + rewrite total_app, total_cons in Hop. lia.
    + assert (tokens p (l1 ++ t :: l2) = 0%nat) as Hz by (by apply (no_tokens s)).
      unfold tokens in Hz. rewrite total_app, total_cons in Hz.
      assert (isOpen s p = 0%nat) by (unfold isOpen; by rewrite Hnone). lia.
  - unfold stopping in *. rewrite total_app, total_cons in Hf. rewrite !total_app. lia.
Qed.
End world.

(** ** Marks of a stop *)
(** A stop of the process was requested. *)
Definition marked (x : process.t) : Prop := metadataAt (process.node x) "stopRequestedAt" ≠ ""%string.
(** No mark is added. *)
Definition mild (x x' : process.t) : Prop := marked x' → marked x.
#[export] Instance mild_preorder : PreOrder mild.
Proof. split; [by intros x Hx|]. intros x y z. unfold mild. auto. Qed.

Lemma mild_same x x' :
  Node.Metadata (process.node x') = Node.Metadata (process.node x) → mild x x'.
Proof. unfold mild, marked, metadataAt, metadataOf. by intros ->. Qed.
Lemma mild_key key value x : key ≠ "stopRequestedAt"%string → mild x (setProcessMetadata key value x).
Proof. intros Hk. unfold mild, marked, metadataAt. cbn. by rewrite lookup_insert_ne. Qed.
Lemma mild_status x : mild x (process.setNode (heartbeatNodeStatus x) x).
Proof.
  unfold mild, marked. cbn. unfold heartbeatNodeStatus. destruct (processCleanupComplete x); [|done].
  unfold metadataAt at 1. cbn. destruct (filter _ _ !! _) as [v|] eqn:Hv; [|done].
  apply map_lookup_filter_Some in Hv as [Hv _]. unfold metadataAt. by rewrite Hv.
Qed.

Create HintDb mild.
#[export] Hint Resolve mild_status : mild.
#[export] Hint Extern 2 (mild _ (setProcessMetadata _ _ _)) => apply mild_key; discriminate : mild.
#[export] Hint Extern 1 (mild _ _) => apply mild_same; reflexivity : mild.

Section marks.
Context `{PeerCodec} `{CIDRs} `{PubSubLib} (ParseFloat : string → option float).
Context `{Encoding} `{StatusCodec}.

Lemma mild_network m x : mild x (updateProcessNetwork ParseFloat m x).
Proof.
  unfold updateProcessNetwork. cbv zeta. repeat case_match; try reflexivity.
  repeat (etrans; [|apply mild_key; discriminate]). reflexivity.
Qed.
Lemma mild_profile m x : mild x (updateProcessProfile ParseFloat m x).
Proof.
  unfold updateProcessProfile. destruct (ParseUint _) as [r ok]. cbv zeta.
  repeat case_match; try reflexivity. unfold storeProfileAcknowledgement. cbv zeta.
  repeat case_match; try reflexivity; repeat (etrans; [|apply mild_key; discriminate]); reflexivity.
Qed.
Lemma mild_attack m x : mild x (updateProcessAttackStatus m x).
Proof.
  unfold updateProcessAttackStatus.
  assert ("stopRequestedAt"%string ∉ attackKeys m x) as Hk.
  { unfold attackKeys. destruct (_ && _); cbn; rewrite !not_elem_of_cons, !elem_of_nil; naive_solver. }
  revert Hk. generalize (attackKeys m x). intros l. revert x.
  induction l as [|k l IH]; intros x Hk; [reflexivity|]. apply not_elem_of_cons in Hk as [Hk Hl].
  cbn. etrans; [|by apply IH]. unfold copyKey. destruct (m !! k); [|reflexivity]. by apply mild_key.
Qed.
Lemma mild_update t n x : mild x (updateNode ParseFloat t n x).
Proof.
  unfold updateNode. destruct (reportIgnored n x); [reflexivity|]. cbv zeta.
  set (x0 := if IsZero _ then x else _).
  assert (mild x x0) as T0 by (unfold x0; destruct (IsZero _); auto with mild).
  set (x1 := process.setNode _ x0).
  assert (mild x x1) as T1 by (etrans; [exact T0|auto with mild]). clearbody x0.
  clearbody x1. set (x2 := if _ && _ then setProcessMetadata _ _ x1 else x1).
  assert (mild x x2) as T2.
  { etrans; [exact T1|]. unfold x2. destruct (_ && _); [auto with mild|reflexivity]. }
  clearbody x2.
  set (x3 := updateProcessAttackStatus _ _). assert (mild x x3) as T3.
  { etrans; [exact T2|]. unfold x3. etrans; [|apply mild_attack]. etrans; [|apply mild_profile].
    etrans; [|apply mild_network]. auto with mild. }
  clearbody x3. etrans; [exact T3|]. destruct (_ && _); [auto with mild|reflexivity].
Qed.
End marks.

(** ** What the other threads leave alone *)
(** [ps] are the processes that may have been marked in between. *)
Definition quiet (e : event) : Prop := match e with NetworkFenced _ _ _ => False | _ => True end.
Record around (ps : list nat) (s s' : server) : Prop := {
  ar_network : experimentNetwork s' = experimentNetwork s;
  ar_mu : networkMu s' = networkMu s;
  ar_log : ∃ l, log s' = log s ++ l ∧ Forall quiet l;
  ar_marks p : marked (proc s' p) → marked (proc s p) ∨ p ∈ ps }.

Lemma around_refl s : around [] s s.
Proof. split; [done..| |by left]. exists []. rewrite app_nil_r. auto using list.Forall_nil. Qed.
Lemma around_trans ps qs s s1 s2 : around ps s s1 → around qs s1 s2 → around (ps ++ qs) s s2.
Proof.
  intros [A1 B1 (l1 & C1 & D1) E1] [A2 B2 (l2 & C2 & D2) E2]. split; [congruence..| |].
  - exists (l1 ++ l2). rewrite C2, C1, app_assoc. split; [done|by apply list.Forall_app].
  - intros p [Hp|Hp]%E2; [|right; set_solver]. destruct (E1 _ Hp); [by left|right; set_solver].
Qed.
Lemma around_same ps s s1 s2 :
  experimentNetwork s2 = experimentNetwork s1 → networkMu s2 = networkMu s1 → log s2 = log s1 →
  heap s2 = heap s1 → around ps s s1 → around ps s s2.
Proof.
  intros E1 E2 E3 E4 [A B (l & C & D) E]. split; [congruence..| |].
  - exists l. by rewrite E3.
  - intros p. unfold proc. rewrite E4. apply E.
Qed.
Lemma around_modify ps s s1 p f :
  mild (proc s1 p) (f (proc s1 p)) → around ps s s1 → around ps s (modify p f s1).
Proof.
  intros Hf [A B C D]. split; [done..|]. intros q. unfold modify, setProc, proc at 1. cbn.
  destruct (decide (q = p)) as [->|Hne].
  - rewrite lookup_insert_eq. cbn. intros Hq%Hf. by apply D.
  - rewrite lookup_insert_ne by done. apply D.
Qed.
Lemma around_mark s p f : around [p] s (modify p f s).
Proof.
  split; [done..| |].
  - exists []. rewrite app_nil_r. auto using list.Forall_nil.
  - intros q. unfold modify, setProc, proc at 1. cbn. destruct (decide (q = p)) as [->|Hne].
    + right. by apply list_elem_of_singleton.
    + rewrite lookup_insert_ne by done. by left.
Qed.
Lemma around_record ps s s1 l : Forall quiet l → around ps s s1 → around ps s (record l s1).
Proof.
  intros Hl [A B (l1 & C & D) E]. split; [done..| |done]. exists (l1 ++ l). cbn.
  rewrite C, app_assoc. split; [done|by apply list.Forall_app].
Qed.
Lemma around_fold {A} (f : server → A → server) l s s1 :
  (∀ s a, around [] s (f s a)) → around [] s s1 → around [] s (foldl f s1 l).
Proof.
  intros Hf. revert s1. induction l as [|a l IH]; intros s1 Hs; [done|]. apply IH.
  by apply (around_trans [] [] s s1).
Qed.
Lemma around_close s s1 ps c : around ps s s1 → around ps s (closeChan c s1).
Proof. unfold closeChan. destruct (bool_decide _); by apply around_same. Qed.

(** Peels the assignments off a state. *)
Ltac by_around := repeat match goal with
  | |- around _ ?s ?s => apply around_refl
  | |- around _ _ (closeChan _ _) => apply around_close
  | |- around _ _ (modify _ _ _) => apply around_modify; [solve [auto with mild]|]
  | |- around _ _ (record _ _) => apply around_record; [solve [by repeat constructor]|]
  | |- around _ _ (withHistory _ _ ?s1) => apply (around_same _ _ s1); [reflexivity..|]
  | |- around _ _ (withFlags _ _ _ _ ?s1) => apply (around_same _ _ s1); [reflexivity..|]
  | |- around _ _ (withTerminations _ ?s1) => apply (around_same _ _ s1); [reflexivity..|]
  | |- around _ _ (withDisk _ _ _ ?s1) => apply (around_same _ _ s1); [reflexivity..|]
  | |- around _ _ (withLocks _ _ ?s1) => apply (around_same _ _ s1); [reflexivity..|]
  | |- around _ _ (withChannels _ _ _ ?s1) => apply (around_same _ _ s1); [reflexivity..|]
  | |- around _ _ (withContainers _ ?s1) => apply (around_same _ _ s1); [reflexivity..|]
  | |- around _ _ (bump ?s1) => apply (around_same _ _ s1); [reflexivity..|]
  | |- around _ _ (if ?b then _ else _) => destruct b
  | |- around _ _ (match ?o with _ => _ end) => destruct o
  end.

(** ** One step *)
(** The processes whose contexts a thread is about to cancel. *)
Definition cancelling (t : thread) : list nat :=
  match t with
  | Cancel p | StopEachCancel _ p _ => [p]
  | StopRunCancel todo _ _ => todo
  | _ => []
  end.
(** The request that holds [networkMu]. *)
Definition holdsNetwork (t : thread) : bool :=
  match t with
  | FenceSection _ | FenceListing _ | ActivateCheck _ | ActivateHealth _ | ActivateCommit _ => true
  | _ => false
  end.
Definition cancelled (s : server) (p : nat) : Prop := process.cancelled (proc s p) = true.
Definition willCancel (l : list thread) (p : nat) : Prop := ∃ t, t ∈ l ∧ p ∈ cancelling t.

Record stepMore (s : server) (t : thread) (s' : server) (l : list thread) : Prop := {
  sm_mu : (total (λ t, one (holdsNetwork t)) l + one (networkMu s) = one (holdsNetwork t) + one (networkMu s'))%nat;
  sm_auto t' : t' ∈ l → holdsNetwork t' = true →
    Config.AutoResetNetwork (config s) = true ∨ holdsNetwork t = true;
  sm_network : experimentNetwork s' = experimentNetwork s ∨ holdsNetwork t = true;
  sm_listing r : FenceListing r ∈ l → experimentNetwork s' = None ∧ ∀ p, known s' p → fin s' p;
  sm_log : ∃ l', log s' = log s ++ l' ∧
    (Forall quiet l' ∨ ∃ r run, t = FenceListing r ∧ l' = [NetworkFenced run ∅ ""]);
  sm_marks p : marked (proc s' p) → marked (proc s p) ∨ willCancel l p;
  sm_cancel p : p ∈ cancelling t → cancelled s' p ∨ willCancel l p }.
Definition more (s : server) (t : thread) (m : moved) : Prop :=
  ∀ s' l, m = Some (s', l) → stepMore s t s' l.

Lemma more_none s t : more s t None.
Proof. by intros s' l. Qed.
Lemma no_holders l : Forall (λ t, holdsNetwork t = false) l → total (λ t, one (holdsNetwork t)) l = 0%nat.
Proof. induction 1 as [|t l Ht _ IH]; [done|]. by rewrite total_cons, Ht, IH. Qed.

(** A step of a thread that does not hold the lock and takes it for no other. *)
Lemma more_list ps s t s' l :
  around ps s s' → holdsNetwork t = false → Forall (λ t, holdsNetwork t = false) l →
  Forall (willCancel l) ps → (∀ p, p ∈ cancelling t → cancelled s' p ∨ willCancel l p) →
  more s t (Some (s', l)).
Proof.
  intros [A B (l' & C & D) E] Ht Hl Hps Hc s1 l1 [= <- <-].
  pose proof (proj1 (list.Forall_forall _ _) Hl) as Hin. split.
  - rewrite B, no_holders, Ht by done. done.
  - intros t' Ht' Hh. by rewrite (Hin _ Ht') in Hh.
  - by left.
  - intros r Hr. by specialize (Hin _ Hr).
  - exists l'. split; [done|by left].
  - intros p [?|Hp]%E; [by left|right]. by apply (proj1 (list.Forall_forall _ _) Hps).
  - done.
Qed.
Lemma more_goes s t s' t' :
  around [] s s' → holdsNetwork t = false → holdsNetwork t' = false → cancelling t = [] → more s t (goes s' t').
Proof.
  intros Ha Ht Ht' Hc. apply (more_list []); [done|done|by apply list.Forall_singleton|by apply list.Forall_nil|].
  rewrite Hc. by intros p ?%elem_of_nil.
Qed.
Lemma more_ends s t s' :
  around [] s s' → holdsNetwork t = false → cancelling t = [] → more s t (ends s').
Proof.
  intros Ha Ht Hc. apply (more_list []); [done|done|by apply list.Forall_nil..|].
  rewrite Hc. by intros p ?%elem_of_nil.
Qed.

Ltac by_moving :=
  repeat match goal with
  | |- more _ _ (if ?b then _ else _) => destruct b
  | |- more _ _ (match ?o with _ => _ end) => destruct o
  | |- more _ _ None => apply more_none
  | |- more _ _ (goes _ _) =>
      apply more_goes; [by_around|repeat case_match; reflexivity..]
  | |- more _ _ (ends _) => apply more_ends; [by_around|reflexivity..]
  end.
