(* ===== verification/AgentAdmission.v ===== *)
(** * The steps of an admission, of a container's life and of its end

    One lemma per handler of [AgentThreads]: from a state its thread may rely on
    ([ready]), the step is [good], that is, keeps what [stepOk] asks for. *)
From Stdlib Require Import ZArith Lia.
From stdpp Require Import strings list gmap sorting.
From S2P Require Import Prelude.
From S2P Require Import GoStd.
From S2P Require Import Distribution.
From S2P Require Import Network.
From S2P Require Import Attacks.
From S2P Require Import PeerScore.
From S2P Require Import GossipSubConfig.
From S2P Require Import NodeConfig.
From S2P Require Import AgentModel.
From S2P Require Import Inventory.
From S2P Require Import AgentPrepare.
From S2P Require Import AgentProcess.
From S2P Require Import AgentStatus.
From S2P Require Import AgentServer.
From S2P Require Import AgentThreads.
From S2P Require Import AgentInv.
From S2P Require Import AgentCalm.
From S2P Require Import AgentWorld.
Open Scope Z_scope.

Section good.
Context (disk : gmap string Node.t).

Definition good (s : server) (t : thread) (m : moved) : Prop :=
  ∀ s' l, m = Some (s', l) → stepOk disk s t s' l.

Lemma good_none s t : good s t None.
Proof. by intros s' l. Qed.
Lemma good_some s t s' l : stepOk disk s t s' l → good s t (Some (s', l)).
Proof. by intros H s1 l1 [= <- <-]. Qed.

Lemma isPointer_le p o o' : (isPointer p o' <= isPointer p o)%nat → o' = Some p → o = Some p.
Proof.
  intros Hle ->. rewrite isPointer_some in Hle. unfold isPointer in Hle.
  case_bool_decide; [done|]. cbn in Hle. lia.
Qed.

(** A step that leaves every process to its owner. *)
Lemma calm_good s t s' l :
  ready disk s t → calm disk s s' →
  (∀ p, owners p l = isPointer p (ownerOf t)) → (∀ p, tokens p l = isPointer p (tokenOf t)) →
  stopping l = one (stopsAll t) → Forall (threadOk s) l → good s t (Some (s', l)).
Proof.
  intros [R1 R2 R3 R4 R5] Hc Ho Ht Hs Hl. apply good_some, step_calm; try done; [by apply calm_but|].
  apply list.Forall_forall. intros t' Hin. pose proof (proj1 (list.Forall_forall _ _) Hl _ Hin) as Hok.
  apply (threadOk_stable s); [by apply (cm_ev _ _ _ _ Hc)| | |..|done].
  - intros p x Hp Hp'. rewrite (cm_new _ _ _ _ Hc _ Hp) in Hp'. done.
  - intros Hst. apply R5. pose proof (total_in (λ t, one (stopsAll t)) _ _ Hin) as Hle. cbn in Hle.
    unfold stopping in Hs. rewrite Hst, Hs in Hle. destruct (stopsAll t); [done|]. cbn in Hle. lia.
  - intros p Hp. split; [by apply (cm_quiet _ _ _ _ Hc)|]. apply R3.
    eapply isPointer_le; [|exact Hp]. rewrite <- Ho.
    exact (total_in (λ t, isPointer p (ownerOf t)) _ _ Hin).
Qed.

Lemma goes_calm s t s' t' :
  ready disk s t → calm disk s s' → ownerOf t' = ownerOf t → tokenOf t' = tokenOf t →
  stopsAll t' = stopsAll t → threadOk s t' → good s t (goes s' t').
Proof.
  intros Hr Hc Ho Ht Hs Hok. apply calm_good; [done|done|..].
  - intros p. unfold owners. rewrite total_cons, Ho. cbn. lia.
  - intros p. unfold tokens. rewrite total_cons, Ht. cbn. lia.
  - unfold stopping. rewrite total_cons, Hs. cbn. lia.
  - by apply list.Forall_singleton.
Qed.
Lemma ends_calm s t s' :
  ready disk s t → calm disk s s' → ownerOf t = None → tokenOf t = None → stopsAll t = false →
  good s t (ends s').
Proof.
  intros Hr Hc Ho Ht Hs. apply calm_good; [done|done|..|by apply list.Forall_nil].
  - intros p. by rewrite Ho.
  - intros p. by rewrite Ht.
  - by rewrite Hs.
Qed.
Lemma reads s t t' :
  ready disk s t → ownerOf t' = ownerOf t → tokenOf t' = tokenOf t →
  stopsAll t' = stopsAll t → threadOk s t' → good s t (goes s t').
Proof. intros Hr. by apply goes_calm. Qed.
Lemma stops s t :
  ready disk s t → ownerOf t = None → tokenOf t = None → stopsAll t = false → good s t (ends s).
Proof. intros Hr. by apply ends_calm. Qed.

(** A step of the owner of [p]. *)
Lemma owner_goes s t s' t' p :
  ready disk s t → ownerOf t = Some p → calmBut disk (Some p) s s' → ownerOf t' = Some p →
  tokenOf t' = tokenOf t → stopsAll t' = stopsAll t → (evolves s s' → threadOk s' t') →
  good s t (goes s' t').
Proof.
  intros Hr Hp Hc Ho Ht Hs Hok. apply good_some, step_goes; [apply Hr|by rewrite Hp|by rewrite Hp|done|done|].
  apply Hok, Hc, Hr.
Qed.

Lemma known_table s id p : serverOk disk s → processes s !! id = Some p → known s p.
Proof. intros Hok Hp. destruct (so_ids _ _ Hok _ _ Hp) as (x & Hx & _). by exists x. Qed.
Lemma known_in_table s p : serverOk disk s → p ∈ table s → known s p.
Proof.
  intros Hok ([id q] & -> & Hin)%list_elem_of_fmap. apply elem_of_map_to_list in Hin. by eapply known_table.
Qed.
Lemma live_known s p : live s p = 1%nat → known s p ∧ process.exited (proc s p) = false.
Proof. intros (x & Hx & He)%live_heap. rewrite (proc_heap _ _ _ Hx). split; [by exists x|done]. Qed.
Lemma live_table s p :
  serverOk disk s → live s p = 1%nat → processes s !! Node.ID (process.node (proc s p)) = Some p.
Proof.
  intros Hok (x & Hx & He)%live_heap. rewrite (proc_heap _ _ _ Hx).
  destruct (po_table _ _ _ (so_proc _ _ Hok _ _ Hx)) as [?|[Hr _]]; [done|].
  unfold retirable, processCleanupComplete in Hr. by rewrite He, andb_false_r in Hr.
Qed.
(** What a process's owner may write of it. *)
Lemma calm_live s p f :
  live s p = 1%nat → (∀ x, touch x (f x)) → calm disk s (modify p f s).
Proof. intros [Hk He]%live_known Hf. apply calm_modify; [done|done|congruence]. Qed.
Lemma calm_cancel s p : known s p → calm disk s (modify p process.cancel s).
Proof. intros Hk. apply calm_modify; [done|auto with touch|done]. Qed.
Lemma calm_answer s c r :
  (∀ n, r = Ok n → serverOk disk s → answerOk disk (log s) (request c) n) → calm disk s (answer c r s).
Proof. intros Hn. unfold answer. destruct r; [|reflexivity..]. apply calm_event. cbn. by apply Hn. Qed.
Lemma replayAnswer_ok hash n m : replayAnswer hash n = Ok m → m = n.
Proof.
  unfold replayAnswer. intros [_ [_ E]%fail_if_seq_ok]%fail_if_seq_ok. by injection E as ->.
Qed.
(** The record of an admitted process. *)
Lemma answer_process s r p n :
  serverOk disk s → known s p → identity n = identity (process.node (proc s p)) →
  Node.ID (process.node (proc s p)) = CreateNodeRequest.ID r → answerOk disk (log s) r n.
Proof.
  intros Hok Hk (E1 & E2 & E3)%identity_eq Hid. split; [congruence|]. left. exists p. rewrite E1, E2, E3.
  apply (po_admitted _ _ _ (so_proc _ _ Hok _ _ (proc_known _ _ Hk))).
Qed.
(** The record of a retired Peer. *)
Lemma answer_stored s r n :
  serverOk disk s → stored s !! Node.ID n = Some n → Node.ID n = CreateNodeRequest.ID r →
  answerOk disk (log s) r n.
Proof.
  intros Hok Hs Hid. destruct (so_stored _ _ Hok _ _ Hs) as [Ha|?]; [|by split; [|right]].
  apply list_elem_of_omap in Ha as ([q id run g| | | | | | | |] & Ha & Hf); try done. injection Hf as ->.
  destruct (so_admitted _ _ Hok _ _ _ _ Ha) as (x & Hx & Hi).
  assert (Node.ID (process.node x) = Node.ID n) as Hxn by (by injection Hi).
  rewrite <- Hxn in Hs. destruct (po_stored _ _ _ (so_proc _ _ Hok _ _ Hx) _ Hs) as (_ & Hn & _).
  apply (answer_process s r q); [done|by exists x|by rewrite (proc_heap _ _ _ Hx)|].
  rewrite (proc_heap _ _ _ Hx). congruence.
Qed.
Lemma calm_same s s' :
  sameCore s s' → fencingAll s' = fencingAll s → fences s' = fences s → runFences s' = runFences s →
  historyRevision s' = historyRevision s → calm disk s s'.
Proof. intros. apply calm_frame; [done..|lia]. Qed.
End good.

(** The side conditions about who owns what. *)
Ltac by_reading := apply reads; [assumption|reflexivity|reflexivity|reflexivity|].
Ltac by_stopping := apply stops; [assumption|reflexivity|reflexivity|reflexivity].
Ltac by_going := apply goes_calm; [assumption| |reflexivity|reflexivity|reflexivity|].
Ltac by_ending := apply ends_calm; [assumption| |reflexivity|reflexivity|reflexivity].

Section admission.
Context (disk : gmap string Node.t).
Context `{PeerCodec} `{CIDRs} `{PubSubLib} (ParseFloat : string → option float).
Context {R : Type} `{DistRand R} `{MathFns} (newSource : Z → R).
Context `{Encoding} `{StatusCodec}.

(** ** Until the lock *)
Lemma admitStart_ok s r : ready disk s (AdmitStart r) → good disk s (AdmitStart r) (admitStart r s).
Proof.
  intros Hr. pose proof (rd_thread _ _ _ Hr) as Hg. cbn in Hg. unfold admitStart.
  destruct (createRequestHash r s); [|by_stopping..]. destruct (empty _); by by_reading.
Qed.

Lemma refused_ok s t c e :
  ready disk s t → ownerOf t = None → tokenOf t = None → stopsAll t = false → creationOk c →
  good disk s t (refused c e s).
Proof.
  intros Hr Ho Ht Hs Hc. unfold refused. destruct (_ && _).
  - by apply reads.
  - by apply stops.
Qed.

Lemma replayLook_ok s c second :
  ready disk s (ReplayLook c second) → good disk s (ReplayLook c second) (replayLook c second s).
Proof.
  intros Hr. pose proof (rd_thread _ _ _ Hr) as Hg. cbn in Hg. unfold replayLook.
  destruct (processes s !! idOf c) as [p|] eqn:Hp; [|by by_reading].
  case_bool_decide; [|by_stopping]. by_reading.
  destruct (so_ids _ _ (rd_ok _ _ _ Hr) _ _ Hp) as (x & Hx & Hid). cbn.
  rewrite (proc_heap _ _ _ Hx). split_and!; [done|by exists x|done].
Qed.

Lemma replayWait_ok i s c p :
  ready disk s (ReplayWait c p) → good disk s (ReplayWait c p) (replayWait i c p s).
Proof.
  intros Hr. unfold replayWait. cbv zeta. destruct (ctxDone i); [by_stopping|].
  destruct (match _ with Some _ => _ | None => _ end); [|apply good_none].
  by_ending. apply calm_answer. intros n ->%replayAnswer_ok Hok.
  pose proof (rd_thread _ _ _ Hr) as (_ & Hk & Hid).
  by apply (answer_process disk s _ p); [..|apply identity_status|].
Qed.

Lemma replayReceipt_ok i s c second :
  ready disk s (ReplayReceipt c second) → good disk s (ReplayReceipt c second) (replayReceipt i c second s).
Proof.
  intros Hr. pose proof (rd_thread _ _ _ Hr) as Hg. unfold replayReceipt.
  destruct (ioErr i); [by_stopping|]. destruct (stored s !! idOf c) as [n|] eqn:Hn.
  - by_ending. case_bool_decide as Hid; [|reflexivity]. apply calm_answer.
    intros m ->%replayAnswer_ok Hok. apply answer_stored; [done|congruence|done].
  - destruct second; [by_stopping|]. by by_reading.
Qed.

Lemma admitResolve_ok i s c :
  ready disk s (AdmitResolve c) →
  good disk s (AdmitResolve c) (admitResolve ParseFloat newSource i c s).
Proof.
  intros Hr. pose proof (rd_thread _ _ _ Hr) as Hg. unfold admitResolve.
  destruct (prepare _ _ _ _) as [[a|e|]|]; [|by_stopping..|apply good_none]. by by_reading.
Qed.

Lemma current_max cached stored f :
  cached = Some f ∨ stored = Some f → ∃ f', currentFence cached stored = Some f' ∧ f <= f'.
Proof.
  intros [-> | ->]; unfold currentFence; repeat case_match; eexists; (split; [done|]); lia.
Qed.
Lemma fenceOk_read s c a revision :
  ready disk s (AdmitFence c a revision) → fenceOk s c revision (fences s !! runOf c).
Proof.
  intros Hr _. right. intros g Hg.
  destruct (so_fenced _ _ (rd_ok _ _ _ Hr) _ _ Hg) as (f & Hf & Hle).
  destruct (current_max _ _ _ Hf) as (f' & ? & ?). exists f'. split; [done|lia].
Qed.

(** ** Under the lock *)
Lemma admitLock_ok i s c a revision fence pending full :
  let t := AdmitLock c a revision fence pending full in
  ready disk s t → good disk s t (admitLock i c a revision fence pending full s).
Proof.
  intros t Hr. pose proof (rd_thread _ _ _ Hr) as (Hc & [_ Hu] & Hf). unfold admitLock, t.
  destruct (ctxDone i); [by_stopping|]. destruct (Nat.eqb_spec revision (historyRevision s)) as [Heq|]; cbn [negb];
    [|by by_reading].
  destruct (admissionCheck _ _ _ _ _) as [[]|e|] eqn:Hcheck; [|by apply refused_ok|by_stopping].
  apply admissionCheck_ok in Hcheck as (Hfa & Hps & Hprep & _ & Hptr & Hcap).
  pose proof (prepared_network _ _ Hprep) as Hnet.
  assert (stored s !! CreateNodeRequest.ID (request c) = None) as Hst.
  { destruct (Hu Heq) as [?|Hp]; [done|]. unfold idOf in Hp. rewrite Hps in Hp. by destruct Hp. }
  assert (∀ g, Fenced (runOf c) g ∈ log s → g < CreateNodeRequest.Generation (request c)) as Hfenced.
  { intros g Hg. destruct (Hf Heq) as [?|Hf']; [congruence|]. destruct (Hf' _ Hg) as (f & Hcur & Hle).
    unfold runOf in Hcur. rewrite Hcur in Hptr. apply Z.leb_gt in Hptr. by eapply Z.le_lt_trans. }
  pose proof (insert_step disk s (now i) (request c) (hash c) a (rd_ok _ _ _ Hr) Hps Hst Hfenced Hfa Hnet Hcap) as Hins.
  rewrite insertProcess_eq in *. cbv zeta in *. cbn [snd] in Hins. set (s' := record _ _) in *.
  set (p := newPointer (hash c) s) in *.
  destruct Hins as (I1 & I2 & I3 & I4 & I5 & I6 & I7 & I8 & I9 & I10 & I11). clearbody s'.
  apply good_some. split; [done|done|done| | | | |].
  - intros q _. apply I4.
  - intros q. rewrite I5. unfold owners. rewrite total_cons. cbn. destruct (decide (q = p)) as [->|Hne].
    + rewrite isPointer_some, I6. done.
    + rewrite isPointer_other by done. done.
  - intros q x Hx Hadm. rewrite I7. unfold tokens. rewrite total_cons. cbn. destruct (decide (q = p)) as [->|Hne].
    + rewrite isPointer_some, I8. rewrite I10 in Hx. injection Hx as <-.
      unfold newProcess in Hadm. cbn in Hadm. by destruct (empty (hash c)).
    + rewrite isPointer_other by done. done.
  - rewrite I9. done.
  - apply list.Forall_singleton. unfold threadOk, youngOk. rewrite (proc_heap _ _ _ I10).
    pose proof (newProcess_identity (now i) (request c) (hash c) a s) as Hid.
    split; [split_and!; [by eexists|by injection Hid|done]|by rewrite Hid].
Qed.

(** ** The configuration is written and the outcome recorded *)
Lemma calm_setAdmission s c value p :
  live s p = 1%nat → calm disk s (setAdmission c value p s).
Proof.
  intros Hl. unfold setAdmission. destruct (empty _); [reflexivity|]. apply calm_live; auto with touch.
Qed.

Lemma admitWrite_ok i s c p n cfg :
  let t := AdmitWrite c p n cfg in ready disk s t → good disk s t (admitWrite i c p n cfg s).
Proof.
  intros t Hr. unfold admitWrite, t. by_going; [|apply Hr]. destruct (empty _); [reflexivity|].
  apply calm_live; [by apply (rd_owner _ _ _ Hr)|auto with touch].
Qed.
Lemma admitCheck_ok s c p n cfg err :
  let t := AdmitCheck c p n cfg err in ready disk s t → good disk s t (admitCheck c p n cfg err s).
Proof.
  intros t Hr. unfold admitCheck, t. pose proof (rd_thread _ _ _ Hr) as Hy.
  destruct err; [by_reading; by destruct Hy|]. destruct (process.cancelled _); by_reading; [by destruct Hy|done].
Qed.
Lemma admitFailed_ok s c p err :
  let t := AdmitFailed c p err in ready disk s t → good disk s t (admitFailed c p err s).
Proof.
  intros t Hr. unfold admitFailed, t. pose proof (rd_thread _ _ _ Hr) as (Hk & Hid & Hcon & _ & Hterm).
  pose proof (rd_owner _ _ _ Hr p eq_refl) as Hl. by_going; [|by split_and!].
  pose proof (calm_setAdmission s c "failed" p Hl) as Hc. etrans; [exact Hc|].
  apply calm_live; [by rewrite (cm_live _ _ _ _ Hc)|auto with touch].
Qed.
Lemma admitAccepted_ok s c p n cfg :
  let t := AdmitAccepted c p n cfg in ready disk s t → good disk s t (admitAccepted c p n cfg s).
Proof.
  intros t Hr. unfold admitAccepted, t. pose proof (rd_thread _ _ _ Hr) as [(Hk & Hid & Hun) Hn].
  pose proof (rd_owner _ _ _ Hr p eq_refl) as Hl. apply calm_good; [done|..].
  - pose proof (calm_setAdmission s c "accepted" p Hl) as Hc. pose proof (cm_ev _ _ _ _ Hc (rd_ok _ _ _ Hr)) as He.
    etrans; [exact Hc|]. apply calm_event. cbn. intros Hok.
    apply (answer_process disk _ _ p); [done|by eapply known_evolves| |by eapply id_evolves].
    by rewrite (identity_evolves _ _ _ He Hk).
  - intros q. unfold owners. rewrite !total_cons. cbn [ownerOf]. by rewrite isPointer_none, Nat.add_0_r.
  - intros q. unfold tokens. rewrite !total_cons. cbn [tokenOf]. by rewrite isPointer_none, Nat.add_0_r.
  - done.
  - rewrite !list.Forall_cons. by split_and!; [..|apply list.Forall_nil].
Qed.

Lemma admitClose_ok s p : ready disk s (AdmitClose p) → good disk s (AdmitClose p) (admitClose p s).
Proof.
  intros Hr. pose proof (rd_thread _ _ _ Hr) as Hk. cbn in Hk. pose proof (proc_known _ _ Hk) as Hx.
  pose proof (rd_ok _ _ _ Hr) as Hok. unfold admitClose. set (x := proc s p) in *. clearbody x.
  destruct (process.admissionDone x) as [c|] eqn:Hc; apply good_some.
  - pose proof (rd_token _ _ _ Hr p x c eq_refl Hx Hc) as Hcl.
    destruct (announce_step disk s p x c Hok Hx Hc Hcl) as (A & B & C & D & E).
    assert (heap (closeChan c s) = heap s ∧ fencingAll (closeChan c s) = fencingAll s) as [Hh Hfa]
      by (by rewrite closeChan_open).
    split; [done|done|..].
    + intros q y Hq Hq'. congruence.
    + intros q _ _. apply C.
    + intros q. rewrite D. done.
    + intros q y Hy Hadm. rewrite E. cbn. destruct (decide (q = p)) as [->|Hne].
      * rewrite isPointer_some. unfold isOpen. rewrite Hx, Hc. by rewrite bool_decide_eq_true_2.
      * by rewrite isPointer_other.
    + by rewrite Hfa.
    + by apply list.Forall_nil.
  - split; [done|reflexivity|..].
    + congruence.
    + reflexivity.
    + done.
    + intros q y Hy Hadm. cbn. rewrite isPointer_other; [done|]. intros <-. congruence.
    + done.
    + by apply list.Forall_nil.
Qed.
End admission.

(** ** The life of a container and its end: the steps of the one thread that owns
    a process *)
Section lives.
Context (disk : gmap string Node.t).
Context `{Encoding}.

(** ** [finishProcess] *)
Lemma finishState_outcome x r c : let '(_, st, _) := finishState x r c in st = NodeStopped ∨ st = NodeFailed.
Proof. unfold finishState. cbv zeta. destruct (joinErr _ _); auto. Qed.

Lemma finish_ok i s f : ready disk s (FinishBegin f) → good disk s (FinishBegin f) (finish i f s).
Proof.
  intros Hr. pose proof (rd_thread _ _ _ Hr) as [(Hk & Hid & Hout) Hterm]. cbn in Hterm.
  pose proof (rd_owner _ _ _ Hr _ eq_refl) as Hl. unfold finish, finishBegin.
  pose proof (finishState_outcome (proc s (pointer f)) (runErr f) (cleanupErr f)) as Hst.
  destruct (finishState _ _ _) as [[exitErr st] message].
  set (s1 := modify (pointer f) (process.setExitErr exitErr) s).
  assert (calm disk s s1) as Hc1 by (apply calm_live; [done|auto with touch]).
  assert (current (nodeID f) (pointer f) s1 = true) as ->.
  { unfold current. apply bool_decide_eq_true. change (processes s1) with (processes s).
    rewrite <- Hid. by apply (live_table disk); [apply Hr|]. }
  assert (threadOk s (if bool_decide (cleanupErr f = None) then FinishQueue f st message (now i)
            else FinishEnd f st message (now i))) as Hnext.
  { case_bool_decide as Hce; cbn; [by split_and!|]. by split_and!. }
  assert (calm disk s (modify (pointer f) (λ x, process.setNode
    (setLastSeen (now i) (setState NodeStopping (process.node x))) x) s1)) as Hc.
  { etrans; [exact Hc1|]. apply calm_live; [by rewrite (cm_live _ _ _ _ Hc1)|].
    intros x. by apply touch_node. }
  case_bool_decide; (apply goes_calm; [done|done|..]; done).
Qed.

Lemma queueTermination_same id t b s :
  sameCore s (queueTermination id t b s) ∧ fencingAll (queueTermination id t b s) = fencingAll s ∧
  fences (queueTermination id t b s) = fences s ∧ runFences (queueTermination id t b s) = runFences s ∧
  historyRevision (queueTermination id t b s) = historyRevision s.
Proof. unfold queueTermination. cbv zeta. by repeat case_match. Qed.
Lemma finishQueue_ok i s f st message t :
  ready disk s (FinishQueue f st message t) →
  good disk s (FinishQueue f st message t)
    (goes (record [Terminated (pointer f)] (queueTermination (nodeID f) t (isNil (ioErr i)) s))
       (FinishEnd f st message t)).
Proof.
  intros Hr. pose proof (rd_thread _ _ _ Hr) as ((Hk & Hid & Hout) & Hterm & Hce & Hst).
  pose proof (rd_owner _ _ _ Hr _ eq_refl) as Hl.
  destruct (queueTermination_same (nodeID f) t (isNil (ioErr i)) s) as (Hs & Hfa & Hf & Hrf & Hrev).
  set (s1 := queueTermination _ _ _ s) in *.
  assert (calm disk s s1) as Hc1 by (by apply calm_same).
  destruct Hs as (_ & _ & Hheap & _ & _ & _ & _ & Hcont & Hlog).
  eapply owner_goes; [done|done| |done|done|done|].
  - etrans; [by apply calm_but|]. apply busy_event; [by right|by rewrite Hlog|].
    by rewrite (cm_live _ _ _ _ Hc1).
  - intros _. cbn. unfold finishOk, known, proc, outcomeOk in *. rewrite Hce in *. cbn in *.
    rewrite Hheap, Hcont. split_and!; [done..| |done].
    split; [done|]. intros _. apply elem_of_app. right. by apply list_elem_of_singleton.
Qed.

Lemma finished_ok i s f st message t :
  ready disk s (FinishEnd f st message t) →
  good disk s (FinishEnd f st message t) (AgentThreads.finished i f st message t s).
Proof.
  intros Hr. pose proof (rd_thread _ _ _ Hr) as ((Hk & Hid & Hout) & Hterm & Hst).
  pose proof (rd_owner _ _ _ Hr _ eq_refl) as Hl. pose proof (rd_ok _ _ _ Hr) as Hok.
  pose proof (live_table disk s _ Hok Hl) as Htab. rewrite Hid in Htab.
  destruct (live_known _ _ Hl) as [_ Hex]. pose proof (proc_known _ _ Hk) as Hx.
  unfold AgentThreads.finished, outcomeOk in *. set (p := pointer f) in *. set (x := proc s p) in *. clearbody x.
  destruct (po_done _ _ _ (so_proc _ _ Hok _ _ Hx)) as (c & Hd & _).
  rewrite (finishEnd_eq t (now i) (nodeID f) p (cleanupErr f) st message s x c Hx Htab Hd). cbv zeta.
  pose proof (ended_ends t (now i) (cleanupErr f) st message x Hst) as He.
  set (x' := ended _ _ _ _ _ _) in *. clearbody x'.
  assert (fencingAll (closeChan c (setProc p x' s)) = fencingAll s) as Hfa
    by (unfold closeChan; by case_bool_decide).
  destruct (exit_step disk s p x x' c (cleanupErr f)) as (A & B & C & D & E & F); try done.
  { intros Hce. by rewrite Hce in Hout. }
  { intros Hce. by destruct (cleanupErr f). }
  set (s' := closeChan c (setProc p x' s)) in *. clearbody s'.
  assert (∀ l, (∀ q, owners q l = 0%nat) → (∀ q, tokens q l = isPointer q (announces f)) →
    stopping l = 0%nat → Forall (threadOk s') l → stepOk disk s (FinishEnd f st message t) s' l) as Hstep.
  { intros l Ho Ht Hs Hth. split; try done.
    - intros q y Hq Hq'. rewrite (C _ Hq) in Hq'. done.
    - intros q Hne _. apply D. intros ->. by apply Hne.
    - intros q. rewrite E, Ho. cbn [ownerOf]. destruct (decide (q = p)) as [->|Hne].
      + fold p. rewrite isPointer_some, Hl. done.
      + fold p. rewrite isPointer_other by done. done.
    - intros q y _ _. by rewrite F, Ht.
    - by rewrite Hs, Hfa. }
  assert (known s' p) as Hk' by by apply (known_evolves s).
  unfold announces in Hstep. destruct (madeBy f); apply good_some, Hstep; try done.
  - by apply list.Forall_singleton.
  - by apply list.Forall_singleton.
Qed.

(** ** Docker *)
Lemma unlaunched_finish s p e :
  known s p → unlaunched s p → threadOk s (finishDocker p e None s).
Proof. intros Hk (? & ? & ?). by split_and!. Qed.
Lemma left_finish s p e err :
  known s p → Terminated p ∉ log s → process.containerID (proc s p) ≠ ""%string →
  threadOk s (finishDocker p e (Some err) s).
Proof. intros. by split_and!. Qed.
Lemma gone_finish s p e :
  known s p → Terminated p ∉ log s → p ∉ containers s → threadOk s (finishDocker p e None s).
Proof. intros. by split_and!. Qed.

Lemma empty_false str : empty str = false → str ≠ ""%string.
Proof. by intros E ->. Qed.

Lemma dockerCreate_ok i s p cfg lifetime :
  let t := DockerCreate p cfg lifetime in ready disk s t → good disk s t (dockerCreate i p lifetime s).
Proof.
  intros t Hr. pose proof (rd_thread _ _ _ Hr) as [Hk Hu]. pose proof (rd_owner _ _ _ Hr p eq_refl) as Hl.
  unfold dockerCreate, t. destruct (process.cancelled _).
  { by_reading. by apply unlaunched_finish. }
  destruct (ioErr i); [by_reading; by apply unlaunched_finish|].
  destruct Hu as (Hu1 & Hu2 & Hu3).
  assert (calmBut disk (Some p) s (withContainers ({[p]} ∪ containers s) s)) as Hc.
  { apply busy_containers; [set_solver|]. intros _. right. by apply live_unfinished. }
  eapply owner_goes; [done|done| |done|done|done|].
  - etrans; [exact Hc|]. apply busy_event; [by left|done|by rewrite (cm_live _ _ _ _ Hc)].
  - intros _. split_and!; [done| |done]. cbn. rewrite elem_of_app, list_elem_of_singleton. naive_solver.
Qed.

Lemma dockerCreated_ok i s p lifetime name :
  let t := DockerCreated p lifetime name in ready disk s t →
  good disk s t (dockerCreated i p lifetime name s).
Proof.
  intros t Hr. pose proof (rd_thread _ _ _ Hr) as (Hk & Hterm & Hname). unfold dockerCreated, t.
  destruct (ioErr i); [by by_reading|]. destruct (empty (text i)) eqn:He; [by by_reading|].
  apply empty_false in He. destruct (process.cancelled _); by by_reading.
Qed.

Lemma dockerAdmitted_ok i s p lifetime id :
  let t := DockerAdmitted p lifetime id in ready disk s t →
  good disk s t (dockerAdmitted i p lifetime id s).
Proof.
  intros t Hr. pose proof (rd_thread _ _ _ Hr) as (Hk & Hterm & Hid). pose proof (rd_owner _ _ _ Hr p eq_refl) as Hl.
  unfold dockerAdmitted, t. apply calm_good; [done|apply calm_live; [done|auto with touch]|..].
  - intros q. unfold owners. rewrite total_cons. cbn [ownerOf].
    by destruct (empty lifetime); rewrite ?total_cons; cbn [ownerOf]; rewrite ?isPointer_none, Nat.add_0_r.
  - intros q. destruct (empty lifetime); done.
  - by destruct (empty lifetime).
  - apply list.Forall_cons. split; [by split_and!|]. destruct (empty lifetime); [by apply list.Forall_nil|].
    by apply list.Forall_singleton.
Qed.

Lemma dockerStart_ok i s p id :
  ready disk s (DockerStart p id) → good disk s (DockerStart p id) (dockerStart i p id s).
Proof.
  intros Hr. pose proof (rd_thread _ _ _ Hr) as (Hk & Hterm & Hid). unfold dockerStart.
  destruct (ioErr i); [by by_reading|]. destruct (process.cancelled _); by by_reading.
Qed.

Lemma calm_removed s p :
  calmBut disk (Some p) s (withContainers (containers s ∖ {[p]}) s).
Proof. apply busy_containers; set_solver. Qed.

Lemma dockerCleanup_ok i s p target message :
  let t := DockerCleanup p target message in ready disk s t →
  good disk s t (dockerCleanup i p target message s).
Proof.
  intros t Hr. pose proof (rd_thread _ _ _ Hr) as (Hk & Hterm & Hid). unfold dockerCleanup, t.
  destruct (ioErr i); [by by_reading|].
  eapply owner_goes; [done|done|apply calm_removed|done|done|done|].
  intros _. apply gone_finish; [done|done|cbn; set_solver].
Qed.

Lemma proc_modify p f s : proc (modify p f s) p = f (proc s p).
Proof. apply proc_setProc. Qed.
Lemma known_modify p f s : known (modify p f s) p.
Proof. unfold known. cbn. by rewrite lookup_insert_eq. Qed.

Lemma dockerLeft_ok s p target message err :
  let t := DockerLeft p target message err in ready disk s t →
  good disk s t (dockerLeft p target message err s).
Proof.
  intros t Hr. pose proof (rd_thread _ _ _ Hr) as (Hk & Hterm & Hid). unfold dockerLeft, t.
  eapply owner_goes; [done|done|apply busy_setContainer; by apply (rd_owner _ _ _ Hr)|done|done|done|].
  intros _. apply left_finish; [apply known_modify|done|by rewrite proc_modify].
Qed.

Lemma dockerRunning_ok i s p id url :
  let t := DockerRunning p id url in ready disk s t → good disk s t (dockerRunning i p id url s).
Proof.
  intros t Hr. pose proof (rd_thread _ _ _ Hr) as (Hk & Hterm & Hid). unfold dockerRunning, t.
  pose proof (rd_owner _ _ _ Hr p eq_refl) as Hl. cbv zeta. set (url' := if _ || _ then url else _).
  pose proof (busy_setContainer disk s p id Hl) as Hc.
  rewrite <- (modify_twice p (process.setContainer id) (λ x, setProcessMetadata "containerStartedAt" (formatTime (now i))
            (setProcessMetadata "containerId" id (process.setEndpoint url' x)))).
  eapply owner_goes; [done|done| |done|done|done|].
  - etrans; [exact Hc|]. apply calm_but, calm_live; [by rewrite (cm_live _ _ _ _ Hc)|]. intros x.
    etrans; [|apply touch_metadata]. etrans; [|apply touch_metadata]. apply touch_endpoint.
  - intros _. split_and!; [apply known_modify|done|]. by rewrite !proc_modify.
Qed.

Lemma dockerRemove_ok i s p id err :
  let t := DockerRemove p id err in ready disk s t → good disk s t (dockerRemove i p id err s).
Proof.
  intros t Hr. pose proof (rd_thread _ _ _ Hr) as (Hk & Hterm & Hid). unfold dockerRemove, t.
  destruct (ioErr i).
  - by_reading. by apply left_finish.
  - eapply owner_goes; [done|done|apply calm_removed|done|done|done|].
    intros _. apply gone_finish; [done|done|cbn; set_solver].
Qed.

Lemma retryRemove_ok i s p :
  ready disk s (RetryRemove p) → good disk s (RetryRemove p) (retryRemove i p s).
Proof.
  intros Hr. pose proof (rd_thread _ _ _ Hr) as (Hk & Hterm & Hid). unfold retryRemove.
  destruct (ioErr i).
  - by_reading. by split_and!.
  - eapply owner_goes; [done|done|apply calm_removed|done|done|done|].
    intros _. split; [|done]. split_and!; [done|done|]. cbn. set_solver.
Qed.
End lives.
