(* ===== verification/AgentStops.v ===== *)
(** * The steps of stops, waits and [stopAll]

    [stopNode], [stopRunGeneration], [stopAll], [waitProcessesStopped] and the
    fences they raise.  A stop may take up the failed removals of several
    processes at once: [reopens] composes such changes. *)
From Stdlib Require Import ZArith Lia.
From stdpp Require Import strings list gmap sorting.
From S2P Require Import Prelude.
From S2P Require Import GoStd.
From S2P Require Import Distribution.
From S2P Require Import Network.
From S2P Require Import Attacks.
From S2P Require Import PeerScore.
From S2P Require Import GossipSubConfig.
From S2P Require Import NodeConfig.
From S2P Require Import AgentModel.
From S2P Require Import Inventory.
From S2P Require Import AgentPrepare.
From S2P Require Import AgentProcess.
From S2P Require Import AgentStatus.
From S2P Require Import AgentServer.
From S2P Require Import AgentThreads.
From S2P Require Import AgentInv.
From S2P Require Import AgentCalm.
From S2P Require Import AgentWorld.
From S2P Require Import AgentAdmission.
Open Scope Z_scope.

Section stops.
Context (disk : gmap string Node.t).
Context `{Encoding}.

(** ** Removals taken up again *)
Definition retrying (s : server) (p : nat) : Prop :=
  known s p ∧ Terminated p ∉ log s ∧ process.containerID (proc s p) ≠ ""%string.
Record reopens (s s' : server) (ps : list nat) : Prop := {
  ro_ok : serverOk disk s';
  ro_ev : evolves s s';
  ro_new p : heap s !! p = None → heap s' !! p = None;
  ro_quiet p : live s p = 1%nat → undisturbed p s s';
  ro_live p : live s' p = (live s p + owners p (RetryRemove <$> ps))%nat;
  ro_open p : isOpen s' p = isOpen s p;
  ro_fencing : fencingAll s' = fencingAll s;
  ro_each : Forall (retrying s') ps }.

Lemma owners_retry p ps q : p ∈ ps → q = p → (1 <= owners q (RetryRemove <$> ps))%nat.
Proof.
  intros Hin ->. assert (RetryRemove p ∈ RetryRemove <$> ps) as Hin' by (apply list_elem_of_fmap; eauto).
  pose proof (total_in (λ t, isPointer p (ownerOf t)) _ _ Hin') as Hle. cbn [ownerOf] in Hle.
  by rewrite isPointer_some in Hle.
Qed.

Lemma calm_reopens s s' : serverOk disk s → calm disk s s' → reopens s s' [].
Proof.
  intros Hok Hc. split; [by apply Hc|by apply Hc|by apply Hc|..].
  - intros p _. by apply Hc.
  - intros p. rewrite (cm_live _ _ _ _ Hc). cbn. lia.
  - exact (cm_open _ _ _ _ Hc).
  - exact (cm_fencing _ _ _ _ Hc).
  - by apply list.Forall_nil.
Qed.
Lemma one_reopens s p x :
  serverOk disk s → heap s !! p = Some x → process.exited x = true → retryable x = true →
  reopens s (reopenProcess p s) [p].
Proof.
  intros Hok Hx He Hr.
  destruct (reopen_step disk s p x Hok Hx He Hr) as (A & B & C & D & E & F & G & _ & I & J & _).
  split; try done.
  - intros q. rewrite E. unfold owners. cbn [fmap list_fmap]. rewrite total_cons. cbn [ownerOf].
    destruct (decide (q = p)) as [->|Hne].
    + rewrite isPointer_some. unfold live. by rewrite Hx, He.
    + rewrite isPointer_other by done. cbn. lia.
  - apply list.Forall_singleton. split_and!; [|done|done]. by apply (known_evolves s); [|exists x].
Qed.
Lemma reopens_trans s s1 s2 l1 l2 : reopens s s1 l1 → reopens s1 s2 l2 → reopens s s2 (l1 ++ l2).
Proof.
  intros [A1 B1 C1 D1 E1 F1 G1 I1] [A2 B2 C2 D2 E2 F2 G2 I2].
  assert (∀ p, live s p = 1%nat → live s1 p = 1%nat) as Hl.
  { intros p Hp. pose proof (E1 p). pose proof (live_le s1 p). lia. }
  split; [done|by etrans|auto| |..].
  - intros p Hp. etrans; [by apply D1|by apply D2, Hl].
  - intros p. rewrite E2, E1, fmap_app. unfold owners. rewrite total_app. lia.
  - intros p. by rewrite F2.
  - by rewrite G2.
  - apply list.Forall_app. split; [|done]. apply list.Forall_forall. intros p Hp.
    pose proof (proj1 (list.Forall_forall _ _) I1 _ Hp) as (Hk & Ht & Hid).
    assert (live s1 p = 1%nat) as Hl1.
    { pose proof (E1 p). pose proof (live_le s1 p). pose proof (owners_retry p l1 p Hp eq_refl). lia. }
    pose proof (D2 _ Hl1) as Hu. split_and!.
    + by apply (known_evolves s1).
    + intros Hin. by apply Ht, (ud_terminated _ _ _ Hu).
    + by rewrite (container_undisturbed _ _ _ Hu Hl1).
Qed.

Lemma retry_threads ps p : tokens p (RetryRemove <$> ps) = 0%nat ∧ stopping (RetryRemove <$> ps) = 0%nat.
Proof. induction ps; [done|]. unfold tokens, stopping in *. cbn [fmap list_fmap]. by rewrite !total_cons. Qed.

(** A handler that took up the removals [ps] and goes on as [t']. *)
Lemma reopens_good s t s' ps l l' :
  ready disk s t → reopens s s' ps → ownerOf t = None →
  l ≡ₚ l' ++ (RetryRemove <$> ps) → (∀ p, owners p l' = 0%nat) → (∀ p, tokens p l' = isPointer p (tokenOf t)) →
  stopping l' = one (stopsAll t) → Forall (threadOk s') l' → good disk s t (Some (s', l)).
Proof.
  intros Hr [A B C D E F G I] Ho Hperm Hlo Hlt Hls Hl'.
  assert (∀ f, total f l = (total f l' + total f (RetryRemove <$> ps))%nat) as Htot.
  { intros f. rewrite <- total_app. by apply sum_list_with_Permutation_proper. }
  apply good_some. split; try done.
  - intros p x Hx Hx'. rewrite (C _ Hx) in Hx'. done.
  - intros p _. apply D.
  - intros p. unfold owners. rewrite Htot, E, Ho, isPointer_none. unfold owners in Hlo. rewrite Hlo.
    unfold owners. lia.
  - intros p x _ _. unfold tokens. rewrite Htot, F. destruct (retry_threads ps p) as [Hz _].
    unfold tokens in Hz, Hlt. rewrite Hz, Hlt. lia.
  - unfold stopping. rewrite Htot, G. destruct (retry_threads ps 0%nat) as [_ Hz]. unfold stopping in Hz, Hls.
    rewrite Hz, Hls. lia.
  - rewrite Hperm. apply list.Forall_app. split; [done|]. apply list.Forall_fmap.
    eapply list.Forall_impl; [exact I|done].
Qed.

(** ** [stopNode] *)
Definition retriesOf (r : option stopped) : list nat :=
  match r with Some (RetryRemoval p) => [p] | _ => [] end.
Lemma calm_stopping s p t : live s p = 1%nat → calm disk s (modify p (markStopping t) s).
Proof. intros Hl. apply calm_live; [done|]. intros x. apply touch_stopping. Qed.

Lemma stopNode_reopens t id s :
  serverOk disk s →
  reopens s (stopNode t id s).2 (retriesOf (stopNode t id s).1) ∧
  (∀ p, (stopNode t id s).1 = Some (CancelContext p) → known (stopNode t id s).2 p).
Proof.
  intros Hok. unfold stopNode. destruct (processes s !! id) as [p|] eqn:Hp;
    [|by split; [apply calm_reopens|]].
  pose proof (known_table _ _ _ _ Hok Hp) as Hk. pose proof (proc_known _ _ Hk) as Hx.
  destruct (process.exited (proc s p)) eqn:He.
  - destruct (retryable _) eqn:Hr.
    + split; [by eapply one_reopens|done].
    + by split; [apply calm_reopens|].
  - assert (calm disk s (modify p (markStopping t) s)) as Hc.
    { apply calm_stopping. unfold live. by rewrite Hx, He. }
    split; [by apply calm_reopens|]. cbn. intros q [= <-].
    apply (known_evolves s); [by apply Hc|done].
Qed.

Lemma good_stop s t i id (next : option stopped → list thread) :
  ready disk s t → ownerOf t = None →
  (∀ r s', (∀ p, r = Some (CancelContext p) → known s' p) → (evolves s s') → ∃ l',
     next r ≡ₚ l' ++ (RetryRemove <$> retriesOf r) ∧ (∀ p, owners p l' = 0%nat) ∧
     (∀ p, tokens p l' = isPointer p (tokenOf t)) ∧ stopping l' = one (stopsAll t) ∧ Forall (threadOk s') l') →
  good disk s t (let '(r, s') := stopNode (now i) id s in Some (s', next r)).
Proof.
  intros Hr Ho Hnext. destruct (stopNode_reopens (now i) id s (rd_ok _ _ _ Hr)) as [Hre Hk].
  destruct (stopNode (now i) id s) as [r s']. cbn in *.
  destruct (Hnext r s' Hk (ro_ev _ _ _ Hre)) as (l' & Hp & Hlo & Hlt & Hls & Hth).
  by eapply reopens_good.
Qed.

Definition afterStop (r : option stopped) : list thread :=
  match r with
  | Some (RetryRemoval p) => [RetryRemove p]
  | Some (CancelContext p) => [Cancel p]
  | _ => []
  end.
Lemma stopOne_ok s t i id :
  ready disk s t → ownerOf t = None → tokenOf t = None → stopsAll t = false →
  good disk s t (stopOne i id s).
Proof.
  intros Hr Ho Ht Hs.
  assert (stopOne i id s = let '(r, s') := stopNode (now i) id s in Some (s', afterStop r)) as ->.
  { unfold stopOne. destruct (stopNode (now i) id s) as [r s']. by destruct r as [[]|]. }
  apply good_stop; [done|done|]. intros r s' Hk _. rewrite Ht, Hs.
  destruct r as [[|p|p]|]; (exists []; by split_and!; [..|apply list.Forall_nil]) || idtac.
  exists [Cancel p]. split_and!; try done. by apply list.Forall_singleton, Hk.
Qed.

Lemma lifetimeStop_ok s i p id :
  ready disk s (Lifetime p id) → good disk s (Lifetime p id) (lifetimeStop i p id s).
Proof. intros Hr. unfold lifetimeStop. destruct (process.cancelled _); [by_stopping|by apply stopOne_ok]. Qed.

(** ** [stopAll]: one node after another *)
Definition afterEach (w : waiter) (ids : list string) (r : option stopped) : list thread :=
  match r with
  | Some (RetryRemoval p) => [StopEach w ids; RetryRemove p]
  | Some (CancelContext p) => [StopEachCancel w p ids]
  | _ => [StopEach w ids]
  end.
Lemma waiter_evolves s s' w : evolves s s' → waiterOk s w → waiterOk s' w.
Proof. intros He. destruct w; [by apply log_evolves|done..]. Qed.
Lemma stopEach_ok s i w ids :
  ready disk s (StopEach w ids) → good disk s (StopEach w ids) (stopEach i w ids s).
Proof.
  intros Hr. pose proof (rd_thread _ _ _ Hr) as Hw. cbn in Hw. destruct ids as [|id ids].
  { cbn. apply reads; [done|by destruct w..]. }
  assert (stopEach i w (id :: ids) s = let '(r, s') := stopNode (now i) id s in Some (s', afterEach w ids r)) as ->.
  { unfold stopEach. destruct (stopNode (now i) id s) as [r s']. by destruct r as [[]|]. }
  apply good_stop; [done|done|]. intros r s' Hk He. pose proof (waiter_evolves _ _ _ He Hw) as Hw'.
  assert (∀ t', ownerOf t' = None → tokenOf t' = None → stopsAll t' = stopsAll (StopEach w ids) →
    threadOk s' t' → (∀ p, owners p [t'] = 0%nat) ∧ (∀ p, tokens p [t'] = isPointer p None) ∧
    stopping [t'] = one (stopsAll (StopEach w ids)) ∧ Forall (threadOk s') [t']) as Hone.
  { intros t' E1 E2 E3 E4. split_and!.
    - intros p. unfold owners. by rewrite total_cons, E1.
    - intros p. unfold tokens. by rewrite total_cons, E2.
    - unfold stopping. rewrite total_cons, E3. cbn. lia.
    - by apply list.Forall_singleton. }
  destruct r as [[|p|p]|]; cbn [afterEach retriesOf fmap list_fmap].
  - exists [StopEach w ids]. split; [done|]. by apply Hone.
  - exists [StopEach w ids]. split; [done|]. by apply Hone.
  - exists [StopEachCancel w p ids]. split; [done|]. apply Hone; [done..|]. split; [by apply Hk|done].
  - exists [StopEach w ids]. split; [done|]. by apply Hone.
Qed.

(** ** [stopRunGeneration] *)
Definition retries (todo : list stopped) : list nat :=
  omap (λ x, match x with RetryRemoval p => Some p | _ => None end) todo.
Lemma spawned_retries todo : spawned todo = RetryRemove <$> retries todo.
Proof. induction todo as [|[] todo IH]; cbn in *; [done|done|by f_equal|done]. Qed.
Lemma retries_app a b : retries (a ++ b) = retries a ++ retries b.
Proof. apply omap_app. Qed.
Lemma toCancel_app a b : toCancel (a ++ b) = toCancel a ++ toCancel b.
Proof. apply omap_app. Qed.

Lemma stopMatching_reopens t run fence s0 todo s p :
  known s0 p → reopens s0 s (retries todo) → Forall (known s) (toCancel todo) →
  let '(todo', s') := stopMatching t run fence (todo, s) p in
  reopens s0 s' (retries todo') ∧ Forall (known s') (toCancel todo') ∧ (∀ e, e ∈ log s → e ∈ log s').
Proof.
  intros Hk0 Hre Hc. pose proof (ro_ok _ _ _ Hre) as Hok.
  pose proof (known_evolves _ _ _ (ro_ev _ _ _ Hre) Hk0) as Hk. pose proof (proc_known _ _ Hk) as Hx.
  unfold stopMatching. destruct (_ || _); [done|]. destruct (process.exited (proc s p)) eqn:He.
  - destruct (retryable (proc s p)) eqn:Hr; [|done].
    pose proof (one_reopens _ _ _ Hok Hx He Hr) as H1. rewrite retries_app, toCancel_app. split_and!.
    + by eapply reopens_trans.
    + apply list.Forall_app. split; [|by apply list.Forall_nil]. eapply list.Forall_impl; [exact Hc|].
      intros q. by apply known_evolves, H1.
    + intros e. by apply log_evolves, H1.
  - destruct (_ && _); [done|]. rewrite retries_app, toCancel_app.
    assert (calm disk s (modify p (markStopping t) s)) as Hcalm.
    { apply calm_stopping. unfold live. by rewrite Hx, He. }
    pose proof (calm_reopens _ _ Hok Hcalm) as H1. split_and!.
    + by eapply reopens_trans.
    + apply list.Forall_app. split; [eapply list.Forall_impl; [exact Hc|]; intros q; by apply known_evolves, H1|].
      apply list.Forall_singleton. by apply (known_evolves s); [apply H1|].
    + intros e. by apply log_evolves, H1.
Qed.
Lemma stopMatchings_reopens t run fence s0 ps todo s :
  Forall (known s0) ps → reopens s0 s (retries todo) → Forall (known s) (toCancel todo) →
  let '(todo', s') := foldl (stopMatching t run fence) (todo, s) ps in
  reopens s0 s' (retries todo') ∧ Forall (known s') (toCancel todo') ∧ (∀ e, e ∈ log s → e ∈ log s').
Proof.
  intros Hps. revert todo s. induction ps as [|p ps IH]; intros todo s Hre Hc; [done|].
  apply list.Forall_cons in Hps as [Hp Hps]. cbn [foldl].
  pose proof (stopMatching_reopens t run fence s0 todo s p Hp Hre Hc) as H1.
  destruct (stopMatching t run fence (todo, s) p) as [todo1 s1]. destruct H1 as (Hre1 & Hc1 & Hlog1).
  specialize (IH Hps todo1 s1 Hre1 Hc1). destruct (foldl _ _ _) as [todo2 s2].
  destruct IH as (? & ? & ?). auto.
Qed.

(** The fence of a run, raised. *)
Lemma calm_raised run generation s :
  generation <= MaxUint64 →
  let '(fence, s') :=
    match runFences s !! run with
    | Some fence =>
        if fence <? generation
        then (generation, withHistory (<[run := generation]> (runFences s)) (S (historyRevision s)) s)
        else (fence, s)
    | None => (generation, withHistory (<[run := generation]> (runFences s)) (S (historyRevision s)) s)
    end in
  calm disk s s' ∧ ∃ f, runFences s' !! run = Some f ∧ generation <= f.
Proof.
  intros Hmax.
  assert ((∀ f0, runFences s !! run = Some f0 → f0 <= generation) →
    calm disk s (withHistory (<[run := generation]> (runFences s)) (S (historyRevision s)) s) ∧
    ∃ f, runFences (withHistory (<[run := generation]> (runFences s)) (S (historyRevision s)) s) !! run = Some f ∧
      generation <= f) as Hraise.
  { intros Hf. split; [apply calm_raise; [done|done|lia]|]. exists generation. cbn. by rewrite lookup_insert_eq. }
  destruct (runFences s !! run) as [f|] eqn:Hf; [|by apply Hraise].
  destruct (Z.ltb_spec f generation).
  - apply Hraise. intros ? [= <-]. lia.
  - split; [reflexivity|]. exists f. split; [done|lia].
Qed.

Lemma stopRun_ok s i run generation :
  ready disk s (StopRun run generation) → good disk s (StopRun run generation) (stopRun i run generation s).
Proof.
  intros Hr. pose proof (rd_thread _ _ _ Hr) as Hg. cbn in Hg. pose proof (rd_ok _ _ _ Hr) as Hok.
  unfold stopRun, stopRunGeneration. apply andb_prop in Hg as [_ Hg%Z.leb_le].
  pose proof (calm_raised run generation s Hg) as Hc. destruct (match _ with Some _ => _ | None => _ end) as [fence s1].
  destruct Hc as [Hc Hf].
  assert (calm disk s (record [Fenced run generation] s1)) as Hc1.
  { etrans; [exact Hc|]. apply calm_event. by left. }
  set (s2 := record _ s1) in *.
  assert (Fenced run generation ∈ log s2) as Hin.
  { cbn. apply elem_of_app. right. by apply list_elem_of_singleton. }
  pose proof (calm_reopens _ _ Hok Hc1) as Hre. pose proof (ro_ok _ _ _ Hre) as Hok2.
  assert (Forall (known s2) (table s2)) as Ht.
  { apply list.Forall_forall. intros p. by apply (known_in_table disk). }
  assert (reopens s2 s2 (retries [])) as Hre2 by by apply calm_reopens.
  assert (Forall (known s2) (toCancel [])) as Hnil by by apply list.Forall_nil.
  pose proof (stopMatchings_reopens (now i) run fence s2 (table s2) [] s2 Ht Hre2 Hnil) as H1.
  destruct (foldl _ _ _) as [todo s']. destruct H1 as (Hre' & Hk & Hlog).
  eapply (reopens_good _ _ _ (retries todo) _ [StopRunCancel (toCancel todo) run generation]).
  - done.
  - exact (reopens_trans _ _ _ _ _ Hre Hre').
  - done.
  - rewrite spawned_retries. done.
  - done.
  - done.
  - done.
  - apply list.Forall_singleton. cbn. auto.
Qed.

(** ** Waiting until the processes are removed *)
Lemma in_pending s p x :
  serverOk disk s → heap s !! p = Some x → ¬ AgentInv.finished x → p ∈ table s.
Proof.
  intros Hok Hx Hnf. apply list_elem_of_fmap. exists (Node.ID (process.node x), p). split; [done|].
  apply elem_of_map_to_list. destruct (po_table _ _ _ (so_proc _ _ Hok _ _ Hx)) as [?|[Hr _]]; [done|].
  destruct Hnf. unfold retirable, processCleanupComplete in Hr. apply andb_prop in Hr as [_ Hr].
  apply andb_prop in Hr as [Hr _]. apply andb_prop in Hr as [He Hc].
  split; [done|]. by apply bool_decide_eq_true in Hc.
Qed.

Lemma waitBegin_ok s w : ready disk s (WaitBegin w) → good disk s (WaitBegin w) (waitBegin w s).
Proof.
  intros Hr. pose proof (rd_thread _ _ _ Hr) as Hw. pose proof (rd_ok _ _ _ Hr) as Hok. cbn in Hw.
  unfold waitBegin. apply reads; [done|done|done|by destruct w|]. split_and!; [done|..].
  - apply list.Forall_forall. intros p Hp. apply (known_in_table disk); [done|].
    destruct w; [|done..]. by apply list_elem_of_filter in Hp as [_ Hp].
  - intros _ _ p x Hx Hsc Hnf. pose proof (in_pending _ _ _ Hok Hx Hnf) as Hin. destruct w; [|done..].
    apply list_elem_of_filter. by rewrite (proc_heap _ _ _ Hx).
Qed.

(** Nothing is pending any more. *)
Lemma all_finished s w p id run g :
  serverOk disk s → pendingOk s w [] false → w ≠ ForShutdown → Admission p id run g ∈ log s →
  match w with ForRun run' g' => run = run' ∧ g <= g' | _ => True end → fin s p.
Proof.
  intros Hok (_ & _ & Hp) Hw Ha Hsc. destruct (so_admitted _ _ Hok _ _ _ _ Ha) as (x & Hx & [= E1 E2 E3]).
  destruct (occupies x) eqn:Ho; [|exists x; split; [done|by apply occupies_finished]].
  assert (¬ AgentInv.finished x) as Hnf by (rewrite <- occupies_finished; congruence).
  specialize (Hp eq_refl Hw p x Hx). assert (inScope w x) as Hsc'.
  { destruct w; [|done..]. cbn. by rewrite E2, E3. }
  by apply elem_of_nil in Hp.
Qed.

Lemma waitEnd_ok s t w pending failed :
  ready disk s t → ownerOf t = None → tokenOf t = None → stopsAll t = stopsAll (WaitFor w pending failed) →
  pendingOk s w pending failed → (failed = false → pending = []) → good disk s t (waitEnd w failed s).
Proof.
  intros Hr Ho Ht Hs Hp Hnil. unfold waitEnd.
  assert (failed = false → pendingOk s w [] false) as Hp' by (intros E; rewrite (Hnil E), E in Hp; done).
  destruct w as [run g| |].
  - apply ends_calm; try done. destruct failed; [reflexivity|]. apply calm_event. cbn. intros Hok.
    specialize (Hp' eq_refl). split; [by apply Hp'|]. intros p id g' Ha Hle.
    eapply (all_finished s (ForRun run g)); [done..|]. done.
  - apply goes_calm; try done. destruct failed; [reflexivity|]. apply calm_event. cbn. intros Hok p id run g Ha.
    by eapply (all_finished s ForAll); [..|apply Hp'| |exact Ha|].
  - by apply stops.
Qed.

Lemma waitFor_ok s w pending failed :
  let t := WaitFor w pending failed in ready disk s t → good disk s t (waitFor w pending failed s).
Proof.
  intros t Hr. pose proof (rd_thread _ _ _ Hr) as Hp. unfold waitFor. destruct pending as [|p rest].
  { by eapply waitEnd_ok. }
  pose proof Hp as (Hw & Hk & Hall). apply list.Forall_cons in Hk as [Hkp Hk].
  pose proof (proc_known _ _ Hkp) as Hx. unfold waitRound.
  assert (∀ b, (b = false → AgentInv.finished (proc s p)) → pendingOk s w rest (failed || b)) as Hrest.
  { intros b Hb. split_and!; [done|done|]. intros Hfb Hw' q x Hq Hsc Hnf.
    apply orb_false_elim in Hfb as [Hf Hb']. specialize (Hall Hf Hw' q x Hq Hsc Hnf).
    apply elem_of_cons in Hall as [->|?]; [|done]. destruct Hnf.
    assert (x = proc s p) as -> by congruence. by apply Hb. }
  destruct (process.exited (proc s p)) eqn:He.
  - apply reads; [done|done|done|by destruct w|]. apply Hrest. rewrite negb_false_iff, bool_decide_eq_true.
    by split.
  - destruct (process.done (proc s p)) as [c|] eqn:Hd.
    + apply reads; [done|done|done|by destruct w|]. split; [done|]. right. by exists p, rest, (proc s p).
    + apply reads; [done|done|done|by destruct w|]. by apply Hrest.
Qed.

Lemma waitOn_ok s i w c pending failed :
  let t := WaitOn w c pending failed in ready disk s t → good disk s t (waitOn i w c pending failed s).
Proof.
  intros t Hr. pose proof (rd_thread _ _ _ Hr) as [Hp _]. unfold waitOn. destruct (ctxDone i).
  - apply (waitEnd_ok _ _ _ pending true); [done|done|done|by destruct w| |done].
    destruct Hp as (? & ? & _). by split_and!.
  - case_bool_decide; [|apply good_none]. apply reads; [done|done|done|by destruct w|done].
Qed.

(** ** The handler that stops all Peers *)
Lemma fencing_step s b :
  serverOk disk s →
  let s' := bump (withFlags (shuttingDown s) b (rebootPending s) (capacityLimit s) s) in
  serverOk disk s' ∧ evolves s s' ∧ ∀ p, undisturbed p s s'.
Proof.
  intros [A B C D E F G I J K L M N O P]. split_and!.
  - split; auto. intros p x Hx. apply (processOk_frame s); auto.
  - split; cbn; auto.
    + intros p x Hx. exists x. by split.
    + by exists []; rewrite app_nil_r.
    + eauto.
    + intros r f Hf. exists f. split; [done|lia].
    + lia.
  - intros p. split; cbn; eauto 10.
Qed.
Lemma stopAllStart_ok s : ready disk s StopAll → good disk s StopAll (stopAllStart s).
Proof.
  intros Hr. unfold stopAllStart. destruct (fencingAll s) eqn:Hf; [by_stopping|]. apply good_some.
  destruct (fencing_step s true (rd_ok _ _ _ Hr)) as (A & B & C). split; try done.
  - intros p x Hx Hx'. cbn in Hx'. congruence.
  - cbn. by rewrite Hf.
  - by apply list.Forall_singleton.
Qed.
Lemma stopAllEnd_ok s : ready disk s StopAllEnd → good disk s StopAllEnd (stopAllEnd s).
Proof.
  intros Hr. unfold stopAllEnd. apply good_some. pose proof (rd_fencing _ _ _ Hr eq_refl) as Hf.
  destruct (fencing_step s false (rd_ok _ _ _ Hr)) as (A & B & C). split; try done.
  - intros p x Hx Hx'. cbn in Hx'. congruence.
  - cbn. by rewrite Hf.
Qed.

Definition raiseAll (f : gmap string Z) (ids : list string) : gmap string Z :=
  foldl (λ f id, <[id := MaxUint64]> f) f ids.
Lemma raiseAll_mono ids f r x : f !! r = Some x → x <= MaxUint64 → ∃ y, raiseAll f ids !! r = Some y ∧ x <= y.
Proof.
  revert f x. induction ids as [|id ids IH]; intros f x Hx Hle; [by exists x|]. cbn.
  destruct (decide (r = id)) as [->|Hne].
  - destruct (IH (<[id:=MaxUint64]> f) MaxUint64) as (y & ? & ?); [apply lookup_insert_eq|lia|].
    exists y. split; [done|lia].
  - apply IH; [by rewrite lookup_insert_ne|done].
Qed.
Lemma raiseAll_in ids f id : id ∈ ids → ∃ y, raiseAll f ids !! id = Some y ∧ MaxUint64 <= y.
Proof.
  revert f. induction ids as [|i ids IH]; intros f; [by intros ?%elem_of_nil|].
  intros [->|?]%elem_of_cons; [|by apply IH]. cbn. apply raiseAll_mono; [apply lookup_insert_eq|lia].
Qed.
Lemma calm_raiseAll s ids :
  serverOk disk s → calm disk s (withHistory (raiseAll (runFences s) ids) (historyRevision s) s).
Proof.
  revert s. induction ids as [|id ids IH]; intros s Hok; [by apply calm_frame|].
  pose proof (calm_raise disk id MaxUint64 s (historyRevision s) (Z.le_refl _) (so_max _ _ Hok id) (le_n _)) as Hc.
  etrans; [exact Hc|]. exact (IH _ (cm_ok _ _ _ _ Hc Hok)).
Qed.
Lemma stopAllFence_ok s :
  ready disk s StopAllFence → good disk s StopAllFence (goes (fenceTable s) (StopTargets ForAll)).
Proof.
  intros Hr. by_going; [|done]. unfold fenceTable. cbv zeta. set (ids := _ <$> table s).
  pose proof (calm_raiseAll s ids (rd_ok _ _ _ Hr)) as Hc. etrans; [exact Hc|]. apply calm_records.
  apply list.Forall_fmap, list.Forall_forall. intros id Hid. exact (raiseAll_in ids (runFences s) id Hid).
Qed.

Lemma fenceRetired_ok s : ready disk s FenceRetired → good disk s FenceRetired (fenceRetired s).
Proof.
  intros Hr. unfold fenceRetired. destruct (historyMu s); [apply good_none|]. by_going; [|done].
  by apply calm_same.
Qed.
Lemma fenceFiles_ok s i ids : ready disk s (FenceFiles ids) → good disk s (FenceFiles ids) (fenceFiles i ids s).
Proof.
  intros Hr. pose proof (rd_fencing _ _ _ Hr eq_refl) as Hfa. unfold fenceFiles.
  destruct ids as [|id ids]; [by_going; [by apply calm_same|done]|].
  destruct (ioErr i); [by_going; [by apply calm_same|done]|]. by_going; [|done].
  etrans; [apply calm_saveFence|]. apply calm_event. right.
  destruct (saveFence_fields id MaxUint64 s) as (_ & Hf & _).
  destruct (saveFence_fences id MaxUint64 s) as (f & ? & ? & _). split; [congruence|eauto].
Qed.
End stops.
