(* ===== verification/AgentReach.v ===== *)
(** * Every reachable Agent keeps the invariant

    The steps of retirement, of heartbeats and of the single critical sections;
    then [advance_ok], every step of every thread, and [reachable_ok].  The second part
    does the same for the experiment network and the stops: [advance_more] and
    [reachable_more]. *)
From Stdlib Require Import ZArith Lia.
From stdpp Require Import strings list gmap sorting.
From S2P Require Import Prelude.
From S2P Require Import GoStd.
From S2P Require Import Distribution.
From S2P Require Import Network.
From S2P Require Import Attacks.
From S2P Require Import PeerScore.
From S2P Require Import GossipSubConfig.
From S2P Require Import NodeConfig.
From S2P Require Import AgentModel.
From S2P Require Import Inventory.
From S2P Require Import AgentPrepare.
From S2P Require Import AgentProcess.
From S2P Require Import AgentStatus.
From S2P Require Import AgentServer.
From S2P Require Import AgentThreads.
From S2P Require Import AgentInv.
From S2P Require Import AgentCalm.
From S2P Require Import AgentWorld.
From S2P Require Import AgentAdmission.
From S2P Require Import AgentStops.
Open Scope Z_scope.

Section reach.
Context (disk : gmap string Node.t).
Context `{PeerCodec} `{CIDRs} `{PubSubLib} (ParseFloat : string → option float).
Context {R : Type} `{DistRand R} `{MathFns} (newSource : Z → R).
Context `{Encoding} `{StatusCodec}.

(** ** Retirement *)
Lemma cleanup_finished x : processCleanupComplete x = true → AgentInv.finished x.
Proof.
  unfold processCleanupComplete. intros [[He Hc%bool_decide_eq_true]%andb_prop _]%andb_prop. by split.
Qed.
Lemma candidates_fin s : serverOk disk s → Forall (fin s) (retireCandidates s).
Proof.
  intros Hok. apply list.Forall_forall. intros p Hp. unfold retireCandidates in Hp.
  rewrite merge_sort_Permutation in Hp. apply list_elem_of_filter in Hp as [Hr Hp].
  exists (proc s p). split; [by apply proc_known, (known_in_table disk)|].
  apply andb_prop in Hr as [_ Hr]. by apply cleanup_finished.
Qed.
Lemma reclaimScan_ok s : ready disk s ReclaimScan → good disk s ReclaimScan (reclaimScan s).
Proof.
  intros Hr. pose proof (candidates_fin s (rd_ok _ _ _ Hr)). unfold reclaimScan. by by_reading.
Qed.
Lemma reclaimConfig_ok i s candidates todo fenced cleaned :
  let t := ReclaimConfig candidates todo fenced cleaned in
  ready disk s t → good disk s t (reclaimConfig i candidates todo fenced cleaned s).
Proof.
  intros t Hr. pose proof (rd_thread _ _ _ Hr) as [Hc Ht]. unfold reclaimConfig, t.
  destruct todo as [|p todo]; [by by_reading|]. apply list.Forall_cons in Ht as [Hp Ht].
  destruct (empty _); [by by_reading|]. destruct (_ <=? _)%nat; [by by_reading|].
  destruct (ioErr i); by by_reading.
Qed.
Lemma reclaimConfigDone_ok s p path candidates todo fenced cleaned :
  let t := ReclaimConfigDone p path candidates todo fenced cleaned in
  ready disk s t → good disk s t (reclaimConfigDone p path candidates todo fenced cleaned s).
Proof.
  intros t Hr. pose proof (rd_thread _ _ _ Hr) as (Hp & Hc & Ht). unfold reclaimConfigDone, t.
  by_going; [|done]. case_bool_decide; [|reflexivity]. apply calm_modify; [|auto with touch|done].
  destruct Hp as (x & ? & _). by exists x.
Qed.
Lemma reclaimRead_ok s candidates fenced :
  let t := ReclaimRead candidates fenced in
  ready disk s t → good disk s t (reclaimRead candidates fenced s).
Proof.
  intros t Hr. pose proof (rd_thread _ _ _ Hr) as Hc. unfold reclaimRead, t. by_reading. cbn.
  apply list.Forall_fmap, list.Forall_forall. intros p Hp.
  assert (p ∈ candidates) as Hin by (rewrite <- (take_drop (retireCount (length candidates)) candidates); set_solver).
  destruct (proj1 (list.Forall_forall _ _) Hc _ Hin) as (x & Hx & Hf). exists x. cbn.
  by rewrite (proc_heap _ _ _ Hx).
Qed.
Lemma reclaimSave_ok i s nodes fenced :
  let t := ReclaimSave nodes fenced in ready disk s t → good disk s t (reclaimSave i nodes fenced s).
Proof.
  intros t Hr. pose proof (rd_thread _ _ _ Hr) as Hc. unfold reclaimSave, t.
  destruct (ioErr i); (by_going; [by apply calm_same|done]).
Qed.
Lemma reclaimCommit_ok i s nodes fenced :
  let t := ReclaimCommit nodes fenced in ready disk s t → good disk s t (reclaimCommit i nodes fenced s).
Proof.
  intros t Hr. pose proof (rd_thread _ _ _ Hr) as Hc. unfold reclaimCommit, t.
  destruct (ioErr i); [by by_reading|]. destruct (forallb _ _); [|by by_reading].
  pose proof (rd_ok _ _ _ Hr) as Hok. pose proof (calm_commits disk nodes s Hok Hc) as Hcalm.
  apply good_some, step_goes; [done|by apply calm_but|done..|]. split.
  - eapply list.Forall_impl; [exact Hc|]. intros np. by apply retired_evolves, Hcalm.
  - apply list.Forall_forall. intros np. apply commit_stored.
Qed.
Lemma reclaimDrop_ok s nodes fenced :
  let t := ReclaimDrop nodes fenced in ready disk s t → good disk s t (reclaimDrop nodes fenced s).
Proof.
  intros t Hr. pose proof (rd_thread _ _ _ Hr) as [Hc Hs]. unfold reclaimDrop, t. by_going; [|done].
  by apply calm_drops; [apply Hr|..].
Qed.
Lemma reclaimFences_ok i s todo :
  ready disk s (ReclaimFences todo) → good disk s (ReclaimFences todo) (reclaimFences i todo s).
Proof.
  intros Hr. unfold reclaimFences. destruct todo as [|[run g] todo]; [by by_reading|].
  destruct (ioErr i); [by by_reading|].
  apply good_some, step_goes; [apply Hr|apply calm_but, calm_saveFence|done..|].
  destruct (saveFence_fences run g s) as (f & ? & ? & _). by exists f.
Qed.

(** ** Heartbeats *)
Lemma calm_acknowledge s n : serverOk disk s → Delivered n ∈ log s → calm disk s (acknowledge s n).
Proof.
  intros Hok Hd. unfold acknowledge. destruct (processes s !! Node.ID n) as [p|] eqn:Hp; [|reflexivity].
  cbv zeta. destruct (so_ids _ _ Hok _ _ Hp) as (x & Hx & Hid). rewrite (proc_heap _ _ _ Hx).
  unfold modify. rewrite (proc_heap _ _ _ Hx).
  destruct (_ && _) eqn:E; [|reflexivity]. apply andb_prop in E as [E Hc]. apply andb_prop in E as [Hs _].
  apply bool_decide_eq_true in Hs. apply (calm_ack disk s p x true Hx); [|done]. intros _. split; [done|].
  by exists n.
Qed.
Lemma calm_acknowledges batch s :
  serverOk disk s → (∀ n, n ∈ batch → Delivered n ∈ log s) → calm disk s (foldl acknowledge s batch).
Proof.
  revert s. induction batch as [|n batch IH]; intros s Hok Hd; [reflexivity|]. cbn.
  assert (calm disk s (acknowledge s n)) as Hc by (apply calm_acknowledge; [done|]; apply Hd; set_solver).
  etrans; [exact Hc|]. apply IH; [by apply Hc|]. intros m Hm.
  apply (log_evolves s); [by apply Hc|]. apply Hd. set_solver.
Qed.
Lemma heartbeatSend_ok i s nodes :
  ready disk s (HeartbeatSend nodes) → good disk s (HeartbeatSend nodes) (heartbeatSend i nodes s).
Proof.
  intros Hr. unfold heartbeatSend. destruct (ioErr i); [by_ending; by apply calm_same|].
  apply good_some, step_goes; [apply Hr| |done..|].
  - apply calm_but, calm_records, list.Forall_fmap, list.Forall_forall. done.
  - cbn. intros n Hn. apply elem_of_app. right. by apply list_elem_of_fmap_2.
Qed.
Lemma heartbeatAck_ok s batch rest :
  let t := HeartbeatAck batch rest in ready disk s t → good disk s t (heartbeatAck batch rest s).
Proof.
  intros t Hr. pose proof (rd_thread _ _ _ Hr) as Hd. unfold heartbeatAck, t.
  pose proof (calm_acknowledges batch s (rd_ok _ _ _ Hr) Hd) as Hc. cbv zeta.
  destruct (isNil _).
  - by_ending. etrans; [exact Hc|]. by apply calm_same.
  - by by_going.
Qed.

Lemma calm_forgets s0 ps s :
  serverOk disk s → processes s = processes s0 → (∀ p, p ∈ ps → p ∈ table s0) →
  calm disk s (foldl (λ s p, modify p (process.setAcknowledged false) s) s ps).
Proof.
  revert s. induction ps as [|p ps IH]; intros s Hok Hps Hin; [reflexivity|]. cbn.
  assert (p ∈ table s) as Hp by (unfold table; rewrite Hps; apply Hin; set_solver).
  apply list_elem_of_fmap in Hp as ([id q] & -> & Hq). apply elem_of_map_to_list in Hq. cbn in *.
  destruct (so_ids _ _ Hok _ _ Hq) as (x & Hx & Hid).
  assert (calm disk s (modify q (process.setAcknowledged false) s)) as Hc.
  { unfold modify. rewrite (proc_heap _ _ _ Hx). apply (calm_ack disk s q x false Hx); [done|]. intros _. congruence. }
  etrans; [exact Hc|]. apply IH; [by apply Hc|done|]. intros p Hp. apply Hin. set_solver.
Qed.

(** ** Single critical sections *)
Lemma calm_report i s n :
  serverOk disk s →
  calm disk s match processes s !! Node.ID n with
              | Some p => modify p (updateNode ParseFloat (now i) n) s
              | None => s
              end.
Proof.
  intros Hok. destruct (processes s !! Node.ID n) as [p|] eqn:Hp; [|reflexivity].
  apply calm_modify; [by eapply known_table|intros x; apply touch_update|].
  intros He. by rewrite update_exited.
Qed.

Lemma dockerWait_ok i s p id :
  ready disk s (DockerWait p id) → good disk s (DockerWait p id) (dockerWait i p id s).
Proof.
  intros Hr. pose proof (rd_thread _ _ _ Hr) as Ht. unfold dockerWait.
  destruct (waitOver i); [by by_reading|]. destruct (process.cancelled _); [by by_reading|apply good_none].
Qed.

(** ** The experiment network *)
Lemma calm_fenceNetwork s r : calm disk s (fenceExperimentNetwork r s).2.
Proof. unfold fenceExperimentNetwork. repeat (case_match; [reflexivity|]). by apply calm_same. Qed.
Lemma calm_activateNetwork s n : calm disk s (activateExperimentNetwork n s).2.
Proof. unfold activateExperimentNetwork. destruct (_ || _); [reflexivity|]. by apply calm_same. Qed.
Lemma calm_unlocked s s' : calm disk s s' → calm disk s (withNetworkMu false s').
Proof. intros Hc. etrans; [exact Hc|]. by apply calm_same. Qed.

Lemma unlocks_ok s t s' :
  ready disk s t → calm disk s s' → ownerOf t = None → tokenOf t = None → stopsAll t = false →
  good disk s t (unlockNetwork s').
Proof.
  intros Hr Hc Ho Ht Hs. apply good_some, step_ends; [apply Hr| |done..].
  by apply calm_but, calm_unlocked.
Qed.
Lemma handleExperimentNetwork_ok s t next :
  ready disk s t → ownerOf t = None → tokenOf t = None → stopsAll t = false →
  ownerOf next = None → tokenOf next = None → stopsAll next = false → (∀ s, threadOk s next) →
  good disk s t (handleExperimentNetwork next s).
Proof.
  intros Hr Ho Ht Hs No Nt Ns Nok. unfold handleExperimentNetwork. destruct (_ || _).
  - by apply good_some, step_stops; [apply Hr|..].
  - apply good_some, step_goes; [apply Hr|by apply calm_but, calm_same|congruence..|by apply Nok].
Qed.
Lemma fenceSection_ok i s r :
  ready disk s (FenceSection r) → good disk s (FenceSection r) (fenceSection i r s).
Proof.
  intros Hr. unfold fenceSection. destruct (ctxDone i); [by apply unlocks_ok|].
  pose proof (calm_fenceNetwork s r) as Hc. destruct (fenceExperimentNetwork r s) as [[[]|e|] s']; cbn in Hc.
  - by by_going.
  - by apply unlocks_ok.
  - by apply unlocks_ok.
Qed.
Lemma fenceListing_ok i s r :
  ready disk s (FenceListing r) → good disk s (FenceListing r) (fenceListing i r s).
Proof.
  intros Hr. unfold fenceListing. destruct (ioErr i); [by apply unlocks_ok|].
  case_match; [|by apply unlocks_ok]. apply unlocks_ok; [done| |done..]. by apply calm_event.
Qed.
Lemma activateCheck_ok i s n :
  ready disk s (ActivateCheck n) → good disk s (ActivateCheck n) (activateCheck i n s).
Proof. intros Hr. unfold activateCheck. destruct (_ || _); [by apply unlocks_ok|by by_reading]. Qed.

(** ** Every step *)
Lemma advance_ok i s t :
  ready disk s t → good disk s t (advance ParseFloat newSource i t s).
Proof.
  intros Hr. pose proof (rd_thread _ _ _ Hr) as Ht. pose proof (rd_ok _ _ _ Hr) as Hok.
  destruct t; cbn [advance].
  - by apply admitStart_ok.
  - by apply replayLook_ok.
  - by apply replayWait_ok.
  - by apply replayReceipt_ok.
  - by apply admitResolve_ok.
  - destruct (ctxDone i); [by_stopping|]. by by_reading.
  - destruct (ioErr i); [by_stopping|]. destruct Ht as [Hc Hrev]. case_bool_decide as Hst.
    + by apply refused_ok.
    + by_reading. split; [done|]. split; [done|]. intros _. left. by apply eq_None_not_Some.
  - destruct (ioErr i); [by_stopping|]. by_reading. destruct Ht as [Hc Hu]. split_and!; [done|done|].
    by eapply fenceOk_read.
  - by by_reading.
  - by apply admitLock_ok.
  - by apply admitWrite_ok.
  - by apply admitCheck_ok.
  - by apply admitFailed_ok.
  - by apply admitAccepted_ok.
  - by apply admitClose_ok.
  - by apply finish_ok.
  - by apply finishQueue_ok.
  - by apply finished_ok.
  - by apply dockerCreate_ok.
  - by apply dockerCreated_ok.
  - by apply dockerAdmitted_ok.
  - by apply dockerStart_ok.
  - by apply dockerCleanup_ok.
  - by apply dockerLeft_ok.
  - by apply dockerRunning_ok.
  - by apply dockerWait_ok.
  - by apply dockerRemove_ok.
  - by_ending. by apply calm_cancel.
  - by apply lifetimeStop_ok.
  - by apply retryRemove_ok.
  - by apply stopOne_ok.
  - by_ending. by apply calm_cancel.
  - by apply stopRun_ok.
  - destruct Ht as [Hk Hf]. destruct todo as [|p todo]; [by by_reading|].
    apply list.Forall_cons in Hk as [Hp Hk]. by_going; [by apply calm_cancel|done].
  - by apply stopAllStart_ok.
  - by apply stopAllFence_ok.
  - apply reads; [done|done|done|by destruct w|done].
  - by apply stopEach_ok.
  - destruct Ht as [Hk Hw]. apply goes_calm; [done|by apply calm_cancel|done|done|by destruct w|done].
  - by apply fenceRetired_ok.
  - by apply fenceFiles_ok.
  - by apply waitBegin_ok.
  - by apply waitFor_ok.
  - by apply waitOn_ok.
  - by apply stopAllEnd_ok.
  - by_going; [by apply calm_same|done].
  - destruct (historyMu s); [apply good_none|]. by_going; [by apply calm_same|done].
  - by apply reclaimScan_ok.
  - by apply reclaimConfig_ok.
  - by apply reclaimConfigDone_ok.
  - by apply reclaimRead_ok.
  - by apply reclaimSave_ok.
  - by apply reclaimCommit_ok.
  - by apply reclaimDrop_ok.
  - by apply reclaimFences_ok.
  - by_going; [by apply calm_evict|done].
  - by_ending. by apply calm_same.
  - destruct (heartbeatMu s); [apply good_none|]. by_going; [by apply calm_same|done].
  - by by_reading.
  - by apply heartbeatSend_ok.
  - by apply heartbeatAck_ok.
  - destruct (heartbeatMu s); [apply good_none|]. by_going; [by apply calm_same|done].
  - destruct (ioErr i); [by_ending; by apply calm_same|]. by by_reading.
  - by_ending. unfold forgetAcknowledgements.
    assert (calm disk s (foldl (λ s p, modify p (process.setAcknowledged false) s) s (table s))) as Hc
      by by apply (calm_forgets s).
    etrans; [exact Hc|]. by apply calm_same.
  - by_ending. by apply calm_report.
  - by_ending. by apply calm_same.
  - by_ending. destruct (capacity <=? 0); [reflexivity|]. by apply calm_same.
  - by_ending. apply calm_frame; [done..|]. cbn. lia.
  - by apply handleExperimentNetwork_ok.
  - by apply fenceSection_ok.
  - by apply fenceListing_ok.
  - by apply handleExperimentNetwork_ok.
  - by apply activateCheck_ok.
  - destruct (isNil _); [by by_reading|by apply unlocks_ok].
  - apply unlocks_ok; [done|apply calm_activateNetwork|done..].
Qed.

(** ** Every reachable world *)
Lemma arriving_ok s t : incoming t = true → ownerOf t = None ∧ tokenOf t = None ∧ stopsAll t = false ∧ threadOk s t.
Proof. by destruct t. Qed.
Lemma world_arrives w t : worldOk disk w → incoming t = true → worldOk disk (mkWorld (srv w) (t :: threads w)).
Proof.
  intros [A B C D E] Ht. destruct (arriving_ok (srv w) t Ht) as (Ho & Hto & Hs & Hok). split; cbn [srv threads].
  - done.
  - by apply list.Forall_cons.
  - intros p. unfold owners. rewrite total_cons, Ho, isPointer_none. apply C.
  - intros p x Hx Hx'. unfold tokens. rewrite total_cons, Hto, isPointer_none. by eapply D.
  - unfold stopping. rewrite total_cons, Hs. exact E.
Qed.
Lemma step_ok w w' : worldOk disk w → step ParseFloat newSource w w' → worldOk disk w'.
Proof.
  intros Hw Hstep. destruct Hstep as [t w Ht|i l1 t l2 s s' l Hadv].
  - by apply world_arrives.
  - apply (world_step disk s _ t); [done|]. apply advance_ok in Hadv; [done|].
    apply (ready_of disk (mkWorld s (l1 ++ t :: l2))); [done|]. set_solver.
Qed.

(** The log and the fences of an Agent that starts. *)
Lemma initial_log fin (files : gmap string Z) :
  history fin ((λ kv : string * Z, Fenced kv.1 kv.2) <$> map_to_list files).
Proof.
  rewrite <- (app_nil_l (_ <$> _)). apply history_inert; [|constructor].
  by apply list.Forall_fmap, list.Forall_forall.
Qed.
Lemma initial_events files (e : event) :
  e ∈ ((λ kv : string * Z, Fenced kv.1 kv.2) <$> map_to_list files) → ∃ r g, e = Fenced r g ∧ files !! r = Some g.
Proof. intros ([r g] & -> & Hin)%list_elem_of_fmap. apply elem_of_map_to_list in Hin. eauto. Qed.
Lemma start_ok c t index files : worldOk disk (start c t disk index files).
Proof.
  split; [|by apply list.Forall_nil|done|done|done]. split; cbn; try done.
  - intros p id run g (? & ? & ? & _)%initial_events. done.
  - intros r g (r' & g' & [= <- <-] & Hf)%initial_events. exists g. split; [by right|lia].
  - apply initial_log.
  - intros id Hid. split; [done|]. intros ([] & He & ?)%list_elem_of_omap; try done.
    by destruct (initial_events _ _ He) as (? & ? & ? & _).
  - intros p [(? & ? & ? & _)%initial_events|(? & ? & ? & _)%initial_events]; done.
  - intros r n (? & ? & ? & _)%initial_events. done.
  - intros id n Hn. by right.
Qed.
Lemma steps_ok w w' : rtc (step ParseFloat newSource) w w' → worldOk disk w → worldOk disk w'.
Proof. induction 1 as [|x y z Hstep _ IH]; [done|]. intros Hw. by apply IH, (step_ok x). Qed.
Lemma reachable_ok c t index files w :
  reachable ParseFloat newSource c t disk index files w → worldOk disk w.
Proof. intros Hr. by apply (steps_ok _ _ Hr), start_ok. Qed.
End reach.

(** ** The experiment network and the stops
    A second layer of the invariant: who holds [networkMu], what may be running while
    the daemon is asked for a reset, and that every process marked for a stop is
    cancelled. *)
Section more.
Context (disk : gmap string Node.t).
Context `{PeerCodec} `{CIDRs} `{PubSubLib} (ParseFloat : string → option float).
Context {R : Type} `{DistRand R} `{MathFns} (newSource : Z → R).
Context `{Encoding} `{StatusCodec}.

(** *** The state left by one critical section *)
Lemma unmarked_metadata r a : metadata r a !! "stopRequestedAt"%string = None.
Proof.
  unfold metadata. cbv zeta. set (base := list_to_map _).
  assert (base !! "stopRequestedAt"%string = None) as Hb.
  { apply not_elem_of_list_to_map_1. cbn. rewrite !not_elem_of_cons, !elem_of_nil. naive_solver. }
  clearbody base. repeat case_match; by rewrite ?lookup_insert_ne by done.
Qed.
Lemma unmarked_new now r hash a s : ¬ marked (newProcess now r hash a s).
Proof.
  unfold marked, newProcess, metadataAt. cbn [process.node]. intros Hm. apply Hm.
  assert (metadataOf (newNode (Config.ID (config s)) now (networkOf s) r a) !! "stopRequestedAt"%string = None) as Hn.
  { unfold newNode, metadataOf. cbn. pose proof (unmarked_metadata r a).
    destruct (networkOf s); by rewrite ?lookup_insert_ne by done. }
  destruct (empty hash); [by rewrite Hn|].
  change (metadataOf (setMetadata ?m _)) with m. by rewrite !lookup_insert_ne, Hn by done.
Qed.
Lemma around_insert s now r hash a : serverOk disk s → around [] s (insertProcess now r hash a s).2.
Proof.
  intros Hok. rewrite insertProcess_eq. cbn [snd]. apply around_record; [by repeat constructor|].
  split; [done..| |].
  - exists []. cbn. rewrite app_nil_r. auto using list.Forall_nil.
  - intros p. left. unfold proc in *. cbn in *. destruct (decide (p = newPointer hash s)) as [->|Hne];
      [|by rewrite lookup_insert_ne in * by done].
    exfalso. rewrite lookup_insert_eq in *. by eapply unmarked_new.
Qed.
Lemma around_finishBegin s t id p e c : around [] s (finishBegin t id p e c s).2.
Proof. unfold finishBegin. destruct (finishState _ _ _) as [[? ?] ?]. destruct (current _ _ _); cbn [snd]; by_around. Qed.
Lemma around_queue s id t b : around [] s (queueTermination id t b s).
Proof. unfold queueTermination. by_around. Qed.
Lemma around_finishEnd s t u id p c st message : around [] s (finishEnd t u id p c st message s).
Proof.
  unfold finishEnd. cbv zeta. set (s1 := modify p _ s).
  assert (around [] s s1) as Ha by (unfold s1; by_around). clearbody s1.
  set (s2 := if current _ _ _ then _ else _).
  assert (around [] s s2) as Hb.
  { unfold s2. destruct (current _ _ _); [|done]. apply around_modify; [|done].
    etrans; [|apply mild_same; reflexivity]. etrans; [|apply mild_key; discriminate]. auto with mild. }
  clearbody s2. set (s3 := if processCleanupComplete _ then _ else _).
  assert (around [] s s3) as Hc.
  { unfold s3. destruct (processCleanupComplete _); [|done]. apply around_modify; [|done].
    etrans; [|apply mild_same; reflexivity]. etrans; [|apply mild_status]. auto with mild. }
  clearbody s3. by_around; done.
Qed.
Lemma around_saveFence s run g : around [] s (saveFence run g s).
Proof. unfold saveFence. by_around. Qed.
Lemma around_evict s run g : around [] s (evictFence run g s).
Proof. unfold evictFence. by_around. Qed.
Lemma around_drops s nodes : around [] s (foldl dropRetired s nodes).
Proof.
  apply around_fold; [|apply around_refl]. intros s1 [n p]. cbn. destruct (_ && _); [|apply around_refl].
  by apply (around_same _ _ s1); [done..|apply around_refl].
Qed.
Lemma around_acknowledges s batch : around [] s (foldl acknowledge s batch).
Proof.
  apply around_fold; [|apply around_refl]. intros s1 n. unfold acknowledge. cbv zeta. by_around.
Qed.
Lemma around_forgets s : around [] s (forgetAcknowledgements s).
Proof. apply around_fold; [|apply around_refl]. intros s1 p. by_around. Qed.
Lemma around_reopen s p : around [] s (reopenProcess p s).
Proof. unfold reopenProcess. cbn. by_around. Qed.

(** *** Stops *)
Lemma around_stopNode s t id :
  around match (stopNode t id s).1 with Some (CancelContext p) => [p] | _ => [] end s (stopNode t id s).2.
Proof.
  unfold stopNode. destruct (processes s !! id) as [p|]; [|apply around_refl].
  destruct (process.exited _); [|apply around_mark].
  destruct (retryable _); [apply around_reopen|apply around_refl].
Qed.
Lemma around_stopMatching s0 t run fence todo s p :
  around (toCancel todo) s0 s →
  let '(todo', s') := stopMatching t run fence (todo, s) p in around (toCancel todo') s0 s'.
Proof.
  intros Hs. unfold stopMatching. destruct (_ || _); [done|]. destruct (process.exited _).
  - destruct (retryable _); [|done]. rewrite toCancel_app. by eapply around_trans, around_reopen.
  - destruct (_ && _); [done|]. rewrite toCancel_app. by eapply around_trans, around_mark.
Qed.
Lemma around_stopMatchings s0 t run fence l todo s :
  around (toCancel todo) s0 s →
  let '(todo', s') := foldl (stopMatching t run fence) (todo, s) l in around (toCancel todo') s0 s'.
Proof.
  revert todo s. induction l as [|p l IH]; intros todo s Hs; [done|]. cbn [foldl].
  pose proof (around_stopMatching s0 t run fence todo s p Hs) as Hp.
  destruct (stopMatching _ _ _ _ _) as [todo' s']. by apply IH.
Qed.
Lemma around_stopRun s t run g :
  let '(todo, s') := stopRunGeneration t run g s in around (toCancel todo) s s'.
Proof.
  unfold stopRunGeneration. destruct (runFences s !! run) as [f|]; [destruct (f <? g)|];
    apply (around_stopMatchings _ _ _ _ _ []); cbn [toCancel omap list_omap]; by_around.
Qed.

Lemma more_stopOne i s t id :
  holdsNetwork t = false → cancelling t = [] → more s t (stopOne i id s).
Proof.
  intros Ht Hc. unfold stopOne. pose proof (around_stopNode s (now i) id) as Ha.
  destruct (stopNode _ _ _) as [[[|p|p]|] s']; cbn [fst snd] in Ha; [by apply more_ends|by apply more_goes| |by apply more_ends].
  apply (more_list [p]); [done|done|by apply list.Forall_singleton| |rewrite Hc; by intros q ?%elem_of_nil].
  apply list.Forall_singleton. exists (Cancel p). split; apply list_elem_of_here.
Qed.
Lemma more_stopEach i s w ids : more s (StopEach w ids) (stopEach i w ids s).
Proof.
  destruct ids as [|id ids]; [by cbn [stopEach]; by_moving|]. cbn [stopEach].
  pose proof (around_stopNode s (now i) id) as Ha.
  destruct (stopNode _ _ _) as [[[|p|p]|] s']; cbn [fst snd] in Ha; [by apply more_goes| | |by apply more_goes].
  - apply (more_list []); [done|done|by repeat constructor|by apply list.Forall_nil|by intros q ?%elem_of_nil].
  - apply (more_list [p]); [done|done|by apply list.Forall_singleton| |by intros q ?%elem_of_nil].
    apply list.Forall_singleton. eexists. split; apply list_elem_of_here.
Qed.
Lemma more_stopRun i s run g : more s (StopRun run g) (stopRun i run g s).
Proof.
  unfold stopRun. pose proof (around_stopRun s (now i) run g) as Ha.
  destruct (stopRunGeneration _ _ _ _) as [todo s'].
  apply (more_list (toCancel todo)); [done|done| | |by intros q ?%elem_of_nil].
  - apply list.Forall_cons. split; [done|]. apply list.Forall_forall.
    intros t ([] & _ & [= <-])%list_elem_of_omap. done.
  - apply list.Forall_forall. intros p Hp. eexists. split; [apply list_elem_of_here|done].
Qed.
(** A thread that cancels [p] and goes on, or ends. *)
Lemma more_cancel s t p l :
  holdsNetwork t = false → Forall (λ t, holdsNetwork t = false) l →
  (∀ q, q ∈ cancelling t → q = p ∨ willCancel l q) → more s t (Some (modify p process.cancel s, l)).
Proof.
  intros Ht Hl Hc. apply (more_list []); [by_around|done|done|by apply list.Forall_nil|].
  intros q [->|?]%Hc; [left|by right]. unfold cancelled. by rewrite proc_modify.
Qed.

(** *** The threads of the experiment network *)
Lemma more_take s t next :
  holdsNetwork t = false → cancelling t = [] → holdsNetwork next = true → (∀ r, next ≠ FenceListing r) →
  more s t (handleExperimentNetwork next s).
Proof.
  intros Ht Hc Hn Hl. unfold handleExperimentNetwork. destruct (negb _ || _) eqn:Hb; [by apply more_ends; [apply around_refl|..]|].
  apply orb_false_iff in Hb as [Hauto%negb_false_iff Hmu]. intros s' l [= <- <-].
  split; cbn [experimentNetwork withNetworkMu log networkMu].
  - by rewrite total_cons, Hn, Ht, Hmu.
  - by left.
  - by left.
  - intros r ?%list_elem_of_singleton. by destruct (Hl r).
  - exists []. rewrite app_nil_r. split; [done|]. left. by apply list.Forall_nil.
  - by left.
  - rewrite Hc. by intros p ?%elem_of_nil.
Qed.
(** The request is answered. *)
Lemma more_unlock s t s' ev :
  holdsNetwork t = true → cancelling t = [] → networkMu s = true → (∀ p, proc s' p = proc s p) →
  log s' = log s ++ ev → (Forall quiet ev ∨ ∃ r run, t = FenceListing r ∧ ev = [NetworkFenced run ∅ ""]) →
  more s t (unlockNetwork s').
Proof.
  intros Ht Hc Hmu Hp Hl Hev s1 l [= <- <-]. split; cbn [experimentNetwork withNetworkMu log networkMu].
  - by rewrite Ht, Hmu.
  - by intros ? ?%elem_of_nil.
  - by right.
  - by intros ? ?%elem_of_nil.
  - by exists ev.
  - intros p. specialize (Hp p). unfold proc in *. cbn. rewrite Hp. by left.
  - rewrite Hc. by intros p ?%elem_of_nil.
Qed.
Lemma more_unlocks s t :
  holdsNetwork t = true → cancelling t = [] → networkMu s = true → more s t (unlockNetwork s).
Proof.
  intros. apply (more_unlock _ _ _ []); [done..|by rewrite app_nil_r|]. left. by apply list.Forall_nil.
Qed.
(** The request goes on. *)
Lemma more_keeps s t s' t' :
  holdsNetwork t = true → holdsNetwork t' = true → cancelling t = [] → networkMu s' = networkMu s →
  (∀ r, t' = FenceListing r → experimentNetwork s' = None ∧ ∀ p, known s' p → fin s' p) →
  (∀ p, proc s' p = proc s p) → log s' = log s → more s t (goes s' t').
Proof.
  intros Ht Ht' Hc Hmu Hli Hp Hl s1 l [= <- <-]. split.
  - by rewrite total_cons, Ht, Ht', Hmu.
  - by right.
  - by right.
  - intros r Hin%list_elem_of_singleton. by apply (Hli r).
  - exists []. rewrite app_nil_r. split; [done|]. left. by apply list.Forall_nil.
  - intros p. rewrite Hp. by left.
  - rewrite Hc. by intros p ?%elem_of_nil.
Qed.

(** No Peer occupies a slot. *)
Lemma unoccupied s p :
  serverOk disk s → existsb (λ p, occupies (proc s p)) (table s) = false → known s p → fin s p.
Proof.
  intros Hok Hno [x Hx]. exists x. split; [done|]. apply occupies_finished.
  destruct (occupies x) eqn:Ho; [|done]. exfalso. apply not_true_iff_false in Hno. apply Hno.
  apply existsb_exists. exists p. split; [|by rewrite (proc_heap _ _ _ Hx)].
  apply list_elem_of_In. apply (in_pending disk s p x); [done|done|].
  intros Hf%occupies_finished. congruence.
Qed.
Lemma fence_result r s :
  (∃ e, fenceExperimentNetwork r s = (Err e, s)) ∨
  fenceExperimentNetwork r s = (Ok tt, withNetworks None r s) ∧
  existsb (λ p, occupies (proc s p)) (table s) = false.
Proof.
  unfold fenceExperimentNetwork. do 3 (case_match; [left; by eexists|]).
  destruct (existsb _ _) eqn:He; [left; by eexists|by right].
Qed.
Lemma more_fenceSection i s r :
  ready disk s (FenceSection r) → networkMu s = true → more s (FenceSection r) (fenceSection i r s).
Proof.
  intros Hr Hmu. unfold fenceSection. destruct (ctxDone i); [by apply more_unlocks|].
  destruct (fence_result r s) as [[e ->]|[-> Hno]]; [by apply more_unlocks|].
  apply more_keeps; try done. intros _ _. split; [done|]. intros p Hk.
  exact (unoccupied s p (rd_ok _ _ _ Hr) Hno Hk).
Qed.
Lemma more_fenceListing i s r : networkMu s = true → more s (FenceListing r) (fenceListing i r s).
Proof.
  intros Hmu. unfold fenceListing. destruct (ioErr i); [by apply more_unlocks|].
  case_match eqn:Hb; [|by apply more_unlocks].
  apply andb_prop in Hb as [Hc%bool_decide_eq_true Ht]. unfold empty in Ht. apply bool_decide_eq_true in Ht.
  rewrite Hc, Ht. eapply more_unlock; [done..|]. right. eauto.
Qed.
Lemma more_activateCommit s n :
  networkMu s = true → more s (ActivateCommit n) (unlockNetwork (activateExperimentNetwork n s).2).
Proof.
  intros Hmu. unfold activateExperimentNetwork. destruct (_ || _); [by apply more_unlocks|].
  apply (more_unlock _ _ _ []); [done..|by rewrite app_nil_r|]. left. by apply list.Forall_nil.
Qed.

Lemma advance_more i s t :
  ready disk s t → (holdsNetwork t = true → networkMu s = true) →
  more s t (advance ParseFloat newSource i t s).
Proof.
  intros Hr Hmu. pose proof (rd_ok _ _ _ Hr) as Hok.
  destruct t; cbn [advance holdsNetwork] in *; try specialize (Hmu eq_refl).
  - unfold admitStart. by_moving.
  - unfold replayLook. by_moving.
  - unfold replayWait, answer. cbv zeta. by_moving.
  - unfold replayReceipt, answer. by_moving.
  - unfold admitResolve. by_moving.
  - by_moving.
  - unfold refused. by_moving.
  - by_moving.
  - by_moving.
  - unfold admitLock, refused. pose proof (around_insert s (now i) (request c) (hash c) a Hok) as Ha.
    by_moving. exact Ha.
  - unfold admitWrite. by_moving.
  - unfold admitCheck. by_moving.
  - unfold admitFailed, setAdmission. by_moving.
  - unfold admitAccepted, setAdmission. apply (more_list []); [by_around|done|by repeat constructor|by apply list.Forall_nil|].
    by intros q ?%elem_of_nil.
  - unfold admitClose. by_moving.
  - unfold finish. pose proof (around_finishBegin s (now i) (nodeID f) (pointer f) (runErr f) (cleanupErr f)) as Ha.
    destruct (finishBegin _ _ _ _ _ _) as [[[st m] due] s']. apply more_goes; [done|done|by destruct due|done].
  - apply more_goes; [|done..]. apply around_record; [by repeat constructor|apply around_queue].
  - unfold AgentThreads.finished. cbv zeta.
    destruct (madeBy f); [apply more_goes|apply more_ends|apply more_goes]; try done; apply around_finishEnd.
  - unfold dockerCreate. by_moving.
  - unfold dockerCreated. by_moving.
  - unfold dockerAdmitted. apply (more_list []); [by_around|done| |by apply list.Forall_nil|by intros q ?%elem_of_nil].
    destruct (empty lifetime); by repeat constructor.
  - unfold dockerStart. by_moving.
  - unfold dockerCleanup. by_moving.
  - unfold dockerLeft. cbv zeta. by_moving.
  - unfold dockerRunning. cbv zeta. apply more_goes; [|done..]. apply around_modify; [|apply around_refl].
    etrans; [|apply mild_key; discriminate]. etrans; [|apply mild_key; discriminate]. auto with mild.
  - unfold dockerWait. by_moving.
  - unfold dockerRemove. cbv zeta. by_moving.
  - by_moving.
  - unfold lifetimeStop. by_moving. by apply more_stopOne.
  - unfold retryRemove. cbv zeta. by_moving.
  - by apply more_stopOne.
  - apply (more_cancel _ _ p); [done|by apply list.Forall_nil|]. intros q ?%list_elem_of_singleton. by left.
  - apply more_stopRun.
  - destruct todo as [|p todo]; [by_moving|]. apply (more_cancel _ _ p); [done|by apply list.Forall_singleton|].
    intros q [->|Hq]%elem_of_cons; [by left|right]. eexists. split; [apply list_elem_of_here|done].
  - unfold stopAllStart. by_moving.
  - apply more_goes; [|done..]. unfold fenceTable. cbv zeta. apply around_record; [|by_around].
    by apply list.Forall_fmap, list.Forall_forall.
  - by_moving.
  - apply more_stopEach.
  - apply (more_cancel _ _ p); [done|by apply list.Forall_singleton|]. intros q ?%list_elem_of_singleton. by left.
  - unfold fenceRetired. by_moving.
  - unfold fenceFiles. by_moving. apply around_saveFence.
  - unfold waitBegin. by_moving.
  - unfold waitFor, waitEnd. by_moving.
  - unfold waitOn, waitEnd. by_moving.
  - unfold stopAllEnd. by_moving.
  - by_moving.
  - by_moving.
  - unfold reclaimScan. cbv zeta. by_moving.
  - unfold reclaimConfig, release. cbv zeta. by_moving.
  - unfold reclaimConfigDone. by_moving.
  - unfold reclaimRead. cbv zeta. by_moving.
  - unfold reclaimSave, release, saveRuns. by_moving.
  - unfold reclaimCommit, release, commitNodes. by_moving.
  - unfold reclaimDrop. apply more_goes; [apply around_drops|done..].
  - unfold reclaimFences, release. by_moving. apply around_saveFence.
  - apply more_goes; [apply around_evict|done..].
  - by_moving.
  - by_moving.
  - by_moving.
  - unfold heartbeatSend. cbv zeta. destruct (ioErr i); [by_moving|]. apply more_goes; [|done..].
    apply around_record; [|apply around_refl]. by apply list.Forall_fmap, list.Forall_forall.
  - unfold heartbeatAck. cbv zeta. pose proof (around_acknowledges s batch) as Ha.
    destruct (isNil _); [apply more_ends; [|done..]|by apply more_goes].
    by apply (around_same _ _ (foldl acknowledge s batch)).
  - by_moving.
  - by_moving.
  - apply more_ends; [|done..]. pose proof (around_forgets s). by apply (around_same _ _ (forgetAcknowledgements s)).
  - apply more_ends; [|done..]. destruct (processes s !! _) as [p|]; [|apply around_refl].
    apply around_modify; [apply mild_update|apply around_refl].
  - unfold admitTerminationsLocked. by_moving.
  - by_moving.
  - by_moving.
  - by apply more_take.
  - by apply more_fenceSection.
  - by apply more_fenceListing.
  - by apply more_take.
  - unfold activateCheck. destruct (_ || _); [by apply more_unlocks|by apply more_keeps].
  - destruct (isNil _); [by apply more_keeps|by apply more_unlocks].
  - by apply more_activateCommit.
Qed.

(** ** Every reachable world *)
(** [networkMu] has one holder; nothing runs while the daemon is asked for a
    reset; what was found then; and every mark leads to a cancellation. *)
Record worldMore (w : world) : Prop := {
  wm_mu : total (λ t, one (holdsNetwork t)) (threads w) = one (networkMu (srv w));
  wm_auto t : t ∈ threads w → holdsNetwork t = true → Config.AutoResetNetwork (config (srv w)) = true;
  wm_listing r : FenceListing r ∈ threads w →
    experimentNetwork (srv w) = None ∧ ∀ p, known (srv w) p → fin (srv w) p;
  wm_log l1 run own others l2 : log (srv w) = l1 ++ NetworkFenced run own others :: l2 →
    own = ∅ ∧ others = ""%string ∧ ∀ p id run' g, Admission p id run' g ∈ l1 → fin (srv w) p;
  wm_marks p : marked (proc (srv w) p) → cancelled (srv w) p ∨ willCancel (threads w) p }.

Lemma holder_mu w t :
  worldMore w → t ∈ threads w → holdsNetwork t = true → networkMu (srv w) = true.
Proof.
  intros Hm Hin Ht. pose proof (total_in (λ t, one (holdsNetwork t)) _ _ Hin) as Hle. cbn in Hle.
  rewrite (wm_mu _ Hm), Ht in Hle. destruct (networkMu (srv w)); [done|]. cbn in Hle. lia.
Qed.
Lemma cancelled_evolves s s' p : evolves s s' → cancelled s p → cancelled s' p.
Proof.
  intros He Hc. destruct (heap s !! p) as [x|] eqn:Hx.
  - apply (pe_cancelled _ _ (proc_evolves _ _ _ He (ex_intro _ x Hx)) Hc).
  - unfold cancelled, proc in Hc. by rewrite Hx in Hc.
Qed.
(** A log grown by [l'] splits in the old part or in the new one. *)
Lemma split_grown {A} (l l' l1 l2 : list A) e :
  l ++ l' = l1 ++ e :: l2 → (∃ l3, l = l1 ++ e :: l3) ∨ (e ∈ l' ∧ ∃ l3, l1 = l ++ l3).
Proof.
  revert l1. induction l as [|x l IH]; intros l1 E; cbn in *.
  - right. subst l'. split; [set_solver|]. by exists l1.
  - destruct l1 as [|y l1]; cbn in E; injection E as -> E; [left; by exists l|].
    destruct (IH _ E) as [[l3 ->]|(He & l3 & ->)]; [left; by exists l3|right]. split; [done|]. by exists l3.
Qed.

Lemma more_fins s s' : evolves s s' → newcomers s s' → Config.AutoResetNetwork (config s) = true →
  experimentNetwork s = None → (∀ p, known s p → fin s p) → ∀ p, known s' p → fin s' p.
Proof.
  intros He Hn Ha Hnet Hf p [x' Hx']. destruct (heap s !! p) as [x|] eqn:Hx.
  - apply (fin_evolves s); [done|]. apply Hf. by exists x.
  - destruct (Hn _ _ Hx Hx') as (_ & _ & Hno & _). by destruct (Hno Ha Hnet).
Qed.

Lemma world_more s l1 t l2 s' l :
  let w := mkWorld s (l1 ++ t :: l2) in
  worldOk disk w → worldMore w → stepOk disk s t s' l → stepMore s t s' l →
  worldMore (mkWorld s' (l1 ++ l ++ l2)).
Proof.
  intros w Hw Hm [_ He Hn _ _ _ _ _] [A B C D E F G]. pose proof Hm as [M1 M2 M3 M4 M5]. subst w. cbn in *.
  pose proof (ev_config _ _ He) as Hcfg.
  assert (∀ t', t' ∈ l1 ++ l2 → t' ∈ l1 ++ t :: l2) as Hold by (intros t'; set_solver).
  assert (∀ t', t' ∈ l1 ++ l ++ l2 → t' ∈ l ∨ t' ∈ l1 ++ l2) as Hsplit by (intros t'; set_solver).
  assert (t ∈ l1 ++ t :: l2) as Hin by set_solver.
  split; cbn.
  - rewrite total_app, total_cons in M1. rewrite !total_app. lia.
  - intros t' [Ht'|Ht'%Hold]%Hsplit Hh; rewrite Hcfg; [|by eapply M2].
    destruct (B _ Ht' Hh) as [?|Ht]; [done|by eapply M2].
  - intros r [Hr|Hr]%Hsplit; [by eapply D|]. pose proof (Hold _ Hr) as Hr'.
    destruct (M3 _ Hr') as [Hnet Hfin].
    assert (experimentNetwork s' = None) as Hnet'.
    { destruct C as [->|Ht]; [done|]. exfalso.
      pose proof (total_in (λ t, one (holdsNetwork t)) _ _ Hr) as Hle. cbn in Hle. rewrite total_app in Hle.
      rewrite total_app, total_cons, Ht in M1. destruct (networkMu s); cbn in M1; lia. }
    split; [done|]. apply (more_fins s); [done|done|by eapply M2|done|done].
  - intros la run own others lb Hlog. destruct E as (l' & El & Hl'). rewrite El in Hlog.
    destruct (split_grown _ _ _ _ _ Hlog) as [[l3 E3]|(Hev & l3 & ->)].
    + destruct (M4 _ _ _ _ _ E3) as (? & ? & Hf). split_and!; [done..|]. intros. eapply fin_evolves; [done|]. by eapply Hf.
    + destruct Hl' as [Hq|(r & run' & -> & ->)]; [by destruct (proj1 (list.Forall_forall _ _) Hq _ Hev)|].
      apply list_elem_of_singleton in Hev as [= -> -> ->]. split_and!; [done..|].
      rewrite <- app_assoc in Hlog. apply app_inv_head in Hlog.
      destruct l3 as [|e l3]; [|by destruct l3]. rewrite app_nil_r.
      intros p id run g Ha. apply (fin_evolves s); [done|]. apply (proj2 (M3 _ Hin)).
      destruct (so_admitted _ _ (wo_server _ _ Hw) _ _ _ _ Ha) as (x & Hx & _). by exists x.
  - assert (∀ p, willCancel l p → willCancel (l1 ++ l ++ l2) p) as Hnew.
    { intros p (t' & Ht' & Hp). exists t'. split; [set_solver|done]. }
    intros p [Hp|Hp]%F; [|right; by apply Hnew]. destruct (M5 _ Hp) as [Hc|(t' & Ht' & Hc)].
    + left. by eapply cancelled_evolves.
    + apply elem_of_app in Ht' as [Ht'|[->|Ht']%elem_of_cons].
      * right. exists t'. split; [set_solver|done].
      * destruct (G _ Hc); [by left|right; by apply Hnew].
      * right. exists t'. split; [set_solver|done].
Qed.

Lemma more_step w w' :
  worldOk disk w → worldMore w → step ParseFloat newSource w w' → worldMore w'.
Proof.
  intros Hw Hm Hstep. destruct Hstep as [t w Ht|i l1 t l2 s s' l Hadv].
  - assert (holdsNetwork t = false ∧ cancelling t = [] ∧ ∀ r, t ≠ FenceListing r) as (Hh & _ & Hl) by by destruct t.
    destruct Hm as [A B C D E]. split; cbn [srv threads].
    + by rewrite total_cons, Hh.
    + intros t' [->|?]%elem_of_cons Ht'; [congruence|by eapply B].
    + intros r [Hr|?]%elem_of_cons; [by destruct (Hl r)|by eapply C].
    + done.
    + intros p [?|(t' & ? & ?)]%E; [by left|right]. exists t'. split; [set_solver|done].
  - assert (t ∈ l1 ++ t :: l2) as Hin by set_solver.
    pose proof (ready_of disk (mkWorld s (l1 ++ t :: l2)) t Hw Hin) as Hr.
    apply (world_more s _ t); [done..| |].
    + eapply advance_ok; [exact Hr|exact Hadv].
    + eapply advance_more; [exact Hr| |exact Hadv]. by apply (holder_mu (mkWorld s (l1 ++ t :: l2))).
Qed.
Lemma start_more c t index files : worldMore (start c t disk index files).
Proof.
  split; cbn; try done.
  - by intros t' ?%elem_of_nil.
  - by intros r ?%elem_of_nil.
  - intros l1 run own others l2 Hl. assert (NetworkFenced run own others ∈ l1 ++ NetworkFenced run own others :: l2) as Hin by set_solver.
    rewrite <- Hl in Hin. by destruct (initial_events _ _ Hin) as (? & ? & ? & _).
Qed.
Lemma reachable_more c t index files w :
  reachable ParseFloat newSource c t disk index files w → worldMore w.
Proof.
  unfold reachable. intros Hr. pose proof (start_ok disk c t index files) as Hok.
  pose proof (start_more c t index files) as Hm.
  induction Hr as [|x y z Hstep _ IH]; [done|]. apply IH; [by eapply step_ok|by eapply more_step].
Qed.
End more.
