(* ===== verification/AgentProps.v ===== *)
(** * What an Agent guarantees

    Properties of every reachable Agent: one container per Peer, fences and the
    removals acknowledged under them, resets of the network, capacity, acknowledged
    creations, evidence of exits, that no waiter is left behind, and that stops are
    carried out.  They follow from the invariant
    [reachable_ok] and [reachable_more]; the last section runs an Agent, for the witnesses. *)
From Stdlib Require Import ZArith Lia.
From stdpp Require Import strings pretty list gmap sorting.
From S2P Require Import Prelude.
From S2P Require Import GoStd.
From S2P Require Import Distribution.
From S2P Require Import Network.
From S2P Require Import Attacks.
From S2P Require Import PeerScore.
From S2P Require Import GossipSubConfig.
From S2P Require Import NodeConfig.
From S2P Require Import AgentModel.
From S2P Require Import Inventory.
From S2P Require Import AgentPrepare.
From S2P Require Import AgentProcess.
From S2P Require Import AgentStatus.
From S2P Require Import AgentServer.
From S2P Require Import AgentThreads.
From S2P Require Import AgentInv.
From S2P Require Import AgentCalm.
From S2P Require Import AgentWorld.
From S2P Require Import AgentAdmission.
From S2P Require Import AgentStops.
From S2P Require Import AgentReach.
Open Scope Z_scope.

(** The containers launched and the exits evidenced, in order. *)
Definition launches (l : list event) : list nat :=
  omap (λ e, match e with Launched p => Some p | _ => None end) l.
Definition exits (l : list event) : list nat :=
  omap (λ e, match e with Terminated p => Some p | _ => None end) l.

(** Nothing of the process is left: its container is confirmed removed and no
    goroutine carries it on. *)
Definition gone (w : world) (p : nat) : Prop :=
  fin (srv w) p ∧ p ∉ containers (srv w) ∧ owners p (threads w) = 0%nat.

(** ** Counting in the log *)
Lemma NoDup_snoc {A} (l : list A) x : NoDup l → x ∉ l → NoDup (l ++ [x]).
Proof.
  intros Hl Hx. apply list.NoDup_app. split_and!; [done| |apply list.NoDup_singleton].
  intros y Hy ->%list_elem_of_singleton. done.
Qed.
Lemma in_launches p l : p ∈ launches l ↔ Launched p ∈ l.
Proof.
  unfold launches. rewrite list_elem_of_omap. split; [|intros; by exists (Launched p)].
  intros ([] & He & [= <-]). done.
Qed.
Lemma in_exits p l : p ∈ exits l ↔ Terminated p ∈ l.
Proof.
  unfold exits. rewrite list_elem_of_omap. split; [|intros; by exists (Terminated p)].
  intros ([] & He & [= <-]). done.
Qed.
Lemma history_once fin l :
  history fin l → NoDup (admittedIDs l) ∧ NoDup (launches l) ∧ NoDup (exits l).
Proof.
  induction 1 as [|l e _ (IH1 & IH2 & IH3) He]; [by split_and!; apply list.NoDup_nil|].
  unfold launches, exits. rewrite admittedIDs_app, !omap_app.
  destruct e; cbn in He |- *; rewrite ?app_nil_r; split_and!; try done.
  - apply NoDup_snoc; [done|apply He].
  - apply NoDup_snoc; [done|by rewrite in_launches].
  - apply NoDup_snoc; [done|by rewrite in_exits].
Qed.

Section props.
Context `{PeerCodec} `{CIDRs} `{PubSubLib} (ParseFloat : string → option float).
Context {R : Type} `{DistRand R} `{MathFns} (newSource : Z → R).
Context `{Encoding} `{StatusCodec}.
Context (c : Config.t) (t0 : Time) (disk : gmap string Node.t) (index : gset string)
  (files : gmap string Z).

Notation reached := (reachable ParseFloat newSource c t0 disk index files).

Lemma reached_log w l1 e l2 :
  reached w → log (srv w) = l1 ++ e :: l2 → allowed (fin (srv w)) l1 e.
Proof.
  intros Hw E. pose proof (wo_server _ _ (reachable_ok _ _ _ _ _ _ _ _ Hw)) as Hok.
  eapply history_split. rewrite <- E. apply (so_history _ _ Hok).
Qed.
Lemma fin_gone w p : worldOk disk w → fin (srv w) p → gone w p.
Proof.
  intros Hw (x & Hx & Hf). pose proof (wo_server _ _ Hw) as Hok. split_and!; [by exists x| |].
  - intros (y & Hy & Hnf)%(so_containers _ _ Hok). by assert (y = x) as -> by congruence.
  - rewrite (wo_owners _ _ Hw). unfold live. destruct Hf as [He _]. by rewrite Hx, He.
Qed.

(** ** One container per Peer *)
(** C6: In every reachable Agent no Peer ID was admitted twice, none that was
    already retired on disk when the Agent started was admitted at all, and
    [docker create] ran at most once for each admitted process, never without an
    admission. *)
Theorem one_container_per_peer w :
  reached w →
  NoDup (admittedIDs (log (srv w))) ∧
  (∀ id, is_Some (disk !! id) → id ∉ admittedIDs (log (srv w))) ∧
  NoDup (launches (log (srv w))) ∧
  ∀ p, p ∈ launches (log (srv w)) → ∃ id run g, Admission p id run g ∈ log (srv w).
Proof.
  intros Hw. pose proof (wo_server _ _ (reachable_ok _ _ _ _ _ _ _ _ Hw)) as Hok.
  destruct (history_once _ _ (so_history _ _ Hok)) as (A & B & _). split_and!; [done| |done|].
  - intros id. by apply (so_disk _ _ Hok).
  - intros p Hp%in_launches. destruct (so_events _ _ Hok p (or_introl Hp)) as [x Hx].
    do 3 eexists. apply (po_admitted _ _ _ (so_proc _ _ Hok _ _ Hx)).
Qed.

(** ** Fences *)
(** C4: A Peer is admitted only under a generation above every fence raised
    before for its run, also by predecessors of this Agent, whatever requests were
    interleaved with the admission; and no fence is ever lost: the one an
    admission compares with is at least as high as each fence raised. *)
Theorem fences_hold w run :
  reached w →
  (∀ l1 p id g l2 f, log (srv w) = l1 ++ Admission p id run g :: l2 → Fenced run f ∈ l1 → f < g) ∧
  (∀ f, Fenced run f ∈ log (srv w) → ∃ f',
     currentFence (runFences (srv w) !! run) (fences (srv w) !! run) = Some f' ∧ f <= f').
Proof.
  intros Hw. pose proof (wo_server _ _ (reachable_ok _ _ _ _ _ _ _ _ Hw)) as Hok. split.
  - intros l1 p id g l2 f E Hf. destruct (reached_log _ _ _ _ Hw E) as [_ Hg]. by apply Hg.
  - intros f Hf. destruct (so_fenced _ _ Hok _ _ Hf) as (f1 & Hf1 & Hle).
    destruct (current_max _ _ _ Hf1) as (f2 & ? & ?). exists f2. split; [done|lia].
Qed.

(** C2: Once the removal of a run up to a generation was acknowledged, no process
    of that run and of such a generation exists any more, then and in every later
    state: each has exited with its container confirmed removed, has no
    container, and no goroutine will start one. *)
Theorem drained_for_good w run g p id g' :
  reached w → Drained run g ∈ log (srv w) → Admission p id run g' ∈ log (srv w) → g' <= g → gone w p.
Proof.
  intros Hw Hd Ha Hle. apply fin_gone; [by eapply reachable_ok|].
  apply list_elem_of_split in Hd as (l1 & l2 & E). destruct (reached_log _ _ _ _ Hw E) as [Hf Hfin].
  rewrite E in Ha. apply elem_of_app in Ha as [Ha|Ha]; [by eapply Hfin|].
  apply elem_of_cons in Ha as [Ha|Ha]; [done|]. apply list_elem_of_split in Ha as (l3 & l4 & E').
  assert (log (srv w) = (l1 ++ Drained run g :: l3) ++ Admission p id run g' :: l4) as E2
    by (rewrite E, E', <- app_assoc; done).
  destruct (reached_log _ _ _ _ Hw E2) as [_ Hg]. specialize (Hg g). rewrite elem_of_app in Hg.
  specialize (Hg (or_introl Hf)). lia.
Qed.

(** C27: The Agent lets its experiment network be reset only when [docker ps] succeeded
    and listed no Peer container on that network, of this Agent's Peers or any other,
    and then no Peer admitted before has a container, a goroutine or an unconfirmed
    removal left.
    From the fence on, while the daemon is asked, no experiment network is active and
    every Peer ever admitted is gone.  Likewise none is left of the Peers admitted
    before the Agent answers that all were removed. *)
Theorem reset_leaves_no_peer w :
  reached w →
  (∀ l1 run own others l2, log (srv w) = l1 ++ NetworkFenced run own others :: l2 →
     own = ∅ ∧ others = ""%string ∧ ∀ p id run' g, Admission p id run' g ∈ l1 → gone w p) ∧
  (∀ r, FenceListing r ∈ threads w →
     experimentNetwork (srv w) = None ∧ ∀ p id run g, Admission p id run g ∈ log (srv w) → gone w p) ∧
  (∀ l1 l2 p id run g, log (srv w) = l1 ++ Emptied :: l2 → Admission p id run g ∈ l1 → gone w p).
Proof.
  intros Hw. pose proof (reachable_ok _ _ _ _ _ _ _ _ Hw) as Hwo.
  pose proof (reachable_more _ _ _ _ _ _ _ _ Hw) as Hm. split_and!.
  - intros l1 run own others l2 E. destruct (wm_log _ Hm _ _ _ _ _ E) as (-> & -> & Hfin).
    split_and!; [done..|]. intros. apply fin_gone; [done|]. by eapply Hfin.
  - intros r Hr. destruct (wm_listing _ Hm _ Hr) as [Hnet Hfin]. split; [done|].
    intros p id run g Ha. apply fin_gone, Hfin; [done|].
    destruct (so_admitted _ _ (wo_server _ _ Hwo) _ _ _ _ Ha) as (x & Hx & _). by exists x.
  - intros l1 l2 p id run g E Ha. apply fin_gone; [done|]. exact (reached_log _ _ _ _ Hw E p id run g Ha).
Qed.

(** ** Capacity *)
(** The processes whose container is not confirmed removed. *)
Definition unfinished (s : server) : gset nat := dom (filter (λ kv, occupies kv.2 = true) (heap s)).
Lemma in_unfinished s p : p ∈ unfinished s ↔ ∃ x, heap s !! p = Some x ∧ occupies x = true.
Proof. unfold unfinished. rewrite elem_of_dom. unfold is_Some. setoid_rewrite map_lookup_filter_Some. done. Qed.
Lemma not_finished x : occupies x = true ↔ ¬ AgentInv.finished x.
Proof. rewrite <- occupies_finished. by destruct (occupies x). Qed.

Lemma table_nodup s : serverOk disk s → NoDup (table s).
Proof.
  intros Hok. unfold table. apply list.NoDup_fmap_2_strong; [|apply NoDup_map_to_list].
  intros [k p] [k' p'] Hk%elem_of_map_to_list Hk'%elem_of_map_to_list E. cbn in E. subst p'.
  destruct (so_ids _ _ Hok _ _ Hk) as (x & Hx & <-). destruct (so_ids _ _ Hok _ _ Hk') as (y & Hy & <-).
  by assert (y = x) as -> by congruence.
Qed.
Lemma used_unfinished s : serverOk disk s → capacityUsedLocked s = size (unfinished s).
Proof.
  intros Hok. unfold capacityUsedLocked.
  rewrite <- (size_list_to_set (C := gset nat) (filter (λ p, occupies (proc s p) = true) (table s)))
    by (apply list.NoDup_filter, table_nodup, Hok).
  f_equal. apply set_eq. intros p. rewrite elem_of_list_to_set, list_elem_of_filter, in_unfinished. split.
  - intros [Ho Hp]. exists (proc s p). split; [|done]. by apply proc_known, (known_in_table disk).
  - intros (x & Hx & Ho). rewrite (proc_heap _ _ _ Hx). split; [done|].
    apply (in_pending disk s p x); [done|done|by apply not_finished].
Qed.
Lemma containers_unfinished s : serverOk disk s → containers s ⊆ unfinished s.
Proof.
  intros Hok p (x & Hx & Hf)%(so_containers _ _ Hok). apply in_unfinished. exists x. split; [done|].
  by apply not_finished.
Qed.

(** A step keeps the number of occupied slots, or takes one that is free. *)
Lemma used_step s s' :
  serverOk disk s → serverOk disk s' → evolves s s' → newcomers s s' →
  (capacityUsedLocked s' <= capacityUsedLocked s)%nat ∨
  (Z.of_nat (capacityUsedLocked s) < capacityLocked s ∧
   (capacityUsedLocked s' <= S (capacityUsedLocked s))%nat).
Proof.
  intros Hok Hok' He Hn. rewrite !used_unfinished by done.
  assert (∀ p x, heap s !! p = Some x → p ∈ unfinished s' → p ∈ unfinished s) as Hold.
  { intros p x Hx (x' & Hx' & Ho)%in_unfinished. apply in_unfinished. exists x. split; [done|].
    rewrite not_finished in *. intros Hf. destruct (ev_heap _ _ He _ _ Hx) as (y & Hy & [_ _ Hp]).
    assert (y = x') as -> by congruence. by apply Ho, Hp. }
  destruct (decide (unfinished s' ⊆ unfinished s)) as [Hsub|Hsub]; [left; by apply subseteq_size|right].
  assert (∃ p, p ∈ unfinished s' ∖ unfinished s) as [p Hp].
  { apply set_choose_L. intros Hem. apply Hsub. intros q Hq. destruct (decide (q ∈ unfinished s)); [done|].
    assert (q ∈ unfinished s' ∖ unfinished s) as Hqd by (by apply elem_of_difference).
    rewrite Hem in Hqd. by apply elem_of_empty in Hqd. }
  apply elem_of_difference in Hp as [Hp Hnp]. pose proof Hp as (x & Hx & _)%in_unfinished.
  destruct (heap s !! p) as [y|] eqn:Hy; [by destruct (Hnp (Hold _ _ Hy Hp))|].
  destruct (Hn _ _ Hy Hx) as (_ & _ & _ & Hcap & Hone). rewrite <- used_unfinished by done. split; [done|].
  rewrite used_unfinished by done. transitivity (size ({[p]} ∪ unfinished s)).
  - apply subseteq_size. intros q Hq. pose proof Hq as (z & Hz & _)%in_unfinished.
    destruct (Hone q) as [->|[y Hy']]; [by exists z|set_solver|]. apply elem_of_union_r. by eapply Hold.
  - rewrite size_union_alt, size_singleton. cbn. apply le_n_S, subseteq_size. set_solver.
Qed.

(** Steps while the capacity in force is at most [n]. *)
Definition stepWithin (n : Z) (w w' : world) : Prop :=
  step ParseFloat newSource w w' ∧ capacityLocked (srv w) <= n.

(** C13: As long as the capacity in force is never above [n], the occupied slots,
    and the containers among them, never exceed [n]: also while removals fail, are
    retried, and new creations race with them. *)
Theorem capacity_respected n w :
  rtc (stepWithin n) (start c t0 disk index files) w → 0 <= n →
  (size (containers (srv w)) <= capacityUsedLocked (srv w))%nat ∧
  Z.of_nat (capacityUsedLocked (srv w)) <= n.
Proof.
  intros Hw Hn.
  enough (∀ w0, rtc (stepWithin n) w0 w → worldOk disk w0 → Z.of_nat (capacityUsedLocked (srv w0)) <= n →
    worldOk disk w ∧ Z.of_nat (capacityUsedLocked (srv w)) <= n) as Hall.
  { destruct (Hall _ Hw (start_ok disk c t0 index files)) as [Hok Hle]; [done|]. split; [|done].
    rewrite (used_unfinished _ (wo_server _ _ Hok)). apply subseteq_size, containers_unfinished, Hok. }
  clear Hw. intros w0 Hs. induction Hs as [|w0 w1 w2 [Hstep Hcap] _ IH]; [done|]. intros Hok Hle.
  apply IH; [by eapply step_ok|].
  pose proof (step_ok disk ParseFloat newSource _ _ Hok Hstep) as Hok1.
  destruct Hstep as [t w0 Ht|i l1 t l2 s s' l Hadv]; [done|]. cbn in *.
  assert (stepOk disk s t s' l) as Hst.
  { eapply advance_ok; [|exact Hadv]. apply (ready_of disk (mkWorld s (l1 ++ t :: l2))); [done|]. set_solver. }
  destruct (used_step s s' (wo_server _ _ Hok) (wo_server _ _ Hok1) (st_ev _ _ _ _ _ Hst) (st_new _ _ _ _ _ Hst));
    lia.
Qed.

(** ** Creations and retired Peers *)
(** C28: Every acknowledgement of a creation, first or replayed, is of the Peer the
    request names: either this Agent admitted it, under the record's own run and
    generation, or the record is the one its predecessor had retired. *)
Theorem acknowledged_creation_exists w r n :
  reached w → Answered r n ∈ log (srv w) →
  Node.ID n = CreateNodeRequest.ID r ∧
  ((∃ p, Admission p (Node.ID n) (Node.RunID n) (Node.Generation n) ∈ log (srv w)) ∨
   disk !! Node.ID n = Some n).
Proof. intros Hw. apply (so_answered _ _ (wo_server _ _ (reachable_ok _ _ _ _ _ _ _ _ Hw))). Qed.

(** C16: Every Peer that was admitted is still in the table, or it is retired: its
    container is confirmed removed, a terminal record with its identity and state
    is on disk, and the Controller has taken a record with that state. *)
Theorem retired_evidence_kept w p id run g :
  reached w → Admission p id run g ∈ log (srv w) →
  processes (srv w) !! id = Some p ∨
  (gone w p ∧ ∃ n, stored (srv w) !! id = Some n ∧ identity n = (id, run, g) ∧ terminal n = true ∧
     ∃ m, Delivered m ∈ log (srv w) ∧ Node.ID m = id ∧ Node.State m = Node.State n).
Proof.
  intros Hw Ha. pose proof (reachable_ok _ _ _ _ _ _ _ _ Hw) as Hwo. pose proof (wo_server _ _ Hwo) as Hok.
  destruct (so_admitted _ _ Hok _ _ _ _ Ha) as (x & Hx & Hid). pose proof (so_proc _ _ Hok _ _ Hx) as Hp.
  assert (Node.ID (process.node x) = id) as E by (by injection Hid).
  destruct (po_table _ _ _ Hp) as [Ht|[Hr [n Hn]]]; rewrite E in *; [by left|right].
  destruct (po_stored _ _ _ Hp n) as (Hf & Hn1 & Hn2); [by rewrite E|].
  apply andb_prop in Hr as [Hack _]. destruct (po_ack _ _ _ Hp Hack) as (_ & m & Hm1 & Hm2 & Hm3).
  split; [apply fin_gone; [done|by exists x]|]. exists n. split_and!; [done|by rewrite Hn1| |].
  - pose proof (po_terminal _ _ _ Hp Hf) as Ht. unfold terminal, inState in *. by rewrite Hn2.
  - exists m. split_and!; [done|congruence|congruence].
Qed.

(** ** Exits *)
Lemma owner_thread p l : owners p l = 1%nat → ∃ t, t ∈ l ∧ ownerOf t = Some p.
Proof.
  unfold owners. induction l as [|t l IH]; [done|]. rewrite total_cons. intros E.
  destruct (decide (ownerOf t = Some p)) as [Ht|Ht]; [exists t; split; [set_solver|done]|].
  assert (isPointer p (ownerOf t) = 0%nat) as Hz.
  { unfold isPointer. by rewrite bool_decide_eq_false_2. }
  rewrite Hz in E. destruct (IH E) as (t' & ? & ?). exists t'. split; [set_solver|done].
Qed.
Lemma token_thread p l : (1 <= tokens p l)%nat → ∃ t, t ∈ l ∧ tokenOf t = Some p.
Proof.
  unfold tokens. induction l as [|t l IH]; [cbn; lia|]. rewrite total_cons. intros E.
  destruct (decide (tokenOf t = Some p)) as [Ht|Ht]; [exists t; split; [set_solver|done]|].
  assert (isPointer p (tokenOf t) = 0%nat) as Hz.
  { unfold isPointer. by rewrite bool_decide_eq_false_2. }
  rewrite Hz in E. destruct (IH E) as (t' & ? & ?). exists t'. split; [set_solver|done].
Qed.
Lemma owner_evidence s t p :
  threadOk s t → ownerOf t = Some p → Terminated p ∈ log s → p ∉ containers s.
Proof.
  destruct t; cbn; try done; unfold youngOk, unlaunched, finishOk, outcomeOk;
    intros Hth [= <-] Hin; try (by naive_solver).
  destruct Hth as ((_ & _ & Hout) & Hiff & _). apply Hiff in Hin. by rewrite Hin in Hout.
Qed.

(** C22: Evidence of a Peer's exit is queued once, only of a process that was
    admitted and only when its container has been removed; and a process that
    exited without a cleanup error has had it queued. *)
Theorem exit_evidence_once w :
  reached w →
  NoDup (exits (log (srv w))) ∧
  (∀ p, Terminated p ∈ log (srv w) →
     p ∉ containers (srv w) ∧ ∃ id run g, Admission p id run g ∈ log (srv w)) ∧
  (∀ p x, heap (srv w) !! p = Some x → AgentInv.finished x → Terminated p ∈ log (srv w)).
Proof.
  intros Hw. pose proof (reachable_ok _ _ _ _ _ _ _ _ Hw) as Hwo. pose proof (wo_server _ _ Hwo) as Hok.
  destruct (history_once _ _ (so_history _ _ Hok)) as (_ & _ & Hd). split_and!; [done| |].
  - intros p Hp. destruct (so_events _ _ Hok p (or_intror Hp)) as [x Hx].
    pose proof (so_proc _ _ Hok _ _ Hx) as Hpx. split; [|do 3 eexists; apply (po_admitted _ _ _ Hpx)].
    destruct (process.exited x) eqn:He.
    + apply (po_terminated _ _ _ Hpx He) in Hp. apply (fin_gone w p Hwo). by exists x.
    + assert (owners p (threads w) = 1%nat) as Ho
        by (rewrite (wo_owners _ _ Hwo); unfold live; by rewrite Hx, He).
      destruct (owner_thread _ _ Ho) as (t & Hin & Ht).
      apply (owner_evidence _ t); [|done|done]. by apply (proj1 (list.Forall_forall _ _) (wo_threads _ _ Hwo)).
  - intros p x Hx [He Hc]. by apply (po_terminated _ _ _ (so_proc _ _ Hok _ _ Hx) He).
Qed.

(** C29: A process whose container could not be removed keeps its slot and can be
    stopped again: it is in the table under its ID, and a stop takes it up under a
    new channel and starts another removal. *)
Theorem failed_cleanup_can_be_retried w p x now :
  reached w → heap (srv w) !! p = Some x → process.exited x = true → process.cleanupErr x ≠ None →
  occupies x = true ∧
  stopNode now (Node.ID (process.node x)) (srv w) = (Some (RetryRemoval p), reopenProcess p (srv w)).
Proof.
  intros Hw Hx He Hc. pose proof (wo_server _ _ (reachable_ok _ _ _ _ _ _ _ _ Hw)) as Hok.
  pose proof (so_proc _ _ Hok _ _ Hx) as Hp.
  assert (¬ AgentInv.finished x) as Hnf by (by intros [_ ?]). split; [by apply not_finished|].
  pose proof (po_container _ _ _ Hp He Hc) as Hid.
  assert (processes (srv w) !! Node.ID (process.node x) = Some p) as Ht.
  { destruct (po_table _ _ _ Hp) as [?|[Hr _]]; [done|]. apply andb_prop in Hr as [_ Hr].
    by apply cleanup_finished in Hr. }
  unfold stopNode. rewrite Ht, (proc_heap _ _ _ Hx), He. unfold retryable, empty.
  by rewrite !bool_decide_eq_false_2.
Qed.

(** ** Waiting *)
(** C21: No wakeup is lost and no channel is closed twice.  The Agent never panics;
    a handler that waits for a process waits on the channel of a process that a
    goroutine is carrying to its end, or the channel is closed already; a replayed
    creation waits only while the first admission is still to be announced. *)
Theorem no_lost_wakeup w :
  reached w →
  crashed (srv w) = false ∧
  (∀ wt ch pending failed, WaitOn wt ch pending failed ∈ threads w → ch ∉ closed (srv w) →
     ∃ p x t, heap (srv w) !! p = Some x ∧ process.done x = Some ch ∧ t ∈ threads w ∧
              ownerOf t = Some p) ∧
  (∀ cr p ch, ReplayWait cr p ∈ threads w →
     process.admissionDone (proc (srv w) p) = Some ch → ch ∉ closed (srv w) →
     ∃ t, t ∈ threads w ∧ tokenOf t = Some p).
Proof.
  intros Hw. pose proof (reachable_ok _ _ _ _ _ _ _ _ Hw) as Hwo. pose proof (wo_server _ _ Hwo) as Hok.
  pose proof (proj1 (list.Forall_forall _ _) (wo_threads _ _ Hwo)) as Hth. split_and!.
  - apply (so_crashed _ _ Hok).
  - intros wt ch pending failed Hin Hch.
    destruct (Hth _ Hin) as [_ [?|(p & rest & x & -> & Hx & Hd)]]; [done|].
    assert (process.exited x = false) as He.
    { destruct (process.exited x) eqn:He; [|done].
      destruct (po_done _ _ _ (so_proc _ _ Hok _ _ Hx)) as (d & Hd' & _ & Hiff).
      assert (d = ch) as -> by congruence. destruct Hch. by apply Hiff. }
    destruct (owner_thread p (threads w)) as (t & ? & ?); [|by exists p, x, t].
    rewrite (wo_owners _ _ Hwo). unfold live. by rewrite Hx, He.
  - intros cr p ch Hin Hadm Hch. destruct (Hth _ Hin) as (_ & Hk & _). apply token_thread.
    pose proof (proc_known _ _ Hk) as Hx. rewrite (wo_tokens _ _ Hwo p _ Hx) by congruence.
    unfold isOpen. rewrite Hx, Hadm, bool_decide_eq_true_2 by done. done.
Qed.

(** What a goroutine still has to do until its process has exited. *)
Definition remaining (t : thread) : nat :=
  match t with
  | AdmitWrite _ _ _ _ => 17 | AdmitCheck _ _ _ _ _ => 16
  | AdmitFailed _ _ _ | AdmitAccepted _ _ _ _ => 15
  | DockerCreate _ _ _ => 14 | DockerCreated _ _ _ => 13 | DockerAdmitted _ _ _ => 12
  | DockerStart _ _ => 11 | DockerRunning _ _ _ => 10 | DockerWait _ _ => 9
  | DockerRemove _ _ _ => 8 | DockerCleanup _ _ _ => 7 | DockerLeft _ _ _ _ => 6
  | RetryRemove _ => 5 | FinishBegin _ => 4 | FinishQueue _ _ _ _ => 3 | FinishEnd _ _ _ _ => 2
  | _ => 0
  end.

(** The step [m] of the thread [t] carries [p] further, or is its last. *)
Definition carries (p : nat) (t : thread) (m : moved) : Prop :=
  ∃ s' l, m = Some (s', l) ∧
    ((∃ t', t' ∈ l ∧ ownerOf t' = Some p ∧ (remaining t' < remaining t)%nat) ∨
     ∃ f st message o, t = FinishEnd f st message o).
Lemma carries_in p t s' t' l :
  t' ∈ l → ownerOf t' = Some p → (remaining t' < remaining t)%nat → carries p t (Some (s', l)).
Proof. intros Hin Ho Hr. exists s', l. split; [done|]. left. by exists t'. Qed.
Lemma carries_goes p t s' t' :
  ownerOf t' = Some p → (remaining t' < remaining t)%nat → carries p t (goes s' t').
Proof. apply carries_in, list_elem_of_here. Qed.

(** The goroutine that waits for its container. *)
Definition waitsDocker (t : thread) : bool := match t with DockerWait _ _ => true | _ => false end.
Lemma owner_moves i s t p :
  ownerOf t = Some p → waitsDocker t = false ∨ waitOver i = true ∨ cancelled s p →
  carries p t (advance ParseFloat newSource i t s).
Proof.
  intros Hp Hmove. destruct t; try done; cbn [ownerOf] in Hp; injection Hp as <-; cbn [advance].
  - apply carries_goes; [done|cbn; lia].
  - unfold admitCheck. destruct err; [apply carries_goes; [done|cbn; lia]|].
    destruct (process.cancelled _); (apply carries_goes; [done|cbn; lia]).
  - apply carries_goes; [done|cbn; lia].
  - eapply carries_in; [apply list_elem_of_further, list_elem_of_here|done|cbn; lia].
  - unfold finish. destruct (finishBegin _ _ _ _ _ _) as [[[st m] due] s'].
    destruct due; (apply carries_goes; [done|cbn; lia]).
  - apply carries_goes; [done|cbn; lia].
  - unfold AgentThreads.finished. cbv zeta. destruct (madeBy f); (do 2 eexists; split; [done|right; eauto]).
  - unfold dockerCreate. destruct (process.cancelled _); [apply carries_goes; [done|cbn; lia]|].
    destruct (ioErr i); (apply carries_goes; [done|cbn; lia]).
  - unfold dockerCreated. destruct (ioErr i); [apply carries_goes; [done|cbn; lia]|].
    destruct (empty _); [apply carries_goes; [done|cbn; lia]|].
    destruct (process.cancelled _); (apply carries_goes; [done|cbn; lia]).
  - eapply carries_in; [apply list_elem_of_here|done|cbn; lia].
  - unfold dockerStart. destruct (ioErr i); [apply carries_goes; [done|cbn; lia]|].
    destruct (process.cancelled _); (apply carries_goes; [done|cbn; lia]).
  - unfold dockerCleanup. destruct (ioErr i); (apply carries_goes; [done|cbn; lia]).
  - apply carries_goes; [done|cbn; lia].
  - apply carries_goes; [done|cbn; lia].
  - unfold dockerWait. destruct (waitOver i) eqn:Hover; [apply carries_goes; [done|cbn; lia]|].
    destruct Hmove as [?|[?|Hc]]; [done..|]. unfold cancelled in Hc. rewrite Hc.
    apply carries_goes; [done|cbn; lia].
  - apply carries_goes; [done|cbn; lia].
  - apply carries_goes; [done|cbn; lia].
Qed.

Lemma owner_carries w t p i :
  worldOk disk w → t ∈ threads w → ownerOf t = Some p →
  waitsDocker t = false ∨ waitOver i = true ∨ cancelled (srv w) p →
  ∃ s' l, advance ParseFloat newSource i t (srv w) = Some (s', l) ∧
    ((∃ t', t' ∈ l ∧ ownerOf t' = Some p ∧ (remaining t' < remaining t)%nat) ∨
     ∃ x ch, heap s' !! p = Some x ∧ process.exited x = true ∧ process.done x = Some ch ∧ ch ∈ closed s').
Proof.
  intros Hwo Hin Ho Hi. pose proof (ready_of disk w t Hwo Hin) as Hr.
  destruct (owner_moves i (srv w) t p Ho Hi) as (s' & l & Hadv & [Hleft|(f & st & m & o & ->)]);
    exists s', l; (split; [done|]); [by left|right].
  pose proof (advance_ok disk ParseFloat newSource i _ _ Hr s' l Hadv) as Hst.
  assert (live s' p = 0%nat) as Hl.
  { pose proof (st_owners _ _ _ _ _ Hst p) as Hso. rewrite Ho, isPointer_some in Hso.
    rewrite (rd_owner _ _ _ Hr p Ho) in Hso.
    assert (owners p l = 0%nat) as Hz; [|lia]. cbn in Hadv. unfold AgentThreads.finished in Hadv. cbv zeta in Hadv.
    by destruct (madeBy f); injection Hadv as <- <-. }
  destruct (live_known _ _ (rd_owner _ _ _ Hr p Ho)) as [[x Hx] _].
  destruct (ev_heap _ _ (st_ev _ _ _ _ _ Hst) _ _ Hx) as (x' & Hx' & _).
  destruct (po_done _ _ _ (so_proc _ _ (st_ok _ _ _ _ _ Hst) _ _ Hx')) as (ch & Hd & _ & Hiff).
  exists x', ch. unfold live in Hl. rewrite Hx' in Hl. destruct (process.exited x') eqn:He; [|done].
  split_and!; try done. by apply Hiff.
Qed.

(** ** Stops are carried out *)
(** A stop about to reach the process: of the Peer, of its run, of all Peers, or by the
    timer of its lifetime. *)
Definition asksStop (p : nat) (x : process.t) (t : thread) : Prop :=
  match t with
  | Lifetime q id => q = p ∧ id = Node.ID (process.node x)
  | StopNode id | StopEach _ (id :: _) => id = Node.ID (process.node x)
  | StopRun run g => Node.RunID (process.node x) = run ∧ Node.Generation (process.node x) <= g
  | _ => False
  end.
(** The context of the process is cancelled, or some thread is about to. *)
Definition underway (w : world) (p : nat) : Prop := cancelled (srv w) p ∨ willCancel (threads w) p.

Lemma stopNode_live t s p x :
  processes s !! Node.ID (process.node x) = Some p → heap s !! p = Some x → process.exited x = false →
  (stopNode t (Node.ID (process.node x)) s).1 = Some (CancelContext p).
Proof. intros Hp Hx He. unfold stopNode. by rewrite Hp, (proc_heap _ _ _ Hx), He. Qed.
(** The loop over the table takes up [p] unless its stop was requested before. *)
Lemma stopMatching_grows t run fence todo s q p :
  p ∈ toCancel todo → p ∈ toCancel (stopMatching t run fence (todo, s) q).1.
Proof.
  intros Hp. unfold stopMatching. repeat case_match; cbn [fst]; rewrite ?toCancel_app; set_solver.
Qed.
Lemma stopMatching_other t run fence todo s q p :
  q ≠ p → heap (stopMatching t run fence (todo, s) q).2 !! p = heap s !! p.
Proof. intros Hne. unfold stopMatching. repeat case_match; cbn; by rewrite ?lookup_insert_ne. Qed.
Lemma stopMatching_takes t run fence todo s p x :
  heap s !! p = Some x → process.exited x = false → ¬ marked x →
  Node.RunID (process.node x) = run → Node.Generation (process.node x) <= fence →
  p ∈ toCancel (stopMatching t run fence (todo, s) p).1.
Proof.
  intros Hx He Hm Hrun Hg. unfold stopMatching.
  rewrite (proc_heap _ _ _ Hx), He, Hrun, bool_decide_eq_true_2 by done.
  destruct (Z.ltb_spec fence (Node.Generation (process.node x))) as [|_]; [lia|]. cbn [negb orb].
  assert (empty (metadataAt (process.node x) "stopRequestedAt") = true) as ->.
  { apply bool_decide_eq_true. by destruct (decide (metadataAt (process.node x) "stopRequestedAt" = ""%string)). }
  rewrite andb_false_r. cbn [fst]. rewrite toCancel_app. set_solver.
Qed.
Lemma stopMatchings_grow t run fence l todo s p :
  p ∈ toCancel todo → p ∈ toCancel (foldl (stopMatching t run fence) (todo, s) l).1.
Proof.
  revert todo s. induction l as [|q l IH]; intros todo s Hp; [done|]. cbn [foldl].
  pose proof (stopMatching_grows t run fence todo s q p Hp) as Hq.
  destruct (stopMatching _ _ _ _ q) as [todo' s']. by apply IH.
Qed.
Lemma stopMatchings_take t run fence p x l todo s :
  heap s !! p = Some x → process.exited x = false → ¬ marked x →
  Node.RunID (process.node x) = run → Node.Generation (process.node x) <= fence →
  p ∈ l → p ∈ toCancel (foldl (stopMatching t run fence) (todo, s) l).1.
Proof.
  intros Hx He Hm Hrun Hg. revert todo s Hx. induction l as [|q l IH]; intros todo s Hx Hp; cbn [foldl].
  { by apply elem_of_nil in Hp. }
  destruct (decide (q = p)) as [->|Hne].
  - pose proof (stopMatching_takes t run fence todo s p x Hx He Hm Hrun Hg) as Ht.
    destruct (stopMatching _ _ _ _ p) as [todo' s']. by apply stopMatchings_grow.
  - pose proof (stopMatching_other t run fence todo s q p Hne) as Ho.
    destruct (stopMatching _ _ _ _ q) as [todo' s']. cbn in Ho.
    apply IH; [by rewrite Ho|]. by apply elem_of_cons in Hp as [<-|?].
Qed.

Lemma stopRun_takes t run g s p x :
  heap s !! p = Some x → process.exited x = false → ¬ marked x →
  Node.RunID (process.node x) = run → Node.Generation (process.node x) <= g → p ∈ table s →
  p ∈ toCancel (stopRunGeneration t run g s).1.
Proof.
  intros Hx He Hm Hrun Hg Hin. unfold stopRunGeneration.
  destruct (runFences s !! run) as [f|]; [destruct (Z.ltb_spec f g)|];
    apply (stopMatchings_take _ _ _ _ x); try done. lia.
Qed.

(** What is under way stays so. *)
Lemma underway_moves w l1 t l2 i s' l p :
  worldOk disk w → worldMore w → threads w = l1 ++ t :: l2 →
  advance ParseFloat newSource i t (srv w) = Some (s', l) → underway w p →
  underway (mkWorld s' (l1 ++ l ++ l2)) p.
Proof.
  intros Hw Hm Et Hadv Hu. assert (t ∈ threads w) as Hin by (rewrite Et; set_solver).
  pose proof (ready_of disk w t Hw Hin) as Hr. unfold underway, willCancel in *. cbn.
  destruct Hu as [Hc|(t' & Ht' & Hp)].
  - left. eapply cancelled_evolves; [|exact Hc]. exact (st_ev _ _ _ _ _ (advance_ok _ _ _ _ _ _ Hr _ _ Hadv)).
  - rewrite Et in Ht'. apply elem_of_app in Ht' as [Ht'|[->|Ht']%elem_of_cons].
    + right. exists t'. split; [set_solver|done].
    + pose proof (advance_more disk ParseFloat newSource i _ t Hr (holder_mu w t Hm Hin) _ _ Hadv) as Hsm.
      destruct (sm_cancel _ _ _ _ Hsm _ Hp) as [?|(t' & ? & ?)]; [by left|right]. exists t'. split; [set_solver|done].
    + right. exists t'. split; [set_solver|done].
Qed.

(** Every request that asks the process to stop has it cancelled. *)
Lemma asked_cancels w l1 t l2 i s' l p x :
  worldOk disk w → worldMore w → threads w = l1 ++ t :: l2 → heap (srv w) !! p = Some x →
  process.exited x = false → asksStop p x t → advance ParseFloat newSource i t (srv w) = Some (s', l) →
  underway (mkWorld s' (l1 ++ l ++ l2)) p.
Proof.
  intros Hw Hm Et Hx He Hask Hadv. pose proof (wo_server _ _ Hw) as Hok.
  assert (¬ AgentInv.finished x) as Hnf by (intros [? _]; congruence).
  pose proof (in_pending disk _ p x Hok Hx Hnf) as Hin.
  assert (processes (srv w) !! Node.ID (process.node x) = Some p) as Hps.
  { destruct (po_table _ _ _ (so_proc _ _ Hok _ _ Hx)) as [?|[Hr _]]; [done|].
    apply andb_prop in Hr as [_ Hr]. by apply cleanup_finished in Hr. }
  pose proof (stopNode_live (now i) _ _ _ Hps Hx He) as Hsn.
  assert (willCancel l p → underway (mkWorld s' (l1 ++ l ++ l2)) p) as Hnew.
  { intros (t' & Ht' & Hp). right. exists t'. cbn. split; [set_solver|done]. }
  destruct t; try done; cbn [asksStop advance] in *.
  - destruct Hask as [-> ->]. unfold lifetimeStop in Hadv. destruct (process.cancelled _) eqn:Hc.
    + injection Hadv as <- <-. by left.
    + unfold stopOne in Hadv. destruct (stopNode _ _ _) as [r s1]. cbn in Hsn. subst r.
      injection Hadv as <- <-. apply Hnew. eexists. split; apply list_elem_of_here.
  - subst id. unfold stopOne in Hadv. destruct (stopNode _ _ _) as [r s1]. cbn in Hsn. subst r.
    injection Hadv as <- <-. apply Hnew. eexists. split; apply list_elem_of_here.
  - destruct Hask as [Hrun Hg]. destruct (decide (marked x)) as [Hmark|Hmark].
    + apply (underway_moves w l1 (StopRun run generation) l2 i); [done..|].
      apply (wm_marks _ Hm). by rewrite (proc_heap _ _ _ Hx).
    + unfold stopRun in Hadv. pose proof (stopRun_takes (now i) run generation _ p x Hx He Hmark Hrun Hg Hin) as Ht.
      destruct (stopRunGeneration _ _ _ _) as [todo s1]. injection Hadv as <- <-. apply Hnew.
      eexists. split; [apply list_elem_of_here|exact Ht].
  - destruct ids as [|id ids]; [done|]. subst id. unfold stopEach in Hadv.
    destruct (stopNode _ _ _) as [r s1]. cbn in Hsn. subst r.
    injection Hadv as <- <-. apply Hnew. eexists. split; apply list_elem_of_here.
Qed.
(** A thread that is about to cancel the process moves under every input. *)
Lemma canceller_moves i t s p :
  p ∈ cancelling t → ∃ s' l, advance ParseFloat newSource i t s = Some (s', l) ∧
    (cancelled s' p ∨ ∃ t', t' ∈ l ∧ p ∈ cancelling t' ∧ (length (cancelling t') < length (cancelling t))%nat).
Proof.
  assert (∀ q s, cancelled (modify q process.cancel s) q) as Hc
    by (intros q s1; unfold cancelled; by rewrite proc_modify).
  destruct t; cbn [cancelling advance]; try by intros ?%elem_of_nil.
  - intros ->%list_elem_of_singleton. do 2 eexists. split; [done|]. left. apply Hc.
  - destruct todo as [|q todo]; [by intros ?%elem_of_nil|].
    intros Hp. do 2 eexists. split; [done|]. apply elem_of_cons in Hp as [->|Hp]; [left; apply Hc|right].
    eexists. split; [apply list_elem_of_here|]. split; [exact Hp|cbn; lia].
  - intros ->%list_elem_of_singleton. do 2 eexists. split; [done|]. left. apply Hc.
Qed.
Lemma underway_steps w w' p :
  rtc (step ParseFloat newSource) w w' → worldOk disk w → worldMore w →
  (underway w p → underway w' p) ∧ (cancelled (srv w) p → cancelled (srv w') p).
Proof.
  induction 1 as [|w w1 w2 Hstep _ IH]; [done|]. intros Hw Hm.
  destruct IH as [IH1 IH2]; [by eapply step_ok|by eapply more_step|].
  enough ((underway w p → underway w1 p) ∧ (cancelled (srv w) p → cancelled (srv w1) p)) as [? ?] by (split; auto).
  destruct Hstep as [t w Ht|i l1 t l2 s s' l Hadv]; split; try done.
  - intros [?|(t' & ? & ?)]; [by left|right]. exists t'. split; [set_solver|done].
  - intros Hu. by apply (underway_moves (mkWorld s (l1 ++ t :: l2)) l1 t l2 i).
  - cbn. apply cancelled_evolves. eapply st_ev, advance_ok; [|exact Hadv].
    apply (ready_of disk (mkWorld s (l1 ++ t :: l2))); [done|]. set_solver.
Qed.

(** C10: A process that runs is carried to its end once it is stopped.  One goroutine
    carries it, at most 17 of its steps from the exit; it can move whatever Docker,
    the disk and the spool answer, unless it waits for a container that Docker has not
    reported ended and the process's context is not cancelled; each move brings it
    nearer to the exit or is the exit, with the process's channel closed.  Every stop
    that reaches the process (of the Peer, of its run, of all Peers, by its lifetime) leads to that
    cancellation: it is done, or some thread is about to do it, which can move under
    every input and reaches this process in as many steps as are before it in its
    list.  And neither is ever undone. *)
Theorem admitted_process_ends w p x :
  reached w → heap (srv w) !! p = Some x → process.exited x = false →
  (∃ t, t ∈ threads w ∧ ownerOf t = Some p ∧ (remaining t <= 17)%nat ∧
     ∀ i, waitsDocker t = false ∨ waitOver i = true ∨ cancelled (srv w) p →
     ∃ s' l, advance ParseFloat newSource i t (srv w) = Some (s', l) ∧
       ((∃ t', t' ∈ l ∧ ownerOf t' = Some p ∧ (remaining t' < remaining t)%nat) ∨
        ∃ x' ch, heap s' !! p = Some x' ∧ process.exited x' = true ∧ process.done x' = Some ch ∧
                 ch ∈ closed s')) ∧
  (∀ i l1 t l2 s' l, threads w = l1 ++ t :: l2 → asksStop p x t →
     advance ParseFloat newSource i t (srv w) = Some (s', l) → underway (mkWorld s' (l1 ++ l ++ l2)) p) ∧
  (∀ i t, p ∈ cancelling t → ∃ s' l, advance ParseFloat newSource i t (srv w) = Some (s', l) ∧
     (cancelled s' p ∨
      ∃ t', t' ∈ l ∧ p ∈ cancelling t' ∧ (length (cancelling t') < length (cancelling t))%nat)) ∧
  (∀ w', rtc (step ParseFloat newSource) w w' →
     (underway w p → underway w' p) ∧ (cancelled (srv w) p → cancelled (srv w') p)).
Proof.
  intros Hw Hx He. pose proof (reachable_ok _ _ _ _ _ _ _ _ Hw) as Hwo.
  pose proof (reachable_more _ _ _ _ _ _ _ _ Hw) as Hm. split_and!.
  - destruct (owner_thread p (threads w)) as (t & Hin & Ho).
    { rewrite (wo_owners _ _ Hwo). unfold live. by rewrite Hx, He. }
    exists t. split_and!; [done|done|destruct t; cbn; lia|].
    intros i Hi. by apply (owner_carries w).
  - intros i l1 t l2 s' l Et Hask Hadv. by eapply asked_cancels.
  - intros i t. apply canceller_moves.
  - intros w' Hs. by apply underway_steps.
Qed.
End props.

(** ** Runs: a Peer is created, stopped while its creation is replayed, and removed; a
    second one is left behind by Docker.  In the other run the network is reset *)
Module AgentExamples.
#[local] Instance codec : PeerCodec := {| peerDecode := Some; peerString s := s |}.
#[local] Instance cidrs : CIDRs := {| IPNet := string; ParseCIDR s := Some s |}.
#[local] Instance pubsubLib : PubSubLib :=
  {| Regexp := string; regexpCompile s := Some s; MatchString r s := bool_decide (r = s);
     base64Decode s := Some s; Multiaddr := string; NewMultiaddr s := Some s;
     AddrInfoFromP2pAddr s := Some (s, 1%nat); PrivKey := string;
     UnmarshalPrivateKey s := Some s; IDFromPrivateKey s := Some s |}.
#[local] Instance encoding : Encoding :=
  {| encodeTopics := String.concat ","; encodeNetwork _ := "network"; encodeSchedule _ := "schedule";
     formatTime t := pretty t; requestHash r := ("#" +:+ CreateNodeRequest.ID r)%string |}.
#[local] Instance statusCodec : StatusCodec :=
  {| decodeNetwork _ := None; decodePatch _ := None; unmarshalPatch _ := None;
     encodePatch _ := ""%string; parseTime _ := None |}.
Definition parse (_ : string) : option float := None.
Definition source (seed : Z) : Z := seed.

Inductive action := Arrive (t : thread) | Move (k : nat) (i : input).
Definition act (w : world) (a : action) : option world :=
  match a with
  | Arrive t => if incoming t then Some (mkWorld (srv w) (t :: threads w)) else None
  | Move k i =>
      t ← threads w !! k;
      '(s, l) ← advance parse source i t (srv w);
      Some (mkWorld s (take k (threads w) ++ l ++ drop (S k) (threads w)))
  end.
(** The actions in order, while the capacity in force is at most [n]. *)
Fixpoint play (n : Z) (l : list action) (w : world) : option world :=
  match l with
  | [] => Some w
  | a :: l => if capacityLocked (srv w) <=? n then w ← act w a; play n l w else None
  end.
Lemma act_step w a w' : act w a = Some w' → step parse source w w'.
Proof.
  destruct a as [t|k i]; cbn.
  - destruct (incoming t) eqn:Ht; [|done]. intros [= <-]. by apply arrives.
  - destruct (threads w !! k) as [t|] eqn:Hk; [|done]. cbn.
    destruct (advance parse source i t (srv w)) as [[s l]|] eqn:Ha; [|done]. cbn. intros [= <-].
    destruct w as [s0 ts]. cbn in *. rewrite <- (take_drop_middle _ _ _ Hk) at 1. by apply (moves _ _ i).
Qed.
Lemma play_within n l w w' : play n l w = Some w' → rtc (stepWithin parse source n) w w'.
Proof.
  revert w. induction l as [|a l IH]; intros w; cbn; [intros [= ->]; apply rtc_refl|].
  destruct (Z.leb_spec (capacityLocked (srv w)) n) as [Hc|]; [|done].
  destruct (act w a) as [w1|] eqn:Ha; [|done]. cbn. intros Hp.
  apply (rtc_l _ _ w1); [split; [by apply (act_step w a)|done]|by apply IH].
Qed.
Lemma play_reaches n l w w' : play n l w = Some w' → rtc (step parse source) w w'.
Proof. intros Hp. apply (rtc_subrel (stepWithin parse source n)); [by intros ? ? [? _]|by eapply play_within]. Qed.

Definition agent : Config.t := Config.mk "a1" "http://controller" "http://a1" "" 2 false.
(** One that resets its network. *)
Definition resetter : Config.t := Config.mk "a1" "http://controller" "http://a1" "" 2 true.
Definition create (id : string) (generation : Z) : CreateNodeRequest.t :=
  CreateNodeRequest.mk 100 "" false 0 0 id "run" generation "g" "peer" "full" "" 7 NodeConfig.zero "".
Definition with_ (now : Time) (err : option string) (text : string) : input :=
  mkInput now false err text 0 false 5 false.
Definition does (n : nat) (k : nat) (now : Time) (text : string) : list action :=
  replicate n (Move k (with_ now None text)).
Definition fails (k : nat) (now : Time) (err : string) : list action := [Move k (with_ now (Some err) "")].

Definition upToStop : list action :=
  Arrive (AdmitStart (create "n1" 1)) :: does 12 0 101 "f00d" ++ does 5 1 102 "c0ffee" ++
  Arrive (AdmitStart (create "n1" 1)) :: does 2 0 103 "" ++
  Arrive (StopRun "run" 1) :: does 5 0 104 "".
Definition toTheEnd : list action :=
  does 1 2 105 "" ++ does 1 1 105 "" ++ does 6 1 106 "" ++ does 3 0 107 "" ++
  Arrive (AdmitStart (create "n2" 2)) :: does 12 0 109 "f00d" ++ does 1 0 110 "" ++
  does 1 0 111 "beef" ++ fails 0 112 "no space" ++ fails 0 113 "daemon is gone" ++ does 4 0 114 "".

(** The network is fenced and prepared, a Peer is created and stopped, and the network
    is fenced again; then comes [docker ps]. *)
Definition fence (t : Time) : list action :=
  Arrive (FenceNetwork (NetworkRequest.mk "run" (pretty t) t)) :: does 2 0 t "".
Definition toReset : list action :=
  fence 100 ++ does 1 0 100 "" ++
  Arrive (ActivateNetwork (ExperimentNetwork.mk "run" "100" "" "http://gateway" "http://peers")) ::
  does 4 0 100 "" ++
  Arrive (AdmitStart (create "n1" 1)) :: does 12 0 101 "f00d" ++ does 1 0 101 "" ++ does 5 0 102 "c0ffee" ++
  Arrive (StopNode "n1") :: does 2 0 104 "" ++ does 6 0 106 "" ++ fence 108.

Definition begin : world := start agent 100 ∅ ∅ ∅.
Definition waiting : world := default begin (play 2 upToStop begin).
Definition ended : world := default begin (play 2 (upToStop ++ toTheEnd) begin).

Definition beginReset : world := start resetter 100 ∅ ∅ ∅.
Definition asked : world := default begin (play 2 (take 29 toReset) beginReset).
Definition reset : world := default begin (play 2 (toReset ++ does 1 0 109 "") beginReset).

Lemma waiting_played : play 2 upToStop begin = Some waiting.
Proof. vm_compute. reflexivity. Qed.
Lemma ended_played : play 2 (upToStop ++ toTheEnd) begin = Some ended.
Proof. vm_compute. reflexivity. Qed.
Lemma waiting_reached : reachable parse source agent 100 ∅ ∅ ∅ waiting.
Proof. exact (play_reaches _ _ _ _ waiting_played). Qed.
Lemma ended_reached : reachable parse source agent 100 ∅ ∅ ∅ ended.
Proof. exact (play_reaches _ _ _ _ ended_played). Qed.

Lemma asked_played : play 2 (take 29 toReset) beginReset = Some asked.
Proof. vm_compute. reflexivity. Qed.
Lemma reset_played : play 2 (toReset ++ does 1 0 109 "") beginReset = Some reset.
Proof. vm_compute. reflexivity. Qed.
Lemma asked_reached : reachable parse source resetter 100 ∅ ∅ ∅ asked.
Proof. exact (play_reaches _ _ _ _ asked_played). Qed.
Lemma reset_reached : reachable parse source resetter 100 ∅ ∅ ∅ reset.
Proof. exact (play_reaches _ _ _ _ reset_played). Qed.
Lemma reset_log :
  log (srv reset) !! 5%nat = Some (NetworkFenced "run" ∅ "") ∧
  take 5 (log (srv reset)) !! 1%nat = Some (Admission 2 "n1" "run" 1).
Proof. vm_compute. done. Qed.
(** The Peer that is asked to stop, and the next move of the request. *)
Definition running : process.t := proc (srv asked) 2.
Definition afterAsk : server * list thread :=
  default (srv asked, []) (advance parse source (with_ 104 None "") (StopNode "n1") (srv asked)).
Lemma asked_peer :
  heap (srv asked) !! 2%nat = Some running ∧ process.exited running = false ∧
  Node.ID (process.node running) = "n1"%string ∧
  threads asked = [] ++ StopNode "n1" :: [DockerWait 2 "c0ffee"] ∧
  advance parse source (with_ 104 None "") (StopNode "n1") (srv asked) = Some (afterAsk.1, afterAsk.2).
Proof. vm_compute. done. Qed.

(** What was logged, by position. *)
Definition answered : Node.t :=
  match log (srv ended) !! 4%nat with Some (Answered _ n) => n | _ => zeroNode end.
Definition left_ : process.t := proc (srv ended) 5.
Lemma ended_log :
  log (srv ended) !! 0%nat = Some (Admission 2 "n1" "run" 1) ∧
  take 7 (log (srv ended)) !! 3%nat = Some (Fenced "run" 1) ∧
  log (srv ended) !! 4%nat = Some (Answered (create "n1" 1) answered) ∧
  log (srv ended) !! 6%nat = Some (Drained "run" 1) ∧
  log (srv ended) !! 7%nat = Some (Admission 5 "n2" "run" 2).
Proof. vm_compute. done. Qed.
Lemma ended_left :
  heap (srv ended) !! 5%nat = Some left_ ∧ process.exited left_ = true ∧ isNil (process.cleanupErr left_) = false.
Proof. vm_compute. done. Qed.
Lemma split_at {A} (l : list A) k e : l !! k = Some e → l = take k l ++ e :: drop (S k) l.
Proof. intros E. symmetry. by apply take_drop_middle. Qed.
Lemma isNil_false {A} (o : option A) : isNil o = false → o ≠ None.
Proof. by destruct o. Qed.

Lemma one_container_per_peer_witness : NoDup (launches (log (srv ended))).
Proof.
  exact (proj1 (proj2 (proj2 (one_container_per_peer parse source agent 100 ∅ ∅ ∅ ended ended_reached)))).
Defined.
Lemma fences_hold_witness : 1 < 2.
Proof.
  exact (proj1 (fences_hold parse source agent 100 ∅ ∅ ∅ ended "run" ended_reached) _ _ _ _ _ _
    (split_at _ _ _ (proj2 (proj2 (proj2 (proj2 ended_log)))))
    (list_elem_of_lookup_2 _ _ _ (proj1 (proj2 ended_log)))).
Defined.
Lemma drained_for_good_witness : gone ended 2.
Proof.
  exact (drained_for_good parse source agent 100 ∅ ∅ ∅ ended "run" 1 2 "n1" 1 ended_reached
    (list_elem_of_lookup_2 _ _ _ (proj1 (proj2 (proj2 (proj2 ended_log)))))
    (list_elem_of_lookup_2 _ _ _ (proj1 ended_log)) (Z.le_refl 1)).
Defined.
Lemma reset_leaves_no_peer_witness : gone reset 2.
Proof.
  exact (proj2 (proj2 (proj1 (reset_leaves_no_peer parse source resetter 100 ∅ ∅ ∅ reset reset_reached) _ _ _ _ _
    (split_at _ _ _ (proj1 reset_log)))) 2%nat _ _ _ (list_elem_of_lookup_2 _ _ _ (proj2 reset_log))).
Defined.
Lemma capacity_respected_witness : Z.of_nat (capacityUsedLocked (srv ended)) <= 2.
Proof.
  exact (proj2 (capacity_respected parse source agent 100 ∅ ∅ ∅ 2 ended
    (play_within _ _ _ _ ended_played) ltac:(lia))).
Defined.
Lemma acknowledged_creation_exists_witness : Node.ID answered = "n1"%string.
Proof.
  exact (proj1 (acknowledged_creation_exists parse source agent 100 ∅ ∅ ∅ ended (create "n1" 1) answered
    ended_reached (list_elem_of_lookup_2 _ _ _ (proj1 (proj2 (proj2 ended_log)))))).
Defined.
Lemma retired_evidence_kept_witness :
  processes (srv ended) !! "n1"%string = Some 2%nat ∨
  (gone ended 2 ∧ ∃ n, stored (srv ended) !! "n1"%string = Some n ∧ identity n = ("n1", "run", 1)%string ∧
     terminal n = true ∧ ∃ m, Delivered m ∈ log (srv ended) ∧ Node.ID m = "n1"%string ∧ Node.State m = Node.State n).
Proof.
  exact (retired_evidence_kept parse source agent 100 ∅ ∅ ∅ ended 2 "n1" "run" 1 ended_reached
    (list_elem_of_lookup_2 _ _ _ (proj1 ended_log))).
Defined.
Lemma exit_evidence_once_witness : NoDup (exits (log (srv ended))).
Proof. exact (proj1 (exit_evidence_once parse source agent 100 ∅ ∅ ∅ ended ended_reached)). Defined.
Lemma failed_cleanup_can_be_retried_witness : occupies left_ = true.
Proof.
  exact (proj1 (failed_cleanup_can_be_retried parse source agent 100 ∅ ∅ ∅ ended 5 left_ 120 ended_reached
    (proj1 ended_left) (proj1 (proj2 ended_left)) (isNil_false _ (proj2 (proj2 ended_left))))).
Defined.
Lemma no_lost_wakeup_witness : crashed (srv waiting) = false.
Proof. exact (proj1 (no_lost_wakeup parse source agent 100 ∅ ∅ ∅ waiting waiting_reached)). Defined.
Lemma admitted_process_ends_witness : underway (mkWorld afterAsk.1 ([] ++ afterAsk.2 ++ [DockerWait 2 "c0ffee"])) 2.
Proof.
  destruct asked_peer as (Hx & He & Hid & Hth & Hmove).
  exact (proj1 (proj2 (admitted_process_ends parse source resetter 100 ∅ ∅ ∅ asked 2 running asked_reached Hx He))
    (with_ 104 None "") _ _ _ _ _ Hth (eq_sym Hid) Hmove).
Defined.
End AgentExamples.
